(* ===== verification/_CoqProject ===== *)
-Q . S2P
Prelude.v
JsValue.v
PermTypes.v
PermContext.v
PermissionCore.v
PermissionEngine.v
ShellTokenize.v
ShellSplit.v
BashAst.v
BashGrammar.v
SafeCommand.v
BashRules.v
BashWrappers.v
BashSurface.v
BashEvaluate.v
BashPolicy.v
BashPaths.v
BashPathLaws.v
FsPath.v
FsPermission.v
PathCapability.v
FsChecker.v
PathLaws.v
PathApproval.v
UnknownPaths.v
BashRewrite.v
BashApproval.v
BashChecker.v
BashGuard.v
FsGuard.v
UnknownLaws.v
RgFingerprint.v
QueueModel.v
QueueRepo.v
QueueJournal.v
QueueLaws.v
QueueSpec.v
QueueDelivery.v
Utf8.v
TuiText.v
TuiStdin.v
TuiWrap.v
TuiEditor.v
TuiZipper.v
TuiEditorLaws.v
TuiEditorSpec.v
TuiEditorUndo.v
CtxTokens.v
CtxManager.v
CtxLock.v
GoalModel.v
GoalStore.v
GoalLaws.v
GoalSpec.v
RgSignals.v
RgStepView.v
RgGuard.v
TaskModel.v
TaskStore.v
TaskOutput.v
TaskManager.v
CronQueue.v
CronTasks.v
McpNames.v
McpRegistry.v
