(* ===== verification/Prelude.v ===== *)
(** * Bari: a verification library for the agent harness

    Bari is an agent harness in TypeScript: a terminal UI and a local daemon
    host conversations in which a language model calls tools.  This library
    models the harness's own decision logic (modules of
    [src/packages/agent-modules], the session queue of the local runtime and
    the input of the terminal UI) and proves what they promise.  Everything else
    in the repository is rendering, transport, storage or glue around that logic.

    ** The parts and how they interact

    Keys and pastes reach the terminal UI through its input buffer.  A message
    to a session is an item of the session queue: it is enqueued, edited,
    reordered, claimed by one owner at a time, delivered and consumed, while
    turn admission asks the queue whose turn it is; subscribers follow the queue
    by the facts each call commits.  Between steps the context manager measures
    the transcript and, when it is too long for the model, replaces its older
    part by a summary, one action per session at a time.

    Tools of MCP servers get public names from the name registry, and permission
    rules refer to those names.  A tool call first meets the permission system.
    A tool's checker looks at the call (the bash checker splits the command line
    into subcommands, looks at each through the user's rules and the safety
    layers, and knows commands that only read); the engine then folds the checker's
    result, the rules of the permission context and the mode into allow, ask or
    deny.  After every
    step of the model the runaway guard projects the step to keys, counts
    repetitions, and may steer the model once per turn.  Work that outlives a
    tool call is a background task: the manager drives its status in a task
    store and records lifecycle events, and its output goes to an output store
    that is read back in pages.  Tasks that run by the clock send prompts to
    sessions, and wait in a queue of their own while a session is busy.

    ** Files

    This file is the prelude: tactics, the hint database [bari], JavaScript
    strings as lists of UTF-16 code units, insertion-ordered maps ([jmap], the
    JavaScript [Map]), stable sorting, and the generic lemmas of all parts.
    [JsValue] holds dynamic values ([unknown]).

    Permission system, [agent-modules/permission/src]:
    - [PermTypes]: [types.ts], [ask-policy.ts]; rules, reasons, decisions.
    - [PermContext]: [context.ts], [mcp-runtime-name.ts]; the context, its
      [addRules], [replaceRules], [removeRules], and the rule queries.
    - [PermissionCore]: [permission-core.ts]; [reducePermissionDecision], the
      classifier fold, [reducePermissionEvaluation].
    - [PermissionEngine]: [engine.ts]; the checker registry, dispatch, the
      engine path and the Core path of [checkPermission].
    - [ShellTokenize], [ShellSplit]: [tools/shell-tokenize.ts] and
      [tools/bash-split.ts].
    - [BashAst], [BashGrammar]: [tools/bash-ast.ts]; the scanner for plain
      commands, and the grammar it is proved against.
    - [SafeCommand]: [tools/safe-command.ts]; the commands that need no question.
    - [BashRules]: [tools/bash-rule-match.ts]; rules as stored, parsed, compiled
      and matched.
    - [BashWrappers]: the wrappers of [tools/bash-wrapper-unwrap.ts] that rules
      look through, [tools/bash-fast-allow.ts], [tools/bash-safe-first-words.ts].
    - [BashSurface]: [tools/bash-safety-scan.ts]; the part of a command line that
      is code and not data.
    - [BashEvaluate]: [evaluateBashStatic] of [tools/bash-permission.ts] and its
      layers, over the class [BashPatterns] of pattern tables and probes.
    - [BashPolicy]: the theorems about it.
    - [BashPaths], [BashPathLaws]: [extractBashPathIntents] of
      [tools/path-capability.ts], the paths of a command line; a [getopt] of
      reference, and the theorems.
    - [BashRewrite]: the rewriting of deletions to trash commands, in
      [tools/bash-permission.ts], [tools/bash-checker.ts] and
      [windows-trash-execution.ts], over the class [HostPaths].
    - [BashApproval]: the rules suggested for an approval, in
      [tools/bash-checker.ts].
    - [BashChecker]: [BashToolPermissionChecker.checkPermissions] of the same
      file, over the class [PathCapabilities].
    - [BashGuard]: the checker registered in the engine; what reaches the user.
    - [FsPath]: the functions of [node:path] on POSIX and canonical paths, over the
      class [FsHost] of the process and the disk.
    - [FsPermission]: [tools/fs-permission.ts], [tools/path-identity.ts]; which
      files are protected, and [isPathAllowed].
    - [PathCapability]: [evaluatePathCapability] of [tools/path-capability.ts], and
      the private keys of [classifier/dangerous-patterns.ts].
    - [FsChecker]: [tools/fs-checker.ts], [written-files-registry.ts].
    - [UnknownPaths]: the files of patches, media tools and other tools without a
      checker, in [tools/path-capability.ts].
    - [PathLaws], [PathApproval]: what a rule covers, the grounds on which a path is
      allowed ([Ground]), secrets, and approvals.
    - [FsGuard], [UnknownLaws]: bash, the file tools and patches behind the engine,
      down to the files.

    Session queue, [local-runtime-v2/src/service/session-system/queue]:
    - [QueueModel]: [repo/contract.ts], [repo/codec.ts], [repo/policy.ts],
      [policy.ts], [routing.ts]; items, facts, validation, routing.
    - [QueueRepo]: [repo/drizzle.ts], [turn-priority-fence.ts]; the repository
      on its two tables, a function per method in the monad [M] of the tables
      and thrown errors, and [run] over every call.
    - [QueueJournal], [QueueLaws]: the reasoning rules ([wp]), the journal that
      relates a call's facts to the change of the tables, a law per method.
    - [QueueSpec], [QueueDelivery]: reachable states and the theorems.

    Context manager, [agent-modules/context-manager/src]:
    - [CtxTokens]: [token-estimator.ts].
    - [CtxManager]: [manager.ts], [settings.ts], [provider-budget.ts].
    - [CtxLock]: [InProcessContextManagerLock] of [manager.ts].

    Thread goals, [agent-modules/goal/src] and [local-runtime/src/thread-goal]:
    - [GoalModel]: [types.ts], [store-row.ts], [binding-stale.ts],
      [store-worker-proposal.ts]; a row and the goal it reads as.
    - [GoalStore]: [store.ts] and the other [store-*.ts]; every method over the
      table, with its clock reading.
    - [GoalLaws]: well-formed rows, and [RowStep], the ways an operation may
      change a row.
    - [GoalSpec]: the theorems, and where the comments differ from the code.

    Terminal UI, [tui/src/tui/engine]:
    - [TuiStdin]: [stdin-buffer.ts].
    - [TuiText]: [utils.ts], [word-navigation.ts], [kill-ring.ts],
      [undo-stack.ts]; widths, words and the two stores of the editor, over the
      class [Unicode] of segmenters and tables.
    - [TuiWrap], [TuiEditor]: [components/editor.ts]; paste markers and word
      wrap; the editor's state and operations, [perform] over every action.
    - [TuiZipper], [TuiEditorLaws]: the text around the cursor, and what each
      operation does to it.
    - [TuiEditorSpec], [TuiEditorUndo]: the abstract editor, and the theorems.

    Runaway guard, [agent-modules/runaway-guard/src]:
    - [RgFingerprint]: [fingerprint.ts]; the bounded stable serialisation.
    - [RgSignals]: [state.ts], [signals.ts], [reminder.ts]; the detectors.
    - [RgStepView]: [step-view.ts]; from a step to the keys they count.
    - [RgGuard]: [guard.ts], [replay.ts]; the guard object and the replay.

    MCP names, [agent-modules/mcp/src/runtime]:
    - [McpNames]: [tool-name.ts], and [allocate] of [name-registry.ts].
    - [McpRegistry]: [McpNameRegistry] of [name-registry.ts], its transactions
      and its file.

    Cron, [agent-modules/cron/src]:
    - [CronQueue]: [busy-queue.ts]; drains are processes cut at their awaits.
    - [CronTasks]: [active-hours.ts], and of [executor.ts] the retention and
      deletion of sessions, with [shared/src/cron-purpose.ts].

    Background tasks, [agent-modules/background-task/src]:
    - [TaskModel]: [types.ts], [status.ts], [errors.ts].
    - [TaskStore]: the [TaskStore] contract as the class [TaskStoreOps] with
      its laws [TaskStoreLaws]; [in-memory-store.ts] is its instance.
    - [Utf8], [TaskOutput]: [in-memory-output-store.ts].
    - [TaskManager]: [manager.ts], against the class, for any store.

    State.  Objects with mutable fields are records, and a method is a function
    from the record to its result and the new record.  Exceptions are sums, or
    [option] where the thrown value is not looked at.  An asynchronous method of
    the task manager is a process ([Proc]) cut at its awaits; [act] interleaves
    any number of them with runner outcomes and clock readings; the session lock
    is a step relation in the same way.  A queue call is a transaction: one step.

    ** What the theorems show

    A theorem named by its identifier instead of a number is proved like the others,
    but is not one of the numbered claims.

    - Permission verdicts (C1): the reducer equals a short
      policy written without its control flow.  The two policy owners agree
      (C3), and a failing checker asks (C37).
      Without number: restricting rules never relaxes a verdict
      ([restricting_update_monotone]), [evaluation_implements_policy], [classifier_only_refines],
      [evaluation_order_irrelevant], [update_slot].
    - Bash commands: on ordinary text the scanner is the grammar of plain commands
      (C21); a script runs without a question
      exactly when all its commands read only (C12); a
      stored approval covers the command and its extensions
      ([stored_rules_match_extensions]); wildcards match as documented, where each
      backslash is part of an escape and the marks do not collide
      (C28); heredoc bodies are code only where an
      interpreter reads them ([heredoc_bodies_are_data]); deny rules win
      (C15), no permission lifts a denial
      ([denials_survive_permission], without number).  Paths: every operand that
      [getopt] sees is checked ([no_operand_is_missed]), every target of an output
      redirection is ([redirections_are_checked]), and the files of a search are
      those of [getopt] (C11), as long as its options take their
      values where the scanner thinks so ([knownOptions]).  A deletion is rewritten
      exactly, with its operands (C13), and an approval settles the question
      (C14).  Through the engine: what is denied never
      runs (C6), nor does a command with a denied operand
      ([denied_paths_are_not_reached]), a question of the user is never waived
      (C10), and a call is allowed for a reason
      ([allowed_for_a_reason]); the first two assume that recognised Windows
      deletions name targets ([literalTargets]), the last two that path
      capabilities answer allow, ask or deny ([capabilitiesDecide]), which
      [capabilities_decide] proves of [evaluatePathCapability].  Without
      number: [auto_mode_only_moves_questions], [git_approval_is_exact].
    - Files: a rule covers what its segments say, unless its directory is the root
      (C17).  A
      [Ground] is a rule of the user that covers the file, a directory of the
      session, a directory that is readable for tools that only read, a temporary
      or trusted write, or a file of the system.  A path is allowed for a ground
      ([paths_are_allowed_for_a_ground]), a secret needs a rule that covers it
      ([secrets_need_a_rule]), restricting rules opens nothing
      (C9) but temporary writes, no rule for files allows an execution
      ([execution_ignores_umbrella_rules]), and an approved path, in a directory
      below the root, is not asked about again by a tool that has its own rules
      (C16).  Behind the engine: a listed command
      (C5), a file tool
      (C8) and a patch
      (C7) touch only files with a ground, and no
      listed command touches a secret silently in any mode
      (C4); what is listed, and how it touches a
      file, is [touches] (an unlisted reader or a wrapper is not looked through).  A patch names its files
      (C22), the strictest answer wins
      ([strictest_answer_wins]), and the registry of written files is exact
      ([written_files_are_exact]).  These theorems speak of paths that all readings of
      the code agree on ([denotes]), as every ordinary absolute path is
      ([absolute_denotes]), and of secrets that are neither files of the system nor
      its runtime data ([sensitive]).
    - Session queue: the committed facts replay to the tables, from nothing or from
      the last [replaceSession], which commits none
      (C2); the invariant of the tables (C24); a
      claim takes the head (C30), and turn admission agrees
      with it ([fence_agrees_with_the_claim]); recovery
      ([recovery_settles_the_claim]).  Without number: [sessions_are_isolated],
      [repeated_enqueue_adds_nothing], [reorder_follows_the_request],
      [front_requeue_of_a_claim_throws].
    - Context manager: compaction keeps calls and results together
      (C18); the estimator's cache is invisible
      ([estimates_need_no_cache], without number); the session lock is serial
      (C34).  Without number:
      [recent_messages_are_kept] (compaction keeps the recent part), [replacement_is_a_fresh_start], [budgets_fit_the_window],
      [waiting_calls_make_progress].
    - Thread goals: rows stay well formed, given inputs as their callers give them
      ([input_ok], C35); an epoch names
      one decision (C27), so a write bound to another
      one changes nothing ([stale_writes_change_nothing], without number); only the user reopens a
      goal ([only_a_patch_reopens]); usage is never lost ([usage_is_never_lost]);
      answers agree with the rows ([answers_are_the_rows], without number); the breaker counts
      trailing runs (C19).
    - Terminal input, without number: chunking is invisible
      ([chunks_do_not_matter]), [paste_arrives_whole].
    - Terminal editor: apart from pastes and the renumbering of markers it refines a
      gap buffer with a kill ring (C23); every edit can be undone
      (C31).  Word wrap
      loses nothing and fits (C38).  Without number: kills come
      back with a yank ([kills_then_yank]), the host knows the text
      ([changes_are_reported]), large pastes are submitted whole
      ([pastes_are_submitted_whole]), [yank_pops_walk_the_ring], [too_wide_never_returns].
    - MCP names: the permission rule of a server covers its own tools and no
      others (C36).  Without number: a name never changes hands
      ([answers_never_change]), [disk_registry_is_memory],
      [built_name_matches], [every_candidate_served],
      [allocation_order_irrelevant].
    - Shell text, without number: quoted text never splits ([quoted_never_split]); quoting then tokenising is the identity ([tokenize_quoted_argv]),
      [split_partition] (splitting loses only separators),
      [splitCommand_equation] (recursion after heredocs ends and satisfies its
      equation), [heredoc_ranges_ordered], [tokenize_spans].
    - Fingerprints, without number: two values share a text exactly when they
      differ in key order only ([serialize_identity]); [serialize_refines_text].
    - Runaway guard: one reminder per turn (C39).
      Without number: runs are isolated ([runs_isolated]), [reminder_candidates_exact],
      [replay_is_live_guard], [streaks_count_trailing_run], [observe_steers_by_priority],
      [abab_reports_every_alternation], [results_order_irrelevant],
      [blocked_results_invisible], [replay_summary_counts_observations].
    - Background tasks: under every interleaving the store, the log and the
      results stay consistent (C20) and settled tasks stay
      settled (C29); every call settles (C40);
      cursors enumerate every match once ([pages_complete]).  Without number:
      [status_order], [start_undisturbed], [append_then_read],
      [paged_read_complete].

    - Cron: a message waits as long as nothing concerns it, where keys tell tasks
      apart (C33), is sent at most once and told so
      (C25), and settles after a drain,
      its task left alone (C26); retention keeps the newest
      sessions, as many as the task says (C32).  Without number: [every_message_has_one_fate],
      [only_own_sessions_are_deleted], [orphans_have_no_task],
      [active_hours_are_a_window].

    Lemmas without a number record where code and intent part:
    [ruleValueEquals_not_symmetric], [off_mode_asks], [silent_failure_allows],
    [empty_argument_dropped], [quoted_assignment_dropped], [fold_escaped_quote],
    [fractional_limit_stalls], [page_boundary_corrupts], [completed_twice],
    [stop_rejects_when_task_completes], [start_rejects_when_task_completes],
    [escape_before_paste_is_lost], [mark_behind_marker_is_dropped],
    [backspace_leaves_a_bracket], [renumbering_writes_undefined],
    [snapped_column_goes_negative], [backward_jump_stays],
    [complete_goal_reopens_in_two_patches], [main_turn_limit_left_in_two_patches],
    [fractional_budget_is_read_as_no_cap],
    [line_break_joins_commands], [escaped_ampersand_joins_commands],
    [quoted_backslash_is_lost], [second_line_is_approved],
    [background_command_is_approved], [uniq_output_is_approved],
    [star_stops_at_a_line_break], [marks_collide],
    [escaped_backslash_hides_a_star], [approval_covers_more_arguments],
    [quoted_marker_hides_the_next_line], [quoted_marker_lets_a_pipe_through],
    [help_request_precedes_deny_rules], [pipe_question_precedes_deny_rules],
    [encoded_payload_is_only_asked_about], [comment_is_rewritten_instead],
    [assignment_is_rewritten_instead], [continued_deletion_is_not_rewritten],
    [next_command_is_trashed], [dash_names_are_lost], [trash_path_is_split],
    [spaced_command_is_asked_again], [exact_command_is_a_pattern],
    [wrapped_shell_is_offered], [quoted_shell_is_offered],
    [immune_question_loses_the_rewriting], [redirection_becomes_the_destination],
    [suffix_becomes_the_destination], [dynamic_destination_hides_the_source],
    [dollar_script_hides_the_file], [type_option_hides_the_file],
    [quoted_operator_hides_an_operand], [both_outputs_are_not_seen],
    [redirection_is_deleted], [wrapper_skips_the_question],
    [unlisted_reader_skips_the_question], [second_output_skips_the_question],
    [copy_question_is_lifted], [root_contains_nothing],
    [sibling_memory_is_writable], [permissions_are_writable],
    [temporary_write_ignores_a_denial], [removal_is_judged_from_the_start],
    [another_rule_opens_the_secret], [denied_key_is_asked_about],
    [key_is_asked_about_forever], [runtime_data_is_waived],
    [approval_opens_the_directory], [approval_in_the_root_is_lost],
    [relative_write_is_recorded_elsewhere], [removed_task_is_sent],
    [older_message_is_sent_last], [tasks_share_a_key], [midnight_is_outside],
    [rejected_read_drops_the_entry], [omitted_number_keeps_all];
    [interleaved_calls_can_be_parted] shows that a hypothesis of
    C18 is needed.

    ** Bounds and fuel

    Fuel appears where an index jumps: the heredoc scanners, [consume_loop],
    [splitCommand_go] and [collectHeredocBodyRanges] get one more than the
    length of their input, and every round moves the index forward;
    [splitCommand_equation] and [heredoc_ranges_ordered] state the result without fuel.  The input buffer's
    loops get as many rounds as code units are left ([process_enough],
    [extract_enough]).  [existing_loop] climbs to the parent at most once per unit of its path.  The suffix search of [McpNames] gets one
    round more than there are names taken, and never runs out
    ([findSuffix_ends]).  [pages_complete] and [paged_read_complete] give their readers one
    round more than there are items.  The fuel of [wordWrapLine] is the call
    stack: two calls are enough when every character fits, and no number is when
    one does not.  The jump and the vertical moves of the editor go at most once
    over the lines.  Numbers of the code that only count
    (occurrences, step indices, row ids, sequence numbers) are [nat]: they stay
    far below 2^53.  Times and token counts are [Z].

    ** What is not expressed, and why

    Logging has no effect on results.  The SHA-256 hash and HMAC, the exact
    tokenizer, the Unicode lower-case table, random bytes, identifier generators
    and clocks are parameters: they belong to Node or to packages; so is
    [JSON.parse] on a registry key.  Drizzle and SQLite are what the repository's
    calls say: filtered selects in row order, inserts under two unique indexes,
    updates, deletes, and transactions that roll back.  The regular expression a
    wildcard becomes is built as its source text and then read; expressions of a
    shape the translation never builds, the case folding of the [i] flag and
    [toLowerCase] are parameters.  The tables of dangerous commands, the
    write-target gate, the unwrapping of nested command lines, the Windows
    deletions and the slow-command scan are arbitrary in [BashPatterns], the home directory and
    [path.join] in [HostPaths], and path capabilities in [PathCapabilities], of which
    [FsGuard] gives the instance.  Of paths, the POSIX branches are modelled; drive
    letters, mapped drives and the rest of Windows are not.  The current, home and
    temporary directories, symbolic links and [toLowerCase] are in [FsHost], the
    decoding of file URLs in [FileUrls].  Tool checkers, tool
    policies, summary generators, task runners and the editor's host are code
    behind interfaces and are arbitrary functions here; so are [Intl.Segmenter]
    and the Unicode tables, with their documented laws.  Rendering, the decoding
    of keys to actions and autocompletion are left out of the editor.  Values are trees, so
    cyclic objects, getters and shared mutable subobjects are out of scope; so
    is an observer that calls back into the guard.  Promise scheduling is
    covered by quantifying over all interleavings at awaits.

    ** Not modelled

    The tables behind [BashPatterns] are some hundred regular expressions with
    look-ahead and back-references: a model of them is a model of the regular
    expression engine, and the theorems hold for any tables.  The write-target gate
    and [unwrapCommandWrappers] decode PowerShell and cmd command lines; the Windows
    deletions and the slow-command scan ask the disk and the clock.  The goal
    settlement pipeline, the timers and runs of the cron service, the queue's service and dispatcher, the
    stores of permissions and the connections of MCP servers arrange calls to models,
    timers, files and networks around the parts modelled here; their decisions are
    those of the stores and reducers they call.  The editor's autocompletion and
    rendering, the browser, the desktop application, configuration and the transport
    of the local runtime have no counterpart here. *)
From Stdlib Require Export Ascii String NArith ZArith Bool Lia.
From stdpp Require Export base tactics option list list_numbers numbers strings relations.
From stdpp Require Export gmap.

#[export] Set Default Goal Selector "!".

(** ** Automation

    [bari] collects the lemmas that close the routine goals of the library;
    the tactics below do the case analysis on boolean conditions, optional
    values and decided equalities that translated code produces. *)
Create HintDb bari discriminated.

(** Case on the innermost scrutinee of the first [match]/[if] of the goal. *)
Ltac case_goal :=
  match goal with
  | |- context [match ?x with _ => _ end] =>
      lazymatch x with
      | context [match _ with _ => _ end] => fail
      | _ => destruct x eqn:?
      end
  end.

(** The same in a hypothesis. *)
Ltac case_hyp H :=
  match type of H with
  | context [match ?x with _ => _ end] =>
      lazymatch x with
      | context [match _ with _ => _ end] => fail
      | _ => destruct x eqn:?
      end
  end.

(** Turn boolean equations into propositions. *)
Ltac reflect_bools :=
  repeat match goal with
  | H : (_ && _)%bool = true |- _ => apply andb_true_iff in H as [? ?]
  | H : (_ || _)%bool = false |- _ => apply orb_false_iff in H as [? ?]
  | H : negb _ = true |- _ => apply negb_true_iff in H
  | H : negb _ = false |- _ => apply negb_false_iff in H
  | H : bool_decide _ = true |- _ => apply bool_decide_eq_true in H
  | H : bool_decide _ = false |- _ => apply bool_decide_eq_false in H
  | H : (_ =? _)%Z = true |- _ => apply Z.eqb_eq in H
  | H : (_ =? _)%Z = false |- _ => apply Z.eqb_neq in H
  | H : (_ <? _)%Z = true |- _ => apply Z.ltb_lt in H
  | H : (_ <? _)%Z = false |- _ => apply Z.ltb_ge in H
  | H : (_ <=? _)%Z = true |- _ => apply Z.leb_le in H
  | H : (_ <=? _)%Z = false |- _ => apply Z.leb_gt in H
  end.

(** ** JavaScript strings

    A string is the list of its UTF-16 code units, as [s[i]] and [s.length]
    see it.  [js] embeds an ASCII literal. *)
Abbreviation jchar := N (only parsing).
Abbreviation jstr := (list N) (only parsing).

Fixpoint js (s : string) : jstr :=
  match s with
  | EmptyString => []
  | String a s' => N_of_ascii a :: js s'
  end.
Arguments js s%_string.

(** The code unit of an ASCII character. *)
Definition ch (a : ascii) : jchar := N_of_ascii a.
Arguments ch a%_char.
Definition dquote : jchar := 34%N.
Definition newline : jchar := 10%N.
Definition cr : jchar := 13%N.

Definition str_eqb (a b : jstr) : bool := bool_decide (a = b).

(** [Boolean(s)] for a string: false exactly on the empty string. *)
Definition truthy (s : jstr) : bool := match s with [] => false | _ => true end.

(** [Boolean(s)] for an optional string. *)
Definition otruthy (o : option (jstr)) : bool :=
  match o with Some s => truthy s | None => false end.

(** [p] is a prefix of [s]. *)
Fixpoint startsWith (s p : jstr) : bool :=
  match p, s with
  | [], _ => true
  | _ :: _, [] => false
  | c :: p', d :: s' => (c =? d)%N && startsWith s' p'
  end.

(** [s.includes(sub)]. *)
Fixpoint includes (s sub : jstr) : bool :=
  startsWith s sub || match s with [] => false | _ :: s' => includes s' sub end.

(** [s.endsWith(sub)]. *)
Definition endsWith (s sub : jstr) : bool := startsWith (rev s) (rev sub).

(** WhiteSpace and LineTerminator of ECMA-262: the code units that [trim]
    strips and the class [\s] matches. *)
Definition isWhite (c : jchar) : bool :=
  (((9 <=? c) && (c <=? 13)) || (c =? 32) || (c =? 160) || (c =? 5760)
  || ((8192 <=? c) && (c <=? 8202)) || (c =? 8232) || (c =? 8233)
  || (c =? 8239) || (c =? 8287) || (c =? 12288) || (c =? 65279))%N.

Fixpoint dropWhile {A} (p : A -> bool) (l : list A) : list A :=
  match l with
  | [] => []
  | x :: l' => if p x then dropWhile p l' else l
  end.

Definition trimEnd (s : jstr) : jstr := rev (dropWhile isWhite (rev s)).
Definition trim (s : jstr) : jstr := trimEnd (dropWhile isWhite s).

(** [parts.join(sep)]. *)
Fixpoint join (sep : jstr) (parts : list (jstr)) : jstr :=
  match parts with
  | [] => []
  | [p] => p
  | p :: ps => p ++ sep ++ join sep ps
  end.

(** [s.split(sep)] for a non-empty separator: leftmost, non-overlapping
    matches.  The fuel bounds the number of code units left. *)
Fixpoint split_go (fuel : nat) (sep cur s : jstr) : list (jstr) :=
  match fuel with
  | O => [cur ++ s]
  | S fuel' =>
      if startsWith s sep then cur :: split_go fuel' sep [] (drop (length sep) s)
      else match s with
           | [] => [cur]
           | c :: s' => split_go fuel' sep (cur ++ [c]) s'
           end
  end.
Definition split (s sep : jstr) : list (jstr) := split_go (S (length s)) sep [] s.

(** [a < b] and [a <= b] on strings: lexicographic on code units. *)
Fixpoint str_leb (a b : jstr) : bool :=
  match a, b with
  | [], _ => true
  | _ :: _, [] => false
  | x :: a', y :: b' => (x <? y)%N || ((x =? y)%N && str_leb a' b')
  end.

Fixpoint insert_by {A} (leb : A -> A -> bool) (x : A) (l : list A) : list A :=
  match l with
  | [] => [x]
  | y :: l' => if leb x y then x :: l else y :: insert_by leb x l'
  end.

(** [xs.sort(cmp)] where [leb x y] holds when [cmp(x, y) <= 0]; the sort is
    stable, as the standard requires. *)
Definition sort_by {A} (leb : A -> A -> bool) (l : list A) : list A :=
  foldr (insert_by leb) [] l.

(** [xs.sort()] on an array of strings. *)
Definition sort_strings (l : list (jstr)) : list (jstr) := sort_by str_leb l.

(** ** Insertion-ordered maps

    A JavaScript [Map] (or an object used as one): iteration follows the order
    of first insertion, [set] on a present key keeps its position. *)
Abbreviation jmap K V := (list (K * V)) (only parsing).

Section JMap.
Context {K V : Type} `{EqDecision K}.

Fixpoint jget (k : K) (m : jmap K V) : option V :=
  match m with
  | [] => None
  | (k', v) :: m' => if decide (k = k') then Some v else jget k m'
  end.

Definition jhas (k : K) (m : jmap K V) : bool :=
  match jget k m with Some _ => true | None => false end.

Fixpoint jset (k : K) (v : V) (m : jmap K V) : jmap K V :=
  match m with
  | [] => [(k, v)]
  | (k', v') :: m' =>
      if decide (k = k') then (k', v) :: m' else (k', v') :: jset k v m'
  end.

Definition jdel (k : K) (m : jmap K V) : jmap K V :=
  List.filter (fun e => negb (bool_decide (k = fst e))) m.

Definition jkeys (m : jmap K V) : list K := map fst m.

(** [new Map(entries)]. *)
Definition jof_list (l : list (K * V)) : jmap K V :=
  fold_left (fun m e => jset (fst e) (snd e) m) l [].

Implicit Types m : jmap K V.

Lemma jget_jset_eq k v m : jget k (jset k v m) = Some v.
Proof.
  induction m as [|[k' v'] m IH]; simpl; [by rewrite decide_True|].
  destruct (decide (k = k')) as [->|Hne]; simpl.
  - by rewrite decide_True.
  - by rewrite decide_False.
Qed.

Lemma jget_jset_ne k k' v m : k <> k' -> jget k (jset k' v m) = jget k m.
Proof.
  intros Hne; induction m as [|[k2 v2] m IH]; simpl; [by rewrite decide_False|].
  destruct (decide (k' = k2)) as [->|]; simpl; [by rewrite !decide_False|].
  by destruct (decide (k = k2)).
Qed.

Lemma jget_jset k k' v m :
  jget k (jset k' v m) = if decide (k = k') then Some v else jget k m.
Proof.
  destruct (decide (k = k')) as [->|]; [apply jget_jset_eq|by apply jget_jset_ne].
Qed.

Lemma jget_jdel_eq k m : jget k (jdel k m) = None.
Proof.
  unfold jdel; induction m as [|[k' v'] m IH]; simpl; [done|].
  destruct (decide (k = k')) as [->|Hne].
  - by rewrite bool_decide_eq_true_2.
  - rewrite bool_decide_eq_false_2 by done; simpl. by rewrite decide_False.
Qed.

Lemma jget_jdel_ne k k' m : k <> k' -> jget k (jdel k' m) = jget k m.
Proof.
  intros Hne; unfold jdel; induction m as [|[k2 v2] m IH]; simpl; [done|].
  destruct (decide (k' = k2)) as [->|Hne2].
  - rewrite bool_decide_eq_true_2 by done; simpl. by rewrite decide_False.
  - rewrite bool_decide_eq_false_2 by done; simpl. by rewrite IH.
Qed.

Lemma jget_jdel k k' m :
  jget k (jdel k' m) = if decide (k = k') then None else jget k m.
Proof.
  destruct (decide (k = k')) as [->|]; [apply jget_jdel_eq|by apply jget_jdel_ne].
Qed.

Lemma jget_Some_elem k v m : jget k m = Some v -> (k, v) ∈ m.
Proof.
  induction m as [|[k' v'] m IH]; simpl; [done|].
  destruct (decide (k = k')) as [->|]; intros H.
  - simplify_eq. left.
  - right; auto.
Qed.

Lemma elem_jget k v m : NoDup (jkeys m) -> (k, v) ∈ m -> jget k m = Some v.
Proof.
  induction m as [|[k' v'] m IH]; simpl; [intros _ H; inversion H|].
  intros [Hni Hnd]%NoDup_cons [Heq|Hin]%elem_of_cons.
  - simplify_eq. by rewrite decide_True.
  - rewrite decide_False; [by apply IH|]. intros ->. apply Hni.
    unfold jkeys. apply list_elem_of_fmap. by exists (k', v).
Qed.

Lemma jget_None_keys k m : jget k m = None <-> k ∉ jkeys m.
Proof.
  induction m as [|[k' v'] m IH]; simpl.
  - split; [intros _ H; inversion H|done].
  - destruct (decide (k = k')) as [->|Hne].
    + split; [done|]. intros H; exfalso; apply H; left.
    + rewrite IH, not_elem_of_cons. naive_solver.
Qed.

Lemma jkeys_jset_elem k k' v m : k ∈ jkeys (jset k' v m) <-> k = k' \/ k ∈ jkeys m.
Proof.
  induction m as [|[k2 v2] m IH]; simpl; [set_solver|].
  destruct (decide (k' = k2)) as [->|]; simpl; set_solver.
Qed.

Lemma jset_NoDup k v m : NoDup (jkeys m) -> NoDup (jkeys (jset k v m)).
Proof.
  induction m as [|[k' v'] m IH]; simpl; intros Hnd; [apply NoDup_singleton|].
  apply NoDup_cons in Hnd as [Hni Hnd].
  destruct (decide (k = k')) as [->|Hne]; simpl; apply NoDup_cons; split; auto.
  rewrite jkeys_jset_elem. naive_solver.
Qed.

Lemma jdel_elem e k m : e ∈ jdel k m <-> k <> fst e /\ e ∈ m.
Proof.
  unfold jdel. rewrite !list_elem_of_In, filter_In, negb_true_iff.
  rewrite bool_decide_eq_false. tauto.
Qed.

Lemma jdel_NoDup k m : NoDup (jkeys m) -> NoDup (jkeys (jdel k m)).
Proof.
  unfold jkeys, jdel; induction m as [|[k' v'] m IH]; simpl; [done|].
  intros [Hni Hnd]%NoDup_cons. case_match; simpl; [|auto].
  apply NoDup_cons; split; [|auto]. intros Hin; apply Hni.
  apply list_elem_of_fmap in Hin as ([? ?] & -> & Hin). simpl.
  apply list_elem_of_fmap. eexists; split; [|apply (jdel_elem _ k), Hin]. done.
Qed.
End JMap.

#[export] Hint Resolve jget_jset_eq jget_jdel_eq jset_NoDup jdel_NoDup : bari.
#[export] Hint Rewrite @jget_jset_eq @jget_jdel_eq : bari.

(** ** Lists *)
Lemma existsb_filter {A} (f g : A -> bool) (l : list A) :
  existsb f (List.filter g l) = existsb (fun x => g x && f x) l.
Proof.
  induction l as [|x l IH]; simpl; [done|]. destruct (g x); simpl; by rewrite IH.
Qed.

Lemma existsb_app_l {A} (f : A -> bool) l1 l2 :
  existsb f l1 = true -> existsb f (l1 ++ l2) = true.
Proof. rewrite existsb_app. by intros ->. Qed.

Lemma filter_Forall_nil {A} (f : A -> bool) l :
  Forall (fun x => f x = false) l -> List.filter f l = [].
Proof. induction 1 as [|x l Hx _ IH]; simpl; [done|]. by rewrite Hx. Qed.

Lemma filter_Forall_id {A} (f : A -> bool) l :
  Forall (fun x => f x = true) l -> List.filter f l = l.
Proof. induction 1 as [|x l Hx _ IH]; simpl; [done|]. by rewrite Hx, IH. Qed.

Lemma filter_filter_weaker {A} (f g : A -> bool) (l : list A) :
  (forall x, f x = true -> g x = true) -> List.filter f (List.filter g l) = List.filter f l.
Proof.
  intros H. induction l as [|x l IH]; simpl; [done|].
  destruct (g x) eqn:Hg; simpl; rewrite IH; [done|].
  destruct (f x) eqn:Hf; [|done]. apply H in Hf. congruence.
Qed.

Lemma filter_swap {A} (f g h : A -> bool) (l : list A) :
  (forall x, g x && f x = f x && h x) ->
  List.filter f (List.filter g l) = List.filter h (List.filter f l).
Proof.
  intros H. induction l as [|x l IH]; simpl; [done|]. specialize (H x).
  destruct (g x) eqn:Eg, (f x) eqn:Ef; simpl in *; rewrite ?Ef, ?IH; try done.
  all: destruct (h x); simpl in *; done.
Qed.

Lemma Forall2_map_same {A B C} (R : B -> C -> Prop) (f : A -> B) (g : A -> C) l :
  Forall (fun x => R (f x) (g x)) l -> Forall2 R (map f l) (map g l).
Proof. induction 1; simpl; constructor; auto. Qed.

(** A function without repeated values on a list is injective there. *)
Lemma NoDup_map_filter {A B} (f : A -> B) (p : A -> bool) l : NoDup (map f l) -> NoDup (map f (List.filter p l)).
Proof.
  induction l as [|x l IH]; [done|]. cbn. intros [Hx H]%NoDup_cons. destruct (p x); cbn; [|by apply IH].
  apply NoDup_cons. split; [|by apply IH]. intros Hin. apply Hx.
  apply list_elem_of_In, in_map_iff in Hin as (y & <- & Hy%filter_In). apply list_elem_of_In, in_map, Hy.
Qed.

Lemma NoDup_map_inj {A B} (f : A -> B) (l : list A) x y :
  NoDup (map f l) -> x ∈ l -> y ∈ l -> f x = f y -> x = y.
Proof.
  induction l as [|z l IH]; csimpl; [intros _ H; by apply elem_of_nil in H|].
  intros [Hz Hl]%NoDup_cons Hx Hy E. apply elem_of_cons in Hx as [->|Hx], Hy as [->|Hy]; [done| | |auto].
  - destruct Hz. rewrite E. apply list_elem_of_fmap. by exists y.
  - destruct Hz. rewrite <- E. apply list_elem_of_fmap. by exists x.
Qed.

(** ** Trimming *)
Lemma dropWhile_suffix {A} (f : A -> bool) (l : list A) :
  exists pre, l = pre ++ dropWhile f l /\ Forall (fun x => f x = true) pre.
Proof.
  induction l as [|x l IH]; simpl; [by exists []|].
  destruct (f x) eqn:E.
  - destruct IH as (pre & Heq & Hf). exists (x :: pre). split; [by rewrite Heq at 1|by constructor].
  - by exists [].
Qed.

Lemma dropWhile_head {A} (f : A -> bool) (l : list A) :
  match dropWhile f l with [] => True | x :: _ => f x = false end.
Proof. induction l as [|x l IH]; simpl; [done|]. by destruct (f x) eqn:E. Qed.

Lemma length_dropWhile {A} (f : A -> bool) (l : list A) : length (dropWhile f l) <= length l.
Proof.
  destruct (dropWhile_suffix f l) as (pre & Heq & _). rewrite Heq at 2. rewrite length_app. lia.
Qed.

Lemma length_trim (s : jstr) : length (trim s) <= length s.
Proof.
  unfold trim, trimEnd. rewrite length_rev.
  etransitivity; [apply length_dropWhile|]. rewrite length_rev. apply length_dropWhile.
Qed.

Lemma dropWhile_id {A} (f : A -> bool) (l : list A) :
  match l with [] => True | x :: _ => f x = false end -> dropWhile f l = l.
Proof. destruct l as [|x l]; simpl; [done|]. by intros ->. Qed.

(** Trimming does nothing to a string that neither starts nor ends with white space. *)
Lemma trim_id (c : jchar) (s : jstr) (d : jchar) :
  isWhite c = false -> isWhite d = false -> trim (c :: s ++ [d]) = c :: s ++ [d].
Proof.
  intros Hc Hd. unfold trim, trimEnd. rewrite (dropWhile_id _ (c :: _)) by done.
  change (c :: s ++ [d]) with ((c :: s) ++ [d]). rewrite rev_app_distr; simpl.
  rewrite Hd. simpl. rewrite rev_app_distr, rev_involutive. done.
Qed.

(** ** Sorting *)
Lemma str_leb_refl s : str_leb s s = true.
Proof. induction s as [|c s IH]; simpl; [done|]. by rewrite N.eqb_refl, IH, orb_true_r. Qed.

Lemma str_leb_total a b : str_leb a b = false -> str_leb b a = true.
Proof.
  revert b; induction a as [|c a IH]; intros [|d b]; simpl; try done.
  destruct (N.ltb_spec c d), (N.eqb_spec c d); simpl; try done; intros Hab.
  - subst. rewrite N.eqb_refl, (IH _ Hab). by rewrite orb_true_r.
  - by rewrite (proj2 (N.ltb_lt d c)) by lia.
Qed.

Lemma str_leb_antisym a b : str_leb a b = true -> str_leb b a = true -> a = b.
Proof.
  revert b; induction a as [|c a IH]; intros [|d b]; simpl; try done.
  destruct (N.ltb_spec c d), (N.eqb_spec c d), (N.ltb_spec d c), (N.eqb_spec d c);
    simpl; try done; try lia. intros. f_equal; [done|auto].
Qed.

Lemma str_leb_trans a b c : str_leb a b = true -> str_leb b c = true -> str_leb a c = true.
Proof.
  revert b c; induction a as [|x a IH]; intros [|y b] [|z c]; simpl; try done.
  destruct (N.ltb_spec x y), (N.eqb_spec x y), (N.ltb_spec y z), (N.eqb_spec y z),
    (N.ltb_spec x z), (N.eqb_spec x z); simpl; try done; try lia. eauto.
Qed.

Section SortBy.
Context {A : Type} (leb : A -> A -> bool).

Lemma insert_by_Permutation x l : insert_by leb x l ≡ₚ x :: l.
Proof.
  induction l as [|y l IH]; simpl; [done|]. destruct (leb x y); [done|].
  rewrite IH. apply Permutation_swap.
Qed.

Lemma sort_by_Permutation l : sort_by leb l ≡ₚ l.
Proof.
  unfold sort_by. induction l as [|x l IH]; simpl; [done|]. by rewrite insert_by_Permutation, IH.
Qed.

(** Sorting and mapping commute when the map keeps the order. *)
Lemma sort_by_map {B} (leb' : B -> B -> bool) (f : A -> B) l :
  (forall x y, leb' (f x) (f y) = leb x y) -> sort_by leb' (map f l) = map f (sort_by leb l).
Proof.
  intros Hf. unfold sort_by. induction l as [|x l IH]; simpl; [done|]. rewrite IH. clear IH.
  induction (foldr (insert_by leb) [] l) as [|y m IH]; simpl; [done|]. rewrite Hf.
  destruct (leb x y); [done|]. simpl. by rewrite IH.
Qed.

(** The order of insertion is invisible when the order decides every pair. *)
Context {K : Type} (key : A -> K).
Hypothesis total : forall x y, leb x y = false -> leb y x = true.
Hypothesis trans : forall x y z, leb x y = true -> leb y z = true -> leb x z = true.
Hypothesis antisym : forall x y, key x <> key y -> leb x y = true -> leb y x = true -> False.

Lemma insert_by_comm x y l :
  key x <> key y -> insert_by leb x (insert_by leb y l) = insert_by leb y (insert_by leb x l).
Proof.
  intros Hd. assert (key y <> key x) by congruence. induction l as [|z l IH]; simpl.
  - destruct (leb x y) eqn:E1, (leb y x) eqn:E2; try done.
    + destruct (antisym x y); done.
    + apply total in E1. congruence.
  - destruct (leb y z) eqn:Eyz, (leb x z) eqn:Exz; simpl; rewrite ?Eyz, ?Exz; simpl.
    + destruct (leb x y) eqn:E1, (leb y x) eqn:E2; try done.
      * destruct (antisym x y); done.
      * apply total in E1. congruence.
    + destruct (leb x y) eqn:E1; [|done]. rewrite (trans x y z) in Exz; done.
    + destruct (leb y x) eqn:E1; [|done]. rewrite (trans y x z) in Eyz; done.
    + by rewrite IH.
Qed.

Lemma sort_by_unique l l' :
  l ≡ₚ l' -> NoDup (map key l) -> sort_by leb l = sort_by leb l'.
Proof.
  intros Hp. induction Hp as [|x l l' Hp IH|x y l|l l2 l3 Hp1 IH1 Hp2 IH2]; simpl; intros Hnd.
  - done.
  - apply NoDup_cons in Hnd as [_ Hnd]. by rewrite (IH Hnd).
  - apply NoDup_cons in Hnd as [Hnd _]. apply insert_by_comm.
    intros Heq. apply Hnd. rewrite Heq. by left.
  - rewrite (IH1 Hnd). apply IH2. by rewrite <- Hp1.
Qed.
End SortBy.

(** Equal strings are interchangeable, so sorting strings forgets their order. *)
Lemma sort_strings_Permutation (l l' : list jstr) : l ≡ₚ l' -> sort_strings l = sort_strings l'.
Proof.
  unfold sort_strings. intros Hp. induction Hp as [|x l l' _ IH|x y l|]; simpl; [done|by rewrite IH| |congruence].
  destruct (decide (x = y)) as [->|Hne]; [done|]. apply (insert_by_comm str_leb id); [| | |done].
  - intros a b. apply str_leb_total.
  - intros a b c. apply str_leb_trans.
  - intros a b Hab H1 H2. by apply Hab, str_leb_antisym.
Qed.

Lemma filter_Permutation {A} (f : A -> bool) (l l' : list A) :
  l ≡ₚ l' -> List.filter f l ≡ₚ List.filter f l'.
Proof.
  intros Hp. induction Hp as [|x l l' _ IH|x y l|]; simpl; [done| | |by etransitivity].
  - destruct (f x); by rewrite IH.
  - destruct (f x), (f y); try done. apply Permutation_swap.
Qed.

(** The last entry of a key wins in [new Map(entries)]. *)
Lemma jget_jof_list {K V} `{EqDecision K} (l : list (K * V)) k :
  jget k (jof_list l) = snd <$> last (List.filter (fun e => bool_decide (fst e = k)) l).
Proof.
  unfold jof_list. induction l as [|[k' v] l IH] using rev_ind; [done|].
  rewrite fold_left_app, List.filter_app. simpl. rewrite jget_jset.
  destruct (decide (k = k')) as [->|Hne].
  - rewrite bool_decide_eq_true_2 by done. by rewrite last_snoc.
  - rewrite bool_decide_eq_false_2 by congruence. by rewrite app_nil_r.
Qed.

Lemma jof_list_NoDup {K V} `{EqDecision K} (l : list (K * V)) : NoDup (jkeys (jof_list l)).
Proof.
  unfold jof_list. induction l as [|e l IH] using rev_ind; [constructor|].
  rewrite fold_left_app. by apply jset_NoDup.
Qed.

Lemma length_jset {K V} `{EqDecision K} k (v : V) (m : list (K * V)) : length (jset k v m) <= S (length m).
Proof. induction m as [|[k' v'] m IH]; simpl; [lia|]. case_decide; simpl; lia. Qed.

Lemma length_jof_list {K V} `{EqDecision K} (l : list (K * V)) : length (jof_list l) <= length l.
Proof.
  unfold jof_list. induction l as [|e l IH] using rev_ind; [done|].
  rewrite fold_left_app, length_app. simpl. etransitivity; [apply length_jset|]. lia.
Qed.

Lemma jset_fresh {K V} `{EqDecision K} k (v : V) (m : list (K * V)) :
  k ∉ jkeys m -> jset k v m = m ++ [(k, v)].
Proof.
  unfold jkeys. induction m as [|[k' v'] m IH]; csimpl; [done|]. intros Hk. rewrite decide_False by set_solver.
  rewrite IH by set_solver. done.
Qed.

(** Entries with distinct keys are their own map. *)
Lemma jof_list_id {K V} `{EqDecision K} (l : list (K * V)) : NoDup (map fst l) -> jof_list l = l.
Proof.
  unfold jof_list. induction l as [|[k v] l IH] using rev_ind; [done|].
  rewrite map_app. intros (Hl & Hd & _)%NoDup_app. rewrite fold_left_app, IH by done. cbn [fold_left fst snd].
  apply jset_fresh. intros Hk. apply (Hd k); [done|]. by left.
Qed.

Lemma length_omap {A B} (f : A -> option B) l : length (omap f l) <= length l.
Proof. induction l as [|x l IH]; csimpl; [done|]. destruct (f x); simpl; lia. Qed.

(** Dropping elements that contribute nothing. *)
Lemma omap_drop {A B} (f : A -> option B) (p : A -> bool) l :
  (forall x, p x = false -> f x = None) -> omap f l = omap f (List.filter p l).
Proof.
  intros H. induction l as [|x l IH]; csimpl; [done|]. destruct (p x) eqn:Ep; csimpl.
  - by rewrite IH.
  - by rewrite H.
Qed.

Lemma sum_drop {A} (f : A -> nat) (p : A -> bool) l :
  (forall x, p x = false -> f x = 0) -> sum_list (map f l) = sum_list (map f (List.filter p l)).
Proof.
  intros H. induction l as [|x l IH]; simpl; [done|]. destruct (p x) eqn:Ep; simpl.
  - by rewrite IH.
  - by rewrite H, IH.
Qed.

Lemma omap_map {A B C} (g : A -> B) (f : B -> option C) l : omap f (map g l) = omap (fun x => f (g x)) l.
Proof. induction l as [|x l IH]; csimpl; [done|]. by rewrite IH. Qed.

Lemma startsWith_prefix s p : startsWith s p = true <-> p `prefix_of` s.
Proof.
  revert s. induction p as [|c p IH]; intros s; [split; [intros _; apply prefix_nil|by destruct s]|].
  destruct s as [|d s]; [split; [done|intros [k ?]; done]|]. cbn [startsWith].
  rewrite andb_true_iff, N.eqb_eq, IH. split.
  - intros [-> [k ->]]. by exists k.
  - intros [k E]. injection E as -> ->. split; [done|by exists k].
Qed.
