(* ===== verification/JsValue.v ===== *)
(** * Dynamic JavaScript values

    The values the code receives as [unknown] or [Record<string, unknown>]:
    tool inputs, tool arguments, tool results.  An object lists its own
    enumerable string properties in property order.

    Numbers.  A finite number that is an integer below 10^21 in absolute value
    is [NumInt]; any other finite number is [NumText], identified by the text
    [String(n)] gives it; NaN and the infinities are [NumNonFinite].

    [JUndefined] is [undefined]; [JOther] stands for functions, symbols and
    bigints.  Values are trees of plain objects and arrays: cycles, sharing,
    getters and objects of another prototype are not expressed. *)
From S2P Require Import Prelude.

Inductive jnum :=
  | NumInt (z : Z)
  | NumText (text : jstr)
  | NumNonFinite.

Inductive json :=
  | JUndefined
  | JNull
  | JBool (b : bool)
  | JNum (n : jnum)
  | JStr (s : jstr)
  | JArr (items : list json)
  | JObj (fields : list (jstr * json))
  | JOther.

(** Induction that reaches the items of arrays and the fields of objects. *)
Section json_induction.
Variable P : json -> Prop.
Hypothesis Hundef : P JUndefined.
Hypothesis Hnull : P JNull.
Hypothesis Hbool : forall b, P (JBool b).
Hypothesis Hnum : forall n, P (JNum n).
Hypothesis Hstr : forall s, P (JStr s).
Hypothesis Harr : forall l, Forall P l -> P (JArr l).
Hypothesis Hobj : forall l, Forall (fun e => P (snd e)) l -> P (JObj l).
Hypothesis Hother : P JOther.

Fixpoint json_rect' (v : json) : P v :=
  match v with
  | JUndefined => Hundef
  | JNull => Hnull
  | JBool b => Hbool b
  | JNum n => Hnum n
  | JStr s => Hstr s
  | JArr l =>
      Harr l ((fix go l := match l return Forall P l with
                           | [] => List.Forall_nil _
                           | x :: l' => List.Forall_cons _ x l' (json_rect' x) (go l')
                           end) l)
  | JObj l =>
      Hobj l ((fix go l := match l return Forall (fun e => P (snd e)) l with
                           | [] => List.Forall_nil _
                           | x :: l' => List.Forall_cons _ x l' (json_rect' (snd x)) (go l')
                           end) l)
  | JOther => Hother
  end.
End json_induction.

#[export] Instance jnum_eq_dec : EqDecision jnum.
Proof. solve_decision. Defined.

(** [typeof v === 'string' ? v : undefined] for a property read. *)
Definition as_string (o : option json) : option (jstr) :=
  match o with Some (JStr s) => Some s | _ => None end.
