(* ===== verification/PermTypes.v ===== *)
(** * Permission system: data

    [packages/agent-modules/permission/src/types.ts], [ask-policy.ts]: rules,
    matchers, decision reasons, decisions and checker results.  Optional
    properties are [option]s; a property written as [undefined] and an absent
    one are the same [None], as every reader of these records treats them. *)
From S2P Require Import Prelude JsValue.

Inductive PermissionBehavior := Allow | Deny | Ask.

Inductive PermissionMode :=
  | mode_default | acceptEdits | bypassPermissions | mode_auto | dontAsk | mode_off.

Inductive PermissionRuleAction := act_read | act_write | act_delete | act_execute | act_network.

Inductive PermissionRuleMatcher :=
  | MTool
  | MCommand (pattern : jstr)
  | MPath (pattern : jstr) (actions : option (list PermissionRuleAction)).

Record PermissionRuleValue := {
  toolName : jstr;
  ruleContent : option (jstr);
  matcher : option PermissionRuleMatcher;
}.

Inductive PermissionRuleSource := src_global | src_agent | src_session.

Record PermissionRule := {
  source : PermissionRuleSource;
  ruleBehavior : PermissionBehavior;
  ruleValue : PermissionRuleValue;
}.

Inductive DecisionReason :=
  | ReasonRule (rule : PermissionRule)
  | ReasonSafetyCheck (description : jstr) (classifierApprovable : option bool)
      (category : option (jstr))
  | ReasonWorkingDirectory (path : jstr)
  | ReasonInternalWhitelist (path : jstr)
  | ReasonTrustedExactWrite (path : jstr)
  | ReasonTempDirectory (path : jstr)
  | ReasonSandbox
  | ReasonMode (mode : PermissionMode)
  | ReasonPathValidation (error : jstr)
  | ReasonDangerousRemoval (path : jstr)
  | ReasonSubcommandResults (reasons : list (jstr * SubcommandResult))
  | ReasonRmRewrite (rewrittenCommand : jstr)
  | ReasonRecoverableDeleteRewrite (targets : list (jstr))
with SubcommandResult :=
  | MkSubcommandResult (behavior : PermissionBehavior) (reason : DecisionReason).

(** The [type] tag of a reason. *)
Inductive ReasonType :=
  | rt_rule | rt_safetyCheck | rt_workingDirectory | rt_internalWhitelist
  | rt_trustedExactWrite | rt_tempDirectory | rt_sandbox | rt_mode
  | rt_pathValidation | rt_dangerousRemoval | rt_subcommandResults
  | rt_rmRewrite | rt_recoverableDeleteRewrite.

Definition reason_type (r : DecisionReason) : ReasonType :=
  match r with
  | ReasonRule _ => rt_rule
  | ReasonSafetyCheck _ _ _ => rt_safetyCheck
  | ReasonWorkingDirectory _ => rt_workingDirectory
  | ReasonInternalWhitelist _ => rt_internalWhitelist
  | ReasonTrustedExactWrite _ => rt_trustedExactWrite
  | ReasonTempDirectory _ => rt_tempDirectory
  | ReasonSandbox => rt_sandbox
  | ReasonMode _ => rt_mode
  | ReasonPathValidation _ => rt_pathValidation
  | ReasonDangerousRemoval _ => rt_dangerousRemoval
  | ReasonSubcommandResults _ => rt_subcommandResults
  | ReasonRmRewrite _ => rt_rmRewrite
  | ReasonRecoverableDeleteRewrite _ => rt_recoverableDeleteRewrite
  end.

Inductive CandidateScopeKind := narrow | byFirstWord | byArgvPrefix2 | byDomain | wholeTool.

Record CandidateScope := {
  cs_kind : CandidateScopeKind;
  cs_ruleContent : jstr;
  cs_labelKey : jstr;
  cs_labelParams : option (list (jstr * jstr));
}.

Record CandidateScopeGroup := {
  subjectDisplay : jstr;
  candidates : list CandidateScope;
}.

(** [Record<string, unknown>]: a tool input. *)
Abbreviation ToolInput := (list (jstr * json)) (only parsing).

Record PermissionDecision := {
  behavior : PermissionBehavior;
  reason : DecisionReason;
  ruleContents : option (list (jstr));
  ruleMatchers : option (list PermissionRuleMatcher);
  candidateScopes : option (list CandidateScopeGroup);
  rewrittenInput : option ToolInput;
  bypassImmune : option bool;
  skipAutoClassifier : option bool;
}.

(** [PermissionBehavior | 'passthrough']. *)
Inductive CheckBehavior := Checked (b : PermissionBehavior) | Passthrough.

Record ToolCheckResult := {
  tc_behavior : CheckBehavior;
  tc_reason : DecisionReason;
  tc_bypassImmune : option bool;
  tc_skipAutoClassifier : option bool;
  tc_ruleContents : option (list (jstr));
  tc_ruleMatchers : option (list PermissionRuleMatcher);
  tc_candidateScopes : option (list CandidateScopeGroup);
  tc_rewrittenInput : option ToolInput;
}.

Inductive PermissionUpdate :=
  | UpdAddRules (source : PermissionRuleSource) (destination : jstr)
      (rules : list PermissionRuleValue) (behavior : PermissionBehavior)
  | UpdReplaceRules (source : PermissionRuleSource) (destination : jstr)
      (rules : list PermissionRuleValue) (behavior : PermissionBehavior)
  | UpdRemoveRules (source : PermissionRuleSource) (destination : jstr)
      (rules : list PermissionRuleValue) (behavior : PermissionBehavior).

(** ** [ask-policy.ts] *)
Inductive AskForApproval := on_request | on_request_llm | never | policy_deny.

Definition modeToAskPolicy (mode : PermissionMode) : AskForApproval :=
  match mode with
  | bypassPermissions | mode_off => never
  | mode_auto => on_request_llm
  | dontAsk => policy_deny
  | mode_default | acceptEdits => on_request
  end.

#[export] Instance PermissionBehavior_eq_dec : EqDecision PermissionBehavior.
Proof. solve_decision. Defined.
#[export] Instance PermissionMode_eq_dec : EqDecision PermissionMode.
Proof. solve_decision. Defined.
#[export] Instance PermissionRuleAction_eq_dec : EqDecision PermissionRuleAction.
Proof. solve_decision. Defined.
#[export] Instance PermissionRuleMatcher_eq_dec : EqDecision PermissionRuleMatcher.
Proof. solve_decision. Defined.
#[export] Instance PermissionRuleSource_eq_dec : EqDecision PermissionRuleSource.
Proof. solve_decision. Defined.
#[export] Instance PermissionRuleValue_eq_dec : EqDecision PermissionRuleValue.
Proof. solve_decision. Defined.
#[export] Instance PermissionRule_eq_dec : EqDecision PermissionRule.
Proof. solve_decision. Defined.
#[export] Instance CheckBehavior_eq_dec : EqDecision CheckBehavior.
Proof. solve_decision. Defined.
#[export] Instance ReasonType_eq_dec : EqDecision ReasonType.
Proof. solve_decision. Defined.

(** [Boolean(r?.ruleContents?.length)] and the like. *)
Definition nonempty {A} (o : option (list A)) : bool :=
  match o with Some (_ :: _) => true | _ => false end.

Definition isTrue (o : option bool) : bool :=
  match o with Some b => b | None => false end.

(** [checkerResult?.behavior === b]. *)
Definition result_is (b : PermissionBehavior) (o : option ToolCheckResult) : bool :=
  match o with Some r => bool_decide (tc_behavior r = Checked b) | None => false end.
