(* ===== verification/PermContext.v ===== *)
(** * Permission context: rules held in memory and their updates

    [packages/agent-modules/permission/src/context.ts] and
    [mcp-runtime-name.ts].  The context is an immutable value in the source
    too ([Object.freeze]); the logging calls are not modelled. *)
From S2P Require Import Prelude JsValue PermTypes.

Inductive ShellFamily := posix | cmd | powershell | shell_unknown.

Record ToolPermissionContext := {
  mode : PermissionMode;
  rules : list PermissionRule;
  sandboxEnabled : bool;
  autoAllowBashIfSandboxed : bool;
  platform : jstr;
  shellFamily : ShellFamily;
  workingDirectory : jstr;
  allowedWorkingPaths : list (jstr);
  sandboxAllowPaths : list (jstr);
  trustedExactWritePaths : list (jstr);
  dataDir : jstr;
  homeDir : jstr;
  isFile : option (jstr -> bool);
  agentName : option (jstr);
  sessionId : option (jstr);
  allowManagedPermissionRulesOnly : bool;
  interactiveTools : list (jstr);
}.

Record ToolPermissionContextConfig := {
  cfg_mode : option PermissionMode;
  cfg_rules : option (list PermissionRule);
  cfg_sandboxEnabled : option bool;
  cfg_autoAllowBashIfSandboxed : option bool;
  cfg_platform : option (jstr);
  cfg_shellFamily : option ShellFamily;
  cfg_workingDirectory : jstr;
  cfg_allowedWorkingPaths : option (list (jstr));
  cfg_sandboxAllowPaths : option (list (jstr));
  cfg_trustedExactWritePaths : option (list (jstr));
  cfg_dataDir : jstr;
  cfg_homeDir : jstr;
  cfg_isFile : option (jstr -> bool);
  cfg_agentName : option (jstr);
  cfg_sessionId : option (jstr);
  cfg_allowManagedPermissionRulesOnly : option bool;
  cfg_interactiveTools : option (list (jstr));
}.

(** [processPlatform] is the host's [process.platform]. *)
Definition createToolPermissionContext (processPlatform : jstr)
    (config : ToolPermissionContextConfig) : ToolPermissionContext :=
  {| mode := default mode_default (cfg_mode config);
     rules := default [] (cfg_rules config);
     sandboxEnabled := default false (cfg_sandboxEnabled config);
     autoAllowBashIfSandboxed := default false (cfg_autoAllowBashIfSandboxed config);
     platform := default processPlatform (cfg_platform config);
     shellFamily := default shell_unknown (cfg_shellFamily config);
     workingDirectory := cfg_workingDirectory config;
     allowedWorkingPaths := default [] (cfg_allowedWorkingPaths config);
     sandboxAllowPaths := default [] (cfg_sandboxAllowPaths config);
     trustedExactWritePaths := default [] (cfg_trustedExactWritePaths config);
     dataDir := cfg_dataDir config;
     homeDir := cfg_homeDir config;
     isFile := cfg_isFile config;
     agentName := cfg_agentName config;
     sessionId := cfg_sessionId config;
     allowManagedPermissionRulesOnly :=
       default false (cfg_allowManagedPermissionRulesOnly config);
     interactiveTools := default [js "question"] (cfg_interactiveTools config) |}.

(** [cloneContextWith(ctx, { rules })]: the only patch the updates use. *)
Definition cloneContextWith (ctx : ToolPermissionContext) (rs : list PermissionRule) :
    ToolPermissionContext :=
  {| mode := mode ctx; rules := rs;
     sandboxEnabled := sandboxEnabled ctx;
     autoAllowBashIfSandboxed := autoAllowBashIfSandboxed ctx;
     platform := platform ctx; shellFamily := shellFamily ctx;
     workingDirectory := workingDirectory ctx;
     allowedWorkingPaths := allowedWorkingPaths ctx;
     sandboxAllowPaths := sandboxAllowPaths ctx;
     trustedExactWritePaths := trustedExactWritePaths ctx;
     dataDir := dataDir ctx; homeDir := homeDir ctx; isFile := isFile ctx;
     agentName := agentName ctx; sessionId := sessionId ctx;
     allowManagedPermissionRulesOnly := allowManagedPermissionRulesOnly ctx;
     interactiveTools := interactiveTools ctx |}.

(** The comparison of two matchers inside [ruleValueEquals]. *)
Definition matcherEquals (a b : option PermissionRuleMatcher) : bool :=
  match a, b with
  | None, None => true
  | None, Some _ | Some _, None => false
  | Some MTool, Some MTool => true
  | Some (MCommand p), Some (MCommand q) => str_eqb p q
  | Some (MPath p pa), Some (MPath q qa) =>
      str_eqb p q &&
      match pa, qa with
      | None, None => true
      | Some xs, Some ys =>
          (length xs =? length ys)%nat && forallb (fun x => bool_decide (x ∈ ys)) xs
      | _, _ => false
      end
  | Some _, Some _ => false
  end.

Definition ruleValueEquals (a b : PermissionRuleValue) : bool :=
  if negb (str_eqb (toolName a) (toolName b))
     || negb (str_eqb (default [] (ruleContent a)) (default [] (ruleContent b)))
  then false
  else matcherEquals (matcher a) (matcher b).

(** The dedup test of [addRules] on one stored rule. *)
Definition sameRule (src : PermissionRuleSource) (b : PermissionBehavior)
    (v : PermissionRuleValue) (r : PermissionRule) : bool :=
  bool_decide (source r = src) && bool_decide (ruleBehavior r = b)
  && ruleValueEquals (ruleValue r) v.

Definition addRules (ctx : ToolPermissionContext) (src : PermissionRuleSource)
    (values : list PermissionRuleValue) (b : PermissionBehavior) : ToolPermissionContext :=
  cloneContextWith ctx
    (fold_left (fun existing v =>
       if existsb (sameRule src b v) existing then existing
       else existing ++ [{| source := src; ruleBehavior := b; ruleValue := v |}])
     values (rules ctx)).

Definition replaceRules (ctx : ToolPermissionContext) (src : PermissionRuleSource)
    (values : list PermissionRuleValue) (b : PermissionBehavior) : ToolPermissionContext :=
  let kept := List.filter (fun r => negb (bool_decide (source r = src)
                                          && bool_decide (ruleBehavior r = b))) (rules ctx) in
  let newRules := map (fun v => {| source := src; ruleBehavior := b; ruleValue := v |}) values in
  cloneContextWith ctx (kept ++ newRules).

Definition removeRules (ctx : ToolPermissionContext) (src : PermissionRuleSource)
    (values : list PermissionRuleValue) (b : PermissionBehavior) : ToolPermissionContext :=
  cloneContextWith ctx
    (List.filter (fun r =>
       if negb (bool_decide (source r = src)) || negb (bool_decide (ruleBehavior r = b))
       then true
       else negb (existsb (fun v => ruleValueEquals (ruleValue r) v) values)) (rules ctx)).

Definition applyPermissionUpdate (ctx : ToolPermissionContext) (u : PermissionUpdate) :
    ToolPermissionContext :=
  match u with
  | UpdAddRules src _ rs b => addRules ctx src rs b
  | UpdReplaceRules src _ rs b => replaceRules ctx src rs b
  | UpdRemoveRules src _ rs b => removeRules ctx src rs b
  end.

(** ** Queries *)
Definition hasWholeToolRule (ctx : ToolPermissionContext) (tool : jstr)
    (b : PermissionBehavior) : option PermissionRule :=
  List.find (fun r => str_eqb (toolName (ruleValue r)) tool
                      && bool_decide (ruleBehavior r = b)
                      && negb (otruthy (ruleContent (ruleValue r)))) (rules ctx).

Definition getContentRulesForTool (ctx : ToolPermissionContext) (tool : jstr)
    (b : PermissionBehavior) : list PermissionRule :=
  List.filter (fun r => str_eqb (toolName (ruleValue r)) tool
                        && bool_decide (ruleBehavior r = b)
                        && bool_decide (is_Some (ruleContent (ruleValue r)))) (rules ctx).

Definition isBypassMode (ctx : ToolPermissionContext) : bool :=
  bool_decide (mode ctx = bypassPermissions).

Definition isInteractiveTool (ctx : ToolPermissionContext) (tool : jstr) : bool :=
  bool_decide (tool ∈ interactiveTools ctx).

(** ** [mcp-runtime-name.ts] *)
Definition MCP_SEGMENT_SEPARATOR : jstr := js "__".

Definition matchesMcpServerRuntimeName (toolRuntimeName serverRuntimeName : jstr) : bool :=
  match split toolRuntimeName MCP_SEGMENT_SEPARATOR,
        split serverRuntimeName MCP_SEGMENT_SEPARATOR with
  | [t0; t1; t2], [s0; s1] =>
      str_eqb t0 (js "mcp") && str_eqb s0 (js "mcp") && truthy t1 && truthy t2
      && str_eqb t1 s1
  | _, _ => false
  end.

(** ** Lemmas *)
Lemma rules_clone ctx rs : rules (cloneContextWith ctx rs) = rs.
Proof. done. Qed.

Lemma clone_rules ctx : cloneContextWith ctx (rules ctx) = ctx.
Proof. by destruct ctx. Qed.

Lemma str_eqb_refl s : str_eqb s s = true.
Proof. by apply bool_decide_eq_true. Qed.

Lemma forallb_elem_self (xs : list PermissionRuleAction) :
  forallb (fun x => bool_decide (x ∈ xs)) xs = true.
Proof.
  apply forallb_forall. intros x Hx. apply bool_decide_eq_true. by apply list_elem_of_In.
Qed.

Lemma ruleValueEquals_refl v : ruleValueEquals v v = true.
Proof.
  unfold ruleValueEquals. rewrite !str_eqb_refl; simpl.
  destruct (matcher v) as [[|p|p [acts|]]|]; simpl;
    rewrite ?str_eqb_refl, ?Nat.eqb_refl, ?forallb_elem_self; done.
Qed.

(** The rules of one source and behavior. *)
Definition inSlot (src : PermissionRuleSource) (b : PermissionBehavior) (r : PermissionRule) : bool :=
  bool_decide (source r = src) && bool_decide (ruleBehavior r = b).

(** One step of the loop of [addRules]. *)
Definition addRule_step (src : PermissionRuleSource) (b : PermissionBehavior)
    (existing : list PermissionRule) (v : PermissionRuleValue) : list PermissionRule :=
  if existsb (sameRule src b v) existing then existing
  else existing ++ [{| source := src; ruleBehavior := b; ruleValue := v |}].

Lemma addRules_rules ctx src vs b :
  rules (addRules ctx src vs b) = fold_left (addRule_step src b) vs (rules ctx).
Proof. done. Qed.

Lemma sameRule_new src b v :
  sameRule src b v {| source := src; ruleBehavior := b; ruleValue := v |} = true.
Proof.
  unfold sameRule; simpl. rewrite !bool_decide_eq_true_2 by done. apply ruleValueEquals_refl.
Qed.

Lemma sameRule_inSlot src b v r : sameRule src b v r = true -> inSlot src b r = true.
Proof. unfold sameRule, inSlot. rewrite !andb_true_iff. tauto. Qed.

Lemma addRule_step_prefix src b vs rs :
  exists added, fold_left (addRule_step src b) vs rs = rs ++ added
                /\ Forall (fun r => inSlot src b r = true) added.
Proof.
  revert rs; induction vs as [|v vs IH]; intros rs; simpl.
  - exists []. by rewrite app_nil_r.
  - unfold addRule_step at 2. destruct (existsb _ rs); [apply IH|].
    destruct (IH (rs ++ [{| source := src; ruleBehavior := b; ruleValue := v |}]))
      as (added & -> & Hadd).
    eexists; split; [by rewrite <- app_assoc|]. constructor; [|done].
    unfold inSlot; simpl. by rewrite !bool_decide_eq_true_2.
Qed.

(** Every value ends up stored, under the dedup equality. *)
Lemma addRules_stored src b vs rs v :
  v ∈ vs -> existsb (sameRule src b v) (fold_left (addRule_step src b) vs rs) = true.
Proof.
  revert rs; induction vs as [|w vs IH]; intros rs Hin; [inversion Hin|]; simpl.
  apply elem_of_cons in Hin as [<-|Hin]; [|by apply IH].
  destruct (addRule_step_prefix src b vs (addRule_step src b rs v)) as (added & -> & _).
  apply existsb_app_l. unfold addRule_step.
  destruct (existsb (sameRule src b v) rs) eqn:E; [done|].
  rewrite existsb_app; simpl. by rewrite sameRule_new, !orb_true_r.
Qed.

Lemma addRules_noop src b vs rs :
  (forall v, v ∈ vs -> existsb (sameRule src b v) rs = true) ->
  fold_left (addRule_step src b) vs rs = rs.
Proof.
  induction vs as [|v vs IH]; intros H; simpl; [done|].
  unfold addRule_step at 2. rewrite (H v) by left. apply IH. intros w Hw; apply H; by right.
Qed.

(** ** Properties *)

Definition slot_of (u : PermissionUpdate) : PermissionRuleSource * PermissionBehavior :=
  match u with
  | UpdAddRules s _ _ b | UpdReplaceRules s _ _ b | UpdRemoveRules s _ _ b => (s, b)
  end.

Definition outside (u : PermissionUpdate) (r : PermissionRule) : bool :=
  negb (inSlot (slot_of u).1 (slot_of u).2 r).

(** The rules of every other source or behavior are the same, in the same order. *)
Lemma update_frame (ctx : ToolPermissionContext) (u : PermissionUpdate) :
  List.filter (outside u) (rules (applyPermissionUpdate ctx u))
  = List.filter (outside u) (rules ctx).
Proof.
  destruct u as [s d vs b|s d vs b|s d vs b]; unfold outside; simpl.
  - change (fold_left _ vs (rules ctx)) with (fold_left (addRule_step s b) vs (rules ctx)).
    destruct (addRule_step_prefix s b vs (rules ctx)) as (added & -> & Hadd).
    rewrite List.filter_app. rewrite (filter_Forall_nil _ added), app_nil_r; [done|].
    eapply Forall_impl; [apply Hadd|]. simpl. by intros r ->.
  - rewrite List.filter_app, filter_filter_weaker by done.
    rewrite (filter_Forall_nil _ (map _ vs)), app_nil_r; [done|].
    apply Forall_forall. intros r Hr. apply list_elem_of_fmap in Hr as (v & -> & _).
    unfold inSlot; simpl. by rewrite !bool_decide_eq_true_2.
  - apply filter_filter_weaker. intros r. unfold inSlot.
    rewrite negb_andb. by intros ->.
Qed.

(** An update is confined to its slot, the rules of one source and
    behavior; and there [addRules] keeps the old rules, appends, and every added
    value is stored; [replaceRules] leaves exactly the new rules; [removeRules]
    keeps exactly the rules that equal no removed value. *)
Theorem update_slot (ctx : ToolPermissionContext) (u : PermissionUpdate) :
  let after := List.filter (inSlot (slot_of u).1 (slot_of u).2)
                 (rules (applyPermissionUpdate ctx u)) in
  let before := List.filter (inSlot (slot_of u).1 (slot_of u).2) (rules ctx) in
  List.filter (outside u) (rules (applyPermissionUpdate ctx u)) = List.filter (outside u) (rules ctx)
  /\ match u with
  | UpdAddRules s _ vs b =>
      (exists added, after = before ++ added)
      /\ forallb (fun v => existsb (sameRule s b v) after) vs = true
  | UpdReplaceRules s _ vs b =>
      after = map (fun v => {| source := s; ruleBehavior := b; ruleValue := v |}) vs
  | UpdRemoveRules s _ vs b =>
      after = List.filter (fun r => negb (existsb (fun v => ruleValueEquals (ruleValue r) v) vs))
                before
  end.
Proof.
  split; [apply update_frame|].
  destruct u as [s d vs b|s d vs b|s d vs b]; simpl.
  - change (fold_left _ vs (rules ctx)) with (fold_left (addRule_step s b) vs (rules ctx)).
    split.
    + destruct (addRule_step_prefix s b vs (rules ctx)) as (added & -> & Hadd).
      rewrite List.filter_app. eauto.
    + apply forallb_forall. intros v Hv. rewrite existsb_filter.
      assert (Hs := addRules_stored s b vs (rules ctx) v ltac:(by apply list_elem_of_In)).
      rewrite existsb_exists in Hs |- *. destruct Hs as (r & Hr & Hs). exists r.
      split; [done|]. by rewrite Hs, (sameRule_inSlot _ _ _ _ Hs).
  - rewrite List.filter_app. rewrite (filter_Forall_id _ (map _ vs)).
    + rewrite filter_Forall_nil; [done|]. apply Forall_forall. intros r Hr.
      apply list_elem_of_In, filter_In in Hr as [_ Hr]. by apply negb_true_iff in Hr.
    + apply Forall_forall. intros r Hr. apply list_elem_of_fmap in Hr as (v & -> & _).
      unfold inSlot; simpl. by rewrite !bool_decide_eq_true_2.
  - apply filter_swap. intros r. unfold inSlot.
    by destruct (bool_decide (source r = s)), (bool_decide (ruleBehavior r = b));
      simpl; rewrite ?andb_true_r.
Qed.

(** Granting the same rules twice is the same as granting them once. *)
Lemma addRules_idempotent (ctx : ToolPermissionContext) (s : PermissionRuleSource)
    (vs : list PermissionRuleValue) (b : PermissionBehavior) :
  addRules (addRules ctx s vs b) s vs b = addRules ctx s vs b.
Proof.
  unfold addRules at 1. rewrite !addRules_rules.
  change (fold_left _ vs ?rs) with (fold_left (addRule_step s b) vs rs).
  rewrite addRules_noop; [done|]. intros v Hv. by apply addRules_stored.
Qed.

(** The dedup equality is not symmetric: with a repeated action, a rule for
    reading only counts as equal to a rule for reading and writing, so adding
    the second after the first stores nothing. *)
Definition readTwice : PermissionRuleValue :=
  {| toolName := js "edit"; ruleContent := Some (js "/p");
     matcher := Some (MPath (js "/p") (Some [act_read; act_read])) |}.
Definition readWrite : PermissionRuleValue :=
  {| toolName := js "edit"; ruleContent := Some (js "/p");
     matcher := Some (MPath (js "/p") (Some [act_read; act_write])) |}.

Lemma ruleValueEquals_not_symmetric (ctx : ToolPermissionContext) :
  ruleValueEquals readTwice readWrite = true
  /\ ruleValueEquals readWrite readTwice = false
  /\ rules (addRules (cloneContextWith ctx []) src_session [readTwice; readWrite] Allow)
     = [{| source := src_session; ruleBehavior := Allow; ruleValue := readTwice |}].
Proof. by vm_compute. Qed.
