(* ===== verification/PermissionCore.v ===== *)
(** * Permission Core: the policy reducers

    [packages/agent-modules/permission/src/permission-core.ts]: the reducer
    that owns the final verdict ([reducePermissionDecision]), the classifier
    fold, and the evidence reducer ([reducePermissionEvaluation]). *)
From S2P Require Import Prelude JsValue PermTypes PermContext.

(** ** Inputs *)
Record PermissionCoreDecisionInput := {
  in_toolName : jstr;
  in_input : ToolInput;
  in_context : ToolPermissionContext;
  in_checkerRegistered : bool;
  in_checkerResult : option ToolCheckResult;
  in_checkerError : option (jstr);
}.

(** A decision with only a behavior and a reason. *)
Definition decide_as (b : PermissionBehavior) (r : DecisionReason) : PermissionDecision :=
  {| behavior := b; reason := r; ruleContents := None; ruleMatchers := None;
     candidateScopes := None; rewrittenInput := None; bypassImmune := None;
     skipAutoClassifier := None |}.

(** ** Helpers *)
Definition findMcpServerRule (tool : jstr) (ctx : ToolPermissionContext)
    (b : PermissionBehavior) : option PermissionRule :=
  if negb (startsWith tool (js "mcp__")) then None
  else List.find (fun r => bool_decide (ruleBehavior r = b)
                           && negb (otruthy (ruleContent (ruleValue r)))
                           && matchesMcpServerRuntimeName tool (toolName (ruleValue r)))
         (rules ctx).

Definition extractToolInputContent (tool : jstr) (input : ToolInput) : option (jstr) :=
  let field k := as_string (jget (js k) input) in
  if str_eqb tool (js "bash") then field "command"%string
  else if bool_decide (tool ∈ [js "edit"; js "write"; js "read"; js "glob"]) then
    match field "filePath"%string with
    | Some s => Some s
    | None => match field "path"%string with
              | Some s => Some s
              | None => field "pattern"%string
              end
    end
  else match field "command"%string with
       | Some s => Some s
       | None => field "url"%string
       end.

Definition matchesContentAskRule (tool : jstr) (input : ToolInput)
    (ctx : ToolPermissionContext) : option PermissionRule :=
  match extractToolInputContent tool input with
  | None => None
  | Some content =>
      if negb (truthy content) then None
      else List.find (fun r => match ruleContent (ruleValue r) with
                               | Some rc => truthy rc && includes content rc
                               | None => false
                               end) (getContentRulesForTool ctx tool Ask)
  end.

Definition resolveRuleContents (tool : jstr) (input : ToolInput)
    (cr : option ToolCheckResult) : option (list (jstr)) :=
  let own := match cr with Some r => tc_ruleContents r | None => None end in
  if nonempty own then own
  else match extractToolInputContent tool input with
       | Some c => if truthy c then Some [c] else None
       | None => None
       end.

Definition resolveCandidateScopes (cr : option ToolCheckResult) :
    option (list CandidateScopeGroup) :=
  match cr with
  | Some r => if negb (nonempty (tc_ruleContents r)) then None
              else if nonempty (tc_candidateScopes r) then tc_candidateScopes r else None
  | None => None
  end.

Definition resolveRuleMatchers (cr : option ToolCheckResult) :
    option (list PermissionRuleMatcher) :=
  match cr with
  | Some r =>
      match tc_ruleContents r with
      | Some (c :: cs) =>
          match tc_ruleMatchers r with
          | Some ms => if (length ms =? length (c :: cs))%nat then Some ms else None
          | None => None
          end
      | _ => None
      end
  | None => None
  end.

Definition result_rewrite (cr : option ToolCheckResult) : option ToolInput :=
  match cr with Some r => tc_rewrittenInput r | None => None end.

Definition result_skip (cr : option ToolCheckResult) : option bool :=
  match cr with Some r => tc_skipAutoClassifier r | None => None end.

Definition quoted (s : jstr) : jstr := [dquote] ++ s ++ [dquote].

Definition interactionReason (tool : jstr) : DecisionReason :=
  ReasonSafetyCheck (js "Tool " ++ quoted tool ++ js " requires user interaction") None None.
Definition checkerErrorReason (e : jstr) : DecisionReason :=
  ReasonSafetyCheck (js "Tool checker error: " ++ e) None None.
Definition unregisteredReason (tool : jstr) : DecisionReason :=
  ReasonSafetyCheck (js "No permission checker registered for tool " ++ quoted tool
                     ++ js ", allowing by default") None None.
Definition noRuleReason (tool : jstr) (category : option (jstr)) : DecisionReason :=
  ReasonSafetyCheck (js "No permission rule matched for tool " ++ quoted tool) None category.

(** The [ask] record shared by the branches of the reducer: reason, contents,
    matchers and scopes of the checker result, and the given extras. *)
Definition ask_with (tool : jstr) (input : ToolInput) (cr : option ToolCheckResult)
    (r : DecisionReason) (rewrite : option ToolInput) (immune skip : option bool) :
    PermissionDecision :=
  {| behavior := Ask; reason := r;
     ruleContents := resolveRuleContents tool input cr;
     ruleMatchers := resolveRuleMatchers cr;
     candidateScopes := resolveCandidateScopes cr;
     rewrittenInput := rewrite; bypassImmune := immune; skipAutoClassifier := skip |}.

Definition allow_with (r : DecisionReason) (rewrite : option ToolInput) : PermissionDecision :=
  {| behavior := Allow; reason := r; ruleContents := None; ruleMatchers := None;
     candidateScopes := None; rewrittenInput := rewrite; bypassImmune := None;
     skipAutoClassifier := None |}.

(** [x ?? y] on optional rules. *)
Definition orElse {A} (x y : option A) : option A :=
  match x with Some _ => x | None => y end.

(** ** The reducer *)
Definition reducePermissionDecision (i : PermissionCoreDecisionInput) : PermissionDecision :=
  let tool := in_toolName i in
  let ctx := in_context i in
  let cr := in_checkerResult i in
  match orElse (hasWholeToolRule ctx tool Deny) (findMcpServerRule tool ctx Deny) with
  | Some denyRule => decide_as Deny (ReasonRule denyRule)
  | None =>
  match cr, result_is Deny cr with
  | Some r, true => decide_as Deny (tc_reason r)
  | _, _ =>
  let sandboxBypassesAsk :=
    str_eqb tool (js "bash") && sandboxEnabled ctx && autoAllowBashIfSandboxed ctx in
  match hasWholeToolRule ctx tool Ask, sandboxBypassesAsk with
  | Some askRule, false =>
      ask_with tool (in_input i) cr (ReasonRule askRule) (result_rewrite cr) None None
  | _, _ =>
  match findMcpServerRule tool ctx Ask with
  | Some mcpAskRule =>
      ask_with tool (in_input i) None (ReasonRule mcpAskRule) None None None
  | None =>
  if otruthy (in_checkerError i) then
    ask_with tool (in_input i) None
      (checkerErrorReason (default [] (in_checkerError i))) None None None
  else if isInteractiveTool ctx tool then
    ask_with tool (in_input i) cr (interactionReason tool) None None None
  else
  match cr, result_is Ask cr && isTrue (match cr with Some r => tc_bypassImmune r | None => None end) with
  | Some r, true =>
      ask_with tool (in_input i) cr (tc_reason r) None (Some true) (tc_skipAutoClassifier r)
  | _, _ =>
  match matchesContentAskRule tool (in_input i) ctx with
  | Some contentAskRule =>
      ask_with tool (in_input i) cr (ReasonRule contentAskRule) (result_rewrite cr) None None
  | None =>
  match cr, result_is Ask cr && negb (isBypassMode ctx) with
  | Some r, true =>
      ask_with tool (in_input i) cr (tc_reason r) (tc_rewrittenInput r) None
        (tc_skipAutoClassifier r)
  | _, _ =>
  if isBypassMode ctx then allow_with (ReasonMode bypassPermissions) (result_rewrite cr)
  else
  match orElse (hasWholeToolRule ctx tool Allow) (findMcpServerRule tool ctx Allow) with
  | Some allowRule => allow_with (ReasonRule allowRule) (result_rewrite cr)
  | None =>
  match cr, result_is Allow cr with
  | Some r, true => allow_with (tc_reason r) (tc_rewrittenInput r)
  | _, _ =>
  if negb (in_checkerRegistered i) then allow_with (unregisteredReason tool) None
  else ask_with tool (in_input i) cr (noRuleReason tool None) (result_rewrite cr) None None
  end end end end end end end end end.

(** ** Classifier fold: [Pick<PermissionDecision, 'behavior' | 'reason'>]. *)
Definition reducePermissionClassifierDecision (d : PermissionDecision)
    (rec_behavior : PermissionBehavior) (rec_reason : DecisionReason) : PermissionDecision :=
  match behavior d with
  | Ask =>
      match rec_behavior with
      | Deny => decide_as Deny rec_reason
      | Allow => allow_with rec_reason (rewrittenInput d)
      | Ask =>
          {| behavior := behavior d; reason := rec_reason; ruleContents := ruleContents d;
             ruleMatchers := ruleMatchers d; candidateScopes := candidateScopes d;
             rewrittenInput := rewrittenInput d; bypassImmune := bypassImmune d;
             skipAutoClassifier := skipAutoClassifier d |}
      end
  | _ => d
  end.

(** ** Execution plans and evidence *)
Inductive PermissionAction := pa_read | pa_write | pa_delete | pa_execute | pa_network.

Inductive PathResolution := pr_absolute | pr_relative | pr_home | pr_environment | pr_glob | pr_unknown.

Record PathValue := {
  pv_raw : jstr;
  pv_resolved : option (jstr);
  pv_dynamic : bool;
  pv_resolution : option PathResolution;
}.

Inductive CommandIntent :=
  | IntentFilesystem (action : PermissionAction) (paths : list PathValue)
      (recursive force : option bool) (shell : ShellFamily)
  | IntentExecute (program : option (jstr)) (argv : list (jstr)) (shell : ShellFamily)
      (dynamic : bool)
  | IntentNetwork (targets : list (jstr)) (method : option (jstr)) (shell : ShellFamily)
      (dynamic : bool)
  | IntentScript (interpreter : option (jstr)) (path : option PathValue) (shell : ShellFamily)
      (dynamic : bool)
  | IntentOpaque (shell : ShellFamily) (raw reason : jstr).

Inductive PermissionEvidence :=
  | EvHostDeny (reason : jstr)
  | EvUserRule (behavior : PermissionBehavior) (ruleContent : option (jstr))
  | EvPathCapability (action : PermissionAction) (path : jstr) (allowed : bool)
  | EvBuiltInAllow (reason : jstr)
  | EvClassifierEligible (reason : jstr)
  | EvClassifierIneligible (reason : jstr)
  | EvClassifierResult (behavior : PermissionBehavior) (reason : jstr)
  | EvLegacyReason (value : json)
  | EvLegacyDeny (reason : jstr).

Inductive ExecutionTransform := TrRecoverableDelete (targets : list (jstr)).

Record ExecutionPlan := {
  originalInput : ToolInput;
  effectiveInput : ToolInput;
  intents : list CommandIntent;
  transforms : list ExecutionTransform;
}.

Inductive Interaction := int_ask | int_neverAsk | int_headlessFailClosed.
Inductive ClassifierUse := cls_allowed | cls_forbidden.
Inductive Enforcement := enf_strict | enf_off.
Inductive BypassUse := byp_allowed | byp_forbidden.

Record PermissionModeProfile := {
  interaction : Interaction;
  classifier : ClassifierUse;
  enforcement : Enforcement;
  bypass : BypassUse;
}.

Record PermissionEvaluationInput := {
  ev_toolName : jstr;
  ev_input : ToolInput;
  evidence : list PermissionEvidence;
  executionPlan : option ExecutionPlan;
  ev_mode : PermissionModeProfile;
  ev_workingDirectory : jstr;
  ev_homeDir : jstr;
  ev_dataDir : jstr;
  ev_sessionId : option (jstr);
  ev_agentName : option (jstr);
}.

Record PermissionApprovalRequest := {
  req_requestId : jstr;
  req_sessionId : jstr;
  req_agentName : option (jstr);
  req_toolName : jstr;
  req_toolInput : option (jstr);
  req_reason : jstr;
  req_ruleContents : list (jstr);
  req_allowAlwaysSupported : bool;
}.

Inductive PermissionEvaluation :=
  | OutAllow (reason : jstr) (plan : option ExecutionPlan)
  | OutAsk (request : PermissionApprovalRequest) (plan : option ExecutionPlan)
  | OutDeny (reason : jstr).

#[export] Instance Interaction_eq_dec : EqDecision Interaction.
Proof. solve_decision. Defined.
#[export] Instance Enforcement_eq_dec : EqDecision Enforcement.
Proof. solve_decision. Defined.

(** Tests on one item of evidence. *)
Definition is_host_deny (e : PermissionEvidence) : bool :=
  match e with EvHostDeny _ => true | _ => false end.
Definition is_user_rule (b : PermissionBehavior) (e : PermissionEvidence) : bool :=
  match e with EvUserRule b' _ => bool_decide (b' = b) | _ => false end.
Definition is_legacy_deny (e : PermissionEvidence) : bool :=
  match e with EvLegacyDeny _ => true | _ => false end.
Definition is_classifier (b : PermissionBehavior) (e : PermissionEvidence) : bool :=
  match e with EvClassifierResult b' _ => bool_decide (b' = b) | _ => false end.
Definition is_ineligible (e : PermissionEvidence) : bool :=
  match e with EvClassifierIneligible _ => true | _ => false end.
Definition is_built_in_allow (e : PermissionEvidence) : bool :=
  match e with EvBuiltInAllow _ => true | _ => false end.

(** An item that grants: the predicate of [hasAllow] and of the final lookup. *)
Definition is_allow (e : PermissionEvidence) : bool :=
  is_user_rule Allow e || is_built_in_allow e || is_classifier Allow e.

Definition hasAllow (ev : list PermissionEvidence) : bool := existsb is_allow ev.

Definition formatToolInput (input : ToolInput) : option (jstr) :=
  match as_string (jget (js "command") input) with
  | Some s => Some s
  | None =>
  match as_string (jget (js "filePath") input) with
  | Some s => Some s
  | None =>
  match as_string (jget (js "file_path") input) with
  | Some s => Some s
  | None => as_string (jget (js "path") input)
  end end end.

Definition user_rule_content (e : PermissionEvidence) : option (jstr) :=
  match e with
  | EvUserRule _ (Some c) => if truthy c then Some c else None
  | _ => None
  end.

Definition buildApprovalRequest (i : PermissionEvaluationInput)
    (preferredRuleContent : option (jstr)) : PermissionApprovalRequest :=
  let contents := omap user_rule_content (evidence i) in
  {| req_requestId := default (js "session") (ev_sessionId i) ++ js ":" ++ ev_toolName i;
     req_sessionId := default (js "unknown") (ev_sessionId i);
     req_agentName := if otruthy (ev_agentName i) then ev_agentName i else None;
     req_toolName := ev_toolName i;
     req_toolInput := formatToolInput (ev_input i);
     req_reason := js "permission requires approval";
     req_ruleContents :=
       match preferredRuleContent with
       | Some p => if truthy p && negb (bool_decide (p ∈ contents)) then p :: contents else contents
       | None => contents
       end;
     req_allowAlwaysSupported := true |}.

Definition evidence_reason (e : PermissionEvidence) : jstr :=
  match e with
  | EvHostDeny r | EvBuiltInAllow r | EvClassifierEligible r | EvClassifierIneligible r
  | EvClassifierResult _ r | EvLegacyDeny r => r
  | EvUserRule Deny c => default (js "explicit user deny") c
  | EvUserRule _ c => default (js "explicit user allow") c
  | EvPathCapability _ _ _ | EvLegacyReason _ => js "permission allowed"
  end.

Definition reducePermissionEvaluation (i : PermissionEvaluationInput) : PermissionEvaluation :=
  let ev := evidence i in
  match List.find is_host_deny ev with
  | Some e => OutDeny (evidence_reason e)
  | None =>
  match List.find (is_user_rule Deny) ev with
  | Some e => OutDeny (evidence_reason e)
  | None =>
  match List.find is_legacy_deny ev with
  | Some e => OutDeny (evidence_reason e)
  | None =>
  match List.find (is_classifier Deny) ev with
  | Some e => OutDeny (evidence_reason e)
  | None =>
  let classifierIneligible := existsb is_ineligible ev in
  let explicitAsk := orElse (List.find (is_user_rule Ask) ev) (List.find (is_classifier Ask) ev) in
  let classifierAllow := existsb (is_classifier Allow) ev in
  let asked := match explicitAsk with Some _ => true | None => false end in
  if bool_decide (interaction (ev_mode i) = int_headlessFailClosed)
     && (asked || classifierIneligible || (negb classifierAllow && negb (hasAllow ev)))
  then OutDeny (js "permission requires user confirmation but no approval channel is available")
  else if asked || classifierIneligible
          || (negb (bool_decide (interaction (ev_mode i) = int_neverAsk))
              && negb classifierAllow && negb (hasAllow ev))
  then OutAsk (buildApprovalRequest i
                 (match explicitAsk with Some (EvUserRule _ c) => c | _ => None end))
              (executionPlan i)
  else
  match List.find is_allow ev with
  | Some e => OutAllow (evidence_reason e) (executionPlan i)
  | None =>
  if bool_decide (interaction (ev_mode i) = int_neverAsk)
     && bool_decide (enforcement (ev_mode i) = enf_strict)
  then OutDeny (js "permission interaction is disabled")
  else OutAsk (buildApprovalRequest i None) (executionPlan i)
  end end end end end.

Definition permissionModeToProfile (m : PermissionMode) : PermissionModeProfile :=
  match m with
  | bypassPermissions =>
      {| interaction := int_neverAsk; classifier := cls_forbidden;
         enforcement := enf_strict; bypass := byp_allowed |}
  | mode_off =>
      {| interaction := int_neverAsk; classifier := cls_forbidden;
         enforcement := enf_off; bypass := byp_allowed |}
  | mode_auto =>
      {| interaction := int_ask; classifier := cls_allowed;
         enforcement := enf_strict; bypass := byp_allowed |}
  | _ =>
      {| interaction := int_ask; classifier := cls_forbidden;
         enforcement := enf_strict; bypass := byp_forbidden |}
  end.

(** ** The verdict as a policy

    The abstract policy the reducer implements: four conditions on the input,
    in order of precedence. *)
Definition present {A} (o : option A) : bool := match o with Some _ => true | None => false end.

(** A deny that nothing overrides: a whole-tool or MCP-server deny rule, or a
    deny of the tool's own checker. *)
Definition explicitDeny (i : PermissionCoreDecisionInput) : bool :=
  present (hasWholeToolRule (in_context i) (in_toolName i) Deny)
  || present (findMcpServerRule (in_toolName i) (in_context i) Deny)
  || result_is Deny (in_checkerResult i).

(** The bash sandbox waives the whole-tool ask rule, and only that. *)
Definition sandboxWaiver (i : PermissionCoreDecisionInput) : bool :=
  str_eqb (in_toolName i) (js "bash") && sandboxEnabled (in_context i)
  && autoAllowBashIfSandboxed (in_context i).

(** An ask that bypass mode does not override. *)
Definition forcedAsk (i : PermissionCoreDecisionInput) : bool :=
  (present (hasWholeToolRule (in_context i) (in_toolName i) Ask) && negb (sandboxWaiver i))
  || present (findMcpServerRule (in_toolName i) (in_context i) Ask)
  || otruthy (in_checkerError i)
  || isInteractiveTool (in_context i) (in_toolName i)
  || (result_is Ask (in_checkerResult i)
      && isTrue (match in_checkerResult i with Some r => tc_bypassImmune r | None => None end))
  || present (matchesContentAskRule (in_toolName i) (in_input i) (in_context i)).

(** A ground for allowing outside bypass mode. *)
Definition granted (i : PermissionCoreDecisionInput) : bool :=
  present (hasWholeToolRule (in_context i) (in_toolName i) Allow)
  || present (findMcpServerRule (in_toolName i) (in_context i) Allow)
  || result_is Allow (in_checkerResult i)
  || negb (in_checkerRegistered i).

Definition policy (i : PermissionCoreDecisionInput) : PermissionBehavior :=
  if explicitDeny i then Deny
  else if forcedAsk i then Ask
  else if isBypassMode (in_context i) then Allow
  else if result_is Ask (in_checkerResult i) then Ask
  else if granted i then Allow
  else Ask.

(** Strictness of a verdict. *)
Definition strictness (b : PermissionBehavior) : nat :=
  match b with Allow => 0 | Ask => 1 | Deny => 2 end.

(** ** Lemmas *)
Lemma find_app {A} (f : A -> bool) (l1 l2 : list A) :
  List.find f (l1 ++ l2) = orElse (List.find f l1) (List.find f l2).
Proof. induction l1 as [|x l1 IH]; simpl; [done|]. by destruct (f x). Qed.

Lemma present_find {A} (f : A -> bool) (l : list A) : present (List.find f l) = existsb f l.
Proof. induction l as [|x l IH]; simpl; [done|]. by destruct (f x). Qed.

Lemma present_orElse {A} (x y : option A) : present (orElse x y) = present x || present y.
Proof. by destruct x. Qed.

Lemma ask_with_behavior t inp cr r w im sk : behavior (ask_with t inp cr r w im sk) = Ask.
Proof. done. Qed.

(** One branch of the reducer: decide the next test of the policy. *)
Ltac branch t := destruct t; simpl; [done|].

Lemma reduce_behavior (i : PermissionCoreDecisionInput) :
  behavior (reducePermissionDecision i) = policy i.
Proof.
  unfold reducePermissionDecision, policy, explicitDeny, forcedAsk, granted, sandboxWaiver.
  branch (hasWholeToolRule (in_context i) (in_toolName i) Deny).
  branch (findMcpServerRule (in_toolName i) (in_context i) Deny).
  destruct (in_checkerResult i) as [r|]; simpl;
    [branch (bool_decide (tc_behavior r = Checked Deny))|].
  all: destruct (hasWholeToolRule _ _ Ask), (str_eqb _ _ && _ && _); simpl; try done.
  all: branch (findMcpServerRule (in_toolName i) (in_context i) Ask).
  all: branch (otruthy (in_checkerError i)).
  all: branch (isInteractiveTool (in_context i) (in_toolName i)).
  all: try branch (bool_decide (tc_behavior r = Checked Ask) && isTrue (tc_bypassImmune r)).
  all: branch (matchesContentAskRule (in_toolName i) (in_input i) (in_context i)).
  all: destruct (isBypassMode _); rewrite ?andb_false_r, ?andb_true_r; simpl; [done|].
  all: try branch (bool_decide (tc_behavior r = Checked Ask)).
  all: branch (hasWholeToolRule (in_context i) (in_toolName i) Allow).
  all: branch (findMcpServerRule (in_toolName i) (in_context i) Allow).
  all: try branch (bool_decide (tc_behavior r = Checked Allow)).
  all: by destruct (in_checkerRegistered i).
Qed.

(** *** Rule queries as existence tests *)
Definition wholeP (t : jstr) (b : PermissionBehavior) (r : PermissionRule) : bool :=
  str_eqb (toolName (ruleValue r)) t && bool_decide (ruleBehavior r = b)
  && negb (otruthy (ruleContent (ruleValue r))).
Definition mcpP (t : jstr) (b : PermissionBehavior) (r : PermissionRule) : bool :=
  bool_decide (ruleBehavior r = b) && negb (otruthy (ruleContent (ruleValue r)))
  && matchesMcpServerRuntimeName t (toolName (ruleValue r)).
Definition contentP (t c : jstr) (r : PermissionRule) : bool :=
  str_eqb (toolName (ruleValue r)) t && bool_decide (ruleBehavior r = Ask)
  && bool_decide (is_Some (ruleContent (ruleValue r)))
  && match ruleContent (ruleValue r) with
     | Some rc => truthy rc && includes c rc
     | None => false
     end.

Lemma present_whole ctx t b :
  present (hasWholeToolRule ctx t b) = existsb (wholeP t b) (rules ctx).
Proof. apply present_find. Qed.

Lemma present_mcp ctx t b :
  present (findMcpServerRule t ctx b)
  = startsWith t (js "mcp__") && existsb (mcpP t b) (rules ctx).
Proof.
  unfold findMcpServerRule. destruct (startsWith t _); simpl; [apply present_find|done].
Qed.

Lemma present_content ctx t inp :
  present (matchesContentAskRule t inp ctx)
  = match extractToolInputContent t inp with
    | Some c => truthy c && existsb (contentP t c) (rules ctx)
    | None => false
    end.
Proof.
  unfold matchesContentAskRule. destruct (extractToolInputContent t inp) as [c|]; [|done].
  destruct (truthy c); simpl; [|done].
  unfold getContentRulesForTool. rewrite present_find. apply existsb_filter.
Qed.

(** [rs'] extends [rs] with rules of behavior [b] only. *)
Definition extends_with (b : PermissionBehavior) (rs rs' : list PermissionRule) : Prop :=
  (forall r, r ∈ rs -> r ∈ rs') /\ (forall r, r ∈ rs' -> r ∈ rs \/ ruleBehavior r = b).

Lemma existsb_mono (P : PermissionRule -> bool) b rs rs' :
  extends_with b rs rs' -> existsb P rs = true -> existsb P rs' = true.
Proof.
  intros [Hsub _]. rewrite !existsb_exists. intros (r & Hin & HP).
  exists r; split; [|done]. apply list_elem_of_In, Hsub, list_elem_of_In, Hin.
Qed.

Lemma existsb_other (P : PermissionRule -> bool) b b' rs rs' :
  extends_with b rs rs' -> b <> b' ->
  (forall r, P r = true -> ruleBehavior r = b') ->
  existsb P rs' = existsb P rs.
Proof.
  intros Hext Hne HP. apply eq_true_iff_eq; split; [|by eapply existsb_mono].
  rewrite !existsb_exists. intros (r & Hin & Hr). exists r; split; [|done].
  apply list_elem_of_In in Hin. destruct (proj2 Hext r Hin) as [H|H].
  - by apply list_elem_of_In.
  - apply HP in Hr. congruence.
Qed.

Lemma wholeP_behavior t b r : wholeP t b r = true -> ruleBehavior r = b.
Proof. unfold wholeP. intros; by reflect_bools. Qed.
Lemma mcpP_behavior t b r : mcpP t b r = true -> ruleBehavior r = b.
Proof. unfold mcpP. intros; by reflect_bools. Qed.
Lemma contentP_behavior t c r : contentP t c r = true -> ruleBehavior r = Ask.
Proof. unfold contentP. intros; by reflect_bools. Qed.

(** The same input under another rule set. *)
Definition with_rules (i : PermissionCoreDecisionInput) (rs : list PermissionRule) :
    PermissionCoreDecisionInput :=
  {| in_toolName := in_toolName i; in_input := in_input i;
     in_context := cloneContextWith (in_context i) rs;
     in_checkerRegistered := in_checkerRegistered i;
     in_checkerResult := in_checkerResult i; in_checkerError := in_checkerError i |}.

Lemma explicitDeny_mono b rs rs' i :
  extends_with b rs rs' ->
  explicitDeny (with_rules i rs) = true -> explicitDeny (with_rules i rs') = true.
Proof.
  intros Hext. unfold explicitDeny. rewrite !present_whole, !present_mcp; simpl.
  rewrite !orb_true_iff, !andb_true_iff. pose proof (existsb_mono (wholeP (in_toolName i) Deny) _ _ _ Hext).
  pose proof (existsb_mono (mcpP (in_toolName i) Deny) _ _ _ Hext). tauto.
Qed.

Lemma explicitDeny_other b rs rs' i :
  extends_with b rs rs' -> b <> Deny ->
  explicitDeny (with_rules i rs') = explicitDeny (with_rules i rs).
Proof.
  intros Hext Hb. unfold explicitDeny. rewrite !present_whole, !present_mcp; simpl.
  rewrite (existsb_other (wholeP (in_toolName i) Deny) b Deny rs rs'),
    (existsb_other (mcpP (in_toolName i) Deny) b Deny rs rs');
    try apply wholeP_behavior; try apply mcpP_behavior; done.
Qed.

Lemma forcedAsk_mono b rs rs' i :
  extends_with b rs rs' ->
  forcedAsk (with_rules i rs) = true -> forcedAsk (with_rules i rs') = true.
Proof.
  intros Hext. unfold forcedAsk, sandboxWaiver.
  rewrite !present_whole, !present_mcp, !present_content; simpl.
  pose proof (existsb_mono (wholeP (in_toolName i) Ask) _ _ _ Hext).
  pose proof (existsb_mono (mcpP (in_toolName i) Ask) _ _ _ Hext).
  destruct (extractToolInputContent _ _) as [c|];
    [pose proof (existsb_mono (contentP (in_toolName i) c) _ _ _ Hext)|];
    rewrite !orb_true_iff, !andb_true_iff; tauto.
Qed.

Lemma forcedAsk_other b rs rs' i :
  extends_with b rs rs' -> b <> Ask ->
  forcedAsk (with_rules i rs') = forcedAsk (with_rules i rs).
Proof.
  intros Hext Hb. unfold forcedAsk, sandboxWaiver.
  rewrite !present_whole, !present_mcp, !present_content; simpl.
  rewrite (existsb_other (wholeP (in_toolName i) Ask) b Ask rs rs'),
    (existsb_other (mcpP (in_toolName i) Ask) b Ask rs rs');
    try apply wholeP_behavior; try apply mcpP_behavior; try done.
  destruct (extractToolInputContent _ _) as [c|]; [|done].
  by rewrite (existsb_other (contentP (in_toolName i) c) b Ask rs rs');
    eauto using contentP_behavior.
Qed.

Lemma granted_mono b rs rs' i :
  extends_with b rs rs' ->
  granted (with_rules i rs) = true -> granted (with_rules i rs') = true.
Proof.
  intros Hext. unfold granted. rewrite !present_whole, !present_mcp; simpl.
  pose proof (existsb_mono (wholeP (in_toolName i) Allow) _ _ _ Hext).
  pose proof (existsb_mono (mcpP (in_toolName i) Allow) _ _ _ Hext).
  rewrite !orb_true_iff, !andb_true_iff. tauto.
Qed.

Lemma granted_other b rs rs' i :
  extends_with b rs rs' -> b <> Allow ->
  granted (with_rules i rs') = granted (with_rules i rs).
Proof.
  intros Hext Hb. unfold granted. rewrite !present_whole, !present_mcp; simpl.
  rewrite (existsb_other (wholeP (in_toolName i) Allow) b Allow rs rs'),
    (existsb_other (mcpP (in_toolName i) Allow) b Allow rs rs');
    try apply wholeP_behavior; try apply mcpP_behavior; done.
Qed.

(** The same input under another context. *)
Definition with_context (i : PermissionCoreDecisionInput) (ctx : ToolPermissionContext) :
    PermissionCoreDecisionInput :=
  {| in_toolName := in_toolName i; in_input := in_input i; in_context := ctx;
     in_checkerRegistered := in_checkerRegistered i;
     in_checkerResult := in_checkerResult i; in_checkerError := in_checkerError i |}.

(** Close a case whose hypothesis [true = true -> false = true] is absurd. *)
Ltac absurd_premise :=
  match goal with
  | H : ?a = ?a -> _ |- _ => specialize (H eq_refl); congruence
  | H : ?b = true -> _, E : ?b = true |- _ => specialize (H E); congruence
  end.

Lemma policy_restrict b rs rs' i :
  extends_with b rs rs' -> b <> Allow ->
  strictness (policy (with_rules i rs)) <= strictness (policy (with_rules i rs')).
Proof.
  intros Hext Hb. pose proof (explicitDeny_mono b rs rs' i Hext).
  pose proof (forcedAsk_mono b rs rs' i Hext).
  pose proof (granted_other b rs rs' i Hext Hb) as Hg. unfold policy; rewrite Hg; simpl.
  change (isBypassMode (cloneContextWith (in_context i) rs'))
    with (isBypassMode (cloneContextWith (in_context i) rs)).
  destruct (explicitDeny (with_rules i rs)) eqn:?, (explicitDeny (with_rules i rs')) eqn:?;
    simpl; try (lia || absurd_premise).
  all: destruct (forcedAsk (with_rules i rs)) eqn:?, (forcedAsk (with_rules i rs')) eqn:?;
    simpl; try (lia || absurd_premise).
  all: repeat case_match; simpl; lia.
Qed.

Lemma policy_relax rs rs' i :
  extends_with Allow rs rs' ->
  strictness (policy (with_rules i rs')) <= strictness (policy (with_rules i rs)).
Proof.
  intros Hext. pose proof (granted_mono Allow rs rs' i Hext) as Hg.
  pose proof (explicitDeny_other Allow rs rs' i Hext ltac:(done)) as Hd.
  pose proof (forcedAsk_other Allow rs rs' i Hext ltac:(done)) as Hf.
  unfold policy; rewrite Hd, Hf; simpl (in_context _); simpl (in_checkerResult _).
  change (isBypassMode (cloneContextWith (in_context i) rs'))
    with (isBypassMode (cloneContextWith (in_context i) rs)).
  repeat (case_match; simpl; try lia); clear Hd Hf.
  all: absurd_premise.
Qed.

Lemma addRules_extends ctx s vs b :
  extends_with b (rules ctx) (rules (addRules ctx s vs b)).
Proof.
  rewrite addRules_rules. destruct (addRule_step_prefix s b vs (rules ctx)) as (added & -> & Hadd).
  split; [set_solver|]. intros r [H|H]%elem_of_app; [by left|right].
  rewrite Forall_forall in Hadd. apply Hadd in H. unfold inSlot in H. by reflect_bools.
Qed.

Lemma removeRules_extends ctx s vs b :
  extends_with b (rules (removeRules ctx s vs b)) (rules ctx).
Proof.
  unfold removeRules; simpl. split.
  - intros r Hr. apply list_elem_of_In, filter_In in Hr as [Hr _]. by apply list_elem_of_In.
  - intros r Hr. destruct (decide (ruleBehavior r = b)) as [|Hne]; [by right|left].
    apply list_elem_of_In, filter_In. split; [by apply list_elem_of_In|].
    rewrite (bool_decide_eq_false_2 (ruleBehavior r = b)) by done. by rewrite orb_true_r.
Qed.

(** Updates that only add deny or ask rules, or only remove allow rules. *)
Definition restricting (u : PermissionUpdate) : bool :=
  match u with
  | UpdAddRules _ _ _ b => negb (bool_decide (b = Allow))
  | UpdRemoveRules _ _ _ b => bool_decide (b = Allow)
  | UpdReplaceRules _ _ _ _ => false
  end.

(** ** Properties *)

(** C1: the reducer implements the precedence policy: explicit deny, then the
    asks bypass mode cannot override, then bypass mode, then a checker's own
    ask, then a ground for allowing, else ask. *)
Theorem reduce_implements_policy (i : PermissionCoreDecisionInput) :
  behavior (reducePermissionDecision i) = policy i.
Proof. apply reduce_behavior. Qed.

(** restricting the rules never relaxes a verdict: adding deny or ask
    rules, or removing allow rules, leaves the verdict at least as strict, for
    every tool call, mode and checker outcome. *)
Theorem restricting_update_monotone (i : PermissionCoreDecisionInput) (u : PermissionUpdate)
    (Hu : restricting u = true) :
  strictness (behavior (reducePermissionDecision i))
  <= strictness (behavior (reducePermissionDecision
                   (with_context i (applyPermissionUpdate (in_context i) u)))).
Proof.
  rewrite !reduce_behavior.
  replace i with (with_rules i (rules (in_context i))) at 1
    by (destruct i as [? ? ctx]; unfold with_rules; simpl; by rewrite clone_rules).
  destruct u as [s d vs b|s d vs b|s d vs b]; simpl in Hu; reflect_bools; [|done|subst b]; simpl.
  - change (with_context i (addRules (in_context i) s vs b))
      with (with_rules i (rules (addRules (in_context i) s vs b))).
    eapply policy_restrict; [apply addRules_extends|done].
  - change (with_context i (removeRules (in_context i) s vs Allow))
      with (with_rules i (rules (removeRules (in_context i) s vs Allow))).
    apply policy_relax, removeRules_extends.
Qed.

(** *** The evidence reducer *)
Inductive Outcome := o_allow | o_ask | o_deny.
Definition outcome (e : PermissionEvaluation) : Outcome :=
  match e with OutAllow _ _ => o_allow | OutAsk _ _ => o_ask | OutDeny _ => o_deny end.

Definition anyDeny (ev : list PermissionEvidence) : bool :=
  existsb is_host_deny ev || existsb (is_user_rule Deny) ev || existsb is_legacy_deny ev
  || existsb (is_classifier Deny) ev.

Definition anyAsk (ev : list PermissionEvidence) : bool :=
  existsb (is_user_rule Ask) ev || existsb (is_classifier Ask) ev || existsb is_ineligible ev.

(** The policy on evidence: denies win; an ask or a missing grant asks, or
    fails closed without an approval channel; a grant allows; with interaction
    off and nothing to go by, strict enforcement denies. *)
Definition evidencePolicy (m : PermissionModeProfile) (ev : list PermissionEvidence) : Outcome :=
  if anyDeny ev then o_deny
  else if anyAsk ev then
    if bool_decide (interaction m = int_headlessFailClosed) then o_deny else o_ask
  else if hasAllow ev then o_allow
  else match interaction m with
       | int_headlessFailClosed => o_deny
       | int_ask => o_ask
       | int_neverAsk => match enforcement m with enf_strict => o_deny | enf_off => o_ask end
       end.

Lemma existsb_imp {A} (f g : A -> bool) (l : list A) :
  (forall x, f x = true -> g x = true) -> existsb f l = true -> existsb g l = true.
Proof. intros H. rewrite !existsb_exists. naive_solver. Qed.

Lemma find_existsb {A} (f : A -> bool) (l : list A) :
  existsb f l = false -> List.find f l = None.
Proof. rewrite <- present_find. by destruct (List.find f l). Qed.

Lemma evaluation_outcome (i : PermissionEvaluationInput) :
  outcome (reducePermissionEvaluation i) = evidencePolicy (ev_mode i) (evidence i).
Proof.
  unfold reducePermissionEvaluation, evidencePolicy, anyDeny.
  rewrite <- (present_find is_host_deny), <- (present_find (is_user_rule Deny)),
    <- (present_find is_legacy_deny), <- (present_find (is_classifier Deny)).
  branch (List.find is_host_deny (evidence i)).
  branch (List.find (is_user_rule Deny) (evidence i)).
  branch (List.find is_legacy_deny (evidence i)).
  branch (List.find (is_classifier Deny) (evidence i)).
  unfold anyAsk. rewrite <- (present_find (is_user_rule Ask)), <- (present_find (is_classifier Ask)).
  assert (Hc : hasAllow (evidence i) = false -> existsb (is_classifier Allow) (evidence i) = false).
  { intros H. apply not_true_iff_false; intros Hx. apply not_true_iff_false in H. apply H.
    eapply existsb_imp; [|apply Hx]. unfold is_allow. intros x ->. by rewrite orb_true_r. }
  pose proof (present_find is_allow (evidence i)) as Hp. fold (hasAllow (evidence i)) in Hp.
  destruct (hasAllow (evidence i)); [|rewrite (Hc eq_refl); clear Hc].
  all: destruct (List.find is_allow (evidence i)); try discriminate Hp; clear Hp.
  all: destruct (List.find (is_user_rule Ask) _), (List.find (is_classifier Ask) _),
         (existsb is_ineligible _), (interaction (ev_mode i)), (enforcement (ev_mode i));
    simpl; rewrite ?andb_false_r; done.
Qed.

(** The evidence reducer implements the evidence policy; in particular an
    allow needs a grant and no deny, ask or ineligibility evidence, and a
    headless host never gets an ask. *)
Theorem evaluation_implements_policy (i : PermissionEvaluationInput) :
  outcome (reducePermissionEvaluation i) = evidencePolicy (ev_mode i) (evidence i).
Proof. apply evaluation_outcome. Qed.

Lemma existsb_same_elements {A} (f : A -> bool) (l l' : list A) :
  (forall x, x ∈ l <-> x ∈ l') -> existsb f l = existsb f l'.
Proof.
  intros H. apply eq_true_iff_eq. rewrite !existsb_exists.
  split; intros (x & Hx & Hf); exists x; (split; [|done]);
    apply list_elem_of_In, H, list_elem_of_In, Hx.
Qed.

(** The outcome does not depend on the order in which evidence was
    collected, nor on repetitions. *)
Theorem evaluation_order_irrelevant (i j : PermissionEvaluationInput)
    (Hmode : ev_mode i = ev_mode j)
    (Hev : forall e, e ∈ evidence i <-> e ∈ evidence j) :
  outcome (reducePermissionEvaluation i) = outcome (reducePermissionEvaluation j).
Proof.
  rewrite !evaluation_outcome, Hmode.
  unfold evidencePolicy, anyDeny, anyAsk, hasAllow.
  rewrite !(existsb_same_elements _ _ _ Hev). done.
Qed.

(** With enforcement off and no evidence the reducer still asks. *)
Lemma off_mode_asks (i : PermissionEvaluationInput) :
  ev_mode i = permissionModeToProfile mode_off -> evidence i = [] ->
  outcome (reducePermissionEvaluation i) = o_ask.
Proof. intros Hm He. by rewrite evaluation_outcome, Hm, He. Qed.

(** A classifier recommendation only refines an ask: a deny or allow of the
    reducer is returned unchanged, an explicit deny stays a deny, and a refined
    ask takes the recommended behavior. *)
Theorem classifier_only_refines (i : PermissionCoreDecisionInput)
    (b : PermissionBehavior) (r : DecisionReason) :
  let d := reducePermissionDecision i in
  let d' := reducePermissionClassifierDecision d b r in
  (policy i <> Ask -> d' = d)
  /\ (explicitDeny i = true -> behavior d' = Deny)
  /\ (policy i = Ask -> behavior d' = b /\ reason d' = r).
Proof.
  simpl. unfold reducePermissionClassifierDecision. rewrite reduce_behavior. repeat split.
  - intros H. by destruct (policy i).
  - intros H. unfold policy. rewrite H. rewrite reduce_behavior. unfold policy. by rewrite H.
  - destruct (policy i); [done..|]. by destruct b.
  - destruct (policy i); [done..|]. by destruct b.
Qed.

(** *** Concrete instances *)
Definition sample_context (m : PermissionMode) (rs : list PermissionRule) : ToolPermissionContext :=
  cloneContextWith
    (createToolPermissionContext (js "linux")
       {| cfg_mode := Some m; cfg_rules := None; cfg_sandboxEnabled := None;
          cfg_autoAllowBashIfSandboxed := None; cfg_platform := None; cfg_shellFamily := Some posix;
          cfg_workingDirectory := js "/work"; cfg_allowedWorkingPaths := None;
          cfg_sandboxAllowPaths := None; cfg_trustedExactWritePaths := None;
          cfg_dataDir := js "/data"; cfg_homeDir := js "/home"; cfg_isFile := None;
          cfg_agentName := None; cfg_sessionId := None;
          cfg_allowManagedPermissionRulesOnly := None; cfg_interactiveTools := None |}) rs.

Definition whole_tool_rule (tool : jstr) (b : PermissionBehavior) : PermissionRule :=
  {| source := src_session; ruleBehavior := b;
     ruleValue := {| toolName := tool; ruleContent := None; matcher := None |} |}.

(** [git status] under an allow rule for the whole bash tool. *)
Definition sample_input : PermissionCoreDecisionInput :=
  {| in_toolName := js "bash"; in_input := [(js "command", JStr (js "git status"))];
     in_context := sample_context mode_default [whole_tool_rule (js "bash") Allow];
     in_checkerRegistered := true; in_checkerResult := None; in_checkerError := None |}.

Definition deny_bash : PermissionUpdate :=
  UpdAddRules src_global (js "userSettings")
    [{| toolName := js "bash"; ruleContent := None; matcher := None |}] Deny.

Lemma restricting_update_monotone_witness :
  restricting deny_bash = true
  /\ behavior (reducePermissionDecision sample_input) = Allow
  /\ strictness (behavior (reducePermissionDecision sample_input))
     <= strictness (behavior (reducePermissionDecision
          (with_context sample_input (applyPermissionUpdate (in_context sample_input) deny_bash)))).
Proof.
  split; [reflexivity|]. split; [vm_compute; reflexivity|].
  apply (restricting_update_monotone sample_input deny_bash eq_refl).
Defined.

Definition sample_evaluation (ev : list PermissionEvidence) : PermissionEvaluationInput :=
  {| ev_toolName := js "bash"; ev_input := []; evidence := ev; executionPlan := None;
     ev_mode := permissionModeToProfile mode_default; ev_workingDirectory := js "/work";
     ev_homeDir := js "/home"; ev_dataDir := js "/data"; ev_sessionId := None;
     ev_agentName := None |}.

Lemma evaluation_order_irrelevant_witness :
  outcome (reducePermissionEvaluation
             (sample_evaluation [EvBuiltInAllow []; EvUserRule Ask None]))
  = outcome (reducePermissionEvaluation
             (sample_evaluation [EvUserRule Ask None; EvBuiltInAllow []])).
Proof.
  apply (evaluation_order_irrelevant
           (sample_evaluation [EvBuiltInAllow []; EvUserRule Ask None])
           (sample_evaluation [EvUserRule Ask None; EvBuiltInAllow []])); [reflexivity|].
  intros e. simpl. rewrite !elem_of_cons. tauto.
Defined.
