(* ===== verification/PermissionEngine.v ===== *)
(** * Permission Engine: checker registry and the two policy paths

    [packages/agent-modules/permission/src/engine.ts].  A checker is host code
    behind the interface [ToolPermissionChecker]: it may return a result,
    return [undefined], or throw.  The generic path-capability fallback of
    [tools/path-capability.ts] is such a checker as well and is a section
    variable: every theorem holds for whatever it computes. *)
From S2P Require Import Prelude JsValue PermTypes PermContext PermissionCore.

(** What a call of a checker produces; the message of a thrown value is
    [undefined] when the thrown value is not an [Error]. *)
Inductive CheckOutcome :=
  | Returned (r : option ToolCheckResult)
  | Threw (message : option (jstr)).

Abbreviation Checker :=
  (jstr -> list (jstr * json) -> ToolPermissionContext -> CheckOutcome) (only parsing).

Record PermissionEngine := { checkers : jmap (jstr) Checker }.

Definition new_engine : PermissionEngine := {| checkers := [] |}.

Definition registerToolPermissionChecker (e : PermissionEngine) (tool : jstr) (c : Checker) :
    PermissionEngine := {| checkers := jset tool c (checkers e) |}.

Definition unregisterToolPermissionChecker (e : PermissionEngine) (tool : jstr) :
    PermissionEngine := {| checkers := jdel tool (checkers e) |}.

Inductive TraceBehavior := TrBehavior (b : CheckBehavior) | TrNone | TrError.

Record PermissionCheckerDecisionTrace := {
  tr_checkerRegistered : bool;
  tr_checkerBehavior : TraceBehavior;
  tr_reasonType : option ReasonType;
  tr_reason : option DecisionReason;
  tr_rewriteApplied : bool;
  tr_ruleCount : nat;
  tr_skipAutoClassifier : bool;
}.

Definition notifyCheckerDecision (registered : bool) (result : option ToolCheckResult)
    (failed : bool) : PermissionCheckerDecisionTrace :=
  {| tr_checkerRegistered := registered;
     tr_checkerBehavior :=
       if failed then TrError
       else match result with Some r => TrBehavior (tc_behavior r) | None => TrNone end;
     tr_reasonType := reason_type <$> (tc_reason <$> result);
     tr_reason := tc_reason <$> result;
     tr_rewriteApplied := bool_decide (is_Some (result_rewrite result));
     tr_ruleCount := match result with
                     | Some r => length (default [] (tc_ruleContents r))
                     | None => 0
                     end;
     tr_skipAutoClassifier := isTrue (result_skip result) |}.

(** [matchesContentAskRule] of the engine: the rule loop, with the input
    content extracted inside the loop. *)
Fixpoint engineContentAsk_loop (tool : jstr) (input : ToolInput) (rs : list PermissionRule) :
    option PermissionRule :=
  match rs with
  | [] => None
  | rule :: rest =>
      match ruleContent (ruleValue rule) with
      | Some rc =>
          if negb (truthy rc) then engineContentAsk_loop tool input rest
          else match extractToolInputContent tool input with
               | Some c => if truthy c && includes c rc then Some rule
                           else engineContentAsk_loop tool input rest
               | None => engineContentAsk_loop tool input rest
               end
      | None => engineContentAsk_loop tool input rest
      end
  end.

Definition engineMatchesContentAskRule (tool : jstr) (input : ToolInput)
    (ctx : ToolPermissionContext) : option PermissionRule :=
  engineContentAsk_loop tool input (getContentRulesForTool ctx tool Ask).

Section Engine.
Variable decideUnknownToolPathCapabilities : Checker.

Definition runChecker (e : PermissionEngine) (tool : jstr) (input : ToolInput)
    (ctx : ToolPermissionContext) : CheckOutcome :=
  match jget tool (checkers e) with
  | Some c => c tool input ctx
  | None => decideUnknownToolPathCapabilities tool input ctx
  end.

(** The [try]/[catch] around the checker: result and error text. *)
Definition outcome_result (o : CheckOutcome) : option ToolCheckResult :=
  match o with Returned r => r | Threw _ => None end.
Definition outcome_error (o : CheckOutcome) : option (jstr) :=
  match o with Returned _ => None | Threw m => m end.

(** The decision and the calls of [options.onCheckerDecision]. *)
Definition checkPermissionWithCore (e : PermissionEngine) (tool : jstr) (input : ToolInput)
    (ctx : ToolPermissionContext) :
    PermissionDecision * list PermissionCheckerDecisionTrace :=
  let registered := jhas tool (checkers e) in
  let o := runChecker e tool input ctx in
  let err := outcome_error o in
  (reducePermissionDecision
     {| in_toolName := tool; in_input := input; in_context := ctx;
        in_checkerRegistered := registered; in_checkerResult := outcome_result o;
        in_checkerError := if otruthy err then err else None |},
   [notifyCheckerDecision registered (outcome_result o) (otruthy err)]).

(** Step 1 after the checker ran: the ASK branches 1b to 1h. *)
Definition engineRejectStep (tool : jstr) (input : ToolInput) (ctx : ToolPermissionContext)
    (cr : option ToolCheckResult) (err : option (jstr)) : option PermissionDecision :=
  let mcpOrLater :=
    match findMcpServerRule tool ctx Ask with
    | Some mcpAskRule =>
        Some (ask_with tool input None (ReasonRule mcpAskRule) None None None)
    | None =>
    if otruthy err then
      Some (ask_with tool input None (checkerErrorReason (default [] err)) None None None)
    else if isInteractiveTool ctx tool then
      Some (ask_with tool input cr (interactionReason tool) None None None)
    else
    let immune :=
      match cr with
      | Some r => if result_is Ask cr && isTrue (tc_bypassImmune r) then Some r else None
      | None => None
      end in
    match immune with
    | Some r => Some (ask_with tool input cr (tc_reason r) None (Some true)
                        (tc_skipAutoClassifier r))
    | None =>
    match engineMatchesContentAskRule tool input ctx with
    | Some rule => Some (ask_with tool input cr (ReasonRule rule) (result_rewrite cr) None None)
    | None =>
    match cr with
    | Some r =>
        if result_is Ask cr && bool_decide (reason_type (tc_reason r) = rt_safetyCheck)
           && negb (isBypassMode ctx)
        then Some (ask_with tool input cr (tc_reason r) (tc_rewrittenInput r) None
                     (tc_skipAutoClassifier r))
        else if result_is Ask cr && negb (isBypassMode ctx)
        then Some (ask_with tool input cr (tc_reason r) (tc_rewrittenInput r) None
                     (tc_skipAutoClassifier r))
        else None
    | None => None
    end end end end in
  match hasWholeToolRule ctx tool Ask with
  | Some askRule =>
      if str_eqb tool (js "bash") && sandboxEnabled ctx && autoAllowBashIfSandboxed ctx
      then mcpOrLater
      else Some (ask_with tool input cr (ReasonRule askRule) (result_rewrite cr) None None)
  | None => mcpOrLater
  end.

(** Steps 2 and 3: the ALLOW branches and the fallback. *)
Definition engineAllowStep (tool : jstr) (input : ToolInput) (ctx : ToolPermissionContext)
    (registered : bool) (cr : option ToolCheckResult) : PermissionDecision :=
  if isBypassMode ctx then allow_with (ReasonMode bypassPermissions) (result_rewrite cr)
  else
  match hasWholeToolRule ctx tool Allow with
  | Some r => allow_with (ReasonRule r) (result_rewrite cr)
  | None =>
  match findMcpServerRule tool ctx Allow with
  | Some r => allow_with (ReasonRule r) (result_rewrite cr)
  | None =>
  let fallback :=
    if negb registered then allow_with (unregisteredReason tool) None
    else ask_with tool input cr (noRuleReason tool (Some (js "noMatchingPermissionRule")))
           (result_rewrite cr) None None in
  match cr with
  | Some r => if result_is Allow cr then allow_with (tc_reason r) (tc_rewrittenInput r)
              else fallback
  | None => fallback
  end end end.

Definition checkPermissionWithEngine (e : PermissionEngine) (tool : jstr)
    (input : ToolInput) (ctx : ToolPermissionContext) :
    PermissionDecision * list PermissionCheckerDecisionTrace :=
  match hasWholeToolRule ctx tool Deny with
  | Some denyRule => (decide_as Deny (ReasonRule denyRule), [])
  | None =>
  match findMcpServerRule tool ctx Deny with
  | Some mcpDenyRule => (decide_as Deny (ReasonRule mcpDenyRule), [])
  | None =>
  let registered := jhas tool (checkers e) in
  let o := runChecker e tool input ctx in
  let cr := outcome_result o in
  let err := outcome_error o in
  let trace := [notifyCheckerDecision registered cr (otruthy err)] in
  let rest :=
    match engineRejectStep tool input ctx cr err with
    | Some d => d
    | None => engineAllowStep tool input ctx registered cr
    end in
  match cr with
  | Some r => if result_is Deny cr then (decide_as Deny (tc_reason r), trace) else (rest, trace)
  | None => (rest, trace)
  end end end.

(** [checkPermission]: [options.policyOwner ?? 'engine'], checked at run time. *)
Definition checkPermission (e : PermissionEngine) (tool : jstr) (input : ToolInput)
    (ctx : ToolPermissionContext) (policyOwner : option (jstr)) :
    (jstr) + (PermissionDecision * list PermissionCheckerDecisionTrace) :=
  let owner := default (js "engine") policyOwner in
  if str_eqb owner (js "core") then inr (checkPermissionWithCore e tool input ctx)
  else if str_eqb owner (js "engine") then inr (checkPermissionWithEngine e tool input ctx)
  else inl (js "Unknown permission policy owner: " ++ owner).
End Engine.

(** ** Properties *)
Lemma engineContentAsk_find tool input rs :
  engineContentAsk_loop tool input rs =
  match extractToolInputContent tool input with
  | Some c =>
      if negb (truthy c) then None
      else List.find (fun r => match ruleContent (ruleValue r) with
                               | Some rc => truthy rc && includes c rc
                               | None => false
                               end) rs
  | None => None
  end.
Proof.
  induction rs as [|r rs IH]; simpl.
  - by destruct (extractToolInputContent tool input) as [c|]; [destruct (truthy c)|].
  - rewrite IH. destruct (ruleContent (ruleValue r)) as [rc|];
      [|by destruct (extractToolInputContent tool input) as [c|]; [destruct (truthy c)|]].
    destruct (extractToolInputContent tool input) as [c|]; [|by destruct (truthy rc)].
    by destruct (truthy rc), (truthy c); simpl; try done; destruct (includes c rc).
Qed.

Lemma engine_content_ask tool input ctx :
  engineMatchesContentAskRule tool input ctx = matchesContentAskRule tool input ctx.
Proof. apply engineContentAsk_find. Qed.

(** The step at which the engine and Core part ways: the final fallback of a
    registered checker without an opinion. *)
Definition fallback_of (category : option (jstr)) (tool : jstr) (input : ToolInput)
    (cr : option ToolCheckResult) : PermissionDecision :=
  ask_with tool input cr (noRuleReason tool category) (result_rewrite cr) None None.

Section Agreement.
Variable unknownPaths : Checker.

Lemma otruthy_filter (err : option (jstr)) :
  otruthy (if otruthy err then err else None) = otruthy err.
Proof. by destruct (otruthy err) eqn:E. Qed.

Lemma default_filter (err : option (jstr)) :
  otruthy err = true -> default [] (if otruthy err then err else None) = default [] err.
Proof. by intros ->. Qed.

Definition agree (category : option (jstr)) tool input cr (d d' : PermissionDecision) : Prop :=
  d = d' \/ (d = fallback_of category tool input cr /\ d' = fallback_of None tool input cr).

(** Both sides have reached the same record, or both the fallback. *)
Ltac settle := try (left; reflexivity); try (right; split; reflexivity).

Lemma steps_agree tool input ctx registered cr err :
  hasWholeToolRule ctx tool Deny = None -> findMcpServerRule tool ctx Deny = None ->
  result_is Deny cr = false ->
  agree (Some (js "noMatchingPermissionRule")) tool input cr
    (match engineRejectStep tool input ctx cr err with
     | Some d => d
     | None => engineAllowStep tool input ctx registered cr
     end)
    (reducePermissionDecision
       {| in_toolName := tool; in_input := input; in_context := ctx;
          in_checkerRegistered := registered; in_checkerResult := cr;
          in_checkerError := if otruthy err then err else None |}).
Proof.
  intros Hd Hm Hr.
  unfold reducePermissionDecision, engineRejectStep, engineAllowStep, agree, fallback_of.
  cbn [in_toolName in_input in_context in_checkerRegistered in_checkerResult in_checkerError].
  rewrite Hd, Hm, engine_content_ask, otruthy_filter; cbn [orElse].
  destruct (hasWholeToolRule ctx tool Ask),
    (str_eqb tool (js "bash") && sandboxEnabled ctx && autoAllowBashIfSandboxed ctx);
    cbn [result_is] in *; rewrite ?Hr.
  all: destruct cr as [r|]; cbn [result_is result_rewrite] in *; rewrite ?Hr; settle.
  all: destruct (findMcpServerRule tool ctx Ask); settle.
  all: destruct (otruthy err); settle.
  all: destruct (isInteractiveTool ctx tool); settle.
  all: try (destruct (bool_decide (tc_behavior r = Checked Ask)); cbn [andb]).
  all: try (destruct (isTrue (tc_bypassImmune r)); settle).
  all: destruct (matchesContentAskRule tool input ctx); settle.
  all: destruct (isBypassMode ctx); cbn [negb andb].
  all: try (destruct (bool_decide (reason_type (tc_reason r) = rt_safetyCheck)); cbn [andb]); settle.
  all: destruct (hasWholeToolRule ctx tool Allow); settle.
  all: destruct (findMcpServerRule tool ctx Allow); settle.
  all: try (destruct (bool_decide (tc_behavior r = Checked Allow)); settle).
  all: destruct registered; settle.
Qed.

(** C3: the two policy owners agree: for every registry, tool call and
    context the engine and Core return the same decision, except that the
    engine tags the reason of the no-match fallback with a category; and the
    observer sees the same trace, except that the engine does not consult the
    checker when a whole-tool or MCP deny rule settles the call. *)
Theorem engine_core_agree (e : PermissionEngine) (tool : jstr) (input : ToolInput)
    (ctx : ToolPermissionContext) :
  let '(de, te) := checkPermissionWithEngine unknownPaths e tool input ctx in
  let '(dc, tc) := checkPermissionWithCore unknownPaths e tool input ctx in
  agree (Some (js "noMatchingPermissionRule")) tool input
    (outcome_result (runChecker unknownPaths e tool input ctx)) de dc
  /\ te = (if present (hasWholeToolRule ctx tool Deny)
              || present (findMcpServerRule tool ctx Deny) then [] else tc).
Proof.
  unfold checkPermissionWithEngine, checkPermissionWithCore.
  set (o := runChecker unknownPaths e tool input ctx).
  destruct (hasWholeToolRule ctx tool Deny) eqn:Hd.
  { split; [|done]. left. unfold reducePermissionDecision; simpl. by rewrite Hd. }
  destruct (findMcpServerRule tool ctx Deny) eqn:Hm.
  { split; [|done]. left. unfold reducePermissionDecision; simpl. by rewrite Hd, Hm. }
  destruct (result_is Deny (outcome_result o)) eqn:Hr.
  - destruct (outcome_result o) as [r|] eqn:Ho; [|done]. simpl in Hr. split; [|done].
    left. unfold reducePermissionDecision; simpl. rewrite Hd, Hm; simpl.
    by rewrite Hr.
  - pose proof (steps_agree tool input ctx (jhas tool (checkers e)) (outcome_result o)
      (outcome_error o) Hd Hm Hr) as Ha.
    destruct (outcome_result o) as [r|] eqn:Ho; by split.
Qed.

(** C37: a failing checker fails closed: when the checker throws an error with
    a message, and no deny rule settles the call, both owners ask, in every
    mode (bypass included) and whatever the allow rules say. *)
Theorem checker_failure_asks (e : PermissionEngine) (tool : jstr) (input : ToolInput)
    (ctx : ToolPermissionContext) (c : jchar) (m : jstr)
    (Hthrow : runChecker unknownPaths e tool input ctx = Threw (Some (c :: m)))
    (Hdeny : hasWholeToolRule ctx tool Deny = None)
    (Hmcp : findMcpServerRule tool ctx Deny = None) :
  behavior (checkPermissionWithEngine unknownPaths e tool input ctx).1 = Ask
  /\ behavior (checkPermissionWithCore unknownPaths e tool input ctx).1 = Ask.
Proof.
  unfold checkPermissionWithEngine, checkPermissionWithCore. rewrite Hdeny, Hmcp, Hthrow; simpl.
  rewrite reduce_behavior. unfold policy, explicitDeny, forcedAsk, engineRejectStep; simpl.
  rewrite Hdeny, Hmcp; simpl. rewrite !orb_true_r; simpl. split; [|done].
  destruct (hasWholeToolRule ctx tool Ask), (findMcpServerRule tool ctx Ask); simpl; try done.
  all: by repeat case_match; simplify_eq.
Qed.
End Agreement.

(** A checker that always throws. *)
Definition throwing (m : option (jstr)) : Checker := fun _ _ _ => Threw m.

Lemma checker_failure_asks_witness :
  let e := registerToolPermissionChecker new_engine (js "bash") (throwing (Some (js "boom"))) in
  let ctx := sample_context bypassPermissions [] in
  behavior (checkPermissionWithEngine (throwing None) e (js "bash") [] ctx).1 = Ask
  /\ behavior (checkPermissionWithCore (throwing None) e (js "bash") [] ctx).1 = Ask.
Proof.
  apply (checker_failure_asks (throwing None) _ (js "bash") [] (sample_context bypassPermissions [])
           (ch "b") (js "oom")); vm_compute; reflexivity.
Defined.

(** When the thrown value carries no message and no checker is registered for
    the tool, the failure is not an ask: the call is allowed by default. *)
Lemma silent_failure_allows :
  let ctx := sample_context mode_default [] in
  runChecker (throwing None) new_engine (js "custom") [] ctx = Threw None
  /\ behavior (checkPermissionWithEngine (throwing None) new_engine (js "custom") [] ctx).1 = Allow
  /\ behavior (checkPermissionWithCore (throwing None) new_engine (js "custom") [] ctx).1 = Allow.
Proof. by vm_compute. Qed.
