(* ===== verification/ShellTokenize.v ===== *)
(** * Shell tokenisation

    [packages/agent-modules/permission/src/tools/shell-tokenize.ts]: the
    tokeniser shared by the bash permission gate and the classifier.  The loop
    over the index [i] is a recursion on the rest of the input that carries
    [i]; the [i += k] of a folded line continuation drops [k] more characters. *)
From S2P Require Import Prelude.

Definition squote : jchar := 39%N.
Definition backslash : jchar := 92%N.

Record ShellToken := {
  value : jstr;
  start : nat;
  end_ : nat;
  quoted : bool;
}.

(** The mutable locals of the loop. *)
Record TokState := {
  tokens : list ShellToken;
  current : jstr;
  currentStart : option nat;
  currentQuoted : bool;
  inSingleQuote : bool;
  inDoubleQuote : bool;
  escaped : bool;
}.

Definition tok_init : TokState :=
  {| tokens := []; current := []; currentStart := None; currentQuoted := false;
     inSingleQuote := false; inDoubleQuote := false; escaped := false |}.

Definition isShellWhitespace (c : jchar) : bool :=
  ((c =? 32) || ((9 <=? c) && (c <=? 13)))%N.

(** [currentStart ??= index]. *)
Definition startCurrent (index : nat) (st : TokState) : option nat :=
  match currentStart st with Some k => Some k | None => Some index end.

Definition flushCurrent (e : nat) (st : TokState) : TokState :=
  {| tokens := match current st with
               | [] => tokens st
               | cur => tokens st ++ [{| value := cur; start := default e (currentStart st);
                                         end_ := e; quoted := currentQuoted st |}]
               end;
     current := []; currentStart := None; currentQuoted := false;
     inSingleQuote := inSingleQuote st; inDoubleQuote := inDoubleQuote st;
     escaped := escaped st |}.

(** Append [c], which began (with its escape) at [index]. *)
Definition push (c : jchar) (index : nat) (q : bool) (st : TokState) : TokState :=
  {| tokens := tokens st; current := current st ++ [c]; currentStart := startCurrent index st;
     currentQuoted := q || currentQuoted st; inSingleQuote := inSingleQuote st;
     inDoubleQuote := inDoubleQuote st; escaped := false |}.

(** Enter an escape, or toggle a quote: the token starts and counts as quoted. *)
Definition mark (index : nat) (sq dq esc : bool) (st : TokState) : TokState :=
  {| tokens := tokens st; current := current st; currentStart := startCurrent index st;
     currentQuoted := true; inSingleQuote := sq; inDoubleQuote := dq; escaped := esc |}.

Fixpoint tok_loop (s : jstr) (i : nat) (st : TokState) : TokState :=
  match s with
  | [] => st
  | c :: s1 =>
    let sq := inSingleQuote st in
    let dq := inDoubleQuote st in
    if escaped st then tok_loop s1 (S i) (push c (i - 1) true st)
    else if (c =? backslash)%N && negb sq then
      match s1 with
      | d :: s2 =>
        if (d =? newline)%N then tok_loop s2 (S (S i)) st
        else match s2 with
             | e :: s3 =>
               if (d =? cr)%N && (e =? newline)%N then tok_loop s3 (S (S (S i))) st
               else tok_loop s1 (S i) (mark i sq dq true st)
             | [] => tok_loop s1 (S i) (mark i sq dq true st)
             end
      | [] => tok_loop s1 (S i) (mark i sq dq true st)
      end
    else if (c =? squote)%N && negb dq then tok_loop s1 (S i) (mark i (negb sq) dq false st)
    else if (c =? dquote)%N && negb sq then tok_loop s1 (S i) (mark i sq (negb dq) false st)
    else if isShellWhitespace c && negb sq && negb dq then tok_loop s1 (S i) (flushCurrent i st)
    else tok_loop s1 (S i) (push c i false st)
  end.

Definition shellTokenizeWithMetadata (input : jstr) : list ShellToken :=
  tokens (flushCurrent (length input) (tok_loop input 0 tok_init)).

Definition shellTokenize (input : jstr) : list (jstr) :=
  map value (shellTokenizeWithMetadata input).

(** ** Quoting

    The inverse the tokeniser is measured against: POSIX single-quoting, with
    an embedded quote written as ['\'']. *)
Fixpoint quote_body (w : jstr) : jstr :=
  match w with
  | [] => [squote]
  | c :: w' => (if (c =? squote)%N then [squote; backslash; squote; squote] else [c]) ++ quote_body w'
  end.

Definition shellQuote (w : jstr) : jstr := squote :: quote_body w.

(** A command line: quoted words separated by one space. *)
Definition commandLine (argv : list (jstr)) : jstr := join [32%N] (map shellQuote argv).

(** ** Lemmas *)

(** The values of the tokens flushed so far. *)
Definition vals (st : TokState) : list (jstr) := map value (tokens st).

(** Outside every quote and escape. *)
Definition plain (st : TokState) : Prop :=
  inSingleQuote st = false /\ inDoubleQuote st = false /\ escaped st = false.

Definition in_single (st : TokState) : Prop :=
  inSingleQuote st = true /\ inDoubleQuote st = false /\ escaped st = false.

Lemma tok_escape (c : jchar) s i st :
  plain st -> c <> newline -> c <> cr ->
  tok_loop (backslash :: c :: s) i st
  = tok_loop s (S (S i)) (push c i true (mark i false false true st)).
Proof.
  intros (Hs & Hd & He) Hn Hr. cbn [tok_loop]. rewrite He, Hs, Hd; simpl.
  rewrite (proj2 (N.eqb_neq c newline)), (proj2 (N.eqb_neq c cr)) by done.
  destruct s; cbn [andb]; by rewrite Nat.sub_0_r.
Qed.

Lemma tok_quote s i st :
  inDoubleQuote st = false -> escaped st = false ->
  tok_loop (squote :: s) i st
  = tok_loop s (S i) (mark i (negb (inSingleQuote st)) false false st).
Proof. intros Hd He. cbn [tok_loop]. by rewrite He, Hd. Qed.

Lemma tok_single (c : jchar) s i st :
  in_single st -> c <> squote -> tok_loop (c :: s) i st = tok_loop s (S i) (push c i false st).
Proof.
  intros (Hs & Hd & He) Hc. cbn [tok_loop]. rewrite He, Hs, Hd; simpl.
  rewrite !andb_false_r; simpl. by rewrite (proj2 (N.eqb_neq c squote)).
Qed.

Lemma tok_body (w s : jstr) i st :
  in_single st ->
  exists j st', tok_loop (quote_body w ++ s) i st = tok_loop s j st'
    /\ plain st' /\ vals st' = vals st /\ current st' = current st ++ w.
Proof.
  revert i st; induction w as [|c w IH]; intros i st Hst.
  - destruct Hst as (Hs & Hd & He). simpl app. rewrite tok_quote by done. rewrite Hs.
    eexists _, _; split; [done|]. rewrite app_nil_r. done.
  - cbn [quote_body]. destruct (N.eqb_spec c squote) as [->|Hc]; simpl app.
    + destruct Hst as (Hs & Hd & He). rewrite tok_quote, Hs by done.
      rewrite tok_escape by done. rewrite tok_quote by done.
      edestruct IH as (j & st' & -> & Hp & Hv & Hcur);
        [|exists j, st'; split; [done|]; split; [done|]; split; [by rewrite Hv|]];
        [done|]. rewrite Hcur; simpl. by rewrite <- app_assoc.
    + rewrite tok_single by done.
      edestruct IH as (j & st' & -> & Hp & Hv & Hcur);
        [|exists j, st'; split; [done|]; split; [done|]; split; [by rewrite Hv|]];
        [by destruct Hst as (? & ? & ?)|]. rewrite Hcur; simpl. by rewrite <- app_assoc.
Qed.

Lemma tok_shellQuote (w s : jstr) i st :
  plain st ->
  exists j st', tok_loop (shellQuote w ++ s) i st = tok_loop s j st'
    /\ plain st' /\ vals st' = vals st /\ current st' = current st ++ w.
Proof.
  intros (Hs & Hd & He). unfold shellQuote; simpl app. rewrite tok_quote, Hs by done.
  edestruct (tok_body w s) as (j & st' & -> & Hp & Hv & Hc); [|eauto 10]. done.
Qed.

Lemma vals_flush e st :
  vals (flushCurrent e st) = vals st ++ List.filter truthy [current st].
Proof.
  unfold vals, flushCurrent; simpl. destruct (current st) as [|c cur]; simpl.
  - by rewrite app_nil_r.
  - by rewrite map_app.
Qed.

Lemma tok_space s i st :
  plain st -> tok_loop (32%N :: s) i st = tok_loop s (S i) (flushCurrent i st).
Proof. intros (Hs & Hd & He). cbn [tok_loop]. by rewrite He, Hs, Hd. Qed.

Lemma tok_commandLine (argv : list (jstr)) i e st :
  plain st -> current st = [] ->
  vals (flushCurrent e (tok_loop (commandLine argv) i st))
  = vals st ++ List.filter truthy argv.
Proof.
  unfold commandLine. revert i st; induction argv as [|w argv IH]; intros i st Hp Hc.
  - simpl. by rewrite vals_flush, Hc.
  - destruct argv as [|w' argv].
    + change (join [32%N] (map shellQuote [w])) with (shellQuote w).
      rewrite <- (app_nil_r (shellQuote w)).
      destruct (tok_shellQuote w [] i st Hp) as (j & st' & -> & Hp' & Hv & Hcur).
      cbn [tok_loop]. by rewrite vals_flush, Hv, Hcur, Hc.
    + change (join [32%N] (map shellQuote (w :: w' :: argv)))
        with (shellQuote w ++ 32%N :: join [32%N] (map shellQuote (w' :: argv))).
      destruct (tok_shellQuote w (32%N :: join [32%N] (map shellQuote (w' :: argv))) i st Hp)
        as (j & st' & -> & Hp' & Hv & Hcur).
      rewrite tok_space by done. rewrite IH by done.
      rewrite vals_flush, Hv, Hcur, Hc, <- app_assoc. by rewrite <- (List.filter_app truthy [w]).
Qed.

(** ** Properties *)

(** tokenising a shell-quoted command line gives back its words, whatever
    characters they contain; only empty words are lost. *)
Theorem tokenize_quoted_argv (argv : list (jstr)) :
  shellTokenize (commandLine argv) = List.filter truthy argv.
Proof. apply (tok_commandLine argv 0 _ tok_init); done. Qed.

(** Spans in increasing order between [lo] and [hi], none empty. *)
Fixpoint spans (lo : nat) (ts : list ShellToken) (hi : nat) : Prop :=
  match ts with
  | [] => lo <= hi
  | t :: ts' => lo <= start t /\ start t < end_ t /\ spans (end_ t) ts' hi
  end.

Lemma spans_snoc lo ts m t hi :
  spans lo ts m -> m <= start t -> start t < end_ t -> end_ t <= hi ->
  spans lo (ts ++ [t]) hi.
Proof.
  revert lo; induction ts as [|u ts IH]; intros lo; simpl; [lia|].
  intros (H1 & H2 & H3) ???. eauto.
Qed.

Lemma spans_weaken lo ts m hi : spans lo ts m -> m <= hi -> spans lo ts hi.
Proof.
  revert lo; induction ts as [|u ts IH]; intros lo; simpl; [lia|].
  intros (H1 & H2 & H3) ?. eauto.
Qed.

(** The scanner at index [i]: finished tokens end before the token in
    progress, which began before [i]. *)
Definition tok_inv (i : nat) (st : TokState) : Prop :=
  exists m, spans 0 (tokens st) m
    /\ match currentStart st with
       | Some k => m <= k /\ k < i
       | None => m <= i /\ current st = [] /\ escaped st = false
       end.

Lemma tok_inv_mark i sq dq esc st : tok_inv i st -> tok_inv (S i) (mark i sq dq esc st).
Proof.
  intros (m & Hs & H). exists m. unfold mark, startCurrent; simpl. split; [done|].
  destruct (currentStart st); lia.
Qed.

Lemma tok_inv_push i c q st : tok_inv i st -> tok_inv (S i) (push c i q st).
Proof.
  intros (m & Hs & H). exists m. unfold push, startCurrent; simpl. split; [done|].
  destruct (currentStart st); lia.
Qed.

Lemma tok_inv_push_escaped i c st :
  tok_inv i st -> escaped st = true -> tok_inv (S i) (push c (i - 1) true st).
Proof.
  intros (m & Hs & H) He. exists m. unfold push, startCurrent; simpl. split; [done|].
  destruct (currentStart st); [lia|]. destruct H as (_ & _ & H). congruence.
Qed.

Lemma spans_flush i st : tok_inv i st -> spans 0 (tokens (flushCurrent i st)) i.
Proof.
  intros (m & Hs & H). unfold flushCurrent; simpl.
  destruct (current st) as [|c cur] eqn:Ec.
  - eapply spans_weaken; [done|]. destruct (currentStart st); lia.
  - destruct (currentStart st) as [k|]; [|destruct H as (_ & H & _); congruence].
    eapply spans_snoc; simpl; [done|lia..].
Qed.

Lemma tok_inv_flush i st : tok_inv i st -> escaped st = false -> tok_inv (S i) (flushCurrent i st).
Proof.
  intros H He. exists i. split; [by apply spans_flush|]. simpl. repeat split; auto; lia.
Qed.

Lemma tok_inv_later i j st : tok_inv i st -> i <= j -> tok_inv j st.
Proof.
  intros (m & Hs & H) Hij. exists m. split; [done|]. destruct (currentStart st); intuition lia.
Qed.

#[local] Hint Resolve tok_inv_mark tok_inv_push tok_inv_push_escaped tok_inv_flush : bari.

Lemma tok_loop_inv (s : jstr) :
  forall i st, tok_inv i st -> tok_inv (i + length s) (tok_loop s i st).
Proof.
  induction s as [s IH] using (induction_ltof1 _ (@length jchar)); unfold ltof in IH.
  intros i st Hi. destruct s as [|c s1]; [by rewrite Nat.add_0_r|].
  assert (step : forall s' j st', length s' < length (c :: s1) ->
    j + length s' = i + length (c :: s1) -> tok_inv j st' ->
    tok_inv (i + length (c :: s1)) (tok_loop s' j st')).
  { intros s' j st' Hl Hj Hst. rewrite <- Hj. by apply IH. }
  cbn [tok_loop].
  destruct (escaped st) eqn:He; [apply step; simpl; auto with bari; lia|].
  repeat case_match; apply step; simpl; auto with bari; try lia.
  all: eapply tok_inv_later; [done|lia].
Qed.

(** Token spans are in bounds, in order, non-empty and disjoint. *)
Theorem tokenize_spans (input : jstr) :
  spans 0 (shellTokenizeWithMetadata input) (length input).
Proof.
  apply spans_flush. apply (tok_loop_inv input 0 tok_init). exists 0. simpl. auto.
Qed.

(** An empty quoted argument leaves no token. *)
Example empty_argument_dropped :
  shellTokenize (commandLine [js "test"; []; js "x"]) = [js "test"; js "x"].
Proof. by vm_compute. Qed.
