(* ===== verification/ShellSplit.v ===== *)
(** * Splitting a bash command into subcommands

    [packages/agent-modules/permission/src/tools/bash-split.ts]: the pass that
    runs before permission evaluation.  Loops that walk one character at a time
    recurse on the rest of the string; loops whose index jumps keep the index
    and take fuel, the length of the input, that their callers always supply;
    [splitCommand] recurses on a strictly shorter suffix after a heredoc. *)
From S2P Require Import Prelude ShellTokenize.

Definition LEADING_SHELL_KEYWORDS : list (jstr) :=
  [js "if"; js "then"; js "else"; js "elif"; js "while"; js "until"; js "do"; js "!"; js "{"].
Definition STANDALONE_SHELL_KEYWORDS : list (jstr) := [js "fi"; js "done"; js "esac"; js "}"].
Definition SEGMENT_DROP_KEYWORDS : list (jstr) := [js "for"; js "case"; js "select"].

Definition mem (s : jstr) (l : list (jstr)) : bool := bool_decide (s ∈ l).

(** ** [stripLeadingShellKeyword] *)
Definition isParserToken (c : jchar) : bool :=
  ((c =? ch "(") || (c =? ch "{") || (c =? ch ")") || (c =? ch "}"))%N.

(** [while (cur[0] is one of "(){}") cur = cur.slice(1).trim()]. *)
Fixpoint stripParserTokens (fuel : nat) (cur : jstr) : jstr :=
  match fuel, cur with
  | S fuel', c :: rest => if isParserToken c then stripParserTokens fuel' (trim rest) else cur
  | _, _ => cur
  end.

(** The first whitespace of [cur]: what precedes it and what follows. *)
Fixpoint splitAtWhite (cur : jstr) : jstr * option (jstr) :=
  match cur with
  | [] => ([], None)
  | c :: rest =>
      if isWhite c then ([], Some rest)
      else let '(h, t) := splitAtWhite rest in (c :: h, t)
  end.

(** [spaceIdx === -1 ? '' : cur.slice(spaceIdx + 1).trim()]. *)
Definition afterHead (t : option (jstr)) : jstr :=
  match t with None => [] | Some rest => trim rest end.

(** The keyword loop; [None] is [undefined]. *)
Fixpoint stripKeywords (fuel : nat) (cur : jstr) : option (jstr) :=
  match fuel, cur with
  | _, [] => None
  | O, _ => Some cur
  | S fuel', _ =>
      let '(head, tail) := splitAtWhite cur in
      if mem head STANDALONE_SHELL_KEYWORDS then
        match afterHead tail with
        | [] => None
        | rest => stripKeywords fuel' rest
        end
      else if mem head SEGMENT_DROP_KEYWORDS then None
      else if mem head LEADING_SHELL_KEYWORDS then stripKeywords fuel' (afterHead tail)
      else Some cur
  end.

Definition stripLeadingShellKeyword (segment : jstr) : option (jstr) :=
  match trim segment with
  | [] => None
  | cur =>
      match stripParserTokens (length cur) cur with
      | [] => None
      | cur' => stripKeywords (length cur') cur'
      end
  end.

(** ** Line continuations *)
Record Range := { r_start : nat; r_end : nat }.

(** The loop of [foldLineContinuationsWithSourceMap]: the text and, for each of
    its characters, the source range it stands for. *)
Fixpoint fold_loop (s : jstr) (i : nat) (sq dq : bool) : list (jchar * Range) :=
  match s with
  | [] => []
  | c :: s1 =>
    let keep c' n := (c', {| r_start := i; r_end := i + n |}) in
    if (c =? squote)%N && negb dq then keep c 1 :: fold_loop s1 (S i) (negb sq) dq
    else if (c =? dquote)%N && negb sq then keep c 1 :: fold_loop s1 (S i) sq (negb dq)
    else if (c =? backslash)%N && negb sq then
      match s1 with
      | d :: s2 =>
        if (d =? newline)%N then keep 32%N 2 :: fold_loop s2 (S (S i)) sq dq
        else match s2 with
             | e :: s3 =>
               if (d =? cr)%N && (e =? newline)%N
               then keep 32%N 3 :: fold_loop s3 (S (S (S i))) sq dq
               else keep c 1 :: fold_loop s1 (S i) sq dq
             | [] => keep c 1 :: fold_loop s1 (S i) sq dq
             end
      | [] => keep c 1 :: fold_loop s1 (S i) sq dq
      end
    else keep c 1 :: fold_loop s1 (S i) sq dq
  end.

Record FoldedSourceMap := { text : jstr; ranges : list Range }.

Definition foldLineContinuationsWithSourceMap (input : jstr) : FoldedSourceMap :=
  let out := fold_loop input 0 false false in
  {| text := map fst out; ranges := map snd out |}.

Definition foldLineContinuations (input : jstr) : jstr :=
  text (foldLineContinuationsWithSourceMap input).

(** ** Assignment-only segments: [/^[A-Za-z_][A-Za-z0-9_]*=/]. *)
Definition isAlpha_ (c : jchar) : bool :=
  (((65 <=? c) && (c <=? 90)) || ((97 <=? c) && (c <=? 122)) || (c =? 95))%N.
Definition isDigit (c : jchar) : bool := ((48 <=? c) && (c <=? 57))%N.

Fixpoint identThenEq (s : jstr) : bool :=
  match s with
  | [] => false
  | c :: s' => (c =? ch "=")%N || ((isAlpha_ c || isDigit c) && identThenEq s')
  end.

Definition isAssignment (t : jstr) : bool :=
  match t with c :: t' => isAlpha_ c && identThenEq t' | [] => false end.

Definition isAssignmentOnlySegment (seg : jstr) : bool :=
  match shellTokenize (trim seg) with
  | [] => false
  | ts => forallb isAssignment ts
  end.

(** ** Splitting without heredocs *)

(** [flushSegment]. *)
Definition flush (current : jstr) (rest : list (jstr)) : list (jstr) :=
  match trim current with [] => rest | t => t :: rest end.

Fixpoint split_loop (s current : jstr) (sq dq esc : bool) : list (jstr) :=
  match s with
  | [] => flush current []
  | c :: s1 =>
    let add := current ++ [c] in
    if esc then split_loop s1 add sq dq false
    else if (c =? backslash)%N && negb sq then split_loop s1 add sq dq true
    else if (c =? squote)%N && negb dq then split_loop s1 add (negb sq) dq false
    else if (c =? dquote)%N && negb sq then split_loop s1 add sq (negb dq) false
    else if negb sq && negb dq then
      let next_is d := match s1 with d' :: _ => (d' =? d)%N | [] => false end in
      if ((c =? ch "&")%N && next_is (ch "&")) || ((c =? ch "|")%N && next_is (ch "|"))
      then flush current (match s1 with _ :: s2 => split_loop s2 [] sq dq false | [] => [] end)
      else if (c =? ch ";")%N then flush current (split_loop s1 [] sq dq false)
      else if (c =? ch "|")%N && negb (next_is (ch "|"))
      then flush current (split_loop s1 [] sq dq false)
      else if (c =? newline)%N then flush current (split_loop s1 [] sq dq false)
      else if (c =? cr)%N && next_is newline
      then flush current (match s1 with _ :: s2 => split_loop s2 [] sq dq false | [] => [] end)
      else split_loop s1 add sq dq false
    else split_loop s1 add sq dq false
  end.

(** [/^\s*#/]. *)
Definition isCommentSegment (seg : jstr) : bool :=
  match dropWhile isWhite seg with c :: _ => (c =? ch "#")%N | [] => false end.

(** The per-segment cleanup. *)
Definition cleanup (seg : jstr) : option (jstr) :=
  if isCommentSegment seg then None
  else if isAssignmentOnlySegment seg then None
  else stripLeadingShellKeyword seg.

Definition splitCommandWithoutHeredoc (input : jstr) : list (jstr) :=
  omap cleanup (split_loop (foldLineContinuations input) [] false false false).

(** ** Heredocs *)
Record HeredocMarker := { marker : jstr; stripTabs : bool }.
Record HeredocBodyRange := { b_start : nat; b_end : nat }.

(** [input[i] === c]. *)
Definition at_is (input : jstr) (i : nat) (c : jchar) : bool :=
  match input !! i with Some d => (d =? c)%N | None => false end.

(** [input.slice(i, j)]. *)
Definition slice (input : jstr) (i j : nat) : jstr := take (j - i) (drop i input).

(** [input.indexOf(c, from)] for one character. *)
Fixpoint indexOf_go (s : jstr) (c : jchar) (i : nat) : option nat :=
  match s with
  | [] => None
  | d :: s' => if (d =? c)%N then Some i else indexOf_go s' c (S i)
  end.
Definition indexOfChar (input : jstr) (c : jchar) (from : nat) : option nat :=
  indexOf_go (drop from input) c from.

Definition findLineBreakStart (input : jstr) (start : nat) : option nat :=
  match indexOfChar input newline start with
  | None => None
  | Some lf => Some (if (0 <? lf)%nat && at_is input (lf - 1) cr then lf - 1 else lf)
  end.

Definition findLineEnd (input : jstr) (start : nat) : nat :=
  default (length input) (indexOfChar input newline start).

(** [/[\s;&|<>]/]. *)
Definition heredocWordIsTerminator (c : jchar) : bool :=
  (isWhite c || (c =? ch ";") || (c =? ch "&") || (c =? ch "|") || (c =? ch "<") || (c =? ch ">"))%N.

(** Non-empty, and no [\0], [\r], [\n]. *)
Definition heredocMarkerCanMatchLine (m : jstr) : bool :=
  truthy m && forallb (fun c => negb ((c =? 0)%N || (c =? cr)%N || (c =? newline)%N)) m.

Definition decodeSimpleAnsiCEscape (c : jchar) : option jchar :=
  if (c =? ch "a")%N then Some 7%N
  else if (c =? ch "b")%N then Some 8%N
  else if (c =? ch "e")%N || (c =? ch "E")%N then Some 27%N
  else if (c =? ch "f")%N then Some 12%N
  else if (c =? ch "n")%N then Some 10%N
  else if (c =? ch "r")%N then Some 13%N
  else if (c =? ch "t")%N then Some 9%N
  else if (c =? ch "v")%N then Some 11%N
  else if ((c =? backslash) || (c =? squote) || (c =? dquote) || (c =? ch "?"))%N then Some c
  else None.

(** The word parsers walk the rest of the input [s], at index [i]; the result
    is the marker with the index after the word. *)
Fixpoint parseAnsiCHeredocWord (s : jstr) (i : nat) (m : jstr) : option (jstr * nat) :=
  match s with
  | [] => None
  | c :: s1 =>
    if (c =? squote)%N then
      if heredocMarkerCanMatchLine m then Some (m, S i) else None
    else if (c =? backslash)%N then
      match s1 with
      | [] => None
      | d :: s2 =>
        match decodeSimpleAnsiCEscape d with
        | None => None
        | Some e => parseAnsiCHeredocWord s2 (S (S i)) (m ++ [e])
        end
      end
    else parseAnsiCHeredocWord s1 (S i) (m ++ [c])
  end.

(** The loop of [parseHeredocWord], by index; [q] is the open quote. *)
Fixpoint heredocWord_loop (fuel : nat) (input : jstr) (i : nat) (q : option jchar) (m : jstr) :
    option (jstr * nat) :=
  let finish :=
    match q with
    | None => if heredocMarkerCanMatchLine m then Some (m, i) else None
    | Some _ => None
    end in
  match fuel, input !! i with
  | O, _ => None
  | S _, None => finish
  | S fuel', Some c =>
    match q with
    | Some quote =>
      if (c =? quote)%N then heredocWord_loop fuel' input (S i) None m
      else
        let escapable :=
          match input !! S i with
          | Some n => if ((n =? ch "$") || (n =? 96) || (n =? dquote) || (n =? backslash)
                          || (n =? newline))%N then Some n else None
          | None => None
          end in
        match escapable, (c =? backslash)%N && (quote =? dquote)%N with
        | Some n, true => heredocWord_loop fuel' input (S (S i)) q (m ++ [n])
        | _, _ => heredocWord_loop fuel' input (S i) q (m ++ [c])
        end
    | None =>
      if heredocWordIsTerminator c then finish
      else if (c =? ch "$")%N && at_is input (S i) squote then
        match parseAnsiCHeredocWord (drop (S (S i)) input) (S (S i)) [] with
        | None => None
        | Some (pm, j) => heredocWord_loop fuel' input j q (m ++ pm)
        end
      else if (c =? ch "$")%N && at_is input (S i) dquote then None
      else if (c =? squote)%N || (c =? dquote)%N then heredocWord_loop fuel' input (S i) (Some c) m
      else if (c =? backslash)%N then
        match input !! S i with
        | None => None
        | Some n => heredocWord_loop fuel' input (S (S i)) q (m ++ [n])
        end
      else heredocWord_loop fuel' input (S i) q (m ++ [c])
    end
  end.

Definition parseHeredocWord (input : jstr) (start : nat) : option (jstr * nat) :=
  heredocWord_loop (S (length input)) input start None [].

(** Skip spaces and tabs from [i]. *)
Fixpoint skipBlanks (s : jstr) (i : nat) : nat :=
  match s with
  | c :: s' => if ((c =? 32) || (c =? 9))%N then skipBlanks s' (S i) else i
  | [] => i
  end.

Definition parseHeredocMarkerAt (input : jstr) (operatorIndex : nat) :
    option (HeredocMarker * nat) :=
  let lt_ := ch "<" in
  if negb (at_is input operatorIndex lt_) || negb (at_is input (S operatorIndex) lt_) then None
  else if ((0 <? operatorIndex)%nat && at_is input (operatorIndex - 1) lt_)
          || at_is input (S (S operatorIndex)) lt_ then None
  else
    let stripTabs := at_is input (operatorIndex + 2) (ch "-") in
    let i0 := if stripTabs then operatorIndex + 3 else operatorIndex + 2 in
    let i := skipBlanks (drop i0 input) i0 in
    if (length input <=? i)%nat then None
    else match parseHeredocWord input i with
         | None => None
         | Some (m, j) => Some ({| marker := m; stripTabs := stripTabs |}, j)
         end.

(** [#] at the start of the input or after one of [/[\s;&|()]/]. *)
Definition shellCommentStartsAt (input : jstr) (index : nat) : bool :=
  if negb (at_is input index (ch "#")) then false
  else if (index =? 0)%nat then true
  else match input !! (index - 1) with
       | Some p => (isWhite p || (p =? ch ";") || (p =? ch "&") || (p =? ch "|")
                    || (p =? ch "(") || (p =? ch ")"))%N
       | None => false
       end.

(** The depth loop of [skipArithmeticContext]: the rest of the input, the index
    and the depth. *)
Fixpoint arith_loop (s : jstr) (i depth : nat) : nat :=
  match s with
  | [] => i
  | c :: s1 =>
    if (c =? backslash)%N then
      match s1 with [] => S i | _ :: s2 => arith_loop s2 (S (S i)) depth end
    else if (c =? ch "(")%N then arith_loop s1 (S i) (S depth)
    else if negb (c =? ch ")")%N then arith_loop s1 (S i) depth
    else if match s1 with d :: _ => (d =? ch ")")%N | [] => false end && (depth =? 1)%nat then S (S i)
    else arith_loop s1 (S i) (if (1 <? depth)%nat then depth - 1 else depth)
  end.

Definition skipArithmeticContext (input : jstr) (start : nat) : option nat :=
  let markerLength :=
    if at_is input start (ch "$") && at_is input (S start) (ch "(")
       && at_is input (S (S start)) (ch "(") then Some 3
    else if at_is input start (ch "(") && at_is input (S start) (ch "(") then Some 2
    else None in
  match markerLength with
  | None => None
  | Some n => Some (arith_loop (drop (start + n) input) (start + n) 1)
  end.

(** The quote and escape tracking that [parseHeredocMarkers] and
    [findFirstHeredocBodyStart] share: what the character at [i] means, as the
    sequence of guards of both loops. *)
Inductive ScanStep :=
  | ScanSkip (i' : nat) (sq dq esc : bool)  (** [continue] with the next index *)
  | ScanLook.                               (** unquoted: look for a marker at [i] *)

Definition scan_step (input : jstr) (i : nat) (c : jchar) (sq dq esc : bool) : ScanStep :=
  if esc then ScanSkip (S i) sq dq false
  else if (c =? backslash)%N && negb sq then ScanSkip (S i) sq dq true
  else if (c =? squote)%N && negb dq then ScanSkip (S i) (negb sq) dq false
  else if (c =? dquote)%N && negb sq then ScanSkip (S i) sq (negb dq) false
  else if sq || dq then ScanSkip (S i) sq dq false
  else if shellCommentStartsAt input i then ScanSkip (S (findLineEnd input i)) sq dq false
  else match skipArithmeticContext input i with
       | Some e => ScanSkip e sq dq false
       | None => ScanLook
       end.

Fixpoint markers_loop (fuel : nat) (header : jstr) (i : nat) (sq dq esc : bool) :
    list HeredocMarker :=
  match fuel, header !! i with
  | S fuel', Some c =>
    match scan_step header i c sq dq esc with
    | ScanSkip i' sq' dq' esc' => markers_loop fuel' header i' sq' dq' esc'
    | ScanLook =>
      match parseHeredocMarkerAt header i with
      | Some (m, j) => m :: markers_loop fuel' header j sq dq esc
      | None => markers_loop fuel' header (S i) sq dq esc
      end
    end
  | _, _ => []
  end.

Definition parseHeredocMarkers (header : jstr) : list HeredocMarker :=
  markers_loop (S (length header)) header 0 false false false.

Fixpoint bodyStart_loop (fuel : nat) (input : jstr) (i : nat) (sq dq esc : bool) : option nat :=
  match fuel, input !! i with
  | S fuel', Some c =>
    match scan_step input i c sq dq esc with
    | ScanSkip i' sq' dq' esc' => bodyStart_loop fuel' input i' sq' dq' esc'
    | ScanLook =>
      match parseHeredocMarkerAt input i with
      | Some _ => findLineBreakStart input i
      | None => bodyStart_loop fuel' input (S i) sq dq esc
      end
    end
  | _, _ => None
  end.

Definition findFirstHeredocBodyStart (input : jstr) : option nat :=
  bodyStart_loop (S (length input)) input 0 false false false.

(** [line.replace(/^\t+/, '')] when tabs are stripped. *)
Definition lineMatchesHeredocMarker (line : jstr) (m : HeredocMarker) : bool :=
  let candidate := if stripTabs m then dropWhile (fun c => (c =? 9)%N) line else line in
  str_eqb candidate (marker m).

(** [rawLine.endsWith('\r') ? rawLine.slice(0, -1) : rawLine]. *)
Definition dropCr (line : jstr) : jstr :=
  match rev line with
  | c :: r => if (c =? cr)%N then rev r else line
  | [] => line
  end.

(** One line per unit of fuel. *)
Fixpoint consume_loop (fuel : nat) (input : jstr) (pos : nat) (m : HeredocMarker) : nat :=
  match fuel with
  | O => length input
  | S fuel' =>
    if (length input <=? pos)%nat then length input
    else
      let lineEnd := indexOfChar input newline pos in
      let next := match lineEnd with None => length input | Some e => S e end in
      let rawLine := slice input pos (default (length input) lineEnd) in
      if lineMatchesHeredocMarker (dropCr rawLine) m then next
      else consume_loop fuel' input next m
  end.

Definition consumeHeredocBody (input : jstr) (start : nat) (m : HeredocMarker) : nat :=
  consume_loop (S (length input)) input start m.

(** [text.indexOf(segment, from)]. *)
Fixpoint indexOfStr_go (s sub : jstr) (i : nat) : option nat :=
  if startsWith s sub then Some i
  else match s with [] => None | _ :: s' => indexOfStr_go s' sub (S i) end.
Definition indexOfStr (input sub : jstr) (from : nat) : option nat :=
  indexOfStr_go (drop from input) sub from.

Fixpoint findHeaderSegmentSources_loop (header : jstr) (folded : FoldedSourceMap)
    (segments : list (jstr)) (from : nat) : list (jstr) :=
  match segments with
  | [] => []
  | segment :: rest =>
    match indexOfStr (text folded) segment from with
    | None => segment :: findHeaderSegmentSources_loop header folded rest from
    | Some start =>
      if negb (truthy segment) then
        segment :: findHeaderSegmentSources_loop header folded rest from
      else
      let foldedEnd := start + length segment in
      match ranges folded !! start, ranges folded !! (foldedEnd - 1) with
      | Some rs, Some re =>
        let sourceEnd := skipBlanks (drop (r_end re) header) (r_end re) in
        slice header (r_start rs) sourceEnd
          :: findHeaderSegmentSources_loop header folded rest foldedEnd
      | _, _ => segment :: findHeaderSegmentSources_loop header folded rest foldedEnd
      end
    end
  end.

Definition findHeaderSegmentSources (header : jstr) (segments : list (jstr)) : list (jstr) :=
  findHeaderSegmentSources_loop header (foldLineContinuationsWithSourceMap header) segments 0.

(** Markers of all segments, each with the index of its segment. *)
Fixpoint segmentMarkers (segments : list (jstr)) (index : nat) : list (HeredocMarker * nat) :=
  match segments with
  | [] => []
  | s :: rest => map (fun m => (m, index)) (parseHeredocMarkers s) ++ segmentMarkers rest (S index)
  end.

(** The loop over the markers: the body text per segment and the cursor. *)
Fixpoint consumeBodies (input : jstr) (ms : list (HeredocMarker * nat)) (cursor : nat)
    (bodies : jmap nat (jstr)) : jmap nat (jstr) * nat :=
  match ms with
  | [] => (bodies, cursor)
  | (m, k) :: rest =>
    let next := consumeHeredocBody input cursor m in
    consumeBodies input rest next
      (jset k (default [] (jget k bodies) ++ slice input cursor next) bodies)
  end.

(** [segments.map((segment, index) => ...)]. *)
Definition attachBody (segmentSources : list (jstr)) (bodies : jmap nat (jstr))
    (index : nat) (segment : jstr) : jstr :=
  match jget index bodies with
  | Some body => default segment (segmentSources !! index) ++ body
  | None => segment
  end.

Fixpoint splitCommand_go (fuel : nat) (input : jstr) : list (jstr) :=
  match fuel with
  | O => []
  | S fuel' =>
    match findFirstHeredocBodyStart input with
    | None => splitCommandWithoutHeredoc input
    | Some bodyStart =>
      let header := take bodyStart input in
      let segments := splitCommandWithoutHeredoc header in
      let segmentSources := findHeaderSegmentSources header segments in
      match segmentMarkers segments 0 with
      | [] => splitCommandWithoutHeredoc input
      | ms =>
        let '(bodies, cursor) := consumeBodies input ms bodyStart [] in
        let withBodies := imap (attachBody segmentSources bodies) segments in
        let suffix := drop cursor input in
        if truthy (trim suffix) then withBodies ++ splitCommand_go fuel' suffix else withBodies
      end
    end
  end.

Definition splitCommand (input : jstr) : list (jstr) := splitCommand_go (S (length input)) input.

(** One marker: [ranges.push({ start: cursor, end: nextCursor })]. *)
Definition collectStep (input : jstr) (acc : list HeredocBodyRange * nat) (m : HeredocMarker) :
    list HeredocBodyRange * nat :=
  let '(rs, cursor) := acc in
  let next := consumeHeredocBody input cursor m in
  (rs ++ [{| b_start := cursor; b_end := next |}], next).

Fixpoint collectHeredocBodyRanges (fuel : nat) (input : jstr) (offset : nat) :
    list HeredocBodyRange :=
  match fuel with
  | O => []
  | S fuel' =>
    let rest := drop offset input in
    match findFirstHeredocBodyStart rest with
    | None => []
    | Some bodyStart =>
      let segments := splitCommandWithoutHeredoc (take bodyStart rest) in
      match flat_map parseHeredocMarkers segments with
      | [] => []
      | ms =>
        let '(rs, cursor) := fold_left (collectStep input) ms ([], offset + bodyStart) in
        rs ++ collectHeredocBodyRanges fuel' input cursor
      end
    end
  end.

Definition findHeredocBodyRanges (input : jstr) : list HeredocBodyRange :=
  collectHeredocBodyRanges (S (length input)) input 0.

(** ** Lemmas: indices move forward *)
Lemma at_is_lt input i c : at_is input i c = true -> i < length input.
Proof.
  unfold at_is. destruct (input !! i) eqn:E; [|done]. intros _. by eapply lookup_lt_Some.
Qed.

Lemma at_is_Some input i c : at_is input i c = true -> input !! i = Some c.
Proof. unfold at_is. destruct (input !! i); [|done]. by intros ->%N.eqb_eq. Qed.

Lemma indexOf_go_spec s c i lf :
  indexOf_go s c i = Some lf -> i <= lf /\ s !! (lf - i) = Some c.
Proof.
  revert i; induction s as [|d s IH]; intros i; simpl; [done|].
  destruct (N.eqb_spec d c) as [->|].
  - intros [= <-]. by rewrite Nat.sub_diag.
  - intros H. apply IH in H as [Hle Hl]. split; [lia|].
    replace (lf - i) with (S (lf - S i)) by lia. done.
Qed.

Lemma indexOfChar_spec input c from lf :
  indexOfChar input c from = Some lf -> from <= lf < length input /\ input !! lf = Some c.
Proof.
  unfold indexOfChar. intros [Hle Hl]%indexOf_go_spec. rewrite lookup_drop in Hl.
  replace (from + (lf - from)) with lf in Hl by lia.
  split; [|done]. apply lookup_lt_Some in Hl. lia.
Qed.

Lemma findLineBreakStart_spec input i bs c :
  input !! i = Some c -> c <> newline -> c <> cr ->
  findLineBreakStart input i = Some bs -> i < bs < length input.
Proof.
  unfold findLineBreakStart. intros Hi Hn Hr.
  destruct (indexOfChar input newline i) as [lf|] eqn:E; [|done].
  apply indexOfChar_spec in E as [Hlf Hl].
  assert (i <> lf) by congruence.
  destruct ((0 <? lf)%nat && at_is input (lf - 1) cr) eqn:Ecr; intros [= <-]; [|lia].
  apply andb_true_iff in Ecr as [_ Ecr%at_is_Some].
  assert (i <> lf - 1) by congruence. lia.
Qed.

Lemma findLineEnd_ge input i : i < length input -> i <= findLineEnd input i.
Proof.
  unfold findLineEnd. intros Hi. destruct (indexOfChar input newline i) eqn:E; simpl; [|lia].
  apply indexOfChar_spec in E. lia.
Qed.

Lemma arith_loop_ge s : forall i d, i <= arith_loop s i d.
Proof.
  induction s as [s IH] using (induction_ltof1 _ (@length jchar)); unfold ltof in IH.
  intros i d. destruct s as [|c s1]; simpl; [done|].
  assert (IH1 : forall k d, k <= arith_loop s1 k d) by (intros; apply IH; simpl; lia).
  repeat case_match; subst; simpl; try lia.
  all: try (etransitivity; [|apply IH1]; lia).
  etransitivity; [|apply IH; simpl; lia]. lia.
Qed.

Lemma skipArithmeticContext_gt input i e : skipArithmeticContext input i = Some e -> i < e.
Proof.
  unfold skipArithmeticContext. repeat case_match; try done; intros [= <-]; simplify_eq.
  all: eapply Nat.lt_le_trans; [|apply arith_loop_ge]; lia.
Qed.

Lemma scan_step_forward input i c sq dq esc i' sq' dq' esc' :
  input !! i = Some c -> scan_step input i c sq dq esc = ScanSkip i' sq' dq' esc' -> i < i'.
Proof.
  intros Hi. pose proof (lookup_lt_Some _ _ _ Hi).
  unfold scan_step. repeat case_match; intros; simplify_eq; try lia.
  - pose proof (findLineEnd_ge input i). lia.
  - by eapply skipArithmeticContext_gt.
Qed.

Lemma skipBlanks_ge s : forall i, i <= skipBlanks s i.
Proof.
  induction s as [|c s IH]; intros i; simpl; [done|]. case_match; [|done].
  etransitivity; [|apply IH]. lia.
Qed.

Lemma parseAnsiC_ge s : forall i m m' j, parseAnsiCHeredocWord s i m = Some (m', j) -> i < j.
Proof.
  induction s as [s IH] using (induction_ltof1 _ (@length jchar)); unfold ltof in IH.
  intros i m m' j. destruct s as [|c s1]; simpl; [done|].
  assert (IH1 : forall i m, parseAnsiCHeredocWord s1 i m = Some (m', j) -> i < j)
    by (intros ? ?; apply IH; simpl; lia).
  repeat case_match; subst; intros; simplify_eq; try lia.
  - match goal with H : parseAnsiCHeredocWord _ _ _ = _ |- _ => apply IH in H; simpl; lia end.
  - match goal with H : parseAnsiCHeredocWord _ _ _ = _ |- _ => apply IH1 in H; lia end.
Qed.

Lemma heredocWord_ge fuel input : forall i q m m' j,
  heredocWord_loop fuel input i q m = Some (m', j) -> i <= j.
Proof.
  induction fuel as [|fuel IH]; intros i q m m' j; cbn [heredocWord_loop].
  - by destruct (input !! i).
  - repeat case_match; intros; simplify_eq; try lia.
    all: match goal with
         | H : heredocWord_loop _ _ _ _ _ = Some _ |- _ => apply IH in H
         end.
    all: try match goal with
         | H : parseAnsiCHeredocWord _ _ _ = Some _ |- _ => apply parseAnsiC_ge in H
         end; lia.
Qed.

Lemma parseHeredocMarkerAt_spec input i m j :
  parseHeredocMarkerAt input i = Some (m, j) -> input !! i = Some (ch "<") /\ i < j.
Proof.
  unfold parseHeredocMarkerAt, parseHeredocWord.
  destruct (at_is input i (ch "<")) eqn:Ei; [|done]. apply at_is_Some in Ei.
  repeat case_match; try done; intros; simplify_eq; (split; [done|]).
  all: match goal with
       | H : heredocWord_loop _ _ _ _ _ = Some _ |- _ => apply heredocWord_ge in H
       end.
  all: eapply Nat.lt_le_trans; [|eassumption]; eapply Nat.lt_le_trans; [|apply skipBlanks_ge]; lia.
Qed.

Lemma bodyStart_loop_spec fuel input : forall i sq dq esc bs,
  bodyStart_loop fuel input i sq dq esc = Some bs -> i < bs < length input.
Proof.
  induction fuel as [|fuel IH]; intros i sq dq esc bs; cbn [bodyStart_loop]; [done|].
  destruct (input !! i) as [c|] eqn:Hi; [|done].
  destruct (scan_step input i c sq dq esc) as [i' sq' dq' esc'|] eqn:Es.
  - intros H%IH. pose proof (scan_step_forward _ _ _ _ _ _ _ _ _ _ Hi Es). lia.
  - destruct (parseHeredocMarkerAt input i) as [[m j]|] eqn:Ep.
    + apply parseHeredocMarkerAt_spec in Ep as [Hlt _]. by eapply findLineBreakStart_spec.
    + intros H%IH. lia.
Qed.

(** A heredoc body starts strictly inside the input. *)
Lemma bodyStart_bounds input bs :
  findFirstHeredocBodyStart input = Some bs -> 0 < bs < length input.
Proof. apply bodyStart_loop_spec. Qed.

Lemma consume_loop_bounds fuel input : forall pos m,
  pos <= length input -> pos <= consume_loop fuel input pos m <= length input.
Proof.
  induction fuel as [|fuel IH]; intros pos m Hpos; simpl; [lia|].
  destruct (Nat.leb_spec (length input) pos); [lia|].
  destruct (indexOfChar input newline pos) as [e|] eqn:E; simpl.
  - apply indexOfChar_spec in E as [He _]. case_match; [lia|].
    specialize (IH (S e) m ltac:(lia)). lia.
  - case_match; [lia|]. specialize (IH (length input) m ltac:(lia)). lia.
Qed.

Lemma consume_bounds input start m :
  start <= length input -> start <= consumeHeredocBody input start m <= length input.
Proof. apply consume_loop_bounds. Qed.

Lemma consumeBodies_bounds input ms : forall cursor bodies,
  cursor <= length input ->
  cursor <= (consumeBodies input ms cursor bodies).2 <= length input.
Proof.
  induction ms as [|[m k] ms IH]; intros cursor bodies Hc; simpl; [lia|].
  pose proof (consume_bounds input cursor m Hc) as Hb.
  edestruct IH as [H1 H2]; [|split; [|exact H2]]; lia.
Qed.

(** *** The fuel is never the limit *)
Lemma markers_loop_fuel header : forall f f' i sq dq esc,
  length header - i < f -> length header - i < f' ->
  markers_loop f header i sq dq esc = markers_loop f' header i sq dq esc.
Proof.
  induction f as [|f IH]; intros [|f'] i sq dq esc Hf Hf'; try lia. cbn [markers_loop].
  destruct (header !! i) as [c|] eqn:Hi; [|done].
  pose proof (lookup_lt_Some _ _ _ Hi) as Hl.
  destruct (scan_step header i c sq dq esc) as [i' sq' dq' esc'|] eqn:Es.
  - pose proof (scan_step_forward _ _ _ _ _ _ _ _ _ _ Hi Es). apply IH; lia.
  - destruct (parseHeredocMarkerAt header i) as [[m j]|] eqn:Ep.
    + apply parseHeredocMarkerAt_spec in Ep as [_ Hj]. f_equal. apply IH; lia.
    + apply IH; lia.
Qed.

Lemma bodyStart_loop_fuel input : forall f f' i sq dq esc,
  length input - i < f -> length input - i < f' ->
  bodyStart_loop f input i sq dq esc = bodyStart_loop f' input i sq dq esc.
Proof.
  induction f as [|f IH]; intros [|f'] i sq dq esc Hf Hf'; try lia. cbn [bodyStart_loop].
  destruct (input !! i) as [c|] eqn:Hi; [|done].
  pose proof (lookup_lt_Some _ _ _ Hi) as Hl.
  destruct (scan_step input i c sq dq esc) as [i' sq' dq' esc'|] eqn:Es.
  - pose proof (scan_step_forward _ _ _ _ _ _ _ _ _ _ Hi Es). apply IH; lia.
  - destruct (parseHeredocMarkerAt input i) as [[m j]|]; [done|]. apply IH; lia.
Qed.

Lemma heredocWord_fuel input : forall f f' i q m,
  length input - i < f -> length input - i < f' ->
  heredocWord_loop f input i q m = heredocWord_loop f' input i q m.
Proof.
  induction f as [|f IH]; intros [|f'] i q m Hf Hf'; try lia. cbn [heredocWord_loop].
  destruct (input !! i) as [c|] eqn:Hi; [|done].
  pose proof (lookup_lt_Some _ _ _ Hi) as Hl.
  repeat case_match; subst; try done; try (apply IH; lia).
  match goal with H : parseAnsiCHeredocWord _ _ _ = _ |- _ => apply parseAnsiC_ge in H end.
  apply IH; lia.
Qed.

Lemma consume_loop_fuel input : forall f f' pos m,
  length input - pos < f -> length input - pos < f' ->
  consume_loop f input pos m = consume_loop f' input pos m.
Proof.
  induction f as [|f IH]; intros [|f'] pos m Hf Hf'; try lia. simpl.
  destruct (Nat.leb_spec (length input) pos); [done|]. case_match; [done|].
  apply IH; destruct (indexOfChar input newline pos) as [e|] eqn:E; try lia.
  all: apply indexOfChar_spec in E; lia.
Qed.

Lemma stripParserTokens_fuel : forall f f' cur,
  length cur <= f -> length cur <= f' -> stripParserTokens f cur = stripParserTokens f' cur.
Proof.
  induction f as [|f IH]; intros [|f'] [|c rest] Hf Hf'; simpl in *; try done; try lia.
  pose proof (length_trim rest). case_match; [|done]. apply IH; lia.
Qed.

Lemma splitAtWhite_tail cur h rest :
  splitAtWhite cur = (h, Some rest) -> length rest < length cur.
Proof.
  revert h; induction cur as [|c cur IH]; intros h; simpl; [done|].
  destruct (isWhite c); [intros [= _ <-]; lia|].
  destruct (splitAtWhite cur) as [h' t']. intros [= _ ->]. specialize (IH h' eq_refl). lia.
Qed.

Lemma afterHead_shorter c cur h t :
  splitAtWhite (c :: cur) = (h, t) -> length (afterHead t) < length (c :: cur).
Proof.
  destruct t as [rest|]; [|simpl; lia]. intros H%splitAtWhite_tail; simpl.
  pose proof (length_trim rest). simpl in *. lia.
Qed.

Lemma stripKeywords_fuel : forall f f' cur,
  length cur <= f -> length cur <= f' -> stripKeywords f cur = stripKeywords f' cur.
Proof.
  induction f as [|f IH]; intros [|f'] [|c cur] Hf Hf'; try done; try (simpl in *; lia).
  cbn [stripKeywords]. destruct (splitAtWhite (c :: cur)) as [h t] eqn:E.
  apply afterHead_shorter in E. case_match.
  - destruct (afterHead t) as [|d rest] eqn:Et; [done|]. apply IH; simpl in *; lia.
  - case_match; [done|]. case_match; [|done]. apply IH; simpl in *; lia.
Qed.

Lemma splitCommand_go_fuel : forall f f' input,
  length input < f -> length input < f' -> splitCommand_go f input = splitCommand_go f' input.
Proof.
  induction f as [|f IH]; intros [|f'] input Hf Hf'; try lia. cbn [splitCommand_go].
  destruct (findFirstHeredocBodyStart input) as [bs|] eqn:Eb; [|done].
  apply bodyStart_bounds in Eb.
  destruct (segmentMarkers _ 0) as [|mk ms] eqn:Em; [done|].
  pose proof (consumeBodies_bounds input (mk :: ms) bs [] ltac:(lia)) as Hb.
  destruct (consumeBodies input (mk :: ms) bs []) as [bodies cursor]; simpl in Hb.
  case_match; [|done]. f_equal. apply IH; rewrite length_drop; lia.
Qed.

(** ** Properties *)

(** [splitCommand] terminates on every input and is the function the
    source defines by recursion on the text after a heredoc: the equation
    below has no fuel, and its recursive call is on a strictly shorter
    input. *)
Theorem splitCommand_equation (input : jstr) :
  splitCommand input =
  match findFirstHeredocBodyStart input with
  | None => splitCommandWithoutHeredoc input
  | Some bodyStart =>
    let header := take bodyStart input in
    let segments := splitCommandWithoutHeredoc header in
    let segmentSources := findHeaderSegmentSources header segments in
    match segmentMarkers segments 0 with
    | [] => splitCommandWithoutHeredoc input
    | ms =>
      let '(bodies, cursor) := consumeBodies input ms bodyStart [] in
      let withBodies := imap (attachBody segmentSources bodies) segments in
      let suffix := drop cursor input in
      if truthy (trim suffix) then withBodies ++ splitCommand suffix else withBodies
    end
  end
  /\ match findFirstHeredocBodyStart input with
     | None => True
     | Some bodyStart =>
       forall ms, length (drop (consumeBodies input ms bodyStart []).2 input) < length input
     end.
Proof.
  split.
  - unfold splitCommand at 1. cbn [splitCommand_go].
    destruct (findFirstHeredocBodyStart input) as [bs|] eqn:Eb; [|done].
    apply bodyStart_bounds in Eb.
    destruct (segmentMarkers _ 0) as [|mk ms] eqn:Em; [done|].
    pose proof (consumeBodies_bounds input (mk :: ms) bs [] ltac:(lia)) as Hb.
    destruct (consumeBodies input (mk :: ms) bs []) as [bodies cursor]; simpl in Hb.
    case_match; [|done]. f_equal. apply splitCommand_go_fuel; rewrite length_drop; lia.
  - destruct (findFirstHeredocBodyStart input) as [bs|] eqn:Eb; [|done]. intros ms.
    apply bodyStart_bounds in Eb.
    pose proof (consumeBodies_bounds input ms bs [] ltac:(lia)) as Hb. rewrite length_drop. lia.
Qed.

(** *** What one character does to the splitter *)
Inductive SplitStep :=
  | Separate (extra : nat)             (** a separator of [1 + extra] characters *)
  | Keep (sq dq esc : bool).

Definition split_step (c : jchar) (next : option jchar) (sq dq esc : bool) : SplitStep :=
  let next_is d := match next with Some d' => (d' =? d)%N | None => false end in
  if esc then Keep sq dq false
  else if (c =? backslash)%N && negb sq then Keep sq dq true
  else if (c =? squote)%N && negb dq then Keep (negb sq) dq false
  else if (c =? dquote)%N && negb sq then Keep sq (negb dq) false
  else if negb sq && negb dq then
    if ((c =? ch "&")%N && next_is (ch "&")) || ((c =? ch "|")%N && next_is (ch "|"))
    then Separate 1
    else if (c =? ch ";")%N then Separate 0
    else if (c =? ch "|")%N && negb (next_is (ch "|")) then Separate 0
    else if (c =? newline)%N then Separate 0
    else if (c =? cr)%N && next_is newline then Separate 1
    else Keep sq dq false
  else Keep sq dq false.

Lemma split_loop_step c s current sq dq esc :
  split_loop (c :: s) current sq dq esc =
  match split_step c (head s) sq dq esc with
  | Separate n => flush current (split_loop (drop n s) [] false false false)
  | Keep sq' dq' esc' => split_loop s (current ++ [c]) sq' dq' esc'
  end.
Proof.
  cbn [split_loop]. unfold split_step.
  destruct esc; [done|]. destruct ((c =? backslash)%N && negb sq); [done|].
  destruct ((c =? squote)%N && negb dq); [done|]. destruct ((c =? dquote)%N && negb sq); [done|].
  destruct sq, dq; simpl; try done.
  destruct s as [|d s]; simpl; [rewrite !andb_false_r; simpl|];
    repeat (case_match; simpl; try done).
Qed.

Definition separators : list (jstr) :=
  [js "&&"; js "||"; js ";"; js "|"; [newline]; [cr; newline]].

Ltac separator := refine (bool_decide_unpack _ _); vm_compute; exact I.

Lemma split_step_separator c s sq dq esc n :
  split_step c (head s) sq dq esc = Separate n ->
  exists sep, sep ∈ separators /\ c :: s = sep ++ drop n s.
Proof.
  unfold split_step. destruct esc; [done|]. destruct ((c =? backslash)%N && negb sq); [done|].
  destruct ((c =? squote)%N && negb dq); [done|]. destruct ((c =? dquote)%N && negb sq); [done|].
  destruct (negb sq && negb dq); [|done].
  assert (one : forall k, [k] ∈ separators -> c = k -> Separate 0 = Separate n ->
    exists sep, sep ∈ separators /\ c :: s = sep ++ drop n s).
  { intros k Hk -> [= <-]. exists [k]. by rewrite drop_0. }
  assert (two : forall k d, [k; d] ∈ separators -> c = k -> head s = Some d ->
    Separate 1 = Separate n -> exists sep, sep ∈ separators /\ c :: s = sep ++ drop n s).
  { intros k d Hk -> Hs [= <-]. exists [k; d]. split; [done|]. destruct s; naive_solver. }
  destruct (head s) as [d|] eqn:Hh; rewrite ?andb_false_r; cbn [orb].
  - destruct (c =? ch "&")%N eqn:A1, (d =? ch "&")%N eqn:A2, (c =? ch "|")%N eqn:B1,
      (d =? ch "|")%N eqn:B2, (c =? ch ";")%N eqn:C1, (c =? newline)%N eqn:D1,
      (c =? cr)%N eqn:E1, (d =? newline)%N eqn:E2; simpl; try done.
    all: first [ apply (two (ch "&") (ch "&")); [separator|by apply N.eqb_eq|f_equal; by apply N.eqb_eq]
               | apply (two (ch "|") (ch "|")); [separator|by apply N.eqb_eq|f_equal; by apply N.eqb_eq]
               | apply (two cr newline); [separator|by apply N.eqb_eq|f_equal; by apply N.eqb_eq]
               | apply (one (ch "|")); [separator|by apply N.eqb_eq]
               | apply (one (ch ";")); [separator|by apply N.eqb_eq]
               | apply (one newline); [separator|by apply N.eqb_eq] ].
  - destruct (c =? ch ";")%N eqn:C1; [apply (one (ch ";")); [separator|by apply N.eqb_eq]|].
    destruct (c =? ch "|")%N eqn:B1; [apply (one (ch "|")); [separator|by apply N.eqb_eq]|].
    destruct (c =? newline)%N eqn:D1; [apply (one newline); [separator|by apply N.eqb_eq]|done].
Qed.

(** Seeing less of what follows never turns a kept character into a separator. *)
Lemma split_step_cut c next sq dq esc sq' dq' esc' :
  split_step c next sq dq esc = Keep sq' dq' esc' ->
  split_step c None sq dq esc = Keep sq' dq' esc'.
Proof.
  unfold split_step. destruct esc; [done|]. destruct ((c =? backslash)%N && negb sq); [done|].
  destruct ((c =? squote)%N && negb dq); [done|]. destruct ((c =? dquote)%N && negb sq); [done|].
  destruct (negb sq && negb dq); [|done]. rewrite !andb_false_r; cbn [orb negb].
  destruct next as [d|]; [|by rewrite !andb_false_r].
  destruct (c =? ch "|")%N, (d =? ch "|")%N, (c =? ch "&")%N, (d =? ch "&")%N,
    (c =? ch ";")%N, (c =? newline)%N, (c =? cr)%N, (d =? newline)%N; cbn [orb andb negb]; first [done | auto].
Qed.

Definition glue (parts : list (jstr * jstr)) : jstr := concat (map (fun p => p.1 ++ p.2) parts).

Lemma flush_filter current rest : flush current rest = List.filter truthy [trim current] ++ rest.
Proof. unfold flush; simpl. by destruct (trim current). Qed.

Lemma split_loop_pieces (s : jstr) : forall current sq dq esc,
  exists p parts,
    s = p ++ glue parts
    /\ split_loop p current sq dq esc = flush (current ++ p) []
    /\ Forall (fun x => x.1 ∈ separators
                        /\ split_loop x.2 [] false false false = flush x.2 []) parts
    /\ split_loop s current sq dq esc
       = List.filter truthy (map trim ((current ++ p) :: map snd parts)).
Proof.
  induction s as [s IH] using (induction_ltof1 _ (@length jchar)); unfold ltof in IH.
  intros current sq dq esc. destruct s as [|c s].
  { exists [], []. rewrite !app_nil_r. cbn [split_loop map]. rewrite !flush_filter, !app_nil_r.
    split; [done|]. split; [done|]. split; [constructor|done]. }
  rewrite split_loop_step. destruct (split_step c (head s) sq dq esc) as [n|sq' dq' esc'] eqn:Es.
  - destruct (split_step_separator _ _ _ _ _ _ Es) as (sep & Hsep & Heq).
    destruct (IH (drop n s)) with (current := @nil jchar) (sq := false) (dq := false) (esc := false)
      as (p & parts & Hp & Hs & Hall & Hres); [rewrite length_drop; simpl; lia|].
    exists [], ((sep, p) :: parts). rewrite app_nil_r. repeat split.
    + rewrite Heq. unfold glue in *; simpl. rewrite Hp at 1. by rewrite app_assoc.
    + constructor; [|done]. split; [done|apply Hs].
    + rewrite Hres, flush_filter. simpl. by destruct (truthy (trim current)).
  - destruct (IH s) with (current := current ++ [c]) (sq := sq') (dq := dq') (esc := esc')
      as (p & parts & Hp & Hs & Hall & Hres); [simpl; lia|].
    exists (c :: p), parts. repeat split; [simpl; by rewrite Hp at 1| |done|].
    + assert (split_step c (head p) sq dq esc = Keep sq' dq' esc') as Hk.
      { destruct p as [|d p]; [apply (split_step_cut _ _ _ _ _ _ _ _ Es)|]. by rewrite <- Es, Hp. }
      rewrite split_loop_step, Hk. by rewrite Hs, <- app_assoc.
    + rewrite Hres, <- app_assoc. done.
Qed.

(** splitting loses nothing but separators and white space: the folded
    command is its pieces with separators between them; no piece contains a
    further unquoted separator; and the result is the trimmed, non-empty pieces
    after the per-segment cleanup. *)
Theorem split_partition (input : jstr) :
  exists p parts,
    foldLineContinuations input = p ++ glue parts
    /\ Forall (fun x => x.1 ∈ separators) parts
    /\ Forall (fun q => split_loop q [] false false false = List.filter truthy [trim q])
         (p :: map snd parts)
    /\ splitCommandWithoutHeredoc input
       = omap cleanup (List.filter truthy (map trim (p :: map snd parts))).
Proof.
  destruct (split_loop_pieces (foldLineContinuations input) [] false false false)
    as (p & parts & Heq & Hp & Hall & Hres).
  exists p, parts. split; [done|]. split; [|split].
  - eapply Forall_impl; [apply Hall|]. by intros x [? _].
  - constructor; [by rewrite Hp, flush_filter, app_nil_r|].
    rewrite Forall_map. eapply Forall_impl; [apply Hall|]. intros x [_ ->]. by rewrite flush_filter, app_nil_r.
  - unfold splitCommandWithoutHeredoc. by rewrite Hres.
Qed.

(** *** Quoting and splitting *)

(** Words that single quotes protect as they stand, with a command name. *)
Definition noQuote (w : jstr) : bool := forallb (fun c => negb (c =? squote)%N) w.
Definition plainArgv (argv : list jstr) : bool :=
  match argv with w :: _ => truthy w && negb (isAssignment w) | [] => false end
  && forallb noQuote argv.

(** A script: command lines with a separator before each but the first. *)
Definition script (first : list jstr) (rest : list (jstr * list jstr)) : jstr :=
  commandLine first ++ glue (map (fun x => (x.1, commandLine x.2)) rest).

(** Characters that mean nothing to the line folder and to the heredoc scanner
    outside quotes; [quoted_ok sq s] holds when the others are single-quoted. *)
Definition inert (c : jchar) : bool :=
  negb ((c =? dquote) || (c =? backslash) || (c =? ch "#") || (c =? ch "$") || (c =? ch "(")
        || (c =? ch "<"))%N.

Fixpoint quoted_ok (sq : bool) (s : jstr) : bool :=
  match s with
  | [] => true
  | c :: s' => if (c =? squote)%N then quoted_ok (negb sq) s' else (sq || inert c) && quoted_ok sq s'
  end.

Lemma inert_false c d : inert c = true -> inert d = false -> (c =? d)%N = false.
Proof. intros Hc Hd. destruct (N.eqb_spec c d); [congruence|done]. Qed.

Ltac inert_goal Hc :=
  repeat match goal with
         | |- context [(?c =? ?d)%N] => rewrite (inert_false c d Hc) by reflexivity
         end.

Lemma fold_quoted (s : jstr) : forall i sq,
  quoted_ok sq s = true -> map fst (fold_loop s i sq false) = s.
Proof.
  induction s as [|c s IH]; intros i sq; [done|]. cbn [quoted_ok fold_loop].
  destruct (c =? squote)%N eqn:Hc; cbn [andb negb].
  - intros H. cbn [map fst]. by rewrite IH.
  - intros [Hi H]%andb_true_iff. destruct sq; rewrite ?andb_false_r, ?andb_true_r.
    + cbn [map fst]. by rewrite IH.
    + simpl in Hi. rewrite (inert_false c dquote Hi), (inert_false c backslash Hi) by done.
      cbn [map fst]. by rewrite IH.
Qed.

Lemma at_is_middle pre c s d : at_is (pre ++ c :: s) (length pre) d = (c =? d)%N.
Proof. unfold at_is. by rewrite list_lookup_middle. Qed.

Lemma bodyStart_quoted (s : jstr) : forall fuel pre sq,
  quoted_ok sq s = true ->
  bodyStart_loop fuel (pre ++ s) (length pre) sq false false = None.
Proof.
  induction s as [|c s IH]; intros [|fuel] pre sq; cbn [bodyStart_loop]; try done.
  { by rewrite app_nil_r, lookup_ge_None_2. }
  rewrite list_lookup_middle by done. intros Hq.
  assert (next : forall sq', quoted_ok sq' s = true ->
    bodyStart_loop fuel (pre ++ c :: s) (S (length pre)) sq' false false = None).
  { intros sq' H. specialize (IH fuel (pre ++ [c]) sq' H).
    rewrite <- app_assoc, length_app, Nat.add_1_r in IH. exact IH. }
  cbn [quoted_ok] in Hq. unfold scan_step, shellCommentStartsAt, skipArithmeticContext.
  rewrite !at_is_middle. destruct (N.eqb_spec c squote) as [->|Hc].
  - rewrite andb_false_l. cbn [andb negb]. by apply next.
  - apply andb_true_iff in Hq as [Hi Hq]. destruct sq; cbn [negb andb orb] in *.
    + rewrite !andb_false_r. by apply next.
    + inert_goal Hi. cbn [negb andb orb].
      unfold parseHeredocMarkerAt. rewrite at_is_middle. inert_goal Hi. by apply next.
Qed.

Lemma shellQuote_plain w : noQuote w = true -> shellQuote w = squote :: w ++ [squote].
Proof.
  unfold shellQuote. intros H. f_equal. induction w as [|c w IH]; [done|].
  cbn in H. apply andb_true_iff in H as [Hc H]. cbn [quote_body].
  destruct (c =? squote)%N; [done|]. simpl. by rewrite IH.
Qed.

Lemma quoted_ok_word w s : noQuote w = true -> quoted_ok true (w ++ squote :: s) = quoted_ok false s.
Proof.
  induction w as [|c w IH]; [done|]. cbn. intros [Hc H]%andb_true_iff.
  destruct (c =? squote)%N; [done|]. by apply IH.
Qed.

Lemma split_word w : forall s cur, noQuote w = true ->
  split_loop (w ++ squote :: s) cur true false false = split_loop s (cur ++ w ++ [squote]) false false false.
Proof.
  induction w as [|c w IH]; intros s cur; [done|].
  cbn [noQuote forallb]. intros [Hc H]%andb_true_iff.
  cbn [app split_loop]. rewrite !andb_false_r. cbn [negb andb].
  destruct (c =? squote)%N; [done|]. cbn [andb].
  change (forallb _ w = true) with (noQuote w = true) in H.
  rewrite IH by done. by rewrite <- app_assoc.
Qed.

(** A property of every suffix that single-quoted words and spaces keep holds
    of a command line. *)
Lemma commandLine_cons w argv :
  commandLine (w :: argv)
  = shellQuote w ++ match argv with [] => [] | _ => 32%N :: commandLine argv end.
Proof. unfold commandLine. destruct argv; simpl; [by rewrite app_nil_r|done]. Qed.

Lemma quoted_ok_commandLine argv s :
  forallb noQuote argv = true -> quoted_ok false (commandLine argv ++ s) = quoted_ok false s.
Proof.
  revert s; induction argv as [|w argv IH]; intros s; [done|].
  cbn [forallb]. intros [Hw H]%andb_true_iff.
  rewrite commandLine_cons, shellQuote_plain, <- app_assoc by done.
  cbn [app quoted_ok]. rewrite N.eqb_refl, <- app_assoc. cbn [app negb].
  rewrite quoted_ok_word by done. destruct argv; [done|].
  cbn [app quoted_ok]. change (32 =? squote)%N with false. change (inert 32) with true. cbn [orb andb].
  by apply IH.
Qed.

Lemma split_commandLine argv : forall s cur,
  forallb noQuote argv = true ->
  split_loop (commandLine argv ++ s) cur false false false
  = split_loop s (cur ++ commandLine argv) false false false.
Proof.
  induction argv as [|w argv IH]; intros s cur.
  { intros _. by rewrite app_nil_r. }
  cbn [forallb]. intros [Hw H]%andb_true_iff.
  rewrite commandLine_cons, shellQuote_plain, <- !app_assoc by done.
  cbn [app]. rewrite split_loop_step. change (split_step squote _ _ _ _) with (Keep true false false).
  cbn iota. rewrite <- app_assoc. cbn [app]. rewrite split_word by done.
  destruct argv as [|w' argv]; [by rewrite <- !app_assoc|].
  cbn [app]. rewrite split_loop_step.
  change (split_step 32%N _ _ _ _) with (Keep false false false). cbn iota.
  rewrite IH by done. f_equal. rewrite <- !app_assoc. by simpl.
Qed.

Lemma separator_split sep cur s :
  sep ∈ separators ->
  split_loop (sep ++ squote :: s) cur false false false = flush cur (split_loop (squote :: s) [] false false false).
Proof.
  intros Hsep. unfold separators in *.
  repeat (apply elem_of_cons in Hsep as [->|Hsep]; [by cbn|]). by apply elem_of_nil in Hsep.
Qed.

Lemma commandLine_shape argv :
  argv <> [] -> forallb noQuote argv = true -> exists m, commandLine argv = squote :: m ++ [squote].
Proof.
  induction argv as [|w argv IH]; [done|]. intros _. cbn [forallb]. intros [Hw H]%andb_true_iff.
  rewrite commandLine_cons, shellQuote_plain by done. destruct argv as [|w' argv].
  { exists w. by rewrite app_nil_r. }
  destruct IH as [m Hm]; [done..|]. rewrite Hm.
  exists (w ++ [squote; 32%N; squote] ++ m). simpl. by rewrite <- !app_assoc.
Qed.

Lemma trim_quoted m : trim (squote :: m ++ [squote]) = squote :: m ++ [squote].
Proof. by apply trim_id. Qed.

Lemma tokenize_commandLine argv : shellTokenize (commandLine argv) = List.filter truthy argv.
Proof. apply (tok_commandLine argv 0 _ tok_init); done. Qed.

Lemma not_keyword h l : forallb (fun k => negb (startsWith k [squote])) l = true -> mem (squote :: h) l = false.
Proof.
  intros H. apply bool_decide_eq_false. intros Hin.
  rewrite forallb_forall in H. apply list_elem_of_In, H in Hin. destruct h; discriminate Hin.
Qed.

Lemma strip_quoted m : stripLeadingShellKeyword (squote :: m ++ [squote]) = Some (squote :: m ++ [squote]).
Proof.
  unfold stripLeadingShellKeyword. rewrite trim_quoted.
  generalize (m ++ [squote]) as r; intros r. cbn [stripParserTokens length].
  change (isParserToken squote) with false. cbn iota. cbn [stripKeywords length splitAtWhite].
  change (isWhite squote) with false. cbn iota.
  destruct (splitAtWhite r) as [h t]. by rewrite !not_keyword by done.
Qed.

Lemma plainArgv_inv argv : plainArgv argv = true -> argv <> [] /\ forallb noQuote argv = true.
Proof. unfold plainArgv. by destruct argv; [done|intros [_ ?]%andb_true_iff]. Qed.

(** Lines that begin and end in quotes, that the splitter and the scanner of
    heredocs run over, and that hold a command. *)
Record solid (l : jstr) : Prop := {
  solid_quoted : exists m, l = squote :: m ++ [squote];
  solid_split s cur : split_loop (l ++ s) cur false false false = split_loop s (cur ++ l) false false false;
  solid_ok s : quoted_ok false (l ++ s) = quoted_ok false s;
  solid_command : isAssignmentOnlySegment l = false;
}.

Lemma solid_commandLine argv : plainArgv argv = true -> solid (commandLine argv).
Proof.
  intros Hp. destruct (plainArgv_inv argv Hp) as [Hne Hq]. split.
  - by apply commandLine_shape.
  - intros s cur. by apply split_commandLine.
  - intros s. by apply quoted_ok_commandLine.
  - unfold isAssignmentOnlySegment. destruct (commandLine_shape argv Hne Hq) as [m Hm].
    assert (trim (commandLine argv) = commandLine argv) as -> by (rewrite Hm; apply trim_quoted).
    rewrite tokenize_commandLine. unfold plainArgv in Hp. destruct argv as [|w argv]; [done|].
    apply andb_true_iff in Hp as [[Ht Ha%negb_true_iff]%andb_true_iff _].
    cbn [List.filter]. rewrite Ht. cbn [forallb]. by rewrite Ha.
Qed.

Lemma trim_solid l : solid l -> trim l = l.
Proof. intros [[m ->] _ _ _]. apply trim_quoted. Qed.

Lemma flush_solid l rest : solid l -> flush l rest = l :: rest.
Proof. intros H. unfold flush. rewrite trim_solid by done. by destruct H as [[m ->] _ _ _]. Qed.

Lemma cleanup_solid l : solid l -> cleanup l = Some l.
Proof.
  intros H. unfold cleanup, isCommentSegment. rewrite solid_command by done. destruct H as [[m ->] _ _ _]. apply strip_quoted.
Qed.

Definition separated (x : jstr * jstr) : Prop := x.1 ∈ separators /\ solid x.2.

Lemma split_solid rest : forall first, solid first -> Forall separated rest ->
  split_loop (first ++ glue rest) [] false false false = first :: map snd rest.
Proof.
  induction rest as [|[sep l] rest IH]; intros first Hf Hall; rewrite solid_split by done; cbn [app glue map concat fst snd].
  - by apply flush_solid.
  - apply Forall_cons in Hall as [[Hsep Hl] Hall]. cbn [fst snd] in Hsep, Hl.
    rewrite <- app_assoc. destruct (solid_quoted l Hl) as [m Hm]. specialize (IH l Hl Hall). unfold glue in IH |- *.
    rewrite Hm in IH |- *. cbn [app] in IH |- *.
    rewrite separator_split by done. rewrite flush_solid by done. f_equal. exact IH.
Qed.

Lemma solid_lines_quoted rest : forall first, solid first -> Forall separated rest ->
  quoted_ok false (first ++ glue rest) = true.
Proof.
  induction rest as [|[sep l] rest IH]; intros first Hf Hall; rewrite solid_ok by done; [done|].
  apply Forall_cons in Hall as [[Hsep Hl] Hall]. cbn [fst snd] in Hsep, Hl.
  specialize (IH l Hl Hall). unfold glue in IH |- *. cbn [map concat fst snd]. rewrite <- app_assoc. unfold separators in Hsep.
  repeat (apply elem_of_cons in Hsep as [->|Hsep]; [exact IH|]). by apply elem_of_nil in Hsep.
Qed.

Lemma solid_lines_split first rest : solid first -> Forall separated rest ->
  splitCommand (first ++ glue rest) = first :: map snd rest.
Proof.
  intros Hf Hall. pose proof (solid_lines_quoted rest first Hf Hall) as Hq.
  unfold splitCommand. cbn [splitCommand_go]. unfold findFirstHeredocBodyStart.
  rewrite (bodyStart_quoted _ _ [] false Hq). unfold splitCommandWithoutHeredoc.
  unfold foldLineContinuations, foldLineContinuationsWithSourceMap; cbn [text].
  rewrite fold_quoted, split_solid by done.
  assert (Forall solid (first :: map snd rest)) as Hs.
  { constructor; [done|]. rewrite Forall_map. eapply Forall_impl; [done|]. by intros x []. }
  clear -Hs. induction Hs as [|l ls Hl _ IH]; [done|]. cbn [omap list_omap]. rewrite cleanup_solid by done. by f_equal.
Qed.

Lemma separated_commandLines (rest : list (jstr * list jstr)) :
  Forall (fun x => x.1 ∈ separators /\ plainArgv x.2 = true) rest ->
  Forall separated (map (fun x => (x.1, commandLine x.2)) rest).
Proof.
  intros H. rewrite Forall_map. eapply Forall_impl; [exact H|]. intros x [? ?]. split; [done|]. by apply solid_commandLine.
Qed.

Lemma script_quoted rest first : plainArgv first = true ->
  Forall (fun x => x.1 ∈ separators /\ plainArgv x.2 = true) rest -> quoted_ok false (script first rest) = true.
Proof. intros Hf Hr. apply solid_lines_quoted; [by apply solid_commandLine|by apply separated_commandLines]. Qed.

Lemma quoted_never_split_lines first rest : plainArgv first = true ->
  Forall (fun x => x.1 ∈ separators /\ plainArgv x.2 = true) rest ->
  splitCommand (script first rest) = map commandLine (first :: map snd rest).
Proof.
  intros Hf Hr. unfold script. rewrite solid_lines_split; [|by apply solid_commandLine|by apply separated_commandLines].
  cbn [map]. by rewrite !map_map.
Qed.

Lemma no_bodies_quoted s : quoted_ok false s = true -> findHeredocBodyRanges s = [].
Proof.
  intros Hq. unfold findHeredocBodyRanges. cbn [collectHeredocBodyRanges]. rewrite drop_0.
  unfold findFirstHeredocBodyStart. by rewrite (bodyStart_quoted _ _ [] false Hq).
Qed.

(** no separator, operator or heredoc sign inside single quotes splits a
    command: a script of single-quoted command lines splits into exactly those
    command lines, each unchanged, whatever its words contain. *)
Theorem quoted_never_split (first : list jstr) (rest : list (jstr * list jstr))
    (Hfirst : plainArgv first = true)
    (Hrest : Forall (fun x => x.1 ∈ separators /\ plainArgv x.2 = true) rest) :
  splitCommand (script first rest) = map commandLine (first :: map snd rest).
Proof. by apply quoted_never_split_lines. Qed.

Lemma quoted_never_split_witness :
  splitCommand (script [js "echo"; js "a; rm -rf / && b <<EOF"]
                  [(js "&&", [js "ls"; js "$(x) | y"]); ([newline], [js "pwd"])])
  = [js "'echo' 'a; rm -rf / && b <<EOF'"; js "'ls' '$(x) | y'"; js "'pwd'"].
Proof.
  rewrite quoted_never_split; [reflexivity|reflexivity|].
  repeat constructor; refine (bool_decide_unpack _ _); vm_compute; exact I.
Defined.

(** A quoted command name that looks like an assignment leaves no subcommand,
    though bash runs it. *)
Example quoted_assignment_dropped : splitCommand (commandLine [js "A=b"; js "C=d"]) = [].
Proof. by vm_compute. Qed.

(** The folder toggles its quote state on an escaped quote, so that it then
    folds a backslash and newline that single quotes make literal. *)
Example fold_escaped_quote :
  foldLineContinuations (js "echo \' 'a" ++ [backslash; newline] ++ js "b'")
  = js "echo \' 'a b'".
Proof. by vm_compute. Qed.

(** *** Heredoc body ranges *)

(** Consecutive intervals between [lo] and [hi]. *)
Fixpoint ordered_ranges (lo : nat) (rs : list HeredocBodyRange) (hi : nat) : Prop :=
  match rs with
  | [] => lo <= hi
  | r :: rs' => lo <= b_start r /\ b_start r <= b_end r /\ ordered_ranges (b_end r) rs' hi
  end.

Lemma ordered_app lo rs m rs' hi :
  ordered_ranges lo rs m -> ordered_ranges m rs' hi -> ordered_ranges lo (rs ++ rs') hi.
Proof.
  revert lo; induction rs as [|r rs IH]; intros lo; simpl.
  - destruct rs'; simpl; intuition lia.
  - intros (? & ? & ?) ?. eauto.
Qed.

Lemma collectStep_ordered input ms : forall lo rs c rs' c',
  ordered_ranges lo rs c -> c <= length input ->
  fold_left (collectStep input) ms (rs, c) = (rs', c') ->
  ordered_ranges lo rs' c' /\ c <= c' <= length input.
Proof.
  induction ms as [|m ms IH]; intros lo rs c rs' c' Ho Hc; cbn [fold_left collectStep].
  - intros [= <- <-]. split; [done|lia].
  - intros H. pose proof (consume_bounds input c m Hc) as Hb.
    apply (IH lo) in H as [H1 H2]; [split; [done|lia]| |lia].
    eapply ordered_app; [done|]. simpl. lia.
Qed.

Lemma collect_ordered input : forall fuel offset,
  offset <= length input ->
  ordered_ranges offset (collectHeredocBodyRanges fuel input offset) (length input).
Proof.
  induction fuel as [|fuel IH]; intros offset Ho; cbn [collectHeredocBodyRanges]; [done|].
  destruct (findFirstHeredocBodyStart (drop offset input)) as [bs|] eqn:Eb; [|done].
  apply bodyStart_bounds in Eb. rewrite length_drop in Eb.
  destruct (flat_map _ _) as [|m ms]; [done|].
  destruct (fold_left _ _ _) as [rs c] eqn:Ef.
  apply (collectStep_ordered input _ offset) in Ef as [H1 H2]; [|simpl; lia..].
  eapply ordered_app; [done|]. apply IH. lia.
Qed.

Lemma collect_fuel input : forall f f' offset,
  length input - offset < f -> length input - offset < f' ->
  collectHeredocBodyRanges f input offset = collectHeredocBodyRanges f' input offset.
Proof.
  induction f as [|f IH]; intros [|f'] offset Hf Hf'; try lia. cbn [collectHeredocBodyRanges].
  destruct (findFirstHeredocBodyStart (drop offset input)) as [bs|] eqn:Eb; [|done].
  apply bodyStart_bounds in Eb. rewrite length_drop in Eb.
  destruct (flat_map _ _) as [|m ms]; [done|].
  destruct (fold_left _ _ _) as [rs c] eqn:Ef.
  apply (collectStep_ordered input _ (offset + bs)) in Ef as [_ H2]; [|simpl; lia..].
  f_equal. apply IH; lia.
Qed.

(** [findHeredocBodyRanges] returns in-bounds ranges in order and disjoint,
    and more iterations than the input has characters never change them. *)
Theorem heredoc_ranges_ordered (input : jstr) :
  ordered_ranges 0 (findHeredocBodyRanges input) (length input)
  /\ forall extra, collectHeredocBodyRanges (S (length input) + extra) input 0
                   = findHeredocBodyRanges input.
Proof.
  split; [apply collect_ordered; lia|]. intros extra. apply collect_fuel; lia.
Qed.
