(* ===== verification/BashAst.v ===== *)
(** * Plain command sequences

    [packages/agent-modules/permission/src/tools/bash-ast.ts]: the scanner that
    decides whether a script is a sequence of word-only commands joined by
    [&&], [||], [;] and [|], and the heredoc fallback.  The five loops of the file
    begin with the same bookkeeping of quotes, [quoteStep] here; an index loop
    is a recursion on the rest of the text, with the unit before it where the
    code looks back.  [wordOnly] is the grammar the scanner re-derives, by one pass over the text. *)
From S2P Require Import Prelude ShellTokenize ShellSplit.

Definition backtick : jchar := 96%N.

(** ** Small utilities *)

(** [text.replaceAll('\\', '/')]. *)
Definition slashes (p : jstr) : jstr :=
  map (fun c => if (c =? backslash)%N then ch "/" else c) p.

(** What follows the last [c] of the text. *)
Fixpoint afterLast (c : jchar) (s : jstr) : option jstr :=
  match s with
  | [] => None
  | d :: s' =>
      match afterLast c s' with
      | Some r => Some r
      | None => if (d =? c)%N then Some s' else None
      end
  end.

Definition basename (p : jstr) : jstr :=
  let normalized := slashes p in default normalized (afterLast (ch "/") normalized).

Definition isWhitespace (c : jchar) : bool :=
  ((c =? 32) || ((9 <=? c) && (c <=? 13)))%N.

Definition isAssignmentPrefix (word : jstr) : bool := isAssignment word.

(** [KNOWN_SHELLS]. *)
Definition KNOWN_SHELLS : list jstr := [js "bash"; js "zsh"; js "sh"].

Definition extractBashCommand (command : list jstr) : option (jstr * jstr) :=
  match command with
  | [shell; flag; script] =>
      if negb (str_eqb flag (js "-lc")) && negb (str_eqb flag (js "-c")) then None
      else if negb (mem (basename shell) KNOWN_SHELLS) then None
      else Some (shell, script)
  | _ => None
  end.

(** ** Quotes *)
Record Quotes := { inSingle : bool; inDouble : bool; isEscaped : bool }.

Definition noQuotes : Quotes := {| inSingle := false; inDouble := false; isEscaped := false |}.

(** The tests every loop starts with: [Some] of the new state when one of them
    takes the unit and continues. *)
Definition quoteStep (q : Quotes) (c : jchar) : option Quotes :=
  if isEscaped q then
    Some {| inSingle := inSingle q; inDouble := inDouble q; isEscaped := false |}
  else if (c =? backslash)%N && negb (inSingle q) then
    Some {| inSingle := inSingle q; inDouble := inDouble q; isEscaped := true |}
  else if (c =? squote)%N && negb (inDouble q) then
    Some {| inSingle := negb (inSingle q); inDouble := inDouble q; isEscaped := isEscaped q |}
  else if (c =? dquote)%N && negb (inSingle q) then
    Some {| inSingle := inSingle q; inDouble := negb (inDouble q); isEscaped := isEscaped q |}
  else None.

(** After the last unit: a quote or an escape is still open. *)
Definition unfinished (q : Quotes) : bool := inSingle q || inDouble q || isEscaped q.

Definition is_unit (o : option jchar) (c : jchar) : bool :=
  match o with Some d => (d =? c)%N | None => false end.

(** ** The reject scan *)
Fixpoint forbidden_loop (before : option jchar) (s : jstr) (q : Quotes) : bool :=
  match s with
  | [] => unfinished q
  | c :: s1 =>
      match quoteStep q c with
      | Some q' => forbidden_loop (Some c) s1 q'
      | None =>
          if inSingle q then forbidden_loop (Some c) s1 q
          else if (c =? ch "$")%N then true
          else if (c =? backtick)%N then true
          else if inDouble q then forbidden_loop (Some c) s1 q
          else if (c =? ch ">")%N || (c =? ch "<")%N then true
          else if (c =? ch "(")%N || (c =? ch ")")%N || (c =? ch "{")%N || (c =? ch "}")%N then true
          else if (c =? ch "&")%N && negb (is_unit (head s1) (ch "&"))
                  && negb (is_unit before (ch "&")) then true
          else forbidden_loop (Some c) s1 q
      end
  end.

Definition containsForbiddenConstruct (script : jstr) : bool := forbidden_loop None script noQuotes.

(** ** Segments *)

(** [pushSegment]: [None] when the command position is empty. *)
Definition pushSegment (segments : list jstr) (current : jstr) : option (list jstr) :=
  match trim current with [] => None | _ => Some (segments ++ [current]) end.

(** After the loop. *)
Definition lastSegment (segments : list jstr) (current : jstr) : option (list jstr) :=
  match trim current with
  | [] => match segments with [] => Some [] | _ => None end
  | _ => Some (segments ++ [current])
  end.

Fixpoint segments_loop (s : jstr) (segments : list jstr) (current : jstr) (q : Quotes) :
    option (list jstr) :=
  match s with
  | [] => lastSegment segments current
  | c :: s1 =>
      match quoteStep q c with
      | Some q' => segments_loop s1 segments (current ++ [c]) q'
      | None =>
          if inSingle q || inDouble q then segments_loop s1 segments (current ++ [c]) q
          else
            let next := head s1 in
            if ((c =? ch "&")%N && is_unit next (ch "&")) || ((c =? ch "|")%N && is_unit next (ch "|")) then
              match pushSegment segments current, s1 with
              | Some segments', _ :: s2 => segments_loop s2 segments' [] q
              | _, _ => None
              end
            else if (c =? ch "|")%N || (c =? ch ";")%N then
              match pushSegment segments current with
              | Some segments' => segments_loop s1 segments' [] q
              | None => None
              end
            else segments_loop s1 segments (current ++ [c]) q
      end
  end.

Definition splitTopLevelSegments (script : jstr) : option (list jstr) :=
  segments_loop script [] [] noQuotes.

(** ** Words *)
Record WordState := { words_ : list jstr; current_ : jstr; hasToken : bool }.

Definition flushWord (st : WordState) : WordState :=
  {| words_ := if hasToken st then words_ st ++ [current_ st] else words_ st;
     current_ := []; hasToken := false |}.

Definition addUnit (c : jchar) (st : WordState) : WordState :=
  {| words_ := words_ st; current_ := current_ st ++ [c]; hasToken := true |}.

Definition startWord (st : WordState) : WordState :=
  {| words_ := words_ st; current_ := current_ st; hasToken := true |}.

Fixpoint words_loop (s : jstr) (st : WordState) (q : Quotes) : option (list jstr) :=
  match s with
  | [] => if unfinished q then None else Some (words_ (flushWord st))
  | c :: s1 =>
      match quoteStep q c with
      | Some q' => words_loop s1 (if isEscaped q then addUnit c st else startWord st) q'
      | None =>
          if negb (inSingle q) && negb (inDouble q) && isWhitespace c
          then words_loop s1 (flushWord st) q
          else words_loop s1 (addUnit c st) q
      end
  end.

Definition parsePlainCommandWords (command : jstr) : option (list jstr) :=
  words_loop command {| words_ := []; current_ := []; hasToken := false |} noQuotes.

(** ** Scripts *)

(** The body of the loop over the segments. *)
Definition plainCommand (segment : jstr) : option (list jstr) :=
  match trim segment with
  | [] => None
  | trimmed =>
      match parsePlainCommandWords trimmed with
      | None | Some [] => None
      | Some (w :: ws) => if isAssignmentPrefix w then None else Some (w :: ws)
      end
  end.

(** The loop over the segments; it stops at the first one that is not plain. *)
Definition plainCommands (segments : list jstr) : option (list (list jstr)) :=
  mapM plainCommand segments.

Definition parseScriptPlainCommands (script : jstr) : option (list (list jstr)) :=
  if containsForbiddenConstruct script then None
  else match splitTopLevelSegments script with
       | None | Some [] => None
       | Some segments => plainCommands segments
       end.

Definition parseShellLcPlainCommands (command : list jstr) : option (list (list jstr)) :=
  match extractBashCommand command with
  | None => None
  | Some (_, script) => parseScriptPlainCommands script
  end.

(** ** Heredocs *)

(** One match of the operator's expression at the front of the text: [<<], an
    optional [-] or [~], blanks, and an identifier, bare or between two equal
    quotes.  The result is the identifier and the rest.  Each part of the
    expression is decided by the next unit, so no choice is ever undone. *)
Fixpoint spanIdent (s : jstr) : jstr * jstr :=
  match s with
  | c :: s' => if isAlpha_ c || isDigit c then let '(w, r) := spanIdent s' in (c :: w, r) else ([], s)
  | [] => ([], [])
  end.

Definition dropOptional (p : jchar -> bool) (s : jstr) : jstr :=
  match s with c :: s' => if p c then s' else s | [] => [] end.

Definition isHeredocModifier (c : jchar) : bool := ((c =? ch "-") || (c =? ch "~"))%N.

Definition heredocOperatorAt (s : jstr) : option (jstr * jstr) :=
  if negb (startsWith s (js "<<")) then None
  else
    let s1 := dropWhile isWhite (dropOptional isHeredocModifier (drop 2 s)) in
    match s1 with
    | [] => None
    | c :: s2 =>
        let quoted := ((c =? squote) || (c =? dquote))%N in
        let body := if quoted then s2 else s1 in
        match body with
        | d :: _ =>
            if negb (isAlpha_ d) then None
            else
              let '(word, rest) := spanIdent body in
              if quoted then
                match rest with
                | e :: rest' => if (e =? c)%N then Some (word, rest') else None
                | [] => None
                end
              else Some (word, rest)
        | [] => None
        end
    end.

(** [exec]: the leftmost match. *)
Fixpoint heredocOperator (s : jstr) : option (jstr * jstr) :=
  match heredocOperatorAt s with
  | Some m => Some m
  | None => match s with [] => None | _ :: s' => heredocOperator s' end
  end.

(** The expression of [hasHeredoc], at the front and anywhere: the closing quote
    is not asked for. *)
Definition heredocOpenerAt (s : jstr) : bool :=
  startsWith s (js "<<") &&
  match dropOptional (fun c => (c =? squote) || (c =? dquote))%N
          (dropWhile isWhite (dropOptional isHeredocModifier (drop 2 s))) with
  | d :: _ => isAlpha_ d
  | [] => false
  end.

Fixpoint heredocOpener (s : jstr) : bool :=
  heredocOpenerAt s || match s with [] => false | _ :: s' => heredocOpener s' end.

Definition hasHeredoc (script : jstr) : bool := heredocOpener script || includes script (js "<<").

(** [lines.findIndex((line) => line.trim() === delimiter)]: the lines after it. *)
Fixpoint afterClosing (delimiter : jstr) (lines : list jstr) : option (list jstr) :=
  match lines with
  | [] => None
  | line :: rest => if str_eqb (trim line) delimiter then Some rest else afterClosing delimiter rest
  end.

Definition stripHeredocBodies (script : jstr) : jstr :=
  match heredocOperator script with
  | None => script
  | Some (delimiter, _) =>
      match indexOfChar script newline 0 with
      | None => script
      | Some headerEnd =>
          let header := take headerEnd script in
          match afterClosing delimiter (split (drop (S headerEnd) script) [newline]) with
          | None => header
          | Some tailLines =>
              match join [newline] tailLines with
              | [] => header
              | tail => header ++ newline :: tail
              end
          end
      end
  end.

(** [text.replace(/<<[-~]?/g, '')]: the fuel bounds the units left. *)
Fixpoint dropHeredocMarks (fuel : nat) (s : jstr) : jstr :=
  match fuel, s with
  | S fuel', c :: s' =>
      if startsWith s (js "<<") then dropHeredocMarks fuel' (dropOptional isHeredocModifier (drop 2 s))
      else c :: dropHeredocMarks fuel' s'
  | _, _ => s
  end.

(** The operator's expression replaced everywhere by the empty text. *)
Fixpoint dropHeredocOperators (fuel : nat) (s : jstr) : jstr :=
  match fuel, s with
  | S fuel', c :: s' =>
      match heredocOperatorAt s with
      | Some (_, rest) => dropHeredocOperators fuel' rest
      | None => c :: dropHeredocOperators fuel' s'
      end
  | _, _ => s
  end.

(** The loops of [hasFileRedirect] and [containsExpansionOrSubstitution]. *)
Fixpoint redirect_loop (s : jstr) (q : Quotes) : bool :=
  match s with
  | [] => false
  | c :: s1 =>
      match quoteStep q c with
      | Some q' => redirect_loop s1 q'
      | None =>
          if inSingle q || inDouble q then redirect_loop s1 q
          else if (c =? ch ">")%N || (c =? ch "<")%N then true
          else redirect_loop s1 q
      end
  end.

Definition hasFileRedirect (script : jstr) : bool :=
  let stripped := stripHeredocBodies script in
  redirect_loop (dropHeredocMarks (length stripped) stripped) noQuotes.

Fixpoint expansion_loop (s : jstr) (q : Quotes) : bool :=
  match s with
  | [] => false
  | c :: s1 =>
      match quoteStep q c with
      | Some q' => expansion_loop s1 q'
      | None =>
          if inSingle q then expansion_loop s1 q
          else if (c =? ch "$")%N || (c =? backtick)%N then true
          else expansion_loop s1 q
      end
  end.

Definition containsExpansionOrSubstitution (text : jstr) : bool := expansion_loop text noQuotes.

(** [script.replace(/\r?\n/g, ';')]. *)
Fixpoint lineBreaksToSemicolons (s : jstr) : jstr :=
  match s with
  | c :: s1 =>
      if (c =? newline)%N then ch ";" :: lineBreaksToSemicolons s1
      else match s1 with
           | d :: s2 =>
               if (c =? cr)%N && (d =? newline)%N then ch ";" :: lineBreaksToSemicolons s2
               else c :: lineBreaksToSemicolons s1
           | [] => [c]
           end
  | [] => []
  end.

(** [None] stands for [-1]. *)
Definition countTopLevelCommands (script : jstr) : option nat :=
  match splitTopLevelSegments (lineBreaksToSemicolons script) with
  | None => None
  | Some segments => Some (length (List.filter (fun segment => truthy (trim segment)) segments))
  end.

Definition parseShellLcSingleCommandPrefix (command : list jstr) : option (list jstr) :=
  match extractBashCommand command with
  | None => None
  | Some (_, script) =>
      if negb (hasHeredoc script) then None
      else if hasFileRedirect script then None
      else
        let withoutBodies := stripHeredocBodies script in
        if containsExpansionOrSubstitution withoutBodies then None
        else
          let stripped := dropHeredocOperators (length withoutBodies) withoutBodies in
          if negb (bool_decide (countTopLevelCommands stripped = Some 1)) then None
          else
            match indexOfStr script (js "<<") 0 with
            | None => None
            | Some at_ =>
                match trim (take at_ script) with
                | [] => None
                | header =>
                    match splitTopLevelSegments header with
                    | Some [_] =>
                        match parsePlainCommandWords header with
                        | None | Some [] => None
                        | Some (w :: ws) => if isAssignmentPrefix w then None else Some (w :: ws)
                        end
                    | _ => None
                    end
                end
            end
  end.

(** ** Splitting at one unit *)
Lemma startsWith_one s c : startsWith s [c] = is_unit (head s) c.
Proof. destruct s as [|d s]; [done|]. cbn. rewrite N.eqb_sym. by destruct s; rewrite andb_true_r. Qed.

Lemma split_go_unit f c d cur s : split_go (S f) [c] cur (d :: s) =
  if (d =? c)%N then cur :: split_go f [c] [] s else split_go f [c] (cur ++ [d]) s.
Proof. cbn [split_go]. by rewrite startsWith_one. Qed.

Lemma split_none_go c s : forall cur, c ∉ s -> split_go (S (length s)) [c] cur s = [cur ++ s].
Proof.
  induction s as [|d s IH]; intros cur H; [by rewrite app_nil_r|].
  apply not_elem_of_cons in H as [Hd Hs]. cbn [length].
  rewrite split_go_unit, (proj2 (N.eqb_neq d c)), IH by done. by rewrite <- app_assoc.
Qed.

Lemma split_first_go c b a : forall cur, c ∉ a ->
  split_go (S (length (a ++ c :: b))) [c] cur (a ++ c :: b) = (cur ++ a) :: split b [c].
Proof.
  induction a as [|d a IH]; intros cur H; cbn [app length]; rewrite split_go_unit.
  - by rewrite N.eqb_refl, app_nil_r.
  - apply not_elem_of_cons in H as [Hd Hs].
    rewrite (proj2 (N.eqb_neq d c)), IH by done. by rewrite <- app_assoc.
Qed.

Lemma split_none c s : c ∉ s -> split s [c] = [s].
Proof. apply (split_none_go c s []). Qed.

Lemma split_first c a b : c ∉ a -> split (a ++ c :: b) [c] = a :: split b [c].
Proof. apply (split_first_go c b a []). Qed.

Lemma split_go_some f sep : forall cur s, split_go f sep cur s <> [].
Proof. induction f as [|f IH]; intros cur s; [done|]. cbn. destruct (startsWith s sep), s; auto; done. Qed.

Lemma split_some s sep : split s sep <> [].
Proof. apply split_go_some. Qed.

Lemma split_join_lines (c : jchar) l lines : Forall (fun x => c ∉ x) (l :: lines) ->
  split (join [c] (l :: lines)) [c] = l :: lines.
Proof.
  revert l. induction lines as [|l2 lines IH]; intros l H; apply Forall_cons in H as [Hl H]; [by apply split_none|].
  change (join [c] (l :: l2 :: lines)) with (l ++ c :: join [c] (l2 :: lines)). by rewrite split_first, IH.
Qed.
