(* ===== verification/BashGrammar.v ===== *)
(** * The grammar behind the plain-command scanner

    What [BashAst.parseScriptPlainCommands] recognises, stated by one pass over
    the text: [atoms] reads the units as a shell does, [wordOnly] groups them into commands.  The
    two agree on [ordinary] text; the last section shows what happens on the rest. *)
From S2P Require Import Prelude ShellTokenize ShellSplit BashAst.

(** ** Atoms *)
Inductive Connector := AndIf | OrIf | Semi | Pipe.
#[export] Instance Connector_eq_dec : EqDecision Connector.
Proof. solve_decision. Defined.

(** A quoted or bare unit of a word, a quote mark (which makes a word, even an
    empty one), a blank between words, an operator between commands. *)
Inductive Atom := Lit (c : jchar) | Mark | Blank | Op (o : Connector).

Definition isQuoteMark (c : jchar) : bool := ((c =? squote) || (c =? dquote))%N.
Definition isBlank (c : jchar) : bool := ((c =? 32) || (c =? 9))%N.
Definition expands (c : jchar) : bool := ((c =? ch "$") || (c =? backtick))%N.

(** Bare units that are outside the word-only grammar. *)
Definition metachar (c : jchar) : bool :=
  ((c =? ch ">") || (c =? ch "<") || (c =? ch "(") || (c =? ch ")") || (c =? ch "{") || (c =? ch "}")
   || expands c || (c =? newline))%N.

Fixpoint atoms (quote : option jchar) (s : jstr) : option (list Atom) :=
  match s with
  | [] => match quote with None => Some [] | Some _ => None end
  | c :: s1 =>
      match quote with
      | Some d =>
          if (c =? d)%N then cons Mark <$> atoms None s1
          else if (d =? dquote)%N && expands c then None
          else cons (Lit c) <$> atoms quote s1
      | None =>
          if isQuoteMark c then cons Mark <$> atoms (Some c) s1
          else if isBlank c then cons Blank <$> atoms None s1
          else if (c =? ch ";")%N then cons (Op Semi) <$> atoms None s1
          else if (c =? ch "|")%N then
            match s1 with
            | d :: s2 => if (d =? ch "|")%N then cons (Op OrIf) <$> atoms None s2
                         else cons (Op Pipe) <$> atoms None s1
            | [] => Some [Op Pipe]
            end
          else if (c =? ch "&")%N then
            match s1 with
            | d :: s2 => if (d =? ch "&")%N then cons (Op AndIf) <$> atoms None s2 else None
            | [] => None
            end
          else if metachar c then None
          else cons (Lit c) <$> atoms None s1
      end
  end.

(** ** Words and commands *)

(** [cur] is the word being read. *)
Fixpoint wordsOf (cur : option jstr) (l : list Atom) : list jstr :=
  match l with
  | [] => match cur with None => [] | Some w => [w] end
  | Lit c :: l' => wordsOf (Some (default [] cur ++ [c])) l'
  | Mark :: l' => wordsOf (Some (default [] cur)) l'
  | Blank :: l' | Op _ :: l' =>
      match cur with None => wordsOf None l' | Some w => w :: wordsOf None l' end
  end.

(** The atoms between operators: one list more than there are operators. *)
Fixpoint splitOps (l : list Atom) : list (list Atom) :=
  match l with
  | [] => [[]]
  | Op _ :: l' => [] :: splitOps l'
  | a :: l' => match splitOps l' with p :: ps => (a :: p) :: ps | [] => [[a]] end
  end.

(** A command has a word, and does not begin with an assignment. *)
Definition commandOf (l : list Atom) : option (list jstr) :=
  match wordsOf None l with
  | [] => None
  | w :: ws => if isAssignment w then None else Some (w :: ws)
  end.

Definition wordOnly (script : jstr) : option (list (list jstr)) :=
  l ← atoms None script; mapM commandOf (splitOps l).

(** ** Ordinary text

    Outside single quotes there is no backslash; outside quotes there is no
    comment sign, and spaces and tabs are the only white space. *)
Fixpoint tidy (quote : option jchar) (s : jstr) : bool :=
  match s with
  | [] => true
  | c :: s1 =>
      match quote with
      | Some d =>
          if (c =? d)%N then tidy None s1
          else ((d =? squote)%N || negb (c =? backslash)%N) && tidy quote s1
      | None =>
          if isQuoteMark c then tidy (Some c) s1
          else negb (c =? backslash)%N && negb (c =? ch "#")%N && (negb (isWhite c) || isBlank c)
               && tidy None s1
      end
  end.

Definition ordinary (s : jstr) : bool := tidy None s && negb (includes s (js "&&&")).

(** ** The scanner's state and the open quote *)
Definition quotesOf (quote : option jchar) : Quotes :=
  match quote with
  | None => noQuotes
  | Some d => {| inSingle := (d =? squote)%N; inDouble := (d =? dquote)%N; isEscaped := false |}
  end.

Definition okQuote (quote : option jchar) : Prop :=
  match quote with None => True | Some d => d = squote \/ d = dquote end.

(** What the bookkeeping does on tidy text. *)
Definition quoteAfter (quote : option jchar) (c : jchar) : option (option jchar) :=
  match quote with
  | Some d => if (c =? d)%N then Some None else None
  | None => if isQuoteMark c then Some (Some c) else None
  end.

Lemma isQuoteMark_cases c : isQuoteMark c = true -> c = squote \/ c = dquote.
Proof. unfold isQuoteMark. rewrite orb_true_iff, !N.eqb_eq. tauto. Qed.

Lemma okQuote_after quote c quote' : okQuote quote -> quoteAfter quote c = Some quote' -> okQuote quote'.
Proof.
  intros Hq. unfold quoteAfter. destruct quote as [d|].
  - destruct (c =? d)%N; intros [= <-]; exact I.
  - destruct (isQuoteMark c) eqn:Hm; intros [= <-]. apply isQuoteMark_cases, Hm.
Qed.

Lemma tidy_cons quote c s : tidy quote (c :: s) = true ->
  match quoteAfter quote c with
  | Some quote' => tidy quote' s = true
  | None => tidy quote s = true
            /\ match quote with
               | Some d => d = dquote -> c <> backslash
               | None => c <> backslash /\ isWhite c = isBlank c
               end
  end.
Proof.
  cbn [tidy]. unfold quoteAfter. destruct quote as [d|].
  - destruct (c =? d)%N; [done|]. intros H. reflect_bools. split; [done|]. intros ->.
    apply orb_true_iff in H as [H|H]; [by vm_compute in H|]. reflect_bools. by apply N.eqb_neq.
  - destruct (isQuoteMark c); [done|]. intros H. reflect_bools. split; [done|].
    split; [by apply N.eqb_neq|]. destruct (isBlank c) eqn:Hb; [|by destruct (isWhite c)].
    unfold isBlank in Hb. apply orb_true_iff in Hb as [Hb|Hb]; apply N.eqb_eq in Hb as ->; done.
Qed.

Lemma quoteStep_tidy quote c s : okQuote quote -> tidy quote (c :: s) = true ->
  quoteStep (quotesOf quote) c = quotesOf <$> quoteAfter quote c.
Proof.
  intros Hq Ht. apply tidy_cons in Ht. unfold quoteStep, quoteAfter in *. destruct quote as [d|].
  - destruct Hq as [-> | ->]; cbn in *.
    + rewrite andb_false_r, andb_true_r. destruct (c =? squote)%N; cbn; [done|]. by rewrite andb_false_r.
    + rewrite andb_true_r, andb_false_r, andb_true_r. destruct (c =? dquote)%N eqn:E.
      * apply N.eqb_eq in E as ->. done.
      * destruct Ht as [_ Ht]. by rewrite (proj2 (N.eqb_neq c backslash)) by auto.
  - unfold isQuoteMark in *. cbn. destruct (c =? squote)%N eqn:E1; cbn.
    + apply N.eqb_eq in E1 as ->. done.
    + destruct (c =? dquote)%N eqn:E2; cbn in *.
      * apply N.eqb_eq in E2 as ->. done.
      * destruct Ht as (_ & Hb & _). rewrite (proj2 (N.eqb_neq c backslash)) by auto. done.
Qed.

Arguments quoteStep : simpl never.
Arguments quotesOf : simpl never.

(** Induction on the length of a text: an operator takes two units. *)
Lemma jstr_ind (P : jstr -> Prop) :
  (forall s, (forall s', (length s' < length s)%nat -> P s') -> P s) -> forall s, P s.
Proof. intros H s. induction s using (induction_ltof1 _ (@length jchar)). by apply H. Qed.

(** Inside an open quote. *)
Ltac in_quote :=
  match goal with
  | |- context [quotesOf (Some ?d)] =>
      let sq := eval vm_compute in (inSingle (quotesOf (Some d))) in
      let dq := eval vm_compute in (inDouble (quotesOf (Some d))) in
      change (inSingle (quotesOf (Some d))) with sq; change (inDouble (quotesOf (Some d))) with dq;
      let e := eval vm_compute in (d =? dquote)%N in change (d =? dquote)%N with e;
      cbn [negb orb andb]
  end.

(** ** The reject scan is the failure of the atoms *)
Lemma atoms_quoted d c s : atoms (Some d) (c :: s) =
  if (c =? d)%N then cons Mark <$> atoms None s
  else if (d =? dquote)%N && expands c then None else cons (Lit c) <$> atoms (Some d) s.
Proof. done. Qed.

Lemma includes_tail c s sub : includes (c :: s) sub = false -> includes s sub = false.
Proof. cbn [includes]. rewrite orb_false_iff. tauto. Qed.

Definition failed {A} (o : option A) : bool := match o with None => true | Some _ => false end.

Lemma failed_fmap {A B} (f : A -> B) o : failed (f <$> o) = failed o.
Proof. by destruct o. Qed.

(** An ampersand outside quotes starts an operator or is forbidden. *)
Lemma forbidden_ampersand before s1 : okQuote None -> tidy None s1 = true ->
  includes (ch "&" :: s1) (js "&&&") = false -> is_unit before (ch "&") = false ->
  (forall s2, s1 = ch "&" :: s2 -> tidy None s2 = true -> is_unit (head s2) (ch "&") = false ->
     forbidden_loop (Some (ch "&")) s2 noQuotes = failed (atoms None s2)) ->
  (if negb (is_unit (head s1) (ch "&")) && negb (is_unit before (ch "&")) then true
   else forbidden_loop (Some (ch "&")) s1 noQuotes) = failed (atoms None (ch "&" :: s1)).
Proof.
  intros _ Ht Hi Hb IH. rewrite Hb, andb_true_r. destruct s1 as [|d s2]; [done|]. cbn [head is_unit].
  destruct (d =? ch "&")%N eqn:Hd; cbn [negb]; cycle 1.
  { transitivity (failed (if (d =? ch "&")%N then cons (Op AndIf) <$> atoms None s2 else None)); [|done].
    by rewrite Hd. }
  apply N.eqb_eq in Hd as ->.
  assert (is_unit (head s2) (ch "&") = false) as Hh.
  { destruct s2 as [|e s3]; [done|]. cbn [head is_unit]. destruct (e =? ch "&")%N eqn:He; [|done].
    apply N.eqb_eq in He as ->. by destruct s3; vm_compute in Hi. }
  transitivity (if negb (is_unit (head s2) (ch "&")) && false then true
                else forbidden_loop (Some (ch "&")) s2 noQuotes); [done|].
  rewrite andb_false_r, IH by done. transitivity (failed (cons (Op AndIf) <$> atoms None s2)); [|done].
  by rewrite failed_fmap.
Qed.

(** Any other unit outside quotes. *)
Definition forbiddenBare (c : jchar) : bool :=
  (expands c || ((c =? ch ">") || (c =? ch "<"))
   || ((c =? ch "(") || (c =? ch ")") || (c =? ch "{") || (c =? ch "}")))%N.

Lemma failed_pipe s : failed (atoms None (ch "|" :: s)) = failed (atoms None s).
Proof.
  induction s as [|d s IH]; [done|].
  transitivity (failed (if (d =? ch "|")%N then cons (Op OrIf) <$> atoms None s
                        else cons (Op Pipe) <$> atoms None (d :: s))); [done|].
  destruct (d =? ch "|")%N eqn:Hd; rewrite failed_fmap; [|done].
  apply N.eqb_eq in Hd as ->. done.
Qed.

Lemma atoms_bare c s : isQuoteMark c = false -> (c =? ch "&")%N = false -> isWhite c = isBlank c ->
  failed (atoms None (c :: s)) = forbiddenBare c || failed (atoms None s).
Proof.
  intros Hm Ha Hw. destruct (c =? ch "|")%N eqn:Hp; [apply N.eqb_eq in Hp as ->; apply failed_pipe|].
  destruct (isBlank c) eqn:Hb.
  { unfold isBlank in Hb. apply orb_true_iff in Hb as [Hb|Hb]; apply N.eqb_eq in Hb as ->;
    apply (failed_fmap (cons Blank)). }
  destruct (c =? ch ";")%N eqn:Hs.
  { apply N.eqb_eq in Hs as ->. apply (failed_fmap (cons (Op Semi))). }
  assert ((c =? newline)%N = false) as Hn.
  { destruct (c =? newline)%N eqn:E; [apply N.eqb_eq in E as ->; by vm_compute in Hw|done]. }
  cbn [atoms]. rewrite Hm, Hb, Hs, Hp, Ha.
  assert (metachar c = forbiddenBare c) as ->.
  { unfold metachar, forbiddenBare. rewrite Hn. by destruct (expands c); rewrite ?orb_true_r, ?orb_false_r; cbn [orb]; rewrite ?orb_assoc. }
  destruct (forbiddenBare c); [done|]. by rewrite failed_fmap.
Qed.

Lemma forbidden_atoms s : forall before quote, okQuote quote -> tidy quote s = true ->
  includes s (js "&&&") = false ->
  (quote = None -> is_unit before (ch "&") = true -> is_unit (head s) (ch "&") = false) ->
  forbidden_loop before s (quotesOf quote) = failed (atoms quote s).
Proof.
  induction s as [s IH] using jstr_ind. intros before quote Hq Ht Hi Hb.
  destruct s as [|c s1]; [by destruct quote as [d|]; [destruct Hq as [-> | ->]|]|].
  cbn [forbidden_loop]. rewrite (quoteStep_tidy quote c s1 Hq Ht).
  pose proof (tidy_cons _ _ _ Ht) as Hc. pose proof (includes_tail _ _ _ Hi) as Hi1.
  destruct (quoteAfter quote c) as [quote'|] eqn:Hqa; cbn [fmap option_fmap option_map].
  - rewrite IH; [|simpl; lia|by apply (okQuote_after quote c)|done|done|].
    + unfold quoteAfter in Hqa. destruct quote as [d|].
      * rewrite atoms_quoted. destruct (c =? d)%N; simplify_eq. by rewrite failed_fmap.
      * cbn [atoms]. destruct (isQuoteMark c); simplify_eq. by rewrite failed_fmap.
    + intros -> Hu. exfalso. unfold quoteAfter in Hqa. cbn in Hu. apply N.eqb_eq in Hu as ->.
      destruct quote as [d|]; [|done]. destruct Hq as [-> | ->]; done.
  - unfold quoteAfter in Hqa. destruct quote as [d|].
    + rewrite atoms_quoted. destruct Hc as [Hc Hbs]. destruct (c =? d)%N; [done|].
      assert (forbidden_loop (Some c) s1 (quotesOf (Some d)) = failed (atoms (Some d) s1)) as Hrec.
      { apply IH; try done; simpl; lia. }
      destruct Hq as [-> | ->]; in_quote; [by rewrite failed_fmap|]. unfold expands.
      destruct (c =? ch "$")%N; [done|]. destruct (c =? backtick)%N; [done|]. cbn [orb]. by rewrite failed_fmap.
    + specialize (Hb eq_refl). destruct (isQuoteMark c) eqn:Hm; [done|]. destruct Hc as (Hc & Hbs & Hw).
      assert (forall b, (is_unit b (ch "&") = true -> is_unit (head s1) (ch "&") = false) ->
        forbidden_loop b s1 noQuotes = failed (atoms None s1)) as Hrec.
      { intros b Hbb. apply (IH s1 ltac:(simpl; lia) b None); done. }
      change (quotesOf None) with noQuotes. cbn [inSingle inDouble noQuotes].
      destruct (c =? ch "&")%N eqn:Ha.
      { apply N.eqb_eq in Ha as ->. apply forbidden_ampersand; try done.
        - by destruct (is_unit before (ch "&")); [apply Hb|].
        - intros s2 -> Ht2 Hh. apply (IH s2 ltac:(simpl; lia) (Some (ch "&")) None); try done. by do 2 apply includes_tail in Hi. }
      rewrite Hrec by (cbn [is_unit]; congruence). rewrite atoms_bare by done. unfold forbiddenBare, expands.
      repeat case_goal; done.
Qed.

(** ** The segments are the texts between the operators *)
Definition putFirst (c : jchar) (ps : list jstr) : list jstr :=
  match ps with p :: ps' => (c :: p) :: ps' | [] => [[c]] end.

(** The length of the operator at the front, outside quotes. *)
Definition operatorAt (s : jstr) : nat :=
  match s with
  | c :: s1 =>
      if ((c =? ch "&")%N && is_unit (head s1) (ch "&")) || ((c =? ch "|")%N && is_unit (head s1) (ch "|"))
      then 2
      else if (c =? ch "|")%N || (c =? ch ";")%N then 1 else 0
  | [] => 0
  end.

Fixpoint pieces (quote : option jchar) (s : jstr) : list jstr :=
  match s with
  | [] => [[]]
  | c :: s1 =>
      match quoteAfter quote c with
      | Some quote' => putFirst c (pieces quote' s1)
      | None =>
          match quote, operatorAt s with
          | Some _, _ | None, 0 => putFirst c (pieces quote s1)
          | None, 1 => [] :: pieces None s1
          | None, _ => match s1 with _ :: s2 => [] :: pieces None s2 | [] => [[]] end
          end
      end
  end.

Definition prepend (cur : jstr) (ps : list jstr) : list jstr :=
  match ps with p :: ps' => (cur ++ p) :: ps' | [] => [cur] end.

Lemma prepend_putFirst cur c ps : prepend cur (putFirst c ps) = prepend (cur ++ [c]) ps.
Proof. destruct ps; simpl; by rewrite <- ?app_assoc. Qed.

Lemma plainCommands_empty l cur ps : trim cur = [] -> plainCommands (l ++ cur :: ps) = None.
Proof.
  intros Hc. unfold plainCommands. induction l as [|a l IH]; cbn.
  - unfold plainCommand. by rewrite Hc.
  - cbn in IH. rewrite IH. by destruct (plainCommand a).
Qed.

(** [parseScriptPlainCommands] after the reject scan. *)
Definition parseSegments (o : option (list jstr)) : option (list (list jstr)) :=
  match o with None | Some [] => None | Some segments => plainCommands segments end.

Lemma parseSegments_last l cur : parseSegments (lastSegment l cur) = plainCommands (l ++ [cur]).
Proof.
  unfold lastSegment. destruct (trim cur) eqn:Ht.
  - rewrite plainCommands_empty by done. by destruct l.
  - by destruct l.
Qed.

(** An operator ends the segment; [k] is the rest of the loop. *)
Lemma parseSegments_push segs cur ps (k : list jstr -> option (list jstr)) :
  (forall segs', parseSegments (k segs') = plainCommands (segs' ++ prepend [] ps)) -> ps <> [] ->
  parseSegments (match pushSegment segs cur with Some segs' => k segs' | None => None end)
    = plainCommands (segs ++ prepend cur ([] :: ps)).
Proof.
  intros Hk Hps. cbn [prepend]. rewrite app_nil_r. unfold pushSegment. destruct (trim cur) eqn:Htc.
  - symmetry. by apply plainCommands_empty.
  - rewrite Hk, <- app_assoc. by destruct ps.
Qed.

Lemma pieces_cons quote s : pieces quote s <> [].
Proof.
  destruct s as [|c s1]; [done|]. cbn [pieces].
  assert (forall ps, putFirst c ps <> []) as Hp by (by intros []).
  repeat case_goal; by rewrite ?app_nil_r.
Qed.

Lemma segments_pieces s : forall segs cur quote, okQuote quote -> tidy quote s = true ->
  parseSegments (segments_loop s segs cur (quotesOf quote)) = plainCommands (segs ++ prepend cur (pieces quote s)).
Proof.
  induction s as [s IH] using jstr_ind. intros segs cur quote Hq Ht.
  destruct s as [|c s1]; [cbn; rewrite app_nil_r; apply parseSegments_last|].
  cbn [segments_loop pieces]. rewrite (quoteStep_tidy quote c s1 Hq Ht).
  pose proof (tidy_cons _ _ _ Ht) as Hc.
  destruct (quoteAfter quote c) as [quote'|] eqn:Hqa; cbn [fmap option_fmap option_map].
  - rewrite prepend_putFirst. apply IH; [simpl; lia|by apply (okQuote_after quote c)|done].
  - destruct quote as [d|].
    + destruct Hc as [Hc _]. assert (inSingle (quotesOf (Some d)) || inDouble (quotesOf (Some d)) = true) as ->.
      { by destruct Hq as [-> | ->]. }
      rewrite prepend_putFirst. apply IH; [simpl; lia|done|done].
    + destruct Hc as (Hc & _). change (quotesOf None) with noQuotes. cbn [inSingle inDouble noQuotes orb].
      unfold operatorAt. case_goal.
      * destruct s1 as [|d s2]; [exfalso; revert Heqb; cbn [head is_unit]; by rewrite !andb_false_r|].
        assert (tidy None s2 = true) as Hc2.
        { apply tidy_cons in Hc. destruct (quoteAfter None d) eqn:Hd; [|tauto]. exfalso.
          unfold quoteAfter in Hd. destruct (isQuoteMark d) eqn:Hm; [|done]. apply isQuoteMark_cases in Hm.
          revert Heqb. by destruct Hm as [-> | ->]; destruct (c =? ch "&")%N, (c =? ch "|")%N. }
        apply parseSegments_push; [|apply pieces_cons].
        intros segs'. apply (IH s2 ltac:(simpl; lia) _ _ None); done.
      * case_goal; [|rewrite prepend_putFirst; apply (IH s1 ltac:(simpl; lia) _ _ None); done].
        apply parseSegments_push; [|apply pieces_cons].
        intros segs'. apply (IH s1 ltac:(simpl; lia) _ _ None); done.
Qed.

(** ** The words of a segment are the words of its atoms *)
Definition curOf (st : WordState) : option jstr := if hasToken st then Some (current_ st) else None.
Definition okWord (st : WordState) : Prop := hasToken st = false -> current_ st = [].

Definition emptyWords : WordState := {| words_ := []; current_ := []; hasToken := false |}.

Lemma curOf_add c st : okWord st -> curOf (addUnit c st) = Some (default [] (curOf st) ++ [c]).
Proof. unfold okWord, curOf, addUnit. cbn. destruct (hasToken st); intros H; [done|]. by rewrite H. Qed.

Lemma curOf_start st : okWord st -> curOf (startWord st) = Some (default [] (curOf st)).
Proof. unfold okWord, curOf, startWord. cbn. destruct (hasToken st); intros H; [done|]. by rewrite H. Qed.

Lemma words_flush st : words_ (flushWord st) = words_ st ++ wordsOf (curOf st) [].
Proof. unfold flushWord, curOf. cbn. destruct (hasToken st); [done|]. by rewrite app_nil_r. Qed.

(** [p] has the atoms [a], from any state of the words loop. *)
Definition reads (quote : option jchar) (p : jstr) (a : list Atom) : Prop :=
  forall st, okWord st -> words_loop p st (quotesOf quote) = Some (words_ st ++ wordsOf (curOf st) a).

Lemma reads_nil : reads None [] [].
Proof. intros st _. transitivity (Some (words_ (flushWord st))); [done|]. by rewrite words_flush. Qed.

Lemma reads_mark quote c s quote' p a : okQuote quote -> tidy quote (c :: s) = true ->
  quoteAfter quote c = Some quote' -> reads quote' p a -> reads quote (c :: p) (Mark :: a).
Proof.
  intros Hq Ht Ha Hr st Hs. cbn [words_loop]. rewrite (quoteStep_tidy quote c s Hq Ht), Ha.
  cbn [fmap option_fmap option_map]. assert (isEscaped (quotesOf quote) = false) as -> by (by destruct quote).
  rewrite Hr by done. by rewrite curOf_start.
Qed.

Lemma reads_lit quote c s p a : okQuote quote -> tidy quote (c :: s) = true ->
  quoteAfter quote c = None -> (quote = None -> isBlank c = false) -> reads quote p a ->
  reads quote (c :: p) (Lit c :: a).
Proof.
  intros Hq Ht Ha Hb Hr st Hs. cbn [words_loop]. rewrite (quoteStep_tidy quote c s Hq Ht), Ha.
  cbn [fmap option_fmap option_map].
  assert (negb (inSingle (quotesOf quote)) && negb (inDouble (quotesOf quote)) && isWhitespace c = false) as ->.
  { apply tidy_cons in Ht. rewrite Ha in Ht. destruct quote as [d|]; [by destruct Hq as [-> | ->]|].
    destruct Ht as (_ & _ & Hw). rewrite Hb in Hw by done. cbn. unfold isWhite in Hw.
    unfold isWhitespace. reflect_bools. by repeat (apply orb_false_iff; split). }
  rewrite Hr by done. by rewrite curOf_add.
Qed.

Lemma reads_blank c s p a : tidy None (c :: s) = true -> isBlank c = true -> reads None p a ->
  reads None (c :: p) (Blank :: a).
Proof.
  intros Ht Hb Hr st Hs. assert (c = 32%N \/ c = 9%N) as Hc.
  { unfold isBlank in Hb. by rewrite orb_true_iff, !N.eqb_eq in Hb. }
  transitivity (words_loop p (flushWord st) (quotesOf None)); [by destruct Hc as [-> | ->]|].
  rewrite Hr by done. rewrite words_flush, <- app_assoc. cbn. by destruct (curOf st).
Qed.

Definition readsWhole (p : jstr) (a : list Atom) : Prop := parsePlainCommandWords p = Some (wordsOf None a).

(** The first segment starts inside [quote], the others outside. *)
Definition readsAll (quote : option jchar) (ps : list jstr) (l : list (list Atom)) : Prop :=
  match ps, l with
  | p :: ps', a :: l' => reads quote p a /\ Forall2 readsWhole ps' l'
  | _, _ => False
  end.

Lemma readsAll_op quote ps l : readsAll None ps l -> quote = None -> readsAll quote ([] :: ps) ([] :: l).
Proof.
  intros H ->. split; [apply reads_nil|]. destruct ps as [|p ps], l as [|a l]; try done.
  destruct H as [Hr Hf]. constructor; [|done]. apply (Hr emptyWords). done.
Qed.

Lemma readsAll_first quote quote' c x ps l : (forall l', splitOps (x :: l') = match splitOps l' with
    p :: ps => (x :: p) :: ps | [] => [[x]] end) ->
  (forall p a, reads quote' p a -> reads quote (c :: p) (x :: a)) ->
  readsAll quote' ps (splitOps l) -> readsAll quote (putFirst c ps) (splitOps (x :: l)).
Proof.
  intros Hx Hr H. rewrite Hx. destruct ps as [|p ps]; [done|]. destruct (splitOps l) as [|a l']; [done|].
  destruct H as [H Hf]. split; [by apply Hr|done].
Qed.

(** The atom of a bare unit, by what [operatorAt] sees. *)
Lemma atoms_operator c s1 l : isQuoteMark c = false -> isWhite c = isBlank c -> atoms None (c :: s1) = Some l ->
  match operatorAt (c :: s1) with
  | 0 => exists l1, atoms None s1 = Some l1 /\ l = (if isBlank c then Blank else Lit c) :: l1
  | 1 => exists o l1, atoms None s1 = Some l1 /\ l = Op o :: l1
  | _ => exists o l1 d s2, s1 = d :: s2 /\ isQuoteMark d = false /\ atoms None s2 = Some l1 /\ l = Op o :: l1
  end.
Proof.
  intros Hm Hw Hl. cbn [atoms] in Hl. rewrite Hm in Hl. unfold operatorAt. destruct (isBlank c) eqn:Hb.
  { apply fmap_Some in Hl as (l1 & Hl1 & ->). unfold isBlank in Hb.
    apply orb_true_iff in Hb as [Hb|Hb]; apply N.eqb_eq in Hb as ->;
    exact (ex_intro _ l1 (conj Hl1 eq_refl)). }
  destruct (c =? ch ";")%N eqn:Hs.
  { apply N.eqb_eq in Hs as ->. apply fmap_Some in Hl as (l1 & Hl1 & ->).
    exact (ex_intro _ Semi (ex_intro _ l1 (conj Hl1 eq_refl))). }
  destruct (c =? ch "|")%N eqn:Hp.
  { apply N.eqb_eq in Hp as ->. destruct s1 as [|d s2].
    { injection Hl as <-. exact (ex_intro _ Pipe (ex_intro _ [] (conj eq_refl eq_refl))). }
    destruct (d =? ch "|")%N eqn:Hd; apply fmap_Some in Hl as (l1 & Hl1 & ->); cbn [head is_unit].
    - apply N.eqb_eq in Hd as ->. exists OrIf, l1, (ch "|"), s2. done.
    - rewrite Hd. exact (ex_intro _ Pipe (ex_intro _ l1 (conj Hl1 eq_refl))). }
  destruct (c =? ch "&")%N eqn:Ha.
  { apply N.eqb_eq in Ha as ->. destruct s1 as [|d s2]; [done|]. destruct (d =? ch "&")%N eqn:Hd; [|done].
    apply fmap_Some in Hl as (l1 & Hl1 & ->). apply N.eqb_eq in Hd as ->. by exists AndIf, l1, (ch "&"), s2. }
  destruct (metachar c); [done|]. apply fmap_Some in Hl as (l1 & Hl1 & ->).
  exact (ex_intro _ l1 (conj Hl1 eq_refl)).
Qed.

Lemma pieces_atoms s : forall quote l, okQuote quote -> tidy quote s = true -> atoms quote s = Some l ->
  readsAll quote (pieces quote s) (splitOps l).
Proof.
  induction s as [s IH] using jstr_ind. intros quote l Hq Ht Hl.
  destruct s as [|c s1].
  { destruct quote; [done|]. simplify_eq/=. split; [apply reads_nil|done]. }
  pose proof (tidy_cons _ _ _ Ht) as Hc. cbn [pieces].
  destruct (quoteAfter quote c) as [quote'|] eqn:Hqa.
  - assert (exists l1, atoms quote' s1 = Some l1 /\ l = Mark :: l1) as (l1 & Hl1 & ->).
    { unfold quoteAfter in Hqa. destruct quote as [d|]; cbn [atoms] in Hl.
      - destruct (c =? d)%N; simplify_eq. apply fmap_Some in Hl as (l1 & ? & ->). eauto.
      - destruct (isQuoteMark c); simplify_eq. apply fmap_Some in Hl as (l1 & ? & ->). eauto. }
    apply (readsAll_first _ quote'); [done| |apply IH; try done; [simpl; lia|by eapply okQuote_after]].
    intros p a. by apply (reads_mark quote c s1).
  - destruct quote as [d|].
    + assert (exists l1, atoms (Some d) s1 = Some l1 /\ l = Lit c :: l1) as (l1 & Hl1 & ->).
      { unfold quoteAfter in Hqa. rewrite atoms_quoted in Hl. destruct (c =? d)%N; [done|].
        destruct (_ && _); [done|]. apply fmap_Some in Hl as (l1 & ? & ->). eauto. }
      apply (readsAll_first _ (Some d)); [done| |apply IH; try done; [simpl; lia|tauto]].
      intros p a. by apply (reads_lit (Some d) c s1).
    + assert (isQuoteMark c = false) as Hm by (unfold quoteAfter in Hqa; by destruct (isQuoteMark c)).
      destruct Hc as (Hc & _ & Hw). pose proof (atoms_operator c s1 l Hm Hw Hl) as Ho.
      destruct (operatorAt (c :: s1)) as [|[|n]].
      * destruct Ho as (l1 & Hl1 & ->). apply (readsAll_first _ None); [by destruct (isBlank c)| |].
        { intros p a. destruct (isBlank c) eqn:Hb; [by apply (reads_blank c s1)|by apply (reads_lit None c s1)]. }
        apply IH; try done; simpl; lia.
      * destruct Ho as (o & l1 & Hl1 & ->). apply readsAll_op; [|done]. apply IH; try done; simpl; lia.
      * destruct Ho as (o & l1 & d & s2 & -> & Hd & Hl1 & ->).
        apply readsAll_op; [|done]. apply IH; try done; [simpl; lia|].
        apply tidy_cons in Hc. unfold quoteAfter in Hc. rewrite Hd in Hc. tauto.
Qed.

(** ** Trimming a segment keeps its words *)
Definition white (s : jstr) : Prop := Forall (fun c => isWhite c = true) s.

Lemma white_not_mark c : isWhite c = true -> isQuoteMark c = false.
Proof. destruct (isQuoteMark c) eqn:Hm; [|done]. apply isQuoteMark_cases in Hm as [-> | ->]; done. Qed.

Lemma white_bare c s : isWhite c = true -> tidy None (c :: s) = true -> (c = 32 \/ c = 9)%N.
Proof.
  intros Hw Ht. apply tidy_cons in Ht. unfold quoteAfter in Ht. rewrite (white_not_mark c Hw) in Ht.
  destruct Ht as (_ & _ & Hb). rewrite Hw in Hb. unfold isBlank in Hb. symmetry in Hb.
  by rewrite orb_true_iff, !N.eqb_eq in Hb.
Qed.

Lemma flushWord_twice st : words_ (flushWord (flushWord st)) = words_ (flushWord st).
Proof. done. Qed.

Lemma words_white s : forall st quote, okQuote quote -> white s -> tidy quote s = true ->
  words_loop s st (quotesOf quote) = words_loop [] st (quotesOf quote).
Proof.
  induction s as [|c s IH]; intros st quote Hq Hw Ht; [done|]. apply Forall_cons in Hw as [Hc Hw].
  pose proof (tidy_cons _ _ _ Ht) as H. pose proof (quoteStep_tidy quote c s Hq Ht) as Hs.
  destruct quote as [d|].
  - unfold quoteAfter in *. assert ((c =? d)%N = false) as Hd.
    { apply N.eqb_neq. intros ->. apply white_not_mark in Hc. by destruct Hq as [-> | ->]. }
    rewrite Hd in *. cbn [words_loop]. rewrite Hs. cbn [fmap option_fmap option_map].
    assert (negb (inSingle (quotesOf (Some d))) && negb (inDouble (quotesOf (Some d))) = false) as ->.
    { by destruct Hq as [-> | ->]. }
    cbn [andb]. rewrite IH by tauto. by destruct Hq as [-> | ->].
  - destruct (white_bare c s Hc Ht) as [-> | ->]; transitivity (words_loop s (flushWord st) (quotesOf None));
      try done; rewrite IH by tauto; done.
Qed.

Lemma words_trailing p : forall w st quote, okQuote quote -> white w -> tidy quote (p ++ w) = true ->
  words_loop (p ++ w) st (quotesOf quote) = words_loop p st (quotesOf quote).
Proof.
  induction p as [|c p IH]; intros w st quote Hq Hw Ht; [by apply words_white|]. cbn [app] in *.
  pose proof (tidy_cons _ _ _ Ht) as H. pose proof (quoteStep_tidy quote c (p ++ w) Hq Ht) as Hs.
  cbn [words_loop]. rewrite Hs. destruct (quoteAfter quote c) as [quote'|] eqn:Ha; cbn [fmap option_fmap option_map].
  - apply IH; [by eapply okQuote_after|done|done].
  - case_goal; apply IH; tauto.
Qed.

Lemma words_leading w : forall p st, white w -> tidy None (w ++ p) = true -> hasToken st = false -> current_ st = [] ->
  words_loop (w ++ p) st noQuotes = words_loop p st noQuotes.
Proof.
  induction w as [|c w IH]; intros p st Hw Ht Hf Hn; [done|]. apply Forall_cons in Hw as [Hc Hw]. cbn [app] in *.
  assert (flushWord st = st) as Hfl by (unfold flushWord; rewrite Hf, <- Hn, <- Hf; by destruct st).
  pose proof (tidy_cons _ _ _ Ht) as H. unfold quoteAfter in H. rewrite (white_not_mark c Hc) in H.
  rewrite <- (IH p st) by tauto. rewrite <- Hfl at 2. by destruct (white_bare c _ Hc Ht) as [-> | ->].
Qed.

Lemma dropWhile_white s : exists w, s = w ++ dropWhile isWhite s /\ white w.
Proof.
  induction s as [|c s IH]; [by exists []; split; [|constructor]|]. cbn. destruct (isWhite c) eqn:Hc; [|by exists []; split; [|constructor]].
  destruct IH as (w & Hs & Hw). exists (c :: w). split; [cbn; by f_equal|by constructor].
Qed.

Lemma trim_white s : exists w v, s = w ++ trim s ++ v /\ white w /\ white v.
Proof.
  destruct (dropWhile_white s) as (w & Hs & Hw). unfold trim, trimEnd. set (m := dropWhile isWhite s) in *.
  destruct (dropWhile_white (rev m)) as (v & Hm & Hv). exists w, (rev v). split; [|split; [done|]].
  - rewrite Hs at 1. f_equal. rewrite <- rev_app_distr, <- Hm. by rewrite rev_involutive.
  - by apply Forall_rev.
Qed.

Lemma tidy_app_l p s : forall quote, tidy quote (p ++ s) = true -> tidy quote p = true.
Proof.
  induction p as [|c p IH]; intros quote H; [done|]. cbn [app tidy] in *. destruct quote as [d|].
  - case_goal; [by apply IH|]. reflect_bools. by rewrite H, (IH (Some d)).
  - case_goal; [by apply IH|]. reflect_bools. by rewrite H, H2, H1, (IH None).
Qed.

Lemma words_trim s : tidy None s = true -> parsePlainCommandWords (trim s) = parsePlainCommandWords s.
Proof.
  intros Ht. destruct (trim_white s) as (w & v & Hs & Hw & Hv). unfold parsePlainCommandWords.
  rewrite Hs in Ht. rewrite Hs at 2. rewrite words_leading by done.
  assert (tidy None (trim s ++ v) = true) as Ht2.
  { clear Hs. induction Hw as [|c w Hc Hw IH]; [done|]. apply IH. cbn [app] in Ht. apply tidy_cons in Ht.
    unfold quoteAfter in Ht. rewrite (white_not_mark c Hc) in Ht. tauto. }
  symmetry. apply (words_trailing _ _ _ None); done.
Qed.

(** ** Segments of tidy text are tidy *)
Definition tidyAll (quote : option jchar) (ps : list jstr) : Prop :=
  match ps with p :: ps' => tidy quote p = true /\ Forall (fun p => tidy None p = true) ps' | [] => False end.

Lemma tidyAll_first quote quote' c s ps : tidy quote (c :: s) = true ->
  match quoteAfter quote c with Some q => q = quote' | None => quote = quote' end ->
  tidyAll quote' ps -> tidyAll quote (putFirst c ps).
Proof.
  intros Ht Hq H. destruct ps as [|p ps]; [done|]. destruct H as [Hp Hps]. split; [|done].
  cbn [tidy] in *. unfold quoteAfter in Hq. destruct quote as [d|].
  - destruct (c =? d)%N; subst; [done|]. reflect_bools. by rewrite H, Hp.
  - destruct (isQuoteMark c); subst; [done|]. reflect_bools. by rewrite H, H2, H1, Hp.
Qed.

Lemma tidyAll_op ps : tidyAll None ps -> tidyAll None ([] :: ps).
Proof. destruct ps; [done|]. intros [H1 H2]. split; [done|]. by constructor. Qed.

Lemma pieces_tidy s : forall quote, tidy quote s = true -> tidyAll quote (pieces quote s).
Proof.
  induction s as [s IH] using jstr_ind. intros quote Ht. destruct s as [|c s1]; [by repeat constructor|].
  pose proof (tidy_cons _ _ _ Ht) as Hc. cbn [pieces].
  destruct (quoteAfter quote c) as [quote'|] eqn:Ha.
  - apply (tidyAll_first _ quote' _ s1); [done|by rewrite Ha|]. apply IH; [simpl; lia|done].
  - assert (tidyAll quote (putFirst c (pieces quote s1))) as Hp.
    { apply (tidyAll_first _ quote _ s1); [done|by rewrite Ha|]. apply IH; [simpl; lia|tauto]. }
    destruct quote as [d|]; [done|]. destruct (operatorAt (c :: s1)) as [|[|n]] eqn:Ho; [done| |].
    + apply tidyAll_op, IH; [simpl; lia|tauto].
    + destruct s1 as [|d s2]; [by repeat constructor|]. apply tidyAll_op, IH; [simpl; lia|].
      destruct Hc as [Hc _]. apply tidy_cons in Hc. unfold quoteAfter in Hc.
      destruct (isQuoteMark d) eqn:Hm; [|tauto]. exfalso. revert Ho. unfold operatorAt. cbn [head is_unit].
      apply isQuoteMark_cases in Hm as [-> | ->]; by destruct (c =? ch "&")%N, (c =? ch "|")%N, (c =? ch ";")%N.
Qed.

Lemma plainCommand_reads p a : tidy None p = true -> readsWhole p a -> plainCommand p = commandOf a.
Proof.
  intros Ht Hr. unfold plainCommand, commandOf. pose proof (words_trim p Ht) as Hw. rewrite Hr in Hw.
  destruct (trim p) eqn:Hp; [|by rewrite Hw; destruct (wordsOf None a)].
  injection Hw as Hw. by rewrite <- Hw.
Qed.

Lemma plainCommands_reads ps l : Forall (fun p => tidy None p = true) ps -> Forall2 readsWhole ps l ->
  plainCommands ps = mapM commandOf l.
Proof.
  intros Ht Hf. unfold plainCommands. induction Hf as [|p a ps l Hr Hf IH]; [done|].
  apply Forall_cons in Ht as [Hp Ht]. cbn. by rewrite (plainCommand_reads p a), IH.
Qed.

Lemma plain_commands_agree (script : jstr) :
  ordinary script = true -> parseScriptPlainCommands script = wordOnly script.
Proof.
  intros H. unfold ordinary in H. reflect_bools. unfold parseScriptPlainCommands, wordOnly.
  change (containsForbiddenConstruct script) with (forbidden_loop None script (quotesOf None)).
  rewrite forbidden_atoms by done. destruct (atoms None script) as [l|] eqn:Hl; [|done]. cbn.
  transitivity (plainCommands (pieces None script)).
  - etransitivity; [apply (segments_pieces script [] [] None); done|]. cbn.
    by destruct (pieces None script) eqn:E; [destruct (pieces_cons None script)|].
  - pose proof (pieces_atoms script None l I ltac:(done) Hl) as Hr.
    pose proof (pieces_tidy script None ltac:(done)) as Ht.
    destruct (pieces None script) as [|p ps], (splitOps l) as [|a l']; try done.
    destruct Hr as [Hr Hf], Ht as [Hp Hps]. apply plainCommands_reads; [by constructor|].
    constructor; [|done]. by apply (Hr emptyWords).
Qed.

(** C21: on ordinary text the scanner (a reject scan, a splitter and a tokeniser)
    is the grammar: it answers the commands of the script, word by word, and
    answers nothing exactly when the script is not a word-only sequence. *)
Theorem plain_commands_match_the_grammar (script : jstr) :
  ordinary script = true -> parseScriptPlainCommands script = wordOnly script.
Proof. apply plain_commands_agree. Qed.

Definition sampleScript : jstr := js "git log -- 'a b' && cat x'y' | wc -l; ls ''".

Lemma plain_commands_match_the_grammar_witness :
  ordinary sampleScript = true /\ parseScriptPlainCommands sampleScript = wordOnly sampleScript
  /\ wordOnly sampleScript = Some [[js "git"; js "log"; js "--"; js "a b"]; [js "cat"; js "xy"];
                                   [js "wc"; js "-l"]; [js "ls"; []]].
Proof.
  split; [by vm_compute|]. split; [|by vm_compute].
  apply (plain_commands_match_the_grammar sampleScript). by vm_compute.
Defined.

(** ** Outside ordinary text

    A line break separates commands for a shell; the scanner takes it for a
    blank, and the second line for arguments of the first. *)
Lemma line_break_joins_commands :
  parseScriptPlainCommands (js "ls" ++ newline :: js "rm -rf x") = Some [[js "ls"; js "rm"; js "-rf"; js "x"]].
Proof. by vm_compute. Qed.

(** After an escaped ampersand a second one puts the command in the background;
    the scanner looks one unit back, sees an ampersand, and takes the pair for [&&]
    in the reject scan and for a word in the splitter. *)
Lemma escaped_ampersand_joins_commands :
  parseScriptPlainCommands (js "ls \&& rm x") = Some [[js "ls"; js "&&"; js "rm"; js "x"]].
Proof. by vm_compute. Qed.

(** Inside double quotes a shell keeps a backslash before a letter. *)
Lemma quoted_backslash_is_lost :
  parseScriptPlainCommands (js "grep " ++ [dquote; backslash] ++ js "d" ++ [dquote]) = Some [[js "grep"; js "d"]].
Proof. by vm_compute. Qed.
