(* ===== verification/SafeCommand.v ===== *)
(** * Known read-only commands

    [packages/agent-modules/permission/src/tools/safe-command.ts]: the commands
    that are approved without asking.  The second part of the file states what
    an accepted command line looks like, without the control flow of the code. *)
From S2P Require Import Prelude ShellTokenize ShellSplit BashAst BashGrammar.

(** ** Executable names *)
Definition executableNameLookupKey (raw : jstr) : option jstr :=
  match basename raw with [] => None | name => Some name end.

Definition ALWAYS_SAFE_COMMANDS : list jstr :=
  [js "cat"; js "cd"; js "cut"; js "echo"; js "expr"; js "false"; js "grep"; js "head"; js "id";
   js "ls"; js "nl"; js "paste"; js "pwd"; js "rev"; js "seq"; js "stat"; js "tail"; js "tr";
   js "true"; js "uname"; js "uniq"; js "wc"; js "which"; js "whoami"].

(** ** Commands with conditions *)
Definition isSafeBase64 (command : list jstr) : bool :=
  negb (existsb (fun arg =>
          mem arg [js "-o"; js "--output"] || startsWith arg (js "--output=")
          || (startsWith arg (js "-o") && negb (str_eqb arg (js "-o"))))
        (tail command)).

Definition UNSAFE_FIND_OPTIONS : list jstr :=
  [js "-exec"; js "-execdir"; js "-ok"; js "-okdir"; js "-delete"; js "-fls"; js "-fprint";
   js "-fprint0"; js "-fprintf"].

Definition isSafeFind (command : list jstr) : bool :=
  negb (existsb (fun arg => mem arg UNSAFE_FIND_OPTIONS) command).

Definition isSafeRipgrep (command : list jstr) : bool :=
  negb (existsb (fun arg =>
          mem arg [js "--search-zip"; js "-z"]
          || existsb (fun opt => str_eqb arg opt || startsWith arg (opt ++ js "="))
               [js "--pre"; js "--hostname-bin"])
        command).

(** [s.length > 0 && /^[0-9]+$/.test(s)]. *)
Definition isNum (s : jstr) : bool := match s with [] => false | _ => forallb isDigit s end.

Definition isValidSedNArg (arg : option jstr) : bool :=
  match arg with
  | None => false
  | Some a =>
      if negb (endsWith a (js "p")) then false
      else match split (take (length a - 1) a) (js ",") with
           | [p0] => isNum p0
           | [p0; p1] => isNum p0 && isNum p1
           | _ => false
           end
  end.

Definition isSafeSed (command : list jstr) : bool :=
  (length command <=? 4)%nat && bool_decide (command !! 1 = Some (js "-n")) && isValidSedNArg (command !! 2).

(** ** git *)
Definition GIT_READ_ONLY_SUBCOMMANDS : list jstr :=
  [js "status"; js "log"; js "diff"; js "show"; js "branch"].

Inductive GitOptionPattern :=
  | exact (option : jstr)
  | shortInline (option : jstr)
  | prefix (pre : jstr).
#[export] Instance GitOptionPattern_eq_dec : EqDecision GitOptionPattern.
Proof. solve_decision. Defined.

Definition UNSAFE_GIT_GLOBAL_OPTIONS : list GitOptionPattern :=
  [exact (js "-C"); shortInline (js "-C"); exact (js "-c"); shortInline (js "-c"); exact (js "-p");
   exact (js "--config-env"); prefix (js "--config-env=");
   exact (js "--exec-path"); prefix (js "--exec-path=");
   exact (js "--git-dir"); prefix (js "--git-dir=");
   exact (js "--namespace"); prefix (js "--namespace="); exact (js "--paginate");
   exact (js "--super-prefix"); prefix (js "--super-prefix=");
   exact (js "--work-tree"); prefix (js "--work-tree=")].

Definition UNSAFE_GIT_SUBCOMMAND_OPTIONS : list GitOptionPattern :=
  [exact (js "--output"); prefix (js "--output="); exact (js "--ext-diff"); exact (js "--textconv");
   exact (js "--exec"); prefix (js "--exec=")].

Definition gitOptionMatches (arg : jstr) (pattern : GitOptionPattern) : bool :=
  match pattern with
  | exact option => str_eqb arg option
  | shortInline option => startsWith arg option && (length option <? length arg)%nat
  | prefix pre => startsWith arg pre
  end.

Definition gitMatchesAny (arg : jstr) (patterns : list GitOptionPattern) : bool :=
  existsb (gitOptionMatches arg) patterns.

Definition isGitGlobalOptionWithValue (arg : jstr) : bool :=
  mem arg [js "-C"; js "-c"; js "--config-env"; js "--exec-path"; js "--git-dir"; js "--namespace";
           js "--super-prefix"; js "--work-tree"].

Definition isGitGlobalOptionWithInlineValue (arg : jstr) : bool :=
  startsWith arg (js "--config-env=") || startsWith arg (js "--exec-path=")
  || startsWith arg (js "--git-dir=") || startsWith arg (js "--namespace=")
  || startsWith arg (js "--super-prefix=") || startsWith arg (js "--work-tree=")
  || ((startsWith arg (js "-C") || startsWith arg (js "-c")) && (2 <? length arg)%nat).

(** The loop from index [idx] on the arguments left. *)
Fixpoint subcommand_loop (args : list jstr) (idx : nat) (skipNext : bool) (subcommands : list jstr) :
    option (nat * jstr) :=
  match args with
  | [] => None
  | arg :: rest =>
      if skipNext then subcommand_loop rest (S idx) false subcommands
      else if isGitGlobalOptionWithInlineValue arg then subcommand_loop rest (S idx) false subcommands
      else if isGitGlobalOptionWithValue arg then subcommand_loop rest (S idx) true subcommands
      else if str_eqb arg (js "--") || startsWith arg (js "-")
      then subcommand_loop rest (S idx) false subcommands
      else if mem arg subcommands then Some (idx, arg)
      else None
  end.

Definition findGitSubcommand (command subcommands : list jstr) : option (nat * jstr) :=
  match command with
  | [] => None
  | cmd0 :: args =>
      if bool_decide (executableNameLookupKey cmd0 = Some (js "git"))
      then subcommand_loop args 1 false subcommands
      else None
  end.

Definition gitSubcommandArgsAreReadOnly (args : list jstr) : bool :=
  negb (existsb (fun arg => gitMatchesAny arg UNSAFE_GIT_SUBCOMMAND_OPTIONS) args).

Definition branchFlags : list jstr :=
  [js "--list"; js "-l"; js "--show-current"; js "-a"; js "--all"; js "-r"; js "--remotes"; js "-v";
   js "-vv"; js "--verbose"].

Fixpoint branch_loop (branchArgs : list jstr) (sawReadOnlyFlag : bool) : bool :=
  match branchArgs with
  | [] => sawReadOnlyFlag
  | arg :: rest =>
      if mem arg branchFlags then branch_loop rest true
      else if startsWith arg (js "--format=") then branch_loop rest true
      else false
  end.

Definition gitBranchIsReadOnly (branchArgs : list jstr) : bool :=
  match branchArgs with [] => true | _ => branch_loop branchArgs false end.

Definition isSafeGitCommand (command : list jstr) : bool :=
  match findGitSubcommand command GIT_READ_ONLY_SUBCOMMANDS with
  | None => false
  | Some (index, subcommand) =>
      let globalArgs := drop 1 (take index command) in
      if existsb (fun arg => gitMatchesAny arg UNSAFE_GIT_GLOBAL_OPTIONS) globalArgs then false
      else
        let subArgs := drop (S index) command in
        if mem subcommand [js "status"; js "log"; js "diff"; js "show"]
        then gitSubcommandArgsAreReadOnly subArgs
        else if str_eqb subcommand (js "branch")
        then gitSubcommandArgsAreReadOnly subArgs && gitBranchIsReadOnly subArgs
        else false
  end.

(** ** The two entry points *)
Definition isSafeToCallWithExec (command : list jstr) : bool :=
  match command with
  | [] => false
  | cmd0 :: _ =>
      match executableNameLookupKey cmd0 with
      | None => false
      | Some key =>
          if mem key ALWAYS_SAFE_COMMANDS then true
          else if str_eqb key (js "base64") then isSafeBase64 command
          else if str_eqb key (js "find") then isSafeFind command
          else if str_eqb key (js "rg") then isSafeRipgrep command
          else if str_eqb key (js "git") then isSafeGitCommand command
          else if str_eqb key (js "sed") then isSafeSed command
          else false
      end
  end.

Definition isKnownSafeCommand (command : list jstr) : bool :=
  let normalized := map (fun token => if str_eqb token (js "zsh") then js "bash" else token) command in
  if isSafeToCallWithExec normalized then true
  else match parseShellLcPlainCommands normalized with
       | None | Some [] => false
       | Some allCommands => forallb isSafeToCallWithExec allCommands
       end.

(** ** PowerShell *)
Definition POWERSHELL_READ_ONLY_COMMANDS : list jstr :=
  [js "get-childitem"; js "get-command"; js "get-content"; js "get-help"; js "get-item";
   js "get-location"; js "get-member"; js "get-variable"; js "measure-object"; js "resolve-path";
   js "select-string"; js "test-path"].

(** The loop of [tokenizeSimplePowerShell]. *)
Fixpoint powershell_loop (s : jstr) (tokens : list jstr) (token : jstr) (quote : option jchar) :
    option (list jstr) :=
  let flushed := match token with [] => tokens | _ => tokens ++ [token] end in
  match s with
  | [] => match quote with Some _ => None | None => Some flushed end
  | c :: s1 =>
      if (c =? cr)%N || (c =? newline)%N then None
      else match quote with
           | Some q =>
               if (c =? q)%N then powershell_loop s1 tokens token None
               else if (q =? dquote)%N && ((c =? ch "$")%N || (c =? backtick)%N) then None
               else powershell_loop s1 tokens (token ++ [c]) quote
           | None =>
               if (c =? squote)%N || (c =? dquote)%N then powershell_loop s1 tokens token (Some c)
               else if isWhite c then powershell_loop s1 flushed [] None
               else if bool_decide (c ∈ js ";|><&{}()=`$") then None
               else powershell_loop s1 tokens (token ++ [c]) None
           end
  end.

Definition tokenizeSimplePowerShell (command : jstr) : option (list jstr) :=
  powershell_loop command [] [] None.

Section PowerShell.
(** [String.prototype.toLowerCase]: the Unicode tables. *)
Context (toLowerCase : jstr -> jstr).

Definition isKnownSafePowerShellCommand (command : jstr) : bool :=
  match tokenizeSimplePowerShell command with
  | None | Some [] => false
  | Some (first :: rest) =>
      let executable := toLowerCase first in
      if mem executable POWERSHELL_READ_ONLY_COMMANDS then true
      else
        let nativeExecutable :=
          if endsWith executable (js ".exe") then take (length executable - 4) executable else executable in
        if negb (str_eqb nativeExecutable (js "git")) && negb (str_eqb nativeExecutable (js "rg")) then false
        else isSafeToCallWithExec (nativeExecutable :: rest)
  end.
End PowerShell.

(** ** What is approved *)

(** An option before the subcommand: a dash, and none of the options that run
    programs, move git elsewhere or page. *)
Definition GlobalOption (a : jstr) : Prop :=
  startsWith a (js "-") = true /\ gitMatchesAny a UNSAFE_GIT_GLOBAL_OPTIONS = false.

Definition SubcommandOption (a : jstr) : Prop := gitMatchesAny a UNSAFE_GIT_SUBCOMMAND_OPTIONS = false.
Definition BranchFlag (a : jstr) : Prop := a ∈ branchFlags \/ startsWith a (js "--format=") = true.

(** [git options subcommand arguments]. *)
Definition ReadOnlyGit (args : list jstr) : Prop :=
  exists globals sub rest, args = globals ++ sub :: rest
    /\ Forall GlobalOption globals /\ sub ∈ GIT_READ_ONLY_SUBCOMMANDS /\ Forall SubcommandOption rest
    /\ (sub = js "branch" -> Forall BranchFlag rest).

(** [/^(\d+,)?\d+p$/]. *)
Definition SedRange (a : jstr) : Prop :=
  exists m, isNum m = true /\ (a = m ++ js "p" \/ exists n, isNum n = true /\ a = n ++ js "," ++ m ++ js "p").

Inductive ReadOnly (cmd0 : jstr) : list jstr -> Prop :=
  | ro_always key args : executableNameLookupKey cmd0 = Some key -> key ∈ ALWAYS_SAFE_COMMANDS -> ReadOnly cmd0 args
  | ro_base64 args : executableNameLookupKey cmd0 = Some (js "base64") ->
      Forall (fun a => startsWith a (js "-o") = false /\ a <> js "--output" /\ startsWith a (js "--output=") = false) args ->
      ReadOnly cmd0 args
  | ro_find args : executableNameLookupKey cmd0 = Some (js "find") ->
      Forall (fun a => a ∉ UNSAFE_FIND_OPTIONS) (cmd0 :: args) -> ReadOnly cmd0 args
  | ro_rg args : executableNameLookupKey cmd0 = Some (js "rg") ->
      Forall (fun a => a ∉ [js "--search-zip"; js "-z"; js "--pre"; js "--hostname-bin"]
                       /\ startsWith a (js "--pre=") = false /\ startsWith a (js "--hostname-bin=") = false)
        (cmd0 :: args) -> ReadOnly cmd0 args
  | ro_git args : executableNameLookupKey cmd0 = Some (js "git") -> ReadOnlyGit args -> ReadOnly cmd0 args
  | ro_sed range rest : executableNameLookupKey cmd0 = Some (js "sed") -> SedRange range -> (length rest <= 1)%nat ->
      ReadOnly cmd0 (js "-n" :: range :: rest).

(** ** git *)
Lemma mem_true a l : mem a l = true <-> a ∈ l.
Proof. apply bool_decide_eq_true. Qed.

Lemma str_eqb_true a b : str_eqb a b = true <-> a = b.
Proof. apply bool_decide_eq_true. Qed.

Lemma matchesAny_in p a l : p ∈ l -> gitOptionMatches a p = true -> gitMatchesAny a l = true.
Proof. intros Hp Hm. apply existsb_exists. exists p. split; [by apply list_elem_of_In|done]. Qed.

(** Every option that takes a value is one of the unsafe ones. *)
Lemma inline_unsafe a : isGitGlobalOptionWithInlineValue a = true ->
  gitMatchesAny a UNSAFE_GIT_GLOBAL_OPTIONS = true.
Proof.
  unfold isGitGlobalOptionWithInlineValue. rewrite !orb_true_iff, andb_true_iff, orb_true_iff.
  intros [[[[[[H|H]|H]|H]|H]|H]|[[H|H] Hl]];
    [apply (matchesAny_in (prefix (js "--config-env=")))|apply (matchesAny_in (prefix (js "--exec-path=")))
    |apply (matchesAny_in (prefix (js "--git-dir=")))|apply (matchesAny_in (prefix (js "--namespace=")))
    |apply (matchesAny_in (prefix (js "--super-prefix=")))|apply (matchesAny_in (prefix (js "--work-tree=")))
    |apply (matchesAny_in (shortInline (js "-C")))|apply (matchesAny_in (shortInline (js "-c")))];
    first [exact H | by apply (bool_decide_unpack _); vm_compute | cbn [gitOptionMatches]; by rewrite H].
Qed.

Lemma value_unsafe a : isGitGlobalOptionWithValue a = true -> gitMatchesAny a UNSAFE_GIT_GLOBAL_OPTIONS = true.
Proof.
  unfold isGitGlobalOptionWithValue. rewrite mem_true. intros H.
  repeat (apply elem_of_cons in H as [-> | H]; [by vm_compute|]). by apply elem_of_nil in H.
Qed.

Lemma readOnly_bare a : a ∈ GIT_READ_ONLY_SUBCOMMANDS -> startsWith a (js "-") = false.
Proof.
  intros H. repeat (apply elem_of_cons in H as [-> | H]; [by vm_compute|]). by apply elem_of_nil in H.
Qed.

(** The loop steps over global options, and stops at the first bare argument. *)
Lemma subcommand_skips a args idx l : GlobalOption a ->
  subcommand_loop (a :: args) idx false l = subcommand_loop args (S idx) false l.
Proof.
  intros [Hd Hu]. cbn [subcommand_loop].
  destruct (isGitGlobalOptionWithInlineValue a) eqn:Hi; [done|].
  destruct (isGitGlobalOptionWithValue a) eqn:Hv; [apply value_unsafe in Hv; congruence|].
  by rewrite Hd, orb_true_r.
Qed.

Lemma subcommand_loop_spec args : forall idx l k sub,
  subcommand_loop args idx false l = Some (k, sub) ->
  existsb (fun a => gitMatchesAny a UNSAFE_GIT_GLOBAL_OPTIONS) (take (k - idx) args) = false ->
  exists globals rest, args = globals ++ sub :: rest /\ Forall GlobalOption globals /\ k = idx + length globals /\ sub ∈ l.
Proof.
  induction args as [|a args IH]; intros idx l k sub H Hu; [done|].
  assert (forall b, subcommand_loop args (S idx) b l = Some (k, sub) -> (idx < k)%nat) as Hlt.
  { clear. revert idx. induction args as [|a args IH]; intros idx b H; [done|]. cbn in H.
    repeat case_hyp H; simplify_eq; try lia; apply IH in H; lia. }
  cbn [subcommand_loop] in H.
  destruct (isGitGlobalOptionWithInlineValue a) eqn:Hi.
  { apply inline_unsafe in Hi. apply Hlt in H. destruct (k - idx) eqn:E; [lia|]. cbn [take existsb] in Hu. by rewrite Hi in Hu. }
  destruct (isGitGlobalOptionWithValue a) eqn:Hv.
  { apply value_unsafe in Hv. apply Hlt in H. destruct (k - idx) eqn:E; [lia|]. cbn [take existsb] in Hu. by rewrite Hv in Hu. }
  destruct (str_eqb a (js "--") || startsWith a (js "-")) eqn:Hd.
  - pose proof (Hlt _ H). replace (k - idx)%nat with (S (k - S idx)) in Hu by lia. cbn [take existsb] in Hu. reflect_bools.
    destruct (IH (S idx) l k sub H) as (g & r & -> & Hg & -> & Hs); [done|]. exists (a :: g), r.
    split; [done|]. split; [constructor; [split|]; try done|].
    + apply orb_true_iff in Hd as [Hd|Hd]; [|done]. apply str_eqb_true in Hd as ->. done.
    + cbn. split; [lia|done].
  - destruct (mem a l) eqn:Hm; [|done]. simplify_eq. exists [], args. apply mem_true in Hm. cbn. repeat split; [constructor|lia|done].
Qed.

Lemma subcommand_loop_finds globals sub rest : forall idx, Forall GlobalOption globals ->
  sub ∈ GIT_READ_ONLY_SUBCOMMANDS ->
  subcommand_loop (globals ++ sub :: rest) idx false GIT_READ_ONLY_SUBCOMMANDS = Some (idx + length globals, sub).
Proof.
  induction globals as [|a g IH]; intros idx Hg Hs.
  - cbn [app length]. rewrite Nat.add_0_r.
    repeat (apply elem_of_cons in Hs as [-> | Hs]; [by vm_compute|]). by apply elem_of_nil in Hs.
  - apply Forall_cons in Hg as [Ha Hg]. cbn [app length]. rewrite subcommand_skips by done.
    rewrite IH by done. by rewrite Nat.add_succ_r.
Qed.

Lemma existsb_Forall {A} (f : A -> bool) l : existsb f l = false <-> Forall (fun x => f x = false) l.
Proof.
  induction l as [|a l IH]; cbn; [split; [constructor|done]|]. by rewrite orb_false_iff, Forall_cons, IH.
Qed.

Lemma branch_flags args saw : branch_loop args saw = true <-> Forall BranchFlag args /\ (args = [] -> saw = true).
Proof.
  revert saw. induction args as [|a args IH]; intros saw; cbn [branch_loop].
  - split; [intros ->; by split|]. intros [_ H]. by apply H.
  - rewrite Forall_cons. unfold BranchFlag at 1. destruct (mem a branchFlags) eqn:Hm.
    { apply mem_true in Hm. rewrite IH. naive_solver. }
    assert (a ∉ branchFlags) by (intros H; apply mem_true in H; congruence).
    destruct (startsWith a (js "--format=")); [rewrite IH|]; naive_solver.
Qed.

(** What follows the subcommand. *)
Lemma subcommand_arguments sub rest : sub ∈ GIT_READ_ONLY_SUBCOMMANDS ->
  (if mem sub [js "status"; js "log"; js "diff"; js "show"] then gitSubcommandArgsAreReadOnly rest
   else if str_eqb sub (js "branch") then gitSubcommandArgsAreReadOnly rest && gitBranchIsReadOnly rest
   else false) = true
  <-> Forall SubcommandOption rest /\ (sub = js "branch" -> Forall BranchFlag rest).
Proof.
  intros Hs. assert (gitSubcommandArgsAreReadOnly rest = true <-> Forall SubcommandOption rest) as Ha.
  { unfold gitSubcommandArgsAreReadOnly. by rewrite negb_true_iff, existsb_Forall. }
  assert (gitBranchIsReadOnly rest = true <-> Forall BranchFlag rest) as Hb.
  { unfold gitBranchIsReadOnly. destruct rest; [by split; [constructor|]|]. rewrite branch_flags. naive_solver. }
  do 4 (apply elem_of_cons in Hs as [-> | Hs]; [rewrite (proj2 (mem_true _ _)) by set_solver;
    rewrite Ha; split; [by split|tauto]|]).
  apply list_elem_of_singleton in Hs as ->. cbn [mem]. change (mem (js "branch") _) with false.
  change (str_eqb (js "branch") (js "branch")) with true. rewrite andb_true_iff, Ha, Hb. tauto.
Qed.

Lemma around_subcommand (cmd0 : jstr) globals sub rest :
  drop 1 (take (1 + length globals) (cmd0 :: globals ++ sub :: rest)) = globals
  /\ drop (S (1 + length globals)) (cmd0 :: globals ++ sub :: rest) = rest.
Proof. cbn. by rewrite take_app_length, <- (Nat.add_1_r (length globals)), <- drop_drop, drop_app_length. Qed.

(** The git rule. *)
Lemma git_command (cmd0 : jstr) (args : list jstr) :
  isSafeGitCommand (cmd0 :: args) = true <->
  executableNameLookupKey cmd0 = Some (js "git") /\ ReadOnlyGit args.
Proof.
  unfold isSafeGitCommand, findGitSubcommand. case_bool_decide as Hk; [|split; [done|tauto]]. split.
  - destruct (subcommand_loop _ _ _ _) as [[k sub]|] eqn:Hl; [|done].
    destruct (existsb _ _) eqn:Hu; [done|]. intros H. split; [done|].
    destruct (subcommand_loop_spec _ _ _ _ _ Hl) as (g & rest & -> & Hg & -> & Hs).
    { revert Hu. destruct k; [by cbn|]. cbn. by rewrite Nat.sub_0_r. }
    rewrite (proj2 (around_subcommand _ _ _ _)) in H. apply subcommand_arguments in H; [|done].
    exists g, sub, rest. tauto.
  - intros (_ & g & sub & rest & -> & Hg & Hs & Hr). rewrite subcommand_loop_finds by done.
    destruct (around_subcommand cmd0 g sub rest) as [-> ->].
    rewrite (proj2 (existsb_Forall _ g)) by (eapply Forall_impl; [exact Hg|]; by intros ? []).
    by apply subcommand_arguments.
Qed.

(** ** sed *)
Lemma first_unit (c : jchar) s : c ∉ s \/ exists a b, s = a ++ c :: b /\ c ∉ a.
Proof.
  destruct (decide (c ∈ s)) as [H|H]; [right|by left].
  by apply list_elem_of_split_l in H.
Qed.

Lemma isNum_no_comma s : isNum s = true -> ch "," ∉ s.
Proof.
  intros H Hc. assert (forallb isDigit s = true) as Hf by (by destruct s).
  rewrite forallb_forall in Hf. apply list_elem_of_In, Hf in Hc. done.
Qed.

Lemma isValidSedNArg_spec a : isValidSedNArg (Some a) = true <-> SedRange a.
Proof.
  unfold isValidSedNArg, SedRange. assert (forall m, endsWith (m ++ js "p") (js "p") = true
    /\ take (length (m ++ js "p") - 1) (m ++ js "p") = m) as Hp.
  { intros m. unfold endsWith. rewrite rev_app_distr. cbn. split; [by destruct (rev m)|].
    rewrite length_app. cbn. by rewrite Nat.add_sub, take_app_length. }
  split.
  - destruct (endsWith a (js "p")) eqn:He; [|done]. cbn [negb].
    assert (exists core, a = core ++ js "p") as [core ->].
    { unfold endsWith in He. destruct (rev a) as [|d r] eqn:Hr; [done|]. change (rev (js "p")) with (js "p") in He.
      change (js "p") with [112%N] in He. rewrite startsWith_one in He. apply N.eqb_eq in He as ->.
      exists (rev r). by rewrite <- (rev_involutive a), Hr. }
    rewrite (proj2 (Hp core)). change (js ",") with [ch ","].
    destruct (first_unit (ch ",") core) as [Hn|(x & y & -> & Hx)].
    { rewrite split_none by done. intros H. exists core. auto. }
    rewrite split_first by done. destruct (first_unit (ch ",") y) as [Hn|(u & v & -> & Hu)].
    { rewrite split_none by done. intros H. reflect_bools. exists y. split; [done|]. right. exists x.
      split; [done|]. by rewrite <- app_assoc. }
    rewrite split_first by done. destruct (split v _) eqn:Hs; [by apply split_some in Hs|done].
  - intros (m & Hm & [-> | (n & Hn & ->)]).
    + destruct (Hp m) as [-> ->]. cbn [negb]. change (js ",") with [ch ","].
      rewrite split_none; [done|]. by apply isNum_no_comma.
    + replace (n ++ js "," ++ m ++ js "p") with ((n ++ js "," ++ m) ++ js "p") by (by rewrite <- !app_assoc).
      destruct (Hp (n ++ js "," ++ m)) as [-> ->]. cbn [negb]. change (js "," ++ m) with (ch "," :: m).
      change (js ",") with [ch ","]. rewrite split_first, split_none by (by apply isNum_no_comma). by rewrite Hn, Hm.
Qed.

(** ** Every command *)
Lemma forallb_not_Forall {A} (f : A -> bool) (P : A -> Prop) l : (forall x, f x = false <-> P x) ->
  negb (existsb f l) = true <-> Forall P l.
Proof. intros H. rewrite negb_true_iff, existsb_Forall. apply Forall_iff, H. Qed.

Lemma mem_false a l : mem a l = false <-> a ∉ l.
Proof. apply bool_decide_eq_false. Qed.

Lemma base64_spec cmd0 args : isSafeBase64 (cmd0 :: args) = true <->
  Forall (fun a => startsWith a (js "-o") = false /\ a <> js "--output" /\ startsWith a (js "--output=") = false) args.
Proof.
  apply forallb_not_Forall. intros a. rewrite !orb_false_iff, mem_false, andb_false_iff, negb_false_iff, str_eqb_true.
  split.
  - intros [[Hm Ho] Hs]. split; [|split; [set_solver|done]]. destruct Hs as [Hs| ->]; [done|set_solver].
  - intros (Hs & Ho & Hp). split; [split; [|done]|by left]. intros H.
    repeat (apply elem_of_cons in H as [-> | H]; [done|]). by apply elem_of_nil in H.
Qed.

Lemma rg_spec command : isSafeRipgrep command = true <->
  Forall (fun a => a ∉ [js "--search-zip"; js "-z"; js "--pre"; js "--hostname-bin"]
                   /\ startsWith a (js "--pre=") = false /\ startsWith a (js "--hostname-bin=") = false) command.
Proof.
  apply forallb_not_Forall. intros a. cbn [existsb]. rewrite !orb_false_iff, mem_false.
  unfold str_eqb. rewrite !bool_decide_eq_false. change (js "--pre" ++ js "=") with (js "--pre=").
  change (js "--hostname-bin" ++ js "=") with (js "--hostname-bin="). set_solver.
Qed.

Lemma sed_spec cmd0 args : isSafeSed (cmd0 :: args) = true <->
  exists range rest, args = js "-n" :: range :: rest /\ SedRange range /\ (length rest <= 1)%nat.
Proof.
  unfold isSafeSed. rewrite !andb_true_iff, Nat.leb_le, bool_decide_eq_true. split.
  - intros [[Hl Hn] Hr]. destruct args as [|a [|range rest]]; try done. injection Hn as ->.
    exists range, rest. apply isValidSedNArg_spec in Hr. split; [done|]. split; [done|]. cbn in Hl. lia.
  - intros (range & rest & -> & Hr & Hl). split; [split; [cbn; lia|done]|]. by apply isValidSedNArg_spec.
Qed.

Theorem safe_exec_spec (cmd0 : jstr) (args : list jstr) :
  isSafeToCallWithExec (cmd0 :: args) = true <-> ReadOnly cmd0 args.
Proof.
  unfold isSafeToCallWithExec. destruct (executableNameLookupKey cmd0) as [key|] eqn:Hk.
  2: { split; [done|]. intros H. inversion H; congruence. }
  destruct (mem key ALWAYS_SAFE_COMMANDS) eqn:Hm.
  { split; [|done]. intros _. apply mem_true in Hm. by apply (ro_always _ key). }
  split.
  - destruct (str_eqb key (js "base64")) eqn:H1.
    { apply str_eqb_true in H1 as ->. intros H. by apply ro_base64, (base64_spec cmd0). }
    destruct (str_eqb key (js "find")) eqn:H2.
    { apply str_eqb_true in H2 as ->. intros H. apply ro_find; [done|]. revert H.
      apply (forallb_not_Forall _ (fun a => a ∉ UNSAFE_FIND_OPTIONS)). intros a. apply mem_false. }
    destruct (str_eqb key (js "rg")) eqn:H3.
    { apply str_eqb_true in H3 as ->. intros H. by apply ro_rg, rg_spec. }
    destruct (str_eqb key (js "git")) eqn:H4.
    { intros H. apply git_command in H as [Hg H]. by apply ro_git. }
    destruct (str_eqb key (js "sed")) eqn:H5; [|done]. apply str_eqb_true in H5 as ->.
    intros H. apply sed_spec in H as (range & rest & -> & Hr & Hl). by apply ro_sed.
  - intros H. inversion H as [key' ? Hk' Ha|? Hk' Ha|? Hk' Ha|? Hk' Ha|? Hk' Ha|? ? Hk' Ha Hl]; subst;
      rewrite Hk in Hk'; injection Hk' as ->.
    + apply mem_true in Ha. congruence.
    + apply (base64_spec cmd0). done.
    + revert Ha. apply (forallb_not_Forall _ (fun a => a ∉ UNSAFE_FIND_OPTIONS)). intros a. apply mem_false.
    + by apply (rg_spec (cmd0 :: args)).
    + by apply git_command.
    + apply (sed_spec cmd0). eauto.
Qed.

(** git runs without a question exactly when its command line is options
    that neither take a value, page, nor run anything, a reading subcommand, and
    arguments that neither write a file nor run a program (for [branch], listing flags only). *)
Theorem git_approval_is_exact (cmd0 : jstr) (args : list jstr) :
  isSafeGitCommand (cmd0 :: args) = true <->
  executableNameLookupKey cmd0 = Some (js "git") /\ ReadOnlyGit args.
Proof. apply git_command. Qed.

Lemma git_approval_is_exact_witness :
  let args := [js "--no-pager"; js "branch"; js "--list"; js "-vv"] in
  isSafeGitCommand (js "/usr/bin/git" :: args) = true /\
  executableNameLookupKey (js "/usr/bin/git") = Some (js "git") /\ ReadOnlyGit args.
Proof.
  cbv zeta. split; [by vm_compute|]. apply (git_approval_is_exact (js "/usr/bin/git")). by vm_compute.
Defined.

Lemma safe_shell_is_not_exec flag script : isSafeToCallWithExec [js "bash"; flag; script] = false.
Proof. done. Qed.

Lemma forallb_ReadOnly cmds : forallb isSafeToCallWithExec cmds = true <->
  Forall (fun argv => exists cmd0 args, argv = cmd0 :: args /\ ReadOnly cmd0 args) cmds.
Proof.
  induction cmds as [|argv cmds IH]; cbn; [by split; [constructor|]|]. rewrite andb_true_iff, Forall_cons, IH.
  assert (isSafeToCallWithExec argv = true <-> exists cmd0 args, argv = cmd0 :: args /\ ReadOnly cmd0 args) as ->;
    [|done].
  destruct argv as [|cmd0 args]; [split; [done|by intros (? & ? & ? & _)]|]. rewrite safe_exec_spec.
  split; [eauto|]. by intros (? & ? & [= -> ->] & ?).
Qed.

Lemma wordOnly_some script : wordOnly script <> Some [].
Proof.
  unfold wordOnly. destruct (atoms None script) as [l|]; [|done]. cbn. intros H.
  apply mapM_Some_1 in H. apply Forall2_nil_inv_r in H. destruct l as [|a l]; [done|]. cbn in H.
  by destruct a; [..|done]; destruct (splitOps l).
Qed.

Lemma known_safe_script flag script : flag = js "-lc" \/ flag = js "-c" -> script <> js "zsh" ->
  isKnownSafeCommand [js "bash"; flag; script] =
  match parseScriptPlainCommands script with None | Some [] => false | Some cmds => forallb isSafeToCallWithExec cmds end.
Proof.
  intros Hf Hz. unfold isKnownSafeCommand. cbn [map].
  assert (str_eqb script (js "zsh") = false) as -> by (by apply bool_decide_eq_false).
  by destruct Hf as [-> | ->].
Qed.

(** C12: an ordinary script runs without a question exactly when it is a sequence
    of word-only commands each of which is read-only. *)
Theorem script_approval_is_exact (flag script : jstr) :
  flag = js "-lc" \/ flag = js "-c" -> ordinary script = true ->
  isKnownSafeCommand [js "bash"; flag; script] = true <->
  exists cmds, wordOnly script = Some cmds /\
    Forall (fun argv => exists cmd0 args, argv = cmd0 :: args /\ ReadOnly cmd0 args) cmds.
Proof.
  intros Hf Ho. destruct (decide (script = js "zsh")) as [->|Hz].
  { split; [by destruct Hf as [-> | ->]|]. intros (cmds & Hw & H). exfalso.
    apply forallb_ReadOnly in H. vm_compute in Hw. injection Hw as <-. by vm_compute in H. }
  rewrite known_safe_script, plain_commands_agree by done.
  destruct (wordOnly script) as [[|c cmds]|] eqn:Hw; [by apply wordOnly_some in Hw| |].
  - rewrite forallb_ReadOnly. split; [eauto|]. by intros (? & [= <-] & H).
  - split; [done|]. by intros (? & ? & _).
Qed.

Lemma script_approval_is_exact_witness :
  ordinary sampleScript = true /\
  (isKnownSafeCommand [js "bash"; js "-lc"; sampleScript] = true <->
   exists cmds, wordOnly sampleScript = Some cmds /\
     Forall (fun argv => exists cmd0 args, argv = cmd0 :: args /\ ReadOnly cmd0 args) cmds)
  /\ isKnownSafeCommand [js "bash"; js "-lc"; sampleScript] = true.
Proof.
  split; [by vm_compute|]. split; [|by vm_compute].
  apply (script_approval_is_exact (js "-lc") sampleScript); [by left|by vm_compute].
Defined.

(** ** Outside ordinary text

    The bash checker asks [isKnownSafeCommand] about the whole command line, with
    its line breaks: a reading command on the first line approves what follows. *)
Lemma second_line_is_approved :
  isKnownSafeCommand [js "bash"; js "-lc"; js "ls" ++ newline :: js "python3 x.py"] = true.
Proof. by vm_compute. Qed.

Lemma background_command_is_approved :
  isKnownSafeCommand [js "bash"; js "-lc"; js "ls \&& python3 x.py"] = true.
Proof. by vm_compute. Qed.

(** [uniq] writes its second operand. *)
Lemma uniq_output_is_approved : isSafeToCallWithExec [js "uniq"; js "a"; js "notes.txt"] = true.
Proof. by vm_compute. Qed.

