(* ===== verification/BashRules.v ===== *)
(** * Rules on bash commands

    [packages/agent-modules/permission/src/tools/bash-rule-match.ts]: the four
    kinds of rule contents, how a content is read, and which commands a rule
    matches.  Regular expressions are built as source text, as in the code, and
    [RegExp] gives a source its meaning. *)
From S2P Require Import Prelude ShellTokenize ShellSplit BashAst.

Inductive ShellPermissionRule :=
  | RuleExact (command : jstr)
  | RulePrefix (pre : jstr)
  | RuleArgvPrefix (argv : list jstr)
  | RuleWildcard (pattern : jstr).

(** ** [JSON.stringify] on an array of strings *)
Definition isHighSurrogate (c : jchar) : bool := ((55296 <=? c) && (c <=? 56319))%N.
Definition isLowSurrogate (c : jchar) : bool := ((56320 <=? c) && (c <=? 57343))%N.

Definition hexDigit (n : N) : jchar := (if n <? 10 then 48 + n else 87 + n)%N.

(** [\uXXXX], lower case. *)
Definition unicodeEscape (c : jchar) : jstr :=
  [backslash; ch "u"; hexDigit (c / 4096 mod 16); hexDigit (c / 256 mod 16);
   hexDigit (c / 16 mod 16); hexDigit (c mod 16)]%N.

Definition jsonEscape (c : jchar) : option jstr :=
  if (c =? 8)%N then Some (js "\b") else if (c =? 9)%N then Some (js "\t")
  else if (c =? 10)%N then Some (js "\n") else if (c =? 12)%N then Some (js "\f")
  else if (c =? 13)%N then Some (js "\r")
  else if (c =? dquote)%N then Some [backslash; dquote]
  else if (c =? backslash)%N then Some [backslash; backslash]
  else if (c <? 32)%N then Some (unicodeEscape c)
  else None.

(** QuoteJSONString: a surrogate stays as it is only in a pair. *)
Fixpoint jsonUnits (s : jstr) : jstr :=
  match s with
  | [] => []
  | c :: s1 =>
      match jsonEscape c with
      | Some e => e ++ jsonUnits s1
      | None =>
          if isHighSurrogate c then
            match s1 with
            | d :: s2 => if isLowSurrogate d then c :: d :: jsonUnits s2 else unicodeEscape c ++ jsonUnits s1
            | [] => unicodeEscape c
            end
          else if isLowSurrogate c then unicodeEscape c ++ jsonUnits s1
          else c :: jsonUnits s1
      end
  end.

Definition jsonString (s : jstr) : jstr := dquote :: jsonUnits s ++ [dquote].

Definition encodeArgvPrefixRule (argv : list jstr) : jstr :=
  js "[" ++ join (js ",") (map jsonString argv) ++ js "]".

(** ** [JSON.parse], where it gives an array of strings

    Every other text, and every other value, makes the caller answer [undefined]. *)
Definition isJsonWhite (c : jchar) : bool := ((c =? 32) || (c =? 9) || (c =? 10) || (c =? 13))%N.

Definition hexValue (c : jchar) : option N :=
  (if (48 <=? c) && (c <=? 57) then Some (c - 48)
   else if (97 <=? c) && (c <=? 102) then Some (c - 87)
   else if (65 <=? c) && (c <=? 70) then Some (c - 55)
   else None)%N.

Definition hex4 (a b c d : jchar) : option jchar :=
  match hexValue a, hexValue b, hexValue c, hexValue d with
  | Some w, Some x, Some y, Some z => Some (((w * 16 + x) * 16 + y) * 16 + z)%N
  | _, _, _, _ => None
  end.

Definition simpleEscape (c : jchar) : option jchar :=
  if ((c =? dquote) || (c =? backslash) || (c =? ch "/"))%N then Some c
  else if (c =? ch "b")%N then Some 8%N else if (c =? ch "f")%N then Some 12%N
  else if (c =? ch "n")%N then Some 10%N else if (c =? ch "r")%N then Some 13%N
  else if (c =? ch "t")%N then Some 9%N else None.

(** After the opening quote: the string and the rest of the text. *)
Fixpoint jsonStringTail (s : jstr) (acc : jstr) : option (jstr * jstr) :=
  match s with
  | [] => None
  | c :: s1 =>
      if (c =? dquote)%N then Some (acc, s1)
      else if (c <? 32)%N then None
      else if (c =? backslash)%N then
        match s1 with
        | [] => None
        | e :: s2 =>
            match simpleEscape e with
            | Some u => jsonStringTail s2 (acc ++ [u])
            | None =>
                match s2 with
                | w :: x :: y :: z :: s3 =>
                    match (e =? ch "u")%N, hex4 w x y z with
                    | true, Some u => jsonStringTail s3 (acc ++ [u])
                    | _, _ => None
                    end
                | _ => None
                end
            end
        end
      else jsonStringTail s1 (acc ++ [c])
  end.

(** The elements from a position where one is due; the fuel bounds the text left. *)
Fixpoint jsonElements (fuel : nat) (s : jstr) (acc : list jstr) : option (list jstr) :=
  match fuel, dropWhile isJsonWhite s with
  | S fuel', c :: s1 =>
      if negb (c =? dquote)%N then None
      else match jsonStringTail s1 [] with
           | None => None
           | Some (item, s2) =>
               match dropWhile isJsonWhite s2 with
               | [] => None
               | d :: s3 =>
                   if (d =? ch ",")%N then jsonElements fuel' s3 (acc ++ [item])
                   else if (d =? ch "]")%N then
                     match dropWhile isJsonWhite s3 with [] => Some (acc ++ [item]) | _ => None end
                   else None
               end
           end
  | _, _ => None
  end.

(** [JSON.parse(text)] when it is a non-empty array of strings. *)
Definition parseStringArray (text : jstr) : option (list jstr) :=
  match dropWhile isJsonWhite text with
  | c :: s => if (c =? ch "[")%N then jsonElements (length text) s [] else None
  | [] => None
  end.

Definition tryDecodeArgvPrefix (ruleContent : jstr) : option (list jstr) :=
  let trimmed := trim ruleContent in
  if negb (startsWith trimmed (js "[")) || negb (endsWith trimmed (js "]")) then None
  else parseStringArray trimmed.

(** ** [parseShellRule] *)
Definition isLineTerminator (c : jchar) : bool := ((c =? 10) || (c =? 13) || (c =? 8232) || (c =? 8233))%N.

(** [before] is [s[i - 1]]. *)
Fixpoint wildcard_loop (before : option jchar) (s : jstr) : bool :=
  match s with
  | [] => false
  | c :: s' => ((c =? ch "*")%N && negb (is_unit before backslash)) || wildcard_loop (Some c) s'
  end.

Definition containsUnescapedWildcard (s : jstr) : bool := wildcard_loop None s.

(** The group of [/^(.+):\*$/]: everything before the last two units. *)
Definition prefixMatch (ruleContent : jstr) : option jstr :=
  if endsWith ruleContent (js ":*") then
    let group := take (length ruleContent - 2) ruleContent in
    match group with
    | [] => None
    | _ => if existsb isLineTerminator group then None else Some group
    end
  else None.

Definition parseShellRule (ruleContent : jstr) : ShellPermissionRule :=
  match tryDecodeArgvPrefix ruleContent with
  | Some argv => RuleArgvPrefix argv
  | None =>
      let rest :=
        if containsUnescapedWildcard ruleContent then RuleWildcard ruleContent else RuleExact ruleContent in
      match prefixMatch ruleContent with
      | Some pre => if negb (containsUnescapedWildcard pre) then RulePrefix pre else rest
      | None => rest
      end
  end.

(** ** [compileWildcardPattern] *)

(** [text.replace(/pat/g, rep)] for a literal, non-empty [pat]; [skip] units of a match are left. *)
Fixpoint replace_loop (pat rep s : jstr) (skip : nat) : jstr :=
  match s with
  | [] => []
  | c :: s' =>
      match skip with
      | S k => replace_loop pat rep s' k
      | O => if startsWith s pat then rep ++ replace_loop pat rep s' (length pat - 1)
             else c :: replace_loop pat rep s' 0
      end
  end.
Definition replaceAll (s pat rep : jstr) : jstr := replace_loop pat rep s 0.

Definition ESCAPED_STAR_SENTINEL : jstr := 0%N :: js "STAR" ++ [0%N].
Definition ESCAPED_BACKSLASH_SENTINEL : jstr := 0%N :: js "BSLASH" ++ [0%N].

(** The units of [/[.+?^${}()|[\]]/]. *)
Definition isEscapedSpecial (c : jchar) : bool := bool_decide (c ∈ js ".+?^${}()|[]").
Definition escapeSpecials (s : jstr) : jstr :=
  flat_map (fun c => if isEscapedSpecial c then [backslash; c] else [c]) s.

Definition wildcardSource (pattern : jstr) : jstr :=
  let step1 := replaceAll (replaceAll pattern (js "\\") ESCAPED_BACKSLASH_SENTINEL)
                 (js "\*") ESCAPED_STAR_SENTINEL in
  let step2 := escapeSpecials step1 in
  let step3 := replaceAll step2 (js "*") (js ".*") in
  replaceAll (replaceAll step3 ESCAPED_STAR_SENTINEL (js "\*")) ESCAPED_BACKSLASH_SENTINEL (js "\\").

(** *** Regular expressions

    What the code's sources are made of when every backslash of the pattern is
    escaped: literal units, escaped syntax characters and [.*]. *)
Inductive Glob := AnyRun | OneUnit (c : jchar).

Definition isSyntaxCharacter (c : jchar) : bool := bool_decide (c ∈ js "^$\.*+?()[]{}|").

Fixpoint parseSource (source : jstr) : option (list Glob) :=
  match source with
  | [] => Some []
  | c :: s1 =>
      if (c =? backslash)%N then
        match s1 with
        | d :: s2 => if isSyntaxCharacter d then cons (OneUnit d) <$> parseSource s2 else None
        | [] => None
        end
      else if (c =? ch ".")%N then
        match s1 with
        | d :: s2 => if (d =? ch "*")%N then cons AnyRun <$> parseSource s2 else None
        | [] => None
        end
      else if isSyntaxCharacter c then None
      else cons (OneUnit c) <$> parseSource s1
  end.

Section Matching.
(** The tables behind the flag [i], and the meaning of [^source$] with that
    flag for any other source; [None] when the constructor throws. *)
Context (canonicalize : jchar -> jchar) (otherRegExp : jstr -> option (jstr -> bool)).

Definition sameUnit (c d : jchar) : bool := (canonicalize c =? canonicalize d)%N.

(** [.*] takes any run of units that are not line terminators. *)
Fixpoint globTest (g : list Glob) (s : jstr) : bool :=
  match g with
  | [] => match s with [] => true | _ => false end
  | OneUnit c :: g' => match s with d :: s' => sameUnit c d && globTest g' s' | [] => false end
  | AnyRun :: g' =>
      (fix any (s : jstr) : bool :=
         globTest g' s || match s with d :: s' => negb (isLineTerminator d) && any s' | [] => false end) s
  end.

(** [new RegExp(`^${source}$`, 'i')]. *)
Definition RegExp (source : jstr) : option (jstr -> bool) :=
  match parseSource source with
  | Some g => Some (globTest g)
  | None => otherRegExp source
  end.

Definition compileWildcardPattern (pattern : jstr) : option (jstr -> bool) := RegExp (wildcardSource pattern).

Definition matchWildcardPattern (command pattern : jstr) : bool :=
  match compileWildcardPattern pattern with Some re => re command | None => false end.

(** ** Matching *)
Inductive CompiledShellPermissionRule :=
  | CompiledExact (command : jstr)
  | CompiledPrefix (pre : jstr)
  | CompiledArgvPrefix (argv : list jstr)
  | CompiledWildcard (pattern : jstr) (regex : option (jstr -> bool)).

Definition compileShellRule (ruleContent : jstr) : CompiledShellPermissionRule :=
  match parseShellRule ruleContent with
  | RuleExact command => CompiledExact command
  | RulePrefix pre => CompiledPrefix pre
  | RuleArgvPrefix argv => CompiledArgvPrefix argv
  | RuleWildcard pattern => CompiledWildcard pattern (compileWildcardPattern pattern)
  end.

(** [argv.every((token, i) => token === target[i])]. *)
Fixpoint everyToken (argv target : list jstr) : bool :=
  match argv, target with
  | [], _ => true
  | token :: argv', t :: target' => str_eqb token t && everyToken argv' target'
  | _ :: _, [] => false
  end.

Definition matchArgvPrefix (command : jstr) (argv : list jstr) : bool :=
  match parseScriptPlainCommands command with
  | Some [target] => if (length target <? length argv)%nat then false else everyToken argv target
  | _ => false
  end.

Definition matchPrefix (command pre : jstr) : bool :=
  str_eqb command pre || startsWith command (pre ++ js " ").

(** [matchShellRule] on a parsed rule and on a compiled one. *)
Definition matchShellRule (command : jstr) (rule : ShellPermissionRule) : bool :=
  match rule with
  | RuleExact c => str_eqb command c
  | RulePrefix pre => matchPrefix command pre
  | RuleArgvPrefix argv => matchArgvPrefix command argv
  | RuleWildcard pattern => matchWildcardPattern command pattern
  end.

Definition matchCompiledRule (command : jstr) (rule : CompiledShellPermissionRule) : bool :=
  match rule with
  | CompiledExact c => str_eqb command c
  | CompiledPrefix pre => matchPrefix command pre
  | CompiledArgvPrefix argv => matchArgvPrefix command argv
  | CompiledWildcard _ regex => match regex with Some re => re command | None => false end
  end.

Lemma compiled_rule_matches_the_same command content :
  matchCompiledRule command (compileShellRule content) = matchShellRule command (parseShellRule content).
Proof. unfold compileShellRule. by destruct (parseShellRule content). Qed.
End Matching.

(** ** An argument list survives being written as a rule *)
Lemma hexValue_digit n : (n < 16)%N -> hexValue (hexDigit n) = Some n.
Proof.
  intros H. assert (n ∈ map N.of_nat (seq 0 16)) as Hin.
  { apply list_elem_of_In, in_map_iff. exists (N.to_nat n). rewrite N2Nat.id. split; [done|].
    apply in_seq. lia. }
  revert Hin. cbn. rewrite !elem_of_cons, elem_of_nil. intros Hin.
  repeat (destruct Hin as [-> | Hin]; [done|]). done.
Qed.

Lemma hex4_escape c : (c < 65536)%N ->
  hex4 (hexDigit (c / 4096 mod 16)) (hexDigit (c / 256 mod 16)) (hexDigit (c / 16 mod 16)) (hexDigit (c mod 16))
    = Some c.
Proof.
  intros H. unfold hex4. rewrite !hexValue_digit by (apply N.mod_lt; done). f_equal.
  pose proof (N.Div0.div_mod c 16). pose proof (N.Div0.div_mod (c / 16) 16). pose proof (N.Div0.div_mod (c / 256) 16).
  pose proof (N.Div0.div_mod (c / 4096) 16). rewrite !N.Div0.div_div in *.
  change (16 * 16)%N with 256%N in *. change (256 * 16)%N with 4096%N in *. change (4096 * 16)%N with 65536%N in *.
  assert (c / 65536 = 0)%N by (by apply N.div_small). lia.
Qed.

Lemma tail_unicode c s acc : (c < 65536)%N ->
  jsonStringTail (unicodeEscape c ++ s) acc = jsonStringTail s (acc ++ [c]).
Proof.
  intros H. pose proof (hex4_escape c H) as Hh. unfold unicodeEscape. cbn [app].
  transitivity (match hex4 (hexDigit (c / 4096 mod 16)) (hexDigit (c / 256 mod 16)) (hexDigit (c / 16 mod 16))
                   (hexDigit (c mod 16)) with Some u => jsonStringTail s (acc ++ [u]) | None => None end); [done|].
  by rewrite Hh.
Qed.

Lemma tail_plain c s acc : jsonEscape c = None -> jsonStringTail (c :: s) acc = jsonStringTail s (acc ++ [c]).
Proof.
  unfold jsonEscape. intros H. repeat case_hyp H; try done. cbn [jsonStringTail].
  by repeat match goal with E : ?b = false |- context [if ?b then _ else _] => rewrite E end.
Qed.

Lemma tail_escape c e s acc : jsonEscape c = Some e -> jsonStringTail (e ++ s) acc = jsonStringTail s (acc ++ [c]).
Proof.
  unfold jsonEscape. intros H.
  repeat (case_hyp H; [simplify_eq; match goal with E : (_ =? _)%N = true |- _ => apply N.eqb_eq in E as ->; done end|]).
  case_hyp H; [|done]. injection H as <-. apply tail_unicode.
  match goal with E : (c <? 32)%N = true |- _ => apply N.ltb_lt in E; lia end.
Qed.

Lemma surrogate_not_escaped c : isHighSurrogate c || isLowSurrogate c = true -> jsonEscape c = None /\ (c < 65536)%N.
Proof.
  unfold isHighSurrogate, isLowSurrogate. rewrite orb_true_iff, !andb_true_iff, !N.leb_le. intros H.
  split; [|lia]. unfold jsonEscape.
  repeat match goal with |- context [(c =? ?k)%N] => rewrite (proj2 (N.eqb_neq c k)) by (unfold dquote, backslash; lia) end.
  by rewrite (proj2 (N.ltb_ge c 32)) by lia.
Qed.

Lemma tail_units s : forall acc rest,
  jsonStringTail (jsonUnits s ++ dquote :: rest) acc = Some (acc ++ s, rest).
Proof.
  induction s as [s IH] using (induction_ltof1 _ (@length jchar)). unfold ltof in IH. intros acc rest.
  destruct s as [|c s1]; [by rewrite app_nil_r|]. cbn [jsonUnits].
  assert (forall acc, jsonStringTail (jsonUnits s1 ++ dquote :: rest) (acc ++ [c]) = Some (acc ++ c :: s1, rest)) as Hrec.
  { intros acc'. rewrite IH by (simpl; lia). by rewrite <- app_assoc. }
  destruct (jsonEscape c) as [e|] eqn:He; [by rewrite <- app_assoc, (tail_escape c)|].
  destruct (isHighSurrogate c) eqn:Hh.
  - destruct (surrogate_not_escaped c) as [_ Hb]; [by rewrite Hh|].
    assert (jsonStringTail ((unicodeEscape c ++ jsonUnits s1) ++ dquote :: rest) acc = Some (acc ++ c :: s1, rest)) as Hu.
    { by rewrite <- app_assoc, tail_unicode. }
    destruct s1 as [|d s2]; [exact Hu|]. destruct (isLowSurrogate d) eqn:Hd; [|exact Hu].
    destruct (surrogate_not_escaped d) as [Hd2 _]; [by rewrite Hd, orb_true_r|]. cbn [app].
    rewrite !tail_plain by done. rewrite IH by (simpl; lia). by rewrite <- !app_assoc.
  - destruct (isLowSurrogate c) eqn:Hl; [|cbn [app]; by rewrite tail_plain].
    destruct (surrogate_not_escaped c) as [_ Hb]; [by rewrite Hl, orb_true_r|]. by rewrite <- app_assoc, tail_unicode.
Qed.

Lemma elements_encoded argv : forall fuel acc, argv <> [] -> (length argv <= fuel)%nat ->
  jsonElements fuel (join (js ",") (map jsonString argv) ++ js "]") acc = Some (acc ++ argv).
Proof.
  induction argv as [|w argv IH]; intros fuel acc Hne Hf; [done|]. destruct fuel as [|fuel]; [simpl in Hf; lia|].
  assert (forall s, dropWhile isJsonWhite (dquote :: s) = dquote :: s) as Hq by done.
  destruct argv as [|w2 argv].
  - cbn [map join]. unfold jsonString. cbn [app jsonElements]. rewrite Hq.
    change (dquote =? dquote)%N with true. cbn [negb]. rewrite <- app_assoc. cbn [app]. by rewrite tail_units.
  - change (join (js ",") (map jsonString (w :: w2 :: argv)) ++ js "]")
      with (dquote :: ((jsonUnits w ++ [dquote]) ++ ch "," :: join (js ",") (map jsonString (w2 :: argv))) ++ js "]").
    cbn [jsonElements]. rewrite Hq. change (dquote =? dquote)%N with true. cbn [negb].
    rewrite <- !app_assoc. cbn [app]. rewrite tail_units. cbn [app].
    change (dropWhile isJsonWhite (ch "," :: ?s)) with (ch "," :: s). cbn iota.
    change (ch "," =? ch ",")%N with true. cbn iota. rewrite IH; [|done|simpl in *; lia].
    by rewrite <- app_assoc.
Qed.

Lemma length_encoded argv : (length argv <= length (encodeArgvPrefixRule argv))%nat.
Proof.
  unfold encodeArgvPrefixRule. rewrite !length_app. change (length (js "[")) with 1. change (length (js "]")) with 1.
  enough (length argv <= S (length (join (js ",") (map jsonString argv))))%nat by lia.
  induction argv as [|w argv IH]; [simpl; lia|]. cbn [map]. destruct argv as [|w2 argv]; [simpl; lia|].
  change (join (js ",") (jsonString w :: map jsonString (w2 :: argv)))
    with (jsonString w ++ js "," ++ join (js ",") (map jsonString (w2 :: argv))).
  rewrite !length_app. change (length (js ",")) with 1. cbn [length] in *. lia.
Qed.

Lemma parse_encoded argv : argv <> [] -> parseShellRule (encodeArgvPrefixRule argv) = RuleArgvPrefix argv.
Proof.
  intros Hne. unfold parseShellRule. enough (tryDecodeArgvPrefix (encodeArgvPrefixRule argv) = Some argv) as -> by done.
  unfold tryDecodeArgvPrefix. assert (trim (encodeArgvPrefixRule argv) = encodeArgvPrefixRule argv) as ->.
  { unfold encodeArgvPrefixRule. apply (trim_id (ch "[") _ (ch "]")); done. }
  assert (endsWith (encodeArgvPrefixRule argv) (js "]") = true) as ->.
  { unfold encodeArgvPrefixRule, endsWith. rewrite !rev_app_distr. cbn. by destruct (rev _ ++ _). }
  assert (startsWith (encodeArgvPrefixRule argv) (js "[") = true) as ->.
  { unfold encodeArgvPrefixRule. cbn. by destruct (join _ _). }
  cbn [negb orb]. unfold parseStringArray.
  pose proof (length_encoded argv) as Hl. generalize (length (encodeArgvPrefixRule argv)) as f, Hl. intros f Hf.
  unfold encodeArgvPrefixRule. transitivity (jsonElements f (join (js ",") (map jsonString argv) ++ js "]") []); [done|].
  by rewrite elements_encoded.
Qed.

Lemma everyToken_prefix argv target : everyToken argv target = true <-> argv `prefix_of` target.
Proof.
  revert target. induction argv as [|w argv IH]; intros target; cbn.
  - split; [intros _; apply prefix_nil|done].
  - destruct target as [|t target]; [split; [done|]; by intros ?%prefix_nil_not|].
    rewrite andb_true_iff, IH. unfold str_eqb. rewrite bool_decide_eq_true. split.
    + intros [-> H]. by apply prefix_cons.
    + intros H. split; [by eapply prefix_cons_inv_1|by eapply prefix_cons_inv_2].
Qed.

Lemma plain_not_nil command argv : parseScriptPlainCommands command = Some [argv] -> argv <> [].
Proof.
  unfold parseScriptPlainCommands. intros H ->. repeat case_hyp H; try done.
  unfold plainCommands in H. apply mapM_Some_1 in H. apply Forall2_cons_inv_r in H as (seg & ? & H & _ & _).
  unfold plainCommand in H. repeat case_hyp H; simplify_eq.
Qed.

(** approving a plain command stores its argument list; read back, the rule
    matches that command, and exactly the single plain commands that repeat its
    arguments and may add more. *)
Theorem stored_rules_match_extensions canonicalize otherRegExp (approved : jstr) (argv : list jstr) :
  parseScriptPlainCommands approved = Some [argv] ->
  let rule := parseShellRule (encodeArgvPrefixRule argv) in
  rule = RuleArgvPrefix argv /\
  (forall command, matchShellRule canonicalize otherRegExp command rule = true <->
     exists more, parseScriptPlainCommands command = Some [argv ++ more]).
Proof.
  intros Ha. cbv zeta. rewrite parse_encoded by (by eapply plain_not_nil). split; [done|]. intros command.
  cbn [matchShellRule]. unfold matchArgvPrefix.
  destruct (parseScriptPlainCommands command) as [[|target [|]]|]; try (split; [done|by intros [? ?]]).
  destruct (_ <? _)%nat eqn:Hl.
  - split; [done|]. intros [more [= ->]]. rewrite length_app in Hl. apply Nat.ltb_lt in Hl. lia.
  - rewrite everyToken_prefix. split; [intros [more ->]; by exists more|]. intros [more [= ->]]. by exists more.
Qed.

Definition sampleApproved : jstr := js "cargo build --release".

Lemma stored_rules_match_extensions_witness :
  let argv := [js "cargo"; js "build"; js "--release"] in
  let rule := parseShellRule (encodeArgvPrefixRule argv) in
  parseScriptPlainCommands sampleApproved = Some [argv] /\ rule = RuleArgvPrefix argv /\
  (forall command, matchShellRule id (fun _ => None) command rule = true <->
     exists more, parseScriptPlainCommands command = Some [argv ++ more]).
Proof.
  cbv zeta. split; [by vm_compute|].
  apply (stored_rules_match_extensions id (fun _ => None) sampleApproved). by vm_compute.
Defined.

(** ** Wildcards

    A pattern as its documentation reads it: an escaped backslash, an escaped
    star, a star, or any other unit. *)
Inductive PatTok := PBack | PStar | PAny | PChar (c : jchar).

Definition render (t : PatTok) : jstr :=
  match t with PBack => js "\\" | PStar => js "\*" | PAny => js "*" | PChar c => [c] end.
Definition pattern_of (toks : list PatTok) : jstr := flat_map render toks.

Definition globOf (t : PatTok) : Glob :=
  match t with PBack => OneUnit backslash | PStar => OneUnit (ch "*") | PAny => AnyRun | PChar c => OneUnit c end.

Definition plainTok (t : PatTok) : Prop :=
  match t with PChar c => c <> backslash /\ c <> ch "*" /\ c <> 0%N | _ => True end.

(** The text [STAR] between an escaped backslash and another escape: with the
    marks of its neighbours it reads as the mark of an escaped star. *)
Definition starTail (l : list PatTok) : bool :=
  match l with
  | PChar a :: PChar b :: PChar c :: PChar d :: (PBack | PStar) :: _ => str_eqb [a; b; c; d] (js "STAR")
  | _ => false
  end.

Fixpoint collides (l : list PatTok) : bool :=
  match l with
  | [] => false
  | PBack :: l' => starTail l' || collides l'
  | _ :: l' => collides l'
  end.

Inductive Matches (canonicalize : jchar -> jchar) : list Glob -> jstr -> Prop :=
  | m_end : Matches canonicalize [] []
  | m_unit c d g s : canonicalize c = canonicalize d -> Matches canonicalize g s ->
      Matches canonicalize (OneUnit c :: g) (d :: s)
  | m_any r g s : Forall (fun c => isLineTerminator c = false) r -> Matches canonicalize g s ->
      Matches canonicalize (AnyRun :: g) (r ++ s).

Lemma globTest_spec canonicalize g : forall s, globTest canonicalize g s = true <-> Matches canonicalize g s.
Proof.
  induction g as [|[|c] g IH]; intros s.
  - destruct s; split; intros H; try done; [constructor|inversion H].
  - cbn [globTest]. split.
    + intros H. enough (exists r s', s = r ++ s' /\ Forall (fun c => isLineTerminator c = false) r /\ Matches canonicalize g s')
        as (r & s' & -> & Hr & Hm) by (by constructor).
      induction s as [|d s IHs]; cbn in H.
      * rewrite orb_false_r in H. exists [], []. apply IH in H. auto.
      * apply orb_true_iff in H as [H|H]; [apply IH in H; exists [], (d :: s); auto|].
        reflect_bools. destruct IHs as (r & s' & -> & Hr & Hm); [done|]. exists (d :: r), s'. auto.
    + intros H. inversion H as [| |r g' s' Hr Hm]; subst. apply IH in Hm. clear H.
      induction Hr as [|d r Hd Hr IHr]; cbn [app].
      * destruct s'; by rewrite Hm.
      * rewrite Hd. cbn [negb andb]. by rewrite IHr, orb_true_r.
  - cbn [globTest]. split.
    + destruct s as [|d s]; [done|]. rewrite andb_true_iff, IH. unfold sameUnit. rewrite N.eqb_eq. intros [??]. by constructor.
    + intros H. inversion H; subst. unfold sameUnit. rewrite andb_true_iff, N.eqb_eq, IH. done.
Qed.

(** *** Replacing token by token *)
Lemma startsWith_self p s : startsWith (p ++ s) p = true.
Proof. induction p as [|c p IH]; cbn; [by destruct s|]. by rewrite N.eqb_refl. Qed.

(** No match of [pat] begins inside [u], whatever follows. *)
Fixpoint skips (pat u rest : jstr) : bool :=
  match u with [] => true | c :: u' => negb (startsWith (u ++ rest) pat) && skips pat u' rest end.

Lemma skips_absent c pat u rest : c ∉ u -> skips (c :: pat) u rest = true.
Proof.
  induction u as [|d u IH]; intros H; [done|]. apply not_elem_of_cons in H as [Hd Hu]. cbn.
  rewrite IH by done. by rewrite (proj2 (N.eqb_neq c d)) by done.
Qed.

Lemma replaceAll_skip pat rep u rest : skips pat u rest = true ->
  replaceAll (u ++ rest) pat rep = u ++ replaceAll rest pat rep.
Proof.
  unfold replaceAll. induction u as [|c u IH]; intros H; [done|]. cbn [skips] in H. reflect_bools.
  cbn [app replace_loop] in *. by rewrite H, IH.
Qed.

Lemma replace_match c pat rep rest :
  replaceAll ((c :: pat) ++ rest) (c :: pat) rep = rep ++ replaceAll rest (c :: pat) rep.
Proof.
  unfold replaceAll. pose proof (startsWith_self (c :: pat) rest) as H. cbn [app replace_loop] in *. rewrite H.
  f_equal. cbn [length]. rewrite Nat.sub_succ, Nat.sub_0_r. generalize (c :: pat) as p. intros p. clear H.
  induction pat as [|d pat IH]; cbn; [done|exact IH].
Qed.

Definition stepOk (c : jchar) (pat rep : jstr) (f g : PatTok -> jstr) (t : PatTok) (rest : jstr) : Prop :=
  (f t = c :: pat /\ g t = rep) \/ (g t = f t /\ skips (c :: pat) (f t) rest = true).

Lemma replace_tokens c pat rep f g l :
  (forall l1 t l2, l = l1 ++ t :: l2 -> stepOk c pat rep f g t (flat_map f l2)) ->
  replaceAll (flat_map f l) (c :: pat) rep = flat_map g l.
Proof.
  induction l as [|t l IH]; intros H; [done|]. cbn [flat_map].
  assert (replaceAll (flat_map f l) (c :: pat) rep = flat_map g l) as IHl.
  { apply IH. intros l1 t' l2 ->. by apply (H (t :: l1)). }
  destruct (H [] t l eq_refl) as [[Hf Hg]|[Hg Hs]].
  - by rewrite Hf, Hg, replace_match, IHl.
  - by rewrite Hg, replaceAll_skip, IHl.
Qed.

Lemma replace_each c pat rep f g l :
  Forall (fun t => forall rest, stepOk c pat rep f g t rest) l ->
  replaceAll (flat_map f l) (c :: pat) rep = flat_map g l.
Proof.
  intros H. apply replace_tokens. intros l1 t l2 ->. apply Forall_app in H as [_ H].
  by apply Forall_cons in H as [H _].
Qed.

(** *** The six steps *)
Definition r1 (t : PatTok) : jstr := match t with PBack => ESCAPED_BACKSLASH_SENTINEL | _ => render t end.
Definition r2 (t : PatTok) : jstr := match t with PStar => ESCAPED_STAR_SENTINEL | _ => r1 t end.
Definition r3 (t : PatTok) : jstr := match t with PChar c => escapeSpecials [c] | _ => r2 t end.
Definition r4 (t : PatTok) : jstr := match t with PAny => js ".*" | _ => r3 t end.
Definition r5 (t : PatTok) : jstr := match t with PStar => js "\*" | _ => r4 t end.
Definition r6 (t : PatTok) : jstr := match t with PBack => js "\\" | _ => r5 t end.

(** A token that is not the mark, and does not hold its first unit. *)
Lemma step_other c pat rep (f g : PatTok -> jstr) t rest : g t = f t -> c ∉ f t -> stepOk c pat rep f g t rest.
Proof. intros Hg Hc. right. split; [done|]. by apply skips_absent. Qed.

Lemma step_mark c pat rep (f g : PatTok -> jstr) t rest : f t = c :: pat -> g t = rep -> stepOk c pat rep f g t rest.
Proof. by left. Qed.

(** The token is a fixed text. *)
Ltac step_fixed := apply step_other; [done|apply (bool_decide_unpack _); by vm_compute].

Lemma step1 l : Forall plainTok l ->
  replaceAll (pattern_of l) (js "\\") ESCAPED_BACKSLASH_SENTINEL = flat_map r1 l.
Proof.
  intros H. apply replace_each. eapply Forall_impl; [exact H|]. intros [| | |c] Ht rest.
  - by apply step_mark.
  - by right.
  - step_fixed.
  - apply step_other; [done|]. destruct Ht as (Hc & _). intros E%list_elem_of_singleton. exact (Hc (eq_sym E)).
Qed.

Lemma step2 l : Forall plainTok l ->
  replaceAll (flat_map r1 l) (js "\*") ESCAPED_STAR_SENTINEL = flat_map r2 l.
Proof.
  intros H. apply replace_each. eapply Forall_impl; [exact H|]. intros [| | |c] Ht rest.
  - step_fixed.
  - by apply step_mark.
  - step_fixed.
  - apply step_other; [done|]. destruct Ht as (Hc & _). intros E%list_elem_of_singleton. exact (Hc (eq_sym E)).
Qed.

Lemma step3 l : escapeSpecials (flat_map r2 l) = flat_map r3 l.
Proof.
  unfold escapeSpecials. induction l as [|t l IH]; [done|]. cbn [flat_map]. rewrite flat_map_app, IH. f_equal.
  by destruct t.
Qed.

Lemma escaped_units c : escapeSpecials [c] = [c] \/ (escapeSpecials [c] = [backslash; c] /\ isEscapedSpecial c = true).
Proof. unfold escapeSpecials. cbn. destruct (isEscapedSpecial c); auto. Qed.

Lemma escaped_absent d c : d <> backslash -> d <> c -> d ∉ escapeSpecials [c].
Proof. intros H1 H2. destruct (escaped_units c) as [->|[-> _]]; set_solver. Qed.

Lemma step4 l : Forall plainTok l -> replaceAll (flat_map r3 l) (js "*") (js ".*") = flat_map r4 l.
Proof.
  intros H. apply replace_each. eapply Forall_impl; [exact H|]. intros [| | |c] Ht rest.
  - step_fixed.
  - step_fixed.
  - by apply step_mark.
  - apply step_other; [done|]. apply escaped_absent; [done|]. by destruct Ht as (_ & ? & _).
Qed.

Lemma step6 l : Forall plainTok l ->
  replaceAll (flat_map r5 l) ESCAPED_BACKSLASH_SENTINEL (js "\\") = flat_map r6 l.
Proof.
  intros H. apply replace_each. eapply Forall_impl; [exact H|]. intros [| | |c] Ht rest.
  - by apply step_mark.
  - step_fixed.
  - step_fixed.
  - apply step_other; [done|]. apply escaped_absent; [done|]. by destruct Ht as (_ & _ & ?).
Qed.

(** A letter at the front of the text comes from a token of its own. *)
Lemma letter_first a p l : Forall plainTok l -> a ∉ 0%N :: backslash :: js "." ->
  startsWith (flat_map r4 l) (a :: p) = true ->
  exists l', l = PChar a :: l' /\ startsWith (flat_map r4 l') p = true.
Proof.
  intros Hl Ha H. destruct l as [|t l]; [done|]. cbn [flat_map] in H. apply not_elem_of_cons in Ha as [Ha0 Ha].
  apply not_elem_of_cons in Ha as [Hab Ha]. assert (a <> ch ".") as Had by set_solver. clear Ha.
  assert (forall x s, startsWith (x :: s) (a :: p) = true -> x = a /\ startsWith s p = true) as Hs.
  { intros x s Hx. cbn in Hx. reflect_bools. by apply N.eqb_eq in H0. }
  destruct t as [| | |c]; try (apply Hs in H as [<- _]; done).
  cbn [r4 r3] in H. destruct (escaped_units c) as [Hu|[Hu _]]; rewrite Hu in H.
  - apply Hs in H as [-> H]. by exists l.
  - apply Hs in H as [<- _]. done.
Qed.

Ltac step_letter := apply (bool_decide_unpack _); by vm_compute.

Lemma star_tail l : Forall plainTok l -> starTail l = false ->
  startsWith (flat_map r4 l) (js "STAR" ++ [0%N]) = false.
Proof.
  intros Hl Hs. apply not_true_is_false. intros H. cbn [js app] in H.
  apply letter_first in H as (l1 & -> & H); [|done|step_letter]. apply Forall_cons in Hl as [_ Hl].
  apply letter_first in H as (l2 & -> & H); [|done|step_letter]. apply Forall_cons in Hl as [_ Hl].
  apply letter_first in H as (l3 & -> & H); [|done|step_letter]. apply Forall_cons in Hl as [_ Hl].
  apply letter_first in H as (l4 & -> & H); [|done|step_letter]. apply Forall_cons in Hl as [_ Hl].
  destruct l4 as [|[| | |c] l4]; try done. apply Forall_cons in Hl as [(_ & _ & Hc) _].
  cbn [flat_map r4 r3] in H. destruct (escaped_units c) as [Hu|[Hu _]]; rewrite Hu in H; cbn [app startsWith] in H; [|done].
  reflect_bools. match goal with E : (_ =? _)%N = true |- _ => apply N.eqb_eq in E; congruence end.
Qed.

Lemma collides_suffix l1 t l2 : collides (l1 ++ t :: l2) = false -> t = PBack -> starTail l2 = false.
Proof.
  intros H ->. induction l1 as [|t l1 IH]; cbn in H; [by reflect_bools|]. apply IH. destruct t; by reflect_bools.
Qed.

Lemma step5 l : Forall plainTok l -> collides l = false ->
  replaceAll (flat_map r4 l) ESCAPED_STAR_SENTINEL (js "\*") = flat_map r5 l.
Proof.
  intros H Hc. apply replace_tokens. intros l1 t l2 ->. pose proof H as Hl. apply Forall_app in Hl as [_ Hl].
  apply Forall_cons in Hl as [Ht Hl]. destruct t as [| | |c].
  - right. split; [done|]. pose proof (collides_suffix _ _ _ Hc eq_refl) as Hs.
    pose proof (star_tail l2 Hl Hs) as Hn. cbn [js app] in Hn. cbn. cbn in Hn. rewrite Hn. done.
  - by apply step_mark.
  - step_fixed.
  - apply step_other; [done|]. apply escaped_absent; [done|]. by destruct Ht as (_ & _ & ?).
Qed.

Lemma wildcardSource_tokens l : Forall plainTok l -> collides l = false -> wildcardSource (pattern_of l) = flat_map r6 l.
Proof.
  intros H Hc. unfold wildcardSource. by rewrite step1, step2, step3, step4, step5, step6.
Qed.

Lemma special_syntax c : isEscapedSpecial c = true -> isSyntaxCharacter c = true.
Proof.
  unfold isEscapedSpecial, isSyntaxCharacter. rewrite !bool_decide_eq_true. intros H.
  repeat (apply elem_of_cons in H as [-> | H]; [apply (bool_decide_unpack _); by vm_compute|]).
  by apply elem_of_nil in H.
Qed.

Lemma syntax_special c : c <> backslash -> c <> ch "*" -> isSyntaxCharacter c = true -> isEscapedSpecial c = true.
Proof.
  unfold isEscapedSpecial, isSyntaxCharacter. rewrite !bool_decide_eq_true. intros H1 H2 H.
  repeat (apply elem_of_cons in H as [-> | H];
          [first [done | apply (bool_decide_unpack _); by vm_compute]|]).
  by apply elem_of_nil in H.
Qed.

Lemma parseSource_tokens l : Forall plainTok l -> parseSource (flat_map r6 l) = Some (map globOf l).
Proof.
  induction 1 as [|t l Ht Hl IH]; [done|]. cbn [flat_map map].
  destruct t as [| | |c]; [transitivity (cons (OneUnit backslash) <$> parseSource (flat_map r6 l))
    |transitivity (cons (OneUnit (ch "*")) <$> parseSource (flat_map r6 l))
    |transitivity (cons AnyRun <$> parseSource (flat_map r6 l))|];
    try (rewrite IH; done); try done.
  destruct Ht as (H1 & H2 & H3). cbn [r6 r5 r4 r3]. unfold escapeSpecials. cbn [flat_map].
  destruct (isEscapedSpecial c) eqn:He; cbn [app].
  - transitivity (if isSyntaxCharacter c then cons (OneUnit c) <$> parseSource (flat_map r6 l) else None); [done|].
    by rewrite special_syntax, IH.
  - cbn [parseSource]. rewrite (proj2 (N.eqb_neq c backslash)) by done.
    destruct (isSyntaxCharacter c) eqn:Hs; [apply syntax_special in Hs; [congruence|done|done]|].
    destruct (c =? ch ".")%N eqn:Hd; [by apply N.eqb_eq in Hd as ->|]. by rewrite IH.
Qed.

(** C28: a wildcard pattern matches as documented, ignoring case: a star any run of
    units of one line, an escaped star or backslash itself, every other unit
    itself, whatever it means in a regular expression.  The pattern is made of stars,
    escaped stars, escaped backslashes and other units than the backslash and NUL, so
    every backslash of it is escaped or escapes a star, and the text [STAR] does not
    stand between an escaped backslash and another escape ([collides]). *)
Theorem wildcards_match_as_documented canonicalize otherRegExp (toks : list PatTok) (command : jstr) :
  Forall plainTok toks -> collides toks = false ->
  matchWildcardPattern canonicalize otherRegExp command (pattern_of toks) = true <->
  Matches canonicalize (map globOf toks) command.
Proof.
  intros Ht Hc. unfold matchWildcardPattern, compileWildcardPattern, RegExp.
  by rewrite wildcardSource_tokens, parseSource_tokens, globTest_spec.
Qed.

Definition samplePattern : list PatTok :=
  [PChar (ch "a"); PChar (ch "."); PBack; PStar; PAny; PChar (ch "(")].

Lemma wildcards_match_as_documented_witness :
  Forall plainTok samplePattern /\ collides samplePattern = false /\
  pattern_of samplePattern = js "a.\\\**(" /\
  (matchWildcardPattern id (fun _ => None) (js "a.\* x(") (pattern_of samplePattern) = true <->
   Matches id (map globOf samplePattern) (js "a.\* x(")) /\
  matchWildcardPattern id (fun _ => None) (js "a.\* x(") (pattern_of samplePattern) = true.
Proof.
  assert (Forall plainTok samplePattern) as H by (by repeat constructor).
  split; [exact H|]. split; [by vm_compute|]. split; [by vm_compute|]. split; [|by vm_compute].
  apply (wildcards_match_as_documented id (fun _ => None) samplePattern (js "a.\* x(")); [exact H|by vm_compute].
Defined.

(** ** Where the marks and the tests miss

    A star does not cross a line break, so a deny rule misses an argument that holds one. *)
Lemma star_stops_at_a_line_break :
  matchShellRule id (fun _ => None) (js "rm 'a" ++ newline :: js "b'") (parseShellRule (js "rm *")) = false.
Proof. by vm_compute. Qed.

(** The marks collide: the pattern of a backslash, [STAR], a backslash, does not
    match its own text. *)
Lemma marks_collide :
  pattern_of [PBack; PChar (ch "S"); PChar (ch "T"); PChar (ch "A"); PChar (ch "R"); PBack; PAny] = js "\\STAR\\*"
  /\ matchWildcardPattern id (fun _ => None) (js "\STAR\x") (js "\\STAR\\*") = false.
Proof. by vm_compute. Qed.

(** A star after an escaped backslash counts as escaped: the rule is exact, and
    matches only the text with both backslashes. *)
Lemma escaped_backslash_hides_a_star : parseShellRule (js "dir \\*") = RuleExact (js "dir \\*").
Proof. by vm_compute. Qed.

(** A command approved once approves its extensions. *)
Lemma approval_covers_more_arguments :
  matchShellRule id (fun _ => None) (js "git push --force") (parseShellRule (encodeArgvPrefixRule [js "git"; js "push"]))
    = true.
Proof. by vm_compute. Qed.
