(* ===== verification/BashWrappers.v ===== *)
(** * Transparent wrappers and first words

    [packages/agent-modules/permission/src/tools/bash-wrapper-unwrap.ts] (the
    wrappers a rule looks through), [bash-fast-allow.ts] and
    [bash-safe-first-words.ts].  A loop over an index of the token array is a
    recursion on the tokens from that index on; [undefined] tokens past the end
    are [nth] with the default the code names. *)
From S2P Require Import Prelude ShellTokenize ShellSplit BashAst.

(** [tokens[i] ?? '']. *)
Definition tok (tokens : list jstr) (i : nat) : jstr := nth i tokens [].

Section Tables.
(** [String.prototype.toLowerCase]. *)
Context (toLowerCase : jstr -> jstr).

(** ** Flags of the wrappers *)

(** [/^-[...]$/] for a class of letters. *)
Definition shortFlag (letters : jstr) (t : jstr) : bool :=
  match t with [d; c] => (d =? ch "-")%N && bool_decide (c ∈ letters) | _ => false end.

Definition XARGS_VALUED_SHORT : jstr -> bool := shortFlag (js "dEILnPs").
Definition WATCH_VALUED_SHORT : jstr -> bool := shortFlag (js "n").
Definition PARALLEL_VALUED_SHORT : jstr -> bool := shortFlag (js "dEIjLNnPs").
(** [/^$/], which no flag matches. *)
Definition SETSID_VALUED_SHORT (t : jstr) : bool := negb (truthy t).

Fixpoint valued_loop (valuedShort : jstr -> bool) (rest : list jstr) (j : nat) : nat :=
  match rest with
  | [] => j
  | t :: rest' =>
      if str_eqb t (js "--") then S j
      else if negb (startsWith t (js "-")) then j
      else if valuedShort t then
        match rest' with
        | _ :: rest'' => valued_loop valuedShort rest'' (S (S j))
        | [] => S (S j)
        end
      else valued_loop valuedShort rest' (S j)
  end.

Definition consumeValuedShortFlagPrefix (tokens : list jstr) (startIdx : nat) (valuedShort : jstr -> bool) : option nat :=
  Some (valued_loop valuedShort (drop startIdx tokens) startIdx).

Definition consumeXargsPrefix (tokens : list jstr) (startIdx : nat) : option nat :=
  consumeValuedShortFlagPrefix tokens (S startIdx) XARGS_VALUED_SHORT.

Fixpoint command_loop (rest : list jstr) (j : nat) : option nat :=
  match rest with
  | [] => Some j
  | t :: rest' =>
      if mem t [js "-v"; js "-V"; js "--help"; js "--version"] then None
      else if str_eqb t (js "-p") then command_loop rest' (S j)
      else if str_eqb t (js "--") then Some (S j)
      else Some j
  end.

Definition consumeCommandBuiltinPrefix (tokens : list jstr) (startIdx : nat) : option nat :=
  command_loop (drop (S startIdx) tokens) (S startIdx).

(** [/^\d+$/], [/^-\d+$/] and [/^-?\d+$/]. *)
Definition digits (s : jstr) : bool := match s with [] => false | _ => forallb isDigit s end.
Definition minusDigits (s : jstr) : bool := match s with c :: s' => (c =? ch "-")%N && digits s' | [] => false end.
Definition maybeMinusDigits (s : jstr) : bool := digits s || minusDigits s.

Fixpoint nice_loop (rest : list jstr) (j : nat) : option nat :=
  match rest with
  | [] => Some j
  | t :: rest' =>
      if str_eqb t (js "--") then Some (S j)
      else
        let valueNext := match rest' with v :: _ => maybeMinusDigits v | [] => false end in
        if str_eqb t (js "-n") && valueNext then
          match rest' with _ :: rest'' => nice_loop rest'' (S (S j)) | [] => None end
        else if minusDigits t then nice_loop rest' (S j)
        else if str_eqb t (js "--adjustment") || startsWith t (js "--adjustment=") then
          if includes t (js "=") then nice_loop rest' (S j)
          else if valueNext then
            match rest' with _ :: rest'' => nice_loop rest'' (S (S j)) | [] => None end
          else None
        else Some j
  end.

Definition consumeNicePrefix (tokens : list jstr) (startIdx : nat) : option nat :=
  nice_loop (drop (S startIdx) tokens) (S startIdx).

(** The duration expression: [inf], [infinity], or digits, an optional fraction,
    an optional unit, and groups of digits with a unit; case is ignored.  Digits are
    read to their end: giving some of them back never changes what is accepted. *)
Fixpoint spanDigits (s : jstr) : jstr * jstr :=
  match s with
  | c :: s' => if isDigit c then let '(d, r) := spanDigits s' in (c :: d, r) else ([], s)
  | [] => ([], [])
  end.

Definition isUnitLetter (c : jchar) : bool := bool_decide (c ∈ js "smhdSMHD").

(** The groups to the end: [seen] when a digit of the current group was read. *)
Fixpoint durationGroups (s : jstr) (seen : bool) : bool :=
  match s with
  | [] => negb seen
  | c :: s' =>
      if isDigit c then durationGroups s' true
      else seen && isUnitLetter c && durationGroups s' false
  end.

Definition asciiLower (c : jchar) : jchar := (if (65 <=? c) && (c <=? 90) then c + 32 else c)%N.

Definition isDuration (dur : jstr) : bool :=
  mem (map asciiLower dur) [js "inf"; js "infinity"]
  || match spanDigits dur with
     | ([], _) => false
     | (_, r) =>
         let afterFraction (r : jstr) :=
           match r with
           | [] => true
           | c :: r' => isUnitLetter c && durationGroups r' false
           end in
         match r with
         | c :: r' =>
             if (c =? ch ".")%N then
               match spanDigits r' with ([], _) => false | (_, r'') => afterFraction r'' end
             else afterFraction r
         | [] => true
         end
     end.

(** The flags of [timeout]: the index of the duration and the tokens from it on. *)
Fixpoint timeout_loop (rest : list jstr) (j : nat) : option (nat * jstr) :=
  match rest with
  | [] => Some (j, [])
  | t :: rest' =>
      if negb (startsWith t (js "-")) then Some (j, t)
      else if mem t [js "-k"; js "--kill-after"; js "-s"; js "--signal"] then
        match rest' with
        | _ :: rest'' => timeout_loop rest'' (S (S j))
        | [] => Some (S (S j), [])
        end
      else if mem t [js "--preserve-status"; js "--foreground"; js "-v"; js "--verbose"]
      then timeout_loop rest' (S j)
      else None
  end.

Definition consumeTimeoutPrefix (tokens : list jstr) (startIdx : nat) : option nat :=
  match timeout_loop (drop (S startIdx) tokens) (S startIdx) with
  | None => None
  | Some (j, dur) => if isDuration dur then Some (S j) else None
  end.

(** ** [consumeShellWrapperPrefix] *)

(** [p.split('/').pop()] on an absolute path; other names stay. *)
Definition commandName (head : jstr) : jstr :=
  match head with
  | c :: _ => if (c =? ch "/")%N then default head (last (split head (js "/"))) else head
  | [] => head
  end.

Definition wrapperEnd (tokens : list jstr) (i : nat) (exe : jstr) : option (option nat) :=
  if str_eqb exe (js "xargs") then Some (consumeXargsPrefix tokens i)
  else if str_eqb exe (js "nohup") then Some (Some (S i))
  else if str_eqb exe (js "setsid") then Some (consumeValuedShortFlagPrefix tokens (S i) SETSID_VALUED_SHORT)
  else if str_eqb exe (js "command") then Some (consumeCommandBuiltinPrefix tokens i)
  else if str_eqb exe (js "nice") then Some (consumeNicePrefix tokens i)
  else if str_eqb exe (js "timeout") then Some (consumeTimeoutPrefix tokens i)
  else if str_eqb exe (js "parallel") then Some (consumeValuedShortFlagPrefix tokens (S i) PARALLEL_VALUED_SHORT)
  else if str_eqb exe (js "watch") then Some (consumeValuedShortFlagPrefix tokens (S i) WATCH_VALUED_SHORT)
  else None.

(** [strips] wrappers may still be taken; the code starts with four. *)
Fixpoint wrapper_loop (strips : nat) (tokens : list jstr) (i : nat) : nat :=
  match strips, tokens !! i with
  | S strips', Some (c :: name) =>
      match wrapperEnd tokens i (toLowerCase (commandName (c :: name))) with
      | Some (Some next) =>
          if (next <=? i)%nat || (length tokens <=? next)%nat then i else wrapper_loop strips' tokens next
      | _ => i
      end
  | _, _ => i
  end.

Definition consumeShellWrapperPrefix (tokens : list jstr) (startIdx : nat) : nat :=
  wrapper_loop 4 tokens startIdx.

(** ** Environment prefixes *)

(** The index of the first token from [i] on that is no assignment. *)
Fixpoint assignments_loop (rest : list jstr) (i : nat) : nat :=
  match rest with
  | t :: rest' => if isAssignment t then assignments_loop rest' (S i) else i
  | [] => i
  end.
Definition skipAssignments (tokens : list jstr) (i : nat) : nat := assignments_loop (drop i tokens) i.

Definition tok_is (tokens : list jstr) (i : nat) (s : jstr) : bool := bool_decide (tokens !! i = Some s).

Definition consumeEnvVarPrefix (tokens : list jstr) (startIdx : nat) : nat :=
  let i := skipAssignments tokens startIdx in
  if tok_is tokens i (js "env") then
    let j := S i in
    let j := if tok_is tokens j (js "-i") then S j else j in
    let j := if tok_is tokens j (js "--") then S j else j in
    let j := skipAssignments tokens j in
    if (j <? length tokens)%nat then j else i
  else i.

Definition stripTransparentWrappersForRuleMatch (command : jstr) : option jstr :=
  let tokens := shellTokenize command in
  match tokens with
  | [] => None
  | _ =>
      let afterEnv := consumeEnvVarPrefix tokens 0 in
      let innerIdx := consumeShellWrapperPrefix tokens afterEnv in
      if (innerIdx <=? 0)%nat || (length tokens <=? innerIdx)%nat then None
      else match drop innerIdx tokens with
           | head :: rest => Some (join (js " ") (commandName head :: rest))
           | [] => None
           end
  end.

(** ** [pureReadFirstWord] *)

(** [command.replace(/\\\r?\n/g, ' ')]. *)
Fixpoint joinContinuations (s : jstr) : jstr :=
  match s with
  | c :: s1 =>
      match s1 with
      | d :: s2 =>
          if (c =? backslash)%N && (d =? newline)%N then 32%N :: joinContinuations s2
          else match s2 with
               | e :: s3 =>
                   if (c =? backslash)%N && (d =? cr)%N && (e =? newline)%N
                   then 32%N :: joinContinuations s3
                   else c :: joinContinuations s1
               | [] => c :: joinContinuations s1
               end
      | [] => [c]
      end
  | [] => []
  end.

(** The names assigned by tokens [i..j-1]: the text before the first [=]. *)
Fixpoint beforeEq (t : jstr) : jstr :=
  match t with c :: t' => if (c =? ch "=")%N then [] else c :: beforeEq t' | [] => [] end.
Definition assignedBetween (tokens : list jstr) (i j : nat) : list jstr :=
  map beforeEq (take (j - i) (drop i tokens)).

(** [/\w/]. *)
Definition isWordUnit (c : jchar) : bool := isAlpha_ c || isDigit c.

(** A use of the variable at the front: [$v] and a word boundary, or [${v}] or [${v:]. *)
Definition usesVariableAt (v s : jstr) : bool :=
  (startsWith s (ch "$" :: v)
   && match drop (S (length v)) s with c :: _ => negb (isWordUnit c) | [] => true end)
  || (startsWith s (js "${" ++ v)
      && match drop (S (S (length v))) s with c :: _ => (c =? ch "}")%N || (c =? ch ":")%N | [] => false end).

Fixpoint usesVariable (v s : jstr) : bool :=
  usesVariableAt v s || match s with [] => false | _ :: s' => usesVariable v s' end.

Definition pureReadFirstWord (command : jstr) : option jstr :=
  let tokens := shellTokenize (trim (joinContinuations command)) in
  let i := skipAssignments tokens 0 in
  let assigned := assignedBetween tokens 0 i in
  let '(i, assigned) :=
    if tok_is tokens i (js "env") then
      let j0 := if tok_is tokens (S i) (js "-i") then S (S i) else S i in
      let j := skipAssignments tokens j0 in
      (if (j <? length tokens)%nat then j else i, assigned ++ assignedBetween tokens j0 j)
    else (i, assigned) in
  let i := consumeShellWrapperPrefix tokens i in
  match tokens !! i with
  | None | Some [] => None
  | Some first =>
      let tail := join (js " ") (drop (S i) tokens) in
      if existsb (fun v => usesVariable v tail) assigned then None
      else Some (toLowerCase (commandName first))
  end.

(** ** [SAFE_BASH_FIRST_WORDS] *)
Definition SAFE_BASH_FIRST_WORDS : list jstr :=
  [js "ls"; js "cat"; js "head"; js "tail"; js "wc"; js "sort"; js "uniq"; js "diff"; js "file";
   js "stat"; js "du"; js "df"; js "tree"; js "which"; js "type"; js "whereis"; js "date";
   js "whoami"; js "hostname"; js "uname"; js "echo"; js "printf"; js "pwd"; js "printenv";
   js "find"; js "fd"; js "rg"; js "ag"; js "ack"; js "grep"; js "nl"; js "less"; js "more";
   js "cd"; js "test"; js "["; js "true"; js "false"; js "exit"; js "jq"; js "yq"; js "tr";
   js "cut"; js "sed"; js "tar"; js "zip"; js "unzip"; js "gzip"; js "gunzip"; js "pdftotext";
   js "pandoc"; js "mkdir"; js "touch"; js "sqlite3"; js "bash"; js "sh"; js "zsh"; js "dash";
   js "npm"; js "npx"; js "yarn"; js "pnpm"; js "bun"; js "pip"; js "pip3"; js "uv"; js "poetry";
   js "cargo"; js "rustc"; js "go"; js "gcc"; js "g++"; js "make"; js "cmake"; js "jest";
   js "vitest"; js "pytest"; js "mocha"; js "eslint"; js "prettier"; js "tsc"; js "git"; js "glab";
   js "gh"; js "ps"; js "kill"; js "pkill"; js "lsof"; js "strings"; js "hexdump"; js "xxd";
   js "otool"; js "nm"; js "objdump"; js "readelf"; js "sleep"; js "wait"; js "disown"; js "md5";
   js "md5sum"; js "sha1sum"; js "sha224sum"; js "sha256sum"; js "sha384sum"; js "sha512sum";
   js "shasum"; js "cksum"; js "lark-cli"; js "matrix-cli"; js "archon"; js "mavis";
   js "mavis-trash"; js "trash-put"; js "trash"; js "export"; js "unset"; js "for"; js "while";
   js "until"; js "select"; js "do"; js "done"; js "if"; js "then"; js "else"; js "elif"; js "fi";
   js "case"; js "esac"; js "in"].

(** ** [isDestructiveKillCommand] *)
Definition SIGKILL_NAMES : list jstr := [js "9"; js "kill"; js "sigkill"].
Definition SIGKILL_NAME_TOKEN (t : jstr) : bool := mem (map asciiLower t) SIGKILL_NAMES.
Definition SIGKILL_SHORT_TOKEN (t : jstr) : bool :=
  match t with c :: t' => (c =? ch "-")%N && SIGKILL_NAME_TOKEN t' | [] => false end.
Definition SIGKILL_LONG_EQ_TOKEN (t : jstr) : bool :=
  let l := map asciiLower t in startsWith l (js "--signal=") && mem (drop 9 l) SIGKILL_NAMES.

Definition extractKillCommandWordFromTokens (tokens : list jstr) : jstr :=
  let i := skipAssignments tokens 0 in
  let i :=
    if tok_is tokens i (js "env") then
      let j := if tok_is tokens (S i) (js "-i") then S (S i) else S i in
      let j := skipAssignments tokens j in
      if (j <? length tokens)%nat then j else i
    else i in
  toLowerCase (commandName (tok tokens i)).

Fixpoint kill_loop (tokens : list jstr) : bool :=
  match tokens with
  | [] => false
  | t :: rest =>
      SIGKILL_SHORT_TOKEN t || SIGKILL_LONG_EQ_TOKEN t
      || (mem t [js "-s"; js "--signal"] && match rest with n :: _ => SIGKILL_NAME_TOKEN n | [] => false end)
      || kill_loop rest
  end.

Definition isDestructiveKillCommand (command : jstr) (normalizedFirstWord : option jstr) : bool :=
  let tokens := shellTokenize (trim command) in
  let cmdWord := toLowerCase (match normalizedFirstWord with
                              | Some w => w
                              | None => extractKillCommandWordFromTokens tokens
                              end) in
  if negb (mem cmdWord [js "kill"; js "pkill"]) then false else kill_loop tokens.
End Tables.
