(* ===== verification/BashSurface.v ===== *)
(** * The text of a command that a shell would run

    [packages/agent-modules/permission/src/tools/bash-safety-scan.ts]: heredoc
    bodies, printed data and quoted text options are taken out before the
    patterns look at a command, unless a shell executes them.  The table of
    dangerous patterns is a parameter. *)
From S2P Require Import Prelude ShellTokenize ShellSplit BashAst BashWrappers.

Definition STDIN_CODE_INTERPRETERS : list jstr :=
  [js "bash"; js "sh"; js "zsh"; js "fish"; js "ksh"; js "dash"; js "node"; js "deno"; js "python";
   js "python3"; js "ruby"].
Definition SHELL_WRAPPERS : list jstr := [js "sudo"; js "env"; js "command"; js "exec"].
Definition TEXT_DATA_LONG_OPTIONS : list jstr :=
  [js "--body"; js "--caption"; js "--comment"; js "--content"; js "--description"; js "--markdown";
   js "--message"; js "--note"; js "--prompt"; js "--reason"; js "--text"; js "--title"].

(** ** [HEREDOC_PATTERN]

    [<<], an optional dash, blanks, and a delimiter: in double quotes, in single
    quotes, or a run of units that end no word.  A quote that is not closed, or
    closed at once, is read as such a run, and so is a dash nothing follows. *)
Definition endsWord (c : jchar) : bool :=
  isWhite c || (c =? ch ";")%N || (c =? ch "&")%N || (c =? ch "|")%N || (c =? ch "<")%N || (c =? ch ">")%N.

Fixpoint spanUntil (stop : jchar -> bool) (s : jstr) : jstr * jstr :=
  match s with
  | c :: s' => if stop c then ([], s) else let '(w, r) := spanUntil stop s' in (c :: w, r)
  | [] => ([], [])
  end.

Definition quotedDelimiter (q : jchar) (s : jstr) : option (jstr * jstr) :=
  match spanUntil (N.eqb q) s with
  | (c :: w, _ :: rest) => Some (c :: w, rest)
  | _ => None
  end.

(** After [<<] and the dash: the delimiter and the rest. *)
Definition heredocDelimiter (s : jstr) : option (jstr * jstr) :=
  match dropWhile isWhite s with
  | [] => None
  | c :: s' =>
      let run := match spanUntil endsWord (c :: s') with ([], _) => None | (w, r) => Some (w, r) end in
      if (c =? dquote)%N || (c =? squote)%N then
        match quotedDelimiter c s' with Some m => Some m | None => run end
      else run
  end.

Definition heredocAt (s : jstr) : option (jstr * jstr) :=
  if startsWith s (js "<<") then
    match drop 2 s with
    | c :: s' =>
        if (c =? ch "-")%N then
          match heredocDelimiter s' with Some m => Some m | None => heredocDelimiter (c :: s') end
        else heredocDelimiter (c :: s')
    | [] => None
    end
  else None.

(** The leftmost match: the text before it, whether it begins with [<<-], the
    delimiter and the text after it. *)
Record HeredocMatch := { hm_before : jstr; hm_dash : bool; hm_delimiter : jstr; hm_after : jstr }.

Fixpoint heredocMatch_go (before s : jstr) : option HeredocMatch :=
  match heredocAt s with
  | Some (d, r) => Some {| hm_before := before; hm_dash := startsWith s (js "<<-"); hm_delimiter := d; hm_after := r |}
  | None => match s with [] => None | c :: s' => heredocMatch_go (before ++ [c]) s' end
  end.
Definition heredocMatch (s : jstr) : option HeredocMatch := heredocMatch_go [] s.

Definition hasHeredocMark (s : jstr) : bool := match heredocMatch s with Some _ => true | None => false end.

(** ** Pipes and interpreters *)
Fixpoint unquotedPipe_loop (s : jstr) (i : nat) (q : Quotes) : option nat :=
  match s with
  | [] => None
  | c :: s1 =>
      match quoteStep q c with
      | Some q' => unquotedPipe_loop s1 (S i) q'
      | None =>
          if (c =? ch "|")%N && negb (inSingle q) && negb (inDouble q) && negb (is_unit (head s1) (ch "|"))
          then Some i
          else unquotedPipe_loop s1 (S i) q
      end
  end.
Definition findUnquotedPipe (input : jstr) : option nat := unquotedPipe_loop input 0 noQuotes.
Definition hasUnquotedPipe (input : jstr) : bool := match findUnquotedPipe input with Some _ => true | None => false end.

(** The tokens after [env]: its flags and assignments. *)
Definition isEnvArgument (t : jstr) : bool := startsWith t (js "-") || includes t (js "=").

(** The tokens from [skipShellWrappers(tokens)] on; the fuel bounds their number. *)
Fixpoint skipShellWrappers (fuel : nat) (tokens : list jstr) : list jstr :=
  match fuel, tokens with
  | S fuel', w :: rest =>
      if negb (mem w SHELL_WRAPPERS) then tokens
      else
        let rest1 := if str_eqb w (js "env") then dropWhile isEnvArgument rest else rest in
        let rest2 := if str_eqb w (js "command")
                     then match rest1 with t :: r => if str_eqb t (js "--") then r else rest1 | [] => [] end
                     else rest1 in
        skipShellWrappers fuel' rest2
  | _, _ => tokens
  end.

(** [token?.split('/').pop()]. *)
Definition isStdinCodeInterpreterToken (token : option jstr) : bool :=
  match token with
  | None => false
  | Some t => mem (default [] (last (split t (js "/")))) STDIN_CODE_INTERPRETERS
  end.

Definition runsInterpreter (tokens : list jstr) : bool :=
  isStdinCodeInterpreterToken (head (skipShellWrappers (length tokens) tokens)).

Definition hasUnquotedPipeToShell (input : jstr) : bool :=
  match findUnquotedPipe input with
  | None => false
  | Some pipeIndex => runsInterpreter (shellTokenize (trim (drop (S pipeIndex) input)))
  end.

Definition startsWithShellInterpreter (commandLine : jstr) : bool :=
  let withoutHeredoc := match heredocMatch commandLine with
                        | Some m => hm_before m ++ hm_after m
                        | None => commandLine
                        end in
  runsInterpreter (shellTokenize withoutHeredoc).

Definition heredocBodyIsExecuted (commandLine : jstr) : bool :=
  hasUnquotedPipeToShell commandLine || startsWithShellInterpreter commandLine.

(** ** Heredoc bodies *)

(** [text.replace(/\r\n/g, '\n')]. *)
Fixpoint unixLines (s : jstr) : jstr :=
  match s with
  | c :: s1 =>
      match s1 with
      | d :: s2 => if (c =? cr)%N && (d =? newline)%N then newline :: unixLines s2 else c :: unixLines s1
      | [] => [c]
      end
  | [] => []
  end.

Definition commandHasExecutedHeredocBody (command : jstr) : bool :=
  if hasHeredocMark command then
    existsb (fun line => hasHeredocMark line && heredocBodyIsExecuted line) (split (unixLines command) [newline])
  else false.

(** The inner loop: the body, the terminator line if there is one, the lines after it. *)
Fixpoint readBody (dash : bool) (delimiter : jstr) (lines : list jstr) : list jstr * option jstr * list jstr :=
  match lines with
  | [] => ([], None, [])
  | bodyLine :: rest =>
      let comparable := if dash then dropWhile (N.eqb 9) bodyLine else bodyLine in
      if str_eqb comparable delimiter then ([], Some bodyLine, rest)
      else let '(body, t, r) := readBody dash delimiter rest in (bodyLine :: body, t, r)
  end.

(** The outer loop: the lines kept; the fuel bounds the lines left. *)
Fixpoint keptLines (fuel : nat) (lines : list jstr) : list jstr :=
  match fuel, lines with
  | S fuel', line :: rest =>
      match heredocMatch line with
      | None => line :: keptLines fuel' rest
      | Some m =>
          let '(body, terminator, rest') := readBody (hm_dash m) (hm_delimiter m) rest in
          line :: (if heredocBodyIsExecuted line then body else [])
          ++ match terminator with Some t => [t] | None => [] end ++ keptLines fuel' rest'
      end
  | _, _ => []
  end.

Definition stripNonExecutedHeredocBodies (command : jstr) : jstr :=
  if hasHeredocMark command then
    let lines := split (unixLines command) [newline] in
    join [newline] (keptLines (length lines) lines)
  else command.

(** ** Printed data *)
Definition stripNonExecutedEchoPrintfData (command : jstr) : jstr :=
  match shellTokenize (trim command) with
  | firstWord :: _ =>
      if mem firstWord [js "echo"; js "printf"]
         && negb (includes command [backtick] || includes command (js "$(") || includes command (js "\x"))
         && negb (existsb (fun c => (c =? ch "<")%N || (c =? ch ">")%N) command)
         && negb (existsb (fun c => (c =? ch ";")%N || (c =? ch "&")%N) command)
         && negb (hasUnquotedPipe command)
      then firstWord else command
  | [] => command
  end.

(** ** Text options *)
Record ShellTokenSpan := { sp_raw : jstr; sp_value : jstr; sp_start : nat; sp_end : nat }.

(** The locals of [shellTokenizeWithSpans]; [sp_at] is [start], [None] for [-1]. *)
Record SpanState := { sp_tokens : list ShellTokenSpan; sp_rawSoFar : jstr; sp_valueSoFar : jstr; sp_at : option nat }.

Definition pushToken (e : nat) (st : SpanState) : SpanState :=
  match sp_at st with
  | None => st
  | Some b =>
      {| sp_tokens := sp_tokens st ++ [{| sp_raw := sp_rawSoFar st; sp_value := sp_valueSoFar st; sp_start := b; sp_end := e |}];
         sp_rawSoFar := []; sp_valueSoFar := []; sp_at := None |}
  end.

Definition addRaw (c : jchar) (st : SpanState) : SpanState :=
  {| sp_tokens := sp_tokens st; sp_rawSoFar := sp_rawSoFar st ++ [c]; sp_valueSoFar := sp_valueSoFar st; sp_at := sp_at st |}.
Definition addBoth (c : jchar) (st : SpanState) : SpanState :=
  {| sp_tokens := sp_tokens st; sp_rawSoFar := sp_rawSoFar st ++ [c]; sp_valueSoFar := sp_valueSoFar st ++ [c]; sp_at := sp_at st |}.
Definition beginAt (i : nat) (c : jchar) (st : SpanState) : SpanState :=
  match sp_at st with
  | Some _ => st
  | None => if isWhite c then st
            else {| sp_tokens := sp_tokens st; sp_rawSoFar := sp_rawSoFar st; sp_valueSoFar := sp_valueSoFar st; sp_at := Some i |}
  end.

Fixpoint spans_loop (s : jstr) (i : nat) (st : SpanState) (q : Quotes) : SpanState :=
  match s with
  | [] => st
  | c :: s1 =>
      let st := beginAt i c st in
      match quoteStep q c with
      | Some q' => spans_loop s1 (S i) (if isEscaped q then addBoth c st else addRaw c st) q'
      | None =>
          if isWhite c && negb (inSingle q) && negb (inDouble q) then spans_loop s1 (S i) (pushToken i st) q
          else spans_loop s1 (S i) (addBoth c st) q
      end
  end.

Definition shellTokenizeWithSpans (input : jstr) : list ShellTokenSpan :=
  let init := {| sp_tokens := []; sp_rawSoFar := []; sp_valueSoFar := []; sp_at := None |} in
  sp_tokens (pushToken (length input) (spans_loop input 0 init noQuotes)).

Definition isMaskableLongOption (option : jstr) : bool := mem option TEXT_DATA_LONG_OPTIONS.

(** A value in a token: what it is, its quote, where it lies. *)
Record OptionValue := { ov_rawValue : jstr; ov_quote : jchar; ov_start : nat; ov_end : nat }.

Definition isOptionUnit (c : jchar) : bool :=
  (isAlpha_ c || isDigit c || (c =? ch ".")%N || (c =? ch "-")%N).
Definition isOptionFirst (c : jchar) : bool := (isAlpha_ c && negb (c =? ch "_")%N) || isDigit c.

(** A long option, [=] and a quote at the front: the option and the quote. *)
Definition longOptionEquals (raw : jstr) : option (jstr * jchar) :=
  match raw with
  | a :: b :: c :: rest =>
      if (a =? ch "-")%N && (b =? ch "-")%N && isOptionFirst c then
        match spanUntil (fun u => negb (isOptionUnit u)) rest with
        | (name, e :: q :: _) =>
            if (e =? ch "=")%N && ((q =? squote)%N || (q =? dquote)%N)
            then Some (a :: b :: c :: name, q) else None
        | _ => None
        end
      else None
  | _ => None
  end.

Definition getLongOptionEqualsValue (raw : jstr) : option (jstr * OptionValue) :=
  match longOptionEquals raw with
  | None => None
  | Some (option, quote) =>
      let valueStart := length option + 2 in
      if negb (isMaskableLongOption option) || (length raw <? valueStart + 1)%nat
         || negb (bool_decide (last raw = Some quote)) then None
      else
        let valueEnd := length raw - 1 in
        Some (option, {| ov_rawValue := slice raw valueStart valueEnd; ov_quote := quote;
                         ov_start := valueStart; ov_end := valueEnd |})
  end.

Definition getFullyQuotedTokenValue (raw : jstr) : option OptionValue :=
  if (length raw <? 2)%nat then None
  else match head raw with
       | None => None
       | Some quote =>
           if negb ((quote =? dquote)%N || (quote =? squote)%N) || negb (bool_decide (last raw = Some quote)) then None
           else Some {| ov_rawValue := slice raw 1 (length raw - 1); ov_quote := quote;
                        ov_start := 1; ov_end := length raw - 1 |}
       end.

Fixpoint expansionIn (s : jstr) (esc : bool) : bool :=
  match s with
  | [] => false
  | c :: s1 =>
      if esc then expansionIn s1 false
      else if (c =? backslash)%N then expansionIn s1 true
      else if (c =? backtick)%N then true
      else if (c =? ch "$")%N && is_unit (head s1) (ch "(") then true
      else if ((c =? ch "<")%N || (c =? ch ">")%N) && is_unit (head s1) (ch "(") then true
      else expansionIn s1 false
  end.

Definition containsExecutableExpansion (rawValue : jstr) (quote : jchar) : bool :=
  if (quote =? squote)%N then false else expansionIn rawValue false.

Definition shouldMaskLongOptionValue (option : jstr) (v : OptionValue) : bool :=
  isMaskableLongOption option && negb (containsExecutableExpansion (ov_rawValue v) (ov_quote v)).

(** Replacements, as ranges of the command. *)
Fixpoint maskRanges (tokens : list ShellTokenSpan) : list (nat * nat) :=
  match tokens with
  | [] => []
  | token :: rest =>
      let equals := match getLongOptionEqualsValue (sp_raw token) with
                    | Some (option, v) => if shouldMaskLongOptionValue option v then Some v else None
                    | None => None
                    end in
      match equals with
      | Some v => (sp_start token + ov_start v, sp_start token + ov_end v)%nat :: maskRanges rest
      | None =>
          if negb (isMaskableLongOption (sp_value token)) then maskRanges rest
          else match rest with
               | [] => []
               | next :: rest' =>
                   match getFullyQuotedTokenValue (sp_raw next) with
                   | Some v =>
                       if shouldMaskLongOptionValue (sp_value token) v
                       then (sp_start next + ov_start v, sp_start next + ov_end v)%nat :: maskRanges rest'
                       else maskRanges rest
                   | None => maskRanges rest
                   end
               end
      end
  end.

(** The output loop. *)
Fixpoint applyMasks (command : jstr) (cursor : nat) (ranges : list (nat * nat)) : jstr :=
  match ranges with
  | [] => drop cursor command
  | (b, e) :: rest => slice command cursor b ++ js "<option-value>" ++ applyMasks command e rest
  end.

Definition stripNonExecutedOptionValues (command : jstr) : jstr :=
  match maskRanges (shellTokenizeWithSpans command) with
  | [] => command
  | ranges => applyMasks command 0 ranges
  end.

Definition getShellPermissionCheckSurface (command : jstr) : jstr :=
  stripNonExecutedEchoPrintfData (stripNonExecutedOptionValues (stripNonExecutedHeredocBodies command)).

(** ** The scans *)
Fixpoint rm_loop (s : jstr) (q : Quotes) (atBoundary : bool) : bool :=
  match s with
  | [] => false
  | c :: s1 =>
      match quoteStep q c with
      | Some q' => rm_loop s1 q' false
      | None =>
          if inSingle q || inDouble q then rm_loop s1 q false
          else if (c =? ch ";")%N || (c =? ch "&")%N || (c =? newline)%N then rm_loop s1 q true
          else if (c =? ch "|")%N then rm_loop s1 q true
          else if isWhite c then rm_loop s1 q atBoundary
          else if atBoundary && (c =? ch "r")%N
                  && match s1 with d :: e :: _ => (d =? ch "m")%N && isWhite e | _ => false end then true
          else rm_loop s1 q false
      end
  end.
Definition hasUnquotedRmAtCommandStart (input : jstr) : bool := rm_loop input noQuotes true.

(** [/\beval\b/]. *)
Fixpoint hasWord (w s : jstr) (before : bool) : bool :=
  (negb before && startsWith s w
   && match drop (length w) s with c :: _ => negb (isWordUnit c) | [] => true end)
  || match s with [] => false | c :: s' => hasWord w s' (isWordUnit c) end.

(** [/`[^`]*`/]: two backticks. *)
Definition hasBacktickPair (s : jstr) : bool :=
  match spanUntil (N.eqb backtick) s with (_, _ :: rest) => includes rest [backtick] | _ => false end.

(** [/^\s*source\s+/] and [/^\s*\.\s+\S/]. *)
Definition startsSource (s : jstr) : bool :=
  let t := dropWhile isWhite s in
  (startsWith t (js "source") && match drop 6 t with c :: _ => isWhite c | [] => false end)
  || match t with
     | d :: c :: rest => (d =? ch ".")%N && isWhite c && truthy (dropWhile isWhite rest)
     | _ => false
     end.

Definition bashCommandIsSafe (command : jstr) : option jstr :=
  let permissionSurface := getShellPermissionCheckSurface command in
  if includes permissionSurface (js "$(") then Some (js "Contains command substitution $(...)")
  else if hasBacktickPair permissionSurface then Some (js "Contains backtick command substitution")
  else if includes permissionSurface (js "<(") || includes permissionSurface (js ">(")
  then Some (js "Contains process substitution")
  else if hasWord (js "eval") permissionSurface false then Some (js "Contains eval")
  else if startsSource permissionSurface then Some (js "Contains source command")
  else None.

Definition READ_ONLY_DATA_TOOLS : list jstr := [js "grep"; js "rg"; js "sed"; js "awk"; js "jq"; js "yq"].

Definition commandStartsWithReadOnlyDataTool (command : jstr) : bool :=
  match dropWhile isAssignment (shellTokenize (trim command)) with
  | first :: _ => mem (default [] (last (split first (js "/")))) READ_ONLY_DATA_TOOLS
  | [] => false
  end.

Fixpoint firstPattern (patterns : list ((jstr -> bool) * jstr)) (s : jstr) : option jstr :=
  match patterns with
  | [] => None
  | (test, category) :: rest => if test s then Some category else firstPattern rest s
  end.

Definition checkDangerousPatterns (ALL_DANGEROUS_COMMAND_PATTERNS : list ((jstr -> bool) * jstr)) (command : jstr) :
    option jstr :=
  let permissionSurface := getShellPermissionCheckSurface command in
  if hasUnquotedRmAtCommandStart permissionSurface then Some (js "Dangerous deletion command")
  else if commandStartsWithReadOnlyDataTool permissionSurface then None
  else firstPattern ALL_DANGEROUS_COMMAND_PATTERNS permissionSurface.

(** ** Heredoc bodies are seen exactly when they run *)

(** A line of a Unix text. *)
Definition isLine (l : jstr) : Prop := newline ∉ l /\ cr ∉ l.

Definition kept (lines : list jstr) : list jstr := keptLines (length lines) lines.

Definition comparable (m : HeredocMatch) (l : jstr) : jstr := if hm_dash m then dropWhile (N.eqb 9) l else l.
Definition terminates (m : HeredocMatch) (l : jstr) : Prop := comparable m l = hm_delimiter m.

Lemma readBody_length dash d lines : forall body t rest, readBody dash d lines = (body, t, rest) ->
  (length rest <= length lines)%nat.
Proof.
  induction lines as [|l lines IH]; cbn; intros body t rest Hr; [by simplify_eq|].
  destruct (str_eqb _ _); [simplify_eq; lia|].
  destruct (readBody dash d lines) as [[b t'] r] eqn:E. simplify_eq. specialize (IH _ _ _ eq_refl). lia.
Qed.

Lemma keptLines_fuel : forall f f' lines, (length lines <= f)%nat -> (length lines <= f')%nat ->
  keptLines f lines = keptLines f' lines.
Proof.
  induction f as [|f IH]; intros [|f'] [|l lines] H H'; cbn in *; try lia; try done.
  destruct (heredocMatch l) as [m|]; [|f_equal; apply IH; lia].
  destruct (readBody _ _ lines) as [[body t] rest] eqn:Hr. apply readBody_length in Hr.
  do 3 f_equal. apply IH; lia.
Qed.

Lemma readBody_app m body t rest : Forall (fun l => ~ terminates m l) body -> terminates m t ->
  readBody (hm_dash m) (hm_delimiter m) (body ++ t :: rest) = (body, Some t, rest).
Proof.
  intros Hb Ht. unfold terminates, comparable in *. induction Hb as [|l body Hl Hb IH]; cbn [app readBody].
  - destruct (str_eqb _ _) eqn:E; [done|]. by apply bool_decide_eq_false in E.
  - destruct (str_eqb _ _) eqn:E; [by apply bool_decide_eq_true in E|]. by rewrite IH.
Qed.

Lemma kept_heredoc h m body t rest : heredocMatch h = Some m ->
  Forall (fun l => ~ terminates m l) body -> terminates m t ->
  kept (h :: body ++ t :: rest) = h :: (if heredocBodyIsExecuted h then body else []) ++ t :: kept rest.
Proof.
  intros Hm Hb Ht. unfold kept. cbn [length keptLines]. rewrite Hm, readBody_app by done. cbn [app].
  do 3 f_equal. apply keptLines_fuel; [rewrite length_app; cbn; lia|done].
Qed.

(** *** From lines to text *)
Lemma unixLines_lines lines : Forall isLine lines -> unixLines (join [newline] lines) = join [newline] lines.
Proof.
  intros H. assert (cr ∉ join [newline] lines) as Hc.
  { induction H as [|l lines [_ Hl] H IH]; [by apply not_elem_of_nil|]. destruct lines as [|l2 lines]; [done|].
    change (join [newline] (l :: l2 :: lines)) with (l ++ [newline] ++ join [newline] (l2 :: lines)).
    rewrite !not_elem_of_app. repeat split; [done| |done]. by intros ?%list_elem_of_singleton. }
  revert Hc. generalize (join [newline] lines) as s. induction s as [|c s IH]; [done|].
  intros [Hc Hs]%not_elem_of_cons. cbn [unixLines]. destruct s as [|d s]; [done|].
  rewrite (proj2 (N.eqb_neq c cr)) by done. cbn [andb]. by rewrite IH.
Qed.

(** A line with a marker keeps one when text follows it. *)
Lemma heredocDelimiter_some s : heredocDelimiter s <> None <->
  exists c s', dropWhile isWhite s = c :: s' /\ endsWord c = false.
Proof.
  unfold heredocDelimiter. destruct (dropWhile isWhite s) as [|c s'].
  { split; [done|]. by intros (? & ? & ? & _). }
  assert (match spanUntil endsWord (c :: s') with ([], _) => None | (w, r) => Some (w, r) end <> None
          <-> endsWord c = false) as Hrun.
  { cbn [spanUntil]. destruct (endsWord c); [done|]. by destruct (spanUntil endsWord s'). }
  assert (endsWord c = false -> exists c0 s0, c :: s' = c0 :: s0 /\ endsWord c0 = false) as Hex by eauto.
  assert ((exists c0 s0, c :: s' = c0 :: s0 /\ endsWord c0 = false) -> endsWord c = false) as Hex2.
  { by intros (? & ? & [= <- <-] & ?). }
  destruct ((c =? dquote)%N || (c =? squote)%N) eqn:Hq; [|rewrite Hrun; tauto].
  assert (endsWord c = false) as Hc.
  { apply orb_true_iff in Hq as [Hq|Hq]; apply N.eqb_eq in Hq as ->; done. }
  destruct (quotedDelimiter c s'); [split; [auto|done]|]. rewrite Hrun. tauto.
Qed.

Lemma dropWhile_app {A} (f : A -> bool) s c s' r : dropWhile f s = c :: s' -> dropWhile f (s ++ r) = c :: s' ++ r.
Proof.
  induction s as [|d s IH]; cbn; [done|]. destruct (f d); [done|]. by intros [= -> ->].
Qed.

Lemma heredocDelimiter_app s r : heredocDelimiter s <> None -> heredocDelimiter (s ++ r) <> None.
Proof.
  rewrite !heredocDelimiter_some. intros (c & s' & Hd & Hc). exists c, (s' ++ r).
  split; [by apply dropWhile_app|done].
Qed.

Lemma heredocAt_app s r : heredocAt s <> None -> heredocAt (s ++ r) <> None.
Proof.
  unfold heredocAt. destruct s as [|a [|b s]]; [done| |].
  { intros Hs. exfalso. apply Hs. assert (startsWith [a] (js "<<") = false) as ->; [|done].
    cbn. by rewrite andb_false_r. }
  assert (startsWith ((a :: b :: s) ++ r) (js "<<") = startsWith (a :: b :: s) (js "<<")) as ->.
  { cbn. by destruct (s ++ r), s. }
  destruct (startsWith _ _); [|done]. cbn [app].
  change (drop 2 (a :: b :: s ++ r)) with (s ++ r). change (drop 2 (a :: b :: s)) with s.
  destruct s as [|c s]; [by intros []|]. cbn [app].
  destruct (c =? ch "-")%N.
  - intros H. destruct (heredocDelimiter (s ++ r)) eqn:E; [done|].
    destruct (heredocDelimiter s) eqn:E2; [by apply (heredocDelimiter_app s r) in E; [|rewrite E2]|].
    by apply (heredocDelimiter_app (c :: s) r).
  - apply (heredocDelimiter_app (c :: s) r).
Qed.

Lemma heredocMatch_app s r : forall b b', heredocMatch_go b s <> None -> heredocMatch_go b' (s ++ r) <> None.
Proof.
  induction s as [|c s IH]; intros b b' H; [done|].
  cbn [heredocMatch_go app] in *. destruct (heredocAt (c :: s ++ r)) as [[d' r']|] eqn:E; [done|].
  destruct (heredocAt (c :: s)) as [[d r0]|] eqn:E2.
  - exfalso. revert E. apply (heredocAt_app (c :: s) r). by rewrite E2.
  - by apply (IH (b ++ [c])).
Qed.

(** the body of a heredoc reaches the scans, line by line, exactly when the line
    that opens it feeds it to an interpreter; otherwise no part of it does, and
    in both cases the lines after the delimiter are treated as if it were not there. *)
Theorem heredoc_bodies_are_data (h : jstr) (m : HeredocMatch) (body : list jstr) (t : jstr) (rest : list jstr) :
  Forall isLine (h :: body ++ t :: rest) -> heredocMatch h = Some m ->
  Forall (fun l => ~ terminates m l) body -> terminates m t ->
  stripNonExecutedHeredocBodies (join [newline] (h :: body ++ t :: rest)) =
  join [newline] (h :: (if heredocBodyIsExecuted h then body else []) ++ t :: kept rest).
Proof.
  intros Hl Hm Hb Ht. unfold stripNonExecutedHeredocBodies. rewrite unixLines_lines by done.
  assert (hasHeredocMark (join [newline] (h :: body ++ t :: rest)) = true) as ->.
  { unfold hasHeredocMark. destruct (heredocMatch (join _ _)) eqn:E; [done|]. exfalso. revert E.
    assert (exists r, join [newline] (h :: body ++ t :: rest) = h ++ r) as [r ->].
    { destruct body; cbn [app]; eexists; reflexivity. }
    apply (heredocMatch_app h r []). unfold heredocMatch in Hm. by rewrite Hm. }
  rewrite split_join_lines by (eapply Forall_impl; [exact Hl|]; by intros ? []).
  f_equal. by apply (kept_heredoc h m).
Qed.

Definition sampleHeredoc : list jstr := [js "cat <<'EOF' > notes"; js "rm -rf x"; js "EOF"; js "ls"].

Lemma heredoc_bodies_are_data_witness :
  heredocBodyIsExecuted (js "cat <<'EOF' > notes") = false /\
  stripNonExecutedHeredocBodies (join [newline] sampleHeredoc) =
    join [newline] [js "cat <<'EOF' > notes"; js "EOF"; js "ls"].
Proof.
  split; [by vm_compute|].
  apply (heredoc_bodies_are_data (js "cat <<'EOF' > notes")
    {| hm_before := js "cat "; hm_dash := false; hm_delimiter := js "EOF"; hm_after := js " > notes" |}
    [js "rm -rf x"] (js "EOF") [js "ls"]).
  - apply (bool_decide_unpack _). by vm_compute.
  - by vm_compute.
  - constructor; [|constructor]. intros E. discriminate E.
  - by vm_compute.
Defined.

(** The marker is looked for without regard to quotes: after a quoted [<<] the
    lines that follow are taken for data that nothing executes. *)
Lemma quoted_marker_hides_the_next_line :
  getShellPermissionCheckSurface (js "echo '<<X'" ++ newline :: js "cat p | sh") = js "echo '<<X'".
Proof. by vm_compute. Qed.
