(* ===== verification/BashEvaluate.v ===== *)
(** * The static evaluation of a bash command

    [packages/agent-modules/permission/src/tools/bash-permission.ts], with
    [formatHardBlockedBashReason] of [bash-fast-allow.ts]: the layers a command
    meets, in every mode.  The pattern tables and path probes behind the layers
    are the class [BashPatterns]: the theorems hold for any.  Logging is left out. *)
From S2P Require Import Prelude JsValue PermTypes ShellTokenize ShellSplit BashAst BashRules BashWrappers BashSurface.

Record BashCheckContext := {
  bc_platform : option jstr;
  bc_shellFamily : option jstr;
  bc_topLevelSegmentCount : option nat;
  bc_sessionId : option jstr;
  bc_workingDirectory : option jstr;
  bc_allowedWorkingPaths : option (list jstr);
  bc_homeDir : option jstr;
  bc_isFile : option (jstr -> bool);
  bc_writeAllowRules : option (list PermissionRule);
}.

(** What the layers ask: the tables of [classifier/dangerous-patterns.ts],
    [bash-write-target.ts], [windows-native-delete.ts], [slow-command-scan.ts],
    [unwrapCommandWrappers], and file probes. *)
Class BashPatterns := {
  toLowerCase : jstr -> jstr;
  canonicalize : jchar -> jchar;
  otherRegExp : jstr -> option (jstr -> bool);
  unwrapCommandWrappers : jstr -> list jstr;
  (** Category and description. *)
  matchHardBlockedBash : jstr -> option (jstr * jstr);
  (** The targets of the deletion, by shell. *)
  parseWindowsNativeDelete : jstr -> jstr -> option (list jstr);
  PIPE_TO_SHELL_PATTERN : jstr -> bool;
  (** The group of the match. *)
  SEPARATOR_TO_SCRIPT : jstr -> option jstr;
  allPipeToShellAreInlineLiteralC : jstr -> bool;
  isAllowableLocalScript : jstr -> option BashCheckContext -> bool;
  commandHasIoRedirect : jstr -> option BashCheckContext -> bool;
  (** The verdict is ['allow']. *)
  evaluateWriteTarget : jstr -> BashCheckContext -> bool;
  SUBCOMMAND_DANGEROUS_PATTERNS : list ((jstr -> bool) * jstr);
  matchSecretReadForm : jstr -> option jstr;
  ALL_DANGEROUS_COMMAND_PATTERNS : list ((jstr -> bool) * jstr);
  (** Guidance and category. *)
  detectSlowCommand : jstr -> option (jstr * jstr);
  RM_BYPASS_SOURCE_PATTERN : jstr -> bool;
  BYPASS_DELETE_VERB_SNIFF : jstr -> bool;
}.

Inductive EvaluationMode := ev_default | ev_auto | ev_bypass.
Inductive Verdict := v_allow | v_ask | v_deny | v_undecided.
#[export] Instance EvaluationMode_eq_dec : EqDecision EvaluationMode.
Proof. solve_decision. Defined.
#[export] Instance Verdict_eq_dec : EqDecision Verdict.
Proof. solve_decision. Defined.

Record BashEvaluationResult := { verdict : Verdict; ev_reason : DecisionReason }.

(** [mode === 'auto' ? 'undecided' : 'ask']. *)
Definition askOrUndecided (mode : EvaluationMode) : Verdict :=
  match mode with ev_auto => v_undecided | _ => v_ask end.

Definition safety (description : jstr) (category : option jstr) : DecisionReason :=
  ReasonSafetyCheck description None category.

(** ** Messages and categories *)
Definition DESTRUCTIVE_STANDALONE_COMMANDS : list jstr :=
  [js "rm -rf /"; js "rm -rf ~"; js "rm -rf *"; js ":(){ :|:& };:"].

Definition hardBlockedCategoryIsFinalDeny (category : jstr) : bool :=
  mem category
    [js "catastrophic-standalone"; js "irrecoverable-delete"; js "disk-erase"; js "storage-volume-delete";
     js "windows-secure-erase"; js "windows-delete"; js "ransomware-indicator"; js "fs-inode-direct";
     js "archive-remove-source"; js "data-exfil"].

Definition formatHardBlockedBashReason (command category description : jstr) : jstr :=
  let tail := js " Command: " ++ command ++ js ". Reason: " ++ description ++ js "." in
  if mem category [js "sensitive-read"; js "system-secret"; js "ssh-credential"] then
    js "Needs confirmation: sensitive credential or system-secret read requires LLM review and explicit approval if the LLM cannot allow it." ++ tail
  else if str_eqb category (js "data-exfil") then
    js "Blocked: command appears to exfiltrate credential or secret material." ++ tail
  else if mem category
    [js "irrecoverable-delete"; js "disk-erase"; js "storage-volume-delete"; js "windows-secure-erase";
     js "windows-delete"; js "ransomware-indicator"; js "fs-inode-direct"; js "archive-remove-source"] then
    let base := js "Blocked: command can irreversibly destroy files, disks, or backups." ++ tail in
    if str_eqb category (js "windows-delete")
    then base ++ js " Use `mavis-trash <path>` for recoverable removal, or drop bypass for this call."
    else base
  else if str_eqb category (js "encoding-bypass") then
    js "Blocked: encoded shell execution hides the payload and has no reliable review surface." ++ tail
  else if str_eqb category (js "reverse-shell") then
    js "Needs confirmation: command opens a raw shell/network channel and requires LLM review; if the LLM cannot allow it, explicit approval is required." ++ tail
  else js "Blocked: command matches a final safety boundary." ++ tail.

(** ** Script arguments *)

(** [/^(?:-|<\(|[a-z][a-z0-9+.-]...:\/\/)/i]: a flag, a process substitution, or a
    scheme followed by [://]. *)
Definition isSchemeUnit (c : jchar) : bool :=
  ((97 <=? asciiLower c) && (asciiLower c <=? 122))%N || isDigit c || bool_decide (c ∈ js "+.-").

Definition BASH_SCRIPT_TOKEN_HARD_BAIL_RE (t : jstr) : bool :=
  startsWith t (js "-") || startsWith t (js "<(")
  || match t with
     | c :: _ => ((97 <=? asciiLower c) && (asciiLower c <=? 122))%N && startsWith (dropWhile isSchemeUnit t) (js "://")
     | [] => false
     end.

(** The loop stops at the first token, which is not empty. *)
Definition extractLocalScriptArg (rest : jstr) : option jstr :=
  match List.filter truthy (shellTokenize (trim rest)) with
  | [] => None
  | token :: _ => if BASH_SCRIPT_TOKEN_HARD_BAIL_RE token then None else Some token
  end.

Definition sourcePathHasDynamicShape (token : jstr) : bool :=
  includes token (js "$") || includes token [backtick]
  || existsb (fun c => bool_decide (c ∈ js "*?[]")) token
  || includes token (js "<(") || includes token (js ">(").

Definition extractSourceTarget (command : jstr) : option jstr :=
  let trimmed := trim command in
  let dotWord := match trimmed with d :: c :: _ => (d =? ch ".")%N && negb (isWhite c) | _ => false end in
  if dotWord then None
  else match shellTokenize trimmed with
       | head :: target :: _ =>
           if negb (mem head [js "source"; js "."]) then None
           else if sourcePathHasDynamicShape target then None
           else Some target
       | _ => None
       end.

Definition HELP_FLAG_TOKENS : list jstr :=
  [js "--help"; js "-h"; js "--version"; js "-V"; js "-v"; js "-?"; js "help"].

Section Evaluate.
Context `{BashPatterns}.

Definition isHelpFlagOnlyCommand (command : jstr) : bool :=
  let trimmed := trim command in
  match trimmed with
  | [] => false
  | _ =>
      if includes trimmed (js "$(") || includes trimmed [backtick] || includes trimmed (js "&&")
         || includes trimmed (js "||") || includes trimmed (js ";") || includes trimmed (js "|")
      then false
      else if commandHasIoRedirect trimmed None then false
      else match shellTokenize trimmed with
           | _ :: ((_ :: _) as flags) => forallb (fun t => mem t HELP_FLAG_TOKENS) flags
           | _ => false
           end
  end.

Definition findRmTokenIndex (tokens : list jstr) : option nat :=
  match tokens with
  | [] => None
  | _ =>
      let innerIdx := consumeShellWrapperPrefix toLowerCase tokens 0 in
      if tok_is tokens innerIdx (js "rm") then Some innerIdx else None
  end.

Definition isRmCommand (command : jstr) : bool :=
  let trimmed := trim command in
  if RM_BYPASS_SOURCE_PATTERN trimmed then false
  else match findRmTokenIndex (shellTokenize trimmed) with Some _ => true | None => false end.

(** ** User rules *)
Definition compileBashPermissionRules (bashRules : list PermissionRule) :
    list (PermissionRule * option CompiledShellPermissionRule) :=
  map (fun rule =>
         match ruleContent (ruleValue rule) with
         | Some (c :: content) => (rule, Some (compileShellRule canonicalize otherRegExp (c :: content)))
         | _ => (rule, None)
         end) bashRules.

(** [matchesUserRule]: the command as written, and without its wrappers. *)
Definition matchesUserRule (command : jstr) (parsedRule : option CompiledShellPermissionRule) : bool :=
  match parsedRule with
  | None => false
  | Some parsed =>
      matchCompiledRule command parsed
      || match stripTransparentWrappersForRuleMatch toLowerCase command with
         | Some (c :: stripped) => matchCompiledRule (c :: stripped) parsed
         | _ => false
         end
  end.

(** The loop of steps 1, 2 and 5: the first rule of the behavior that applies. *)
Fixpoint firstUserRule (b : PermissionBehavior) (command : jstr)
    (bashRules : list (PermissionRule * option CompiledShellPermissionRule)) : option PermissionRule :=
  match bashRules with
  | [] => None
  | (rule, parsedRule) :: rest =>
      if negb (bool_decide (ruleBehavior rule = b)) then firstUserRule b command rest
      else if negb (otruthy (ruleContent (ruleValue rule))) then Some rule
      else if matchesUserRule command parsedRule then Some rule
      else firstUserRule b command rest
  end.

Definition subcommandMatchesAllow (allowRules : list PermissionRule) (subcmd : jstr) : bool :=
  let wrapperStripped := stripTransparentWrappersForRuleMatch toLowerCase subcmd in
  existsb (fun rule =>
    match ruleContent (ruleValue rule) with
    | None | Some [] => true
    | Some content =>
        let parsed := parseShellRule content in
        matchShellRule canonicalize otherRegExp subcmd parsed
        || match wrapperStripped with
           | Some (c :: stripped) => matchShellRule canonicalize otherRegExp (c :: stripped) parsed
           | _ => false
           end
    end) allowRules.

Definition allSubcommandsMatchUserAllowRule (command : jstr) (bashRules : list PermissionRule) : bool :=
  match List.filter (fun r => bool_decide (ruleBehavior r = Allow)) bashRules with
  | [] => false
  | allowRules =>
      match splitCommand command with
      | [] => false
      | subcommands => forallb (subcommandMatchesAllow allowRules) subcommands
      end
  end.

(** ** One subcommand *)
Definition recoverableWindowsDelete (bashCtx : option BashCheckContext) (command : jstr) : option (list jstr) :=
  match bashCtx with
  | None => None
  | Some ctx =>
      if negb (bool_decide (bc_platform ctx = Some (js "win32"))) then None
      else match bc_shellFamily ctx with
           | Some family =>
               if mem family [js "cmd"; js "powershell"] then parseWindowsNativeDelete command family else None
           | None => None
           end
  end.

Definition isWindowsDelete (hit : jstr * jstr) (recoverable : option (list jstr)) : bool :=
  str_eqb (fst hit) (js "windows-delete") && match recoverable with Some _ => true | None => false end.

(** Step 3: the first surface that is denied for good. *)
Fixpoint finalDeny (surfaces : list jstr) (recoverable : option (list jstr)) : option (jstr * jstr) :=
  match surfaces with
  | [] => None
  | surface :: rest =>
      match matchHardBlockedBash surface with
      | Some hit =>
          if isWindowsDelete hit recoverable then finalDeny rest recoverable
          else if hardBlockedCategoryIsFinalDeny (fst hit) then Some hit
          else finalDeny rest recoverable
      | None => finalDeny rest recoverable
      end
  end.

(** Step 4: the first surface that is blocked at all. *)
Fixpoint sensitiveRead (surfaces : list jstr) (recoverable : option (list jstr)) : option (jstr * jstr) :=
  match surfaces with
  | [] => None
  | surface :: rest =>
      match matchHardBlockedBash surface with
      | Some hit => if isWindowsDelete hit recoverable then sensitiveRead rest recoverable else Some hit
      | None => sensitiveRead rest recoverable
      end
  end.

(** A loop that returns at the first hit. *)
Fixpoint firstHit {A B} (f : A -> option B) (l : list A) : option (A * B) :=
  match l with
  | [] => None
  | a :: l' => match f a with Some b => Some (a, b) | None => firstHit f l' end
  end.

Definition truthyHit (o : option jstr) : option jstr := if otruthy o then o else None.

Definition hardReason (command : jstr) (hit : jstr * jstr) : DecisionReason :=
  safety (formatHardBlockedBashReason command (fst hit) (snd hit)) (Some (fst hit)).

(** Steps 1, 2, 3 and 3.5. *)
Definition commonLayer (command : jstr) (bashRules : list (PermissionRule * option CompiledShellPermissionRule))
    (recoverable : option (list jstr)) : option BashEvaluationResult :=
  let surfaces := map getShellPermissionCheckSurface (unwrapCommandWrappers command) in
  match firstUserRule Deny command bashRules with
  | Some rule => Some {| verdict := v_deny; ev_reason := ReasonRule rule |}
  | None =>
  match firstUserRule Ask command bashRules with
  | Some rule => Some {| verdict := v_ask; ev_reason := ReasonRule rule |}
  | None =>
  match finalDeny surfaces recoverable with
  | Some hit => Some {| verdict := v_deny; ev_reason := hardReason command hit |}
  | None =>
  match detectSlowCommand command with
  | Some (guidance, category) =>
      Some {| verdict := v_deny;
              ev_reason := safety (js "<system-reminder>" ++ newline :: guidance ++ newline :: js "</system-reminder>")
                             (Some category) |}
  | None => None
  end end end end.

(** The early exit of bypass mode. *)
Definition bypassLayer (command : jstr) (recoverable : option (list jstr)) : BashEvaluationResult :=
  match recoverable with
  | Some targets => {| verdict := v_allow; ev_reason := ReasonRecoverableDeleteRewrite targets |}
  | None =>
      if isRmCommand command then {| verdict := v_allow; ev_reason := ReasonRmRewrite command |}
      else if existsb BYPASS_DELETE_VERB_SNIFF (command :: unwrapCommandWrappers command) then
        {| verdict := v_deny;
           ev_reason := safety (js "bypass mode does not auto-run delete-like commands. Use `mavis-trash <path>` for recoverable removal, or drop bypass for this call.")
                          (Some (js "bypassDeleteSniff")) |}
      else
        {| verdict := v_allow;
           ev_reason := safety (js "bypass mode: passed user deny + user ask + HARD final-deny common layer")
                          (Some (js "bypassAllow")) |}
  end.

(** [pattern.test(command)], with the category of the entry. *)
Definition dangerousEntry (command : jstr) (e : (jstr -> bool) * jstr) : option jstr :=
  if fst e command then Some (snd e) else None.

(** Steps 4 to 6.5. *)
Definition gatesLayer (command : jstr) (bashRules : list (PermissionRule * option CompiledShellPermissionRule))
    (mode : EvaluationMode) (bashCtx : BashCheckContext) (recoverable : option (list jstr)) :
    option BashEvaluationResult :=
  let surfaces := map getShellPermissionCheckSurface (unwrapCommandWrappers command) in
  match sensitiveRead surfaces recoverable with
  | Some hit => Some {| verdict := askOrUndecided mode; ev_reason := hardReason command hit |}
  | None =>
  match firstUserRule Allow command bashRules with
  | Some rule => Some {| verdict := v_allow; ev_reason := ReasonRule rule |}
  | None =>
  if evaluateWriteTarget command bashCtx then
    Some {| verdict := v_allow;
            ev_reason := safety (js "Write target is inside a write-authorized location (workspace / allowed working path).")
                           (Some (js "writeAuthorizedTarget")) |}
  else
  match firstHit (dangerousEntry command) SUBCOMMAND_DANGEROUS_PATTERNS with
  | Some (_, category) =>
      Some {| verdict := askOrUndecided mode;
              ev_reason := safety (js "Subcommand-graded danger: " ++ category) (Some category) |}
  | None =>
  match firstHit (fun surface => truthyHit (matchSecretReadForm surface)) surfaces with
  | Some (_, category) =>
      Some {| verdict := askOrUndecided mode;
              ev_reason := safety (js "Environment secret read: " ++ category) (Some (js "secret-read")) |}
  | None =>
  match extractSourceTarget command with
  | Some (c :: target) =>
      if isAllowableLocalScript (c :: target) (Some bashCtx) then
        Some {| verdict := v_allow;
                ev_reason := safety (js "Sourcing local file: " ++ (c :: target) ++ js " (temp/workspace/written)")
                               (Some (js "sourceLocalAllow")) |}
      else None
  | _ => None
  end end end end end.

(** Step 7. *)
Definition softPrescan (command : jstr) (mode : EvaluationMode) (recoverable : option (list jstr)) :
    option BashEvaluationResult :=
  if isRmCommand command || match recoverable with Some _ => true | None => false end then None
  else match truthyHit (bashCommandIsSafe command) with
       | Some safetyIssue => Some {| verdict := askOrUndecided mode; ev_reason := safety safetyIssue None |}
       | None =>
           match firstHit (fun candidate => truthyHit (checkDangerousPatterns ALL_DANGEROUS_COMMAND_PATTERNS candidate)) (unwrapCommandWrappers command) with
           | Some (candidate, dangerousMatch) =>
               Some {| verdict := askOrUndecided mode;
                       ev_reason := safety (if str_eqb candidate command then dangerousMatch
                                            else dangerousMatch ++ js " (unwrapped from shell wrapper)") None |}
           | None => None
           end
       end.

(** Steps 8 and 9, and the tail. *)
Definition lastLayer (command : jstr) (mode : EvaluationMode) (bashCtx : BashCheckContext)
    (recoverable : option (list jstr)) : BashEvaluationResult :=
  match recoverable with
  | Some targets => {| verdict := v_allow; ev_reason := ReasonRecoverableDeleteRewrite targets |}
  | None =>
      if isRmCommand command then {| verdict := v_allow; ev_reason := ReasonRmRewrite command |}
      else
        let firstWord := pureReadFirstWord toLowerCase command in
        let safe := match firstWord with Some (c :: w) => mem (c :: w) SAFE_BASH_FIRST_WORDS | _ => false end in
        if safe && negb (commandHasIoRedirect command (Some bashCtx))
           && negb (isDestructiveKillCommand toLowerCase command firstWord)
        then {| verdict := v_allow;
                ev_reason := safety (js "Default fast-allow: first word " ++ dquote :: default [] firstWord ++ dquote :: js " is non-deletion.")
                               (Some (js "pureReadFastAllow")) |}
        else {| verdict := askOrUndecided mode;
                ev_reason := safety (js "No matching permission rule for command: " ++ command)
                               (Some (js "noMatchingPermissionRule")) |}
  end.

Definition evaluateSingleSubcommand (command : jstr)
    (bashRules : list (PermissionRule * option CompiledShellPermissionRule)) (mode : EvaluationMode)
    (bashCtx : BashCheckContext) : BashEvaluationResult :=
  let recoverable := recoverableWindowsDelete (Some bashCtx) command in
  match commonLayer command bashRules recoverable with
  | Some r => r
  | None =>
      if bool_decide (mode = ev_bypass) then bypassLayer command recoverable
      else match gatesLayer command bashRules mode bashCtx recoverable with
           | Some r => r
           | None =>
               match softPrescan command mode recoverable with
               | Some r => r
               | None => lastLayer command mode bashCtx recoverable
               end
           end
  end.

(** ** The whole command *)
Definition whole (v : Verdict) (key : jstr) (b : PermissionBehavior) (r : DecisionReason) : BashEvaluationResult :=
  {| verdict := v; ev_reason := ReasonSubcommandResults [(key, MkSubcommandResult b r)] |}.

(** Step 0. *)
Definition catastrophic (command : jstr) : option BashEvaluationResult :=
  let trimmedLower := toLowerCase (trim command) in
  if mem trimmedLower DESTRUCTIVE_STANDALONE_COMMANDS then
    Some (whole v_deny trimmedLower Deny
            (safety (js "Blocked: catastrophic command has no recoverable safe use case. Command: " ++ trimmedLower)
               (Some (js "catastrophic-standalone"))))
  else None.

(** Step 0b. *)
Definition hardPrescan (command : jstr) (recoverable : option (list jstr)) : option BashEvaluationResult :=
  match finalDeny (map getShellPermissionCheckSurface (unwrapCommandWrappers command)) recoverable with
  | Some hit => Some (whole v_deny (trim command) Deny (hardReason (trim command) hit))
  | None => None
  end.

(** Step 0c, one candidate: none of the relaxations applies. *)
Definition pipeToShell (bashCtx : option BashCheckContext) (userAllowExempt : bool) (candidate : jstr) : bool :=
  let surface := getShellPermissionCheckSurface candidate in
  let pipeMatch := PIPE_TO_SHELL_PATTERN surface in
  let sepMatch := if pipeMatch then None else SEPARATOR_TO_SCRIPT surface in
  if negb pipeMatch && match sepMatch with None => true | Some _ => false end then false
  else if match sepMatch with
          | Some rest =>
              match extractLocalScriptArg rest with
              | Some (c :: token) => isAllowableLocalScript (c :: token) bashCtx
              | _ => false
              end
          | None => false
          end then false
  else if pipeMatch && allPipeToShellAreInlineLiteralC surface then false
  else if userAllowExempt && negb (pipeMatch && commandHasExecutedHeredocBody candidate) then false
  else true.

Definition pipePrescan (command : jstr) (bashRules : list PermissionRule) (bashCtx : option BashCheckContext)
    (mode : EvaluationMode) : option BashEvaluationResult :=
  let userAllowExempt := allSubcommandsMatchUserAllowRule command bashRules in
  if existsb (pipeToShell bashCtx userAllowExempt) (unwrapCommandWrappers command) then
    Some (whole (askOrUndecided mode) (trim command) Ask (safety (js "pipe to shell") None))
  else None.

(** Step 0d. *)
Definition helpFlag (command : jstr) : option BashEvaluationResult :=
  if isHelpFlagOnlyCommand command then
    let trimmed := trim command in
    let firstWord := fst (splitAtWhite trimmed) in
    Some (whole v_allow trimmed Allow
            (safety (js "Help/version flag fast-allow: `" ++ firstWord ++ js " <help-flag>` has no side effects.")
               (Some (js "helpFlagFastAllow"))))
  else None.

(** The behavior that is stored: ['undecided'] is kept as ['ask']. *)
Definition storedBehavior (v : Verdict) : PermissionBehavior :=
  match v with v_allow => Allow | v_deny => Deny | v_ask | v_undecided => Ask end.

(** One round of the aggregator. *)
Definition aggregate (aggregated v : Verdict) : Verdict :=
  match v with
  | v_deny => v_deny
  | v_undecided => v_undecided
  | v_ask => if bool_decide (aggregated = v_undecided) then aggregated else v_ask
  | v_allow => aggregated
  end.

(** The loop over the subcommands; a denial ends it. *)
Fixpoint subcommands_loop (bashRules : list (PermissionRule * option CompiledShellPermissionRule))
    (mode : EvaluationMode) (bashCtx : BashCheckContext) (subcommands : list jstr)
    (results : jmap jstr SubcommandResult) (aggregated : Verdict) : Verdict * jmap jstr SubcommandResult :=
  match subcommands with
  | [] => (aggregated, results)
  | subcmd :: rest =>
      let sub := evaluateSingleSubcommand subcmd bashRules mode bashCtx in
      let results' := jset subcmd (MkSubcommandResult (storedBehavior (verdict sub)) (ev_reason sub)) results in
      let aggregated' := aggregate aggregated (verdict sub) in
      if bool_decide (verdict sub = v_deny) then (aggregated', results')
      else subcommands_loop bashRules mode bashCtx rest results' aggregated'
  end.

Definition emptyCtx : BashCheckContext :=
  {| bc_platform := None; bc_shellFamily := None; bc_topLevelSegmentCount := None; bc_sessionId := None;
     bc_workingDirectory := None; bc_allowedWorkingPaths := None; bc_homeDir := None; bc_isFile := None;
     bc_writeAllowRules := None |}.

Definition enrich (command : jstr) (rules : list PermissionRule) (bashCtx : option BashCheckContext) : BashCheckContext :=
  let derived := List.filter (fun r => str_eqb (toolName (ruleValue r)) (js "write")
                                       && bool_decide (ruleBehavior r = Allow)) rules in
  let ctx := default emptyCtx bashCtx in
  {| bc_platform := bc_platform ctx; bc_shellFamily := bc_shellFamily ctx;
     bc_topLevelSegmentCount := Some (length (splitCommand command)); bc_sessionId := bc_sessionId ctx;
     bc_workingDirectory := bc_workingDirectory ctx; bc_allowedWorkingPaths := bc_allowedWorkingPaths ctx;
     bc_homeDir := bc_homeDir ctx; bc_isFile := bc_isFile ctx;
     bc_writeAllowRules := Some (default derived (bc_writeAllowRules ctx)) |}.

Definition bashRulesOf (rules : list PermissionRule) : list PermissionRule :=
  List.filter (fun r => str_eqb (toolName (ruleValue r)) (js "bash")) rules.

(** Steps 0 to 0d. *)
Definition wholeLayer (command : jstr) (rules : list PermissionRule) (bashCtx : option BashCheckContext)
    (mode : EvaluationMode) : option BashEvaluationResult :=
  match catastrophic command with
  | Some r => Some r
  | None =>
  match hardPrescan command (recoverableWindowsDelete bashCtx command) with
  | Some r => Some r
  | None =>
      if bool_decide (mode = ev_bypass) then None
      else match pipePrescan command (bashRulesOf rules) bashCtx mode with
           | Some r => Some r
           | None => helpFlag command
           end
  end end.

Definition evaluateBashStatic (command : jstr) (rules : list PermissionRule) (bashCtx : option BashCheckContext)
    (mode : EvaluationMode) : BashEvaluationResult :=
  match wholeLayer command rules bashCtx mode with
  | Some r => r
  | None =>
      let '(aggregated, results) :=
        subcommands_loop (compileBashPermissionRules (bashRulesOf rules)) mode (enrich command rules bashCtx)
          (splitCommand command) [] v_allow in
      {| verdict := aggregated; ev_reason := ReasonSubcommandResults results |}
  end.

(** [checkBashPermission]: behavior and reason of the decision. *)
Definition checkBashPermission (command : jstr) (rules : list PermissionRule) (bashCtx : option BashCheckContext) :
    PermissionBehavior * DecisionReason :=
  let result := evaluateBashStatic command rules bashCtx ev_default in
  (storedBehavior (verdict result), ev_reason result).
End Evaluate.

(** ** For witnesses *)

(** Tables that know pipes into [sh], and nothing else. *)
Definition samplePatterns : BashPatterns := {|
  toLowerCase := id; canonicalize := id; otherRegExp := fun _ => None;
  unwrapCommandWrappers := fun c => [trim c];
  matchHardBlockedBash := fun _ => None; parseWindowsNativeDelete := fun _ _ => None;
  PIPE_TO_SHELL_PATTERN := fun c => includes c (js "| sh"); SEPARATOR_TO_SCRIPT := fun _ => None;
  allPipeToShellAreInlineLiteralC := fun _ => false;
  isAllowableLocalScript := fun _ _ => false; commandHasIoRedirect := fun c _ => includes c (js ">");
  evaluateWriteTarget := fun _ _ => false; SUBCOMMAND_DANGEROUS_PATTERNS := [];
  matchSecretReadForm := fun _ => None; ALL_DANGEROUS_COMMAND_PATTERNS := [];
  detectSlowCommand := fun _ => None; RM_BYPASS_SOURCE_PATTERN := fun _ => false;
  BYPASS_DELETE_VERB_SNIFF := fun _ => false |}.

Definition sampleRule (b : PermissionBehavior) (content : jstr) : PermissionRule :=
  {| source := src_global; ruleBehavior := b;
     ruleValue := {| toolName := js "bash"; ruleContent := Some content; matcher := None |} |}.
