(* ===== verification/BashPolicy.v ===== *)
(** * What the bash evaluation promises

    Theorems on [BashEvaluate], for any pattern tables: what rules and modes may
    change in a verdict, and the two layers that come before the rules. *)
From S2P Require Import Prelude JsValue PermTypes ShellTokenize ShellSplit BashAst BashRules BashWrappers BashSurface BashEvaluate.

Section Policy.
Context `{BashPatterns}.
Implicit Types (command : jstr) (rules : list PermissionRule) (mode : EvaluationMode).

(** ** Modes *)

(** A verdict of auto mode as default mode gives it. *)
Definition collapse (v : Verdict) : Verdict := match v with v_undecided => v_ask | _ => v end.

Definition agree (d a : BashEvaluationResult) : Prop :=
  verdict d = collapse (verdict a) /\ ev_reason d = ev_reason a.

Definition agreeOpt (d a : option BashEvaluationResult) : Prop :=
  match d, a with Some r, Some r' => agree r r' | None, None => True | _, _ => False end.

Lemma stored_collapse v : storedBehavior (collapse v) = storedBehavior v.
Proof. by destruct v. Qed.

Lemma gates_agree command R ctx rec :
  agreeOpt (gatesLayer command R ev_default ctx rec) (gatesLayer command R ev_auto ctx rec).
Proof. unfold gatesLayer. repeat case_goal; first [done | by split]. Qed.

Lemma soft_agree command rec : agreeOpt (softPrescan command ev_default rec) (softPrescan command ev_auto rec).
Proof. unfold softPrescan. repeat case_goal; first [done | by split]. Qed.

Lemma last_agree command ctx rec : agree (lastLayer command ev_default ctx rec) (lastLayer command ev_auto ctx rec).
Proof. unfold lastLayer. repeat case_goal; first [done | by split]. Qed.

Lemma common_not_undecided command R rec r : commonLayer command R rec = Some r -> verdict r <> v_undecided.
Proof. unfold commonLayer. intros H1. repeat case_hyp H1; simplify_eq; done. Qed.

Lemma single_agree command R ctx :
  agree (evaluateSingleSubcommand command R ev_default ctx) (evaluateSingleSubcommand command R ev_auto ctx).
Proof.
  unfold evaluateSingleSubcommand. destruct (commonLayer _ _ _) as [r|] eqn:Hc.
  { split; [|done]. apply common_not_undecided in Hc. by destruct (verdict r). }
  rewrite !bool_decide_eq_false_2 by done.
  pose proof (gates_agree command R ctx (recoverableWindowsDelete (Some ctx) command)) as Hg.
  destruct (gatesLayer _ _ ev_default _ _), (gatesLayer _ _ ev_auto _ _); try done.
  pose proof (soft_agree command (recoverableWindowsDelete (Some ctx) command)) as Hs.
  destruct (softPrescan _ ev_default _), (softPrescan _ ev_auto _); try done. apply last_agree.
Qed.

Lemma aggregate_collapse agg v : aggregate (collapse agg) (collapse v) = collapse (aggregate agg v).
Proof. by destruct agg, v. Qed.

Lemma loop_agree R ctx subs : forall res agg,
  let d := subcommands_loop R ev_default ctx subs res (collapse agg) in
  let a := subcommands_loop R ev_auto ctx subs res agg in
  fst d = collapse (fst a) /\ snd d = snd a.
Proof.
  induction subs as [|s subs IH]; intros res agg; [done|]. cbn [subcommands_loop].
  destruct (single_agree s R ctx) as [Hv Hr]. rewrite Hv, Hr, stored_collapse, aggregate_collapse.
  set (a := verdict _). assert (bool_decide (collapse a = v_deny) = bool_decide (a = v_deny)) as ->.
  { by apply bool_decide_ext; destruct a. }
  case_bool_decide; [done|]. apply IH.
Qed.

Lemma whole_agree command rules ctx :
  agreeOpt (wholeLayer command rules ctx ev_default) (wholeLayer command rules ctx ev_auto).
Proof.
  unfold wholeLayer, catastrophic, hardPrescan, pipePrescan, helpFlag. rewrite !bool_decide_eq_false_2 by done.
  repeat case_goal; first [done | by split].
Qed.

(** auto mode decides as default mode does: the same denials, permissions and
    recorded reasons; it only hands some of default mode's questions to the model. *)
Theorem auto_mode_only_moves_questions command rules (ctx : option BashCheckContext) :
  let d := evaluateBashStatic command rules ctx ev_default in
  let a := evaluateBashStatic command rules ctx ev_auto in
  verdict d = collapse (verdict a) /\ ev_reason d = ev_reason a.
Proof.
  cbv zeta. unfold evaluateBashStatic. pose proof (whole_agree command rules ctx) as Hw.
  destruct (wholeLayer _ _ _ ev_default), (wholeLayer _ _ _ ev_auto); try done.
  pose proof (loop_agree (compileBashPermissionRules (bashRulesOf rules)) (enrich command rules ctx)
                (splitCommand command) [] v_allow) as Hl. cbn [collapse] in Hl. cbv zeta in Hl.
  destruct (subcommands_loop _ ev_default _ _ _ _), (subcommands_loop _ ev_auto _ _ _ _).
  destruct Hl as [Hf Hs]. cbn in *. by subst.
Qed.

(** ** Denials *)
Definition denied (r : BashEvaluationResult) : Prop := verdict r = v_deny.

(** The rules and tables every mode asks deny the subcommand. *)
Definition commonDeny command R rec : Prop :=
  exists r, commonLayer command R rec = Some r /\ denied r.

Lemma gates_never_deny command R mode ctx rec r : gatesLayer command R mode ctx rec = Some r -> verdict r <> v_deny.
Proof. unfold gatesLayer. intros Hg. repeat case_hyp Hg; simplify_eq; cbn; by destruct mode. Qed.

Lemma soft_never_denies command mode rec r : softPrescan command mode rec = Some r -> verdict r <> v_deny.
Proof. unfold softPrescan. intros Hg. repeat case_hyp Hg; simplify_eq; cbn; by destruct mode. Qed.

Lemma last_never_denies command mode ctx rec : verdict (lastLayer command mode ctx rec) <> v_deny.
Proof. unfold lastLayer. repeat case_goal; cbn; by destruct mode. Qed.

Lemma single_denied command R mode ctx :
  denied (evaluateSingleSubcommand command R mode ctx) ->
  commonDeny command R (recoverableWindowsDelete (Some ctx) command) \/ mode = ev_bypass.
Proof.
  unfold denied, evaluateSingleSubcommand, commonDeny. destruct (commonLayer _ _ _) as [r|]; [eauto|].
  case_bool_decide; [auto|]. intros Hd. exfalso. revert Hd.
  destruct (gatesLayer _ _ _ _ _) eqn:Hg; [by apply gates_never_deny in Hg|].
  destruct (softPrescan _ _ _) eqn:Hs; [by apply soft_never_denies in Hs|]. apply last_never_denies.
Qed.

Lemma common_denied command R mode ctx :
  commonDeny command R (recoverableWindowsDelete (Some ctx) command) ->
  denied (evaluateSingleSubcommand command R mode ctx).
Proof. intros (r & Hc & Hd). unfold denied, evaluateSingleSubcommand. by rewrite Hc. Qed.

Lemma aggregate_deny agg v : agg <> v_deny -> v <> v_deny -> aggregate agg v <> v_deny.
Proof. by destruct agg, v. Qed.

Lemma loop_denied R mode ctx subs : forall res agg, agg <> v_deny ->
  fst (subcommands_loop R mode ctx subs res agg) = v_deny <->
  exists s, s ∈ subs /\ denied (evaluateSingleSubcommand s R mode ctx).
Proof.
  induction subs as [|s subs IH]; intros res agg Ha; cbn [subcommands_loop].
  { split; [done|]. by intros (s & ?%elem_of_nil & _). }
  case_bool_decide as Hd.
  - split; [|by cbn; rewrite Hd]. intros _. exists s. split; [apply elem_of_cons; by left|done].
  - rewrite IH by (by apply aggregate_deny). split.
    + intros (s' & Hs & Hd'). exists s'. split; [apply elem_of_cons; by right|done].
    + intros (s' & [-> | Hs]%elem_of_cons & Hd'); [done|eauto].
Qed.

(** A denial of the whole command is a denial by a table, or of a subcommand. *)
Lemma evaluate_denied command rules ctx mode :
  denied (evaluateBashStatic command rules ctx mode) <->
  (exists r, wholeLayer command rules ctx mode = Some r /\ denied r) \/
  (wholeLayer command rules ctx mode = None /\ exists s, s ∈ splitCommand command /\
     denied (evaluateSingleSubcommand s (compileBashPermissionRules (bashRulesOf rules)) mode (enrich command rules ctx))).
Proof.
  unfold evaluateBashStatic. destruct (wholeLayer _ _ _ _) as [r|].
  - split; [eauto|]. by intros [(? & [= <-] & ?)|[? _]].
  - pose proof (loop_denied (compileBashPermissionRules (bashRulesOf rules)) mode (enrich command rules ctx)
                  (splitCommand command) [] v_allow ltac:(done)) as Hl.
    destruct (subcommands_loop _ _ _ _ _ _) as [v res]. unfold denied at 1. cbn in *. rewrite Hl. naive_solver.
Qed.

(** *** A deny rule *)
Lemma deny_rule_common s R rec : firstUserRule Deny s R <> None -> commonDeny s R rec.
Proof.
  unfold commonDeny, commonLayer. destruct (firstUserRule Deny s R) as [rule|]; [|done]. intros _.
  eexists. split; [done|]. done.
Qed.

Lemma wholeLayer_cases command rules ctx mode :
  (mode = ev_bypass \/ pipePrescan command (bashRulesOf rules) ctx mode = None /\ helpFlag command = None) ->
  match wholeLayer command rules ctx mode with Some r => denied r | None => True end.
Proof.
  unfold wholeLayer, catastrophic, hardPrescan, denied. intros Hm.
  case_goal; [done|]. case_goal; [done|]. case_bool_decide; [done|]. by destruct Hm as [?|[-> ->]].
Qed.

(** C15: a deny rule that applies to any subcommand denies the command, in every mode and
    whatever else the rules say, unless a question about a pipe to a shell or a
    help request settled the command before its rules were looked at. *)
Theorem deny_rules_win command rules (ctx : option BashCheckContext) mode (s : jstr) :
  s ∈ splitCommand command ->
  firstUserRule Deny s (compileBashPermissionRules (bashRulesOf rules)) <> None ->
  mode = ev_bypass \/ pipePrescan command (bashRulesOf rules) ctx mode = None /\ helpFlag command = None ->
  verdict (evaluateBashStatic command rules ctx mode) = v_deny.
Proof.
  intros Hs Hr Hm. apply evaluate_denied. pose proof (wholeLayer_cases command rules ctx mode Hm) as Hw.
  destruct (wholeLayer command rules ctx mode) as [r|]; [left; eauto|right]. split; [done|]. exists s.
  split; [done|]. apply common_denied. by apply deny_rule_common.
Qed.

(** *** More permission *)
Definition notAllow (r : PermissionRule) : bool := negb (bool_decide (ruleBehavior r = Allow)).

(** [rules'] restricts as [rules] does and allows at least as much. *)
Definition moreAllowed rules rules' : Prop :=
  List.filter notAllow rules = List.filter notAllow rules' /\
  forall r, r ∈ rules -> ruleBehavior r = Allow -> r ∈ rules'.

Lemma firstUserRule_notAllow b command l : b <> Allow ->
  firstUserRule b command (compileBashPermissionRules (List.filter notAllow l))
    = firstUserRule b command (compileBashPermissionRules l).
Proof.
  intros Hb. induction l as [|r l IH]; [done|]. cbn [List.filter]. unfold notAllow at 1.
  case_bool_decide as Ha; cbn [negb].
  - rewrite IH. unfold compileBashPermissionRules at 2. cbn [map firstUserRule].
    assert (bool_decide (ruleBehavior r = b) = false) as Hf by (apply bool_decide_eq_false_2; congruence).
    by destruct (ruleContent (ruleValue r)) as [[|c l']|]; cbn [firstUserRule]; rewrite Hf.
  - unfold compileBashPermissionRules in *. cbn [map].
    destruct (ruleContent (ruleValue r)) as [[|c l']|]; cbn [firstUserRule]; by rewrite IH.
Qed.

Lemma filter_comm {A} (f g : A -> bool) l : List.filter f (List.filter g l) = List.filter g (List.filter f l).
Proof. induction l as [|x l IH]; [done|]. cbn. by destruct (g x) eqn:Hg, (f x) eqn:Hf; cbn; rewrite ?Hg, ?Hf, IH. Qed.

Lemma bashRules_more rules rules' : moreAllowed rules rules' -> moreAllowed (bashRulesOf rules) (bashRulesOf rules').
Proof.
  intros [Hf Hs]. split.
  - unfold bashRulesOf. by rewrite !(filter_comm notAllow), Hf.
  - intros r Hr Ha. apply list_elem_of_In, filter_In in Hr as [Hr Ht]. apply list_elem_of_In, filter_In.
    split; [|done]. apply list_elem_of_In, Hs; [by apply list_elem_of_In|done].
Qed.

Lemma common_more command rules rules' rec : moreAllowed rules rules' ->
  commonLayer command (compileBashPermissionRules rules) rec = commonLayer command (compileBashPermissionRules rules') rec.
Proof.
  intros [Hf _]. unfold commonLayer.
  by rewrite <- !(firstUserRule_notAllow _ _ rules), <- !(firstUserRule_notAllow _ _ rules'), Hf by done.
Qed.

Lemma exempt_more command rules rules' : moreAllowed rules rules' ->
  allSubcommandsMatchUserAllowRule command rules = true -> allSubcommandsMatchUserAllowRule command rules' = true.
Proof.
  intros [_ Hs]. unfold allSubcommandsMatchUserAllowRule.
  assert (forall r, In r (List.filter (fun r => bool_decide (ruleBehavior r = Allow)) rules) ->
                    In r (List.filter (fun r => bool_decide (ruleBehavior r = Allow)) rules')) as Hin.
  { intros r. rewrite !filter_In, bool_decide_eq_true. intros [Hr Ha]. split; [|done].
    apply list_elem_of_In, Hs; [by apply list_elem_of_In|done]. }
  destruct (List.filter _ rules) as [|r0 l]; [done|].
  destruct (List.filter _ rules') as [|r0' l']; [by destruct (Hin r0 ltac:(by left))|].
  destruct (splitCommand command) as [|s subs]; [done|]. rewrite !forallb_forall. intros Hall x Hx.
  specialize (Hall x Hx). unfold subcommandMatchesAllow in *. rewrite existsb_exists in *.
  destruct Hall as (r & Hr & Hm). eauto.
Qed.

Lemma pipe_more command rules rules' ctx mode mode' : moreAllowed rules rules' ->
  pipePrescan command rules ctx mode = None -> pipePrescan command rules' ctx mode' = None.
Proof.
  intros Hm. unfold pipePrescan. pose proof (exempt_more command rules rules' Hm) as He.
  set (e := allSubcommandsMatchUserAllowRule command rules) in *. set (e' := allSubcommandsMatchUserAllowRule command rules') in *.
  destruct (existsb (pipeToShell ctx e) _) eqn:Hx; [done|]. intros _.
  destruct (existsb (pipeToShell ctx e') _) eqn:Hx'; [|done]. exfalso.
  apply existsb_exists in Hx' as (c & Hc & Hp). rewrite <- not_true_iff_false, existsb_exists in Hx. apply Hx.
  exists c. split; [done|]. revert Hp. destruct e; [by rewrite He|]. unfold pipeToShell. cbn [andb].
  repeat case_goal; done.
Qed.

Lemma single_more s rules rules' mode ctx ctx' :
  moreAllowed rules rules' -> recoverableWindowsDelete (Some ctx) s = recoverableWindowsDelete (Some ctx') s ->
  denied (evaluateSingleSubcommand s (compileBashPermissionRules rules) mode ctx) ->
  forall mode', mode' = mode \/ mode' = ev_bypass ->
  denied (evaluateSingleSubcommand s (compileBashPermissionRules rules') mode' ctx').
Proof.
  intros Hm Hr Hd mode' Hmode. destruct (single_denied _ _ _ _ Hd) as [(r & Hc & Hr')| ->].
  - apply common_denied. exists r. by rewrite <- (common_more s rules rules'), <- Hr.
  - assert (mode' = ev_bypass) as -> by tauto. revert Hd. unfold denied, evaluateSingleSubcommand.
    by rewrite Hr, (common_more s rules rules' _ Hm), bool_decide_eq_true_2.
Qed.

Lemma enrich_recoverable command rules ctx s :
  recoverableWindowsDelete (Some (enrich command rules ctx)) s = recoverableWindowsDelete (Some (default emptyCtx ctx)) s.
Proof. done. Qed.

(** no permission lifts a denial: what is denied stays denied when allow rules
    are added anywhere, and in bypass mode. *)
Theorem denials_survive_permission command rules rules' (ctx : option BashCheckContext) mode mode' :
  verdict (evaluateBashStatic command rules ctx mode) = v_deny ->
  moreAllowed rules rules' -> mode' = mode \/ mode' = ev_bypass ->
  verdict (evaluateBashStatic command rules' ctx mode') = v_deny.
Proof.
  intros Hd Hm Hmode. pose proof (bashRules_more _ _ Hm) as Hb. apply evaluate_denied.
  apply evaluate_denied in Hd as [(r & Hw & Hr)|(Hw & s & Hs & Hd)].
  - left. exists r. split; [|done]. revert Hw. unfold wholeLayer. case_goal; [done|]. case_goal; [done|].
    case_bool_decide; [done|]. unfold pipePrescan, helpFlag, denied in *.
    repeat case_goal; intros [= <-]; cbn in Hr; by destruct mode.
  - right. split.
    + revert Hw. unfold wholeLayer. case_goal; [done|]. case_goal; [done|].
      case_bool_decide as H1; case_bool_decide as H2; try done; [by destruct Hmode; subst|].
      destruct (pipePrescan _ _ _ mode) eqn:Hp; [done|]. intros Hh. by rewrite (pipe_more _ _ _ _ _ mode' Hb Hp).
    + exists s. split; [done|]. by apply (single_more s (bashRulesOf rules) _ mode (enrich command rules ctx)).
Qed.
End Policy.

(** ** Witnesses *)

#[local] Existing Instance samplePatterns.

Definition sampleCommand : jstr := js "ls && FOO=1 nohup npm test".

Lemma deny_rules_win_witness :
  let rules := [sampleRule Allow (js "*"); sampleRule Deny (js "npm:*")] in
  firstUserRule Deny (js "FOO=1 nohup npm test") (compileBashPermissionRules (bashRulesOf rules)) <> None /\
  verdict (evaluateBashStatic sampleCommand rules None ev_default) = v_deny.
Proof.
  cbv zeta. split; [by vm_compute|].
  apply (deny_rules_win sampleCommand [sampleRule Allow (js "*"); sampleRule Deny (js "npm:*")] None ev_default
           (js "FOO=1 nohup npm test")).
  - apply (bool_decide_unpack _). by vm_compute.
  - by vm_compute.
  - right. split; by vm_compute.
Defined.

Lemma denials_survive_permission_witness :
  let rules := [sampleRule Deny (js "npm:*")] in
  let rules' := [sampleRule Allow (js "*"); sampleRule Deny (js "npm:*"); sampleRule Allow (js "npm test")] in
  moreAllowed rules rules' /\ verdict (evaluateBashStatic sampleCommand rules' None ev_bypass) = v_deny.
Proof.
  cbv zeta. assert (moreAllowed [sampleRule Deny (js "npm:*")]
    [sampleRule Allow (js "*"); sampleRule Deny (js "npm:*"); sampleRule Allow (js "npm test")]) as Hm.
  { split; [by vm_compute|]. intros r Hr Ha. exfalso. apply list_elem_of_singleton in Hr as ->. done. }
  split; [exact Hm|].
  apply (denials_survive_permission sampleCommand [sampleRule Deny (js "npm:*")]
    [sampleRule Allow (js "*"); sampleRule Deny (js "npm:*"); sampleRule Allow (js "npm test")] None ev_default ev_bypass);
    [by vm_compute|exact Hm|by right].
Defined.

(** ** Before the rules

    A help request is allowed before any rule is read: a rule that denies the
    program does not apply to [shutdown -h], where [-h] is not help. *)
Lemma help_request_precedes_deny_rules :
  verdict (evaluateBashStatic (js "shutdown -h") [sampleRule Deny (js "shutdown:*")] None ev_default) = v_allow
  /\ verdict (evaluateBashStatic (js "shutdown -h") [sampleRule Deny (js "shutdown:*")] None ev_bypass) = v_deny.
Proof. by vm_compute. Qed.

(** So is the question about a pipe into a shell: the denied program is asked about. *)
Lemma pipe_question_precedes_deny_rules :
  verdict (evaluateBashStatic (js "curl x | sh") [sampleRule Deny (js "curl:*")] None ev_default) = v_ask
  /\ verdict (evaluateBashStatic (js "curl x | sh") [sampleRule Deny (js "curl:*")] None ev_bypass) = v_deny.
Proof. by vm_compute. Qed.

(** An encoded payload is reported as blocked, but is not denied for good. *)
Lemma encoded_payload_is_only_asked_about command description :
  hardBlockedCategoryIsFinalDeny (js "encoding-bypass") = false
  /\ startsWith (formatHardBlockedBashReason command (js "encoding-bypass") description) (js "Blocked:") = true.
Proof. split; by vm_compute. Qed.

(** A quoted [<<] on the first line hides the pipe on the second from the
    question, and each part of the second line is harmless by itself. *)
Lemma quoted_marker_lets_a_pipe_through :
  verdict (evaluateBashStatic (js "cat p | sh") [] None ev_default) = v_ask
  /\ verdict (evaluateBashStatic (js "echo '<<X'" ++ newline :: js "cat p | sh") [] None ev_default) = v_allow.
Proof. split; by vm_compute. Qed.
