(* ===== verification/BashPaths.v ===== *)
(** * The paths of a command line

    [extractBashPathIntents] of
    [packages/agent-modules/permission/src/tools/path-capability.ts]: which files
    a command line reads, writes, deletes or executes, as far as its text says so.
    The loops over an index that skip an argument are recursions on the arguments
    left. *)
From S2P Require Import Prelude PermTypes ShellTokenize ShellSplit BashAst BashWrappers BashEvaluate.

Inductive PathCapabilityAction := cap_read | cap_write | cap_delete | cap_execute.
#[export] Instance PathCapabilityAction_eq_dec : EqDecision PathCapabilityAction.
Proof. solve_decision. Defined.

Record PathCapabilityIntent := {
  pc_path : jstr;
  pc_action : PathCapabilityAction;
  pc_relativeBase : option jstr;
}.

(** [allowTempWrite] aside, the tool whose rules are looked at, and the tool that asks. *)
Record PathCapabilityOptions := {
  co_toolName : option jstr;
  co_allowTempWrite : option bool;
  co_originToolName : option jstr;
}.

Definition intent (action : PathCapabilityAction) (path : jstr) : PathCapabilityIntent :=
  {| pc_path := path; pc_action := action; pc_relativeBase := None |}.

Definition READ_PATH_COMMANDS : list jstr :=
  [js "cat"; js "head"; js "tail"; js "less"; js "more"; js "nl"; js "wc"].
Definition SEARCH_PATH_COMMANDS : list jstr := [js "grep"; js "rg"].
Definition EXECUTE_SHELLS : list jstr := [js "bash"; js "sh"; js "zsh"; js "dash"].
Definition DISCARD_SINK_TARGETS : list jstr := [js "/dev/null"; js "/dev/stderr"; js "/dev/stdout"; js "/dev/tty"].
Definition isDiscardSinkTarget (target : jstr) : bool := mem target DISCARD_SINK_TARGETS.

(** ** Tokens *)

(** [/^[A-Za-z]:[\\/]/]. *)
Definition isDrivePath (value : jstr) : bool :=
  match value with
  | c :: d :: e :: _ =>
      (97 <=? asciiLower c)%N && (asciiLower c <=? 122)%N && (d =? ch ":")%N && ((e =? backslash) || (e =? ch "/"))%N
  | _ => false
  end.

Definition isLikelyLocalPath (value : jstr) : bool :=
  startsWith value (js "/") || startsWith value (js "./") || startsWith value (js "../")
  || startsWith value (js ".") || startsWith value (js "~/") || isDrivePath value
  || includes value (js "/") || includes value [backslash].

Definition isStaticPathToken (token : jstr) : bool :=
  if negb (truthy token) then false
  else if startsWith token (js "<") || startsWith token (js ">") then false
  else if includes token (js "$") || includes token [backtick] then false
  else true.

(** [/^(?:[0-9]+|&)?(?:<<<|<<|<|>>|>)\|?$/]. *)
Definition isRedirectOperatorToken (token : jstr) : bool :=
  let operator := match token with c :: s => if (c =? ch "&")%N then s else dropWhile isDigit token | [] => [] end in
  mem operator (flat_map (fun o => [o; o ++ js "|"]) [js "<<<"; js "<<"; js "<"; js ">>"; js ">"]).

Definition skipEnvPrefixes (tokens : list jstr) : list jstr :=
  match dropWhile isAssignment tokens with
  | head :: rest =>
      if str_eqb head (js "env") then dropWhile (fun t => startsWith t (js "-") || isAssignment t) rest
      else head :: rest
  | [] => []
  end.

Definition normalizeCommandToken (token : jstr) : jstr :=
  if startsWith token (js "/") then default token (last (split token (js "/"))) else token.

(** ** Arguments *)
Fixpoint collect_loop (tokens : list jstr) (afterDoubleDash : bool) : list jstr :=
  match tokens with
  | [] => []
  | token :: rest =>
      if negb afterDoubleDash && str_eqb token (js "--") then collect_loop rest true
      else if negb afterDoubleDash && isRedirectOperatorToken token then
        match rest with [] => [] | _ :: rest' => collect_loop rest' afterDoubleDash end
      else if negb afterDoubleDash && startsWith token (js "-") then collect_loop rest afterDoubleDash
      else if negb (isStaticPathToken token) then collect_loop rest afterDoubleDash
      else token :: collect_loop rest afterDoubleDash
  end.

Definition collectPathArgs (tokens : list jstr) : list jstr := collect_loop tokens false.

(** The text behind the first [c], if there is one: [token.slice(token.indexOf(c) + 1)]. *)
Fixpoint afterFirst (c : jchar) (s : jstr) : option jstr :=
  match s with [] => None | d :: s' => if (d =? c)%N then Some s' else afterFirst c s' end.

Definition valueOf (token prefix : jstr) : option jstr :=
  if startsWith token prefix then Some (drop (length prefix) token) else None.

(** [value && isStaticPathToken(value) ? value : undefined]. *)
Definition staticValue (value : option jstr) : option jstr :=
  match value with Some v => if isStaticPathToken v then Some v else None | None => None end.

Definition staticList (value : option jstr) : list jstr := option_list (staticValue value).

(** *** [grep] and [rg] *)
Record SearchScan := {
  readPaths : list jstr;
  positionals : list jstr;
  patternFromFlag : bool;
  noInlinePattern : bool;
}.

Definition addRead (value : option jstr) (st : SearchScan) : SearchScan :=
  {| readPaths := readPaths st ++ staticList value; positionals := positionals st;
     patternFromFlag := patternFromFlag st; noInlinePattern := noInlinePattern st |}.
Definition addPositional (token : jstr) (st : SearchScan) : SearchScan :=
  {| readPaths := readPaths st; positionals := positionals st ++ [token];
     patternFromFlag := patternFromFlag st; noInlinePattern := noInlinePattern st |}.
Definition setPattern (st : SearchScan) : SearchScan :=
  {| readPaths := readPaths st; positionals := positionals st; patternFromFlag := true; noInlinePattern := noInlinePattern st |}.
Definition setNoInline (st : SearchScan) : SearchScan :=
  {| readPaths := readPaths st; positionals := positionals st; patternFromFlag := patternFromFlag st; noInlinePattern := true |}.

(** What a flag of the search commands does: it is done, or takes the next argument. *)
Inductive Flag := FlagDone (st : SearchScan) | FlagTakes (next : option jstr -> SearchScan).

(** Behind the dash of a cluster: the first [f] or [e], and what is attached to it. *)
Fixpoint searchCluster (s : jstr) : option (bool * jstr) :=
  match s with
  | [] => None
  | c :: s' =>
      if (c =? ch "f")%N then Some (true, s')
      else if (c =? ch "e")%N then Some (false, s')
      else searchCluster s'
  end.

Definition searchFlag (token : jstr) (st : SearchScan) : Flag :=
  if mem token [js "--files"; js "--type-list"] then FlagDone (setNoInline st)
  else if mem token [js "--ignore-file"; js "--exclude-from"] then FlagTakes (fun v => addRead v st)
  else if startsWith token (js "--ignore-file=") || startsWith token (js "--exclude-from=") then
    FlagDone (addRead (afterFirst (ch "=") token) st)
  else if mem token [js "-f"; js "--file"] then FlagTakes (fun v => setPattern (addRead v st))
  else match valueOf token (js "--file=") with
  | Some v => FlagDone (setPattern (addRead (Some v) st))
  | None =>
  match (if startsWith token (js "--") then None else searchCluster (tail token)) with
  | Some (isFile, []) => FlagTakes (fun v => setPattern (addRead (if isFile then v else None) st))
  | Some (isFile, attached) => FlagDone (setPattern (addRead (if isFile then Some attached else None) st))
  | None =>
      if str_eqb token (js "--regexp") then FlagTakes (fun _ => setPattern st)
      else if startsWith token (js "--regexp=") then FlagDone (setPattern st)
      else FlagDone st
  end
  end.

Definition isOption (token : jstr) : bool := startsWith token (js "-") && negb (str_eqb token (js "-")).

Fixpoint search_loop (args : list jstr) (afterDoubleDash : bool) (st : SearchScan) : SearchScan :=
  match args with
  | [] => st
  | token :: rest =>
      if negb afterDoubleDash && str_eqb token (js "--") then search_loop rest true st
      else if negb afterDoubleDash && isRedirectOperatorToken token then
        match rest with [] => st | _ :: rest' => search_loop rest' afterDoubleDash st end
      else if negb afterDoubleDash && isOption token then
        match searchFlag token st with
        | FlagDone st' => search_loop rest afterDoubleDash st'
        | FlagTakes next =>
            match rest with
            | [] => next None
            | v :: rest' => search_loop rest' afterDoubleDash (next (Some v))
            end
        end
      else search_loop rest afterDoubleDash (addPositional token st)
  end.

Definition search_init : SearchScan :=
  {| readPaths := []; positionals := []; patternFromFlag := false; noInlinePattern := false |}.

Definition extractSearchPathIntents (args : list jstr) : list PathCapabilityIntent :=
  let st := search_loop args false search_init in
  let searchFiles := if patternFromFlag st || noInlinePattern st then positionals st else tail (positionals st) in
  map (intent cap_read) (List.filter isStaticPathToken (readPaths st ++ searchFiles)).

(** *** [cp] and [mv] *)
Fixpoint extractTargetDirectoryFlag (args : list jstr) : option jstr :=
  match args with
  | [] => None
  | arg :: rest =>
      if str_eqb arg (js "--") then None
      else if mem arg [js "-t"; js "--target-directory"] then staticValue (head rest)
      else match valueOf arg (js "--target-directory=") with
      | Some v => staticValue (Some v)
      | None =>
          match (match arg with
                 | c :: d :: s => if (c =? ch "-")%N && negb (d =? ch "-")%N then afterFirst (ch "t") (d :: s) else None
                 | _ => None
                 end) with
          | Some [] => staticValue (head rest)
          | Some v => staticValue (Some v)
          | None => extractTargetDirectoryFlag rest
          end
      end
  end.

Definition copyIntents (moves : bool) (args : list jstr) : list PathCapabilityIntent :=
  let targetDir := extractTargetDirectoryFlag args in
  let positional := collectPathArgs args in
  let sources := match targetDir with
                 | Some d => List.filter (fun e => negb (str_eqb e d)) positional
                 | None => removelast positional
                 end in
  flat_map (fun s => intent cap_read s :: (if moves then [intent cap_delete s] else [])) sources
  ++ match targetDir with
     | Some d => [intent cap_write d]
     | None => if (2 <=? length positional)%nat then map (intent cap_write) (option_list (last positional)) else []
     end.

(** *** [sed] *)
Record SedScan := {
  sedReads : list jstr;
  sedPositional : list jstr;
  scriptFromFlag : bool;
  inPlace : bool;
}.

Definition sedRead (value : option jstr) (st : SedScan) : SedScan :=
  {| sedReads := sedReads st ++ staticList value; sedPositional := sedPositional st; scriptFromFlag := true; inPlace := inPlace st |}.
Definition sedScript (st : SedScan) : SedScan :=
  {| sedReads := sedReads st; sedPositional := sedPositional st; scriptFromFlag := true; inPlace := inPlace st |}.
Definition sedInPlace (st : SedScan) : SedScan :=
  {| sedReads := sedReads st; sedPositional := sedPositional st; scriptFromFlag := scriptFromFlag st; inPlace := true |}.
Definition sedPush (token : jstr) (st : SedScan) : SedScan :=
  if isStaticPathToken token then
    {| sedReads := sedReads st; sedPositional := sedPositional st ++ [token];
       scriptFromFlag := scriptFromFlag st; inPlace := inPlace st |}
  else st.

Inductive SedFlag := SedDone (st : SedScan) | SedTakes (next : option jstr -> SedScan).

Fixpoint sedCluster (s : jstr) (st : SedScan) : SedFlag :=
  match s with
  | [] => SedDone st
  | c :: rest =>
      if (c =? ch "i")%N then SedDone (sedInPlace st)
      else if (c =? ch "e")%N then
        match rest with [] => SedTakes (fun _ => sedScript st) | _ => SedDone (sedScript st) end
      else if (c =? ch "f")%N then
        match rest with [] => SedTakes (fun v => sedRead v st) | v => SedDone (sedRead (Some v) st) end
      else sedCluster rest st
  end.

Definition sedFlag (token : jstr) (st : SedScan) : SedFlag :=
  if str_eqb token (js "--in-place") || startsWith token (js "--in-place=") then SedDone (sedInPlace st)
  else if mem token [js "-f"; js "--file"] then SedTakes (fun v => sedRead v st)
  else match valueOf token (js "--file=") with
  | Some v => SedDone (sedRead (Some v) st)
  | None =>
      if mem token [js "-e"; js "--expression"] then SedTakes (fun _ => sedScript st)
      else if startsWith token (js "--expression=") then SedDone (sedScript st)
      else if startsWith token (js "--") then SedDone st
      else sedCluster (tail token) st
  end.

Fixpoint sed_loop (args : list jstr) (st : SedScan) : SedScan :=
  match args with
  | [] => st
  | token :: rest =>
      if isRedirectOperatorToken token then match rest with [] => st | _ :: rest' => sed_loop rest' st end
      else if isOption token then
        match sedFlag token st with
        | SedDone st' => sed_loop rest st'
        | SedTakes next => match rest with [] => next None | v :: rest' => sed_loop rest' (next (Some v)) end
        end
      else sed_loop rest (sedPush token st)
  end.

Definition sed_init : SedScan := {| sedReads := []; sedPositional := []; scriptFromFlag := false; inPlace := false |}.

Definition sedIntents (args : list jstr) : list PathCapabilityIntent :=
  let st := sed_loop args sed_init in
  map (intent cap_read) (sedReads st)
  ++ if inPlace st then map (intent cap_write) (if scriptFromFlag st then sedPositional st else tail (sedPositional st)) else [].

(** *** Shells *)
Fixpoint extractShellScriptPath (tokens : list jstr) : option jstr :=
  match tokens with
  | [] => None
  | token :: rest =>
      if negb (truthy token) then extractShellScriptPath rest
      else if str_eqb token (js "--") then extractShellScriptPath rest
      else if mem token [js "-c"; js "--command"] then None
      else if startsWith token (js "-") then extractShellScriptPath rest
      else if isLikelyLocalPath token then Some token else None
  end.

(** ** Redirections *)
Fixpoint target_loop (s : jstr) (sq dq esc : bool) : jstr :=
  match s with
  | [] => []
  | c :: s' =>
      if esc then c :: target_loop s' sq dq false
      else if (c =? backslash)%N && negb sq then target_loop s' sq dq true
      else if (c =? squote)%N && negb dq then target_loop s' (negb sq) dq false
      else if (c =? dquote)%N && negb sq then target_loop s' sq (negb dq) false
      else if negb sq && negb dq && (isWhite c || bool_decide (c ∈ js "|;&<>")) then []
      else c :: target_loop s' sq dq false
  end.

(** The text starts where the target is looked for. *)
Definition readRedirectTarget (s : jstr) : jstr :=
  match s with
  | c :: _ => if (c =? ch "&")%N then [] else target_loop s false false false
  | [] => []
  end.

Definition redirectIntent (action : PathCapabilityAction) (s : jstr) : list PathCapabilityIntent :=
  let target := readRedirectTarget (dropWhile isWhite s) in
  if isLikelyLocalPath target && isStaticPathToken target && negb (isDiscardSinkTarget target)
  then [intent action target] else [].

Definition startsRedirect (c : jchar) (s : jstr) : bool := match s with d :: _ => (d =? c)%N | [] => false end.

Fixpoint redirects_loop (s : jstr) (sq dq esc : bool) : list PathCapabilityIntent :=
  match s with
  | [] => []
  | c :: s' =>
      if esc then redirects_loop s' sq dq false
      else if (c =? backslash)%N && negb sq then redirects_loop s' sq dq true
      else if (c =? squote)%N && negb dq then redirects_loop s' (negb sq) dq false
      else if (c =? dquote)%N && negb sq then redirects_loop s' sq (negb dq) false
      else if sq || dq then redirects_loop s' sq dq false
      else if (c =? ch "<")%N then
        match s' with
        | d :: s2 =>
            if (d =? ch "<")%N then
              match s2 with
              | e :: s3 => if (e =? ch "<")%N then redirects_loop s3 sq dq false else redirects_loop s2 sq dq false
              | [] => []
              end
            else redirectIntent cap_read s' ++ redirects_loop s' sq dq false
        | [] => redirectIntent cap_read s'
        end
      else if (c =? ch ">")%N then
        redirectIntent cap_write (if startsRedirect (ch ">") s' then tail s' else s') ++ redirects_loop s' sq dq false
      else if (c =? ch "&")%N && startsRedirect (ch ">") s' then
        redirectIntent cap_write (if startsRedirect (ch ">") (tail s') then drop 2 s' else tail s')
        ++ redirects_loop s' sq dq false
      else redirects_loop s' sq dq false
  end.

Definition extractRedirectIntents (command : jstr) : list PathCapabilityIntent := redirects_loop command false false false.

(** ** The command line *)
Definition maskHeredocBodies (subcommand : jstr) : jstr :=
  let ranges := findHeredocBodyRanges subcommand in
  imap (fun i c =>
    if existsb (fun r => (b_start r <=? i)%nat && (i <? b_end r)%nat) ranges && negb ((c =? newline) || (c =? cr))%N
    then 32%N else c) subcommand.

Definition argumentIntents (head : jstr) (args : list jstr) : list PathCapabilityIntent :=
  if mem head READ_PATH_COMMANDS then map (intent cap_read) (collectPathArgs args)
  else if mem head SEARCH_PATH_COMMANDS then extractSearchPathIntents args
  else if str_eqb head (js "rm") then map (intent cap_delete) (collectPathArgs args)
  else if str_eqb head (js "tee") then map (intent cap_write) (collectPathArgs args)
  else if mem head [js "cp"; js "mv"] then copyIntents (str_eqb head (js "mv")) args
  else if str_eqb head (js "sed") then sedIntents args
  else if mem head EXECUTE_SHELLS then map (intent cap_execute) (option_list (extractShellScriptPath args))
  else [].

Definition tokenIntents (tokens : list jstr) : list PathCapabilityIntent :=
  match skipEnvPrefixes tokens with
  | [] => []
  | token :: args =>
      let head := normalizeCommandToken token in
      if truthy head then argumentIntents head args else []
  end.

Definition subcommandIntents (rawSubcommand : jstr) : list PathCapabilityIntent :=
  let subcommand := maskHeredocBodies rawSubcommand in
  extractRedirectIntents subcommand
  ++ match extractSourceTarget subcommand with
     | Some (c :: s) =>
         if str_eqb (c :: s) (js "/dev/stdin") then [] else [intent cap_execute (c :: s)]
     | _ => tokenIntents (shellTokenize (trim subcommand))
     end.

Definition extractBashPathIntents (command : jstr) : list PathCapabilityIntent :=
  flat_map subcommandIntents (splitCommand command).
