(* ===== verification/BashPathLaws.v ===== *)
(** * The paths of a command line: what is found

    The scanners of [BashPaths] against a reference reading of the arguments,
    [getopt], which is told the options of the command, and against command
    lines built from quoted words and redirections. *)
From S2P Require Import Prelude ShellTokenize ShellSplit BashEvaluate BashPaths.

(** ** A reference reading of arguments *)
Inductive ArgKind := no_argument | required_argument | optional_argument.
Inductive Item :=
  | item_option (name : jstr) (value : option jstr)
  | item_operand (word : jstr).

Section Getopt.
Variable short : jchar -> ArgKind.
Variable long : jstr -> ArgKind.

(** The options of a cluster, and the one that waits for the next argument. *)
Fixpoint clusterItems (s : jstr) : list Item * option jchar :=
  match s with
  | [] => ([], None)
  | c :: s' =>
      match short c, s' with
      | no_argument, _ => let '(items, waits) := clusterItems s' in (item_option [ch "-"; c] None :: items, waits)
      | required_argument, [] => ([], Some c)
      | optional_argument, [] => ([item_option [ch "-"; c] None], None)
      | _, _ => ([item_option [ch "-"; c] (Some s')], None)
      end
  end.

(** [name=value], or a name alone. *)
Fixpoint splitEq (s : jstr) : jstr * option jstr :=
  match s with
  | [] => ([], None)
  | c :: s' => if (c =? ch "=")%N then ([], Some s') else let '(n, v) := splitEq s' in (c :: n, v)
  end.

(** What an argument that starts with a dash says, and the option that waits.
    Options are named with their dashes. *)
Definition optionItems (w : jstr) : list Item * option jstr :=
  if startsWith w (js "--") then
    let '(name, value) := splitEq (drop 2 w) in
    match value, long name with
    | None, required_argument => ([], Some (js "--" ++ name))
    | _, _ => ([item_option (js "--" ++ name) value], None)
    end
  else let '(items, waits) := clusterItems (tail w) in
       (items, match waits with Some c => Some [ch "-"; c] | None => None end).

Fixpoint getopt (args : list jstr) : list Item :=
  match args with
  | [] => []
  | w :: rest =>
      if str_eqb w (js "--") then map item_operand rest
      else if isOption w then
        let '(items, waits) := optionItems w in
        items ++ match waits with
                 | None => getopt rest
                 | Some name =>
                     match rest with
                     | [] => [item_option name None]
                     | v :: rest' => item_option name (Some v) :: getopt rest'
                     end
                 end
      else item_operand w :: getopt rest
  end.

Definition operandOf (i : Item) : option jstr := match i with item_operand w => Some w | _ => None end.
Definition operands (items : list Item) : list jstr := omap operandOf items.
End Getopt.

(** No argument is a redirection. *)
Definition noRedirects (args : list jstr) : Prop := Forall (fun t => isRedirectOperatorToken t = false) args.

(** ** Operands *)
Lemma collect_all args : forall w, w ∈ args -> isStaticPathToken w = true -> w ∈ collect_loop args true.
Proof.
  induction args as [|t args IH]; intros w; [by intros ?%elem_of_nil|]. cbn [collect_loop negb andb].
  intros [-> | Hw]%elem_of_cons Hs.
  - rewrite Hs. by left.
  - destruct (negb _); [|right]; by apply IH.
Qed.

Lemma collect_inv args : noRedirects args -> forall dd w, w ∈ collect_loop args dd -> w ∈ args /\ isStaticPathToken w = true.
Proof.
  induction 1 as [|t args Ht _ IH]; intros dd w; cbn [collect_loop]; [by intros ?%elem_of_nil|].
  assert (forall dd', w ∈ collect_loop args dd' -> w ∈ t :: args /\ isStaticPathToken w = true) as Hlater
    by (intros dd' [? ?]%IH; split; [by right|done]).
  rewrite Ht, andb_false_r. repeat (case_goal; [by apply Hlater|]). apply negb_false_iff in Heqb1.
  intros [-> | Hw]%elem_of_cons; [split; [by left|done]|by apply (Hlater dd)].
Qed.

Lemma collect_more args w : noRedirects args -> w ∈ collect_loop args false -> w ∈ collect_loop args true.
Proof. intros Hn [Hw Hs]%collect_inv; [|done]. by apply collect_all. Qed.

Lemma collect_later t args w : noRedirects (t :: args) -> w ∈ collect_loop args false -> w ∈ collect_loop (t :: args) false.
Proof.
  intros [Ht Hn]%Forall_cons Hw. cbn [collect_loop negb andb]. rewrite Ht.
  repeat case_goal; [by apply collect_more|done|done|by right].
Qed.

Lemma operands_app l1 l2 : operands (l1 ++ l2) = operands l1 ++ operands l2.
Proof. apply omap_app. Qed.

Lemma operands_all l : operands (map item_operand l) = l.
Proof. unfold operands. induction l as [|w l IH]; [done|]. cbn [map omap list_omap operandOf]. by rewrite IH. Qed.

Lemma cluster_operands short s : operands (fst (clusterItems short s)) = [].
Proof.
  induction s as [|c s IH]; [done|]. cbn [clusterItems]. destruct (short c); [|by destruct s..].
  destruct (clusterItems short s) as [items waits]. exact IH.
Qed.

Lemma option_operands short long w : operands (fst (optionItems short long w)) = [].
Proof.
  unfold optionItems. destruct (startsWith w _).
  - destruct (splitEq _) as [name [v|]]; [done|]. by destruct (long name).
  - pose proof (cluster_operands short (tail w)) as Hc. by destruct (clusterItems short (tail w)).
Qed.

Lemma operand_found short long n : forall args w, length args <= n -> noRedirects args ->
  w ∈ operands (getopt short long args) -> isStaticPathToken w = true -> w <> js "-" -> w ∈ collect_loop args false.
Proof.
  induction n as [|n IH]; intros [|t args] w Hlen Hn Hw Hs Hd; try by (apply elem_of_nil in Hw || (cbn in Hlen; lia)).
  cbn [length] in Hlen. pose proof Hn as [Ht Hn']%Forall_cons. cbn [getopt] in Hw.
  destruct (str_eqb t (js "--")) eqn:Hdd.
  { cbn [collect_loop negb andb]. rewrite Hdd. rewrite operands_all in Hw. by apply collect_all. }
  destruct (isOption t) eqn:Ho.
  - apply collect_later; [done|]. pose proof (option_operands short long t) as Hi.
    destruct (optionItems short long t) as [items [name|]]; cbn [fst] in Hi; rewrite operands_app, Hi in Hw; cbn [app] in Hw.
    + destruct args as [|v args]; [by apply elem_of_nil in Hw|]. apply collect_later; [done|]. apply Forall_cons in Hn' as [_ Hn'].
      cbn [length] in Hlen. apply (IH args w); [lia|done..].
    + apply (IH args w); [lia|done..].
  - change (w ∈ t :: operands (getopt short long args)) in Hw. apply elem_of_cons in Hw as [-> | Hw].
    + cbn [collect_loop negb andb]. rewrite Hdd, Ht, Hs. unfold isOption in Ho. apply andb_false_iff in Ho as [-> | Ho]; [by left|].
      apply negb_false_iff in Ho. unfold str_eqb in Ho. by apply bool_decide_eq_true_1 in Ho.
    + apply collect_later; [done|]. apply (IH args w); [lia|done..].
Qed.

(** ** Command lines with redirections *)
Record Command := {
  words : list jstr;
  redirects : list (jstr * jstr);
}.

Definition OUTPUT_OPERATORS : list jstr :=
  [js ">"; js ">>"; js "1>"; js "1>>"; js "2>"; js "2>>"; js "&>"; js "&>>"].

Definition redirectText (r : jstr * jstr) : jstr := 32%N :: fst r ++ 32%N :: shellQuote (snd r).
Definition redirectsText (rs : list (jstr * jstr)) : jstr := concat (map redirectText rs).
Definition render (c : Command) : jstr := commandLine (words c) ++ redirectsText (redirects c).

Definition wellFormed (c : Command) : Prop :=
  plainArgv (words c) = true /\ forallb truthy (words c) = true
  /\ Forall (fun r => r.1 ∈ OUTPUT_OPERATORS /\ noQuote r.2 = true /\ truthy r.2 = true) (redirects c).

Definition redirectTokens (rs : list (jstr * jstr)) : list jstr := flat_map (fun r => [r.1; r.2]) rs.

(** *** Tokens *)
Definition bare (c : jchar) : bool := negb ((c =? backslash) || (c =? squote) || (c =? dquote))%N && negb (isShellWhitespace c).

Lemma tok_bare u s : forallb bare u = true -> forall i st, plain st ->
  exists j st', tok_loop (u ++ s) i st = tok_loop s j st' /\ plain st' /\ vals st' = vals st /\ current st' = current st ++ u.
Proof.
  induction u as [|c u IH]; intros Hu i st Hp; [exists i, st; by rewrite app_nil_r|].
  cbn [forallb] in Hu. apply andb_true_iff in Hu as [[Hc Hw]%andb_true_iff Hu].
  apply negb_true_iff, orb_false_iff in Hc as [[Hb Hq]%orb_false_iff Hd]. apply negb_true_iff in Hw.
  destruct (IH Hu (S i) (push c i false st)) as (j & st' & E & Hp' & Hv & Hcur); [by destruct Hp as (? & ? & ?)|].
  exists j, st'. split; [|split; [done|split; [done|]]].
  - rewrite <- E. destruct Hp as (Hs & Hdq & He). cbn [app tok_loop]. by rewrite He, Hs, Hdq, Hb, Hq, Hd, Hw.
  - rewrite Hcur. cbn [push current]. by rewrite <- app_assoc.
Qed.

Lemma operator_bare op : op ∈ OUTPUT_OPERATORS -> forallb bare op = true /\ truthy op = true.
Proof.
  unfold OUTPUT_OPERATORS. intros H. repeat (apply elem_of_cons in H as [-> | H]; [split; reflexivity|]). by apply elem_of_nil in H.
Qed.

Definition seen (st : TokState) : list jstr := vals st ++ List.filter truthy [current st].

Lemma tok_redirects rs : Forall (fun r => r.1 ∈ OUTPUT_OPERATORS /\ noQuote r.2 = true /\ truthy r.2 = true) rs ->
  forall i e st, plain st -> vals (flushCurrent e (tok_loop (redirectsText rs) i st)) = seen st ++ redirectTokens rs.
Proof.
  induction 1 as [|[op w] rs (Hop & _ & Hw) _ IH]; intros i e st Hp; cbn [fst snd] in *.
  { cbn [redirectsText map concat tok_loop]. by rewrite vals_flush, app_nil_r. }
  destruct (operator_bare op Hop) as [Hb Ht].
  change (redirectsText ((op, w) :: rs)) with (redirectText (op, w) ++ redirectsText rs).
  unfold redirectText. cbn [fst snd]. cbn [app]. rewrite tok_space by done. rewrite <- app_assoc.
  assert (forall k, plain (flushCurrent k st)) as Hf by (intros k; by destruct Hp as (? & ? & ?)).
  edestruct (tok_bare op) as (j & st' & -> & Hp' & Hv & Hc); [done|apply Hf|].
  cbn [app]. rewrite tok_space by done.
  assert (plain (flushCurrent j st')) as Hf' by (by destruct Hp' as (? & ? & ?)).
  edestruct (tok_shellQuote w) as (j' & st2 & -> & Hp2 & Hv2 & Hc2); [exact Hf'|].
  rewrite IH by done. unfold seen at 1. rewrite Hv2, Hc2, vals_flush, Hv, Hc, vals_flush. cbn [flushCurrent current app].
  cbn [List.filter]. rewrite Ht, Hw. unfold seen, redirectTokens. cbn [flat_map fst snd]. by rewrite <- !app_assoc.
Qed.

Lemma tok_argv argv s : argv <> [] -> forall i st, plain st -> current st = [] ->
  exists j st', tok_loop (commandLine argv ++ s) i st = tok_loop s j st' /\ plain st' /\ seen st' = vals st ++ List.filter truthy argv.
Proof.
  induction argv as [|w argv IH]; intros Hne i st Hp Hc; [done|].
  rewrite commandLine_cons, <- app_assoc.
  destruct argv as [|w' argv].
  - destruct (tok_shellQuote w ([] ++ s) i st Hp) as (j & st' & E & Hp' & Hv & Hcur). exists j, st'. split; [exact E|].
    split; [done|]. unfold seen. by rewrite Hv, Hcur, Hc.
  - destruct (tok_shellQuote w ((32%N :: commandLine (w' :: argv)) ++ s) i st Hp) as (j & st' & -> & Hp' & Hv & Hcur).
    cbn [app]. rewrite tok_space by done.
    destruct (IH ltac:(done) (S j) (flushCurrent j st')) as (k & st2 & E & Hp2 & Hs); [by destruct Hp' as (? & ? & ?)|done|].
    exists k, st2. split; [exact E|]. split; [done|]. rewrite Hs, vals_flush, Hv, Hcur, Hc, <- app_assoc.
    by rewrite <- (List.filter_app truthy [w]).
Qed.

Lemma tokenize_render c : wellFormed c -> shellTokenize (render c) = words c ++ redirectTokens (redirects c).
Proof.
  intros (Hp & Ht & Hr). destruct (plainArgv_inv _ Hp) as [Hne _]. unfold shellTokenize, shellTokenizeWithMetadata, render.
  destruct (tok_argv (words c) (redirectsText (redirects c)) Hne 0 tok_init) as (j & st & -> & Hst & Hs); [done|done|].
  fold (vals (flushCurrent (length (commandLine (words c) ++ redirectsText (redirects c))) (tok_loop (redirectsText (redirects c)) j st))).
  rewrite (tok_redirects _ Hr _ _ st Hst), Hs. cbn [vals tok_init tokens map app]. f_equal. apply filter_Forall_id, Forall_forall. intros w Hw. rewrite forallb_forall in Ht. by apply Ht, list_elem_of_In.
Qed.

(** *** Lines *)
(** The splitter keeps [u] when [next] follows it. *)
Fixpoint keeps (u : jstr) (next : option jchar) : bool :=
  match u with
  | [] => true
  | c :: u' =>
      match split_step c (match u' with [] => next | d :: _ => Some d end) false false false with
      | Keep false false false => keeps u' next
      | _ => false
      end
  end.

Lemma split_keeps u s : forall cur, keeps u (head s) = true ->
  split_loop (u ++ s) cur false false false = split_loop s (cur ++ u) false false false.
Proof.
  induction u as [|c u IH]; intros cur; [by rewrite app_nil_r|]. cbn [keeps app]. rewrite split_loop_step.
  assert (head (u ++ s) = match u with [] => head s | d :: _ => Some d end) as -> by (by destruct u).
  destruct (split_step _ _ _ _ _) as [n|sq dq esc]; [done|]. destruct sq, dq, esc; try done. intros H.
  rewrite IH by done. by rewrite <- app_assoc.
Qed.

Lemma redirect_split r s cur : r.1 ∈ OUTPUT_OPERATORS -> noQuote r.2 = true ->
  split_loop (redirectText r ++ s) cur false false false = split_loop s (cur ++ redirectText r) false false false.
Proof.
  destruct r as [op w]. cbn [fst snd]. intros Hop Hw. unfold redirectText. cbn [fst snd]. rewrite shellQuote_plain by done.
  assert (forall cur, split_loop (32%N :: op ++ 32%N :: squote :: w ++ squote :: s) cur false false false
    = split_loop (w ++ squote :: s) (cur ++ 32%N :: op ++ [32%N; squote]) true false false) as E.
  { intros cur'. assert (keeps (32%N :: op ++ [32%N]) (Some squote) = true) as Hk.
    { unfold OUTPUT_OPERATORS in Hop. repeat (apply elem_of_cons in Hop as [-> | Hop]; [reflexivity|]). by apply elem_of_nil in Hop. }
    pose proof (split_keeps (32%N :: op ++ [32%N]) (squote :: w ++ squote :: s) cur' Hk) as E.
    cbn [app] in E. rewrite <- app_assoc in E. cbn [app] in E. rewrite E, split_loop_step.
    change (split_step squote _ _ _ _) with (Keep true false false). cbn iota. f_equal. rewrite <- app_assoc. cbn [app].
    f_equal. f_equal. by rewrite <- app_assoc. }
  replace ((32%N :: op ++ 32%N :: squote :: w ++ [squote]) ++ s) with (32%N :: op ++ 32%N :: squote :: w ++ squote :: s)
    by (cbn; by rewrite <- app_assoc; cbn; rewrite <- app_assoc).
  rewrite E, split_word by done. f_equal. rewrite <- !app_assoc. cbn [app]. by rewrite <- app_assoc.
Qed.

Lemma redirect_quoted r s : r.1 ∈ OUTPUT_OPERATORS -> noQuote r.2 = true -> quoted_ok false (redirectText r ++ s) = quoted_ok false s.
Proof.
  destruct r as [op w]. cbn [fst snd]. intros Hop Hw. unfold redirectText. cbn [fst snd]. rewrite shellQuote_plain by done.
  replace ((32%N :: op ++ 32%N :: squote :: w ++ [squote]) ++ s) with (32%N :: op ++ 32%N :: squote :: w ++ squote :: s)
    by (cbn; by rewrite <- app_assoc; cbn; rewrite <- app_assoc).
  rewrite <- (quoted_ok_word w s Hw). unfold OUTPUT_OPERATORS in Hop.
  repeat (apply elem_of_cons in Hop as [-> | Hop]; [done|]). by apply elem_of_nil in Hop.
Qed.

Lemma render_shape c : wellFormed c -> exists m, render c = squote :: m ++ [squote].
Proof.
  intros (Hp & _ & Hr). destruct (plainArgv_inv _ Hp) as [Hne Hq]. destruct (commandLine_shape _ Hne Hq) as [m Hm].
  unfold render. rewrite Hm. destruct (redirects c) as [|r rs _] using rev_ind.
  { exists m. by rewrite app_nil_r. }
  apply Forall_app in Hr as [_ Hr]. apply Forall_cons in Hr as [(_ & Hw & _) _].
  unfold redirectsText. rewrite map_app, concat_app. cbn [map concat]. rewrite app_nil_r.
  unfold redirectText at 2. rewrite shellQuote_plain by done.
  exists (m ++ [squote] ++ concat (map redirectText rs) ++ 32%N :: r.1 ++ 32%N :: squote :: r.2).
  cbn [app]. f_equal. rewrite <- !app_assoc. f_equal. cbn [app]. f_equal. rewrite <- !app_assoc. f_equal. cbn [app].
  f_equal. rewrite <- !app_assoc. done.
Qed.

Lemma solid_render c : wellFormed c -> solid (render c).
Proof.
  intros Hc. pose proof Hc as (Hp & Ht & Hr). destruct (plainArgv_inv _ Hp) as [Hne Hq]. split.
  - by apply render_shape.
  - intros s cur. unfold render. rewrite <- app_assoc, split_commandLine, app_assoc by done.
    generalize (cur ++ commandLine (words c)) as pre. clear -Hr.
    induction Hr as [|r rs (Hop & Hw & _) _ IH]; intros pre; [by rewrite app_nil_r|].
    unfold redirectsText in *. cbn [map concat]. rewrite <- app_assoc, redirect_split, IH by done. by rewrite <- app_assoc.
  - intros s. unfold render. rewrite <- app_assoc, quoted_ok_commandLine by done. clear -Hr.
    induction Hr as [|r rs (Hop & Hw & _) _ IH]; [done|].
    unfold redirectsText in *. cbn [map concat]. rewrite <- app_assoc, redirect_quoted by done. exact IH.
  - unfold isAssignmentOnlySegment. destruct (render_shape c Hc) as [m Hm].
    assert (trim (render c) = render c) as -> by (rewrite Hm; apply trim_quoted).
    rewrite tokenize_render by done. unfold plainArgv in Hp. destruct (words c) as [|w argv]; [done|].
    apply andb_true_iff in Hp as [[_ Ha%negb_true_iff]%andb_true_iff _]. cbn [app forallb]. by rewrite Ha.
Qed.

(** *** Redirections *)
Definition checkedTarget (w : jstr) : bool := isLikelyLocalPath w && isStaticPathToken w && negb (isDiscardSinkTarget w).

Lemma redirects_words argv s : forallb noQuote argv = true ->
  redirects_loop (commandLine argv ++ s) false false false = redirects_loop s false false false.
Proof.
  assert (forall w s, noQuote w = true -> redirects_loop (w ++ squote :: s) true false false = redirects_loop s false false false) as Hw.
  { induction w as [|c w IH]; intros s' H; [done|]. cbn [noQuote forallb] in H. apply andb_true_iff in H as [Hc%negb_true_iff H].
    cbn [app redirects_loop]. rewrite Hc, !andb_false_r. cbn [andb orb]. by apply IH. }
  revert s. induction argv as [|w argv IH]; intros s; [done|]. cbn [forallb]. intros [Hq H]%andb_true_iff.
  rewrite commandLine_cons, shellQuote_plain, <- app_assoc by done. cbn [app]. rewrite <- app_assoc. cbn [app].
  change (redirects_loop (squote :: ?x) false false false) with (redirects_loop x true false false).
  rewrite Hw by done. destruct argv; [done|]. by apply IH.
Qed.

Lemma target_word w s : noQuote w = true -> (s = [] \/ exists s', s = 32%N :: s') ->
  readRedirectTarget (dropWhile isWhite (32%N :: squote :: w ++ squote :: s)) = w.
Proof.
  intros Hw Hs. cbn. revert Hw. induction w as [|c w IH]; intros Hw.
  - cbn. destruct Hs as [-> | [s' ->]]; done.
  - cbn [noQuote forallb] in Hw. apply andb_true_iff in Hw as [Hc%negb_true_iff Hw].
    cbn [app target_loop]. rewrite Hc, !andb_false_r. cbn [andb]. f_equal. by apply IH.
Qed.

Lemma loop_quiet c s : forallb (fun d => negb (c =? d)%N) [backslash; squote; dquote; 60%N; 62%N; 38%N] = true ->
  redirects_loop (c :: s) false false false = redirects_loop s false false false.
Proof.
  cbn [forallb]. rewrite !andb_true_iff, !negb_true_iff. intros (Hb & Hs & Hd & Hl & Hg & Ha & _). cbn [redirects_loop].
  change (ch "<") with 60%N. change (ch ">") with 62%N. change (ch "&") with 38%N. by rewrite Hb, Hs, Hd, Hl, Hg, Ha.
Qed.

Lemma loop_greater t : redirects_loop (62%N :: 32%N :: t) false false false
  = redirectIntent cap_write (32%N :: t) ++ redirects_loop (32%N :: t) false false false.
Proof. reflexivity. Qed.

Lemma loop_append s : redirects_loop (62%N :: 62%N :: s) false false false
  = redirectIntent cap_write s ++ redirects_loop (62%N :: s) false false false.
Proof. reflexivity. Qed.

Lemma loop_both t : redirects_loop (38%N :: 62%N :: 32%N :: t) false false false
  = redirectIntent cap_write (32%N :: t) ++ redirects_loop (62%N :: 32%N :: t) false false false.
Proof. reflexivity. Qed.

Lemma loop_both_append s : redirects_loop (38%N :: 62%N :: 62%N :: s) false false false
  = redirectIntent cap_write s ++ redirects_loop (62%N :: 62%N :: s) false false false.
Proof. reflexivity. Qed.

(** The text behind an operator, and what the loop finds from the operator on. *)
Lemma operator_loop op t : op ∈ OUTPUT_OPERATORS -> exists n,
  redirects_loop (32%N :: op ++ 32%N :: t) false false false
  = concat (repeat (redirectIntent cap_write (32%N :: t)) (S n)) ++ redirects_loop (32%N :: t) false false false.
Proof.
  intros Hop. rewrite loop_quiet by done. set (found := redirectIntent cap_write (32%N :: t)).
  assert (forall d u, forallb (fun c => negb (d =? c)%N) [backslash; squote; dquote; 60%N; 62%N; 38%N] = true -> (exists n,
    redirects_loop u false false false = concat (repeat found (S n)) ++ redirects_loop (32%N :: t) false false false) -> exists n,
    redirects_loop (d :: u) false false false = concat (repeat found (S n)) ++ redirects_loop (32%N :: t) false false false) as Hd.
  { intros d u H [n E]. exists n. by rewrite loop_quiet. }
  assert (exists n, redirects_loop (62%N :: 32%N :: t) false false false
    = concat (repeat found (S n)) ++ redirects_loop (32%N :: t) false false false) as H1.
  { exists 0. rewrite loop_greater. cbn [repeat concat]. by rewrite app_nil_r. }
  assert (exists n, redirects_loop (62%N :: 62%N :: 32%N :: t) false false false
    = concat (repeat found (S n)) ++ redirects_loop (32%N :: t) false false false) as H2.
  { destruct H1 as [n E]. exists (S n). rewrite loop_append, E. cbn [repeat concat]. by rewrite <- !app_assoc. }
  unfold OUTPUT_OPERATORS in Hop.
  apply elem_of_cons in Hop as [-> | Hop]; [exact H1|].
  apply elem_of_cons in Hop as [-> | Hop]; [exact H2|].
  apply elem_of_cons in Hop as [-> | Hop]; [by apply (Hd 49%N)|].
  apply elem_of_cons in Hop as [-> | Hop]; [by apply (Hd 49%N)|].
  apply elem_of_cons in Hop as [-> | Hop]; [by apply (Hd 50%N)|].
  apply elem_of_cons in Hop as [-> | Hop]; [by apply (Hd 50%N)|].
  apply elem_of_cons in Hop as [-> | Hop].
  { destruct H1 as [n E]. exists (S n). change (js "&>" ++ 32%N :: t) with (38%N :: 62%N :: 32%N :: t).
    rewrite loop_both, E. cbn [repeat concat]. by rewrite <- !app_assoc. }
  apply elem_of_cons in Hop as [-> | Hop]; [|by apply elem_of_nil in Hop].
  destruct H2 as [n E]. exists (S n). change (js "&>>" ++ 32%N :: t) with (38%N :: 62%N :: 62%N :: 32%N :: t).
  rewrite loop_both_append, E. cbn [repeat concat]. by rewrite <- !app_assoc.
Qed.

Lemma redirect_loop_text r s : r.1 ∈ OUTPUT_OPERATORS -> noQuote r.2 = true -> (s = [] \/ exists s', s = 32%N :: s') ->
  exists found, redirects_loop (redirectText r ++ s) false false false = found ++ redirects_loop s false false false
    /\ (checkedTarget r.2 = true -> intent cap_write r.2 ∈ found).
Proof.
  destruct r as [op w]. cbn [fst snd]. intros Hop Hw Hs. pose proof (target_word w s Hw Hs) as Ht.
  assert (redirects_loop (32%N :: squote :: w ++ squote :: s) false false false = redirects_loop s false false false) as Hr.
  { rewrite loop_quiet by done. assert (forallb noQuote [w] = true) as Hq by (cbn; by rewrite Hw).
    rewrite <- (redirects_words [w] s Hq). change (commandLine [w]) with (shellQuote w). rewrite shellQuote_plain by done.
    cbn [app]. by rewrite <- app_assoc. }
  assert (redirectText (op, w) ++ s = 32%N :: op ++ 32%N :: squote :: w ++ squote :: s) as ->.
  { unfold redirectText. cbn [fst snd]. rewrite shellQuote_plain by done. cbn [app]. rewrite <- app_assoc. cbn [app].
    by rewrite <- app_assoc. }
  destruct (operator_loop op (squote :: w ++ squote :: s) Hop) as [n ->]. rewrite Hr. eexists. split; [done|].
  intros Hc. unfold redirectIntent. rewrite Ht. unfold checkedTarget in Hc. rewrite Hc. by left.
Qed.

Lemma redirects_found rs : Forall (fun r => r.1 ∈ OUTPUT_OPERATORS /\ noQuote r.2 = true /\ truthy r.2 = true) rs ->
  forall r, r ∈ rs -> checkedTarget r.2 = true -> intent cap_write r.2 ∈ redirects_loop (redirectsText rs) false false false.
Proof.
  induction 1 as [|r0 rs (Hop & Hw & _) _ IH]; intros r Hr Hc; [by apply elem_of_nil in Hr|].
  change (redirectsText (r0 :: rs)) with (redirectText r0 ++ redirectsText rs).
  destruct (redirect_loop_text r0 (redirectsText rs) Hop Hw) as (found & -> & Hf).
  { destruct rs as [|r1 rs]; [by left|right]. by eexists. }
  apply elem_of_app. apply elem_of_cons in Hr as [-> | Hr]; [left; by apply Hf|right; by apply IH].
Qed.

(** *** Whole commands *)
Definition MODELLED_COMMANDS : list jstr :=
  READ_PATH_COMMANDS ++ SEARCH_PATH_COMMANDS ++ [js "rm"; js "tee"; js "cp"; js "mv"; js "sed"] ++ EXECUTE_SHELLS.

Lemma modelled_head head : head ∈ MODELLED_COMMANDS ->
  mem head [js "source"; js "."] = false /\ isAssignment head = false /\ str_eqb head (js "env") = false
  /\ startsWith head (js "/") = false /\ truthy head = true.
Proof.
  intros H. apply (bool_decide_unpack _).
  assert (Forall (fun head => bool_decide (mem head [js "source"; js "."] = false /\ isAssignment head = false
    /\ str_eqb head (js "env") = false /\ startsWith head (js "/") = false /\ truthy head = true) = true) MODELLED_COMMANDS) as Ha
    by (apply (bool_decide_unpack _); by vm_compute).
  rewrite Forall_forall in Ha. by rewrite Ha.
Qed.

Lemma tokenIntents_modelled head args : head ∈ MODELLED_COMMANDS -> tokenIntents (head :: args) = argumentIntents head args.
Proof.
  intros (_ & Ha & He & Hs & Ht)%modelled_head. unfold tokenIntents, skipEnvPrefixes. cbn [dropWhile]. rewrite Ha, He.
  unfold normalizeCommandToken. by rewrite Hs, Ht.
Qed.

Lemma mask_nothing s : findHeredocBodyRanges s = [] -> maskHeredocBodies s = s.
Proof.
  unfold maskHeredocBodies. intros ->. cbn [existsb andb]. apply list_eq. intros i. rewrite list_lookup_imap. by destruct (s !! i).
Qed.

Lemma render_mask c : wellFormed c -> maskHeredocBodies (render c) = render c.
Proof.
  intros Hc. apply mask_nothing, no_bodies_quoted. rewrite <- (app_nil_r (render c)), solid_ok by (by apply solid_render). done.
Qed.

Lemma render_intents c head args : wellFormed c -> words c = head :: args -> head ∈ MODELLED_COMMANDS ->
  subcommandIntents (render c) = redirects_loop (redirectsText (redirects c)) false false false
    ++ argumentIntents head (args ++ redirectTokens (redirects c)).
Proof.
  intros Hc Hw Hm. pose proof Hc as (Hp & _ & Hr). destruct (plainArgv_inv _ Hp) as [_ Hq]. pose proof (solid_render c Hc) as Hs.
  unfold subcommandIntents. rewrite render_mask by done. unfold extractRedirectIntents. unfold render at 1. rewrite redirects_words by done. f_equal.
  assert (extractSourceTarget (render c) = None) as ->.
  { unfold extractSourceTarget. rewrite trim_solid by done. destruct (render_shape c Hc) as [m Hsh]. rewrite Hsh.
    change (match squote :: m ++ [squote] with d :: c0 :: _ => _ | _ => false end) with (match m ++ [squote] with c0 :: _ => (squote =? ch ".")%N && negb (isWhite c0) | [] => false end).
    rewrite <- Hsh, tokenize_render, Hw by done. destruct (modelled_head head Hm) as [Hn _]. cbn [app]. rewrite Hn. cbn [negb].
    destruct (m ++ [squote]); by destruct (args ++ _). }
  rewrite trim_solid, tokenize_render, Hw by done. by apply tokenIntents_modelled.
Qed.

(** Commands put together with separators. *)
Definition program (first : Command) (rest : list (jstr * Command)) : jstr :=
  render first ++ glue (map (fun x => (x.1, render x.2)) rest).

Definition wellFormedProgram (first : Command) (rest : list (jstr * Command)) : Prop :=
  wellFormed first /\ Forall (fun x => x.1 ∈ separators /\ wellFormed x.2) rest.

Lemma program_split first rest : wellFormedProgram first rest ->
  splitCommand (program first rest) = map render (first :: map snd rest).
Proof.
  intros [Hf Hr]. unfold program. rewrite solid_lines_split; [cbn [map]; by rewrite !map_map|by apply solid_render|].
  rewrite Forall_map. eapply Forall_impl; [exact Hr|]. intros x [? ?]. split; [done|by apply solid_render].
Qed.

Lemma program_intents first rest c i : wellFormedProgram first rest -> c ∈ first :: map snd rest ->
  i ∈ subcommandIntents (render c) -> i ∈ extractBashPathIntents (program first rest).
Proof.
  intros Hp Hc Hi. unfold extractBashPathIntents. rewrite program_split by done.
  apply list_elem_of_In, in_flat_map. exists (render c). split; [|by apply list_elem_of_In]. apply in_map. by apply list_elem_of_In.
Qed.

Lemma program_command first rest c : wellFormedProgram first rest -> c ∈ first :: map snd rest -> wellFormed c.
Proof.
  intros [Hf Hr] [-> | Hc]%elem_of_cons; [done|]. apply list_elem_of_In, in_map_iff in Hc as (x & <- & Hx).
  rewrite Forall_forall in Hr. by apply Hr, list_elem_of_In.
Qed.

Lemma program_nonempty first rest : wellFormedProgram first rest -> exists c s, program first rest = c :: s.
Proof. intros [Hf _]. unfold program. destruct (render_shape first Hf) as [m ->]. by eexists _, _. Qed.

(** What is done to the operands of a command all of whose operands are files. *)
Definition operandAction (head : jstr) : option PathCapabilityAction :=
  if mem head READ_PATH_COMMANDS then Some cap_read
  else if str_eqb head (js "rm") then Some cap_delete
  else if str_eqb head (js "tee") then Some cap_write
  else None.

Lemma operandAction_intents head action args : operandAction head = Some action ->
  head ∈ MODELLED_COMMANDS /\ argumentIntents head args = map (intent action) (collectPathArgs args).
Proof.
  unfold operandAction, argumentIntents. case_goal.
  - intros [= <-]. split; [|done]. apply bool_decide_eq_true_1 in Heqb. apply elem_of_app. by left.
  - case_goal; [|case_goal; [|done]]; intros [= <-]; apply bool_decide_eq_true_1 in Heqb0 || apply bool_decide_eq_true_1 in Heqb1;
      subst head; (split; [by apply (bool_decide_unpack _); vm_compute|reflexivity]).
Qed.

Lemma collect_app args more w : noRedirects args -> forall dd, w ∈ collect_loop args dd -> w ∈ collect_loop (args ++ more) dd.
Proof.
  induction 1 as [|t args Ht _ IH]; intros dd; cbn [collect_loop app]; [by intros ?%elem_of_nil|]. rewrite Ht, !andb_false_r.
  repeat case_goal; try apply IH. intros [-> | Hw]%elem_of_cons; [by left|right; by apply IH].
Qed.

Lemma operand_intent short long first rest c head args action w :
  wellFormedProgram first rest -> c ∈ first :: map snd rest -> words c = head :: args ->
  operandAction head = Some action -> noRedirects args ->
  w ∈ operands (getopt short long args) -> isStaticPathToken w = true -> w <> js "-" ->
  intent action w ∈ extractBashPathIntents (program first rest).
Proof.
  intros Hp Hc Hw Ha Hn Ho Hs Hd. apply (program_intents first rest c); [done..|].
  destruct (operandAction_intents head action (args ++ redirectTokens (redirects c)) Ha) as [Hm E].
  rewrite (render_intents c head args) by (done || by apply (program_command first rest)). rewrite E.
  apply elem_of_app. right. apply list_elem_of_In, in_map, list_elem_of_In. apply collect_app; [done|].
  by apply (operand_found short long (length args)).
Qed.

(** no operand is missed: in a program of quoted commands with redirections,
    every operand of a command that reads, deletes or writes its operands is
    checked for that action, whichever of its options take arguments. *)
Theorem no_operand_is_missed short long first rest c head args action w :
  wellFormedProgram first rest -> c ∈ first :: map snd rest -> words c = head :: args ->
  operandAction head = Some action -> noRedirects args ->
  w ∈ operands (getopt short long args) -> isStaticPathToken w = true -> w <> js "-" ->
  intent action w ∈ extractBashPathIntents (program first rest).
Proof. apply operand_intent. Qed.

Lemma redirect_intent first rest c op w :
  wellFormedProgram first rest -> c ∈ first :: map snd rest -> (op, w) ∈ redirects c -> checkedTarget w = true ->
  intent cap_write w ∈ extractBashPathIntents (program first rest).
Proof.
  intros Hp Hc Hr Hch. apply (program_intents first rest c); [done..|].
  pose proof (program_command first rest c Hp Hc) as Hwf. pose proof Hwf as (Hpl & _ & Hrs). destruct (plainArgv_inv _ Hpl) as [_ Hq].
  unfold subcommandIntents. rewrite render_mask by done. apply elem_of_app. left. unfold extractRedirectIntents, render.
  rewrite redirects_words by done. by apply (redirects_found (redirects c) Hrs (op, w)).
Qed.

(** no redirection is missed: every file that a command of such a program
    sends its output to is checked for writing, unless it is a name without a
    slash, depends on an expansion or discards what it is given. *)
Theorem redirections_are_checked first rest c op w :
  wellFormedProgram first rest -> c ∈ first :: map snd rest -> (op, w) ∈ redirects c -> checkedTarget w = true ->
  intent cap_write w ∈ extractBashPathIntents (program first rest).
Proof. apply redirect_intent. Qed.

(** ** [grep] and [rg] *)
Definition searchShort (c : jchar) : ArgKind := if ((c =? ch "e") || (c =? ch "f"))%N then required_argument else no_argument.
Definition searchLong (name : jstr) : ArgKind :=
  if mem name [js "file"; js "regexp"; js "ignore-file"; js "exclude-from"] then required_argument else no_argument.

(** The files a search reads besides its operands. *)
Definition readValue (i : Item) : list jstr :=
  match i with
  | item_option name (Some v) => if mem name [js "-f"; js "--file"; js "--ignore-file"; js "--exclude-from"] then [v] else []
  | _ => []
  end.
Definition givesPattern (i : Item) : bool :=
  match i with
  | item_option name value =>
      mem name [js "-f"; js "--file"; js "-e"; js "--regexp"]
      || (mem name [js "--files"; js "--type-list"] && negb (match value with Some _ => true | None => false end))
  | item_operand _ => false
  end.

(** The pattern files, the ignore files, and the operands behind the pattern. *)
Definition searchReads (items : list Item) : list jstr :=
  flat_map readValue items ++ (if existsb givesPattern items then operands items else tail (operands items)).

(** What a scan has found, as the items it has gone over. *)
Record scanned (items : list Item) (st : SearchScan) : Prop := {
  sc_reads : readPaths st = List.filter isStaticPathToken (flat_map readValue items);
  sc_positionals : positionals st = operands items;
  sc_pattern : patternFromFlag st || noInlinePattern st = existsb givesPattern items;
}.

Lemma staticList_filter v : staticList (Some v) = List.filter isStaticPathToken [v].
Proof. unfold staticList. cbn. by destruct (isStaticPathToken v). Qed.

Lemma scanned_option items st st' name value reads : scanned items st ->
  flat_map readValue [item_option name value] = reads ->
  readPaths st' = readPaths st ++ List.filter isStaticPathToken reads -> positionals st' = positionals st ->
  patternFromFlag st' || noInlinePattern st' = (patternFromFlag st || noInlinePattern st) || givesPattern (item_option name value) ->
  scanned (items ++ [item_option name value]) st'.
Proof.
  intros [Hr Hp Hs] Hv Hr' Hp' Hs'. split.
  - rewrite Hr', Hr, flat_map_app, List.filter_app. f_equal. by rewrite Hv.
  - rewrite Hp', Hp, operands_app. cbn. by rewrite app_nil_r.
  - rewrite Hs', Hs, existsb_app. cbn [existsb]. by rewrite orb_false_r.
Qed.

(** The items a flag stands for, the one that waits included once its value is known. *)
Definition flagItems (t : jstr) (value : option jstr) : list Item :=
  let '(items, waits) := optionItems searchShort searchLong t in
  items ++ match waits with Some name => [item_option name value] | None => [] end.

(** *** Options in full *)
Lemma splitEq_None u n : splitEq u = (n, None) -> n = u.
Proof.
  revert n. induction u as [|c u IH]; intros n; cbn [splitEq]; [by intros [= <-]|]. case_goal; [done|].
  destruct (splitEq u) as [n' v] eqn:E. intros [= <- ->]. by rewrite (IH n').
Qed.

Lemma splitEq_Some u n v : splitEq u = (n, Some v) -> u = n ++ ch "=" :: v /\ afterFirst (ch "=") u = Some v.
Proof.
  revert n. induction u as [|c u IH]; intros n; cbn [splitEq afterFirst]; [done|]. destruct (c =? ch "=")%N eqn:Hc.
  - intros [= <- <-]. split; [|done]. apply N.eqb_eq in Hc as ->. done.
  - destruct (splitEq u) as [n' v'] eqn:E. intros [= <- ->]. destruct (IH n' eq_refl) as [-> ?]. done.
Qed.

Lemma splitEq_prefix p : forallb (fun c => negb (c =? ch "=")%N) p = true -> forall u,
  startsWith u (p ++ [ch "="]) = bool_decide (fst (splitEq u) = p) && match snd (splitEq u) with Some _ => true | None => false end.
Proof.
  induction p as [|c p IH]; intros Hp [|d u]; [done| |by rewrite andb_false_r|].
  - change ([] ++ [ch "="]) with [ch "="]. cbn [startsWith splitEq]. rewrite (N.eqb_sym (ch "=")). destruct (d =? ch "=")%N.
    + cbn [fst snd]. rewrite bool_decide_eq_true_2 by done. by destruct u.
    + destruct (splitEq u). cbn [fst snd]. by rewrite bool_decide_eq_false_2.
  - cbn [forallb] in Hp. apply andb_true_iff in Hp as [Hc%negb_true_iff Hp]. cbn [app startsWith splitEq].
    destruct (N.eqb_spec d (ch "=")) as [-> | Hd].
    + cbn [fst snd]. rewrite bool_decide_eq_false_2 by done. by rewrite Hc.
    + rewrite IH by done. destruct (splitEq u) as [n v]. cbn [fst snd]. destruct (N.eqb_spec c d) as [-> | Hn].
      * cbn [andb]. f_equal. apply bool_decide_ext. split; [by intros ->|by intros [= ->]].
      * cbn [andb]. rewrite bool_decide_eq_false_2; [done|]. by intros [= ->].
Qed.

(** An option that starts with two dashes: its name, and its value if there is one. *)
Inductive LongOption (t : jstr) : jstr -> option jstr -> Prop :=
  | long_name u : t = js "--" ++ u -> splitEq u = (u, None) -> LongOption t u None
  | long_value u n v : t = js "--" ++ u -> splitEq u = (n, Some v) -> u = n ++ ch "=" :: v -> LongOption t n (Some v).

Lemma long_option t : startsWith t (js "--") = true -> exists name value,
  LongOption t name value /\ splitEq (drop 2 t) = (name, value).
Proof.
  intros Ht. assert (exists u, t = js "--" ++ u) as [u ->].
  { change (js "--") with [45%N; 45%N] in *. destruct t as [|a [|b u]]; [done|by cbn [startsWith] in Ht; rewrite andb_false_r in Ht|].
    cbn [startsWith] in Ht. apply andb_true_iff in Ht as [<-%N.eqb_eq [<-%N.eqb_eq _]%andb_true_iff]. by exists u. }
  change (drop 2 (js "--" ++ u)) with u. destruct (splitEq u) as [n [v|]] eqn:E; exists n; eexists; (split; [|done]).
  - econstructor; [done|exact E|by apply splitEq_Some].
  - assert (n = u) as -> by (by apply splitEq_None). by constructor.
Qed.

(** The tests of the code on the whole argument, by name and value. *)
Lemma long_is t name value p : LongOption t name value -> forallb (fun c => negb (c =? ch "=")%N) p = true ->
  str_eqb t (js "--" ++ p) = str_eqb name p && match value with None => true | Some _ => false end.
Proof.
  assert (forall u, str_eqb (js "--" ++ u) (js "--" ++ p) = str_eqb u p) as Hd.
  { intros u. apply bool_decide_ext. split; [by intros ?%app_inv_head|by intros ->]. }
  intros [u -> E|u n v -> E Hu] Hp; rewrite Hd; [by rewrite andb_true_r|]. rewrite andb_false_r. apply bool_decide_eq_false.
  intros ->. assert (ch "=" ∈ p) as Hin by (rewrite Hu; apply elem_of_app; right; by left). rewrite forallb_forall in Hp.
  by specialize (Hp _ (proj1 (list_elem_of_In _ _) Hin)).
Qed.

Lemma long_starts t name value p : LongOption t name value -> forallb (fun c => negb (c =? ch "=")%N) p = true ->
  startsWith t (js "--" ++ p ++ [ch "="]) = str_eqb name p && match value with None => false | Some _ => true end.
Proof.
  assert (forall u, startsWith (js "--" ++ u) (js "--" ++ p ++ [ch "="]) = startsWith u (p ++ [ch "="])) as Hd by done.
  intros [u -> E|u n v -> E _] Hp; rewrite Hd, splitEq_prefix, E by done; by rewrite ?andb_false_r, ?andb_true_r.
Qed.

Lemma mem_or x y l : mem x (y :: l) = str_eqb x y || mem x l.
Proof.
  unfold mem, str_eqb. apply eq_true_iff_eq. rewrite orb_true_iff, !bool_decide_eq_true. apply elem_of_cons.
Qed.

Lemma mem_nil x : mem x [] = false.
Proof. by apply bool_decide_eq_false_2, not_elem_of_nil. Qed.

Lemma long_not_short t name value c : LongOption t name value -> c <> ch "-" -> str_eqb t [ch "-"; c] = false.
Proof. intros [u -> _|u n v -> _ _] Hc; apply bool_decide_eq_false_2; intros [= E _]; by apply Hc. Qed.

Lemma long_dashes t name value : LongOption t name value -> startsWith t (js "--") = true.
Proof. intros [u -> _|u n v -> _ _]; by destruct u. Qed.

Lemma long_after t name v : LongOption t name (Some v) -> afterFirst (ch "=") t = Some v.
Proof. inversion 1 as [|u n v' Ht E Hu]; subst. by apply splitEq_Some in E as [_ ?]. Qed.

(** The value behind [--name=]. *)
Lemma long_valueOf t name value p : LongOption t name value -> forallb (fun c => negb (c =? ch "=")%N) p = true ->
  valueOf t (js "--" ++ p ++ [ch "="]) = if str_eqb name p then value else None.
Proof.
  intros Hl Hp. unfold valueOf. rewrite (long_starts t name value p Hl Hp). destruct Hl as [u -> E|u n v -> E ->].
  - rewrite andb_false_r. by destruct (str_eqb u p).
  - rewrite andb_true_r. case_goal; [|done]. apply bool_decide_eq_true_1 in Heqb as ->. f_equal.
    change (js "--" ++ p ++ [ch "="]) with ([ch "-"; ch "-"] ++ p ++ [ch "="]). rewrite !length_app. cbn [length].
    change (js "--" ++ p ++ ch "=" :: v) with ([ch "-"; ch "-"] ++ p ++ ch "=" :: v).
    replace (2 + (length p + 1)) with (length ([ch "-"; ch "-"] ++ p ++ [ch "="])) by (rewrite !length_app; cbn; lia).
    replace ([ch "-"; ch "-"] ++ p ++ ch "=" :: v) with (([ch "-"; ch "-"] ++ p ++ [ch "="]) ++ v)
      by (cbn [app]; by rewrite <- app_assoc).
    apply drop_app_length.
Qed.

Lemma searchFlag_long t name value st : LongOption t name value -> searchFlag t st =
  match value with
  | None =>
      if mem name [js "files"; js "type-list"] then FlagDone (setNoInline st)
      else if mem name [js "ignore-file"; js "exclude-from"] then FlagTakes (fun v => addRead v st)
      else if str_eqb name (js "file") then FlagTakes (fun v => setPattern (addRead v st))
      else if str_eqb name (js "regexp") then FlagTakes (fun _ => setPattern st)
      else FlagDone st
  | Some v =>
      if mem name [js "ignore-file"; js "exclude-from"] then FlagDone (addRead (Some v) st)
      else if str_eqb name (js "file") then FlagDone (setPattern (addRead (Some v) st))
      else if str_eqb name (js "regexp") then FlagDone (setPattern st)
      else FlagDone st
  end.
Proof.
  intros Hl. unfold searchFlag. rewrite (long_dashes t name value Hl), !mem_or, !mem_nil, !orb_false_r.
  pose proof (long_not_short t name value (ch "f") Hl ltac:(done)) as Hf. change [ch "-"; ch "f"] with (js "-f") in Hf. rewrite Hf.
  change (js "--files") with (js "--" ++ js "files"). change (js "--type-list") with (js "--" ++ js "type-list").
  change (js "--ignore-file") with (js "--" ++ js "ignore-file"). change (js "--exclude-from") with (js "--" ++ js "exclude-from").
  change (js "--file") with (js "--" ++ js "file"). change (js "--regexp") with (js "--" ++ js "regexp").
  change (js "--ignore-file=") with (js "--" ++ js "ignore-file" ++ [ch "="]).
  change (js "--exclude-from=") with (js "--" ++ js "exclude-from" ++ [ch "="]).
  change (js "--file=") with (js "--" ++ js "file" ++ [ch "="]). change (js "--regexp=") with (js "--" ++ js "regexp" ++ [ch "="]).
  rewrite (long_valueOf t name value _ Hl), !(long_is t name value _ Hl), !(long_starts t name value _ Hl) by done.
  destruct value as [v|].
  - rewrite (long_after t name v Hl), !andb_false_r, !andb_true_r. cbn [orb]. repeat case_goal; try done.
  - rewrite !andb_true_r, !andb_false_r. cbn [orb]. repeat case_goal; try done.
Qed.

(** *** Clusters *)
Definition flags (s : jstr) : list Item := map (fun c => item_option [ch "-"; c] None) s.

Lemma search_cluster s : exists pre, Forall (fun c => (c =? ch "e")%N = false /\ (c =? ch "f")%N = false) pre /\
  match searchCluster s with
  | None => clusterItems searchShort s = (flags pre, None)
  | Some (isFile, []) => clusterItems searchShort s = (flags pre, Some (if isFile then ch "f" else ch "e"))
  | Some (isFile, attached) =>
      clusterItems searchShort s = (flags pre ++ [item_option [ch "-"; if isFile then ch "f" else ch "e"] (Some attached)], None)
  end.
Proof.
  induction s as [|c s (pre & Hp & IH)]; [by exists []|]. cbn [searchCluster clusterItems]. unfold searchShort at 1.
  destruct (N.eqb_spec c (ch "f")) as [-> | Hf].
  { exists []. split; [constructor|]. cbn. by destruct s. }
  destruct (N.eqb_spec c (ch "e")) as [-> | He].
  { exists []. split; [constructor|]. cbn. by destruct s. }
  exists (c :: pre). split; [constructor; [split; by apply N.eqb_neq|done]|]. cbn [orb].
  assert (searchShort c = no_argument) as -> by (unfold searchShort; by rewrite (proj2 (N.eqb_neq _ _) He), (proj2 (N.eqb_neq _ _) Hf)).
  destruct (searchCluster s) as [[isFile [|a attached]]|]; rewrite IH; done.
Qed.

Lemma scanned_flags items st pre : Forall (fun c => (c =? ch "e")%N = false /\ (c =? ch "f")%N = false) pre ->
  scanned items st -> scanned (items ++ flags pre) st.
Proof.
  intros Hp. revert items. induction Hp as [|c pre [He Hf] _ IH]; intros items Hs; [by rewrite app_nil_r|].
  change (flags (c :: pre)) with ([item_option [ch "-"; c] None] ++ flags pre). rewrite app_assoc. apply IH.
  apply (scanned_option items st st [ch "-"; c] None []); [done|done|by rewrite app_nil_r|done|].
  cbn [givesPattern]. rewrite !mem_or, !mem_nil, !orb_false_r.
  assert (forall d, (c =? d)%N = false -> str_eqb [ch "-"; c] [ch "-"; d] = false) as Hn.
  { intros d Hd. apply bool_decide_eq_false_2. intros [= ->]. by rewrite N.eqb_refl in Hd. }
  change (js "-e") with [ch "-"; ch "e"]. change (js "-f") with [ch "-"; ch "f"]. rewrite !Hn by done.
  assert (forall d e l, str_eqb [ch "-"; c] (ch "-" :: d :: e :: l) = false) as Hl by (intros d e l; by apply bool_decide_eq_false_2).
  change (js "--file") with (ch "-" :: ch "-" :: ch "f" :: js "ile"). change (js "--regexp") with (ch "-" :: ch "-" :: ch "r" :: js "egexp").
  change (js "--files") with (ch "-" :: ch "-" :: ch "f" :: js "iles"). change (js "--type-list") with (ch "-" :: ch "-" :: ch "t" :: js "ype-list").
  by rewrite !Hl, orb_false_r.
Qed.

(** What the code does with an option is what the items of the option say. *)
Definition agrees (t : jstr) (items : list Item) (flag : Flag) : Prop :=
  let '(new, waits) := optionItems searchShort searchLong t in
  match flag, waits with
  | FlagDone st', None => scanned (items ++ new) st'
  | FlagTakes next, Some name => forall value, scanned (items ++ new ++ [item_option name value]) (next value)
  | _, _ => False
  end.

(** Tests on names that are written out. *)
Ltac concrete_names :=
  repeat match goal with
         | |- context [js ?x ++ js ?y] => let v := eval vm_compute in (js x ++ js y) in change (js x ++ js y) with v
         end;
  repeat match goal with
         | |- context [mem ?x ?l] => let v := eval vm_compute in (mem x l) in
             match v with true => idtac | false => idtac end; change (mem x l) with v
         | |- context [str_eqb ?x ?y] => let v := eval vm_compute in (str_eqb x y) in
             match v with true => idtac | false => idtac end; change (str_eqb x y) with v
         end; cbn iota.

Definition SEARCH_LONG : list jstr :=
  [js "files"; js "type-list"; js "ignore-file"; js "exclude-from"; js "file"; js "regexp"].

(** The other long options mean nothing to a search. *)
Lemma other_long name v : name ∉ SEARCH_LONG ->
  flat_map readValue [item_option (js "--" ++ name) v] = [] /\ givesPattern (item_option (js "--" ++ name) v) = false.
Proof.
  intros Hk. cbn [flat_map readValue givesPattern]. rewrite !mem_or, !mem_nil.
  assert (forall c, str_eqb (js "--" ++ name) [ch "-"; c] = false \/ c = ch "-") as Hs.
  { intros c. destruct (decide (c = ch "-")); [by right|left]. apply bool_decide_eq_false_2. by intros [= ? _]. }
  assert (forall x, x ∈ SEARCH_LONG -> str_eqb (js "--" ++ name) (js "--" ++ x) = false) as Hn.
  { intros x Hx. apply bool_decide_eq_false_2. by intros ->%app_inv_head. }
  change (js "-f") with [ch "-"; ch "f"]. change (js "-e") with [ch "-"; ch "e"].
  destruct (Hs (ch "f")) as [-> | ?]; [|done]. destruct (Hs (ch "e")) as [-> | ?]; [|done].
  change (js "--files") with (js "--" ++ js "files"). change (js "--type-list") with (js "--" ++ js "type-list").
  change (js "--ignore-file") with (js "--" ++ js "ignore-file"). change (js "--exclude-from") with (js "--" ++ js "exclude-from").
  change (js "--file") with (js "--" ++ js "file"). change (js "--regexp") with (js "--" ++ js "regexp").
  rewrite !Hn by (apply (bool_decide_unpack _); by vm_compute). cbn [orb andb]. split; [by destruct v|done].
Qed.

Lemma agrees_long items st t name value : scanned items st -> LongOption t name value ->
  splitEq (drop 2 t) = (name, value) -> agrees t items (searchFlag t st).
Proof.
  intros Hs Hl E. unfold agrees, optionItems. rewrite (long_dashes t name value Hl), E, (searchFlag_long t name value st Hl).
  assert (forall st' v, readPaths st' = readPaths st ++ List.filter isStaticPathToken (flat_map readValue [item_option (js "--" ++ name) v]) ->
    positionals st' = positionals st ->
    patternFromFlag st' || noInlinePattern st' = (patternFromFlag st || noInlinePattern st) || givesPattern (item_option (js "--" ++ name) v) ->
    scanned (items ++ [item_option (js "--" ++ name) v]) st') as Hstep by (intros; by eapply scanned_option).
  unfold searchLong. destruct (decide (name ∈ SEARCH_LONG)) as [Hk|Hk].
  - cbn [flat_map readValue givesPattern] in Hstep.
    unfold SEARCH_LONG in Hk. repeat (apply elem_of_cons in Hk as [-> | Hk]; [clear Hl|]); [..|by apply elem_of_nil in Hk];
      revert Hstep; concrete_names; intros Hstep; destruct value as [v|]; try (intros v; cbn [app]); apply Hstep; try done;
      cbn [readPaths positionals patternFromFlag noInlinePattern addRead setPattern setNoInline andb orb negb];
      rewrite ?orb_false_r, ?orb_true_r, ?app_nil_r; try done; try (by rewrite staticList_filter);
      destruct v as [v|]; by rewrite ?staticList_filter, ?app_nil_r.
  - pose proof (other_long name value Hk) as [Hr Hp]. assert (mem name [js "file"; js "regexp"; js "ignore-file"; js "exclude-from"] = false
      /\ mem name [js "files"; js "type-list"] = false /\ mem name [js "ignore-file"; js "exclude-from"] = false
      /\ str_eqb name (js "file") = false /\ str_eqb name (js "regexp") = false) as (H1 & H2 & H3 & H4 & H5).
    { unfold SEARCH_LONG in Hk. rewrite !elem_of_cons in Hk.
      repeat split; apply bool_decide_eq_false_2; rewrite ?elem_of_cons; intros H; apply Hk; tauto. }
    rewrite H1, H2, H3, H4, H5. destruct value; apply Hstep; by rewrite ?Hr, ?Hp, ?app_nil_r, ?orb_false_r.
Qed.

(** The tests of the code on an option with one dash. *)
Lemma searchFlag_short t st : startsWith (ch "-" :: t) (js "--") = false -> searchFlag (ch "-" :: t) st =
  match searchCluster t with
  | Some (isFile, []) => FlagTakes (fun v => setPattern (addRead (if isFile then v else None) st))
  | Some (isFile, attached) => FlagDone (setPattern (addRead (if isFile then Some attached else None) st))
  | None => FlagDone st
  end.
Proof.
  intros Hd. assert (forall x, startsWith (js "--" ++ x) (js "--") = true) as Hlong by (intros [|x]; done).
  assert (forall x, str_eqb (ch "-" :: t) (js "--" ++ x) = false) as Hnl.
  { intros x. apply bool_decide_eq_false_2. intros E. by rewrite E, Hlong in Hd. }
  assert (forall x, startsWith (ch "-" :: t) (js "--" ++ x) = false) as Hns.
  { intros x. destruct (startsWith (ch "-" :: t) (js "--" ++ x)) eqn:E; [|done]. rewrite <- Hd. revert E.
    change (js "--") with [45%N; 45%N]. change (ch "-") with 45%N. destruct t as [|e t]; [done|]. cbn. destruct e as [|e]; [done|].
    destruct (45 =? e)%positive; [|done]. by destruct t. }
  unfold searchFlag. rewrite !mem_or, !mem_nil, !orb_false_r, Hd. cbn [tail]. unfold valueOf.
  change (js "--files") with (js "--" ++ js "files"). change (js "--type-list") with (js "--" ++ js "type-list").
  change (js "--ignore-file") with (js "--" ++ js "ignore-file"). change (js "--exclude-from") with (js "--" ++ js "exclude-from").
  change (js "--file") with (js "--" ++ js "file"). change (js "--regexp") with (js "--" ++ js "regexp").
  change (js "--ignore-file=") with (js "--" ++ js "ignore-file="). change (js "--exclude-from=") with (js "--" ++ js "exclude-from=").
  change (js "--file=") with (js "--" ++ js "file="). change (js "--regexp=") with (js "--" ++ js "regexp=").
  rewrite !Hnl, !Hns. cbn [orb]. destruct (str_eqb (ch "-" :: t) (js "-f")) eqn:Ef; [|done].
  apply bool_decide_eq_true_1 in Ef. by injection Ef as ->.
Qed.

Lemma scanned_value items st isFile value : scanned items st ->
  scanned (items ++ [item_option [ch "-"; if isFile : bool then ch "f" else ch "e"] value])
    (setPattern (addRead (if isFile then value else None) st)).
Proof.
  intros Hs. eapply scanned_option; [exact Hs|reflexivity| |done|].
  - destruct isFile; cbn [flat_map readValue]; [change [ch "-"; ch "f"] with (js "-f")|change [ch "-"; ch "e"] with (js "-e")];
      concrete_names; cbn [readPaths addRead setPattern]; destruct value as [v|]; by rewrite ?app_nil_r, ?staticList_filter.
  - destruct isFile; cbn [givesPattern]; [change [ch "-"; ch "f"] with (js "-f")|change [ch "-"; ch "e"] with (js "-e")];
      concrete_names; cbn; by rewrite orb_true_r.
Qed.

Lemma agrees_short items st t : scanned items st -> isOption t = true -> startsWith t (js "--") = false ->
  agrees t items (searchFlag t st).
Proof.
  intros Hs Ho Hd. unfold isOption in Ho. apply andb_true_iff in Ho as [Ho _].
  destruct t as [|d t]; [done|]. change (js "-") with [ch "-"] in *. cbn [startsWith] in Ho. apply andb_true_iff in Ho as [<-%N.eqb_eq _].
  unfold agrees, optionItems. rewrite Hd, searchFlag_short by done. cbn [tail]. destruct (search_cluster t) as (pre & Hpre & Hc).
  pose proof (scanned_flags items st pre Hpre Hs) as Hf. destruct (searchCluster t) as [[isFile [|a attached]]|]; rewrite Hc.
  - intros value. rewrite app_assoc. by apply scanned_value.
  - rewrite app_assoc. by apply (scanned_value _ _ isFile (Some (a :: attached))).
  - exact Hf.
Qed.

Lemma agrees_option items st t : scanned items st -> isOption t = true -> agrees t items (searchFlag t st).
Proof.
  intros Hs Ho. destruct (startsWith t (js "--")) eqn:Hd; [|by apply agrees_short].
  destruct (long_option t Hd) as (name & value & Hl & E). by apply (agrees_long items st t name value).
Qed.

(** *** The scan *)
Lemma scanned_operand items st t : scanned items st -> scanned (items ++ [item_operand t]) (addPositional t st).
Proof.
  intros [Hr Hp Hs]. split; cbn [readPaths positionals patternFromFlag noInlinePattern addPositional].
  - by rewrite flat_map_app, app_nil_r.
  - by rewrite operands_app, Hp.
  - by rewrite existsb_app, orb_false_r.
Qed.

Lemma search_operands args : forall items st, scanned items st ->
  scanned (items ++ map item_operand args) (search_loop args true st).
Proof.
  induction args as [|t args IH]; intros items st Hs; [by rewrite app_nil_r|]. cbn [search_loop negb andb map].
  change (item_operand t :: map item_operand args) with ([item_operand t] ++ map item_operand args). rewrite app_assoc.
  by apply IH, scanned_operand.
Qed.

Lemma search_scan n : forall args items st, length args <= n -> noRedirects args -> scanned items st ->
  scanned (items ++ getopt searchShort searchLong args) (search_loop args false st).
Proof.
  induction n as [|n IH]; intros [|t args] items st Hlen Hn Hs; try by (rewrite app_nil_r || (cbn in Hlen; lia)).
  cbn [length] in Hlen. pose proof Hn as [Ht Hn']%Forall_cons. cbn [search_loop getopt negb andb]. rewrite Ht.
  destruct (str_eqb t (js "--")); [by apply search_operands|]. destruct (isOption t) eqn:Ho.
  - pose proof (agrees_option items st t Hs Ho) as Ha. unfold agrees in Ha.
    destruct (optionItems searchShort searchLong t) as [new [name|]], (searchFlag t st) as [st'|next]; try done.
    + destruct args as [|v args]; [apply Ha|]. apply Forall_cons in Hn' as [_ Hn']. cbn [length] in Hlen.
      replace (items ++ new ++ item_option name (Some v) :: getopt searchShort searchLong args)
        with ((items ++ new ++ [item_option name (Some v)]) ++ getopt searchShort searchLong args) by (by rewrite <- !app_assoc).
      apply IH; [lia|done|apply Ha].
    + rewrite app_assoc. apply IH; [lia|done|exact Ha].
  - replace (items ++ item_operand t :: getopt searchShort searchLong args)
      with ((items ++ [item_operand t]) ++ getopt searchShort searchLong args) by (by rewrite <- app_assoc).
    apply IH; [lia|done|by apply scanned_operand].
Qed.

Lemma search_reading args : noRedirects args ->
  extractSearchPathIntents args
  = map (intent cap_read) (List.filter isStaticPathToken (searchReads (getopt searchShort searchLong args))).
Proof.
  intros Hn. assert (scanned [] search_init) as Hi by (by split).
  destruct (search_scan (length args) args [] search_init (le_n _) Hn Hi) as [Hr Hp Hs]. cbn [app] in *.
  unfold extractSearchPathIntents, searchReads. rewrite Hr, Hp, Hs. f_equal. rewrite !List.filter_app. f_equal.
  apply filter_Forall_id, Forall_forall. intros x Hx%list_elem_of_In%filter_In. apply Hx.
Qed.

(** *** The options of the command *)
Section KnownOptions.
Variable short : jchar -> ArgKind.
Variable long : jstr -> ArgKind.

(** The scanner is right about an argument that starts with a dash: each letter, up
    to the one that takes the rest, takes a value as it thinks, and so does a long
    option without a value of its own. *)
Fixpoint knownCluster (s : jstr) : Prop :=
  match s with
  | [] => True
  | c :: s' => short c = searchShort c /\ (short c = no_argument -> knownCluster s')
  end.

Definition knownOption (w : jstr) : Prop :=
  if startsWith w (js "--") then
    let '(name, value) := splitEq (drop 2 w) in
    value = None -> (long name = required_argument <-> searchLong name = required_argument)
  else knownCluster (tail w).

Definition knownOptions (args : list jstr) : Prop := Forall (fun w => isOption w = true -> knownOption w) args.

Lemma clusterItems_same s : knownCluster s -> clusterItems short s = clusterItems searchShort s.
Proof.
  induction s as [|c s IH]; [done|]. cbn [knownCluster clusterItems]. intros [Hc Hs]. rewrite <- Hc.
  destruct (short c) eqn:E; [|done..]. by rewrite IH by auto.
Qed.

Lemma optionItems_same w : knownOption w -> optionItems short long w = optionItems searchShort searchLong w.
Proof.
  unfold knownOption, optionItems. destruct (startsWith w (js "--")).
  - destruct (splitEq (drop 2 w)) as [name [v|]]; [done|]. intros Hk. specialize (Hk eq_refl).
    destruct (long name), (searchLong name); try done; exfalso; naive_solver.
  - intros Hk. by rewrite clusterItems_same.
Qed.

Lemma getopt_same n : forall args, length args <= n -> knownOptions args ->
  getopt short long args = getopt searchShort searchLong args.
Proof.
  induction n as [|n IH]; intros [|w args] Hlen Hk; cbn [length] in Hlen; try lia; [done..|].
  apply Forall_cons in Hk as [Hw Hk]. cbn [getopt]. destruct (str_eqb w (js "--")); [done|].
  destruct (isOption w); [|f_equal; apply IH; [lia|done]]. rewrite optionItems_same by auto.
  destruct (optionItems searchShort searchLong w) as [items [name|]]; f_equal; [|apply IH; [lia|done]].
  destruct args as [|v args]; [done|]. apply Forall_cons in Hk as [_ Hk]. cbn [length] in Hlen.
  f_equal. apply IH; [lia|done].
Qed.
End KnownOptions.

(** C11: the search commands read what their options and operands say: when no
    argument is a redirection, and the options of the command, spelled out, take the
    next argument exactly where the scanner thinks so (the letters [e] and [f], and
    the long options of pattern, pattern file and ignore file; so the arguments have
    no [-t], [-m] or [-A]), it finds exactly the pattern files, the ignore files and
    the operands behind the pattern that a reading by the rules of getopt with the
    command's own table of options finds, in order, those that depend on an expansion
    left out. *)
Theorem searches_follow_getopt short long args : noRedirects args -> knownOptions short long args ->
  extractSearchPathIntents args
  = map (intent cap_read) (List.filter isStaticPathToken (searchReads (getopt short long args))).
Proof. intros Hn Hk. rewrite (getopt_same short long (length args)) by done. by apply search_reading. Qed.

(** ** Witnesses *)
Definition copyLine : Command := {| words := [js "tee"; js "-a"; js "log; x"; js "/w/b"]; redirects := [(js "2>", js "/w/e r")] |}.
Definition headLine : Command := {| words := [js "head"; js "-n"; js "5"; js "--"; js "-x"]; redirects := [] |}.

(** [-n] of [head] takes an argument. *)
Definition headShort (c : jchar) : ArgKind := if (c =? ch "n")%N then required_argument else no_argument.

Lemma sample_program : wellFormedProgram copyLine [(js "&&", headLine)].
Proof.
  split; [split; [reflexivity|split; [reflexivity|]]|].
  - repeat constructor; apply (bool_decide_unpack _); by vm_compute.
  - repeat constructor; apply (bool_decide_unpack _); by vm_compute.
Qed.

Lemma no_operand_is_missed_witness :
  intent cap_read (js "-x") ∈ extractBashPathIntents (js "'tee' '-a' 'log; x' '/w/b' 2> '/w/e r'&&'head' '-n' '5' '--' '-x'").
Proof.
  apply (no_operand_is_missed headShort (fun _ => no_argument) copyLine [(js "&&", headLine)] headLine
           (js "head") [js "-n"; js "5"; js "--"; js "-x"] cap_read (js "-x")).
  - exact sample_program.
  - by right; left.
  - reflexivity.
  - reflexivity.
  - repeat constructor.
  - by left.
  - reflexivity.
  - done.
Defined.

Lemma redirections_are_checked_witness :
  intent cap_write (js "/w/e r") ∈ extractBashPathIntents (js "'tee' '-a' 'log; x' '/w/b' 2> '/w/e r'&&'head' '-n' '5' '--' '-x'").
Proof.
  apply (redirections_are_checked copyLine [(js "&&", headLine)] copyLine (js "2>") (js "/w/e r")).
  - exact sample_program.
  - by left.
  - by left.
  - reflexivity.
Defined.

(** Some options of [grep] that take a value. *)
Definition grepShort (c : jchar) : ArgKind :=
  if mem [c] [js "e"; js "f"; js "m"; js "A"; js "B"; js "C"; js "d"; js "D"] then required_argument else no_argument.
Definition grepLong (name : jstr) : ArgKind :=
  if mem name [js "regexp"; js "file"; js "exclude-from"; js "include"; js "max-count"; js "ignore-file"] then required_argument
  else if mem name [js "color"] then optional_argument else no_argument.

Lemma searches_follow_getopt_witness :
  extractSearchPathIntents [js "-nf"; js "pats"; js "a"; js "--color"; js "--include=*.c"; js "--exclude-from=ex"; js "$X"; js "--"; js "-b"]
  = map (intent cap_read) [js "pats"; js "ex"; js "a"; js "-b"].
Proof.
  rewrite (searches_follow_getopt grepShort grepLong); [reflexivity|repeat constructor|].
  repeat (apply Forall_cons; split; [intros _; vm_compute; naive_solver|]). by apply Forall_nil.
Defined.

(** ** Where a path is not seen

    Behind a redirection written in one word, the destination of a copy is taken
    for a source, and the redirection for the destination. *)
Definition intentsOf (command : jstr) : list (PathCapabilityAction * jstr) :=
  map (fun i => (pc_action i, pc_path i)) (extractBashPathIntents command).

Lemma redirection_becomes_the_destination :
  intentsOf (js "cp a /opt/b 2>/dev/null") = [(cap_read, js "a"); (cap_read, js "/opt/b"); (cap_write, js "2>/dev/null")].
Proof. by vm_compute. Qed.

(** A [t] anywhere in a cluster is taken for the target directory, also in the
    argument of another option. *)
Lemma suffix_becomes_the_destination :
  intentsOf (js "cp -S.txt a /opt/b") = [(cap_read, js "a"); (cap_read, js "/opt/b"); (cap_write, js "xt")].
Proof. by vm_compute. Qed.

(** A destination that depends on an expansion is dropped, and the last source is
    taken for the destination. *)
Lemma dynamic_destination_hides_the_source : intentsOf (js "cp /opt/key $D") = [].
Proof. by vm_compute. Qed.

(** A script with a dollar sign is dropped, and then the file edited in place is
    dropped as if it were the script. *)
Lemma dollar_script_hides_the_file :
  intentsOf (js "sed -i 's/a/b/' /etc/hosts") = [(cap_write, js "/etc/hosts")] /\ intentsOf (js "sed -i 's/a$/b/' /etc/hosts") = [].
Proof. by vm_compute. Qed.

(** An option whose argument ends in e takes the file as its pattern. *)
Lemma type_option_hides_the_file : intentsOf (js "rg key -tmake /opt/x") = [(cap_read, js "key")].
Proof. by vm_compute. Qed.

(** Tokens have lost their quotes: a quoted operator hides the operand after it. *)
Lemma quoted_operator_hides_an_operand :
  intentsOf (js "cat '>' /opt/x") = [] /\ intentsOf (js "cat /opt/x") = [(cap_read, js "/opt/x")].
Proof. by vm_compute. Qed.

(** The form that redirects both outputs without a blank operator is not recognised. *)
Lemma both_outputs_are_not_seen : intentsOf (js "echo x >& /opt/f") = [].
Proof. by vm_compute. Qed.

(** Behind a double dash the target of a redirection is taken for a file to delete. *)
Lemma redirection_is_deleted : intentsOf (js "rm -- a > /tmp/x") = [(cap_write, js "/tmp/x"); (cap_delete, js "a"); (cap_delete, js "/tmp/x")].
Proof. by vm_compute. Qed.
