(* ===== verification/FsPath.v ===== *)
(** * Paths of a POSIX host

    What the file-system checkers use of [node:path], [node:os] and [node:fs]: the
    path functions as Node documents and implements them for POSIX, and a class of
    what a host answers.  A canonical path is a slash and its segments. *)
From S2P Require Import Prelude.

Class FsHost := {
  (** [process.cwd()], which is absolute. *)
  cwd : jstr;
  os_tmpdir : jstr;
  os_homedir : jstr;
  (** [process.platform] is ['darwin']; any other platform is not ['win32']. *)
  darwin : bool;
  (** [fs.realpathSync]; [None] is an exception. *)
  realpathSync : jstr -> option jstr;
  (** [String.prototype.toLowerCase]. *)
  lowerCase : jstr -> jstr;
}.

Definition slash : jchar := 47%N.

(** [s.split('/')]. *)
Fixpoint splitSlash (s : jstr) : list jstr :=
  match s with
  | [] => [[]]
  | c :: s' =>
      if (c =? slash)%N then [] :: splitSlash s'
      else match splitSlash s' with
           | [] => [[c]]
           | w :: ws => (c :: w) :: ws
           end
  end.

(** [normalizeString]: the segments kept so far, the last one first. *)
Fixpoint normSegs (allowAboveRoot : bool) (kept segs : list jstr) : list jstr :=
  match segs with
  | [] => rev kept
  | s :: rest =>
      if bool_decide (s = [] \/ s = js ".") then normSegs allowAboveRoot kept rest
      else if str_eqb s (js "..") then
        match kept with
        | x :: kept' =>
            if str_eqb x (js "..") then normSegs allowAboveRoot (if allowAboveRoot then s :: kept else kept) rest
            else normSegs allowAboveRoot kept' rest
        | [] => normSegs allowAboveRoot (if allowAboveRoot then [s] else []) rest
        end
      else normSegs allowAboveRoot (s :: kept) rest
  end.

Definition posix_isAbsolute (p : jstr) : bool := match p with c :: _ => (c =? slash)%N | [] => false end.
Definition endsInSlash (p : jstr) : bool := match last p with Some c => (c =? slash)%N | None => false end.

Definition absPath (l : list jstr) : jstr := slash :: join [slash] l.

Definition posix_normalize (p : jstr) : jstr :=
  match p with
  | [] => js "."
  | _ =>
      let path := join [slash] (normSegs (negb (posix_isAbsolute p)) [] (splitSlash p)) in
      match path with
      | [] => if posix_isAbsolute p then [slash] else if endsInSlash p then js "./" else js "."
      | _ =>
          let path := if endsInSlash p then path ++ [slash] else path in
          if posix_isAbsolute p then slash :: path else path
      end
  end.

(** [path.join]. *)
Definition posix_join (parts : list jstr) : jstr :=
  posix_normalize (join [slash] (List.filter truthy parts)).

(** [path.dirname]: the separator in front of the last segment, trailing separators aside. *)
Definition posix_dirname (p : jstr) : jstr :=
  match p with
  | [] => js "."
  | c :: s =>
      match dropWhile (fun d => negb (d =? slash)%N) (dropWhile (N.eqb slash) (rev s)) with
      | [] => if (c =? slash)%N then [slash] else js "."
      | _ :: before => if (c =? slash)%N && negb (truthy before) then [slash; slash] else c :: rev before
      end
  end.

Fixpoint takeWhile {A} (p : A -> bool) (l : list A) : list A :=
  match l with
  | x :: l' => if p x then x :: takeWhile p l' else []
  | [] => []
  end.

(** [path.basename]. *)
Definition posix_basename (p : jstr) : jstr :=
  rev (takeWhile (fun d => negb (d =? slash)%N) (dropWhile (N.eqb slash) (rev p))).

(** [path.extname]: from the last dot of the base name, unless nothing but dots is
    in front of it. *)
Definition posix_extname (p : jstr) : jstr :=
  let b := posix_basename p in
  let after := takeWhile (fun d => negb (d =? 46)%N) (rev b) in
  match drop (length after) (rev b) with
  | [] => []
  | _ :: before => if truthy before && negb (str_eqb b (js "..")) then 46%N :: rev after else []
  end.

(** [path.parse(p).root]. *)
Definition posix_root (p : jstr) : jstr := if posix_isAbsolute p then [slash] else [].

Section Resolve.
Context `{FsHost}.

(** The arguments from the last to the first, until one is absolute. *)
Fixpoint resolve_loop (paths : list jstr) (resolved : jstr) : jstr :=
  match paths with
  | [] => resolved
  | p :: rest =>
      if negb (truthy p) then resolve_loop rest resolved
      else let resolved := p ++ slash :: resolved in
           if posix_isAbsolute p then resolved else resolve_loop rest resolved
  end.

(** The segments of [path.resolve], and [path.resolve]. *)
Definition resolveSegs (paths : list jstr) : list jstr :=
  normSegs false [] (splitSlash (resolve_loop (rev paths ++ [cwd]) [])).
Definition posix_resolve (paths : list jstr) : jstr := absPath (resolveSegs paths).

Fixpoint commonPrefix (a b : list jstr) : nat :=
  match a, b with
  | x :: a', y :: b' => if str_eqb x y then S (commonPrefix a' b') else 0
  | _, _ => 0
  end.

(** [path.relative]. *)
Definition posix_relative (from to : jstr) : jstr :=
  let f := resolveSegs [from] in
  let t := resolveSegs [to] in
  let n := commonPrefix f t in
  join [slash] (repeat (js "..") (length f - n) ++ drop n t).
End Resolve.

(** ** Canonical paths *)
Definition segment (s : jstr) : Prop := s <> [] /\ slash ∉ s /\ s <> js "." /\ s <> js "..".
#[export] Instance segment_dec s : Decision (segment s).
Proof. unfold segment. apply _. Defined.

Definition clean (l : list jstr) : Prop := Forall segment l.

Definition plainSegment (s : jstr) : Prop := slash ∉ s.

Lemma splitSlash_plain s : Forall plainSegment (splitSlash s).
Proof.
  induction s as [|c s IH]; cbn [splitSlash].
  - constructor; [|constructor]. by intros ?%elem_of_nil.
  - destruct (N.eqb_spec c slash) as [->|Hc].
    + constructor; [by intros ?%elem_of_nil|done].
    + destruct (splitSlash s) as [|w ws].
      { constructor; [|constructor]. intros [E|E%elem_of_nil]%elem_of_cons; [by subst|done]. }
      apply Forall_cons in IH as [Hw Hws].
      constructor; [|done]. intros [E|E]%elem_of_cons; [by subst|done].
Qed.

Lemma normSegs_clean l : forall kept, Forall plainSegment l -> clean kept -> clean (normSegs false kept l).
Proof.
  induction l as [|s l IH]; intros kept Hl Hk; cbn [normSegs].
  { unfold clean. by apply Forall_rev. }
  apply Forall_cons in Hl as [Hs Hl]. case_bool_decide as Hd; [by apply IH|].
  unfold str_eqb. case_bool_decide as Hu.
  - destruct kept as [|x kept]; [by apply IH|]. apply Forall_cons in Hk as [Hx Hk].
    case_bool_decide as Hxx; [|by apply IH]. subst x. by destruct Hx as (_ & _ & _ & []).
  - apply IH; [done|]. constructor; [|done]. repeat split; naive_solver.
Qed.

Lemma normSegs_id allow l : clean l -> forall kept, normSegs allow kept l = rev kept ++ l.
Proof.
  induction 1 as [|s l (Hn & _ & Hd & Hu) _ IH]; intros kept; cbn [normSegs]; [by rewrite app_nil_r|].
  rewrite bool_decide_eq_false_2 by naive_solver. unfold str_eqb. rewrite bool_decide_eq_false_2 by done.
  rewrite IH. cbn [rev]. by rewrite <- app_assoc.
Qed.

Lemma resolve_clean `{FsHost} paths : clean (resolveSegs paths).
Proof. apply normSegs_clean; [apply splitSlash_plain|constructor]. Qed.
#[export] Hint Resolve resolve_clean : bari.

(** ** Reading a canonical path back *)
Lemma splitSlash_plain_id s : slash ∉ s -> splitSlash s = [s].
Proof.
  induction s as [|c s IH]; [done|]. intros Hs. apply not_elem_of_cons in Hs as [Hc Hs]. cbn [splitSlash].
  by rewrite (proj2 (N.eqb_neq _ _)), IH.
Qed.

Lemma splitSlash_app s t : slash ∉ s -> splitSlash (s ++ slash :: t) = s :: splitSlash t.
Proof.
  induction s as [|c s IH]; [done|]. intros Hs. apply not_elem_of_cons in Hs as [Hc Hs]. cbn [splitSlash app].
  by rewrite (proj2 (N.eqb_neq _ _)), IH.
Qed.

Lemma splitSlash_join l : clean l -> l <> [] -> splitSlash (join [slash] l) = l.
Proof.
  induction 1 as [|s l (_ & Hs & _) _ IH]; [done|]. intros _. destruct l as [|t l]; [by apply splitSlash_plain_id|].
  change (join [slash] (s :: t :: l)) with (s ++ slash :: join [slash] (t :: l)). by rewrite splitSlash_app, IH.
Qed.

Lemma splitSlash_abs l : clean l -> splitSlash (absPath l) = [] :: (match l with [] => [[]] | _ => l end).
Proof. intros Hl. unfold absPath. cbn. f_equal. destruct l as [|s l]; [done|]. by rewrite splitSlash_join. Qed.

Lemma absPath_inj a b : clean a -> clean b -> absPath a = absPath b -> a = b.
Proof.
  intros Ha Hb E. apply (f_equal splitSlash) in E. rewrite !splitSlash_abs in E by done.
  injection E as E. destruct a as [|x a], b as [|y b]; try done.
  - injection E as <- <-. by apply Forall_cons in Hb as [[] _].
  - injection E as -> ->. by apply Forall_cons in Ha as [[] _].
Qed.

Lemma normSegs_skip allow kept l : normSegs allow kept ([] :: l) = normSegs allow kept l.
Proof. cbn [normSegs]. by rewrite bool_decide_eq_true_2 by (by left). Qed.

Lemma normSegs_trailing allow l : forall kept, normSegs allow kept (l ++ [[]]) = normSegs allow kept l.
Proof.
  induction l as [|s l IH]; intros kept; [apply normSegs_skip|]. cbn [normSegs app].
  repeat case_goal; apply IH.
Qed.

Lemma splitSlash_some s : splitSlash s <> [].
Proof. destruct s as [|c s]; [done|]. cbn [splitSlash]. case_goal; [done|]. by destruct (splitSlash s). Qed.

Lemma splitSlash_trailing s : splitSlash (s ++ [slash]) = splitSlash s ++ [[]].
Proof.
  induction s as [|c s IH]; [done|]. cbn [splitSlash app]. rewrite IH. case_goal; [done|].
  pose proof (splitSlash_some s). by destruct (splitSlash s).
Qed.

(** ** Resolving *)
Lemma join_app sep a b : a <> [] -> b <> [] -> join sep (a ++ b) = join sep a ++ sep ++ join sep b.
Proof.
  intros Ha Hb. induction a as [|x a IH]; [done|]. destruct a as [|y a].
  - destruct b; [done|]. done.
  - change (join sep ((x :: y :: a) ++ b)) with (x ++ sep ++ join sep ((y :: a) ++ b)).
    rewrite IH by done. change (join sep (x :: y :: a)) with (x ++ sep ++ join sep (y :: a)). by rewrite <- !app_assoc.
Qed.

Lemma absPath_app a b : a <> [] -> b <> [] -> absPath (a ++ b) = absPath a ++ slash :: join [slash] b.
Proof. intros Ha Hb. unfold absPath. by rewrite join_app. Qed.

Lemma absPath_absolute l : posix_isAbsolute (absPath l) = true.
Proof. done. Qed.

Lemma normSegs_abs l : clean l -> normSegs false [] (splitSlash (absPath l)) = l.
Proof.
  intros Hl. rewrite splitSlash_abs, normSegs_skip by done. destruct l; [apply normSegs_skip|]. by apply (normSegs_id false).
Qed.

Section Resolving.
Context `{FsHost}.

Lemma resolve_one p : posix_isAbsolute p = true -> resolveSegs [p] = normSegs false [] (splitSlash p).
Proof.
  intros Hp. unfold resolveSegs. destruct p as [|c s]; [done|]. cbn [rev app resolve_loop truthy negb]. rewrite Hp.
  change (c :: s ++ [slash]) with ((c :: s) ++ [slash]). by rewrite splitSlash_trailing, normSegs_trailing.
Qed.

Lemma resolve_under base p : posix_isAbsolute p = true -> resolveSegs [base; p] = resolveSegs [p].
Proof. intros Hp. unfold resolveSegs. destruct p as [|c s]; [done|]. cbn [rev app resolve_loop truthy negb]. by rewrite Hp. Qed.

Lemma resolve_canonical l : clean l -> resolveSegs [absPath l] = l.
Proof. intros Hl. by rewrite resolve_one, normSegs_abs. Qed.

(** A resolved path resolves to itself, against any directory. *)
Lemma resolve_twice paths : posix_resolve [posix_resolve paths] = posix_resolve paths.
Proof. unfold posix_resolve at 1 2. by rewrite resolve_canonical by apply resolve_clean. Qed.

Lemma resolve_of_resolve paths : resolveSegs [posix_resolve paths] = resolveSegs paths.
Proof. apply resolve_canonical, resolve_clean. Qed.
End Resolving.

(** ** Containment *)

(** The directory [d] contains [p], itself not counted. *)
Definition below (d p : list jstr) : Prop := exists r, r <> [] /\ p = d ++ r.

Lemma slash_split u v x y : slash ∉ u -> slash ∉ v -> u ++ slash :: x = v ++ slash :: y -> u = v /\ x = y.
Proof.
  intros Hu Hv E. apply (f_equal splitSlash) in E as E2. rewrite !splitSlash_app in E2 by done. injection E2 as -> _.
  apply app_inv_head in E. by simplify_eq.
Qed.

Lemma slash_plain u v y : slash ∉ u -> u <> v ++ slash :: y.
Proof. intros Hu ->. apply Hu. apply elem_of_app. right. by left. Qed.

Lemma join_under d p : clean d -> clean p -> d <> [] ->
  (exists t, join [slash] p = join [slash] d ++ slash :: t) -> below d p.
Proof.
  intros Hd. revert p. induction Hd as [|x d (_ & Hx & _) _ IH]; intros p Hp Hne [t E]; [done|].
  destruct Hp as [|y p (Hyn & Hy & _) Hp].
  { by destruct x, d. }
  destruct d as [|x' d].
  - destruct p as [|y' p]; [by apply slash_plain in E|].
    apply slash_split in E as [-> _]; [|done..]. by exists (y' :: p).
  - change (join [slash] (x :: x' :: d)) with (x ++ slash :: join [slash] (x' :: d)) in E.
    rewrite <- app_assoc in E. destruct p as [|y' p]; [by apply slash_plain in E|].
    change (join [slash] (y :: y' :: p)) with (y ++ slash :: join [slash] (y' :: p)) in E.
    apply slash_split in E as [-> E]; [|done..]. destruct (IH (y' :: p) Hp) as (r & Hr & ->); [done|by exists t|].
    by exists r.
Qed.

Lemma startsWith_below d p : clean d -> clean p ->
  startsWith (absPath p) (absPath d ++ [slash]) = true <-> d <> [] /\ below d p.
Proof.
  intros Hd Hp. rewrite startsWith_prefix. split.
  - intros [t E]. rewrite <- app_assoc in E. unfold absPath in E. injection E as E. destruct d as [|x d].
    + exfalso. destruct Hp as [|y p (Hyn & Hy & _) _]; [done|]. destruct p as [|y' p]; cbn in E.
      * by apply (slash_plain y [] _ Hy) in E.
      * destruct y as [|c y]; [done|]. injection E as -> _. by apply Hy; left.
    + split; [done|]. by apply join_under; [..|exists t].
  - intros (Hne & r & Hr & ->). exists (join [slash] r). by rewrite absPath_app, <- app_assoc by done.
Qed.

(** ** Parts of a canonical path *)
Lemma dropWhile_app_all {A} (f : A -> bool) a b : Forall (fun x => f x = true) a -> dropWhile f (a ++ b) = dropWhile f b.
Proof. induction 1 as [|x a Hx _ IH]; [done|]. cbn. by rewrite Hx. Qed.

Lemma takeWhile_app_all {A} (f : A -> bool) a b : Forall (fun x => f x = true) a -> takeWhile f (a ++ b) = a ++ takeWhile f b.
Proof. induction 1 as [|x a Hx _ IH]; [done|]. cbn. by rewrite Hx, IH. Qed.

Lemma plain_units s : slash ∉ s -> Forall (fun d => negb (d =? slash)%N = true) (rev s).
Proof.
  intros Hs. apply Forall_rev, Forall_forall. intros d Hd. apply negb_true_iff, N.eqb_neq. by intros ->.
Qed.

Lemma segment_end x t : segment x -> dropWhile (N.eqb slash) (rev x ++ t) = rev x ++ t.
Proof.
  intros (Hn & Hx & _). apply dropWhile_id. apply plain_units in Hx. destruct (rev x) as [|c s] eqn:Er.
  - destruct x; [done|]. by apply (f_equal length) in Er; rewrite length_rev in Er.
  - apply Forall_cons in Hx as [Hx _]. apply negb_true_iff in Hx. cbn [app]. by rewrite N.eqb_sym in Hx.
Qed.

Lemma last_segment l x : segment x -> exists t, rev (join [slash] (l ++ [x])) = rev x ++ t
  /\ (t = [] /\ l = [] \/ t = slash :: rev (join [slash] l) /\ l <> []).
Proof.
  intros (Hn & Hx & _). destruct l as [|y l]; [exists []; rewrite app_nil_r; by auto|].
  exists (slash :: rev (join [slash] (y :: l))). rewrite join_app by done. cbn [join]. split; [|by right].
  rewrite !rev_app_distr. cbn [rev app]. by rewrite <- app_assoc.
Qed.

Lemma dirname_segment l x : clean l -> segment x -> posix_dirname (absPath (l ++ [x])) = absPath l.
Proof.
  intros Hc Hx. destruct (last_segment l x Hx) as (t & E & Ht). unfold posix_dirname, absPath.
  rewrite E, segment_end, dropWhile_app_all by (try apply plain_units; apply Hx).
  destruct Ht as [[-> ->]|[-> Hl]]; [done|]. cbn [dropWhile].
  change (negb (slash =? slash)%N) with false. cbn match. rewrite rev_involutive.
  destruct (rev (join [slash] l)) as [|c s] eqn:Er; [|done]. apply (f_equal (@rev _)) in Er. rewrite rev_involutive in Er.
  destruct Hc as [|y l [Hy _] _]; [done|]. destruct y; [done|]. by destruct l.
Qed.

Lemma basename_segment l x : segment x -> posix_basename (absPath (l ++ [x])) = x.
Proof.
  intros Hx. destruct (last_segment l x Hx) as (t & E & Ht). unfold posix_basename, absPath. cbn [rev].
  rewrite E, <- app_assoc, segment_end, takeWhile_app_all by (try apply plain_units; apply Hx).
  destruct Ht as [[-> ->]|[-> Hl]]; cbn; by rewrite app_nil_r, rev_involutive.
Qed.

Lemma join_segment l x : clean l -> segment x -> posix_join [absPath l; x] = absPath (l ++ [x]).
Proof.
  intros Hl Hx. pose proof Hx as (Hn & Hs & _). unfold posix_join.
  assert (List.filter truthy [absPath l; x] = [absPath l; x]) as -> by (by destruct x).
  change (join [slash] [absPath l; x]) with (absPath l ++ slash :: x). unfold posix_normalize.
  assert (splitSlash (absPath l ++ slash :: x) = [] :: (match l with [] => [[]] | _ => l end) ++ [x]) as E.
  { destruct l as [|y l].
    - change (absPath [] ++ slash :: x) with ([] ++ slash :: [] ++ slash :: x). by rewrite !splitSlash_app, splitSlash_plain_id by (done || by intros ?%elem_of_nil).
    - assert (absPath (y :: l) ++ slash :: x = absPath ((y :: l) ++ [x])) as -> by (by rewrite absPath_app).
      rewrite splitSlash_abs by (apply Forall_app; split; [done|by constructor]). done. }
  rewrite E. change (posix_isAbsolute (absPath l ++ slash :: x)) with true. cbn [negb].
  assert (normSegs false [] ([] :: (match l with [] => [[]] | _ => l end) ++ [x]) = l ++ [x]) as ->.
  { rewrite normSegs_skip. destruct l as [|y l].
    - cbn [app]. rewrite normSegs_skip. by apply (normSegs_id false [x]); constructor.
    - apply (normSegs_id false). apply Forall_app. split; [done|by constructor]. }
  assert (endsInSlash (absPath l ++ slash :: x) = false) as ->.
  { unfold endsInSlash. destruct x as [|c x _] using rev_ind; [done|].
    change (slash :: x ++ [c]) with ((slash :: x) ++ [c]). rewrite app_assoc, last_snoc. apply N.eqb_neq. intros ->.
    apply Hs, elem_of_app. right. by left. }
  unfold absPath at 1. cbn [app]. destruct (join [slash] (l ++ [x])) eqn:Ej; [|by unfold absPath; rewrite Ej].
  apply (f_equal length) in Ej. destruct l as [|y l]; [by destruct x|]. rewrite join_app, !length_app in Ej by done. cbn in Ej. lia.
Qed.
