(* ===== verification/FsPermission.v ===== *)
(** * What may be done with a file

    [packages/agent-modules/permission/src/tools/fs-permission.ts] and
    [path-identity.ts] on a POSIX host: which paths are well formed, which files are
    sensitive, and [isPathAllowed].  The branches for Windows are left out. *)
From S2P Require Import Prelude PermTypes ShellTokenize ShellSplit BashAst BashWrappers FsPath.

Definition DANGEROUS_FILES : list jstr :=
  [js ".gitconfig"; js ".gitmodules"; js ".bashrc"; js ".bash_profile"; js ".zshrc"; js ".zprofile"; js ".profile";
   js ".ripgreprc"; js ".mcp.json"; js "id_rsa"; js "id_dsa"; js "id_ecdsa"; js "id_ed25519"; js "credentials";
   js ".netrc"; js ".pypirc"; js ".git-credentials"; js ".pgpass"; js ".mysql_history"; js ".psql_history";
   js ".bash_history"; js ".zsh_history"; js ".dockercfg"].
Definition DANGEROUS_DIRECTORIES : list jstr :=
  [js ".git"; js ".vscode"; js ".idea"; js ".ssh"; js ".aws"; js ".azure"; js ".gcloud"; js ".kube"; js ".gnupg"].
Definition READ_ONLY_TOOLS : list jstr := [js "read"; js "glob"; js "grep"; js "list"].
Definition FS_UMBRELLA_TOOL_NAME : jstr := js "fs".

(** [types.ts] *)
Record PathCheckContext := {
  pk_workingDirectory : jstr;
  pk_allowedWorkingPaths : option (list jstr);
  pk_sandboxAllowPaths : option (list jstr);
  pk_dataDir : option jstr;
  pk_homeDir : option jstr;
  pk_agentName : option jstr;
  pk_trustedExactWritePaths : option (list jstr);
}.

(** ** Path validation *)

(** A dollar followed by one of these, or a pair of backquotes: the source of the
    first expression that matches. *)
Fixpoint dollarBefore (f : jchar -> bool) (s : jstr) : bool :=
  match s with
  | c :: s' => (c =? ch "$")%N && match s' with d :: _ => f d | [] => false end || dollarBefore f s'
  | [] => false
  end.
Definition backticks (s : jstr) : bool :=
  match dropWhile (fun c => negb (c =? backtick)%N) s with
  | _ :: s' => existsb (N.eqb backtick) s'
  | [] => false
  end.
Definition isAsciiLetter (c : jchar) : bool := ((97 <=? asciiLower c) && (asciiLower c <=? 122))%N.
Definition SHELL_EXPANSION_PATTERNS : list ((jstr -> bool) * jstr) :=
  [(dollarBefore (N.eqb (ch "(")), js "\$\(");
   (backticks, js "`[^`]*`");
   (dollarBefore (N.eqb (ch "{")), js "\$\{");
   (dollarBefore (fun c => isAsciiLetter c || (c =? ch "_")%N), js "\$[A-Za-z_]")].

Definition containsVulnerableUncPath (p : jstr) : bool :=
  match p with
  | a :: b :: c :: _ =>
      (a =? backslash)%N && (b =? backslash)%N && negb (c =? backslash)%N
      || (a =? slash)%N && (b =? slash)%N && negb (c =? slash)%N
  | _ => false
  end.

Definition containsPathTraversal (p : jstr) : bool := existsb (str_eqb (js "..")) (splitSlash (slashes p)).

(** The error, or the resolved path. *)
Definition shellExpansion (message p : jstr) : option jstr :=
  match List.find (fun e => fst e p) SHELL_EXPANSION_PATTERNS with
  | Some e => Some (message ++ js ": " ++ snd e)
  | None => None
  end.

Definition validateGlobPattern (pattern : jstr) : option jstr :=
  if existsb (N.eqb 0) pattern then Some (js "Null byte in glob pattern is not allowed")
  else match shellExpansion (js "Shell expansion in glob pattern") pattern with
       | Some error => Some error
       | None =>
           if containsPathTraversal pattern then Some (js "Path traversal in glob pattern")
           else if posix_isAbsolute pattern
                   || match pattern with d :: c :: s :: _ =>
                        isAsciiLetter d && (c =? ch ":")%N && ((s =? backslash) || (s =? slash))%N | _ => false end
           then Some (js "Absolute glob patterns are not allowed") else None
       end.

Section FsPermission.
Context `{FsHost}.

Definition validatePath (inputPath : jstr) (workingDirectory homeDir : option jstr) : jstr + jstr :=
  if negb (truthy (trim inputPath)) then inl (js "Empty path")
  else
  let normalized := trim inputPath in
  if existsb (N.eqb 0) normalized then inl (js "Null byte in path is not allowed")
  else
  match (if startsWith normalized (js "~") then
           if str_eqb normalized (js "~") || startsWith normalized (js "~/") then
             match homeDir with
             | Some (c :: home) => inr (posix_join [c :: home; drop 1 normalized])
             | _ => inl (js "Home directory is required for tilde expansion")
             end
           else inl (js "Tilde-user expansion (~user) is not allowed for security reasons")
         else inr normalized) with
  | inl error => inl error
  | inr normalized =>
      if containsVulnerableUncPath normalized then inl (js "UNC paths are not allowed")
      else match shellExpansion (js "Shell expansion syntax is not allowed") normalized with
           | Some error => inl error
           | None =>
               if containsPathTraversal normalized then inl (js "Path traversal (..) detected")
               else if posix_isAbsolute normalized then inr (posix_resolve [normalized])
               else inr (posix_resolve [default cwd workingDirectory; normalized])
           end
  end.

(** ** Sensitive files *)
Definition isDangerousFile (filePath : jstr) : bool := mem (posix_basename filePath) DANGEROUS_FILES.

Definition isInDangerousDirectory (filePath : jstr) : bool :=
  existsb (fun dir => mem dir (splitSlash (posix_resolve [filePath]))) DANGEROUS_DIRECTORIES.

(** What follows the last occurrence of a segment. *)
Fixpoint afterLastSegment (x : jstr) (segs : list jstr) : option (list jstr) :=
  match segs with
  | [] => None
  | s :: rest =>
      match afterLastSegment x rest with
      | Some r => Some r
      | None => if str_eqb s x then Some rest else None
      end
  end.

Definition isSensitiveGitFile (filePath : jstr) : bool :=
  match afterLastSegment (js ".git") (splitSlash (posix_resolve [filePath])) with
  | None => false
  | Some parts =>
      let relativeParts := map lowerCase parts in
      match last relativeParts with
      | None => false
      | Some base =>
          mem base [js "config"; js "credentials"]
          && ((length relativeParts =? 1)%nat || bool_decide (head relativeParts = Some (js "modules")))
      end
  end.

Definition CREDENTIAL_EXTENSIONS : list jstr := [js ".p12"; js ".pfx"; js ".keystore"; js ".jks"].
Definition PRIVATE_KEY_INDICATORS : list jstr := [js "private"; js "priv"; js "key"].
Definition KEY_EXTENSION_PRIVATE_INDICATORS : list jstr :=
  [js "private"; js "priv"; js "secret"; js "credential"; js "creds"; js "server"; js "client"; js "identity"; js "ssh";
   js "id_rsa"; js "id_dsa"; js "id_ecdsa"; js "id_ed25519"].

Definition isKeyUnit (c : jchar) : bool := isAsciiLetter c || isDigit c || (c =? ch "_")%N || (c =? ch "-")%N.

Definition publicKeyName (name : jstr) : bool :=
  let s := map asciiLower name in
  startsWith s (js "id_") && endsWith s (js ".pub") && (7 <? length s)%nat
  && forallb isKeyUnit (take (length s - 7) (drop 3 s)).

Definition isPublicKeyFile (filePath : jstr) : bool :=
  mem (js ".ssh") (splitSlash (posix_resolve [filePath])) && publicKeyName (lowerCase (posix_basename filePath)).

Definition isCredentialFile (filePath : jstr) : bool :=
  if isPublicKeyFile filePath then false
  else
    let base := lowerCase (posix_basename filePath) in
    let ext := posix_extname base in
    let nameWithoutExt := take (length base - length ext) base in
    if mem ext CREDENTIAL_EXTENSIONS then true
    else if str_eqb ext (js ".key") then existsb (includes nameWithoutExt) KEY_EXTENSION_PRIVATE_INDICATORS
    else if str_eqb ext (js ".pem") then existsb (includes nameWithoutExt) PRIVATE_KEY_INDICATORS
    else false.

Definition isEnvFile (filePath : jstr) : bool :=
  let base := posix_basename filePath in
  if negb (startsWith base (js ".env")) then false
  else if str_eqb base (js ".env") then true
  else if negb (startsWith base (js ".env.")) then false
  else negb (mem (lowerCase (drop 5 base)) [js "example"; js "sample"; js "template"]).

Definition isSystemSensitivePath (resolvedPath : jstr) : bool :=
  let normalized := lowerCase resolvedPath in
  darwin && (includes normalized (js "/library/keychains/") || endsWith normalized (js "/library/keychains/system.keychain")
             || startsWith normalized (js "/var/db/dslocal/"))
  || mem normalized [js "/etc/shadow"; js "/etc/gshadow"; js "/etc/sudoers"; js "/etc/master.passwd"]
  || startsWith normalized (js "/etc/sudoers.d/").

(** ** Removal *)
Definition isDangerousRemovalPath (inputPath : jstr) (homeDir : option jstr) : bool :=
  let normalized := trim inputPath in
  if mem normalized [js "~"; js "~/"] then true
  else if startsWith normalized (js "~/") && negb (otruthy homeDir) then false
  else
    let normalized :=
      if startsWith normalized (js "~/") then posix_join [default [] homeDir; drop 2 normalized] else normalized in
    let resolved := posix_resolve [normalized] in
    str_eqb resolved (js "/") || str_eqb resolved (posix_root resolved)
    || otruthy homeDir && str_eqb resolved (posix_resolve [default [] homeDir])
    || (let parent := posix_dirname resolved in str_eqb parent (js "/") || str_eqb parent (posix_root parent)).

(** ** Boundaries *)

(** [a === b || a.startsWith(b + path.sep)], which several functions write out. *)
Definition atOrUnder (resolved dir : jstr) : bool := str_eqb resolved dir || startsWith resolved (dir ++ [slash]).

Definition pathInWorkingPath (filePath workingDir : jstr) : bool :=
  atOrUnder (posix_resolve [filePath]) (posix_resolve [workingDir]).

Definition pathInAllowedWorkingPath (filePath : jstr) (allowedPaths : list jstr) : bool :=
  existsb (fun a => atOrUnder (posix_resolve [filePath]) (posix_resolve [a])) allowedPaths.

Definition WELL_KNOWN_HOME_READ_DIRS : list jstr := [js "Downloads"; js "Desktop"].
Definition WELL_KNOWN_SYSTEM_READ_DIRS : list jstr := [js "/usr/share/doc"; js "/usr/local/share/doc"].

Definition isWellKnownHomeReadAllowed (resolvedPath homeDir : jstr) : bool :=
  truthy homeDir
  && existsb (fun dir => atOrUnder resolvedPath (posix_join [posix_resolve [homeDir]; dir])) WELL_KNOWN_HOME_READ_DIRS.

Definition isWellKnownSystemReadAllowed (resolvedPath : jstr) : bool :=
  existsb (fun dir => atOrUnder resolvedPath (posix_resolve [dir])) WELL_KNOWN_SYSTEM_READ_DIRS.

Definition RESOLVED_TMPDIR : jstr := posix_resolve [os_tmpdir].

Definition isTempDirectory (resolvedPath : jstr) : bool :=
  atOrUnder resolvedPath RESOLVED_TMPDIR || (str_eqb resolvedPath (js "/tmp") || startsWith resolvedPath (js "/tmp/")).

(** ** Private runtime data *)

(** Every round is a shorter path. *)
Fixpoint existing_loop (fuel : nat) (filePath : jstr) : jstr :=
  match realpathSync filePath with
  | Some real => real
  | None =>
      let parent := posix_dirname filePath in
      if str_eqb parent filePath then filePath
      else match fuel with
           | O => filePath
           | S fuel' => posix_join [existing_loop fuel' parent; posix_basename filePath]
           end
  end.
Definition resolveExistingPath (filePath : jstr) : jstr := existing_loop (length filePath) filePath.

Definition isInternalWhitelistedPath (filePath : jstr) (context : PathCheckContext) : bool :=
  let resolved := posix_resolve [filePath] in
  match pk_dataDir context with
  | None | Some [] => false
  | Some dataDir =>
      let normalizedDataDir := posix_resolve [dataDir] in
      str_eqb resolved (posix_join [normalizedDataDir; js "permission.json"])
      || endsWith resolved (js "MEMORY.md") && startsWith resolved normalizedDataDir
      || atOrUnder resolved (posix_join [normalizedDataDir; js "memory"])
      || atOrUnder resolved (posix_join [normalizedDataDir; js "plans"])
      || match pk_agentName context with
         | None | Some [] => false
         | Some agentName =>
             let agentDir := posix_join [normalizedDataDir; js "agents"; agentName] in
             atOrUnder resolved (posix_join [agentDir; js "memory"])
             || str_eqb resolved (posix_join [agentDir; js "MEMORY.md"])
             || str_eqb resolved (posix_join [agentDir; js "permission.json"])
         end
  end.

Definition within (target root : jstr) : bool :=
  let relative := posix_relative root target in
  negb (truthy relative)
  || (negb (startsWith relative (js "../")) && negb (str_eqb relative (js "..")) && negb (posix_isAbsolute relative)).

Definition withDataDir (context : PathCheckContext) (root : jstr) : PathCheckContext :=
  {| pk_workingDirectory := pk_workingDirectory context; pk_allowedWorkingPaths := pk_allowedWorkingPaths context;
     pk_sandboxAllowPaths := pk_sandboxAllowPaths context; pk_dataDir := Some root; pk_homeDir := pk_homeDir context;
     pk_agentName := pk_agentName context; pk_trustedExactWritePaths := pk_trustedExactWritePaths context |}.

Definition readableAsset (canonicalPath canonicalRoot : jstr) (context : PathCheckContext) : bool :=
  within canonicalPath (posix_join [canonicalRoot; js "skills"])
  || within canonicalPath (posix_join [canonicalRoot; js ".builtin-skills"])
  || match pk_agentName context with
     | Some agentName =>
         within canonicalPath (posix_join [canonicalRoot; js "agents"; agentName; js "workspace"])
         || within canonicalPath (posix_join [canonicalRoot; js "agents"; agentName; js "skills"])
     | None => false
     end
  || isInternalWhitelistedPath canonicalPath (withDataDir context canonicalRoot).

Definition protectedBy (filePath : jstr) (context : PathCheckContext) (recursive : bool) (root : jstr) : bool :=
  let canonicalPath := resolveExistingPath filePath in
  let resolvedRoot := posix_resolve [root] in
  let canonicalRoot := resolveExistingPath resolvedRoot in
  recursive && within canonicalRoot canonicalPath
  || (within filePath resolvedRoot || within canonicalPath canonicalRoot)
     && negb (readableAsset canonicalPath canonicalRoot context).

Definition isProtectedRuntimeRead (filePath : jstr) (context : PathCheckContext) (recursive : bool) : bool :=
  existsb (protectedBy filePath context recursive)
    (List.filter truthy [default [] (pk_dataDir context); posix_join [default os_homedir (pk_homeDir context); js ".minimax"]]).

(** ** Rules *)
Definition matchPathRule (filePath ruleContent : jstr) : bool :=
  let resolved := posix_resolve [filePath] in
  if endsWith ruleContent (js "/**") then
    let dir := posix_resolve [take (length ruleContent - 3) ruleContent] in
    startsWith resolved (dir ++ [slash]) || str_eqb resolved dir
  else if endsWith ruleContent (js "/*") && negb (endsWith ruleContent (js "**")) then
    str_eqb (posix_dirname resolved) (posix_resolve [take (length ruleContent - 2) ruleContent])
  else str_eqb resolved (posix_resolve [ruleContent]).

Definition ruleSupportsPathAction (rule : PermissionRule) (action : option PermissionRuleAction) : bool :=
  match matcher (ruleValue rule) with
  | None | Some MTool => true
  | Some (MCommand _) => false
  | Some (MPath _ None) => true
  | Some (MPath _ (Some actions)) => match action with Some a => bool_decide (a ∈ actions) | None => false end
  end.

Record PathPermissionResult := { pp_allowed : bool; pp_reason : DecisionReason }.

Definition permit (reason : DecisionReason) : PathPermissionResult := {| pp_allowed := true; pp_reason := reason |}.
Definition refuse (reason : DecisionReason) : PathPermissionResult := {| pp_allowed := false; pp_reason := reason |}.

Definition toolRulesFor (rules : list PermissionRule) (tool : jstr) (action : option PermissionRuleAction) : list PermissionRule :=
  List.filter (fun r => (str_eqb (toolName (ruleValue r)) tool || str_eqb (toolName (ruleValue r)) FS_UMBRELLA_TOOL_NAME)
                        && ruleSupportsPathAction r action) rules.

(** The first rule of a behaviour that is for the whole tool or matches the path. *)
Definition firstPathRule (b : PermissionBehavior) (toolRules : list PermissionRule) (resolved : jstr) : option PermissionRule :=
  List.find (fun r => bool_decide (ruleBehavior r = b)
                      && (negb (otruthy (ruleContent (ruleValue r)))
                          || matchPathRule resolved (default [] (ruleContent (ruleValue r))))) toolRules.

Definition safetyReason (description : jstr) (resolved category : jstr) : DecisionReason :=
  ReasonSafetyCheck (description ++ resolved) (Some true) (Some category).

(** The sensitive and protected files; the second group is not looked at when
    something in a working directory is only read. *)
Definition safetyCheck (resolved : jstr) (skipDangerousCheck : bool) : option DecisionReason :=
  if isSystemSensitivePath resolved then
    Some (safetyReason (js "System secret access requires LLM review and explicit approval if the LLM cannot allow it. Path: ")
            resolved (js "systemSensitivePath"))
  else if isCredentialFile resolved then
    Some (safetyReason (js "Credential or private-key access requires LLM review and explicit approval if the LLM cannot allow it. Path: ")
            resolved (js "credentialFile"))
  else if isEnvFile resolved then
    Some (safetyReason (js "Environment file may contain secrets. Path: ") resolved (js "envFile"))
  else if isInDangerousDirectory resolved && isSensitiveGitFile resolved then
    Some (safetyReason (js "Sensitive git metadata may contain credentials or remotes with tokens. Path: ") resolved
            (if str_eqb (lowerCase (posix_basename resolved)) (js "credentials") then js "credentialFile" else js "gitSensitiveFile"))
  else if negb skipDangerousCheck && isDangerousFile resolved then
    Some (safetyReason (js "Protected user or tool configuration file. Path: ") resolved (js "protectedFile"))
  else if negb skipDangerousCheck && isInDangerousDirectory resolved then
    let protectedDirectory := List.find (fun d => mem d (splitSlash resolved)) DANGEROUS_DIRECTORIES in
    Some (safetyReason (js "Protected configuration or credential directory (" ++ default (js "unknown") protectedDirectory
                        ++ js "). Path: ") resolved
            (if bool_decide (protectedDirectory = Some (js ".git")) then js "gitDirectory" else js "protectedDirectory"))
  else None.

Definition isSameResolvedPath (left right : jstr) : bool := str_eqb (posix_resolve [left]) (posix_resolve [right]).

(** What is allowed without a rule. *)
Definition implicitAllowance (resolved : jstr) (context : PathCheckContext) (tool : jstr) : option DecisionReason :=
  let readOnly := mem tool READ_ONLY_TOOLS in
  if mem tool [js "write"; js "edit"]
     && existsb (fun trusted => isSameResolvedPath trusted resolved) (default [] (pk_trustedExactWritePaths context))
  then Some (ReasonTrustedExactWrite resolved)
  else if readOnly && isTempDirectory resolved then Some (ReasonTempDirectory resolved)
  else if readOnly && isWellKnownHomeReadAllowed resolved (default [] (pk_homeDir context)) then Some (ReasonWorkingDirectory resolved)
  else if readOnly && isWellKnownSystemReadAllowed resolved then Some (ReasonWorkingDirectory resolved)
  else if pathInWorkingPath resolved (pk_workingDirectory context) then Some (ReasonWorkingDirectory resolved)
  else if pathInAllowedWorkingPath resolved (default [] (pk_allowedWorkingPaths context)) then Some (ReasonWorkingDirectory resolved)
  else if pathInAllowedWorkingPath resolved (default [] (pk_sandboxAllowPaths context)) then Some ReasonSandbox
  else None.

Definition isPathAllowed (filePath : jstr) (rules : list PermissionRule) (context : PathCheckContext) (tool : jstr)
    (action : option PermissionRuleAction) : PathPermissionResult :=
  match validatePath filePath (Some (pk_workingDirectory context)) (pk_homeDir context) with
  | inl error => refuse (ReasonPathValidation error)
  | inr resolved =>
      let toolRules := toolRulesFor rules tool action in
      match firstPathRule Deny toolRules resolved with
      | Some rule => refuse (ReasonRule rule)
      | None =>
          let readOnly := mem tool READ_ONLY_TOOLS in
          if readOnly && isProtectedRuntimeRead resolved context (str_eqb tool (js "grep")) then
            refuse (ReasonSafetyCheck (js "Private runtime data access requires approval. Path: " ++ resolved) (Some false)
                      (Some (js "credentialFile")))
          else if isInternalWhitelistedPath resolved context then permit (ReasonInternalWhitelist resolved)
          else
            let isInWorkDir := pathInWorkingPath resolved (pk_workingDirectory context)
                               || pathInAllowedWorkingPath resolved (default [] (pk_allowedWorkingPaths context)) in
            match safetyCheck resolved (readOnly && isInWorkDir) with
            | Some reason => refuse reason
            | None =>
                match implicitAllowance resolved context tool with
                | Some reason => permit reason
                | None =>
                    match firstPathRule Allow toolRules resolved with
                    | Some rule => permit (ReasonRule rule)
                    | None => refuse (ReasonWorkingDirectory resolved)
                    end
                end
            end
      end
  end.
End FsPermission.
