(* ===== verification/PathCapability.v ===== *)
(** * Path capabilities

    [evaluatePathCapability] of
    [packages/agent-modules/permission/src/tools/path-capability.ts] with what it
    calls: the sensitive paths of [classifier/dangerous-patterns.ts], the rules of
    the tool that asks, and the rules suggested for an approval. *)
From S2P Require Import Prelude PermTypes PermContext ShellTokenize ShellSplit BashAst BashWrappers BashRules BashPaths FsPath FsPermission.

(** ** Sensitive paths

    The expressions of [HARD_BLOCKED_FS_READ_PATTERNS], case folded where they have
    the [i] flag: no other unit folds to an ASCII letter. *)
Fixpoint someSuffix (f : jstr -> bool) (s : jstr) : bool :=
  f s || match s with [] => false | _ :: s' => someSuffix f s' end.

Definition isSshKeyAt (sep : jstr) (s : jstr) : bool :=
  existsb (fun k =>
    let p := sep ++ js ".ssh" ++ sep ++ js "id_" ++ k in
    startsWith s p
    && match drop (length p) s with
       | [] => true
       | c :: name => (c =? ch "_")%N && truthy name && forallb isKeyUnit name
       end) [js "rsa"; js "dsa"; js "ecdsa"; js "ed25519"].

Definition KEY_FILE_WORDS : list jstr :=
  [js "private"; js "priv"; js "secret"; js "credential"; js "creds"; js "server"; js "client"; js "identity"; js "ssh"]
  ++ flat_map (fun k => [js "id" ++ k; js "id_" ++ k; js "id-" ++ k]) [js "rsa"; js "dsa"; js "ecdsa"; js "ed25519"].

Definition lastPart (s : jstr) : jstr := default s (afterLast slash s).

Definition isNamedKeyFile (s : jstr) : bool :=
  let name := lastPart (slashes (map asciiLower s)) in
  endsWith name (js ".key") && existsb (includes (take (length name - 4) name)) KEY_FILE_WORDS.

Definition HARD_BLOCKED_FS_READ_PATTERNS : list ((jstr -> bool) * (jstr * jstr)) :=
  [(fun s => mem s [js "/etc/shadow"; js "/etc/gshadow"; js "/etc/master.passwd"], (js "system-secret", js "Unix shadow password file"));
   (fun s => str_eqb s (js "/etc/sudoers")
             || startsWith s (js "/etc/sudoers.d/")
                && match drop 15 s with [] => false | rest => forallb (fun c => negb (isLineTerminator c)) rest end,
    (js "system-secret", js "Unix sudoers configuration"));
   (str_eqb (js "/Library/Keychains/System.keychain"), (js "system-secret", js "macOS System keychain"));
   (fun s => existsb (fun dir => existsb (fun hive => endsWith (map asciiLower s) (js "\" ++ dir ++ js "\config\" ++ hive))
                                   [js "sam"; js "security"; js "system"; js "software"]) [js "system32"; js "syswow64"],
    (js "system-secret", js "Windows registry hive"));
   (fun s => includes (map asciiLower s) (js "\windows\ntds\") || endsWith (map asciiLower s) (js "\windows\ntds"),
    (js "system-secret", js "Windows NTDS (Active Directory database)"));
   (someSuffix (isSshKeyAt (js "/")), (js "ssh-credential", js "SSH private key"));
   (fun s => someSuffix (isSshKeyAt (js "\")) (map asciiLower s), (js "ssh-credential", js "SSH private key (Windows path)"));
   (fun s => endsWith s (js "/.aws/credentials"), (js "ssh-credential", js "AWS credentials file"));
   (isNamedKeyFile, (js "ssh-credential", js "Private cryptographic key file"));
   (fun s => existsb (endsWith (map asciiLower s)) [js ".p12"; js ".pfx"; js ".keystore"; js ".jks"],
    (js "ssh-credential", js "Private cryptographic key file"));
   (fun s => let name := lastPart (map asciiLower s) in startsWith name (js "private") && endsWith name (js ".pem"),
    (js "ssh-credential", js "PEM-encoded private key"))].

Definition matchHardBlockedFsRead (absPath : jstr) : option (jstr * jstr) :=
  if endsWith (map asciiLower absPath) (js ".pub") then None
  else match List.find (fun e => fst e absPath) HARD_BLOCKED_FS_READ_PATTERNS with
       | Some e => Some (snd e)
       | None => None
       end.

Definition formatHardBlockedFsReason (category description resolvedPath : jstr) : jstr :=
  (if str_eqb category (js "system-secret") then
     js "Needs confirmation: system secret access requires LLM review and explicit approval if the LLM cannot allow it. Path: "
   else js "Needs confirmation: credential or private-key access requires LLM review and explicit approval if the LLM cannot allow it. Path: ")
  ++ resolvedPath ++ js ". Reason: " ++ description ++ js ".".

(** ** Actions *)
Definition ruleAction (action : PathCapabilityAction) : PermissionRuleAction :=
  match action with cap_read => act_read | cap_write => act_write | cap_delete => act_delete | cap_execute => act_execute end.

Definition pathActionToToolName (action : PathCapabilityAction) : jstr :=
  match action with cap_read | cap_execute => js "read" | cap_write | cap_delete => js "write" end.

Definition ruleAllowsPathAction (rule : PermissionRule) (action : PermissionRuleAction) : bool :=
  match matcher (ruleValue rule) with
  | None => true
  | Some (MPath _ None) => true
  | Some (MPath _ (Some actions)) => bool_decide (action ∈ actions)
  | Some _ => false
  end.

Definition hasWholeToolOrMcpServerRule (ctx : ToolPermissionContext) (tool : jstr) (b : PermissionBehavior) : bool :=
  bool_decide (is_Some (hasWholeToolRule ctx tool b))
  || startsWith tool (js "mcp__")
     && existsb (fun r => bool_decide (ruleBehavior r = b) && negb (otruthy (ruleContent (ruleValue r)))
                          && matchesMcpServerRuntimeName tool (toolName (ruleValue r))) (rules ctx).

Section PathCapability.
Context `{FsHost}.

Definition resolveShellAwarePath (filePath workingDirectory homeDir : jstr) : jstr :=
  if isDrivePath filePath || existsb (N.eqb backslash) filePath then filePath
  else
    let homeResolvedPath :=
      if str_eqb filePath (js "~") then homeDir
      else if startsWith filePath (js "~/") && truthy homeDir then posix_join [homeDir; drop 2 filePath]
      else filePath in
    posix_resolve [workingDirectory; homeResolvedPath].

(** ** Suggestions *)
Definition generateSuggestionRules (filePath : jstr) (workingDirectory homeDir : option jstr) : list jstr :=
  let home := default os_homedir homeDir in
  let shellResolvedPath :=
    if str_eqb filePath (js "~") then home
    else if startsWith filePath (js "~/") then posix_join [home; drop 2 filePath] else filePath in
  let dir := posix_dirname (posix_resolve [default cwd workingDirectory; shellResolvedPath]) in
  if existsb (fun root => str_eqb dir root || startsWith dir (root ++ [slash])) [js "/dev"; js "/proc"; js "/sys"] then []
  else if str_eqb dir (js "/") || str_eqb dir (posix_root dir) then [filePath]
  else [dir ++ js "/**"].

Definition pathMatcher (action : PermissionRuleAction) (pattern : jstr) : PermissionRuleMatcher := MPath pattern (Some [action]).

(** A result, with the suggestions of [buildPathRuleSuggestion]. *)
Definition suggesting (b : PermissionBehavior) (reason : DecisionReason) (immune skip : option bool)
    (filePath : jstr) (action : PermissionRuleAction) (ctx : ToolPermissionContext) : ToolCheckResult :=
  let ruleContents := generateSuggestionRules filePath (Some (workingDirectory ctx)) (Some (homeDir ctx)) in
  {| tc_behavior := Checked b; tc_reason := reason; tc_bypassImmune := immune; tc_skipAutoClassifier := skip;
     tc_ruleContents := Some ruleContents; tc_ruleMatchers := Some (map (pathMatcher action) ruleContents);
     tc_candidateScopes := None; tc_rewrittenInput := None |}.

Definition plainly (b : PermissionBehavior) (reason : DecisionReason) : ToolCheckResult :=
  {| tc_behavior := Checked b; tc_reason := reason; tc_bypassImmune := None; tc_skipAutoClassifier := None;
     tc_ruleContents := None; tc_ruleMatchers := None; tc_candidateScopes := None; tc_rewrittenInput := None |}.

(** ** Rules *)

(** Some rule with content of the tool and behaviour covers the path for the action. *)
Definition contentRuleCovers (rs : list PermissionRule) (action : PermissionRuleAction) (path : jstr) : option PermissionRule :=
  List.find (fun r => ruleAllowsPathAction r action && otruthy (ruleContent (ruleValue r))
                      && matchPathRule path (default [] (ruleContent (ruleValue r)))) rs.

Definition matchOriginToolPathRule (ctx : ToolPermissionContext) (originToolName : option jstr) (filePath : jstr)
    (action : PermissionRuleAction) (includeWholeTool : bool) : option PermissionBehavior :=
  match originToolName with
  | None | Some [] => None
  | Some origin =>
      if mem origin [js "read"; js "write"; FS_UMBRELLA_TOOL_NAME] then None
      else
        let resolvedPath := resolveShellAwarePath filePath (workingDirectory ctx) (homeDir ctx) in
        let covers b := contentRuleCovers (getContentRulesForTool ctx origin b) action resolvedPath in
        if includeWholeTool && hasWholeToolOrMcpServerRule ctx origin Deny then Some Deny
        else match covers Deny with
             | Some _ => Some Deny
             | None =>
                 if includeWholeTool && hasWholeToolOrMcpServerRule ctx origin Allow then Some Allow
                 else match covers Allow with Some _ => Some Allow | None => None end
             end
  end.

Definition pathContext (ctx : ToolPermissionContext) : PathCheckContext :=
  {| pk_workingDirectory := workingDirectory ctx; pk_allowedWorkingPaths := Some (allowedWorkingPaths ctx);
     pk_sandboxAllowPaths := Some (sandboxAllowPaths ctx); pk_dataDir := Some (dataDir ctx); pk_homeDir := Some (homeDir ctx);
     pk_agentName := agentName ctx; pk_trustedExactWritePaths := Some (trustedExactWritePaths ctx) |}.

Definition effectiveTool (action : PathCapabilityAction) (options : PathCapabilityOptions) : jstr :=
  default (pathActionToToolName action) (co_toolName options).

Definition isFsUmbrellaAllow (r : PermissionRule) : bool :=
  str_eqb (toolName (ruleValue r)) FS_UMBRELLA_TOOL_NAME && bool_decide (ruleBehavior r = Allow).

(** The rules of the capability: no umbrella allows an execution. *)
Definition capabilityRules (action : PathCapabilityAction) (ctx : ToolPermissionContext) : list PermissionRule :=
  if bool_decide (action = cap_execute) then List.filter (fun r => negb (isFsUmbrellaAllow r)) (rules ctx) else rules ctx.

Definition pathResult (filePath : jstr) (action : PathCapabilityAction) (ctx : ToolPermissionContext)
    (options : PathCapabilityOptions) : PathPermissionResult :=
  isPathAllowed filePath (capabilityRules action ctx) (pathContext ctx) (effectiveTool action options) (Some (ruleAction action)).

(** ** The branches *)
Definition hardBlocked (filePath : jstr) (action : PathCapabilityAction) (ctx : ToolPermissionContext)
    (options : PathCapabilityOptions) (candidatePath : jstr) (hit : jstr * jstr) : ToolCheckResult :=
  let description := formatHardBlockedFsReason (fst hit) (snd hit) candidatePath in
  match matchOriginToolPathRule ctx (co_originToolName options) filePath (ruleAction action) false with
  | Some Deny =>
      suggesting Deny (ReasonSafetyCheck description None (Some (fst hit))) None None filePath (ruleAction action) ctx
  | Some Allow => plainly Allow (ReasonSafetyCheck description (Some true) (Some (fst hit)))
  | _ =>
      suggesting Ask (ReasonSafetyCheck description (Some true) (Some (fst hit))) (Some true) None filePath (ruleAction action) ctx
  end.

(** A sensitive file, for which the reason is a safety check. *)
Definition safetyAsk (filePath : jstr) (action : PathCapabilityAction) (ctx : ToolPermissionContext)
    (options : PathCapabilityOptions) (reason : DecisionReason) (approvable : option bool) (category : option jstr) : ToolCheckResult :=
  let tool := effectiveTool action options in
  let bypassAllowed :=
    bool_decide (mode ctx = bypassPermissions)
    || mem tool READ_ONLY_TOOLS
       && (bool_decide (category = Some (js "gitDirectory"))
           || bool_decide (category = Some (js "protectedDirectory")) && isPublicKeyFile filePath) in
  let wouldBeBypassImmune := if bool_decide (approvable = Some true) then true else negb bypassAllowed in
  match matchOriginToolPathRule ctx (co_originToolName options) filePath (ruleAction action) false with
  | Some Deny => suggesting Deny reason None None filePath (ruleAction action) ctx
  | Some Allow => plainly Allow reason
  | _ =>
      let umbrellaRules :=
        if negb (str_eqb tool FS_UMBRELLA_TOOL_NAME) && negb (bool_decide (action = cap_execute))
        then getContentRulesForTool ctx FS_UMBRELLA_TOOL_NAME Allow else [] in
      match (if wouldBeBypassImmune
             then contentRuleCovers (getContentRulesForTool ctx tool Allow ++ umbrellaRules) (ruleAction action) filePath
             else None) with
      | Some rule => plainly Allow (ReasonRule rule)
      | None =>
          suggesting Ask reason (Some wouldBeBypassImmune) (if bool_decide (approvable = Some false) then Some true else None)
            filePath (ruleAction action) ctx
      end
  end.

Definition evaluatePathCapability (filePath : jstr) (action : PathCapabilityAction) (ctx : ToolPermissionContext)
    (options : PathCapabilityOptions) : ToolCheckResult :=
  let candidatePath := resolveShellAwarePath filePath (workingDirectory ctx) (homeDir ctx) in
  let suggest b reason := suggesting b reason None None filePath (ruleAction action) ctx in
  match matchHardBlockedFsRead candidatePath with
  | Some hit => hardBlocked filePath action ctx options candidatePath hit
  | None =>
      if bool_decide (action = cap_execute) && negb (isStaticPathToken filePath) then
        plainly Ask (ReasonSafetyCheck (js "Running a script from an unresolved dynamic path (" ++ filePath ++ js ") requires confirmation.")
                       (Some true) None)
      else if bool_decide (action = cap_delete) && isDangerousRemovalPath filePath (Some (homeDir ctx)) then
        suggest Deny (ReasonDangerousRemoval candidatePath)
      else
        let result := pathResult filePath action ctx options in
        if pp_allowed result then
          match matchOriginToolPathRule ctx (co_originToolName options) filePath (ruleAction action) false with
          | Some Deny => suggest Deny (pp_reason result)
          | _ => plainly Allow (pp_reason result)
          end
        else
          match pp_reason result with
          | ReasonSafetyCheck _ approvable category => safetyAsk filePath action ctx options (pp_reason result) approvable category
          | ReasonWorkingDirectory resolved =>
              if isTrue (co_allowTempWrite options) && negb (bool_decide (action = cap_read)) && isTempDirectory resolved
              then plainly Allow (ReasonTempDirectory resolved)
              else match matchOriginToolPathRule ctx (co_originToolName options) filePath (ruleAction action) true with
                   | Some Allow => plainly Allow (pp_reason result)
                   | Some Deny => suggest Deny (pp_reason result)
                   | _ => suggest Ask (pp_reason result)
                   end
          | _ => suggest Deny (pp_reason result)
          end
  end.
End PathCapability.
