(* ===== verification/FsChecker.v ===== *)
(** * The permission checker of the file tools

    [FsToolPermissionChecker] of
    [packages/agent-modules/permission/src/tools/fs-checker.ts] and the files it
    records as written, [written-files-registry.ts]. *)
From S2P Require Import Prelude JsValue PermTypes PermContext PermissionEngine ShellTokenize ShellSplit BashPaths FsPath FsPermission PathCapability.

(** ** Written files *)

(** By session, the resolved paths. *)
Abbreviation WrittenFiles := (jmap jstr (list jstr)) (only parsing).

Section Registry.
Context `{FsHost}.

Definition recordWrite (registry : WrittenFiles) (session absPath : jstr) : WrittenFiles :=
  if negb (truthy session) || negb (truthy absPath) then registry
  else
    let resolved := posix_resolve [absPath] in
    let set := default [] (jget session registry) in
    jset session (if mem resolved set then set else set ++ [resolved]) registry.

Definition hasWritten (registry : WrittenFiles) (session : option jstr) (absPath : jstr) : bool :=
  match session with
  | None | Some [] => false
  | Some session =>
      if negb (truthy absPath) then false
      else match jget session registry with None => false | Some set => mem (posix_resolve [absPath]) set end
  end.

Definition clearSession (registry : WrittenFiles) (session : jstr) : WrittenFiles :=
  if negb (truthy session) then registry else jdel session registry.

(** ** The checker *)
Definition WRITE_TOOLS : list jstr := [js "edit"; js "write"; js "append"].

Definition toolActionForFsTool (tool : jstr) : PathCapabilityAction := if mem tool WRITE_TOOLS then cap_write else cap_read.

Definition stringField (key : jstr) (input : ToolInput) : option jstr :=
  match as_string (jget key input) with Some (c :: s) => Some (c :: s) | _ => None end.

Definition extractFilePath (input : ToolInput) : option jstr :=
  match stringField (js "file_path") input with
  | Some path => Some path
  | None => match stringField (js "filePath") input with Some path => Some path | None => stringField (js "path") input end
  end.

Definition globDenied (tool : jstr) (input : ToolInput) : option ToolCheckResult :=
  if str_eqb tool (js "glob") then
    match stringField (js "pattern") input with
    | Some pattern =>
        match validateGlobPattern pattern with
        | Some error => Some (plainly Deny (ReasonPathValidation error))
        | None => None
        end
    | None => None
    end
  else None.

(** The file the call is about: directory tools default to the workspace. *)
Definition filePathOf (tool : jstr) (input : ToolInput) (ctx : ToolPermissionContext) : option jstr :=
  match extractFilePath input with
  | Some path => Some path
  | None =>
      if mem tool [js "grep"; js "glob"; js "list"] && truthy (workingDirectory ctx) then Some (workingDirectory ctx) else None
  end.

Definition fsOptions (tool : jstr) : PathCapabilityOptions :=
  {| co_toolName := Some tool; co_allowTempWrite := None; co_originToolName := None |}.

Definition maybeRecordWrite (registry : WrittenFiles) (tool filePath : jstr) (ctx : ToolPermissionContext) : WrittenFiles :=
  if mem tool WRITE_TOOLS && otruthy (sessionId ctx) then recordWrite registry (default [] (sessionId ctx)) filePath else registry.

(** The result, and the registry afterwards. *)
Definition fsCheckPermissions (registry : WrittenFiles) (tool : jstr) (input : ToolInput) (ctx : ToolPermissionContext) :
    option ToolCheckResult * WrittenFiles :=
  match globDenied tool input with
  | Some denied => (Some denied, registry)
  | None =>
      match filePathOf tool input ctx with
      | None => (None, registry)
      | Some filePath =>
          let decision := evaluatePathCapability filePath (toolActionForFsTool tool) ctx (fsOptions tool) in
          (Some decision,
           if bool_decide (tc_behavior decision = Checked Allow) then maybeRecordWrite registry tool filePath ctx else registry)
      end
  end.

(** As the engine sees it. *)
Definition fsChecker : Checker := fun tool input ctx => Returned (fst (fsCheckPermissions [] tool input ctx)).

Definition fsGenerateSuggestionRules (filePath : jstr) : list jstr := generateSuggestionRules filePath None None.

(** ** Laws *)
Lemma result_ignores_registry r1 r2 tool input ctx :
  fst (fsCheckPermissions r1 tool input ctx) = fst (fsCheckPermissions r2 tool input ctx).
Proof. unfold fsCheckPermissions. by repeat case_goal. Qed.

Lemma hasWritten_record registry s path session path' : truthy s = true -> truthy path = true ->
  hasWritten (recordWrite registry s path) session path' = true <->
  hasWritten registry session path' = true
  \/ session = Some s /\ truthy path' = true /\ posix_resolve [path'] = posix_resolve [path].
Proof.
  intros Hs Hp. unfold hasWritten, recordWrite. rewrite Hs, Hp. cbn [negb orb].
  destruct session as [[|c t]|]; [naive_solver| |naive_solver].
  destruct (truthy path'); cbn [negb]; [|naive_solver]. rewrite jget_jset. destruct (decide (c :: t = s)) as [<-|Hne].
  - set (x := posix_resolve [path']). set (y := posix_resolve [path]).
    assert (mem x (if mem y (default [] (jget (c :: t) registry)) then default [] (jget (c :: t) registry)
                   else default [] (jget (c :: t) registry) ++ [y]) = true
            <-> mem x (default [] (jget (c :: t) registry)) = true \/ x = y) as ->.
    { unfold mem. destruct (bool_decide (y ∈ _)) eqn:Hin; rewrite !bool_decide_eq_true; reflect_bools.
      - split; [by left|]. by intros [?| ->].
      - by rewrite elem_of_app, list_elem_of_singleton. }
    destruct (jget (c :: t) registry); cbn [default from_option id].
    + split; [intros [?|?]; auto|intros [?|(_ & _ & ?)]; auto].
    + change (mem x []) with false. split; [intros [?|?]; auto|intros [?|(_ & _ & ?)]; auto].
  - split; [by left|]. intros [?|(E & _)]; [done|congruence].
Qed.

Lemma hasWritten_clear registry s session path : truthy s = true ->
  hasWritten (clearSession registry s) session path = true <-> hasWritten registry session path = true /\ session <> Some s.
Proof.
  intros Hs. unfold hasWritten, clearSession. rewrite Hs. cbn [negb]. destruct session as [[|c t]|]; [naive_solver| |naive_solver].
  rewrite jget_jdel. destruct (decide (c :: t = s)) as [<-|Hne]; destruct (truthy path); cbn [negb]; naive_solver.
Qed.

(** A session of calls: checks, and the end of a session. *)
Inductive FsCall :=
  | FsCheck (tool : jstr) (input : ToolInput) (ctx : ToolPermissionContext)
  | FsEnd (session : jstr).

Definition fsStep (registry : WrittenFiles) (call : FsCall) : WrittenFiles :=
  match call with
  | FsCheck tool input ctx => snd (fsCheckPermissions registry tool input ctx)
  | FsEnd session => clearSession registry session
  end.

Definition written (calls : list FsCall) : WrittenFiles := fold_left fsStep calls [].

(** The call is a check of a write tool that lets the session write the file. *)
Definition letsWrite (session path : jstr) (call : FsCall) : Prop :=
  match call with
  | FsCheck tool input ctx =>
      mem tool WRITE_TOOLS = true /\ sessionId ctx = Some session
      /\ (exists r, fst (fsCheckPermissions [] tool input ctx) = Some r /\ tc_behavior r = Checked Allow)
      /\ exists f, filePathOf tool input ctx = Some f /\ posix_resolve [f] = posix_resolve [path]
  | FsEnd _ => False
  end.

Lemma no_glob tool input : mem tool WRITE_TOOLS = true -> globDenied tool input = None.
Proof.
  intros Hw. unfold globDenied, str_eqb. case_bool_decide as Hg; [|done]. subst. by vm_compute in Hw.
Qed.

Lemma filePath_truthy tool input ctx f : filePathOf tool input ctx = Some f -> truthy f = true.
Proof.
  unfold filePathOf, extractFilePath, stringField. intros Hf. repeat case_hyp Hf; simplify_eq; try done; by reflect_bools.
Qed.

Lemma step_written registry call session path : truthy session = true -> truthy path = true ->
  hasWritten (fsStep registry call) (Some session) path = true <->
  letsWrite session path call \/ hasWritten registry (Some session) path = true /\ call <> FsEnd session.
Proof.
  intros Hs Hp. destruct call as [tool input ctx|s]; cbn [fsStep letsWrite].
  - rewrite (result_ignores_registry [] registry). unfold fsCheckPermissions.
    destruct (globDenied tool input) as [d|] eqn:Hg; cbn [fst snd].
    { split; [by right|]. intros [(Hw & _)|[? _]]; [|done]. by rewrite no_glob in Hg. }
    destruct (filePathOf tool input ctx) as [f|] eqn:Hf; cbn [fst snd]; [|naive_solver].
    pose proof (filePath_truthy _ _ _ _ Hf) as Hft. case_bool_decide as Ha; [|naive_solver]. unfold maybeRecordWrite.
    destruct (mem tool WRITE_TOOLS) eqn:Hw; cbn [andb]; [|naive_solver]. destruct (sessionId ctx) as [[|c t]|]; cbn [otruthy truthy].
    + split; [by right|]. intros [(_ & [= <-] & _)|[? _]]; done.
    + cbn [default from_option id]. rewrite hasWritten_record by done. split.
      * intros [?|([= <-] & _ & E)]; [by right|]. left. repeat split; [by eexists|by exists f].
      * intros [(_ & [= <-] & _ & g & [= <-] & E)|[? _]]; [right|by left]. done.
    + split; [by right|]. intros [(_ & ? & _)|[? _]]; done.
  - destruct (truthy s) eqn:Ht.
    + rewrite hasWritten_clear by done. naive_solver.
    + unfold clearSession. rewrite Ht. cbn [negb]. split; [|naive_solver]. intros ?. right. split; [done|]. intros [= ->]. by rewrite Hs in Ht.
Qed.

(** the registry of written files is exact: after any checks and ends of sessions,
    a file counts as written by a session exactly when some check of a write tool in
    that session let it be written and the session has not ended since. *)
Theorem written_files_are_exact calls session path : truthy session = true -> truthy path = true ->
  hasWritten (written calls) (Some session) path = true <->
  exists before call after, calls = before ++ call :: after /\ letsWrite session path call /\ FsEnd session ∉ after.
Proof.
  intros Hs Hp. unfold written. induction calls as [|call calls IH] using rev_ind.
  - unfold hasWritten. cbn. destruct session; [done|]. rewrite Hp. split; [done|]. intros (before & call & after & E & _). by destruct before.
  - rewrite fold_left_app. cbn [fold_left]. rewrite step_written, IH by done. split.
    + intros [Hl|[(before & c & after & -> & Hl & Hn) Hc]].
      * exists calls, call, []. split; [done|]. split; [done|]. by intros ?%elem_of_nil.
      * exists before, c, (after ++ [call]). rewrite <- app_assoc. split; [done|]. split; [done|]. set_solver.
    + intros (before & c & after & E & Hl & Hn). destruct after as [|d after _] using rev_ind.
      * apply app_inj_tail in E as [_ ->]. by left.
      * rewrite app_comm_cons, app_assoc in E. apply app_inj_tail in E as [-> ->]. right. split; [|set_solver].
        exists before, c, after. split; [done|]. split; [done|]. set_solver.
Qed.
End Registry.

(** ** Witness *)
#[local] Instance checkedFs : FsHost :=
  {| cwd := js "/daemon"; os_tmpdir := js "/tmp"; os_homedir := js "/home/u"; darwin := false;
     realpathSync := Some; lowerCase := id |}.

Definition checkedContext : ToolPermissionContext :=
  {| mode := mode_default; rules := []; sandboxEnabled := false; autoAllowBashIfSandboxed := false; platform := js "linux";
     shellFamily := posix; workingDirectory := js "/w"; allowedWorkingPaths := []; sandboxAllowPaths := [];
     trustedExactWritePaths := []; dataDir := js "/data"; homeDir := js "/home/u"; isFile := None; agentName := None;
     sessionId := Some (js "s1"); allowManagedPermissionRulesOnly := false; interactiveTools := [] |}.

Definition writeOf (path : jstr) : FsCall := FsCheck (js "write") [(js "file_path", JStr path)] checkedContext.

Lemma written_files_are_exact_witness :
  hasWritten (written [writeOf (js "/w/run.sh"); FsEnd (js "s2")]) (Some (js "s1")) (js "/w/run.sh") = true.
Proof.
  apply (written_files_are_exact [writeOf (js "/w/run.sh"); FsEnd (js "s2")] (js "s1") (js "/w/run.sh")).
  - done.
  - done.
  - exists [], (writeOf (js "/w/run.sh")), [FsEnd (js "s2")]. split; [done|]. split.
    + split; [done|]. split; [done|]. split; [eexists; split; [reflexivity|by vm_compute]|].
      exists (js "/w/run.sh"). by split.
    + by intros [?|?%elem_of_nil]%elem_of_cons.
Defined.

(** A file written by a relative name is recorded under the directory the program was
    started in: the script of the workspace is not taken for written, and one that was
    never written is. *)
Lemma relative_write_is_recorded_elsewhere :
  let registry := written [writeOf (js "run.sh")] in
  hasWritten registry (Some (js "s1")) (js "/w/run.sh") = false
  /\ hasWritten registry (Some (js "s1")) (js "/daemon/run.sh") = true.
Proof. by vm_compute. Qed.
