(* ===== verification/PathLaws.v ===== *)
(** * What the path capabilities allow

    The theorems on [FsPermission] and [PathCapability]: rules and directories
    cover files by their segments, nothing is allowed without a ground, secrets
    need a rule that names them, rules only ever restrict, an execution is not
    allowed by rules for files, and an approval is not asked for twice. *)
From S2P Require Import Prelude PermTypes PermContext ShellTokenize ShellSplit BashAst BashWrappers BashPaths FsPath FsPermission PathCapability.

Section Segments.
Context `{FsHost}.

(** The segments a path names. *)
Definition named (p : jstr) : list jstr := resolveSegs [p].

(** A directory and everything below it; the code takes nothing to be below the root. *)
Definition covers (d p : list jstr) : Prop := p = d \/ d <> [] /\ below d p.

Lemma named_clean p : clean (named p).
Proof. apply resolve_clean. Qed.
#[local] Hint Resolve named_clean resolve_clean : core.

Lemma named_abs p : clean p -> named (absPath p) = p.
Proof. apply resolve_canonical. Qed.

Lemma absPath_eqb a b : clean a -> clean b -> str_eqb (absPath a) (absPath b) = true <-> a = b.
Proof.
  intros Ha Hb. unfold str_eqb. rewrite bool_decide_eq_true. split; [by apply absPath_inj|by intros ->].
Qed.

Lemma atOrUnder_covers d p : clean d -> clean p -> atOrUnder (absPath p) (absPath d) = true <-> covers d p.
Proof.
  intros Hd Hp. unfold atOrUnder, covers. by rewrite orb_true_iff, absPath_eqb, startsWith_below.
Qed.

Lemma working_covers f d : pathInWorkingPath f d = true <-> covers (named d) (named f).
Proof. unfold pathInWorkingPath, posix_resolve. by apply atOrUnder_covers. Qed.

Lemma allowed_covers f ds : pathInAllowedWorkingPath f ds = true <-> exists d, d ∈ ds /\ covers (named d) (named f).
Proof.
  unfold pathInAllowedWorkingPath. rewrite existsb_exists. split; intros (d & Hd & Hc); exists d.
  - split; [by apply list_elem_of_In|by apply working_covers].
  - split; [by apply list_elem_of_In|by apply working_covers].
Qed.

(** ** Rules *)

(** The files a rule with this content is for. *)
Definition ruleCovers (content : jstr) (p : list jstr) : Prop :=
  if endsWith content (js "/**") then covers (named (take (length content - 3) content)) p
  else if endsWith content (js "/*") then
    let d := named (take (length content - 2) content) in (exists x, p = d ++ [x]) \/ d = [] /\ p = []
  else p = named content.

Lemma dirname_covers p d : clean p -> clean d ->
  str_eqb (posix_dirname (absPath p)) (absPath d) = true <-> (exists x, p = d ++ [x]) \/ d = [] /\ p = [].
Proof.
  intros Hp Hd. destruct p as [|x p _] using rev_ind.
  - change (posix_dirname (absPath [])) with (absPath []). rewrite absPath_eqb by done. split.
    + intros <-. by right.
    + intros [[x E]|[-> _]]; [|done]. by destruct d.
  - apply Forall_app in Hp as [Hp Hx]. apply Forall_cons in Hx as [Hx _].
    rewrite dirname_segment, absPath_eqb by done. split.
    + intros ->. left. by exists x.
    + intros [[y E]|[-> E]]; [by apply app_inj_tail in E as [-> _]|by destruct p].
Qed.

Lemma star_alone content : endsWith content (js "/*") = true -> endsWith content (js "**") = false.
Proof. unfold endsWith. rewrite startsWith_prefix. by intros [s ->]. Qed.

Lemma rules_cover filePath content : matchPathRule filePath content = true <-> ruleCovers content (named filePath).
Proof.
  unfold matchPathRule, ruleCovers, posix_resolve. destruct (endsWith content (js "/**")) eqn:E3.
  - rewrite orb_comm. apply atOrUnder_covers; auto.
  - destruct (endsWith content (js "/*")) eqn:E2; cbn [andb].
    + rewrite star_alone by done. cbn [negb]. apply dirname_covers; auto.
    + apply absPath_eqb; auto.
Qed.

(** The text in front of the stars of a rule, which names a directory. *)
Definition starDirectory (content : jstr) : option jstr :=
  if endsWith content (js "/**") then Some (take (length content - 3) content)
  else if endsWith content (js "/*") then Some (take (length content - 2) content)
  else None.

(** The three documented forms of a rule, on segments. *)
Definition documented (content : jstr) (p : list jstr) : Prop :=
  match starDirectory content with
  | Some d => if endsWith content (js "/**") then exists s, p = named d ++ s else exists x, p = named d ++ [x]
  | None => p = named content
  end.

(** C17: path rules cover files by their segments: whatever the text of a rule and of
    a path, a rule ending in a double star covers the directory and everything below
    it, one ending in a single star what is directly in it, and any other the one
    file, and never a file that only shares a prefix of its name; provided that the
    text in front of the stars is not empty and names another directory than the
    root.  Relative texts are those of the directory of the process. *)
Theorem rules_cover_by_segments filePath content :
  (forall d, starDirectory content = Some d -> d <> [] /\ named d <> []) ->
  matchPathRule filePath content = true <-> documented content (named filePath).
Proof.
  intros Hd. rewrite rules_cover. unfold ruleCovers, documented, starDirectory, covers, below in *.
  destruct (endsWith content (js "/**")).
  - destruct (Hd _ eq_refl) as [_ Hn]. split.
    + intros [->|(_ & s & _ & ->)]; [exists []; by rewrite app_nil_r|by exists s].
    + intros ([|x s] & ->); [left; by rewrite app_nil_r|right]. split; [done|]. by exists (x :: s).
  - destruct (endsWith content (js "/*")); [|done]. destruct (Hd _ eq_refl) as [_ Hn]. cbv zeta. naive_solver.
Qed.
End Segments.

(** ** Grounds *)
Section Grounds.
Context `{FsHost}.
#[local] Hint Resolve named_clean resolve_clean : core.

(** The directories whose files are read without a question. *)
Definition readableDirectories (ctx : ToolPermissionContext) : list (list jstr) :=
  [named os_tmpdir; [js "tmp"]; named (js "/usr/share/doc"); named (js "/usr/local/share/doc")]
  ++ (if truthy (homeDir ctx) then map (fun d => named (homeDir ctx) ++ [d]) WELL_KNOWN_HOME_READ_DIRS else []).

(** The rule is one of the capability, of the umbrella, or of the tool that asks or its server. *)
Definition speaksFor (tool : jstr) (origin : option jstr) (action : PathCapabilityAction) (r : PermissionRule) : Prop :=
  let name := toolName (ruleValue r) in
  name = tool \/ (name = FS_UMBRELLA_TOOL_NAME /\ action <> cap_execute)
  \/ exists o, origin = Some o /\ (name = o \/ matchesMcpServerRuntimeName o name = true).

(** The rule is for the whole tool, or its content covers the file. *)
Definition applies (r : PermissionRule) (p : list jstr) : Prop :=
  match ruleContent (ruleValue r) with
  | Some (c :: content) => ruleCovers (c :: content) p
  | _ => True
  end.

(** Why an action on a file is allowed. *)
Inductive Ground (ctx : ToolPermissionContext) (tool : jstr) (origin : option jstr) (tempWrite : bool)
    (action : PathCapabilityAction) (p : list jstr) : Prop :=
  | ground_rule r : r ∈ rules ctx -> ruleBehavior r = Allow -> speaksFor tool origin action r -> applies r p ->
      Ground ctx tool origin tempWrite action p
  | ground_directory d : d ∈ workingDirectory ctx :: allowedWorkingPaths ctx ++ sandboxAllowPaths ctx ->
      covers (named d) p -> Ground ctx tool origin tempWrite action p
  | ground_readable d : tool ∈ READ_ONLY_TOOLS -> d ∈ readableDirectories ctx -> covers d p ->
      Ground ctx tool origin tempWrite action p
  | ground_temporary d : tempWrite = true -> action <> cap_read -> d ∈ [named os_tmpdir; [js "tmp"]] -> covers d p ->
      Ground ctx tool origin tempWrite action p
  | ground_trusted f : tool ∈ [js "write"; js "edit"] -> f ∈ trustedExactWritePaths ctx -> named f = p ->
      Ground ctx tool origin tempWrite action p
  | ground_own : isInternalWhitelistedPath (absPath p) (pathContext ctx) = true -> Ground ctx tool origin tempWrite action p.

(** The code reads a path in three ways, with the home directory and the directory
    of the session, for the shell, and against its own directory.  [reads]: the first
    two agree on the file; [denotes]: all three do, as for every ordinary absolute path
    ([absolute_denotes]). *)
Definition reads (ctx : ToolPermissionContext) (f : jstr) (p : list jstr) : Prop :=
  clean p /\ validatePath f (Some (workingDirectory ctx)) (Some (homeDir ctx)) = inr (absPath p)
  /\ resolveShellAwarePath f (workingDirectory ctx) (homeDir ctx) = absPath p.

Definition denotes (ctx : ToolPermissionContext) (f : jstr) (p : list jstr) : Prop := reads ctx f p /\ named f = p.

(** Units that no reading of a path treats in its own way. *)
Definition ordinaryUnit (c : jchar) : Prop := c <> 0%N /\ c <> ch "$" /\ c <> backtick /\ c <> backslash.

Lemma no_unit (c : jchar) s : c ∉ s -> existsb (N.eqb c) s = false.
Proof.
  intros Hn. apply not_true_iff_false. intros (d & Hd & ->%N.eqb_eq)%existsb_exists. by apply Hn, list_elem_of_In.
Qed.

Lemma no_dollar f s : ch "$" ∉ s -> dollarBefore f s = false.
Proof.
  induction s as [|c s IH]; [done|]. rewrite not_elem_of_cons. intros [Hc Hs]. cbn [dollarBefore].
  destruct (N.eqb_spec c (ch "$")) as [->|]; [done|]. by apply IH.
Qed.

Lemma no_backtick s : backtick ∉ s -> backticks s = false.
Proof.
  unfold backticks. induction s as [|c s IH]; [done|]. rewrite not_elem_of_cons. intros [Hc Hs]. cbn [dropWhile].
  destruct (N.eqb_spec c backtick) as [->|]; [done|]. by apply IH.
Qed.

Lemma slashes_ordinary s : backslash ∉ s -> slashes s = s.
Proof.
  induction s as [|c s IH]; [done|]. rewrite not_elem_of_cons. intros [Hc Hs]. unfold slashes in *. cbn [map]. rewrite IH by done.
  by destruct (N.eqb_spec c backslash) as [->|].
Qed.

(** An absolute path in canonical form names its file in all three readings. *)
Lemma absolute_denotes ctx p : clean p -> trim (absPath p) = absPath p -> Forall ordinaryUnit (absPath p) -> denotes ctx (absPath p) p.
Proof.
  intros Hp Ht Hu. rewrite Forall_forall in Hu.
  assert (0%N ∉ absPath p /\ ch "$" ∉ absPath p /\ backtick ∉ absPath p /\ backslash ∉ absPath p) as (H0 & Hd & Hb & Hs).
  { split_and!; intros Hin%Hu; by destruct Hin as (? & ? & ? & ?). }
  assert (containsPathTraversal (absPath p) = false) as Htr.
  { unfold containsPathTraversal. rewrite slashes_ordinary, splitSlash_abs by done. cbn [existsb]. change (str_eqb (js "..") []) with false.
    destruct p as [|x p]; [done|]. apply not_true_iff_false. intros (y & Hy%list_elem_of_In & E)%existsb_exists.
    unfold str_eqb in E. apply bool_decide_eq_true in E as <-. unfold clean in Hp. rewrite Forall_forall in Hp. by destruct (Hp _ Hy) as (_ & _ & _ & ?). }
  assert (containsVulnerableUncPath (absPath p) = false) as Hunc.
  { destruct p as [|x p]; [done|]. apply Forall_cons in Hp as [(Hx & Hsl & _) _]. destruct x as [|c x]; [done|]. apply not_elem_of_cons in Hsl as [Hc _].
    assert (exists t, absPath ((c :: x) :: p) = slash :: c :: t) as [t ->] by (destruct p; by eexists).
    unfold containsVulnerableUncPath. destruct t; [done|]. destruct (N.eqb_spec c slash) as [->|]; [by destruct Hc|].
    by rewrite andb_false_r. }
  repeat split; [done| | |by apply named_abs].
  - unfold validatePath, shellExpansion, SHELL_EXPANSION_PATTERNS. rewrite Ht, no_unit by done. cbn [List.find fst snd].
    change (startsWith (absPath p) (js "~")) with false. change (truthy (absPath p)) with true. cbn [negb].
    rewrite Hunc, !no_dollar, no_backtick, Htr, absPath_absolute by done. unfold posix_resolve. by rewrite resolve_canonical.
  - unfold resolveShellAwarePath. rewrite (no_unit backslash) by done. unfold posix_resolve.
    assert (isDrivePath (absPath p) = false) as -> by (unfold isDrivePath, absPath; by destruct (join _ _) as [|? [|]]).
    change (str_eqb (absPath p) (js "~")) with (bool_decide (absPath p = js "~")). rewrite bool_decide_eq_false_2 by done.
    change (startsWith (absPath p) (js "~/")) with false. cbn [orb andb].
    rewrite resolve_under by apply absPath_absolute. by rewrite resolve_canonical.
Qed.

Lemma reads_clean ctx f p : reads ctx f p -> clean p.
Proof. by intros (? & _ & _). Qed.

Lemma reads_shell ctx f p : reads ctx f p -> resolveShellAwarePath f (workingDirectory ctx) (homeDir ctx) = absPath p.
Proof. by intros (_ & _ & ?). Qed.

Lemma denotes_clean ctx f p : denotes ctx f p -> clean p.
Proof. by intros [(? & _ & _) _]. Qed.

Lemma denotes_shell ctx f p : denotes ctx f p -> resolveShellAwarePath f (workingDirectory ctx) (homeDir ctx) = absPath p.
Proof. by intros [(_ & _ & ?) _]. Qed.

Lemma applies_match r p : clean p -> applies r p <->
  negb (otruthy (ruleContent (ruleValue r))) || matchPathRule (absPath p) (default [] (ruleContent (ruleValue r))) = true.
Proof.
  intros Hp. unfold applies. destruct (ruleContent (ruleValue r)) as [[|c s]|]; [done| |done].
  cbn [otruthy truthy negb orb default]. by rewrite rules_cover, named_abs.
Qed.

Lemma firstPathRule_some b rs p r : clean p -> firstPathRule b rs (absPath p) = Some r ->
  r ∈ rs /\ ruleBehavior r = b /\ applies r p.
Proof.
  intros Hp [Hr Hb]%List.find_some. rewrite andb_true_iff, bool_decide_eq_true in Hb. destruct Hb as [Hb Hm].
  by rewrite applies_match, list_elem_of_In.
Qed.

Lemma contentRuleCovers_some rs action f r : contentRuleCovers rs action f = Some r ->
  r ∈ rs /\ ruleAllowsPathAction r action = true /\ otruthy (ruleContent (ruleValue r)) = true /\ applies r (named f).
Proof.
  intros [Hr Hb]%List.find_some. reflect_bools. rewrite list_elem_of_In. repeat split; [done..|].
  unfold applies. destruct (ruleContent (ruleValue r)) as [[|c s]|]; [done| |done]. by apply rules_cover.
Qed.

Lemma content_rule ctx tool b r : r ∈ getContentRulesForTool ctx tool b ->
  r ∈ rules ctx /\ toolName (ruleValue r) = tool /\ ruleBehavior r = b.
Proof.
  unfold getContentRulesForTool. rewrite list_elem_of_In, filter_In, <- list_elem_of_In. intros [Hr Hb]. reflect_bools.
  unfold str_eqb in *. by reflect_bools.
Qed.

Lemma whole_rule_iff c tool b : hasWholeToolOrMcpServerRule c tool b = true <->
  exists r, r ∈ rules c /\ ruleBehavior r = b /\ otruthy (ruleContent (ruleValue r)) = false
    /\ (toolName (ruleValue r) = tool \/ startsWith tool (js "mcp__") = true /\ matchesMcpServerRuntimeName tool (toolName (ruleValue r)) = true).
Proof.
  unfold hasWholeToolOrMcpServerRule. rewrite orb_true_iff, bool_decide_eq_true, andb_true_iff. split.
  - intros [[r Hr]|[Hm (r & Hr & Hb)%existsb_exists]].
    + apply List.find_some in Hr as [Hr Hb]. reflect_bools. unfold str_eqb in *. reflect_bools. exists r. rewrite list_elem_of_In. auto.
    + reflect_bools. exists r. rewrite list_elem_of_In. auto 10.
  - intros (r & Hr & Hb & Hc & [Ht|[Hm Hn]]).
    + left. unfold hasWholeToolRule. destruct (List.find _ _) as [x|] eqn:Hx; [by eexists|]. exfalso.
      apply list_elem_of_In in Hr. pose proof (List.find_none _ _ Hx r Hr) as Hn. unfold str_eqb in Hn.
      by rewrite Ht, Hb, Hc, !bool_decide_eq_true_2 in Hn.
    + right. split; [done|]. apply existsb_exists. exists r. rewrite <- list_elem_of_In. split; [done|].
      by rewrite Hb, Hc, Hn, bool_decide_eq_true_2.
Qed.

Lemma applies_whole r p : otruthy (ruleContent (ruleValue r)) = false -> applies r p.
Proof. unfold applies. by destruct (ruleContent (ruleValue r)) as [[|? ?]|]. Qed.

(** ** Where the grounds come from *)
Lemma origin_content ctx origin f act p b : clean p -> resolveShellAwarePath f (workingDirectory ctx) (homeDir ctx) = absPath p ->
  matchOriginToolPathRule ctx origin f act false = Some b ->
  exists r o, origin = Some o /\ mem o [js "read"; js "write"; FS_UMBRELLA_TOOL_NAME] = false /\ r ∈ rules ctx
    /\ ruleBehavior r = b /\ toolName (ruleValue r) = o
    /\ ruleAllowsPathAction r act = true /\ otruthy (ruleContent (ruleValue r)) = true /\ applies r p.
Proof.
  intros Hp Hf. unfold matchOriginToolPathRule. destruct origin as [[|c o]|]; [done| |done].
  destruct (mem (c :: o) _) eqn:Ho; [done|]. cbn [andb]. rewrite Hf. intros Hm.
  assert (exists r, contentRuleCovers (getContentRulesForTool ctx (c :: o) b) act (absPath p) = Some r) as [r Hr].
  { repeat case_hyp Hm; simplify_eq; eauto. }
  apply contentRuleCovers_some in Hr as (Hr & Ha & Hc & Hap). apply content_rule in Hr as (Hr & Ht & Hb).
  rewrite named_abs in Hap by done. exists r, (c :: o). by repeat split.
Qed.

Lemma origin_allows ctx origin f act p whole : clean p -> resolveShellAwarePath f (workingDirectory ctx) (homeDir ctx) = absPath p ->
  matchOriginToolPathRule ctx origin f act whole = Some Allow ->
  exists r o, origin = Some o /\ r ∈ rules ctx /\ ruleBehavior r = Allow /\ applies r p
    /\ (toolName (ruleValue r) = o \/ matchesMcpServerRuntimeName o (toolName (ruleValue r)) = true).
Proof.
  intros Hp Hf. unfold matchOriginToolPathRule. destruct origin as [[|c o]|]; [done| |done].
  destruct (mem (c :: o) _); [done|]. rewrite Hf. case_goal; [done|]. case_goal; [done|].
  destruct (whole && hasWholeToolOrMcpServerRule ctx (c :: o) Allow) eqn:Hw.
  - intros _. apply andb_true_iff in Hw as [_ (r & Hr & Hb & Ht & Hn)%whole_rule_iff]. exists r, (c :: o).
    repeat split; [done..|by apply applies_whole|]. destruct Hn as [?|[_ ?]]; auto.
  - destruct (contentRuleCovers (getContentRulesForTool ctx (c :: o) Allow) act (absPath p)) as [r|] eqn:Hc; [|done]. intros _.
    apply contentRuleCovers_some in Hc as ((Hr & Ht & Hb)%content_rule & _ & _ & Ha). rewrite named_abs in Ha by done.
    exists r, (c :: o). repeat split; [done..|by left].
Qed.

Lemma tmp_covers p : clean p -> isTempDirectory (absPath p) = true ->
  exists d, d ∈ [named os_tmpdir; [js "tmp"]] /\ covers d p.
Proof.
  intros Hp [Ht|Ht]%orb_true_iff.
  - exists (named os_tmpdir). split; [by left|]. apply atOrUnder_covers; auto.
  - exists [js "tmp"]. split; [by right; left|]. apply atOrUnder_covers; [|done|exact Ht].
    repeat constructor; by apply (bool_decide_unpack _).
Qed.

Lemma home_covers ctx p : clean p -> isWellKnownHomeReadAllowed (absPath p) (homeDir ctx) = true ->
  exists d, d ∈ readableDirectories ctx /\ covers d p.
Proof.
  intros Hp. unfold isWellKnownHomeReadAllowed, readableDirectories. destruct (truthy (homeDir ctx)); [|done].
  intros (d & Hd%list_elem_of_In & Hc)%existsb_exists. exists (named (homeDir ctx) ++ [d]). split.
  - apply elem_of_app. right. apply list_elem_of_fmap. by exists d.
  - assert (segment d) as Hs by (unfold WELL_KNOWN_HOME_READ_DIRS in Hd; rewrite !elem_of_cons in Hd;
      destruct Hd as [->|[->|Hd%elem_of_nil]]; [by apply (bool_decide_unpack _)..|done]).
    unfold posix_resolve in Hc. rewrite join_segment in Hc by auto.
    apply atOrUnder_covers in Hc; [done| |done]. apply Forall_app. split; [apply named_clean|by constructor].
Qed.

Lemma system_covers ctx p : clean p -> isWellKnownSystemReadAllowed (absPath p) = true ->
  exists d, d ∈ readableDirectories ctx /\ covers d p.
Proof.
  intros Hp (d & Hd%list_elem_of_In & Hc)%existsb_exists. exists (named d). split.
  - unfold WELL_KNOWN_SYSTEM_READ_DIRS in Hd. rewrite !elem_of_cons in Hd.
    destruct Hd as [->|[->|Hd%elem_of_nil]]; [|by right; right; right; left|done]. by right; right; left.
  - by apply atOrUnder_covers in Hc; auto.
Qed.

Lemma implicit_ground ctx tool origin temp action p reason : clean p ->
  implicitAllowance (absPath p) (pathContext ctx) tool = Some reason -> Ground ctx tool origin temp action p.
Proof.
  intros Hp. unfold implicitAllowance, pathContext.
  cbn [default from_option pk_trustedExactWritePaths pk_homeDir pk_workingDirectory pk_allowedWorkingPaths pk_sandboxAllowPaths].
  intros Hi. repeat case_hyp Hi; try done; reflect_bools; rewrite ?working_covers, ?allowed_covers, ?named_abs in * by done;
    repeat match goal with H : mem _ _ = true |- _ => apply bool_decide_eq_true in H end.
  - apply existsb_exists in H1 as (f & Hf & Hs). apply (ground_trusted _ _ _ _ _ _ f); [done|by apply list_elem_of_In|].
    unfold isSameResolvedPath, posix_resolve in Hs. apply absPath_eqb in Hs; auto. unfold named. by rewrite Hs, resolve_canonical.
  - apply tmp_covers in H1 as (d & Hd & Hc); [|done]. apply (ground_readable _ _ _ _ _ _ d); [done| |done].
    apply elem_of_app. left. rewrite !elem_of_cons in Hd |- *. destruct Hd as [->|[->|Hd%elem_of_nil]]; [by left|by right; left|done].
  - apply home_covers in H1 as (d & Hd & Hc); [|done]. by apply (ground_readable _ _ _ _ _ _ d).
  - apply (system_covers ctx) in H1 as (d & Hd & Hc); [|done]. by apply (ground_readable _ _ _ _ _ _ d).
  - apply (ground_directory _ _ _ _ _ _ (workingDirectory ctx)); [by left|done].
  - destruct Heqb4 as (d & Hd & Hc). apply (ground_directory _ _ _ _ _ _ d); [|done]. right. apply elem_of_app. by left.
  - destruct Heqb5 as (d & Hd & Hc). apply (ground_directory _ _ _ _ _ _ d); [|done]. right. apply elem_of_app. by right.
Qed.

Lemma tool_rule ctx tool action act r :
  r ∈ toolRulesFor (capabilityRules action ctx) tool act -> ruleBehavior r = Allow ->
  r ∈ rules ctx /\ ruleSupportsPathAction r act = true
  /\ (toolName (ruleValue r) = tool \/ toolName (ruleValue r) = FS_UMBRELLA_TOOL_NAME /\ action <> cap_execute).
Proof.
  unfold toolRulesFor, capabilityRules. rewrite list_elem_of_In, filter_In, andb_true_iff, orb_true_iff. unfold str_eqb.
  rewrite !bool_decide_eq_true. intros (Hr & Ht & Ha) Hb. case_bool_decide as He.
  - apply filter_In in Hr as [Hr Hn]. rewrite list_elem_of_In. split; [done|]. split; [done|]. destruct Ht as [Ht|Ht]; [by left|].
    exfalso. unfold isFsUmbrellaAllow, str_eqb in Hn. rewrite Ht, Hb, !bool_decide_eq_true_2 in Hn by done. done.
  - rewrite list_elem_of_In. naive_solver.
Qed.

(** The result of [isPathAllowed], once the path is read. *)
Lemma pathResult_denotes ctx f p action o : denotes ctx f p ->
  let tool := effectiveTool action o in
  let toolRules := toolRulesFor (capabilityRules action ctx) tool (Some (ruleAction action)) in
  let readOnly := mem tool READ_ONLY_TOOLS in
  let isInWorkDir := pathInWorkingPath (absPath p) (workingDirectory ctx)
                     || pathInAllowedWorkingPath (absPath p) (allowedWorkingPaths ctx) in
  pathResult f action ctx o =
  match firstPathRule Deny toolRules (absPath p) with
  | Some rule => refuse (ReasonRule rule)
  | None =>
      if readOnly && isProtectedRuntimeRead (absPath p) (pathContext ctx) (str_eqb tool (js "grep")) then
        refuse (ReasonSafetyCheck (js "Private runtime data access requires approval. Path: " ++ absPath p) (Some false)
                  (Some (js "credentialFile")))
      else if isInternalWhitelistedPath (absPath p) (pathContext ctx) then permit (ReasonInternalWhitelist (absPath p))
      else match safetyCheck (absPath p) (readOnly && isInWorkDir) with
           | Some reason => refuse reason
           | None =>
               match implicitAllowance (absPath p) (pathContext ctx) tool with
               | Some reason => permit reason
               | None =>
                   match firstPathRule Allow toolRules (absPath p) with
                   | Some rule => permit (ReasonRule rule)
                   | None => refuse (ReasonWorkingDirectory (absPath p))
                   end
               end
           end
  end.
Proof.
  intros [(_ & Hv & _) _]. unfold pathResult, isPathAllowed. cbn [pk_workingDirectory pk_homeDir pathContext]. by rewrite Hv.
Qed.

Lemma result_ground ctx f p action o temp : denotes ctx f p -> pp_allowed (pathResult f action ctx o) = true ->
  Ground ctx (effectiveTool action o) (co_originToolName o) temp action p.
Proof.
  intros Hd. pose proof (denotes_clean _ _ _ Hd) as Hp. rewrite (pathResult_denotes _ _ _ _ _ Hd). cbv zeta.
  case_goal; [done|]. case_goal; [done|]. case_goal; [intros _; by apply ground_own|]. case_goal; [done|].
  case_goal; [intros _; by eapply implicit_ground|]. destruct (firstPathRule Allow _ _) as [r|] eqn:Hf; [|done]. intros _.
  apply firstPathRule_some in Hf as (Hr & Hb & Ha); [|done]. apply tool_rule in Hr as (Hr & _ & Ht); [|done].
  apply (ground_rule _ _ _ _ _ _ r); [done..| |done]. destruct Ht as [Ht|Ht]; [by left|by right; left].
Qed.

Lemma result_workingDirectory ctx f p action o resolved : denotes ctx f p ->
  pp_allowed (pathResult f action ctx o) = false -> pp_reason (pathResult f action ctx o) = ReasonWorkingDirectory resolved ->
  resolved = absPath p.
Proof.
  intros Hd. rewrite (pathResult_denotes _ _ _ _ _ Hd). cbv zeta. unfold safetyCheck, safetyReason.
  repeat (case_goal; [done|]). 
  repeat case_goal; cbn [pp_allowed pp_reason refuse permit]; intros; simplify_eq; done.
Qed.

Lemma origin_ground ctx f p action o temp whole : denotes ctx f p ->
  matchOriginToolPathRule ctx (co_originToolName o) f (ruleAction action) whole = Some Allow ->
  Ground ctx (effectiveTool action o) (co_originToolName o) temp action p.
Proof.
  intros Hd Hm. destruct (origin_allows _ _ _ _ p _ (denotes_clean _ _ _ Hd) (denotes_shell _ _ _ Hd) Hm) as (r & n & Ho & Hr & Hb & Ha & Hn).
  apply (ground_rule _ _ _ _ _ _ r); [done..| |done]. right. right. eauto.
Qed.

(** A rule of the user that names the file for the action. *)
Definition namesFor (ctx : ToolPermissionContext) (tool : jstr) (origin : option jstr) (action : PathCapabilityAction)
    (p : list jstr) (r : PermissionRule) : Prop :=
  r ∈ rules ctx /\ ruleBehavior r = Allow /\ speaksFor tool origin action r
  /\ ruleAllowsPathAction r (ruleAction action) = true
  /\ exists content, ruleContent (ruleValue r) = Some content /\ content <> [] /\ ruleCovers content p.

Lemma applies_content r p : otruthy (ruleContent (ruleValue r)) = true -> applies r p ->
  exists content, ruleContent (ruleValue r) = Some content /\ content <> [] /\ ruleCovers content p.
Proof. unfold applies. destruct (ruleContent (ruleValue r)) as [[|c s]|]; [done| |done]. eauto. Qed.

Lemma origin_names ctx f p action o : denotes ctx f p ->
  matchOriginToolPathRule ctx (co_originToolName o) f (ruleAction action) false = Some Allow ->
  exists r, namesFor ctx (effectiveTool action o) (co_originToolName o) action p r.
Proof.
  intros Hd Hm. destruct (origin_content _ _ _ _ p _ (denotes_clean _ _ _ Hd) (denotes_shell _ _ _ Hd) Hm)
    as (r & n & Ho & _ & Hr & Hb & Hn & Ha & Hc & Hp).
  exists r. repeat split; [done..| |done|by apply applies_content]. right. right. eauto.
Qed.

Lemma safety_names ctx f p action o reason approvable category : denotes ctx f p ->
  tc_behavior (safetyAsk f action ctx o reason approvable category) = Checked Allow ->
  exists r, namesFor ctx (effectiveTool action o) (co_originToolName o) action p r.
Proof.
  intros Hd. unfold safetyAsk.
  destruct (matchOriginToolPathRule _ _ _ _ _) as [[]|] eqn:Hm; [intros _; by apply (origin_names ctx f)|done| |].
  all: match goal with |- context [if ?b then contentRuleCovers _ _ _ else _] => destruct b end; [|done].
  all: destruct (contentRuleCovers _ _ _) as [r|] eqn:Hc; [|done]; intros _.
  all: apply contentRuleCovers_some in Hc as (Hr & Ha & Hc & Hp); rewrite (proj2 Hd) in Hp.
  all: exists r; apply elem_of_app in Hr as [(Hr & Ht & Hb)%content_rule|Hr];
    [repeat split; [done..|by left|done|by apply applies_content]|].
  all: destruct (negb (str_eqb _ _) && negb (bool_decide (action = cap_execute))) eqn:He; [|by apply elem_of_nil in Hr].
  all: apply content_rule in Hr as (Hr & Ht & Hb); reflect_bools.
  all: repeat split; [done..| |done|by apply applies_content]; by right; left.
Qed.

Lemma names_ground ctx tool origin temp action p r : namesFor ctx tool origin action p r -> Ground ctx tool origin temp action p.
Proof.
  intros (Hr & Hb & Hs & _ & content & Hc & Hne & Hp). apply (ground_rule _ _ _ _ _ _ r); [done..|]. unfold applies. rewrite Hc.
  by destruct content.
Qed.

Lemma allowed_ground ctx f p action o : denotes ctx f p ->
  tc_behavior (evaluatePathCapability f action ctx o) = Checked Allow ->
  Ground ctx (effectiveTool action o) (co_originToolName o) (isTrue (co_allowTempWrite o)) action p.
Proof.
  intros Hd. pose proof (denotes_clean _ _ _ Hd) as Hp. unfold evaluatePathCapability. destruct (matchHardBlockedFsRead _) as [hit|].
  - unfold hardBlocked. destruct (matchOriginToolPathRule _ _ _ _ _) as [[]|] eqn:Hm; [|done..]. intros _. by apply (origin_ground _ f _ _ _ _ false).
  - case_goal; [done|]. case_goal; [done|]. destruct (pp_allowed _) eqn:Ha; [intros _; by apply (result_ground _ f)|].
    destruct (pp_reason _) eqn:Hr; [done| | |done..].
    + intros Hn. destruct (safety_names _ _ _ _ _ _ _ _ Hd Hn) as [r Hr']. by apply (names_ground _ _ _ _ _ _ r).
    + apply (result_workingDirectory _ _ _ _ _ _ Hd Ha) in Hr as ->. case_goal.
      * intros _. reflect_bools. destruct (tmp_covers p Hp) as (d & Hin & Hc); [done|]. by apply (ground_temporary _ _ _ _ _ _ d).
      * destruct (matchOriginToolPathRule _ _ _ _ _) as [[]|] eqn:Hm; [|done..]. intros _. by apply (origin_ground _ f _ _ _ _ true).
Qed.

(** a path capability is allowed for a ground: a rule of the user that speaks for
    the capability or for the tool that asks and covers the file, a directory of the
    session that holds the file, a directory that is readable for a tool that only
    reads, the temporary directory where the caller may write there, a file trusted
    for writing, or a file of the system itself. *)
Theorem paths_are_allowed_for_a_ground ctx f p action o : denotes ctx f p ->
  tc_behavior (evaluatePathCapability f action ctx o) = Checked Allow ->
  Ground ctx (effectiveTool action o) (co_originToolName o) (isTrue (co_allowTempWrite o)) action p.
Proof. apply allowed_ground. Qed.

(** ** Secrets *)

(** System secrets, credentials and keys, environment files and the configuration of
    a repository, as the checks of the code recognise them. *)
Definition secret (p : list jstr) : bool :=
  let path := absPath p in
  isSystemSensitivePath path || isCredentialFile path || isEnvFile path
  || isInDangerousDirectory path && isSensitiveGitFile path.

Lemma secret_reason p skip : secret p = true ->
  exists description category, safetyCheck (absPath p) skip = Some (ReasonSafetyCheck description (Some true) category).
Proof.
  unfold secret, safetyCheck, safetyReason. intros Hs. destruct (isSystemSensitivePath _); [by do 2 eexists|].
  destruct (isCredentialFile _); [by do 2 eexists|]. destruct (isEnvFile _); [by do 2 eexists|]. cbn [orb] in Hs. rewrite Hs.
  by do 2 eexists.
Qed.

(** Denied, or asked about in every mode, or named by a rule of the user. *)
Definition guarded (ctx : ToolPermissionContext) (action : PathCapabilityAction) (o : PathCapabilityOptions) (p : list jstr)
    (r : ToolCheckResult) : Prop :=
  tc_behavior r = Checked Deny
  \/ tc_behavior r = Checked Ask /\ tc_bypassImmune r = Some true
  \/ exists rule, namesFor ctx (effectiveTool action o) (co_originToolName o) action p rule.

Lemma safety_guarded ctx f p action o reason category : denotes ctx f p ->
  guarded ctx action o p (safetyAsk f action ctx o reason (Some true) category).
Proof.
  intros Hd. destruct (tc_behavior (safetyAsk f action ctx o reason (Some true) category)) as [[]|] eqn:Hb.
  - right; right. by eapply safety_names.
  - by left.
  - right; left. split; [done|]. revert Hb. unfold safetyAsk. rewrite (bool_decide_eq_true_2 (Some true = Some true)) by done.
    repeat case_goal; done.
  - revert Hb. unfold safetyAsk. repeat case_goal; done.
Qed.

(** A secret that is neither one of the system's own files nor, for a tool that only
    reads, private runtime data, about which the question is another one. *)
Definition sensitive (ctx : ToolPermissionContext) (tool : jstr) (p : list jstr) : Prop :=
  secret p = true /\ isInternalWhitelistedPath (absPath p) (pathContext ctx) = false
  /\ (tool ∈ READ_ONLY_TOOLS -> isProtectedRuntimeRead (absPath p) (pathContext ctx) (str_eqb tool (js "grep")) = false).

Lemma guarded_answer ctx f p action o : denotes ctx f p ->
  matchHardBlockedFsRead (absPath p) <> None
  \/ sensitive ctx (effectiveTool action o) p /\ (action = cap_execute -> isStaticPathToken f = true) ->
  guarded ctx action o p (evaluatePathCapability f action ctx o).
Proof.
  intros Hd Hs. unfold evaluatePathCapability. rewrite (denotes_shell _ _ _ Hd).
  destruct (matchHardBlockedFsRead (absPath p)) as [hit|].
  - unfold hardBlocked. destruct (matchOriginToolPathRule _ _ _ _ _) as [[]|] eqn:Hm; [|by left|by right; left..].
    right; right. by apply (origin_names ctx f).
  - destruct Hs as [?|[(Hs & Hw & Hr) Hx]]; [done|].
    destruct (bool_decide (action = cap_execute) && _) eqn:He.
    { reflect_bools. by rewrite Hx in *. }
    case_goal; [by left|]. rewrite (pathResult_denotes _ _ _ _ _ Hd). cbv zeta. case_goal; [by left|].
    assert (mem (effectiveTool action o) READ_ONLY_TOOLS
            && isProtectedRuntimeRead (absPath p) (pathContext ctx) (str_eqb (effectiveTool action o) (js "grep")) = false) as ->.
    { destruct (mem _ _) eqn:Hmem; [|done]. apply Hr. by apply bool_decide_eq_true in Hmem. }
    rewrite Hw. destruct (secret_reason p (mem (effectiveTool action o) READ_ONLY_TOOLS
      && (pathInWorkingPath (absPath p) (workingDirectory ctx) || pathInAllowedWorkingPath (absPath p) (allowedWorkingPaths ctx))) Hs)
      as (description & category & ->). cbn [pp_allowed pp_reason refuse]. by apply safety_guarded.
Qed.

(** a secret needs a rule that names it: an action on a system secret, a
    credential or key, an environment file or the configuration of a repository,
    wherever the file is, is denied, or asked about in every mode, unless a rule of
    the user with a pattern covers the file for this action; a rule for a whole tool
    is not enough. *)
Theorem secrets_need_a_rule ctx f p action o : denotes ctx f p ->
  matchHardBlockedFsRead (absPath p) <> None
  \/ sensitive ctx (effectiveTool action o) p /\ (action = cap_execute -> isStaticPathToken f = true) ->
  guarded ctx action o p (evaluatePathCapability f action ctx o).
Proof. apply guarded_answer. Qed.
End Grounds.

(** ** Fewer allows, more denials *)
Section Restriction.
Context `{FsHost}.
Implicit Types ctx : ToolPermissionContext.

(** The same context with denials added and allowances taken away. *)
Record restricts (ctx ctx' : ToolPermissionContext) : Prop := {
  rest_context : ctx' = cloneContextWith ctx (rules ctx');
  rest_deny r : r ∈ rules ctx -> ruleBehavior r = Deny -> r ∈ rules ctx';
  rest_allow r : r ∈ rules ctx' -> ruleBehavior r = Allow -> r ∈ rules ctx;
}.

Definition no_more (a b : CheckBehavior) : Prop := a = Checked Allow \/ b = Checked Deny \/ a = b.

Lemma find_subset {A} (f : A -> bool) l l' : (forall x, x ∈ l -> f x = true -> x ∈ l') ->
  List.find f l' = None -> List.find f l = None.
Proof.
  intros Hs Hn. destruct (List.find f l) as [x|] eqn:Hx; [|done]. apply List.find_some in Hx as [Hx Hf].
  rewrite (List.find_none f l' Hn x) in Hf; [done|]. apply list_elem_of_In, Hs; [by apply list_elem_of_In|done].
Qed.

Section Pair.
Variables ctx ctx' : ToolPermissionContext.
Hypothesis Hrest : restricts ctx ctx'.

Lemma content_deny tool act f : contentRuleCovers (getContentRulesForTool ctx' tool Deny) act f = None ->
  contentRuleCovers (getContentRulesForTool ctx tool Deny) act f = None.
Proof.
  apply find_subset. intros r Hr _. unfold getContentRulesForTool in *. rewrite list_elem_of_In, filter_In, <- list_elem_of_In in *.
  destruct Hr as [Hr Hb]. split; [|done]. reflect_bools. by apply (rest_deny _ _ Hrest).
Qed.

Lemma content_allow tool more more' act f : (forall r, r ∈ more' -> r ∈ more) ->
  contentRuleCovers (getContentRulesForTool ctx tool Allow ++ more) act f = None ->
  contentRuleCovers (getContentRulesForTool ctx' tool Allow ++ more') act f = None.
Proof.
  intros Hm. apply find_subset. intros r Hr _. apply elem_of_app in Hr as [Hr|Hr]; apply elem_of_app; [left|right; auto].
  unfold getContentRulesForTool in *. rewrite list_elem_of_In, filter_In, <- list_elem_of_In in *.
  destruct Hr as [Hr Hb]. split; [|done]. reflect_bools. by apply (rest_allow _ _ Hrest).
Qed.

Lemma content_allow_one tool act f : contentRuleCovers (getContentRulesForTool ctx tool Allow) act f = None ->
  contentRuleCovers (getContentRulesForTool ctx' tool Allow) act f = None.
Proof. intros Hn. pose proof (content_allow tool [] [] act f) as Ha. rewrite !app_nil_r in Ha. by apply Ha. Qed.

Lemma whole_deny tool : hasWholeToolOrMcpServerRule ctx tool Deny = true -> hasWholeToolOrMcpServerRule ctx' tool Deny = true.
Proof. rewrite !whole_rule_iff. intros (r & Hr & Hb & Hc). exists r. split; [by apply (rest_deny _ _ Hrest)|done]. Qed.

Lemma whole_allow tool : hasWholeToolOrMcpServerRule ctx' tool Allow = true -> hasWholeToolOrMcpServerRule ctx tool Allow = true.
Proof. rewrite !whole_rule_iff. intros (r & Hr & Hb & Hc). exists r. split; [by apply (rest_allow _ _ Hrest)|done]. Qed.

Lemma shell_path f : resolveShellAwarePath f (workingDirectory ctx') (homeDir ctx') = resolveShellAwarePath f (workingDirectory ctx) (homeDir ctx).
Proof. by rewrite (rest_context _ _ Hrest). Qed.

Lemma origin_mono origin f act whole :
  (matchOriginToolPathRule ctx origin f act whole = Some Deny -> matchOriginToolPathRule ctx' origin f act whole = Some Deny)
  /\ (matchOriginToolPathRule ctx' origin f act whole = Some Allow -> matchOriginToolPathRule ctx origin f act whole = Some Allow).
Proof.
  unfold matchOriginToolPathRule. destruct origin as [[|c o]|]; [done| |done]. destruct (mem (c :: o) _); [done|].
  rewrite shell_path. set (path := resolveShellAwarePath _ _ _).
  pose proof (whole_deny (c :: o)) as Hwd. pose proof (whole_allow (c :: o)) as Hwa.
  pose proof (content_deny (c :: o) act path) as Hcd. pose proof (content_allow_one (c :: o) act path) as Hca.
  destruct (hasWholeToolOrMcpServerRule ctx (c :: o) Deny), (hasWholeToolOrMcpServerRule ctx' (c :: o) Deny),
    (hasWholeToolOrMcpServerRule ctx (c :: o) Allow), (hasWholeToolOrMcpServerRule ctx' (c :: o) Allow), whole;
    try (by specialize (Hwd eq_refl)); try (by specialize (Hwa eq_refl)); cbn [andb]; try done.
  all: destruct (contentRuleCovers (getContentRulesForTool ctx' (c :: o) Deny) act path),
    (contentRuleCovers (getContentRulesForTool ctx (c :: o) Deny) act path); try done; try (by specialize (Hcd eq_refl)).
  all: destruct (contentRuleCovers (getContentRulesForTool ctx' (c :: o) Allow) act path),
    (contentRuleCovers (getContentRulesForTool ctx (c :: o) Allow) act path); try done; try (by specialize (Hca eq_refl)).
Qed.

Lemma tool_rules_deny action tool act path : firstPathRule Deny (toolRulesFor (capabilityRules action ctx') tool act) path = None ->
  firstPathRule Deny (toolRulesFor (capabilityRules action ctx) tool act) path = None.
Proof.
  apply find_subset. intros r Hr Hb. reflect_bools. unfold toolRulesFor, capabilityRules in *.
  rewrite list_elem_of_In, filter_In in *. destruct Hr as [Hr Ht]. split; [|done]. revert Hr. case_bool_decide; intros Hr.
  - rewrite filter_In in *. destruct Hr as [Hr Hf]. split; [|done]. rewrite <- list_elem_of_In in *. by apply (rest_deny _ _ Hrest).
  - rewrite <- list_elem_of_In in *. by apply (rest_deny _ _ Hrest).
Qed.

Lemma tool_rules_allow action tool act path : firstPathRule Allow (toolRulesFor (capabilityRules action ctx) tool act) path = None ->
  firstPathRule Allow (toolRulesFor (capabilityRules action ctx') tool act) path = None.
Proof.
  apply find_subset. intros r Hr Hb. reflect_bools. unfold toolRulesFor, capabilityRules in *.
  rewrite list_elem_of_In, filter_In in *. destruct Hr as [Hr Ht]. split; [|done]. revert Hr. case_bool_decide; intros Hr.
  - rewrite filter_In in *. destruct Hr as [Hr Hf]. split; [|done]. rewrite <- list_elem_of_In in *. by apply (rest_allow _ _ Hrest).
  - rewrite <- list_elem_of_In in *. by apply (rest_allow _ _ Hrest).
Qed.

Lemma path_context : pathContext ctx' = pathContext ctx.
Proof. by rewrite (rest_context _ _ Hrest). Qed.

(** The result is a denial by a rule, the same, allowed in both, or an allowance taken away. *)
Lemma result_mono f action o :
  let r := pathResult f action ctx o in
  let r' := pathResult f action ctx' o in
  (exists rule, r' = refuse (ReasonRule rule)) \/ r' = r \/ pp_allowed r = true /\ pp_allowed r' = true
  \/ exists path, validatePath f (Some (workingDirectory ctx)) (Some (homeDir ctx)) = inr path
                 /\ pp_allowed r = true /\ r' = refuse (ReasonWorkingDirectory path).
Proof.
  unfold pathResult, isPathAllowed. rewrite path_context. cbn [pk_workingDirectory pk_homeDir pathContext].
  destruct (validatePath _ _ _) as [error|path]; [by right; left|].
  destruct (firstPathRule Deny (toolRulesFor (capabilityRules action ctx') _ _) path) as [rule|] eqn:Hd; [by left; eexists|].
  rewrite tool_rules_deny by done. case_goal; [by right; left|]. case_goal; [by right; left|]. case_goal; [by right; left|].
  case_goal; [by right; left|].
  destruct (firstPathRule Allow (toolRulesFor (capabilityRules action ctx) _ _) path) as [rule|] eqn:Ha.
  - destruct (firstPathRule Allow (toolRulesFor (capabilityRules action ctx') _ _) path); right; right; [by left|right; by exists path].
  - rewrite tool_rules_allow by done. by right; left.
Qed.

Lemma umbrella_allow (b : bool) r : r ∈ (if b then getContentRulesForTool ctx' FS_UMBRELLA_TOOL_NAME Allow else []) ->
  r ∈ (if b then getContentRulesForTool ctx FS_UMBRELLA_TOOL_NAME Allow else []).
Proof.
  destruct b; [|done]. unfold getContentRulesForTool. rewrite !list_elem_of_In, !filter_In, <- !list_elem_of_In.
  intros [Hr Hb]. split; [|done]. reflect_bools. by apply (rest_allow _ _ Hrest).
Qed.

Lemma safety_mono f action o reason approvable category :
  no_more (tc_behavior (safetyAsk f action ctx o reason approvable category))
    (tc_behavior (safetyAsk f action ctx' o reason approvable category)).
Proof.
  unfold safetyAsk. replace (mode ctx') with (mode ctx) by (by rewrite (rest_context _ _ Hrest)).
  destruct (origin_mono (co_originToolName o) f (ruleAction action) false) as [Hd Ha].
  destruct (matchOriginToolPathRule ctx' _ _ _ _) as [[]|]; [rewrite Ha by done; by left|by right; left| |].
  all: destruct (matchOriginToolPathRule ctx _ _ _ _) as [[]|]; [by left|by specialize (Hd eq_refl)| |].
  all: match goal with |- context [if ?b then contentRuleCovers _ _ _ else _] => destruct b end; [|by right; right].
  all: match goal with |- context [contentRuleCovers (getContentRulesForTool ctx _ _ ++ ?m) ?a ?g] =>
    destruct (contentRuleCovers (getContentRulesForTool ctx (effectiveTool action o) Allow ++ m) a g) eqn:Hc; [by left|] end.
  all: rewrite (content_allow _ _ _ _ _ (umbrella_allow _) Hc); by right; right.
Qed.

Lemma hard_mono f action o path hit :
  no_more (tc_behavior (hardBlocked f action ctx o path hit)) (tc_behavior (hardBlocked f action ctx' o path hit)).
Proof.
  unfold hardBlocked. destruct (origin_mono (co_originToolName o) f (ruleAction action) false) as [Hd Ha].
  destruct (matchOriginToolPathRule ctx' _ _ _ _) as [[]|]; [rewrite Ha by done; by left|by right; left| |].
  all: destruct (matchOriginToolPathRule ctx _ _ _ _) as [[]|]; [by left|by specialize (Hd eq_refl)| |]; by right; right.
Qed.

Lemma origin_whole c origin f act : matchOriginToolPathRule c origin f act false = Some Deny ->
  matchOriginToolPathRule c origin f act true = Some Deny.
Proof.
  unfold matchOriginToolPathRule. destruct origin as [[|d o]|]; [done| |done]. destruct (mem (d :: o) _); [done|]. cbn [andb].
  repeat case_goal; done.
Qed.

Definition tempWrite (f : jstr) (action : PathCapabilityAction) (o : PathCapabilityOptions) : Prop :=
  isTrue (co_allowTempWrite o) = true /\ action <> cap_read
  /\ exists path, validatePath f (Some (workingDirectory ctx)) (Some (homeDir ctx)) = inr path /\ isTempDirectory path = true.

Lemma evaluate_mono f action o : ~ tempWrite f action o ->
  no_more (tc_behavior (evaluatePathCapability f action ctx o)) (tc_behavior (evaluatePathCapability f action ctx' o)).
Proof.
  intros Ht. unfold evaluatePathCapability. rewrite shell_path. replace (homeDir ctx') with (homeDir ctx) by (by rewrite (rest_context _ _ Hrest)).
  destruct (matchHardBlockedFsRead _) as [hit|]; [apply hard_mono|]. case_goal; [by right; right|]. case_goal; [by right; right|].
  destruct (origin_mono (co_originToolName o) f (ruleAction action) false) as [Hd Ha].
  destruct (origin_mono (co_originToolName o) f (ruleAction action) true) as [Hdw Haw].
  destruct (result_mono f action o) as [[rule Hr]|[Hr|[[Hr Hr']|(path & Hv & Hr & Hr')]]].
  - rewrite Hr. by right; left.
  - rewrite Hr. destruct (pp_allowed _).
    + destruct (matchOriginToolPathRule ctx _ _ _ false) as [[]|]; try (by left). rewrite Hd by done. by right; left.
    + destruct (pp_reason _); try (by right; left); [apply safety_mono|]. case_goal; [by left|].
      destruct (matchOriginToolPathRule ctx' _ _ _ true) as [[]|]; [rewrite Haw by done; by left|by right; left| |].
      all: destruct (matchOriginToolPathRule ctx _ _ _ true) as [[]|]; [by left|by specialize (Hdw eq_refl)|by right; right..].
  - rewrite Hr, Hr'. destruct (matchOriginToolPathRule ctx _ _ _ false) as [[]|]; try (by left). rewrite Hd by done. by right; left.
  - rewrite Hr, Hr'. cbn [pp_allowed pp_reason refuse].
    destruct (matchOriginToolPathRule ctx _ _ _ false) as [[]|] eqn:Hm; try (by left).
    destruct (isTrue (co_allowTempWrite o) && _ && _) eqn:He.
    + reflect_bools. destruct Ht. repeat split; [done..|]. by exists path.
    + rewrite Hdw; [by right; left|]. by apply origin_whole.
Qed.
End Pair.

(** C9: restricting the rules opens nothing: when denials are added and allowances
    taken away, by whatever update, an answer that was ask stays ask or becomes a
    denial and a denial stays, for every path, action and caller, except for an action
    other than a read on a path in a temporary directory by a caller that may write
    there ([tempWrite]). *)
Theorem restricting_rules_open_nothing ctx ctx' f action o : restricts ctx ctx' -> ~ tempWrite ctx f action o ->
  no_more (tc_behavior (evaluatePathCapability f action ctx o)) (tc_behavior (evaluatePathCapability f action ctx' o)).
Proof. intros Hr Ht. by apply evaluate_mono. Qed.

(** ** Executions *)

(** The context without the allowances of the umbrella. *)
Definition withoutUmbrella (ctx : ToolPermissionContext) : ToolPermissionContext :=
  cloneContextWith ctx (List.filter (fun r => negb (isFsUmbrellaAllow r)) (rules ctx)).

Lemma find_filter {A} (f g : A -> bool) l : (forall x, f x = true -> g x = true) -> List.find f (List.filter g l) = List.find f l.
Proof.
  intros Hfg. induction l as [|x l IH]; [done|]. cbn. destruct (g x) eqn:Hg; cbn; [by rewrite IH|].
  destruct (f x) eqn:Hf; [|done]. by rewrite Hfg in Hg.
Qed.

Lemma existsb_filter_weaker {A} (f g : A -> bool) l : (forall x, f x = true -> g x = true) -> existsb f (List.filter g l) = existsb f l.
Proof.
  intros Hfg. rewrite existsb_filter. induction l as [|x l IH]; [done|]. cbn. rewrite IH. f_equal.
  destruct (f x) eqn:Hf; [by rewrite Hfg|by rewrite andb_false_r].
Qed.

Lemma other_tool r tool : str_eqb (toolName (ruleValue r)) tool = true -> tool <> FS_UMBRELLA_TOOL_NAME ->
  negb (isFsUmbrellaAllow r) = true.
Proof.
  unfold isFsUmbrellaAllow, str_eqb. intros Ht Hn. reflect_bools. by rewrite Ht, bool_decide_eq_false_2.
Qed.

Lemma content_without ctx tool b : tool <> FS_UMBRELLA_TOOL_NAME ->
  getContentRulesForTool (withoutUmbrella ctx) tool b = getContentRulesForTool ctx tool b.
Proof.
  intros Hn. unfold getContentRulesForTool, withoutUmbrella. rewrite rules_clone. apply filter_filter_weaker.
  intros r Hr. reflect_bools. by apply (other_tool r tool).
Qed.

Lemma no_server tool : matchesMcpServerRuntimeName tool FS_UMBRELLA_TOOL_NAME = false.
Proof.
  unfold matchesMcpServerRuntimeName. change (split FS_UMBRELLA_TOOL_NAME MCP_SEGMENT_SEPARATOR) with [FS_UMBRELLA_TOOL_NAME].
  by repeat case_goal.
Qed.

Lemma whole_without ctx tool b : tool <> FS_UMBRELLA_TOOL_NAME ->
  hasWholeToolOrMcpServerRule (withoutUmbrella ctx) tool b = hasWholeToolOrMcpServerRule ctx tool b.
Proof.
  intros Hn. unfold hasWholeToolOrMcpServerRule, hasWholeToolRule, withoutUmbrella. rewrite rules_clone. f_equal.
  - rewrite find_filter; [done|]. intros r Hr. reflect_bools. by apply (other_tool r tool).
  - f_equal. apply existsb_filter_weaker. intros r Hr. reflect_bools. apply negb_true_iff. unfold isFsUmbrellaAllow, str_eqb.
    case_bool_decide as Hf; [|done]. by rewrite Hf, no_server in *.
Qed.

Lemma origin_without ctx origin f act whole :
  matchOriginToolPathRule (withoutUmbrella ctx) origin f act whole = matchOriginToolPathRule ctx origin f act whole.
Proof.
  unfold matchOriginToolPathRule. destruct origin as [[|c o]|]; [done| |done]. destruct (mem (c :: o) _) eqn:Hm; [done|].
  assert (c :: o <> FS_UMBRELLA_TOOL_NAME) as Hn.
  { intros E. apply bool_decide_eq_false in Hm. apply Hm. rewrite E. by right; right; left. }
  by rewrite !content_without, !whole_without.
Qed.

Lemma result_without ctx f o : pathResult f cap_execute (withoutUmbrella ctx) o = pathResult f cap_execute ctx o.
Proof.
  unfold pathResult. change (pathContext (withoutUmbrella ctx)) with (pathContext ctx). f_equal.
  unfold capabilityRules, withoutUmbrella. rewrite !bool_decide_eq_true_2, rules_clone by done.
  by apply filter_filter_weaker.
Qed.

Lemma evaluate_without ctx f o : effectiveTool cap_execute o <> FS_UMBRELLA_TOOL_NAME ->
  evaluatePathCapability f cap_execute (withoutUmbrella ctx) o = evaluatePathCapability f cap_execute ctx o.
Proof.
  intros Hn. unfold evaluatePathCapability, hardBlocked, safetyAsk.
  rewrite result_without, !origin_without, !content_without by done.
  change (bool_decide (cap_execute = cap_execute)) with true. cbn [negb andb]. rewrite !andb_false_r. done.
Qed.

(** running a script is not allowed by a rule for files: the answer to an
    execution is the same, to the last field, whatever rules allow the umbrella of
    the file tools. *)
Theorem execution_ignores_umbrella_rules ctx rs f o : effectiveTool cap_execute o <> FS_UMBRELLA_TOOL_NAME ->
  List.filter (fun r => negb (isFsUmbrellaAllow r)) rs = List.filter (fun r => negb (isFsUmbrellaAllow r)) (rules ctx) ->
  evaluatePathCapability f cap_execute (cloneContextWith ctx rs) o = evaluatePathCapability f cap_execute ctx o.
Proof.
  intros Hn Hrs. rewrite <- (evaluate_without ctx), <- (evaluate_without (cloneContextWith ctx rs)) by done.
  unfold withoutUmbrella. rewrite rules_clone, Hrs. done.
Qed.
End Restriction.

(** ** Witnesses *)

(** A host started in /daemon, on which every path is its own real path. *)
Definition sampleFs : FsHost :=
  {| cwd := js "/daemon"; os_tmpdir := js "/tmp"; os_homedir := js "/home/u"; darwin := false;
     realpathSync := Some; lowerCase := map asciiLower |}.
#[local] Existing Instance sampleFs.

Definition fsContext (m : PermissionMode) (rs : list PermissionRule) : ToolPermissionContext :=
  {| mode := m; rules := rs; sandboxEnabled := false; autoAllowBashIfSandboxed := false; platform := js "linux";
     shellFamily := posix; workingDirectory := js "/w"; allowedWorkingPaths := []; sandboxAllowPaths := [];
     trustedExactWritePaths := []; dataDir := js "/data"; homeDir := js "/home/u"; isFile := None; agentName := None;
     sessionId := None; allowManagedPermissionRulesOnly := false; interactiveTools := [] |}.

Definition pathRule (tool : jstr) (b : PermissionBehavior) (content : jstr) : PermissionRule :=
  {| source := src_session; ruleBehavior := b;
     ruleValue := {| toolName := tool; ruleContent := Some content; matcher := Some (MPath content None) |} |}.

Definition asking (origin : option jstr) (temp : bool) : PathCapabilityOptions :=
  {| co_toolName := None; co_allowTempWrite := Some temp; co_originToolName := origin |}.

Ltac reads_here := split; [by apply (bool_decide_unpack _); vm_compute|split; by vm_compute].
Ltac denotes_here := split; [reads_here|by vm_compute].

Lemma rules_cover_by_segments_witness :
  (matchPathRule (js "/w/src/a") (js "/w/src/**") = true <-> documented (js "/w/src/**") [js "w"; js "src"; js "a"])
  /\ matchPathRule (js "/w/src2/a") (js "/w/src/**") = false.
Proof.
  assert (forall d, starDirectory (js "/w/src/**") = Some d -> d <> [] /\ named d <> []) as Hd.
  { intros d E. vm_compute in E. injection E as <-. split; [done|by vm_compute]. }
  split; [apply (rules_cover_by_segments (js "/w/src/a") (js "/w/src/**") Hd)|].
  apply not_true_iff_false. intros Hm. apply (rules_cover_by_segments (js "/w/src2/a") (js "/w/src/**") Hd) in Hm.
  destruct Hm as [s E]. by vm_compute in E.
Defined.

Lemma paths_are_allowed_for_a_ground_witness :
  Ground (fsContext mode_default []) (js "read") None false cap_read [js "w"; js "a"].
Proof.
  apply (paths_are_allowed_for_a_ground (fsContext mode_default []) (js "/w/a") [js "w"; js "a"] cap_read (asking None false)).
  - denotes_here.
  - by vm_compute.
Defined.

Lemma secrets_need_a_rule_witness :
  guarded (fsContext bypassPermissions []) cap_read (asking None false) [js "w"; js ".env"]
    (evaluatePathCapability (js "/w/.env") cap_read (fsContext bypassPermissions []) (asking None false)).
Proof.
  apply secrets_need_a_rule.
  - denotes_here.
  - right. repeat split; by vm_compute.
Defined.

Lemma restricting_rules_open_nothing_witness :
  let ctx rs := fsContext mode_default rs in
  no_more (tc_behavior (evaluatePathCapability (js "/opt/x") cap_read (ctx [pathRule (js "read") Allow (js "/opt/**")]) (asking None false)))
    (tc_behavior (evaluatePathCapability (js "/opt/x") cap_read (ctx [pathRule (js "fs") Deny (js "/opt/x")]) (asking None false))).
Proof.
  apply restricting_rules_open_nothing.
  - split; [done| |].
    + by intros r [->|?%elem_of_nil]%elem_of_cons.
    + by intros r [->|?%elem_of_nil]%elem_of_cons.
  - by intros (? & _).
Defined.

Lemma execution_ignores_umbrella_rules_witness :
  evaluatePathCapability (js "/opt/x.sh") cap_execute (fsContext mode_default [pathRule (js "fs") Allow (js "/opt/**")]) (asking (Some (js "bash")) true)
  = evaluatePathCapability (js "/opt/x.sh") cap_execute (fsContext mode_default []) (asking (Some (js "bash")) true).
Proof.
  apply (execution_ignores_umbrella_rules (fsContext mode_default []) [pathRule (js "fs") Allow (js "/opt/**")]).
  - done.
  - by vm_compute.
Defined.

(** ** Where the code does something else *)
Definition answer (f : jstr) (action : PathCapabilityAction) (o : PathCapabilityOptions) (ctx : ToolPermissionContext) : CheckBehavior :=
  tc_behavior (evaluatePathCapability f action ctx o).

(** The root contains nothing but itself, and the pattern for everything is a
    pattern for the directory the program was started in. *)
Lemma root_contains_nothing :
  pathInWorkingPath (js "/a") (js "/") = false
  /\ matchPathRule (js "/etc/x") (js "/**") = false /\ matchPathRule (js "/daemon/x") (js "/**") = true.
Proof. by vm_compute. Qed.

(** The test for the memory file is one on the text of the path: a file of another
    directory with the same beginning may be written. *)
Lemma sibling_memory_is_writable :
  answer (js "/data-of-others/notMEMORY.md") cap_write (asking None false) (fsContext mode_default []) = Checked Allow.
Proof. by vm_compute. Qed.

(** The stored permissions may be written by any tool. *)
Lemma permissions_are_writable :
  answer (js "/data/permission.json") cap_write (asking None false) (fsContext mode_default []) = Checked Allow.
Proof. by vm_compute. Qed.

(** The temporary directory is looked at before the denials of the tool that asks:
    it writes where it is denied, though it may not read there; and taking an
    allowance away lets a denied write through. *)
Lemma temporary_write_ignores_a_denial :
  let denial := pathRule (js "bash") Deny (js "/tmp/x/**") in
  let allowance := pathRule (js "write") Allow (js "/tmp/x/**") in
  let o := asking (Some (js "bash")) true in
  answer (js "/tmp/x/a") cap_read o (fsContext mode_default [denial]) = Checked Deny
  /\ answer (js "/tmp/x/a") cap_write o (fsContext mode_default [denial; allowance]) = Checked Deny
  /\ answer (js "/tmp/x/a") cap_write o (fsContext mode_default [denial]) = Checked Allow.
Proof. by vm_compute. Qed.

(** A removal is judged from the directory the program was started in: started in the
    root, it may remove no file of the workspace by a relative name. *)
Lemma removal_is_judged_from_the_start :
  let started : FsHost := {| cwd := js "/"; os_tmpdir := js "/tmp"; os_homedir := js "/home/u"; darwin := false;
                             realpathSync := Some; lowerCase := map asciiLower |} in
  let o := asking None false in
  tc_behavior (@evaluatePathCapability started (js "/w/x") cap_delete (fsContext mode_default []) o) = Checked Allow
  /\ tc_behavior (@evaluatePathCapability started (js "x") cap_delete (fsContext mode_default []) o) = Checked Deny.
Proof. by vm_compute. Qed.

(** A rule for a secret is matched from the directory the program was started in, too:
    the rule for the file of the workspace has no effect on its relative name, and
    the rule for another file opens it. *)
Lemma another_rule_opens_the_secret :
  let o := asking None false in
  answer (js ".env") cap_read o (fsContext mode_default [pathRule (js "read") Allow (js "/w/.env")]) = Checked Ask
  /\ answer (js ".env") cap_read o (fsContext mode_default [pathRule (js "read") Allow (js "/daemon/.env")]) = Checked Allow.
Proof. by vm_compute. Qed.

(** A denial of the capability does not deny a private key: it is asked about, or
    allowed by a rule of the tool that asks. *)
Lemma denied_key_is_asked_about :
  let denial := pathRule (js "read") Deny (js "/home/u/.ssh/**") in
  let allowance := pathRule (js "bash") Allow (js "/home/u/.ssh/**") in
  let o := asking (Some (js "bash")) false in
  answer (js "/home/u/.ssh/config") cap_read o (fsContext mode_default [denial; allowance]) = Checked Deny
  /\ answer (js "/home/u/.ssh/id_rsa") cap_read o (fsContext mode_default [denial]) = Checked Ask
  /\ answer (js "/home/u/.ssh/id_rsa") cap_read o (fsContext mode_default [denial; allowance]) = Checked Allow.
Proof. by vm_compute. Qed.

(** The file tools ask about a private key again and again, whatever is stored for them. *)
Lemma key_is_asked_about_forever :
  answer (js "/home/u/.ssh/id_rsa") cap_read (asking None false)
    (fsContext mode_default [pathRule (js "read") Allow (js "/home/u/.ssh/**"); pathRule (js "fs") Allow (js "/home/u/.ssh/id_rsa")])
  = Checked Ask.
Proof. by vm_compute. Qed.

(** Bypass mode waives the question about private runtime data, but not the one about
    an environment file elsewhere. *)
Lemma runtime_data_is_waived :
  let immune f := tc_bypassImmune (evaluatePathCapability f cap_read (fsContext bypassPermissions []) (asking None false)) in
  immune (js "/data/session/.env") = Some false /\ immune (js "/w/.env") = Some true.
Proof. by vm_compute. Qed.
