(* ===== verification/PathApproval.v ===== *)
(** * Approved paths

    What becomes of the question about a path once the user approves it: the rules
    suggested with the question, stored for the tool that asked, answer it from then
    on; and where the suggestions and the three readings of a path go further than
    the comments say. *)
From S2P Require Import Prelude PermTypes PermContext ShellTokenize ShellSplit BashAst BashWrappers BashPaths FsPath FsPermission PathCapability PathLaws.

Section Approval.
Context `{FsHost}.

(** The suggestions of a question, as rules of a tool. *)
Definition approvedValues (tool : jstr) (r : ToolCheckResult) : list PermissionRuleValue :=
  zip_with (fun content m => {| toolName := tool; ruleContent := Some content; matcher := Some m |})
    (default [] (tc_ruleContents r)) (default [] (tc_ruleMatchers r)).

Definition approve (ctx : ToolPermissionContext) (tool : jstr) (r : ToolCheckResult) : ToolPermissionContext :=
  addRules ctx src_session (approvedValues tool r) Allow.

Lemma approve_restricts ctx tool r : restricts (approve ctx tool r) ctx.
Proof.
  unfold approve. destruct (addRule_step_prefix src_session Allow (approvedValues tool r) (rules ctx)) as (added & Ha & Hall).
  rewrite <- addRules_rules in Ha. split.
  - by rewrite <- clone_rules at 1.
  - intros x Hx Hb. rewrite Ha in Hx. apply elem_of_app in Hx as [Hx|Hx]; [done|].
    rewrite Forall_forall in Hall. apply Hall in Hx. unfold inSlot in Hx. reflect_bools. congruence.
  - intros x Hx _. rewrite Ha. apply elem_of_app. by left.
Qed.

Lemma trim_first c s : isWhite c = false -> exists t, trim (c :: s) = c :: t.
Proof.
  intros Hc. unfold trim. rewrite dropWhile_id by done. unfold trimEnd. cbn [rev].
  destruct (dropWhile_suffix isWhite (rev s ++ [c])) as (pre & E & Hp). destruct (dropWhile isWhite (rev s ++ [c])) as [|d t _] using rev_ind.
  - rewrite app_nil_r in E. rewrite <- E in Hp. apply Forall_app in Hp as [_ Hp]. apply Forall_cons in Hp as [Hp _]. congruence.
  - rewrite app_assoc in E. apply app_inj_tail in E as [_ <-]. exists (rev t). by rewrite rev_app_distr.
Qed.

Lemma home_needed ctx f p : reads ctx f p -> startsWith f (js "~/") = true -> truthy (homeDir ctx) = true.
Proof.
  intros (_ & Hv & _) Hf. apply startsWith_prefix in Hf as [s ->]. destruct (homeDir ctx) as [|c h]; [|done]. exfalso. revert Hv.
  unfold validatePath. destruct (trim_first 126%N (ch "/" :: s)) as [t Ht]; [done|]. change (js "~/" ++ s) with (126%N :: ch "/" :: s).
  rewrite Ht. cbn [truthy negb]. case_goal; [done|]. assert (startsWith (126%N :: t) (js "~") = true) as -> by (by destruct t).
  by destruct (_ || _).
Qed.

(** The directory of the suggestion is the one of the file. *)
Lemma suggestion_reads ctx f p : reads ctx f p ->
  posix_resolve [workingDirectory ctx;
    if str_eqb f (js "~") then homeDir ctx
    else if startsWith f (js "~/") then posix_join [homeDir ctx; drop 2 f] else f] = absPath p.
Proof.
  intros Hd. pose proof Hd as (Hc & _ & Hs). rewrite <- Hs at 1. unfold resolveShellAwarePath in *.
  destruct (isDrivePath f || existsb (N.eqb backslash) f).
  - subst f. change (str_eqb (absPath p) (js "~")) with false. change (startsWith (absPath p) (js "~/")) with false. cbn match.
    unfold posix_resolve. by rewrite resolve_under, resolve_canonical.
  - destruct (str_eqb f (js "~")); [done|]. destruct (startsWith f (js "~/")) eqn:Ht; [|done].
    by rewrite (home_needed ctx f p Hd Ht).
Qed.

(** Where the path is two levels deep, the suggestion is its directory, if anything. *)
Lemma suggested_directory ctx f l x : reads ctx f (l ++ [x]) -> l <> [] ->
  let suggestions := generateSuggestionRules f (Some (workingDirectory ctx)) (Some (homeDir ctx)) in
  suggestions = [] \/ suggestions = [absPath l ++ js "/**"].
Proof.
  intros Hd Hl. pose proof (reads_clean _ _ _ Hd) as Hc. apply Forall_app in Hc as [Hc Hx]. apply Forall_cons in Hx as [Hx _].
  unfold generateSuggestionRules. cbn [default from_option id]. rewrite (suggestion_reads _ _ _ Hd), dirname_segment by done.
  cbv zeta. case_goal; [by left|]. right.
  assert (str_eqb (absPath l) (absPath []) = false) as Hr.
  { destruct (str_eqb _ _) eqn:E; [|done]. apply absPath_eqb in E; [done|done|constructor]. }
  change (js "/") with (absPath []). change (posix_root (absPath l)) with (absPath []). by rewrite Hr.
Qed.

Lemma directory_covers l x : clean l -> l <> [] -> ruleCovers (absPath l ++ js "/**") (l ++ [x]).
Proof.
  intros Hl Hne. unfold ruleCovers, endsWith. rewrite rev_app_distr.
  assert (startsWith (rev (js "/**") ++ rev (absPath l)) (rev (js "/**")) = true) as ->.
  { apply startsWith_prefix. by eexists. }
  rewrite length_app. replace (length (absPath l) + length (js "/**") - 3) with (length (absPath l)) by (cbn; lia).
  rewrite take_app_length, named_abs by done. right. split; [done|]. by exists [x].
Qed.

(** ** The stored rule *)
Lemma evaluate_shape f action ctx o : exists b reason,
  evaluatePathCapability f action ctx o = plainly b reason
  \/ exists immune skip, evaluatePathCapability f action ctx o = suggesting b reason immune skip f (ruleAction action) ctx.
Proof.
  unfold evaluatePathCapability, hardBlocked, safetyAsk. cbv zeta.
  repeat case_goal; do 2 eexists; first [left; reflexivity | right; do 2 eexists; reflexivity].
Qed.

Lemma suggested_once ctx f l x action o c cs : reads ctx f (l ++ [x]) -> l <> [] ->
  tc_ruleContents (evaluatePathCapability f action ctx o) = Some (c :: cs) -> forall tool,
  approvedValues tool (evaluatePathCapability f action ctx o)
  = [{| toolName := tool; ruleContent := Some (absPath l ++ js "/**");
        matcher := Some (pathMatcher (ruleAction action) (absPath l ++ js "/**")) |}].
Proof.
  intros Hd Hl Hc tool. destruct (evaluate_shape f action ctx o) as (b & reason & [E|(immune & skip & E)]).
  { by rewrite E in Hc. }
  rewrite E in *. cbn [suggesting tc_ruleContents] in Hc. unfold approvedValues. cbn [suggesting tc_ruleContents tc_ruleMatchers default from_option id].
  destruct (suggested_directory ctx f l x Hd Hl) as [Hs|Hs]; rewrite Hs in *; done.
Qed.

Lemma stored_rule ctx tool content action rs : rs = rules (addRules ctx src_session
    [{| toolName := tool; ruleContent := Some content; matcher := Some (pathMatcher action content) |}] Allow) -> content <> [] ->
  exists r, r ∈ rs /\ ruleBehavior r = Allow /\ toolName (ruleValue r) = tool /\ ruleContent (ruleValue r) = Some content
    /\ ruleAllowsPathAction r action = true.
Proof.
  intros -> Hne. set (v := {| toolName := tool; ruleContent := Some content; matcher := Some (pathMatcher action content) |}).
  pose proof (addRules_stored src_session Allow [v] (rules ctx) v ltac:(by left)) as Hs.
  apply existsb_exists in Hs as (r & Hr & Hs). apply list_elem_of_In in Hr. exists r. split; [exact Hr|].
  unfold sameRule, ruleValueEquals in Hs. reflect_bools. revert H1. case_goal; [done|]. reflect_bools. unfold str_eqb in *. reflect_bools.
  cbn [toolName ruleContent matcher v default from_option id] in *. intros Hm. unfold ruleAllowsPathAction, pathMatcher in *.
  repeat split; [done..| |].
  - destruct (ruleContent (ruleValue r)); cbn in *; congruence.
  - destruct (matcher (ruleValue r)) as [[|q|q [ys|]]|]; try done. cbn [matcherEquals] in Hm. reflect_bools.
    destruct ys as [|y [|z ys]]; try done. cbn in *. reflect_bools.
    match goal with Hy : y ∈ _ |- _ => apply list_elem_of_singleton in Hy as -> end.
    by rewrite bool_decide_eq_true_2 by (by left).
Qed.

Lemma origin_present ctx tool f act whole r p : tool <> [] -> mem tool [js "read"; js "write"; FS_UMBRELLA_TOOL_NAME] = false ->
  clean p -> resolveShellAwarePath f (workingDirectory ctx) (homeDir ctx) = absPath p ->
  r ∈ rules ctx -> ruleBehavior r = Allow -> toolName (ruleValue r) = tool -> ruleAllowsPathAction r act = true ->
  (exists content, ruleContent (ruleValue r) = Some content /\ content <> [] /\ ruleCovers content p) ->
  matchOriginToolPathRule ctx (Some tool) f act whole <> Some Deny -> matchOriginToolPathRule ctx (Some tool) f act whole = Some Allow.
Proof.
  intros Ht Hm Hp Hf Hr Hb Hn Ha (content & Hc & Hne & Hcov). unfold matchOriginToolPathRule. destruct tool as [|c o]; [done|].
  rewrite Hm, Hf. case_goal; [done|]. case_goal; [done|]. intros _. case_goal; [done|].
  destruct (contentRuleCovers (getContentRulesForTool ctx (c :: o) Allow) act (absPath p)) eqn:Hx; [done|]. exfalso.
  pose proof (List.find_none _ _ Hx r) as Hno. cbv beta in Hno. rewrite Ha, Hc in Hno. cbn [otruthy default from_option id andb] in Hno.
  destruct content as [|d content]; [done|]. cbn [truthy andb] in Hno.
  assert (matchPathRule (absPath p) (d :: content) = true) as Hmt by (apply rules_cover; by rewrite named_abs).
  rewrite Hmt in Hno. assert (true = false) as E; [|done]. apply Hno. unfold getContentRulesForTool. apply filter_In.
  split; [by apply list_elem_of_In|]. unfold str_eqb. by rewrite Hn, Hb, Hc, !bool_decide_eq_true_2.
Qed.

(** An approval answers the rules of the tool. *)
Lemma origin_approved ctx f l x action o tool whole c cs : reads ctx f (l ++ [x]) -> l <> [] ->
  tool <> [] -> mem tool [js "read"; js "write"; FS_UMBRELLA_TOOL_NAME] = false ->
  let r := evaluatePathCapability f action ctx o in
  tc_ruleContents r = Some (c :: cs) ->
  matchOriginToolPathRule ctx (Some tool) f (ruleAction action) whole <> Some Deny ->
  matchOriginToolPathRule (approve ctx tool r) (Some tool) f (ruleAction action) whole = Some Allow.
Proof.
  intros Hd Hl Ht Hm r Hc Hn. pose proof (approve_restricts ctx tool r) as Hres.
  destruct (stored_rule ctx tool (absPath l ++ js "/**") (ruleAction action) (rules (approve ctx tool r))) as (q & Hq & Hb & Hqt & Hqc & Hqa).
  { unfold approve, r. by rewrite (suggested_once ctx f l x action o c cs). }
  { done. }
  apply (origin_present _ _ _ _ _ q (l ++ [x])); [done|done|by apply (reads_clean ctx f)| |done..| |].
  - etransitivity; [|apply Hd]. symmetry. apply (shell_path _ _ Hres).
  - exists (absPath l ++ js "/**"). repeat split; [done..|]. apply directory_covers; [|done].
    pose proof (reads_clean _ _ _ Hd) as Hcl. by apply Forall_app in Hcl as [Hcl _].
  - intros E. apply Hn. by apply (origin_mono _ _ Hres).
Qed.

(** C16: an approved path is not asked about again: when the question about a file
    comes with suggestions, the same question is answered with allow once the
    suggestions are stored for the tool that asks, for secrets as for the boundary of
    the workspace, whatever the other rules.  The file lies at least one directory
    below the root, the readings of its path for the session and for the shell agree
    ([reads]), and the tool is named to the capability as the one that asks and is
    none of its own ([read], [write] and the umbrella of the file tools). *)
Theorem approved_paths_are_not_asked_again ctx f l x action o tool c cs : reads ctx f (l ++ [x]) -> l <> [] ->
  co_originToolName o = Some tool -> tool <> [] -> mem tool [js "read"; js "write"; FS_UMBRELLA_TOOL_NAME] = false ->
  let r := evaluatePathCapability f action ctx o in
  tc_behavior r = Checked Ask -> tc_ruleContents r = Some (c :: cs) ->
  tc_behavior (evaluatePathCapability f action (approve ctx tool r) o) = Checked Allow.
Proof.
  intros Hd Hl Ho Ht Hm r Ha Hc. pose proof (approve_restricts ctx tool r) as Hres.
  assert (forall whole, matchOriginToolPathRule ctx (Some tool) f (ruleAction action) whole <> Some Deny ->
          matchOriginToolPathRule (approve ctx tool r) (Some tool) f (ruleAction action) whole = Some Allow) as Hok.
  { intros whole. by apply (origin_approved ctx f l x action o tool whole c cs). }
  pose proof (result_mono _ _ Hres f action o) as Hmono. cbv zeta in Hmono.
  fold r. revert Ha Hc. unfold r at 1 2, evaluatePathCapability. rewrite (shell_path _ _ Hres).
  change (homeDir (approve ctx tool r)) with (homeDir ctx).
  unfold hardBlocked, safetyAsk. rewrite Ho. destruct (matchHardBlockedFsRead _) as [hit|].
  { destruct (matchOriginToolPathRule ctx _ _ _ false) as [[]|] eqn:Hf; intros; try done; by rewrite Hok by congruence. }
  case_goal; [done|]. case_goal; [done|].
  destruct Hmono as [[rule Hr]|[Hr|[[Hr Hr']|(path & Hv & Hr & Hr')]]].
  - rewrite Hr. done.
  - rewrite Hr. destruct (pp_allowed _).
    + by destruct (matchOriginToolPathRule ctx _ _ _ false) as [[]|].
    + destruct (pp_reason _); try done.
      * destruct (matchOriginToolPathRule ctx _ _ _ false) as [[]|] eqn:Hf; intros; try done; by rewrite Hok by congruence.
      * case_goal; [done|]. destruct (matchOriginToolPathRule ctx _ _ _ true) as [[]|] eqn:Hf; intros; try done; by rewrite Hok by congruence.
  - rewrite Hr'. by destruct (matchOriginToolPathRule ctx _ _ _ false) as [[]|].
  - rewrite Hr, Hr'. cbn [pp_allowed pp_reason refuse]. case_goal; [done|].
    destruct (matchOriginToolPathRule ctx _ _ _ true) as [[]|] eqn:Hf; intros; try done;
      rewrite Hok; try done; intros E; apply origin_whole in E; congruence.
Qed.
End Approval.

(** ** Witnesses *)
#[local] Existing Instance sampleFs.

Lemma approved_paths_are_not_asked_again_witness :
  let ctx := fsContext mode_default [] in
  let o := asking (Some (js "bash")) false in
  answer (js "~/notes/.env") cap_read o (approve ctx (js "bash") (evaluatePathCapability (js "~/notes/.env") cap_read ctx o)) = Checked Allow.
Proof.
  apply (approved_paths_are_not_asked_again (fsContext mode_default []) (js "~/notes/.env") [js "home"; js "u"; js "notes"] (js ".env")
           cap_read (asking (Some (js "bash")) false) (js "bash") (js "/home/u/notes/**") []).
  - reads_here.
  - done.
  - done.
  - done.
  - done.
  - by vm_compute.
  - by vm_compute.
Defined.

(** ** Where an approval goes further

    The suggestion is the directory, also for a secret: approving one file of it
    approves the keys beside it. *)
Lemma approval_opens_the_directory :
  let ctx := fsContext mode_default [] in
  let o := asking (Some (js "bash")) false in
  let question := evaluatePathCapability (js "/home/u/.ssh/known_hosts") cap_read ctx o in
  tc_behavior question = Checked Ask
  /\ answer (js "/home/u/.ssh/id_rsa") cap_read o ctx = Checked Ask
  /\ answer (js "/home/u/.ssh/id_rsa") cap_read o (approve ctx (js "bash") question) = Checked Allow.
Proof. by vm_compute. Qed.

(** In the root the suggestion is the name as written, which is matched against
    another directory: with the workspace in the root, a relative name is asked about
    again. *)
Lemma approval_in_the_root_is_lost :
  let ctx := {| mode := mode_default; rules := []; sandboxEnabled := false; autoAllowBashIfSandboxed := false; platform := js "linux";
    shellFamily := posix; workingDirectory := js "/"; allowedWorkingPaths := []; sandboxAllowPaths := [];
    trustedExactWritePaths := []; dataDir := js "/data"; homeDir := js "/home/u"; isFile := None; agentName := None;
    sessionId := None; allowManagedPermissionRulesOnly := false; interactiveTools := [] |} in
  let o := asking (Some (js "bash")) false in
  let question := evaluatePathCapability (js "notes") cap_read ctx o in
  tc_behavior question = Checked Ask
  /\ answer (js "notes") cap_read o (approve ctx (js "bash") question) = Checked Ask.
Proof. by vm_compute. Qed.
