(* ===== verification/UnknownPaths.v ===== *)
(** * Paths of tools without a checker

    [decideUnknownToolPathCapabilities] of
    [packages/agent-modules/permission/src/tools/path-capability.ts]: the files that
    the input of an unknown tool, a patch or a media tool names, and what may be done
    with them. *)
From S2P Require Import Prelude JsValue PermTypes PermContext PermissionEngine ShellTokenize ShellSplit BashAst BashWrappers BashPaths FsPath FsPermission PathCapability.

(** [decodeURIComponent(new URL(value).pathname)] for a [file:] URL; [None] where one
    of them throws or the protocol is another. *)
Class FileUrls := { fileUrlPath : jstr -> option jstr }.

(** ** Patches *)

(** [text.split(/\r?\n/)]. *)
Definition patchLines (text : jstr) : list jstr :=
  let parts := split text [newline] in
  let chop s := match rev s with c :: r => if (c =? cr)%N then rev r else s | [] => s end in
  map chop (removelast parts) ++ option_list (last parts).

Definition patchHeader (line : jstr) : list PathCapabilityIntent :=
  match valueOf line (js "*** Add File: ") with
  | Some path => [intent cap_write (trim path)]
  | None =>
  match valueOf line (js "*** Update File: ") with
  | Some path => [intent cap_write (trim path)]
  | None =>
  match valueOf line (js "*** Delete File: ") with
  | Some path => [intent cap_delete (trim path)]
  | None =>
  match valueOf line (js "*** Move to: ") with
  | Some path => [intent cap_write (trim path)]
  | None => []
  end end end end.

Definition extractApplyPatchPaths (patchText : jstr) : list PathCapabilityIntent := flat_map patchHeader (patchLines patchText).

Fixpoint firstText (fields : list jstr) (input : ToolInput) : option jstr :=
  match fields with
  | [] => None
  | field :: rest =>
      match as_string (jget field input) with
      | Some (c :: s) => Some (c :: s)
      | _ => firstText rest input
      end
  end.
Definition extractApplyPatchText (input : ToolInput) : option jstr :=
  firstText [js "patchText"; js "patch"; js "input"; js "_raw"] input.

(** ** Media tools *)
Definition MATRIX_READ_PATH_FIELDS : list jstr :=
  [js "file"; js "url"; js "file_path"; js "image"; js "audio"; js "video"; js "image_file"; js "image_file_path";
   js "audio_file_path"; js "video_file_path"; js "input_image"; js "input_image_path"; js "image_url"; js "audio_url";
   js "video_url"].
Definition MATRIX_READ_PATH_LIST_FIELDS : list jstr :=
  [js "input_files"; js "input_file_paths"; js "file_path_list"; js "image_list"; js "images"; js "image_file_path_list";
   js "audio_list"; js "audios"; js "audio_file_path_list"; js "video_list"; js "videos"; js "video_file_path_list";
   js "reference_image_paths"; js "reference_video_paths"; js "reference_audio_paths"].
Definition MATRIX_WRITE_PATH_FIELDS : list jstr := [js "output_file_path"; js "output_dir_path"].
Definition MATRIX_WRITE_PATH_LIST_FIELDS : list jstr := [js "output_file_path_list"].
Definition MATRIX_NATIVE_TOOL_NAMES : list jstr :=
  [js "web_search"; js "images_understand"; js "image_synthesize"; js "images_search_and_download"; js "image_reverse_search";
   js "submit_video_generation"; js "query_video_generation"; js "gen_videos"; js "batch_text_to_video"; js "batch_image_to_video";
   js "get_voice_list"; js "batch_text_to_audio"; js "batch_text_to_music"; js "synthesize_speech"; js "batch_synthesize_speech";
   js "audios_understand"; js "videos_understand"; js "transcribe_audio"].
Definition LEGACY_MATRIX_MCP_TOOL_PREFIXES : list jstr := [js "mcp_matrix_"; js "mcp__matrix__"; js "matrix_"].

Definition isHttpUrl (value : jstr) : bool := startsWith value (js "http://") || startsWith value (js "https://").
Definition isMatrixTool (tool : jstr) : bool :=
  mem tool MATRIX_NATIVE_TOOL_NAMES || existsb (startsWith tool) LEGACY_MATRIX_MCP_TOOL_PREFIXES.

Definition sameIntent (a b : PathCapabilityIntent) : bool :=
  bool_decide (pc_action a = pc_action b) && str_eqb (default [] (pc_relativeBase a)) (default [] (pc_relativeBase b))
  && str_eqb (pc_path a) (pc_path b).

Fixpoint dedupe_loop (seen intents : list PathCapabilityIntent) : list PathCapabilityIntent :=
  match intents with
  | [] => []
  | i :: rest => if existsb (sameIntent i) seen then dedupe_loop seen rest else i :: dedupe_loop (i :: seen) rest
  end.
Definition dedupePathIntents (intents : list PathCapabilityIntent) : list PathCapabilityIntent := dedupe_loop [] intents.

Section UnknownPaths.
Context `{FsHost} `{FileUrls}.

Definition stripFileUri (value : jstr) : jstr :=
  match valueOf value (js "file://") with
  | Some rest => default rest (fileUrlPath value)
  | None => value
  end.

(** [addRead] and [addWrite]. *)
Definition addPath (action : PathCapabilityAction) (value : jstr) : list PathCapabilityIntent :=
  if negb (truthy value) || isHttpUrl value then []
  else let filePath := trim (stripFileUri value) in
       if truthy filePath then [intent action filePath] else [].

(** The action a field is for. *)
Definition fieldAction (field : jstr) : option PathCapabilityAction :=
  if mem field MATRIX_READ_PATH_FIELDS || mem field MATRIX_READ_PATH_LIST_FIELDS then Some cap_read
  else if mem field MATRIX_WRITE_PATH_FIELDS || mem field MATRIX_WRITE_PATH_LIST_FIELDS then Some cap_write
  else None.

Definition isStructure (v : json) : bool := match v with JArr _ | JObj _ => true | _ => false end.

(** [collectValue] with an action, and [collectMatrixAliasPath] of a field that has none. *)
Fixpoint collectValue (action : option PathCapabilityAction) (v : json) : list PathCapabilityIntent :=
  match v with
  | JStr s => match action with Some a => addPath a s | None => [] end
  | JArr items =>
      flat_map (fun item =>
        match action with
        | Some a => collectValue (Some a) item
        | None => if isStructure item then collectValue (Some cap_read) item else []
        end) items
  | JObj fields => flat_map (fun e => collectValue (fieldAction (fst e)) (snd e)) fields
  | _ => []
  end.

Definition extractMatrixToolPathIntents (tool : jstr) (input : ToolInput) : list PathCapabilityIntent :=
  if isMatrixTool tool
  then dedupePathIntents (flat_map (fun e => collectValue (fieldAction (fst e)) (snd e)) input)
  else [].

(** ** Any tool *)
Definition inferUnknownAction (tool field : jstr) : PathCapabilityAction :=
  let lowerTool := lowerCase tool in
  let lowerField := lowerCase field in
  if existsb (includes lowerTool) [js "delete"; js "remove"; js "unlink"] then cap_delete
  else if mem lowerField [js "output"; js "destination"; js "target"] then cap_write
  else if mem lowerField [js "cwd"; js "dir"] then cap_write
  else if existsb (includes lowerTool) [js "read"; js "fetch"; js "open"; js "show"; js "list"; js "grep"; js "glob"] then cap_read
  else cap_write.

Definition PATH_FIELDS : list jstr :=
  [js "filePath"; js "file_path"; js "path"; js "output"; js "destination"; js "target"; js "dir"; js "cwd"].
Definition SCRIPT_SUFFIXES : list jstr :=
  [js ".sh"; js ".bash"; js ".zsh"; js ".py"; js ".js"; js ".mjs"; js ".cjs"; js ".ts"; js ".tsx"].

Definition fieldIntents (tool : jstr) (input : ToolInput) (field : jstr) : list PathCapabilityIntent :=
  match as_string (jget field input) with
  | Some value => if isLikelyLocalPath value then [intent (inferUnknownAction tool field) value] else []
  | None => []
  end.

Definition commandIntents (input : ToolInput) : list PathCapabilityIntent :=
  match as_string (jget (js "command") input) with
  | Some value =>
      if negb (existsb (N.eqb 32) value)
         && (isLikelyLocalPath value || existsb (endsWith (map asciiLower value)) SCRIPT_SUFFIXES)
      then [intent cap_execute value] else []
  | None => []
  end.

Definition patchIntents (tool : jstr) (input : ToolInput) : list PathCapabilityIntent :=
  if str_eqb tool (js "apply_patch") then
    match extractApplyPatchText input with Some text => extractApplyPatchPaths text | None => [] end
  else [].

Definition extractUnknownToolPathIntents (tool : jstr) (input : ToolInput) : list PathCapabilityIntent :=
  dedupePathIntents (flat_map (fieldIntents tool input) PATH_FIELDS ++ commandIntents input ++ patchIntents tool input
                     ++ extractMatrixToolPathIntents tool input).

Definition resolvePathIntent (i : PathCapabilityIntent) (ctx : ToolPermissionContext) : jstr :=
  if bool_decide (pc_relativeBase i = Some (js "home")) then posix_resolve [homeDir ctx; pc_path i] else pc_path i.

Definition unknownOptions (tool : jstr) (action : PathCapabilityAction) : PathCapabilityOptions :=
  {| co_toolName := Some (pathActionToToolName action); co_allowTempWrite := Some (str_eqb tool (js "apply_patch"));
     co_originToolName := Some tool |}.

Definition unknownDecision (tool : jstr) (ctx : ToolPermissionContext) (i : PathCapabilityIntent) : ToolCheckResult :=
  evaluatePathCapability (resolvePathIntent i ctx) (pc_action i) ctx (unknownOptions tool (pc_action i)).

Definition orElse {A} (a b : option A) : option A := match a with Some x => Some x | None => b end.

(** A denial; or whether something was allowed, and the first questions. *)
Fixpoint decide_loop (tool : jstr) (ctx : ToolPermissionContext) (intents : list PathCapabilityIntent) (sawAllow : bool)
    (pendingAsk pendingImmuneAsk : option ToolCheckResult) : ToolCheckResult + bool * option ToolCheckResult * option ToolCheckResult :=
  match intents with
  | [] => inr (sawAllow, pendingAsk, pendingImmuneAsk)
  | i :: rest =>
      let decision := unknownDecision tool ctx i in
      if bool_decide (tc_behavior decision = Checked Deny) then inl decision
      else if bool_decide (tc_behavior decision = Checked Ask) then
        if isTrue (tc_bypassImmune decision)
        then decide_loop tool ctx rest sawAllow pendingAsk (orElse pendingImmuneAsk (Some decision))
        else decide_loop tool ctx rest sawAllow (orElse pendingAsk (Some decision)) pendingImmuneAsk
      else decide_loop tool ctx rest true pendingAsk pendingImmuneAsk
  end.

Definition decideUnknownToolPathCapabilities (tool : jstr) (input : ToolInput) (ctx : ToolPermissionContext) : option ToolCheckResult :=
  match extractUnknownToolPathIntents tool input with
  | [] =>
      if str_eqb tool (js "apply_patch") then
        Some (plainly Ask (ReasonSafetyCheck
          (js "apply_patch payload could not be parsed for path-capability checks; manual confirmation required.") None None))
      else None
  | intents =>
      match decide_loop tool ctx intents false None None with
      | inl denied => Some denied
      | inr (_, _, Some immune) => Some immune
      | inr (_, Some ask, None) => Some ask
      | inr (true, None, None) =>
          Some (plainly Allow (ReasonSafetyCheck (js "Path capability allow for tool " ++ dquote :: tool ++ [dquote]) None None))
      | inr (false, None, None) => None
      end
  end.

(** The fallback of the engine. *)
Definition unknownPathChecker : Checker := fun tool input ctx => Returned (decideUnknownToolPathCapabilities tool input ctx).
End UnknownPaths.
