(* ===== verification/BashRewrite.v ===== *)
(** * Recoverable deletion: rewriting [rm] to the trash command

    The [rm] helpers of
    [packages/agent-modules/permission/src/tools/bash-permission.ts],
    [buildRecoverableDeleteRewriteInput] of [bash-checker.ts], and
    [windows-trash-execution.ts].  The command line keeps every character
    except the subcommands that delete, which become calls of [mavis-trash].
    Node's [os.homedir], [path.join] and [process.platform] are the class
    [HostPaths]. *)
From S2P Require Import Prelude JsValue PermTypes ShellTokenize ShellSplit BashRules BashWrappers BashEvaluate.

Class HostPaths := {
  homedir : jstr;
  (** [path.join] of the host, and [path.win32.join]. *)
  path_join : list jstr -> jstr;
  win32_join : list jstr -> jstr;
  process_platform : jstr;
}.

(** ** Quoting *)
Definition isSafeUnit (c : jchar) : bool :=
  isDigit c || isAlpha_ c || bool_decide (c ∈ js "./:@=,-").

(** [s.replace(/'/g, ...)]: close the quotes, an escaped quote, open them again. *)
Definition escapeQuotes (s : jstr) : jstr :=
  flat_map (fun c => if (c =? squote)%N then [squote; backslash; squote; squote] else [c]) s.

Definition shellQuote (s : jstr) : jstr :=
  if truthy s && forallb isSafeUnit s then s else squote :: escapeQuotes s ++ [squote].

(** ** The targets of a deletion *)
Definition RM_TARGET_STOP_TOKENS : list jstr :=
  [js "&&"; js "||"; js ";"; js "|"; js "<"; js ">"; js "<<"; js "<<-"; js ">>"; js "&>"; js "&>>"].

(** Also digits before a redirection sign. *)
Definition tokenStopsRmTargetScan (token : jstr) : bool :=
  mem token RM_TARGET_STOP_TOKENS
  || match dropWhile isDigit token with c :: _ => (c =? ch "<")%N || (c =? ch ">")%N | [] => false end.

(** A drive letter with a slash of either kind, or two backslashes. *)
Definition isWindowsPath (raw : jstr) : bool :=
  match raw with
  | l :: c :: s :: _ => negb (isDigit l) && negb (l =? ch "_")%N && isAlpha_ l && (c =? ch ":")%N
                        && ((s =? backslash)%N || (s =? ch "/")%N)
  | _ => false
  end || startsWith raw [backslash; backslash].

Record RmTarget := { rt_value : jstr; rt_quoted : bool }.

(** The text of a token without one pair of quotes around it. *)
Definition unquoteRaw (raw : jstr) : jstr :=
  if (2 <=? length raw)%nat then
    match head raw, last raw with
    | Some f, Some l =>
        if ((f =? dquote) && (l =? dquote) || (f =? squote) && (l =? squote))%N
        then removelast (tail raw) else raw
    | _, _ => raw
    end
  else raw.

Section Rewrite.
Context `{BashPatterns} `{HostPaths}.

Definition targetValue (command : jstr) (platform : jstr) (t : ShellToken) : jstr :=
  let raw := unquoteRaw (slice command (start t) (end_ t)) in
  if isWindowsPath raw || str_eqb platform (js "win32") && includes raw [backslash]
  then raw else value t.

Fixpoint targets_loop (command : jstr) (platform : jstr) (ts : list ShellToken) (pastDoubleDash : bool) :
    list RmTarget :=
  match ts with
  | [] => []
  | t :: rest =>
      if negb pastDoubleDash && negb (quoted t) && tokenStopsRmTargetScan (value t) then []
      else if str_eqb (value t) (js "--") then targets_loop command platform rest true
      else if negb pastDoubleDash && startsWith (value t) (js "-")
      then targets_loop command platform rest pastDoubleDash
      else {| rt_value := targetValue command platform t; rt_quoted := quoted t |}
             :: targets_loop command platform rest pastDoubleDash
  end.

Definition parseRmTargetsWithMetadata (command : jstr) : list RmTarget :=
  let shellTokens := shellTokenizeWithMetadata command in
  match findRmTokenIndex (map value shellTokens) with
  | None => []
  | Some rmIdx => targets_loop command process_platform (drop (rmIdx + 1) shellTokens) false
  end.

Definition parseRmTargets (command : jstr) : list jstr := map rt_value (parseRmTargetsWithMetadata command).

Definition HOME_DIR : jstr := js "$HOME".
Definition HOME_BRACES : jstr := js "${HOME}".

Definition resolveHomeInTarget (target : jstr) : jstr :=
  if str_eqb target (js "~") then homedir
  else if startsWith target (js "~/") then path_join [homedir; drop 2 target]
  else if str_eqb target HOME_DIR || str_eqb target HOME_BRACES then homedir
  else if startsWith target (HOME_DIR ++ js "/") then path_join [homedir; drop (length (HOME_DIR ++ js "/")) target]
  else if startsWith target (HOME_BRACES ++ js "/")
  then path_join [homedir; drop (length (HOME_BRACES ++ js "/")) target]
  else target.

Definition resolvedTarget (t : RmTarget) : jstr :=
  if rt_quoted t then rt_value t else resolveHomeInTarget (rt_value t).

Definition buildTrashCommand (trashBinPath : jstr) (targets : list RmTarget) : jstr :=
  match targets with
  | [] => trashBinPath
  | _ => trashBinPath ++ js " -- " ++ join (js " ") (map (fun t => shellQuote (resolvedTarget t)) targets)
  end.

(** ** Finding a subcommand in the command line *)
Definition rangesOverlap (s e : nat) (range : HeredocBodyRange) : bool :=
  (s <? b_end range)%nat && (b_start range <? e)%nat.

(** The fuel bounds the starts tried: each moves forward. *)
Fixpoint outside_loop (fuel : nat) (source needle : jstr) (from : nat) (excluded : list HeredocBodyRange) :
    option nat :=
  match fuel with
  | O => None
  | S fuel' =>
      if (from <? length source)%nat then
        match indexOfStr source needle from with
        | None => None
        | Some idx =>
            match List.find (rangesOverlap idx (idx + length needle)) excluded with
            | None => Some idx
            | Some range => outside_loop fuel' source needle (b_end range) excluded
            end
        end
      else None
  end.

Definition findOutsideRanges (source needle : jstr) (searchFrom : nat) (excluded : list HeredocBodyRange) :
    option nat := outside_loop (S (length source)) source needle searchFrom excluded.

Definition isBlank (c : jchar) : bool := ((c =? 32) || (c =? 9))%N.

(** [while (end > 0 && /[ \t]/.test(source[end - 1]))]. *)
Fixpoint skipBlanksBack (source : jstr) (e : nat) : nat :=
  match e with
  | O => O
  | S e' => match source !! e' with
            | Some c => if isBlank c then skipBlanksBack source e' else e
            | None => e
            end
  end.

Definition trimEndBeforeOperator (source : jstr) (operatorIndex : nat) : nat :=
  let e := skipBlanksBack source operatorIndex in
  let lineBreakStart :=
    if (1 <? e)%nat && at_is source (e - 2) cr && at_is source (e - 1) newline then Some (e - 2)
    else if (0 <? e)%nat && at_is source (e - 1) newline then Some (e - 1)
    else None in
  match lineBreakStart with
  | Some (S l) => if at_is source l backslash then skipBlanksBack source l else e
  | _ => e
  end.

(** The first unquoted [<<] that is not part of [<<<]. *)
Fixpoint operator_loop (header : jstr) (s : jstr) (i : nat) (sq dq esc : bool) : option nat :=
  match s with
  | [] => None
  | c :: s' =>
      if esc then operator_loop header s' (S i) sq dq false
      else if (c =? backslash)%N && negb sq then operator_loop header s' (S i) sq dq true
      else if (c =? squote)%N && negb dq then operator_loop header s' (S i) (negb sq) dq false
      else if (c =? dquote)%N && negb sq then operator_loop header s' (S i) sq (negb dq) false
      else if sq || dq then operator_loop header s' (S i) sq dq false
      else if (c =? ch "<")%N && at_is header (i + 1) (ch "<")
              && negb ((0 <? i)%nat && at_is header (i - 1) (ch "<")) && negb (at_is header (i + 2) (ch "<"))
      then Some (trimEndBeforeOperator header i)
      else operator_loop header s' (S i) sq dq false
  end.

Definition findHeredocOperatorRewriteEnd (headerSource : jstr) : option nat :=
  operator_loop headerSource headerSource 0 false false false.

Fixpoint findHeredocHeaderRewriteRange (source subcmd : jstr) (searchFrom : nat)
    (all todo : list HeredocBodyRange) : option (nat * nat) :=
  match todo with
  | [] => None
  | range :: rest =>
      let next := findHeredocHeaderRewriteRange source subcmd searchFrom all rest in
      match indexOfStr subcmd (slice source (b_start range) (b_end range)) 0 with
      | None | Some O => next
      | Some bodyOffset =>
          let headerSource := take bodyOffset subcmd in
          match findOutsideRanges source headerSource searchFrom all with
          | None => next
          | Some headerStart =>
              match findHeredocOperatorRewriteEnd headerSource with
              | None => next
              | Some rewriteEnd => Some (headerStart, headerStart + rewriteEnd)
              end
          end
      end
  end.

Fixpoint findHeredocSubcommandEnd (source subcmd : jstr) (searchFrom : nat)
    (all todo : list HeredocBodyRange) : option nat :=
  match todo with
  | [] => None
  | range :: rest =>
      let next := findHeredocSubcommandEnd source subcmd searchFrom all rest in
      let bodySource := slice source (b_start range) (b_end range) in
      match indexOfStr subcmd bodySource 0 with
      | None | Some O => next
      | Some bodyOffset =>
          match findOutsideRanges source (take bodyOffset subcmd) searchFrom all with
          | None => next
          | Some headerStart => Some (headerStart + bodyOffset + length bodySource)
          end
      end
  end.

(** ** The rewritten command line *)
Record Replacement := { rp_start : nat; rp_end : nat; rp_text : jstr }.

(** The loop over the subcommands. *)
Fixpoint replacements_loop (source : jstr) (rewrittenParts : jmap jstr jstr) (bodies : list HeredocBodyRange)
    (subcommands : list jstr) (searchFrom : nat) : list Replacement :=
  match subcommands with
  | [] => []
  | subcmd :: rest =>
      let go := replacements_loop source rewrittenParts bodies rest in
      match jget subcmd rewrittenParts with
      | None =>
          match findOutsideRanges source subcmd searchFrom bodies with
          | Some idx => go (idx + length subcmd)
          | None =>
              match findHeredocSubcommandEnd source subcmd searchFrom bodies bodies with
              | Some e => go e
              | None => go searchFrom
              end
          end
      | Some replacement =>
          match findOutsideRanges source subcmd searchFrom bodies with
          | Some idx =>
              {| rp_start := idx; rp_end := idx + length subcmd; rp_text := replacement |}
                :: go (idx + length subcmd)
          | None =>
              match findHeredocHeaderRewriteRange source subcmd searchFrom bodies bodies with
              | None => go searchFrom
              | Some (s, e) => {| rp_start := s; rp_end := e; rp_text := replacement |} :: go e
              end
          end
      end
  end.

(** [command.slice(0, start) + replacement + command.slice(end)]. *)
Definition applyReplacement (r : Replacement) (command : jstr) : jstr :=
  take (rp_start r) command ++ rp_text r ++ drop (rp_end r) command.

(** Back to front. *)
Definition applyReplacements (command : jstr) (rs : list Replacement) : jstr :=
  foldr applyReplacement command rs.

Definition rewriteCommand (originalCommand : jstr) (rewrittenParts : jmap jstr jstr) : jstr :=
  applyReplacements originalCommand
    (replacements_loop originalCommand rewrittenParts (findHeredocBodyRanges originalCommand)
       (splitCommand originalCommand) 0).

(** ** [windows-trash-execution.ts]

    The property named by a symbol is written as a field no tool input uses. *)
Definition WINDOWS_TRASH_EXECUTION : jstr := js "Symbol(@bari/permission/windows-trash-execution)".
Definition NO_LITERAL_TARGET : jstr := js "Windows trash execution requires at least one literal target.".

Definition withWindowsTrashExecution (input : ToolInput) (targets : list jstr) : jstr + ToolInput :=
  if bool_decide (targets = []) || negb (forallb truthy targets)
  then inl NO_LITERAL_TARGET
  else inr (jset WINDOWS_TRASH_EXECUTION (JObj [(js "targets", JArr (map JStr targets))]) input).

(** ** [buildRecoverableDeleteRewriteInput] *)
Definition trashBinFor (platform dataDir : jstr) : jstr :=
  if str_eqb platform (js "win32") then win32_join [dataDir; js "bin"; js "mavis-trash.cmd"]
  else path_join [dataDir; js "bin"; js "mavis-trash"].

(** The first deletion that Windows can undo, if any. *)
Fixpoint firstRecoverable (reasons : list (jstr * SubcommandResult)) : option (list jstr) :=
  match reasons with
  | [] => None
  | (_, MkSubcommandResult _ (ReasonRecoverableDeleteRewrite targets)) :: _ => Some targets
  | _ :: rest => firstRecoverable rest
  end.

(** The subcommands to rewrite, with their rewriting. *)
Definition rewrittenParts (trashBin : jstr) (reasons : list (jstr * SubcommandResult)) : jmap jstr jstr :=
  fold_left (fun m e =>
    match e with
    | (subcmd, MkSubcommandResult _ (ReasonRmRewrite _)) =>
        jset subcmd (buildTrashCommand trashBin (parseRmTargetsWithMetadata subcmd)) m
    | _ => m
    end) reasons [].

(** [{ ...originalInput, command }]. *)
Definition withCommand (input : ToolInput) (command : jstr) : ToolInput := jset (js "command") (JStr command) input.

(** A thrown error, or the rewritten input if there is one. *)
Definition buildRecoverableDeleteRewriteInput (originalInput : ToolInput) (reason : DecisionReason)
    (platform dataDir : jstr) : jstr + option ToolInput :=
  match reason with
  | ReasonSubcommandResults reasons =>
      match as_string (jget (js "command") originalInput) with
      | None | Some [] => inr None
      | Some originalCommand =>
          if negb (truthy dataDir) then inr None
          else match firstRecoverable reasons with
               | Some targets =>
                   if negb (mem platform [js "win32"; js "darwin"; js "linux"]) then inr None
                   else match withWindowsTrashExecution
                                (jset (js "run_in_background") (JBool false)
                                   (withCommand originalInput (js "mavis-trash --"))) targets with
                        | inl e => inl e
                        | inr i => inr (Some i)
                        end
               | None =>
                   match rewrittenParts (trashBinFor platform dataDir) reasons with
                   | [] => inr None
                   | parts => inr (Some (withCommand originalInput (rewriteCommand originalCommand parts)))
                   end
               end
      end
  | _ => inr None
  end.
End Rewrite.

(** ** Lemmas: the trash command *)
Lemma escapeQuotes_body w : escapeQuotes w ++ [squote] = quote_body w.
Proof.
  induction w as [|c w IH]; [done|]. cbn [escapeQuotes flat_map quote_body].
  rewrite <- IH, <- app_assoc. done.
Qed.

(** A word is quoted as a command line quotes it, or needs no quotes. *)
Lemma shellQuote_cases w :
  shellQuote w = ShellTokenize.shellQuote w \/ (shellQuote w = w /\ forallb isSafeUnit w = true).
Proof.
  unfold shellQuote. destruct (truthy w && forallb isSafeUnit w) eqn:E.
  - right. split; [done|]. by apply andb_true_iff in E as [_ ?].
  - left. by rewrite escapeQuotes_body.
Qed.

Lemma safe_unit_plain c : isSafeUnit c = true ->
  (c =? backslash)%N = false /\ (c =? squote)%N = false /\ (c =? dquote)%N = false /\ isShellWhitespace c = false.
Proof.
  intros Hc. assert (forall d, isSafeUnit d = false -> (c =? d)%N = false) as Hd.
  { intros d Hd. destruct (N.eqb_spec c d); congruence. }
  repeat (split; [by apply Hd|]). unfold isShellWhitespace. rewrite (Hd 32%N) by done. cbn [orb].
  destruct (9 <=? c)%N eqn:H9; [|done]. destruct (c <=? 13)%N eqn:H13; [|done].
  apply N.leb_le in H9, H13. exfalso.
  assert (c ∈ [9; 10; 11; 12; 13]%N) as Hin by (rewrite !elem_of_cons; lia).
  repeat (apply elem_of_cons in Hin as [->|Hin]; [done|]). by apply elem_of_nil in Hin.
Qed.

Lemma tok_safe w s : forall i st, plain st -> forallb isSafeUnit w = true ->
  exists j st', tok_loop (w ++ s) i st = tok_loop s j st' /\ plain st' /\ vals st' = vals st
    /\ ShellTokenize.current st' = ShellTokenize.current st ++ w.
Proof.
  induction w as [|c w IH]; intros i st Hp Hw; [exists i, st; by rewrite app_nil_r|].
  cbn [forallb] in Hw. apply andb_true_iff in Hw as [Hc Hw]. pose proof Hp as (Hs & Hd & He).
  destruct (safe_unit_plain c Hc) as (Hb & Hq & Hdq & Hws).
  destruct (IH (S i) (push c i false st)) as (j & st' & Hl & Hp' & Hv & Hcur); [done..|].
  exists j, st'. split; [|split; [done|]; split; [done|]; rewrite Hcur; cbn; by rewrite <- app_assoc].
  cbn [app tok_loop]. rewrite He, Hs, Hd, Hb, Hq, Hdq, Hws. exact Hl.
Qed.

(** Either way a word is read back. *)
Lemma tok_word w s i st : plain st ->
  exists j st', tok_loop (shellQuote w ++ s) i st = tok_loop s j st' /\ plain st' /\ vals st' = vals st
    /\ ShellTokenize.current st' = ShellTokenize.current st ++ w.
Proof.
  intros Hp. destruct (shellQuote_cases w) as [->|[-> Hw]]; [by apply tok_shellQuote|by apply tok_safe].
Qed.

Lemma tok_words ws : forall i e st, plain st -> ShellTokenize.current st = [] ->
  vals (flushCurrent e (tok_loop (join (js " ") (map shellQuote ws)) i st)) = vals st ++ List.filter truthy ws.
Proof.
  induction ws as [|w ws IH]; intros i e st Hp Hc; [cbn [map join tok_loop]; by rewrite vals_flush, Hc|].
  destruct ws as [|w' ws].
  - change (join (js " ") (map shellQuote [w])) with (shellQuote w). rewrite <- (app_nil_r (shellQuote w)).
    destruct (tok_word w [] i st Hp) as (j & st' & -> & Hp' & Hv & Hcur).
    cbn [tok_loop]. by rewrite vals_flush, Hv, Hcur, Hc.
  - change (join (js " ") (map shellQuote (w :: w' :: ws)))
      with (shellQuote w ++ 32%N :: join (js " ") (map shellQuote (w' :: ws))).
    destruct (tok_word w (32%N :: join (js " ") (map shellQuote (w' :: ws))) i st Hp)
      as (j & st' & -> & Hp' & Hv & Hcur).
    rewrite tok_space, IH by done. rewrite vals_flush, Hv, Hcur, Hc, <- app_assoc.
    by rewrite <- (List.filter_app truthy [w]).
Qed.

Lemma quoted_safe w : truthy w = true -> forallb isSafeUnit w = true -> shellQuote w = w.
Proof. unfold shellQuote. by intros -> ->. Qed.

Lemma tokenize_trash `{BashPatterns} `{HostPaths} bin targets : forallb isSafeUnit bin = true -> bin <> [] ->
  targets <> [] ->
  shellTokenize (buildTrashCommand bin targets) = bin :: js "--" :: List.filter truthy (map resolvedTarget targets).
Proof.
  intros Hb Hn Ht. assert (truthy bin = true) as Hbt by (by destruct bin).
  assert (buildTrashCommand bin targets = join (js " ") (map shellQuote (bin :: js "--" :: map resolvedTarget targets))) as ->.
  { unfold buildTrashCommand. destruct targets as [|t ts]; [done|]. cbn [map]. rewrite (quoted_safe bin) by done.
    rewrite map_map. reflexivity. }
  change (shellTokenize ?s) with (vals (flushCurrent (length s) (tok_loop s 0 tok_init))).
  rewrite tok_words by done. cbn [List.filter]. by rewrite Hbt.
Qed.

(** ** Lemmas: the targets of a quoted command line *)

(** The tokens of a quoted command line that starts at [i]. *)
Fixpoint quotedTokens (i : nat) (argv : list jstr) : list ShellToken :=
  match argv with
  | [] => []
  | w :: rest =>
      let e := i + length w + 2 in
      (if truthy w then [{| value := w; start := i; end_ := e; quoted := true |}] else [])
      ++ quotedTokens (S e) rest
  end.

(** The tokeniser inside the single quotes of a word that began at [k]. *)
Definition inWord (ts : list ShellToken) (cur : jstr) (k : nat) (sq : bool) : TokState :=
  {| ShellTokenize.tokens := ts; ShellTokenize.current := cur; currentStart := Some k; currentQuoted := true;
     inSingleQuote := sq; inDoubleQuote := false; ShellTokenize.escaped := false |}.
Definition between (ts : list ShellToken) : TokState :=
  {| ShellTokenize.tokens := ts; ShellTokenize.current := []; currentStart := None; currentQuoted := false;
     inSingleQuote := false; inDoubleQuote := false; ShellTokenize.escaped := false |}.

Lemma tok_inside w s ts k : noQuote w = true -> forall i cur,
  tok_loop (w ++ squote :: s) i (inWord ts cur k true) = tok_loop s (S (i + length w)) (inWord ts (cur ++ w) k false).
Proof.
  induction w as [|c w IH]; intros Hq i cur.
  - cbn [app]. rewrite tok_quote by done. cbn [length]. by rewrite Nat.add_0_r, app_nil_r.
  - cbn [noQuote forallb] in Hq. apply andb_true_iff in Hq as [Hc%negb_true_iff%N.eqb_neq Hq].
    cbn [app]. rewrite tok_single by done.
    change (push c i false (inWord ts cur k true)) with (inWord ts (cur ++ [c]) k true).
    rewrite IH by done. rewrite <- app_assoc. cbn [length]. f_equal. lia.
Qed.

Lemma tok_quoted_word w s ts i : noQuote w = true ->
  tok_loop (ShellTokenize.shellQuote w ++ s) i (between ts) = tok_loop s (i + length w + 2) (inWord ts w i false).
Proof.
  intros Hq. rewrite shellQuote_plain by done. cbn [app]. rewrite tok_quote by done.
  change (mark i _ _ _ _) with (inWord ts [] i true). rewrite <- app_assoc. cbn [app]. rewrite tok_inside by done.
  f_equal. lia.
Qed.

Lemma flush_word ts w k e : flushCurrent e (inWord ts w k false) =
  between (ts ++ if truthy w then [{| value := w; start := k; end_ := e; quoted := true |}] else []).
Proof. unfold flushCurrent, between. destruct w; cbn; by rewrite ?app_nil_r. Qed.

Lemma tok_quoted_line argv : forallb noQuote argv = true -> forall i ts,
  ShellTokenize.tokens (flushCurrent (i + length (commandLine argv)) (tok_loop (commandLine argv) i (between ts)))
    = ts ++ quotedTokens i argv.
Proof.
  induction argv as [|w argv IH]; cbn [forallb]; intros Hq i ts; [by rewrite app_nil_r|].
  apply andb_true_iff in Hq as [Hw Hq]. rewrite commandLine_cons, tok_quoted_word by done.
  assert (length (ShellTokenize.shellQuote w) = length w + 2) as Hl.
  { rewrite shellQuote_plain by done. cbn. rewrite length_app. cbn. lia. }
  rewrite length_app, Hl. cbn [quotedTokens]. destruct argv as [|w' argv].
  - cbn [tok_loop length quotedTokens]. rewrite flush_word, app_nil_r. cbn.
    replace (i + (length w + 2 + 0)) with (i + length w + 2) by lia. done.
  - rewrite tok_space, flush_word by done. cbn [length].
    replace (i + (length w + 2 + S (length (commandLine (w' :: argv)))))
      with (S (i + length w + 2) + length (commandLine (w' :: argv))) by lia.
    rewrite IH by done. by rewrite <- app_assoc.
Qed.

Lemma tokens_quoted_line argv : forallb noQuote argv = true ->
  shellTokenizeWithMetadata (commandLine argv) = quotedTokens 0 argv.
Proof. intros Hq. by apply (tok_quoted_line argv Hq 0 []). Qed.

(** The text of each token is its word in quotes. *)
Lemma quotedTokens_text argv : forallb noQuote argv = true -> forall pre,
  Forall (fun t => quoted t = true /\ slice (pre ++ commandLine argv) (start t) (end_ t) = squote :: value t ++ [squote])
    (quotedTokens (length pre) argv).
Proof.
  induction argv as [|w argv IH]; cbn [forallb quotedTokens]; intros Hq pre; [constructor|].
  apply andb_true_iff in Hq as [Hw Hq]. rewrite commandLine_cons, shellQuote_plain by done.
  apply Forall_app. split.
  - destruct (truthy w); [|constructor]. constructor; [|constructor]. split; [done|].
    unfold slice. cbn [start end_ value]. rewrite drop_app_length.
    rewrite take_app_le by (cbn; rewrite length_app; cbn; lia).
    apply take_ge. cbn. rewrite length_app. cbn. lia.
  - destruct argv as [|w' argv]; [constructor|].
    specialize (IH Hq ((pre ++ squote :: w ++ [squote]) ++ [32%N])).
    replace (length ((pre ++ squote :: w ++ [squote]) ++ [32%N])) with (S (length pre + length w + 2)) in IH
      by (rewrite !length_app; cbn; rewrite length_app; cbn; lia).
    rewrite <- app_assoc, <- app_assoc in IH. exact IH.
Qed.

Lemma quotedTokens_values argv : forall i, map value (quotedTokens i argv) = List.filter truthy argv.
Proof.
  induction argv as [|w argv IH]; intros i; [done|]. cbn [quotedTokens List.filter]. rewrite map_app, IH.
  by destruct (truthy w).
Qed.

Lemma unquote_quoted w : unquoteRaw (squote :: w ++ [squote]) = w.
Proof.
  unfold unquoteRaw. cbn [length head tail]. rewrite length_app, Nat.add_1_r. cbn [Nat.leb].
  rewrite app_comm_cons, last_snoc. cbn. apply removelast_last.
Qed.

Lemma targetValue_quoted command platform t :
  slice command (start t) (end_ t) = squote :: value t ++ [squote] -> targetValue command platform t = value t.
Proof. unfold targetValue. intros ->. rewrite unquote_quoted. by destruct (_ || _). Qed.

(** *** Operands

    What [rm] deletes: everything that is no option up to the first [--], and
    everything behind it. *)
Fixpoint rmOperands (args : list jstr) : list jstr :=
  match args with
  | [] => []
  | a :: rest =>
      if str_eqb a (js "--") then rest
      else if startsWith a (js "-") && negb (str_eqb a (js "-")) then rmOperands rest
      else a :: rmOperands rest
  end.

(** Neither a lone dash nor a second [--]. *)
Definition clearArgs (args : list jstr) : Prop :=
  js "-" ∉ args /\ forall l r, args = l ++ js "--" :: r -> js "--" ∉ r.

Lemma clearArgs_tail a args : clearArgs (a :: args) -> clearArgs args.
Proof.
  intros [Hd Ho]. split; [by intros ?; apply Hd; right|]. intros l r ->. by apply (Ho (a :: l) r).
Qed.

Definition quotedTarget (w : jstr) : RmTarget := {| rt_value := w; rt_quoted := true |}.

Lemma targets_past command platform ts : js "--" ∉ map value ts ->
  Forall (fun t => quoted t = true /\ slice command (start t) (end_ t) = squote :: value t ++ [squote]) ts ->
  targets_loop command platform ts true = map quotedTarget (map value ts).
Proof.
  induction ts as [|t ts IH]; cbn [map]; intros Hn Hq; [done|]. apply Forall_cons in Hq as [[Hqt Hs] Hq].
  apply not_elem_of_cons in Hn as [Hn Hns]. cbn [targets_loop negb andb].
  unfold str_eqb. rewrite bool_decide_eq_false_2 by congruence.
  rewrite targetValue_quoted, Hqt, IH by done. done.
Qed.

Lemma targets_operands command platform ts : clearArgs (map value ts) ->
  Forall (fun t => quoted t = true /\ slice command (start t) (end_ t) = squote :: value t ++ [squote]) ts ->
  targets_loop command platform ts false = map quotedTarget (rmOperands (map value ts)).
Proof.
  induction ts as [|t ts IH]; cbn [map]; intros Hc Hq; [done|]. apply Forall_cons in Hq as [[Hqt Hs] Hq].
  cbn [targets_loop rmOperands]. rewrite Hqt. cbn [negb andb].
  assert (value t <> js "-") as Hd by (intros E; apply (proj1 Hc); rewrite E; left).
  unfold str_eqb. case_bool_decide as Ho.
  - apply targets_past; [|done]. apply (proj2 Hc [] (map value ts)). by rewrite Ho.
  - rewrite (bool_decide_eq_false_2 (value t = js "-")) by done. cbn [negb]. rewrite andb_true_r.
    destruct (startsWith (value t) (js "-")); [apply IH; [by eapply clearArgs_tail|done]|].
    rewrite targetValue_quoted, IH by (done || by eapply clearArgs_tail). done.
Qed.

Lemma truthy_clear args : clearArgs args -> clearArgs (List.filter truthy args).
Proof.
  intros [Hd Ho]. split.
  - intros Hin. apply Hd. apply list_elem_of_In, filter_In in Hin as [Hin _]. by apply list_elem_of_In.
  - revert Ho. clear Hd. induction args as [|a args IH]; intros Ho l r E; [by destruct l|].
    cbn [List.filter] in E. assert (forall l' r', args = l' ++ js "--" :: r' -> js "--" ∉ r') as Ho'
      by (intros l' r' ->; by apply (Ho (a :: l'))).
    destruct (truthy a) eqn:Ha; [|by apply (IH Ho' l r)]. destruct l as [|b l].
    + injection E as -> <-. intros Hin. apply (Ho [] args eq_refl).
      apply list_elem_of_In, filter_In in Hin as [Hin _]. by apply list_elem_of_In.
    + injection E as -> E. by apply (IH Ho' l r).
Qed.

(** ** Lemmas: the places of the subcommands *)
Lemma indexOf_here sub rest i : indexOfStr_go (sub ++ rest) sub i = Some i.
Proof. destruct (sub ++ rest) eqn:E; cbn [indexOfStr_go]; by rewrite <- E, startsWith_self. Qed.

(** A subcommand that begins with a unit the gap before it lacks is found behind the gap. *)
Lemma indexOf_gap c sub gap rest : c ∉ gap -> forall i,
  indexOfStr_go (gap ++ (c :: sub) ++ rest) (c :: sub) i = Some (i + length gap).
Proof.
  induction gap as [|d gap IH]; intros Hc i.
  - cbn [app length]. rewrite Nat.add_0_r. apply (indexOf_here (c :: sub)).
  - apply not_elem_of_cons in Hc as [Hd Hc]. cbn [app indexOfStr_go startsWith].
    rewrite (proj2 (N.eqb_neq c d)) by done. cbn [andb]. rewrite IH by done.
    f_equal. cbn. lia.
Qed.

Lemma found_after_gap c sub gap pre rest : c ∉ gap ->
  findOutsideRanges (pre ++ gap ++ (c :: sub) ++ rest) (c :: sub) (length pre) [] = Some (length (pre ++ gap)).
Proof.
  intros Hc. unfold findOutsideRanges. cbn [outside_loop].
  assert (length pre < length (pre ++ gap ++ (c :: sub) ++ rest)) as Hl by (rewrite !length_app; simpl; lia).
  rewrite (proj2 (Nat.ltb_lt _ _) Hl).
  unfold indexOfStr. rewrite drop_app_length, indexOf_gap by done. by rewrite (length_app pre gap).
Qed.

(** A gap and the subcommand behind it. *)
Definition found (p : jstr * jstr) : Prop := exists c sub, p.2 = c :: sub /\ c ∉ p.1.

(** What stands in the place of a subcommand afterwards. *)
Definition rewritten (parts : jmap jstr jstr) (p : jstr * jstr) : jstr * jstr :=
  (p.1, default p.2 (jget p.2 parts)).

Lemma applyReplacement_at before l r rest :
  applyReplacement {| rp_start := length before; rp_end := length before + length l; rp_text := r |}
    (before ++ l ++ rest) = before ++ r ++ rest.
Proof.
  unfold applyReplacement. cbn [rp_start rp_end rp_text]. rewrite take_app_length, <- length_app.
  by rewrite (app_assoc before l rest), drop_app_length.
Qed.

Lemma rewrite_places parts ps : Forall found ps -> forall pre,
  applyReplacements (pre ++ glue ps)
    (replacements_loop (pre ++ glue ps) parts [] (map snd ps) (length pre))
  = pre ++ glue (map (rewritten parts) ps).
Proof.
  induction ps as [|[gap l] ps IH]; intros Hf pre; [done|].
  apply Forall_cons in Hf as [(c & sub & Hl & Hc) Hf]. cbn in Hl, Hc. subst l.
  specialize (IH Hf (pre ++ gap ++ c :: sub)). unfold glue in *. cbn [map concat fst snd].
  rewrite <- !app_assoc in *. cbn [replacements_loop].
  rewrite found_after_gap by done.
  replace (length (pre ++ gap ++ c :: sub)) with (length (pre ++ gap) + length (c :: sub)) in IH
    by (rewrite !length_app; lia).
  change ((rewritten parts (gap, c :: sub)).1) with gap.
  change ((rewritten parts (gap, c :: sub)).2) with (default (c :: sub) (jget (c :: sub) parts)).
  destruct (jget (c :: sub) parts) as [r|]; cbn [default].
  - cbn [applyReplacements foldr]. unfold applyReplacements in IH. rewrite IH.
    rewrite (app_assoc pre gap). rewrite applyReplacement_at. by rewrite <- app_assoc.
  - exact IH.
Qed.

(** The subcommands that are rewritten. *)
Definition deletes (reasons : list (jstr * SubcommandResult)) (l : jstr) : bool :=
  existsb (fun e => match e with
                    | (subcmd, MkSubcommandResult _ (ReasonRmRewrite _)) => str_eqb subcmd l
                    | _ => false
                    end) reasons.

Lemma rewrittenParts_get `{BashPatterns} `{HostPaths} bin reasons l :
  jget l (rewrittenParts bin reasons)
  = if deletes reasons l then Some (buildTrashCommand bin (parseRmTargetsWithMetadata l)) else None.
Proof.
  unfold rewrittenParts. set (f := fun m e => _).
  assert (forall m, jget l (fold_left f reasons m)
    = if deletes reasons l then Some (buildTrashCommand bin (parseRmTargetsWithMetadata l)) else jget l m) as ->; [|done].
  induction reasons as [|[s [b r]] reasons IH]; intros m; [done|]. cbn [fold_left]. rewrite IH.
  unfold deletes. cbn [existsb]. fold (deletes reasons l). unfold f, str_eqb.
  destruct r; cbn [orb]; try done. case_bool_decide as E; cbn [orb].
  - subst s. rewrite jget_jset_eq. by destruct (deletes reasons l).
  - destruct (deletes reasons l); [done|]. rewrite jget_jset_ne by done. done.
Qed.

Lemma separator_no_quote sep : sep ∈ separators -> squote ∉ sep.
Proof.
  intros Hs. apply (bool_decide_unpack _).
  assert (Forall (fun sep => bool_decide (squote ∉ sep) = true) separators) as Ha by (apply (bool_decide_unpack _); by vm_compute).
  rewrite Forall_forall in Ha. by rewrite Ha.
Qed.

Lemma found_line sep argv : squote ∉ sep -> plainArgv argv = true -> found (sep, commandLine argv).
Proof.
  intros Hs [Hne Hq]%plainArgv_inv. destruct (commandLine_shape argv Hne Hq) as [m Hm]. by exists squote, (m ++ [squote]).
Qed.

Lemma filter_truthy_id l : Forall (fun w => truthy w = true) l -> List.filter truthy l = l.
Proof. induction 1 as [|w l Hw _ IH]; [done|]. cbn [List.filter]. by rewrite Hw, IH. Qed.

Lemma rmOperands_truthy args :
  List.filter truthy (rmOperands (List.filter truthy args)) = rmOperands (List.filter truthy args).
Proof.
  apply filter_truthy_id. induction args as [|a args IH]; [constructor|]. cbn [List.filter].
  destruct (truthy a) eqn:Ha; [|done]. cbn [rmOperands]. repeat case_match; [|done|by constructor].
  apply Forall_forall. intros w Hw. apply list_elem_of_In, filter_In in Hw. tauto.
Qed.

(** ** Properties *)
Section Exact.
Context `{BashPatterns} `{HostPaths}.

Lemma no_wrapper l : toLowerCase (js "rm") = js "rm" -> consumeShellWrapperPrefix toLowerCase (js "rm" :: l) 0 = 0.
Proof.
  intros Hlow.
  change (consumeShellWrapperPrefix toLowerCase (js "rm" :: l) 0) with
    (match wrapperEnd (js "rm" :: l) 0 (toLowerCase (commandName (js "rm"))) with
     | Some (Some next) => if (next <=? 0)%nat || (length (js "rm" :: l) <=? next)%nat then 0
                           else wrapper_loop toLowerCase 3 (js "rm" :: l) next
     | _ => 0
     end).
  change (commandName (js "rm")) with (js "rm"). by rewrite Hlow.
Qed.

(** What stands for a line afterwards. *)
Definition placed (bin : jstr) (reasons : list (jstr * SubcommandResult)) (l : jstr) : jstr :=
  if deletes reasons l then buildTrashCommand bin (parseRmTargetsWithMetadata l) else l.

Lemma rewrite_script bin reasons first rest : plainArgv first = true ->
  Forall (fun x => x.1 ∈ separators /\ plainArgv x.2 = true) rest ->
  rewriteCommand (script first rest) (rewrittenParts bin reasons)
  = placed bin reasons (commandLine first) ++ glue (map (fun x => (x.1, placed bin reasons (commandLine x.2))) rest).
Proof.
  intros Hf Hr. unfold rewriteCommand. rewrite (quoted_never_split_lines first rest) by done.
  rewrite no_bodies_quoted by (by apply script_quoted).
  set (ps := ([], commandLine first) :: map (fun x => (x.1, commandLine x.2)) rest).
  assert (script first rest = glue ps) as -> by done.
  assert (map commandLine (first :: map snd rest) = map snd ps) as ->.
  { unfold ps. cbn [map snd]. by rewrite !map_map. }
  assert (Forall found ps) as Hp.
  { constructor; [apply found_line; [by apply not_elem_of_nil|done]|]. rewrite Forall_map.
    eapply Forall_impl; [exact Hr|]. intros x [Hs Ha]. apply found_line; [by apply separator_no_quote|done]. }
  pose proof (rewrite_places (rewrittenParts bin reasons) ps Hp []) as E. cbn [app length] in E. rewrite E.
  assert (forall p, rewritten (rewrittenParts bin reasons) p = (p.1, placed bin reasons p.2)) as Hw.
  { intros p. unfold rewritten, placed. rewrite rewrittenParts_get. by destruct (deletes reasons p.2). }
  rewrite (map_ext _ _ Hw). unfold ps, glue. cbn [map concat fst snd app]. by rewrite !map_map.
Qed.

(** The trash command that replaces a quoted [rm] names exactly what [rm] would
    have deleted, provided that no name is a lone dash or a second [--]. *)
Lemma trash_operands (bin : jstr) (args : list jstr) :
  toLowerCase (js "rm") = js "rm" -> bin <> [] -> forallb isSafeUnit bin = true ->
  forallb noQuote args = true -> clearArgs args ->
  let operands := rmOperands (List.filter truthy args) in
  operands <> [] ->
  shellTokenize (buildTrashCommand bin (parseRmTargetsWithMetadata (commandLine (js "rm" :: args))))
  = bin :: js "--" :: operands.
Proof.
  intros Hlow Hb Hs Hq Hc operands Ho. unfold parseRmTargetsWithMetadata.
  set (line := commandLine (js "rm" :: args)).
  assert (forallb noQuote (js "rm" :: args) = true) as Hq' by done.
  assert (shellTokenizeWithMetadata line = quotedTokens 0 (js "rm" :: args)) as -> by (by apply tokens_quoted_line).
  rewrite quotedTokens_values. change (List.filter truthy (js "rm" :: args)) with (js "rm" :: List.filter truthy args).
  assert (findRmTokenIndex (js "rm" :: List.filter truthy args) = Some 0) as Hi.
  { unfold findRmTokenIndex. by rewrite no_wrapper. }
  rewrite Hi. pose proof (quotedTokens_text _ Hq' []) as Ht. cbn [app length] in Ht. fold line in Ht.
  change (quotedTokens 0 (js "rm" :: args)) with
    ({| value := js "rm"; start := 0; end_ := 4; quoted := true |} :: quotedTokens 5 args) in Ht |- *.
  apply Forall_cons in Ht as [_ Ht]. cbn [Nat.add drop]. rewrite drop_0.
  assert (forall i, map value (quotedTokens i args) = List.filter truthy args) as Hv by (intros; apply quotedTokens_values).
  rewrite targets_operands, Hv; [|rewrite Hv; by apply truthy_clear|exact Ht].
  rewrite tokenize_trash by (try done; by destruct (rmOperands (List.filter truthy args))).
  rewrite map_map. change (fun x => resolvedTarget (quotedTarget x)) with (fun x : jstr => x). rewrite map_id.
  f_equal. f_equal. apply rmOperands_truthy.
Qed.

(** C13: in a script of lines of quoted words, none with a single quote in it, with
    separators between them, and with a deletion found, the rewriting puts the trash command in the place of
    exactly the lines that the evaluation marks as deletions, and keeps every other
    line, every separator and every other field of the input, unless the evaluation
    found a deletion that Windows can undo; and the trash command that stands for an
    [rm] with operands takes exactly those operands, in order, whatever units they
    contain, provided that no argument is a lone dash or a second [--] (empty
    arguments are dropped) and that the path of the trash command needs no quotes. *)
Theorem rewriting_is_exact (input : ToolInput) (reasons : list (jstr * SubcommandResult))
    (platform dataDir : jstr) (first : list jstr) (rest : list (jstr * list jstr)) :
  plainArgv first = true -> Forall (fun x => x.1 ∈ separators /\ plainArgv x.2 = true) rest ->
  as_string (jget (js "command") input) = Some (script first rest) -> dataDir <> [] ->
  firstRecoverable reasons = None -> (exists l, deletes reasons l = true) -> toLowerCase (js "rm") = js "rm" ->
  let bin := trashBinFor platform dataDir in
  let after argv := placed bin reasons (commandLine argv) in
  buildRecoverableDeleteRewriteInput input (ReasonSubcommandResults reasons) platform dataDir
  = inr (Some (withCommand input (after first ++ glue (map (fun x => (x.1, after x.2)) rest))))
  /\ (forall args, js "rm" :: args ∈ first :: map snd rest -> deletes reasons (commandLine (js "rm" :: args)) = true ->
        clearArgs args -> rmOperands (List.filter truthy args) <> [] -> bin <> [] -> forallb isSafeUnit bin = true ->
        shellTokenize (after (js "rm" :: args)) = bin :: js "--" :: rmOperands (List.filter truthy args)).
Proof.
  intros Hf Hr Hc Hd Hw [l Hl] Hlow bin after. split.
  - unfold buildRecoverableDeleteRewriteInput. rewrite Hc, Hw.
    assert (script first rest <> []) as Hs.
    { destruct (plainArgv_inv first Hf) as [Hne Hq]. destruct (commandLine_shape first Hne Hq) as [m Hm].
      unfold script. by rewrite Hm. }
    destruct (script first rest) as [|c s] eqn:Es; [done|]. rewrite <- Es. destruct dataDir as [|d dir]; [done|].
    cbn [truthy negb]. fold bin. pose proof (rewrittenParts_get bin reasons l) as Hg. rewrite Hl in Hg.
    destruct (rewrittenParts bin reasons) as [|p ps] eqn:Ep; [done|]. rewrite <- Ep. by rewrite rewrite_script.
  - intros args Hin Hdel Hcl Ho Hb Hs. unfold after, placed. rewrite Hdel. apply trash_operands; try done.
    assert (plainArgv (js "rm" :: args) = true) as [_ Hq]%plainArgv_inv; [|by apply andb_true_iff in Hq as [_ Hq]].
    apply elem_of_cons in Hin as [->|(x & -> & Hx)%list_elem_of_fmap]; [done|].
    rewrite Forall_forall in Hr. by apply Hr.
Qed.
End Exact.

(** ** Witnesses *)
#[local] Existing Instance samplePatterns.
Definition sampleHost : HostPaths :=
  {| homedir := js "/home/u"; path_join := join (js "/"); win32_join := join (js "\"); process_platform := js "linux" |}.
#[local] Existing Instance sampleHost.

(** The input that is rewritten for a command line, with the reasons of the evaluation. *)
Definition rewriteOf (command : jstr) : jstr + option ToolInput :=
  buildRecoverableDeleteRewriteInput [(js "command", JStr command)]
    (ev_reason (evaluateBashStatic command [] None ev_bypass)) (js "linux") (js "/data").
Definition becomes (command result : jstr) : Prop :=
  rewriteOf command = inr (Some [(js "command", JStr result)]).

Definition sampleReasons : list (jstr * SubcommandResult) :=
  [(commandLine [js "rm"; js "-r"; js "--"; js "-a b"], MkSubcommandResult Allow (ReasonRmRewrite []))].

Lemma rewriting_is_exact_witness :
  buildRecoverableDeleteRewriteInput
    [(js "command", JStr (script [js "ls"] [(js "&&", [js "rm"; js "-r"; js "--"; js "-a b"]); (js ";", [js "echo"; js "rm a b"])]))]
    (ReasonSubcommandResults sampleReasons) (js "linux") (js "/data")
  = inr (Some [(js "command", JStr (js "'ls'&&/data/bin/mavis-trash -- '-a b';'echo' 'rm a b'"))])
  /\ shellTokenize (js "/data/bin/mavis-trash -- '-a b'") = [js "/data/bin/mavis-trash"; js "--"; js "-a b"].
Proof.
  pose proof (rewriting_is_exact [(js "command", JStr (script [js "ls"]
               [(js "&&", [js "rm"; js "-r"; js "--"; js "-a b"]); (js ";", [js "echo"; js "rm a b"])]))]
             sampleReasons (js "linux") (js "/data") [js "ls"]
             [(js "&&", [js "rm"; js "-r"; js "--"; js "-a b"]); (js ";", [js "echo"; js "rm a b"])]) as H.
  cbv zeta in H. destruct H as [H1 H2];
    [done| |done|done|done|exists (commandLine [js "rm"; js "-r"; js "--"; js "-a b"]); by vm_compute|done|].
  - repeat constructor; separator.
  - split; [rewrite H1; by vm_compute|]. apply (H2 [js "-r"; js "--"; js "-a b"]); [right; by left|by vm_compute| |done..].
    split; [apply (bool_decide_unpack _); by vm_compute|].
    intros [|a [|b [|c l]]] r [=]; subst; [|by destruct l]. apply (bool_decide_unpack _). by vm_compute.
Defined.

(** ** Where the deletion is missed

    The subcommand is looked for as text, from the end of the one before.  A
    comment or an assignment in front, which is no subcommand, may hold the same
    text: then the copy is rewritten, and the deletion itself runs. *)
Lemma comment_is_rewritten_instead :
  becomes (js "# rm x" ++ newline :: js "rm x") (js "# /data/bin/mavis-trash -- x" ++ newline :: js "rm x").
Proof. by vm_compute. Qed.

Lemma assignment_is_rewritten_instead :
  becomes (js "A='rm x'; rm x") (js "A='/data/bin/mavis-trash -- x'; rm x").
Proof. by vm_compute. Qed.

(** A subcommand with a line continuation is not found at all, and runs as it stands. *)
Lemma continued_deletion_is_not_rewritten :
  becomes (js "rm -rf \" ++ newline :: js "x") (js "rm -rf \" ++ newline :: js "x") /\
  verdict (evaluateBashStatic (js "rm -rf \" ++ newline :: js "x") [] None ev_bypass) = v_allow.
Proof. by vm_compute. Qed.

(** ** Where the targets differ

    Behind a background operator the next command's words are taken for targets. *)
Lemma next_command_is_trashed : becomes (js "rm x & ls y") (js "/data/bin/mavis-trash -- x '&' ls y").
Proof. by vm_compute. Qed.

(** A second [--] and a lone dash name files; the rewriting leaves them out. *)
Lemma dash_names_are_lost : becomes (js "rm -- -- x - y") (js "/data/bin/mavis-trash -- x - y") /\
  becomes (js "rm - y") (js "/data/bin/mavis-trash -- y").
Proof. by vm_compute. Qed.

(** The path of the trash command is not quoted. *)
Lemma trash_path_is_split :
  shellTokenize (buildTrashCommand (trashBinFor (js "darwin") (js "/Users/u/My Data")) [quotedTarget (js "x")])
  = [js "/Users/u/My"; js "Data/bin/mavis-trash"; js "--"; js "x"].
Proof. by vm_compute. Qed.
