(* ===== verification/BashApproval.v ===== *)
(** * What an approval of a bash command stores

    The suggestions of
    [packages/agent-modules/permission/src/tools/bash-checker.ts]: the rule a
    command is generalised to, and the scopes offered for each subcommand that
    is asked about ([generalizeCommand], [generateCandidatesForCommand],
    [generateCandidateScopesForDecision]). *)
From S2P Require Import Prelude JsValue PermTypes PermContext ShellTokenize ShellSplit BashAst BashRules BashWrappers BashSurface BashEvaluate BashPolicy.

(** ** Prefixes *)

(** The non-empty fields between white space: [split(/\s+/).filter(Boolean)]. *)
Fixpoint fields_loop (s current : jstr) : list jstr :=
  match s with
  | [] => List.filter truthy [current]
  | c :: s' => if isWhite c then List.filter truthy [current] ++ fields_loop s' [] else fields_loop s' (current ++ [c])
  end.
Definition fields (s : jstr) : list jstr := fields_loop s [].

Definition isLowerOrDigit (c : jchar) : bool := isDigit c || ((97 <=? c) && (c <=? 122))%N.

(** [/^[a-z][a-z0-9]*(-[a-z0-9]+)*$/]; [dash] says that the unit before was one. *)
Fixpoint subcommand_loop (dash : bool) (s : jstr) : bool :=
  match s with
  | [] => negb dash
  | c :: s' => if (c =? ch "-")%N then negb dash && subcommand_loop true s'
               else isLowerOrDigit c && subcommand_loop false s'
  end.
Definition SUBCOMMAND_RE (s : jstr) : bool :=
  match s with c :: s' => ((97 <=? c) && (c <=? 122))%N && subcommand_loop false s' | [] => false end.

Definition BARE_SHELL_PREFIXES : list jstr :=
  [js "sh"; js "bash"; js "zsh"; js "fish"; js "csh"; js "tcsh"; js "ksh"; js "dash"; js "cmd"; js "powershell";
   js "pwsh"; js "env"; js "xargs"; js "nice"; js "stdbuf"; js "nohup"; js "timeout"; js "time"; js "sudo"; js "doas";
   js "pkexec"].

(** The words behind the assignments in front. *)
Definition afterAssignments (command : jstr) : list jstr := dropWhile isAssignment (fields (trim command)).

Definition getSimpleCommandPrefix (command : jstr) : option jstr :=
  match afterAssignments command with
  | first :: subcmd :: _ => if SUBCOMMAND_RE subcmd then Some (join (js " ") [first; subcmd]) else None
  | _ => None
  end.

Definition getFirstWordPrefix (command : jstr) : option jstr :=
  match afterAssignments command with
  | word :: _ => if SUBCOMMAND_RE word && negb (mem word BARE_SHELL_PREFIXES) then Some word else None
  | [] => None
  end.

(** [getSimpleCommandPrefix(x) ?? getFirstWordPrefix(x)]. *)
Definition prefixOf (command : jstr) : option jstr :=
  match getSimpleCommandPrefix command with Some p => Some p | None => getFirstWordPrefix command end.

Definition prefixRule (prefix : jstr) : jstr := prefix ++ js ":*".

(** ** Generalisation *)
Definition heredocPrefix (command : jstr) : option jstr :=
  match indexOfStr command (js "<<") 0 with
  | None | Some O => None
  | Some idx => match trim (take idx command) with [] => None | before => prefixOf before end
  end.

Definition firstLinePrefix (command : jstr) : option jstr :=
  if bool_decide (newline ∈ command) then
    match trim (default [] (head (split command [newline]))) with [] => None | firstLine => prefixOf firstLine end
  else None.

Definition firstSome {A} (l : list (option A)) : option A := head (omap id l).

Definition generalizeCommand (command : jstr) : jstr :=
  match parseScriptPlainCommands command with
  | Some [argv] => encodeArgvPrefixRule argv
  | _ => match firstSome [heredocPrefix command; firstLinePrefix command; prefixOf command] with
         | Some prefix => prefixRule prefix
         | None => trim command
         end
  end.

Definition narrowScope (ruleContent : jstr) : CandidateScope :=
  {| cs_kind := narrow; cs_ruleContent := ruleContent; cs_labelKey := js "permission.scope.narrow"; cs_labelParams := None |}.

Definition addScope (scope : CandidateScope) (candidates : list CandidateScope) : list CandidateScope :=
  if mem (cs_ruleContent scope) (map cs_ruleContent candidates) then candidates else candidates ++ [scope].

Definition plainArgvOf (subcommand : jstr) : option (list jstr) :=
  match parseScriptPlainCommands subcommand with Some [argv] => Some argv | _ => None end.

Definition argvPrefixScope (argv : option (list jstr)) (candidates : list CandidateScope) : list CandidateScope :=
  match argv with
  | Some (a :: b :: rest) =>
      match getSimpleCommandPrefix (join (js " ") (a :: b :: rest)) with
      | Some twoWordPrefix =>
          addScope {| cs_kind := byArgvPrefix2; cs_ruleContent := prefixRule twoWordPrefix;
                      cs_labelKey := js "permission.scope.byArgvPrefix2";
                      cs_labelParams := Some [(js "prefix", twoWordPrefix)] |} candidates
      | None => candidates
      end
  | _ => candidates
  end.

Definition firstWordScope (subcommand : jstr) (argv : option (list jstr)) (candidates : list CandidateScope) :
    list CandidateScope :=
  match (match argv with Some (w :: _) => Some w | _ => getFirstWordPrefix subcommand end) with
  | Some firstWord =>
      if SUBCOMMAND_RE firstWord && negb (mem firstWord BARE_SHELL_PREFIXES) then
        addScope {| cs_kind := byFirstWord; cs_ruleContent := prefixRule firstWord;
                    cs_labelKey := js "permission.scope.byFirstWord";
                    cs_labelParams := Some [(js "command", firstWord)] |} candidates
      else candidates
  | None => candidates
  end.

Definition generateCandidatesForCommand (subcommand : jstr) : list CandidateScope :=
  let argv := plainArgvOf subcommand in
  firstWordScope subcommand argv (argvPrefixScope argv [narrowScope (generalizeCommand subcommand)]).

(** ** Interpreters on their own *)
Definition BARE_INTERPRETER_TOKENS : list jstr :=
  BARE_SHELL_PREFIXES ++ [js "node"; js "deno"; js "python"; js "python3"; js "ruby"].

Definition SHELL_WRAPPER_PREFIXES : list jstr :=
  [js "sudo"; js "doas"; js "env"; js "command"; js "exec"; js "nohup"; js "nice"; js "timeout"; js "stdbuf"; js "setsid";
   js "pkexec"].

(** [part.trim().split(/\s+/)] has the empty string for a blank [part]; it is no wrapper. *)
Definition isBareInterpreterToken (part : jstr) : bool :=
  match dropWhile (fun t => mem t SHELL_WRAPPER_PREFIXES) (fields (trim part)) with
  | [] => false
  | effectiveCmd :: rest => mem effectiveCmd BARE_INTERPRETER_TOKENS && forallb (fun t => startsWith t (js "-")) rest
  end.

(** ** The scopes of a decision *)
Section Scopes.
Context `{BashPatterns}.

(** The parts of one entry: a key that is several subcommands is split. *)
Definition effectiveSubcmds (subcmd : jstr) : list jstr :=
  let subcommands := splitCommand subcmd in
  if (1 <? length subcommands)%nat then subcommands else [subcmd].

Definition addGroup (acc : list jstr * list CandidateScopeGroup) (part : jstr) : list jstr * list CandidateScopeGroup :=
  let '(seenNarrow, groups) := acc in
  if otruthy (pureReadFirstWord toLowerCase part) && isBareInterpreterToken part then acc
  else
    let narrowRule := generalizeCommand part in
    if mem narrowRule seenNarrow then acc
    else (seenNarrow ++ [narrowRule],
          groups ++ [{| subjectDisplay := part; candidates := generateCandidatesForCommand part |}]).

(** The parts of the entries that ask, in order. *)
Definition askedParts (reasons : list (jstr * SubcommandResult)) : list jstr :=
  flat_map (fun e => match e with
                     | (subcmd, MkSubcommandResult Ask _) => effectiveSubcmds subcmd
                     | _ => []
                     end) reasons.

Definition generateCandidateScopesForDecision (b : PermissionBehavior) (r : DecisionReason) :
    option (list CandidateScopeGroup) :=
  match b, r with
  | Ask, ReasonSubcommandResults reasons =>
      match snd (fold_left addGroup (askedParts reasons) ([], [])) with [] => None | groups => Some groups end
  | _, _ => None
  end.

(** [g.candidates[0]!.ruleContent]. *)
Definition narrowContent (g : CandidateScopeGroup) : jstr :=
  match candidates g with c :: _ => cs_ruleContent c | [] => [] end.

Definition generateSuggestionRules (b : PermissionBehavior) (r : DecisionReason) : option (list jstr) :=
  map narrowContent <$> generateCandidateScopesForDecision b r.
End Scopes.

(** ** Lemmas: the stored rules *)

(** An approval of bash rule contents as a rule update adds them. *)
Definition bashValue (content : jstr) : PermissionRuleValue :=
  {| toolName := js "bash"; ruleContent := Some content; matcher := None |}.

Definition approve (ctx : ToolPermissionContext) (src : PermissionRuleSource) (contents : list jstr) :
    ToolPermissionContext :=
  applyPermissionUpdate ctx (UpdAddRules src (js "session") (map bashValue contents) Allow).

Lemma approve_added ctx src contents : exists added,
  rules (approve ctx src contents) = rules ctx ++ added
  /\ Forall (fun r => ruleBehavior r = Allow /\ toolName (ruleValue r) = js "bash") added.
Proof.
  change (rules (approve ctx src contents)) with (fold_left (addRule_step src Allow) (map bashValue contents) (rules ctx)).
  generalize (rules ctx) as rs. induction contents as [|c contents IH]; intros rs; cbn [map fold_left].
  - exists []. by rewrite app_nil_r.
  - unfold addRule_step at 2. destruct (existsb _ rs); [apply IH|].
    destruct (IH (rs ++ [{| source := src; ruleBehavior := Allow; ruleValue := bashValue c |}])) as (added & -> & Ha).
    eexists. rewrite <- app_assoc. split; [done|]. by constructor.
Qed.

(** Every content is stored, in a new rule or in one that says the same. *)
Lemma approve_stored ctx src contents c : c ∈ contents -> c <> [] ->
  exists r, r ∈ rules (approve ctx src contents) /\ ruleBehavior r = Allow
            /\ toolName (ruleValue r) = js "bash" /\ ruleContent (ruleValue r) = Some c.
Proof.
  intros Hc Hne. pose proof (addRules_stored src Allow (map bashValue contents) (rules ctx) (bashValue c)) as Hs.
  specialize (Hs ltac:(apply list_elem_of_In, in_map; by apply list_elem_of_In)).
  apply existsb_exists in Hs as (r & Hr & Hsame). exists r. split; [by apply list_elem_of_In|].
  unfold sameRule, ruleValueEquals in Hsame. reflect_bools. destruct (_ || _) eqn:E in H0; [done|]. reflect_bools.
  unfold str_eqb in *. reflect_bools. split; [done|]. split; [done|].
  destruct (ruleContent (ruleValue r)) as [c'|]; cbn in *; by subst.
Qed.

Lemma bashRules_approved ctx src contents :
  moreAllowed (rules ctx) (rules (approve ctx src contents)).
Proof.
  destruct (approve_added ctx src contents) as (added & -> & Ha). split.
  - rewrite List.filter_app. assert (List.filter notAllow added = []) as ->; [|by rewrite app_nil_r].
    apply filter_Forall_nil. eapply Forall_impl; [exact Ha|]. intros r [Hb _]. unfold notAllow. by rewrite Hb.
  - intros r Hr _. apply elem_of_app. by left.
Qed.

(** *** Rules that match *)
Section Covered.
Context `{BashPatterns}.

(** The rule speaks about the command: it is about the whole tool, or it matches. *)
Definition applies (s : jstr) (r : PermissionRule) : bool :=
  match ruleContent (ruleValue r) with
  | Some (u :: c) => matchesUserRule s (Some (compileShellRule canonicalize otherRegExp (u :: c)))
  | _ => true
  end.

Lemma firstUserRule_cons b s r l : firstUserRule b s (compileBashPermissionRules (r :: l)) =
  if bool_decide (ruleBehavior r = b) && applies s r then Some r else firstUserRule b s (compileBashPermissionRules l).
Proof.
  unfold compileBashPermissionRules, applies. cbn [map]. destruct (ruleContent (ruleValue r)) as [[|u c]|] eqn:Hc;
    cbn [firstUserRule]; rewrite Hc; by case_bool_decide.
Qed.

Lemma rule_found b s l :
  firstUserRule b s (compileBashPermissionRules l) <> None <->
  exists r, r ∈ l /\ ruleBehavior r = b /\ applies s r = true.
Proof.
  induction l as [|r l IH]; [split; [done|by intros (r & ?%elem_of_nil & _)]|].
  rewrite firstUserRule_cons. destruct (bool_decide _ && _) eqn:E.
  - reflect_bools. split; [|done]. intros _. exists r. split; [by left|done].
  - rewrite IH. split; intros (r' & Hr & Hb & Ha); exists r'; [by split; [right|]|].
    apply elem_of_cons in Hr as [-> | Hr]; [|done]. by rewrite Hb, Ha, bool_decide_eq_true_2 in E.
Qed.

Lemma rule_applies s r c : ruleContent (ruleValue r) = Some c ->
  matchShellRule canonicalize otherRegExp s (parseShellRule c) = true -> applies s r = true.
Proof.
  unfold applies. intros -> Hm. destruct c as [|u c]; [done|]. unfold matchesUserRule.
  by rewrite compiled_rule_matches_the_same, Hm.
Qed.


(** *** More rules that allow *)
Lemma gates_more s l l' ctx rec r : moreAllowed l l' ->
  gatesLayer s (compileBashPermissionRules l) ev_default ctx rec = Some r -> verdict r = v_allow ->
  exists r', gatesLayer s (compileBashPermissionRules l') ev_default ctx rec = Some r' /\ verdict r' = v_allow.
Proof.
  intros [_ Hm]. unfold gatesLayer. destruct (sensitiveRead _ _) as [hit|]; [by intros [= <-]|].
  destruct (firstUserRule Allow s (compileBashPermissionRules l)) as [r0|] eqn:Hf.
  - assert (firstUserRule Allow s (compileBashPermissionRules l') <> None) as Hf'.
    { apply rule_found. assert (firstUserRule Allow s (compileBashPermissionRules l) <> None) as Hn by congruence.
      apply rule_found in Hn as (r1 & Hr & Hb & Ha). eauto. }
    destruct (firstUserRule Allow s (compileBashPermissionRules l')); [eauto|done].
  - destruct (firstUserRule Allow s (compileBashPermissionRules l')); [eauto|]. intros -> Hv. eauto.
Qed.

Lemma gates_none_more s l l' ctx rec : gatesLayer s (compileBashPermissionRules l) ev_default ctx rec = None ->
  gatesLayer s (compileBashPermissionRules l') ev_default ctx rec = None \/
  exists r', gatesLayer s (compileBashPermissionRules l') ev_default ctx rec = Some r' /\ verdict r' = v_allow.
Proof.
  unfold gatesLayer. destruct (sensitiveRead _ _) as [hit|]; [done|].
  destruct (firstUserRule Allow s (compileBashPermissionRules l)); [done|].
  destruct (firstUserRule Allow s (compileBashPermissionRules l')); eauto.
Qed.

Lemma single_allowed_more s l l' ctx : moreAllowed l l' ->
  verdict (evaluateSingleSubcommand s (compileBashPermissionRules l) ev_default ctx) = v_allow ->
  verdict (evaluateSingleSubcommand s (compileBashPermissionRules l') ev_default ctx) = v_allow.
Proof.
  intros Hm. unfold evaluateSingleSubcommand. rewrite (common_more s l l' _ Hm).
  destruct (commonLayer _ _ _) as [r|]; [done|]. rewrite bool_decide_eq_false_2 by done.
  destruct (gatesLayer s (compileBashPermissionRules l) _ _ _) as [r|] eqn:Hg.
  - intros Hv. by destruct (gates_more s l l' ctx _ r Hm Hg Hv) as (r' & -> & ?).
  - intros Hv. by destruct (gates_none_more s l l' ctx _ Hg) as [-> | (r' & -> & ?)].
Qed.

(** ** A question an approval can settle

    The subcommand is asked about for no rule and no secret, is one plain
    command, and is no interpreter on its own. *)
Record approvable (rs : list PermissionRule) (ctx : BashCheckContext) (s : jstr) : Prop := {
  ap_rule : firstUserRule Ask s (compileBashPermissionRules (bashRulesOf rs)) = None;
  ap_secret : sensitiveRead (map getShellPermissionCheckSurface (unwrapCommandWrappers s))
                (recoverableWindowsDelete (Some ctx) s) = None;
  ap_plain : exists argv, parseScriptPlainCommands s = Some [argv];
  ap_one : effectiveSubcmds s = [s];
  ap_named : otruthy (pureReadFirstWord toLowerCase s) && isBareInterpreterToken s = false;
}.

Lemma single_approved s rs rs' ctx r : approvable rs ctx s ->
  verdict (evaluateSingleSubcommand s (compileBashPermissionRules (bashRulesOf rs)) ev_default ctx) = v_ask ->
  moreAllowed rs rs' -> r ∈ rs' -> ruleBehavior r = Allow -> toolName (ruleValue r) = js "bash" ->
  ruleContent (ruleValue r) = Some (generalizeCommand s) ->
  verdict (evaluateSingleSubcommand s (compileBashPermissionRules (bashRulesOf rs')) ev_default ctx) = v_allow.
Proof.
  intros [Hask Hsec [argv Hplain] _ _] Hv Hm Hr Hb Ht Hc. apply bashRules_more in Hm. revert Hv.
  unfold evaluateSingleSubcommand. rewrite <- (common_more s _ _ _ Hm).
  destruct (commonLayer _ _ _) as [r0|] eqn:Hcl.
  { unfold commonLayer in Hcl. rewrite Hask in Hcl. repeat case_hyp Hcl; simplify_eq; done. }
  intros _. rewrite bool_decide_eq_false_2 by done. unfold gatesLayer. rewrite Hsec.
  assert (firstUserRule Allow s (compileBashPermissionRules (bashRulesOf rs')) <> None) as Hf.
  { apply rule_found. exists r. split; [|split; [done|]].
    - apply list_elem_of_In, filter_In. split; [by apply list_elem_of_In|]. rewrite Ht. apply str_eqb_refl.
    - apply (rule_applies s r _ Hc). unfold generalizeCommand. rewrite Hplain.
      rewrite parse_encoded by (by eapply plain_not_nil). cbn [matchShellRule]. unfold matchArgvPrefix.
      rewrite Hplain, Nat.ltb_irrefl. by apply everyToken_prefix. }
  by destruct (firstUserRule Allow s _).
Qed.

(** *** The loops *)
Lemma loop_allowed R ctx subs : forall res,
  (forall s, s ∈ subs -> verdict (evaluateSingleSubcommand s R ev_default ctx) = v_allow) ->
  fst (subcommands_loop R ev_default ctx subs res v_allow) = v_allow.
Proof.
  induction subs as [|s subs IH]; intros res Hs; [done|]. cbn [subcommands_loop].
  rewrite (Hs s) by left. cbn [aggregate]. rewrite bool_decide_eq_false_2 by done.
  apply IH. intros s' Hs'. apply Hs. by right.
Qed.

Lemma loop_records R mode ctx subs : forall res agg,
  agg <> v_deny -> fst (subcommands_loop R mode ctx subs res agg) <> v_deny ->
  forall s, s ∈ subs \/ jget s res = Some (MkSubcommandResult
      (storedBehavior (verdict (evaluateSingleSubcommand s R mode ctx)))
      (ev_reason (evaluateSingleSubcommand s R mode ctx))) ->
  jget s (snd (subcommands_loop R mode ctx subs res agg)) = Some (MkSubcommandResult
      (storedBehavior (verdict (evaluateSingleSubcommand s R mode ctx)))
      (ev_reason (evaluateSingleSubcommand s R mode ctx))).
Proof.
  induction subs as [|s0 subs IH]; intros res agg Ha Hv s Hs.
  { destruct Hs as [?%elem_of_nil|Hs]; [done|exact Hs]. }
  cbn [subcommands_loop] in Hv |- *. case_bool_decide as Hd.
  { cbn [fst] in Hv. by rewrite Hd in Hv. }
  apply IH; [by apply aggregate_deny|done|]. destruct (decide (s = s0)) as [-> |Hne].
  - right. apply jget_jset_eq.
  - rewrite elem_of_cons in Hs. destruct Hs as [[?|Hs]|Hs]; [done|by left|right]. by rewrite jget_jset_ne.
Qed.

(** *** The suggestions *)
Lemma narrow_first part : exists rest, generateCandidatesForCommand part = narrowScope (generalizeCommand part) :: rest.
Proof.
  unfold generateCandidatesForCommand, firstWordScope, argvPrefixScope, addScope.
  repeat case_goal; cbn [app]; eauto.
Qed.

Lemma addGroup_seen parts : forall seen groups,
  map narrowContent groups = seen ->
  let '(seen', groups') := fold_left addGroup parts (seen, groups) in
  map narrowContent groups' = seen' /\ (forall c, c ∈ seen -> c ∈ seen') /\
  forall part, part ∈ parts -> otruthy (pureReadFirstWord toLowerCase part) && isBareInterpreterToken part = false ->
    generalizeCommand part ∈ seen'.
Proof.
  induction parts as [|part parts IH]; intros seen groups Hg; cbn [fold_left].
  { split; [done|]. split; [done|]. by intros part ?%elem_of_nil. }
  assert (exists seen1 groups1, addGroup (seen, groups) part = (seen1, groups1) /\ map narrowContent groups1 = seen1 /\
            (forall c, c ∈ seen -> c ∈ seen1) /\
            (otruthy (pureReadFirstWord toLowerCase part) && isBareInterpreterToken part = false ->
             generalizeCommand part ∈ seen1)) as (seen1 & groups1 & -> & Hg1 & Hs1 & Hp1).
  { unfold addGroup. destruct (otruthy _ && _); [by exists seen, groups|].
    destruct (mem _ seen) eqn:Hm.
    - exists seen, groups. unfold mem in Hm. by reflect_bools.
    - eexists _, _. split; [done|]. rewrite map_app, Hg. destruct (narrow_first part) as [rest Hn].
      split; [cbn [map]; unfold narrowContent; cbn [candidates]; by rewrite Hn|]. split; set_solver. }
  specialize (IH seen1 groups1 Hg1). destruct (fold_left addGroup parts (seen1, groups1)) as [seen' groups'].
  destruct IH as (Hg' & Hs' & Hp'). split; [done|]. split; [auto|].
  intros p [-> | Hp]%elem_of_cons Hn; [auto|by apply Hp'].
Qed.

Lemma suggestions_complete reasons part : part ∈ askedParts reasons ->
  otruthy (pureReadFirstWord toLowerCase part) && isBareInterpreterToken part = false ->
  exists contents, generateSuggestionRules Ask (ReasonSubcommandResults reasons) = Some contents
    /\ generalizeCommand part ∈ contents.
Proof.
  intros Hp Hn. unfold generateSuggestionRules, generateCandidateScopesForDecision.
  pose proof (addGroup_seen (askedParts reasons) [] [] eq_refl) as Ha.
  destruct (fold_left addGroup (askedParts reasons) ([], [])) as [seen groups]. destruct Ha as (Hg & _ & Hall).
  specialize (Hall part Hp Hn). cbn [snd]. destruct groups as [|g gs].
  - cbn in Hg. subst seen. by apply elem_of_nil in Hall.
  - eexists. split; [done|]. by rewrite Hg.
Qed.

(** ** The theorem *)
Lemma single_not_undecided s R ctx : verdict (evaluateSingleSubcommand s R ev_default ctx) <> v_undecided.
Proof. destruct (single_agree s R ctx) as [-> _]. by destruct (verdict _). Qed.

Lemma enrich_approved command pctx src contents bctx :
  enrich command (rules (approve pctx src contents)) bctx = enrich command (rules pctx) bctx.
Proof.
  destruct (approve_added pctx src contents) as (added & -> & Ha). unfold enrich. rewrite List.filter_app.
  assert (List.filter (fun r => str_eqb (toolName (ruleValue r)) (js "write")
            && bool_decide (ruleBehavior r = Allow)) added = []) as ->; [|by rewrite app_nil_r].
  apply filter_Forall_nil. eapply Forall_impl; [exact Ha|]. intros r [_ Ht]. by rewrite Ht.
Qed.

Lemma whole_none_more command rs rs' bctx : moreAllowed rs rs' -> wholeLayer command rs bctx ev_default = None ->
  wholeLayer command rs' bctx ev_default = None.
Proof.
  intros Hm%bashRules_more. unfold wholeLayer. case_goal; [done|]. case_goal; [done|].
  rewrite bool_decide_eq_false_2 by done.
  destruct (pipePrescan _ _ _ _) eqn:Hp; [done|]. by rewrite (pipe_more _ _ _ _ _ ev_default Hm Hp).
Qed.

Lemma asked_part R ctx subs s : fst (subcommands_loop R ev_default ctx subs [] v_allow) <> v_deny ->
  s ∈ subs -> verdict (evaluateSingleSubcommand s R ev_default ctx) = v_ask -> effectiveSubcmds s = [s] ->
  s ∈ askedParts (snd (subcommands_loop R ev_default ctx subs [] v_allow)).
Proof.
  intros Hv Hs Ha He. pose proof (loop_records R ev_default ctx subs [] v_allow ltac:(done) Hv s (or_introl Hs)) as Hr.
  rewrite Ha in Hr. apply jget_Some_elem in Hr. unfold askedParts. apply list_elem_of_In, in_flat_map.
  eexists. split; [apply list_elem_of_In, Hr|]. cbn [storedBehavior]. rewrite He. by left.
Qed.

(** The loop of a decision in default mode. *)
Definition evaluated (command : jstr) (rs : list PermissionRule) (bctx : option BashCheckContext) :
    Verdict * jmap jstr SubcommandResult :=
  subcommands_loop (compileBashPermissionRules (bashRulesOf rs)) ev_default (enrich command rs bctx)
    (splitCommand command) [] v_allow.

Lemma checkBash_evaluated command rs bctx : wholeLayer command rs bctx ev_default = None ->
  checkBashPermission command rs bctx
  = (storedBehavior (fst (evaluated command rs bctx)), ReasonSubcommandResults (snd (evaluated command rs bctx))).
Proof.
  intros Hw. unfold checkBashPermission, evaluateBashStatic, evaluated. rewrite Hw.
  by destruct (subcommands_loop _ _ _ _ _ _).
Qed.

Lemma subcommand_cases command rs bctx : let ctx := enrich command rs bctx in
  fst (evaluated command rs bctx) <> v_deny ->
  (forall s, s ∈ splitCommand command ->
     verdict (evaluateSingleSubcommand s (compileBashPermissionRules (bashRulesOf rs)) ev_default ctx) = v_ask ->
     approvable rs ctx s) ->
  forall s, s ∈ splitCommand command ->
    verdict (evaluateSingleSubcommand s (compileBashPermissionRules (bashRulesOf rs)) ev_default ctx) = v_allow \/
    (verdict (evaluateSingleSubcommand s (compileBashPermissionRules (bashRulesOf rs)) ev_default ctx) = v_ask
     /\ s ∈ askedParts (snd (evaluated command rs bctx)) /\ approvable rs ctx s).
Proof.
  intros ctx Hnd Hap s Hs. specialize (Hap s Hs).
  pose proof (single_not_undecided s (compileBashPermissionRules (bashRulesOf rs)) ctx) as Hu.
  destruct (verdict (evaluateSingleSubcommand s _ ev_default ctx)) eqn:Hv; [by left| |exfalso|done].
  - right. split; [done|]. split; [|by apply Hap]. by apply asked_part; [..|apply (Hap eq_refl)].
  - apply Hnd. unfold evaluated. apply loop_denied; [done|]. by exists s.
Qed.

Lemma some_asked command rs bctx :
  fst (evaluated command rs bctx) <> v_allow ->
  exists s, s ∈ splitCommand command /\
    verdict (evaluateSingleSubcommand s (compileBashPermissionRules (bashRulesOf rs)) ev_default (enrich command rs bctx))
    <> v_allow.
Proof.
  intros Hn. set (P := fun s => verdict (evaluateSingleSubcommand s (compileBashPermissionRules (bashRulesOf rs))
                                  ev_default (enrich command rs bctx)) <> v_allow).
  destruct (decide (Exists P (splitCommand command))) as [(s & Hs & Hv)%Exists_exists|Hno]; [by exists s|].
  exfalso. apply Hn. unfold evaluated. apply loop_allowed. intros s Hs.
  destruct (decide (P s)) as [Hp|Hp]; [|by apply dec_stable in Hp]. exfalso. apply Hno, Exists_exists. eauto.
Qed.

(** C14: approving the question settles it: when every subcommand that is asked about
    is approvable, the checker suggests rules, and once they are stored the same
    command is allowed. *)
Theorem approval_settles_the_question (pctx : ToolPermissionContext) (src : PermissionRuleSource)
    (command : jstr) (bctx : option BashCheckContext) (r : DecisionReason) :
  let ctx := enrich command (rules pctx) bctx in
  let R := compileBashPermissionRules (bashRulesOf (rules pctx)) in
  checkBashPermission command (rules pctx) bctx = (Ask, r) ->
  wholeLayer command (rules pctx) bctx ev_default = None ->
  (forall s, s ∈ splitCommand command -> verdict (evaluateSingleSubcommand s R ev_default ctx) = v_ask ->
     approvable (rules pctx) ctx s) ->
  exists contents, generateSuggestionRules Ask r = Some contents /\
    fst (checkBashPermission command (rules (approve pctx src contents)) bctx) = Allow.
Proof.
  intros ctx R Hc Hw Hap. rewrite checkBash_evaluated in Hc by done. injection Hc as Hb <-.
  assert (fst (evaluated command (rules pctx) bctx) <> v_deny) as Hnd by (by intros E; rewrite E in Hb).
  pose proof (subcommand_cases command (rules pctx) bctx Hnd Hap) as Hcases. fold ctx R in Hcases.
  destruct (some_asked command (rules pctx) bctx) as (s0 & Hs0 & Hv0); [by intros E; rewrite E in Hb|].
  destruct (Hcases s0 Hs0) as [?|(_ & Hp0 & Ha0)]; [done|].
  destruct (suggestions_complete _ s0 Hp0 (ap_named _ _ _ Ha0)) as (contents & Hg & _).
  exists contents. split; [done|].
  pose proof (bashRules_approved pctx src contents) as Hm.
  rewrite checkBash_evaluated by (by eapply whole_none_more). cbn [fst].
  assert (fst (evaluated command (rules (approve pctx src contents)) bctx) = v_allow) as ->; [|done].
  unfold evaluated. rewrite enrich_approved. fold ctx.
  apply loop_allowed. intros s Hs. destruct (Hcases s Hs) as [Hv|(Hv & Hp & Ha)].
  { apply (single_allowed_more s (bashRulesOf (rules pctx))); [by apply bashRules_more|done]. }
  destruct (suggestions_complete _ s Hp (ap_named _ _ _ Ha)) as (contents' & Hg' & Hin).
  assert (contents' = contents) as -> by congruence.
  destruct (approve_stored pctx src contents _ Hin) as (r & Hr & Hbr & Ht & Hc).
  { destruct (ap_plain _ _ _ Ha) as [argv Hargv]. unfold generalizeCommand. by rewrite Hargv. }
  by apply (single_approved s (rules pctx) _ ctx r Ha Hv Hm Hr Hbr Ht Hc).
Qed.
End Covered.

(** ** Witnesses *)
#[local] Existing Instance samplePatterns.

Definition sampleContext (rs : list PermissionRule) : ToolPermissionContext :=
  {| mode := mode_default; rules := rs; sandboxEnabled := false; autoAllowBashIfSandboxed := false;
     platform := js "linux"; shellFamily := posix; workingDirectory := js "/w"; allowedWorkingPaths := [];
     sandboxAllowPaths := []; trustedExactWritePaths := []; dataDir := js "/data"; homeDir := js "/home/u";
     isFile := None; agentName := None; sessionId := None; allowManagedPermissionRulesOnly := false;
     interactiveTools := [] |}.

Definition sampleQuestion : jstr := js "ls && deploy 'all x' -j".

Lemma approval_settles_the_question_witness :
  exists contents, generateSuggestionRules Ask (snd (checkBashPermission sampleQuestion [] None)) = Some contents /\
    fst (checkBashPermission sampleQuestion (rules (approve (sampleContext []) src_session contents)) None) = Allow.
Proof.
  apply (approval_settles_the_question (sampleContext []) src_session sampleQuestion None
           (snd (checkBashPermission sampleQuestion [] None))); [by vm_compute|by vm_compute|].
  intros s Hs Hv. assert (splitCommand sampleQuestion = [js "ls"; js "deploy 'all x' -j"]) as E by (by vm_compute).
  rewrite E in Hs. apply elem_of_cons in Hs as [-> | Hs]; [by vm_compute in Hv|].
  apply list_elem_of_singleton in Hs as ->.
  split; [by vm_compute|by vm_compute|exists [js "deploy"; js "all x"; js "-j"]; by vm_compute|by vm_compute|by vm_compute].
Defined.

(** ** Where an approval says something else

    The stored prefix has single blanks; a command written otherwise is asked
    about again. *)
Definition settles (command : jstr) : Prop :=
  fst (checkBashPermission command (rules (approve (sampleContext []) src_session [generalizeCommand command])) None) = Allow.

Lemma spaced_command_is_asked_again :
  generalizeCommand (js "deploy  all $X") = js "deploy all:*" /\ ~ settles (js "deploy  all $X") /\ settles (js "deploy all $X").
Proof. split; [by vm_compute|]. split; [intros E; by vm_compute in E|by vm_compute]. Qed.

(** The last resort is called the exact command; with a star in it, it is stored
    as a pattern. *)
Lemma exact_command_is_a_pattern :
  generalizeCommand (js "./run.sh $X *") = js "./run.sh $X *" /\
  matchShellRule id (fun _ => None) (js "./run.sh $X; rm y") (parseShellRule (js "./run.sh $X *")) = false /\
  matchShellRule id (fun _ => None) (js "./run.sh $X --delete") (parseShellRule (js "./run.sh $X *")) = true.
Proof. by vm_compute. Qed.

(** Interpreters behind a wrapper with an argument, or in quotes, are not
    recognised: the rule that is offered allows every later call. *)
Lemma wrapped_shell_is_offered :
  isBareInterpreterToken (js "timeout 5 bash") = false /\
  matchShellRule id (fun _ => None) (js "timeout 5 bash -c 'rm -rf x'") (parseShellRule (generalizeCommand (js "timeout 5 bash"))) = true.
Proof. by vm_compute. Qed.

Lemma quoted_shell_is_offered :
  isBareInterpreterToken (js "'bash'") = false /\
  matchShellRule id (fun _ => None) (js "bash -c 'rm -rf x'") (parseShellRule (generalizeCommand (js "'bash'"))) = true.
Proof. by vm_compute. Qed.
