(* ===== verification/BashChecker.v ===== *)
(** * The permission checker of the bash tool

    [BashToolPermissionChecker] of
    [packages/agent-modules/permission/src/tools/bash-checker.ts]: the static
    evaluation, the path capabilities of the command, the shortcuts for scripts,
    redirections and known-safe commands, and the rewriting of deletions, put
    together into one checker result.  What may be done with a path
    ([evaluatePathCapability]) is the class [PathCapabilities]. *)
From S2P Require Import Prelude JsValue PermTypes PermContext PermissionEngine ShellTokenize ShellSplit BashAst SafeCommand BashWrappers BashEvaluate BashPaths BashRewrite BashApproval.

Class PathCapabilities := {
  evaluatePathCapability : jstr -> PathCapabilityAction -> ToolPermissionContext -> PathCapabilityOptions -> ToolCheckResult;
}.

Definition REDIRECT_FAST_ALLOW_PRODUCERS : list jstr := [js "echo"; js "printf"].
Definition REDIRECT_FAST_ALLOW_COMMANDS : list jstr :=
  REDIRECT_FAST_ALLOW_PRODUCERS ++ READ_PATH_COMMANDS ++ SEARCH_PATH_COMMANDS.

(** ** What a decision is made of *)
Definition isIrrecoverableSafetyCheck (description : jstr) : bool :=
  existsb (startsWith description)
    [js "macOS irrecoverable deletion"; js "Storage/disk-level destructive operation";
     js "Catastrophic standalone command"; js "Blocked:";
     js "Needs confirmation: sensitive credential or system-secret read";
     js "Needs confirmation: system secret access"; js "Needs confirmation: credential or private-key access";
     js "Needs confirmation: command opens a raw shell/network channel"].

Definition hardBlockedReason (r : DecisionReason) : bool :=
  match r with ReasonSafetyCheck description _ _ => isIrrecoverableSafetyCheck description | _ => false end.

Definition decisionContainsHardBlocked (r : DecisionReason) : bool :=
  match r with
  | ReasonSubcommandResults reasons =>
      existsb (fun e => match snd e with MkSubcommandResult _ sub => hardBlockedReason sub end) reasons
  | _ => hardBlockedReason r
  end.

Definition isRuleReason (r : DecisionReason) : bool := match r with ReasonRule _ => true | _ => false end.

Definition decisionFromUserRule (r : DecisionReason) : bool :=
  isRuleReason r
  || match r with
     | ReasonSubcommandResults reasons =>
         existsb (fun e => match snd e with MkSubcommandResult _ sub => isRuleReason sub end) reasons
     | _ => false
     end.

(** ** The shortcuts *)
Definition executes (intents : list PathCapabilityIntent) : bool :=
  existsb (fun i => bool_decide (pc_action i = cap_execute)) intents.

Definition isAuthorizedLocalScriptCommand (command : jstr) (intents : list PathCapabilityIntent) : bool :=
  executes intents && (length (splitCommand command) =? 1)%nat
  && existsb (startsWith (trim command))
       [js "source "; js ". "; js "bash "; js "sh "; js "zsh "; js "dash "].

Definition COPY_DANGER : jstr :=
  js "Subcommand-graded danger: cp / mv / tee (destination not in a write-authorized location)".
Definition SED_DANGER : jstr :=
  js "Subcommand-graded danger: sed -i (in-place file rewrite outside write-authorized targets)".

(** A reason that only leaves the target of a write open. *)
Definition redirectReason (firstWordReadsModeled : bool) (r : DecisionReason) : bool :=
  match r with
  | ReasonSafetyCheck description _ _ =>
      firstWordReadsModeled && startsWith description (js "No matching permission rule")
      || str_eqb description COPY_DANGER || str_eqb description SED_DANGER
  | _ => false
  end.

Section Checker.
Context `{BashPatterns} `{HostPaths} `{PathCapabilities}.

Definition isSimpleAuthorizedWriteRedirect (command : jstr) (intents : list PathCapabilityIntent) (r : DecisionReason) : bool :=
  if executes intents then false
  else if negb (length (splitCommand command) =? 1)%nat then false
  else match pureReadFirstWord toLowerCase command with
       | None | Some [] => false
       | Some firstWord =>
           if negb (mem firstWord REDIRECT_FAST_ALLOW_PRODUCERS)
              && existsb (fun c => bool_decide (c ∈ js "$*?[{") || (c =? backtick)%N) command then false
           else match r with
                | ReasonSubcommandResults reasons =>
                    forallb (fun e => match snd e with
                                      | MkSubcommandResult _ sub =>
                                          redirectReason (mem firstWord REDIRECT_FAST_ALLOW_COMMANDS) sub
                                      end) reasons
                | _ => false
                end
       end.

(** ** Inputs of the evaluation *)

(** In a sandbox that allows bash, the rule that asks about the whole tool is left out. *)
Definition effectiveRules (ctx : ToolPermissionContext) : list PermissionRule :=
  if sandboxEnabled ctx && autoAllowBashIfSandboxed ctx then
    List.filter (fun r => negb (str_eqb (toolName (ruleValue r)) (js "bash")
                                && negb (otruthy (ruleContent (ruleValue r)))
                                && bool_decide (ruleBehavior r = Ask))) (rules ctx)
  else rules ctx.

Definition shellFamilyName (f : ShellFamily) : jstr :=
  match f with posix => js "posix" | cmd => js "cmd" | powershell => js "powershell" | shell_unknown => js "unknown" end.

Definition bashCtxOf (ctx : ToolPermissionContext) : BashCheckContext :=
  {| bc_platform := Some (platform ctx); bc_shellFamily := Some (shellFamilyName (shellFamily ctx));
     bc_topLevelSegmentCount := None; bc_sessionId := sessionId ctx;
     bc_workingDirectory := Some (workingDirectory ctx); bc_allowedWorkingPaths := Some (allowedWorkingPaths ctx);
     bc_homeDir := Some (homeDir ctx); bc_isFile := isFile ctx;
     bc_writeAllowRules := Some (List.filter (fun r => str_eqb (toolName (ruleValue r)) (js "write")
                                                       && bool_decide (ruleBehavior r = Allow)) (effectiveRules ctx)) |}.

(** ['undecided'] counts as ['allow'] in bypass mode. *)
Definition bypassBehavior (v : Verdict) : PermissionBehavior :=
  match v with v_undecided | v_allow => Allow | v_ask => Ask | v_deny => Deny end.

Definition staticDecision (command : jstr) (ctx : ToolPermissionContext) : PermissionBehavior * DecisionReason :=
  if bool_decide (mode ctx = bypassPermissions) then
    let evalResult := evaluateBashStatic command (effectiveRules ctx) (Some (bashCtxOf ctx)) ev_bypass in
    (bypassBehavior (verdict evalResult), ev_reason evalResult)
  else checkBashPermission command (effectiveRules ctx) (Some (bashCtxOf ctx)).

(** The reasons that say what is to be rewritten. *)
Definition rewriteEvidence (command : jstr) (ctx : ToolPermissionContext) : DecisionReason :=
  ev_reason (evaluateBashStatic command
    (List.filter (fun r => negb (bool_decide (ruleBehavior r = Allow)) && negb (bool_decide (ruleBehavior r = Ask)))
       (effectiveRules ctx)) (Some (bashCtxOf ctx)) ev_bypass).

(** ** The path intents *)
Definition optionsFor (tool : jstr) (action : PathCapabilityAction) : PathCapabilityOptions :=
  {| co_toolName := Some (match action with cap_read => js "read" | cap_execute => js "execute" | _ => js "write" end);
     co_allowTempWrite := Some (negb (bool_decide (action = cap_read)));
     co_originToolName := Some tool |}.

Definition pathDecision (tool : jstr) (ctx : ToolPermissionContext) (i : PathCapabilityIntent) : ToolCheckResult :=
  evaluatePathCapability (pc_path i) (pc_action i) ctx (optionsFor tool (pc_action i)).

(** [{ ...pathDecision, bypassImmune: pathDecision.bypassImmune ?? false }]. *)
Definition withImmunity (r : ToolCheckResult) : ToolCheckResult :=
  {| tc_behavior := tc_behavior r; tc_reason := tc_reason r;
     tc_bypassImmune := Some (default false (tc_bypassImmune r)); tc_skipAutoClassifier := tc_skipAutoClassifier r;
     tc_ruleContents := tc_ruleContents r; tc_ruleMatchers := tc_ruleMatchers r;
     tc_candidateScopes := tc_candidateScopes r; tc_rewrittenInput := tc_rewrittenInput r |}.

(** A denial, or the question to ask, an immune one before any other. *)
Fixpoint intents_loop (tool : jstr) (ctx : ToolPermissionContext) (intents : list PathCapabilityIntent)
    (pendingAsk : option ToolCheckResult) (pendingAskImmune : bool) : ToolCheckResult + option ToolCheckResult :=
  match intents with
  | [] => inr pendingAsk
  | i :: rest =>
      let d := pathDecision tool ctx i in
      if bool_decide (tc_behavior d = Checked Allow) then intents_loop tool ctx rest pendingAsk pendingAskImmune
      else if bool_decide (tc_behavior d = Checked Deny) then inl (withImmunity d)
      else
        let immune := isTrue (tc_bypassImmune d) in
        if match pendingAsk with None => true | Some _ => immune && negb pendingAskImmune end
        then intents_loop tool ctx rest (Some (withImmunity d)) immune
        else intents_loop tool ctx rest pendingAsk pendingAskImmune
  end.

(** ** The result *)
Definition checkResult (b : PermissionBehavior) (r : DecisionReason) (immune : bool) (ruleContents : option (list jstr))
    (scopes : option (list CandidateScopeGroup)) (rewrite : option ToolInput) : ToolCheckResult :=
  {| tc_behavior := Checked b; tc_reason := r; tc_bypassImmune := Some immune; tc_skipAutoClassifier := None;
     tc_ruleContents := ruleContents; tc_ruleMatchers := None; tc_candidateScopes := scopes;
     tc_rewrittenInput := rewrite |}.

Definition allowed (description category : jstr) : ToolCheckResult :=
  checkResult Allow (ReasonSafetyCheck description None (Some category)) false None None None.

(** A pending question takes over the immunity of the static one, and the rewriting. *)
Definition askPending (ctx : ToolPermissionContext) (b : PermissionBehavior) (r : DecisionReason)
    (rewrite : option ToolInput) (pendingAsk : ToolCheckResult) : ToolCheckResult :=
  let decisionAskImmune :=
    bool_decide (b = Ask) && (bool_decide (mode ctx = bypassPermissions) || decisionContainsHardBlocked r) in
  {| tc_behavior := tc_behavior pendingAsk; tc_reason := tc_reason pendingAsk;
     tc_bypassImmune := if decisionAskImmune then Some true else tc_bypassImmune pendingAsk;
     tc_skipAutoClassifier := tc_skipAutoClassifier pendingAsk; tc_ruleContents := tc_ruleContents pendingAsk;
     tc_ruleMatchers := tc_ruleMatchers pendingAsk; tc_candidateScopes := tc_candidateScopes pendingAsk;
     tc_rewrittenInput := match rewrite with Some i => Some i | None => tc_rewrittenInput pendingAsk end |}.

Definition redirectAllowed : DecisionReason :=
  ReasonSafetyCheck (js "Authorized write target in temp/workspace path.") None (Some (js "authorizedWriteRedirect")).

(** The decision once a redirection to an authorized target is let through. *)
Definition afterRedirect (command : jstr) (intents : list PathCapabilityIntent) (b : PermissionBehavior)
    (r : DecisionReason) : PermissionBehavior * DecisionReason :=
  if bool_decide (b = Ask) && (0 <? length intents)%nat && isSimpleAuthorizedWriteRedirect command intents r
  then (Allow, redirectAllowed) else (b, r).

Definition knownSafe (command : jstr) (b : PermissionBehavior) (r : DecisionReason) : bool :=
  bool_decide (b = Ask) && negb (decisionFromUserRule r) && negb (decisionContainsHardBlocked r)
  && isKnownSafeCommand [js "bash"; js "-lc"; command].

(** What follows the path intents. *)
Definition finish (input : ToolInput) (command : jstr) (ctx : ToolPermissionContext) (intents : list PathCapabilityIntent)
    (b : PermissionBehavior) (r : DecisionReason) : CheckOutcome :=
  let '(b, r) := afterRedirect command intents b r in
  if knownSafe command b r then
    Returned (Some (allowed (js "Known read-only command (auto-approved by safe-command whitelist).") (js "knownSafeCommand")))
  else
    let immune := bool_decide (b = Ask) && (decisionContainsHardBlocked r || bool_decide (mode ctx = bypassPermissions)) in
    match buildRecoverableDeleteRewriteInput input (rewriteEvidence command ctx) (platform ctx) (dataDir ctx) with
    | inl e => Threw (Some e)
    | inr rewrite =>
        Returned (Some (checkResult b r immune (generateSuggestionRules b r) (generateCandidateScopesForDecision b r) rewrite))
    end.

Definition checkPermissions (tool : jstr) (input : ToolInput) (ctx : ToolPermissionContext) : CheckOutcome :=
  match as_string (jget (js "command") input) with
  | None | Some [] => Returned None
  | Some command =>
      let intents := extractBashPathIntents command in
      let '(b, r) := staticDecision command ctx in
      if bool_decide (b = Deny) then finish input command ctx intents b r
      else
        match intents_loop tool ctx intents None false with
        | inl denied => Returned (Some denied)
        | inr (Some pendingAsk) =>
            match buildRecoverableDeleteRewriteInput input (rewriteEvidence command ctx) (platform ctx) (dataDir ctx) with
            | inl e => Threw (Some e)
            | inr rewrite => Returned (Some (askPending ctx b r rewrite pendingAsk))
            end
        | inr None =>
            if (0 <? length intents)%nat && negb (decisionFromUserRule r) && isAuthorizedLocalScriptCommand command intents
            then Returned (Some (allowed (js "Authorized local script execution inside workspace / allowed paths.")
                                   (js "authorizedLocalScript")))
            else finish input command ctx intents b r
        end
  end.
End Checker.
