(* ===== verification/BashGuard.v ===== *)
(** * The bash tool behind the permission engine

    The checker of [BashChecker] registered in the engine of
    [PermissionEngine]: what the rules, the static evaluation and the path
    capabilities say about a command, followed through to the decision of
    either policy owner. *)
From S2P Require Import Prelude JsValue PermTypes PermContext PermissionCore PermissionEngine ShellTokenize ShellSplit SafeCommand BashWrappers BashEvaluate BashPolicy BashPaths BashPathLaws BashRewrite BashApproval BashChecker.

(** ** The decision of either owner *)
Section Owners.
Variable unknownPaths : Checker.

(** What Core is given when a checker ended so. *)
Definition coreInput (e : PermissionEngine) (tool : jstr) (input : ToolInput) (ctx : ToolPermissionContext)
    (o : CheckOutcome) : PermissionCoreDecisionInput :=
  {| in_toolName := tool; in_input := input; in_context := ctx; in_checkerRegistered := jhas tool (checkers e);
     in_checkerResult := outcome_result o;
     in_checkerError := if otruthy (outcome_error o) then outcome_error o else None |}.

Lemma engine_behavior e tool input ctx :
  behavior (fst (checkPermissionWithEngine unknownPaths e tool input ctx))
  = policy (coreInput e tool input ctx (runChecker unknownPaths e tool input ctx)).
Proof.
  rewrite <- reduce_behavior. unfold checkPermissionWithEngine. set (o := runChecker _ _ _ _ _).
  destruct (hasWholeToolRule ctx tool Deny) eqn:Hd.
  { unfold reducePermissionDecision. cbn. by rewrite Hd. }
  destruct (findMcpServerRule tool ctx Deny) eqn:Hm.
  { unfold reducePermissionDecision. cbn. by rewrite Hd, Hm. }
  destruct (result_is Deny (outcome_result o)) eqn:Hr.
  - destruct (outcome_result o) as [r|] eqn:Ho; [|done]. rewrite reduce_behavior. cbn [fst behavior decide_as].
    unfold policy, explicitDeny. cbn [in_checkerResult coreInput]. by rewrite Ho, Hr, !orb_true_r.
  - pose proof (steps_agree tool input ctx (jhas tool (checkers e)) (outcome_result o) (outcome_error o) Hd Hm Hr) as Ha.
    unfold coreInput. destruct (outcome_result o) as [r|]; cbn [result_is] in Hr |- *; rewrite ?Hr; cbn [fst];
      destruct Ha as [-> | [-> ->]]; done.
Qed.

Lemma owner_behavior e tool input ctx owner d trace :
  checkPermission unknownPaths e tool input ctx owner = inr (d, trace) ->
  behavior d = policy (coreInput e tool input ctx (runChecker unknownPaths e tool input ctx)).
Proof.
  unfold checkPermission. destruct (str_eqb _ (js "core")).
  - intros [= <- _]. by rewrite reduce_behavior.
  - destruct (str_eqb _ (js "engine")); [|done]. intros [= E]. by rewrite <- engine_behavior, E.
Qed.
End Owners.

Section Guard.
Context `{BashPatterns} `{HostPaths} `{PathCapabilities}.
Variable unknownPaths : Checker.

(** The engine has the bash checker registered. *)
Definition guards (e : PermissionEngine) : Prop := jget (js "bash") (checkers e) = Some checkPermissions.

Definition decides (e : PermissionEngine) (input : ToolInput) (ctx : ToolPermissionContext) (owner : option jstr)
    (d : PermissionDecision) : Prop :=
  exists trace, checkPermission unknownPaths e (js "bash") input ctx owner = inr (d, trace).

Lemma guard_behavior e input ctx owner d : guards e -> decides e input ctx owner d ->
  behavior d = policy (coreInput e (js "bash") input ctx (checkPermissions (js "bash") input ctx)).
Proof.
  intros Hg [trace Hd]. rewrite (owner_behavior _ _ _ _ _ _ _ _ Hd). unfold runChecker. by rewrite Hg.
Qed.

Lemma guard_denies e input ctx owner d r : guards e -> decides e input ctx owner d ->
  checkPermissions (js "bash") input ctx = Returned (Some r) -> tc_behavior r = Checked Deny -> behavior d = Deny.
Proof.
  intros Hg Hd Hc Hr. rewrite (guard_behavior _ _ _ _ _ Hg Hd), Hc. unfold policy, explicitDeny. cbn.
  by rewrite Hr, bool_decide_eq_true_2, !orb_true_r.
Qed.

Lemma guard_asks e input ctx owner d r : guards e -> decides e input ctx owner d ->
  checkPermissions (js "bash") input ctx = Returned (Some r) -> tc_behavior r = Checked Ask ->
  tc_bypassImmune r = Some true \/ mode ctx <> bypassPermissions -> behavior d <> Allow.
Proof.
  intros Hg Hd Hc Hr Hi. rewrite (guard_behavior _ _ _ _ _ Hg Hd), Hc. unfold policy. case_goal; [done|].
  case_goal; [done|]. unfold isBypassMode. cbn [in_context coreInput]. case_bool_decide as Hm.
  - destruct Hi as [Hi|?]; [|done]. exfalso. revert Heqb0. unfold forcedAsk. cbn.
    by rewrite Hr, Hi, bool_decide_eq_true_2, !orb_true_r.
  - cbn. by rewrite Hr, bool_decide_eq_true_2.
Qed.

(** ** The result of the checker *)
Lemma checkPermissions_command tool input ctx c s : as_string (jget (js "command") input) = Some (c :: s) ->
  let command := c :: s in
  checkPermissions tool input ctx =
  let intents := extractBashPathIntents command in
  let '(b, r) := staticDecision command ctx in
  if bool_decide (b = Deny) then finish input command ctx intents b r
  else match intents_loop tool ctx intents None false with
       | inl denied => Returned (Some denied)
       | inr (Some pendingAsk) =>
           match buildRecoverableDeleteRewriteInput input (rewriteEvidence command ctx) (platform ctx) (dataDir ctx) with
           | inl e => Threw (Some e)
           | inr rewrite => Returned (Some (askPending ctx b r rewrite pendingAsk))
           end
       | inr None =>
           if (0 <? length intents)%nat && negb (decisionFromUserRule r) && isAuthorizedLocalScriptCommand command intents
           then Returned (Some (allowed (js "Authorized local script execution inside workspace / allowed paths.")
                                  (js "authorizedLocalScript")))
           else finish input command ctx intents b r
       end.
Proof. intros Hc. unfold checkPermissions. by rewrite Hc. Qed.

(** The intents that are denied, and those that are not allowed. *)
Definition refused (tool : jstr) (ctx : ToolPermissionContext) (b : PermissionBehavior) (i : PathCapabilityIntent) : Prop :=
  tc_behavior (pathDecision tool ctx i) = Checked b.

Lemma intents_denied tool ctx intents : forall pending immune,
  (exists i, i ∈ intents /\ refused tool ctx Deny i) <->
  exists r, intents_loop tool ctx intents pending immune = inl r /\ tc_behavior r = Checked Deny.
Proof.
  induction intents as [|i intents IH]; intros pending immune; cbn [intents_loop].
  { split; [by intros (i & ?%elem_of_nil & _)|by intros (r & ? & _)]. }
  assert (forall pending' immune', tc_behavior (pathDecision tool ctx i) <> Checked Deny ->
    (exists j, j ∈ i :: intents /\ refused tool ctx Deny j) <->
    exists r, intents_loop tool ctx intents pending' immune' = inl r /\ tc_behavior r = Checked Deny) as Hskip.
  { intros p' m' Hn. rewrite <- (IH p' m'). split; intros (j & Hj & Hr); [|exists j; split; [by right|done]].
    apply elem_of_cons in Hj as [-> | Hj]; [done|eauto]. }
  case_bool_decide as Ha; [apply Hskip; by rewrite Ha|]. case_bool_decide as Hd.
  - split; [|intros _; exists i; split; [by left|done]]. intros _. by exists (withImmunity (pathDecision tool ctx i)).
  - match goal with |- context [if ?b then _ else _] => destruct b end; by apply Hskip.
Qed.

Lemma intents_inl tool ctx intents : forall pending immune r,
  intents_loop tool ctx intents pending immune = inl r -> tc_behavior r = Checked Deny.
Proof.
  induction intents as [|i intents IH]; intros pending immune r; cbn [intents_loop]; [done|].
  case_bool_decide; [by apply IH|]. case_bool_decide; [by intros [= <-]|].
  match goal with |- context [if ?b then _ else _] => destruct b end; by apply IH.
Qed.

Lemma intents_allowed tool ctx intents : forall pending immune,
  intents_loop tool ctx intents pending immune = inr None ->
  pending = None /\ forall i, i ∈ intents -> refused tool ctx Allow i.
Proof.
  induction intents as [|i intents IH]; intros pending immune; cbn [intents_loop].
  { intros [= ->]. split; [done|]. by intros i ?%elem_of_nil. }
  case_bool_decide as Ha.
  - intros [-> Hall]%IH. split; [done|]. intros j [-> | Hj]%elem_of_cons; auto.
  - case_bool_decide; [done|]. destruct pending as [p|]; cbn; [|by intros [? _]%IH].
    case_goal; by intros [? _]%IH.
Qed.

(** ** Denials *)

(** What the recogniser of Windows deletions answers has targets, none of them empty. *)
Definition literalTargets : Prop :=
  forall command family targets, parseWindowsNativeDelete command family = Some targets ->
    targets <> [] /\ forallb truthy targets = true.

Definition literal (e : jstr * SubcommandResult) : Prop :=
  match snd e with
  | MkSubcommandResult _ (ReasonRecoverableDeleteRewrite targets) => targets <> [] /\ forallb truthy targets = true
  | _ => True
  end.

Lemma recoverable_literal bctx command targets : literalTargets -> recoverableWindowsDelete bctx command = Some targets ->
  targets <> [] /\ forallb truthy targets = true.
Proof. intros Hl. unfold recoverableWindowsDelete. repeat case_goal; try done. apply Hl. Qed.

Lemma single_literal s R ctx b : literalTargets ->
  literal (s, MkSubcommandResult b (ev_reason (evaluateSingleSubcommand s R ev_bypass ctx))).
Proof.
  intros Hl. unfold evaluateSingleSubcommand. destruct (commonLayer _ _ _) as [r|] eqn:Hc.
  - unfold commonLayer in Hc. repeat case_hyp Hc; simplify_eq; done.
  - rewrite bool_decide_eq_true_2 by done. unfold bypassLayer.
    destruct (recoverableWindowsDelete _ _) as [targets|] eqn:Hr; [by eapply recoverable_literal|].
    repeat case_goal; done.
Qed.

Lemma elem_jset {K V} `{EqDecision K} (k : K) (v : V) m e : e ∈ jset k v m -> e = (k, v) \/ e ∈ m.
Proof.
  induction m as [|[k' v'] m IH]; cbn [jset]; [intros ->%list_elem_of_singleton; by left|].
  destruct (decide _); intros [-> | He]%elem_of_cons.
  - left. by subst.
  - right. by right.
  - right. by left.
  - destruct (IH He) as [? | ?]; [by left|right; by right].
Qed.

Lemma loop_literal R ctx subs : literalTargets -> forall res agg, Forall literal res ->
  Forall literal (snd (subcommands_loop R ev_bypass ctx subs res agg)).
Proof.
  intros Hl. induction subs as [|s subs IH]; intros res agg Hres; [done|]. cbn [subcommands_loop].
  assert (Forall literal (jset s (MkSubcommandResult
    (storedBehavior (verdict (evaluateSingleSubcommand s R ev_bypass ctx)))
    (ev_reason (evaluateSingleSubcommand s R ev_bypass ctx))) res)) as Hres'.
  { apply Forall_forall. intros e [-> | He]%elem_jset; [by apply single_literal|]. by rewrite Forall_forall in Hres; apply Hres. }
  case_bool_decide; [done|]. by apply IH.
Qed.

Lemma firstRecoverable_literal reasons targets : Forall literal reasons -> firstRecoverable reasons = Some targets ->
  targets <> [] /\ forallb truthy targets = true.
Proof.
  induction 1 as [|[s [b r]] reasons Hl _ IH]; [done|]. cbn [firstRecoverable]. destruct r; try exact IH.
  intros [= <-]. exact Hl.
Qed.

Lemma rewrite_never_throws input command ctx err : literalTargets ->
  buildRecoverableDeleteRewriteInput input (rewriteEvidence command ctx) (platform ctx) (dataDir ctx) <> inl err.
Proof.
  intros Hl. unfold rewriteEvidence, evaluateBashStatic. set (rs := List.filter _ _).
  destruct (wholeLayer _ _ _ _) as [w|] eqn:Hw.
  - unfold wholeLayer, catastrophic, hardPrescan, pipePrescan, helpFlag in Hw.
    repeat case_hyp Hw; simplify_eq; cbn; repeat case_goal; done.
  - pose proof (loop_literal (compileBashPermissionRules (bashRulesOf rs)) (enrich command rs (Some (bashCtxOf ctx)))
                  (splitCommand command) Hl [] v_allow ltac:(constructor)) as Hres.
    destruct (subcommands_loop _ _ _ _ _ _) as [agg results]. cbn [snd ev_reason] in Hres |- *.
    unfold buildRecoverableDeleteRewriteInput. case_goal; [|done]. case_goal; [done|]. case_goal; [done|].
    destruct (firstRecoverable results) as [targets|] eqn:Hf; [|by case_goal].
    destruct (firstRecoverable_literal _ _ Hres Hf) as [Hne Ht]. case_goal; [done|].
    unfold withWindowsTrashExecution. by rewrite bool_decide_eq_false_2, Ht by done.
Qed.

Lemma denied_outcome e input ctx owner d c s :
  guards e -> decides e input ctx owner d -> as_string (jget (js "command") input) = Some (c :: s) -> literalTargets ->
  fst (staticDecision (c :: s) ctx) = Deny
    \/ (exists i, i ∈ extractBashPathIntents (c :: s) /\ refused (js "bash") ctx Deny i) ->
  behavior d = Deny.
Proof.
  intros Hg Hd Hc Hl Hden.
  pose proof (checkPermissions_command (js "bash") input ctx c s Hc) as Hr. cbv zeta in Hr.
  destruct (staticDecision (c :: s) ctx) as [b r] eqn:Hs. cbn [fst] in Hden. case_bool_decide as Hb.
  - subst b. unfold finish in Hr. cbn in Hr.
    destruct (buildRecoverableDeleteRewriteInput _ _ _ _) as [err|rewrite] eqn:Hw; [by apply rewrite_never_throws in Hw|].
    by apply (guard_denies _ _ _ _ _ _ Hg Hd Hr).
  - destruct Hden as [?|Hi]; [done|]. apply (intents_denied _ _ _ None false) in Hi as (r' & Hi & Hr').
    rewrite Hi in Hr. by apply (guard_denies _ _ _ _ _ _ Hg Hd Hr).
Qed.

(** C6: what is denied never runs: when the static evaluation of the command denies
    it, or the path capabilities deny one of its paths, either policy owner
    denies the call, whatever rules and mode the context has. *)
Theorem denied_commands_never_run e input ctx owner d command :
  guards e -> decides e input ctx owner d -> as_string (jget (js "command") input) = Some command -> command <> [] ->
  literalTargets ->
  fst (staticDecision command ctx) = Deny
    \/ (exists i, i ∈ extractBashPathIntents command /\ refused (js "bash") ctx Deny i) ->
  behavior d = Deny.
Proof. intros Hg Hd Hc Hne Hl. destruct command as [|c s]; [done|]. by apply (denied_outcome e input ctx owner). Qed.

(** a denied file is not reached by naming it: in a program of quoted commands
    with redirections, when the path capabilities deny an operand that one of the
    commands reads, deletes or writes, or a file it sends its output to, either
    policy owner denies the call. *)
Theorem denied_paths_are_not_reached e input ctx owner d first rest c action w :
  guards e -> decides e input ctx owner d -> as_string (jget (js "command") input) = Some (program first rest) ->
  literalTargets -> wellFormedProgram first rest -> c ∈ first :: map snd rest ->
  (exists short long head args, words c = head :: args /\ operandAction head = Some action /\ noRedirects args
     /\ w ∈ operands (getopt short long args) /\ isStaticPathToken w = true /\ w <> js "-")
  \/ action = cap_write /\ (exists op, (op, w) ∈ redirects c) /\ checkedTarget w = true ->
  refused (js "bash") ctx Deny (intent action w) -> behavior d = Deny.
Proof.
  intros Hg Hd Hc Hl Hp Hin Hw Hr. destruct (program_nonempty first rest Hp) as (u & s & Hs). rewrite Hs in Hc.
  apply (denied_outcome e input ctx owner d u s Hg Hd Hc Hl). right. exists (intent action w). split; [|exact Hr]. rewrite <- Hs.
  destruct Hw as [(short & long & head & args & Hwd & Ha & Hn & Ho & Hst & Hne)|(-> & [op Hop] & Hch)].
  - by apply (operand_intent short long first rest c head args).
  - by apply (redirect_intent first rest c op).
Qed.

(** ** Questions of the user *)
Lemma bypass_decides s R ctx : verdict (evaluateSingleSubcommand s R ev_bypass ctx) <> v_undecided.
Proof.
  unfold evaluateSingleSubcommand. destruct (commonLayer _ _ _) as [r|] eqn:Hc; [by apply common_not_undecided in Hc|].
  rewrite bool_decide_eq_true_2 by done. unfold bypassLayer. repeat case_goal; done.
Qed.

Lemma decided_alone s R mode ctx : mode <> ev_auto -> verdict (evaluateSingleSubcommand s R mode ctx) <> v_undecided.
Proof. intros Hm. destruct mode; [apply single_not_undecided|done|apply bypass_decides]. Qed.

Lemma loop_decided R mode ctx subs : mode <> ev_auto -> forall res agg, agg <> v_undecided ->
  fst (subcommands_loop R mode ctx subs res agg) <> v_undecided.
Proof.
  intros Hm. induction subs as [|s subs IH]; intros res agg Ha; [done|]. cbn [subcommands_loop].
  pose proof (decided_alone s R mode ctx Hm) as Hs. set (v := verdict _) in *.
  assert (aggregate agg v <> v_undecided) as Hv by (by destruct agg, v).
  case_bool_decide; [exact Hv|]. by apply IH.
Qed.

Lemma loop_stays_asked R mode ctx subs : forall res agg, agg <> v_allow ->
  fst (subcommands_loop R mode ctx subs res agg) <> v_allow.
Proof.
  induction subs as [|s subs IH]; intros res agg Ha; [done|]. cbn [subcommands_loop].
  assert (aggregate agg (verdict (evaluateSingleSubcommand s R mode ctx)) <> v_allow) as Hv
    by (by destruct agg, (verdict (evaluateSingleSubcommand s R mode ctx))).
  case_bool_decide; [exact Hv|]. by apply IH.
Qed.

Lemma loop_asked R mode ctx subs s : s ∈ subs -> verdict (evaluateSingleSubcommand s R mode ctx) <> v_allow ->
  forall res agg, fst (subcommands_loop R mode ctx subs res agg) <> v_allow.
Proof.
  intros Hs Hv. induction subs as [|s0 subs IH]; intros res agg; [by apply elem_of_nil in Hs|]. cbn [subcommands_loop].
  apply elem_of_cons in Hs as [-> | Hs]; [|case_bool_decide as Hd; [|by apply IH]].
  - assert (aggregate agg (verdict (evaluateSingleSubcommand s0 R mode ctx)) <> v_allow) as Hn
      by (by destruct agg, (verdict (evaluateSingleSubcommand s0 R mode ctx))).
    case_bool_decide; [exact Hn|]. by apply loop_stays_asked.
  - cbn [fst]. by rewrite Hd; destruct agg.
Qed.

(** An ask rule makes the subcommand asked about, for that rule, unless it is denied. *)
Lemma ask_rule_single s R mode ctx : firstUserRule Ask s R <> None ->
  let sub := evaluateSingleSubcommand s R mode ctx in
  verdict sub = v_deny \/ verdict sub = v_ask /\ isRuleReason (ev_reason sub) = true.
Proof.
  intros Ha. unfold evaluateSingleSubcommand, commonLayer. destruct (firstUserRule Deny s R); [by left|].
  destruct (firstUserRule Ask s R); [by right|done].
Qed.

(** No layer that looks at the whole command comes before the rules. *)
Definition rulesAreReached (command : jstr) (ctx : ToolPermissionContext) : Prop :=
  mode ctx = bypassPermissions \/
  pipePrescan command (bashRulesOf (effectiveRules ctx)) (Some (bashCtxOf ctx)) ev_default = None
  /\ helpFlag command = None.

Lemma evaluate_asked command ctx m s : m <> ev_auto ->
  m = ev_bypass \/ pipePrescan command (bashRulesOf (effectiveRules ctx)) (Some (bashCtxOf ctx)) m = None
                  /\ helpFlag command = None ->
  s ∈ splitCommand command -> firstUserRule Ask s (compileBashPermissionRules (bashRulesOf (effectiveRules ctx))) <> None ->
  let r := evaluateBashStatic command (effectiveRules ctx) (Some (bashCtxOf ctx)) m in
  verdict r = v_deny \/ verdict r = v_ask /\ decisionFromUserRule (ev_reason r) = true.
Proof.
  intros Hm Hr Hs Ha r. subst r. unfold evaluateBashStatic.
  pose proof (wholeLayer_cases command (effectiveRules ctx) (Some (bashCtxOf ctx)) m Hr) as Hw.
  destruct (wholeLayer _ _ _ _) as [w|]; [by left|]. set (R := compileBashPermissionRules _) in *.
  set (ectx := enrich _ _ _). set (L := subcommands_loop R m ectx (splitCommand command) [] v_allow).
  assert (fst L <> v_undecided) as Hu by (by apply loop_decided).
  assert (fst L <> v_allow) as Hn.
  { apply (loop_asked R m ectx _ s Hs). destruct (ask_rule_single s R m ectx Ha) as [-> | [-> _]]; done. }
  destruct (decide (fst L = v_deny)) as [Hd|Hd]; [left; by destruct L|]. right.
  assert (verdict (evaluateSingleSubcommand s R m ectx) <> v_deny) as Hsd.
  { intros Hv. apply Hd. apply loop_denied; [done|]. by exists s. }
  pose proof (loop_records R m ectx (splitCommand command) [] v_allow ltac:(done) Hd s (or_introl Hs)) as Hrec. fold L in Hrec.
  destruct L as [agg results]. cbn [fst snd verdict ev_reason] in *. split; [by destruct agg|].
  unfold decisionFromUserRule. cbn. apply jget_Some_elem in Hrec. apply existsb_exists.
  eexists. split; [apply list_elem_of_In, Hrec|]. cbn.
  by destruct (ask_rule_single s R m ectx Ha) as [Hv|[_ Hv]].
Qed.

Lemma static_asked command ctx s : rulesAreReached command ctx ->
  s ∈ splitCommand command -> firstUserRule Ask s (compileBashPermissionRules (bashRulesOf (effectiveRules ctx))) <> None ->
  fst (staticDecision command ctx) = Deny \/
  fst (staticDecision command ctx) = Ask /\ decisionFromUserRule (snd (staticDecision command ctx)) = true.
Proof.
  intros Hr Hs Ha. unfold staticDecision, checkBashPermission. case_bool_decide as Hm; cbn [fst snd].
  - destruct (evaluate_asked command ctx ev_bypass s ltac:(done) ltac:(by left) Hs Ha) as [-> | [-> ->]]; [by left|by right].
  - destruct Hr as [?|Hr]; [done|].
    destruct (evaluate_asked command ctx ev_default s ltac:(done) ltac:(by right) Hs Ha) as [-> | [-> ->]]; [by left|by right].
Qed.

Lemma redirect_needs_heuristics command intents r : decisionFromUserRule r = true ->
  isSimpleAuthorizedWriteRedirect command intents r = false.
Proof.
  intros Hr. unfold isSimpleAuthorizedWriteRedirect. repeat case_goal; try done.
  unfold decisionFromUserRule in Hr. cbn in Hr. apply existsb_exists in Hr as ([k [b sub]] & Hin & Hsub).
  match goal with |- forallb ?f _ = _ => destruct (forallb f reasons) eqn:E end; [|done].
  rewrite forallb_forall in E. specialize (E _ Hin). by destruct sub.
Qed.

(** Path capabilities decide: they answer allow, ask or deny. *)
Definition capabilitiesDecide : Prop :=
  forall path action ctx options, tc_behavior (evaluatePathCapability path action ctx options) <> Passthrough.

Lemma intents_ask tool ctx intents : capabilitiesDecide -> forall pending immune r,
  intents_loop tool ctx intents pending immune = inr (Some r) ->
  (forall p, pending = Some p -> tc_behavior p = Checked Ask) -> tc_behavior r = Checked Ask.
Proof.
  intros Hp. induction intents as [|i intents IH]; intros pending immune r; cbn [intents_loop].
  { intros [= ->] Hpen. by apply Hpen. }
  case_bool_decide as Ha; [by apply IH|]. case_bool_decide as Hd; [done|].
  match goal with |- context [if ?b then _ else _] => destruct b end; [|by apply IH].
  intros Hl _. apply (IH _ _ _ Hl). intros p [= <-]. cbn.
  pose proof (Hp (pc_path i) (pc_action i) ctx (optionsFor tool (pc_action i))) as Hn.
  fold (pathDecision tool ctx i) in Hn. by destruct (tc_behavior (pathDecision tool ctx i)) as [[]|].
Qed.

(** C10: a question of the user is never waived: when an ask rule applies to any
    subcommand of the command, and the rules are reached at all, neither policy
    owner allows the call, in any mode, bypass included; no shortcut of the
    checker answers for the user. *)
Theorem explicit_questions_are_asked e input ctx owner d command s :
  guards e -> decides e input ctx owner d -> as_string (jget (js "command") input) = Some command ->
  s ∈ splitCommand command ->
  firstUserRule Ask s (compileBashPermissionRules (bashRulesOf (effectiveRules ctx))) <> None ->
  rulesAreReached command ctx -> literalTargets -> capabilitiesDecide ->
  behavior d <> Allow.
Proof.
  intros Hg Hd Hc Hs Ha Hr Hl Hcap. destruct command as [|c cs]; [by apply elem_of_nil in Hs|].
  pose proof (checkPermissions_command (js "bash") input ctx c cs Hc) as Hres. cbv zeta in Hres.
  pose proof (static_asked (c :: cs) ctx s Hr Hs Ha) as Hst.
  destruct (staticDecision (c :: cs) ctx) as [b r] eqn:Est. cbn [fst snd] in Hst.
  destruct Hst as [-> | [-> Hrule]].
  { rewrite (denied_outcome e input ctx owner d c cs) by (done || rewrite Est; auto). done. }
  rewrite bool_decide_eq_false_2 in Hres by done.
  destruct (intents_loop _ _ _ _ _) as [denied|[pending|]] eqn:Hi.
  - apply intents_inl in Hi. by rewrite (guard_denies _ _ _ _ _ _ Hg Hd Hres Hi).
  - destruct (buildRecoverableDeleteRewriteInput _ _ _ _) as [err|rewrite] eqn:Hw; [by apply rewrite_never_throws in Hw|].
    apply (guard_asks _ _ _ _ _ _ Hg Hd Hres); cbn [askPending tc_behavior tc_bypassImmune].
    + by apply (intents_ask _ _ _ Hcap _ _ _ Hi).
    + destruct (decide (mode ctx = bypassPermissions)) as [Hm|?]; [left|by right].
      by rewrite !bool_decide_eq_true_2.
  - rewrite Hrule, andb_false_r in Hres. cbn [andb] in Hres. unfold finish, afterRedirect in Hres.
    rewrite redirect_needs_heuristics, andb_false_r in Hres by done. unfold knownSafe in Hres.
    rewrite Hrule, andb_false_r in Hres. cbn [andb] in Hres.
    destruct (buildRecoverableDeleteRewriteInput _ _ _ _) as [err|rewrite] eqn:Hw; [by apply rewrite_never_throws in Hw|].
    apply (guard_asks _ _ _ _ _ _ Hg Hd Hres); [done|].
    destruct (decide (mode ctx = bypassPermissions)) as [Hm|?]; [left|by right].
    cbn. by rewrite !bool_decide_eq_true_2, orb_true_r.
Qed.

(** ** Permissions *)

(** A ground of the checker itself: every path is allowed, and the static
    evaluation allows the command, or asks for no rule and one of the three
    shortcuts answers. *)
Definition groundOf (command : jstr) (ctx : ToolPermissionContext) : Prop :=
  let intents := extractBashPathIntents command in
  let '(b, r) := staticDecision command ctx in
  (forall i, i ∈ intents -> refused (js "bash") ctx Allow i) /\
  (b = Allow \/
   b = Ask /\ decisionFromUserRule r = false /\
   (isAuthorizedLocalScriptCommand command intents = true \/ isSimpleAuthorizedWriteRedirect command intents r = true \/
    decisionContainsHardBlocked r = false /\ isKnownSafeCommand [js "bash"; js "-lc"; command] = true)).

Lemma finish_allows input command ctx intents b r res :
  finish input command ctx intents b r = Returned (Some res) -> tc_behavior res = Checked Allow ->
  b = Allow \/ b = Ask /\ decisionFromUserRule r = false /\
    (isSimpleAuthorizedWriteRedirect command intents r = true \/
     decisionContainsHardBlocked r = false /\ isKnownSafeCommand [js "bash"; js "-lc"; command] = true).
Proof.
  unfold finish, afterRedirect. destruct (bool_decide (b = Ask) && _ && _) eqn:Hred.
  { intros _ _. apply andb_true_iff in Hred as [[Hb _]%andb_true_iff Hs]. reflect_bools. right. split; [done|].
    split; [|by left]. destruct (decisionFromUserRule r) eqn:Hu; [|done]. by rewrite redirect_needs_heuristics in Hs. }
  destruct (knownSafe command b r) eqn:Hk.
  { intros _ _. unfold knownSafe in Hk. reflect_bools. right. tauto. }
  destruct (buildRecoverableDeleteRewriteInput _ _ _ _); [done|]. intros [= <-] [= ->]. by left.
Qed.

Lemma checker_allows input ctx c s res : as_string (jget (js "command") input) = Some (c :: s) -> capabilitiesDecide ->
  checkPermissions (js "bash") input ctx = Returned (Some res) -> tc_behavior res = Checked Allow ->
  groundOf (c :: s) ctx.
Proof.
  intros Hc Hcap Hres Ha. rewrite (checkPermissions_command (js "bash") input ctx c s Hc) in Hres. cbv zeta in Hres.
  unfold groundOf. destruct (staticDecision (c :: s) ctx) as [b r] eqn:Est. case_bool_decide as Hb.
  { subst b. by destruct (finish_allows _ _ _ _ _ _ _ Hres Ha) as [?|[? _]]. }
  destruct (intents_loop _ _ _ _ _) as [denied|[pending|]] eqn:Hi.
  - apply intents_inl in Hi. by simplify_eq; rewrite Hi in Ha.
  - destruct (buildRecoverableDeleteRewriteInput _ _ _ _); [done|]. simplify_eq. cbn in Ha.
    by rewrite (intents_ask _ _ _ Hcap _ _ _ Hi) in Ha.
  - apply intents_allowed in Hi as [_ Hall]. split; [exact Hall|]. destruct (_ && isAuthorizedLocalScriptCommand _ _) eqn:Hs.
    + reflect_bools. destruct b; [by left|done|]. right. tauto.
    + destruct (finish_allows _ _ _ _ _ _ _ Hres Ha) as [?|(? & ? & ?)]; [by left|]. right. tauto.
Qed.

Lemma allow_grounded e input ctx owner d command :
  guards e -> decides e input ctx owner d -> as_string (jget (js "command") input) = Some command -> command <> [] ->
  mode ctx <> bypassPermissions -> hasWholeToolRule ctx (js "bash") Allow = None -> capabilitiesDecide ->
  behavior d = Allow -> groundOf command ctx.
Proof.
  intros Hg Hd Hc Hne Hm Hw Hcap Hb. destruct command as [|c s]; [done|].
  rewrite (guard_behavior _ _ _ _ _ Hg Hd) in Hb. unfold policy, isBypassMode in Hb. cbn [in_context coreInput] in Hb.
  rewrite (bool_decide_eq_false_2 (mode ctx = bypassPermissions)) in Hb by done.
  repeat case_hyp Hb; try done. unfold granted in Heqb2. cbn [in_context in_toolName in_checkerResult in_checkerRegistered coreInput] in Heqb2.
  assert (findMcpServerRule (js "bash") ctx Allow = None) as Hmcp by done.
  rewrite Hw, Hmcp in Heqb2. unfold jhas in Heqb2. rewrite Hg in Heqb2. cbn [present orb negb] in Heqb2.
  rewrite orb_false_r in Heqb2. destruct (checkPermissions (js "bash") input ctx) as [[res|]|] eqn:Hres; [|done..].
  cbn [outcome_result result_is] in Heqb2. reflect_bools. by apply (checker_allows input ctx c s res).
Qed.

(** a call is allowed for a reason: outside bypass mode, and when no rule allows
    the whole tool, either owner allows a command only if every path of it is
    allowed and the static evaluation allows it too, or asks without a rule of the
    user and one of the shortcuts for scripts, redirections and read-only commands
    applies. *)
Theorem allowed_for_a_reason e input ctx owner d command :
  guards e -> decides e input ctx owner d -> as_string (jget (js "command") input) = Some command -> command <> [] ->
  mode ctx <> bypassPermissions -> hasWholeToolRule ctx (js "bash") Allow = None -> capabilitiesDecide ->
  behavior d = Allow -> groundOf command ctx.
Proof. apply allow_grounded. Qed.
End Guard.

(** ** Witnesses *)
#[local] Existing Instance samplePatterns.
#[local] Existing Instance sampleHost.

Definition capability (b : PermissionBehavior) (immune : option bool) : ToolCheckResult :=
  {| tc_behavior := Checked b; tc_reason := ReasonSafetyCheck (js "path") None None; tc_bypassImmune := immune; tc_skipAutoClassifier := None;
     tc_ruleContents := None; tc_ruleMatchers := None; tc_candidateScopes := None; tc_rewrittenInput := None |}.

(** Relative paths and those under /w are allowed, those under /etc denied, and the
    others are asked about in every mode. *)
Definition samplePaths : PathCapabilities := {|
  evaluatePathCapability := fun path _ _ _ =>
    if negb (startsWith path (js "/")) || startsWith path (js "/w/") then capability Allow None
    else if startsWith path (js "/etc/") then capability Deny None
    else capability Ask (Some true) |}.
#[local] Existing Instance samplePaths.

Definition sampleEngine : PermissionEngine := registerToolPermissionChecker new_engine (js "bash") checkPermissions.
Definition noPaths : Checker := fun _ _ _ => Returned None.
Definition inputOf (command : jstr) : ToolInput := [(js "command", JStr command)].
Definition decisionOf (command : jstr) (ctx : ToolPermissionContext) : PermissionDecision :=
  fst (checkPermissionWithEngine noPaths sampleEngine (js "bash") (inputOf command) ctx).

Lemma sample_guards : guards sampleEngine.
Proof. reflexivity. Qed.

Lemma sample_decides command ctx : decides noPaths sampleEngine (inputOf command) ctx None (decisionOf command ctx).
Proof.
  unfold decides, decisionOf. exists (snd (checkPermissionWithEngine noPaths sampleEngine (js "bash") (inputOf command) ctx)).
  unfold checkPermission. by destruct (checkPermissionWithEngine _ _ _ _ _).
Qed.

Lemma sample_literal : literalTargets.
Proof. by intros command family targets. Qed.

Lemma sample_capabilities : capabilitiesDecide.
Proof.
  intros path action ctx options. unfold evaluatePathCapability, samplePaths.
  destruct (negb _ || _); [done|]. by destruct (startsWith path (js "/etc/")).
Qed.

Lemma denied_commands_never_run_witness :
  behavior (decisionOf (js "cat /etc/passwd") (sampleContext [sampleRule Allow (js "cat:*")])) = Deny.
Proof.
  apply (denied_commands_never_run noPaths sampleEngine (inputOf (js "cat /etc/passwd"))
           (sampleContext [sampleRule Allow (js "cat:*")]) None _ (js "cat /etc/passwd")).
  - exact sample_guards.
  - apply sample_decides.
  - by vm_compute.
  - done.
  - exact sample_literal.
  - right. exists {| pc_path := js "/etc/passwd"; pc_action := cap_read; pc_relativeBase := None |}.
    split; [by left|by vm_compute].
Defined.

Definition questioned : ToolPermissionContext :=
  {| mode := bypassPermissions; rules := [sampleRule Allow (js "git:*"); sampleRule Ask (js "git push:*")];
     sandboxEnabled := false; autoAllowBashIfSandboxed := false; platform := js "linux"; shellFamily := posix;
     workingDirectory := js "/w"; allowedWorkingPaths := []; sandboxAllowPaths := []; trustedExactWritePaths := [];
     dataDir := js "/data"; homeDir := js "/home/u"; isFile := None; agentName := None; sessionId := None;
     allowManagedPermissionRulesOnly := false; interactiveTools := [] |}.

Lemma explicit_questions_are_asked_witness :
  behavior (decisionOf (js "ls && git push -f") questioned) <> Allow.
Proof.
  apply (explicit_questions_are_asked noPaths sampleEngine (inputOf (js "ls && git push -f")) questioned None _
           (js "ls && git push -f") (js "git push -f")).
  - exact sample_guards.
  - apply sample_decides.
  - by vm_compute.
  - assert (splitCommand (js "ls && git push -f") = [js "ls"; js "git push -f"]) as -> by (by vm_compute). by right; left.
  - by vm_compute.
  - by left.
  - exact sample_literal.
  - exact sample_capabilities.
Defined.

Lemma allowed_for_a_reason_witness : groundOf (js "cat /w/x") (sampleContext []).
Proof.
  apply (allowed_for_a_reason noPaths sampleEngine (inputOf (js "cat /w/x")) (sampleContext []) None
           (decisionOf (js "cat /w/x") (sampleContext []))).
  - exact sample_guards.
  - apply sample_decides.
  - by vm_compute.
  - done.
  - done.
  - by vm_compute.
  - exact sample_capabilities.
  - by vm_compute.
Defined.

(** ** Where the guard does something else

    The checker rewrites a deletion it asks about, but a question that no mode
    waives reaches the user without the rewritten input, for both owners: once
    approved, the deletion is for good. *)
Lemma immune_question_loses_the_rewriting :
  let input := inputOf (js "rm /opt/x") in
  (exists r, checkPermissions (js "bash") input (sampleContext []) = Returned (Some r)
     /\ tc_rewrittenInput r = Some (inputOf (js "/data/bin/mavis-trash -- /opt/x")))
  /\ Forall (fun owner => exists d trace,
       checkPermission noPaths sampleEngine (js "bash") input (sampleContext []) (Some owner) = inr (d, trace)
       /\ behavior d = Ask /\ rewrittenInput d = None) [js "engine"; js "core"].
Proof.
  split; [eexists; split; by vm_compute|]. repeat constructor; do 2 eexists; (split; [by vm_compute|]); done.
Qed.

Definition deleteLine : Command := {| words := [js "rm"; js "-f"; js "/etc/a b"]; redirects := [(js "2>", js "/w/log")] |}.

Lemma denied_paths_are_not_reached_witness :
  behavior (decisionOf (js "'rm' '-f' '/etc/a b' 2> '/w/log'") (sampleContext [sampleRule Allow (js "rm:*")])) = Deny.
Proof.
  apply (denied_paths_are_not_reached noPaths sampleEngine (inputOf (js "'rm' '-f' '/etc/a b' 2> '/w/log'"))
           (sampleContext [sampleRule Allow (js "rm:*")]) None _ deleteLine [] deleteLine cap_delete (js "/etc/a b")).
  - exact sample_guards.
  - apply sample_decides.
  - by vm_compute.
  - exact sample_literal.
  - split; [split; [reflexivity|split; [reflexivity|]]|constructor].
    repeat constructor; apply (bool_decide_unpack _); by vm_compute.
  - by left.
  - left. exists (fun _ => no_argument), (fun _ => no_argument), (js "rm"), [js "-f"; js "/etc/a b"].
    repeat split; [repeat constructor|by left|done].
  - by vm_compute.
Defined.

(** Only [env] is looked through: behind another wrapper the operands of a
    deletion are not seen, though the deletion is recognised and rewritten. *)
Lemma wrapper_skips_the_question :
  behavior (decisionOf (js "rm /opt/x") (sampleContext [])) = Ask /\
  behavior (decisionOf (js "nohup rm /opt/x") (sampleContext [])) = Allow.
Proof. by vm_compute. Qed.

(** Commands that are known to read only, but whose operands are not modelled,
    read what [cat] has to ask for. *)
Lemma unlisted_reader_skips_the_question :
  behavior (decisionOf (js "cat /opt/x") (sampleContext [])) = Ask /\
  Forall (fun command => behavior (decisionOf command (sampleContext [])) = Allow)
    [js "base64 /opt/x"; js "sed -n 1p /opt/x"; js "cut -c1-80 /opt/x"].
Proof. split; [by vm_compute|]. repeat (apply Forall_cons; split; [by vm_compute|]). by apply Forall_nil. Qed.

(** A second redirection of the form [>&] is let through with the first. *)
Lemma second_output_skips_the_question :
  behavior (decisionOf (js "echo x > /opt/f") (sampleContext [])) = Ask /\
  behavior (decisionOf (js "echo x > /w/a >& /opt/f") (sampleContext [])) = Allow.
Proof. by vm_compute. Qed.

(** The question about a copy out of the workspace is lifted once every path that
    was found is allowed, although the destination was not found. *)
Lemma copy_question_is_lifted :
  let command := js "cp a /opt/b 2>/dev/null" in
  isSimpleAuthorizedWriteRedirect command (extractBashPathIntents command)
    (ReasonSubcommandResults [(command, MkSubcommandResult Ask (ReasonSafetyCheck COPY_DANGER None None))]) = true
  /\ (cap_write, js "/opt/b") ∉ intentsOf command.
Proof.
  split; [by vm_compute|]. rewrite redirection_becomes_the_destination, !elem_of_cons.
  intros [E|[E|[E|E%elem_of_nil]]]; [by vm_compute in E..|done].
Qed.
