(* ===== verification/FsGuard.v ===== *)
(** * Files behind the permission engine

    The bash checker and the file checker registered in the engine, with the path
    capabilities of [PathCapability]: which files either policy owner lets a command
    line or a file tool touch. *)
From S2P Require Import Prelude JsValue PermTypes PermContext PermissionCore PermissionEngine ShellTokenize ShellSplit SafeCommand BashWrappers BashEvaluate BashPaths BashPathLaws BashRewrite BashChecker BashGuard FsPath FsPermission PathCapability FsChecker PathLaws PathApproval.

#[export] Instance hostCapabilities `{FsHost} : PathCapabilities :=
  {| BashChecker.evaluatePathCapability := PathCapability.evaluatePathCapability |}.

Section FsGuard.
Context `{BashPatterns} `{HostPaths} `{FsHost}.
Variable unknownPaths : Checker.

(** The interface of the bash checker is met. *)
Lemma capabilities_decide : capabilitiesDecide.
Proof.
  intros path action ctx options.
  destruct (evaluate_shape path action ctx options) as (b & reason & [E|(immune & skip & E)]);
    change (BashChecker.evaluatePathCapability path action ctx options) with (PathCapability.evaluatePathCapability path action ctx options);
    by rewrite E.
Qed.

(** An action of some command of the program on the word: an operand that [getopt]
    sees, or a file that output is sent to. *)
Definition touches (first : Command) (rest : list (jstr * Command)) (action : PathCapabilityAction) (w : jstr) : Prop :=
  exists c, c ∈ first :: map snd rest /\
  ((exists short long head args, words c = head :: args /\ operandAction head = Some action /\ noRedirects args
      /\ w ∈ operands (getopt short long args) /\ isStaticPathToken w = true /\ w <> js "-")
   \/ action = cap_write /\ (exists op, (op, w) ∈ redirects c) /\ checkedTarget w = true).

Lemma touched_intent first rest action w : wellFormedProgram first rest -> touches first rest action w ->
  intent action w ∈ extractBashPathIntents (program first rest).
Proof.
  intros Hp (c & Hc & [(short & long & head & args & Hw & Ha & Hn & Ho & Hs & Hne)|(-> & [op Hop] & Ht)]).
  - by apply (operand_intent short long first rest c head args).
  - by apply (redirect_intent first rest c op).
Qed.

Definition bashTool (action : PathCapabilityAction) : jstr :=
  match action with cap_read => js "read" | cap_execute => js "execute" | _ => js "write" end.

(** C5: listed commands touch files for a ground: with the bash checker registered,
    outside bypass mode, and when no rule allows the whole bash tool, either policy
    owner allows a program of quoted commands with redirections only if there is a
    ground for every file that it touches in one of the ways that are looked at
    ([touches]).  These are: an operand, as [getopt] sees it with whatever table of
    options, of one of the seven listed readers (cat, head, tail, less, more, nl, wc),
    of [rm] or of [tee], called by its plain name, not behind a wrapper, with no
    redirection sign among its arguments; and a target that output is sent to.  The
    operand is no lone dash and free of expansions, the target looks like a local
    path, and all three readings of the path agree on the file ([denotes]), as they do
    for every ordinary absolute path. *)
Theorem commands_touch_files_for_a_ground e input ctx owner d first rest action w p :
  guards e -> decides unknownPaths e input ctx owner d -> as_string (jget (js "command") input) = Some (program first rest) ->
  wellFormedProgram first rest -> mode ctx <> bypassPermissions -> hasWholeToolRule ctx (js "bash") Allow = None ->
  touches first rest action w -> denotes ctx w p -> behavior d = Allow ->
  Ground ctx (bashTool action) (Some (js "bash")) (negb (bool_decide (action = cap_read))) action p.
Proof.
  intros Hg Hd Hc Hp Hm Hw Ht Hden Hb. pose proof (touched_intent _ _ _ _ Hp Ht) as Hi.
  assert (program first rest <> []) as Hne by (destruct (program_nonempty first rest Hp) as (u & s & ->); done).
  pose proof (allow_grounded unknownPaths e input ctx owner d _ Hg Hd Hc Hne Hm Hw capabilities_decide Hb) as Hgr.
  unfold groundOf in Hgr. destruct (staticDecision _ _). destruct Hgr as [Hall _]. specialize (Hall _ Hi).
  apply (allowed_ground ctx w p action (optionsFor (js "bash") action) Hden Hall).
Qed.

(** ** Secrets *)
Definition asksAlways (r : ToolCheckResult) : Prop := tc_behavior r = Checked Ask /\ tc_bypassImmune r = Some true.

Lemma immune_pending tool ctx intents : forall pending immune,
  (immune = true -> exists r, pending = Some r /\ asksAlways r) -> (forall r, pending = Some r -> tc_behavior r = Checked Ask) ->
  (exists i, i ∈ intents /\ asksAlways (pathDecision tool ctx i)) \/ immune = true ->
  (exists r, intents_loop tool ctx intents pending immune = inl r)
  \/ exists r, intents_loop tool ctx intents pending immune = inr (Some r) /\ asksAlways r.
Proof.
  induction intents as [|i intents IH]; intros pending immune Hi Hp Hx; cbn [intents_loop].
  { right. destruct Hx as [(i & Hin%elem_of_nil & _)|Hx]; [done|]. destruct (Hi Hx) as (r & -> & Hr). by exists r. }
  set (d := pathDecision tool ctx i) in *.
  assert (~ asksAlways d -> (exists j, j ∈ intents /\ asksAlways (pathDecision tool ctx j)) \/ immune = true) as Hskip.
  { intros Hn. destruct Hx as [(j & [-> | Hj]%elem_of_cons & Ha)|?]; [done|left; by exists j|by right]. }
  case_bool_decide as Ha; [apply IH; [done|done|]; apply Hskip; by intros [? _]; congruence|].
  case_bool_decide as Hd; [left; by eexists|].
  assert (tc_behavior d = Checked Ask) as Hask.
  { destruct (tc_behavior d) as [[]|] eqn:E; [done..|]. by destruct (capabilities_decide (pc_path i) (pc_action i) ctx (optionsFor tool (pc_action i))). }
  destruct (isTrue (tc_bypassImmune d)) eqn:Him.
  - assert (asksAlways (withImmunity d)) as Hal.
    { split; [done|]. unfold withImmunity. cbn [tc_bypassImmune]. by destruct (tc_bypassImmune d) as [[]|]. }
    destruct (match pending with None => true | Some _ => _ end) eqn:Hsel.
    + apply IH; [by exists (withImmunity d)|by intros r [= <-]|by right].
    + destruct pending; [|done]. cbn in Hsel. apply negb_false_iff in Hsel. apply IH; [done|done|by right].
  - assert ((exists j, j ∈ intents /\ asksAlways (pathDecision tool ctx j)) \/ immune = true) as Hx'.
    { apply Hskip. intros [_ E]. by rewrite E in Him. }
    destruct pending as [q|]; cbn [andb].
    + by apply IH.
    + destruct Hx' as [Hx'|Hx']; [|by destruct (Hi Hx') as (? & [=] & _)]. apply IH; [done|by intros r [= <-]|by left].
Qed.
Lemma touches_static first rest action w : touches first rest action w -> action <> cap_execute.
Proof.
  intros (c & _ & [(short & long & head & args & _ & Ha & _)|(-> & _)]); [|done]. unfold operandAction in Ha. intros ->.
  by repeat case_hyp Ha.
Qed.

(** C4: a secret is never touched silently by a listed command: with the bash checker
    registered, a program of quoted commands with redirections that reads, deletes or
    writes a secret, or sends output to one, in one of the ways that are looked at
    ([touches]: an operand of cat, head, tail, less, more, nl, wc, [rm] or [tee] called
    by its plain name, the operand free of expansions and no redirection sign among
    the arguments, or a target of a redirection that looks like a local path), by a
    path on which all three readings agree ([denotes], as they do for every ordinary
    absolute path), is not allowed by either policy owner in any mode, bypass
    included, whatever rules allow tools, directories or command lines, unless a rule
    of the user covers the secret for the action.  Secrets are the blocked system
    files, and the credentials, keys, environment files and repository settings that
    are neither files of the system itself nor, for reading, its private runtime data
    ([sensitive]); recognised Windows deletions are taken to name targets
    ([literalTargets]). *)
Theorem secrets_are_never_touched_silently e input ctx owner d first rest action w p :
  guards e -> decides unknownPaths e input ctx owner d -> as_string (jget (js "command") input) = Some (program first rest) ->
  literalTargets -> wellFormedProgram first rest -> touches first rest action w -> denotes ctx w p ->
  matchHardBlockedFsRead (absPath p) <> None \/ sensitive ctx (bashTool action) p ->
  (forall r, ~ namesFor ctx (bashTool action) (Some (js "bash")) action p r) ->
  behavior d <> Allow.
Proof.
  intros Hg Hd Hc Hl Hp Ht Hden Hs Hn. pose proof (touched_intent _ _ _ _ Hp Ht) as Hi.
  destruct (program_nonempty first rest Hp) as (u & s & Hu). rewrite Hu in *.
  assert (guarded ctx action (optionsFor (js "bash") action) p (pathDecision (js "bash") ctx (intent action w))) as Hgd.
  { apply (guarded_answer ctx w p action (optionsFor (js "bash") action)); [done|]. destruct Hs as [?|Hs]; [by left|right]. split; [done|].
    intros E. by apply touches_static in Ht. }
  destruct Hgd as [Hdeny|[Hask|[r Hr]]]; [| |by destruct (Hn r)].
  { rewrite (denied_outcome unknownPaths e input ctx owner d u s Hg Hd Hc Hl); [done|]. right. by exists (intent action w). }
  pose proof (checkPermissions_command (js "bash") input ctx u s Hc) as Hres. cbv zeta in Hres.
  destruct (staticDecision (u :: s) ctx) as [b r] eqn:Est. case_bool_decide as Hb.
  { rewrite (denied_outcome unknownPaths e input ctx owner d u s Hg Hd Hc Hl); [done|]. left. by rewrite Est. }
  destruct (immune_pending (js "bash") ctx (extractBashPathIntents (u :: s)) None false) as [[x Hx]|(x & Hx & Hax & Hix)];
    [done|done|left; by exists (intent action w)| |]; rewrite Hx in Hres.
  - rewrite (guard_denies _ _ _ _ _ _ _ Hg Hd Hres); [done|]. by apply intents_inl in Hx.
  - destruct (buildRecoverableDeleteRewriteInput _ _ _ _) as [err|rewrite] eqn:Hw; [by apply rewrite_never_throws in Hw|].
    apply (guard_asks _ _ _ _ _ _ _ Hg Hd Hres); [done|]. left. unfold askPending. cbn [tc_bypassImmune]. by case_goal.
Qed.
(** ** File tools *)
Lemma fs_behavior e tool input ctx owner d trace : jget tool (checkers e) = Some fsChecker ->
  checkPermission unknownPaths e tool input ctx owner = inr (d, trace) ->
  behavior d = policy (coreInput e tool input ctx (fsChecker tool input ctx)).
Proof. intros Hg Hd. rewrite (owner_behavior _ _ _ _ _ _ _ _ Hd). unfold runChecker. by rewrite Hg. Qed.

Lemma fs_result tool input ctx f : filePathOf tool input ctx = Some f ->
  (exists r, fsChecker tool input ctx = Returned (Some r) /\ tc_behavior r = Checked Deny)
  \/ fsChecker tool input ctx
     = Returned (Some (PathCapability.evaluatePathCapability f (toolActionForFsTool tool) ctx (fsOptions tool))).
Proof.
  intros Hf. unfold fsChecker, fsCheckPermissions. rewrite Hf. destruct (globDenied tool input) as [r|] eqn:Hg; [left|by right].
  exists r. split; [done|]. unfold globDenied in Hg. by repeat case_hyp Hg; simplify_eq.
Qed.

(** C8: a file tool touches a file for a ground: when the file checker is registered
    for a tool, outside bypass mode and without a rule for the whole tool or its
    server, either policy owner allows a call on a file only if the file has a ground
    for the tool; and a call on a secret is not allowed in any mode unless a rule
    of the user covers the secret for the action.  The file is given by a path on
    which all three readings agree ([denotes], as they do for every ordinary absolute
    path, not for a relative one when the process runs elsewhere than the session);
    secrets are the blocked system files, and those credentials, keys, environment
    files and repository settings that are neither files of the system itself nor,
    for a tool that only reads, its private runtime data ([sensitive]). *)
Theorem file_tools_touch_files_for_a_ground e tool input ctx owner d trace f p :
  jget tool (checkers e) = Some fsChecker -> checkPermission unknownPaths e tool input ctx owner = inr (d, trace) ->
  filePathOf tool input ctx = Some f -> denotes ctx f p -> behavior d = Allow ->
  let action := toolActionForFsTool tool in
  (mode ctx <> bypassPermissions -> hasWholeToolRule ctx tool Allow = None -> findMcpServerRule tool ctx Allow = None ->
   Ground ctx tool None false action p)
  /\ (matchHardBlockedFsRead (absPath p) <> None \/ sensitive ctx tool p ->
      exists r, namesFor ctx tool None action p r).
Proof.
  intros Hg Hd Hf Hden Hb. cbv zeta. rewrite (fs_behavior _ _ _ _ _ _ _ Hg Hd) in Hb. unfold policy, isBypassMode in Hb.
  cbn [in_context coreInput] in Hb. destruct (explicitDeny _) eqn:Hx; [done|]. destruct (forcedAsk _) eqn:Hfa; [done|].
  destruct (fs_result tool input ctx f Hf) as [(r & E & Hr)|E]; rewrite E in *.
  { exfalso. revert Hx. unfold explicitDeny. cbn. by rewrite Hr, bool_decide_eq_true_2, orb_true_r. }
  set (res := PathCapability.evaluatePathCapability _ _ _ _) in *. split.
  - intros Hm Hw Hs. rewrite (bool_decide_eq_false_2 (mode ctx = bypassPermissions)) in Hb by done.
    destruct (result_is Ask _); [done|]. destruct (granted _) eqn:Hgr; [|done]. unfold granted in Hgr. cbn in Hgr.
    rewrite Hw, Hs in Hgr. unfold jhas in Hgr. rewrite Hg in Hgr. cbn [present orb negb] in Hgr. rewrite orb_false_r in Hgr. reflect_bools.
    by apply (allowed_ground ctx f p _ (fsOptions tool)).
  - intros Hsec. assert (guarded ctx (toolActionForFsTool tool) (fsOptions tool) p res) as Hgd.
    { apply guarded_answer; [done|]. destruct Hsec as [?|Hsec]; [by left|right]. split; [exact Hsec|].
      unfold toolActionForFsTool. by case_goal. }
    destruct Hgd as [Hdeny|[[Hask Him]|[r Hr]]]; [exfalso|exfalso|by exists r].
    + revert Hx. unfold explicitDeny. cbn. by rewrite Hdeny, bool_decide_eq_true_2, orb_true_r.
    + revert Hfa. unfold forcedAsk. cbn. by rewrite Hask, Him, bool_decide_eq_true_2, !orb_true_r.
Qed.
End FsGuard.

(** ** Witnesses *)
#[local] Existing Instance samplePatterns.
#[local] Existing Instance sampleHost.
#[local] Existing Instance sampleFs.

Definition fsEngine : PermissionEngine :=
  registerToolPermissionChecker (registerToolPermissionChecker new_engine (js "bash") checkPermissions) (js "write") fsChecker.

Definition answered (tool : jstr) (input : ToolInput) (ctx : ToolPermissionContext) : PermissionDecision :=
  fst (checkPermissionWithEngine noPaths fsEngine tool input ctx).

Lemma answered_by tool input ctx :
  exists trace, checkPermission noPaths fsEngine tool input ctx None = inr (answered tool input ctx, trace).
Proof.
  exists (snd (checkPermissionWithEngine noPaths fsEngine tool input ctx)). unfold checkPermission, answered.
  by destruct (checkPermissionWithEngine _ _ _ _ _).
Qed.

Definition readLine (path : jstr) : Command := {| words := [js "cat"; js "-n"; path]; redirects := [] |}.

Lemma readLine_touches path : isStaticPathToken path = true -> path <> js "-" ->
  isRedirectOperatorToken path = false -> path ∈ operands (getopt (fun _ => no_argument) (fun _ => no_argument) [js "-n"; path]) ->
  touches (readLine path) [] cap_read path.
Proof.
  intros Hs Hd Hr Ho. exists (readLine path). split; [by left|]. left.
  exists (fun _ => no_argument), (fun _ => no_argument), (js "cat"), [js "-n"; path]. repeat split; [|done..]. by repeat constructor.
Qed.

Ltac touches_here := apply readLine_touches; [reflexivity|done|reflexivity|by left].
Ltac program_here := split; [split; [reflexivity|split; [reflexivity|constructor]]|constructor].

Lemma commands_touch_files_for_a_ground_witness :
  Ground (fsContext mode_default []) (js "read") (Some (js "bash")) false cap_read [js "w"; js "x"].
Proof.
  apply (commands_touch_files_for_a_ground noPaths fsEngine (inputOf (js "'cat' '-n' '/w/x'")) (fsContext mode_default []) None
           (answered (js "bash") (inputOf (js "'cat' '-n' '/w/x'")) (fsContext mode_default []))
           (readLine (js "/w/x")) [] cap_read (js "/w/x")).
  - reflexivity.
  - apply answered_by.
  - by vm_compute.
  - program_here.
  - done.
  - by vm_compute.
  - touches_here.
  - denotes_here.
  - by vm_compute.
Defined.

Definition wholeRule (tool : jstr) : PermissionRule :=
  {| source := src_session; ruleBehavior := Allow; ruleValue := {| toolName := tool; ruleContent := None; matcher := None |} |}.

Lemma secrets_are_never_touched_silently_witness :
  let ctx := fsContext bypassPermissions [wholeRule (js "bash"); sampleRule Allow (js "cat:*")] in
  behavior (answered (js "bash") (inputOf (js "'cat' '-n' '/w/.env'")) ctx) <> Allow.
Proof.
  apply (secrets_are_never_touched_silently noPaths fsEngine (inputOf (js "'cat' '-n' '/w/.env'"))
           (fsContext bypassPermissions [wholeRule (js "bash"); sampleRule Allow (js "cat:*")]) None _
           (readLine (js "/w/.env")) [] cap_read (js "/w/.env") [js "w"; js ".env"]).
  - reflexivity.
  - apply answered_by.
  - by vm_compute.
  - exact sample_literal.
  - program_here.
  - touches_here.
  - denotes_here.
  - right. repeat split; by vm_compute.
  - intros r (Hr & _ & _ & _ & content & Hc & _ & Hcov). unfold fsContext in Hr. cbn [rules] in Hr. rewrite !elem_of_cons in Hr.
    destruct Hr as [->|[->|Hr%elem_of_nil]]; [done| |done]. injection Hc as <-. by vm_compute in Hcov.
Defined.

Lemma file_tools_touch_files_for_a_ground_witness :
  Ground (fsContext mode_default []) (js "write") None false cap_write [js "w"; js "x"].
Proof.
  apply (file_tools_touch_files_for_a_ground noPaths fsEngine (js "write") [(js "file_path", JStr (js "/w/x"))] (fsContext mode_default [])
           None (answered (js "write") [(js "file_path", JStr (js "/w/x"))] (fsContext mode_default []))
           (snd (checkPermissionWithEngine noPaths fsEngine (js "write") [(js "file_path", JStr (js "/w/x"))] (fsContext mode_default [])))
           (js "/w/x") [js "w"; js "x"]).
  - reflexivity.
  - unfold checkPermission, answered. by destruct (checkPermissionWithEngine _ _ _ _ _).
  - by vm_compute.
  - denotes_here.
  - by vm_compute.
  - done.
  - by vm_compute.
  - by vm_compute.
Defined.
