(* ===== verification/UnknownLaws.v ===== *)
(** * What tools without a checker may touch

    The theorems on [UnknownPaths]: the strictest answer wins, a patch names its
    files, and the engine lets a patch through only if every file of it has a
    ground. *)
From S2P Require Import Prelude JsValue PermTypes PermContext PermissionCore PermissionEngine ShellTokenize ShellSplit BashAst BashWrappers BashPaths FsPath FsPermission PathCapability UnknownPaths PathLaws PathApproval BashRules BashGuard.

(** ** The strictest answer *)
Section Answers.
Context `{FsHost} `{FileUrls}.

Definition answers (b : PermissionBehavior) (r : ToolCheckResult) : bool := bool_decide (tc_behavior r = Checked b).
Definition immune (r : ToolCheckResult) : bool := answers Ask r && isTrue (tc_bypassImmune r).

(** The first denial, else the first question that no mode waives, else the first
    question. *)
Definition strictest (rs : list ToolCheckResult) : option ToolCheckResult :=
  orElse (List.find (answers Deny) rs) (orElse (List.find immune rs) (List.find (answers Ask) rs)).

Lemma decide_loop_spec tool ctx intents : forall saw ask imm,
  let rs := map (unknownDecision tool ctx) intents in
  decide_loop tool ctx intents saw ask imm =
  match List.find (answers Deny) rs with
  | Some r => inl r
  | None => inr (saw || existsb (fun r => negb (answers Ask r)) rs,
                 orElse ask (List.find (fun r => answers Ask r && negb (isTrue (tc_bypassImmune r))) rs),
                 orElse imm (List.find immune rs))
  end.
Proof.
  induction intents as [|i intents IH]; intros saw ask imm; cbn [decide_loop map List.find existsb].
  { by rewrite orb_false_r; destruct ask, imm. }
  change (bool_decide (tc_behavior ?r = Checked ?b)) with (answers b r).
  change (immune (unknownDecision tool ctx i)) with (answers Ask (unknownDecision tool ctx i) && isTrue (tc_bypassImmune (unknownDecision tool ctx i))).
  destruct (answers Deny (unknownDecision tool ctx i)); [done|]. destruct (answers Ask (unknownDecision tool ctx i)); cbn [andb negb orb].
  - destruct (isTrue (tc_bypassImmune (unknownDecision tool ctx i))); cbn [negb]; rewrite IH; case_goal; try done;
      by destruct ask, imm.
  - rewrite IH. case_goal; [done|]. by rewrite orb_true_r.
Qed.

Lemma find_ext_forall {A} (f g : A -> bool) l : (forall x, x ∈ l -> f x = g x) -> List.find f l = List.find g l.
Proof.
  induction l as [|x l IH]; intros Hfg; [done|]. cbn. rewrite (Hfg x) by (by left). case_goal; [done|]. apply IH.
  intros y Hy. apply Hfg. by right.
Qed.

(** What is answered when everything is allowed. *)
Definition allowedFor (tool : jstr) : ToolCheckResult :=
  plainly Allow (ReasonSafetyCheck (js "Path capability allow for tool " ++ dquote :: tool ++ [dquote]) None None).

Lemma decide_strictest tool input ctx : extractUnknownToolPathIntents tool input <> [] ->
  decideUnknownToolPathCapabilities tool input ctx
  = Some (default (allowedFor tool) (strictest (map (unknownDecision tool ctx) (extractUnknownToolPathIntents tool input)))).
Proof.
  intros Hne. unfold decideUnknownToolPathCapabilities, strictest. destruct (extractUnknownToolPathIntents tool input) as [|i intents]; [done|].
  rewrite decide_loop_spec. set (rs := map _ (i :: intents)). destruct (List.find (answers Deny) rs); [done|]. cbn [orElse orb].
  destruct (List.find immune rs) as [r|] eqn:Him; [by repeat case_goal|]. cbn [orElse].
  rewrite (find_ext_forall (fun r => answers Ask r && negb (isTrue (tc_bypassImmune r))) (answers Ask)).
  - destruct (List.find (answers Ask) rs) as [r|] eqn:Ha; [by repeat case_goal|]. cbn [default from_option].
    assert (existsb (fun r => negb (answers Ask r)) rs = true) as ->; [|done].
    apply existsb_exists. exists (unknownDecision tool ctx i). split; [by left|]. apply negb_true_iff. apply (List.find_none _ _ Ha). by left.
  - intros r Hr. destruct (answers Ask r) eqn:Ha; [|done]. apply list_elem_of_In in Hr. apply (List.find_none _ _ Him) in Hr.
    unfold immune in Hr. rewrite Ha in Hr. cbn [andb] in *. by rewrite Hr.
Qed.

(** the strictest answer wins: for a tool without a checker whose input names
    files, the result is the first denial of one of them, else the first question
    that no mode waives, else the first question, and an allowance only when every
    file is allowed. *)
Theorem strictest_answer_wins tool input ctx : extractUnknownToolPathIntents tool input <> [] ->
  decideUnknownToolPathCapabilities tool input ctx
  = Some (default (allowedFor tool) (strictest (map (unknownDecision tool ctx) (extractUnknownToolPathIntents tool input)))).
Proof. apply decide_strictest. Qed.

Lemma strictest_none rs r : strictest rs = None -> r ∈ rs -> answers Deny r = false /\ answers Ask r = false.
Proof.
  unfold strictest. destruct (List.find (answers Deny) rs) eqn:Hd; [done|]. cbn. destruct (List.find immune rs); [done|]. cbn.
  intros Ha Hr%list_elem_of_In. split; [by apply (List.find_none _ _ Hd)|by apply (List.find_none _ _ Ha)].
Qed.

Lemma strictest_some rs r : strictest rs = Some r -> answers Deny r = true \/ answers Ask r = true.
Proof.
  unfold strictest. destruct (List.find (answers Deny) rs) eqn:Hd; cbn.
  { intros [= ->]. left. by apply List.find_some in Hd as [_ ?]. }
  destruct (List.find immune rs) eqn:Hi; cbn.
  { intros [= ->]. right. apply List.find_some in Hi as [_ Hi]. unfold immune in Hi. by apply andb_true_iff in Hi as [? _]. }
  intros [_ Ha]%List.find_some. by right.
Qed.

(** ** Patches *)

(** A patch: what it adds, changes, moves and deletes, with the lines of the change. *)
Inductive Hunk :=
  | AddFile (path : jstr) (body : list jstr)
  | UpdateFile (path : jstr) (move : option jstr) (body : list jstr)
  | DeleteFile (path : jstr).

Definition hunkLines (h : Hunk) : list jstr :=
  match h with
  | AddFile path body => (js "*** Add File: " ++ path) :: body
  | UpdateFile path move body =>
      (js "*** Update File: " ++ path) :: map (fun m => js "*** Move to: " ++ m) (option_list move) ++ body
  | DeleteFile path => [js "*** Delete File: " ++ path]
  end.

Definition hunkIntents (h : Hunk) : list PathCapabilityIntent :=
  match h with
  | AddFile path _ => [intent cap_write path]
  | UpdateFile path move _ => intent cap_write path :: map (intent cap_write) (option_list move)
  | DeleteFile path => [intent cap_delete path]
  end.

Definition patchText (hunks : list Hunk) : jstr :=
  join [newline] (js "*** Begin Patch" :: flat_map hunkLines hunks ++ [js "*** End Patch"]).

(** A line of a change begins with its mark; a path is trimmed; neither has a line break. *)
Definition oneLine (s : jstr) : Prop := newline ∉ s /\ cr ∉ s.
Definition bodyLine (s : jstr) : Prop := oneLine s /\ match s with c :: _ => c ∈ js " +-@" | [] => True end.
Definition patchPath (s : jstr) : Prop := oneLine s /\ trim s = s.
Definition hunkOk (h : Hunk) : Prop :=
  match h with
  | AddFile path body => patchPath path /\ Forall bodyLine body
  | UpdateFile path move body => patchPath path /\ Forall patchPath (option_list move) /\ Forall bodyLine body
  | DeleteFile path => patchPath path
  end.

Lemma body_no_header s : bodyLine s -> patchHeader s = [].
Proof.
  intros [_ Hs]. destruct s as [|c s]; [done|]. apply list_elem_of_In in Hs. vm_compute in Hs.
  by destruct Hs as [<-|[<-|[<-|[<-|[]]]]].
Qed.

Lemma bodies_no_header body : Forall bodyLine body -> flat_map patchHeader body = [].
Proof. induction 1 as [|s body Hs _ IH]; [done|]. cbn [flat_map]. by rewrite body_no_header, IH. Qed.

Lemma valueOf_prefix p s : valueOf (p ++ s) p = Some s.
Proof. unfold valueOf. by rewrite startsWith_self, drop_app_length. Qed.

Lemma header_add s : patchPath s -> patchHeader (js "*** Add File: " ++ s) = [intent cap_write s].
Proof. intros [_ Ht]. unfold patchHeader. by rewrite valueOf_prefix, Ht. Qed.
Lemma header_update s : patchPath s -> patchHeader (js "*** Update File: " ++ s) = [intent cap_write s].
Proof. intros [_ Ht]. unfold patchHeader. by rewrite valueOf_prefix, Ht. Qed.
Lemma header_delete s : patchPath s -> patchHeader (js "*** Delete File: " ++ s) = [intent cap_delete s].
Proof. intros [_ Ht]. unfold patchHeader. by rewrite valueOf_prefix, Ht. Qed.
Lemma header_move s : patchPath s -> patchHeader (js "*** Move to: " ++ s) = [intent cap_write s].
Proof. intros [_ Ht]. unfold patchHeader. by rewrite valueOf_prefix, Ht. Qed.

Lemma header_intents h : hunkOk h -> flat_map patchHeader (hunkLines h) = hunkIntents h.
Proof.
  destruct h as [path body|path move body|path]; cbn [hunkOk hunkLines hunkIntents flat_map].
  - intros [Hp Hb]. by rewrite header_add, bodies_no_header.
  - intros (Hp & Hm & Hb). rewrite header_update, flat_map_app, (bodies_no_header body) by done. destruct move as [m|]; [|done].
    apply Forall_cons in Hm as [Hm _]. change (option_list (Some m)) with [m].
    cbn [map flat_map]. by rewrite header_move.
  - intros Hp. by rewrite header_delete.
Qed.

Lemma oneLine_app p s : oneLine p -> oneLine s -> oneLine (p ++ s).
Proof. unfold oneLine. rewrite !not_elem_of_app. tauto. Qed.

Lemma oneLine_dec s : existsb (fun c => (c =? newline)%N || (c =? cr)%N) s = false -> oneLine s.
Proof.
  intros Hs. split; intros Hin%list_elem_of_In; apply not_true_iff_false in Hs; apply Hs, existsb_exists; by eexists.
Qed.

Lemma hunk_oneLine h : hunkOk h -> Forall oneLine (hunkLines h).
Proof.
  assert (forall body, Forall bodyLine body -> Forall oneLine body) as Hbody.
  { intros body Hb. apply (Forall_impl _ _ _ Hb). by intros s [? _]. }
  destruct h as [path body|path move body|path]; cbn [hunkOk hunkLines].
  - intros [[Hp _] Hb]. constructor; [|by apply Hbody]. by apply oneLine_app; [apply oneLine_dec|].
  - intros ([Hp _] & Hm & Hb). constructor; [by apply oneLine_app; [apply oneLine_dec|]|]. apply Forall_app. split; [|by apply Hbody].
    apply Forall_map. apply (Forall_impl _ _ _ Hm). intros m [Hl _]. by apply oneLine_app; [apply oneLine_dec|].
  - intros [Hp _]. constructor; [|done]. by apply oneLine_app; [apply oneLine_dec|].
Qed.

Lemma patchLines_join l lines : Forall oneLine (l :: lines) -> patchLines (join [newline] (l :: lines)) = l :: lines.
Proof.
  intros Hl. unfold patchLines. rewrite split_join_lines by (apply (Forall_impl _ _ _ Hl); by intros s [? _]).
  destruct (exists_last (l := l :: lines)) as (init & z & E); [done|]. rewrite E in *. rewrite removelast_last, last_snoc.
  apply Forall_app in Hl as [Hi _]. cbn [option_list]. f_equal. clear E. induction Hi as [|s init [_ Hs] _ IH]; [done|].
  cbn [map]. rewrite IH. f_equal. destruct (rev s) as [|c r] eqn:Er; [done|]. destruct (N.eqb_spec c cr) as [->|]; [|done].
  exfalso. apply Hs. rewrite <- (rev_involutive s), Er. cbn. apply elem_of_app. right. by left.
Qed.

Lemma patch_intents hunks : Forall hunkOk hunks -> extractApplyPatchPaths (patchText hunks) = flat_map hunkIntents hunks.
Proof.
  intros Hh. unfold extractApplyPatchPaths, patchText. rewrite patchLines_join.
  - cbn [flat_map]. rewrite flat_map_app. change (patchHeader (js "*** Begin Patch")) with (@nil PathCapabilityIntent).
    cbn [app flat_map]. change (patchHeader (js "*** End Patch")) with (@nil PathCapabilityIntent). rewrite !app_nil_r.
    induction Hh as [|h hunks Hh _ IH]; [done|]. cbn [flat_map]. by rewrite flat_map_app, header_intents, IH.
  - constructor; [by apply oneLine_dec|]. apply Forall_app. split; [|by repeat constructor; apply oneLine_dec].
    induction Hh as [|h hunks Hh _ IH]; [constructor|]. cbn [flat_map]. apply Forall_app. by split; [apply hunk_oneLine|].
Qed.

(** C22: a patch names its files: the files read off the text of a patch are those its
    hunks add, update, move to and delete, in order, each with its action, whatever
    lines the hunks change. *)
Theorem patches_name_their_files hunks : Forall hunkOk hunks ->
  extractApplyPatchPaths (patchText hunks) = flat_map hunkIntents hunks.
Proof. apply patch_intents. Qed.

(** ** The engine *)

Lemma sameIntent_path a b : sameIntent a b = true -> pc_action a = pc_action b /\ pc_path a = pc_path b /\
  default [] (pc_relativeBase a) = default [] (pc_relativeBase b).
Proof.
  unfold sameIntent, str_eqb. intros Hs. by reflect_bools.
Qed.

Lemma dedupe_keeps intents : forall seen i, i ∈ intents ->
  exists j, (j ∈ seen \/ j ∈ dedupe_loop seen intents) /\ sameIntent i j = true.
Proof.
  induction intents as [|a intents IH]; intros seen i Hi; [by apply elem_of_nil in Hi|]. cbn [dedupe_loop].
  apply elem_of_cons in Hi as [->|Hi].
  - destruct (existsb (sameIntent a) seen) eqn:Hs.
    + apply existsb_exists in Hs as (j & Hj%list_elem_of_In & Hs). exists j. by split; [left|].
    + exists a. split; [right; by left|]. unfold sameIntent. by rewrite bool_decide_eq_true_2, !str_eqb_refl.
  - destruct (existsb (sameIntent a) seen).
    + by apply IH.
    + destruct (IH (a :: seen) i Hi) as (j & Hj & Hs). exists j. split; [|done]. rewrite elem_of_cons in *. tauto.
Qed.

Lemma unknown_behavior e tool input ctx owner d trace : jget tool (checkers e) = None ->
  checkPermission unknownPathChecker e tool input ctx owner = inr (d, trace) ->
  behavior d = policy (coreInput e tool input ctx (Returned (decideUnknownToolPathCapabilities tool input ctx))).
Proof. intros Hg Hd. rewrite (owner_behavior _ _ _ _ _ _ _ _ Hd). unfold runChecker. by rewrite Hg. Qed.

Lemma unknown_intent tool input i : i ∈ extractUnknownToolPathIntents tool input ->
  extractUnknownToolPathIntents tool input <> [].
Proof. intros Hi E. rewrite E in Hi. by apply elem_of_nil in Hi. Qed.

(** The engine allows a call of a tool without a checker only if every file that its
    input names is allowed. *)
Lemma unknown_allowed e tool input ctx owner d trace i : jget tool (checkers e) = None ->
  checkPermission unknownPathChecker e tool input ctx owner = inr (d, trace) -> mode ctx <> bypassPermissions ->
  behavior d = Allow -> i ∈ extractUnknownToolPathIntents tool input -> tc_behavior (unknownDecision tool ctx i) = Checked Allow.
Proof.
  intros Hg Hd Hm Hb Hi. rewrite (unknown_behavior _ _ _ _ _ _ _ Hg Hd), decide_strictest in Hb by by apply (unknown_intent tool input i).
  set (rs := map (unknownDecision tool ctx) _) in Hb. unfold policy, isBypassMode in Hb. cbn [in_context coreInput] in Hb.
  destruct (explicitDeny _) eqn:Hx; [done|]. destruct (forcedAsk _); [done|].
  rewrite (bool_decide_eq_false_2 (mode ctx = bypassPermissions)) in Hb by done. destruct (result_is Ask _) eqn:Ha; [done|].
  destruct (strictest rs) as [r|] eqn:Hr.
  { exfalso. cbn [default from_option id] in *. apply strictest_some in Hr as [Hr|Hr]; unfold answers in Hr; reflect_bools.
    - revert Hx. unfold explicitDeny. cbn. by rewrite Hr, bool_decide_eq_true_2, orb_true_r.
    - revert Ha. unfold result_is. cbn. by rewrite Hr, bool_decide_eq_true_2. }
  assert (unknownDecision tool ctx i ∈ rs) as Hin by by apply list_elem_of_fmap_2.
  destruct (strictest_none rs _ Hr Hin) as [Hnd Hna]. unfold answers in *. reflect_bools.
  destruct (evaluate_shape (resolvePathIntent i ctx) (pc_action i) ctx (unknownOptions tool (pc_action i)))
    as (b & reason & [E|(im & skip & E)]); fold (unknownDecision tool ctx i) in E; rewrite E in *; cbn in *; by destruct b.
Qed.

(** C7: a patch touches files for a ground: outside bypass mode either policy owner
    allows a call of [apply_patch] only if every file that a hunk of the patch adds,
    changes, moves to or deletes has a ground, whatever else the input holds and
    whatever rules allow the tool. *)
Theorem patches_touch_files_for_a_ground e input ctx owner d trace hunks i p :
  jget (js "apply_patch") (checkers e) = None ->
  checkPermission unknownPathChecker e (js "apply_patch") input ctx owner = inr (d, trace) ->
  extractApplyPatchText input = Some (patchText hunks) -> Forall hunkOk hunks -> i ∈ flat_map hunkIntents hunks ->
  mode ctx <> bypassPermissions -> denotes ctx (pc_path i) p -> behavior d = Allow ->
  Ground ctx (js "write") (Some (js "apply_patch")) true (pc_action i) p.
Proof.
  intros Hg Hd Ht Hh Hi Hm Hden Hb.
  assert (i ∈ flat_map (fieldIntents (js "apply_patch") input) PATH_FIELDS ++ commandIntents input ++ patchIntents (js "apply_patch") input
              ++ extractMatrixToolPathIntents (js "apply_patch") input) as Hin.
  { rewrite !elem_of_app. right; right; left. unfold patchIntents. rewrite Ht, patch_intents by done. exact Hi. }
  destruct (dedupe_keeps _ [] i Hin) as (j & [Hj%elem_of_nil|Hj] & Hs); [done|]. apply sameIntent_path in Hs as (Ha & Hp & Hr).
  pose proof (unknown_allowed e _ input ctx owner d trace j Hg Hd Hm Hb Hj) as Hal. rewrite Ha.
  assert (pc_relativeBase i = None /\ pathActionToToolName (pc_action i) = js "write") as [Hn Hw].
  { apply list_elem_of_In, in_flat_map in Hi. destruct Hi as ([path body|path move body|path] & _ & Hi); cbn in Hi.
    - by destruct Hi as [<-|[]].
    - destruct Hi as [<-|Hi]; [done|]. destruct move as [m|]; [|done]. by destruct Hi as [<-|[]].
    - by destruct Hi as [<-|[]]. }
  assert (resolvePathIntent j ctx = pc_path i) as Hres.
  { unfold resolvePathIntent. rewrite Hn in Hr. rewrite Hp. case_bool_decide as Hh'; [|done]. by rewrite Hh' in Hr. }
  unfold unknownDecision in Hal. rewrite Hres in Hal. pose proof (allowed_ground _ _ _ _ _ Hden Hal) as Hgr.
  rewrite Ha in Hw. unfold effectiveTool, unknownOptions in Hgr. cbn [co_toolName co_originToolName co_allowTempWrite] in Hgr.
  cbn [default from_option id] in Hgr. rewrite Hw in Hgr. exact Hgr.
Qed.
End Answers.

(** ** Witnesses *)
#[local] Existing Instance sampleFs.
#[local] Instance sampleUrls : FileUrls := {| fileUrlPath := fun _ => None |}.

Definition samplePatch : list Hunk :=
  [AddFile (js "/w/new") [js "+*** Delete File: /etc/passwd"]; UpdateFile (js "/w/old") (Some (js "/w/moved")) [js "@@"; js "-a"; js "+b"];
   DeleteFile (js "/w/gone")].

Ltac path_here := split; [by apply oneLine_dec|reflexivity].
Ltac body_here := split; [by apply oneLine_dec|by apply (bool_decide_unpack _); vm_compute].

Lemma samplePatch_ok : Forall hunkOk samplePatch.
Proof.
  repeat apply Forall_cons_2; [..|constructor]; cbn [hunkOk].
  - split; [path_here|]. repeat apply Forall_cons_2; [body_here|constructor].
  - split_and!; [path_here| |].
    + change (option_list (Some ?m)) with [m]. apply Forall_cons_2; [path_here|constructor].
    + repeat apply Forall_cons_2; [body_here..|constructor].
  - path_here.
Qed.

Lemma patches_name_their_files_witness :
  extractApplyPatchPaths (patchText samplePatch)
  = [intent cap_write (js "/w/new"); intent cap_write (js "/w/old"); intent cap_write (js "/w/moved"); intent cap_delete (js "/w/gone")].
Proof. apply (patches_name_their_files samplePatch), samplePatch_ok. Defined.

Lemma strictest_answer_wins_witness :
  let ctx := fsContext bypassPermissions [pathRule (js "write") Deny (js "/w/b")] in
  let input := [(js "path", JStr (js "/w/a")); (js "target", JStr (js "/w/b")); (js "cwd", JStr (js "/w/.env"))] in
  exists r, decideUnknownToolPathCapabilities (js "save") input ctx = Some r /\ tc_behavior r = Checked Deny.
Proof.
  cbv zeta. eexists. split; [apply strictest_answer_wins; by vm_compute|by vm_compute].
Defined.

Definition patchInput : ToolInput := [(js "patchText", JStr (patchText samplePatch))].
Definition patchAnswer (ctx : ToolPermissionContext) : PermissionDecision * list PermissionCheckerDecisionTrace :=
  checkPermissionWithEngine unknownPathChecker new_engine (js "apply_patch") patchInput ctx.

Lemma patches_touch_files_for_a_ground_witness :
  Ground (fsContext mode_default []) (js "write") (Some (js "apply_patch")) true cap_delete [js "w"; js "gone"].
Proof.
  apply (patches_touch_files_for_a_ground new_engine patchInput (fsContext mode_default []) None
           (fst (patchAnswer (fsContext mode_default []))) (snd (patchAnswer (fsContext mode_default []))) samplePatch
           (intent cap_delete (js "/w/gone"))).
  - reflexivity.
  - unfold checkPermission, patchAnswer. by destruct (checkPermissionWithEngine _ _ _ _ _).
  - reflexivity.
  - apply samplePatch_ok.
  - cbn. by rewrite !elem_of_cons; right; right; right; left.
  - done.
  - denotes_here.
  - by vm_compute.
Defined.
