(* ===== verification/RgFingerprint.v ===== *)
(** * Stable serialisation within a byte budget

    [packages/agent-modules/runaway-guard/src/fingerprint.ts].  The writer is
    state passing over its byte count and its text, failing as [append] does.
    A value is a tree of plain objects, so the cycle check on [seen] and the
    prototype check never fire: they guard values that [json] cannot express.
    The HMAC is a parameter. *)
From Stdlib Require Import DecimalString DecimalZ DecimalFacts.
From S2P Require Import Prelude JsValue.

Definition DEFAULT_MAX_FINGERPRINT_BYTES : nat := Nat.mul 16 1024.
Definition MAX_SERIALIZE_DEPTH : nat := 32.

(** ** What the language gives: number text, [JSON.stringify] of a string,
    [Buffer.byteLength] *)

(** [String(n)] for an integer. *)
Definition dec_Z (z : Z) : jstr := js (NilEmpty.string_of_int (Z.to_int z)).

Definition isHigh (c : jchar) : bool := ((55296 <=? c) && (c <=? 56319))%N.
Definition isLow (c : jchar) : bool := ((56320 <=? c) && (c <=? 57343))%N.

(** The length of the UTF-8 encoding; a lone surrogate counts as U+FFFD. *)
Fixpoint byteLength (s : jstr) : nat :=
  match s with
  | [] => 0
  | c :: s' =>
    if isHigh c then
      match s' with
      | d :: s'' => if isLow d then 4 + byteLength s'' else 3 + byteLength s'
      | [] => 3
      end
    else (if (c <? 128)%N then 1 else if (c <? 2048)%N then 2 else 3) + byteLength s'
  end.

Definition hexDigit (n : N) : jchar := if (n <? 10)%N then (48 + n)%N else (87 + n)%N.

(** [\uXXXX]. *)
Definition u4 (c : jchar) : jstr :=
  [92%N; ch "u"; hexDigit (c / 4096 mod 16); hexDigit (c / 256 mod 16);
   hexDigit (c / 16 mod 16); hexDigit (c mod 16)].

(** One code unit of [QuoteJSONString] that is not half of a surrogate pair. *)
Definition escapeUnit (c : jchar) : jstr :=
  if (c =? 8)%N then js "\b"
  else if (c =? 9)%N then js "\t"
  else if (c =? 10)%N then js "\n"
  else if (c =? 12)%N then js "\f"
  else if (c =? 13)%N then js "\r"
  else if ((c =? 34) || (c =? 92))%N then [92%N; c]
  else if (c <? 32)%N || isHigh c || isLow c then u4 c
  else [c].

Fixpoint quoteUnits (s : jstr) : jstr :=
  match s with
  | [] => []
  | c :: s' =>
    match s' with
    | d :: s'' => if isHigh c && isLow d then c :: d :: quoteUnits s'' else escapeUnit c ++ quoteUnits s'
    | [] => escapeUnit c
    end
  end.

(** [JSON.stringify(s)]. *)
Definition stringify_string (s : jstr) : jstr := dquote :: quoteUnits s ++ [dquote].

(** ** The bounded writer *)
Record BoundedWriter := { bytes : nat; parts : jstr }.

Section Writer.
Variable maxBytes : nat.

Definition append (part : jstr) (w : BoundedWriter) : option BoundedWriter :=
  let bytes' := bytes w + byteLength part in
  if (maxBytes <? bytes')%nat then None
  else Some {| bytes := bytes'; parts := parts w ++ part |}.

(** [ok = append(close); ... ; for (index...) { if (index > 0) append(','); write }]. *)
Fixpoint writeItems (first : bool) (items : list (BoundedWriter -> option BoundedWriter))
    (w : BoundedWriter) : option BoundedWriter :=
  match items with
  | [] => Some w
  | item :: rest =>
    w1 ← (if first then Some w else append (js ",") w);
    w2 ← item w1;
    writeItems false rest w2
  end.

Definition writeStableArray (items : list (BoundedWriter -> option BoundedWriter))
    (w : BoundedWriter) : option BoundedWriter :=
  w1 ← append (js "[") w;
  w2 ← writeItems true items w1;
  append (js "]") w2.

(** The key-limit checks of the [for ... in] loop. *)
Definition keysWithinLimits {A} (fields : list (jstr * A)) : bool :=
  (length fields <=? 1024)%nat
  && forallb (fun e => (length (fst e) <=? DEFAULT_MAX_FINGERPRINT_BYTES)%nat) fields.

Definition key_leb {A} (a b : jstr * A) : bool := str_leb (fst a) (fst b).

Definition writeField (e : jstr * (BoundedWriter -> option BoundedWriter)) (w : BoundedWriter) :
    option BoundedWriter :=
  w1 ← append (stringify_string (fst e)) w;
  w2 ← append (js ":") w1;
  snd e w2.

Definition writeStableRecord (fields : list (jstr * (BoundedWriter -> option BoundedWriter)))
    (w : BoundedWriter) : option BoundedWriter :=
  if negb (keysWithinLimits fields) then None
  else
    w1 ← append (js "{") w;
    w2 ← writeItems true (map writeField (sort_by key_leb fields)) w1;
    append (js "}") w2.

Fixpoint writeStableValue (value : json) (depth : nat) (w : BoundedWriter) : option BoundedWriter :=
  if (MAX_SERIALIZE_DEPTH <? depth)%nat then None
  else match value with
  | JNull => append (js "null") w
  | JBool b => append (if b then js "true" else js "false") w
  | JNum (NumInt z) => append (dec_Z z) w
  | JNum (NumText t) => append t w
  | JNum NumNonFinite => None
  | JStr s =>
    if (DEFAULT_MAX_FINGERPRINT_BYTES <? length s)%nat then None
    else append (stringify_string s) w
  | JArr items => writeStableArray (map (fun v => writeStableValue v (S depth)) items) w
  | JObj fields =>
    writeStableRecord (map (fun e => (fst e, writeStableValue (snd e) (S depth))) fields) w
  | JUndefined | JOther => None
  end.

Definition stableSerializeWithinBudget (value : json) : option jstr :=
  w ← writeStableValue value 0 {| bytes := 0; parts := [] |};
  if (bytes w <=? maxBytes)%nat then Some (parts w) else None.
End Writer.

Section Hmac.
Context {Secret : Type} (hmac : Secret -> jstr -> jstr).

Definition fingerprint (secret : Secret) (value : jstr) : jstr := hmac secret value.

Definition fingerprintWithinBudget (secret : Secret) (value : json) (maxBytes : nat) : option jstr :=
  serialized ← stableSerializeWithinBudget maxBytes value;
  Some (fingerprint secret serialized).
End Hmac.

Definition isRecord (v : json) : bool :=
  match v with JObj _ => true | _ => false end.

(** [Number.isInteger(value) && value > 0], or an exception. *)
Definition positiveInteger (value : jnum) : option nat :=
  match value with
  | NumInt z => if (0 <? z)%Z then Some (Z.to_nat z) else None
  | _ => None
  end.

Example serialize_sorts_keys :
  stableSerializeWithinBudget 100
    (JObj [(js "b", JArr [JNum (NumInt (-12)%Z); JNull]); (js "a", JStr [10%N; dquote])])
  = Some (js "{" ++ [dquote] ++ js "a" ++ [dquote] ++ js ":" ++ [dquote] ++ js "\n\" ++ [dquote; dquote]
          ++ js "," ++ [dquote] ++ js "b" ++ [dquote] ++ js ":[-12,null]}").
Proof. reflexivity. Qed.

(** ** The text without a budget *)
Definition itemsText (items : list (option jstr)) : option jstr :=
  ts ← mapM id items; Some (join (js ",") ts).

Definition fieldText (e : jstr * option jstr) : option jstr :=
  t ← snd e; Some (stringify_string (fst e) ++ js ":" ++ t).

Fixpoint stableText (value : json) (depth : nat) : option jstr :=
  if (MAX_SERIALIZE_DEPTH <? depth)%nat then None
  else match value with
  | JNull => Some (js "null")
  | JBool b => Some (if b then js "true" else js "false")
  | JNum (NumInt z) => Some (dec_Z z)
  | JNum (NumText t) => Some t
  | JNum NumNonFinite => None
  | JStr s =>
    if (DEFAULT_MAX_FINGERPRINT_BYTES <? length s)%nat then None else Some (stringify_string s)
  | JArr items =>
    t ← itemsText (map (fun v => stableText v (S depth)) items);
    Some (js "[" ++ t ++ js "]")
  | JObj fields =>
    let fs := map (fun e => (fst e, stableText (snd e) (S depth))) fields in
    if negb (keysWithinLimits fs) then None
    else t ← itemsText (map fieldText (sort_by key_leb fs)); Some (js "{" ++ t ++ js "}")
  | JUndefined | JOther => None
  end.

(** Text of a number: digits, signs, point and exponent; a number that is not
    [NumInt] shows a point or an exponent. *)
Definition isNumCh (c : jchar) : bool :=
  (((48 <=? c) && (c <=? 57)) || (c =? ch "-") || (c =? ch "+") || (c =? ch ".") || (c =? ch "e"))%N.

Definition numText (t : jstr) : bool :=
  forallb isNumCh t && existsb (fun c => ((c =? ch ".") || (c =? ch "e"))%N) t.

(** A value JavaScript can hold: number texts are such, and the keys of an
    object are distinct. *)
Fixpoint wf_json (v : json) : bool :=
  match v with
  | JNum (NumText t) => numText t
  | JArr items => forallb wf_json items
  | JObj fields => bool_decide (NoDup (map fst fields)) && forallb (fun e => wf_json (snd e)) fields
  | _ => true
  end.

(** *** Byte lengths of parts add up *)
Definition closed (s : jstr) : Prop := forall r, byteLength (s ++ r) = byteLength s + byteLength r.

Lemma byteLength_unit c r :
  isHigh c = false -> byteLength (c :: r) = byteLength [c] + byteLength r.
Proof. intros H. cbn [byteLength]. rewrite H. lia. Qed.

Lemma byteLength_high c d r :
  isHigh c = true ->
  byteLength (c :: d :: r) = if isLow d then 4 + byteLength r else 3 + byteLength (d :: r).
Proof. intros H. cbn [byteLength]. by rewrite H. Qed.

Lemma closed_nil : closed [].
Proof. done. Qed.

Lemma closed_app a b : closed a -> closed b -> closed (a ++ b).
Proof. intros Ha Hb r. rewrite <- app_assoc, !Ha, Hb. lia. Qed.

Lemma closed_unit c : isHigh c = false -> closed [c].
Proof. intros H r. by apply byteLength_unit. Qed.

Lemma closed_forallb f s :
  (forall c, f c = true -> isHigh c = false) -> forallb f s = true -> closed s.
Proof.
  intros Hf. induction s as [|c s IH]; [intros _; apply closed_nil|].
  simpl. intros [Hc Hs]%andb_true_iff. apply (closed_app [c] s); [apply closed_unit|]; auto.
Qed.

(** A text that ends in a unit that is no high surrogate is closed. *)
Lemma closed_snoc s c : isHigh c = false -> closed (s ++ [c]).
Proof.
  intros Hc r. rewrite <- app_assoc. simpl app.
  induction s as [s IH] using (induction_ltof1 _ (@length jchar)); unfold ltof in IH.
  destruct s as [|d s]; [by apply byteLength_unit|]. cbn [app].
  destruct (isHigh d) eqn:Ed.
  - destruct s as [|e s]; cbn [app]; rewrite !byteLength_high by done.
    + pose proof (byteLength_unit c r Hc). change (byteLength []) with 0. destruct (isLow c); lia.
    + destruct (isLow e); [rewrite (IH s) by (simpl; lia); lia|].
      specialize (IH (e :: s)). cbn [app] in IH. rewrite IH by (simpl; lia). lia.
  - rewrite (byteLength_unit d (s ++ _)), (byteLength_unit d (s ++ [c])) by done. rewrite IH by (simpl; lia). lia.
Qed.

Lemma closed_ascii s : forallb (fun c => (c <? 128)%N) s = true -> closed s.
Proof.
  apply closed_forallb. intros c Hc%N.ltb_lt. unfold isHigh.
  destruct (N.leb_spec 55296 c); [lia|done].
Qed.

Lemma closed_string s : closed (stringify_string s).
Proof. unfold stringify_string. rewrite app_comm_cons. by apply closed_snoc. Qed.

Lemma numCh_not_high c : isNumCh c = true -> isHigh c = false.
Proof.
  unfold isNumCh, isHigh. intros H. destruct (N.leb_spec 55296 c) as [Hge|]; [|done]. exfalso.
  rewrite !orb_true_iff, andb_true_iff, !N.leb_le, !N.eqb_eq in H.
  destruct H as [[[[[_ H]|H]|H]|H]|H]; [lia|subst; vm_compute in Hge; by apply Hge..].
Qed.

(** *** Digits *)
Lemma uint_numCh d : forallb isNumCh (js (NilEmpty.string_of_uint d)) = true.
Proof. by induction d. Qed.

Lemma dec_Z_numCh z : forallb isNumCh (dec_Z z) = true.
Proof.
  unfold dec_Z, NilEmpty.string_of_int. destruct (Z.to_int z) as [d|d]; [|cbn [js forallb]].
  - apply uint_numCh.
  - by rewrite uint_numCh.
Qed.

Lemma js_inj a b : js a = js b -> a = b.
Proof.
  revert b; induction a as [|x a IH]; intros [|y b]; simpl; try done.
  intros [= Hx Hs]. apply (f_equal ascii_of_N) in Hx. rewrite !ascii_N_embedding in Hx.
  f_equal; auto.
Qed.

Lemma dec_Z_inj x y : dec_Z x = dec_Z y -> x = y.
Proof.
  intros H%js_inj. apply DecimalZ.to_int_inj.
  apply (f_equal NilEmpty.int_of_string) in H. rewrite !NilEmpty.isi in H. by injection H.
Qed.

(** *** The writer refines the text *)
Definition cat (a b : option jstr) : option jstr := x ← a; y ← b; Some (x ++ y).

Section Refines.
Variable maxBytes : nat.

(** [f] writes [t] when it fits the budget, and fails otherwise. *)
Definition writes (f : BoundedWriter -> option BoundedWriter) (t : option jstr) : Prop :=
  (forall s, t = Some s -> closed s)
  /\ forall w, bytes w <= maxBytes ->
     f w = s ← t;
           if (bytes w + byteLength s <=? maxBytes)%nat
           then Some {| bytes := bytes w + byteLength s; parts := parts w ++ s |} else None.

Lemma writes_append s : closed s -> writes (append maxBytes s) (Some s).
Proof.
  intros Hc. split; [by intros ? [= <-]|]. intros w Hw. unfold append. simpl.
  destruct (Nat.ltb_spec maxBytes (bytes w + byteLength s)), (Nat.leb_spec (bytes w + byteLength s) maxBytes);
    (done || lia).
Qed.

Lemma writes_none : writes (fun _ => None) None.
Proof. split; done. Qed.

Lemma writes_skip : writes (fun w => Some w) (Some []).
Proof.
  split; [intros ? [= <-]; apply closed_nil|]. intros w Hw. simpl.
  rewrite Nat.add_0_r, app_nil_r, (proj2 (Nat.leb_le _ _)) by done. by destruct w.
Qed.

Lemma writes_seq f g a b : writes f a -> writes g b -> writes (fun w => w1 ← f w; g w1) (cat a b).
Proof.
  intros [Hca Hf] [Hcb Hg]. split.
  - intros s. destruct a as [x|], b as [y|]; try done. intros [= <-].
    apply closed_app; auto.
  - intros w Hw. rewrite Hf by done. destruct a as [x|]; [|done]. simpl.
    specialize (Hca _ eq_refl). destruct (Nat.leb_spec (bytes w + byteLength x) maxBytes) as [Hx|Hx]; simpl.
    + rewrite Hg by done. destruct b as [y|]; [|done]. simpl. rewrite Hca, Nat.add_assoc.
      case_match; [|done]. by rewrite app_assoc.
    + destruct b as [y|]; [|done]. simpl. rewrite Hca, (proj2 (Nat.leb_gt _ _)); [done|lia].
Qed.

(** What the loop over items writes. *)
Fixpoint loopText (first : bool) (ts : list (option jstr)) : option jstr :=
  match ts with
  | [] => Some []
  | t :: rest => cat (if first then Some [] else Some (js ",")) (cat t (loopText false rest))
  end.

Lemma writes_ext f g t : (forall w, f w = g w) -> writes f t -> writes g t.
Proof. intros He [Hc Hf]. split; [done|]. intros w Hw. by rewrite <- He, Hf. Qed.

(** A text between two constant parts. *)
Lemma writes_wrapped o c f t :
  closed o -> closed c -> writes f t ->
  writes (fun w => w1 ← append maxBytes o w; w2 ← f w1; append maxBytes c w2)
    (x ← t; Some (o ++ x ++ c)).
Proof.
  intros Ho Hc Hf.
  replace (x ← t; Some (o ++ x ++ c)) with (cat (Some o) (cat t (Some c))) by (by destruct t).
  apply writes_seq; [by apply writes_append|]. apply writes_seq; [done|by apply writes_append].
Qed.

Lemma writes_items fs ts first :
  Forall2 writes fs ts -> writes (writeItems maxBytes first fs) (loopText first ts).
Proof.
  intros H. revert first; induction H as [|f t fs ts Hf _ IH]; intros first; simpl.
  - apply writes_skip.
  - eapply writes_ext; cycle 1.
    + apply writes_seq; [|apply writes_seq; [exact Hf|apply (IH false)]].
      instantiate (1 := fun w => if first then Some w else append maxBytes (js ",") w).
      destruct first; [apply writes_skip|by apply writes_append, closed_ascii].
    + done.
Qed.
End Refines.

(** The same text with [join]. *)
Definition tailText (ts : list jstr) : jstr := concat (map (fun t => js "," ++ t) ts).

Lemma join_cons t ts : join (js ",") (t :: ts) = t ++ tailText ts.
Proof.
  revert t; induction ts as [|u ts IH]; intros t; [by rewrite app_nil_r|].
  change (join (js ",") (t :: u :: ts)) with (t ++ js "," ++ join (js ",") (u :: ts)).
  rewrite IH. unfold tailText. simpl. done.
Qed.

Lemma mapM_cons_id (t : option jstr) ts :
  mapM id (t :: ts) = x ← t; xs ← mapM id ts; Some (x :: xs).
Proof. done. Qed.

Lemma loopText_tail ts : loopText false ts = xs ← mapM id ts; Some (tailText xs).
Proof.
  induction ts as [|t ts IH]; [done|]. rewrite mapM_cons_id. cbn [loopText]. rewrite IH.
  destruct t as [x|]; simpl; [|done]. destruct (mapM id ts); done.
Qed.

Lemma loopText_join ts : loopText true ts = itemsText ts.
Proof.
  unfold itemsText. destruct ts as [|t ts]; [done|]. rewrite mapM_cons_id. cbn [loopText].
  rewrite loopText_tail. destruct t as [x|]; simpl; [|done].
  destruct (mapM id ts) as [xs|]; simpl; [|done]. by rewrite <- join_cons.
Qed.

Lemma keysWithinLimits_map {A B} (f : A -> B) (l : list (jstr * A)) :
  keysWithinLimits (map (fun e => (fst e, f (snd e))) l) = keysWithinLimits l.
Proof.
  unfold keysWithinLimits. rewrite length_map. f_equal.
  induction l as [|e l IH]; simpl; [done|]. by rewrite IH.
Qed.

Lemma sort_fields_map {A B} (f : A -> B) (l : list (jstr * A)) :
  sort_by key_leb (map (fun e => (fst e, f (snd e))) l)
  = map (fun e => (fst e, f (snd e))) (sort_by key_leb l).
Proof. by apply sort_by_map. Qed.

Lemma wf_items l : forallb wf_json l = true -> Forall (fun v => wf_json v = true) l.
Proof. rewrite forallb_forall, List.Forall_forall. done. Qed.

Lemma wf_fields fields :
  wf_json (JObj fields) = true ->
  NoDup (map fst fields) /\ Forall (fun e => wf_json (snd e) = true) fields.
Proof.
  cbn [wf_json]. intros [Hnd%bool_decide_eq_true Hf]%andb_true_iff. split; [done|].
  apply List.Forall_forall. by apply forallb_forall.
Qed.

Lemma writes_field maxBytes k f t :
  writes maxBytes f t -> writes maxBytes (writeField maxBytes (k, f)) (fieldText (k, t)).
Proof.
  intros Hf. unfold fieldText; cbn [fst snd].
  replace (x ← t; Some (stringify_string k ++ js ":" ++ x))
    with (cat (Some (stringify_string k)) (cat (Some (js ":")) t)) by (by destruct t).
  apply writes_seq; [apply writes_append, closed_string|].
  apply (writes_seq _ (append maxBytes (js ":"))); [by apply writes_append, closed_ascii|done].
Qed.

Lemma writes_value maxBytes v : forall depth,
  wf_json v = true -> writes maxBytes (writeStableValue maxBytes v depth) (stableText v depth).
Proof.
  induction v as [| |b|n|s|l IH|l IH|] using json_rect'; intros depth Hwf;
    cbn [writeStableValue stableText]; destruct (Nat.ltb MAX_SERIALIZE_DEPTH depth);
    try apply writes_none.
  - by apply writes_append, closed_ascii.
  - apply writes_append. destruct b; by apply closed_ascii.
  - destruct n as [z|t|]; [| |apply writes_none].
    + apply writes_append. eapply closed_forallb; [apply numCh_not_high|apply dec_Z_numCh].
    + apply writes_append. cbn in Hwf. apply andb_true_iff in Hwf as [Hwf _].
      eapply closed_forallb; [apply numCh_not_high|done].
  - case_match; [apply writes_none|]. apply writes_append, closed_string.
  - rewrite <- loopText_join. apply writes_wrapped; [by apply closed_ascii..|].
    apply writes_items, Forall2_map_same. apply wf_items in Hwf.
    rewrite Forall_forall in IH, Hwf. apply Forall_forall; auto.
  - apply wf_fields in Hwf as [Hnd Hwf]. unfold writeStableRecord.
    rewrite (keysWithinLimits_map (fun v => writeStableValue maxBytes v (S depth))),
      (keysWithinLimits_map (fun v => stableText v (S depth))).
    destruct (keysWithinLimits l); [|apply writes_none]. cbn [negb].
    rewrite (sort_fields_map (fun v => writeStableValue maxBytes v (S depth))),
      (sort_fields_map (fun v => stableText v (S depth))), <- loopText_join, !map_map.
    apply writes_wrapped; [by apply closed_ascii..|].
    apply writes_items, Forall2_map_same.
    apply Forall_forall. intros e He. rewrite sort_by_Permutation in He.
    rewrite Forall_forall in IH, Hwf. apply writes_field. auto.
Qed.

Lemma stable_budget maxBytes v :
  wf_json v = true ->
  stableSerializeWithinBudget maxBytes v
  = s ← stableText v 0; if (byteLength s <=? maxBytes)%nat then Some s else None.
Proof.
  intros Hwf. unfold stableSerializeWithinBudget.
  destruct (writes_value maxBytes v 0 Hwf) as [_ ->]; [|simpl; lia].
  destruct (stableText v 0) as [s|]; simpl; [|done].
  destruct (byteLength s <=? maxBytes)%nat eqn:E; simpl; by rewrite ?E.
Qed.

(** ** Key order

    [reordered v w]: [w] is [v] with the properties of its objects, at any
    depth, in another order. *)
Inductive reordered : json -> json -> Prop :=
  | re_same v : reordered v v
  | re_arr l l' : Forall2 reordered l l' -> reordered (JArr l) (JArr l')
  | re_obj f g h :
      f ≡ₚ g -> Forall2 (fun e e' => fst e = fst e' /\ reordered (snd e) (snd e')) g h ->
      reordered (JObj f) (JObj h).

Lemma key_leb_unique {A} (l l' : list (jstr * A)) :
  l ≡ₚ l' -> NoDup (map fst l) -> sort_by key_leb l = sort_by key_leb l'.
Proof.
  apply sort_by_unique; unfold key_leb.
  - intros x y. apply str_leb_total.
  - intros x y z. apply str_leb_trans.
  - intros x y Hne H1 H2. by apply Hne, str_leb_antisym.
Qed.

Lemma keysWithinLimits_perm {A} (l l' : list (jstr * A)) :
  l ≡ₚ l' -> keysWithinLimits l = keysWithinLimits l'.
Proof.
  intros Hp. unfold keysWithinLimits. rewrite (Permutation_length Hp). f_equal.
  induction Hp as [|x l l' _ IH|x y l|]; simpl; try congruence.
  by rewrite !andb_assoc, (andb_comm (length (fst y) <=? _)%nat).
Qed.

Lemma Forall2_map_eq {A B} (R : A -> A -> Prop) (f : A -> B) l l' :
  Forall2 R l l' -> (forall x y, x ∈ l -> R x y -> f x = f y) -> map f l = map f l'.
Proof.
  intros H. induction H as [|x y l l' Hxy _ IH]; intros Hf; simpl; [done|].
  f_equal; [apply Hf; [left|done]|]. apply IH. intros; apply Hf; [by right|done].
Qed.

Lemma stable_reordered v : forall w depth,
  wf_json v = true -> reordered v w -> stableText v depth = stableText w depth.
Proof.
  induction v as [| |b|n|s|l IH|l IH|] using json_rect'; intros w depth Hwf Hre;
    inversion Hre as [u|l1 l2 Hl|f g h Hp Hf]; subst; try done; cbn [stableText];
    destruct (Nat.ltb MAX_SERIALIZE_DEPTH depth); try done.
  - apply wf_items in Hwf. rewrite Forall_forall in IH, Hwf.
    erewrite (Forall2_map_eq _ _ l l2 Hl); [done|]. intros x y Hx Hxy. by apply IH; auto.
  - apply wf_fields in Hwf as [Hnd Hwf]. rewrite Forall_forall in IH, Hwf.
    set (F := fun e : jstr * json => (e.1, stableText e.2 (S depth))).
    assert (Hmap : map F g = map F h).
    { apply (Forall2_map_eq _ _ _ _ Hf). intros x y Hx [Hk Hxy]. rewrite <- Hp in Hx.
      unfold F. rewrite Hk. f_equal. by apply IH; auto. }
    assert (Hperm : map F l ≡ₚ map F h) by (by rewrite <- Hmap, Hp).
    rewrite (keysWithinLimits_perm _ _ Hperm), (key_leb_unique _ _ Hperm); [done|].
    rewrite map_map. by apply Hnd.
Qed.

(** ** Decoding *)

(** What can follow a value inside the text. *)
Definition delim (r : jstr) : Prop :=
  match r with [] => True | c :: _ => c = ch "," \/ c = ch "]" \/ c = ch "}" end.

Lemma delim_not_numCh c r : delim (c :: r) -> isNumCh c = false.
Proof. by intros [->|[->| ->]]. Qed.

Lemma number_end a b r1 r2 :
  forallb isNumCh a = true -> forallb isNumCh b = true -> delim r1 -> delim r2 ->
  a ++ r1 = b ++ r2 -> a = b /\ r1 = r2.
Proof.
  revert b; induction a as [|x a IH]; intros [|y b]; simpl; intros Ha Hb Hd1 Hd2 Heq; try done.
  - subst. apply delim_not_numCh in Hd1. by rewrite Hd1 in Hb.
  - subst. apply delim_not_numCh in Hd2. by rewrite Hd2 in Ha.
  - injection Heq as -> Heq. apply andb_true_iff in Ha as [_ Ha], Hb as [_ Hb].
    destruct (IH b Ha Hb Hd1 Hd2 Heq) as [-> ->]. done.
Qed.

(** The inverse of [stringify_string], with what follows. *)
Definition hexVal (c : jchar) : N := if (c <? 58)%N then (c - 48)%N else (c - 87)%N.

Definition unescape (d : jchar) : jchar :=
  if (d =? ch "b")%N then 8%N else if (d =? ch "t")%N then 9%N else if (d =? ch "n")%N then 10%N
  else if (d =? ch "f")%N then 12%N else if (d =? ch "r")%N then 13%N else d.

Fixpoint unquote (o : jstr) : option (jstr * jstr) :=
  match o with
  | [] => None
  | c :: o1 =>
    if (c =? 34)%N then Some ([], o1)
    else if (c =? 92)%N then
      match o1 with
      | d :: o2 =>
        if (d =? ch "u")%N then
          match o2 with
          | h3 :: h2 :: h1 :: h0 :: o3 =>
            '(s, r) ← unquote o3;
            Some ((4096 * hexVal h3 + 256 * hexVal h2 + 16 * hexVal h1 + hexVal h0)%N :: s, r)
          | _ => None
          end
        else '(s, r) ← unquote o2; Some (unescape d :: s, r)
      | [] => None
      end
    else '(s, r) ← unquote o1; Some (c :: s, r)
  end.

Lemma hexVal_digit n : (n < 16)%N -> hexVal (hexDigit n) = n.
Proof.
  intros H. unfold hexVal, hexDigit. destruct (N.ltb_spec n 10).
  - rewrite (proj2 (N.ltb_lt _ _)) by lia. lia.
  - rewrite (proj2 (N.ltb_ge _ _)) by lia. lia.
Qed.

Lemma hex_digits c :
  (c < 65536)%N ->
  (4096 * (c / 4096 mod 16) + 256 * (c / 256 mod 16) + 16 * (c / 16 mod 16) + c mod 16 = c)%N.
Proof.
  intros H. pose proof (N.div_mod c 16). pose proof (N.div_mod (c / 16) 16).
  pose proof (N.div_mod (c / 16 / 16) 16). pose proof (N.div_mod (c / 16 / 16 / 16) 16).
  assert (c / 256 = c / 16 / 16)%N as -> by (by rewrite N.Div0.div_div).
  assert (c / 4096 = c / 16 / 16 / 16)%N as -> by (by rewrite !N.Div0.div_div).
  assert (c / 16 / 16 / 16 / 16 = 0)%N by (rewrite !N.Div0.div_div; by apply N.div_small).
  lia.
Qed.

Lemma unquote_u4 c o :
  (c < 65536)%N -> unquote (u4 c ++ o) = '(s, r) ← unquote o; Some (c :: s, r).
Proof.
  intros Hc. unfold u4. cbn [app unquote]. change (92 =? 34)%N with false. change (92 =? 92)%N with true.
  change (ch "u" =? ch "u")%N with true. cbn iota.
  rewrite !hexVal_digit by (by apply N.mod_lt). by rewrite hex_digits.
Qed.

Lemma unquote_escape c o :
  unquote (escapeUnit c ++ o) = '(s, r) ← unquote o; Some (c :: s, r).
Proof.
  unfold escapeUnit.
  destruct (N.eqb_spec c 8) as [->|]; [done|]. destruct (N.eqb_spec c 9) as [->|]; [done|].
  destruct (N.eqb_spec c 10) as [->|]; [done|]. destruct (N.eqb_spec c 12) as [->|]; [done|].
  destruct (N.eqb_spec c 13) as [->|]; [done|].
  destruct (N.eqb_spec c 34) as [->|Hq]; [done|]. destruct (N.eqb_spec c 92) as [->|Hb]; [done|].
  cbn [orb]. destruct ((c <? 32)%N || isHigh c || isLow c) eqn:E.
  - apply unquote_u4. unfold isHigh, isLow in E.
    rewrite !orb_true_iff, !andb_true_iff, !N.leb_le, N.ltb_lt in E. lia.
  - cbn [app unquote]. by rewrite (proj2 (N.eqb_neq _ _) Hq), (proj2 (N.eqb_neq _ _) Hb).
Qed.

Lemma unquote_pair c d o :
  isHigh c = true -> isLow d = true ->
  unquote (c :: d :: o) = '(s, r) ← unquote o; Some (c :: d :: s, r).
Proof.
  unfold isHigh, isLow. rewrite !andb_true_iff, !N.leb_le. intros Hc Hd. cbn [unquote].
  rewrite !(proj2 (N.eqb_neq c _)), !(proj2 (N.eqb_neq d _)) by lia.
  by destruct (unquote o) as [[s r]|].
Qed.

Lemma unquote_quote s r : unquote (quoteUnits s ++ dquote :: r) = Some (s, r).
Proof.
  induction s as [s IH] using (induction_ltof1 _ (@length jchar)); unfold ltof in IH.
  destruct s as [|c [|d s]]; [done| |].
  - cbn [quoteUnits]. by rewrite unquote_escape.
  - assert (IH1 := IH (d :: s) ltac:(simpl; lia)). cbn [quoteUnits] in *.
    destruct (isHigh c && isLow d) eqn:E.
    + apply andb_true_iff in E as [Hc Hd]. cbn [app]. rewrite unquote_pair by done.
      rewrite (IH s) by (simpl; lia). done.
    + rewrite <- app_assoc, unquote_escape, IH1. done.
Qed.

Lemma string_end a b r1 r2 :
  stringify_string a ++ r1 = stringify_string b ++ r2 -> a = b /\ r1 = r2.
Proof.
  unfold stringify_string. cbn [app]. intros [= H]. rewrite <- !app_assoc in H. cbn [app] in H.
  apply (f_equal unquote) in H. rewrite !unquote_quote in H. by injection H.
Qed.

(** The text of [a] determines [a] up to [R], whatever delimiter follows. *)
Definition decodable {A} (text : A -> option jstr) (ok : A -> Prop) (R : A -> A -> Prop) (a : A) : Prop :=
  forall b s1 s2 r1 r2, ok b -> text a = Some s1 -> text b = Some s2 ->
    s1 ++ r1 = s2 ++ r2 -> delim r1 -> delim r2 -> R a b /\ r1 = r2.

Section Items.
Context {A : Type} (text : A -> option jstr) (ok : A -> Prop) (R : A -> A -> Prop) (close : jchar).
Hypothesis Hclose : close = ch "]" \/ close = ch "}".

Lemma delim_tail ts r : delim (tailText ts ++ close :: r).
Proof using Hclose. destruct ts; simpl; [by destruct Hclose as [->| ->]; auto|by left]. Qed.

Lemma items_text_cons a l s :
  itemsText (map text (a :: l)) = Some s ->
  exists t ts, text a = Some t /\ mapM id (map text l) = Some ts /\ s = t ++ tailText ts.
Proof using Type.
  unfold itemsText. cbn [map]. rewrite mapM_cons_id. destruct (text a) as [t|]; [|done].
  simpl. destruct (mapM id (map text l)) as [ts|]; [|done]. simpl.
  intros [= <-]. exists t, ts. by rewrite <- join_cons.
Qed.

Lemma decode_tail l1 : forall l2 ts1 ts2 r1 r2,
  Forall (decodable text ok R) l1 -> Forall ok l2 ->
  mapM id (map text l1) = Some ts1 -> mapM id (map text l2) = Some ts2 ->
  tailText ts1 ++ close :: r1 = tailText ts2 ++ close :: r2 -> Forall2 R l1 l2 /\ r1 = r2.
Proof using Hclose.
  induction l1 as [|a l1 IH]; intros [|b l2] ts1 ts2 r1 r2 Hd Hok H1 H2 Heq.
  - injection H1 as <-. injection H2 as <-. simpl in Heq. by injection Heq.
  - injection H1 as <-. cbn [map] in H2. rewrite mapM_cons_id in H2.
    destruct (text b); [|done]. simpl in H2. destruct (mapM id _) as [ts|]; [|done].
    injection H2 as <-. injection Heq as Hc _. by destruct Hclose as [->| ->].
  - injection H2 as <-. cbn [map] in H1. rewrite mapM_cons_id in H1.
    destruct (text a); [|done]. simpl in H1. destruct (mapM id _) as [ts|]; [|done].
    injection H1 as <-. injection Heq as Hc _. by destruct Hclose as [->| ->].
  - cbn [map] in H1, H2. rewrite mapM_cons_id in H1, H2.
    destruct (text a) as [s1|] eqn:Ea; [|done]. destruct (text b) as [s2|] eqn:Eb; [|done].
    simpl in H1, H2. destruct (mapM id (map text l1)) as [us1|] eqn:E1; [|done].
    destruct (mapM id (map text l2)) as [us2|] eqn:E2; [|done].
    injection H1 as <-. injection H2 as <-.
    apply Forall_cons in Hd as [Ha Hd], Hok as [Hb Hok].
    unfold tailText in Heq. simpl in Heq. injection Heq as Heq. rewrite <- !app_assoc in Heq.
    destruct (Ha b _ _ _ _ Hb Ea Eb Heq) as [HR Hr]; [apply delim_tail..|].
    destruct (IH l2 us1 us2 r1 r2) as [HF Hr']; [done..|]. split; [by constructor|done].
Qed.

(** Two item lists between the same brackets. *)
Lemma decode_items l1 l2 s1 s2 r1 r2 :
  (forall a s, ok a -> text a = Some s -> match s with [] => False | c :: _ => c <> close end) ->
  Forall (decodable text ok R) l1 -> Forall ok l1 -> Forall ok l2 ->
  itemsText (map text l1) = Some s1 -> itemsText (map text l2) = Some s2 ->
  s1 ++ close :: r1 = s2 ++ close :: r2 -> Forall2 R l1 l2 /\ r1 = r2.
Proof using Hclose.
  intros Hne Hd Hok1 Hok H1 H2 Heq. destruct l1 as [|a l1], l2 as [|b l2].
  - injection H1 as <-. injection H2 as <-. simpl in Heq. by injection Heq.
  - injection H1 as <-. apply items_text_cons in H2 as (t & ts & Ht & _ & ->).
    apply Hne in Ht; [|by inversion Hok].
    destruct t as [|c t]; [done|]. simpl in Heq. by injection Heq.
  - injection H2 as <-. apply items_text_cons in H1 as (t & ts & Ht & _ & ->).
    apply Hne in Ht; [|by inversion Hok1].
    destruct t as [|c t]; [done|]. simpl in Heq. by injection Heq.
  - apply items_text_cons in H1 as (t & ts & Ht & Hts & ->).
    apply items_text_cons in H2 as (u & us & Hu & Hus & ->).
    apply Forall_cons in Hd as [Ha Hd], Hok as [Hb Hok]. rewrite <- !app_assoc in Heq.
    destruct (Ha b _ _ _ _ Hb Ht Hu Heq) as [HR Hr]; [apply delim_tail..|].
    destruct (decode_tail l1 l2 ts us r1 r2) as [HF Hr']; [done..|]. split; [by constructor|done].
Qed.
End Items.

(** The first character tells the kind of a value. *)
Definition headClass (c : jchar) : nat :=
  if (c =? ch "n")%N then 0 else if (c =? ch "t")%N then 1 else if (c =? ch "f")%N then 2
  else if (c =? dquote)%N then 4 else if (c =? ch "[")%N then 5 else if (c =? ch "{")%N then 6
  else if isNumCh c then 3 else 8.

Definition kind_of (v : json) : nat :=
  match v with
  | JNull => 0 | JBool b => if b then 1 else 2 | JNum _ => 3 | JStr _ => 4 | JArr _ => 5 | JObj _ => 6
  | JUndefined | JOther => 7
  end.

Lemma numCh_class c : isNumCh c = true -> headClass c = 3.
Proof.
  intros H. unfold headClass.
  repeat match goal with
  | |- context [(c =? ?d)%N] => destruct (N.eqb_spec c d) as [->|_]; [vm_compute in H; discriminate H|]
  end. by rewrite H.
Qed.

Lemma dec_Z_nonempty z : dec_Z z <> [].
Proof.
  unfold dec_Z. intros H. apply (js_inj _ EmptyString) in H.
  apply (f_equal NilEmpty.int_of_string) in H. rewrite NilEmpty.isi in H. injection H as H.
  pose proof (DecimalZ.of_to z) as Hz. rewrite H in Hz. cbn in Hz. by subst.
Qed.

Lemma dec_Z_integral z : existsb (fun c => ((c =? ch ".") || (c =? ch "e"))%N) (dec_Z z) = false.
Proof.
  assert (Hu : forall d, existsb (fun c => ((c =? ch ".") || (c =? ch "e"))%N)
                           (js (NilEmpty.string_of_uint d)) = false) by (by induction d).
  unfold dec_Z, NilEmpty.string_of_int. destruct (Z.to_int z); [apply Hu|]. cbn [js existsb].
  by rewrite Hu.
Qed.

Lemma text_head v depth s :
  wf_json v = true -> stableText v depth = Some s ->
  match s with [] => False | c :: _ => headClass c = kind_of v end.
Proof.
  intros Hwf. destruct v as [| |b|n|s0|l|l|]; cbn [stableText];
    destruct (Nat.ltb MAX_SERIALIZE_DEPTH depth); try done.
  - by intros [= <-].
  - intros [= <-]. by destruct b.
  - destruct n as [z|t|]; [| |done]; intros [= <-].
    + pose proof (dec_Z_nonempty z). pose proof (dec_Z_numCh z) as Hn.
      destruct (dec_Z z) as [|c t]; [done|]. cbn [forallb] in Hn.
      apply andb_true_iff in Hn as [Hn _]. by apply numCh_class.
    + cbn [wf_json] in Hwf. unfold numText in Hwf. destruct t as [|c t]; [done|].
      cbn [forallb] in Hwf. rewrite !andb_true_iff in Hwf. destruct Hwf as [[Hc _] _].
      by apply numCh_class.
  - case_match; [done|]. by intros [= <-].
  - destruct (itemsText _); [|done]. by intros [= <-].
  - case_match; [done|]. destruct (itemsText _); [|done]. by intros [= <-].
Qed.

Definition ok_field (e : jstr * json) : Prop := wf_json (snd e) = true.
Definition same_field (e e' : jstr * json) : Prop := fst e = fst e' /\ reordered (snd e) (snd e').
Definition field_text (depth : nat) (e : jstr * json) : option jstr :=
  fieldText (fst e, stableText (snd e) depth).

Lemma decode_field depth e :
  decodable (fun v => stableText v depth) (fun v => wf_json v = true) reordered (snd e) ->
  decodable (field_text depth) ok_field same_field e.
Proof.
  intros Hd e' s1 s2 r1 r2 Hok H1 H2 Heq Hr1 Hr2.
  unfold field_text, fieldText in H1, H2. cbn [fst snd] in H1, H2.
  destruct (stableText e.2 depth) as [t1|] eqn:E1; [|done].
  destruct (stableText e'.2 depth) as [t2|] eqn:E2; [|done].
  apply (inj Some) in H1, H2. subst s1 s2. rewrite <- !app_assoc in Heq.
  apply string_end in Heq as [Hk Heq]. injection Heq as Heq.
  destruct (Hd _ _ _ _ _ Hok E1 E2 Heq Hr1 Hr2) as [Hre ->]. by repeat split.
Qed.

Lemma Forall2_perm_r {A} (R : A -> A -> Prop) l m m' :
  Forall2 R l m -> m ≡ₚ m' -> exists l', l ≡ₚ l' /\ Forall2 R l' m'.
Proof.
  intros HF Hp. revert l HF; induction Hp as [|x m m' _ IH|x y m|m1 m2 m3 _ IH1 _ IH2]; intros l HF.
  - apply Forall2_nil_inv_r in HF as ->. by exists [].
  - apply Forall2_cons_inv_r in HF as (a & l0 & Ha & HF & ->).
    destruct (IH _ HF) as (l' & Hl & HF'). exists (a :: l'). split; [by rewrite Hl|by constructor].
  - apply Forall2_cons_inv_r in HF as (a & l0 & Ha & HF & ->).
    apply Forall2_cons_inv_r in HF as (b & l1 & Hb & HF & ->).
    exists (b :: a :: l1). split; [apply Permutation_swap|by repeat constructor].
  - destruct (IH1 _ HF) as (l1 & Hl1 & HF1). destruct (IH2 _ HF1) as (l2 & Hl2 & HF2).
    exists l2. split; [by rewrite Hl1|done].
Qed.

Lemma record_text fields depth :
  map fieldText (sort_by key_leb (map (fun e => (fst e, stableText (snd e) depth)) fields))
  = map (field_text depth) (sort_by key_leb fields).
Proof. by rewrite (sort_fields_map (fun v => stableText v depth)), map_map. Qed.

Lemma decode_number n n' s1 s2 r1 r2 depth :
  wf_json (JNum n) = true -> wf_json (JNum n') = true ->
  stableText (JNum n) depth = Some s1 -> stableText (JNum n') depth = Some s2 ->
  s1 ++ r1 = s2 ++ r2 -> delim r1 -> delim r2 -> reordered (JNum n) (JNum n') /\ r1 = r2.
Proof.
  assert (Hint : forall z t, numText t = true -> dec_Z z <> t).
  { intros z t Ht <-. unfold numText in Ht. rewrite dec_Z_integral, andb_false_r in Ht. done. }
  assert (Hch : forall t, numText t = true -> forallb isNumCh t = true)
    by (intros t Ht; unfold numText in Ht; by apply andb_true_iff in Ht as [? _]).
  cbn [stableText wf_json]. destruct (Nat.ltb MAX_SERIALIZE_DEPTH depth); [done|].
  destruct n as [z|t|], n' as [z'|t'|]; intros Hw1 Hw2 H1 H2 Heq Hr1 Hr2; try done;
    apply (inj Some) in H1, H2; subst s1 s2;
    apply number_end in Heq as [Ht ->]; auto using dec_Z_numCh.
  - apply dec_Z_inj in Ht as ->. split; [constructor|done].
  - by destruct (Hint z t').
  - by destruct (Hint z' t).
  - rewrite Ht. split; [constructor|done].
Qed.

(** No text of a value starts with a closing bracket. *)
Lemma text_not_close v depth s close :
  close = ch "]" \/ close = ch "}" ->
  wf_json v = true -> stableText v depth = Some s ->
  match s with [] => False | c :: _ => c <> close end.
Proof.
  intros Hclose Hwf H. pose proof (text_head _ _ _ Hwf H) as Hh. destruct s as [|c s]; [done|].
  intros ->. destruct Hclose as [->| ->], v as [| |[]|n| | | |]; done.
Qed.

Lemma decode_value v : forall depth,
  wf_json v = true ->
  decodable (fun v => stableText v depth) (fun v => wf_json v = true) reordered v.
Proof.
  induction v as [| |b|n|s|l IH|l IH|] using json_rect'; intros depth Hwf w s1 s2 r1 r2 Hw H1 H2 Heq Hr1 Hr2;
    pose proof (text_head _ _ _ Hwf H1) as Hc1; pose proof (text_head _ _ _ Hw H2) as Hc2;
    destruct s1 as [|c1 s1]; try done; destruct s2 as [|c2 s2]; try done;
    assert (Hcc : c1 = c2) by (injection Heq; auto); rewrite Hcc, Hc2 in Hc1;
    destruct w as [| |b'|n'|s'|l'|l'|]; try destruct b; try destruct b'; try discriminate Hc1;
    clear Hc1 Hc2 Hcc.
  all: try (by eapply decode_number).
  all: cbn [stableText] in H1, H2; destruct (Nat.ltb MAX_SERIALIZE_DEPTH depth); try done.
  1-3: rewrite H1 in H2; apply (inj Some) in H2; rewrite H2 in Heq; apply app_inv_head in Heq;
    split; [constructor|done].
  - destruct (Nat.ltb _ (length s)); [done|]. destruct (Nat.ltb _ (length s')); [done|].
    apply (inj Some) in H1, H2. rewrite <- H1, <- H2 in Heq. apply string_end in Heq as [-> ->].
    split; [constructor|done].
  - destruct (itemsText (map _ l)) as [t1|] eqn:E1; [|done].
    destruct (itemsText (map _ l')) as [t2|] eqn:E2; [|done].
    apply (inj Some) in H1, H2. rewrite <- H1, <- H2 in Heq. rewrite <- !app_assoc in Heq.
    apply app_inv_head in Heq.
    apply wf_items in Hwf, Hw. rewrite Forall_forall in IH.
    destruct (decode_items (fun v => stableText v (S depth)) (fun v => wf_json v = true) reordered
      (ch "]") (or_introl eq_refl) l l' t1 t2 r1 r2) as [HF ->]; [| |done..| ].
    + intros v t. apply text_not_close. by left.
    + rewrite Forall_forall in Hwf |- *. intros v Hv. apply IH; auto.
    + split; [by constructor|done].
  - rewrite !record_text in *.
    destruct (negb (keysWithinLimits (map _ l))); [done|].
    destruct (negb (keysWithinLimits (map _ l'))); [done|].
    destruct (itemsText (map _ (sort_by _ l))) as [t1|] eqn:E1; [|done].
    destruct (itemsText (map _ (sort_by _ l'))) as [t2|] eqn:E2; [|done].
    apply (inj Some) in H1, H2. rewrite <- H1, <- H2 in Heq. rewrite <- !app_assoc in Heq.
    apply app_inv_head in Heq. apply wf_fields in Hwf as [Hnd Hwf], Hw as [Hnd' Hw].
    rewrite <- (sort_by_Permutation key_leb l) in Hwf, IH.
    rewrite <- (sort_by_Permutation key_leb l') in Hw. rewrite Forall_forall in IH.
    destruct (decode_items (field_text (S depth)) ok_field same_field (ch "}") (or_intror eq_refl)
      (sort_by key_leb l) (sort_by key_leb l') t1 t2 r1 r2) as [HF ->]; [| |done..|].
    3: split; [|done]; eapply Forall2_perm_r in HF as (g & Hg & HF); [|apply sort_by_Permutation];
      eapply re_obj; [|exact HF]; by rewrite <- Hg, sort_by_Permutation.
    + intros e t _ He. unfold field_text, fieldText in He. cbn [fst snd] in He.
      destruct (stableText e.2 _); [|done]. apply (inj Some) in He. by subst t.
    + rewrite Forall_forall in Hwf |- *. intros e He. apply decode_field, IH; auto.
Qed.

(** ** Properties *)

(** The budgeted writer returns exactly the stable text when its UTF-8
    length fits the budget, and nothing otherwise: no partial text leaks out,
    and no value that fits is refused. *)
Theorem serialize_refines_text (maxBytes : nat) (v : json) (Hwf : wf_json v = true) :
  stableSerializeWithinBudget maxBytes v
  = match stableText v 0 with
    | Some s => if (byteLength s <=? maxBytes)%nat then Some s else None
    | None => None
    end.
Proof. rewrite stable_budget by done. by destruct (stableText v 0). Qed.

Lemma serialize_refines_text_witness :
  stableSerializeWithinBudget 9 (JArr [JStr [233%N]; JNum (NumText (js "0.5"))]) = None
  /\ stableSerializeWithinBudget 10 (JArr [JStr [233%N]; JNum (NumText (js "0.5"))])
     = Some (js "[" ++ [dquote; 233%N; dquote] ++ js ",0.5]").
Proof.
  split; rewrite serialize_refines_text by reflexivity; reflexivity.
Defined.

(** two values have the same serialisation exactly when they differ only
    in the order of object properties: the identity that a fingerprint stands
    for ignores key order and nothing else. *)
Theorem serialize_identity (maxBytes : nat) (v w : json) (s : jstr)
    (Hv : wf_json v = true) (Hw : wf_json w = true)
    (Hs : stableSerializeWithinBudget maxBytes v = Some s) :
  stableSerializeWithinBudget maxBytes w = Some s <-> reordered v w.
Proof.
  rewrite stable_budget in Hs |- * by done.
  destruct (stableText v 0) as [tv|] eqn:Ev; [|done]. simpl in Hs.
  destruct (byteLength tv <=? maxBytes)%nat eqn:Eb; [|done]. injection Hs as <-.
  split.
  - destruct (stableText w 0) as [tw|] eqn:Ew; [|done]. simpl.
    destruct (byteLength tw <=? maxBytes)%nat; [|done]. intros [= ->].
    by destruct (decode_value v 0 Hv w tv tv [] [] Hw Ev Ew eq_refl I I).
  - intros Hre. rewrite <- (stable_reordered v w 0 Hv Hre), Ev. simpl. by rewrite Eb.
Qed.

Lemma serialize_identity_witness :
  stableSerializeWithinBudget 100 (JObj [(js "b", JNull); (js "a", JBool true)])
  = stableSerializeWithinBudget 100 (JObj [(js "a", JBool true); (js "b", JNull)]).
Proof.
  symmetry.
  refine (proj2 (serialize_identity 100 (JObj [(js "b", JNull); (js "a", JBool true)])
    (JObj [(js "a", JBool true); (js "b", JNull)]) _ eq_refl eq_refl eq_refl) _).
  eapply re_obj; [apply Permutation_swap|]. repeat constructor.
Defined.
