(* ===== verification/QueueModel.v ===== *)
(** * The session queue: data, validation, routing

    [packages/local-runtime-v2/src/service/session-system/queue]: the types of
    [repo/contract.ts], the checks of [repo/codec.ts] and [repo/policy.ts], and
    the dispatch identity of [routing.ts].  The checks of the code take
    [unknown]; what the types already decide (a field is a string, a list, a
    finite number) is not repeated, every other condition is.  Times are
    integers.  [channelContext] is an object with arbitrary keys. *)
From S2P Require Import Prelude JsValue.
From S2P Require RgFingerprint.

(** ** [contract.ts] *)
Inductive QueueMessageSource :=
  | src_api | src_cron | src_task | src_background_task | src_team | src_thread_goal
  | src_questionnaire | src_communication | src_code_review | src_greeting
  | src_wechat | src_feishu | src_telegram.

Inductive QueueItemStatus := queued | claimed.

Inductive SafetyOutcome := approved | degraded.
Record InputSafetyDecision := { inputDigest : jstr; outcome : SafetyOutcome }.

Abbreviation QueueChannelContext := (jmap jstr json) (only parsing).

Inductive AttachmentType := att_file | att_image.
Record QueueMessageAttachment := {
  at_type : AttachmentType; filePath : jstr; fileName : jstr; mimeType : jstr;
  dataUrl : option jstr; assetId : option jstr; at_error : option jstr;
}.

Record QueueMessageInput := {
  content : jstr;
  attachments : list QueueMessageAttachment;
  inputSafetyDecision : option InputSafetyDecision;
  displayAttachments : option (list (jmap jstr json));
  hideUserMessage : option bool;
  displayContent : option jstr;
  clientIntent : option jstr;
  queueItemId : option jstr;
  m_source : option jstr;
  origin : option json;
  quotedMessage : option (jstr * option jstr);
  m_channelContext : option QueueChannelContext;
}.

Inductive Provenance := prov_default | prov_selection | prov_legacy.
Record QueueModelOverride := {
  parameterSnapshot : option (Provenance * Provenance);
  reasoning : option bool;
  context_limit : option Z;
  provider_id : option jstr;
  model_id : option jstr;
  variant : option jstr;
  thinking : option (option jstr);
}.

Record QueueRoutingProvenance := {
  p_source : QueueMessageSource;
  p_routingFingerprint : jstr;
  sourceContext : option (jmap jstr json);
}.

Record QueueClaimRef := { qc_itemId : jstr; qc_claimId : jstr }.

Record BatchMember := {
  b_message : QueueMessageInput;
  b_userMessageId : jstr;
  sourceMessageId : option jstr;
  messageKey : jstr;
  unconsumedFromTurnIds : option (list jstr);
  unstartedFromTurnIds : option (list jstr);
  queueClaim : option QueueClaimRef;
  b_createdAt : Z;
  b_provenance : QueueRoutingProvenance;
  b_model : option QueueModelOverride;
}.
Record QueueImmediateSendBatch := { b_id : jstr; members : list BatchMember }.

Record DeliveryAttempt := { da_claimId : jstr; da_turnId : jstr }.

Record QueueItem := {
  deliveryAttempts : option (list DeliveryAttempt);
  immediateSendBatch : option QueueImmediateSendBatch;
  itemId : jstr;
  userMessageId : option jstr;
  requestedTurnId : option jstr;
  sessionId : jstr;
  agentName : jstr;
  source : QueueMessageSource;
  status : QueueItemStatus;
  message : QueueMessageInput;
  channelContext : option QueueChannelContext;
  model : option QueueModelOverride;
  createdAt : Z;
  clientRequestId : option jstr;
  dedupeKey : option jstr;
  expiresAt : option Z;
  claimId : option jstr;
  claimedAt : option Z;
  claimOwnerId : option jstr;
  claimLeaseExpiresAt : option Z;
}.

(** [queuePlacement] is absent or ['front']. *)
Record QueueEnqueueInput := {
  in_immediateSendBatch : option QueueImmediateSendBatch;
  in_createdAt : option Z;
  in_sessionId : jstr;
  in_agentName : jstr;
  in_itemId : option jstr;
  in_userMessageId : option jstr;
  in_requestedTurnId : option jstr;
  in_message : QueueMessageInput;
  in_source : option QueueMessageSource;
  in_front : bool;
  in_model : option QueueModelOverride;
  in_clientRequestId : option jstr;
  in_dedupeKey : option jstr;
  in_expiresAt : option Z;
}.

Inductive QueuePauseCause := user_stop | turn_final_failure.
Record QueuePause := { cause : QueuePauseCause; triggerTurnId : jstr; pausedAtMs : Z }.
Record QueueExecutionSnapshot := { pendingCount : nat; pause : option QueuePause }.

(** [model] is absent, [null] or an override. *)
Inductive ModelUpdate := model_absent | model_null | model_set (m : QueueModelOverride).
Record QueueUpdateInput := {
  u_sessionId : jstr; u_itemId : jstr;
  u_message : option QueueMessageInput;
  u_model : ModelUpdate;
  u_expiresAt : option Z;
}.

Record QueueClaimInput := {
  c_sessionId : jstr;
  c_itemId : option jstr;
  continuePaused : bool;
  excludeItemIds : option (list jstr);
  allowedSources : option (list QueueMessageSource);
  c_nowMs : option Z;
}.

Inductive Selection := sel_fifo | sel_exact | sel_continued_fifo.
Record QueueDispatchItem := {
  d_claimId : jstr; d_sessionId : jstr; d_source : QueueMessageSource;
  d_claimOwnerId : jstr; d_claimLeaseExpiresAt : Z; selection : Selection;
  d_item : QueueItem; d_message : QueueMessageInput;
  d_clientRequestId : option jstr; d_provenance : QueueRoutingProvenance;
}.

Record QueueEnqueueResult := { r_item : QueueItem; position : nat }.

Inductive QueueRemovalReason :=
  | cancelled | expired_reason | accepted | injected | composer_transferred | admission_rejected.

Inductive QueueCommittedFact :=
  | fact_enqueued (sessionId itemId : jstr) (src : QueueMessageSource)
      (clientRequestId : option jstr) (enqueuedAtMs : Z)
  | fact_requeued (sessionId itemId : jstr) (src : QueueMessageSource)
      (clientRequestId : option jstr) (requeuedAtMs : Z) (admissionReason : option jstr)
  | fact_removed (sessionId itemId : jstr) (reason : QueueRemovalReason) (removedAtMs : Z)
      (admissionReason : option jstr)
  | fact_execution_state (sessionId : jstr) (paused : bool).

Inductive QueueEnqueueAdmissionRejection := session_not_found | maintenance_active.

Record QueueClaimAcceptanceQuery := {
  aq_sessionId : jstr; aq_claimId : jstr; aq_source : QueueMessageSource;
  aq_queueItemIds : list jstr; aq_turnId : option jstr;
}.

(** What a method may throw.  [ConstraintError] is SQLite's error on a violated
    unique index; [TypeError] and [PlainError] are the code's own throws. *)
Inductive QueueError :=
  | QueueDataCorruptionError (sessionId itemId : jstr)
  | QueueClaimNotFoundError (sessionId claimId : jstr)
  | QueueClaimNotAcceptedError (sessionId claimId : jstr) (turnId : option jstr)
  | QueueEnqueueAdmissionError (sessionId : jstr) (reason : QueueEnqueueAdmissionRejection)
  | ConstraintError
  | TypeError
  | PlainError.

#[export] Instance QueueMessageSource_eq_dec : EqDecision QueueMessageSource.
Proof. solve_decision. Defined.
#[export] Instance QueueItemStatus_eq_dec : EqDecision QueueItemStatus.
Proof. solve_decision. Defined.
#[export] Instance QueuePauseCause_eq_dec : EqDecision QueuePauseCause.
Proof. solve_decision. Defined.
#[export] Instance QueuePause_eq_dec : EqDecision QueuePause.
Proof. solve_decision. Defined.
#[export] Instance QueueRemovalReason_eq_dec : EqDecision QueueRemovalReason.
Proof. solve_decision. Defined.

(** ** [codec.ts] *)
Definition isAlnum (c : jchar) : bool :=
  (((48 <=? c) && (c <=? 57)) || ((65 <=? c) && (c <=? 90)) || ((97 <=? c) && (c <=? 122)))%N.

(** [/^msg-user-v1-[A-Za-z0-9_-]+$/]. *)
Definition isUserMessageId (s : jstr) : bool :=
  startsWith s (js "msg-user-v1-")
  && truthy (drop 12 s)
  && forallb (fun c => isAlnum c || (c =? ch "_")%N || (c =? ch "-")%N) (drop 12 s).

(** [/^sha256:[a-f0-9]{64}$/] on the digest; the outcomes and the absence of
    other keys are in the type. *)
Definition isInputSafetyDecision (d : InputSafetyDecision) : bool :=
  startsWith (inputDigest d) (js "sha256:")
  && (length (drop 7 (inputDigest d)) =? 64)%nat
  && forallb (fun c => ((48 <=? c) && (c <=? 57)) || ((97 <=? c) && (c <=? 102)))%N
       (drop 7 (inputDigest d)).

(** [value === undefined || validate(value)]. *)
Definition optionalRecord {A} (value : option A) (validate : A -> bool) : bool :=
  match value with None => true | Some v => validate v end.

Definition nonEmpty (s : option jstr) : bool := otruthy s.

Definition isChannelContext (c : jmap jstr json) : bool :=
  forallb (fun key => match jget key c with Some (JStr _) => true | _ => false end)
    [js "platform"; js "chatType"; js "chatId"; js "senderId"; js "clientName"].

Definition isQueueMessageInput (m : QueueMessageInput) : bool :=
  optionalRecord (inputSafetyDecision m) isInputSafetyDecision
  && optionalRecord (m_channelContext m) isChannelContext.

Definition isModelContext (n : Z) : bool := ((0 <? n) && (n <=? 2147483647))%Z.
Definition isModel (m : QueueModelOverride) : bool := optionalRecord (context_limit m) isModelContext.

(** [value.length > 0 && value.every(nonEmpty) && new Set(value).size === value.length]. *)
Definition validUnconsumedTurnIds (ids : list jstr) : bool :=
  (0 <? length ids)%nat && forallb truthy ids && bool_decide (NoDup ids).

Definition validBatchProvenance (p : QueueRoutingProvenance) : bool := truthy (p_routingFingerprint p).

Definition validImmediateSendMember (m : BatchMember) : bool :=
  isQueueMessageInput (b_message m)
  && truthy (messageKey m)
  && optionalRecord (queueClaim m) (fun c => truthy (qc_itemId c) && truthy (qc_claimId c))
  && optionalRecord (unconsumedFromTurnIds m) validUnconsumedTurnIds
  && optionalRecord (unstartedFromTurnIds m) validUnconsumedTurnIds
  && optionalRecord (b_model m) isModel
  && validBatchProvenance (b_provenance m).

(** The [every] loop with the set of user message ids seen so far. *)
Fixpoint validMembers (ids : list jstr) (ms : list BatchMember) : bool :=
  match ms with
  | [] => true
  | m :: ms' =>
    isUserMessageId (b_userMessageId m) && negb (bool_decide (b_userMessageId m ∈ ids))
    && validImmediateSendMember m && validMembers (b_userMessageId m :: ids) ms'
  end.

Definition isQueueImmediateSendBatch (b : QueueImmediateSendBatch) : bool :=
  truthy (b_id b) && (0 <? length (members b))%nat && validMembers [] (members b).

Fixpoint validAttempts (claims turns : list jstr) (l : list DeliveryAttempt) : bool :=
  match l with
  | [] => true
  | a :: l' =>
    truthy (da_claimId a) && truthy (da_turnId a)
    && negb (bool_decide (da_claimId a ∈ claims) || bool_decide (da_turnId a ∈ turns))
    && validAttempts (da_claimId a :: claims) (da_turnId a :: turns) l'
  end.

Definition validDeliveryAttempts (o : option (list DeliveryAttempt)) : bool :=
  match o with
  | None => true
  | Some l => (0 <? length l)%nat && validAttempts [] [] l
  end.

Definition hasIdentity (i : QueueItem) : bool :=
  truthy (itemId i) && truthy (sessionId i) && truthy (agentName i) && isQueueMessageInput (message i).

Definition hasOptionalMetadata (i : QueueItem) : bool :=
  optionalRecord (userMessageId i) isUserMessageId
  && optionalRecord (channelContext i) isChannelContext
  && optionalRecord (model i) isModel
  && optionalRecord (immediateSendBatch i) isQueueImmediateSendBatch
  && validDeliveryAttempts (deliveryAttempts i).

Definition isNone {A} (o : option A) : bool := match o with None => true | Some _ => false end.

Definition claimFieldsAbsent (i : QueueItem) : bool :=
  isNone (claimId i) && isNone (claimedAt i) && isNone (claimOwnerId i) && isNone (claimLeaseExpiresAt i).

Definition isQueueItem (i : QueueItem) : bool :=
  hasIdentity i && hasOptionalMetadata i
  && match status i with
     | queued => claimFieldsAbsent i
     | claimed => nonEmpty (claimId i) && negb (isNone (claimedAt i))
     end.

(** ** [policy.ts] of the repository and of the service *)
Definition emptyMessage (m : QueueMessageInput) : bool :=
  match content m, attachments m with [], [] => true | _, _ => false end.

Definition validEnqueueMetadata (i : QueueEnqueueInput) : bool :=
  optionalRecord (in_immediateSendBatch i) isQueueImmediateSendBatch.

Definition validEnqueue (i : QueueEnqueueInput) : bool :=
  truthy (in_sessionId i) && truthy (in_agentName i)
  && isQueueMessageInput (in_message i) && negb (emptyMessage (in_message i))
  && validEnqueueMetadata i.

Definition validUpdate (u : QueueUpdateInput) : bool :=
  truthy (u_sessionId u) && truthy (u_itemId u)
  && (negb (isNone (u_message u))
      || match u_model u with model_absent => false | _ => true end
      || negb (isNone (u_expiresAt u)))
  && match u_message u with
     | None => true
     | Some m => isQueueMessageInput m && negb (emptyMessage m)
     end.

(** [x ? {f: x} : {}] for an optional string. *)
Definition ifTruthy (o : option jstr) : option jstr := if otruthy o then o else None.

Definition makeQueued (i : QueueEnqueueInput) (id : jstr) (nowMs : Z) : QueueItem := {|
  deliveryAttempts := None;
  immediateSendBatch := in_immediateSendBatch i;
  itemId := id;
  userMessageId := ifTruthy (in_userMessageId i);
  requestedTurnId := ifTruthy (in_requestedTurnId i);
  sessionId := in_sessionId i;
  agentName := in_agentName i;
  source := default src_api (in_source i);
  status := queued;
  message := in_message i;
  channelContext := m_channelContext (in_message i);
  model := in_model i;
  createdAt := default nowMs (in_createdAt i);
  clientRequestId := ifTruthy (in_clientRequestId i);
  dedupeKey := ifTruthy (in_dedupeKey i);
  expiresAt := in_expiresAt i;
  claimId := None; claimedAt := None; claimOwnerId := None; claimLeaseExpiresAt := None;
|}.

Definition completePermutation (items : list QueueItem) (ids : list jstr) : bool :=
  (0 <? length ids)%nat
  && (length items =? length ids)%nat
  && bool_decide (NoDup ids)
  && forallb (fun id => existsb (fun i => bool_decide (itemId i = id)) items) ids.

(** [queue/policy.ts]. *)
Definition isFutureQueueExpiry (expiresAt : option Z) (nowMs : Z) : bool :=
  match expiresAt with None => true | Some e => (nowMs <? e)%Z end.

(** ** [routing.ts] *)
Definition sourceName (s : QueueMessageSource) : jstr :=
  match s with
  | src_api => js "api" | src_cron => js "cron" | src_task => js "task"
  | src_background_task => js "background-task" | src_team => js "team"
  | src_thread_goal => js "thread-goal" | src_questionnaire => js "questionnaire"
  | src_communication => js "communication" | src_code_review => js "code_review"
  | src_greeting => js "greeting" | src_wechat => js "channel:wechat"
  | src_feishu => js "channel:feishu" | src_telegram => js "channel:telegram"
  end.

Definition queueExecutionSource (i : QueueItem) : QueueMessageSource :=
  if bool_decide (m_source (message i) = Some (js "code_review")) then src_code_review else source i.

Definition routingContext (i : QueueItem) : option (jmap jstr json) :=
  let channel := match m_channelContext (message i) with Some c => Some c | None => channelContext i end in
  if bool_decide (clientIntent (message i) = Some (js "cloud-handoff")) then
    Some (jset (js "cloudHandoff") (JObj [(js "trigger", JStr (js "slash"))]) (default [] channel))
  else if bool_decide (queueExecutionSource i = src_code_review) then
    Some (jset (js "review")
            (JObj [(js "trigger", JStr (js "slash")); (js "scope", JStr (js "local_changes"))])
            (default [] channel))
  else channel.

Definition normalizeRoutingValue (v : option json) : option jstr :=
  match v with
  | Some (JStr s) => if truthy (trim s) then Some (trim s) else None
  | _ => None
  end.

Definition readRoutingValue (context : option (jmap jstr json)) (keys : list jstr) : option jstr :=
  match context with
  | None => None
  | Some c =>
    fold_left (fun value key => match value with
                                | Some v => Some v
                                | None => normalizeRoutingValue (jget key c)
                                end) keys None
  end.

Definition routingFields (i : QueueItem) : list (jstr * option jstr) :=
  let context := routingContext i in
  [(js "source", normalizeRoutingValue (Some (JStr (sourceName (queueExecutionSource i)))));
   (js "platform", readRoutingValue context [js "platform"]);
   (js "client", readRoutingValue context [js "clientName"; js "client_name"; js "client"]);
   (js "agent", normalizeRoutingValue (Some (JStr (agentName i))));
   (js "agentBinding",
     readRoutingValue context [js "agentName"; js "agent_name"; js "agentId"; js "agent_id"]);
   (js "binding", readRoutingValue context [js "bindingId"; js "binding_id"]);
   (js "channel", readRoutingValue context [js "channel"]);
   (js "channelId", readRoutingValue context [js "channel_id"; js "channelId"]);
   (js "thread", readRoutingValue context [js "threadId"; js "thread_id"]);
   (js "chat", readRoutingValue context [js "chatId"; js "chat_id"]);
   (js "scope", readRoutingValue context [js "scope"; js "scopeId"; js "scope_id"]);
   (js "chatType", readRoutingValue context [js "chatType"; js "chat_type"]);
   (js "sender", readRoutingValue context [js "senderId"; js "sender_id"])].

(** [JSON.stringify] of the array of pairs. *)
Definition stringifyField (e : jstr * option jstr) : jstr :=
  js "[" ++ RgFingerprint.stringify_string (fst e) ++ js ","
    ++ match snd e with Some v => RgFingerprint.stringify_string v | None => js "null" end ++ js "]".

Definition queueRoutingFingerprint (i : QueueItem) : jstr :=
  js "queue-routing/v1:" ++ js "[" ++ join (js ",") (map stringifyField (routingFields i)) ++ js "]".

Definition queueRoutingProvenance (i : QueueItem) : QueueRoutingProvenance := {|
  p_source := queueExecutionSource i;
  p_routingFingerprint := queueRoutingFingerprint i;
  sourceContext := routingContext i;
|}.

(** ** Items with one aspect changed: [{...item, ...}] *)
Definition with_status_claim (st : QueueItemStatus) (cid : option jstr) (at_ : option Z)
    (owner : option jstr) (lease : option Z) (i : QueueItem) : QueueItem := {|
  deliveryAttempts := deliveryAttempts i; immediateSendBatch := immediateSendBatch i;
  itemId := itemId i; userMessageId := userMessageId i; requestedTurnId := requestedTurnId i;
  sessionId := sessionId i; agentName := agentName i; source := source i; status := st;
  message := message i; channelContext := channelContext i; model := model i;
  createdAt := createdAt i; clientRequestId := clientRequestId i; dedupeKey := dedupeKey i;
  expiresAt := expiresAt i; claimId := cid; claimedAt := at_; claimOwnerId := owner;
  claimLeaseExpiresAt := lease |}.

Definition withoutClaim (i : QueueItem) : QueueItem := with_status_claim queued None None None None i.

Definition with_deliveryAttempts (l : list DeliveryAttempt) (i : QueueItem) : QueueItem := {|
  deliveryAttempts := Some l; immediateSendBatch := immediateSendBatch i;
  itemId := itemId i; userMessageId := userMessageId i; requestedTurnId := requestedTurnId i;
  sessionId := sessionId i; agentName := agentName i; source := source i; status := status i;
  message := message i; channelContext := channelContext i; model := model i;
  createdAt := createdAt i; clientRequestId := clientRequestId i; dedupeKey := dedupeKey i;
  expiresAt := expiresAt i; claimId := claimId i; claimedAt := claimedAt i;
  claimOwnerId := claimOwnerId i; claimLeaseExpiresAt := claimLeaseExpiresAt i |}.

(** The fields an edit may change: source, turn, message, context, model, expiry. *)
Definition with_edit (src : QueueMessageSource) (turn : option jstr) (m : QueueMessageInput)
    (ctx : option QueueChannelContext) (md : option QueueModelOverride) (ex : option Z)
    (i : QueueItem) : QueueItem := {|
  deliveryAttempts := deliveryAttempts i; immediateSendBatch := immediateSendBatch i;
  itemId := itemId i; userMessageId := userMessageId i; requestedTurnId := turn;
  sessionId := sessionId i; agentName := agentName i; source := src; status := status i;
  message := m; channelContext := ctx; model := md;
  createdAt := createdAt i; clientRequestId := clientRequestId i; dedupeKey := dedupeKey i;
  expiresAt := ex; claimId := claimId i; claimedAt := claimedAt i;
  claimOwnerId := claimOwnerId i; claimLeaseExpiresAt := claimLeaseExpiresAt i |}.

Definition with_source (s : QueueMessageSource) (i : QueueItem) : QueueItem :=
  with_edit s (requestedTurnId i) (message i) (channelContext i) (model i) (expiresAt i) i.

Definition with_requestedTurnId (t : jstr) (i : QueueItem) : QueueItem :=
  with_edit (source i) (Some t) (message i) (channelContext i) (model i) (expiresAt i) i.

Definition with_clientIntent (ci : option jstr) (m : QueueMessageInput) : QueueMessageInput := {|
  content := content m; attachments := attachments m; inputSafetyDecision := inputSafetyDecision m;
  displayAttachments := displayAttachments m; hideUserMessage := hideUserMessage m;
  displayContent := displayContent m; clientIntent := ci; queueItemId := queueItemId m;
  m_source := m_source m; origin := origin m; quotedMessage := quotedMessage m;
  m_channelContext := m_channelContext m |}.

Definition replaceItemMessage (i : QueueItem) (m : QueueMessageInput) : QueueItem :=
  let replacement :=
    match clientIntent (message i) with Some ci => with_clientIntent (Some ci) m | None => m end in
  with_edit (source i) (requestedTurnId i) replacement (m_channelContext replacement) (model i)
    (expiresAt i) i.

(** [updateQueued]: [{...messageUpdated, ...modelUpdate(input), ...expiresAt}]. *)
Definition applyUpdate (u : QueueUpdateInput) (i : QueueItem) : QueueItem :=
  let j := match u_message u with Some m => replaceItemMessage i m | None => i end in
  with_edit (source j) (requestedTurnId j) (message j) (channelContext j)
    (match u_model u with model_absent => model j | model_null => None | model_set m => Some m end)
    (match u_expiresAt u with Some e => Some e | None => expiresAt j end) j.

Definition expired (i : QueueItem) (nowMs : Z) : bool :=
  match expiresAt i with Some e => (e <=? nowMs)%Z | None => false end.
