(* ===== verification/QueueRepo.v ===== *)
(** * The session queue: the repository over its tables

    [session-system/queue/repo/drizzle.ts], [readiness.ts] and
    [turn-priority-fence.ts].  The database is the tables the code touches: the
    item rows in the order of their [AUTOINCREMENT] id with every column, the
    pauses, the migration markers and the legacy queues; the tables of the turn
    system are one opaque component, reached through the interfaces the code
    gets ([QueueClaimAcceptanceLookup], [QueueEnqueueAdmission]).

    A method is a state transformer that may throw; [dataJson] holds the value
    whose JSON text the column holds, and [decodeQueueRow] checks it again as
    the code does.  An exception drops the new state, as the rollback of an
    immediate transaction does.  A clock reading, the identifier generator and
    the admission ports are in [QueueOptions]. *)
From S2P Require Import Prelude JsValue QueueModel.

(** ** Tables *)
Record Columns := {
  k_sessionId : jstr;
  k_itemId : jstr;
  k_status : QueueItemStatus;
  k_createdAtMs : Z;
  dataJson : QueueItem;
  k_source : QueueMessageSource;
  k_clientRequestId : option jstr;
  k_dedupeKey : option jstr;
  k_expiresAtMs : option Z;
  k_claimId : option jstr;
  k_claimLeaseExpiresAtMs : option Z;
  k_routingFingerprint : jstr;
}.

Definition Row : Type := nat * Columns.

Definition storage (i : QueueItem) : Columns := {|
  k_sessionId := sessionId i; k_itemId := itemId i; k_status := status i;
  k_createdAtMs := createdAt i; dataJson := i; k_source := source i;
  k_clientRequestId := clientRequestId i; k_dedupeKey := dedupeKey i;
  k_expiresAtMs := expiresAt i; k_claimId := claimId i;
  k_claimLeaseExpiresAtMs := claimLeaseExpiresAt i;
  k_routingFingerprint := queueRoutingFingerprint i;
|}.

Definition decodeQueueRow (r : Row) : QueueError + QueueItem :=
  let c := snd r in
  let i := dataJson c in
  if negb (isQueueItem i)
     || negb (bool_decide (sessionId i = k_sessionId c))
     || negb (bool_decide (itemId i = k_itemId c))
     || negb (bool_decide (status i = k_status c))
     || negb (createdAt i =? k_createdAtMs c)%Z
  then inl (QueueDataCorruptionError (k_sessionId c) (k_itemId c))
  else inr i.

Section Repository.
(** The tables of the turn system. *)
Context {T : Type}.

Record AppDb := {
  queueItems : list Row;
  nextId : nat;
  queuePauses : jmap jstr QueuePause;
  queueRowMigrations : jmap jstr Z;
  legacyQueues : jmap jstr jstr;
  turns : T;
}.

Record QueueOptions := {
  nowMs : Z;                       (** the clock inside the operation *)
  markMs : Z;                      (** the reading stored in the marker *)
  makeId : jstr -> jstr;
  claimOwner : jstr;
  claimLeaseMsOption : option Z;
  isClaimOwnerAlive : jstr -> bool;
  rejectionInTransaction : T -> jstr -> Z -> option QueueEnqueueAdmissionRejection;
  isAcceptedInTransaction : T -> QueueClaimAcceptanceQuery -> bool;
  markAcknowledgedInTransaction : T -> QueueClaimAcceptanceQuery -> option T;
}.

Definition DEFAULT_CLAIM_LEASE_MS : Z := 30000%Z.
Definition positiveInteger (value : option Z) (fallback : Z) : Z :=
  match value with Some v => if (0 <? v)%Z then v else fallback | None => fallback end.
Definition claimLeaseMs (o : QueueOptions) : Z := positiveInteger (claimLeaseMsOption o) DEFAULT_CLAIM_LEASE_MS.

(** ** State, exceptions and the queries *)
Definition M (A : Type) : Type := AppDb -> QueueError + (A * AppDb).

#[export] Instance M_ret : MRet M := fun _ a db => inr (a, db).
#[export] Instance M_bind : MBind M := fun _ _ k m db =>
  match m db with inl e => inl e | inr (a, db') => k a db' end.

Definition throw {A} (e : QueueError) : M A := fun _ => inl e.
Definition reads {A} (f : AppDb -> A) : M A := fun db => inr (f db, db).
Definition lift {A} (x : QueueError + A) : M A := fun db =>
  match x with inl e => inl e | inr a => inr (a, db) end.

Fixpoint mapM_ {A B} (f : A -> M B) (l : list A) : M (list B) :=
  match l with
  | [] => mret []
  | x :: l' => y ← f x; ys ← mapM_ f l'; mret (y :: ys)
  end.

Definition set_items (f : list Row -> list Row) (db : AppDb) : AppDb := {|
  queueItems := f (queueItems db); nextId := nextId db; queuePauses := queuePauses db;
  queueRowMigrations := queueRowMigrations db; legacyQueues := legacyQueues db; turns := turns db |}.
Definition set_pauses (f : jmap jstr QueuePause -> jmap jstr QueuePause) (db : AppDb) : AppDb := {|
  queueItems := queueItems db; nextId := nextId db; queuePauses := f (queuePauses db);
  queueRowMigrations := queueRowMigrations db; legacyQueues := legacyQueues db; turns := turns db |}.
Definition set_marks (f : jmap jstr Z -> jmap jstr Z) (g : jmap jstr jstr -> jmap jstr jstr)
    (db : AppDb) : AppDb := {|
  queueItems := queueItems db; nextId := nextId db; queuePauses := queuePauses db;
  queueRowMigrations := f (queueRowMigrations db); legacyQueues := g (legacyQueues db);
  turns := turns db |}.
Definition set_turns (t : T) (db : AppDb) : AppDb := {|
  queueItems := queueItems db; nextId := nextId db; queuePauses := queuePauses db;
  queueRowMigrations := queueRowMigrations db; legacyQueues := legacyQueues db; turns := t |}.
(** A new row takes the next id. *)
Definition add_row (c : Columns) (db : AppDb) : AppDb := {|
  queueItems := queueItems db ++ [(nextId db, c)]; nextId := S (nextId db);
  queuePauses := queuePauses db; queueRowMigrations := queueRowMigrations db;
  legacyQueues := legacyQueues db; turns := turns db |}.

Definition modify (f : AppDb -> AppDb) : M unit := fun db => inr (tt, f db).

(** [WHERE]-clauses *)
Definition inSession (s : jstr) (r : Row) : bool := bool_decide (k_sessionId (snd r) = s).
Definition hasItem (s i : jstr) (r : Row) : bool := inSession s r && bool_decide (k_itemId (snd r) = i).
Definition hasStatus (st : QueueItemStatus) (r : Row) : bool := bool_decide (k_status (snd r) = st).
Definition hasSource (src : QueueMessageSource) (r : Row) : bool := bool_decide (k_source (snd r) = src).
(** [expires_at_ms IS NOT NULL AND expires_at_ms <= now]. *)
Definition expiredAt (now : Z) (r : Row) : bool :=
  match k_expiresAtMs (snd r) with Some e => (e <=? now)%Z | None => false end.

(** [select ... where p order by id] with the rows decoded. *)
Definition selectRows (p : Row -> bool) : M (list Row) := reads (fun db => List.filter p (queueItems db)).
Definition selectItems (p : Row -> bool) : M (list QueueItem) :=
  rows ← selectRows p;
  mapM_ (fun r => lift (decodeQueueRow r)) rows.
(** [... .get()] *)
Definition selectFirst (p : Row -> bool) : M (option QueueItem) :=
  rows ← selectRows p;
  match rows with
  | [] => mret None
  | r :: _ => i ← lift (decodeQueueRow r); mret (Some i)
  end.
Definition deleteRows (p : Row -> bool) : M unit :=
  modify (set_items (List.filter (fun r => negb (p r)))).

(** [insert] under the unique index on session and item. *)
Definition insertRow (c : Columns) : M unit := fun db =>
  if existsb (hasItem (k_sessionId c) (k_itemId c)) (queueItems db) then inl ConstraintError
  else inr (tt, add_row c db).

(** [insert ... onConflictDoUpdate]: the row keeps its id. *)
Definition write (i : QueueItem) : M unit := fun db =>
  let c := storage i in
  if existsb (hasItem (k_sessionId c) (k_itemId c)) (queueItems db) then
    inr (tt, set_items (map (fun r => if hasItem (k_sessionId c) (k_itemId c) r then (fst r, c) else r)) db)
  else inr (tt, add_row c db).

(** [update ... set storage(item) where (session, item) = previous]. *)
Definition replaceItem (previous i : QueueItem) : M unit := fun db =>
  let at_ := hasItem (sessionId previous) (itemId previous) in
  if existsb (fun r => negb (at_ r) && hasItem (sessionId i) (itemId i) r) (queueItems db)
  then inl ConstraintError
  else inr (tt, set_items (map (fun r => if at_ r then (fst r, storage i) else r)) db).

Fixpoint insertAll (l : list QueueItem) : M unit :=
  match l with
  | [] => mret tt
  | i :: l' => _ ← insertRow (storage i); insertAll l'
  end.

Definition replaceRows (s : jstr) (l : list QueueItem) : M unit :=
  _ ← deleteRows (inSession s); insertAll l.

(** ** Private helpers *)
Definition find (s i : jstr) : M (option QueueItem) := selectFirst (hasItem s i).

Definition rowsByStatus (s : jstr) (st : QueueItemStatus) : M (list QueueItem) :=
  selectItems (fun r => inSession s r && hasStatus st r).

Definition allRows (s : jstr) : M (list QueueItem) := selectItems (inSession s).

Definition deleteItem (s i : jstr) : M unit := deleteRows (hasItem s i).

Fixpoint deleteItems (s : jstr) (l : list QueueItem) : M unit :=
  match l with
  | [] => mret tt
  | i :: l' => _ ← deleteItem s (itemId i); deleteItems s l'
  end.

Definition expiredQueued (s : jstr) (now : Z) (r : Row) : bool :=
  inSession s r && hasStatus queued r && expiredAt now r.

Definition deleteExpired (s : jstr) (now : Z) : M (list QueueItem) :=
  expiredItems ← selectItems (expiredQueued s now);
  _ ← deleteRows (expiredQueued s now);
  mret expiredItems.

Definition queuedApi (s : jstr) (r : Row) : bool := inSession s r && hasStatus queued r && hasSource src_api r.

Definition clearQueuedApi (s : jstr) : M (list QueueItem) :=
  selected ← selectItems (queuedApi s);
  _ ← deleteRows (queuedApi s);
  mret selected.

Definition moveQueuedToFront (i : QueueItem) : M unit :=
  rows ← rowsByStatus (sessionId i) queued;
  let reordered := i :: List.filter (fun j => negb (bool_decide (itemId j = itemId i))) rows in
  _ ← deleteRows (fun r => inSession (sessionId i) r && hasStatus queued r);
  insertAll reordered.

Definition claimRowsWhere (s cid : jstr) (r : Row) : bool :=
  inSession s r && hasStatus claimed r && bool_decide (k_claimId (snd r) = Some cid).

Definition claimRows (s cid : jstr) : M (list QueueItem) := selectItems (claimRowsWhere s cid).

Definition hasClaimed (s : jstr) : M bool :=
  reads (fun db => existsb (fun r => inSession s r && hasStatus claimed r) (queueItems db)).

Definition pendingCountOf (s : jstr) : M nat :=
  reads (fun db => length (List.filter (inSession s) (queueItems db))).

Definition pauseOf (s : jstr) : M (option QueuePause) := reads (fun db => jget s (queuePauses db)).
Definition isPaused (s : jstr) : M bool := reads (fun db => jhas s (queuePauses db)).

Definition executionSnapshot (s : jstr) : M QueueExecutionSnapshot :=
  p ← pauseOf s; n ← pendingCountOf s;
  mret {| pendingCount := n; pause := p |}.

Definition deletePause (s : jstr) : M unit := modify (set_pauses (jdel s)).

Definition reconcilePause (s : jstr) : M unit :=
  n ← pendingCountOf s;
  if (0 <? n)%nat then mret tt else deletePause s.

Definition ensureQueueRowsReady (o : QueueOptions) (s : jstr) : M unit :=
  ready ← reads (fun db => jhas s (queueRowMigrations db));
  if (ready : bool) then mret tt else modify (set_marks (jset s (markMs o)) id).

(** ** Facts *)
Definition Committed (A : Type) : Type := A * list QueueCommittedFact.

Definition removalFact (reason : QueueRemovalReason) (at_ : Z) (i : QueueItem) : QueueCommittedFact :=
  fact_removed (sessionId i) (itemId i) reason at_ None.
Definition enqueueFact (i : QueueItem) : QueueCommittedFact :=
  fact_enqueued (sessionId i) (itemId i) (source i) (ifTruthy (clientRequestId i)) (createdAt i).
Definition requeueFact (i : QueueItem) (at_ : Z) (reason : option jstr) : QueueCommittedFact :=
  fact_requeued (sessionId i) (itemId i) (source i) (ifTruthy (clientRequestId i)) at_ (ifTruthy reason).

Definition isUnpauseFact (s : jstr) (f : QueueCommittedFact) : bool :=
  match f with fact_execution_state s' p => bool_decide (s' = s) && negb p | _ => false end.

Definition withPauseRemovalFact {A} (result : Committed A) (s : jstr) (removed : bool) : Committed A :=
  if negb removed || existsb (isUnpauseFact s) (snd result) then result
  else (fst result, snd result ++ [fact_execution_state s false]).

(** ** Transactions *)
Definition transaction {A} (o : QueueOptions) (s : jstr) (operation : M (Committed A)) : M (Committed A) :=
  _ ← ensureQueueRowsReady o s;
  wasPaused ← isPaused s;
  result ← operation;
  _ ← reconcilePause s;
  nowPaused ← isPaused s;
  mret (withPauseRemovalFact result s (wasPaused && negb nowPaused)).

Definition assertMutationAdmitted (o : QueueOptions) (s : jstr) : M unit := fun db =>
  match rejectionInTransaction o (turns db) s (nowMs o) with
  | Some r => inl (QueueEnqueueAdmissionError s r)
  | None => inr (tt, db)
  end.

Definition mutationTransaction {A} (o : QueueOptions) (s : jstr) (operation : M (Committed A)) :
    M (Committed A) :=
  _ ← assertMutationAdmitted o s;
  transaction o s operation.

(** Every operation drops what has expired first and reports it. *)
Definition afterExpiry {A} (s : jstr) (now : Z)
    (k : list QueueCommittedFact -> M (Committed A)) : M (Committed A) :=
  expiredItems ← deleteExpired s now;
  k (map (removalFact expired_reason now) expiredItems).

(** ** Reading *)
Definition listPendingSessionIds (db : AppDb) : list jstr :=
  sort_strings (remove_dups (map (fun r => k_sessionId (snd r)) (queueItems db))).

Definition snapshot (o : QueueOptions) (s : jstr) : M (Committed QueueExecutionSnapshot) :=
  transaction o s (afterExpiry s (nowMs o) (fun facts =>
    _ ← reconcilePause s;
    snap ← executionSnapshot s;
    mret (snap, facts))).

Definition list_ (o : QueueOptions) (s : jstr) : M (Committed (list QueueItem)) :=
  transaction o s (afterExpiry s (nowMs o) (fun facts =>
    rows ← rowsByStatus s queued; mret (rows, facts))).

Definition findByClientRequest (s c : jstr) : M (option QueueItem) :=
  selectFirst (fun r => inSession s r && bool_decide (k_clientRequestId (snd r) = Some c)).

Definition findByDedupeKey (s d : jstr) : M (option QueueItem) :=
  selectFirst (fun r => inSession s r && hasStatus queued r && bool_decide (k_dedupeKey (snd r) = Some d)).

Definition findByClientRequestId (o : QueueOptions) (s c : jstr) : M (Committed (option QueueItem)) :=
  transaction o s (afterExpiry s (nowMs o) (fun facts =>
    i ← findByClientRequest s c; mret (i, facts))).

Definition get (o : QueueOptions) (s i : jstr) : M (Committed (option QueueItem)) :=
  transaction o s (afterExpiry s (nowMs o) (fun facts =>
    x ← find s i; mret (x, facts))).

(** ** Pausing *)
Definition pauseIfPending (o : QueueOptions) (s : jstr) (c : QueuePauseCause) (turn : jstr) :
    M (Committed QueueExecutionSnapshot) :=
  transaction o s (afterExpiry s (nowMs o) (fun facts =>
    _ ← reconcilePause s;
    n ← pendingCountOf s;
    p ← isPaused s;
    let inserted := (0 <? n)%nat && negb p in
    _ ← (if inserted
         then modify (set_pauses (jset s {| cause := c; triggerTurnId := turn; pausedAtMs := nowMs o |}))
         else mret tt);
    snap ← executionSnapshot s;
    mret (snap, facts ++ if inserted then [fact_execution_state s true] else []))).

Definition continueQueue (o : QueueOptions) (s : jstr) (expectedPause : option QueuePause) :
    M (Committed QueueExecutionSnapshot) :=
  transaction o s (afterExpiry s (nowMs o) (fun facts =>
    _ ← reconcilePause s;
    current ← pauseOf s;
    let deleted :=
      match current, expectedPause with
      | None, _ => false
      | Some _, None => true
      | Some p, Some e => bool_decide (p = e)
      end in
    _ ← (if deleted then deletePause s else mret tt);
    snap ← executionSnapshot s;
    mret (snap, facts ++ if deleted then [fact_execution_state s false] else []))).

(** ** Enqueueing *)
Definition attachRequestedTurnId (i : QueueItem) (t : option jstr) : M QueueItem :=
  match t with
  | Some (c :: r) =>
    if otruthy (requestedTurnId i) then mret i
    else let updated := with_requestedTurnId (c :: r) i in _ ← write updated; mret updated
  | _ => mret i
  end.

Definition enqueueResult (i : QueueItem) : M QueueEnqueueResult := fun db =>
  let p :=
    match status i with
    | claimed => 1
    | queued =>
      match List.filter (hasItem (sessionId i) (itemId i)) (queueItems db) with
      | [] => 1
      | row :: _ =>
        length (List.filter (fun r => inSession (sessionId i) r && hasStatus queued r
                                      && (fst r <=? fst row)%nat) (queueItems db))
      end
    end in
  inr ({| r_item := i; position := p |}, db).

Definition replayEnqueue (input : QueueEnqueueInput) (found : QueueItem)
    (facts : list QueueCommittedFact) : M (Committed (option QueueEnqueueResult)) :=
  existing ← attachRequestedTurnId found (in_requestedTurnId input);
  _ ← (if in_front input then moveQueuedToFront existing else mret tt);
  r ← enqueueResult existing;
  mret (Some r, facts).

(** One pass of the loop over the members of an immediate-send batch. *)
Definition settleMember (s : jstr) (now : Z) (m : BatchMember) : M (list QueueCommittedFact) :=
  let id := match queueClaim m with Some c => Some (qc_itemId c) | None => sourceMessageId m end in
  match id with
  | Some (ch0 :: rest) =>
    existing ← find s (ch0 :: rest);
    match queueClaim m, existing with
    | Some c, None => mret []
    | Some c, Some i =>
      if negb (bool_decide (claimId i = Some (qc_claimId c))) then mret []
      else if negb (bool_decide (status i = claimed)) then mret []
      else if otruthy (userMessageId i) && negb (bool_decide (userMessageId i = Some (b_userMessageId m)))
      then throw TypeError
      else _ ← deleteItem (sessionId i) (itemId i); mret [removalFact injected now i]
    | None, None => mret []
    | None, Some i =>
      if negb (bool_decide (status i = claimed)) then mret []
      else if otruthy (userMessageId i) && negb (bool_decide (userMessageId i = Some (b_userMessageId m)))
      then throw TypeError
      else _ ← deleteItem (sessionId i) (itemId i); mret [removalFact injected now i]
    end
  | _ => mret []
  end.

Fixpoint settleBatchMemberClaims (s : jstr) (now : Z) (ms : list BatchMember) :
    M (list QueueCommittedFact) :=
  match ms with
  | [] => mret []
  | m :: ms' =>
    f ← settleMember s now m;
    fs ← settleBatchMemberClaims s now ms';
    mret (f ++ fs)
  end.

(** The restored identity, with the claimed row it displaces. *)
Definition restorableIdentity (s : jstr) (id : option jstr) : M (option (jstr * option QueueItem)) :=
  match id with
  | Some (ch0 :: rest) =>
    existing ← find s (ch0 :: rest);
    match existing with
    | None => mret (Some (ch0 :: rest, None))
    | Some i =>
      if negb (bool_decide (status i = claimed)) then mret None
      else _ ← deleteItem s (itemId i); mret (Some (ch0 :: rest, Some i))
    end
  | _ => mret None
  end.

Definition optionalFact (o : option QueueItem) (f : QueueItem -> QueueCommittedFact) :
    list QueueCommittedFact :=
  match o with Some i => [f i] | None => [] end.

Definition insertEnqueue (o : QueueOptions) (input : QueueEnqueueInput) (now : Z)
    (facts : list QueueCommittedFact) : M (Committed (option QueueEnqueueResult)) :=
  let s := in_sessionId input in
  batchClaims ← settleBatchMemberClaims s now
    (match in_immediateSendBatch input with Some b => members b | None => [] end);
  restored ← restorableIdentity s (in_itemId input);
  let item := makeQueued input
    (match restored with Some (id, _) => id | None => makeId o (js "queue") end) now in
  replaced ← (match in_dedupeKey input with
              | Some (c :: r) => findByDedupeKey s (c :: r)
              | _ => mret None
              end);
  _ ← (match replaced with Some previous => replaceItem previous item | None => write item end);
  _ ← (if in_front input then moveQueuedToFront item else mret tt);
  r ← enqueueResult item;
  mret (Some r,
    facts ++ batchClaims
    ++ optionalFact (match restored with Some (_, d) => d | None => None end) (removalFact cancelled now)
    ++ optionalFact replaced (removalFact cancelled now)
    ++ [enqueueFact item]).

Definition enqueueInTransaction (o : QueueOptions) (input : QueueEnqueueInput) :
    M (Committed (option QueueEnqueueResult)) :=
  let s := in_sessionId input in
  afterExpiry s (nowMs o) (fun facts =>
    if match in_expiresAt input with Some e => (e <=? nowMs o)%Z | None => false end
    then mret (None, facts)
    else
      busy ← hasClaimed s;
      if in_front input && negb (otruthy (in_itemId input)) && busy then mret (None, facts)
      else
        found ← (match in_clientRequestId input with
                 | Some (c :: r) => findByClientRequest s (c :: r)
                 | _ => mret None
                 end);
        match found with
        | Some i => replayEnqueue input i facts
        | None => insertEnqueue o input (nowMs o) facts
        end).

Definition enqueue (o : QueueOptions) (input : QueueEnqueueInput) :
    M (Committed (option QueueEnqueueResult)) :=
  if negb (validEnqueue input) then mret (None, [])
  else mutationTransaction o (in_sessionId input) (enqueueInTransaction o input).

(** ** Editing *)
Inductive EditResult := edited (i : QueueItem) | edit_invalid | not_editable | not_found.

Definition updateQueued (o : QueueOptions) (u : QueueUpdateInput) : M (Committed EditResult) :=
  if negb (validUpdate u) then mret (edit_invalid, [])
  else mutationTransaction o (u_sessionId u) (afterExpiry (u_sessionId u) (nowMs o) (fun facts =>
    if match u_expiresAt u with Some e => (e <=? nowMs o)%Z | None => false end
    then mret (edit_invalid, facts)
    else
      item ← find (u_sessionId u) (u_itemId u);
      match item with
      | None => mret (not_found, facts)
      | Some i =>
        if negb (bool_decide (status i = queued)) then mret (not_editable, facts)
        else if negb (bool_decide (source i = src_api)) then mret (not_editable, facts)
        else let updated := applyUpdate u i in
             _ ← write updated; mret (edited updated, facts)
      end)).

Definition cancel (o : QueueOptions) (s id : jstr) : M (Committed EditResult) :=
  mutationTransaction o s (afterExpiry s (nowMs o) (fun facts =>
    item ← find s id;
    match item with
    | None => mret (not_found, facts)
    | Some i =>
      if negb (bool_decide (status i = queued)) then mret (not_editable, facts)
      else _ ← deleteItem s id; mret (edited i, facts ++ [removalFact cancelled (nowMs o) i])
    end)).

Definition clearUserManageable (o : QueueOptions) (s : jstr) : M (Committed (list QueueItem)) :=
  mutationTransaction o s (afterExpiry s (nowMs o) (fun facts =>
    clearedItems ← clearQueuedApi s;
    n ← pendingCountOf s;
    p ← isPaused s;
    let clearedPause := (n =? 0)%nat && p in
    _ ← (if (n =? 0)%nat then deletePause s else mret tt);
    mret (clearedItems,
      facts ++ map (removalFact cancelled (nowMs o)) clearedItems
      ++ if clearedPause then [fact_execution_state s false] else []))).

Definition promoteQueuedSource (o : QueueOptions) (s id : jstr) (src : QueueMessageSource) :
    M (Committed EditResult) :=
  mutationTransaction o s (afterExpiry s (nowMs o) (fun facts =>
    item ← find s id;
    match item with
    | None => mret (not_found, facts)
    | Some i =>
      if negb (bool_decide (status i = queued)) then mret (not_editable, facts)
      else let updated := with_source src i in
           _ ← write updated; mret (edited updated, facts)
    end)).

Definition itemById (items : list QueueItem) (id : jstr) : option QueueItem :=
  jget id (jof_list (map (fun i => (itemId i, i)) items)).

Definition reorder (o : QueueOptions) (s : jstr) (ids : list jstr) :
    M (Committed (option (list QueueItem))) :=
  mutationTransaction o s (afterExpiry s (nowMs o) (fun facts =>
    busy ← hasClaimed s;
    if (busy : bool) then mret (None, facts)
    else
      items ← rowsByStatus s queued;
      if negb (completePermutation items ids) then mret (None, facts)
      else let reordered := omap (itemById items) ids in
           _ ← replaceRows s reordered; mret (Some reordered, facts))).

(** ** Claims *)
Definition onlyQueuedItem (o : option QueueItem) : option QueueItem :=
  match o with Some i => if bool_decide (status i = queued) then Some i else None | None => None end.

Definition claimCandidate (c : QueueClaimInput) : M (option QueueItem) :=
  if otruthy (c_itemId c) then
    i ← find (c_sessionId c) (default [] (c_itemId c)); mret (onlyQueuedItem i)
  else
    rows ← rowsByStatus (c_sessionId c) queued;
    match excludeItemIds c with
    | Some (x :: xs) =>
      mret (head (List.filter (fun i => negb (bool_decide (itemId i ∈ x :: xs))) rows))
    | _ => mret (head rows)
    end.

Definition claim (o : QueueOptions) (i : QueueItem) (cid : jstr) (at_ lease : Z) : M QueueItem :=
  let c := with_status_claim claimed (Some cid) (Some at_) (Some (claimOwner o)) (Some lease) i in
  _ ← write c; mret c.

Definition claimSelection (c : QueueClaimInput) : Selection :=
  if otruthy (c_itemId c) then sel_exact
  else if continuePaused c then sel_continued_fifo else sel_fifo.

Definition dispatchItem (i : QueueItem) (sel : Selection) : M QueueDispatchItem :=
  match claimId i, claimOwnerId i, claimLeaseExpiresAt i with
  | Some (c :: cr), Some (w :: wr), Some lease =>
    mret {| d_claimId := c :: cr; d_sessionId := sessionId i; d_source := source i;
            d_claimOwnerId := w :: wr; d_claimLeaseExpiresAt := lease; selection := sel; d_item := i;
            d_message := message i; d_clientRequestId := ifTruthy (clientRequestId i);
            d_provenance := queueRoutingProvenance i |}
  | _, _, _ => throw TypeError
  end.

Definition claimNext (o : QueueOptions) (c : QueueClaimInput) :
    M (Committed (option QueueDispatchItem)) :=
  let s := c_sessionId c in
  let now := default (nowMs o) (c_nowMs c) in
  transaction o s (afterExpiry s now (fun facts =>
    paused ← isPaused s;
    if negb (otruthy (c_itemId c)) && negb (continuePaused c) && paused then mret (None, facts)
    else
      busy ← hasClaimed s;
      if (busy : bool) then mret (None, facts)
      else
        selected ← claimCandidate c;
        match selected with
        | None => mret (None, facts)
        | Some i =>
          if match allowedSources c with
             | Some l => negb (bool_decide (source i ∈ l))
             | None => false
             end
          then mret (None, facts)
          else
            claimedItem ← claim o i (makeId o (js "claim")) now (now + claimLeaseMs o)%Z;
            d ← dispatchItem claimedItem (claimSelection c);
            mret (Some d, facts)
        end)).

Definition deliver (cid turn : jstr) (i : QueueItem) : M unit :=
  let attempts := default [] (deliveryAttempts i) in
  match List.filter (fun a => bool_decide (da_claimId a = cid)) attempts with
  | existing :: _ =>
    if negb (bool_decide (da_turnId existing = turn)) then throw PlainError else mret tt
  | [] => write (with_deliveryAttempts (attempts ++ [{| da_claimId := cid; da_turnId := turn |}]) i)
  end.

Definition prepareDelivery (o : QueueOptions) (s cid turn : jstr) : M unit :=
  if negb (truthy turn) then throw TypeError
  else
    _ ← transaction o s (
      items ← claimRows s cid;
      match items with
      | [] => throw (QueueClaimNotFoundError s cid)
      | _ => _ ← mapM_ (deliver cid turn) items; mret (tt, [])
      end);
    mret tt.

Definition claimQuery (items : list QueueItem) (cid : jstr) (turn : option jstr) :
    M QueueClaimAcceptanceQuery :=
  match items with
  | [] => throw (QueueClaimNotFoundError [] cid)
  | first :: _ =>
    mret {| aq_sessionId := sessionId first; aq_claimId := cid; aq_source := queueExecutionSource first;
            aq_queueItemIds := map itemId items; aq_turnId := ifTruthy turn |}
  end.

Definition markAcknowledged (o : QueueOptions) (q : QueueClaimAcceptanceQuery) : M unit := fun db =>
  match markAcknowledgedInTransaction o (turns db) q with
  | None => inl PlainError
  | Some t => inr (tt, set_turns t db)
  end.

Definition acknowledgeClaim (o : QueueOptions) (s cid : jstr) (turn : option jstr) :
    M (Committed (list QueueItem)) :=
  if negb (truthy cid) then throw (QueueClaimNotFoundError s cid)
  else transaction o s (afterExpiry s (nowMs o) (fun facts =>
    items ← claimRows s cid;
    match items with
    | [] => throw (QueueClaimNotFoundError s cid)
    | _ =>
      query ← claimQuery items cid turn;
      ok ← reads (fun db => isAcceptedInTransaction o (turns db) query);
      if negb (ok : bool) then throw (QueueClaimNotAcceptedError s cid turn)
      else
        _ ← markAcknowledged o query;
        _ ← deleteItems s items;
        mret (items, facts ++ map (removalFact accepted (nowMs o)) items)
    end)).

Definition release (i : QueueItem) : M QueueItem :=
  let r := withoutClaim i in _ ← write r; mret r.

(** Back to the queue, or gone when the item has expired meanwhile: the items
    released and the facts. *)
Fixpoint releaseItems (s : jstr) (now : Z) (reason : option jstr) (items : list QueueItem) :
    M (list QueueItem * list QueueCommittedFact) :=
  match items with
  | [] => mret ([], [])
  | i :: rest =>
    if expired i now then
      _ ← deleteItem s (itemId i);
      '(released, facts) ← releaseItems s now reason rest;
      mret (released, removalFact expired_reason now i :: facts)
    else
      r ← release i;
      '(released, facts) ← releaseItems s now reason rest;
      mret (r :: released, requeueFact r now reason :: facts)
  end.

Definition releaseClaim (o : QueueOptions) (s cid : jstr) (reason : option jstr) :
    M (Committed (list QueueItem)) :=
  if negb (truthy cid) then mret ([], [])
  else transaction o s (afterExpiry s (nowMs o) (fun facts =>
    items ← claimRows s cid;
    '(released, more) ← releaseItems s (nowMs o) reason items;
    mret (released, facts ++ more))).

Definition removeClaimed (o : QueueOptions) (s cid : jstr)
    (fact : Z -> QueueItem -> QueueCommittedFact) : M (Committed (list QueueItem)) :=
  if negb (truthy cid) then throw (QueueClaimNotFoundError s cid)
  else transaction o s (afterExpiry s (nowMs o) (fun facts =>
    items ← claimRows s cid;
    match items with
    | [] => throw (QueueClaimNotFoundError s cid)
    | _ =>
      _ ← deleteItems s items;
      mret (items, facts ++ map (fact (nowMs o)) items)
    end)).

Definition rejectClaim (o : QueueOptions) (s cid reason : jstr) : M (Committed (list QueueItem)) :=
  removeClaimed o s cid (fun at_ i => fact_removed (sessionId i) (itemId i) admission_rejected at_ (Some reason)).

Definition cancelClaim (o : QueueOptions) (s cid : jstr) : M (Committed (list QueueItem)) :=
  removeClaimed o s cid (removalFact cancelled).

Inductive ConsumeReason := consume_accepted | consume_injected.

Definition consumeClaim (o : QueueOptions) (s cid : jstr) (r : ConsumeReason) :
    M (Committed (list QueueItem)) :=
  removeClaimed o s cid
    (removalFact match r with consume_accepted => accepted | consume_injected => injected end).

(** ** Recovery *)
Definition activeClaim (o : QueueOptions) (scope : option Z) (i : QueueItem) : bool :=
  if match scope, claimedAt i with
     | Some b, Some t => (t <=? b)%Z
     | _, _ => false
     end
  then false
  else otruthy (claimOwnerId i)
       && match claimedAt i with
          | None => false
          | Some t => (nowMs o <? default (t + claimLeaseMs o) (claimLeaseExpiresAt i))%Z
          end
       && isClaimOwnerAlive o (default [] (claimOwnerId i)).

Fixpoint groupClaims (items : list QueueItem) (m : jmap jstr (list QueueItem)) : jmap jstr (list QueueItem) :=
  match items with
  | [] => m
  | i :: rest =>
    groupClaims rest
      (match status i, claimId i with
       | claimed, Some (c :: r) => jset (c :: r) (default [] (jget (c :: r) m) ++ [i]) m
       | _, _ => m
       end)
  end.

Definition groupRecoverable (o : QueueOptions) (scope : option Z) (items : list QueueItem) :
    jmap jstr (list QueueItem) :=
  List.filter (fun e => negb (existsb (activeClaim o scope) (snd e))) (groupClaims items []).

Record RecoveryResult := { acknowledged : list QueueItem; released : list QueueItem }.

Definition pendingDelivery (cid : jstr) (i : QueueItem) : bool :=
  match last (default [] (deliveryAttempts i)) with
  | Some a => bool_decide (da_claimId a = cid)
  | None => false
  end.

Fixpoint recoverGroups (o : QueueOptions) (s : jstr) (groups : jmap jstr (list QueueItem)) :
    M (RecoveryResult * list QueueCommittedFact) :=
  match groups with
  | [] => mret ({| acknowledged := []; released := [] |}, [])
  | (cid, items) :: rest =>
    query ← claimQuery items cid None;
    ok ← reads (fun db => isAcceptedInTransaction o (turns db) query);
    if negb (existsb (pendingDelivery cid) items) && ok then
      _ ← markAcknowledged o query;
      _ ← deleteItems s items;
      '(res, facts) ← recoverGroups o s rest;
      mret ({| acknowledged := items ++ acknowledged res; released := released res |},
            map (removalFact accepted (nowMs o)) items ++ facts)
    else
      '(back, more) ← releaseItems s (nowMs o) None items;
      '(res, facts) ← recoverGroups o s rest;
      mret ({| acknowledged := acknowledged res; released := back ++ released res |}, more ++ facts)
  end.

Definition recoverClaims (o : QueueOptions) (s : jstr) (scope : option Z) : M (Committed RecoveryResult) :=
  transaction o s (afterExpiry s (nowMs o) (fun facts =>
    items ← rowsByStatus s claimed;
    '(res, more) ← recoverGroups o s (groupRecoverable o scope items);
    mret (res, facts ++ more))).

(** ** Whole sessions *)
(** SQLite's [trim] strips spaces only. *)
Definition sqlTrim (s : jstr) : jstr :=
  rev (dropWhile (fun c => (c =? 32)%N) (rev (dropWhile (fun c => (c =? 32)%N) s))).

Definition composerInjectable (s : jstr) (r : Row) : bool :=
  queuedApi s r
  && truthy (sqlTrim (content (message (dataJson (snd r)))))
  && match attachments (message (dataJson (snd r))) with [] => true | _ => false end.

Definition drainComposerInjectable (o : QueueOptions) (s : jstr) : M (Committed (list QueueItem)) :=
  transaction o s (afterExpiry s (nowMs o) (fun facts =>
    selected ← selectItems (composerInjectable s);
    _ ← deleteItems s selected;
    mret (selected, facts ++ map (removalFact composer_transferred (nowMs o)) selected))).

Definition replaceSession (o : QueueOptions) (s : jstr) (items : list QueueItem) : M (Committed unit) :=
  if existsb (fun i => negb (bool_decide (sessionId i = s)) || negb (isQueueItem i)) items
  then throw TypeError
  else
    _ ← replaceRows s items;
    _ ← modify (set_marks (jset s (markMs o)) (jdel s));
    _ ← reconcilePause s;
    mret (tt, []).

Definition deleteSession (o : QueueOptions) (s : jstr) : M (Committed unit) :=
  transaction o s (afterExpiry s (nowMs o) (fun facts =>
    remaining ← allRows s;
    _ ← deleteRows (inSession s);
    _ ← modify (set_marks (jdel s) (jdel s));
    mret (tt, facts ++ map (removalFact cancelled (nowMs o)) remaining))).

(** ** The fence of turn admission: [turn-priority-fence.ts] *)
Inductive TurnAdmissionPriority :=
  | prio_fifo (candidateCreatedAtMs : Z) (queueClaimId : option jstr) (yielded : option (list jstr))
  | prio_continued_head (queueClaimId : jstr) (yielded : option (list jstr))
  | prio_selected_item (queueClaimId : jstr)
  | prio_retry_continuation
  | prio_paused_queue_send
  | prio_user_input_resume
  | prio_turn_continuation.

Definition bypassesQueuePause (p : TurnAdmissionPriority) : bool :=
  match p with prio_fifo _ _ _ => false | _ => true end.

Definition bypassesQueueOrder (p : TurnAdmissionPriority) : bool :=
  match p with
  | prio_retry_continuation | prio_paused_queue_send | prio_user_input_resume | prio_turn_continuation => true
  | _ => false
  end.

Definition queueClaimIdOf (p : TurnAdmissionPriority) : option jstr :=
  match p with
  | prio_fifo _ c _ => c
  | prio_continued_head c _ | prio_selected_item c => Some c
  | _ => None
  end.

Definition yieldedOf (p : TurnAdmissionPriority) : list jstr :=
  match p with prio_fifo _ _ (Some y) | prio_continued_head _ (Some y) => y | _ => [] end.

Definition claimedQueueItemBlocks (db : AppDb) (s : jstr) (p : TurnAdmissionPriority) (cid : jstr) : bool :=
  match List.filter (claimRowsWhere s cid) (queueItems db) with
  | [] => true
  | first :: _ =>
    match p with
    | prio_selected_item _ => false
    | _ =>
      existsb (fun r => inSession s r && (fst r <? fst first)%nat
                        && negb (bool_decide (k_itemId (snd r) ∈ yieldedOf p))) (queueItems db)
    end
  end.

Definition blocksInTransaction (db : AppDb) (s : jstr) (p : TurnAdmissionPriority) : bool :=
  if jhas s (queuePauses db) && negb (bypassesQueuePause p) then true
  else if bypassesQueueOrder p then false
  else
    match queueClaimIdOf p with
    | Some (c :: r) => claimedQueueItemBlocks db s p (c :: r)
    | _ =>
      match p with
      | prio_fifo created _ _ =>
        existsb (fun r => inSession s r && (k_createdAtMs (snd r) <=? created)%Z) (queueItems db)
      | _ => true
      end
    end.

Definition acceptedInTransaction (s : jstr) (consumeQueuePause : bool) : M (Committed (option QueuePause)) :=
  if negb consumeQueuePause then mret (None, [])
  else
    row ← pauseOf s;
    match row with
    | None => mret (None, [])
    | Some p => _ ← deletePause s; mret (Some p, [fact_execution_state s false])
    end.

(** Claimed rows, and queued rows not expired at [at_]. *)
Definition stillPending (s : jstr) (at_ : Z) (r : Row) : bool :=
  inSession s r
  && (hasStatus claimed r || match k_expiresAtMs (snd r) with None => true | Some e => (at_ <? e)%Z end).

Definition settledInTransaction (s turn : jstr) (c : option QueuePauseCause) (at_ : Z) : M (Committed unit) :=
  match c with
  | None => mret (tt, [])
  | Some c =>
    n ← reads (fun db => length (List.filter (stillPending s at_) (queueItems db)));
    if (n =? 0)%nat then mret (tt, [])
    else
      _ ← modify (set_pauses (jset s {| cause := c; triggerTurnId := turn; pausedAtMs := at_ |}));
      mret (tt, [fact_execution_state s true])
  end.

Definition revokedInTransaction (s : jstr) (revokeToken : option QueuePause) (at_ : Z) : M (Committed unit) :=
  match revokeToken with
  | None => mret (tt, [])
  | Some token =>
    pending ← reads (fun db => existsb (stillPending s at_) (queueItems db));
    p ← isPaused s;
    if negb pending || p then mret (tt, [])
    else _ ← modify (set_pauses (jset s token)); mret (tt, [fact_execution_state s true])
  end.

(** ** Any call *)
Inductive QueueCall :=
  | call_snapshot (s : jstr)
  | call_pauseIfPending (s : jstr) (c : QueuePauseCause) (turn : jstr)
  | call_continueQueue (s : jstr) (expectedPause : option QueuePause)
  | call_list (s : jstr)
  | call_findByClientRequestId (s c : jstr)
  | call_get (s i : jstr)
  | call_enqueue (input : QueueEnqueueInput)
  | call_updateQueued (u : QueueUpdateInput)
  | call_cancel (s i : jstr)
  | call_clearUserManageable (s : jstr)
  | call_promoteQueuedSource (s i : jstr) (src : QueueMessageSource)
  | call_reorder (s : jstr) (ids : list jstr)
  | call_claimNext (c : QueueClaimInput)
  | call_prepareDelivery (s cid turn : jstr)
  | call_acknowledgeClaim (s cid : jstr) (turn : option jstr)
  | call_releaseClaim (s cid : jstr) (reason : option jstr)
  | call_rejectClaim (s cid reason : jstr)
  | call_cancelClaim (s cid : jstr)
  | call_consumeClaim (s cid : jstr) (r : ConsumeReason)
  | call_recoverClaims (s : jstr) (scope : option Z)
  | call_drainComposerInjectable (s : jstr)
  | call_deleteSession (s : jstr)
  | call_accepted (s : jstr) (consumeQueuePause : bool)
  | call_settled (s turn : jstr) (c : option QueuePauseCause) (at_ : Z)
  | call_revoked (s : jstr) (revokeToken : option QueuePause) (at_ : Z).

Definition factsOf {A} (m : M (Committed A)) : M (list QueueCommittedFact) := r ← m; mret (snd r).

(** The facts a call commits. *)
Definition run (o : QueueOptions) (c : QueueCall) : M (list QueueCommittedFact) :=
  match c with
  | call_snapshot s => factsOf (snapshot o s)
  | call_pauseIfPending s c turn => factsOf (pauseIfPending o s c turn)
  | call_continueQueue s e => factsOf (continueQueue o s e)
  | call_list s => factsOf (list_ o s)
  | call_findByClientRequestId s c => factsOf (findByClientRequestId o s c)
  | call_get s i => factsOf (get o s i)
  | call_enqueue input => factsOf (enqueue o input)
  | call_updateQueued u => factsOf (updateQueued o u)
  | call_cancel s i => factsOf (cancel o s i)
  | call_clearUserManageable s => factsOf (clearUserManageable o s)
  | call_promoteQueuedSource s i src => factsOf (promoteQueuedSource o s i src)
  | call_reorder s ids => factsOf (reorder o s ids)
  | call_claimNext c => factsOf (claimNext o c)
  | call_prepareDelivery s cid turn => _ ← prepareDelivery o s cid turn; mret []
  | call_acknowledgeClaim s cid turn => factsOf (acknowledgeClaim o s cid turn)
  | call_releaseClaim s cid reason => factsOf (releaseClaim o s cid reason)
  | call_rejectClaim s cid reason => factsOf (rejectClaim o s cid reason)
  | call_cancelClaim s cid => factsOf (cancelClaim o s cid)
  | call_consumeClaim s cid r => factsOf (consumeClaim o s cid r)
  | call_recoverClaims s scope => factsOf (recoverClaims o s scope)
  | call_drainComposerInjectable s => factsOf (drainComposerInjectable o s)
  | call_deleteSession s => factsOf (deleteSession o s)
  | call_accepted s consume => factsOf (acceptedInTransaction s consume)
  | call_settled s turn c at_ => factsOf (settledInTransaction s turn c at_)
  | call_revoked s token at_ => factsOf (revokedInTransaction s token at_)
  end.

(** The database after a call: an exception rolls back. *)
Definition dbAfter {A} (m : M A) (db : AppDb) : AppDb :=
  match m db with inl _ => db | inr (_, db') => db' end.

Definition emptyDb (t : T) : AppDb := {|
  queueItems := []; nextId := 1; queuePauses := []; queueRowMigrations := []; legacyQueues := [];
  turns := t |}.
End Repository.

Arguments AppDb : clear implicits.
Arguments QueueOptions : clear implicits.
