(* ===== verification/QueueJournal.v ===== *)
(** * The session queue: invariant and journal

    Every call of the repository and of the admission fence keeps the tables
    well formed and reports what it does: replaying the committed facts on a
    reader that knows only which items are pending and which sessions are
    paused gives exactly what the tables say.  The proofs go through a small
    weakest-precondition calculus for the state-and-exception monad [M]. *)
From Stdlib Require Import Sorted.
From S2P Require Import Prelude JsValue QueueModel QueueRepo.

(** ** The reader of facts *)
Abbreviation ikey := (jstr * jstr)%type (only parsing).

(** What a subscriber of [QueueCommittedFactSink] can know. *)
Record QueueView := { v_pending : gset (jstr * jstr); v_paused : gset jstr }.

(** Each fact has to make sense: only a pending item is requeued or removed,
    only an unknown one is enqueued, only a paused session is resumed. *)
Definition applyPending (p : gset (jstr * jstr)) (f : QueueCommittedFact) : option (gset (jstr * jstr)) :=
  match f with
  | fact_enqueued s i _ _ _ => if decide ((s, i) ∈ p) then None else Some ({[(s, i)]} ∪ p)
  | fact_requeued s i _ _ _ _ => if decide ((s, i) ∈ p) then Some p else None
  | fact_removed s i _ _ _ => if decide ((s, i) ∈ p) then Some (p ∖ {[(s, i)]}) else None
  | fact_execution_state _ _ => Some p
  end.

Definition applyPaused (q : gset jstr) (f : QueueCommittedFact) : option (gset jstr) :=
  match f with
  | fact_execution_state s true => Some ({[s]} ∪ q)
  | fact_execution_state s false => if decide (s ∈ q) then Some (q ∖ {[s]}) else None
  | _ => Some q
  end.

Fixpoint foldFacts {V} (apply : V -> QueueCommittedFact -> option V) (v : V)
    (fs : list QueueCommittedFact) : option V :=
  match fs with
  | [] => Some v
  | f :: fs' => match apply v f with Some v' => foldFacts apply v' fs' | None => None end
  end.

Definition replay (v : QueueView) (fs : list QueueCommittedFact) : option QueueView :=
  match foldFacts applyPending (v_pending v) fs, foldFacts applyPaused (v_paused v) fs with
  | Some p, Some q => Some {| v_pending := p; v_paused := q |}
  | _, _ => None
  end.

Lemma foldFacts_app {V} (apply : V -> QueueCommittedFact -> option V) v fs gs :
  foldFacts apply v (fs ++ gs) =
  match foldFacts apply v fs with Some v' => foldFacts apply v' gs | None => None end.
Proof. revert v; induction fs as [|f fs IH]; intros v; simpl; [done|]. by destruct (apply v f). Qed.

Lemma replay_app v fs gs :
  replay v (fs ++ gs) = match replay v fs with Some v' => replay v' gs | None => None end.
Proof.
  unfold replay. rewrite !foldFacts_app.
  destruct (foldFacts applyPending (v_pending v) fs), (foldFacts applyPaused (v_paused v) fs); simpl; try done.
  by destruct (foldFacts applyPending g gs).
Qed.

(** ** Well-formed tables *)
Definition key (r : Row) : jstr * jstr := (k_sessionId (snd r), k_itemId (snd r)).
Definition ikey_of (i : QueueItem) : jstr * jstr := (sessionId i, itemId i).
Definition keys (l : list Row) : gset (jstr * jstr) := list_to_set (map key l).

Record wf_rows (l : list Row) (next : nat) : Prop := {
  wf_ids : StronglySorted lt (map fst l);
  wf_next : Forall (fun r => (fst r < next)%nat) l;
  wf_keys : NoDup (map key l);
  wf_cols : Forall (fun r => snd r = storage (dataJson (snd r))) l;
  wf_claim : forall s, (length (List.filter (fun r => inSession s r && hasStatus claimed r) l) <= 1)%nat;
}.

Lemma elem_keys l k : k ∈ keys l <-> exists r, r ∈ l /\ key r = k.
Proof. unfold keys. rewrite elem_of_list_to_set, list_elem_of_fmap. naive_solver. Qed.

Lemma inSession_spec s r : inSession s r = true <-> fst (key r) = s.
Proof. unfold inSession. by rewrite bool_decide_eq_true. Qed.

Lemma hasItem_spec s i r : hasItem s i r = true <-> key r = (s, i).
Proof.
  unfold hasItem, inSession, key. rewrite andb_true_iff, !bool_decide_eq_true. naive_solver.
Qed.

Lemma existsb_hasItem s i l : existsb (hasItem s i) l = true <-> (s, i) ∈ keys l.
Proof.
  rewrite existsb_exists, elem_keys. split.
  - intros (r & Hr & E). apply hasItem_spec in E. exists r. by rewrite list_elem_of_In.
  - intros (r & Hr & E). exists r. rewrite <- list_elem_of_In, hasItem_spec. done.
Qed.

Lemma existsb_hasItem_false s i l : existsb (hasItem s i) l = false <-> (s, i) ∉ keys l.
Proof. rewrite <- existsb_hasItem. by destruct (existsb (hasItem s i) l). Qed.

Lemma elem_filter {A} (p : A -> bool) (x : A) l : x ∈ List.filter p l <-> p x = true /\ x ∈ l.
Proof. rewrite !list_elem_of_In, filter_In. tauto. Qed.

Lemma StronglySorted_filter {A B} (R : B -> B -> Prop) (f : A -> B) (p : A -> bool) l :
  StronglySorted R (map f l) -> StronglySorted R (map f (List.filter p l)).
Proof.
  induction l as [|x l IH]; simpl; [done|]. intros [Hs Hx]%StronglySorted_inv.
  destruct (p x); simpl; [|auto]. constructor; [auto|].
  rewrite Forall_forall in Hx |- *. intros y (z & -> & [_ Hz]%elem_filter)%list_elem_of_fmap.
  apply Hx, list_elem_of_fmap. by exists z.
Qed.

Lemma filter_length_le {A} (p q : A -> bool) l :
  (length (List.filter p (List.filter q l)) <= length (List.filter p l))%nat.
Proof.
  induction l as [|x l IH]; simpl; [done|]. destruct (q x); simpl; destruct (p x); simpl; lia.
Qed.

Lemma wf_filter p l n : wf_rows l n -> wf_rows (List.filter p l) n.
Proof.
  intros [Hi Hn Hk Hc Hcl]. split.
  - by apply StronglySorted_filter.
  - rewrite Forall_forall in Hn |- *. intros r [_ Hr]%elem_filter. auto.
  - by apply NoDup_map_filter.
  - rewrite Forall_forall in Hc |- *. intros r [_ Hr]%elem_filter. auto.
  - intros s. etransitivity; [apply filter_length_le|auto].
Qed.

Lemma StronglySorted_snoc (l : list nat) n : StronglySorted lt l -> Forall (fun x => x < n)%nat l ->
  StronglySorted lt (l ++ [n]).
Proof.
  induction l as [|x l IH]; simpl; intros Hs Hf; [by repeat constructor|].
  apply StronglySorted_inv in Hs as [Hs Hx]. apply Forall_cons in Hf as [Hn Hf].
  constructor; [auto|]. apply Forall_app; split; [done|]. by repeat constructor.
Qed.

(** A claimed item may only be added where the session has no claim. *)
Definition claimRoom (i : QueueItem) (l : list Row) : Prop :=
  status i = queued \/ List.filter (fun r => inSession (sessionId i) r && hasStatus claimed r) l = [].

Lemma wf_add i l n :
  wf_rows l n -> ikey_of i ∉ keys l -> claimRoom i l -> wf_rows (l ++ [(n, storage i)]) (S n).
Proof.
  intros [Hi Hn Hk Hc Hcl] Hfresh Hroom. split.
  - rewrite map_app. apply StronglySorted_snoc; [done|]. rewrite Forall_map. apply Hn.
  - apply Forall_app; split; [|repeat constructor; simpl; lia].
    eapply Forall_impl; [exact Hn|]. simpl. intros; lia.
  - rewrite map_app. apply NoDup_app; split_and!; [done| |apply NoDup_singleton].
    intros k Hk1 Hk2%list_elem_of_singleton. subst k. apply Hfresh. apply elem_of_list_to_set. exact Hk1.
  - apply Forall_app; split; [done|by repeat constructor].
  - intros s. rewrite List.filter_app, length_app. simpl. specialize (Hcl s).
    unfold inSession at 2, hasStatus at 2. simpl.
    destruct (bool_decide_reflect (sessionId i = s)) as [<-|]; simpl; [|lia].
    destruct Hroom as [->| ->]; simpl; [lia|].
    destruct (bool_decide (status i = claimed)); simpl; lia.
Qed.

(** Overwriting the row of an item; the row is found by [at_]. *)
Definition overwrite (at_ : Row -> bool) (c : Columns) (l : list Row) : list Row :=
  map (fun r => if at_ r then (fst r, c) else r) l.

Lemma overwrite_fst at_ c l : map fst (overwrite at_ c l) = map fst l.
Proof. unfold overwrite. rewrite map_map. apply map_ext. intros r. by destruct (at_ r). Qed.

Lemma overwrite_absent at_ c l : Forall (fun r => at_ r = false) l -> overwrite at_ c l = l.
Proof. induction 1 as [|r l E _ IH]; simpl; [done|]. by rewrite E, IH. Qed.

(** With distinct keys one row at most is overwritten. *)
Lemma overwrite_middle s i c l1 r l2 : NoDup (map key (l1 ++ r :: l2)) -> key r = (s, i) ->
  overwrite (hasItem s i) c (l1 ++ r :: l2) = l1 ++ (fst r, c) :: l2.
Proof.
  intros Hnd Hk. unfold overwrite. rewrite map_app. simpl. rewrite (proj2 (hasItem_spec s i r) Hk).
  rewrite map_app in Hnd. simpl in Hnd. apply NoDup_app in Hnd as (Hn1 & Hd & Hn2).
  apply NoDup_cons in Hn2 as [Hr2 _].
  assert (forall r', key r' <> (s, i) -> hasItem s i r' = false) as Hneq.
  { intros r' Hne. destruct (hasItem s i r') eqn:E; [|done]. by apply hasItem_spec in E. }
  f_equal; [|f_equal]; apply overwrite_absent, Forall_forall; intros r' Hr'; apply Hneq; intros E.
  - apply (Hd (key r')); [apply list_elem_of_fmap; by exists r'|]. rewrite Hk, E. left.
  - apply Hr2. rewrite Hk, <- E. apply list_elem_of_fmap. by exists r'.
Qed.

Lemma overwrite_split s i c l : NoDup (map key l) -> (s, i) ∈ keys l ->
  exists l1 r l2, l = l1 ++ r :: l2 /\ key r = (s, i)
    /\ overwrite (hasItem s i) c l = l1 ++ (fst r, c) :: l2.
Proof.
  intros Hnd (r & Hr & Hk)%elem_keys. apply list_elem_of_split in Hr as (l1 & l2 & ->).
  exists l1, r, l2. split_and!; [done..|]. by apply overwrite_middle.
Qed.

Lemma keys_app l1 l2 : keys (l1 ++ l2) = keys l1 ∪ keys l2.
Proof. unfold keys. by rewrite map_app, list_to_set_app_L. Qed.
Lemma keys_cons r l : keys (r :: l) = {[key r]} ∪ keys l.
Proof. done. Qed.

Lemma key_storage n i : key (n, storage i) = ikey_of i.
Proof. done. Qed.

Lemma wf_middle l1 r l2 i n :
  wf_rows (l1 ++ r :: l2) n -> (forall r', r' ∈ l1 ++ l2 -> key r' <> ikey_of i) ->
  (status i = queued \/ (status i = k_status (snd r) /\ sessionId i = k_sessionId (snd r))
   \/ List.filter (fun r' => inSession (sessionId i) r' && hasStatus claimed r') (l1 ++ l2) = []) ->
  wf_rows (l1 ++ (fst r, storage i) :: l2) n.
Proof.
  intros [Hi Hn Hk Hc Hcl] Hfresh Hst. split.
  - rewrite map_app in Hi |- *. done.
  - apply Forall_app in Hn as [Hn1 [Hr Hn2]%Forall_cons]. apply Forall_app; split; [done|by constructor].
  - rewrite map_app in Hk |- *. simpl in *. apply NoDup_app in Hk as (H1 & H2 & [H3 H4]%NoDup_cons).
    rewrite key_storage. apply NoDup_app; split_and!; [done| |].
    + intros k Hk1 [->|Hk2]%elem_of_cons.
      * apply list_elem_of_fmap in Hk1 as (r' & E & Hr'). apply (Hfresh r'); [set_solver|done].
      * apply (H2 k); [done|by right].
    + apply NoDup_cons; split; [|done]. intros (r' & E & Hr')%list_elem_of_fmap.
      apply (Hfresh r'); [set_solver|done].
  - apply Forall_app in Hc as [H1 [Hr H2]%Forall_cons]. apply Forall_app; split; [done|by constructor].
  - intros s. specialize (Hcl s). rewrite List.filter_app, length_app in Hcl |- *. simpl in *.
    unfold inSession at 2, hasStatus at 2. simpl.
    destruct (bool_decide_reflect (sessionId i = s)) as [<-|]; simpl;
      [|destruct (inSession s r && hasStatus claimed r); simpl in Hcl; lia].
    destruct (bool_decide_reflect (status i = claimed)) as [Ec|]; simpl;
      [|destruct (inSession (sessionId i) r && hasStatus claimed r); simpl in Hcl; lia].
    destruct Hst as [Hq|[[E Es]|E]]; [congruence| |].
    + unfold inSession, hasStatus in Hcl. rewrite <- E, Ec, <- Es in Hcl.
      rewrite !bool_decide_eq_true_2 in Hcl by done. exact Hcl.
    + rewrite List.filter_app in E. apply app_eq_nil in E as [-> ->]. simpl. lia.
Qed.

(** The rows of other sessions. *)
Definition others (s : jstr) (l : list Row) : list Row := List.filter (fun r => negb (inSession s r)) l.

Lemma others_app s l1 l2 : others s (l1 ++ l2) = others s l1 ++ others s l2.
Proof. apply List.filter_app. Qed.

Lemma others_snoc s l n i : sessionId i = s -> others s (l ++ [(n, storage i)]) = others s l.
Proof.
  intros <-. unfold others. rewrite List.filter_app. simpl. unfold inSession at 2. simpl.
  rewrite bool_decide_eq_true_2 by done. simpl. by rewrite app_nil_r.
Qed.

Lemma others_middle s l1 r l2 n i : sessionId i = s -> inSession s r = true ->
  others s (l1 ++ (n, storage i) :: l2) = others s (l1 ++ r :: l2).
Proof.
  intros <- Hr. unfold others. rewrite !List.filter_app. simpl. rewrite Hr.
  unfold inSession at 2. simpl. by rewrite bool_decide_eq_true_2.
Qed.

Lemma others_filter s p l : (forall r, p r = false -> inSession s r = true) ->
  others s (List.filter p l) = others s l.
Proof.
  intros Hp. unfold others. induction l as [|r l IH]; simpl; [done|].
  destruct (p r) eqn:E; simpl; rewrite IH; [done|]. by rewrite (Hp _ E).
Qed.

(** ** Weakest preconditions *)
Section Wp.
Context {T : Type}.
Implicit Types db : AppDb T.

(** [m] satisfies [Q] from [db] unless it throws. *)
Definition wp {A} (m : M A) (Q : A -> AppDb T -> Prop) (db : AppDb T) : Prop :=
  match m db with inl _ => True | inr (a, db') => Q a db' end.

Lemma wp_bind {A B} (m : M A) (k : A -> M B) Q db :
  wp m (fun a => wp (k a) Q) db -> wp (m ≫= k) Q db.
Proof. unfold wp, mbind, M_bind. by destruct (m db) as [|[a db']]. Qed.

Lemma wp_ret {A} (a : A) (Q : A -> AppDb T -> Prop) db : Q a db -> wp (mret a) Q db.
Proof. done. Qed.

Lemma wp_throw {A} e (Q : A -> AppDb T -> Prop) db : wp (throw e) Q db.
Proof. done. Qed.

Lemma wp_mono {A} (m : M A) (Q Q' : A -> AppDb T -> Prop) db :
  wp m Q db -> (forall a db', Q a db' -> Q' a db') -> wp m Q' db.
Proof. unfold wp. destruct (m db) as [|[a db']]; auto. Qed.

Lemma wp_reads {A} (f : AppDb T -> A) (Q : A -> AppDb T -> Prop) db : Q (f db) db -> wp (reads f) Q db.
Proof. done. Qed.

Lemma wp_modify f (Q : unit -> AppDb T -> Prop) db : Q tt (f db) -> wp (modify f) Q db.
Proof. done. Qed.

(** Specifications are used through [wp_mono]. *)
Lemma wp_use {A B} (m : M A) (k : A -> M B) (P : A -> AppDb T -> Prop) Q db :
  wp m P db -> (forall a db', P a db' -> wp (k a) Q db') -> wp (m ≫= k) Q db.
Proof. intros Hm Hk. apply wp_bind. by eapply wp_mono. Qed.

Lemma decodeRow_value r i : decodeQueueRow r = inr i -> i = dataJson (snd r) /\ isQueueItem i = true.
Proof.
  unfold decodeQueueRow. intros H. case_match eqn:E; [done|]. simplify_eq.
  reflect_bools. split; [done|].
  by destruct (isQueueItem (dataJson (snd r))).
Qed.

Lemma wp_decode rows (Q : list QueueItem -> AppDb T -> Prop) db :
  (Forall (fun i => isQueueItem i = true) (map (fun r => dataJson (snd r)) rows) ->
   Q (map (fun r => dataJson (snd r)) rows) db) ->
  wp (mapM_ (fun r => lift (decodeQueueRow r)) rows) Q db.
Proof.
  revert Q. induction rows as [|r rows IH]; intros Q HQ; cbn [mapM_ map]; [by apply wp_ret, HQ|].
  apply wp_bind. unfold wp at 1, lift. destruct (decodeQueueRow r) as [e|i] eqn:E; [done|].
  apply decodeRow_value in E as [-> Hi].
  apply wp_bind, IH. intros Hrows. apply wp_ret, HQ. by constructor.
Qed.

Lemma wp_selectItems p (Q : list QueueItem -> AppDb T -> Prop) db :
  (Forall (fun i => isQueueItem i = true) (map (fun r => dataJson (snd r)) (List.filter p (queueItems db))) ->
   Q (map (fun r => dataJson (snd r)) (List.filter p (queueItems db))) db) ->
  wp (selectItems p) Q db.
Proof. intros HQ. unfold selectItems, selectRows. apply wp_bind, wp_reads, wp_decode, HQ. Qed.

Lemma wp_selectFirst p (Q : option QueueItem -> AppDb T -> Prop) db :
  (List.filter p (queueItems db) = [] -> Q None db) ->
  (forall r l, List.filter p (queueItems db) = r :: l -> isQueueItem (dataJson (snd r)) = true ->
     Q (Some (dataJson (snd r))) db) ->
  wp (selectFirst p) Q db.
Proof.
  intros H0 H1. unfold selectFirst, selectRows. apply wp_bind, wp_reads.
  destruct (List.filter p (queueItems db)) as [|r l] eqn:E; [by apply wp_ret, H0|].
  apply wp_bind. unfold wp at 1, lift. destruct (decodeQueueRow r) as [e|i] eqn:Ed; [done|].
  apply decodeRow_value in Ed as [-> Hi]. apply wp_ret. by eapply H1.
Qed.

(** ** The journal of one session's operation

    [J s v o q fs db]: starting from the pending view [v], the facts [fs] lead
    to the pending items of [db]; the tables are well formed, the rows of other
    sessions are still [o] and the pauses still [q]. *)
Record J (s : jstr) (v : gset (jstr * jstr)) (o : list Row) (q : jmap jstr QueuePause)
    (fs : list QueueCommittedFact) (db : AppDb T) : Prop := {
  J_wf : wf_rows (queueItems db) (nextId db);
  J_replay : foldFacts applyPending v fs = Some (keys (queueItems db));
  J_others : others s (queueItems db) = o;
  J_pauses : queuePauses db = q;
}.

Definition pendingIn (s : jstr) (i : QueueItem) (db : AppDb T) : Prop :=
  sessionId i = s /\ ikey_of i ∈ keys (queueItems db).

Definition isRemoval (f : QueueItem -> QueueCommittedFact) : Prop :=
  forall i, exists r t a, f i = fact_removed (sessionId i) (itemId i) r t a.

Lemma removalFact_isRemoval r t : isRemoval (removalFact r t).
Proof. intros i. by exists r, t, None. Qed.

Lemma keys_delete p l : NoDup (map key l) ->
  keys (List.filter (fun r => negb (p r)) l) = keys l ∖ keys (List.filter p l).
Proof.
  intros Hnd. apply set_eq. intros k. rewrite elem_of_difference, !elem_keys. split.
  - intros (r & [Hp Hr]%elem_filter & <-). split; [by exists r|].
    intros (r' & [Hp' Hr']%elem_filter & E).
    assert (r' = r) as -> by by eapply NoDup_map_inj. by rewrite Hp' in Hp.
  - intros [(r & Hr & <-) Hno]. exists r. split; [|done]. apply elem_filter. split; [|done].
    destruct (p r) eqn:E; [|done]. destruct Hno. exists r. split; [|done]. by apply elem_filter.
Qed.

Lemma foldFacts_removals f items v : isRemoval f -> NoDup (map ikey_of items) ->
  (forall i, i ∈ items -> ikey_of i ∈ v) ->
  foldFacts applyPending v (map f items) = Some (v ∖ list_to_set (map ikey_of items)).
Proof.
  intros Hf. revert v. induction items as [|i items IH]; intros v Hnd Hin; cbn [map foldFacts].
  - f_equal. set_solver.
  - apply NoDup_cons in Hnd as [Hi Hnd]. destruct (Hf i) as (r & t & a & ->). cbn [applyPending].
    rewrite decide_True by (apply (Hin i); left). rewrite IH; [f_equal; set_solver|done|].
    intros j Hj. apply elem_of_difference. split; [apply Hin; by right|].
    intros E%elem_of_singleton. apply Hi. unfold ikey_of at 1. rewrite <- E.
    apply list_elem_of_fmap. by exists j.
Qed.

Lemma wf_data l n r : wf_rows l n -> r ∈ l -> ikey_of (dataJson (snd r)) = key r.
Proof.
  intros [_ _ _ Hc _] Hr. rewrite Forall_forall in Hc. specialize (Hc r Hr). unfold key, ikey_of.
  f_equal; symmetry; by rewrite Hc at 1.
Qed.

Lemma wf_status l n r : wf_rows l n -> r ∈ l -> status (dataJson (snd r)) = k_status (snd r).
Proof. intros [_ _ _ Hc _] Hr. rewrite Forall_forall in Hc. by rewrite (Hc r Hr) at 2. Qed.

Lemma keys_of_data l n : wf_rows l n ->
  forall rows, (forall r, r ∈ rows -> r ∈ l) ->
  map ikey_of (map (fun r => dataJson (snd r)) rows) = map key rows.
Proof.
  intros Hwf rows Hin. rewrite map_map. apply map_ext_in. intros r Hr.
  apply (wf_data _ _ _ Hwf), Hin. by apply list_elem_of_In.
Qed.

(** Dropping the rows of [p] and reporting each as removed. *)
Lemma J_delete s v o q fs db p f :
  J s v o q fs db -> isRemoval f -> (forall r, p r = true -> inSession s r = true) ->
  J s v o q (fs ++ map f (map (fun r => dataJson (snd r)) (List.filter p (queueItems db))))
    (set_items (List.filter (fun r => negb (p r))) db).
Proof.
  intros [Hwf Hr Ho Hq] Hf Hp. split; cbn [queueItems nextId queuePauses set_items].
  - by apply wf_filter.
  - rewrite foldFacts_app, Hr, foldFacts_removals; [|done| |].
    + f_equal. rewrite (keys_of_data _ _ Hwf) by (intros r [_ Hr']%elem_filter; done).
      rewrite keys_delete by apply Hwf. done.
    + rewrite (keys_of_data _ _ Hwf) by (intros r [_ Hr']%elem_filter; done).
      apply NoDup_map_filter, Hwf.
    + intros i (r & -> & [_ Hin]%elem_filter)%list_elem_of_fmap.
      rewrite (wf_data _ _ _ Hwf) by done. apply elem_keys. by exists r.
  - rewrite others_filter; [done|]. intros r E. apply Hp. by apply negb_false_iff.
  - done.
Qed.

Lemma J_deleteItem s v o q fs db i f :
  J s v o q fs db -> isRemoval f -> pendingIn s i db ->
  J s v o q (fs ++ [f i]) (set_items (List.filter (fun r => negb (hasItem s (itemId i) r))) db).
Proof.
  intros HJ Hf [Hs Hin]. pose proof (J_wf _ _ _ _ _ _ HJ) as Hwf.
  split; cbn [queueItems nextId queuePauses set_items].
  - by apply wf_filter.
  - destruct HJ as [_ Hr _ _]. rewrite foldFacts_app, Hr. cbn [foldFacts].
    destruct (Hf i) as (r & t & a & ->). cbn [applyPending]. rewrite decide_True by done.
    f_equal. rewrite keys_delete by apply Hwf. f_equal. apply set_eq. intros k.
    rewrite elem_of_singleton, elem_keys. split.
    + intros ->. apply elem_keys in Hin as (r' & Hr' & E). exists r'. split; [|done].
      apply elem_filter. split; [|done]. apply hasItem_spec. rewrite E. unfold ikey_of. by rewrite Hs.
    + intros (r' & [E _]%elem_filter & <-). apply hasItem_spec in E. by rewrite E, Hs.
  - rewrite others_filter; [apply HJ|]. intros r' E. apply negb_false_iff in E.
    unfold hasItem in E. by apply andb_true_iff in E as [? _].
  - apply HJ.
Qed.

(** Overwriting the row of a pending item. *)
Lemma J_write s v o q fs db i :
  J s v o q fs db -> pendingIn s i db ->
  (status i = queued \/ (exists r, r ∈ queueItems db /\ key r = ikey_of i /\ status i = k_status (snd r))
   \/ List.filter (fun r => inSession s r && hasStatus claimed r) (queueItems db) = []) ->
  wp (write i) (fun _ => J s v o q fs) db.
Proof.
  intros [Hwf Hr Ho Hq] [Hs Hin] Hst. unfold wp, write. cbn [storage k_sessionId k_itemId].
  rewrite (proj2 (existsb_hasItem _ _ _) Hin).
  destruct (overwrite_split (sessionId i) (itemId i) (storage i) (queueItems db))
    as (l1 & r & l2 & E & Hk & E'); [apply Hwf|done|].
  assert (Hrs : k_sessionId (snd r) = sessionId i) by (unfold key in Hk; congruence).
  split; cbn [queueItems nextId queuePauses set_items];
    fold (overwrite (hasItem (sessionId i) (itemId i)) (storage i) (queueItems db)).
  - rewrite E'. rewrite E in Hwf. apply wf_middle; [done| |].
    + intros r' Hr' E1. destruct Hwf as [_ _ Hnd _ _]. rewrite map_app in Hnd. simpl in Hnd.
      apply NoDup_app in Hnd as (H1 & H2 & [H3 H4]%NoDup_cons).
      rewrite Hk in H2, H3. apply elem_of_app in Hr' as [Hr'|Hr'].
      * apply (H2 (key r')); [apply list_elem_of_fmap; by exists r'|]. rewrite E1. left.
      * apply H3. apply list_elem_of_fmap. by exists r'.
    + destruct Hst as [Hst|[(r0 & Hr0 & Hk0 & Est)|Hnone]]; [by left| |].
      * right; left. split; [|done]. rewrite Est. rewrite E in Hr0.
        assert (r0 = r) as ->; [|done]. destruct Hwf as [_ _ Hnd _ _].
        eapply NoDup_map_inj; [exact Hnd|exact Hr0|set_solver|]. rewrite Hk0. by rewrite Hk.
      * right; right. rewrite Hs, E in *. rewrite List.filter_app in Hnone |- *. simpl in Hnone.
        apply app_eq_nil in Hnone as [-> Hn]. simpl.
        destruct (inSession s r && hasStatus claimed r); [done|exact Hn].
  - rewrite Hr. f_equal. rewrite E', E, !keys_app, !keys_cons, key_storage, Hk. done.
  - rewrite E'. rewrite (others_middle s _ r); [by rewrite E in Ho|done|].
    apply inSession_spec. unfold key; simpl. congruence.
  - done.
Qed.

Definition rowData (r : Row) : QueueItem := dataJson (snd r).

Definition queuedRows (s : jstr) (l : list Row) : list Row :=
  List.filter (fun r => inSession s r && hasStatus queued r) l.
Definition queuedItems (s : jstr) (l : list Row) : list QueueItem := map rowData (queuedRows s l).

(** Everything of [J] but the facts. *)
Record Sound (s : jstr) (o : list Row) (q : jmap jstr QueuePause) (db : AppDb T) : Prop := {
  S_wf : wf_rows (queueItems db) (nextId db);
  S_others : others s (queueItems db) = o;
  S_pauses : queuePauses db = q;
}.

Lemma J_Sound s v o q fs db : J s v o q fs db -> Sound s o q db.
Proof. intros []. by split. Qed.

Lemma Sound_J s v o q fs db db' :
  J s v o q fs db -> Sound s o q db' -> keys (queueItems db') = keys (queueItems db) -> J s v o q fs db'.
Proof. intros [] [] E. split; [done| |done..]. by rewrite E. Qed.

Lemma Sound_delete s o q db p : Sound s o q db -> (forall r, p r = true -> inSession s r = true) ->
  Sound s o q (set_items (List.filter (fun r => negb (p r))) db).
Proof.
  intros [Hwf Ho Hq] Hp. split; cbn [queueItems nextId queuePauses set_items]; [by apply wf_filter| |done].
  rewrite others_filter; [done|]. intros r E. apply Hp. by apply negb_false_iff.
Qed.

Lemma wp_insertRow s o q db i : Sound s o q db -> sessionId i = s ->
  (ikey_of i ∈ keys (queueItems db) \/ claimRoom i (queueItems db)) ->
  wp (insertRow (storage i)) (fun _ db' => Sound s o q db'
    /\ queueItems db' = queueItems db ++ [(nextId db, storage i)] /\ ikey_of i ∉ keys (queueItems db)) db.
Proof.
  intros [Hwf Ho Hq] Hs Hroom. unfold wp, insertRow. cbn [storage k_sessionId k_itemId].
  destruct (existsb _ _) eqn:E; [done|]. apply existsb_hasItem_false in E.
  destruct Hroom as [?|Hroom]; [done|]. split_and!; [|done..].
  split; cbn [queueItems nextId queuePauses add_row]; [by apply wf_add| |done].
  by rewrite others_snoc.
Qed.

Lemma wp_insertAll s o q l : forall db, Sound s o q db ->
  Forall (fun i => sessionId i = s /\ status i = queued) l ->
  wp (insertAll l) (fun _ db' => Sound s o q db'
    /\ exists rows, queueItems db' = queueItems db ++ rows /\ map snd rows = map storage l) db.
Proof.
  induction l as [|i l IH]; intros db Hdb Hl; cbn [insertAll].
  - apply wp_ret. split; [done|]. exists []. by rewrite app_nil_r.
  - apply Forall_cons in Hl as [[Hs Hst] Hl].
    eapply wp_use; [eapply wp_insertRow; [done..|right; by left]|].
    intros [] db1 (H1 & E1 & _). eapply wp_mono; [by apply IH|].
    intros [] db2 (H2 & rows & E2 & Er). split; [done|].
    exists ((nextId db, storage i) :: rows). rewrite E2, E1, <- app_assoc. simpl. by rewrite Er.
Qed.

Lemma rowData_queued s l n i : wf_rows l n -> i ∈ queuedItems s l -> sessionId i = s /\ status i = queued.
Proof.
  intros Hwf (r & -> & [Hp Hr]%elem_filter)%list_elem_of_fmap. apply andb_true_iff in Hp as [H1 H2].
  unfold rowData. rewrite (wf_status _ _ _ Hwf) by done. pose proof (wf_data _ _ _ Hwf Hr) as Hk.
  unfold hasStatus in H2. apply bool_decide_eq_true in H2. apply inSession_spec in H1.
  unfold ikey_of in Hk. split; [|done]. rewrite <- H1. by rewrite <- Hk.
Qed.

Lemma keys_storage (l : list QueueItem) rows : map snd rows = map storage l ->
  keys rows = list_to_set (map ikey_of l).
Proof.
  intros E. unfold keys. f_equal.
  assert (map key rows = map (fun c => (k_sessionId c, k_itemId c)) (map snd rows)) as ->
    by (by rewrite map_map).
  rewrite E, map_map. done.
Qed.

Lemma keys_data l n rows : wf_rows l n -> (forall r, r ∈ rows -> r ∈ l) ->
  list_to_set (map ikey_of (map rowData rows)) = keys rows.
Proof. intros Hwf Hin. unfold keys. by rewrite <- (keys_of_data _ _ Hwf). Qed.

Lemma keys_partition p l : keys (List.filter p l) ∪ keys (List.filter (fun r => negb (p r)) l) = keys l.
Proof.
  apply set_eq. intros k. rewrite elem_of_union, !elem_keys. split.
  - intros [(r & [_ Hr]%elem_filter & E)|(r & [_ Hr]%elem_filter & E)]; by exists r.
  - intros (r & Hr & E). destruct (p r) eqn:Ep; [left|right]; exists r; split; try done;
      apply elem_filter; by rewrite Ep.
Qed.

(** The queued rows rewritten in the order [l]. *)
Lemma wp_rewriteQueued s o q db l : Sound s o q db ->
  Forall (fun i => sessionId i = s /\ status i = queued) l ->
  (list_to_set (map ikey_of l) : gset _) = keys (queuedRows s (queueItems db)) ->
  wp (_ ← deleteRows (fun r => inSession s r && hasStatus queued r); insertAll l)
    (fun _ db' => Sound s o q db' /\ keys (queueItems db') = keys (queueItems db)
      /\ queuedItems s (queueItems db') = l) db.
Proof.
  intros Hdb Hl Hk. apply wp_bind, wp_modify.
  eapply wp_mono; [apply (wp_insertAll s o q); [|done]|].
  { apply Sound_delete; [done|]. intros r [? _]%andb_true_iff. done. }
  intros [] db2 (H2 & rows & E2 & Er). cbn [queueItems set_items] in E2.
  split_and!; [done| |].
  - rewrite E2, keys_app, (keys_storage _ _ Er), Hk. unfold queuedRows.
    rewrite (union_comm_L (keys _)). apply keys_partition.
  - unfold queuedItems, queuedRows. rewrite E2, List.filter_app, map_app.
    rewrite (filter_Forall_nil _ (List.filter _ _)).
    2:{ apply Forall_forall. intros r [Hr _]%elem_filter. by apply negb_true_iff in Hr. }
    simpl. clear -Er Hl. revert l Er Hl. induction rows as [|r rows IH]; intros [|i l] Er Hl; simplify_eq/=; [done|].
    apply Forall_cons in Hl as [[Hs Hst] Hl]. unfold inSession, hasStatus. rewrite H. cbn.
    rewrite !bool_decide_eq_true_2 by done. simpl. unfold rowData at 1. rewrite H. f_equal. by apply IH.
Qed.

Lemma wp_moveQueuedToFront s o q db i : Sound s o q db -> sessionId i = s ->
  (exists r, r ∈ queueItems db /\ key r = ikey_of i /\ k_status (snd r) = status i) ->
  wp (moveQueuedToFront i) (fun _ db' => Sound s o q db' /\ keys (queueItems db') = keys (queueItems db)
    /\ status i = queued /\ queuedItems s (queueItems db') =
       i :: List.filter (fun j => negb (bool_decide (itemId j = itemId i))) (queuedItems s (queueItems db))) db.
Proof.
  intros Hdb Hs (r & Hr & Hk & Hst). unfold moveQueuedToFront, rowsByStatus. rewrite Hs.
  apply wp_bind, wp_selectItems. intros _. fold (queuedRows s (queueItems db)).
  fold (queuedItems s (queueItems db)).
  destruct Hdb as [Hwf Ho Hq].
  destruct (status i) eqn:Ei.
  - eapply wp_mono; [apply (wp_rewriteQueued s o q)|]; [by split|..]; [| |naive_solver].
    + apply Forall_cons. split; [done|]. apply Forall_forall. intros j [_ Hj]%elem_filter.
      by eapply rowData_queued.
    + apply set_eq. intros k. cbn [map list_to_set]. rewrite elem_of_union, elem_of_singleton.
      rewrite elem_of_list_to_set, list_elem_of_fmap. rewrite elem_keys. split.
      * intros [->|(j & -> & [_ Hj]%elem_filter)].
        -- exists r. split; [|done]. apply elem_filter. split; [|done].
           unfold hasStatus. rewrite Hst. rewrite (proj2 (inSession_spec s r)) by by rewrite Hk. done.
        -- apply list_elem_of_fmap in Hj as (r' & -> & Hr'). exists r'. split; [done|].
           symmetry. apply elem_filter in Hr' as [_ Hr']. by eapply wf_data.
      * intros (r' & Hr' & <-). destruct (decide (key r' = ikey_of i)) as [->|Hne]; [by left|right].
        exists (rowData r'). pose proof Hr' as [_ Hr'']%elem_filter. unfold rowData.
        rewrite (wf_data _ _ _ Hwf) by done. split; [done|]. apply elem_filter. split.
        -- apply negb_true_iff, bool_decide_eq_false. intros E. apply Hne.
           rewrite <- (wf_data _ _ _ Hwf) by done. unfold ikey_of. f_equal; [|done].
           rewrite Hs. destruct (rowData_queued s _ _ (rowData r') Hwf) as [E1 _]; [|exact E1].
           apply list_elem_of_fmap. by exists r'.
        -- apply list_elem_of_fmap. by exists r'.
  - apply wp_bind, wp_modify. cbn [insertAll].
    eapply wp_use; [eapply (wp_insertRow s o q)|].
    + apply Sound_delete; [by split|]. intros r' [? _]%andb_true_iff. done.
    + done.
    + left. cbn [queueItems set_items]. rewrite <- Hk. apply elem_keys. exists r. split; [|done].
      apply elem_filter. split; [|done]. unfold hasStatus. rewrite Hst. by rewrite andb_false_r.
    + intros [] db2 (_ & _ & Hno). destruct Hno. cbn [queueItems set_items]. rewrite <- Hk.
      apply elem_keys. exists r. split; [|done]. apply elem_filter. split; [|done].
      unfold hasStatus. rewrite Hst. by rewrite andb_false_r.
Qed.
End Wp.
