(* ===== verification/QueueLaws.v ===== *)
(** * The session queue: every call keeps the tables and tells the truth

    The helpers of the repository against the journal [J] of [QueueJournal],
    then every method, then sequences of calls. *)
From Stdlib Require Import Sorted.
From S2P Require Import Prelude JsValue QueueModel QueueRepo QueueJournal.

(** ** Facts about pauses *)
Definition isExec (f : QueueCommittedFact) : bool :=
  match f with fact_execution_state _ _ => true | _ => false end.

Definition execs (fs : list QueueCommittedFact) : list QueueCommittedFact := List.filter isExec fs.

Lemma execs_app fs gs : execs (fs ++ gs) = execs fs ++ execs gs.
Proof. apply List.filter_app. Qed.

Lemma execs_map {A} (f : A -> QueueCommittedFact) l : (forall x, isExec (f x) = false) -> execs (map f l) = [].
Proof. intros H. induction l as [|x l IH]; simpl; [done|]. by rewrite H. Qed.

Lemma isRemoval_noexec f i : isRemoval f -> isExec (f i) = false.
Proof. intros Hf. by destruct (Hf i) as (r & t & a & ->). Qed.

Lemma foldFacts_paused_execs q fs : foldFacts applyPaused q fs = foldFacts applyPaused q (execs fs).
Proof.
  revert q. induction fs as [|f fs IH]; intros q; simpl; [done|].
  destruct f; simpl; try apply IH. destruct paused; simpl; [apply IH|]. case_decide; [apply IH|done].
Qed.

Definition pausedSet (q : jmap jstr QueuePause) : gset jstr := list_to_set (jkeys q).

Lemma elem_pausedSet s q : s ∈ pausedSet q <-> jhas s q = true.
Proof.
  unfold pausedSet, jhas. rewrite elem_of_list_to_set. pose proof (jget_None_keys s q) as H.
  destruct (jget s q); [|naive_solver]. split; [done|]. intros _. destruct (decide (s ∈ jkeys q)); [done|].
  naive_solver.
Qed.

Lemma jhas_false (s : jstr) (q : jmap jstr QueuePause) : jhas s q = false <-> jget s q = None.
Proof. unfold jhas. by destruct (jget s q). Qed.

Lemma jhas_jset (s k : jstr) (p : QueuePause) q : jhas s (jset k p q) = bool_decide (s = k) || jhas s q.
Proof.
  unfold jhas. rewrite jget_jset. destruct (decide (s = k)) as [->|].
  - by rewrite bool_decide_eq_true_2.
  - by rewrite bool_decide_eq_false_2.
Qed.

Lemma jhas_jdel (s k : jstr) (q : jmap jstr QueuePause) : jhas s (jdel k q) = negb (bool_decide (s = k)) && jhas s q.
Proof.
  unfold jhas. rewrite jget_jdel. destruct (decide (s = k)) as [->|].
  - by rewrite bool_decide_eq_true_2.
  - by rewrite bool_decide_eq_false_2.
Qed.

Lemma pausedSet_jset s p q : pausedSet (jset s p q) = {[s]} ∪ pausedSet q.
Proof.
  apply set_eq. intros k. rewrite elem_of_union, elem_of_singleton, !elem_pausedSet, jhas_jset.
  rewrite orb_true_iff, bool_decide_eq_true. done.
Qed.

Lemma pausedSet_jdel s q : pausedSet (jdel s q) = pausedSet q ∖ {[s]}.
Proof.
  apply set_eq. intros k. rewrite elem_of_difference, elem_of_singleton, !elem_pausedSet, jhas_jdel.
  rewrite andb_true_iff, negb_true_iff, bool_decide_eq_false. tauto.
Qed.

(** How a body may leave the pause of its session, given what it reports. *)
Inductive PauseOk (s : jstr) (q : jmap jstr QueuePause) (fs : list QueueCommittedFact)
    (q' : jmap jstr QueuePause) (rows : list Row) : Prop :=
  | pause_kept : execs fs = [] -> q' = q \/ q' = jdel s q -> PauseOk s q fs q' rows
  | pause_set p q0 : execs fs = [fact_execution_state s true] -> q0 = q \/ q0 = jdel s q ->
      q' = jset s p q0 -> (exists r, r ∈ rows /\ inSession s r = true) -> PauseOk s q fs q' rows
  | pause_cleared : execs fs = [fact_execution_state s false] -> jhas s q = true -> q' = jdel s q ->
      PauseOk s q fs q' rows.

Section Laws.
Context {T : Type}.
Implicit Types db : AppDb T.

Definition wf_db (db : AppDb T) : Prop := wf_rows (queueItems db) (nextId db).

(** A pause stands only while its session has items. *)
Definition pausedHasWork (db : AppDb T) : Prop :=
  forall s, s ∈ pausedSet (queuePauses db) -> exists r, r ∈ queueItems db /\ inSession s r = true.

Definition view (db : AppDb T) : QueueView :=
  {| v_pending := keys (queueItems db); v_paused := pausedSet (queuePauses db) |}.

(** A call on session [s] that leads from [db] to [db'] and commits [fs]. *)
Record callOk (s : jstr) (db : AppDb T) (fs : list QueueCommittedFact) (db' : AppDb T) : Prop := {
  call_wf : wf_db db';
  call_replay : replay (view db) fs = Some (view db');
  call_others : others s (queueItems db') = others s (queueItems db);
  call_pauses : forall s', s' <> s -> jget s' (queuePauses db') = jget s' (queuePauses db);
  call_work : pausedHasWork db -> pausedHasWork db';
}.

(** ** Transactions *)
Lemma others_elem s l r : inSession s r = false -> r ∈ others s l <-> r ∈ l.
Proof. intros E. unfold others. rewrite elem_filter, E. naive_solver. Qed.

Lemma work_frame s (l l' : list Row) s' : others s l' = others s l -> s' <> s ->
  (exists r, r ∈ l /\ inSession s' r = true) -> exists r, r ∈ l' /\ inSession s' r = true.
Proof.
  intros Ho Hne (r & Hr & Es). exists r. split; [|done].
  assert (inSession s r = false) as E.
  { unfold inSession in *. apply bool_decide_eq_true in Es. rewrite Es. by apply bool_decide_eq_false. }
  rewrite <- (others_elem s _ _ E), Ho, others_elem; done.
Qed.

Lemma inSession_pending s db :
  (length (List.filter (inSession s) (queueItems db)) =? 0)%nat = false ->
  exists r, r ∈ queueItems db /\ inSession s r = true.
Proof.
  destruct (List.filter (inSession s) (queueItems db)) as [|r l] eqn:E; [done|]. intros _.
  exists r. assert (r ∈ List.filter (inSession s) (queueItems db)) as Hr by (rewrite E; left).
  apply elem_filter in Hr. tauto.
Qed.

(** What [reconcilePause] leaves, by whether the session has rows. *)
Lemma reconcile_result s db (Q : unit -> AppDb T -> Prop) :
  ((exists r, r ∈ queueItems db /\ inSession s r = true) -> Q tt db) ->
  ((forall r, r ∈ queueItems db -> inSession s r = false) -> Q tt (set_pauses (jdel s) db)) ->
  wp (reconcilePause s) Q db.
Proof.
  intros H1 H2. unfold reconcilePause. apply wp_bind, wp_reads.
  destruct (List.filter (inSession s) (queueItems db)) as [|r l] eqn:E; simpl.
  - apply wp_modify, H2. intros r Hr. destruct (inSession s r) eqn:Es; [|done].
    assert (r ∈ List.filter (inSession s) (queueItems db)) as Hr' by by apply elem_filter.
    rewrite E in Hr'. by apply elem_of_nil in Hr'.
  - apply wp_ret, H1. exists r.
    assert (r ∈ List.filter (inSession s) (queueItems db)) as Hr by (rewrite E; left).
    apply elem_filter in Hr. tauto.
Qed.

(** Where the pause of [s] stands before, after and in the facts. *)
Lemma pause_replay s q fs q' rows removed :
  PauseOk s q fs q' rows ->
  removed = jhas s q && negb (jhas s q') ->
  foldFacts applyPaused (pausedSet q)
    (if negb removed || existsb (isUnpauseFact s) fs then fs else fs ++ [fact_execution_state s false])
  = Some (pausedSet q').
Proof.
  intros HP Hrem. assert (existsb (isUnpauseFact s) fs = existsb (isUnpauseFact s) (execs fs)) as ->.
  { unfold execs. rewrite existsb_filter. clear. induction fs as [|f fs IH]; cbn [existsb]; [done|].
    rewrite IH. by destruct f. }
  assert (Hnil : jdel s q = q \/ jhas s q = true).
  { destruct (jhas s q) eqn:E; [by right|left]. unfold jdel. apply filter_Forall_id, Forall_forall.
    intros [k p] Hk. apply negb_true_iff, bool_decide_eq_false. intros ->. apply jhas_false, jget_None_keys in E.
    apply E. apply list_elem_of_fmap. by exists (k, p). }
  assert (Hd : pausedSet (jdel s q) = pausedSet q \/ jhas s q = true) by (destruct Hnil as [->|]; auto).
  destruct HP as [E Hq'|p q0 E Hq0 -> _|E Hq ->].
  - rewrite E. cbn [existsb]. destruct Hq' as [-> | ->].
    + assert (removed = false) as -> by (subst removed; by destruct (jhas s q)).
      cbn [negb orb]. rewrite foldFacts_paused_execs, E. done.
    + rewrite jhas_jdel in Hrem. rewrite bool_decide_eq_true_2 in Hrem by done. cbn in Hrem.
      rewrite andb_true_r in Hrem. subst removed. destruct (jhas s q) eqn:Es; cbn [negb orb].
      * rewrite foldFacts_paused_execs, execs_app, E. cbn. rewrite decide_True by by apply elem_pausedSet.
        by rewrite pausedSet_jdel.
      * rewrite foldFacts_paused_execs, E. cbn. by destruct Hd as [->|].
  - rewrite jhas_jset, bool_decide_eq_true_2 in Hrem by done. cbn in Hrem. rewrite andb_false_r in Hrem.
    subst removed. cbn [negb orb]. rewrite foldFacts_paused_execs, E. cbn. rewrite pausedSet_jset.
    destruct Hq0 as [-> | ->]; [done|]. rewrite pausedSet_jdel. f_equal. apply set_eq. intros k.
    rewrite !elem_of_union, elem_of_difference, elem_of_singleton. destruct (decide (k = s)); tauto.
  - rewrite E. cbn [existsb isUnpauseFact]. rewrite bool_decide_eq_true_2 by done. cbn. rewrite orb_true_r.
    rewrite foldFacts_paused_execs, E. cbn. rewrite decide_True by by apply elem_pausedSet.
    by rewrite pausedSet_jdel.
Qed.

Lemma jdel_idemp (s : jstr) (q : jmap jstr QueuePause) : jdel s (jdel s q) = jdel s q.
Proof.
  unfold jdel. apply filter_Forall_id, Forall_forall. intros e [He _]%elem_filter. exact He.
Qed.

Lemma pauseOk_reconciled s q fs q' rows :
  PauseOk s q fs q' rows -> (forall r, r ∈ rows -> inSession s r = false) -> PauseOk s q fs (jdel s q') rows.
Proof.
  intros [E Hq'|p q0 E _ _ (r & Hr & Es)|E Hq ->] Hno.
  - apply pause_kept; [done|]. destruct Hq' as [-> | ->]; [by right|right; apply jdel_idemp].
  - by rewrite Hno in Es.
  - apply pause_cleared; [done..|]. apply jdel_idemp.
Qed.

Lemma pauseOk_others s q fs q' rows s' :
  PauseOk s q fs q' rows -> s' <> s -> jget s' q' = jget s' q.
Proof.
  intros [E [-> | ->]|p q0 E [-> | ->] -> _|E Hq ->] Hne;
    repeat first [done | rewrite jget_jset_ne by done | rewrite jget_jdel_ne by done].
Qed.

(** The body of a transaction, run from a state whose pending items are [v]. *)
Definition bodyOk {A} (s : jstr) (body : M (Committed A)) (Q : A -> AppDb T -> Prop) (db : AppDb T) : Prop :=
  forall v o q, J s v o q [] db ->
  wp body (fun r db' => (exists q', J s v o q' (snd r) db' /\ PauseOk s q (snd r) q' (queueItems db'))
                        /\ Q (fst r) db') db.

Lemma J_marks s v o q fs db f g : J s v o q fs db -> J s v o q fs (set_marks f g db).
Proof. intros []. by split. Qed.

Lemma J_start s db : wf_db db -> J s (keys (queueItems db)) (others s (queueItems db)) (queuePauses db) [] db.
Proof. intros H. by split. Qed.

(** The value of the body is the value of the transaction; reconciling the
    pause and stamping the marker do not touch the rows or the turn tables. *)
Lemma ensureReady_wp (op : QueueOptions T) s (Q : unit -> AppDb T -> Prop) db :
  (forall db1, queueItems db1 = queueItems db -> nextId db1 = nextId db -> queuePauses db1 = queuePauses db ->
     turns db1 = turns db -> Q tt db1) -> wp (ensureQueueRowsReady op s) Q db.
Proof. intros HQ. apply wp_bind, wp_reads. case_match; [by apply wp_ret, HQ|by apply wp_modify, HQ]. Qed.

Lemma wp_transaction {A} o s (body : M (Committed A)) (Q : A -> AppDb T -> Prop) db :
  wf_db db ->
  (forall db1, queueItems db1 = queueItems db -> nextId db1 = nextId db ->
     queuePauses db1 = queuePauses db -> turns db1 = turns db -> bodyOk s body Q db1) ->
  wp (transaction o s body)
    (fun r db' => callOk s db (snd r) db'
       /\ exists db2, Q (fst r) db2 /\ queueItems db' = queueItems db2 /\ turns db' = turns db2
          /\ ((exists r, r ∈ queueItems db2 /\ inSession s r = true) -> queuePauses db' = queuePauses db2)) db.
Proof.
  intros Hwf Hbody. unfold transaction.
  apply wp_bind, ensureReady_wp. intros db1 E1 E2 E3 E4. apply wp_bind, wp_reads. rewrite E3.
  pose proof (Hbody db1 E1 E2 E3 E4 _ _ _ (J_start s db1 ltac:(unfold wf_db; by rewrite E1, E2))) as HB.
  rewrite E1, E3 in HB. eapply wp_use; [exact HB|]. intros [a fs] db2 [(q' & HJ & HP) HQ]. cbn [fst snd] in *.
  assert (Hend : forall db3, queueItems db3 = queueItems db2 -> nextId db3 = nextId db2 ->
      turns db3 = turns db2 ->
      ((exists r, r ∈ queueItems db2 /\ inSession s r = true) -> queuePauses db3 = queuePauses db2) ->
      PauseOk s (queuePauses db) fs (queuePauses db3) (queueItems db2) ->
      ((exists r, r ∈ queueItems db2 /\ inSession s r = true) \/ ~ s ∈ pausedSet (queuePauses db3)) ->
      wp (nowPaused ← isPaused s;
          mret (withPauseRemovalFact (a, fs) s (jhas s (queuePauses db) && negb nowPaused)))
        (fun r db' => callOk s db (snd r) db'
           /\ exists db4, Q (fst r) db4 /\ queueItems db' = queueItems db4 /\ turns db' = turns db4
              /\ ((exists r, r ∈ queueItems db4 /\ inSession s r = true) -> queuePauses db' = queuePauses db4)) db3).
  { intros db3 Ei En Et Hpa HP3 Hw. apply wp_bind, wp_reads, wp_ret. unfold withPauseRemovalFact. cbn [fst snd].
    pose proof (pause_replay _ _ _ _ _ _ HP3 eq_refl) as Hq.
    split; [|exists db2; split; [by destruct (negb _ || _)|done]].
    assert (forall removed, foldFacts applyPending (keys (queueItems db))
      (if negb removed || existsb (isUnpauseFact s) fs then fs else fs ++ [fact_execution_state s false])
      = Some (keys (queueItems db2))) as Hp.
    { intros removed. pose proof (J_replay _ _ _ _ _ _ HJ) as Hr.
      destruct (negb removed || existsb (isUnpauseFact s) fs); [exact Hr|].
      rewrite foldFacts_app, Hr. done. }
    split.
    - unfold wf_db. rewrite Ei, En. apply HJ.
    - unfold replay, view. cbn [v_pending v_paused]. rewrite Ei.
      specialize (Hp (jhas s (queuePauses db) && negb (jhas s (queuePauses db3)))).
      destruct (negb _ || _); cbn [snd]; by rewrite Hp, Hq.
    - rewrite Ei. apply HJ.
    - intros s' Hne. by eapply pauseOk_others.
    - intros Hwork s' Hs'. rewrite Ei. destruct (decide (s' = s)) as [->|Hne].
      + destruct Hw as [Hw|Hw]; [exact Hw|by destruct Hw].
      + eapply work_frame; [apply HJ|done|]. apply Hwork. apply elem_pausedSet in Hs'. apply elem_pausedSet.
        unfold jhas in *. by erewrite pauseOk_others in Hs'. }
  apply wp_bind, reconcile_result; intros Hrows.
  - apply Hend; [done..| |by left]. by rewrite (J_pauses _ _ _ _ _ _ HJ).
  - apply Hend; [done..| | |right]; [by intros (r & Hr & E); rewrite Hrows in E| |]; cbn [queuePauses set_pauses]; rewrite (J_pauses _ _ _ _ _ _ HJ).
    + by apply pauseOk_reconciled.
    + rewrite elem_pausedSet, jhas_jdel, bool_decide_eq_true_2 by done. done.
Qed.

(** ** The helpers *)
Definition post {A : Type} (s : jstr) (v : gset (jstr * jstr)) (o : list Row) (q : jmap jstr QueuePause)
    (Q : A -> AppDb T -> Prop) (r : Committed A) (db : AppDb T) : Prop :=
  (exists q', J s v o q' (snd r) db /\ PauseOk s q (snd r) q' (queueItems db)) /\ Q (fst r) db.

Lemma post_kept {A} s v o q (Q : A -> AppDb T -> Prop) a fs db :
  J s v o q fs db -> execs fs = [] -> Q a db -> post s v o q Q (a, fs) db.
Proof. intros HJ Hx HQ. split; [|done]. exists q. split; [done|]. apply pause_kept; auto. Qed.

Lemma wp_and {A} (m : M A) (Q1 Q2 : A -> AppDb T -> Prop) db :
  wp m Q1 db -> wp m Q2 db -> wp m (fun a db' => Q1 a db' /\ Q2 a db') db.
Proof. unfold wp. destruct (m db) as [|[a db']]; auto. Qed.

Lemma wp_deleteExpired s now (Q : list QueueItem -> AppDb T -> Prop) db :
  Q (map rowData (List.filter (expiredQueued s now) (queueItems db)))
    (set_items (List.filter (fun r => negb (expiredQueued s now r))) db) ->
  wp (deleteExpired s now) Q db.
Proof. intros HQ. apply wp_bind, wp_selectItems. intros _. apply wp_bind, wp_modify, wp_ret, HQ. Qed.

Lemma expiredQueued_in s now r : expiredQueued s now r = true -> inSession s r = true.
Proof. unfold expiredQueued. intros [[? _]%andb_true_iff _]%andb_true_iff. done. Qed.

Lemma bodyOk_afterExpiry {A} s now (k : list QueueCommittedFact -> M (Committed A)) Q db :
  (forall v o q fs db1, J s v o q fs db1 -> execs fs = [] -> turns db1 = turns db ->
     queueItems db1 = List.filter (fun r => negb (expiredQueued s now r)) (queueItems db) ->
     q = queuePauses db -> wp (k fs) (post s v o q Q) db1) ->
  bodyOk s (afterExpiry s now k) Q db.
Proof.
  intros Hk v o q HJ. apply wp_bind, wp_deleteExpired.
  apply Hk; [|by apply execs_map|done|done|symmetry; apply HJ].
  apply (J_delete _ _ _ _ [] _ (expiredQueued s now)); [done|apply removalFact_isRemoval|apply expiredQueued_in].
Qed.

Lemma wp_selectFirst_row p (Q : option QueueItem -> AppDb T -> Prop) db :
  (Forall (fun r => p r = false) (queueItems db) -> Q None db) ->
  (forall r, r ∈ queueItems db -> p r = true -> isQueueItem (rowData r) = true -> Q (Some (rowData r)) db) ->
  wp (selectFirst p) Q db.
Proof.
  intros H0 H1. apply wp_selectFirst.
  - intros E. apply H0, Forall_forall. intros r Hr. destruct (p r) eqn:Ep; [|done].
    assert (r ∈ List.filter p (queueItems db)) as Hin by by apply elem_filter.
    rewrite E in Hin. by apply elem_of_nil in Hin.
  - intros r l E Hi. assert (r ∈ List.filter p (queueItems db)) as [Hp Hr]%elem_filter by (rewrite E; left).
    by apply H1.
Qed.

Lemma wp_find s id (Q : option QueueItem -> AppDb T -> Prop) db :
  ((s, id) ∉ keys (queueItems db) -> Q None db) ->
  (forall r, r ∈ queueItems db -> key r = (s, id) -> isQueueItem (rowData r) = true -> Q (Some (rowData r)) db) ->
  wp (find s id) Q db.
Proof.
  intros H0 H1. apply wp_selectFirst_row.
  - intros Hn. apply H0. apply existsb_hasItem_false. apply not_true_is_false. intros (r & Hr & E)%existsb_exists.
    rewrite Forall_forall in Hn. rewrite Hn in E; [done|by apply list_elem_of_In].
  - intros r Hr E%hasItem_spec Hi. by apply H1.
Qed.

Lemma pendingIn_row s (r : Row) db : wf_db db -> r ∈ queueItems db -> inSession s r = true ->
  pendingIn s (rowData r) db.
Proof.
  intros Hwf Hr Hs. pose proof (wf_data _ _ _ Hwf Hr) as E. unfold pendingIn, rowData. split.
  - apply inSession_spec in Hs. rewrite <- Hs, <- E. done.
  - rewrite E. apply elem_keys. by exists r.
Qed.

Lemma write_present i db : ikey_of i ∈ keys (queueItems db) ->
  write i db = inr (tt, set_items (overwrite (hasItem (sessionId i) (itemId i)) (storage i)) db).
Proof. intros H. unfold write. cbn. by rewrite (proj2 (existsb_hasItem _ _ _) H). Qed.

(** Overwriting a row that is there with an item of the same identity. *)
Lemma wp_writeRow s v o q fs db r i (Q : unit -> AppDb T -> Prop) :
  J s v o q fs db -> r ∈ queueItems db -> key r = ikey_of i -> sessionId i = s ->
  (status i = queued \/ status i = k_status (snd r)) ->
  (forall db', J s v o q fs db' ->
     queueItems db' = overwrite (hasItem s (itemId i)) (storage i) (queueItems db) ->
     turns db' = turns db -> Q tt db') ->
  wp (write i) Q db.
Proof.
  intros HJ Hr Hk Hs Hst HQ.
  assert (Hin : ikey_of i ∈ keys (queueItems db)) by (apply elem_keys; by exists r).
  assert (HP : wp (write i) (fun _ => J s v o q fs) db).
  { apply J_write; [done|by split|]. destruct Hst as [?|E]; [by left|right; left]. by exists r. }
  unfold wp in *. rewrite write_present in * by done. subst s. by apply HQ.
Qed.

Lemma wp_deleteItems s o q f items : isRemoval f -> forall v fs db, J s v o q fs db ->
  Forall (fun i => pendingIn s i db) items -> NoDup (map ikey_of items) ->
  wp (deleteItems s items) (fun _ db' => J s v o q (fs ++ map f items) db' /\ turns db' = turns db
    /\ queueItems db' = List.filter (fun r => negb (bool_decide (key r ∈ map ikey_of items))) (queueItems db)) db.
Proof.
  intros Hf. induction items as [|i items IH]; intros v fs db HJ Hin Hnd; cbn [deleteItems map].
  - apply wp_ret. rewrite app_nil_r. split_and!; [done..|]. symmetry. apply filter_Forall_id, Forall_forall.
    intros r _. rewrite bool_decide_eq_false_2; [done|]. apply not_elem_of_nil.
  - apply Forall_cons in Hin as [Hi Hin]. apply NoDup_cons in Hnd as [Hni Hnd].
    apply wp_bind, wp_modify.
    pose proof (J_deleteItem _ _ _ _ _ _ _ _ HJ Hf Hi) as HJ1.
    eapply wp_mono; [apply IH; [exact HJ1| |done]|].
    + rewrite Forall_forall in Hin |- *. intros j Hj. destruct (Hin j Hj) as [Hs Hk]. split; [done|].
      cbn [queueItems set_items]. apply elem_keys in Hk as (r & Hr & E). apply elem_keys. exists r.
      split; [|done]. apply elem_filter. split; [|done]. apply negb_true_iff.
      destruct (hasItem s (itemId i) r) eqn:Eh; [|done]. apply hasItem_spec in Eh. destruct Hni.
      apply list_elem_of_fmap. exists j. split; [|done]. destruct Hi as [<- _]. unfold ikey_of at 1.
      by rewrite <- Eh.
    + intros [] db' (H1 & H2 & H3). rewrite <- app_assoc in H1. split_and!; [exact H1|exact H2|].
      rewrite H3. cbn [queueItems set_items]. clear -Hi. destruct Hi as [Hs _].
      induction (queueItems db) as [|r l IHl]; simpl; [done|].
      assert (hasItem s (itemId i) r = bool_decide (key r = ikey_of i)) as ->.
      { apply eq_true_iff_eq. rewrite hasItem_spec, bool_decide_eq_true. unfold ikey_of. by rewrite Hs. }
      destruct (bool_decide_reflect (key r = ikey_of i)) as [E|E]; simpl.
      * rewrite IHl. rewrite bool_decide_eq_true_2; [done|]. rewrite E. left.
      * rewrite IHl. destruct (decide (key r ∈ map ikey_of items)) as [H|H].
        -- rewrite !bool_decide_eq_true_2; [done|by right|done].
        -- rewrite !bool_decide_eq_false_2; [done| |done]. by intros [?|?]%elem_of_cons.
Qed.

(** Which rows a helper may have changed: those of the keys [ks], which it
    drops or leaves queued. *)
Definition touches (ks : list (jstr * jstr)) (l l' : list Row) : Prop :=
  (forall r, r ∈ l' -> (r ∈ l /\ key r ∉ ks) \/ (k_status (snd r) = queued /\ key r ∈ ks))
  /\ (forall r, r ∈ l -> key r ∉ ks -> r ∈ l').

Lemma touches_nil l : touches [] l l.
Proof. split; [intros r Hr; left; split; [done|apply not_elem_of_nil]|done]. Qed.

Lemma touches_app ks ks' l1 l2 l3 : touches ks l1 l2 -> touches ks' l2 l3 -> touches (ks ++ ks') l1 l3.
Proof.
  intros [H1 H2] [H3 H4]. split.
  - intros r Hr. rewrite elem_of_app. destruct (H3 r Hr) as [[Hr2 Hk]|[Hst Hk]]; [|by right; auto].
    destruct (H1 r Hr2) as [[Hr1 Hk1]|[Hst Hk1]]; [left|by right; auto]. split; [done|]. by intros [?|?].
  - intros r Hr Hk. rewrite elem_of_app in Hk. apply H4; [apply H2|]; tauto.
Qed.

Lemma touches_filter ks l : touches ks l (List.filter (fun r => negb (bool_decide (key r ∈ ks))) l).
Proof.
  split.
  - intros r [Hk Hr]%elem_filter. left. split; [done|]. by apply negb_true_iff, bool_decide_eq_false in Hk.
  - intros r Hr Hk. apply elem_filter. split; [|done]. by apply negb_true_iff, bool_decide_eq_false.
Qed.

Lemma touches_delete s i l : touches [(s, i)] l (List.filter (fun r => negb (hasItem s i r)) l).
Proof.
  split.
  - intros r [Hk Hr]%elem_filter. left. split; [done|]. intros E%list_elem_of_singleton.
    rewrite (proj2 (hasItem_spec s i r) E) in Hk. done.
  - intros r Hr Hk. apply elem_filter. split; [|done]. apply negb_true_iff.
    destruct (hasItem s i r) eqn:E; [|done]. apply hasItem_spec in E. rewrite E in Hk. set_solver.
Qed.

Lemma overwrite_elem s i c l r : r ∈ overwrite (hasItem s i) c l <->
  (r ∈ l /\ key r <> (s, i)) \/ (exists r0, r0 ∈ l /\ key r0 = (s, i) /\ r = (fst r0, c)).
Proof.
  unfold overwrite. rewrite list_elem_of_fmap. split.
  - intros (r0 & -> & Hr0). destruct (hasItem s i r0) eqn:E.
    + right. exists r0. by apply hasItem_spec in E.
    + left. split; [done|]. intros Ek. by rewrite (proj2 (hasItem_spec s i r0) Ek) in E.
  - intros [[Hr Hk]|(r0 & Hr0 & Hk & ->)].
    + exists r. destruct (hasItem s i r) eqn:E; [|done]. by apply hasItem_spec in E.
    + exists r0. by rewrite (proj2 (hasItem_spec s i r0) Hk).
Qed.

Lemma touches_overwrite s i l : sessionId i = s -> status i = queued ->
  touches [(s, itemId i)] l (overwrite (hasItem s (itemId i)) (storage i) l).
Proof.
  intros <- Hst. split.
  - intros r [[Hr Hk]|(r0 & Hr0 & Hk & ->)]%overwrite_elem.
    + left. split; [done|]. by intros ?%list_elem_of_singleton.
    + right. split; [done|]. by left.
  - intros r Hr Hk. apply overwrite_elem. left. split; [done|]. intros E. apply Hk. rewrite E. by left.
Qed.

(** The item of a row of the session. *)
Definition rowItem (s : jstr) (l : list Row) (i : QueueItem) : Prop :=
  exists r, r ∈ l /\ rowData r = i /\ key r = ikey_of i /\ sessionId i = s.

Lemma rowItem_select s db p i : wf_db db -> (forall r, p r = true -> inSession s r = true) ->
  i ∈ map rowData (List.filter p (queueItems db)) -> rowItem s (queueItems db) i.
Proof.
  intros Hwf Hp (r & -> & [Hr Hin]%elem_filter)%list_elem_of_fmap. exists r.
  pose proof (wf_data _ _ _ Hwf Hin) as E. destruct (pendingIn_row s r db Hwf Hin (Hp _ Hr)) as [Es _].
  by split_and!.
Qed.

Lemma rowItem_pending s db i : rowItem s (queueItems db) i -> pendingIn s i db.
Proof. intros (r & Hr & <- & Hk & Hs). split; [done|]. apply elem_keys. by exists r. Qed.

Lemma rowItem_touched s ks l l' i : touches ks l l' -> ikey_of i ∉ ks -> rowItem s l i -> rowItem s l' i.
Proof.
  intros [_ H] Hk (r & Hr & E & Ek & Es). exists r. split_and!; [|done..]. apply H; [done|]. by rewrite Ek.
Qed.

Lemma keys_select s db p : wf_db db -> (forall r, p r = true -> inSession s r = true) ->
  NoDup (map ikey_of (map rowData (List.filter p (queueItems db)))).
Proof.
  intros Hwf Hp. unfold rowData. rewrite (keys_of_data _ _ Hwf) by (intros r [_ ?]%elem_filter; done).
  apply NoDup_map_filter, Hwf.
Qed.

Lemma J_requeued s v o q fs db i t src c a : J s v o q fs db -> pendingIn s i db ->
  J s v o q (fs ++ [fact_requeued (sessionId i) (itemId i) src c t a]) db.
Proof.
  intros [Hwf Hr Ho Hq] [Hs Hin]. split; [done| |done..]. rewrite foldFacts_app, Hr. cbn.
  by rewrite decide_True by done.
Qed.

Lemma wp_releaseItems s o q now reason items : forall v fs db, J s v o q fs db ->
  Forall (rowItem s (queueItems db)) items -> NoDup (map ikey_of items) ->
  wp (releaseItems s now reason items) (fun r db' => J s v o q (fs ++ snd r) db' /\ turns db' = turns db
    /\ execs (snd r) = [] /\ touches (map ikey_of items) (queueItems db) (queueItems db')) db.
Proof.
  induction items as [|i items IH]; intros v fs db HJ Hin Hnd; cbn [releaseItems map].
  - apply wp_ret. cbn [snd]. rewrite app_nil_r. split_and!; [done..|]. apply touches_nil.
  - apply Forall_cons in Hin as [Hi Hin]. apply NoDup_cons in Hnd as [Hni Hnd].
    assert (Hrest : forall l', touches [ikey_of i] (queueItems db) l' -> Forall (rowItem s l') items).
    { intros l' Ht. rewrite Forall_forall in Hin |- *. intros j Hj. eapply rowItem_touched; [done| |auto].
      intros E%list_elem_of_singleton. apply Hni. rewrite <- E. apply list_elem_of_fmap. by exists j. }
    destruct (rowItem_pending _ _ _ Hi) as [Hs Hk]. assert (Eik : ikey_of i = (s, itemId i)) by (unfold ikey_of; by rewrite Hs).
    destruct (expired i now).
    + apply wp_bind, wp_modify.
      pose proof (touches_delete s (itemId i) (queueItems db)) as Ht. rewrite <- Eik in Ht.
      eapply wp_use.
      { apply (IH v (fs ++ [removalFact expired_reason now i])); [|by apply Hrest|done].
        apply (J_deleteItem _ _ _ _ _ _ i (removalFact expired_reason now)); [done|apply removalFact_isRemoval|done]. }
      intros [rel facts] db1 (H1 & H2 & H3 & H4). cbn [snd] in *. apply wp_ret. cbn [snd].
      rewrite <- app_assoc in H1. split_and!; [done..|]. exact (touches_app [_] _ _ _ _ Ht H4).
    + destruct Hi as (r & Hr & Er & Ek & _). apply wp_bind, wp_bind.
      apply (wp_writeRow s v o q fs db r); [done..|by left|]. intros db1 HJ1 E1 Et1. apply wp_ret.
      pose proof (touches_overwrite s (withoutClaim i) (queueItems db) Hs eq_refl) as Ht.
      change (itemId (withoutClaim i)) with (itemId i) in Ht, E1. rewrite <- E1, <- Eik in Ht.
      eapply wp_use.
      { apply (IH v (fs ++ [requeueFact (withoutClaim i) now reason])); [|by apply Hrest|done].
        apply (J_requeued _ _ _ _ _ _ (withoutClaim i)); [done|]. split; [done|].
        change (ikey_of (withoutClaim i)) with (ikey_of i). rewrite E1.
        apply elem_keys. exists (fst r, storage (withoutClaim i)). split; [|done].
        apply overwrite_elem. right. exists r. split_and!; [done| |done]. by rewrite Ek. }
      intros [rel facts] db2 (H1 & H2 & H3 & H4). cbn [snd] in *. apply wp_ret. cbn [snd].
      rewrite <- app_assoc in H1. rewrite Et1 in H2. split_and!; [done..|].
      exact (touches_app [_] _ _ _ _ Ht H4).
Qed.

(** ** Enqueueing *)
Lemma keys_filter p l : keys (List.filter p l) ⊆ keys l.
Proof. intros k (r & [_ Hr]%elem_filter & E)%elem_keys. apply elem_keys. by exists r. Qed.

(** The claimed row of a batch member, deleted and reported. *)
Lemma settle_claimed s v o q fs db now i (m : BatchMember) (Q : list QueueCommittedFact -> AppDb T -> Prop) :
  J s v o q fs db -> pendingIn s i db -> Q [] db ->
  (forall db', J s v o q (fs ++ [removalFact injected now i]) db' -> keys (queueItems db') ⊆ keys (queueItems db) ->
     Q [removalFact injected now i] db') ->
  wp (if negb (bool_decide (status i = claimed)) then mret []
      else if otruthy (userMessageId i) && negb (bool_decide (userMessageId i = Some (b_userMessageId m)))
      then throw TypeError
      else _ ← deleteItem (sessionId i) (itemId i); mret [removalFact injected now i]) Q db.
Proof.
  intros HJ Hi H0 H1. case_match; [by apply wp_ret|]. case_match; [apply wp_throw|].
  apply wp_bind, wp_modify, wp_ret. destruct Hi as [Hs Hk]. rewrite Hs. apply H1.
  - by apply (J_deleteItem _ _ _ _ _ _ i (removalFact injected now)); [|apply removalFact_isRemoval|].
  - apply keys_filter.
Qed.

Definition settled (s : jstr) (v : gset (jstr * jstr)) (o : list Row) (q : jmap jstr QueuePause)
    (fs : list QueueCommittedFact) (db : AppDb T) (f : list QueueCommittedFact) (db' : AppDb T) : Prop :=
  J s v o q (fs ++ f) db' /\ execs f = [] /\ keys (queueItems db') ⊆ keys (queueItems db).

Lemma wp_settleMember s v o q fs db now m : J s v o q fs db ->
  wp (settleMember s now m) (settled s v o q fs db) db.
Proof.
  intros HJ. assert (H0 : settled s v o q fs db [] db) by (unfold settled; by rewrite app_nil_r).
  assert (H1 : forall i db', J s v o q (fs ++ [removalFact injected now i]) db' ->
      keys (queueItems db') ⊆ keys (queueItems db) ->
      settled s v o q fs db [removalFact injected now i] db') by (intros i db' ? ?; by split_and!).
  unfold settleMember.
  destruct (match queueClaim m with Some c => Some (qc_itemId c) | None => sourceMessageId m end) as [[|c0 id]|];
    [by apply wp_ret| |by apply wp_ret].
  apply wp_bind, wp_find.
  - intros _. destruct (queueClaim m); by apply wp_ret.
  - intros r Hr Hk _.
    assert (pendingIn s (rowData r) db).
    { apply pendingIn_row; [apply HJ|done|]. apply inSession_spec. by rewrite Hk. }
    destruct (queueClaim m) as [c|]; [case_match; [by apply wp_ret|]|]; eapply settle_claimed; eauto.
Qed.

Lemma wp_settleBatch s v o q now ms : forall fs db, J s v o q fs db ->
  wp (settleBatchMemberClaims s now ms) (settled s v o q fs db) db.
Proof.
  induction ms as [|m ms IH]; intros fs db HJ; cbn [settleBatchMemberClaims].
  - apply wp_ret. unfold settled. by rewrite app_nil_r.
  - eapply wp_use; [by apply wp_settleMember|]. intros f db1 (H1 & H2 & H3).
    eapply wp_use; [by apply IH|]. intros f' db2 (H4 & H5 & H6). apply wp_ret.
    split_and!; [by rewrite app_assoc|by rewrite execs_app, H2, H5|by etransitivity].
Qed.

Lemma wp_restorable s v o q fs db now id : J s v o q fs db ->
  wp (restorableIdentity s id) (fun r db' =>
    J s v o q (fs ++ optionalFact (match r with Some (_, d) => d | None => None end) (removalFact cancelled now)) db'
    /\ keys (queueItems db') ⊆ keys (queueItems db)
    /\ match r with Some (i, _) => (s, i) ∉ keys (queueItems db') | None => True end) db.
Proof.
  intros HJ. destruct id as [[|c0 id]|]; cbn [restorableIdentity];
    [apply wp_ret; cbn; by rewrite app_nil_r| |apply wp_ret; cbn; by rewrite app_nil_r].
  apply wp_bind, wp_find.
  - intros Hn. apply wp_ret. cbn. by rewrite app_nil_r.
  - intros r Hr Hk _.
    assert (Hp : pendingIn s (rowData r) db).
    { apply pendingIn_row; [apply HJ|done|]. apply inSession_spec. by rewrite Hk. }
    case_match; [apply wp_ret; cbn; by rewrite app_nil_r|].
    apply wp_bind, wp_modify, wp_ret. cbn [optionalFact]. split_and!.
    + by apply (J_deleteItem _ _ _ _ _ _ _ (removalFact cancelled now)); [|apply removalFact_isRemoval|].
    + apply keys_filter.
    + intros (r' & [Hn Hr']%elem_filter & Ek)%elem_keys.
      assert (Eid : ikey_of (rowData r) = (s, c0 :: id)) by (unfold rowData; rewrite (wf_data _ _ _ (J_wf _ _ _ _ _ _ HJ)); done).
      unfold ikey_of in Eid. injection Eid as _ Eid. rewrite Eid in Hn.
      by rewrite (proj2 (hasItem_spec s (c0 :: id) r') Ek) in Hn.
Qed.

(** A queued item written under a new key. *)
Lemma wp_writeNew s v o q fs db i : J s v o q fs db -> sessionId i = s -> status i = queued ->
  ikey_of i ∉ keys (queueItems db) ->
  wp (write i) (fun _ db' => J s v o q (fs ++ [enqueueFact i]) db'
    /\ exists r, r ∈ queueItems db' /\ key r = ikey_of i /\ k_status (snd r) = status i) db.
Proof.
  intros [Hwf Hr Ho Hq] Hs Hst Hn. unfold wp, write. cbn [storage k_sessionId k_itemId].
  rewrite (proj2 (existsb_hasItem_false _ _ _) Hn). split.
  - split; cbn [queueItems nextId queuePauses add_row].
    + apply wf_add; [done..|by left].
    + rewrite foldFacts_app, Hr. cbn. unfold ikey_of in Hn. rewrite decide_False by done.
      f_equal. rewrite keys_app, keys_cons, key_storage. unfold ikey_of. set_solver.
    + by rewrite others_snoc.
    + done.
  - exists (nextId db, storage i). split_and!; [|done..]. cbn. apply elem_of_app. right. by left.
Qed.

(** The row of [p] taken over by [i]. *)
Lemma wp_replaceItem s v o q fs db p i r t :
  J s v o q fs db -> r ∈ queueItems db -> key r = ikey_of p -> sessionId p = s ->
  sessionId i = s -> status i = queued -> ikey_of i ∉ keys (queueItems db) ->
  wp (replaceItem p i) (fun _ db' => J s v o q (fs ++ [removalFact cancelled t p; enqueueFact i]) db'
    /\ exists r', r' ∈ queueItems db' /\ key r' = ikey_of i /\ k_status (snd r') = status i) db.
Proof.
  intros [Hwf Hr Ho Hq] Hin Hk Hsp Hs Hst Hn. unfold wp, replaceItem.
  destruct (existsb _ _); [done|].
  assert (Hp : (sessionId p, itemId p) ∈ keys (queueItems db)) by (apply elem_keys; by exists r).
  destruct (overwrite_split (sessionId p) (itemId p) (storage i) (queueItems db))
    as (l1 & r0 & l2 & E & Hk0 & E'); [apply Hwf|done|].
  assert (Hi' : ikey_of i ∉ keys (l1 ++ l2)).
  { rewrite E in Hn. rewrite keys_app, keys_cons in Hn. rewrite keys_app. set_solver. }
  split.
  - split; cbn [queueItems nextId queuePauses set_items];
      fold (overwrite (hasItem (sessionId p) (itemId p)) (storage i) (queueItems db)); rewrite ?E'.
    + rewrite E in Hwf. apply wf_middle; [done| |by left].
      intros r' Hr' Er. apply Hi'. apply elem_keys. by exists r'.
    + rewrite foldFacts_app, Hr. cbn. rewrite decide_True by done.
      unfold ikey_of in Hn. rewrite decide_False by set_solver. f_equal.
      assert ((sessionId p, itemId p) ∉ keys (l1 ++ l2)) as Hp'.
      { destruct Hwf as [_ _ Hnd _ _]. rewrite E, map_app in Hnd. simpl in Hnd.
        apply NoDup_app in Hnd as (_ & H2 & [H3 _]%NoDup_cons). rewrite Hk0 in H2, H3.
        intros (r' & [Hr'|Hr']%elem_of_app & Er)%elem_keys.
        - apply (H2 (key r')); [apply list_elem_of_fmap; by exists r'|]. rewrite Er. left.
        - apply H3. apply list_elem_of_fmap. by exists r'. }
      rewrite E, !keys_app, !keys_cons, key_storage, Hk0. rewrite keys_app in Hp'. unfold ikey_of. set_solver.
    + rewrite (others_middle s _ r0); [by rewrite E in Ho|done|]. apply inSession_spec. by rewrite Hk0.
    + done.
  - exists (fst r0, storage i). split_and!; [|done..]. cbn [queueItems set_items].
    fold (overwrite (hasItem (sessionId p) (itemId p)) (storage i) (queueItems db)). rewrite E'. set_solver.
Qed.

Lemma wp_move s v o q fs db i : J s v o q fs db -> sessionId i = s ->
  (exists r, r ∈ queueItems db /\ key r = ikey_of i /\ k_status (snd r) = status i) ->
  wp (moveQueuedToFront i) (fun _ => J s v o q fs) db.
Proof.
  intros HJ Hs Hr. eapply wp_mono; [by apply wp_moveQueuedToFront; [eapply J_Sound| |]|].
  intros [] db' (H1 & H2 & _). by eapply Sound_J.
Qed.

Lemma wp_enqueueResult i (Q : QueueEnqueueResult -> AppDb T -> Prop) db :
  (forall n, Q {| r_item := i; position := n |} db) -> wp (enqueueResult i) Q db.
Proof. intros HQ. apply HQ. Qed.

Lemma wp_maybeMove s v o q fs db i (b : bool) (Q : unit -> AppDb T -> Prop) : J s v o q fs db -> sessionId i = s ->
  (exists r, r ∈ queueItems db /\ key r = ikey_of i /\ k_status (snd r) = status i) ->
  (forall db', J s v o q fs db' -> Q tt db') ->
  wp (if b then moveQueuedToFront i else mret tt) Q db.
Proof.
  intros HJ Hs Hr HQ. destruct b; [|by apply wp_ret, HQ]. eapply wp_mono; [by eapply wp_move|].
  intros []. apply HQ.
Qed.

(** The key of the new item is free: the caller's identifiers are new, and a
    restored identity is checked. *)
Definition freshId (op : QueueOptions T) (db : AppDb T) : Prop :=
  forall s, (s, makeId op (js "queue")) ∉ keys (queueItems db).

Lemma wp_insertEnqueue op s v o q fs db input now :
  J s v o q fs db -> execs fs = [] -> in_sessionId input = s ->
  (s, makeId op (js "queue")) ∉ keys (queueItems db) ->
  wp (insertEnqueue op input now fs) (post s v o q (fun _ _ => True)) db.
Proof.
  intros HJ Hx Hs Hfresh. unfold insertEnqueue. rewrite Hs.
  eapply wp_use; [by apply wp_settleBatch|]. intros batch db1 (HJ1 & Hx1 & Hk1).
  eapply wp_use; [by apply (wp_restorable s v o q (fs ++ batch) db1 now)|]. intros restored db2 (HJ2 & Hk2 & Hr).
  set (item := makeQueued input _ now).
  assert (His : sessionId item = s) by done. assert (Hst : status item = queued) by done.
  assert (Hni : ikey_of item ∉ keys (queueItems db2)).
  { unfold ikey_of. rewrite His. destruct restored as [[i d]|]; [exact Hr|]. cbn. set_solver. }
  assert (Hfind : wp (match in_dedupeKey input with
                      | Some (c :: r) => findByDedupeKey s (c :: r)
                      | _ => mret None
                      end) (fun replaced db' => db' = db2 /\ match replaced with
                        | Some p => exists r, r ∈ queueItems db2 /\ key r = ikey_of p /\ sessionId p = s
                        | None => True end) db2).
  { destruct (in_dedupeKey input) as [[|c d]|]; [by apply wp_ret| |by apply wp_ret].
    apply wp_selectFirst_row; [done|]. intros r Hr' [[Es _]%andb_true_iff _]%andb_true_iff _. split; [done|].
    exists r. destruct (pendingIn_row s r db2) as [E _]; [apply HJ2|done..|]. split_and!; [done| |done].
    symmetry. by eapply wf_data; [apply HJ2|]. }
  eapply wp_use; [exact Hfind|]. intros replaced ? [-> Hp].
  assert (Hwrite : wp (match replaced with Some previous => replaceItem previous item | None => write item end)
    (fun _ db' => J s v o q (((fs ++ batch) ++ optionalFact
        (match restored with Some (_, d) => d | None => None end) (removalFact cancelled now))
        ++ optionalFact replaced (removalFact cancelled now) ++ [enqueueFact item]) db'
      /\ exists r, r ∈ queueItems db' /\ key r = ikey_of item /\ k_status (snd r) = status item) db2).
  { destruct replaced as [p|].
    - destruct Hp as (r & Hr' & Ek & Es). by eapply (wp_replaceItem _ _ _ _ _ _ p item r now).
    - by apply wp_writeNew. }
  eapply wp_use; [exact Hwrite|]. intros [] db3 [HJ3 Hrow].
  apply wp_bind. eapply wp_maybeMove; [exact HJ3|done..|]. intros db4 HJ4.
  apply wp_bind, wp_enqueueResult. intros n. apply wp_ret, post_kept; [| |done].
  - by rewrite <- !app_assoc in HJ4.
  - rewrite !execs_app, Hx, Hx1. destruct restored as [[? [?|]]|], replaced; done.
Qed.

Lemma wp_attach s v o q fs db r t (Q : QueueItem -> AppDb T -> Prop) :
  J s v o q fs db -> r ∈ queueItems db -> inSession s r = true ->
  (forall i db', J s v o q fs db' -> sessionId i = s ->
     (exists r', r' ∈ queueItems db' /\ key r' = ikey_of i /\ k_status (snd r') = status i) ->
     (otruthy t = false \/ otruthy (requestedTurnId (rowData r)) = true -> i = rowData r /\ db' = db) ->
     Q i db') ->
  wp (attachRequestedTurnId (rowData r) t) Q db.
Proof.
  intros HJ Hr Hs HQ. pose proof (J_wf _ _ _ _ _ _ HJ) as Hwf.
  destruct (pendingIn_row s r db Hwf Hr Hs) as [Es _].
  pose proof (wf_data _ _ _ Hwf Hr) as Ek. pose proof (wf_status _ _ _ Hwf Hr) as Est.
  assert (H0 : otruthy t = false \/ otruthy (requestedTurnId (rowData r)) = true -> Q (rowData r) db).
  { intros _. apply HQ; [done..|by exists r|done]. }
  destruct t as [[|c t]|]; cbn [attachRequestedTurnId]; [by apply wp_ret; auto| |by apply wp_ret; auto].
  destruct (otruthy (requestedTurnId (rowData r))) eqn:E; [apply wp_ret; auto|].
  apply wp_bind. set (i := with_requestedTurnId (c :: t) (rowData r)).
  apply (wp_writeRow s v o q fs db r i); [done|done|by rewrite <- Ek|done|by right|].
  intros db' HJ' Hq _. apply wp_ret, HQ; [done..| |naive_solver].
  exists (fst r, storage i). split_and!; [|done..]. rewrite Hq. apply overwrite_elem. right. exists r.
  split_and!; [done| |done]. rewrite <- Ek. unfold ikey_of. by rewrite <- Es.
Qed.

Lemma wp_replayEnqueue s v o q fs db input r :
  J s v o q fs db -> execs fs = [] -> r ∈ queueItems db -> inSession s r = true ->
  wp (replayEnqueue input (rowData r) fs) (post s v o q (fun _ _ => True)) db.
Proof.
  intros HJ Hx Hr Hs. apply wp_bind. eapply wp_attach; [done..|]. intros i db1 HJ1 Es Hrow _.
  apply wp_bind. eapply wp_maybeMove; [exact HJ1|done..|]. intros db2 HJ2.
  apply wp_bind, wp_enqueueResult. intros n. by apply wp_ret, post_kept.
Qed.

Lemma bodyOk_enqueue op input db :
  (in_sessionId input, makeId op (js "queue")) ∉ keys (queueItems db) ->
  bodyOk (in_sessionId input) (enqueueInTransaction op input) (fun _ _ => True) db.
Proof.
  intros Hfresh. apply bodyOk_afterExpiry. intros v o q fs db1 HJ Hx Ht Hrows _.
  destruct (match in_expiresAt input with Some e => (e <=? nowMs op)%Z | None => false end);
    [by apply wp_ret, post_kept|].
  apply wp_bind, wp_reads. case_match; [by apply wp_ret, post_kept|].
  assert (Hf1 : (in_sessionId input, makeId op (js "queue")) ∉ keys (queueItems db1)).
  { rewrite Hrows. intros H1. apply Hfresh. by apply keys_filter in H1. }
  apply wp_bind. destruct (in_clientRequestId input) as [[|c l]|].
  1,3: by apply wp_ret, wp_insertEnqueue.
  apply wp_selectFirst_row.
  - intros _. by apply wp_insertEnqueue.
  - intros r Hr [Es _]%andb_true_iff _. by apply wp_replayEnqueue.
Qed.

(** ** Recovery *)
Lemma claimQuery_some items cid t (Q : QueueClaimAcceptanceQuery -> AppDb T -> Prop) db :
  (forall q, Q q db) -> wp (claimQuery items cid t) Q db.
Proof. intros HQ. destruct items; [done|]. apply wp_ret, HQ. Qed.

Lemma wp_markAcknowledged op qy (Q : unit -> AppDb T -> Prop) db :
  (forall t, Q tt (set_turns t db)) -> wp (markAcknowledged op qy) Q db.
Proof. intros HQ. unfold wp, markAcknowledged. destruct (markAcknowledgedInTransaction _ _ _); [apply HQ|done]. Qed.

Lemma J_turns s v o q fs db t : J s v o q fs db -> J s v o q fs (set_turns t db).
Proof. intros []. by split. Qed.

Definition groupKeys (groups : jmap jstr (list QueueItem)) : list (jstr * jstr) :=
  concat (map (fun e => map ikey_of (snd e)) groups).

Lemma wp_recoverGroups op s o q groups : forall v fs db, J s v o q fs db ->
  Forall (fun e => Forall (rowItem s (queueItems db)) (snd e)) groups -> NoDup (groupKeys groups) ->
  wp (recoverGroups op s groups) (fun r db' => J s v o q (fs ++ snd r) db' /\ execs (snd r) = []
    /\ touches (groupKeys groups) (queueItems db) (queueItems db')) db.
Proof.
  induction groups as [|[cid items] groups IH]; intros v fs db HJ Hin Hnd; cbn [recoverGroups].
  - apply wp_ret. cbn. rewrite app_nil_r. split_and!; [done..|]. apply touches_nil.
  - apply Forall_cons in Hin as [Hi Hin]. cbn [snd] in Hi. unfold groupKeys in Hnd. cbn in Hnd.
    apply NoDup_app in Hnd as (Hnd1 & Hd & Hnd2).
    assert (Hrest : forall l', touches (map ikey_of items) (queueItems db) l' ->
        Forall (fun e => Forall (rowItem s l') (snd e)) groups).
    { intros l' Ht. rewrite Forall_forall in Hin |- *. intros e He. specialize (Hin e He).
      rewrite Forall_forall in Hin |- *. intros j Hj. eapply rowItem_touched; [done| |auto].
      intros Hk. apply (Hd _ Hk). apply list_elem_of_In, in_concat. exists (map ikey_of (snd e)).
      rewrite <- !list_elem_of_In. split; apply list_elem_of_fmap; by eexists. }
    apply wp_bind, claimQuery_some. intros qy. apply wp_bind, wp_reads. case_match.
    + apply wp_bind, wp_markAcknowledged. intros t.
      eapply wp_use.
      { apply (wp_deleteItems s o q (removalFact accepted (nowMs op)) items (removalFact_isRemoval _ _) v fs);
          [by apply J_turns| |done].
        eapply Forall_impl; [exact Hi|]. intros j. apply rowItem_pending. }
      intros [] db1 (H1 & _ & H2). cbn [queueItems set_turns] in H2.
      pose proof (touches_filter (map ikey_of items) (queueItems db)) as Ht. rewrite <- H2 in Ht.
      eapply wp_use; [apply (IH v); [exact H1|by apply Hrest|done]|].
      intros [res facts] db2 (H3 & H4 & H5). cbn [snd] in *. apply wp_ret. cbn [snd].
      split_and!; [by rewrite app_assoc|by rewrite execs_app, H4, execs_map|].
      exact (touches_app _ _ _ _ _ Ht H5).
    + eapply wp_use; [by apply (wp_releaseItems s o q (nowMs op) None items v fs)|].
      intros [back more] db1 (H1 & _ & Hx & Ht). cbn [snd] in *.
      eapply wp_use; [apply (IH v); [exact H1|by apply Hrest|done]|].
      intros [res facts] db2 (H3 & H4 & H5). cbn [snd] in *. apply wp_ret. cbn [snd].
      split_and!; [by rewrite app_assoc|by rewrite execs_app, Hx, H4|].
      exact (touches_app _ _ _ _ _ Ht H5).
Qed.

(** ** The methods *)
Abbreviation anything := (fun _ _ => True) (only parsing).

(** A method on session [s]: from well-formed tables it commits facts that
    tell what it did, unless it throws. *)
Definition methodOk {A : Type} (s : jstr) (m : M (Committed A)) : Prop :=
  forall db, wf_db db -> wp m (fun r db' => callOk s db (snd r) db') db.

Lemma transaction_ok {A} op s (body : M (Committed A)) :
  (forall db, bodyOk s body anything db) -> methodOk s (transaction op s body).
Proof.
  intros Hb db Hwf. eapply wp_mono; [apply (wp_transaction op s body anything)|]; [done|auto|].
  intros r db' [H _]. exact H.
Qed.

Lemma wp_mutation {A} op s (body : M (Committed A)) (Q : Committed A -> AppDb T -> Prop) db :
  wp (transaction op s body) Q db -> wp (mutationTransaction op s body) Q db.
Proof.
  intros HQ. unfold mutationTransaction. apply wp_bind. unfold wp at 1, assertMutationAdmitted.
  by destruct (rejectionInTransaction _ _ _ _).
Qed.

Lemma mutation_ok {A} op s (body : M (Committed A)) :
  (forall db, bodyOk s body anything db) -> methodOk s (mutationTransaction op s body).
Proof. intros Hb db Hwf. by apply wp_mutation, transaction_ok. Qed.

(** The common shape: drop what has expired, then continue. *)
Lemma afterExpiry_ok {A} s now (k : list QueueCommittedFact -> M (Committed A)) :
  (forall v o q fs db, J s v o q fs db -> execs fs = [] -> wp (k fs) (post s v o q anything) db) ->
  forall db, bodyOk s (afterExpiry s now k) anything db.
Proof. intros Hk db. apply bodyOk_afterExpiry. intros v o q fs db1 HJ Hx _ _ _. by apply Hk. Qed.

Lemma read_ok {A} s now (m : M A) :
  (forall (Q : A -> AppDb T -> Prop) db1, (forall a, Q a db1) -> wp m Q db1) ->
  forall db, bodyOk s (afterExpiry s now (fun facts => a ← m; mret (a, facts))) anything db.
Proof.
  intros Hm. apply afterExpiry_ok. intros v o q fs db1 HJ Hx. apply wp_bind, Hm. intros a.
  by apply wp_ret, post_kept.
Qed.

Lemma reads_selectItems p (Q : list QueueItem -> AppDb T -> Prop) db :
  (forall a, Q a db) -> wp (selectItems p) Q db.
Proof. intros HQ. apply wp_selectItems. intros _. apply HQ. Qed.

Lemma reads_selectFirst p (Q : option QueueItem -> AppDb T -> Prop) db :
  (forall a, Q a db) -> wp (selectFirst p) Q db.
Proof. intros HQ. apply wp_selectFirst_row; intros; apply HQ. Qed.

Lemma list_ok op s : methodOk s (list_ op s).
Proof. apply transaction_ok, read_ok. intros Q db. apply reads_selectItems. Qed.

Lemma findByClientRequestId_ok op s c : methodOk s (findByClientRequestId op s c).
Proof. apply transaction_ok, read_ok. intros Q db. apply reads_selectFirst. Qed.

Lemma get_ok op s i : methodOk s (get op s i).
Proof. apply transaction_ok, read_ok. intros Q db. apply reads_selectFirst. Qed.

Lemma wp_snapshot_end s v o q fs db gs q' :
  J s v o q' (fs ++ gs) db -> PauseOk s q (fs ++ gs) q' (queueItems db) ->
  wp (snap ← executionSnapshot s; mret (snap, fs ++ gs)) (post s v o q anything) db.
Proof.
  intros HJ HP. apply wp_bind, wp_bind, wp_reads, wp_bind, wp_reads, wp_ret, wp_ret.
  split; [|done]. by exists q'.
Qed.

Lemma wp_snapshot_same s v o q fs db q' :
  J s v o q' fs db -> execs fs = [] -> q' = q \/ q' = jdel s q ->
  wp (snap ← executionSnapshot s; mret (snap, fs)) (post s v o q anything) db.
Proof.
  intros HJ Hx Hq. rewrite <- (app_nil_r fs). eapply wp_snapshot_end; rewrite app_nil_r; [exact HJ|].
  by apply pause_kept.
Qed.

Lemma J_pauses_set s v o q fs db f : J s v o q fs db -> J s v o (f q) fs (set_pauses f db).
Proof. intros [? ? ? <-]. by split. Qed.

Lemma J_exec s v o q fs db b : J s v o q fs db -> J s v o q (fs ++ [fact_execution_state s b]) db.
Proof. intros [H1 H2 H3 H4]. split; [done| |done..]. by rewrite foldFacts_app, H2. Qed.

(** After [reconcilePause] the pause is what it was or gone. *)
Lemma wp_reconcileThen {A} s v o q fs db (m : M (Committed A)) :
  J s v o q fs db ->
  (forall db' q', J s v o q' fs db' -> q' = q \/ (q' = jdel s q) -> wp m (post s v o q anything) db') ->
  wp (_ ← reconcilePause s; m) (post s v o q anything) db.
Proof.
  intros HJ Hm. apply wp_bind, reconcile_result; intros _.
  - by eapply Hm; [|left].
  - eapply Hm; [by apply J_pauses_set|by right].
Qed.

Lemma snapshot_ok op s : methodOk s (snapshot op s).
Proof.
  apply transaction_ok, afterExpiry_ok. intros v o q fs db HJ Hx. apply (wp_reconcileThen s v o q fs); [done|].
  intros db' q' HJ' Hq'. by eapply wp_snapshot_same.
Qed.

Lemma pauseIfPending_ok op s c turn : methodOk s (pauseIfPending op s c turn).
Proof.
  apply transaction_ok, afterExpiry_ok. intros v o q fs db HJ Hx. apply (wp_reconcileThen s v o q fs); [done|].
  intros db' q' HJ' Hq'. apply wp_bind, wp_reads, wp_bind, wp_reads. destruct (_ && _) eqn:E; cbn zeta.
  - apply wp_bind, wp_modify. eapply wp_snapshot_end; [by eapply J_exec, J_pauses_set|].
    eapply pause_set; [by rewrite execs_app, Hx|exact Hq'|done|].
    apply andb_true_iff in E as [E _]. apply (inSession_pending s db').
    apply Nat.ltb_lt in E. apply Nat.eqb_neq. lia.
  - apply wp_bind, wp_ret. rewrite app_nil_r. by eapply wp_snapshot_same.
Qed.

Lemma continueQueue_ok op s e : methodOk s (continueQueue op s e).
Proof.
  apply transaction_ok, afterExpiry_ok. intros v o q fs db HJ Hx. apply (wp_reconcileThen s v o q fs); [done|].
  intros db' q' HJ' Hq'. apply wp_bind, wp_reads. rewrite (J_pauses _ _ _ _ _ _ HJ').
  destruct (jget s q') as [p|] eqn:Eg.
  - assert (q' = q) as -> by (destruct Hq' as [?|E]; [done|]; subst q'; by rewrite jget_jdel_eq in Eg).
    destruct (match e with None => true | Some e0 => bool_decide (p = e0) end) eqn:Ed; apply wp_bind.
    + apply wp_modify. eapply wp_snapshot_end; [by eapply J_exec, J_pauses_set|].
      apply pause_cleared; [by rewrite execs_app, Hx| |done]. unfold jhas. by rewrite Eg.
    + apply wp_ret. rewrite app_nil_r. by eapply wp_snapshot_same.
  - apply wp_bind, wp_ret. rewrite app_nil_r. by eapply wp_snapshot_same.
Qed.

Lemma enqueue_ok op input db : wf_db db ->
  (in_sessionId input, makeId op (js "queue")) ∉ keys (queueItems db) ->
  wp (enqueue op input) (fun r db' => callOk (in_sessionId input) db (snd r) db') db.
Proof.
  intros Hwf Hf. unfold enqueue. destruct (negb (validEnqueue input)).
  - apply wp_ret. split; [done|done|done|done|done].
  - apply wp_mutation. eapply wp_mono; [apply (wp_transaction op _ _ anything)|by intros r db' [H _]]; [done|].
    intros db1 E _ _ _. apply bodyOk_enqueue. by rewrite E.
Qed.

Lemma found_row s id r db : wf_db db -> r ∈ queueItems db -> key r = (s, id) ->
  inSession s r = true /\ pendingIn s (rowData r) db /\ key r = ikey_of (rowData r) /\ itemId (rowData r) = id
  /\ status (rowData r) = k_status (snd r).
Proof.
  intros Hwf Hr Hk. assert (Hs : inSession s r = true) by (apply inSession_spec; by rewrite Hk).
  pose proof (wf_data _ _ _ Hwf Hr) as E. split_and!; [done|by apply pendingIn_row|by symmetry| |by eapply wf_status].
  unfold ikey_of in E. rewrite Hk in E. by injection E.
Qed.

(** An edit of a queued row in place. *)
Lemma wp_editRow {A} s v o q fs db r i (a : A) : J s v o q fs db -> execs fs = [] -> r ∈ queueItems db ->
  inSession s r = true -> ikey_of i = ikey_of (rowData r) -> status i = status (rowData r) ->
  wp (_ ← write i; mret (a, fs)) (post s v o q anything) db.
Proof.
  intros HJ Hx Hr Hs Hk Hst. pose proof (J_wf _ _ _ _ _ _ HJ) as Hwf.
  assert (Ek : key r = ikey_of i) by (rewrite Hk; symmetry; by eapply wf_data).
  apply wp_bind. eapply (wp_writeRow s v o q fs db r); [done..| | |].
  - apply inSession_spec in Hs. rewrite Ek in Hs. exact Hs.
  - right. rewrite Hst. by eapply wf_status.
  - intros db' HJ' _ _. by apply wp_ret, post_kept.
Qed.

Lemma updateQueued_ok op u : methodOk (u_sessionId u) (updateQueued op u).
Proof.
  unfold updateQueued. destruct (negb (validUpdate u)); [intros db Hwf; by apply wp_ret|].
  apply mutation_ok, afterExpiry_ok. intros v o q fs db HJ Hx.
  destruct (match u_expiresAt u with Some e => (e <=? nowMs op)%Z | None => false end); [by apply wp_ret, post_kept|].
  apply wp_bind, wp_find; [intros _; by apply wp_ret, post_kept|]. intros r Hr Hk _.
  destruct (found_row _ _ _ _ (J_wf _ _ _ _ _ _ HJ) Hr Hk) as (Hs & _).
  case_match; [by apply wp_ret, post_kept|]. case_match; [by apply wp_ret, post_kept|].
  eapply wp_editRow; [done..| |]; unfold applyUpdate; by destruct (u_message u).
Qed.

Lemma promoteQueuedSource_ok op s id src : methodOk s (promoteQueuedSource op s id src).
Proof.
  apply mutation_ok, afterExpiry_ok. intros v o q fs db HJ Hx.
  apply wp_bind, wp_find; [intros _; by apply wp_ret, post_kept|]. intros r Hr Hk _.
  destruct (found_row _ _ _ _ (J_wf _ _ _ _ _ _ HJ) Hr Hk) as (Hs & _).
  case_match; [by apply wp_ret, post_kept|]. by eapply wp_editRow.
Qed.

Lemma cancel_ok op s id : methodOk s (cancel op s id).
Proof.
  apply mutation_ok, afterExpiry_ok. intros v o q fs db HJ Hx.
  apply wp_bind, wp_find; [intros _; by apply wp_ret, post_kept|]. intros r Hr Hk _.
  destruct (found_row _ _ _ _ (J_wf _ _ _ _ _ _ HJ) Hr Hk) as (Hs & Hp & _ & E & _).
  case_match; [by apply wp_ret, post_kept|]. apply wp_bind, wp_modify, wp_ret, post_kept; [| |done].
  - rewrite <- E. apply (J_deleteItem _ _ _ _ _ _ _ (removalFact cancelled (nowMs op)));
      [done|apply removalFact_isRemoval|done].
  - by rewrite execs_app, Hx.
Qed.

Lemma queuedApi_in s r : queuedApi s r = true -> inSession s r = true.
Proof. unfold queuedApi. intros [[? _]%andb_true_iff _]%andb_true_iff. done. Qed.

Lemma clearUserManageable_ok op s : methodOk s (clearUserManageable op s).
Proof.
  apply mutation_ok, afterExpiry_ok. intros v o q fs db HJ Hx.
  apply wp_bind, wp_bind, wp_selectItems. intros _. apply wp_bind, wp_modify, wp_ret.
  pose proof (J_delete _ _ _ _ _ _ (queuedApi s) (removalFact cancelled (nowMs op)) HJ
    (removalFact_isRemoval _ _) (queuedApi_in s)) as HJ1.
  assert (Hx1 : execs (fs ++ map (removalFact cancelled (nowMs op))
    (map (fun r => dataJson (snd r)) (List.filter (queuedApi s) (queueItems db)))) = []).
  { rewrite execs_app, Hx. by apply execs_map. }
  set (db1 := set_items _ db) in *. apply wp_bind, wp_reads, wp_bind, wp_reads.
  destruct (length (List.filter (inSession s) (queueItems db1)) =? 0)%nat eqn:E; apply wp_bind.
  - apply wp_modify, wp_ret. cbn [andb]. rewrite (J_pauses _ _ _ _ _ _ HJ1), app_assoc.
    destruct (jhas s q) eqn:Eq; cbn [app].
    + split; [|done]. exists (jdel s q). split; [by apply J_exec, J_pauses_set|].
      apply pause_cleared; [cbn [snd]; rewrite execs_app; by rewrite Hx1|done..].
    + split; [|done]. exists (jdel s q). rewrite app_nil_r. split; [by apply J_pauses_set|].
      apply pause_kept; [done|by right].
  - apply wp_ret, wp_ret. cbn [andb]. rewrite app_assoc, app_nil_r. by apply post_kept.
Qed.

Lemma wp_claimRows s v o q fs db cid (Q : list QueueItem -> AppDb T -> Prop) : J s v o q fs db ->
  (forall items, items = map rowData (List.filter (claimRowsWhere s cid) (queueItems db)) ->
     Forall (rowItem s (queueItems db)) items -> NoDup (map ikey_of items) -> Q items db) ->
  wp (claimRows s cid) Q db.
Proof.
  intros HJ HQ. apply wp_selectItems. intros _.
  assert (Hp : forall r, claimRowsWhere s cid r = true -> inSession s r = true).
  { intros r [[? _]%andb_true_iff _]%andb_true_iff. done. }
  apply HQ; [done| |by apply (keys_select s); [apply HJ|]].
  apply Forall_forall. intros i Hi. by eapply rowItem_select; [apply HJ| |].
Qed.

(** Removing all of a claim. *)
Lemma wp_dropClaim {A} s v o q fs db items f (a : A) : J s v o q fs db -> execs fs = [] -> isRemoval f ->
  Forall (rowItem s (queueItems db)) items -> NoDup (map ikey_of items) ->
  wp (_ ← deleteItems s items; mret (a, fs ++ map f items)) (post s v o q anything) db.
Proof.
  intros HJ Hx Hf Hi Hnd. eapply wp_use.
  { apply (wp_deleteItems s o q f items Hf v fs); [done| |done].
    eapply Forall_impl; [exact Hi|]. intros j. apply rowItem_pending. }
  intros [] db' (H1 & _). apply wp_ret, post_kept; [done| |done].
  rewrite execs_app, Hx, execs_map; [done|]. intros i. by apply isRemoval_noexec.
Qed.

Lemma removeClaimed_ok op s cid f : (forall t, isRemoval (f t)) -> methodOk s (removeClaimed op s cid f).
Proof.
  intros Hf. unfold removeClaimed. destruct (negb (truthy cid)); [by intros db Hwf|].
  apply transaction_ok, afterExpiry_ok. intros v o q fs db HJ Hx.
  apply wp_bind. eapply wp_claimRows; [exact HJ|]. intros items _ Hi Hnd.
  destruct items as [|i items]; [apply wp_throw|]. by apply wp_dropClaim.
Qed.

Lemma acknowledgeClaim_ok op s cid turn : methodOk s (acknowledgeClaim op s cid turn).
Proof.
  unfold acknowledgeClaim. destruct (negb (truthy cid)); [by intros db Hwf|].
  apply transaction_ok, afterExpiry_ok. intros v o q fs db HJ Hx.
  apply wp_bind. eapply wp_claimRows; [exact HJ|]. intros items _ Hi Hnd.
  destruct items as [|i items]; [apply wp_throw|].
  apply wp_bind, claimQuery_some. intros qy. apply wp_bind, wp_reads. case_match; [apply wp_throw|].
  apply wp_bind, wp_markAcknowledged. intros t.
  apply wp_dropClaim; [by apply J_turns|done|apply removalFact_isRemoval|done..].
Qed.

Lemma releaseClaim_ok op s cid reason : methodOk s (releaseClaim op s cid reason).
Proof.
  unfold releaseClaim. destruct (negb (truthy cid)); [intros db Hwf; by apply wp_ret|].
  apply transaction_ok, afterExpiry_ok. intros v o q fs db HJ Hx.
  apply wp_bind. eapply wp_claimRows; [exact HJ|]. intros items _ Hi Hnd.
  eapply wp_use; [by apply (wp_releaseItems s o q (nowMs op) reason items v fs)|].
  intros [back more] db' (H1 & _ & H2 & _). cbn [snd] in *. apply wp_ret, post_kept; [done| |done].
  by rewrite execs_app, Hx, H2.
Qed.

Lemma deleteSession_ok op s : methodOk s (deleteSession op s).
Proof.
  apply transaction_ok, afterExpiry_ok. intros v o q fs db HJ Hx.
  apply wp_bind, wp_selectItems. intros _. apply wp_bind, wp_modify, wp_bind, wp_modify, wp_ret, post_kept; [| |done].
  - apply J_marks. by apply J_delete; [|apply removalFact_isRemoval|].
  - rewrite execs_app, Hx. by apply execs_map.
Qed.

Lemma composerInjectable_in s r : composerInjectable s r = true -> inSession s r = true.
Proof. intros [[H%queuedApi_in _]%andb_true_iff _]%andb_true_iff. done. Qed.

Lemma drainComposerInjectable_ok op s : methodOk s (drainComposerInjectable op s).
Proof.
  apply transaction_ok, afterExpiry_ok. intros v o q fs db HJ Hx.
  apply wp_bind, wp_selectItems. intros _. pose proof (J_wf _ _ _ _ _ _ HJ) as Hwf.
  apply wp_dropClaim; [done|done|apply removalFact_isRemoval| |].
  - apply Forall_forall. intros i Hi. eapply rowItem_select; [done|apply (composerInjectable_in s)|exact Hi].
  - apply (keys_select s); [done|apply composerInjectable_in].
Qed.

(** ** Reordering *)
Lemma itemById_spec items id i : NoDup (map itemId items) ->
  itemById items id = Some i <-> i ∈ items /\ itemId i = id.
Proof.
  intros Hnd. unfold itemById.
  assert (E : map fst (map (fun i => (itemId i, i)) items) = map itemId items) by (by rewrite map_map).
  rewrite jof_list_id by (by rewrite E). split.
  - intros (j & Ej & Hj)%jget_Some_elem%list_elem_of_fmap. by simplify_eq.
  - intros [Hi <-]. apply elem_jget; [unfold jkeys; by rewrite E|]. apply list_elem_of_fmap. by exists i.
Qed.

Lemma completePermutation_ids items ids : completePermutation items ids = true -> ids ≡ₚ map itemId items.
Proof.
  unfold completePermutation. intros H. reflect_bools. apply submseteq_length_Permutation.
  - apply NoDup_submseteq; [done|]. intros id Hid.
    match goal with H : forallb _ _ = true |- _ => rename H into Hall end.
    rewrite forallb_forall in Hall. apply list_elem_of_In, Hall, existsb_exists in Hid as (i & Hi & E).
    apply bool_decide_eq_true in E. apply list_elem_of_fmap. exists i. by rewrite list_elem_of_In.
  - rewrite length_map. match goal with H : (_ =? _)%nat = true |- _ => apply Nat.eqb_eq in H; lia end.
Qed.

Lemma reordered_spec items ids : NoDup (map itemId items) -> completePermutation items ids = true ->
  map itemId (omap (itemById items) ids) = ids /\ omap (itemById items) ids ≡ₚ items.
Proof.
  intros Hnd Hc. apply completePermutation_ids in Hc.
  assert (Hmap : map itemId (omap (itemById items) ids) = ids).
  { assert (Hin : forall id, id ∈ ids -> id ∈ map itemId items) by (intros id; by rewrite Hc).
    clear Hc. induction ids as [|id ids IH]; csimpl; [done|].
    pose proof (Hin id ltac:(by left)) as (i & -> & Hi)%list_elem_of_fmap.
    rewrite (proj2 (itemById_spec items _ i Hnd)) by done. csimpl. f_equal. apply IH. intros id' H.
    apply Hin. by right. }
  split; [done|]. apply NoDup_Permutation.
  - apply (NoDup_fmap_1 itemId). change (NoDup (map itemId (omap (itemById items) ids))). rewrite Hmap.
    by rewrite Hc.
  - by apply (NoDup_fmap_1 itemId).
  - intros i. rewrite list_elem_of_omap. split.
    + intros (id & _ & E). by apply itemById_spec in E as [? _].
    + intros Hi. exists (itemId i). split; [|by apply itemById_spec].
      rewrite Hc. apply list_elem_of_fmap. by exists i.
Qed.

Lemma queuedItems_ids s l n : wf_rows l n -> NoDup (map itemId (queuedItems s l)).
Proof.
  intros Hwf. pose proof (wf_keys _ _ Hwf) as Hk.
  apply (NoDup_map_filter _ (fun r => inSession s r && hasStatus queued r)) in Hk.
  assert (E : map key (queuedRows s l) = map (pair s) (map itemId (queuedItems s l))).
  { unfold queuedItems. rewrite !map_map. apply map_ext_in. intros r [Hp Hr]%list_elem_of_In%elem_filter.
    apply andb_true_iff in Hp as [Hp%inSession_spec _]. rewrite <- (wf_data _ _ _ Hwf) by done.
    unfold ikey_of, rowData. f_equal. rewrite <- Hp. rewrite <- (wf_data _ _ _ Hwf) by done. done. }
  unfold queuedRows in E. rewrite E in Hk. by apply (NoDup_fmap_1 (pair s)) in Hk.
Qed.

Lemma noClaim_queued s db : existsb (fun r => inSession s r && hasStatus claimed r) (queueItems db) = false ->
  List.filter (fun r => inSession s r && hasStatus claimed r) (queueItems db) = []
  /\ forall r, r ∈ queueItems db -> inSession s r = inSession s r && hasStatus queued r.
Proof.
  intros Hb. assert (H : forall r, r ∈ queueItems db -> inSession s r && hasStatus claimed r = false).
  { intros r Hr. apply not_true_is_false. intros E. apply not_true_iff_false in Hb. apply Hb.
    apply existsb_exists. exists r. by rewrite <- list_elem_of_In. }
  split; [by apply filter_Forall_nil, Forall_forall|]. intros r Hr. specialize (H r Hr).
  destruct (inSession s r); [|done]. unfold hasStatus in *. by destruct (k_status (snd r)).
Qed.

Lemma filter_ext_elem {A} (f g : A -> bool) l : (forall x, x ∈ l -> f x = g x) -> List.filter f l = List.filter g l.
Proof. intros H. apply filter_ext_in. intros x Hx. by apply H, list_elem_of_In. Qed.

Lemma wp_replaceRows s o q db l : Sound s o q db ->
  existsb (fun r => inSession s r && hasStatus claimed r) (queueItems db) = false ->
  l ≡ₚ queuedItems s (queueItems db) ->
  wp (replaceRows s l) (fun _ db' => Sound s o q db' /\ keys (queueItems db') = keys (queueItems db)
    /\ queuedItems s (queueItems db') = l) db.
Proof.
  intros HS [_ Hq]%noClaim_queued Hperm. pose proof HS as [Hwf _ _].
  assert (E : deleteRows (inSession s) db = deleteRows (fun r => inSession s r && hasStatus queued r) db).
  { unfold deleteRows, modify, set_items. do 3 f_equal. apply filter_ext_elem. intros r Hr. f_equal. by apply Hq. }
  unfold replaceRows, wp, mbind, M_bind. rewrite E. apply (wp_rewriteQueued s o q db l HS).
  - apply Forall_forall. intros i Hi. rewrite Hperm in Hi. by eapply rowData_queued.
  - unfold queuedItems in Hperm. unfold queuedRows in *. rewrite <- (keys_data _ _ _ Hwf) by (by intros r [_ ?]%elem_filter).
    apply set_eq. intros k. rewrite !elem_of_list_to_set. by rewrite (Permutation_map ikey_of Hperm).
Qed.

Lemma reorder_body s ids fs v o q db (Q : option (list QueueItem) -> AppDb T -> Prop) :
  J s v o q fs db -> execs fs = [] ->
  let items := queuedItems s (queueItems db) in
  let busy := existsb (fun r => inSession s r && hasStatus claimed r) (queueItems db) in
  (busy = true \/ completePermutation items ids = false -> Q None db) ->
  (forall l db', busy = false -> completePermutation items ids = true -> map itemId l = ids -> l ≡ₚ items ->
     queuedItems s (queueItems db') = l -> others s (queueItems db') = o -> Q (Some l) db') ->
  wp (busy ← hasClaimed s;
      if (busy : bool) then mret (None, fs)
      else items ← rowsByStatus s queued;
           if negb (completePermutation items ids) then mret (None, fs)
           else _ ← replaceRows s (omap (itemById items) ids); mret (Some (omap (itemById items) ids), fs))
    (post s v o q Q) db.
Proof.
  intros HJ Hx items busy H0 H1. pose proof (J_wf _ _ _ _ _ _ HJ) as Hwf.
  apply wp_bind, wp_reads. fold busy. destruct busy eqn:Eb; [apply wp_ret, post_kept; auto|].
  eapply (wp_use _ _ (fun r db' => r = items /\ db' = db)); [by apply wp_selectItems|]. intros ? ? [-> ->].
  destruct (completePermutation items ids) eqn:Ec; cbn [negb]; [|apply wp_ret, post_kept; auto].
  destruct (reordered_spec _ _ (queuedItems_ids s _ _ Hwf) Ec) as [Hids Hperm].
  eapply wp_use; [eapply wp_replaceRows; [by eapply J_Sound|exact Eb|exact Hperm]|].
  intros [] db' (H2 & H3 & H4). apply wp_ret, post_kept; [by eapply Sound_J|done|].
  apply H1; try done. by destruct H2.
Qed.

Lemma reorder_ok op s ids : methodOk s (reorder op s ids).
Proof. apply mutation_ok, afterExpiry_ok. intros v o q fs db HJ Hx. by apply reorder_body. Qed.

(** ** Claiming and delivering *)
Lemma wp_claimCandidate s v o q fs db c (Q : option QueueItem -> AppDb T -> Prop) :
  c_sessionId c = s -> J s v o q fs db -> Q None db ->
  (forall i, rowItem s (queueItems db) i -> status i = queued -> Q (Some i) db) ->
  wp (claimCandidate c) Q db.
Proof.
  intros <- HJ H0 H1. pose proof (J_wf _ _ _ _ _ _ HJ) as Hwf. unfold claimCandidate.
  assert (Hh : forall l, (forall i, i ∈ l -> i ∈ queuedItems (c_sessionId c) (queueItems db)) -> Q (head l) db).
  { intros [|i l] Hl; [done|]. cbn. pose proof (Hl i ltac:(left)) as Hi.
    apply H1; [|by eapply rowData_queued]. eapply rowItem_select; [done| |exact Hi].
    by intros r [? _]%andb_true_iff. }
  destruct (otruthy (c_itemId c)).
  - apply wp_bind, wp_find; [intros _; by apply wp_ret|]. intros r Hr Hk _. apply wp_ret. cbn [onlyQueuedItem].
    destruct (found_row _ _ _ _ Hwf Hr Hk) as (Hs & [Es _] & Ek & _ & Est).
    destruct (bool_decide_reflect (status (rowData r) = queued)); [|done]. apply H1; [|done].
    by exists r.
  - apply wp_bind, wp_selectItems. intros _. destruct (excludeItemIds c) as [[|x xs]|]; apply wp_ret, Hh;
      [done| |done]. intros i [_ Hi]%elem_filter. exact Hi.
Qed.

Lemma wp_claim op s v o q fs db i cid at_ lease (Q : QueueItem -> AppDb T -> Prop) :
  J s v o q fs db -> rowItem s (queueItems db) i ->
  List.filter (fun r => inSession s r && hasStatus claimed r) (queueItems db) = [] ->
  (forall j db', J s v o q fs db' -> Q j db') -> wp (claim op i cid at_ lease) Q db.
Proof.
  intros HJ (r & Hr & Er & Hk & Hs) Hn HQ. unfold claim. set (j := with_status_claim _ _ _ _ _ _).
  apply wp_bind. eapply wp_mono; [eapply J_write; [exact HJ| |by right; right]|].
  - split; [done|]. apply elem_keys. by exists r.
  - intros [] db' HJ'. by apply wp_ret, HQ.
Qed.

Lemma claimNext_ok op c : methodOk (c_sessionId c) (claimNext op c).
Proof.
  apply transaction_ok, afterExpiry_ok. intros v o q fs db HJ Hx.
  apply wp_bind, wp_reads. case_match; [by apply wp_ret, post_kept|].
  apply wp_bind, wp_reads. destruct (existsb _ _) eqn:Eb; [by apply wp_ret, post_kept|].
  apply noClaim_queued in Eb as [Hn _].
  apply wp_bind. eapply wp_claimCandidate; [done|exact HJ|by apply wp_ret, post_kept|]. intros i Hi _.
  case_match; [by apply wp_ret, post_kept|].
  apply wp_bind. eapply wp_claim; [done..|]. intros j db' HJ'. apply wp_bind. unfold dispatchItem.
  destruct (claimId j) as [[|? ?]|]; try apply wp_throw.
  destruct (claimOwnerId j) as [[|? ?]|]; try apply wp_throw.
  destruct (claimLeaseExpiresAt j); [|apply wp_throw]. by apply wp_ret, wp_ret, post_kept.
Qed.

Lemma wp_deliver s v o q fs db i cid turn (Q : unit -> AppDb T -> Prop) : J s v o q fs db ->
  rowItem s (queueItems db) i ->
  (forall db', J s v o q fs db' ->
    (forall j, ikey_of j <> ikey_of i -> rowItem s (queueItems db) j -> rowItem s (queueItems db') j) -> Q tt db') ->
  wp (deliver cid turn i) Q db.
Proof.
  intros HJ (r & Hr & Er & Hk & Hs) HQ. unfold deliver.
  destruct (List.filter _ _) as [|a l]; [|case_match; [apply wp_throw|by apply wp_ret, HQ]].
  set (j := with_deliveryAttempts _ i).
  apply (wp_writeRow s v o q fs db r); [done|done|exact Hk|exact Hs| |].
  - right. change (status j) with (status i). rewrite <- Er. eapply wf_status; [apply HJ|done].
  - intros db' HJ' E _. apply HQ; [done|]. intros k Hne (r' & Hr' & Er' & Hk' & Hs').
    exists r'. split_and!; [|done..]. rewrite E. apply overwrite_elem. left. split; [done|].
    rewrite Hk'. intros Eq. apply Hne. rewrite Eq. unfold ikey_of. by rewrite Hs.
Qed.

Lemma wp_deliverAll s v o q fs cid turn items : forall db, J s v o q fs db ->
  Forall (rowItem s (queueItems db)) items -> NoDup (map ikey_of items) ->
  wp (mapM_ (deliver cid turn) items) (fun _ => J s v o q fs) db.
Proof.
  induction items as [|i items IH]; intros db HJ Hi Hnd; cbn [mapM_]; [by apply wp_ret|].
  apply Forall_cons in Hi as [Hi Hr]. apply NoDup_cons in Hnd as [Hni Hnd].
  apply wp_bind. eapply wp_deliver; [done..|]. intros db' HJ' Hrest. apply wp_bind.
  eapply wp_mono; [apply IH; [done| |done]|intros ys db2 H2; by apply wp_ret].
  rewrite Forall_forall in Hr |- *. intros j Hj. apply Hrest; [|auto]. intros E. apply Hni.
  rewrite <- E. apply list_elem_of_fmap. by exists j.
Qed.

Lemma prepareDelivery_body op s cid turn : methodOk s (transaction op s (
    items ← claimRows s cid;
    match items with
    | [] => throw (QueueClaimNotFoundError s cid)
    | _ => _ ← mapM_ (deliver cid turn) items; mret (tt, [])
    end)).
Proof.
  apply transaction_ok. intros db v o q HJ. apply wp_bind. eapply wp_claimRows; [exact HJ|].
  intros items _ Hi Hnd. destruct items as [|i items]; [apply wp_throw|].
  eapply wp_use; [by apply (wp_deliverAll s v o q [])|]. intros ys db' HJ'.
  by apply wp_ret, (post_kept s v o q anything tt [] db').
Qed.

(** ** Recovery *)
Lemma recoverable_rows (op : QueueOptions T) scope s db : wf_db db ->
  let groups := groupRecoverable op scope
    (map rowData (List.filter (fun r => inSession s r && hasStatus claimed r) (queueItems db))) in
  Forall (fun e => Forall (rowItem s (queueItems db)) (snd e)) groups /\ NoDup (groupKeys groups).
Proof.
  intros Hwf. cbn zeta. pose proof (wf_claim _ _ Hwf s) as Hc.
  destruct (List.filter _ (queueItems db)) as [|r [|r2 l]] eqn:E; cbn in Hc; [split; constructor| |lia].
  assert (Hi : rowItem s (queueItems db) (rowData r)).
  { eapply (rowItem_select s db (fun r => inSession s r && hasStatus claimed r)); [done| |].
    - by intros r' [? _]%andb_true_iff.
    - rewrite E. by left. }
  unfold groupRecoverable. cbn [map groupClaims].
  destruct (status (rowData r)), (claimId (rowData r)) as [[|c cs]|]; cbn; try (split; constructor).
  destruct (negb (activeClaim op scope (rowData r) || false)); cbn; [|split; constructor].
  split; [repeat constructor; done|]. unfold groupKeys. cbn. apply NoDup_singleton.
Qed.

Lemma recoverClaims_ok op s scope : methodOk s (recoverClaims op s scope).
Proof.
  apply transaction_ok, afterExpiry_ok. intros v o q fs db HJ Hx.
  apply wp_bind, wp_selectItems. intros _.
  destruct (recoverable_rows op scope s db (J_wf _ _ _ _ _ _ HJ)) as [H1 H2].
  eapply wp_use; [by apply (wp_recoverGroups op s o q _ v fs)|].
  intros [res more] db' (H3 & H4 & _). cbn [snd] in *. apply wp_ret, post_kept; [done| |done].
  by rewrite execs_app, Hx, H4.
Qed.
End Laws.
