(* ===== verification/QueueSpec.v ===== *)
(** * The session queue: what it promises

    The committed facts tell subscribers everything about pending items and
    pauses; a session has one claim at a time; the claim goes to the head of
    the queue and the fence of turn admission agrees with it; recovery leaves
    live claims only; reordering follows the request. *)
From Stdlib Require Import Sorted.
From S2P Require Import Prelude JsValue QueueModel QueueRepo QueueJournal QueueLaws.

Section Spec.
Context {T : Type}.
Implicit Types db : AppDb T.

(** ** Any call *)
Definition sessionOf (c : QueueCall) : jstr :=
  match c with
  | call_snapshot s | call_pauseIfPending s _ _ | call_continueQueue s _ | call_list s
  | call_findByClientRequestId s _ | call_get s _ | call_cancel s _ | call_clearUserManageable s
  | call_promoteQueuedSource s _ _ | call_reorder s _ | call_prepareDelivery s _ _
  | call_acknowledgeClaim s _ _ | call_releaseClaim s _ _ | call_rejectClaim s _ _ | call_cancelClaim s _
  | call_consumeClaim s _ _ | call_recoverClaims s _ | call_drainComposerInjectable s | call_deleteSession s
  | call_accepted s _ | call_settled s _ _ _ | call_revoked s _ _ => s
  | call_enqueue input => in_sessionId input
  | call_updateQueued u => u_sessionId u
  | call_claimNext c => c_sessionId c
  end.

Lemma callOk_refl s db : wf_db db -> callOk s db [] db.
Proof. by split. Qed.

Lemma wp_factsOf {A} s (m : M (Committed A)) db :
  wp m (fun r db' => callOk s db (snd r) db') db -> wp (factsOf m) (fun fs db' => callOk s db fs db') db.
Proof. intros H. eapply wp_use; [exact H|]. intros r db' Hr. by apply wp_ret. Qed.

Lemma prepareDelivery_ok op s cid turn db : wf_db db ->
  wp (prepareDelivery op s cid turn) (fun _ db' => callOk s db [] db') db.
Proof.
  intros Hwf. unfold prepareDelivery. destruct (negb (truthy turn)); [apply wp_throw|].
  eapply wp_use.
  { apply (wp_transaction op s _ (fun _ db2 => queuePauses db2 = queuePauses db
      /\ keys (queueItems db2) = keys (queueItems db) /\ exists r, r ∈ queueItems db2 /\ inSession s r = true));
      [done|].
    intros db1 E1 _ E3 _ v o q HJ. pose proof (J_replay _ _ _ _ _ _ HJ) as Hv. cbn in Hv. injection Hv as Hv.
    apply wp_bind. eapply wp_claimRows; [exact HJ|].
    intros items _ Hi Hnd. destruct items as [|i items]; [apply wp_throw|].
    eapply wp_use; [by apply (wp_deliverAll s v o q [])|]. intros ys db' HJ'. apply wp_ret.
    apply Forall_cons in Hi as [Hi _]. apply rowItem_pending in Hi as [Hs Hin].
    pose proof HJ' as [H1 H2 H3 H4]. cbn in H2. injection H2 as H2. split.
    - exists q. split; [exact HJ'|]. apply pause_kept; auto.
    - cbn [fst]. rewrite <- (J_pauses _ _ _ _ _ _ HJ), E3 in H4. split_and!; [done|by rewrite <- H2, Hv, E1|].
      rewrite <- Hv, H2 in Hin. apply elem_keys in Hin as (r & Hr & Ek). exists r. split; [done|].
      apply inSession_spec. by rewrite Ek. }
  intros [u fs] db' [[H1 H2 H3 H4 H5] (db2 & (Ep & Ek & Hrow) & Er & _ & Hpause)]. apply wp_ret.
  split; [done| |done..]. unfold replay, view. cbn. do 2 f_equal; [by rewrite Er, Ek|].
  rewrite (Hpause Hrow). by rewrite Ep.
Qed.

Lemma settledInTransaction_ok s turn c at_ db : wf_db db ->
  wp (settledInTransaction s turn c at_) (fun r db' => callOk s db (snd r) db') db.
Proof.
  intros Hwf. unfold settledInTransaction. destruct c as [c|]; [|by apply wp_ret, callOk_refl].
  apply wp_bind, wp_reads.
  destruct (List.filter (stillPending s at_) (queueItems db)) as [|r l] eqn:E; cbn [length Nat.eqb];
    [by apply wp_ret, callOk_refl|].
  apply wp_bind, wp_modify, wp_ret. cbn [snd].
  split; [done| |done| |].
  - unfold replay, view.
    cbn [v_pending v_paused foldFacts applyPending applyPaused queuePauses set_pauses queueItems].
    by rewrite pausedSet_jset.
  - intros s' Hne. cbn. by rewrite jget_jset_ne.
  - intros Hw s'. cbn [queuePauses set_pauses]. rewrite pausedSet_jset. intros Hs'. cbn [queueItems set_pauses].
    destruct (decide (s' = s)) as [->|Hne]; [|apply Hw; set_solver].
    assert (r ∈ List.filter (stillPending s at_) (queueItems db)) as [Hp Hr]%elem_filter by (rewrite E; left).
    exists r. split; [done|]. by apply andb_true_iff in Hp as [? _].
Qed.

Lemma revokedInTransaction_ok s token at_ db : wf_db db ->
  wp (revokedInTransaction s token at_) (fun r db' => callOk s db (snd r) db') db.
Proof.
  intros Hwf. unfold revokedInTransaction. destruct token as [p|]; [|by apply wp_ret, callOk_refl].
  apply wp_bind, wp_reads, wp_bind, wp_reads.
  destruct (existsb (stillPending s at_) (queueItems db)) eqn:E; cbn [negb orb]; [|by apply wp_ret, callOk_refl].
  case_match; [by apply wp_ret, callOk_refl|]. apply wp_bind, wp_modify, wp_ret. cbn [snd].
  split; [done| |done| |].
  - unfold replay, view.
    cbn [v_pending v_paused foldFacts applyPending applyPaused queuePauses set_pauses queueItems].
    by rewrite pausedSet_jset.
  - intros s' Hne. cbn. by rewrite jget_jset_ne.
  - intros Hw s'. cbn [queuePauses set_pauses]. rewrite pausedSet_jset. intros Hs'. cbn [queueItems set_pauses].
    destruct (decide (s' = s)) as [->|Hne]; [|apply Hw; set_solver].
    apply existsb_exists in E as (r & Hr & [Hp _]%andb_true_iff). exists r. by rewrite list_elem_of_In.
Qed.

Lemma acceptedInTransaction_ok s b db : wf_db db ->
  wp (acceptedInTransaction s b) (fun r db' => callOk s db (snd r) db') db.
Proof.
  intros Hwf. unfold acceptedInTransaction. destruct (negb b); [by apply wp_ret, callOk_refl|].
  apply wp_bind, wp_reads. destruct (jget s (queuePauses db)) as [p|] eqn:E; [|by apply wp_ret, callOk_refl].
  apply wp_bind, wp_modify, wp_ret. cbn [snd].
  split; [done| |done| |].
  - unfold replay, view.
    cbn [v_pending v_paused foldFacts applyPending applyPaused queuePauses set_pauses queueItems].
    rewrite decide_True by (apply elem_pausedSet; unfold jhas; by rewrite E).
    by rewrite pausedSet_jdel.
  - intros s' Hne. cbn. by rewrite jget_jdel_ne.
  - intros Hw s'. cbn [queuePauses set_pauses]. rewrite pausedSet_jdel. intros Hs'. apply Hw. set_solver.
Qed.

(** Every call that does not throw keeps the tables and reports the truth. *)
Lemma run_ok op c db : wf_db db -> freshId op db ->
  wp (run op c) (fun fs db' => callOk (sessionOf c) db fs db') db.
Proof.
  intros Hwf Hf. destruct c; cbn [run sessionOf]; try apply wp_factsOf.
  - by apply snapshot_ok.
  - by apply pauseIfPending_ok.
  - by apply continueQueue_ok.
  - by apply list_ok.
  - by apply findByClientRequestId_ok.
  - by apply get_ok.
  - by apply enqueue_ok.
  - by apply updateQueued_ok.
  - by apply cancel_ok.
  - by apply clearUserManageable_ok.
  - by apply promoteQueuedSource_ok.
  - by apply reorder_ok.
  - by apply claimNext_ok.
  - eapply wp_use; [by apply prepareDelivery_ok|]. intros [] db' H. by apply wp_ret.
  - by apply acknowledgeClaim_ok.
  - by apply releaseClaim_ok.
  - apply removeClaimed_ok; [|done]. intros t i. by exists admission_rejected, t, (Some reason).
  - apply removeClaimed_ok; [|done]. intros t. apply removalFact_isRemoval.
  - apply removeClaimed_ok; [|done]. intros t. apply removalFact_isRemoval.
  - by apply recoverClaims_ok.
  - by apply drainComposerInjectable_ok.
  - by apply deleteSession_ok.
  - by apply acceptedInTransaction_ok.
  - by apply settledInTransaction_ok.
  - by apply revokedInTransaction_ok.
Qed.

(** ** Replacing a session *)
(** The rows [replaceSession] may store: at most one of them claimed, the
    session's own rows gone before. *)
Definition atMostOneClaim (items : list QueueItem) : Prop :=
  (length (List.filter (fun i => bool_decide (status i = claimed)) items) <= 1)%nat.

Lemma wp_insertClaims s o q l : forall db, Sound s o q db -> Forall (fun i => sessionId i = s) l ->
  (length (List.filter (fun r => inSession s r && hasStatus claimed r) (queueItems db))
   + length (List.filter (fun i => bool_decide (status i = claimed)) l) <= 1)%nat ->
  wp (insertAll l) (fun _ db' => Sound s o q db') db.
Proof.
  induction l as [|i l IH]; intros db Hdb Hl Hc; cbn [insertAll]; [by apply wp_ret|].
  apply Forall_cons in Hl as [Hs Hl]. cbn [List.filter] in Hc.
  eapply wp_use; [eapply wp_insertRow; [exact Hdb|exact Hs|]|].
  - right. unfold claimRoom. rewrite Hs. destruct (status i); [by left|right].
    rewrite bool_decide_eq_true_2 in Hc by done. apply length_zero_iff_nil. cbn [length] in Hc. lia.
  - intros [] db1 (H1 & E1 & _). apply IH; [done..|]. rewrite E1, List.filter_app, length_app.
    cbn [List.filter]. unfold inSession at 2, hasStatus at 2. cbn [snd storage k_sessionId k_status].
    rewrite bool_decide_eq_true_2 by done. cbn [andb].
    destruct (bool_decide (status i = claimed)); cbn [length] in *; lia.
Qed.

(** A replacement keeps the tables well formed, leaves every other session
    alone and reports nothing. *)
Lemma replaceSession_ok op s items db : wf_db db -> atMostOneClaim items ->
  wp (replaceSession op s items) (fun r db' => wf_db db' /\ snd r = []
    /\ others s (queueItems db') = others s (queueItems db)
    /\ (forall s', s' <> s -> jget s' (queuePauses db') = jget s' (queuePauses db))
    /\ (pausedHasWork db -> pausedHasWork db')) db.
Proof.
  intros Hwf Hone. unfold replaceSession.
  destruct (existsb _ items) eqn:E; [apply wp_throw|].
  assert (Hs : Forall (fun i => sessionId i = s) items).
  { apply Forall_forall. intros i Hi%list_elem_of_In. destruct (decide (sessionId i = s)) as [|Hne]; [done|].
    assert (existsb (fun i => negb (bool_decide (sessionId i = s)) || negb (isQueueItem i)) items = true); [|congruence].
    apply existsb_exists. exists i. split; [done|]. by rewrite bool_decide_eq_false_2. }
  apply wp_bind. eapply (wp_mono _ (fun _ => Sound s (others s (queueItems db)) (queuePauses db))).
  { apply wp_bind, wp_modify. apply wp_insertClaims; [by apply Sound_delete|exact Hs|].
    cbn [queueItems set_items]. rewrite filter_Forall_nil; [exact Hone|].
    apply Forall_forall. intros r [Hr _]%elem_filter. apply negb_true_iff in Hr. by rewrite Hr. }
  intros [] db1 [Hwf1 Ho Hq]. apply wp_bind, wp_modify, wp_bind, reconcile_result;
    cbn [queueItems queuePauses set_marks]; intros Hrows; apply wp_ret; cbn [snd queueItems queuePauses set_pauses set_marks].
  - split_and!; [done..|by rewrite Hq|]. intros Hw s' Hs'. cbn in Hs'. rewrite Hq in Hs'.
    destruct (decide (s' = s)) as [->|Hne]; [exact Hrows|]. by eapply work_frame; [exact Ho|done|apply Hw].
  - split_and!; [done..| |].
    + intros s' Hne. by rewrite jget_jdel_ne, Hq.
    + intros Hw s' Hs'. cbn [queuePauses set_pauses set_marks] in Hs'. rewrite Hq, pausedSet_jdel in Hs'.
      cbn [queueItems set_pauses set_marks].
      eapply work_frame; [exact Ho|set_solver|]. apply Hw. set_solver.
Qed.

(** ** Sequences of calls *)
(** The tables and the facts committed since [base]: what a reader knew who
    read both tables at the start, or right after the last replacement of a
    session, which commits no facts.  A call that throws leaves all three. *)
Inductive reachable (t : T) : QueueView -> AppDb T -> list QueueCommittedFact -> Prop :=
  | reach_empty : reachable t (view (emptyDb t)) (emptyDb t) []
  | reach_call op c base db fs gs db' :
      reachable t base db fs -> freshId op db -> run op c db = inr (gs, db') ->
      reachable t base db' (fs ++ gs)
  | reach_throw op c base db fs e : reachable t base db fs -> run op c db = inl e -> reachable t base db fs
  | reach_replace op s items base db fs r db' :
      reachable t base db fs -> atMostOneClaim items -> replaceSession op s items db = inr (r, db') ->
      reachable t (view db') db' []
  | reach_not_replaced op s items base db fs e :
      reachable t base db fs -> replaceSession op s items db = inl e -> reachable t base db fs
  | reach_turns base db fs t' : reachable t base db fs -> reachable t base (set_turns t' db) fs.

Lemma wf_empty (t : T) : wf_db (emptyDb t).
Proof. split; [constructor..|]. intros s. cbn. lia. Qed.

Lemma replay_nil v : replay v [] = Some v.
Proof. by destruct v. Qed.

Lemma reachable_wf (t : T) base db fs : reachable t base db fs ->
  wf_db db /\ pausedHasWork db /\ replay base fs = Some (view db).
Proof.
  induction 1 as [|op c base db fs gs db' _ (Hwf & Hw & Hr) Hf E|op c base db fs e _ IH _
                  |op s items base db fs r db' _ (Hwf & Hw & Hr) Hone E|op s items base db fs e _ IH _
                  |base db fs t' _ IH]; try exact IH.
  - split_and!; [apply wf_empty| |apply replay_nil]. intros s Hs. cbn in Hs. set_solver.
  - pose proof (run_ok op c db Hwf Hf) as H. unfold wp in H. rewrite E in H. destruct H as [H1 H2 H3 H4 H5].
    split_and!; [done|auto|]. by rewrite replay_app, Hr.
  - pose proof (replaceSession_ok op s items db Hwf Hone) as H. unfold wp in H. rewrite E in H.
    destruct H as (H1 & _ & _ & _ & H5). split_and!; [done|auto|apply replay_nil].
Qed.

(** C2: Whatever calls are made on whatever sessions, in whatever order and
    with whatever outcome, the facts committed make sense one after the other
    (an item is enqueued only when absent, requeued or removed only while
    pending, a session resumed only when paused), and replaying them gives
    exactly the pending items and the paused sessions of the tables: a
    subscriber never misses a message and never believes in one that is gone.
    The replay starts from the empty tables, or, since [replaceSession] rewrites
    a session and commits no facts, from the tables the last replacement left;
    a replacement is taken to bring at most one claimed item, and the id generator
    an id that no item has ([freshId]). *)
Theorem facts_tell_the_queue (t : T) (base : QueueView) (db : AppDb T) (fs : list QueueCommittedFact) :
  reachable t base db fs -> replay base fs = Some (view db).
Proof. intros H. apply reachable_wf in H. tauto. Qed.

(** C24: In every state that calls of the repository and of the fence can reach,
    replacements of a session that bring at most one claimed item included, item
    ids are unique within a session, rows are in the order of their ids, each
    row's columns are those of the item it stores, a session has at most one
    claimed item, and a pause stands only over a session that has items; the id
    generator is taken to give an id that no item has ([freshId]). *)
Theorem queue_invariant (t : T) (base : QueueView) (db : AppDb T) (fs : list QueueCommittedFact) :
  reachable t base db fs ->
  NoDup (map key (queueItems db))
  /\ StronglySorted lt (map fst (queueItems db))
  /\ (forall r, r ∈ queueItems db -> snd r = storage (dataJson (snd r)))
  /\ (forall s, (length (List.filter (fun r => inSession s r && hasStatus claimed r) (queueItems db)) <= 1)%nat)
  /\ (forall s, jhas s (queuePauses db) = true -> exists r, r ∈ queueItems db /\ inSession s r = true).
Proof.
  intros H. apply reachable_wf in H as ([H1 H2 H3 H4 H5] & Hw & _). rewrite Forall_forall in H4.
  split_and!; [done..|]. intros s Hs. apply Hw. by apply elem_pausedSet.
Qed.

(** A call on one session leaves the rows and the pause of every other
    session exactly as they were. *)
Theorem sessions_are_isolated (t : T) (op : QueueOptions T) (c : QueueCall) (base : QueueView) (db : AppDb T)
    (fs gs : list QueueCommittedFact) (db' : AppDb T) (s : jstr) :
  reachable t base db fs -> freshId op db -> run op c db = inr (gs, db') -> s <> sessionOf c ->
  List.filter (inSession s) (queueItems db') = List.filter (inSession s) (queueItems db)
  /\ jget s (queuePauses db') = jget s (queuePauses db).
Proof.
  intros Hr Hf E Hs. apply reachable_wf in Hr as (Hwf & _).
  pose proof (run_ok op c db Hwf Hf) as H. unfold wp in H. rewrite E in H. destruct H as [_ _ Ho Hp _].
  split; [|by apply Hp].
  assert (forall l, List.filter (inSession s) (others (sessionOf c) l) = List.filter (inSession s) l) as Hl.
  { intros l. apply filter_filter_weaker. intros r Er. apply negb_true_iff. unfold inSession in *.
    apply bool_decide_eq_true in Er. rewrite Er. by apply bool_decide_eq_false. }
  by rewrite <- (Hl (queueItems db')), Ho, Hl.
Qed.

(** ** Claims go to the head of the queue *)
(** The rows of the tables once what has expired is gone. *)
Definition liveRows (s : jstr) (now : Z) (db : AppDb T) : list Row :=
  List.filter (fun r => negb (expiredQueued s now r)) (queueItems db).

(** The queued item a claim asks for: the named one, or the first that is not
    excluded. *)
Definition wanted (c : QueueClaimInput) (i : QueueItem) : bool :=
  if otruthy (c_itemId c) then bool_decide (Some (itemId i) = c_itemId c)
  else negb (bool_decide (itemId i ∈ default [] (excludeItemIds c))).

Definition claimNow (op : QueueOptions T) (c : QueueClaimInput) : Z := default (nowMs op) (c_nowMs c).

Definition claimWinner (op : QueueOptions T) (c : QueueClaimInput) (db : AppDb T) : option QueueItem :=
  let s := c_sessionId c in
  let rows := liveRows s (claimNow op c) db in
  if negb (otruthy (c_itemId c)) && negb (continuePaused c) && jhas s (queuePauses db) then None
  else if existsb (fun r => inSession s r && hasStatus claimed r) rows then None
  else
    match List.filter (wanted c) (queuedItems s rows) with
    | i :: _ =>
      if match allowedSources c with Some l => bool_decide (source i ∈ l) | None => true end then Some i else None
    | [] => None
    end.

Definition claimedItem (op : QueueOptions T) (c : QueueClaimInput) (i : QueueItem) : QueueItem :=
  with_status_claim claimed (Some (makeId op (js "claim"))) (Some (claimNow op c)) (Some (claimOwner op))
    (Some (claimNow op c + claimLeaseMs op)%Z) i.

Definition claimEffect (op : QueueOptions T) (c : QueueClaimInput) (db : AppDb T)
    (v : option QueueDispatchItem) (rows : list Row) : Prop :=
  match claimWinner op c db with
  | None => v = None /\ rows = liveRows (c_sessionId c) (claimNow op c) db
  | Some i =>
    rows = overwrite (hasItem (c_sessionId c) (itemId i)) (storage (claimedItem op c i))
             (liveRows (c_sessionId c) (claimNow op c) db)
    /\ exists d, v = Some d /\ d_item d = claimedItem op c i
         /\ d_claimId d = makeId op (js "claim") /\ truthy (d_claimId d) = true
         /\ selection d = claimSelection c
  end.

Lemma head_filter_unique {A} (f : A -> jstr) (l : list A) x :
  NoDup (map f l) -> x ∈ l -> List.filter (fun y => bool_decide (f y = f x)) l = [x].
Proof.
  induction l as [|y l IH]; cbn [map List.filter]; [intros _ H; by apply elem_of_nil in H|].
  intros [Hy Hl]%NoDup_cons [->|Hx]%elem_of_cons.
  - rewrite bool_decide_eq_true_2 by done. f_equal. apply filter_Forall_nil, Forall_forall.
    intros z Hz. apply bool_decide_eq_false. intros E. apply Hy. rewrite <- E. apply list_elem_of_fmap. by exists z.
  - rewrite bool_decide_eq_false_2; [by apply IH|]. intros E. apply Hy. rewrite E.
    apply list_elem_of_fmap. by exists x.
Qed.

Lemma wp_candidate_exact c db : wf_db db ->
  wp (claimCandidate c) (fun r db' => db' = db
    /\ r = head (List.filter (wanted c) (queuedItems (c_sessionId c) (queueItems db)))) db.
Proof.
  intros Hwf. unfold claimCandidate, wanted. destruct (otruthy (c_itemId c)) eqn:Ei.
  - destruct (c_itemId c) as [id|] eqn:Ec; [|done]. change (default [] (Some id)) with id.
    assert (Hfil : forall l, List.filter (fun i => bool_decide (Some (itemId i) = Some id)) l
        = List.filter (fun i => bool_decide (itemId i = id)) l).
    { intros l. apply filter_ext. intros i. apply bool_decide_ext. naive_solver. }
    rewrite Hfil. apply wp_bind, wp_find.
    + intros Hn. apply wp_ret. split; [done|]. cbn. symmetry.
      rewrite filter_Forall_nil; [done|]. apply Forall_forall. intros i Hi. apply bool_decide_eq_false.
      intros E. apply Hn. apply list_elem_of_fmap in Hi as (r & -> & [Hp Hr]%elem_filter).
      apply andb_true_iff in Hp as [Hp%inSession_spec _]. apply elem_keys. exists r. split; [done|].
      pose proof (wf_data _ _ _ Hwf Hr) as Ek. rewrite <- Ek. unfold ikey_of, rowData in *. f_equal; [|done].
      rewrite <- Ek in Hp. exact Hp.
    + intros r Hr Hk _. apply wp_ret. split; [done|]. cbn [onlyQueuedItem].
      destruct (found_row _ _ _ _ Hwf Hr Hk) as (Hs & [Es _] & Ek & Eid & Est).
      destruct (bool_decide_reflect (status (rowData r) = queued)) as [Eq|Eq].
      * rewrite <- Eid. rewrite (head_filter_unique itemId _ (rowData r)); [done|by eapply queuedItems_ids|].
        apply list_elem_of_fmap. exists r. split; [done|]. apply elem_filter. split; [|done].
        rewrite Hs. unfold hasStatus. by rewrite <- Est, Eq.
      * symmetry. rewrite filter_Forall_nil; [done|]. apply Forall_forall. intros i Hi. apply bool_decide_eq_false.
        intros E. apply Eq. pose proof (rowData_queued _ _ _ _ Hwf Hi) as [Esi Esti].
        apply list_elem_of_fmap in Hi as (r' & -> & [_ Hr']%elem_filter).
        assert (r' = r) as ->; [|done]. eapply NoDup_map_inj; [apply Hwf|done..|].
        rewrite <- (wf_data _ _ _ Hwf Hr'), Ek. unfold ikey_of, rowData in *. congruence.
  - apply wp_bind, wp_selectItems. intros _. fold (queuedRows (c_sessionId c) (queueItems db)).
    fold (queuedItems (c_sessionId c) (queueItems db)). destruct (excludeItemIds c) as [[|x xs]|]; apply wp_ret; (split; [done|]).
    2: done.
    all: rewrite filter_Forall_id; [done|]; apply Forall_forall; intros i _; cbn [default];
      by rewrite bool_decide_eq_false_2 by apply not_elem_of_nil.
Qed.

Lemma wp_claim_exact op c s v o q fs db i (Q : QueueItem -> AppDb T -> Prop) :
  J s v o q fs db -> rowItem s (queueItems db) i ->
  List.filter (fun r => inSession s r && hasStatus claimed r) (queueItems db) = [] ->
  (forall db', J s v o q fs db' ->
     queueItems db' = overwrite (hasItem s (itemId i)) (storage (claimedItem op c i)) (queueItems db) ->
     Q (claimedItem op c i) db') ->
  wp (claim op i (makeId op (js "claim")) (claimNow op c) (claimNow op c + claimLeaseMs op)%Z) Q db.
Proof.
  intros HJ Hi Hn HQ. destruct (rowItem_pending _ _ _ Hi) as [Hs Hk].
  pose proof (wp_claim op s v o q fs db i (makeId op (js "claim")) (claimNow op c)
    (claimNow op c + claimLeaseMs op)%Z (fun _ => J s v o q fs) HJ Hi Hn (fun _ _ H => H)) as HJ'.
  unfold claim in *. fold (claimedItem op c i) in *. unfold wp, mbind, M_bind in *.
  rewrite write_present in * by done. cbn in *. subst s. by apply HQ.
Qed.

(** The effect, and that a successful claim keeps the pause as it is. *)
Definition claimKeeps (op : QueueOptions T) (c : QueueClaimInput) (db db' : AppDb T) : Prop :=
  claimWinner op c db <> None -> queuePauses db' = queuePauses db.

(** The winner, from the tables the call sees once what has expired is gone. *)
Lemma claimWinner_rows op c db rows pauses :
  rows = liveRows (c_sessionId c) (claimNow op c) db -> pauses = queuePauses db ->
  claimWinner op c db =
  if negb (otruthy (c_itemId c)) && negb (continuePaused c) && jhas (c_sessionId c) pauses then None
  else if existsb (fun r => inSession (c_sessionId c) r && hasStatus claimed r) rows then None
  else match List.filter (wanted c) (queuedItems (c_sessionId c) rows) with
       | i :: _ => if match allowedSources c with Some l => bool_decide (source i ∈ l) | None => true end
                   then Some i else None
       | [] => None
       end.
Proof. by intros -> ->. Qed.

Lemma claimNext_effect op c db : wf_db db ->
  wp (claimNext op c) (fun r db' => claimEffect op c db (fst r) (queueItems db') /\ claimKeeps op c db db'
    /\ wf_db db') db.
Proof.
  intros Hwf. eapply wp_mono; [apply (wp_transaction op (c_sessionId c) _
    (fun v db2 => claimEffect op c db v (queueItems db2) /\ (claimWinner op c db <> None ->
       queuePauses db2 = queuePauses db /\ exists r, r ∈ queueItems db2 /\ inSession (c_sessionId c) r = true)));
    [done|]|].
  2:{ intros r db' [[Hwf' _ _ _ _] (db2 & (HQ & HP) & -> & _ & Hpa)]. split_and!; [exact HQ| |done].
      intros Hw. destruct (HP Hw) as [<- Hr]. by apply Hpa. }
  intros db1 E1 E2 E3 _. apply bodyOk_afterExpiry. intros v o q fs db2 HJ Hx _ Hrows Hq.
  pose proof (J_wf _ _ _ _ _ _ HJ) as Hwf2. fold (claimNow op c) in Hrows. rewrite E1 in Hrows.
  fold (liveRows (c_sessionId c) (claimNow op c) db) in Hrows.
  assert (Hnone : claimWinner op c db = None -> wp (mret (None, fs)) (post (c_sessionId c) v o q
      (fun v db2 => claimEffect op c db v (queueItems db2) /\ (claimWinner op c db <> None ->
       queuePauses db2 = queuePauses db /\ exists r, r ∈ queueItems db2 /\ inSession (c_sessionId c) r = true))) db2).
  { intros E. apply wp_ret, post_kept; [done..|]. unfold claimEffect. rewrite E, Hrows. by split. }
  pose proof (claimWinner_rows op c db _ q Hrows ltac:(congruence)) as Hwin.
  apply wp_bind, wp_reads. rewrite (J_pauses _ _ _ _ _ _ HJ).
  destruct (negb (otruthy (c_itemId c)) && negb (continuePaused c) && jhas (c_sessionId c) q) eqn:Ep; [by apply Hnone; rewrite Hwin|].
  apply wp_bind, wp_reads. destruct (existsb _ (queueItems db2)) eqn:Eb; [by apply Hnone; rewrite Hwin|].
  apply noClaim_queued in Eb as Hb. destruct Hb as [Hn _].
  eapply wp_use; [by apply wp_candidate_exact|]. intros cand ? [-> ->].
  destruct (List.filter (wanted c) (queuedItems (c_sessionId c) (queueItems db2))) as [|i rest] eqn:Ew;
    cbn [head]; [by apply Hnone; rewrite Hwin|].
  destruct (allowedSources c) as [l|] eqn:El; [destruct (bool_decide (source i ∈ l)) eqn:Es; cbn [negb]|].
  2: by apply Hnone; rewrite Hwin.
  all: assert (Hw : claimWinner op c db = Some i) by
    (by rewrite Hwin, ?Es).
  all: assert (Hi : i ∈ queuedItems (c_sessionId c) (queueItems db2)) by
    (eapply (proj2 (A := wanted c i = true)), elem_filter; rewrite Ew; left).
  all: assert (Hri : rowItem (c_sessionId c) (queueItems db2) i) by
    (eapply rowItem_select; [exact Hwf2| |exact Hi]; by intros r [? _]%andb_true_iff).
  all: apply wp_bind; eapply wp_claim_exact; [exact HJ|exact Hri|exact Hn|].
  all: intros db3 HJ3 E3'; apply wp_bind; unfold dispatchItem, claimedItem; cbn [claimId claimOwnerId
    claimLeaseExpiresAt with_status_claim].
  all: destruct (makeId op (js "claim")) as [|a b] eqn:Em; [apply wp_throw|];
    destruct (claimOwner op) as [|a' b'] eqn:Eo; [apply wp_throw|].
  all: apply wp_ret, wp_ret, post_kept; [done..|].
  all: (split; [|intros _; split;
    [by rewrite (J_pauses _ _ _ _ _ _ HJ3), Hq, E3|
     destruct Hri as (r & Hr & Er & Hk & Hs); exists (fst r, storage (claimedItem op c i)); split;
       [rewrite E3'; apply overwrite_elem; right; exists r; by rewrite Hk, <- Hs|
        by apply inSession_spec; rewrite <- Hs]]]).
  all: unfold claimEffect; rewrite Hw, <- Hrows; split; [rewrite E3'; unfold claimedItem; by rewrite Em, Eo|].
  all: eexists; split_and!; [reflexivity| | |done|reflexivity]; cbn; unfold claimedItem; by rewrite ?Em, ?Eo.
Qed.

(** ** Calls that return *)
Definition returns {A} (m : M A) (db : AppDb T) : Prop := exists a db', m db = inr (a, db').

Lemma returns_bind {A B} (m : M A) (k : A -> M B) db :
  returns m db -> wp m (fun a db' => returns (k a) db') db -> returns (m ≫= k) db.
Proof. intros (a & db' & E) H. unfold wp in H. rewrite E in H. unfold returns, mbind, M_bind. by rewrite E. Qed.

Lemma returns_ret {A} (a : A) db : returns (mret a) db.
Proof. by eexists _, _. Qed.

(** The stored items pass the checks that reading repeats. *)
Definition decodable (db : AppDb T) : Prop :=
  Forall (fun r => isQueueItem (rowData r) = true) (queueItems db).

Lemma decodes r db : wf_db db -> decodable db -> r ∈ queueItems db -> decodeQueueRow r = inr (rowData r).
Proof.
  intros Hwf Hd Hr. unfold decodable in Hd. rewrite Forall_forall in Hd. pose proof (Hd r Hr) as Hi.
  pose proof (wf_cols _ _ Hwf) as Hc. rewrite Forall_forall in Hc. specialize (Hc r Hr).
  unfold decodeQueueRow, rowData in *. rewrite Hi. cbn [negb orb].
  assert (k_sessionId (snd r) = sessionId (dataJson (snd r))) as -> by (by rewrite Hc at 1).
  assert (k_itemId (snd r) = itemId (dataJson (snd r))) as -> by (by rewrite Hc at 1).
  assert (k_status (snd r) = status (dataJson (snd r))) as -> by (by rewrite Hc at 1).
  assert (k_createdAtMs (snd r) = createdAt (dataJson (snd r))) as -> by (by rewrite Hc at 1).
  by rewrite !bool_decide_eq_true_2, Z.eqb_refl by done.
Qed.

Lemma selectItems_returns p db : wf_db db -> decodable db -> returns (selectItems p) db.
Proof.
  intros Hwf Hd. unfold selectItems, selectRows, returns, mbind, M_bind, reads.
  assert (H : forall rows, (forall r, r ∈ rows -> r ∈ queueItems db) ->
    mapM_ (fun r => lift (decodeQueueRow r)) rows db = inr (map rowData rows, db)).
  { intros rows. induction rows as [|r rows IH]; intros Hin; cbn [mapM_ map]; [done|].
    unfold mbind, M_bind, lift at 1. rewrite (decodes r db) by (done || (apply Hin; left)).
    rewrite IH by (intros r' Hr'; apply Hin; by right). done. }
  rewrite H by (by intros r [_ ?]%elem_filter). by eexists _, _.
Qed.

Lemma selectFirst_returns p db : wf_db db -> decodable db -> returns (selectFirst p) db.
Proof.
  intros Hwf Hd. unfold selectFirst, selectRows, returns, mbind, M_bind, reads.
  destruct (List.filter p (queueItems db)) as [|r l] eqn:E; [by eexists _, _|].
  assert (r ∈ List.filter p (queueItems db)) as [_ Hr]%elem_filter by (rewrite E; left).
  unfold lift. rewrite (decodes r db) by done. by eexists _, _.
Qed.

Lemma decodable_rows db db' : decodable db -> (forall r, r ∈ queueItems db' -> r ∈ queueItems db) -> decodable db'.
Proof. unfold decodable. rewrite !Forall_forall. auto. Qed.

Lemma transaction_returns {A} op s (body : M (Committed A)) db :
  (forall db1, queueItems db1 = queueItems db -> nextId db1 = nextId db -> queuePauses db1 = queuePauses db ->
     returns body db1) -> returns (transaction op s body) db.
Proof.
  intros Hb. apply returns_bind.
  { unfold returns, ensureQueueRowsReady, mbind, M_bind, reads. case_match; by eexists _, _. }
  apply ensureReady_wp. intros db1 E1 E2 E3 _. apply returns_bind; [by eexists _, _|]. apply wp_reads.
  destruct (Hb db1 E1 E2 E3) as (r & db2 & E). apply returns_bind; [by eexists _, _|].
  unfold wp. rewrite E. apply returns_bind.
  { unfold returns, reconcilePause, pendingCountOf, mbind, M_bind, reads. case_match; by eexists _, _. }
  apply reconcile_result; intros _; by eexists _, _.
Qed.

Lemma afterExpiry_returns {A} s now (k : list QueueCommittedFact -> M (Committed A)) db :
  wf_db db -> decodable db ->
  (forall fs db1, wf_db db1 -> decodable db1 -> returns (k fs) db1) -> returns (afterExpiry s now k) db.
Proof.
  intros Hwf Hd Hk. apply returns_bind.
  - unfold deleteExpired. apply returns_bind; [by apply selectItems_returns|]. apply wp_selectItems.
    intros _. by eexists _, _.
  - apply wp_deleteExpired, Hk; [by apply wf_filter|]. eapply decodable_rows; [exact Hd|].
    by intros r [_ ?]%elem_filter.
Qed.

Lemma write_returns i db : returns (write i) db.
Proof.
  unfold returns, write. destruct (existsb (hasItem (sessionId i) (itemId i)) (queueItems db)) eqn:E;
    cbn [storage k_sessionId k_itemId]; rewrite E; by eexists _, _.
Qed.

Lemma claimNext_returns op c db : wf_db db -> decodable db ->
  truthy (makeId op (js "claim")) = true -> truthy (claimOwner op) = true -> returns (claimNext op c) db.
Proof.
  intros Hwf Hd Hm Ho. apply transaction_returns. intros db1 E1 E2 E3. apply afterExpiry_returns.
  { unfold wf_db. by rewrite E1, E2. } { unfold decodable. by rewrite E1. }
  intros fs db2 Hwf2 Hd2. apply returns_bind; [by eexists _, _|]. apply wp_reads.
  case_match; [by eexists _, _|]. apply returns_bind; [by eexists _, _|]. apply wp_reads.
  case_match; [by eexists _, _|]. apply returns_bind.
  - unfold claimCandidate. case_match; apply returns_bind.
    + by apply selectFirst_returns.
    + by apply wp_selectFirst_row; intros; eexists _, _.
    + by apply selectItems_returns.
    + apply wp_selectItems. intros _. destruct (excludeItemIds c) as [[|? ?]|]; by eexists _, _.
  - eapply wp_mono; [by apply wp_candidate_exact|]. intros cand ? [-> _].
    destruct cand as [i|]; [|by eexists _, _]. case_match; [by eexists _, _|].
    destruct (makeId op (js "claim")) as [|a b]; [done|]. unfold claim.
    destruct (claimOwner op) as [|a' b']; [done|].
    set (j := with_status_claim _ _ _ _ _ _). destruct (write_returns j db2) as ([] & db3 & E).
    unfold returns, mbind, M_bind. rewrite E. by eexists _, _.
Qed.

(** C30: With readable rows a claim never throws.  It first drops what has
    expired in its session; then, unless the session is paused and the call
    neither names an item nor continues a paused queue, or an item of the
    session is claimed already, or the source is not allowed, it claims the
    item named or else the first queued item not excluded, in the order of the
    rows: that row becomes claimed with a fresh claim id and a lease, every
    other row stays as it is, and the result carries that item. *)
Theorem claim_takes_the_head (op : QueueOptions T) (c : QueueClaimInput) (db : AppDb T) :
  wf_db db -> decodable db -> truthy (makeId op (js "claim")) = true -> truthy (claimOwner op) = true ->
  exists v fs db', claimNext op c db = inr ((v, fs), db') /\ claimEffect op c db v (queueItems db').
Proof.
  intros Hwf Hd Hm Ho. destruct (claimNext_returns op c db Hwf Hd Hm Ho) as ([v fs] & db' & E).
  exists v, fs, db'. split; [done|]. pose proof (claimNext_effect op c db Hwf) as H. unfold wp in H.
  rewrite E in H. apply H.
Qed.

(** ** The fence agrees with the claims *)
(** The admission priority the dispatcher asks for a claim. *)
Definition priorityOf (c : QueueClaimInput) (cid : jstr) (created : Z) : TurnAdmissionPriority :=
  match claimSelection c with
  | sel_fifo => prio_fifo created (Some cid) (excludeItemIds c)
  | sel_exact => prio_selected_item cid
  | sel_continued_fifo => prio_continued_head cid (excludeItemIds c)
  end.

Lemma filter_head_split {A} (p : A -> bool) l x rest : List.filter p l = x :: rest ->
  exists l1 l2, l = l1 ++ x :: l2 /\ Forall (fun y => p y = false) l1.
Proof.
  induction l as [|y l IH]; cbn [List.filter]; [done|]. destruct (p y) eqn:E; intros H.
  - simplify_eq. by exists [], l.
  - destruct (IH H) as (l1 & l2 & -> & Hf). exists (y :: l1), l2. split; [done|by constructor].
Qed.

Lemma filter_map_filter {A B} (f : A -> B) (p : A -> bool) (w : B -> bool) l :
  List.filter w (map f (List.filter p l)) = map f (List.filter (fun r => p r && w (f r)) l).
Proof.
  induction l as [|r l IH]; cbn [List.filter map]; [done|]. destruct (p r); cbn [map List.filter andb]; [|done].
  destruct (w (f r)); cbn [map]; by rewrite IH.
Qed.

(** The rows before a wanted item of the session are unwanted. *)
Lemma wanted_split (c : QueueClaimInput) s l i rest :
  (forall r, r ∈ l -> inSession s r = inSession s r && hasStatus queued r) ->
  List.filter (wanted c) (queuedItems s l) = i :: rest ->
  exists l1 r l2, l = l1 ++ r :: l2 /\ rowData r = i /\ inSession s r = true
    /\ Forall (fun r => inSession s r = true -> wanted c (rowData r) = false) l1.
Proof.
  unfold queuedItems, queuedRows. intros Hq H. rewrite filter_map_filter in H.
  destruct (List.filter _ l) as [|r l'] eqn:E; [done|]. injection H as Hi _.
  assert (r ∈ List.filter (fun r => inSession s r && hasStatus queued r && wanted c (rowData r)) l)
    as [[[Hs _]%andb_true_iff _]%andb_true_iff _]%elem_filter by (rewrite E; left).
  destruct (filter_head_split _ _ _ _ E) as (l1 & l2 & -> & Hf). exists l1, r, l2. split_and!; [done..|].
  rewrite Forall_forall in Hf |- *. intros r' Hr' Hs'. specialize (Hf r' Hr').
  rewrite <- Hq, Hs' in Hf by (apply elem_of_app; by left). exact Hf.
Qed.

(** In sorted rows the smaller ids are the rows before. *)
Lemma sorted_before (l1 l2 : list Row) (r r' : Row) : StronglySorted lt (map fst (l1 ++ r :: l2)) ->
  r' ∈ l1 ++ r :: l2 -> (fst r' < fst r)%nat -> r' ∈ l1.
Proof.
  induction l1 as [|x l1 IH]; cbn [app map]; intros Hs Hr Hlt; apply StronglySorted_inv in Hs as [Hs Hf].
  - rewrite List.Forall_forall in Hf. apply elem_of_cons in Hr as [->|Hr]; [lia|].
    specialize (Hf (fst r') (in_map fst _ _ (proj1 (list_elem_of_In _ _) Hr))). lia.
  - apply elem_of_cons in Hr as [->|Hr]; [left|]. right. by apply IH.
Qed.

(** The rows of [db'] after the claim [d]: [x] is the one claimed row of the
    session, and the rows before it are not what the claim asked for. *)
Record claimedTable (c : QueueClaimInput) (db' : AppDb T) (d : QueueDispatchItem) (l1 : list Row) (x : Row) (l2 : list Row) : Prop := {
  ct_rows : queueItems db' = l1 ++ x :: l2;
  ct_sorted : StronglySorted lt (map fst (queueItems db'));
  ct_session : inSession (c_sessionId c) x = true;
  ct_created : k_createdAtMs (snd x) = createdAt (d_item d);
  ct_claims : forall cid, List.filter (claimRowsWhere (c_sessionId c) cid) (queueItems db') =
    if bool_decide (d_claimId d = cid) then [x] else [];
  ct_before : forall y, y ∈ l1 -> inSession (c_sessionId c) y = true ->
    wanted c (rowData y) = false /\ itemId (rowData y) = k_itemId (snd y);
  ct_pause : negb (otruthy (c_itemId c)) && negb (continuePaused c) && jhas (c_sessionId c) (queuePauses db') = false;
  ct_truthy : truthy (d_claimId d) = true;
}.

Lemma claimed_rows (s : jstr) l l1 l2 (r x : Row) cid db' :
  (forall y, y ∈ l -> inSession s y = inSession s y && hasStatus queued y) -> l = l1 ++ r :: l2 ->
  queueItems db' = l1 ++ x :: l2 -> inSession s x = true -> hasStatus claimed x = true ->
  List.filter (claimRowsWhere s cid) (queueItems (T := T) db') = if bool_decide (k_claimId (snd x) = Some cid) then [x] else [].
Proof.
  intros Hq El Erows Hxs Hxc.
  assert (Hother : forall l', (forall y, y ∈ l' -> y ∈ l) -> List.filter (claimRowsWhere s cid) l' = []).
  { intros l' Hl'. apply filter_Forall_nil, Forall_forall. intros y Hy. specialize (Hq y (Hl' y Hy)).
    unfold claimRowsWhere. destruct (inSession s y); [|done]. unfold hasStatus in *. by destruct (k_status (snd y)). }
  rewrite Erows, List.filter_app. cbn [List.filter]. rewrite El in Hother.
  rewrite !Hother by set_solver. unfold claimRowsWhere. rewrite Hxs, Hxc. cbn [andb app]. by case_bool_decide.
Qed.

Lemma claimNext_table (op : QueueOptions T) (c : QueueClaimInput) (db db' : AppDb T) d fs :
  wf_db db -> claimNext op c db = inr ((Some d, fs), db') -> exists l1 x l2, claimedTable c db' d l1 x l2.
Proof.
  intros Hwf E. pose proof (claimNext_effect op c db Hwf) as H. unfold wp in H. rewrite E in H.
  destruct H as (He & Hk & Hwf'). cbn [fst] in He.
  unfold claimEffect in He. destruct (claimWinner op c db) as [i|] eqn:Hw; [|by destruct He].
  destruct He as (Erows & d' & [= <-] & Ed & Eid & Htr & Esel).
  specialize (Hk ltac:(unfold claimKeeps; congruence)).
  assert (Hwl : wf_rows (liveRows (c_sessionId c) (claimNow op c) db) (nextId db)) by by apply wf_filter.
  unfold claimWinner in Hw. set (s := c_sessionId c) in *. set (l := liveRows s (claimNow op c) db) in *.
  destruct (_ && jhas s (queuePauses db)) eqn:Ep in Hw; [done|].
  destruct (existsb _ l) eqn:Eb in Hw; [done|].
  destruct (noClaim_queued s (set_items (fun _ => l) db) Eb) as [_ Hq]. cbn in Hq.
  destruct (List.filter (wanted c) (queuedItems s l)) as [|i' rest] eqn:Ew; [done|].
  assert (i' = i) as -> by (destruct (allowedSources c) as [al|]; [destruct (bool_decide _)|]; congruence).
  assert (Hii : i ∈ queuedItems s l) by (eapply (proj2 (A := wanted c i = true)), elem_filter; rewrite Ew; left).
  destruct (rowData_queued _ _ _ _ Hwl Hii) as [Esi _].
  destruct (wanted_split c s l i rest Hq Ew) as (l1 & r & l2 & El & Er & Hs & Hbefore).
  assert (Hkr : key r = (s, itemId i)).
  { assert (Hrl : r ∈ l) by (rewrite El; set_solver). rewrite <- (wf_data _ _ _ Hwl Hrl). unfold ikey_of. fold (rowData r). by rewrite Er, Esi. }
  set (x := (fst r, storage (claimedItem op c i))).
  rewrite El, overwrite_middle in Erows by (done || (rewrite <- El; apply Hwl)). fold x in Erows.
  assert (Hxs : inSession s x = true) by (apply inSession_spec; subst x; by rewrite key_storage).
  exists l1, x, l2. split; try done.
  - apply Hwf'.
  - subst x. by rewrite Ed.
  - intros cid. rewrite (claimed_rows s l l1 l2 r x) by done. subst x. rewrite Eid. cbn.
    repeat case_bool_decide; naive_solver.
  - intros y Hy Hys. rewrite Forall_forall in Hbefore. split; [by apply Hbefore|].
    assert (Hyl : y ∈ l) by (rewrite El; set_solver). pose proof (wf_data _ _ _ Hwl Hyl) as Ek. by injection Ek.
  - by rewrite Hk.
Qed.

(** No row of the session stands before the claimed one but those yielded to. *)
Lemma table_fifo c db' d l1 x l2 p : claimedTable c db' d l1 x l2 -> otruthy (c_itemId c) = false ->
  yieldedOf p = default [] (excludeItemIds c) -> (forall cid, p <> prio_selected_item cid) ->
  claimedQueueItemBlocks db' (c_sessionId c) p (d_claimId d) = false.
Proof.
  intros [Erows Hids _ _ Hclaim Hbefore _ _] Hno Hy Hp. unfold claimedQueueItemBlocks.
  rewrite Hclaim, bool_decide_eq_true_2 by done.
  assert (Hgoal : existsb (fun r => inSession (c_sessionId c) r && (fst r <? fst x)%nat
      && negb (bool_decide (k_itemId (snd r) ∈ yieldedOf p))) (queueItems db') = false);
    [|destruct p; try done; by destruct (Hp cid)].
  rewrite Hy. apply not_true_iff_false. intros (y & Hy1%list_elem_of_In & Hy2)%existsb_exists.
  apply andb_true_iff in Hy2 as [[Hys Hlt%Nat.ltb_lt]%andb_true_iff Hex].
  assert (Hyl : y ∈ l1) by (rewrite Erows in Hy1, Hids; eapply (sorted_before l1 l2 x y); [exact Hids|exact Hy1|exact Hlt]).
  destruct (Hbefore y Hyl Hys) as [Hw Ek]. unfold wanted in Hw. rewrite Hno in Hw.
  rewrite <- Ek in Hex. destruct (excludeItemIds c); cbn in *; by rewrite Hw in Hex.
Qed.

Lemma table_admits c db' d l1 x l2 n : claimedTable c db' d l1 x l2 ->
  blocksInTransaction db' (c_sessionId c) (priorityOf c (d_claimId d) n) = false.
Proof.
  intros Ht. pose proof Ht as [_ _ _ _ Hclaim _ Ep Htr]. unfold blocksInTransaction, priorityOf, claimSelection.
  pose proof (table_fifo c db' d l1 x l2) as Hfifo. destruct (d_claimId d) as [|a b] eqn:Ed; [done|].
  destruct (otruthy (c_itemId c)) eqn:Eo; [|destruct (continuePaused c) eqn:Ec]; cbn [negb andb] in Ep |- *.
  - cbn. rewrite andb_false_r. unfold claimedQueueItemBlocks. by rewrite Hclaim, bool_decide_eq_true_2.
  - cbn. rewrite andb_false_r. apply Hfifo; [done..| |done]. by destruct (excludeItemIds c).
  - rewrite Ep. cbn. apply Hfifo; [done..| |done]. by destruct (excludeItemIds c).
Qed.

Lemma table_blocks c db' d l1 x l2 p : claimedTable c db' d l1 x l2 ->
  bypassesQueueOrder p = false -> queueClaimIdOf p <> Some (d_claimId d) ->
  (forall created cid y, p = prio_fifo created cid y -> (createdAt (d_item d) <= created)%Z) ->
  blocksInTransaction db' (c_sessionId c) p = true.
Proof.
  intros [Erows _ Hxs Hxt Hclaim _ _ _] Hp Hne Hc. unfold blocksInTransaction. rewrite Hp.
  destruct (jhas (c_sessionId c) (queuePauses db') && negb (bypassesQueuePause p)); [done|].
  assert (Hnone : forall created cid y, p = prio_fifo created cid y ->
    existsb (fun r => inSession (c_sessionId c) r && (k_createdAtMs (snd r) <=? created)%Z) (queueItems db') = true).
  { intros created cid y Epr. apply existsb_exists. exists x. rewrite <- list_elem_of_In. split; [rewrite Erows; set_solver|].
    rewrite Hxs, Hxt. apply Z.leb_le. by eapply Hc. }
  destruct (queueClaimIdOf p) as [[|a b]|] eqn:Eq; [|unfold claimedQueueItemBlocks|].
  2: rewrite Hclaim, bool_decide_eq_false_2; [done|congruence].
  all: destruct p; try done; by eapply Hnone.
Qed.

(** Turn admission and the queue agree on whose turn it is.  After a claim
    the fence lets exactly that claim through, whichever way it was selected;
    any other request that does not bypass the order (a claim id that is not
    the live one, a direct turn created no earlier than the claimed item) waits. *)
Theorem fence_agrees_with_the_claim (op : QueueOptions T) (c : QueueClaimInput) (db db' : AppDb T)
    (d : QueueDispatchItem) (fs : list QueueCommittedFact) (n : Z) :
  wf_db db -> claimNext op c db = inr ((Some d, fs), db') ->
  blocksInTransaction db' (c_sessionId c) (priorityOf c (d_claimId d) n) = false
  /\ forall p, bypassesQueueOrder p = false -> queueClaimIdOf p <> Some (d_claimId d) ->
       (forall created cid y, p = prio_fifo created cid y -> (createdAt (d_item d) <= created)%Z) ->
       blocksInTransaction db' (c_sessionId c) p = true.
Proof.
  intros Hwf E. destruct (claimNext_table op c db db' d fs Hwf E) as (l1 & x & l2 & Ht).
  split; [by eapply table_admits|]. intros p. by eapply table_blocks.
Qed.
End Spec.

(** ** A sample session *)
Definition sampleAt (n : N) : QueueOptions unit := {|
  nowMs := (1000 + Z.of_N n)%Z; markMs := 0%Z; makeId := fun p => p ++ js "-" ++ [(48 + n)%N];
  claimOwner := js "owner"; claimLeaseMsOption := None; isClaimOwnerAlive := fun _ => false;
  rejectionInTransaction := fun _ _ _ => None; isAcceptedInTransaction := fun _ _ => false;
  markAcknowledgedInTransaction := fun t _ => Some t |}.

Definition sampleMessage (text : string) : QueueMessageInput := {|
  content := js text; attachments := []; inputSafetyDecision := None; displayAttachments := None;
  hideUserMessage := None; displayContent := None; clientIntent := None; queueItemId := None;
  m_source := None; origin := None; quotedMessage := None; m_channelContext := None |}.

Definition sampleInput (s text request : string) : QueueEnqueueInput := {|
  in_immediateSendBatch := None; in_createdAt := None; in_sessionId := js s; in_agentName := js "main";
  in_itemId := None; in_userMessageId := None; in_requestedTurnId := None; in_message := sampleMessage text;
  in_source := None; in_front := false; in_model := None; in_clientRequestId := Some (js request);
  in_dedupeKey := None; in_expiresAt := None |}.

Definition sampleClaim (s : string) : QueueClaimInput := {|
  c_sessionId := js s; c_itemId := None; continuePaused := false; excludeItemIds := None;
  allowedSources := None; c_nowMs := None |}.

(** The tables and facts after a list of calls, the [n]-th with the [n]-th clock. *)
Fixpoint sampleRun (n : N) (calls : list QueueCall) (db : AppDb unit) (fs : list QueueCommittedFact) :
    AppDb unit * list QueueCommittedFact :=
  match calls with
  | [] => (db, fs)
  | c :: rest =>
    match run (sampleAt n) c db with
    | inl _ => sampleRun (n + 1) rest db fs
    | inr (gs, db') => sampleRun (n + 1) rest db' (fs ++ gs)
    end
  end.

Lemma freshId_check {T} (op : QueueOptions T) (db : AppDb T) :
  forallb (fun r => negb (bool_decide (k_itemId (snd r) = makeId op (js "queue")))) (queueItems db) = true ->
  freshId op db.
Proof.
  rewrite forallb_forall. intros H s (r & Hr & Ek)%elem_keys. apply list_elem_of_In, H in Hr.
  injection Ek as _ Ek. by rewrite Ek, bool_decide_eq_true_2 in Hr.
Qed.

Lemma decodable_check {T} (db : AppDb T) :
  forallb (fun r => isQueueItem (rowData r)) (queueItems db) = true -> decodable db.
Proof. intros H. apply Forall_forall. intros r Hr. rewrite forallb_forall in H. by apply H, list_elem_of_In. Qed.

Fixpoint sampleFresh (n : N) (calls : list QueueCall) (db : AppDb unit) : bool :=
  match calls with
  | [] => true
  | c :: rest =>
    forallb (fun r => negb (bool_decide (k_itemId (snd r) = makeId (sampleAt n) (js "queue")))) (queueItems db)
    && sampleFresh (n + 1) rest (fst (sampleRun n [c] db []))
  end.

Lemma sample_reachable n calls base db fs : reachable tt base db fs -> sampleFresh n calls db = true ->
  reachable tt base (fst (sampleRun n calls db fs)) (snd (sampleRun n calls db fs)).
Proof.
  revert n db fs. induction calls as [|c calls IH]; intros n db fs Hr; cbn [sampleRun sampleFresh]; [done|].
  intros [Hf Hrest]%andb_true_iff. destruct (run (sampleAt n) c db) as [e|[gs db']] eqn:E; apply IH; try done.
  by eapply reach_call; [|apply freshId_check|].
Qed.

(** Two messages, the first claimed; a message of another session; a pause. *)
Definition sampleCalls : list QueueCall :=
  [call_enqueue (sampleInput "s" "first" "r0"); call_enqueue (sampleInput "s" "second" "r1");
   call_enqueue (sampleInput "t" "other" "r2"); call_claimNext (sampleClaim "s");
   call_pauseIfPending (js "t") user_stop (js "turn")].
Definition sampleDb : AppDb unit := fst (sampleRun 0 sampleCalls (emptyDb tt) []).
Definition sampleFacts : list QueueCommittedFact := snd (sampleRun 0 sampleCalls (emptyDb tt) []).
(** The two messages before the claim. *)
Definition sampleQueued : AppDb unit := fst (sampleRun 0 (firstn 2 sampleCalls) (emptyDb tt) []).

Lemma sampleDb_reachable : reachable tt (view (emptyDb tt)) sampleDb sampleFacts.
Proof. apply sample_reachable; [constructor|by vm_compute]. Qed.
Lemma sampleQueued_wf : wf_db sampleQueued /\ decodable sampleQueued.
Proof.
  split.
  - assert (H : sampleFresh 0 (firstn 2 sampleCalls) (emptyDb tt) = true) by by vm_compute.
    exact (proj1 (reachable_wf tt _ _ _ (sample_reachable _ _ _ _ _ (reach_empty tt) H))).
  - apply decodable_check. by vm_compute.
Qed.

(** The session [s] replaced by its second message alone, then one more call. *)
Definition replacement : list QueueItem := skipn 1 (queuedItems (js "s") (queueItems sampleQueued)).
Definition replacedDb : AppDb unit :=
  match replaceSession (sampleAt 9) (js "s") replacement sampleDb with
  | inr (_, db') => db' | inl _ => sampleDb
  end.
Definition afterReplacement : AppDb unit * list QueueCommittedFact :=
  sampleRun 10 [call_cancel (js "s") (js "queue-1"); call_cancel (js "t") (js "queue-2")] replacedDb [].

Lemma replacement_reachable : reachable tt (view replacedDb) (fst afterReplacement) (snd afterReplacement).
Proof.
  apply sample_reachable; [|by vm_compute].
  apply (reach_replace _ (sampleAt 9) (js "s") replacement _ _ _ (tt, []) _ sampleDb_reachable);
    [vm_compute; lia|by vm_compute].
Qed.

Lemma facts_tell_the_queue_witness :
  (length sampleFacts = 4%nat /\ replay (view (emptyDb tt)) sampleFacts = Some (view sampleDb))
  /\ (length (snd afterReplacement) = 3%nat
      /\ replay (view replacedDb) (snd afterReplacement) = Some (view (fst afterReplacement))).
Proof.
  split; (split; [by vm_compute|]).
  - apply (facts_tell_the_queue tt), sampleDb_reachable.
  - apply (facts_tell_the_queue tt), replacement_reachable.
Defined.

Lemma queue_invariant_witness : NoDup (map key (queueItems sampleDb)).
Proof. apply (queue_invariant tt (view (emptyDb tt)) sampleDb sampleFacts), sampleDb_reachable. Defined.

Lemma sessions_are_isolated_witness : exists gs db',
  run (sampleAt 9) (call_cancel (js "t") (js "queue-2")) sampleDb = inr (gs, db')
  /\ jget (js "s") (queuePauses db') = jget (js "s") (queuePauses sampleDb).
Proof.
  eexists _, _. split; [by vm_compute|].
  eapply (sessions_are_isolated tt (sampleAt 9) (call_cancel (js "t") (js "queue-2")));
    [apply sampleDb_reachable|apply freshId_check; by vm_compute|by vm_compute|done].
Defined.

Lemma claim_takes_the_head_witness : exists v fs db',
  claimNext (sampleAt 5) (sampleClaim "s") sampleQueued = inr ((v, fs), db')
  /\ claimEffect (sampleAt 5) (sampleClaim "s") sampleQueued v (queueItems db').
Proof. apply claim_takes_the_head; [apply sampleQueued_wf..|by vm_compute|by vm_compute]. Defined.

Lemma fence_agrees_with_the_claim_witness : exists d fs db',
  claimNext (sampleAt 5) (sampleClaim "s") sampleQueued = inr ((Some d, fs), db')
  /\ blocksInTransaction db' (js "s") (priorityOf (sampleClaim "s") (d_claimId d) 7) = false.
Proof.
  eexists _, _, _. split; [vm_compute; reflexivity|].
  eapply (fence_agrees_with_the_claim (sampleAt 5) (sampleClaim "s") sampleQueued);
    [apply sampleQueued_wf|by vm_compute].
Defined.

(** Admission asks with the claim id; without it the claimed item comes first. *)
Example fence_sample :
  blocksInTransaction sampleDb (js "s") (prio_fifo 5000 (Some (js "claim-3")) None) = false
  /\ blocksInTransaction sampleDb (js "s") (prio_fifo 5000 None None) = true
  /\ blocksInTransaction sampleDb (js "s") prio_retry_continuation = false
  /\ blocksInTransaction sampleDb (js "t") (prio_fifo 500 None None) = true.
Proof. by vm_compute. Qed.
