(* ===== verification/QueueDelivery.v ===== *)
(** * The session queue: recovery, requeues and reordering

    What recovery does to the claim of a session, that a repeated enqueue is
    answered from the stored item, what a requeue that displaces a claimed row
    runs into, and that reordering follows the request. *)
From S2P Require Import Prelude JsValue QueueModel QueueRepo QueueJournal QueueLaws QueueSpec.

Section Delivery.
Context {T : Type}.
Implicit Types db : AppDb T.

(** ** Recovery *)
Definition claimedIn (s : jstr) (rows : list Row) : list Row :=
  List.filter (fun r => inSession s r && hasStatus claimed r) rows.

Definition recoveryQuery (i : QueueItem) : QueueClaimAcceptanceQuery := {|
  aq_sessionId := sessionId i; aq_claimId := default [] (claimId i); aq_source := queueExecutionSource i;
  aq_queueItemIds := [itemId i]; aq_turnId := None |}.

Definition noRecovery : RecoveryResult := {| acknowledged := []; released := [] |}.
Definition dropItem (i : QueueItem) (rows : list Row) : list Row :=
  List.filter (fun r => negb (hasItem (sessionId i) (itemId i) r)) rows.

(** What recovery makes of the claimed item [i]: kept, dropped as accepted,
    dropped as expired, or put back. *)
Definition recoverOne (op : QueueOptions T) (scope : option Z) (t : T) (i : QueueItem) (rows : list Row) :
    list Row * RecoveryResult :=
  if activeClaim op scope i then (rows, noRecovery)
  else if negb (pendingDelivery (default [] (claimId i)) i) && isAcceptedInTransaction op t (recoveryQuery i)
  then (dropItem i rows, {| acknowledged := [i]; released := [] |})
  else if expired i (nowMs op) then (dropItem i rows, noRecovery)
  else (overwrite (hasItem (sessionId i) (itemId i)) (storage (withoutClaim i)) rows,
        {| acknowledged := []; released := [withoutClaim i] |}).

Definition recovery (op : QueueOptions T) (scope : option Z) (s : jstr) (db : AppDb T) : list Row * RecoveryResult :=
  let rows := liveRows s (nowMs op) db in
  match claimedIn s rows with
  | [] => (rows, noRecovery)
  | r :: _ => recoverOne op scope (turns db) (rowData r) rows
  end.

Lemma claim_id_of i : isQueueItem i = true -> status i = claimed -> exists c cs, claimId i = Some (c :: cs).
Proof.
  unfold isQueueItem. intros H Hs. rewrite Hs in H. reflect_bools.
  destruct (claimId i) as [[|c cs]|]; try done. by exists c, cs.
Qed.

Lemma wp_release i (Q : QueueItem -> AppDb T -> Prop) db : ikey_of i ∈ keys (queueItems db) ->
  (forall db', turns db' = turns db ->
     queueItems db' = overwrite (hasItem (sessionId i) (itemId i)) (storage (withoutClaim i)) (queueItems db) ->
     Q (withoutClaim i) db') ->
  wp (release i) Q db.
Proof. intros Hi HQ. unfold release, wp, mbind, M_bind. rewrite write_present by done. by apply HQ. Qed.

Lemma recoverOne_exact op scope s db r : wf_db db -> r ∈ queueItems db ->
  inSession s r = true -> hasStatus claimed r = true -> isQueueItem (rowData r) = true ->
  wp (recoverGroups op s (groupRecoverable op scope [rowData r]))
    (fun res db' => (queueItems db', fst res) = recoverOne op scope (turns db) (rowData r) (queueItems db)) db.
Proof.
  intros Hwf Hr Hs Hc Hq. destruct (pendingIn_row s r db Hwf Hr Hs) as [Es Hin].
  assert (Est : status (rowData r) = claimed).
  { unfold rowData. rewrite (wf_status _ _ _ Hwf Hr). unfold hasStatus in Hc. by destruct (k_status (snd r)). }
  destruct (claim_id_of _ Hq Est) as (c & cs & Ec).
  unfold groupRecoverable, recoverOne. cbn [groupClaims]. rewrite Est, Ec. cbn [jget jset default app List.filter snd existsb].
  rewrite orb_false_r. destruct (activeClaim op scope (rowData r)); cbn [negb recoverGroups]; [by apply wp_ret|].
  apply wp_bind, wp_ret, wp_bind, wp_reads. cbn [existsb]. rewrite orb_false_r.
  assert (Eq : recoveryQuery (rowData r) = {| aq_sessionId := sessionId (rowData r); aq_claimId := c :: cs;
    aq_source := queueExecutionSource (rowData r); aq_queueItemIds := map itemId [rowData r]; aq_turnId := None |})
    by (unfold recoveryQuery; by rewrite Ec).
  rewrite Eq. change (ifTruthy None) with (@None jstr).
  change (id (c :: cs)) with (c :: cs).
  destruct (negb (pendingDelivery (c :: cs) (rowData r)) && _).
  - apply wp_bind, wp_markAcknowledged. intros t. cbn [deleteItems].
    apply wp_bind, wp_bind, wp_modify, wp_ret, wp_bind, wp_ret, wp_ret. unfold dropItem. rewrite Es. reflexivity.
  - cbn [releaseItems]. destruct (expired (rowData r) (nowMs op)).
    + apply wp_bind, wp_bind, wp_modify, wp_bind, wp_ret, wp_ret, wp_bind, wp_ret, wp_ret. unfold dropItem. rewrite Es. reflexivity.
    + apply wp_bind, wp_bind. apply wp_release; [done|]. intros db' _ E.
      apply wp_bind, wp_ret, wp_ret, wp_bind, wp_ret, wp_ret. cbn [fst]. rewrite E. reflexivity.
Qed.

Lemma claimedIn_cases s l n : wf_rows l n -> claimedIn s l = []
  \/ exists r, claimedIn s l = [r] /\ r ∈ l /\ inSession s r = true /\ hasStatus claimed r = true.
Proof.
  intros Hwf. pose proof (wf_claim _ _ Hwf s) as Hlen. fold (claimedIn s l) in Hlen.
  destruct (claimedIn s l) as [|r [|]] eqn:E; cbn in Hlen; [by left| |lia]. right. exists r.
  assert (r ∈ claimedIn s l) as [[? ?]%andb_true_iff ?]%elem_filter by (rewrite E; left). done.
Qed.

Lemma recoverClaims_effect op s scope db : wf_db db ->
  wp (recoverClaims op s scope) (fun r db' => (queueItems db', fst r) = recovery op scope s db /\ wf_db db') db.
Proof.
  intros Hwf. eapply wp_mono; [apply (wp_transaction op s _
    (fun res db2 => (queueItems db2, res) = recovery op scope s db)); [done|]|].
  2:{ intros r db' [[Hwf' _ _ _ _] (db2 & HQ & -> & _)]. done. }
  intros db1 E1 E2 E3 E4. apply bodyOk_afterExpiry. intros v o q fs db2 HJ Hx Et Hrows _.
  pose proof (J_wf _ _ _ _ _ _ HJ) as Hwf2. rewrite E1 in Hrows. fold (liveRows s (nowMs op) db) in Hrows.
  unfold recovery. rewrite <- Hrows, <- E4, <- Et.
  apply wp_bind, wp_selectItems. fold (claimedIn s (queueItems db2)). intros Hq.
  destruct (recoverable_rows op scope s db2 Hwf2) as [H1 H2]. fold (claimedIn s (queueItems db2)) in H1, H2.
  eapply wp_use.
  { apply wp_and; [by apply (wp_recoverGroups op s o q _ v fs)|].
    apply (fun H => H : wp _ (fun res db' => (queueItems db', fst res) = match claimedIn s (queueItems db2) with
      | [] => (queueItems db2, noRecovery) | r :: _ => recoverOne op scope (turns db2) (rowData r) (queueItems db2) end) db2).
    destruct (claimedIn_cases s _ _ Hwf2) as [E|(r & E & Hr & Hs & Hc)]; rewrite E in Hq |- *; cbn [map].
    - by apply wp_ret.
    - apply Forall_cons in Hq as [Hq _]. by apply recoverOne_exact. }
  intros [res more] db' [(H3 & H4 & _) H5]. cbn [snd fst] in *. apply wp_ret, post_kept; [done| |done].
  by rewrite execs_app, Hx, H4.
Qed.

Lemma dropItem_claimed i l n r : wf_rows l n -> claimedIn (sessionId i) l = [r] -> rowData r = i ->
  claimedIn (sessionId i) (dropItem i l) = [].
Proof.
  intros Hwf E Ei. apply filter_Forall_nil, Forall_forall. intros y [Hy Hyl]%elem_filter.
  apply not_true_iff_false. intros Hp. assert (y ∈ claimedIn (sessionId i) l) as Hin by by apply elem_filter.
  rewrite E in Hin. apply list_elem_of_singleton in Hin as ->. subst i.
  assert (hasItem (sessionId (rowData r)) (itemId (rowData r)) r = true) as Hh
    by (apply hasItem_spec; symmetry; exact (wf_data _ _ _ Hwf Hyl)).
  by rewrite Hh in Hy.
Qed.

Lemma release_unclaims i l n r : wf_rows l n -> claimedIn (sessionId i) l = [r] -> rowData r = i ->
  claimedIn (sessionId i) (overwrite (hasItem (sessionId i) (itemId i)) (storage (withoutClaim i)) l) = [].
Proof.
  intros Hwf E Ei. apply filter_Forall_nil, Forall_forall.
  intros y [[Hy Hk]|(r0 & _ & _ & ->)]%overwrite_elem; [|by rewrite andb_false_r].
  apply not_true_iff_false. intros Hp. assert (y ∈ claimedIn (sessionId i) l) as Hin by by apply elem_filter.
  rewrite E in Hin. apply list_elem_of_singleton in Hin as ->. subst i. by apply Hk; rewrite <- (wf_data _ _ _ Hwf Hy).
Qed.

(** Recovery after a crash or a timeout settles the one claim a session
    can have, and only that: expired queued items go; a claim whose owner is
    alive, whose lease runs and which is newer than the scope stays; any other
    claim is acknowledged and dropped when admission accepted it and no
    delivery was under way, dropped when the item has expired, and otherwise
    put back unclaimed in its place.  No dead claim is left behind. *)
Theorem recovery_settles_the_claim (op : QueueOptions T) (s : jstr) (scope : option Z) (db db' : AppDb T)
    (res : RecoveryResult) (fs : list QueueCommittedFact) :
  wf_db db -> recoverClaims op s scope db = inr ((res, fs), db') ->
  (queueItems db', res) = recovery op scope s db
  /\ forall r, r ∈ queueItems db' -> inSession s r = true -> hasStatus claimed r = true ->
       activeClaim op scope (rowData r) = true.
Proof.
  intros Hwf E. pose proof (recoverClaims_effect op s scope db Hwf) as H. unfold wp in H. rewrite E in H.
  destruct H as [H _]. split; [exact H|]. intros r Hr Hs Hc.
  assert (Hin : r ∈ claimedIn s (queueItems db')) by (apply elem_filter; by rewrite Hs, Hc).
  assert (Hwl : wf_rows (liveRows s (nowMs op) db) (nextId db)) by by apply wf_filter.
  unfold recovery in H. cbn [fst] in H.
  destruct (claimedIn_cases s _ _ Hwl) as [E0|(r0 & E0 & Hr0 & Hs0 & Hc0)]; rewrite E0 in H.
  { injection H as H _. rewrite H, E0 in Hin. by apply elem_of_nil in Hin. }
  assert (Es : sessionId (rowData r0) = s).
  { pose proof (wf_data _ _ _ Hwl Hr0) as [= Ek _]. apply inSession_spec in Hs0. cbn in Hs0. unfold rowData. congruence. }
  pose proof (dropItem_claimed (rowData r0) _ _ r0 Hwl) as Hd.
  pose proof (release_unclaims (rowData r0) _ _ r0 Hwl) as Hu. rewrite Es in Hd, Hu.
  unfold recoverOne in H. rewrite Es in H. destruct (activeClaim op scope (rowData r0)) eqn:Ea.
  { injection H as H _. rewrite H, E0 in Hin. by apply list_elem_of_singleton in Hin as ->. }
  repeat case_match; injection H as H _; rewrite H in Hin;
    rewrite ?Hd, ?Hu in Hin by done; by apply elem_of_nil in Hin.
Qed.

(** ** Repeated requests *)
(** The rows a request id finds once what has expired is gone. *)
Definition requested (s rid : jstr) (r : Row) : bool := inSession s r && bool_decide (k_clientRequestId (snd r) = Some rid).

Lemma J_keys s v o q fs db db' : J s v o q fs db -> J s v o q fs db' -> keys (queueItems db') = keys (queueItems db).
Proof. intros [_ H1 _ _] [_ H2 _ _]. congruence. Qed.

Lemma attach_identity i t db :
  wp (attachRequestedTurnId i t) (fun j _ => clientRequestId j = clientRequestId i /\ ikey_of j = ikey_of i) db.
Proof.
  destruct t as [[|c t]|]; cbn [attachRequestedTurnId]; [by apply wp_ret| |by apply wp_ret].
  destruct (otruthy (requestedTurnId i)); [by apply wp_ret|].
  unfold wp, mbind, M_bind, write. by destruct (existsb _ _).
Qed.

Definition enqueueReplays (db : AppDb T) (rid : jstr) (res : option QueueEnqueueResult) (db' : AppDb T) : Prop :=
  keys (queueItems db') ⊆ keys (queueItems db)
  /\ forall e, res = Some e -> clientRequestId (r_item e) = Some rid /\ ikey_of (r_item e) ∈ keys (queueItems db').

Lemma enqueue_replays op input c rid db : wf_db db -> in_clientRequestId input = Some (c :: rid) ->
  Exists (fun r => requested (in_sessionId input) (c :: rid) r = true)
    (liveRows (in_sessionId input) (nowMs op) db) ->
  wp (enqueue op input) (fun r db' => enqueueReplays db (c :: rid) (fst r) db') db.
Proof.
  intros Hwf Hrid Hex. unfold enqueue. destruct (validEnqueue input); cbn [negb]; [|by apply wp_ret].
  apply wp_mutation. eapply wp_mono; [apply (wp_transaction op _ _ (fun res db2 => enqueueReplays db (c :: rid) res db2)); [done|]|].
  2:{ intros r db' [_ (db2 & HQ & E & _)]. unfold enqueueReplays in *. by rewrite E. }
  intros db1 E1 E2 E3 _. apply bodyOk_afterExpiry. intros v o q fs db2 HJ Hx _ Hrows _.
  rewrite E1 in Hrows. fold (liveRows (in_sessionId input) (nowMs op) db) in Hrows. rewrite <- Hrows in Hex.
  assert (Hk : keys (queueItems db2) ⊆ keys (queueItems db)) by (rewrite Hrows; apply keys_filter).
  destruct (match in_expiresAt input with Some e => (e <=? nowMs op)%Z | None => false end);
    [by apply wp_ret, post_kept|].
  apply wp_bind, wp_reads. case_match; [by apply wp_ret, post_kept|].
  apply wp_bind. rewrite Hrid. apply wp_selectFirst_row.
  - intros Hn. rewrite Forall_forall in Hn. apply Exists_exists in Hex as (r & Hr & E).
    specialize (Hn r Hr). unfold requested in E. by rewrite E in Hn.
  - intros r Hr [Hs E%bool_decide_eq_true]%andb_true_iff _. pose proof (J_wf _ _ _ _ _ _ HJ) as Hwf2.
    apply wp_bind. eapply wp_mono.
    { apply wp_and; [|apply attach_identity]. eapply (wp_attach _ _ _ _ _ _ _ _ (fun i db' => J (in_sessionId input) v o q fs db'
        /\ sessionId i = in_sessionId input
        /\ exists r', r' ∈ queueItems db' /\ key r' = ikey_of i /\ k_status (snd r') = status i)); [done..|].
      intros i db' HJ' Es Hrow _. done. }
    intros i db3 [(HJ3 & Es & Hrow) [Ec Ei]]. apply wp_bind. eapply wp_maybeMove; [exact HJ3|done..|].
    intros db4 HJ4. apply wp_bind, wp_enqueueResult. intros n. apply wp_ret, post_kept; [done..|].
    split; [by rewrite (J_keys _ _ _ _ _ _ _ HJ HJ4)|]. intros e [= <-]. cbn [r_item]. split.
    + rewrite Ec. unfold rowData. rewrite <- E. pose proof (wf_cols _ _ Hwf2) as Hcols.
      rewrite Forall_forall in Hcols. by rewrite (Hcols r Hr) at 2.
    + destruct Hrow as (r' & Hr' & Ek' & _). rewrite (J_keys _ _ _ _ _ _ _ HJ3 HJ4).
      apply elem_keys. by exists r'.
Qed.

(** A request is stored once.  Enqueueing again with a client request id
    that a live item of the session carries adds no item, whatever else the
    request says (another message, a restored identity, the front of the queue);
    the item it answers with is stored and carries that request id. *)
Theorem repeated_enqueue_adds_nothing (op : QueueOptions T) (input : QueueEnqueueInput) (rid : jstr)
    (db db' : AppDb T) (res : option QueueEnqueueResult) (fs : list QueueCommittedFact) :
  wf_db db -> in_clientRequestId input = Some rid -> truthy rid = true ->
  Exists (fun r => requested (in_sessionId input) rid r = true) (liveRows (in_sessionId input) (nowMs op) db) ->
  enqueue op input db = inr ((res, fs), db') ->
  keys (queueItems db') ⊆ keys (queueItems db)
  /\ forall e, res = Some e -> clientRequestId (r_item e) = Some rid /\ ikey_of (r_item e) ∈ keys (queueItems db').
Proof.
  intros Hwf Hrid Ht Hex E. destruct rid as [|c rid]; [done|].
  pose proof (enqueue_replays op input c rid db Hwf Hrid Hex) as H. unfold wp in H. rewrite E in H. exact H.
Qed.

(** ** Reordering *)
(** The requested order is taken when no item of the session is claimed and it
    names every queued item once. *)
Definition canReorder (op : QueueOptions T) (s : jstr) (ids : list jstr) (db : AppDb T) : bool :=
  let rows := liveRows s (nowMs op) db in
  negb (existsb (fun r => inSession s r && hasStatus claimed r) rows)
  && completePermutation (queuedItems s rows) ids.

Definition reorderEffect (op : QueueOptions T) (s : jstr) (ids : list jstr) (db : AppDb T)
    (res : option (list QueueItem)) (db' : AppDb T) : Prop :=
  let items := queuedItems s (liveRows s (nowMs op) db) in
  match res with
  | None => canReorder op s ids db = false /\ queuedItems s (queueItems db') = items
  | Some l => canReorder op s ids db = true /\ map itemId l = ids /\ l ≡ₚ items /\ queuedItems s (queueItems db') = l
  end.

(** Reordering does what was asked or nothing: when no item of the session
    is claimed and the ids name every queued item exactly once, the queue
    afterwards holds the same items, unchanged, in the order of the ids;
    otherwise the request is refused and the queue keeps its order. *)
Theorem reorder_follows_the_request (op : QueueOptions T) (s : jstr) (ids : list jstr) (db db' : AppDb T)
    (res : option (list QueueItem)) (fs : list QueueCommittedFact) :
  wf_db db -> reorder op s ids db = inr ((res, fs), db') -> reorderEffect op s ids db res db'.
Proof.
  intros Hwf E. assert (H : wp (reorder op s ids) (fun r db' => reorderEffect op s ids db (fst r) db') db);
    [|unfold wp in H; by rewrite E in H].
  apply wp_mutation. eapply wp_mono; [apply (wp_transaction op _ _ (reorderEffect op s ids db)); [done|]|].
  2:{ intros r db2 [_ (db3 & HQ & E3 & _)]. unfold reorderEffect in *. by rewrite E3. }
  intros db1 E1 E2 E3 _. apply bodyOk_afterExpiry. intros v o q gs db2 HJ Hx _ Hrows _.
  rewrite E1 in Hrows. fold (liveRows s (nowMs op) db) in Hrows.
  eapply reorder_body; [exact HJ|exact Hx|..]; unfold reorderEffect, canReorder; rewrite <- Hrows.
  - intros H. split; [|done]. apply andb_false_iff. rewrite negb_false_iff. exact H.
  - intros l db3 Hb Hc Hids Hperm Hl _. rewrite Hb. by split_and!.
Qed.

(** ** A front requeue of a request whose item is claimed *)
Lemma selectFirst_value p r l db : wf_db db -> decodable db -> List.filter p (queueItems db) = r :: l ->
  selectFirst p db = inr (Some (rowData r), db).
Proof.
  intros Hwf Hd E. unfold selectFirst, selectRows, mbind, M_bind, reads. rewrite E.
  assert (r ∈ List.filter p (queueItems db)) as [_ Hr]%elem_filter by (rewrite E; left).
  unfold lift. by rewrite (decodes r db).
Qed.

Lemma selectItems_value p db : wf_db db -> decodable db ->
  selectItems p db = inr (map rowData (List.filter p (queueItems db)), db).
Proof.
  intros Hwf Hd. destruct (selectItems_returns p db Hwf Hd) as (a & db' & E).
  assert (wp (selectItems p) (fun a db' => a = map rowData (List.filter p (queueItems db)) /\ db' = db) db) as H
    by by apply wp_selectItems.
  unfold wp in H. rewrite E in H. destruct H as [-> ->]. exact E.
Qed.

Lemma moveClaimed_throws db i r : wf_db db -> decodable db -> r ∈ queueItems db -> key r = ikey_of i ->
  status i = claimed -> k_status (snd r) = claimed -> moveQueuedToFront i db = inl ConstraintError.
Proof.
  intros Hwf Hd Hr Hk Hi Hst. unfold moveQueuedToFront, rowsByStatus, mbind, M_bind.
  rewrite selectItems_value by done. unfold deleteRows, modify. cbn [insertAll].
  unfold mbind, M_bind, insertRow at 1. cbn [storage k_sessionId k_itemId queueItems set_items].
  rewrite (proj2 (existsb_hasItem _ _ _)); [done|]. apply elem_keys. exists r. split; [|exact Hk].
  apply elem_filter. split; [|done]. unfold hasStatus. rewrite Hst. by rewrite andb_false_r.
Qed.

Lemma transaction_throws {A} op s (body : M (Committed A)) e db :
  (forall db1, queueItems db1 = queueItems db -> nextId db1 = nextId db -> body db1 = inl e) ->
  transaction op s body db = inl e.
Proof.
  intros Hb. unfold transaction, ensureQueueRowsReady, mbind, M_bind, reads.
  destruct (jhas s (queueRowMigrations db)); cbn; by rewrite Hb.
Qed.

Lemma attach_claimed db i r t : wf_db db -> decodable db -> r ∈ queueItems db -> rowData r = i -> status i = claimed ->
  exists j db' r', attachRequestedTurnId i t db = inr (j, db') /\ wf_db db' /\ decodable db'
    /\ r' ∈ queueItems db' /\ key r' = ikey_of j /\ status j = claimed /\ k_status (snd r') = claimed.
Proof.
  intros Hwf Hd Hr <- Hst. pose proof (wf_data _ _ _ Hwf Hr) as Ek. pose proof (wf_status _ _ _ Hwf Hr) as Est.
  fold (rowData r) in Ek, Est.
  assert (H0 : exists j db' r', (mret (rowData r) : M QueueItem) db = inr (j, db') /\ wf_db db' /\ decodable db'
    /\ r' ∈ queueItems db' /\ key r' = ikey_of j /\ status j = claimed /\ k_status (snd r') = claimed).
  { exists (rowData r), db, r. split_and!; try done. by rewrite <- Est. }
  destruct t as [[|c t]|]; cbn [attachRequestedTurnId]; [exact H0| |exact H0].
  destruct (otruthy (requestedTurnId (rowData r))); [exact H0|]. clear H0.
  set (j := with_requestedTurnId (c :: t) (rowData r)).
  assert (Hj : ikey_of j = ikey_of (rowData r)) by done.
  assert (Hin : ikey_of j ∈ keys (queueItems db)) by (rewrite Hj, Ek; apply elem_keys; by exists r).
  pose proof (wp_writeRow (sessionId j) _ _ _ [] db r j (fun _ db' => wf_db db')
    (J_start (sessionId j) db Hwf) Hr (eq_sym Ek) eq_refl (or_intror Est)) as Hw.
  unfold mbind, M_bind. unfold wp in Hw. rewrite write_present in * by done.
  eexists j, _, (fst r, storage j). split_and!; [reflexivity|..]; try done.
  - apply Hw. intros db' HJ _ _. by apply (J_wf _ _ _ _ _ _ HJ).
  - unfold decodable in *. cbn [queueItems set_items]. rewrite Forall_forall in Hd |- *.
    intros x [[Hx _]|(r0 & Hr0 & _ & ->)]%overwrite_elem; [auto|]. exact (Hd r Hr).
  - cbn [queueItems set_items]. apply overwrite_elem. right. exists r. by split_and!.
Qed.

(** A requeue that restores an identity to the front of the queue, with the
    request id of an item that is claimed, does not take the item over and is
    not answered from it: the claimed row keeps its place in the unique index,
    the move to the front tries to insert it a second time, and the whole
    transaction fails with the constraint error. *)
Theorem front_requeue_of_a_claim_throws (op : QueueOptions T) (input : QueueEnqueueInput) (rid : jstr)
    (db : AppDb T) (r : Row) (l : list Row) :
  wf_db db -> decodable db -> validEnqueue input = true ->
  rejectionInTransaction op (turns db) (in_sessionId input) (nowMs op) = None ->
  in_expiresAt input = None -> in_front input = true -> otruthy (in_itemId input) = true ->
  in_clientRequestId input = Some rid -> truthy rid = true ->
  List.filter (requested (in_sessionId input) rid) (liveRows (in_sessionId input) (nowMs op) db) = r :: l ->
  hasStatus claimed r = true ->
  enqueue op input db = inl ConstraintError.
Proof.
  intros Hwf Hd Hv Hrej Hexp Hfront Hid Hrid Ht Hr Hc. unfold enqueue, mutationTransaction, assertMutationAdmitted.
  rewrite Hv. cbn [negb]. unfold mbind at 1, M_bind at 1. rewrite Hrej. apply transaction_throws.
  intros db1 E1 E2. unfold enqueueInTransaction, afterExpiry, deleteExpired.
  assert (Hwf1 : wf_db db1) by (unfold wf_db; by rewrite E1, E2).
  assert (Hd1 : decodable db1) by (unfold decodable; by rewrite E1).
  unfold mbind, M_bind. rewrite selectItems_value by done. unfold deleteRows, modify.
  rewrite Hexp, Hfront, Hid. cbn [andb negb]. unfold hasClaimed, reads. rewrite Hrid.
  destruct rid as [|c rid]; [done|]. set (db2 := set_items _ db1).
  assert (Hrows : queueItems db2 = liveRows (in_sessionId input) (nowMs op) db)
    by (subst db2; cbn [queueItems set_items]; by rewrite E1).
  assert (Hwf2 : wf_db db2) by (subst db2; by apply wf_filter).
  assert (Hd2 : decodable db2) by (eapply decodable_rows; [exact Hd1|]; subst db2; by intros x [_ ?]%elem_filter).
  rewrite <- Hrows in Hr. assert (Hf : findByClientRequest (in_sessionId input) (c :: rid) db2 = inr (Some (rowData r), db2))
    by by apply (selectFirst_value _ r l).
  cbv beta iota. unfold mret, M_ret. rewrite Hf.
  assert (r ∈ List.filter (requested (in_sessionId input) (c :: rid)) (queueItems db2)) as [_ Hin]%elem_filter
    by (rewrite Hr; left).
  assert (Est : status (rowData r) = claimed).
  { unfold rowData. rewrite (wf_status _ _ _ Hwf2 Hin). unfold hasStatus in Hc. by destruct (k_status (snd r)). }
  destruct (attach_claimed db2 (rowData r) r (in_requestedTurnId input) Hwf2 Hd2 Hin eq_refl Est)
    as (j & db3 & r' & Ea & Hwf3 & Hd3 & Hr' & Hk' & Hj & Hst').
  unfold replayEnqueue, mbind, M_bind. rewrite Ea, Hfront. by rewrite (moveClaimed_throws db3 j r').
Qed.
End Delivery.

(** ** Witnesses on the sample session *)
Lemma sampleDb_wf : wf_db sampleDb /\ decodable sampleDb.
Proof.
  split; [exact (proj1 (reachable_wf tt _ _ _ sampleDb_reachable))|]. apply decodable_check. by vm_compute.
Qed.

Lemma recovery_settles_the_claim_witness : exists res fs db',
  recoverClaims (sampleAt 9) (js "s") None sampleDb = inr ((res, fs), db')
  /\ map itemId (released res) = [js "queue-0"]
  /\ (queueItems db', res) = recovery (sampleAt 9) None (js "s") sampleDb.
Proof.
  eexists _, _, _. split; [vm_compute; reflexivity|]. split; [by vm_compute|].
  eapply (recovery_settles_the_claim (sampleAt 9) (js "s") None sampleDb); [apply sampleDb_wf|by vm_compute].
Defined.

Lemma repeated_enqueue_adds_nothing_witness : exists res fs db',
  enqueue (sampleAt 9) (sampleInput "s" "changed" "r1") sampleDb = inr ((res, fs), db')
  /\ keys (queueItems db') ⊆ keys (queueItems sampleDb).
Proof.
  eexists _, _, _. split; [vm_compute; reflexivity|].
  eapply (repeated_enqueue_adds_nothing (sampleAt 9) (sampleInput "s" "changed" "r1") (js "r1") sampleDb);
    [apply sampleDb_wf|done|done| |by vm_compute].
  vm_compute. right. by left.
Defined.

Lemma reorder_follows_the_request_witness : exists res fs db',
  reorder (sampleAt 9) (js "s") [js "queue-1"; js "queue-0"] sampleQueued = inr ((res, fs), db')
  /\ (map itemId <$> res) = Some [js "queue-1"; js "queue-0"]
  /\ reorderEffect (sampleAt 9) (js "s") [js "queue-1"; js "queue-0"] sampleQueued res db'.
Proof.
  eexists _, _, _. split; [vm_compute; reflexivity|]. split; [by vm_compute|].
  eapply (reorder_follows_the_request (sampleAt 9)); [apply sampleQueued_wf|by vm_compute].
Defined.

(** The requeue of the claimed first message, to the front under its identity. *)
Definition sampleRequeue : QueueEnqueueInput := {|
  in_immediateSendBatch := None; in_createdAt := None; in_sessionId := js "s"; in_agentName := js "main";
  in_itemId := Some (js "queue-0"); in_userMessageId := None; in_requestedTurnId := None;
  in_message := sampleMessage "first"; in_source := None; in_front := true; in_model := None;
  in_clientRequestId := Some (js "r0"); in_dedupeKey := None; in_expiresAt := None |}.

Lemma front_requeue_of_a_claim_throws_witness : enqueue (sampleAt 9) sampleRequeue sampleDb = inl ConstraintError.
Proof.
  eapply (front_requeue_of_a_claim_throws (sampleAt 9) sampleRequeue (js "r0") sampleDb);
    [apply sampleDb_wf..|by vm_compute|done|done|done|done|done|done|vm_compute; reflexivity|by vm_compute].
Defined.

(** With another request id the same requeue takes the identity over. *)
Example requeue_takes_over :
  match enqueue (sampleAt 9) {|
    in_immediateSendBatch := None; in_createdAt := None; in_sessionId := js "s"; in_agentName := js "main";
    in_itemId := Some (js "queue-0"); in_userMessageId := None; in_requestedTurnId := None;
    in_message := sampleMessage "first"; in_source := None; in_front := true; in_model := None;
    in_clientRequestId := Some (js "other"); in_dedupeKey := None; in_expiresAt := None |} sampleDb with
  | inr (_, db') => map itemId (queuedItems (js "s") (queueItems db')) = [js "queue-0"; js "queue-1"]
  | inl _ => False
  end.
Proof. by vm_compute. Qed.
