(* ===== verification/Utf8.v ===== *)
(** * UTF-8

    What [Buffer.from(s, 'utf8')] and [buffer.toString('utf8')] compute, after
    the WHATWG encoding standard: a lone surrogate encodes as U+FFFD, and the
    decoder replaces each ill-formed sequence by U+FFFD.  A code unit is below
    2^16, a byte below 2^8. *)
From S2P Require Import Prelude RgFingerprint.

(** ** Encoding *)
Definition pair_code (h l : jchar) : N := (65536 + (h - 55296) * 1024 + (l - 56320))%N.

(** The code points of a string, as [for (const c of text)] yields them. *)
Fixpoint codePoints (s : jstr) : list N :=
  match s with
  | [] => []
  | h :: s' =>
    match s' with
    | l :: s'' =>
      if isHigh h && isLow l then pair_code h l :: codePoints s''
      else h :: codePoints s'
    | [] => [h]
    end
  end.

Definition encode_code (c : N) : list N :=
  if (c <? 128)%N then [c]
  else if (c <? 2048)%N then [192 + c / 64; 128 + c mod 64]%N
  else if (c <? 65536)%N then [224 + c / 4096; 128 + (c / 64) mod 64; 128 + c mod 64]%N
  else [240 + c / 262144; 128 + (c / 4096) mod 64; 128 + (c / 64) mod 64; 128 + c mod 64]%N.

Definition replacement : N := 65533%N.

Fixpoint encode (s : jstr) : list N :=
  match s with
  | [] => []
  | c :: s' =>
    match s' with
    | d :: s'' =>
      if isHigh c && isLow d then encode_code (pair_code c d) ++ encode s''
      else encode_code (if isHigh c || isLow c then replacement else c) ++ encode s'
    | [] => encode_code (if isHigh c || isLow c then replacement else c)
    end
  end.

(** ** Decoding *)

(** The units of a code point. *)
Definition units (c : N) : jstr :=
  if (c <? 65536)%N then [c]
  else [55296 + (c - 65536) / 1024; 56320 + (c - 65536) mod 1024]%N.

(** [needed] more continuation bytes, the next between [lower] and [upper]. *)
Record DecodeState := { needed : nat; code : N; lower : N; upper : N }.

Definition idle : DecodeState := {| needed := 0; code := 0; lower := 128; upper := 191 |}.

(** A byte outside any sequence: what is emitted and the next state. *)
Definition lead (b : N) : jstr * DecodeState :=
  if (b <? 128)%N then ([b], idle)
  else if ((194 <=? b) && (b <=? 223))%N then
    ([], {| needed := 1; code := b - 192; lower := 128; upper := 191 |})%N
  else if ((224 <=? b) && (b <=? 239))%N then
    ([], {| needed := 2; code := (b - 224)%N; lower := if (b =? 224)%N then 160%N else 128%N;
            upper := if (b =? 237)%N then 159%N else 191%N |})
  else if ((240 <=? b) && (b <=? 244))%N then
    ([], {| needed := 3; code := (b - 240)%N; lower := if (b =? 240)%N then 144%N else 128%N;
            upper := if (b =? 244)%N then 143%N else 191%N |})
  else ([replacement], idle).

Fixpoint decode_go (bs : list N) (st : DecodeState) : jstr :=
  match bs with
  | [] => if (needed st =? 0)%nat then [] else [replacement]
  | b :: rest =>
    match needed st with
    | O => let '(out, st') := lead b in out ++ decode_go rest st'
    | S n =>
      if ((lower st <=? b) && (b <=? upper st))%N then
        let c := (code st * 64 + (b - 128))%N in
        if (n =? 0)%nat then units c ++ decode_go rest idle
        else decode_go rest {| needed := n; code := c; lower := 128; upper := 191 |}
      else let '(out, st') := lead b in replacement :: out ++ decode_go rest st'
    end
  end.

Definition decode (bs : list N) : jstr := decode_go bs idle.

(** ** Well-formed strings: code units, surrogates in pairs *)
Fixpoint wellFormed (s : jstr) : bool :=
  match s with
  | [] => true
  | c :: s' =>
    match s' with
    | d :: s'' => if isHigh c then isLow d && wellFormed s''
                  else negb (isLow c) && (c <? 65536)%N && wellFormed s'
    | [] => negb (isHigh c) && negb (isLow c) && (c <? 65536)%N
    end
  end.

(** ** The length agrees with [Buffer.byteLength] *)
Lemma length_encode_code c :
  length (encode_code c) = if (c <? 128)%N then 1 else if (c <? 2048)%N then 2 else if (c <? 65536)%N then 3 else 4.
Proof. unfold encode_code. by repeat (case_match; [done|]). Qed.

Lemma pair_code_range h l : isHigh h = true -> isLow l = true -> (65536 <= pair_code h l < 1114112)%N.
Proof. unfold isHigh, isLow, pair_code. rewrite !andb_true_iff, !N.leb_le. lia. Qed.

Lemma encode_cons c d s :
  encode (c :: d :: s)
  = if isHigh c && isLow d then encode_code (pair_code c d) ++ encode s
    else encode_code (if isHigh c || isLow c then replacement else c) ++ encode (d :: s).
Proof. done. Qed.

Lemma length_encode s : forallb (fun c => (c <? 65536)%N) s = true -> length (encode s) = byteLength s.
Proof.
  induction s as [s IH] using (induction_ltof1 _ (@length jchar)); unfold ltof in IH.
  destruct s as [|c s]; [done|]. cbn [forallb]. intros [Hc Hs]%andb_true_iff.
  assert (Hone : isHigh c = false ->
    length (encode_code (if isLow c then replacement else c))
    = if (c <? 128)%N then 1 else if (c <? 2048)%N then 2 else 3).
  { intros _. rewrite length_encode_code. destruct (isLow c) eqn:El; [|by rewrite Hc].
    unfold isLow in El. apply andb_true_iff in El as [El%N.leb_le _].
    destruct (N.ltb_spec c 128), (N.ltb_spec c 2048); done || lia. }
  destruct s as [|d s].
  - cbn [encode byteLength]. destruct (isHigh c) eqn:Eh; [done|]. cbn [orb]. rewrite Hone by done. lia.
  - rewrite encode_cons. destruct (isHigh c) eqn:Eh; cbn [andb orb].
    + rewrite byteLength_high by done. destruct (isLow d) eqn:El.
      * rewrite length_app, length_encode_code, IH; [|simpl; lia|by apply andb_true_iff in Hs as [_ ?]].
        pose proof (pair_code_range c d Eh El).
        repeat match goal with |- context [(?a <? ?b)%N] => destruct (N.ltb_spec a b); [lia|] end. done.
      * rewrite length_app, (IH (d :: s)); [done|simpl; lia|done].
    + rewrite length_app, (IH (d :: s)), Hone; [|done|simpl; lia|done].
      rewrite (byteLength_unit c (d :: s)) by done. cbn [byteLength]. rewrite Eh. lia.
Qed.

(** ** Decoding inverts encoding *)
Definition scalar (c : N) : Prop := (c < 55296 \/ 57344 <= c < 1114112)%N.

Lemma decode_cont b rest n c lo up :
  (lo <= b <= up)%N ->
  decode_go (b :: rest) {| needed := S n; code := c; lower := lo; upper := up |}
  = if (n =? 0)%nat then units (c * 64 + (b - 128))%N ++ decode_go rest idle
    else decode_go rest {| needed := n; code := (c * 64 + (b - 128))%N; lower := 128; upper := 191 |}.
Proof.
  intros [H1 H2]. cbn [decode_go needed lower upper code].
  by rewrite (proj2 (N.leb_le lo b) H1), (proj2 (N.leb_le b up) H2).
Qed.

Lemma decode_lead b rest st :
  lead b = ([], st) -> decode_go (b :: rest) idle = decode_go rest st.
Proof. intros H. cbn [decode_go needed idle]. by rewrite H. Qed.

Ltac solve_leb :=
  repeat match goal with
  | |- context [(?a <? ?b)%N] =>
    first [rewrite (proj2 (N.ltb_lt a b)) by lia | rewrite (proj2 (N.ltb_ge a b)) by lia]
  | |- context [(?a <=? ?b)%N] =>
    first [rewrite (proj2 (N.leb_le a b)) by lia | rewrite (proj2 (N.leb_gt a b)) by lia]
  end.

Lemma decode_code c rest :
  scalar c -> decode_go (encode_code c ++ rest) idle = units c ++ decode_go rest idle.
Proof.
  intros Hc. unfold encode_code.
  assert (Hq2 : (c / 4096 = c / 64 / 64)%N) by (by rewrite N.Div0.div_div).
  assert (Hq3 : (c / 262144 = c / 64 / 64 / 64)%N) by (by rewrite !N.Div0.div_div).
  rewrite Hq2, Hq3. clear Hq2 Hq3.
  pose proof (N.div_mod' c 64) as D0. pose proof (N.mod_lt c 64 ltac:(done)) as M0.
  set (a0 := (c mod 64)%N) in *. set (q1 := (c / 64)%N) in *. clearbody a0 q1.
  pose proof (N.div_mod' q1 64) as D1. pose proof (N.mod_lt q1 64 ltac:(done)) as M1.
  set (a1 := (q1 mod 64)%N) in *. set (q2 := (q1 / 64)%N) in *. clearbody a1 q2.
  pose proof (N.div_mod' q2 64) as D2. pose proof (N.mod_lt q2 64 ltac:(done)) as M2.
  set (a2 := (q2 mod 64)%N) in *. set (q3 := (q2 / 64)%N) in *. clearbody a2 q3.
  unfold scalar in Hc.
  destruct (N.ltb_spec c 128); [|destruct (N.ltb_spec c 2048); [|destruct (N.ltb_spec c 65536)]]; cbn [app].
  - cbn [decode_go needed idle]. unfold lead, units. solve_leb. done.
  - rewrite (decode_lead _ _ {| needed := 1; code := q1; lower := 128; upper := 191 |}).
    2: { unfold lead. solve_leb. cbn [andb]. repeat f_equal; lia. }
    rewrite decode_cont by lia. cbn [Nat.eqb]. do 2 f_equal. lia.
  - destruct (N.eqb_spec (224 + q2) 224), (N.eqb_spec (224 + q2) 237); try lia.
    all: rewrite (decode_lead _ _ {| needed := 2; code := q2;
      lower := if (224 + q2 =? 224)%N then 160%N else 128%N;
      upper := if (224 + q2 =? 237)%N then 159%N else 191%N |});
      [|unfold lead; solve_leb; cbn [andb]; repeat f_equal; lia].
    all: rewrite decode_cont; [|destruct (N.eqb_spec (224 + q2) 224), (N.eqb_spec (224 + q2) 237); lia].
    all: cbn [Nat.eqb]; rewrite decode_cont by lia; cbn [Nat.eqb]; do 2 f_equal; lia.
  - rewrite (decode_lead _ _ {| needed := 3; code := q3;
      lower := if (240 + q3 =? 240)%N then 144%N else 128%N;
      upper := if (240 + q3 =? 244)%N then 143%N else 191%N |}).
    2: { unfold lead. solve_leb. cbn [andb]. repeat f_equal; lia. }
    rewrite decode_cont; [|destruct (N.eqb_spec (240 + q3) 240), (N.eqb_spec (240 + q3) 244); lia].
    cbn [Nat.eqb]. rewrite decode_cont by lia. cbn [Nat.eqb]. rewrite decode_cont by lia. cbn [Nat.eqb].
    do 2 f_equal. lia.
Qed.

Lemma units_pair h l : isHigh h = true -> isLow l = true -> units (pair_code h l) = [h; l].
Proof.
  unfold isHigh, isLow, units, pair_code. rewrite !andb_true_iff, !N.leb_le. intros Hh Hl.
  rewrite (proj2 (N.ltb_ge _ _)) by lia.
  replace (65536 + (h - 55296) * 1024 + (l - 56320) - 65536)%N
    with ((l - 56320) + (h - 55296) * 1024)%N by lia.
  rewrite N.div_add, N.Div0.mod_add, N.div_small, N.mod_small by lia.
  repeat f_equal; lia.
Qed.

Lemma decode_encode s rest :
  wellFormed s = true -> decode_go (encode s ++ rest) idle = s ++ decode_go rest idle.
Proof.
  revert rest; induction s as [s IH] using (induction_ltof1 _ (@length jchar)); unfold ltof in IH; intros rest.
  assert (Hunit : forall c, isHigh c = false -> isLow c = false -> (c < 65536)%N -> scalar c /\ units c = [c]).
  { intros c Hh Hl Hc. unfold units. rewrite (proj2 (N.ltb_lt _ _)) by done. split; [|done].
    unfold isHigh, isLow, scalar in *. rewrite andb_false_iff, !N.leb_gt in *. lia. }
  destruct s as [|c [|d s]]; [done| |].
  - cbn [wellFormed encode]. rewrite !andb_true_iff, !negb_true_iff, N.ltb_lt. intros [[Hh Hl] Hc].
    rewrite Hh, Hl. cbn [orb]. destruct (Hunit c Hh Hl Hc) as [Hs Hu].
    by rewrite decode_code, Hu.
  - rewrite encode_cons. change (wellFormed (c :: d :: s)) with
      (if isHigh c then isLow d && wellFormed s
       else negb (isLow c) && (c <? 65536)%N && wellFormed (d :: s)).
    destruct (isHigh c) eqn:Eh; cbn [andb orb].
    + intros [Hl Hw]%andb_true_iff. rewrite Hl. cbn [andb]. rewrite <- app_assoc.
      pose proof (pair_code_range c d Eh Hl). rewrite decode_code by (unfold scalar; lia).
      rewrite units_pair by done. cbn [app]. by rewrite IH by (simpl; lia || done).
    + rewrite !andb_true_iff, negb_true_iff, N.ltb_lt. intros [[Hl Hc] Hw]. rewrite Hl, <- app_assoc.
      destruct (Hunit c Eh Hl Hc) as [Hs Hu]. rewrite decode_code, Hu by done. cbn [app].
      by rewrite IH by (simpl; lia || done).
Qed.
