(* ===== verification/TuiText.v ===== *)
(** * Terminal UI: text

    [packages/tui/src/tui/engine]: what the editor needs of [utils.ts] (the
    width of text in terminal columns, with its cache), [word-navigation.ts],
    [kill-ring.ts] and [undo-stack.ts].  The segmenters of [Intl], the Unicode
    property tables and the package that knows East Asian widths are
    parameters. *)
From S2P Require Import Prelude RgFingerprint Utf8.

(** ** Strings *)
(** An index of [slice]: negative ones count from the end. *)
Definition toIndex (len : nat) (i : Z) : nat :=
  if (i <? 0)%Z then Z.to_nat (Z.of_nat len + i) else Nat.min (Z.to_nat i) len.

(** [s.slice(a, b)] and [s.slice(a)]. *)
Definition slice {A} (s : list A) (a b : Z) : list A :=
  take (toIndex (length s) b - toIndex (length s) a) (drop (toIndex (length s) a) s).
Definition sliceFrom {A} (s : list A) (a : Z) : list A := drop (toIndex (length s) a) s.

Definition len {A} (s : list A) : Z := Z.of_nat (length s).

(** [s.indexOf(sub)]; [None] is [-1]. *)
Fixpoint indexOf (s sub : jstr) : option nat :=
  if startsWith s sub then Some 0
  else match s with [] => None | _ :: s' => S <$> indexOf s' sub end.

Definition isDigit (c : jchar) : bool := ((48 <=? c) && (c <=? 57))%N.
(** [/^\d+$/]. *)
Definition allDigits (s : jstr) : bool := match s with [] => false | _ => forallb isDigit s end.

Fixpoint spanDigits (s : jstr) : jstr * jstr :=
  match s with
  | c :: s' => if isDigit c then let '(d, r) := spanDigits s' in (c :: d, r) else ([], s)
  | [] => ([], [])
  end.

Definition decimal (digits : jstr) : N := fold_left (fun n c => (n * 10 + (c - 48))%N) digits 0%N.

(** [/\s/.test(s)]. *)
Definition isWhitespaceChar (char : jstr) : bool := existsb isWhite char.

(** The characters of [PUNCTUATION_REGEX]. *)
Definition isPunctuation (c : jchar) : bool :=
  bool_decide (c ∈ js "(){}[]<>.,;:'!?+-=*/\|&%^$#@~`" ++ [dquote]).

(** ** Occurrences *)
Lemma startsWith_iff s p : startsWith s p = true <-> exists r, s = p ++ r.
Proof.
  revert s. induction p as [|c p IH]; intros s.
  - split; [by exists s|by destruct s].
  - destruct s as [|d s]; cbn.
    + split; [done|by intros [r ?]].
    + rewrite andb_true_iff, N.eqb_eq, IH. naive_solver.
Qed.

Lemma indexOf_none s sub : indexOf s sub = None <-> forall x y, s <> x ++ sub ++ y.
Proof.
  induction s as [|c s IH]; cbn [indexOf].
  - destruct sub as [|d sub]; cbn [startsWith].
    + split; [done|]. intros H. by destruct (H [] []).
    + split; [|by intros]. intros _ [|? x] y; discriminate.
  - destruct (startsWith (c :: s) sub) eqn:E.
    + split; [done|]. intros H. apply startsWith_iff in E as [r E]. by destruct (H [] r).
    + rewrite fmap_None, IH. split.
      * intros H x y Hx. destruct x as [|e x].
        -- assert (startsWith (c :: s) sub = true) by (apply startsWith_iff; by exists y). congruence.
        -- injection Hx as -> Hx. by apply (H x y).
      * intros H x y ->. by apply (H (c :: x) y).
Qed.

Lemma indexOf_some s sub k :
  indexOf s sub = Some k -> exists x y, s = x ++ sub ++ y /\ length x = k.
Proof.
  revert k. induction s as [|c s IH]; intros k; cbn [indexOf].
  - destruct (startsWith [] sub) eqn:E; [|done]. intros [= <-]. apply startsWith_iff in E as [r E]. by exists [], r.
  - destruct (startsWith (c :: s) sub) eqn:E.
    + intros [= <-]. apply startsWith_iff in E as [r E]. by exists [], r.
    + intros (j & Hj & ->)%fmap_Some. destruct (IH _ Hj) as (x & y & -> & <-). by exists (c :: x), y.
Qed.

Lemma indexOf_prefix s sub : indexOf (sub ++ s) sub = Some 0.
Proof.
  assert (startsWith (sub ++ s) sub = true) as H by (apply startsWith_iff; by exists s).
  revert H. destruct (sub ++ s); cbn [indexOf]; by intros ->.
Qed.

Lemma indexOf_first x sub y : exists k, indexOf (x ++ sub ++ y) sub = Some k /\ k <= length x.
Proof.
  induction x as [|c x [k [Hk Hl]]].
  - exists 0. split; [exact (indexOf_prefix y sub)|done].
  - cbn [app indexOf length]. destruct (startsWith _ sub); [exists 0; split; [done|lia]|].
    exists (S k). rewrite Hk. split; [done|lia].
Qed.

Lemma indexOf_none_app x y z sub : indexOf (x ++ y ++ z) sub = None -> indexOf y sub = None.
Proof.
  rewrite !indexOf_none. intros H a b ->. apply (H (x ++ a) (b ++ z)). by rewrite <-!(assoc_L (++)).
Qed.

(** Before the last code unit of the first occurrence there is none. *)
Lemma indexOf_early x y sub :
  y <> [] -> indexOf (x ++ y) sub = Some (length (x ++ y) - length sub)%nat -> indexOf x sub = None.
Proof.
  intros Hy H. destruct (indexOf x sub) as [i|] eqn:E; [|done].
  apply indexOf_some in E as (a & b & -> & Ha).
  rewrite <-!(assoc_L (++)) in H. destruct (indexOf_first a sub (b ++ y)) as (k & Hk & Hl).
  rewrite H in Hk. injection Hk as Hk. rewrite !length_app in Hk.
  destruct y; [done|cbn in Hk; lia].
Qed.

Lemma indexOf_grows x y sub k : indexOf x sub = Some k -> indexOf (x ++ y) sub = Some k.
Proof.
  intros H. apply indexOf_some in H as E. destruct E as (a & b & -> & Ha).
  destruct (indexOf_first a sub (b ++ y)) as (j & Hj & Hl). rewrite <-!(assoc_L (++)), Hj. f_equal.
  apply indexOf_some in Hj as (a' & b' & Heq & Ha').
  destruct (decide (j = k)) as [|Hjk]; [done|]. exfalso.
  assert (Hp : a ++ sub ++ b = take (length (a ++ sub ++ b)) (a' ++ sub ++ b')).
  { rewrite <-Heq. by rewrite !(assoc_L (++)), take_app_length. }
  rewrite (assoc_L (++) a' sub b'), take_app_ge in Hp by (rewrite !length_app; lia).
  rewrite <-(assoc_L (++)) in Hp. rewrite Hp in H.
  destruct (indexOf_first a' sub (take (length (a ++ sub ++ b) - length (a' ++ sub)) b')) as (i & Hi & Hil).
  rewrite Hi in H. injection H as ->. lia.
Qed.

(** ** Segments *)
Record SegmentData := { segment : jstr; index : nat; isWordLike : bool }.

(** What [Intl.Segmenter] documents: the segments are the text cut into
    non-empty pieces, each with the index at which it starts. *)
Fixpoint segmentsFrom (start : nat) (s : jstr) (l : list SegmentData) : Prop :=
  match l with
  | [] => s = []
  | x :: l' => segment x <> [] /\ index x = start /\
      exists r, s = segment x ++ r /\ segmentsFrom (start + length (segment x)) r l'
  end.
Definition segments (s : jstr) (l : list SegmentData) : Prop := segmentsFrom 0 s l.

Definition segText (l : list SegmentData) : jstr := concat (map segment l).

Lemma segmentsFrom_text start s l : segmentsFrom start s l -> segText l = s.
Proof.
  revert start s. induction l as [|x l IH]; cbn; intros start s H; [done|].
  destruct H as (_ & _ & r & -> & H). unfold segText in *. cbn. by rewrite (IH _ _ H).
Qed.

(** ** Widths *)
Definition isPrintableAscii (str : jstr) : bool := forallb (fun c => (32 <=? c) && (c <=? 126))%N str.

(** The length of the escape sequence that [s] starts with. *)
Fixpoint csiLength (s : jstr) (n : nat) : option nat :=
  match s with
  | [] => None
  | c :: s' => if bool_decide (c ∈ js "mGKHJ") then Some (S n) else csiLength s' (S n)
  end.
Fixpoint stringLength (s : jstr) (n : nat) : option nat :=
  match s with
  | [] => None
  | c :: s' =>
    if (c =? 7)%N then Some (S n)
    else match s' with
         | d :: _ => if ((c =? 27) && (d =? 92))%N then Some (S (S n)) else stringLength s' (S n)
         | [] => None
         end
  end.
Definition extractAnsiCode (s : jstr) : option nat :=
  match s with
  | 27%N :: next :: s' =>
    if (next =? ch "[")%N then csiLength s' 2
    else if (next =? ch "]")%N || (next =? ch "_")%N then stringLength s' 2
    else None
  | _ => None
  end.

Fixpoint stripAnsi (fuel : nat) (s : jstr) : jstr :=
  match fuel with
  | O => []
  | S f =>
    match s with
    | [] => []
    | c :: s' => match extractAnsiCode s with Some n => stripAnsi f (drop n s) | None => c :: stripAnsi f s' end
    end
  end.

(** What the editor takes from Unicode: the segmenters of [Intl], the property
    tables behind the regular expressions, and [eastAsianWidth] of the package
    [get-east-asian-width]. *)
Class Unicode := {
  graphemeSegmenter : jstr -> list SegmentData;
  wordSegmenter : jstr -> list SegmentData;
  defaultIgnorable : N -> bool; control : N -> bool; mark : N -> bool; surrogate : N -> bool;
  format_ : N -> bool; spacingMark : N -> bool;
  rgiEmoji : jstr -> bool;
  cjkBreak : jstr -> bool;      (** [cjkBreakRegex.test] *)
  eastAsianWidth : N -> Z;
}.

(** What is documented of them: segments cut the text into pieces, and printable
    ASCII has one grapheme per character; a width is not negative. *)
Class UnicodeLaws `{Unicode} := {
  grapheme_segments : forall t, segments t (graphemeSegmenter t);
  word_segments : forall t, segments t (wordSegmenter t);
  east_asian_nonneg : forall c, (0 <= eastAsianWidth c)%Z;
  ascii_graphemes : forall t, isPrintableAscii t = true -> map segment (graphemeSegmenter t) = map (fun c => [c]) t;
}.

Section Width.
Context `{Unicode}.

Definition couldBeEmoji (segment : jstr) : bool :=
  let cp := default 0%N (head (codePoints segment)) in
  ((126976 <=? cp) && (cp <=? 130047))%N || ((8960 <=? cp) && (cp <=? 9215))%N
  || ((9728 <=? cp) && (cp <=? 10175))%N || ((11088 <=? cp) && (cp <=? 11093))%N
  || bool_decide (65039%N ∈ segment) || (2 <? length segment)%nat.

Definition zeroWidth (c : N) : bool := defaultIgnorable c || control c || mark c || surrogate c.
Definition nonPrinting (c : N) : bool := zeroWidth c || format_ c.
Definition terminalSpacingMark (c : N) : bool :=
  (spacingMark c && negb (bool_decide (c ∈ [5940; 12334; 12335]%N)))
  || bool_decide (c ∈ [1631; 3967; 4139; 4140; 4145; 4147; 4148; 4149; 4152; 4154; 4155; 4156; 4157; 4158]%N).
(** A test [/^[class]+$/]. *)
Definition allOf (p : N -> bool) (l : list N) : bool := match l with [] => false | _ => forallb p l end.

(** The code points behind the first: what terminals give a cell of its own. *)
Fixpoint trailingWidth (l : list N) (followsMark : bool) : Z :=
  match l with
  | [] => 0
  | c :: l' =>
    if terminalSpacingMark c then (1 + trailingWidth l' false)%Z
    else if mark c then trailingWidth l' true
    else if negb (nonPrinting c) then
      let w := if followsMark || ((65280 <=? c) && (c <=? 65519))%N then eastAsianWidth c
               else if (c =? 3635)%N || (c =? 3763)%N then 1%Z else 0%Z in
      (w + trailingWidth l' false)%Z
    else trailingWidth l' followsMark
  end.

Definition graphemeWidth (segment : jstr) : Z :=
  let points := codePoints segment in
  if bool_decide (segment = [9%N]) then 3
  else if allOf terminalSpacingMark points then len points
  else if allOf zeroWidth points then 0
  else if couldBeEmoji segment && rgiEmoji segment then 2
  else
    match dropWhile nonPrinting points with
    | [] => 0
    | cp :: rest =>
      if ((127462 <=? cp) && (cp <=? 127487))%N then 2
      else (eastAsianWidth cp + trailingWidth rest false)%Z
    end.

Fixpoint expandTabs (s : jstr) : jstr :=
  match s with
  | [] => []
  | c :: s' => (if (c =? 9)%N then js "   " else [c]) ++ expandTabs s'
  end.

(** [visibleWidth] without its cache. *)
Definition measure (str : jstr) : Z :=
  let clean := expandTabs str in
  let clean := if bool_decide (27%N ∈ clean) then stripAnsi (S (length clean)) clean else clean in
  foldr Z.add 0%Z (map (fun x => graphemeWidth (segment x)) (graphemeSegmenter clean)).
Definition visibleWidth (str : jstr) : Z := if isPrintableAscii str then len str else measure str.

(** With it. *)
Definition WIDTH_CACHE_SIZE : nat := 512.
Definition visibleWidthCached (str : jstr) (widthCache : jmap jstr Z) : Z * jmap jstr Z :=
  if isPrintableAscii str then (len str, widthCache)
  else
    match jget str widthCache with
    | Some cached => (cached, widthCache)
    | None =>
      let width := measure str in
      let room :=
        if (WIDTH_CACHE_SIZE <=? length widthCache)%nat then
          match jkeys widthCache with firstKey :: _ => jdel firstKey widthCache | [] => widthCache end
        else widthCache in
      (width, jset str width room)
    end.

Lemma trailingWidth_nonneg l b : (forall c, 0 <= eastAsianWidth c)%Z -> (0 <= trailingWidth l b)%Z.
Proof.
  intros He. revert b. induction l as [|c l IH]; intros b; cbn [trailingWidth]; [done|].
  pose proof (IH true). pose proof (IH false). pose proof (IH b). specialize (He c).
  repeat case_match; lia.
Qed.

Lemma visibleWidth_nonneg s : (forall c, 0 <= eastAsianWidth c)%Z -> (0 <= visibleWidth s)%Z.
Proof.
  intros He. unfold visibleWidth, measure. destruct (isPrintableAscii s); [unfold len; lia|].
  induction (graphemeSegmenter _) as [|x l IH]; cbn [map foldr]; [done|].
  enough (0 <= graphemeWidth (segment x))%Z by lia.
  unfold graphemeWidth. repeat case_match; try (unfold len; lia).
  pose proof (trailingWidth_nonneg l0 false He). specialize (He n). lia.
Qed.

Lemma visibleWidth_ascii s : isPrintableAscii s = true -> visibleWidth s = len s.
Proof. intros E. unfold visibleWidth. by rewrite E. Qed.

(** The cache never shows. *)
Definition widthsOk (c : jmap jstr Z) : Prop := forall s w, jget s c = Some w -> w = measure s.
Lemma visibleWidth_cached str c :
  widthsOk c -> fst (visibleWidthCached str c) = visibleWidth str /\ widthsOk (snd (visibleWidthCached str c)).
Proof.
  intros Hc. unfold visibleWidthCached, visibleWidth. destruct (isPrintableAscii str); [done|].
  destruct (jget str c) as [w|] eqn:E; cbn [fst snd]; [by rewrite (Hc _ _ E)|]. split; [done|].
  intros s w. rewrite jget_jset. destruct (decide (s = str)) as [->|]; [by intros [= <-]|].
  destruct (_ <=? _)%nat; [|apply Hc]. destruct (jkeys c) as [|k ks]; [apply Hc|].
  rewrite jget_jdel. destruct (decide (s = k)); [done|apply Hc].
Qed.
End Width.

(** ** Words *)
Section Words.
(** The text's word segments, and which of them are atomic. *)
Variables (segmentFn : jstr -> list SegmentData) (isAtomic : jstr -> bool).

Definition isBlank (s : SegmentData) : bool := negb (isAtomic (segment s)) && isWhitespaceChar (segment s).
Definition isOther (s : SegmentData) : bool :=
  negb (isAtomic (segment s)) && negb (isWordLike s) && negb (isWhitespaceChar (segment s)).

(** The segments behind those that [p] holds of, and their total length. *)
Fixpoint skipSegments (p : SegmentData -> bool) (l : list SegmentData) : list SegmentData * Z :=
  match l with
  | [] => ([], 0%Z)
  | s :: l' => if p s then let '(r, n) := skipSegments p l' in (r, (len (segment s) + n)%Z) else (l, 0%Z)
  end.

(** The index of the first, and behind the last, punctuation character. *)
Fixpoint firstPunctuation (s : jstr) : option nat :=
  match s with
  | [] => None
  | c :: s' => if isPunctuation c then Some 0 else S <$> firstPunctuation s'
  end.
Definition behindLastPunctuation (s : jstr) : option nat :=
  (fun n => (length s - n)%nat) <$> firstPunctuation (rev s).

Definition findWordBackward (text : jstr) (cursor : Z) : Z :=
  if (cursor <=? 0)%Z then 0%Z
  else
    let '(rest, blanks) := skipSegments isBlank (rev (segmentFn (slice text 0 cursor))) in
    let newCursor := (cursor - blanks)%Z in
    match rest with
    | [] => newCursor
    | last :: _ =>
      if isAtomic (segment last) then (newCursor - len (segment last))%Z
      else if isWordLike last then
        match behindLastPunctuation (segment last) with
        | None => (newCursor - len (segment last))%Z
        | Some i => (newCursor - (len (segment last) - Z.of_nat i))%Z
        end
      else (newCursor - snd (skipSegments isOther rest))%Z
    end.

Definition findWordForward (text : jstr) (cursor : Z) : Z :=
  if (len text <=? cursor)%Z then len text
  else
    let '(rest, blanks) := skipSegments isBlank (segmentFn (sliceFrom text cursor)) in
    let newCursor := (cursor + blanks)%Z in
    match rest with
    | [] => newCursor
    | next :: _ =>
      if isAtomic (segment next) then (newCursor + len (segment next))%Z
      else if isWordLike next then
        (newCursor + match firstPunctuation (segment next) with Some i => Z.of_nat i | None => len (segment next) end)%Z
      else (newCursor + snd (skipSegments isOther rest))%Z
    end.
End Words.

(** ** The kill ring: the most recent entry last *)
Definition KillRing : Type := list jstr.
Definition push (text : jstr) (prepend accumulate : bool) (ring : KillRing) : KillRing :=
  match text with
  | [] => ring
  | _ =>
    match last ring with
    | Some l => if accumulate then removelast ring ++ [if prepend then text ++ l else l ++ text] else ring ++ [text]
    | None => ring ++ [text]
    end
  end.
Definition peek (ring : KillRing) : option jstr := last ring.
Definition rotate (ring : KillRing) : KillRing :=
  match last ring with
  | Some l => if (1 <? length ring)%nat then l :: removelast ring else ring
  | None => ring
  end.

(** ** The undo stack: the most recent snapshot first *)
Definition UndoStack (S : Type) : Type := list S.
Definition undoPush {S} (state : S) (stack : UndoStack S) : UndoStack S := state :: stack.
Definition undoPop {S} (stack : UndoStack S) : option S * UndoStack S :=
  match stack with [] => (None, []) | s :: r => (Some s, r) end.

(** ** Lemmas *)
Lemma toIndex_nonneg n i : (0 <= i)%Z -> toIndex n i = Nat.min (Z.to_nat i) n.
Proof. intros H. unfold toIndex. destruct (Z.ltb_spec i 0); [lia|done]. Qed.

Lemma slice_prefix {A} (s : list A) i : (0 <= i)%Z -> slice s 0 i = take (Z.to_nat i) s.
Proof.
  intros H. unfold slice. rewrite !toIndex_nonneg by lia. cbn [Z.to_nat Nat.min]. rewrite drop_0, Nat.sub_0_r.
  destruct (Nat.min_spec (Z.to_nat i) (length s)) as [[? ->]|[? ->]]; [done|]. by rewrite !take_ge by lia.
Qed.

Lemma sliceFrom_drop {A} (s : list A) i : (0 <= i)%Z -> sliceFrom s i = drop (Z.to_nat i) s.
Proof.
  intros H. unfold sliceFrom. rewrite toIndex_nonneg by lia.
  destruct (Nat.min_spec (Z.to_nat i) (length s)) as [[? ->]|[? ->]]; [done|]. by rewrite !drop_ge by lia.
Qed.

Lemma segText_app l1 l2 : segText (l1 ++ l2) = segText l1 ++ segText l2.
Proof. unfold segText. by rewrite map_app, concat_app. Qed.

(** The skipped segments are at the front. *)
Lemma skipSegments_split p l :
  exists skipped, l = skipped ++ fst (skipSegments p l) /\ snd (skipSegments p l) = len (segText skipped)
    /\ Forall (fun s => p s = true) skipped.
Proof.
  induction l as [|s l (k & Hk & Hn & Hf)]; cbn [skipSegments]; [by exists []|].
  destruct (p s) eqn:E; [|by exists []]. destruct (skipSegments p l) as [r n]. cbn [fst snd] in *. subst n.
  exists (s :: k). split; [cbn; by rewrite Hk at 1|]. split; [|by constructor].
  unfold len, segText. cbn. rewrite length_app. lia.
Qed.

Lemma length_segText_rev l : length (segText (rev l)) = length (segText l).
Proof.
  induction l as [|s l IH]; [done|]. cbn [rev]. rewrite segText_app, length_app, IH. unfold segText. cbn.
  rewrite !length_app. cbn. lia.
Qed.

Lemma firstPunctuation_lt s i : firstPunctuation s = Some i -> (i < length s)%nat.
Proof.
  revert i. induction s as [|c s IH]; intros i; cbn; [done|]. destruct (isPunctuation c); [intros [= <-]; lia|].
  intros (j & Hj & ->)%fmap_Some. apply IH in Hj. lia.
Qed.

(** A word move stays within the text, on the right side of the cursor. *)
Lemma findWordBackward_bounds segmentFn isAtomic text cursor :
  (forall t, (length (segText (segmentFn t)) <= length t)%nat) -> (0 <= cursor <= len text)%Z ->
  (0 <= findWordBackward segmentFn isAtomic text cursor <= cursor)%Z.
Proof.
  intros Hseg Hc. unfold findWordBackward. destruct (Z.leb_spec cursor 0); [lia|].
  set (l := rev (segmentFn (slice text 0 cursor))).
  assert (Hl : (len (segText l) <= cursor)%Z).
  { specialize (Hseg (slice text 0 cursor)). unfold len in *. subst l. rewrite slice_prefix in Hseg |- * by lia.
    rewrite length_take in Hseg. rewrite length_segText_rev. lia. }
  destruct (skipSegments_split (isBlank isAtomic) l) as (k & Hk & Hn & _).
  destruct (skipSegments (isBlank isAtomic) l) as [rest n]. cbn [fst snd] in *. subst n.
  assert (Hsum : (len (segText k) + len (segText rest) <= cursor)%Z)
    by (rewrite Hk, segText_app in Hl; unfold len in *; rewrite length_app in Hl; lia).
  destruct rest as [|x rest]; [unfold len in *; lia|].
  assert (Hx : (len (segment x) <= len (segText (x :: rest)))%Z)
    by (unfold len, segText; cbn; rewrite length_app; lia).
  destruct (isAtomic (segment x)); [unfold len in *; lia|]. destruct (isWordLike x).
  - unfold behindLastPunctuation. destruct (firstPunctuation (rev (segment x))) as [i|] eqn:E; cbn; [|unfold len in *; lia].
    apply firstPunctuation_lt in E. rewrite length_rev in E. unfold len in *. lia.
  - destruct (skipSegments_split (isOther isAtomic) (x :: rest)) as (k' & Hk' & Hn' & _).
    rewrite Hn'. rewrite Hk' in Hsum at 1. rewrite segText_app in Hsum. unfold len in *. rewrite length_app in Hsum. lia.
Qed.

Lemma findWordForward_bounds segmentFn isAtomic text cursor :
  (forall t, (length (segText (segmentFn t)) <= length t)%nat) -> (0 <= cursor <= len text)%Z ->
  (cursor <= findWordForward segmentFn isAtomic text cursor <= len text)%Z.
Proof.
  intros Hseg Hc. unfold findWordForward. destruct (Z.leb_spec (len text) cursor); [lia|].
  set (l := segmentFn (sliceFrom text cursor)).
  assert (Hl : (cursor + len (segText l) <= len text)%Z).
  { specialize (Hseg (sliceFrom text cursor)). unfold len in *. subst l. rewrite sliceFrom_drop in Hseg |- * by lia.
    rewrite length_drop in Hseg. lia. }
  destruct (skipSegments_split (isBlank isAtomic) l) as (k & Hk & Hn & _).
  destruct (skipSegments (isBlank isAtomic) l) as [rest n]. cbn [fst snd] in *. subst n.
  assert (Hsum : (cursor + (len (segText k) + len (segText rest)) <= len text)%Z)
    by (rewrite Hk, segText_app in Hl; unfold len in *; rewrite length_app in Hl; lia).
  destruct rest as [|x rest]; [unfold len in *; lia|].
  assert (Hx : (len (segment x) <= len (segText (x :: rest)))%Z)
    by (unfold len, segText; cbn; rewrite length_app; lia).
  destruct (isAtomic (segment x)); [unfold len in *; lia|]. destruct (isWordLike x).
  - destruct (firstPunctuation (segment x)) as [i|] eqn:E; [apply firstPunctuation_lt in E|]; unfold len in *; lia.
  - destruct (skipSegments_split (isOther isAtomic) (x :: rest)) as (k' & Hk' & Hn' & _).
    rewrite Hn'. rewrite Hk' in Hsum at 1. rewrite segText_app in Hsum. unfold len in *. rewrite length_app in Hsum. lia.
Qed.

(** ** Kill ring and undo stack *)
(** A kill leaves its text on top: alone, or joined to the kill before it. *)
Lemma peek_push text prepend accumulate ring : text <> [] ->
  peek (push text prepend accumulate ring) =
  Some (match peek ring with
        | Some l => if accumulate then if prepend then text ++ l else l ++ text else text
        | None => text
        end).
Proof.
  intros H. unfold push, peek. destruct text; [done|]. destruct (last ring); [|by rewrite last_snoc].
  destruct accumulate; by rewrite last_snoc.
Qed.

(** Rotating as often as there are entries is no rotation. *)
Lemma rotate_snoc ring l : ring <> [] -> rotate (ring ++ [l]) = l :: ring.
Proof.
  intros H. unfold rotate. rewrite last_snoc, length_app. destruct ring; [done|]. cbn [length Nat.add].
  rewrite (proj2 (Nat.ltb_lt _ _)) by lia. by rewrite removelast_last.
Qed.

(** ** An instance: one code unit per grapheme, runs of letters and digits as words *)
Fixpoint charSegments (start : nat) (s : jstr) : list SegmentData :=
  match s with
  | [] => []
  | c :: s' => {| segment := [c]; index := start; isWordLike := false |} :: charSegments (S start) s'
  end.

Definition isAlnum (c : jchar) : bool :=
  isDigit c || ((65 <=? c) && (c <=? 90))%N || ((97 <=? c) && (c <=? 122))%N.

(** The word that ends where [s] begins, backwards in [cur]. *)
Fixpoint wordSegments_go (start : nat) (cur s : jstr) : list SegmentData :=
  let word := match cur with [] => [] | _ => [{| segment := rev cur; index := start; isWordLike := true |}] end in
  match s with
  | [] => word
  | c :: s' =>
    if isAlnum c then wordSegments_go start (c :: cur) s'
    else word ++ {| segment := [c]; index := start + length cur; isWordLike := false |}
           :: wordSegments_go (S (start + length cur)) [] s'
  end.

#[export] Instance plainUnicode : Unicode := {|
  graphemeSegmenter := charSegments 0; wordSegmenter := wordSegments_go 0 [];
  defaultIgnorable := fun _ => false; control := fun c => (c <? 32)%N; mark := fun _ => false;
  surrogate := fun c => isHigh c || isLow c; format_ := fun _ => false; spacingMark := fun _ => false;
  rgiEmoji := fun _ => false; cjkBreak := existsb (fun c => (19968 <=? c) && (c <=? 40959))%N;
  eastAsianWidth := fun c => if ((19968 <=? c) && (c <=? 40959))%N then 2%Z else 1%Z;
|}.

Lemma charSegments_from start s : segmentsFrom start s (charSegments start s).
Proof.
  revert start. induction s as [|c s IH]; intros start; cbn; [done|]. split; [done|]. split; [done|].
  exists s. split; [done|]. replace (start + 1)%nat with (S start) by lia. apply IH.
Qed.

Lemma wordSegments_from start cur s : segmentsFrom start (rev cur ++ s) (wordSegments_go start cur s).
Proof.
  revert start cur. induction s as [|c s IH]; intros start cur; cbn [wordSegments_go].
  - rewrite app_nil_r. destruct cur as [|d cur]; [done|]. cbn [segmentsFrom segment index]. split.
    + intros E. apply (f_equal length) in E. rewrite length_rev in E. done.
    + split; [done|]. exists []. by rewrite app_nil_r.
  - destruct (isAlnum c).
    + specialize (IH start (c :: cur)). cbn [rev] in IH. by rewrite <- (assoc_L (++)) in IH.
    + specialize (IH (S (start + length cur)) []). cbn [rev app] in IH.
      assert (Hc : segmentsFrom (start + length cur) (c :: s)
        ({| segment := [c]; index := start + length cur; isWordLike := false |}
          :: wordSegments_go (S (start + length cur)) [] s)).
      { cbn [segmentsFrom segment index length]. split; [done|]. split; [done|]. exists s. split; [done|].
        by rewrite Nat.add_1_r. }
      destruct cur as [|d cur]; [by rewrite Nat.add_0_r in Hc |- *|]. cbn [app]. split.
      * cbn [segment]. intros E. apply (f_equal length) in E. rewrite length_rev in E. done.
      * split; [done|]. exists (c :: s). split; [done|]. cbn [segment]. by rewrite length_rev.
Qed.

#[export] Instance plainUnicode_laws : @UnicodeLaws plainUnicode.
Proof.
  split.
  - intros t. apply charSegments_from.
  - intros t. apply (wordSegments_from 0 []).
  - intros c. cbn. by destruct (_ && _).
  - intros t _. cbn. generalize 0%nat. induction t as [|c t IH]; intros n; cbn; [done|]. by rewrite IH.
Qed.
