(* ===== verification/TuiStdin.v ===== *)
(** * Terminal UI: the input buffer

    [packages/tui/src/tui/engine/stdin-buffer.ts]: chunks of standard input are
    cut into complete key, mouse and terminal sequences and bracketed pastes.
    The emitter's listeners are the list of events; the timer is part of the
    state, and its expiry an operation of its own.  Fuel bounds the code units
    left: [process_enough], [extract_enough] and [seq_loop_grows] show that more
    fuel never changes a result. *)
From S2P Require Import Prelude Utf8 TuiText.

Definition ESC : jchar := 27%N.
Definition BEL : jchar := 7%N.
Definition DEFAULT_SEQUENCE_TIMEOUT_MS : Z := 50.
Definition DEFAULT_ESCAPE_TIMEOUT_MS : Z := 10.
Definition BRACKETED_PASTE_START : jstr := ESC :: js "[200~".
Definition BRACKETED_PASTE_END : jstr := ESC :: js "[201~".

(** ** Complete sequences *)
Inductive Status := complete | incomplete | not_escape.

(** [/^<\d+;\d+;\d+[Mm]$/]. *)
Definition mouseMatch (payload : jstr) : bool :=
  match payload with
  | 60%N :: s =>
    match spanDigits s with
    | (_ :: _, 59%N :: s1) =>
      match spanDigits s1 with
      | (_ :: _, 59%N :: s2) =>
        match spanDigits s2 with
        | (_ :: _, [c]) => ((c =? 77) || (c =? 109))%N
        | _ => false
        end
      | _ => false
      end
    | _ => false
    end
  | _ => false
  end.

Definition isCompleteCsiSequence (data : jstr) : Status :=
  if negb (startsWith data [ESC; ch "["]) then complete
  else if (length data <? 3)%nat then incomplete
  else
    let payload := drop 2 data in
    let lastChar := List.last payload 0%N in
    if ((64 <=? lastChar) && (lastChar <=? 126))%N then
      if startsWith payload (js "<") then
        if mouseMatch payload then complete
        else if ((lastChar =? 77) || (lastChar =? 109))%N
             && (let parts := split (removelast (drop 1 payload)) (js ";") in
                 (length parts =? 3)%nat && forallb allDigits parts)
        then complete
        else incomplete
      else complete
    else incomplete.

Definition isCompleteOscSequence (data : jstr) : Status :=
  if negb (startsWith data [ESC; ch "]"]) then complete
  else if endsWith data [ESC; 92%N] || endsWith data [BEL] then complete else incomplete.
Definition isCompleteDcsSequence (data : jstr) : Status :=
  if negb (startsWith data [ESC; ch "P"]) then complete
  else if endsWith data [ESC; 92%N] then complete else incomplete.
Definition isCompleteApcSequence (data : jstr) : Status :=
  if negb (startsWith data [ESC; ch "_"]) then complete
  else if endsWith data [ESC; 92%N] then complete else incomplete.

Definition isCompleteSequence (data : jstr) : Status :=
  if negb (startsWith data [ESC]) then not_escape
  else if (length data =? 1)%nat then incomplete
  else
    let afterEsc := drop 1 data in
    if startsWith afterEsc (js "[") then
      if startsWith afterEsc (js "[M")
      then if (6 <=? length data)%nat then complete else incomplete
      else isCompleteCsiSequence data
    else if startsWith afterEsc (js "]") then isCompleteOscSequence data
    else if startsWith afterEsc (js "P") then isCompleteDcsSequence data
    else if startsWith afterEsc (js "_") then isCompleteApcSequence data
    else if startsWith afterEsc (js "O") then if (2 <=? length afterEsc)%nat then complete else incomplete
    else complete.

(** The introducers after which two escapes are an Escape key and a sequence. *)
Definition introducer (c : option jchar) : bool :=
  match c with
  | Some c => bool_decide (c ∈ [ch "["; ch "]"; ch "O"; ch "P"; ch "_"])
  | None => false
  end.

(** The inner loop: the sequence at the start of [remaining] and how far to
    move, when one is complete. *)
Fixpoint seq_loop (fuel : nat) (remaining : jstr) (seqEnd : nat) : option (jstr * nat) :=
  match fuel with
  | O => None
  | S f =>
    if (length remaining <? seqEnd)%nat then None
    else
      let candidate := take seqEnd remaining in
      match isCompleteSequence candidate with
      | complete =>
        if bool_decide (candidate = [ESC; ESC]) && introducer (remaining !! seqEnd) then Some ([ESC], 1%nat)
        else Some (candidate, seqEnd)
      | incomplete => seq_loop f remaining (S seqEnd)
      | not_escape => Some (candidate, seqEnd)
      end
  end.

(** The sequences and the remainder. *)
Fixpoint extract_loop (fuel : nat) (remaining : jstr) : list jstr * jstr :=
  match fuel with
  | O => ([], remaining)
  | S f =>
    match remaining with
    | [] => ([], [])
    | c :: rest =>
      if (c =? ESC)%N then
        match seq_loop (S (length remaining)) remaining 1 with
        | None => ([], remaining)
        | Some (sequence, n) =>
          let '(sequences, remainder) := extract_loop f (drop n remaining) in (sequence :: sequences, remainder)
        end
      else let '(sequences, remainder) := extract_loop f rest in ([c] :: sequences, remainder)
    end
  end.
Definition extractCompleteSequences (buffer : jstr) : list jstr * jstr := extract_loop (length buffer) buffer.

(** ** Kitty key reports that repeat as plain text *)
(** The kitty report's regular expression: [ESC \[], digits, then optionally a
    colon and any digits, then optionally a colon and digits, then [u]. *)
Definition kittyTail (s : jstr) : bool :=
  match s with
  | 117%N :: [] => true
  | 58%N :: s1 =>
    match spanDigits s1 with
    | (_, 117%N :: []) => true
    | (_, 58%N :: s2) => match spanDigits s2 with (_ :: _, 117%N :: []) => true | _ => false end
    | _ => false
    end
  | _ => false
  end.
Definition parseUnmodifiedKittyPrintableCodepoint (sequence : jstr) : option N :=
  match sequence with
  | 27%N :: 91%N :: s =>
    match spanDigits s with
    | (d :: ds, rest) =>
      if kittyTail rest then
        let codepoint := decimal (d :: ds) in if (32 <=? codepoint)%N then Some codepoint else None
      else None
    | _ => None
    end
  | _ => None
  end.

(** ** The buffer *)
Inductive Event := ev_data (sequence : jstr) | ev_paste (content : jstr).

Record StdinBuffer := {
  buffer : jstr;
  timeout : option Z;      (** the timer, with its delay *)
  pasteMode : bool;
  pasteBuffer : jstr;
  pendingKittyPrintableCodepoint : option N;
}.

Definition cleared : StdinBuffer := {|
  buffer := []; timeout := None; pasteMode := false; pasteBuffer := []; pendingKittyPrintableCodepoint := None |}.

(** [emitDataSequence]: the pending code point after it, and what is emitted. *)
Definition emitDataSequence (sequence : jstr) (pending : option N) : option N * list Event :=
  if match sequence with [c] => bool_decide (Some c = pending) | _ => false end then (None, [])
  else (parseUnmodifiedKittyPrintableCodepoint sequence, [ev_data sequence]).

Fixpoint emitAll (sequences : list jstr) (pending : option N) : option N * list Event :=
  match sequences with
  | [] => (pending, [])
  | s :: rest =>
    let '(p1, e1) := emitDataSequence s pending in
    let '(p2, e2) := emitAll rest p1 in (p2, e1 ++ e2)
  end.

Section Buffer.
Variables timeoutMs escapeTimeoutMs : Z.

(** Waiting for more with [b] in the buffer. *)
Definition waitingWith (b : jstr) (pending : option N) : StdinBuffer := {|
  buffer := b;
  timeout := if truthy b then Some (if bool_decide (b = [ESC]) then escapeTimeoutMs else timeoutMs) else None;
  pasteMode := false; pasteBuffer := []; pendingKittyPrintableCodepoint := pending |}.

(** Inside a paste with [content] read so far: emit it when its end is there,
    and go on with the rest. *)
Definition pasteStep (process : jstr -> StdinBuffer -> StdinBuffer * list Event) (content : jstr)
    (pending : option N) : StdinBuffer * list Event :=
  match indexOf content BRACKETED_PASTE_END with
  | None =>
    ({| buffer := []; timeout := None; pasteMode := true; pasteBuffer := content;
        pendingKittyPrintableCodepoint := pending |}, [])
  | Some endIndex =>
    let remaining := drop (endIndex + length BRACKETED_PASTE_END) content in
    let paste := ev_paste (take endIndex content) in
    match remaining with
    | [] => (cleared, [paste])
    | _ :: _ => let '(b, es) := process remaining cleared in (b, paste :: es)
    end
  end.

Fixpoint process_go (fuel : nat) (str : jstr) (b : StdinBuffer) : StdinBuffer * list Event :=
  match fuel with
  | O => (b, [])
  | S f =>
    match str, buffer b with
    | [], [] =>
      let '(p, es) := emitDataSequence [] (pendingKittyPrintableCodepoint b) in
      ({| buffer := buffer b; timeout := None; pasteMode := pasteMode b; pasteBuffer := pasteBuffer b;
          pendingKittyPrintableCodepoint := p |}, es)
    | _, _ =>
      let all := buffer b ++ str in
      if pasteMode b then pasteStep (process_go f) (pasteBuffer b ++ all) (pendingKittyPrintableCodepoint b)
      else
        match indexOf all BRACKETED_PASTE_START with
        | Some startIndex =>
          let sequences := fst (extractCompleteSequences (take startIndex all)) in
          let '(_, es) := emitAll sequences (pendingKittyPrintableCodepoint b) in
          let '(b', es') := pasteStep (process_go f) (drop (startIndex + length BRACKETED_PASTE_START) all) None in
          (b', es ++ es')
        | None =>
          let '(sequences, remainder) := extractCompleteSequences all in
          let '(p, es) := emitAll sequences (pendingKittyPrintableCodepoint b) in
          (waitingWith remainder p, es)
        end
    end
  end.

Definition process_string (str : jstr) (b : StdinBuffer) : StdinBuffer * list Event :=
  process_go (S (length (pasteBuffer b ++ buffer b ++ str))) str b.

(** The argument of [process]: text, or bytes. *)
Inductive Data := data_string (s : jstr) | data_buffer (bytes : list N).
Definition toText (d : Data) : jstr :=
  match d with
  | data_string s => s
  | data_buffer [byte] => if (127 <? byte)%N then [ESC; (byte - 128)%N] else decode [byte]
  | data_buffer bytes => decode bytes
  end.
Definition process (d : Data) (b : StdinBuffer) : StdinBuffer * list Event := process_string (toText d) b.

Definition flush (b : StdinBuffer) : StdinBuffer * list jstr :=
  match buffer b with
  | [] => ({| buffer := []; timeout := None; pasteMode := pasteMode b; pasteBuffer := pasteBuffer b;
              pendingKittyPrintableCodepoint := pendingKittyPrintableCodepoint b |}, [])
  | _ => ({| buffer := []; timeout := None; pasteMode := pasteMode b; pasteBuffer := pasteBuffer b;
             pendingKittyPrintableCodepoint := None |}, [buffer b])
  end.

(** The timer expires. *)
Definition expire (b : StdinBuffer) : StdinBuffer * list Event :=
  match timeout b with
  | None => (b, [])
  | Some _ =>
    let '(b', flushed) := flush b in
    let '(p, es) := emitAll flushed (pendingKittyPrintableCodepoint b') in
    ({| buffer := buffer b'; timeout := timeout b'; pasteMode := pasteMode b'; pasteBuffer := pasteBuffer b';
        pendingKittyPrintableCodepoint := p |}, es)
  end.

(** Chunks in order, with no expiry between them. *)
Fixpoint feed (chunks : list jstr) (b : StdinBuffer) : StdinBuffer * list Event :=
  match chunks with
  | [] => (b, [])
  | c :: rest =>
    let '(b1, e1) := process_string c b in
    let '(b2, e2) := feed rest b1 in (b2, e1 ++ e2)
  end.
End Buffer.

(** ** Extraction *)
(** A cut right after two escapes, with an introducer to follow, is the one
    place where the text decides what it was: an Escape key and a sequence. *)
Definition cutOk (a b : jstr) : Prop := [ESC; ESC] `suffix_of` a -> introducer (head b) = false.

Lemma seq_loop_bounds fuel s n q k : 1 <= n -> seq_loop fuel s n = Some (q, k) -> 1 <= k /\ k <= length s.
Proof.
  revert n. induction fuel as [|f IH]; intros n Hn; cbn [seq_loop]; [discriminate|].
  destruct (Nat.ltb_spec (length s) n); [discriminate|].
  destruct (isCompleteSequence (take n s)); [|apply IH; lia|intros [= <- <-]; lia].
  destruct (_ && _); intros [= <- <-]; lia.
Qed.

Lemma seq_loop_take fuel s n q k : 1 <= n -> head s = Some ESC -> seq_loop fuel s n = Some (q, k) -> q = take k s.
Proof.
  revert n. induction fuel as [|f IH]; intros n Hn Hs; cbn [seq_loop]; [discriminate|].
  destruct (Nat.ltb_spec (length s) n); [discriminate|].
  destruct (isCompleteSequence (take n s)); [|apply IH; [lia|done]|by intros [= <- <-]].
  destruct (_ && _); intros [= <- <-]; [|done].
  destruct s as [|c s]; [done|]. injection Hs as ->. done.
Qed.

Lemma seq_loop_grows fuel fuel' a b n q k :
  1 <= n -> fuel <= fuel' -> cutOk a b -> seq_loop fuel a n = Some (q, k) -> seq_loop fuel' (a ++ b) n = Some (q, k).
Proof.
  revert fuel' n. induction fuel as [|f IH]; intros fuel' n Hn Hf Hcut; [discriminate|].
  destruct fuel' as [|f']; [lia|]. cbn [seq_loop].
  destruct (Nat.ltb_spec (length a) n) as [|Hl]; [discriminate|].
  destruct (Nat.ltb_spec (length (a ++ b)) n) as [Hl'|_]; [rewrite length_app in Hl'; lia|].
  rewrite take_app_le; [|done].
  destruct (isCompleteSequence (take n a)); [|apply IH; [lia..|done]|done].
  case_bool_decide as Htake; [cbn|done].
  destruct (decide (n < length a)) as [Hlt|Hge].
  - by rewrite lookup_app_l.
  - rewrite take_ge in Htake; [|lia]. subst a. assert (n = 2) as -> by (cbn in *; lia).
    rewrite lookup_app_r; [|done]. cbn. assert (introducer (b !! 0) = false) as ->; [|done].
    rewrite <-head_lookup. by apply Hcut.
Qed.

Lemma extract_enough fuel fuel' s : length s <= fuel -> length s <= fuel' -> extract_loop fuel s = extract_loop fuel' s.
Proof.
  revert fuel' s. induction fuel as [|f IH]; intros fuel' s Hf Hf'.
  - destruct s; [|cbn in *; lia]. by destruct fuel'.
  - destruct fuel' as [|f']; [destruct s; [done|cbn in *; lia]|]. cbn [extract_loop].
    destruct s as [|c s]; [done|]. cbn [length] in *.
    destruct (c =? ESC)%N; [|rewrite (IH f'); [done|lia..]].
    destruct (seq_loop _ _ 1) as [[q k]|] eqn:E; [|done].
    apply seq_loop_bounds in E as [Hk Hk']; [|lia]. rewrite (IH f'); [done|..]; rewrite length_drop; cbn [length] in *; lia.
Qed.

Lemma extract_nil : extractCompleteSequences [] = ([], []).
Proof. done. Qed.

Lemma extract_cons c s :
  extractCompleteSequences (c :: s) =
  if (c =? ESC)%N then
    match seq_loop (S (S (length s))) (c :: s) 1 with
    | None => ([], c :: s)
    | Some (q, n) => let '(qs, r) := extractCompleteSequences (drop n (c :: s)) in (q :: qs, r)
    end
  else let '(qs, r) := extractCompleteSequences s in ([c] :: qs, r).
Proof.
  unfold extractCompleteSequences. cbn [length extract_loop].
  destruct (c =? ESC)%N; [|done]. destruct (seq_loop _ _ 1) as [[q k]|] eqn:E; [|done].
  apply seq_loop_bounds in E as [Hk Hk']; [|lia].
  rewrite (extract_enough (length s) (length (drop k (c :: s)))); [done|..]; rewrite ?length_drop; cbn [length] in *; lia.
Qed.

(** What has been cut off is the input, in order, and what remains an
    unfinished escape sequence. *)
Lemma extract_partition s qs r :
  extractCompleteSequences s = (qs, r) -> concat qs ++ r = s /\ r `suffix_of` s.
Proof.
  revert qs r. induction s as [s IH] using (induction_ltof1 _ length). intros qs r.
  destruct s as [|c s]; [rewrite extract_nil; by intros [= <- <-]|]. rewrite extract_cons.
  destruct (N.eqb_spec c ESC) as [->|].
  - destruct (seq_loop _ _ 1) as [[q k]|] eqn:E; [|by intros [= <- <-]].
    pose proof E as Eb. apply seq_loop_bounds in Eb as [Hk Hk']; [|lia]. apply seq_loop_take in E as ->; [|lia|done].
    destruct (extractCompleteSequences (drop k (ESC :: s))) as [qs' r'] eqn:E'. intros [= <- <-].
    apply IH in E' as [E1 E2]; [|unfold ltof; rewrite length_drop; cbn [length] in *; lia].
    cbn [concat]. rewrite <-(assoc_L (++)), E1, take_drop. split; [done|].
    etrans; [exact E2|]. apply suffix_drop.
  - destruct (extractCompleteSequences s) as [qs' r'] eqn:E'. intros [= <- <-].
    apply IH in E' as [E1 E2]; [|unfold ltof; cbn; lia]. cbn. rewrite E1. split; [done|]. by apply suffix_cons_r.
Qed.

Lemma extract_app a b qs r :
  cutOk a b -> extractCompleteSequences a = (qs, r) ->
  extractCompleteSequences (a ++ b) = let '(qs', r') := extractCompleteSequences (r ++ b) in (qs ++ qs', r').
Proof.
  revert qs r. induction a as [a IH] using (induction_ltof1 _ length). intros qs r Hcut.
  destruct a as [|c a].
  { rewrite extract_nil. intros [= <- <-]. cbn [app]. by destruct (extractCompleteSequences b). }
  rewrite extract_cons. cbn [app]. destruct (N.eqb_spec c ESC) as [->|Hc].
  - destruct (seq_loop _ _ 1) as [[q k]|] eqn:E.
    2:{ intros [= <- <-]. cbn [app]. by destruct (extractCompleteSequences _). }
    pose proof E as Eb. apply seq_loop_bounds in Eb as [Hk Hk']; [|lia].
    destruct (extractCompleteSequences (drop k (ESC :: a))) as [qs' r'] eqn:E'. intros [= <- <-].
    rewrite extract_cons, N.eqb_refl.
    change (ESC :: a ++ b) with ((ESC :: a) ++ b).
    rewrite (seq_loop_grows (S (S (length a))) (S (S (length (a ++ b)))) (ESC :: a) b 1 q k); [|lia|rewrite length_app; lia|done|done].
    rewrite (drop_app_le (ESC :: a) b k); [|done].
    rewrite (IH (drop k (ESC :: a)) ltac:(unfold ltof; rewrite length_drop; cbn [length] in *; lia) qs' r'); [..|done].
    + by destruct (extractCompleteSequences (r' ++ b)).
    + intros Hs. apply Hcut. etrans; [exact Hs|]. apply suffix_drop.
  - destruct (extractCompleteSequences a) as [qs' r'] eqn:E'. intros [= <- <-].
    rewrite extract_cons, (proj2 (N.eqb_neq _ _) Hc), (IH a ltac:(unfold ltof; cbn; lia) qs' r'); [..|done].
    + by destruct (extractCompleteSequences (r' ++ b)).
    + intros Hs. apply Hcut. by apply suffix_cons_r.
Qed.

(** ** The buffer, chunk by chunk *)
Lemma emitAll_app q1 q2 p :
  emitAll (q1 ++ q2) p =
  let '(p1, e1) := emitAll q1 p in let '(p2, e2) := emitAll q2 p1 in (p2, e1 ++ e2).
Proof.
  revert p. induction q1 as [|q q1 IH]; intros p; cbn [app emitAll].
  - by destruct (emitAll q2 p).
  - destruct (emitDataSequence q p) as [p1 e1]. rewrite IH.
    destruct (emitAll q1 p1) as [p2 e2], (emitAll q2 p2) as [p3 e3]. by rewrite (assoc_L (++)).
Qed.

(** No cut of the input into [chunks] falls right after two escapes that an
    introducer follows. *)
Definition cleanCuts (before : jstr) (chunks : list jstr) : Prop :=
  forall pre post, chunks = pre ++ post -> cutOk (before ++ concat pre) (concat post).

Definition cutOkb (a b : jstr) : bool := negb (endsWith a [ESC; ESC] && introducer (head b)).

Lemma endsWith_suffix s sub : sub `suffix_of` s -> endsWith s sub = true.
Proof. intros [k ->]. apply startsWith_iff. exists (rev k). apply rev_app_distr. Qed.

Lemma cleanCuts_check before chunks :
  forallb (fun i => cutOkb (before ++ concat (take i chunks)) (concat (drop i chunks))) (seq 0 (S (length chunks))) = true ->
  cleanCuts before chunks.
Proof.
  rewrite forallb_forall. intros H pre post -> Hs. specialize (H (length pre)).
  rewrite take_app_length, drop_app_length in H. apply endsWith_suffix in Hs.
  unfold cutOkb in H. rewrite Hs in H. cbn [andb] in H.
  apply negb_true_iff, H, in_seq. rewrite length_app. lia.
Qed.

Section Chunks.
Variables timeoutMs escapeTimeoutMs : Z.
Notation process_string := (process_string timeoutMs escapeTimeoutMs).
Notation process_go := (process_go timeoutMs escapeTimeoutMs).
Notation feed := (feed timeoutMs escapeTimeoutMs).
Notation waitingWith := (waitingWith timeoutMs escapeTimeoutMs).

(** What [process] looks at: everything not yet consumed. *)
Definition unread (str : jstr) (b : StdinBuffer) : jstr := pasteBuffer b ++ buffer b ++ str.

Lemma pasteStep_ext f g content pending :
  (forall s, length s < length content -> f s cleared = g s cleared) ->
  pasteStep f content pending = pasteStep g content pending.
Proof.
  intros H. unfold pasteStep. destruct (indexOf content BRACKETED_PASTE_END) as [k|] eqn:E; [|done].
  destruct (drop _ content) as [|c s] eqn:Ed; [done|]. rewrite H; [done|].
  rewrite <-Ed, length_drop. apply indexOf_some in E as (x & y & -> & _).
  rewrite !length_app. cbn. lia.
Qed.

(** More fuel than [process_string] passes changes nothing. *)
Lemma process_enough fuel fuel' str b :
  length (unread str b) < fuel -> length (unread str b) < fuel' -> process_go fuel str b = process_go fuel' str b.
Proof.
  revert fuel' str b. induction fuel as [|f IH]; intros fuel' str b Hf Hf'; [lia|].
  destruct fuel' as [|f']; [lia|].
  assert (Hstep : forall content pending, length content <= length (unread str b) ->
    pasteStep (process_go f) content pending = pasteStep (process_go f') content pending).
  { intros content pending Hl. apply pasteStep_ext. intros s Hs. apply IH; unfold unread; cbn; lia. }
  assert (Hd : forall n, length (drop n (buffer b ++ str)) <= length (unread str b)).
  { intros n. unfold unread. rewrite length_drop, (length_app (pasteBuffer b)). lia. }
  cbn [TuiStdin.process_go].
  destruct (pasteMode b).
  - rewrite Hstep; [|done]. done.
  - destruct (indexOf (buffer b ++ str) BRACKETED_PASTE_START); [|done].
    destruct (emitAll _ _). by rewrite Hstep.
Qed.

(** Outside a paste, input without a paste marker is cut as it comes. *)
Lemma process_plain r p str :
  str <> [] -> indexOf (r ++ str) BRACKETED_PASTE_START = None ->
  process_string str (waitingWith r p) =
  let '(qs, r') := extractCompleteSequences (r ++ str) in
  let '(p', es) := emitAll qs p in (waitingWith r' p', es).
Proof.
  intros Hs Hi. unfold TuiStdin.process_string. cbn [TuiStdin.process_go buffer pasteMode TuiStdin.waitingWith].
  destruct str as [|c str]; [done|]. rewrite Hi. done.
Qed.

Lemma waiting_chunks chunks r p :
  chunks <> [] -> Forall (fun c => c <> []) chunks -> cleanCuts r chunks ->
  indexOf (r ++ concat chunks) BRACKETED_PASTE_START = None ->
  feed chunks (waitingWith r p) = process_string (concat chunks) (waitingWith r p).
Proof.
  revert r p. induction chunks as [|c chunks IH]; intros r p Hne Hall Hcut Hi; [done|].
  apply Forall_cons in Hall as [Hc Hall]. cbn [TuiStdin.feed].
  destruct (decide (chunks = [])) as [->|Hmore].
  { cbn [TuiStdin.feed concat]. rewrite app_nil_r. destruct (process_string c _). by rewrite app_nil_r. }
  rewrite process_plain; [|done|].
  2:{ apply (indexOf_none_app [] (r ++ c) (concat chunks)). cbn [app concat] in *. by rewrite <-(assoc_L (++)). }
  destruct (extractCompleteSequences (r ++ c)) as [qs r'] eqn:E.
  destruct (emitAll qs p) as [p' es] eqn:Ee.
  pose proof (extract_partition _ _ _ E) as [_ Hr'].
  rewrite IH; [|done|done|..].
  - cbn [concat] in Hi. rewrite (process_plain r); [|by destruct c|done].
    rewrite process_plain; [|destruct chunks as [|c2 chunks]; [done|by inversion Hall; destruct c2]|].
    + cbn [concat]. rewrite (assoc_L (++)), (extract_app (r ++ c) (concat chunks) qs r'); [|..|done].
      2:{ specialize (Hcut [c] chunks eq_refl). cbn [concat] in Hcut. by rewrite app_nil_r in Hcut. }
      destruct (extractCompleteSequences (r' ++ concat chunks)) as [qs2 r2].
      rewrite emitAll_app, Ee. by destruct (emitAll qs2 p').
    + destruct Hr' as [k Hk]. apply (indexOf_none_app k _ []). by rewrite app_nil_r, (assoc_L (++)), <-Hk, <-(assoc_L (++)).
  - intros pre post ->. intros Hs. apply (Hcut (c :: pre) post eq_refl). cbn [concat].
    destruct Hr' as [k Hk]. rewrite (assoc_L (++)), Hk, <-(assoc_L (++)). by apply suffix_app_r.
  - destruct Hr' as [k Hk]. apply (indexOf_none_app k _ []).
    cbn [concat] in Hi. by rewrite app_nil_r, (assoc_L (++)), <-Hk, <-(assoc_L (++)).
Qed.

(** Inside a paste with [content] read. *)
Definition pasting (content : jstr) (pending : option N) : StdinBuffer := {|
  buffer := []; timeout := None; pasteMode := true; pasteBuffer := content;
  pendingKittyPrintableCodepoint := pending |}.

Lemma process_pasting content pending str :
  str <> [] ->
  process_string str (pasting content pending) =
  pasteStep (process_go (length (content ++ str))) (content ++ str) pending.
Proof. by destruct str. Qed.

(** The end marker has arrived. *)
Lemma pasteStep_done body rest chunks pending f :
  indexOf (body ++ BRACKETED_PASTE_END) BRACKETED_PASTE_END = Some (length body) ->
  Forall (fun c => c <> []) chunks -> length rest < f ->
  exists rs, concat rs = rest ++ concat chunks /\ Forall (fun c => c <> []) rs /\
    (let '(b1, e1) := pasteStep (process_go f) (body ++ BRACKETED_PASTE_END ++ rest) pending in
     let '(b2, e2) := feed chunks b1 in (b2, e1 ++ e2))
    = let '(b, es) := feed rs cleared in (b, ev_paste body :: es).
Proof.
  intros Hbody Hall Hf. exists (if truthy rest then rest :: chunks else chunks).
  split; [by destruct rest|]. split; [by destruct rest; [|constructor]|].
  unfold pasteStep. rewrite (assoc_L (++)), (indexOf_grows _ rest _ _ Hbody).
  rewrite <-length_app, drop_app_length, <-(assoc_L (++)), take_app_length.
  destruct rest as [|c rest]; cbn [truthy negb TuiStdin.feed]; [by destruct (feed chunks cleared)|].
  assert (process_go f (c :: rest) cleared = process_string (c :: rest) cleared) as -> by (apply process_enough; cbn in *; lia).
  destruct (process_string (c :: rest) cleared) as [b1 e1], (feed chunks b1) as [b2 e2]. done.
Qed.

Lemma app_arrived {A} (x y m rest : list A) :
  ~ length x < length m -> x ++ y = m ++ rest -> exists r, x = m ++ r /\ r ++ y = rest.
Proof.
  intros Hl Heq. exists (drop (length m) x).
  assert (Hx : x = m ++ drop (length m) x).
  { rewrite <-(take_drop (length m) x) at 1. f_equal.
    apply (f_equal (take (length m))) in Heq. by rewrite take_app_length, take_app_le in Heq by lia. }
  split; [done|]. rewrite Hx, <-(assoc_L (++)) in Heq. by apply app_inv_head in Heq.
Qed.

Lemma pasteStep_early body more rest content pending f :
  indexOf (body ++ BRACKETED_PASTE_END) BRACKETED_PASTE_END = Some (length body) ->
  length content < length (body ++ BRACKETED_PASTE_END) ->
  content ++ more = (body ++ BRACKETED_PASTE_END) ++ rest ->
  pasteStep (process_go f) content pending = (pasting content pending, []).
Proof.
  intros Hbody Hlt Heq. unfold pasteStep. rewrite (indexOf_early content (take (length (body ++ BRACKETED_PASTE_END) - length content) more)); [done|..].
  all: apply (f_equal (take (length (body ++ BRACKETED_PASTE_END)))) in Heq.
  all: rewrite take_app_length, take_app_ge in Heq by lia.
  - intros H0. rewrite H0, app_nil_r in Heq. subst content. lia.
  - rewrite Heq, length_app, Nat.add_sub. done.
Qed.

Lemma content_chunks body rest chunks content pending f :
  indexOf (body ++ BRACKETED_PASTE_END) BRACKETED_PASTE_END = Some (length body) ->
  Forall (fun c => c <> []) chunks -> length content <= f ->
  content ++ concat chunks = (body ++ BRACKETED_PASTE_END) ++ rest ->
  exists rs, concat rs = rest /\ Forall (fun c => c <> []) rs /\
    (let '(b1, e1) := pasteStep (process_go f) content pending in
     let '(b2, e2) := feed chunks b1 in (b2, e1 ++ e2))
    = let '(b, es) := feed rs cleared in (b, ev_paste body :: es).
Proof.
  intros Hbody. revert content pending f. induction chunks as [|c chunks IH]; intros content pending f Hall Hf Heq.
  all: destruct (decide (length content < length (body ++ BRACKETED_PASTE_END))) as [Hlt|Hge].
  1: { apply (f_equal length) in Heq. cbn [concat] in Heq. rewrite !length_app in *. cbn in *. lia. }
  2: {
    apply Forall_cons in Hall as [Hc Hall]. cbn [concat] in Heq.
    rewrite (pasteStep_early body (c ++ concat chunks) rest); [|done..].
    cbn [TuiStdin.feed app]. rewrite process_pasting; [|done].
    destruct (IH (content ++ c) pending (length (content ++ c)) Hall) as (rs & H1 & H2 & H3); [done|by rewrite <-(assoc_L (++))|].
    exists rs. split; [done|]. split; [done|]. rewrite <-H3.
    destruct (pasteStep _ _ _) as [b1 e1], (feed chunks b1) as [b2 e2]. done. }
  all: destruct (app_arrived _ _ _ _ Hge Heq) as (rest0 & -> & <-); rewrite !length_app in Hf; cbn in Hf.
  all: rewrite <-(assoc_L (++)); apply pasteStep_done; [done|done|lia].
Qed.

(** Part of the start marker, cut anywhere. *)
Lemma marker_prefix t y :
  length t < length BRACKETED_PASTE_START -> t `prefix_of` BRACKETED_PASTE_START ++ y ->
  indexOf t BRACKETED_PASTE_START = None /\ extractCompleteSequences t = ([], t).
Proof.
  intros Hl [k Hk]. assert (Ht : t = take (length t) BRACKETED_PASTE_START).
  { apply (f_equal (take (length t))) in Hk. rewrite take_app_length, take_app_le in Hk by lia. done. }
  cbn in Hl. rewrite Ht. destruct (length t) as [|[|[|[|[|[|n]]]]]]; [by vm_compute..|lia].
Qed.

Lemma marker_chunks body rest chunks t p :
  indexOf (body ++ BRACKETED_PASTE_END) BRACKETED_PASTE_END = Some (length body) ->
  Forall (fun c => c <> []) chunks -> length t < length BRACKETED_PASTE_START ->
  t ++ concat chunks = BRACKETED_PASTE_START ++ (body ++ BRACKETED_PASTE_END) ++ rest ->
  exists rs, concat rs = rest /\ Forall (fun c => c <> []) rs /\
    feed chunks (waitingWith t p) = let '(b, es) := feed rs cleared in (b, ev_paste body :: es).
Proof.
  intros Hbody. revert t p. induction chunks as [|c chunks IH]; intros t p Hall Ht Heq.
  { apply (f_equal length) in Heq. cbn [concat] in Heq. rewrite app_nil_r, !length_app in Heq. lia. }
  apply Forall_cons in Hall as [Hc Hall]. cbn [concat] in Heq. rewrite (assoc_L (++)) in Heq.
  cbn [TuiStdin.feed].
  destruct (decide (length (t ++ c) < length BRACKETED_PASTE_START)) as [Hlt|Hge].
  - destruct (marker_prefix (t ++ c) ((body ++ BRACKETED_PASTE_END) ++ rest)) as [Hi He]; [done|by exists (concat chunks)|].
    rewrite process_plain, He by done. cbn [emitAll].
    destruct (IH (t ++ c) p Hall Hlt Heq) as (rs & H1 & H2 & H3). exists rs. split; [done|]. split; [done|].
    rewrite H3. by destruct (feed rs cleared).
  - destruct (app_arrived _ _ _ _ Hge Heq) as (content & Hcontent & Hrest).
    destruct (content_chunks body rest chunks content None (length (t ++ c)) Hbody Hall) as (rs & H1 & H2 & H3).
    { rewrite Hcontent, length_app. lia. }
    { done. }
    exists rs. split; [done|]. split; [done|]. rewrite <-H3.
    unfold TuiStdin.process_string.
    cbn [TuiStdin.process_go buffer pasteMode pasteBuffer TuiStdin.waitingWith pendingKittyPrintableCodepoint app].
    destruct c as [|u c]; [done|].
    rewrite Hcontent, indexOf_prefix, Nat.add_0_l, drop_app_length. cbn [take extractCompleteSequences].
    rewrite firstn_O, extract_nil. cbn [fst emitAll app].
    clear H3. destruct (pasteStep _ content None) as [b1 e1], (feed chunks b1) as [b2 e2]. done.
Qed.
End Chunks.

(** * Properties *)

(** however a text without a paste marker is cut into chunks, the same
    sequences are emitted and the same unfinished one waits with the same
    timer, as long as no cut falls right after two escapes before an
    introducer. *)
Theorem chunks_do_not_matter timeoutMs escapeTimeoutMs p chunks1 chunks2 :
  concat chunks1 = concat chunks2 ->
  indexOf (concat chunks1) BRACKETED_PASTE_START = None ->
  Forall (fun c => c <> []) chunks1 -> Forall (fun c => c <> []) chunks2 ->
  cleanCuts [] chunks1 -> cleanCuts [] chunks2 ->
  let start := waitingWith timeoutMs escapeTimeoutMs [] p in
  feed timeoutMs escapeTimeoutMs chunks1 start = feed timeoutMs escapeTimeoutMs chunks2 start.
Proof.
  intros Heq Hi H1 H2 Hc1 Hc2 start.
  destruct chunks1 as [|c1 chunks1], chunks2 as [|c2 chunks2]; [done|..].
  - apply Forall_cons in H2 as [H2 _]. by destruct c2.
  - apply Forall_cons in H1 as [H1 _]. by destruct c1.
  - unfold start. rewrite !waiting_chunks by (done || by rewrite <-Heq). by rewrite Heq.
Qed.

(** a bracketed paste arrives as one paste event with exactly the text
    between the markers, wherever the input is cut, also inside the markers;
    what follows it is read as if it had come after, in chunks of its own. *)
Theorem paste_arrives_whole timeoutMs escapeTimeoutMs p body rest chunks :
  indexOf (body ++ BRACKETED_PASTE_END) BRACKETED_PASTE_END = Some (length body) ->
  Forall (fun c => c <> []) chunks ->
  concat chunks = BRACKETED_PASTE_START ++ body ++ BRACKETED_PASTE_END ++ rest ->
  exists rs, concat rs = rest /\ Forall (fun c => c <> []) rs /\
    feed timeoutMs escapeTimeoutMs chunks (waitingWith timeoutMs escapeTimeoutMs [] p) =
    let '(b, es) := feed timeoutMs escapeTimeoutMs rs cleared in (b, ev_paste body :: es).
Proof.
  intros Hbody Hall Heq. apply marker_chunks; [done|done|cbn; lia|].
  cbn [app]. by rewrite Heq, <-!(assoc_L (++)).
Qed.

(** A mouse report and an arrow key, whole and in pieces. *)
Lemma chunks_do_not_matter_witness :
  let chunks1 := [ESC :: js "[<35;20;5m" ++ ESC :: js "[Aab"] in
  let chunks2 := [[ESC]; js "[<35"; js ";20;5m"; [ESC]; js "[Aa"; js "b"] in
  let start := waitingWith 50 10 [] None in
  feed 50 10 chunks1 start = feed 50 10 chunks2 start /\
  snd (feed 50 10 chunks2 start)
  = [ev_data (ESC :: js "[<35;20;5m"); ev_data (ESC :: js "[A"); ev_data (js "a"); ev_data (js "b")].
Proof.
  intros chunks1 chunks2 start. split; [|by vm_compute].
  apply (chunks_do_not_matter 50 10 None chunks1 chunks2).
  - by vm_compute.
  - by vm_compute.
  - by repeat constructor.
  - by repeat constructor.
  - by apply cleanCuts_check; vm_compute.
  - by apply cleanCuts_check; vm_compute.
Defined.

(** A paste whose markers are cut, with a key behind it. *)
Lemma paste_arrives_whole_witness :
  let chunks := [ESC :: js "[2"; js "00~he"; js "llo" ++ [ESC]; js "[201~x"] in
  exists rs, concat rs = js "x" /\ Forall (fun c => c <> []) rs /\
    feed 50 10 chunks (waitingWith 50 10 [] None) =
    let '(b, es) := feed 50 10 rs cleared in (b, ev_paste (js "hello") :: es).
Proof.
  intros chunks. apply (paste_arrives_whole 50 10 None (js "hello") (js "x") chunks).
  - by vm_compute.
  - by repeat constructor.
  - by vm_compute.
Defined.

(** An Escape key that is still waiting when a paste begins is dropped: of the
    text before the start marker only the complete sequences are emitted. *)
Example escape_before_paste_is_lost :
  feed 50 10 [[ESC]; BRACKETED_PASTE_START ++ js "x" ++ BRACKETED_PASTE_END] cleared = (cleared, [ev_paste (js "x")]).
Proof. by vm_compute. Qed.

(** When the timer had expired first, the key would have been emitted. *)
Example escape_alone_is_emitted :
  expire (fst (process_string 50 10 [ESC] cleared)) = (cleared, [ev_data [ESC]]).
Proof. by vm_compute. Qed.
