(* ===== verification/TuiWrap.v ===== *)
(** * Terminal UI: paste markers and word wrap

    [packages/tui/src/tui/engine/components/editor.ts]: the markers that stand
    for large pastes, the segmentation that keeps them whole, and
    [wordWrapLine].  A line that cannot be wrapped because one character is
    wider than the terminal makes [wordWrapLine] call itself without end;
    running out of [fuel] stands for the stack overflow. *)
From S2P Require Import Prelude Utf8 TuiText.

(** ** Markers *)
(** A match of [PASTE_MARKER_REGEX]: the digits of the id, the text of the
    optional group, and the length of the match. *)
Record Marker := { idGroup : jstr; suffixGroup : option jstr; markerLength : nat }.

Definition markerOpen : jstr := js "[paste #".

(** [\d+] and then the word [w]. *)
Definition digitsThen (w t : jstr) : option (jstr * jstr) :=
  match spanDigits t with
  | (d :: ds, r) => if startsWith r w then Some ((d :: ds) ++ w, drop (length w) r) else None
  | _ => None
  end.

(** [( (\+\d+ lines|\d+ chars))]. *)
Definition matchSuffix (s : jstr) : option (jstr * jstr) :=
  if startsWith s (js " +") then '(x, r) ← digitsThen (js " lines") (drop 2 s); Some (js " +" ++ x, r)
  else if startsWith s (js " ") then '(x, r) ← digitsThen (js " chars") (drop 1 s); Some (js " " ++ x, r)
  else None.

Definition matchMarker (s : jstr) : option Marker :=
  if startsWith s markerOpen then
    match spanDigits (drop (length markerOpen) s) with
    | (d :: ds, r) =>
      if startsWith r (js "]") then
        Some {| idGroup := d :: ds; suffixGroup := None; markerLength := 9 + length (d :: ds) |}
      else
        '(suffix, r') ← matchSuffix r;
        if startsWith r' (js "]") then
          Some {| idGroup := d :: ds; suffixGroup := Some suffix;
                  markerLength := 9 + length (d :: ds) + length suffix |}
        else None
    | _ => None
    end
  else None.

Definition isPasteMarker (segment : jstr) : bool :=
  (10 <=? length segment)%nat
  && match matchMarker segment with Some m => (markerLength m =? length segment)%nat | None => false end.

(** [text.matchAll(PASTE_MARKER_REGEX)]: each match with its index.  [skip]
    counts the code units of the last match still to pass. *)
Fixpoint matchAll_go (s : jstr) (i skip : nat) : list (nat * Marker) :=
  match s with
  | [] => []
  | _ :: s' =>
    match skip with
    | S k => matchAll_go s' (S i) k
    | O =>
      match matchMarker s with
      | Some m => (i, m) :: matchAll_go s' (S i) (markerLength m - 1)
      | None => matchAll_go s' (S i) 0
      end
    end
  end.
Definition matchAll (s : jstr) : list (nat * Marker) := matchAll_go s 0 0.

(** [text.replace(PASTE_MARKER_REGEX, f)]; [None] leaves the match as it is. *)
Fixpoint replace_go (f : Marker -> option jstr) (s : jstr) (skip : nat) : jstr :=
  match s with
  | [] => []
  | c :: s' =>
    match skip with
    | S k => replace_go f s' k
    | O =>
      match matchMarker s with
      | Some m =>
        match f m with
        | Some r => r ++ replace_go f s' (markerLength m - 1)
        | None => take (markerLength m) s ++ replace_go f s' (markerLength m - 1)
        end
      | None => c :: replace_go f s' 0
      end
    end
  end.
Definition replaceMarkers (f : Marker -> option jstr) (s : jstr) : jstr := replace_go f s 0.

(** ** Segments that keep markers whole *)
(** Spans of the valid markers. *)
Definition validMarkers (validIds : list N) (text : jstr) : list (nat * nat) :=
  map (fun '(i, m) => (i, (i + markerLength m)%nat))
    (List.filter (fun '(_, m) => bool_decide (decimal (idGroup m) ∈ validIds)) (matchAll text)).

Fixpoint dropBefore (index : nat) (markers : list (nat * nat)) : list (nat * nat) :=
  match markers with
  | (s, e) :: rest => if (e <=? index)%nat then dropBefore index rest else markers
  | [] => []
  end.

Fixpoint mergeSegments (text : jstr) (markers : list (nat * nat)) (baseSegments : list SegmentData) : list SegmentData :=
  match baseSegments with
  | [] => []
  | seg :: rest =>
    let markers := dropBefore (index seg) markers in
    match markers with
    | (start, end_) :: _ =>
      if (start <=? index seg)%nat && (index seg <? end_)%nat then
        if (index seg =? start)%nat
        then {| segment := take (end_ - start) (drop start text); index := start; isWordLike := false |}
             :: mergeSegments text markers rest
        else mergeSegments text markers rest
      else seg :: mergeSegments text markers rest
    | [] => seg :: mergeSegments text markers rest
    end
  end.

Definition segmentWithMarkers (text : jstr) (baseSegmenter : jstr -> list SegmentData) (validIds : list N) :
    list SegmentData :=
  match validIds with
  | [] => baseSegmenter text
  | _ =>
    if negb (includes text markerOpen) then baseSegmenter text
    else
      match validMarkers validIds text with
      | [] => baseSegmenter text
      | markers => mergeSegments text markers (baseSegmenter text)
      end
  end.

(** ** Word wrap *)
Record TextChunk := { text : jstr; startIndex : nat; endIndex : nat }.

Section Wrap.
Context `{Unicode}.

Record WrapState := {
  chunks : list TextChunk; currentWidth : Z; chunkStart : nat; wrapOppIndex : option nat; wrapOppWidth : Z }.

Definition cutAt (line : jstr) (start stop : nat) : TextChunk :=
  {| text := take (stop - start) (drop start line); startIndex := start; endIndex := stop |}.

(** The overflow check before a segment. *)
Definition overflow (line : jstr) (maxWidth gWidth : Z) (charIndex : nat) (st : WrapState) : WrapState :=
  if (maxWidth <? currentWidth st + gWidth)%Z then
    match wrapOppIndex st with
    | Some w =>
      if (currentWidth st - wrapOppWidth st + gWidth <=? maxWidth)%Z then
        {| chunks := chunks st ++ [cutAt line (chunkStart st) w]; currentWidth := currentWidth st - wrapOppWidth st;
           chunkStart := w; wrapOppIndex := None; wrapOppWidth := wrapOppWidth st |}
      else if (chunkStart st <? charIndex)%nat then
        {| chunks := chunks st ++ [cutAt line (chunkStart st) charIndex]; currentWidth := 0;
           chunkStart := charIndex; wrapOppIndex := None; wrapOppWidth := wrapOppWidth st |}
      else
        {| chunks := chunks st; currentWidth := currentWidth st; chunkStart := chunkStart st;
           wrapOppIndex := None; wrapOppWidth := wrapOppWidth st |}
    | None =>
      if (chunkStart st <? charIndex)%nat then
        {| chunks := chunks st ++ [cutAt line (chunkStart st) charIndex]; currentWidth := 0;
           chunkStart := charIndex; wrapOppIndex := None; wrapOppWidth := wrapOppWidth st |}
      else st
    end
  else st.

(** Whether the line may break between a segment and the next. *)
Definition breaksAfter (grapheme next : jstr) : bool :=
  let isWs := negb (isPasteMarker grapheme) && isWhitespaceChar grapheme in
  let nextWs := isWhitespaceChar next in
  if isWs && (isPasteMarker next || negb nextWs) then true
  else if negb isWs && negb nextWs then
    (negb (isPasteMarker grapheme) && cjkBreak grapheme) || (negb (isPasteMarker next) && cjkBreak next)
  else false.

Definition advance (gWidth : Z) (grapheme : jstr) (next : option SegmentData) (st : WrapState) : WrapState :=
  let width := (currentWidth st + gWidth)%Z in
  match next with
  | Some n =>
    if breaksAfter grapheme (segment n) then
      {| chunks := chunks st; currentWidth := width; chunkStart := chunkStart st;
         wrapOppIndex := Some (index n); wrapOppWidth := width |}
    else
      {| chunks := chunks st; currentWidth := width; chunkStart := chunkStart st;
         wrapOppIndex := wrapOppIndex st; wrapOppWidth := wrapOppWidth st |}
  | None =>
    {| chunks := chunks st; currentWidth := width; chunkStart := chunkStart st;
       wrapOppIndex := wrapOppIndex st; wrapOppWidth := wrapOppWidth st |}
  end.

(** The chunks of a segment that is too wide, moved to its place; the last one
    stays open. *)
Definition spread (charIndex : nat) (sub : list TextChunk) (st : WrapState) : WrapState :=
  match last sub with
  | None => st
  | Some l =>
    {| chunks := chunks st ++ map (fun sc => {| text := text sc; startIndex := charIndex + startIndex sc;
                                                 endIndex := charIndex + endIndex sc |}) (removelast sub);
       currentWidth := visibleWidth (text l); chunkStart := charIndex + startIndex l;
       wrapOppIndex := None; wrapOppWidth := wrapOppWidth st |}
  end.

Fixpoint wrap_loop (wrap : jstr -> option (list TextChunk)) (line : jstr) (maxWidth : Z) (segs : list SegmentData)
    (st : WrapState) : option WrapState :=
  match segs with
  | [] => Some st
  | seg :: rest =>
    let gWidth := visibleWidth (segment seg) in
    let st := overflow line maxWidth gWidth (index seg) st in
    if (maxWidth <? gWidth)%Z then
      sub ← wrap (segment seg);
      wrap_loop wrap line maxWidth rest (spread (index seg) sub st)
    else wrap_loop wrap line maxWidth rest (advance gWidth (segment seg) (head rest) st)
  end.

Definition wrapStart : WrapState := {|
  chunks := []; currentWidth := 0; chunkStart := 0; wrapOppIndex := None; wrapOppWidth := 0 |}.

Fixpoint wordWrapLine (fuel : nat) (line : jstr) (maxWidth : Z) (preSegmented : option (list SegmentData)) :
    option (list TextChunk) :=
  match fuel with
  | O => None
  | S f =>
    if negb (truthy line) || (maxWidth <=? 0)%Z then Some [{| text := []; startIndex := 0; endIndex := 0 |}]
    else if (visibleWidth line <=? maxWidth)%Z then Some [{| text := line; startIndex := 0; endIndex := length line |}]
    else
      let segs := default (graphemeSegmenter line) preSegmented in
      st ← wrap_loop (fun g => wordWrapLine f g maxWidth None) line maxWidth segs wrapStart;
      Some (chunks st ++ [{| text := drop (chunkStart st) line; startIndex := chunkStart st; endIndex := length line |}])
  end.
End Wrap.

(** * Lemmas *)
Section WrapLaws.
Context `{UnicodeLaws}.

(** Lines of pieces, one after the other. *)
Fixpoint layout (start : nat) (groups : list (list jstr)) : list TextChunk :=
  match groups with
  | [] => []
  | g :: rest =>
    {| text := concat g; startIndex := start; endIndex := start + length (concat g) |}
      :: layout (start + length (concat g)) rest
  end.

Definition groupWidth (g : list jstr) : Z := foldr Z.add 0%Z (map visibleWidth g).

(** What a segment is cut into: itself, or its characters when it is too wide. *)
Definition pieces (maxWidth : Z) (seg : SegmentData) : list jstr :=
  if (maxWidth <? visibleWidth (segment seg))%Z then map segment (graphemeSegmenter (segment seg)) else [segment seg].

Lemma groupWidth_app g1 g2 : groupWidth (g1 ++ g2) = (groupWidth g1 + groupWidth g2)%Z.
Proof. unfold groupWidth. induction g1 as [|p g1 IH]; cbn; [done|]. lia. Qed.

Lemma layout_app start gs1 gs2 :
  layout start (gs1 ++ gs2) = layout start gs1 ++ layout (start + length (concat (concat gs1))) gs2.
Proof.
  revert start. induction gs1 as [|g gs1 IH]; intros start; cbn [layout app concat length]; [by rewrite Nat.add_0_r|].
  rewrite IH, concat_app, length_app. cbn [app]. by rewrite Nat.add_assoc.
Qed.

Lemma layout_shift n start gs :
  layout (n + start) gs =
  map (fun sc => {| text := text sc; startIndex := n + startIndex sc; endIndex := n + endIndex sc |}) (layout start gs).
Proof.
  revert start. induction gs as [|g gs IH]; intros start; cbn [layout map text startIndex endIndex]; [done|].
  by rewrite <- IH, !Nat.add_assoc.
Qed.

(** The state of the loop before the segment at [pos]: the finished lines
    [groups], and the pieces [cur] of the open one, which the wrap opportunity
    parts. *)
Record wrapInv (line : jstr) (maxWidth : Z) (pos : nat) (done_ : list jstr) (st : WrapState)
    (groups : list (list jstr)) (cur : list jstr) : Prop := {
  wi_pieces : done_ = concat groups ++ cur;
  wi_nonempty : Forall (fun p => p <> []) done_;
  wi_line : exists rest, line = concat done_ ++ rest;
  wi_pos : pos = length (concat done_);
  wi_chunks : chunks st = layout 0 groups;
  wi_start : chunkStart st = length (concat (concat groups));
  wi_fits : Forall (fun g => (groupWidth g <= maxWidth)%Z) groups;
  wi_width : currentWidth st = groupWidth cur;
  wi_cur : (groupWidth cur <= maxWidth)%Z;
  wi_opp : forall w, wrapOppIndex st = Some w -> exists a b, cur = a ++ b
    /\ w = (chunkStart st + length (concat a))%nat /\ wrapOppWidth st = groupWidth a /\ (groupWidth a <= maxWidth)%Z;
}.

(** A cut of the line where a group ends. *)
Lemma cutAt_group line groups g rest start stop :
  line = concat (concat groups ++ g) ++ rest -> start = length (concat (concat groups)) ->
  stop = (start + length (concat g))%nat ->
  cutAt line start stop = {| text := concat g; startIndex := start; endIndex := stop |}.
Proof.
  intros -> -> ->. unfold cutAt. f_equal. rewrite concat_app, <- (assoc_L (++)), drop_app_length.
  rewrite Nat.add_comm, Nat.add_sub. apply take_app_length.
Qed.

Lemma layout_snoc groups g start : start = length (concat (concat groups)) ->
  layout 0 (groups ++ [g]) = layout 0 groups ++ [{| text := concat g; startIndex := start; endIndex := start + length (concat g) |}].
Proof. intros ->. by rewrite layout_app. Qed.

Lemma groupWidth_nonneg g : (0 <= groupWidth g)%Z.
Proof.
  unfold groupWidth. induction g as [|p g IH]; cbn; [done|].
  pose proof (visibleWidth_nonneg p east_asian_nonneg). lia.
Qed.

Lemma concat_nil_inv (l : list jstr) : Forall (fun p => p <> []) l -> concat l = [] -> l = [].
Proof. intros Hf E. destruct l as [|p l]; [done|]. apply Forall_cons in Hf as [Hp _]. by destruct p. Qed.

Section Loop.
Variables (line : jstr) (maxWidth : Z).
Notation inv := (wrapInv line maxWidth).

(** Closing a line at a group's end. *)
Lemma close_inv pos done_ st groups a b start w opp :
  inv pos done_ st groups (a ++ b) -> (groupWidth a <= maxWidth)%Z -> (groupWidth b <= maxWidth)%Z ->
  start = chunkStart st -> w = (start + length (concat a))%nat ->
  inv pos done_ {| chunks := chunks st ++ [cutAt line start w]; currentWidth := groupWidth b;
                   chunkStart := w; wrapOppIndex := None; wrapOppWidth := opp |} (groups ++ [a]) b.
Proof.
  intros [Hp Hne [rest Hline] Hpos Hc Hs Hf _ _ _] Ha Hb -> ->. split; cbn [chunks currentWidth chunkStart wrapOppIndex]; try done.
  - by rewrite Hp, concat_app, <- (assoc_L (++)); cbn [concat]; rewrite app_nil_r.
  - by exists rest.
  - rewrite (layout_snoc _ _ _ Hs), <- Hc. f_equal. rewrite (cutAt_group line groups a (concat b ++ rest)); [done| |done|done].
    by rewrite Hline, Hp, !concat_app, <- !(assoc_L (++)).
  - rewrite concat_app, concat_app, length_app, Hs. cbn [concat]. by rewrite app_nil_r.
  - apply Forall_app. split; [done|by constructor].
Qed.

Lemma overflow_inv pos done_ st groups cur gWidth :
  inv pos done_ st groups cur -> (0 < maxWidth)%Z -> (0 <= gWidth)%Z ->
  exists groups' cur', inv pos done_ (overflow line maxWidth gWidth pos st) groups' cur'
    /\ ((gWidth <= maxWidth)%Z -> (groupWidth cur' + gWidth <= maxWidth)%Z)
    /\ ((maxWidth < gWidth)%Z -> cur' = [] /\ chunkStart (overflow line maxWidth gWidth pos st) = pos).
Proof.
  intros Hinv Hm Hg. pose proof Hinv as [Hp Hne Hline Hpos Hc Hs Hf Hw Hcur Hopp].
  assert (Hsplit : pos = (chunkStart st + length (concat cur))%nat)
    by (rewrite Hpos, Hp, Hs, concat_app, length_app; done).
  assert (Hempty : (chunkStart st <? pos)%nat = false -> cur = []).
  { intros E. apply Nat.ltb_ge in E. apply concat_nil_inv; [|apply length_zero_iff_nil; lia].
    rewrite Hp in Hne. by apply Forall_app in Hne as [_ ?]. }
  pose proof (groupWidth_nonneg cur) as Hcn. unfold overflow. destruct (Z.ltb_spec maxWidth (currentWidth st + gWidth)) as [Ho|Ho].
  2:{ exists groups, cur. split; [done|]. rewrite Hw in Ho. split; [done|]. intros; lia. }
  assert (Hforce : forall opp, (chunkStart st <? pos)%nat = true ->
    inv pos done_ {| chunks := chunks st ++ [cutAt line (chunkStart st) pos]; currentWidth := 0; chunkStart := pos;
                     wrapOppIndex := None; wrapOppWidth := opp |} (groups ++ [cur]) []).
  { intros opp _. apply (close_inv pos done_ st groups cur []); [by rewrite app_nil_r|done|cbn; lia|done|done]. }
  assert (Hstay : (chunkStart st <? pos)%nat = false ->
    inv pos done_ {| chunks := chunks st; currentWidth := currentWidth st; chunkStart := chunkStart st;
                     wrapOppIndex := None; wrapOppWidth := wrapOppWidth st |} groups cur) by (intros _; by split).
  destruct (wrapOppIndex st) as [w|] eqn:Eo.
  - destruct (Hopp w eq_refl) as (a & b & -> & Ew & Ea & Hafit). pose proof (groupWidth_nonneg b) as Hbn.
    rewrite groupWidth_app in Hw. destruct (Z.leb_spec (currentWidth st - wrapOppWidth st + gWidth) maxWidth) as [Hb|Hb].
    + exists (groups ++ [a]), b. replace (currentWidth st - wrapOppWidth st)%Z with (groupWidth b) in * by lia.
      split; [by apply close_inv; try lia|]. split; [lia|]. intros; lia.
    + destruct (chunkStart st <? pos)%nat eqn:El.
      * exists (groups ++ [a ++ b]), []. split; [by apply Hforce|]. split; [cbn; lia|done].
      * exists groups, (a ++ b). split; [by apply Hstay|]. rewrite (Hempty eq_refl). apply Nat.ltb_ge in El.
        split; [cbn; lia|]. split; [done|]. cbn. lia.
  - destruct (chunkStart st <? pos)%nat eqn:El.
    + exists (groups ++ [cur]), []. split; [by apply Hforce|]. split; [cbn; lia|done].
    + exists groups, cur. split; [done|]. rewrite (Hempty eq_refl). apply Nat.ltb_ge in El. split; [cbn; lia|]. split; [done|lia].
Qed.

Lemma advance_inv pos done_ st groups cur seg next rest :
  inv pos done_ st groups cur -> segment seg <> [] -> line = concat done_ ++ segment seg ++ rest ->
  (groupWidth cur + visibleWidth (segment seg) <= maxWidth)%Z ->
  (forall n, next = Some n -> index n = (pos + length (segment seg))%nat) ->
  inv (pos + length (segment seg)) (done_ ++ [segment seg])
    (advance (visibleWidth (segment seg)) (segment seg) next st) groups (cur ++ [segment seg]).
Proof.
  intros [Hp Hne _ Hpos Hc Hs Hf Hw Hcur Hopp] Hseg Hline Hfit Hnext.
  assert (Hone : groupWidth [segment seg] = visibleWidth (segment seg)) by (cbn; lia).
  assert (Hold : forall w, wrapOppIndex st = Some w -> exists a b, cur ++ [segment seg] = a ++ b
    /\ w = (chunkStart st + length (concat a))%nat /\ wrapOppWidth st = groupWidth a /\ (groupWidth a <= maxWidth)%Z).
  { intros w E. destruct (Hopp w E) as (a & b & -> & H1 & H2). exists a, (b ++ [segment seg]). by rewrite (assoc_L (++)). }
  split.
  - by rewrite Hp, (assoc_L (++)).
  - apply Forall_app. split; [done|by constructor].
  - exists rest. rewrite concat_app. cbn [concat]. by rewrite app_nil_r, <- (assoc_L (++)).
  - rewrite concat_app, length_app, Hpos. cbn [concat]. by rewrite app_nil_r.
  - unfold advance. by repeat case_match.
  - unfold advance. by repeat case_match.
  - done.
  - rewrite groupWidth_app, Hone, <- Hw. unfold advance. by repeat case_match.
  - rewrite groupWidth_app, Hone. lia.
  - intros w. unfold advance. destruct next as [n|]; [|exact (Hold w)].
    destruct (breaksAfter _ _); [|exact (Hold w)]. cbn [wrapOppIndex wrapOppWidth chunkStart]. intros [= <-].
    exists (cur ++ [segment seg]), []. rewrite app_nil_r, groupWidth_app, Hone, Hw. split; [done|].
    split; [|split; [done|lia]]. rewrite (Hnext n eq_refl), Hpos, Hp, Hs, !concat_app, !length_app. cbn [concat].
    rewrite app_nil_r. lia.
Qed.

Lemma spread_inv pos done_ st groups seg sgs g rest :
  inv pos done_ st groups [] -> chunkStart st = pos -> Forall (fun p => p <> []) (concat (sgs ++ [g])) ->
  concat (concat (sgs ++ [g])) = segment seg -> line = concat done_ ++ segment seg ++ rest ->
  Forall (fun g => (groupWidth g <= maxWidth)%Z) (sgs ++ [g]) -> visibleWidth (concat g) = groupWidth g ->
  inv (pos + length (segment seg)) (done_ ++ concat (sgs ++ [g])) (spread pos (layout 0 (sgs ++ [g])) st) (groups ++ sgs) g.
Proof.
  intros [Hp Hne _ Hpos Hc Hs Hf Hw Hcur Hopp] Hst Hpne Hseg Hline Hfit Hwidth. rewrite app_nil_r in Hp.
  apply Forall_app in Hfit as [Hfs Hfg]. apply Forall_inv in Hfg.
  assert (Hlast : layout 0 (sgs ++ [g]) = layout 0 sgs ++ [{| text := concat g; startIndex := length (concat (concat sgs));
      endIndex := length (concat (concat sgs)) + length (concat g) |}]) by (rewrite layout_app; done).
  unfold spread. rewrite Hlast, last_snoc, removelast_last. split; cbn [chunks currentWidth chunkStart wrapOppIndex text startIndex].
  - rewrite Hp, !concat_app. cbn [concat]. by rewrite app_nil_r, <- (assoc_L (++)).
  - by apply Forall_app.
  - exists rest. by rewrite concat_app, Hseg, <- (assoc_L (++)).
  - by rewrite concat_app, length_app, Hseg, Hpos.
  - rewrite layout_app, <- Hs, Hst, Hc. f_equal. replace (0 + pos)%nat with (pos + 0)%nat by lia. by rewrite layout_shift.
  - rewrite !concat_app, length_app, <- Hs, Hst. done.
  - by apply Forall_app.
  - done.
  - done.
  - done.
Qed.

(** What the nested call must give for a segment that is too wide. *)
Definition wrapsWide (wrap : jstr -> option (list TextChunk)) (seg : SegmentData) : Prop :=
  (maxWidth < visibleWidth (segment seg))%Z ->
  exists sgs g, wrap (segment seg) = Some (layout 0 (sgs ++ [g])) /\ concat (sgs ++ [g]) = pieces maxWidth seg
    /\ Forall (fun p => p <> []) (pieces maxWidth seg) /\ concat (pieces maxWidth seg) = segment seg
    /\ Forall (fun g => (groupWidth g <= maxWidth)%Z) (sgs ++ [g]) /\ visibleWidth (concat g) = groupWidth g.

Lemma loop_inv wrap segs : forall pos done_ st groups cur s,
  (0 < maxWidth)%Z -> Forall (wrapsWide wrap) segs -> segmentsFrom pos s segs -> line = concat done_ ++ s ->
  inv pos done_ st groups cur ->
  exists st' groups' cur', wrap_loop wrap line maxWidth segs st = Some st'
    /\ inv (length line) (done_ ++ concat (map (pieces maxWidth) segs)) st' groups' cur'.
Proof.
  induction segs as [|seg segs IH]; intros pos done_ st groups cur s Hm Hwide Hsegs Hline Hinv.
  { cbn in Hsegs. subst s. exists st, groups, cur. split; [done|]. cbn. rewrite app_nil_r in *.
    assert (pos = length line) as <- by (rewrite (wi_pos _ _ _ _ _ _ _ Hinv); by f_equal). done. }
  apply Forall_cons in Hwide as [Hw Hwide]. destruct Hsegs as (Hne & Hi & r & -> & Hr).
  cbn [wrap_loop map concat]. rewrite Hi, (assoc_L (++)).
  pose proof (visibleWidth_nonneg (segment seg) east_asian_nonneg) as Hnn.
  destruct (overflow_inv pos done_ st groups cur _ Hinv Hm Hnn) as (gs & cs & Hinv' & Hfit & Hover).
  unfold wrapsWide, pieces in *. destruct (Z.ltb_spec maxWidth (visibleWidth (segment seg))) as [Hb|Hb].
  - destruct (Hover Hb) as [-> Hst]. destruct (Hw Hb) as (sgs & g & -> & Ep & Hpne & Hcat & Hfits & Hlast).
    cbn [mbind option_bind]. eapply IH; [done|done|exact Hr| |].
    2:{ rewrite <- Ep. apply (spread_inv _ _ _ gs seg sgs g r); [done|done|by rewrite Ep|by rewrite Ep|done|done|done]. }
    by rewrite concat_app, Hcat, <- (assoc_L (++)).
  - eapply IH; [done|done|exact Hr| |].
    2:{ apply (advance_inv _ _ _ gs cs seg (head segs) r); [done|done|done|lia|].
        intros n E. destruct segs as [|n' segs']; [done|]. injection E as ->. apply Hr. }
    by rewrite concat_app; cbn [concat]; rewrite app_nil_r, <- (assoc_L (++)).
Qed.

Lemma start_inv : (0 < maxWidth)%Z -> inv 0 [] wrapStart [] [].
Proof. intros Hm. split; cbn; try done; [by exists line|lia]. Qed.

(** The loop and the last line. *)
Lemma wrapLine_loop wrap segs :
  (0 < maxWidth)%Z -> Forall (wrapsWide wrap) segs -> segments line segs ->
  exists groups g, (st ← wrap_loop wrap line maxWidth segs wrapStart;
      Some (chunks st ++ [{| text := drop (chunkStart st) line; startIndex := chunkStart st; endIndex := length line |}]))
    = Some (layout 0 (groups ++ [g]))
    /\ concat (groups ++ [g]) = concat (map (pieces maxWidth) segs) /\ concat (concat (groups ++ [g])) = line
    /\ Forall (fun g => (groupWidth g <= maxWidth)%Z) (groups ++ [g]).
Proof.
  intros Hm Hwide Hsegs.
  destruct (loop_inv wrap segs 0 [] wrapStart [] [] line Hm Hwide Hsegs eq_refl (start_inv Hm)) as (st & gs & cur & -> & Hinv).
  destruct Hinv as [Hp _ [rest Hline] Hpos Hc Hs Hf _ Hcur _]. cbn [app mbind option_bind] in *.
  assert (rest = []) as ->.
  { apply (f_equal length) in Hline. rewrite length_app in Hline. apply length_zero_iff_nil. lia. }
  rewrite app_nil_r in Hline. exists gs, cur.
  assert (Hcat : concat (gs ++ [cur]) = concat (map (pieces maxWidth) segs)) by (rewrite Hp, concat_app; cbn; by rewrite app_nil_r).
  assert (Htext : line = concat (concat gs) ++ concat cur) by (by rewrite Hline, Hp, concat_app).
  split; [|split; [done|split; [by rewrite Hcat|apply Forall_app; split; [done|by constructor]]]].
  rewrite layout_app, Hc, Hs, Htext, drop_app_length, length_app. done.
Qed.
End Loop.

Lemma wordWrapLine_wide f line maxWidth pre :
  (0 < maxWidth < visibleWidth line)%Z ->
  wordWrapLine (S f) line maxWidth pre =
  (st ← wrap_loop (fun g => wordWrapLine f g maxWidth None) line maxWidth (default (graphemeSegmenter line) pre) wrapStart;
   Some (chunks st ++ [{| text := drop (chunkStart st) line; startIndex := chunkStart st; endIndex := length line |}])).
Proof.
  intros [Hm Hw]. cbn [wordWrapLine]. rewrite (proj2 (Z.leb_gt maxWidth 0)), (proj2 (Z.leb_gt (visibleWidth line) maxWidth)) by lia.
  destruct line; [|done]. rewrite visibleWidth_ascii in Hw by done. unfold len in Hw. cbn in Hw. lia.
Qed.

(** A line of printable ASCII, however narrow the terminal. *)
Lemma groupWidth_chars l : isPrintableAscii l = true -> groupWidth (map (fun c => [c]) l) = len l.
Proof.
  unfold groupWidth, len. induction l as [|c l IH]; cbn [map foldr length]; [done|].
  intros [Hc Hl]%andb_true_iff. fold isPrintableAscii in Hl. rewrite IH by done.
  rewrite (visibleWidth_ascii [c]) by (cbn; by rewrite Hc). unfold len. cbn. lia.
Qed.

Lemma isPrintable_app a b : isPrintableAscii (a ++ b) = isPrintableAscii a && isPrintableAscii b.
Proof. apply forallb_app. Qed.

Lemma concat_chars (l : jstr) : concat (map (fun c => [c]) l) = l.
Proof. induction l as [|c l IH]; cbn; [done|]. by rewrite IH. Qed.

(** A group of single characters. *)
Lemma chars_group (g : list jstr) (l : jstr) :
  g = map (fun c => [c]) l -> isPrintableAscii l = true -> visibleWidth (concat g) = groupWidth g.
Proof. intros -> Hl. rewrite concat_chars, groupWidth_chars, visibleWidth_ascii by done. done. Qed.

Lemma ascii_wraps maxWidth f seg :
  (0 < maxWidth)%Z -> isPrintableAscii (segment seg) = true ->
  wrapsWide maxWidth (fun g => wordWrapLine (S f) g maxWidth None) seg.
Proof.
  intros Hm Ha Hb. set (s := segment seg) in *. pose proof (ascii_graphemes s Ha) as Hg.
  assert (Hnarrow : forall x, x ∈ graphemeSegmenter s -> visibleWidth (segment x) = 1%Z).
  { intros x Hx. assert (segment x ∈ map (fun c => [c]) s) as (c & -> & Hc)%list_elem_of_fmap
      by (rewrite <- Hg; by apply list_elem_of_fmap_2).
    apply visibleWidth_ascii. unfold isPrintableAscii in *. rewrite forallb_forall in Ha. cbn.
    by rewrite (Ha c) by by apply list_elem_of_In. }
  destruct (wrapLine_loop s maxWidth (fun g => wordWrapLine f g maxWidth None) (graphemeSegmenter s) Hm)
    as (groups & g & E & Hcat & Htext & Hfits); [|apply grapheme_segments|].
  { apply Forall_forall. intros x Hx Hw. rewrite Hnarrow in Hw by done. lia. }
  assert (Hpieces : concat (map (pieces maxWidth) (graphemeSegmenter s)) = map (fun c => [c]) s).
  { rewrite <- Hg. clear - Hnarrow Hm. induction (graphemeSegmenter s) as [|x l IH]; cbn; [done|].
    rewrite IH by (intros y Hy; apply Hnarrow; by right). unfold pieces at 1. rewrite Hnarrow by left.
    destruct (Z.ltb_spec maxWidth 1); [lia|done]. }
  rewrite Hpieces in Hcat.
  assert (Hseg : pieces maxWidth seg = map (fun c => [c]) s).
  { unfold pieces. fold s. destruct (Z.ltb_spec maxWidth (visibleWidth s)); [done|lia]. }
  exists groups, g. rewrite Hseg. split_and!; [|done| | |done|].
  - rewrite wordWrapLine_wide by lia. exact E.
  - apply Forall_forall. intros p (c & -> & _)%list_elem_of_fmap. done.
  - apply concat_chars.
  - assert (exists l1 l2, s = l1 ++ l2 /\ g = map (fun c => [c]) l2) as (l1 & l2 & El & Eg).
    { rewrite concat_app in Hcat. cbn in Hcat. rewrite app_nil_r in Hcat. symmetry in Hcat.
      apply map_eq_app in Hcat as (l1 & l2 & ? & ? & ?). by exists l1, l2. }
    apply (chars_group g l2 Eg). rewrite El, isPrintable_app in Ha. by apply andb_true_iff in Ha as [_ Ha].
Qed.
End WrapLaws.

(** ** What a marker matches *)
Definition markerText (m : Marker) : jstr := markerOpen ++ idGroup m ++ default [] (suffixGroup m) ++ js "]".

Lemma spanDigits_spec s d r : spanDigits s = (d, r) -> s = d ++ r /\ forallb isDigit d = true.
Proof.
  revert d r. induction s as [|c s IH]; intros d r; cbn; [by intros [= <- <-]|].
  destruct (isDigit c) eqn:E; [|by intros [= <- <-]]. destruct (spanDigits s) as [d' r'].
  intros [= <- <-]. destruct (IH d' r' eq_refl) as [-> Hd]. split; [done|]. cbn. by rewrite E.
Qed.

Lemma digits_ascii d : forallb isDigit d = true -> isPrintableAscii d = true.
Proof.
  unfold isPrintableAscii. rewrite !forallb_forall. intros H c Hc. specialize (H c Hc). unfold isDigit in H.
  apply andb_true_iff in H as [H1%N.leb_le H2%N.leb_le]. apply andb_true_iff. split; apply N.leb_le; lia.
Qed.

Lemma startsWith_drop s p : startsWith s p = true -> s = p ++ drop (length p) s.
Proof. intros [r ->]%startsWith_iff. by rewrite drop_app_length. Qed.

Lemma digitsThen_spec w t x r : digitsThen w t = Some (x, r) -> isPrintableAscii w = true ->
  t = x ++ r /\ isPrintableAscii x = true.
Proof.
  unfold digitsThen. destruct (spanDigits t) as [[|d ds] r1] eqn:E; [done|].
  destruct (startsWith r1 w) eqn:Ew; [|done]. intros [= <- <-] Hw. apply spanDigits_spec in E as [-> Hd].
  apply startsWith_drop in Ew. rewrite Ew at 1. split; [by rewrite (assoc_L (++))|].
  change (d :: ds ++ w) with ((d :: ds) ++ w). by rewrite isPrintable_app, Hw, (digits_ascii _ Hd).
Qed.

Lemma matchSuffix_spec s suffix r : matchSuffix s = Some (suffix, r) ->
  s = suffix ++ r /\ isPrintableAscii suffix = true.
Proof.
  unfold matchSuffix. destruct (startsWith s (js " +")) eqn:E1; [|destruct (startsWith s (js " ")) eqn:E2; [|done]].
  all: match goal with |- context [digitsThen ?w ?t] => destruct (digitsThen w t) as [[x r']|] eqn:E; [|done] end.
  all: intros [= <- <-]; apply digitsThen_spec in E as [E Hx]; [|done].
  - split; [|exact Hx]. apply startsWith_drop in E1. rewrite E1. cbn [length js] in *. by rewrite E.
  - split; [|exact Hx]. apply startsWith_drop in E2. rewrite E2. cbn [length js] in *. by rewrite E.
Qed.

(** A match is the marker's text, at the start. *)
Lemma matchMarker_spec s m : matchMarker s = Some m ->
  (exists r, s = markerText m ++ r) /\ markerLength m = length (markerText m)
  /\ isPrintableAscii (markerText m) = true /\ (10 <= markerLength m)%nat.
Proof.
  unfold matchMarker. destruct (startsWith s markerOpen) eqn:Eo; [|done]. apply startsWith_drop in Eo.
  destruct (spanDigits _) as [[|d ds] r] eqn:Ed; [done|]. apply spanDigits_spec in Ed as [Ed Hd].
  rewrite Ed in Eo. subst s. destruct (startsWith r (js "]")) eqn:Ec.
  - intros [= <-]. apply startsWith_drop in Ec. unfold markerText. cbn [idGroup suffixGroup markerLength default].
    split; [exists (drop 1 r); by rewrite Ec at 1; rewrite <- !(assoc_L (++))|].
    rewrite !length_app. split; [cbn; lia|]. split; [|cbn; lia]. by rewrite !isPrintable_app, (digits_ascii _ Hd).
  - destruct (matchSuffix r) as [[suffix r']|] eqn:Es; [|done]. cbn [mbind option_bind].
    destruct (startsWith r' (js "]")) eqn:Ec'; [|done]. intros [= <-]. apply startsWith_drop in Ec'.
    apply matchSuffix_spec in Es as [-> Hs]. unfold markerText. cbn [idGroup suffixGroup markerLength default].
    split; [exists (drop 1 r'); by rewrite Ec' at 1; rewrite <- !(assoc_L (++))|].
    rewrite !length_app. split; [cbn; lia|]. split; [|cbn; lia].
    rewrite !isPrintable_app, (digits_ascii _ Hd). change (id suffix) with suffix. by rewrite Hs.
Qed.

(** ** Segmentation with markers *)
(** Spans in order, apart, and within the text; each reads as a marker. *)
Fixpoint spansFrom (t : jstr) (pos : nat) (markers : list (nat * nat)) : Prop :=
  match markers with
  | [] => True
  | (s, e) :: rest =>
    (pos <= s < e)%nat /\ (e <= length t)%nat /\ isPrintableAscii (take (e - s) (drop s t)) = true /\ spansFrom t e rest
  end.

Lemma spansFrom_weaken t pos pos' markers : (pos' <= pos)%nat -> spansFrom t pos markers -> spansFrom t pos' markers.
Proof. intros Hp. destruct markers as [|[s e] rest]; cbn; [done|]. intros (? & ? & ?). split; [lia|done]. Qed.

(** The filtered spans of the matches from [i], [skip] code units of the last
    match still to pass. *)
Lemma matchAll_spans p t : forall s i skip, drop i t = s -> (i <= length t)%nat ->
  spansFrom t (i + skip) (map (fun '(i, m) => (i, (i + markerLength m)%nat))
    (List.filter (fun '(_, m) => p m) (matchAll_go s i skip))).
Proof.
  induction s as [|c s IH]; intros i skip Hd Hi; cbn [matchAll_go]; [done|].
  assert (Hd' : drop (S i) t = s) by (by rewrite <- Nat.add_1_r, <- drop_drop, Hd).
  assert (Hi' : (S i <= length t)%nat) by (apply (f_equal length) in Hd; rewrite length_drop in Hd; cbn in Hd; lia).
  destruct skip as [|k].
  - destruct (matchMarker (c :: s)) as [m|] eqn:E; [|by eapply spansFrom_weaken; [|apply (IH (S i) 0)]; [lia|..]].
    apply matchMarker_spec in E as ([r Er] & Hl & Ha & H10). cbn [List.filter].
    assert (Hlen : (i + markerLength m <= length t)%nat).
    { apply (f_equal length) in Hd. rewrite length_drop, Er, length_app in Hd. lia. }
    specialize (IH (S i) (markerLength m - 1)%nat Hd' Hi').
    replace (S i + (markerLength m - 1))%nat with (i + markerLength m)%nat in IH by lia.
    destruct (p m); cbn [map spansFrom]; [|by eapply spansFrom_weaken; [|exact IH]; lia].
    split; [lia|]. split; [done|]. split; [|done]. rewrite Hd, Er, Nat.add_comm, Nat.add_sub, Hl, take_app_length. done.
  - replace (i + S k)%nat with (S i + k)%nat by lia. by apply IH.
Qed.

Lemma validMarkers_spans ids t : spansFrom t 0 (validMarkers ids t).
Proof. apply (matchAll_spans (fun m => bool_decide (decimal (idGroup m) ∈ ids)) t t 0 0); [done|lia]. Qed.

(** The base segments end where the spans begin and end. *)
Definition cutsAt (pos n : nat) (base : list SegmentData) : Prop :=
  exists p q, base = p ++ q /\ (pos + length (segText p))%nat = n.
Definition aligned (pos : nat) (markers : list (nat * nat)) (base : list SegmentData) : Prop :=
  forall s e, (s, e) ∈ markers -> cutsAt pos s base /\ cutsAt pos e base.

Lemma segmentsFrom_app pos p q t : segmentsFrom pos t (p ++ q) ->
  t = segText p ++ segText q /\ segmentsFrom (pos + length (segText p)) (segText q) q.
Proof.
  revert pos t. induction p as [|x p IH]; intros pos t; cbn [app].
  - intros H. pose proof (segmentsFrom_text _ _ _ H) as E. cbn. rewrite Nat.add_0_r. rewrite E. by split.
  - intros (_ & _ & r & -> & H). apply IH in H as [-> H]. unfold segText. cbn. rewrite length_app, Nat.add_assoc.
    split; [by rewrite (assoc_L (++))|done].
Qed.

Lemma dropBefore_later pos t markers : spansFrom t pos markers -> dropBefore pos markers = markers.
Proof.
  destruct markers as [|[s e] rest]; cbn; [done|]. intros [H _]. by destruct (Nat.leb_spec e pos); [lia|].
Qed.

(** Inside a marker the base segments are dropped. *)
Lemma merge_inside t s e rest p q pos text : segmentsFrom pos text (p ++ q) -> (s < pos)%nat ->
  (pos + length (segText p) <= e)%nat ->
  mergeSegments t ((s, e) :: rest) (p ++ q) = mergeSegments t ((s, e) :: rest) q.
Proof.
  revert pos text. induction p as [|x p IH]; intros pos text Hs Hp He; cbn [app]; [done|].
  destruct Hs as (Hne & Hi & r & -> & Hr). unfold segText in He. cbn [map concat] in He. rewrite length_app in He.
  assert (0 < length (segment x))%nat by (destruct (segment x); [done|cbn; lia]).
  cbn [mergeSegments]. rewrite Hi. cbn [dropBefore]. destruct (Nat.leb_spec e pos); [lia|].
  rewrite (proj2 (Nat.leb_le _ _)), (proj2 (Nat.ltb_lt _ _)) by lia. cbn [andb].
  destruct (Nat.eqb_spec pos s); [lia|]. eapply IH; [exact Hr|lia|unfold segText; lia].
Qed.

Lemma merge_dropped t s e rest q pos text : segmentsFrom pos text q -> (e <= pos)%nat ->
  mergeSegments t ((s, e) :: rest) q = mergeSegments t rest q.
Proof.
  intros Hs He. destruct q as [|x q]; [done|]. destruct Hs as (_ & Hi & _). cbn [mergeSegments].
  rewrite Hi. cbn [dropBefore]. by rewrite (proj2 (Nat.leb_le _ _)).
Qed.

Lemma cutsAt_later pos n p q : cutsAt pos n (p ++ q) -> (pos + length (segText p) <= n)%nat ->
  cutsAt (pos + length (segText p)) n q.
Proof.
  intros (p1 & q1 & E & Hn) Hle. symmetry in E. apply app_eq_inv in E as [(k & -> & ->)|(k & -> & ->)].
  - exists k, q1. split; [done|]. rewrite segText_app, length_app in Hn. lia.
  - rewrite segText_app, length_app in *. exists [], q. cbn. split; [done|lia].
Qed.

Lemma cutsAt_next pos n x rest : cutsAt pos n (x :: rest) -> (pos < n)%nat -> (pos + length (segment x) <= n)%nat.
Proof.
  intros ([|y p] & q & E & Hn) Hlt; cbn in Hn; [lia|]. injection E as <- _.
  unfold segText in Hn. cbn in Hn. rewrite length_app in Hn. lia.
Qed.

Lemma aligned_later pos markers p q t :
  aligned pos markers (p ++ q) -> spansFrom t (pos + length (segText p)) markers ->
  aligned (pos + length (segText p)) markers q.
Proof.
  intros Ha Hs s e Hin. destruct (Ha s e Hin) as [H1 H2].
  assert (Hse : (pos + length (segText p) <= s < e)%nat).
  { clear - Hs Hin. revert Hs. generalize (pos + length (segText p))%nat. induction markers as [|[s' e'] r IH]; intros k Hs; [set_solver|].
    cbn in Hs. destruct Hs as (? & _ & _ & Hs). apply elem_of_cons in Hin as [[= -> ->]|Hin]; [done|]. specialize (IH Hin _ Hs). lia. }
  split; apply cutsAt_later; (done || lia).
Qed.

(** Merging keeps a partition of the text; what is merged is a marker. *)
Lemma merge_partition t : forall n base pos markers, (length base <= n)%nat ->
  segmentsFrom pos (drop pos t) base -> (pos <= length t)%nat -> spansFrom t pos markers -> aligned pos markers base ->
  segmentsFrom pos (drop pos t) (mergeSegments t markers base)
  /\ forall x, x ∈ mergeSegments t markers base -> x ∈ base \/ isPrintableAscii (segment x) = true.
Proof.
  induction n as [|n IH]; intros base pos markers Hn Hb Hpos Hm Ha.
  { destruct base; [|cbn in Hn; lia]. split; [done|set_solver]. }
  destruct base as [|x rest]; [split; [done|set_solver]|]. cbn [length] in Hn.
  pose proof Hb as (Hne & Hi & r & Er & Hr).
  assert (Hxl : (pos + length (segment x) <= length t)%nat).
  { apply (f_equal length) in Er. rewrite length_drop, length_app in Er.
    destruct (segment x); [done|]. cbn in *. lia. }
  assert (Hrest : drop (pos + length (segment x)) t = r) by (by rewrite <- drop_drop, Er, drop_app_length).
  assert (Htext1 : length (segText [x]) = length (segment x)) by (unfold segText; cbn; by rewrite app_nil_r).
  assert (Hkeep : spansFrom t (pos + length (segment x)) markers ->
    segmentsFrom pos (drop pos t) (x :: mergeSegments t markers rest)
    /\ forall y, y ∈ x :: mergeSegments t markers rest -> y ∈ x :: rest \/ isPrintableAscii (segment y) = true).
  { intros Hm'. destruct (IH rest (pos + length (segment x))%nat markers) as [H1 H2]; [lia|by rewrite Hrest|done|done| |].
    { rewrite <- Htext1. eapply (aligned_later pos markers [x] rest); [done|]. by rewrite Htext1. }
    rewrite Hrest in H1. split; [split; [done|split; [done|by exists r]]|]. set_solver. }
  cbn [mergeSegments]. rewrite Hi, (dropBefore_later _ _ _ Hm). destruct markers as [|[s e] ms]; [by apply Hkeep|].
  destruct Hm as (Hse & Het & Hascii & Hms). destruct (Ha s e ltac:(left)) as [Hcs Hce].
  destruct (Nat.leb_spec s pos) as [Hs|Hs]; cbn [andb].
  2:{ apply Hkeep. split; [|done]. pose proof (cutsAt_next pos s x rest Hcs). lia. }
  assert (s = pos) as -> by lia. rewrite (proj2 (Nat.ltb_lt _ _)), Nat.eqb_refl by lia.
  destruct Hce as ([|y p] & q & Eq & Hq); [cbn in Hq; lia|]. injection Eq as <- ->.
  assert (Hpq : (pos + length (segment x) + length (segText p))%nat = e)
    by (unfold segText in *; cbn in Hq; rewrite length_app in Hq; lia).
  destruct (segmentsFrom_app _ p q r Hr) as [Hrtext Hqs]. rewrite Hpq in Hqs.
  assert (Hqtext : segText q = drop e t).
  { rewrite <- Hpq, <- drop_drop, Hrest, Hrtext. by rewrite drop_app_length. }
  rewrite (merge_inside t pos e ms p q _ _ Hr), (merge_dropped t pos e ms q e _ Hqs)
    by (destruct (segment x); [done|cbn in *; lia]).
  destruct (IH q e ms) as [H1 H2]; [rewrite length_app in Hn; lia|by rewrite <- Hqtext|lia|done| |].
  { rewrite <- Hq. eapply (aligned_later pos ms (x :: p) q).
    - intros s' e' Hin. apply (Ha s' e'). by right.
    - by rewrite Hq. }
  split.
  - cbn [segmentsFrom segment index]. assert (Hl : length (take (e - pos) (drop pos t)) = (e - pos)%nat)
      by (rewrite length_take, length_drop; lia).
    split; [intros E; rewrite E in Hl; cbn in Hl; lia|]. split; [done|]. exists (drop e t).
    rewrite Hl. replace (pos + (e - pos))%nat with e by lia. split; [|done].
    replace e with (pos + (e - pos))%nat at 2 by lia. by rewrite <- drop_drop, take_drop.
  - intros z [->|Hz]%elem_of_cons; [by right|]. destruct (H2 z Hz); [left; set_solver|by right].
Qed.

(** The editor's segmentation of a text with valid paste ids. *)
Lemma segmentWithMarkers_partition ids base t :
  segments t (base t) -> aligned 0 (validMarkers ids t) (base t) ->
  segments t (segmentWithMarkers t base ids)
  /\ forall x, x ∈ segmentWithMarkers t base ids -> x ∈ base t \/ isPrintableAscii (segment x) = true.
Proof.
  intros Hb Ha. unfold segmentWithMarkers. destruct ids as [|i ids]; [by split; auto|].
  destruct (negb _); [by split; auto|]. destruct (validMarkers (i :: ids) t) as [|m ms] eqn:E; [by split; auto|].
  rewrite <- E in *. destruct (merge_partition t (length (base t)) (base t) 0 (validMarkers (i :: ids) t)) as [H1 H2];
    [done|by rewrite drop_0|lia|apply validMarkers_spans|done|].
  rewrite drop_0 in H1. by split.
Qed.

(** Without alignment the segments still do not overlap and are not empty. *)
Definition covered (pos : nat) (markers : list (nat * nat)) : nat :=
  match dropBefore pos markers with (s, e) :: _ => if (s <? pos)%nat then e else pos | [] => pos end.
Definition spansIn (t : jstr) (markers : list (nat * nat)) : Prop :=
  Forall (fun '(s, e) => (s < e <= length t)%nat) markers.

Lemma spansFrom_in t pos markers : spansFrom t pos markers -> spansIn t markers.
Proof.
  revert pos. induction markers as [|[s e] rest IH]; intros pos; cbn; [by constructor|].
  intros (? & ? & _ & ?%IH). constructor; [lia|done].
Qed.
Lemma dropBefore_in t pos markers : spansIn t markers -> spansIn t (dropBefore pos markers).
Proof.
  induction markers as [|[s e] rest IH]; [done|]. intros H. cbn. case_match; [apply IH; by inversion H|done].
Qed.
Lemma dropBefore_first pos markers : match dropBefore pos markers with (_, e) :: _ => (pos < e)%nat | [] => True end.
Proof. induction markers as [|[s e] rest IH]; cbn; [done|]. destruct (Nat.leb_spec e pos); [done|lia]. Qed.

Lemma covered_ge pos markers : (pos <= covered pos markers)%nat.
Proof. unfold covered. pose proof (dropBefore_first pos markers). destruct (dropBefore pos markers) as [|[s e] r]; [done|]. case_match; lia. Qed.
Lemma covered_reached s e rest pos : (s < pos)%nat -> (e <= covered pos ((s, e) :: rest))%nat.
Proof.
  intros H. pose proof (covered_ge pos rest) as Hr. unfold covered in *. cbn [dropBefore]. destruct (Nat.leb_spec e pos); [lia|].
  by rewrite (proj2 (Nat.ltb_lt _ _)).
Qed.

Lemma merge_disjoint t base : forall pos markers,
  segmentsFrom pos (drop pos t) base -> (pos <= length t)%nat -> spansIn t markers ->
  (covered pos markers + length (segText (mergeSegments t markers base)) <= length t)%nat
  /\ Forall (fun x => segment x <> []) (mergeSegments t markers base).
Proof.
  induction base as [|x base IH]; intros pos markers Hb Hp Hm.
  - cbn. split; [|done]. unfold covered. pose proof (dropBefore_in t pos markers Hm) as Hd.
    destruct (dropBefore pos markers) as [|[s e] r]; [cbn; lia|]. apply Forall_inv in Hd. cbn. case_match; lia.
  - destruct Hb as (Hne & Hi & r & Hr & Hb). pose proof (dropBefore_in t pos markers Hm) as Hd.
    assert (Hx : (pos + length (segment x) <= length t)%nat).
    { apply (f_equal length) in Hr. rewrite length_drop, length_app in Hr. lia. }
    assert (0 < length (segment x))%nat by (destruct (segment x); [done|cbn; lia]).
    assert (Hb' : segmentsFrom (pos + length (segment x)) (drop (pos + length (segment x)) t) base).
    { by rewrite <- drop_drop, Hr, drop_app_length. }
    specialize (IH _ (dropBefore pos markers) Hb' Hx Hd). cbn [mergeSegments]. rewrite Hi.
    unfold covered at 1. pose proof (dropBefore_first pos markers) as Hf.
    pose proof (covered_ge (pos + length (segment x)) (dropBefore pos markers)) as Hc.
    destruct (dropBefore pos markers) as [|[s e] rest] eqn:Em.
    + destruct IH as [IH1 IH2]. split; [unfold segText; cbn; rewrite length_app; unfold segText in IH1; lia|by constructor].
    + pose proof (covered_reached s e rest (pos + length (segment x))) as Hreach.
      apply Forall_inv in Hd as Hse. destruct IH as [IH1 IH2]. destruct (Nat.leb_spec s pos); cbn [andb].
      * rewrite (proj2 (Nat.ltb_lt pos e)) by lia. destruct (Nat.eqb_spec pos s) as [->|].
        -- rewrite (proj2 (Nat.ltb_ge s s)) by lia. unfold segText in *. cbn. rewrite length_app, length_take, length_drop.
           split; [lia|]. constructor; [|done]. cbn. intros E%(f_equal length). rewrite length_take, length_drop in E. cbn in E. lia.
        -- rewrite (proj2 (Nat.ltb_lt s pos)) by lia. split; [lia|done].
      * rewrite (proj2 (Nat.ltb_ge s pos)) by lia. split; [unfold segText in *; cbn; rewrite length_app; lia|by constructor].
Qed.

Lemma segmentsFrom_nonempty start s l : segmentsFrom start s l -> Forall (fun x => segment x <> []) l.
Proof.
  revert start s. induction l as [|x l IH]; intros start s; [by constructor|]. intros (? & _ & r & _ & ?%IH). by constructor.
Qed.

Lemma segmentWithMarkers_disjoint ids base t : segments t (base t) ->
  (length (segText (segmentWithMarkers t base ids)) <= length t)%nat
  /\ Forall (fun x => segment x <> []) (segmentWithMarkers t base ids).
Proof.
  intros Hb. assert (Hbase : (length (segText (base t)) <= length t)%nat /\ Forall (fun x => segment x <> []) (base t)).
  { rewrite (segmentsFrom_text _ _ _ Hb). split; [done|]. by eapply segmentsFrom_nonempty. }
  unfold segmentWithMarkers. destruct ids as [|i ids]; [done|]. destruct (negb _); [done|].
  destruct (validMarkers (i :: ids) t) as [|m ms] eqn:E; [done|]. rewrite <- E.
  destruct (merge_disjoint t (base t) 0 (validMarkers (i :: ids) t)) as [H1 H2];
    [by rewrite drop_0|lia|by apply (spansFrom_in t 0), validMarkers_spans|].
  split; [lia|done].
Qed.

(** ** Alignment, decided *)
Definition cutsAtb (pos n : nat) (base : list SegmentData) : bool :=
  existsb (fun k => pos + length (segText (take k base)) =? n)%nat (seq 0 (S (length base))).
Lemma cutsAt_check pos n base : cutsAtb pos n base = true -> cutsAt pos n base.
Proof.
  intros (k & _ & Hk%Nat.eqb_eq)%existsb_exists. exists (take k base), (drop k base). by rewrite take_drop.
Qed.
Lemma aligned_check pos markers base :
  forallb (fun '(s, e) => cutsAtb pos s base && cutsAtb pos e base) markers = true -> aligned pos markers base.
Proof.
  rewrite forallb_forall. intros H s e Hin%list_elem_of_In. specialize (H _ Hin). cbn in H.
  apply andb_true_iff in H as [H1 H2]. split; by apply cutsAt_check.
Qed.

(** * Properties *)

(** C38: Word wrap loses nothing and fits.  A line that is too wide, whose
    characters each fit and whose paste markers begin and end where characters
    do, is wrapped without overflowing the stack into chunks that follow one
    another without a gap, together are the line, break only between segments
    (or inside a marker that is wider than the terminal, between its
    characters), and are each at most the terminal's width. *)
Theorem wrapped_lines_fit `{UnicodeLaws} (line : jstr) (maxWidth : Z) (ids : list N) :
  (0 < maxWidth < visibleWidth line)%Z ->
  aligned 0 (validMarkers ids line) (graphemeSegmenter line) ->
  (forall x, x ∈ graphemeSegmenter line -> (visibleWidth (segment x) <= maxWidth)%Z) ->
  let segs := segmentWithMarkers line graphemeSegmenter ids in
  exists groups, wordWrapLine 2 line maxWidth (Some segs) = Some (layout 0 groups)
    /\ concat groups = concat (map (pieces maxWidth) segs) /\ concat (concat groups) = line
    /\ Forall (fun g => (groupWidth g <= maxWidth)%Z) groups.
Proof.
  intros Hmw Ha Hnarrow segs. pose proof Hmw as [Hm _].
  destruct (segmentWithMarkers_partition ids graphemeSegmenter line (grapheme_segments line) Ha) as [Hp Hx]. fold segs in Hp, Hx.
  destruct (wrapLine_loop line maxWidth (fun g => wordWrapLine 1 g maxWidth None) segs Hm) as (groups & g & E & H1 & H2 & H3);
    [|done|].
  - apply Forall_forall. intros x Hin. destruct (Hx x Hin) as [Hb|Hascii]; [|by apply (ascii_wraps maxWidth 0)].
    intros Hwide. specialize (Hnarrow x Hb). lia.
  - exists (groups ++ [g]). split; [|done]. rewrite wordWrapLine_wide by done. exact E.
Qed.

(** A character wider than the terminal has no wrapping: [wordWrapLine]
    splits it off, finds it too wide, and wraps it again, without end; the call
    stack overflows whatever its size. *)
Theorem too_wide_never_returns `{UnicodeLaws} (line : jstr) (maxWidth : Z) (fuel : nat) :
  (0 < maxWidth < visibleWidth line)%Z -> graphemeSegmenter line = [{| segment := line; index := 0; isWordLike := false |}] ->
  wordWrapLine fuel line maxWidth None = None.
Proof.
  intros Hw Hg. induction fuel as [|f IH]; [done|]. rewrite wordWrapLine_wide by done.
  cbn [default]. change (default (graphemeSegmenter line) None) with (graphemeSegmenter line). rewrite Hg.
  cbn [wrap_loop segment]. rewrite (proj2 (Z.ltb_lt _ _)) by lia. by rewrite IH.
Qed.

(** A marker wider than the terminal, between words. *)
Lemma wrapped_lines_fit_witness :
  let line := js "some words [paste #1 +20 lines] more" in
  let segs := segmentWithMarkers line graphemeSegmenter [1%N] in
  (exists groups, wordWrapLine 2 line 12 (Some segs) = Some (layout 0 groups)
    /\ concat groups = concat (map (pieces 12) segs) /\ concat (concat groups) = line
    /\ Forall (fun g => (groupWidth g <= 12)%Z) groups)
  /\ option_map (map text) (wordWrapLine 2 line 12 (Some segs))
     = Some [js "some words "; js "[paste #1 "; js "+20 lines] "; js "more"].
Proof.
  intros line segs. split; [|by vm_compute]. apply (wrapped_lines_fit line 12 [1%N]).
  - by vm_compute.
  - apply aligned_check. by vm_compute.
  - intros x Hx. apply list_elem_of_In in Hx. revert x Hx. apply List.Forall_forall. by repeat constructor.
Defined.

Lemma too_wide_never_returns_witness :
  wordWrapLine 1000 [20013%N] 1 None = None /\ wordWrapLine 1000 [20013%N] 2 None <> None.
Proof.
  split; [|by vm_compute]. apply (too_wide_never_returns [20013%N] 1 1000); [by vm_compute|done].
Defined.

(** A combining mark behind a marker belongs to the same character as its last
    bracket; merging then drops the mark from the segments. *)
Example mark_behind_marker_is_dropped :
  let line := js "[paste #1 +20 lines]" ++ [769%N] in
  let joined := fun s : jstr => take 19 (charSegments 0 s) ++ [{| segment := drop 19 s; index := 19; isWordLike := false |}] in
  segText (joined line) = line /\ segText (segmentWithMarkers line joined [1%N]) = js "[paste #1 +20 lines]".
Proof. by vm_compute. Qed.
