(* ===== verification/TuiEditor.v ===== *)
(** * Terminal UI: the editor

    [packages/tui/src/tui/engine/components/editor.ts]: the state of the
    multi-line editor and its operations: typing, pasting with markers for large
    pastes, deleting and killing, yanking, undo, history, moving by characters,
    words and visual lines, and the programmatic changes of text.  The host's
    callbacks are the class [EditorHost] ([onPaste], [transformPaste], the capture
    and restoring of its own state for undo) or events ([onChange], [onSubmit]).
    Rendering, autocompletion and the lookup of key bindings are left out: an
    operation is named by its action.  An operation that lays lines out gives
    [None] when the call stack overflows in [wordWrapLine]; [stack] bounds the
    calls. *)
From S2P Require Import Prelude RgFingerprint Utf8 TuiText TuiWrap.

(** ** State *)
Record EditorState := { lines : list jstr; cursorLine : Z; cursorCol : Z }.

Definition emptyState : EditorState := {| lines := [[]]; cursorLine := 0; cursorCol := 0 |}.

Inductive LastAction := act_kill | act_yank | act_type_word.
Inductive Direction := forward | backward.
#[export] Instance LastAction_dec : EqDecision LastAction.
Proof. solve_decision. Defined.
#[export] Instance Direction_dec : EqDecision Direction.
Proof. solve_decision. Defined.
#[export] Instance EditorState_dec : EqDecision EditorState.
Proof. solve_decision. Defined.

Record EditorStateSnapshot := {
  text : jstr; cursor : Z; snapshotPastes : list (N * jstr); snapshotPasteCounter : Z }.

Inductive Event := ev_change (text : jstr) | ev_submit (text : jstr) (snapshot : EditorStateSnapshot).

(** ** Lines *)
Fixpoint splitLines (s : jstr) : list jstr :=
  match s with
  | [] => [[]]
  | c :: s' =>
    if (c =? newline)%N then [] :: splitLines s'
    else match splitLines s' with l :: ls => (c :: l) :: ls | [] => [[c]] end
  end.

(** [lines[i] || '']. *)
Definition lineAt (ls : list jstr) (i : Z) : jstr := if (i <? 0)%Z then [] else default [] (ls !! Z.to_nat i).

(** [lines[i] = v]: past the end the array grows, at a negative index no element
    changes. *)
Definition setLine (i : Z) (v : jstr) (ls : list jstr) : list jstr :=
  if (i <? 0)%Z then ls
  else if (i <? len ls)%Z then <[Z.to_nat i := v]> ls
  else ls ++ replicate (Z.to_nat i - length ls) [] ++ [v].

(** [lines.splice(start, deleteCount, ...items)]. *)
Definition splice (start deleteCount : Z) (items ls : list jstr) : list jstr :=
  let i := toIndex (length ls) start in
  take i ls ++ items ++ drop (i + Z.to_nat deleteCount) ls.

(** [\r\n] and [\r] become [\n], a tab four spaces. *)
Fixpoint normalizeText (s : jstr) : jstr :=
  match s with
  | [] => []
  | c :: s' =>
    if (c =? cr)%N then
      match s' with
      | d :: s'' => if (d =? newline)%N then newline :: normalizeText s'' else newline :: normalizeText s'
      | [] => [newline]
      end
    else if (c =? 9)%N then js "    " ++ normalizeText s'
    else c :: normalizeText s'
  end.

Definition getText (s : EditorState) : jstr := join [newline] (lines s).

Definition cursorOffset (s : EditorState) : Z :=
  (foldr (fun l n => len l + 1 + n) 0 (slice (lines s) 0 (cursorLine s)) + cursorCol s)%Z.

(** The loop of [setStateFromText]: the line and column of an offset. *)
Fixpoint locate (ls : list jstr) (line remaining : Z) : Z * Z :=
  match ls with
  | [] => (line, Z.min remaining 0)
  | [l] => (line, Z.min remaining (len l))
  | l :: rest =>
    if (len l <? remaining)%Z then locate rest (line + 1) (remaining - (len l + 1)) else (line, Z.min remaining (len l))
  end.

(** Text re-encoded by the terminal: [ESC \[ code ; 5 u] back to its letter. *)
Definition csiU (s : jstr) : option (nat * option jchar) :=
  if startsWith s [27%N; ch "["] then
    match spanDigits (drop 2 s) with
    | (d :: ds, r) =>
      if startsWith r (js ";5u") then
        let cp := decimal (d :: ds) in
        Some (5 + length (d :: ds),
              if ((97 <=? cp) && (cp <=? 122))%N then Some (cp - 96)%N
              else if ((65 <=? cp) && (cp <=? 90))%N then Some (cp - 64)%N
              else None)
      else None
    | _ => None
    end
  else None.
Fixpoint decode_go (s : jstr) (skip : nat) : jstr :=
  match s with
  | [] => []
  | c :: s' =>
    match skip with
    | S k => decode_go s' k
    | O =>
      match csiU s with
      | Some (n, Some d) => d :: decode_go s' (n - 1)
      | Some (n, None) => take n s ++ decode_go s' (n - 1)
      | None => c :: decode_go s' 0
      end
    end
  end.
Definition decodePaste (pastedText : jstr) : jstr := decode_go pastedText 0.

(** [/^[/~.]/] and [/\w/]. *)
Definition isPathStart (s : jstr) : bool :=
  match s with c :: _ => bool_decide (c ∈ js "/~.") | [] => false end.
Definition isWordChar (c : jchar) : bool := isAlnum c || (c =? ch "_")%N.

Definition decN (n : N) : jstr := dec_Z (Z.of_N n).

(** ** The editor *)
(** The host: its own state [X], what it captures of it for undo ([U]), its other
    callbacks, the call stack and the height of the terminal. *)
Class EditorHost (X U : Type) := {
  captureUndoExtensionState : X -> option U;
  restoreUndoExtensionState : option U -> X -> X;
  transformPaste : jstr -> jstr;
  onPaste : jstr -> bool;
  stack : nat;
  terminalRows : Z;
}.

Section Editor.
Context {X U : Type} `{Unicode} `{EditorHost X U}.

Record EditorSnapshot := {
  snap_state : EditorState; snap_pastes : jmap N jstr; snap_pasteCounter : Z; snap_extensionState : option U }.

Record Editor := {
  state : EditorState;
  lastWidth : Z;
  scrollOffset : nat;
  pastes : jmap N jstr;
  pasteCounter : Z;
  history : list jstr;
  historyIndex : Z;
  historyDraft : option EditorState;
  killRing : KillRing;
  lastAction : option LastAction;
  jumpMode : option Direction;
  preferredVisualCol : option Z;
  snappedFromCursorCol : option Z;
  undoStack : UndoStack EditorSnapshot;
  events : list Event;
  host : X;
}.

Definition set_state (v : EditorState) (e : Editor) : Editor :=
  {| state := v; lastWidth := lastWidth e; scrollOffset := scrollOffset e; pastes := pastes e;
     pasteCounter := pasteCounter e; history := history e; historyIndex := historyIndex e;
     historyDraft := historyDraft e; killRing := killRing e; lastAction := lastAction e;
     jumpMode := jumpMode e; preferredVisualCol := preferredVisualCol e;
     snappedFromCursorCol := snappedFromCursorCol e; undoStack := undoStack e; events := events e;
     host := host e |}.
Definition set_lastWidth (v : Z) (e : Editor) : Editor :=
  {| state := state e; lastWidth := v; scrollOffset := scrollOffset e; pastes := pastes e;
     pasteCounter := pasteCounter e; history := history e; historyIndex := historyIndex e;
     historyDraft := historyDraft e; killRing := killRing e; lastAction := lastAction e;
     jumpMode := jumpMode e; preferredVisualCol := preferredVisualCol e;
     snappedFromCursorCol := snappedFromCursorCol e; undoStack := undoStack e; events := events e;
     host := host e |}.
Definition set_scrollOffset (v : nat) (e : Editor) : Editor :=
  {| state := state e; lastWidth := lastWidth e; scrollOffset := v; pastes := pastes e;
     pasteCounter := pasteCounter e; history := history e; historyIndex := historyIndex e;
     historyDraft := historyDraft e; killRing := killRing e; lastAction := lastAction e;
     jumpMode := jumpMode e; preferredVisualCol := preferredVisualCol e;
     snappedFromCursorCol := snappedFromCursorCol e; undoStack := undoStack e; events := events e;
     host := host e |}.
Definition set_pastes (v : jmap N jstr) (e : Editor) : Editor :=
  {| state := state e; lastWidth := lastWidth e; scrollOffset := scrollOffset e; pastes := v;
     pasteCounter := pasteCounter e; history := history e; historyIndex := historyIndex e;
     historyDraft := historyDraft e; killRing := killRing e; lastAction := lastAction e;
     jumpMode := jumpMode e; preferredVisualCol := preferredVisualCol e;
     snappedFromCursorCol := snappedFromCursorCol e; undoStack := undoStack e; events := events e;
     host := host e |}.
Definition set_pasteCounter (v : Z) (e : Editor) : Editor :=
  {| state := state e; lastWidth := lastWidth e; scrollOffset := scrollOffset e; pastes := pastes e;
     pasteCounter := v; history := history e; historyIndex := historyIndex e; historyDraft := historyDraft e;
     killRing := killRing e; lastAction := lastAction e; jumpMode := jumpMode e;
     preferredVisualCol := preferredVisualCol e; snappedFromCursorCol := snappedFromCursorCol e;
     undoStack := undoStack e; events := events e; host := host e |}.
Definition set_history (v : list jstr) (e : Editor) : Editor :=
  {| state := state e; lastWidth := lastWidth e; scrollOffset := scrollOffset e; pastes := pastes e;
     pasteCounter := pasteCounter e; history := v; historyIndex := historyIndex e;
     historyDraft := historyDraft e; killRing := killRing e; lastAction := lastAction e;
     jumpMode := jumpMode e; preferredVisualCol := preferredVisualCol e;
     snappedFromCursorCol := snappedFromCursorCol e; undoStack := undoStack e; events := events e;
     host := host e |}.
Definition set_historyIndex (v : Z) (e : Editor) : Editor :=
  {| state := state e; lastWidth := lastWidth e; scrollOffset := scrollOffset e; pastes := pastes e;
     pasteCounter := pasteCounter e; history := history e; historyIndex := v; historyDraft := historyDraft e;
     killRing := killRing e; lastAction := lastAction e; jumpMode := jumpMode e;
     preferredVisualCol := preferredVisualCol e; snappedFromCursorCol := snappedFromCursorCol e;
     undoStack := undoStack e; events := events e; host := host e |}.
Definition set_historyDraft (v : option EditorState) (e : Editor) : Editor :=
  {| state := state e; lastWidth := lastWidth e; scrollOffset := scrollOffset e; pastes := pastes e;
     pasteCounter := pasteCounter e; history := history e; historyIndex := historyIndex e; historyDraft := v;
     killRing := killRing e; lastAction := lastAction e; jumpMode := jumpMode e;
     preferredVisualCol := preferredVisualCol e; snappedFromCursorCol := snappedFromCursorCol e;
     undoStack := undoStack e; events := events e; host := host e |}.
Definition set_killRing (v : KillRing) (e : Editor) : Editor :=
  {| state := state e; lastWidth := lastWidth e; scrollOffset := scrollOffset e; pastes := pastes e;
     pasteCounter := pasteCounter e; history := history e; historyIndex := historyIndex e;
     historyDraft := historyDraft e; killRing := v; lastAction := lastAction e; jumpMode := jumpMode e;
     preferredVisualCol := preferredVisualCol e; snappedFromCursorCol := snappedFromCursorCol e;
     undoStack := undoStack e; events := events e; host := host e |}.
Definition set_lastAction (v : option LastAction) (e : Editor) : Editor :=
  {| state := state e; lastWidth := lastWidth e; scrollOffset := scrollOffset e; pastes := pastes e;
     pasteCounter := pasteCounter e; history := history e; historyIndex := historyIndex e;
     historyDraft := historyDraft e; killRing := killRing e; lastAction := v; jumpMode := jumpMode e;
     preferredVisualCol := preferredVisualCol e; snappedFromCursorCol := snappedFromCursorCol e;
     undoStack := undoStack e; events := events e; host := host e |}.
Definition set_jumpMode (v : option Direction) (e : Editor) : Editor :=
  {| state := state e; lastWidth := lastWidth e; scrollOffset := scrollOffset e; pastes := pastes e;
     pasteCounter := pasteCounter e; history := history e; historyIndex := historyIndex e;
     historyDraft := historyDraft e; killRing := killRing e; lastAction := lastAction e; jumpMode := v;
     preferredVisualCol := preferredVisualCol e; snappedFromCursorCol := snappedFromCursorCol e;
     undoStack := undoStack e; events := events e; host := host e |}.
Definition set_preferredVisualCol (v : option Z) (e : Editor) : Editor :=
  {| state := state e; lastWidth := lastWidth e; scrollOffset := scrollOffset e; pastes := pastes e;
     pasteCounter := pasteCounter e; history := history e; historyIndex := historyIndex e;
     historyDraft := historyDraft e; killRing := killRing e; lastAction := lastAction e;
     jumpMode := jumpMode e; preferredVisualCol := v; snappedFromCursorCol := snappedFromCursorCol e;
     undoStack := undoStack e; events := events e; host := host e |}.
Definition set_snappedFromCursorCol (v : option Z) (e : Editor) : Editor :=
  {| state := state e; lastWidth := lastWidth e; scrollOffset := scrollOffset e; pastes := pastes e;
     pasteCounter := pasteCounter e; history := history e; historyIndex := historyIndex e;
     historyDraft := historyDraft e; killRing := killRing e; lastAction := lastAction e;
     jumpMode := jumpMode e; preferredVisualCol := preferredVisualCol e; snappedFromCursorCol := v;
     undoStack := undoStack e; events := events e; host := host e |}.
Definition set_undoStack (v : UndoStack EditorSnapshot) (e : Editor) : Editor :=
  {| state := state e; lastWidth := lastWidth e; scrollOffset := scrollOffset e; pastes := pastes e;
     pasteCounter := pasteCounter e; history := history e; historyIndex := historyIndex e;
     historyDraft := historyDraft e; killRing := killRing e; lastAction := lastAction e;
     jumpMode := jumpMode e; preferredVisualCol := preferredVisualCol e;
     snappedFromCursorCol := snappedFromCursorCol e; undoStack := v; events := events e; host := host e |}.
Definition set_events (v : list Event) (e : Editor) : Editor :=
  {| state := state e; lastWidth := lastWidth e; scrollOffset := scrollOffset e; pastes := pastes e;
     pasteCounter := pasteCounter e; history := history e; historyIndex := historyIndex e;
     historyDraft := historyDraft e; killRing := killRing e; lastAction := lastAction e;
     jumpMode := jumpMode e; preferredVisualCol := preferredVisualCol e;
     snappedFromCursorCol := snappedFromCursorCol e; undoStack := undoStack e; events := v; host := host e |}.
Definition set_host (v : X) (e : Editor) : Editor :=
  {| state := state e; lastWidth := lastWidth e; scrollOffset := scrollOffset e; pastes := pastes e;
     pasteCounter := pasteCounter e; history := history e; historyIndex := historyIndex e;
     historyDraft := historyDraft e; killRing := killRing e; lastAction := lastAction e;
     jumpMode := jumpMode e; preferredVisualCol := preferredVisualCol e;
     snappedFromCursorCol := snappedFromCursorCol e; undoStack := undoStack e; events := events e; host := v |}.

Definition log (v : Event) (e : Editor) : Editor := set_events (events e ++ [v]) e.
Definition changed (e : Editor) : Editor := log (ev_change (getText (state e))) e.

Definition set_lines (ls : list jstr) (e : Editor) : Editor :=
  set_state {| lines := ls; cursorLine := cursorLine (state e); cursorCol := cursorCol (state e) |} e.
Definition set_cursorLine (i : Z) (e : Editor) : Editor :=
  set_state {| lines := lines (state e); cursorLine := i; cursorCol := cursorCol (state e) |} e.
Definition move_col (col : Z) (e : Editor) : Editor :=
  set_state {| lines := lines (state e); cursorLine := cursorLine (state e); cursorCol := col |} e.

Definition setCursorCol (col : Z) (e : Editor) : Editor :=
  set_snappedFromCursorCol None (set_preferredVisualCol None (move_col col e)).

Definition currentLine (e : Editor) : jstr := lineAt (lines (state e)) (cursorLine (state e)).
Definition col (e : Editor) : Z := cursorCol (state e).
(** Rewrite the cursor's line. *)
Definition edit_line (l : jstr) (e : Editor) : Editor :=
  set_lines (setLine (cursorLine (state e)) l (lines (state e))) e.

Definition validPasteIds (e : Editor) : list N := jkeys (pastes e).
Definition segmentGraphemes (e : Editor) (t : jstr) : list SegmentData :=
  segmentWithMarkers t graphemeSegmenter (validPasteIds e).
Definition segmentWords (e : Editor) (t : jstr) : list SegmentData :=
  segmentWithMarkers t wordSegmenter (validPasteIds e).

Definition exitHistoryBrowsing (e : Editor) : Editor := set_historyDraft None (set_historyIndex (-1) e).

Definition pushUndoSnapshot (e : Editor) : Editor :=
  set_undoStack (undoPush {| snap_state := state e; snap_pastes := pastes e; snap_pasteCounter := pasteCounter e;
                             snap_extensionState := captureUndoExtensionState (host e) |} (undoStack e)) e.

Definition undo (e : Editor) : Editor :=
  let e := exitHistoryBrowsing e in
  let '(snapshot, rest) := undoPop (undoStack e) in
  match snapshot with
  | None => e
  | Some s =>
    let e := set_undoStack rest e in
    let e := set_state (snap_state s) e in
    let e := set_pasteCounter (snap_pasteCounter s) (set_pastes (snap_pastes s) e) in
    let e := set_host (restoreUndoExtensionState (snap_extensionState s) (host e)) e in
    changed (set_preferredVisualCol None (set_lastAction None e))
  end.

(** ** Text *)
Definition setTextInternal (t : jstr) (atStart : bool) (e : Editor) : Editor :=
  let ls := splitLines t in
  let e := set_cursorLine (if atStart then 0 else len ls - 1)%Z (set_lines ls e) in
  let e := setCursorCol (if atStart then 0%Z else len (currentLine e)) e in
  changed (set_scrollOffset 0 e).

Definition setStateFromText (t : jstr) (offset : Z) (e : Editor) : Editor :=
  let ls := splitLines t in
  let '(line, c) := locate ls 0 (Z.max 0 (Z.min (len t) offset)) in
  set_snappedFromCursorCol None (set_preferredVisualCol None
    (set_state {| lines := ls; cursorLine := line; cursorCol := c |} e)).

Definition dropMissingPastes (e : Editor) : Editor :=
  let activeIds := map (fun '(_, m) => decimal (idGroup m)) (matchAll (getText (state e))) in
  set_pastes (List.filter (fun '(id, _) => bool_decide (id ∈ activeIds)) (pastes e)) e.

(** [expandPasteMarkers]: the pastes one after the other. *)
Definition expandOne (id : N) (content t : jstr) : jstr :=
  replaceMarkers (fun m => if bool_decide (idGroup m = decN id) then Some content else None) t.
Definition expandPasteMarkers (pastes : jmap N jstr) (t : jstr) : jstr :=
  fold_left (fun t '(id, content) => expandOne id content t) pastes t.
Definition getExpandedText (e : Editor) : jstr := expandPasteMarkers (pastes e) (getText (state e)).

Definition captureState (e : Editor) : EditorStateSnapshot := {|
  text := getText (state e); cursor := cursorOffset (state e);
  snapshotPastes := sort_by (fun a b => (fst a <=? fst b)%N) (pastes e);
  snapshotPasteCounter := pasteCounter e |}.

Definition isValidEditorStateSnapshot (s : EditorStateSnapshot) : bool :=
  (0 <=? cursor s)%Z && (cursor s <=? len (text s))%Z && (0 <=? snapshotPasteCounter s)%Z
  && forallb (fun '(id, _) => (0 <? id)%N && (Z.of_N id <=? snapshotPasteCounter s)%Z) (snapshotPastes s)
  && bool_decide (NoDup (map fst (snapshotPastes s))).

Definition restoreState (s : EditorStateSnapshot) (e : Editor) : bool * Editor :=
  if negb (isValidEditorStateSnapshot s) then (false, e)
  else
    let e := exitHistoryBrowsing (set_lastAction None e) in
    let e := setStateFromText (text s) (cursor s) e in
    let e := set_pasteCounter (snapshotPasteCounter s) (set_pastes (jof_list (snapshotPastes s)) e) in
    let e := set_undoStack [] (set_scrollOffset 0 (dropMissingPastes e)) in
    (true, changed e).

Definition setCursorOffset (offset : Z) (e : Editor) : Editor := setStateFromText (getText (state e)) offset e.

Definition replaceRange (start stop : Z) (replacement : jstr) (cursorOffset : option Z) (e : Editor) : Editor :=
  let current := getText (state e) in
  let rangeStart := Z.max 0 (Z.min (len current) start) in
  let rangeEnd := Z.max rangeStart (Z.min (len current) stop) in
  let normalized := normalizeText replacement in
  let next := slice current 0 rangeStart ++ normalized ++ sliceFrom current rangeEnd in
  if bool_decide (next = current) then e
  else
    let e := exitHistoryBrowsing (set_lastAction None (pushUndoSnapshot e)) in
    changed (dropMissingPastes (setStateFromText next (default (rangeStart + len normalized)%Z cursorOffset) e)).

Definition setText (t : jstr) (e : Editor) : Editor :=
  let e := exitHistoryBrowsing (set_lastAction None e) in
  let normalized := normalizeText t in
  let e := if bool_decide (getText (state e) = normalized) then e else pushUndoSnapshot e in
  setTextInternal normalized false (set_pasteCounter 0 (set_pastes [] e)).

Definition insertTextAtCursorInternal (t : jstr) (e : Editor) : Editor :=
  match t with
  | [] => e
  | _ =>
    let normalized := normalizeText t in
    let before := slice (currentLine e) 0 (col e) in
    let after := sliceFrom (currentLine e) (col e) in
    let e :=
      match splitLines normalized with
      | [] | [_] => setCursorCol (col e + len normalized) (edit_line (before ++ normalized ++ after) e)
      | first :: rest =>
        let ls := slice (lines (state e)) 0 (cursorLine (state e)) ++ [before ++ first] ++ removelast rest
                  ++ [List.last rest [] ++ after] ++ sliceFrom (lines (state e)) (cursorLine (state e) + 1) in
        setCursorCol (len (List.last rest [])) (set_cursorLine (cursorLine (state e) + len rest) (set_lines ls e))
      end in
    changed e
  end.

Definition insertTextAtCursor (t : jstr) (e : Editor) : Editor :=
  match t with
  | [] => e
  | _ => insertTextAtCursorInternal t (exitHistoryBrowsing (set_lastAction None (pushUndoSnapshot e)))
  end.

(** Typing; the completion that may follow does not touch the text. *)
Definition insertCharacter (char : jstr) (e : Editor) : Editor :=
  let e := exitHistoryBrowsing e in
  let e := if isWhitespaceChar char || negb (bool_decide (lastAction e = Some act_type_word)) then pushUndoSnapshot e else e in
  let e := set_lastAction (Some act_type_word) e in
  let before := slice (currentLine e) 0 (col e) in
  let after := sliceFrom (currentLine e) (col e) in
  changed (setCursorCol (col e + len char) (edit_line (before ++ char ++ after) e)).

Definition cleanPaste (pastedText : jstr) : jstr :=
  List.filter (fun c => (c =? newline) || (32 <=? c))%N (normalizeText (transformPaste (decodePaste pastedText))).

Definition pasteMarkerFor (id : N) (content : jstr) : jstr :=
  let n := length (splitLines content) in
  if (10 <? n)%nat then js "[paste #" ++ decN id ++ js " +" ++ dec_Z (Z.of_nat n) ++ js " lines]"
  else js "[paste #" ++ decN id ++ js " " ++ dec_Z (len content) ++ js " chars]".

Definition handlePaste (pastedText : jstr) (e : Editor) : Editor :=
  let e := set_lastAction None (exitHistoryBrowsing e) in
  let filteredText := cleanPaste pastedText in
  if onPaste filteredText then e
  else
    let e := pushUndoSnapshot e in
    let charBeforeCursor := if (0 <? col e)%Z then currentLine e !! Z.to_nat (col e - 1) else None in
    let filteredText :=
      if isPathStart filteredText && match charBeforeCursor with Some c => isWordChar c | None => false end
      then 32%N :: filteredText else filteredText in
    if (10 <? length (splitLines filteredText))%nat || (1000 <? length filteredText)%nat then
      let e := set_pasteCounter (pasteCounter e + 1) e in
      let pasteId := Z.to_N (pasteCounter e) in
      let e := set_pastes (jset pasteId filteredText (pastes e)) e in
      insertTextAtCursorInternal (pasteMarkerFor pasteId filteredText) e
    else insertTextAtCursorInternal filteredText e.

Definition addNewLine (e : Editor) : Editor :=
  let e := pushUndoSnapshot (set_lastAction None (exitHistoryBrowsing e)) in
  let before := slice (currentLine e) 0 (col e) in
  let after := sliceFrom (currentLine e) (col e) in
  let e := edit_line before e in
  let e := set_lines (splice (cursorLine (state e) + 1) 0 [after] (lines (state e))) e in
  changed (setCursorCol 0 (set_cursorLine (cursorLine (state e) + 1) e)).

Definition submitValue (e : Editor) : Editor :=
  let snapshot := captureState e in
  let result := trim (getExpandedText e) in
  let e := set_pasteCounter 0 (set_pastes [] (set_state emptyState e)) in
  let e := set_scrollOffset 0 (exitHistoryBrowsing e) in
  let e := set_lastAction None (set_undoStack [] e) in
  log (ev_submit result snapshot) (log (ev_change []) e).

(** ** Deleting *)
(** The regular expression for a whole segment. *)
Definition markerOf (segment : jstr) : option Marker :=
  match matchMarker segment with
  | Some m => if (markerLength m =? length segment)%nat then Some m else None
  | None => None
  end.

(** The registry entries above [targetId] move down by one, in ascending order. *)
Definition shiftPastes (targetId : N) (pastes : jmap N jstr) : jmap N jstr :=
  let higherIds := sort_by N.leb (List.filter (fun id => targetId <? id)%N (jkeys pastes)) in
  fold_left (fun p id => jdel id (jset (id - 1)%N (default [] (jget id p)) p)) higherIds pastes.

(** The markers above it in the text are renumbered; a marker without a suffix
    gets the text of [undefined]. *)
Definition renumber (targetId : N) (line : jstr) : jstr :=
  replaceMarkers (fun m =>
    let x := decimal (idGroup m) in
    if (x <=? targetId)%N then None
    else Some (js "[paste #" ++ decN (x - 1) ++ default (js "undefined") (suffixGroup m) ++ js "]")) line.

Definition removePaste (targetId : N) (e : Editor) : Editor :=
  let e := set_pasteCounter (pasteCounter e - 1) (set_pastes (jdel targetId (pastes e)) e) in
  let e := set_pastes (shiftPastes targetId (pastes e)) e in
  set_lines (map (renumber targetId) (lines (state e))) e.

Definition mergeWithPrevious (e : Editor) : Editor :=
  let i := cursorLine (state e) in
  let previousLine := lineAt (lines (state e)) (i - 1) in
  let ls := setLine (i - 1) (previousLine ++ currentLine e) (lines (state e)) in
  let e := set_lines (splice i 1 [] ls) e in
  setCursorCol (len previousLine) (set_cursorLine (i - 1) e).

Definition mergeWithNext (e : Editor) : Editor :=
  let i := cursorLine (state e) in
  let nextLine := lineAt (lines (state e)) (i + 1) in
  let ls := setLine i (currentLine e ++ nextLine) (lines (state e)) in
  set_lines (splice (i + 1) 1 [] ls) e.

Definition handleBackspace (e : Editor) : Editor :=
  let e := set_lastAction None (exitHistoryBrowsing e) in
  let e :=
    if (0 <? col e)%Z then
      let e := pushUndoSnapshot e in
      let lastGrapheme := last (segmentGraphemes e (slice (currentLine e) 0 (col e))) in
      let graphemeLength := match lastGrapheme with Some g => len (segment g) | None => 1%Z end in
      let e :=
        match lastGrapheme with
        | Some g => match markerOf (segment g) with Some m => removePaste (decimal (idGroup m)) e | None => e end
        | None => e
        end in
      let before := slice (currentLine e) 0 (col e - graphemeLength) in
      let after := sliceFrom (currentLine e) (col e) in
      setCursorCol (col e - graphemeLength) (edit_line (before ++ after) e)
    else if (0 <? cursorLine (state e))%Z then mergeWithPrevious (pushUndoSnapshot e)
    else e in
  changed e.

Definition handleForwardDelete (e : Editor) : Editor :=
  let e := set_lastAction None (exitHistoryBrowsing e) in
  let e :=
    if (col e <? len (currentLine e))%Z then
      let e := pushUndoSnapshot e in
      let firstGrapheme := head (segmentGraphemes e (sliceFrom (currentLine e) (col e))) in
      let graphemeLength := match firstGrapheme with Some g => len (segment g) | None => 1%Z end in
      edit_line (slice (currentLine e) 0 (col e) ++ sliceFrom (currentLine e) (col e + graphemeLength)) e
    else if (cursorLine (state e) <? len (lines (state e)) - 1)%Z then mergeWithNext (pushUndoSnapshot e)
    else e in
  changed e.

(** A kill: the text goes to the ring, joined to the kill just before. *)
Definition kill (deletedText : jstr) (prepend wasKill : bool) (e : Editor) : Editor :=
  set_lastAction (Some act_kill) (set_killRing (push deletedText prepend wasKill (killRing e)) e).
Definition wasKill (e : Editor) : bool := bool_decide (lastAction e = Some act_kill).

Definition killPreviousNewline (e : Editor) : Editor :=
  let e := pushUndoSnapshot e in mergeWithPrevious (kill [newline] true (wasKill e) e).
Definition killNextNewline (e : Editor) : Editor :=
  let e := pushUndoSnapshot e in mergeWithNext (kill [newline] false (wasKill e) e).

Definition deleteToStartOfLine (e : Editor) : Editor :=
  let e := exitHistoryBrowsing e in
  let e :=
    if (0 <? col e)%Z then
      let e := pushUndoSnapshot e in
      let line := currentLine e in
      let e := kill (slice line 0 (col e)) true (wasKill e) e in
      setCursorCol 0 (edit_line (sliceFrom line (col e)) e)
    else if (0 <? cursorLine (state e))%Z then killPreviousNewline e
    else e in
  changed e.

Definition deleteToEndOfLine (e : Editor) : Editor :=
  let e := exitHistoryBrowsing e in
  let e :=
    if (col e <? len (currentLine e))%Z then
      let e := pushUndoSnapshot e in
      let line := currentLine e in
      let e := kill (sliceFrom line (col e)) false (wasKill e) e in
      edit_line (slice line 0 (col e)) e
    else if (cursorLine (state e) <? len (lines (state e)) - 1)%Z then killNextNewline e
    else e in
  changed e.

(** ** Moving by words *)
Definition moveWordBackwards (e : Editor) : Editor :=
  let e := set_lastAction None e in
  if (col e =? 0)%Z then
    if (0 <? cursorLine (state e))%Z then
      let e := set_cursorLine (cursorLine (state e) - 1) e in setCursorCol (len (currentLine e)) e
    else e
  else setCursorCol (findWordBackward (segmentWords e) isPasteMarker (currentLine e) (col e)) e.

Definition moveWordForwards (e : Editor) : Editor :=
  let e := set_lastAction None e in
  if (len (currentLine e) <=? col e)%Z then
    if (cursorLine (state e) <? len (lines (state e)) - 1)%Z then
      setCursorCol 0 (set_cursorLine (cursorLine (state e) + 1) e)
    else e
  else setCursorCol (findWordForward (segmentWords e) isPasteMarker (currentLine e) (col e)) e.

Definition deleteWordBackwards (e : Editor) : Editor :=
  let e := exitHistoryBrowsing e in
  let e :=
    if (col e =? 0)%Z then if (0 <? cursorLine (state e))%Z then killPreviousNewline e else e
    else
      let e := pushUndoSnapshot e in
      let line := currentLine e in
      let was := wasKill e in
      let oldCursorCol := col e in
      let e := moveWordBackwards e in
      let deleteFrom := col e in
      let e := setCursorCol oldCursorCol e in
      let e := kill (slice line deleteFrom (col e)) true was e in
      setCursorCol deleteFrom (edit_line (slice line 0 deleteFrom ++ sliceFrom line (col e)) e) in
  changed e.

Definition deleteWordForward (e : Editor) : Editor :=
  let e := exitHistoryBrowsing e in
  let e :=
    if (len (currentLine e) <=? col e)%Z then
      if (cursorLine (state e) <? len (lines (state e)) - 1)%Z then killNextNewline e else e
    else
      let e := pushUndoSnapshot e in
      let line := currentLine e in
      let was := wasKill e in
      let oldCursorCol := col e in
      let e := moveWordForwards e in
      let deleteTo := col e in
      let e := setCursorCol oldCursorCol e in
      let e := kill (slice line (col e) deleteTo) false was e in
      edit_line (slice line 0 (col e) ++ sliceFrom line deleteTo) e in
  changed e.

(** ** Yanking *)
Definition insertYankedText (t : jstr) (e : Editor) : Editor :=
  let e := exitHistoryBrowsing e in
  let before := slice (currentLine e) 0 (col e) in
  let after := sliceFrom (currentLine e) (col e) in
  let e :=
    match splitLines t with
    | [] | [_] => setCursorCol (col e + len t) (edit_line (before ++ t ++ after) e)
    | first :: rest =>
      let i := cursorLine (state e) in
      let ls := setLine i (before ++ first) (lines (state e)) in
      let ls := fold_left (fun ls '(k, l) => splice (i + Z.of_nat k) 0 [l] ls) (zip (seq 1 (length rest - 1)) (removelast rest)) ls in
      let lastLineIndex := (i + len rest)%Z in
      let ls := splice lastLineIndex 0 [List.last rest [] ++ after] ls in
      setCursorCol (len (List.last rest [])) (set_cursorLine lastLineIndex (set_lines ls e))
    end in
  changed e.

Definition deleteYankedText (e : Editor) : Editor :=
  match peek (killRing e) with
  | None | Some [] => e
  | Some yankedText =>
    let e :=
      match splitLines yankedText with
      | [] | [_] =>
        let line := currentLine e in
        let n := len yankedText in
        setCursorCol (col e - n) (edit_line (slice line 0 (col e - n) ++ sliceFrom line (col e)) e)
      | first :: rest =>
        let startLine := (cursorLine (state e) - len rest)%Z in
        let startCol := (len (lineAt (lines (state e)) startLine) - len first)%Z in
        let afterCursor := sliceFrom (currentLine e) (col e) in
        let beforeYank := slice (lineAt (lines (state e)) startLine) 0 startCol in
        let ls := splice startLine (1 + len rest) [beforeYank ++ afterCursor] (lines (state e)) in
        setCursorCol startCol (set_cursorLine startLine (set_lines ls e))
      end in
    changed e
  end.

Definition yank (e : Editor) : Editor :=
  match peek (killRing e) with
  | None => e
  | Some t => set_lastAction (Some act_yank) (insertYankedText t (pushUndoSnapshot e))
  end.

Definition yankPop (e : Editor) : Editor :=
  if negb (bool_decide (lastAction e = Some act_yank)) || (length (killRing e) <=? 1)%nat then e
  else
    let e := deleteYankedText (pushUndoSnapshot e) in
    let e := set_killRing (rotate (killRing e)) e in
    set_lastAction (Some act_yank) (insertYankedText (default [] (peek (killRing e))) e).

(** ** History *)
Definition addToHistory (t : jstr) (e : Editor) : Editor :=
  match trim t with
  | [] => e
  | trimmed =>
    if bool_decide (head (history e) = Some trimmed) then e
    else set_history (take 100 (trimmed :: history e)) e
  end.

(** [newer] is direction 1, otherwise -1. *)
Definition navigateHistory (newer : bool) (e : Editor) : Editor :=
  let e := set_lastAction None e in
  let newIndex := if newer then (historyIndex e - 1)%Z else (historyIndex e + 1)%Z in
  if (length (history e) =? 0)%nat || (newIndex <? -1)%Z || (len (history e) <=? newIndex)%Z then e
  else
    let e := if (historyIndex e =? -1)%Z && (0 <=? newIndex)%Z
             then set_historyDraft (Some (state e)) (pushUndoSnapshot e) else e in
    let e := set_historyIndex newIndex e in
    if (newIndex =? -1)%Z then
      match historyDraft e with
      | Some draft =>
        let e := set_state draft (set_historyDraft None e) in
        changed (set_scrollOffset 0 (set_snappedFromCursorCol None (set_preferredVisualCol None e)))
      | None => setTextInternal [] false (set_historyDraft None e)
      end
    else setTextInternal (lineAt (history e) newIndex) (negb newer) e.

(** ** Jumping to a character *)
(** [s.lastIndexOf(sub, from)], a negative [from] being 0. *)
Fixpoint lastIndexOf_go (s sub : jstr) (i : nat) : option nat :=
  if startsWith (drop i s) sub then Some i else match i with O => None | S i' => lastIndexOf_go s sub i' end.
Definition lastIndexOf (s sub : jstr) (from : Z) : option nat :=
  if (length s <? length sub)%nat then None
  else lastIndexOf_go s sub (Nat.min (Z.to_nat from) (length s - length sub)).
(** [s.indexOf(sub, from)]. *)
Definition indexOfFrom (s sub : jstr) (from : Z) : option nat :=
  let k := Nat.min (Z.to_nat from) (length s) in (fun i => (k + i)%nat) <$> indexOf (drop k s) sub.

Fixpoint jump_loop (char : jstr) (dir : Direction) (fuel : nat) (lineIdx : Z) (e : Editor) : Editor :=
  match fuel with
  | O => e
  | S f =>
    if match dir with forward => (len (lines (state e)) <=? lineIdx)%Z | backward => (lineIdx <? 0)%Z end then e
    else
      let line := lineAt (lines (state e)) lineIdx in
      let isCurrentLine := (lineIdx =? cursorLine (state e))%Z in
      let idx :=
        match dir with
        | forward => indexOfFrom line char (if isCurrentLine then col e + 1 else 0)%Z
        | backward => lastIndexOf line char (if isCurrentLine then col e - 1 else len line)%Z
        end in
      match idx with
      | Some i => setCursorCol (Z.of_nat i) (set_cursorLine lineIdx e)
      | None => jump_loop char dir f (match dir with forward => lineIdx + 1 | backward => lineIdx - 1 end)%Z e
      end
  end.
Definition jumpToChar (char : jstr) (dir : Direction) (e : Editor) : Editor :=
  let e := set_lastAction None e in
  jump_loop char dir (S (length (lines (state e)))) (cursorLine (state e)) e.

(** ** Moving by visual lines *)
Record VisualLine := { logicalLine : Z; startCol : Z; vlLength : Z }.

Fixpoint visualLines_go (segment_ : jstr -> list SegmentData) (width : Z) (i : Z) (ls : list jstr) :
    option (list VisualLine) :=
  match ls with
  | [] => Some []
  | line :: rest =>
    own ← (match line with
           | [] => Some [{| logicalLine := i; startCol := 0; vlLength := 0 |}]
           | _ =>
             if (visibleWidth line <=? width)%Z
             then Some [{| logicalLine := i; startCol := 0; vlLength := len line |}]
             else
               chunks ← wordWrapLine stack line width (Some (segment_ line));
               Some (map (fun c => {| logicalLine := i; startCol := Z.of_nat (startIndex c);
                                      vlLength := Z.of_nat (endIndex c) - Z.of_nat (startIndex c) |}) chunks)
           end);
    others ← visualLines_go segment_ width (i + 1) rest;
    Some (own ++ others)
  end.
Definition buildVisualLineMap (e : Editor) : option (list VisualLine) :=
  visualLines_go (segmentGraphemes e) (lastWidth e) 0 (lines (state e)).

Definition isLastSegment (vls : list VisualLine) (i : nat) (line : Z) : bool :=
  match vls !! S i with Some next => negb (logicalLine next =? line)%Z | None => true end.

Fixpoint findVisualLine_go (vls rest : list VisualLine) (i : nat) (line c : Z) : nat :=
  match rest with
  | [] => (length vls - 1)%nat
  | vl :: rest' =>
    let offset := (c - startCol vl)%Z in
    if (logicalLine vl =? line)%Z
       && ((0 <=? offset)%Z && ((offset <? vlLength vl)%Z
                                || (isLastSegment vls i (logicalLine vl) && (offset =? vlLength vl)%Z)))
    then i
    else findVisualLine_go vls rest' (S i) line c
  end.
Definition findVisualLineAt (vls : list VisualLine) (line c : Z) : nat := findVisualLine_go vls vls 0 line c.
Definition findCurrentVisualLine (vls : list VisualLine) (e : Editor) : nat :=
  findVisualLineAt vls (cursorLine (state e)) (col e).

(** The sticky column: the column to move to, and the preferred one after. *)
Definition computeVerticalMoveColumn (preferred : option Z) (currentVisualCol sourceMax targetMax : Z) : Z * option Z :=
  let cursorInMiddle := (currentVisualCol <? sourceMax)%Z in
  let targetTooShort := (targetMax <? currentVisualCol)%Z in
  match preferred, cursorInMiddle with
  | Some p, false =>
    if targetTooShort || (targetMax <? p)%Z then (targetMax, preferred) else (p, None)
  | _, _ => if targetTooShort then (targetMax, Some currentVisualCol) else (currentVisualCol, None)
  end.

(** The first longer segment that holds the column, if any. *)
Fixpoint segmentAround (segs : list SegmentData) (c : Z) : option SegmentData :=
  match segs with
  | [] => None
  | seg :: rest =>
    if (c <? Z.of_nat (index seg))%Z then None
    else if (length (segment seg) <=? 1)%nat then segmentAround rest c
    else if (c <? Z.of_nat (index seg) + len (segment seg))%Z then Some seg
    else segmentAround rest c
  end.

(** The first visual line from [next] on that is past the segment. *)
Fixpoint skipContinuation (fuel : nat) (vls : list VisualLine) (line segEnd : Z) (next : nat) : nat :=
  match fuel with
  | O => next
  | S f =>
    match vls !! next with
    | Some vl =>
      if (logicalLine vl =? line)%Z && (startCol vl <? segEnd)%Z then skipContinuation f vls line segEnd (S next) else next
    | None => next
    end
  end.

Fixpoint moveToVisualLine (fuel : nat) (vls : list VisualLine) (current target : nat) (e : Editor) : Editor :=
  match fuel with
  | O => e
  | S f =>
    match vls !! current, vls !! target with
    | Some currentVL, Some targetVL =>
      let currentVisualCol :=
        match snappedFromCursorCol e with
        | Some snapped =>
          let vlIndex := findVisualLineAt vls (logicalLine currentVL) snapped in
          (snapped - match vls !! vlIndex with Some vl => startCol vl | None => 0 end)%Z
        | None => (col e - startCol currentVL)%Z
        end in
      let maxCol i vl := if isLastSegment vls i (logicalLine vl) then vlLength vl else Z.max 0 (vlLength vl - 1) in
      let '(moveToVisualCol, preferred) :=
        computeVerticalMoveColumn (preferredVisualCol e) currentVisualCol (maxCol current currentVL) (maxCol target targetVL) in
      let e := set_preferredVisualCol preferred e in
      let e := set_cursorLine (logicalLine targetVL) e in
      let e := move_col (Z.min (startCol targetVL + moveToVisualCol) (len (currentLine e))) e in
      match segmentAround (segmentGraphemes e (currentLine e)) (col e) with
      | Some seg =>
        let segEnd := (Z.of_nat (index seg) + len (segment seg))%Z in
        let next := skipContinuation (length vls) vls (logicalLine targetVL) segEnd (S target) in
        if (Z.of_nat (index seg) <? startCol targetVL)%Z && (current <? target)%nat && (next <? length vls)%nat
        then moveToVisualLine f vls current next e
        else move_col (Z.of_nat (index seg)) (set_snappedFromCursorCol (Some (col e)) e)
      | None => set_snappedFromCursorCol None e
      end
    | _, _ => e
    end
  end.
Definition moveTo (vls : list VisualLine) (current target : nat) (e : Editor) : Editor :=
  moveToVisualLine (S (length vls)) vls current target e.

Definition moveVertically (deltaLine : Z) (e : Editor) : option Editor :=
  let e := set_lastAction None e in
  vls ← buildVisualLineMap e;
  let current := findCurrentVisualLine vls e in
  let target := (Z.of_nat current + deltaLine)%Z in
  Some (if (0 <=? target)%Z && (target <? len vls)%Z then moveTo vls current (Z.to_nat target) e else e).

Definition moveRight (e : Editor) : option Editor :=
  let e := set_lastAction None e in
  vls ← buildVisualLineMap e;
  let line := currentLine e in
  Some (
    if (col e <? len line)%Z then
      let firstGrapheme := head (segmentGraphemes e (sliceFrom line (col e))) in
      setCursorCol (col e + match firstGrapheme with Some g => len (segment g) | None => 1 end)%Z e
    else if (cursorLine (state e) <? len (lines (state e)) - 1)%Z then
      setCursorCol 0 (set_cursorLine (cursorLine (state e) + 1) e)
    else
      match vls !! findCurrentVisualLine vls e with
      | Some vl => set_preferredVisualCol (Some (col e - startCol vl)%Z) e
      | None => e
      end).

Definition moveLeft (e : Editor) : option Editor :=
  let e := set_lastAction None e in
  _ ← buildVisualLineMap e;
  Some (
    if (0 <? col e)%Z then
      let lastGrapheme := last (segmentGraphemes e (slice (currentLine e) 0 (col e))) in
      setCursorCol (col e - match lastGrapheme with Some g => len (segment g) | None => 1 end)%Z e
    else if (0 <? cursorLine (state e))%Z then
      let e := set_cursorLine (cursorLine (state e) - 1) e in setCursorCol (len (currentLine e)) e
    else e).

Definition pageScroll (down : bool) (e : Editor) : option Editor :=
  let e := set_lastAction None e in
  let pageSize := Z.max 5 (terminalRows * 3 / 10) in
  vls ← buildVisualLineMap e;
  let current := findCurrentVisualLine vls e in
  let target := Z.max 0 (Z.min (len vls - 1) (Z.of_nat current + if down then pageSize else - pageSize)) in
  Some (moveTo vls current (Z.to_nat target) e).

Definition moveToLineStart (e : Editor) : Editor := setCursorCol 0 (set_lastAction None e).
Definition moveToLineEnd (e : Editor) : Editor := setCursorCol (len (currentLine e)) (set_lastAction None e).

Definition isEditorEmpty (e : Editor) : bool := bool_decide (lines (state e) = [[]]).

(** The arrow keys. *)
Definition cursorUp (e : Editor) : option Editor :=
  vls ← buildVisualLineMap e;
  let first := (findCurrentVisualLine vls e =? 0)%nat in
  if first && (isEditorEmpty e || (-1 <? historyIndex e)%Z || (col e =? 0)%Z) then Some (navigateHistory false e)
  else if first then Some (moveToLineStart e)
  else moveVertically (-1) e.
Definition cursorDown (e : Editor) : option Editor :=
  vls ← buildVisualLineMap e;
  let last := (Z.of_nat (findCurrentVisualLine vls e) =? len vls - 1)%Z in
  if (-1 <? historyIndex e)%Z && last then Some (navigateHistory true e)
  else if last then Some (moveToLineEnd e)
  else moveVertically 1 e.

(** Enter: behind a backslash a new line, otherwise submission. *)
Definition enter (disableSubmit : bool) (e : Editor) : Editor :=
  if disableSubmit then e
  else if (0 <? col e)%Z && bool_decide (currentLine e !! Z.to_nat (col e - 1) = Some 92%N)
  then addNewLine (handleBackspace e)
  else submitValue e.

(** ** Actions *)
Inductive Action :=
| insert (char : jstr) | paste (content : jstr) | newLine | submitKey (disableSubmit : bool) | undoKey
| deleteCharBackward | deleteCharForward | deleteToLineStart | deleteToLineEnd | deleteWordBackward | deleteWordForwardKey
| yankKey | yankPopKey | historyPrevious | historyNext
| cursorLineStart | cursorLineEnd | cursorWordLeft | cursorWordRight
| cursorUpKey | cursorDownKey | cursorLeft | cursorRight | pageUp | pageDown
| jumpForward | jumpBackward | jump (char : jstr) | jumpCancel.

Definition perform (a : Action) (e : Editor) : option Editor :=
  match a with
  | insert c => Some (insertCharacter c e)
  | paste c => Some (if truthy c then handlePaste c e else e)
  | newLine => Some (addNewLine e)
  | submitKey d => Some (enter d e)
  | undoKey => Some (undo e)
  | deleteCharBackward => Some (handleBackspace e)
  | deleteCharForward => Some (handleForwardDelete e)
  | deleteToLineStart => Some (deleteToStartOfLine e)
  | deleteToLineEnd => Some (deleteToEndOfLine e)
  | deleteWordBackward => Some (deleteWordBackwards e)
  | deleteWordForwardKey => Some (deleteWordForward e)
  | yankKey => Some (yank e)
  | yankPopKey => Some (yankPop e)
  | historyPrevious => Some (navigateHistory false e)
  | historyNext => Some (navigateHistory true e)
  | cursorLineStart => Some (moveToLineStart e)
  | cursorLineEnd => Some (moveToLineEnd e)
  | cursorWordLeft => Some (moveWordBackwards e)
  | cursorWordRight => Some (moveWordForwards e)
  | cursorUpKey => cursorUp e
  | cursorDownKey => cursorDown e
  | cursorLeft => moveLeft e
  | cursorRight => moveRight e
  | pageUp => pageScroll false e
  | pageDown => pageScroll true e
  | jumpForward => Some (set_jumpMode (Some forward) e)
  | jumpBackward => Some (set_jumpMode (Some backward) e)
  | jump c =>
    Some (match jumpMode e with Some d => jumpToChar c d (set_jumpMode None e) | None => e end)
  | jumpCancel => Some (set_jumpMode None e)
  end.

Fixpoint performs (acts : list Action) (e : Editor) : option Editor :=
  match acts with [] => Some e | a :: rest => e' ← perform a e; performs rest e' end.

Definition initial (h : X) : Editor := {|
  state := emptyState; lastWidth := 80; scrollOffset := 0; pastes := []; pasteCounter := 0; history := [];
  historyIndex := -1; historyDraft := None; killRing := []; lastAction := None; jumpMode := None;
  preferredVisualCol := None; snappedFromCursorCol := None; undoStack := []; events := []; host := h |}.
End Editor.
