(* ===== verification/TuiZipper.v ===== *)
(** * Terminal UI: the editor's text around the cursor

    An editor state whose cursor is within its text is a zipper: the lines
    above, the two parts of the cursor's line, the lines below.  On zippers the
    array and slice operations of the editor become list operations, and the
    text is what is before the cursor and what is after it. *)
From S2P Require Import Prelude RgFingerprint Utf8 TuiText TuiWrap TuiEditor.

Record Zipper := { above : list jstr; left_ : jstr; right_ : jstr; below : list jstr }.

Definition toState (z : Zipper) : EditorState := {|
  lines := above z ++ (left_ z ++ right_ z) :: below z; cursorLine := len (above z); cursorCol := len (left_ z) |}.

(** The text before the cursor and after it. *)
Definition textBefore (z : Zipper) : jstr := concat (map (fun l => l ++ [newline]) (above z)) ++ left_ z.
Definition textAfter (z : Zipper) : jstr := right_ z ++ concat (map (fun l => newline :: l) (below z)).

(** ** Arrays *)
Lemma len_app {A} (l1 l2 : list A) : len (l1 ++ l2) = (len l1 + len l2)%Z.
Proof. unfold len. rewrite length_app. lia. Qed.
Lemma len_nonneg {A} (l : list A) : (0 <= len l)%Z.
Proof. unfold len. lia. Qed.
Lemma len_cons {A} (x : A) l : len (x :: l) = (1 + len l)%Z.
Proof. unfold len. cbn [length]. lia. Qed.
Lemma len_nat {A} (l : list A) : Z.to_nat (len l) = length l.
Proof. unfold len. lia. Qed.

Lemma slice_left {A} (a b : list A) : slice (a ++ b) 0 (len a) = a.
Proof. rewrite slice_prefix, len_nat by apply len_nonneg. apply take_app_length. Qed.
Lemma sliceFrom_right {A} (a b : list A) : sliceFrom (a ++ b) (len a) = b.
Proof. rewrite sliceFrom_drop, len_nat by apply len_nonneg. apply drop_app_length. Qed.

Lemma lineAt_at a l b : lineAt (a ++ l :: b) (len a) = l.
Proof. unfold lineAt. destruct (Z.ltb_spec (len a) 0); [unfold len in *; lia|]. by rewrite len_nat, list_lookup_middle. Qed.
Lemma lineAt_next a l m b : lineAt (a ++ l :: m :: b) (len a + 1) = m.
Proof.
  replace (a ++ l :: m :: b) with ((a ++ [l]) ++ m :: b) by (by rewrite <- (assoc_L (++))).
  replace (len a + 1)%Z with (len (a ++ [l])) by (rewrite len_app; done). apply lineAt_at.
Qed.

Lemma setLine_at a l b v : setLine (len a) v (a ++ l :: b) = a ++ v :: b.
Proof.
  unfold setLine. destruct (Z.ltb_spec (len a) 0); [unfold len in *; lia|].
  rewrite (proj2 (Z.ltb_lt _ _)) by (rewrite len_app, len_cons; pose proof (len_nonneg b); lia).
  rewrite len_nat, insert_app_r_alt, Nat.sub_diag by done. done.
Qed.

Lemma toIndex_len {A} (a b : list A) : toIndex (length (a ++ b)) (len a) = length a.
Proof. rewrite toIndex_nonneg by apply len_nonneg. rewrite len_nat, length_app. lia. Qed.

Lemma splice_at a del items b n : len del = n -> splice (len a) n items (a ++ del ++ b) = a ++ items ++ b.
Proof.
  intros <-. unfold splice. rewrite toIndex_len, take_app_length, len_nat.
  by rewrite <- length_app, (assoc_L (++) a del b), drop_app_length.
Qed.

Lemma splice_insert a x b : splice (len a) 0 [x] (a ++ b) = a ++ x :: b.
Proof. exact (splice_at a [] [x] b 0 eq_refl). Qed.
Lemma splice_delete_next a x y b : splice (len a + 1) 1 [] (a ++ x :: y :: b) = a ++ x :: b.
Proof.
  pose proof (splice_at (a ++ [x]) [y] [] b 1 eq_refl) as E. rewrite len_app, <- !(assoc_L (++)) in E. exact E.
Qed.
Lemma splice_insert_next a x y b : splice (len a + 1) 0 [y] (a ++ x :: b) = a ++ x :: y :: b.
Proof.
  pose proof (splice_at (a ++ [x]) [] [y] b 0 eq_refl) as E. rewrite len_app, <- !(assoc_L (++)) in E. exact E.
Qed.

Lemma snoc_cases {A} (l : list A) : l = [] \/ exists a x, l = a ++ [x].
Proof. induction l as [|x a _] using rev_ind; [by left|right; eauto]. Qed.

(** ** Splitting and joining *)
Definition noNewline (s : jstr) : Prop := newline ∉ s.

Lemma splitLines_noNewline s : Forall noNewline (splitLines s).
Proof.
  induction s as [|c s IH]; cbn [splitLines]; [constructor; [by intros ?%elem_of_nil|constructor]|].
  destruct (N.eqb_spec c newline) as [|Hc]; [constructor; [by intros ?%elem_of_nil|done]|].
  destruct (splitLines s) as [|l ls].
  - constructor; [|constructor]. intros E%list_elem_of_singleton. congruence.
  - apply Forall_cons in IH as [Hl Hls]. constructor; [|done]. intros [E|Hin]%elem_of_cons; [congruence|by apply Hl].
Qed.

Lemma splitLines_nonempty s : splitLines s <> [].
Proof. induction s as [|c s IH]; cbn; [done|]. destruct (c =? newline)%N; [done|]. by destruct (splitLines s). Qed.

Lemma join_more (sep l : jstr) ls : ls <> [] -> join sep (l :: ls) = l ++ sep ++ join sep ls.
Proof. by destruct ls. Qed.

Lemma join_splitLines s : join [newline] (splitLines s) = s.
Proof.
  induction s as [|c s IH]; cbn [splitLines]; [done|]. destruct (N.eqb_spec c newline) as [->|].
  - rewrite join_more by apply splitLines_nonempty. by rewrite IH.
  - destruct (splitLines s) as [|l ls] eqn:E; [by apply splitLines_nonempty in E|].
    destruct ls as [|l2 ls]; cbn [join] in *; [by rewrite IH|]. by rewrite <- IH.
Qed.

Lemma splitLines_plain s : noNewline s -> splitLines s = [s].
Proof.
  induction s as [|c s IH]; intros H; cbn [splitLines]; [done|].
  destruct (N.eqb_spec c newline) as [->|]; [by destruct H; left|]. rewrite IH; [done|].
  intros Hs. apply H. by right.
Qed.

Lemma splitLines_line l s : noNewline l -> splitLines (l ++ newline :: s) = l :: splitLines s.
Proof.
  induction l as [|c l IH]; intros H; cbn [app splitLines]; [done|].
  destruct (N.eqb_spec c newline) as [->|]; [by destruct H; left|]. rewrite IH; [done|].
  intros Hs. apply H. by right.
Qed.

Lemma splitLines_join ls : ls <> [] -> Forall noNewline ls -> splitLines (join [newline] ls) = ls.
Proof.
  induction ls as [|l ls IH]; intros Hne Hf; [done|]. apply Forall_cons in Hf as [Hl Hf].
  destruct ls as [|l2 ls]; [by apply splitLines_plain|]. rewrite join_more by done. cbn [app].
  by rewrite splitLines_line, IH.
Qed.

(** The text is what is before the cursor and what is after. *)
Lemma join_zipper a l b :
  join [newline] (a ++ l :: b) = concat (map (fun l => l ++ [newline]) a) ++ l ++ concat (map (fun l => newline :: l) b).
Proof.
  induction a as [|x a IH]; cbn [app map concat].
  - revert l. induction b as [|y b IH]; intros l; cbn [map concat]; [by rewrite app_nil_r|].
    rewrite join_more by done. by rewrite IH.
  - rewrite join_more by (by destruct a). rewrite IH, <- !(assoc_L (++)). done.
Qed.

Lemma getText_zipper z : getText (toState z) = textBefore z ++ textAfter z.
Proof. unfold getText, toState, textBefore, textAfter. cbn [lines]. rewrite join_zipper, <- !(assoc_L (++)). done. Qed.

Lemma cursorOffset_zipper z : cursorOffset (toState z) = len (textBefore z).
Proof.
  unfold cursorOffset, toState, textBefore. cbn [lines cursorLine cursorCol]. rewrite slice_left, len_app. f_equal.
  induction (above z) as [|l a IH]; cbn [foldr map concat]; [done|].
  rewrite len_app, len_app, <- IH. unfold len. cbn [length]. lia.
Qed.

(** The zipper at a place of a text. *)
Definition zipAt (before after : jstr) : Zipper :=
  let ls := splitLines before in let rs := splitLines after in
  {| above := removelast ls; left_ := List.last ls []; right_ := default [] (head rs); below := tail rs |}.

Lemma splitLines_app s t :
  splitLines (s ++ t) = removelast (splitLines s)
    ++ (List.last (splitLines s) [] ++ default [] (head (splitLines t))) :: tail (splitLines t).
Proof.
  induction s as [|c s IH]; cbn [app splitLines].
  - cbn. pose proof (splitLines_nonempty t). by destruct (splitLines t).
  - pose proof (splitLines_nonempty s) as Hs. destruct (N.eqb_spec c newline).
    + rewrite IH. by destruct (splitLines s).
    + rewrite IH. destruct (splitLines s) as [|l [|l2 ls]]; [done|..]; done.
Qed.

Lemma zipAt_state before after : lines (toState (zipAt before after)) = splitLines (before ++ after).
Proof. by rewrite splitLines_app. Qed.

Lemma textBefore_zipAt before after : textBefore (zipAt before after) = before.
Proof.
  unfold textBefore, zipAt. cbn [above left_]. rewrite <- (join_splitLines before) at 3.
  pose proof (splitLines_nonempty before) as Hne. destruct (splitLines before) as [|l ls]; [done|].
  rewrite (app_removelast_last [] Hne) at 3. rewrite join_zipper. cbn [map concat]. by rewrite app_nil_r.
Qed.
Lemma textAfter_zipAt before after : textAfter (zipAt before after) = after.
Proof.
  unfold textAfter, zipAt. cbn [right_ below]. rewrite <- (join_splitLines after) at 3.
  pose proof (splitLines_nonempty after) as Hne. destruct (splitLines after) as [|l ls]; [done|].
  symmetry. exact (join_zipper [] l ls).
Qed.

(** ** The editor's text as a gap buffer *)
Record okZipper (z : Zipper) : Prop := {
  ok_above : Forall noNewline (above z);
  ok_left : noNewline (left_ z);
  ok_right : noNewline (right_ z);
  ok_below : Forall noNewline (below z);
}.

(** The state with the cursor between [before] and [after]. *)
Definition stateAt (before after : jstr) : EditorState := toState (zipAt before after).

Lemma noNewline_app s t : noNewline (s ++ t) <-> noNewline s /\ noNewline t.
Proof. unfold noNewline. rewrite elem_of_app. tauto. Qed.

Lemma zipAt_ok before after : okZipper (zipAt before after).
Proof.
  pose proof (splitLines_noNewline before) as Hb. pose proof (splitLines_noNewline after) as Ha.
  pose proof (splitLines_nonempty before) as Hbn. pose proof (splitLines_nonempty after) as Han.
  rewrite (app_removelast_last [] Hbn) in Hb. apply Forall_app in Hb as [Hb1 Hb2]. apply Forall_inv in Hb2.
  destruct (splitLines after) as [|r rs] eqn:E; [done|]. apply Forall_cons in Ha as [Ha1 Ha2].
  split; unfold zipAt; cbn [above left_ right_ below]; rewrite ?E; done.
Qed.

Lemma splitLines_before a l : Forall noNewline a -> noNewline l ->
  splitLines (concat (map (fun l => l ++ [newline]) a) ++ l) = a ++ [l].
Proof.
  intros Ha Hl. induction Ha as [|x a Hx Ha IH]; cbn [map concat app]; [by apply splitLines_plain|].
  rewrite <- !(assoc_L (++)). cbn [app]. by rewrite splitLines_line, IH.
Qed.

Lemma splitLines_after l b : Forall noNewline b -> noNewline l ->
  splitLines (l ++ concat (map (fun l => newline :: l) b)) = l :: b.
Proof.
  intros Hb. revert l. induction Hb as [|x b Hx Hb IH]; intros l Hl; cbn [map concat]; [rewrite app_nil_r; by apply splitLines_plain|].
  cbn [app]. by rewrite splitLines_line, IH.
Qed.

Lemma zipAt_text z : okZipper z -> zipAt (textBefore z) (textAfter z) = z.
Proof.
  intros [H1 H2 H3 H4]. unfold zipAt, textBefore, textAfter. rewrite splitLines_before, splitLines_after by done.
  rewrite removelast_last, last_last. by destruct z.
Qed.

(** The state of an editor whose cursor is in its text, by its zipper. *)
Lemma toState_at z : okZipper z -> toState z = stateAt (textBefore z) (textAfter z).
Proof. intros Hz. unfold stateAt. by rewrite zipAt_text. Qed.

Lemma getText_at before after : getText (stateAt before after) = before ++ after.
Proof. unfold stateAt. by rewrite getText_zipper, textBefore_zipAt, textAfter_zipAt. Qed.

Lemma cursorOffset_at before after : cursorOffset (stateAt before after) = len before.
Proof. unfold stateAt. by rewrite cursorOffset_zipper, textBefore_zipAt. Qed.

Lemma stateAt_inj b1 a1 b2 a2 : stateAt b1 a1 = stateAt b2 a2 -> b1 = b2 /\ a1 = a2.
Proof.
  intros E. assert (Hl : length b1 = length b2).
  { apply (f_equal cursorOffset) in E. rewrite !cursorOffset_at in E. unfold len in E. lia. }
  apply (f_equal getText) in E. rewrite !getText_at in E. by apply app_inj_1.
Qed.

(** Every split of the text is a place for the cursor. *)
Lemma okState_iff s : (exists before after, s = stateAt before after) <-> exists z, okZipper z /\ s = toState z.
Proof.
  split; [intros (b & a & ->); eexists; split; [apply zipAt_ok|done]|].
  intros (z & Hz & ->). eexists _, _. by apply toState_at.
Qed.

(** The line of the cursor is [left ++ right]; lines behind and above. *)
Lemma textBefore_cons l z : textBefore {| above := above z ++ [l]; left_ := left_ z; right_ := right_ z; below := below z |}
  = concat (map (fun l => l ++ [newline]) (above z)) ++ l ++ [newline] ++ left_ z.
Proof. unfold textBefore. cbn [above left_]. rewrite map_app, concat_app. cbn. rewrite app_nil_r, <- !(assoc_L (++)). done. Qed.

(** Inserting lines. *)
Definition insertLines (z : Zipper) (t : jstr) : Zipper :=
  match splitLines t with
  | [] | [_] => {| above := above z; left_ := left_ z ++ t; right_ := right_ z; below := below z |}
  | first :: rest =>
    {| above := above z ++ (left_ z ++ first) :: removelast rest; left_ := List.last rest []; right_ := right_ z;
       below := below z |}
  end.

Lemma insertLines_text z t : textBefore (insertLines z t) = textBefore z ++ t /\ textAfter (insertLines z t) = textAfter z.
Proof.
  unfold insertLines. pose proof (join_splitLines t) as Hj. destruct (splitLines t) as [|first [|l2 rest]] eqn:E.
  - by apply splitLines_nonempty in E.
  - split; [|done]. unfold textBefore. cbn [above left_]. by rewrite (assoc_L (++)).
  - split; [|done]. unfold textBefore. cbn [above left_]. set (rs := l2 :: rest) in *.
    assert (Hrs : rs <> []) by done. rewrite <- Hj. rewrite join_more by done.
    rewrite (app_removelast_last [] Hrs) at 3. rewrite join_zipper. cbn [map concat].
    rewrite map_app, concat_app, app_nil_r, <- !(assoc_L (++)). cbn [map concat]. rewrite <- !(assoc_L (++)). done.
Qed.

Lemma insertLines_ok z t : okZipper z -> okZipper (insertLines z t).
Proof.
  intros [H1 H2 H3 H4]. unfold insertLines. pose proof (splitLines_noNewline t) as Hf. pose proof (join_splitLines t) as Hj.
  destruct (splitLines t) as [|first [|l2 rest]] eqn:E; [by apply splitLines_nonempty in E|..]; split; cbn [above left_ right_ below]; try done.
  - cbn [join] in Hj. subst. apply Forall_inv in Hf. by apply noNewline_app.
  - apply Forall_cons in Hf as [Hf1 Hf2]. apply Forall_app. split; [done|]. constructor; [by apply noNewline_app|].
    rewrite (app_removelast_last [] (l := l2 :: rest)) in Hf2 by done. by apply Forall_app in Hf2 as [? _].
  - apply Forall_cons in Hf as [_ Hf2]. rewrite (app_removelast_last [] (l := l2 :: rest)) in Hf2 by done.
    apply Forall_app in Hf2 as [_ ?]. by apply Forall_inv in H.
Qed.

Lemma insertLines_state z t : okZipper z ->
  toState (insertLines z t) = stateAt (textBefore z ++ t) (textAfter z).
Proof.
  intros Hz. rewrite toState_at by by apply insertLines_ok. by destruct (insertLines_text z t) as [-> ->].
Qed.
