(* ===== verification/TuiEditorLaws.v ===== *)
(** * Terminal UI: what the editor's operations do to the text

    Each operation of [TuiEditor] on an editor whose cursor is in its text, read
    as an operation on the text before and after the cursor. *)
From S2P Require Import Prelude RgFingerprint Utf8 TuiText TuiWrap TuiEditor TuiZipper.

#[local] Arguments len : simpl never.
#[local] Arguments slice : simpl never.
#[local] Arguments sliceFrom : simpl never.
#[local] Arguments setLine : simpl never.
#[local] Arguments splice : simpl never.
#[local] Arguments lineAt : simpl never.
#[local] Arguments toState : simpl never.
#[local] Arguments splitLines : simpl never.
#[local] Arguments Z.add : simpl never.
#[local] Arguments Z.sub : simpl never.
#[local] Arguments getText : simpl never.

Section Laws.
Context {X U : Type} `{UL : UnicodeLaws} `{EditorHost X U}.
Implicit Types e : Editor (X := X) (U := U).

(** The cursor stands between [before] and [after]. *)
Definition At e (before after : jstr) : Prop := state e = stateAt before after.

(** ** The cursor's line *)
Section OnZipper.
Variables (e : Editor (X := X) (U := U)) (z : Zipper).
Hypothesis He : state e = toState z.

Lemma cur_line : currentLine e = left_ z ++ right_ z.
Proof. unfold currentLine. rewrite He. apply lineAt_at. Qed.
Lemma cur_col : col e = len (left_ z).
Proof. unfold col. by rewrite He. Qed.
Lemma before_cursor : slice (currentLine e) 0 (col e) = left_ z.
Proof. rewrite cur_line, cur_col. apply slice_left. Qed.
Lemma after_cursor : sliceFrom (currentLine e) (col e) = right_ z.
Proof. rewrite cur_line, cur_col. apply sliceFrom_right. Qed.

Lemma edit_line_lines l : lines (state (edit_line l e)) = above z ++ l :: below z.
Proof. unfold edit_line. cbn. rewrite He. unfold toState. cbn. apply setLine_at. Qed.

(** The line rewritten around the cursor. *)
Lemma replaced l r c : c = len l ->
  state (setCursorCol c (edit_line (l ++ r) e)) =
  toState {| above := above z; left_ := l; right_ := r; below := below z |}.
Proof. intros ->. unfold toState. cbn. rewrite He. unfold toState. cbn. by rewrite setLine_at. Qed.

Lemma replaced_right r :
  state (edit_line (left_ z ++ r) e) =
  toState {| above := above z; left_ := left_ z; right_ := r; below := below z |}.
Proof. unfold toState. cbn. rewrite He. unfold toState. cbn. by rewrite setLine_at. Qed.

Lemma cur_first : (0 <? cursorLine (state e))%Z = match above z with [] => false | _ => true end.
Proof. rewrite He. unfold toState. cbn. by destruct (above z). Qed.
Lemma cur_last : (cursorLine (state e) <? len (lines (state e)) - 1)%Z = match below z with [] => false | _ => true end.
Proof.
  rewrite He. unfold toState. cbn. rewrite len_app, len_cons. destruct (below z) as [|l b].
  - apply Z.ltb_ge. unfold len. cbn [length]. lia.
  - apply Z.ltb_lt. unfold len. cbn [length]. lia.
Qed.
Lemma cur_start : (0 <? col e)%Z = truthy (left_ z).
Proof. rewrite cur_col. by destruct (left_ z). Qed.
Lemma cur_end : (col e <? len (currentLine e))%Z = truthy (right_ z).
Proof.
  rewrite cur_col, cur_line, len_app. destruct (right_ z); [apply Z.ltb_ge|apply Z.ltb_lt]; unfold len; cbn [length]; lia.
Qed.

Lemma merged_previous a p : above z = a ++ [p] -> left_ z = [] ->
  state (mergeWithPrevious e) = toState {| above := a; left_ := p; right_ := right_ z; below := below z |}.
Proof.
  intros Ha Hl. unfold mergeWithPrevious. rewrite cur_line, Hl, He. unfold toState. cbn.
  rewrite Ha, Hl, len_app. cbn [app]. replace (len a + len [p] - 1)%Z with (len a) by (unfold len; cbn [length]; lia).
  rewrite <- !(assoc_L (++)). cbn [app]. rewrite lineAt_at, setLine_at. by rewrite (splice_delete_next a).
Qed.

Lemma merged_next l b : below z = l :: b -> right_ z = [] ->
  state (mergeWithNext e) = toState {| above := above z; left_ := left_ z; right_ := l; below := b |}.
Proof.
  intros Hb Hr. unfold mergeWithNext. rewrite cur_line, Hr, app_nil_r, He. unfold toState. cbn.
  rewrite Hb, Hr, app_nil_r, lineAt_next, setLine_at. by rewrite splice_delete_next, He.
Qed.

(** Removing what is beside the cursor. *)
Lemma removed_before l g : left_ z = l ++ g ->
  state (setCursorCol (col e - len g) (edit_line (slice (currentLine e) 0 (col e - len g) ++ sliceFrom (currentLine e) (col e)) e)) =
  toState {| above := above z; left_ := l; right_ := right_ z; below := below z |}.
Proof.
  intros Hl. rewrite after_cursor, cur_line, cur_col, Hl, len_app, <- (assoc_L (++)).
  replace (len l + len g - len g)%Z with (len l) by lia. rewrite slice_left. by apply replaced.
Qed.

Lemma removed_after g r : right_ z = g ++ r ->
  state (edit_line (slice (currentLine e) 0 (col e) ++ sliceFrom (currentLine e) (col e + len g)) e) =
  toState {| above := above z; left_ := left_ z; right_ := r; below := below z |}.
Proof.
  intros Hr. rewrite before_cursor, cur_line, cur_col, Hr, <- len_app, (assoc_L (++)), sliceFrom_right.
  apply replaced_right.
Qed.
End OnZipper.

(** ** The text beside the cursor *)
Lemma textBefore_left a0 l g r b : textBefore {| above := a0; left_ := l ++ g; right_ := r; below := b |} =
  textBefore {| above := a0; left_ := l; right_ := r; below := b |} ++ g.
Proof. unfold textBefore. cbn [above left_]. by rewrite (assoc_L (++)). Qed.
Lemma textBefore_line a0 p r b r' b' : textBefore {| above := a0 ++ [p]; left_ := []; right_ := r; below := b |} =
  textBefore {| above := a0; left_ := p; right_ := r'; below := b' |} ++ [newline].
Proof. unfold textBefore. cbn [above left_]. rewrite map_app, concat_app. cbn. by rewrite !app_nil_r, (assoc_L (++)). Qed.
Lemma textAfter_right a0 l g r b : textAfter {| above := a0; left_ := l; right_ := g ++ r; below := b |} =
  g ++ textAfter {| above := a0; left_ := l; right_ := r; below := b |}.
Proof. unfold textAfter. cbn [right_ below]. by rewrite (assoc_L (++)). Qed.
Lemma textAfter_line a0 l a1 l1 p b : textAfter {| above := a0; left_ := l; right_ := []; below := p :: b |} =
  newline :: textAfter {| above := a1; left_ := l1; right_ := p; below := b |}.
Proof. done. Qed.

Lemma ok_delete_left a0 l g r b : okZipper {| above := a0; left_ := l ++ g; right_ := r; below := b |} ->
  okZipper {| above := a0; left_ := l; right_ := r; below := b |}.
Proof. intros [H1 H2 H3 H4]. split; try done. by apply noNewline_app in H2 as []. Qed.
Lemma ok_delete_right a0 l g r b : okZipper {| above := a0; left_ := l; right_ := g ++ r; below := b |} ->
  okZipper {| above := a0; left_ := l; right_ := r; below := b |}.
Proof. intros [H1 H2 H3 H4]. split; try done. by apply noNewline_app in H3 as []. Qed.
Lemma ok_join_previous a0 p r b : okZipper {| above := a0 ++ [p]; left_ := []; right_ := r; below := b |} ->
  okZipper {| above := a0; left_ := p; right_ := r; below := b |}.
Proof. intros [H1 H2 H3 H4]. cbn in H1. apply Forall_app in H1 as [? ?%Forall_inv]. by split. Qed.
Lemma ok_join_next a0 l p b : okZipper {| above := a0; left_ := l; right_ := []; below := p :: b |} ->
  okZipper {| above := a0; left_ := l; right_ := p; below := b |}.
Proof. intros [H1 H2 H3 H4]. cbn in H4. apply Forall_cons in H4 as [? ?]. by split. Qed.

Lemma At_zipper e b a : At e b a -> exists z, okZipper z /\ state e = toState z /\ textBefore z = b /\ textAfter z = a.
Proof.
  intros HA. exists (zipAt b a). split; [apply zipAt_ok|]. split; [exact HA|].
  by rewrite textBefore_zipAt, textAfter_zipAt.
Qed.

Lemma zipper_At e z b a : okZipper z -> state e = toState z -> textBefore z = b -> textAfter z = a -> At e b a.
Proof. intros Hz He <- <-. unfold At. rewrite He. by apply toState_at. Qed.

(** ** Inserting *)
Lemma insertCharacter_At e b a c : At e b a -> noNewline c -> At (insertCharacter c e) (b ++ c) a.
Proof.
  intros (z & Hz & He & <- & <-)%At_zipper Hc. unfold insertCharacter.
  set (e1 := set_lastAction _ _). assert (He1 : state e1 = toState z) by (subst e1; cbn; by case_match).
  cbv zeta. rewrite (before_cursor e1 z He1), (after_cursor e1 z He1).
  eapply (zipper_At _ {| above := above z; left_ := left_ z ++ c; right_ := right_ z; below := below z |}).
  - destruct Hz. split; [done| |done..]. by apply noNewline_app.
  - change (state (changed ?x)) with (state x). rewrite (assoc_L (++)). apply replaced; [done|].
    by rewrite (cur_col e1 z He1), len_app.
  - unfold textBefore. cbn [above left_]. by rewrite (assoc_L (++)).
  - done.
Qed.

Lemma addNewLine_At e b a : At e b a -> At (addNewLine e) (b ++ [newline]) a.
Proof.
  intros (z & Hz & He & <- & <-)%At_zipper. unfold addNewLine.
  set (e1 := pushUndoSnapshot _). assert (He1 : state e1 = toState z) by exact He. cbv zeta. clearbody e1.
  rewrite (before_cursor e1 z He1), (after_cursor e1 z He1).
  eapply (zipper_At _ {| above := above z ++ [left_ z]; left_ := []; right_ := right_ z; below := below z |}).
  - destruct Hz. split; try done; [|apply not_elem_of_nil]. apply Forall_app. split; [done|by constructor].
  - unfold toState. cbn. rewrite !He1. unfold toState. cbn.
    by rewrite setLine_at, splice_insert_next, len_app, <- (assoc_L (++)).
  - unfold textBefore. cbn [above left_]. rewrite map_app, concat_app. cbn. by rewrite !app_nil_r, (assoc_L (++)).
  - done.
Qed.

(** ** Deleting *)
Lemma graphemes_short e t : (length (segText (segmentGraphemes e t)) <= length t)%nat
  /\ Forall (fun x => segment x <> []) (segmentGraphemes e t).
Proof. apply segmentWithMarkers_disjoint, grapheme_segments. Qed.
Lemma words_short e t : (length (segText (segmentWords e t)) <= length t)%nat.
Proof. apply segmentWithMarkers_disjoint, word_segments. Qed.

Lemma element_short segs x (t : jstr) : (length (segText segs) <= length t)%nat -> x ∈ segs -> (length (segment x) <= length t)%nat.
Proof.
  intros Hl (p & q & ->)%list_elem_of_split. unfold segText in Hl. rewrite map_app, concat_app, length_app in Hl.
  cbn in Hl. rewrite length_app in Hl. lia.
Qed.

(** What one press removes: not empty, and part of the line. *)
Lemma cut_end (l : jstr) n : (0 < n <= length l)%nat -> exists l' g, l = l' ++ g /\ g <> [] /\ Z.of_nat n = len g.
Proof.
  intros Hb. exists (take (length l - n) l), (drop (length l - n) l). rewrite take_drop.
  assert (Hlen : length (drop (length l - n) l) = n) by (rewrite length_drop; lia).
  split; [done|]. split; [intros E; rewrite E in Hlen; cbn in Hlen; lia|]. unfold len. by rewrite Hlen.
Qed.
Lemma cut_front (l : jstr) n : (0 < n <= length l)%nat -> exists g l', l = g ++ l' /\ g <> [] /\ Z.of_nat n = len g.
Proof.
  intros Hb. exists (take n l), (drop n l). rewrite take_drop.
  assert (Hlen : length (take n l) = n) by (rewrite length_take; lia).
  split; [done|]. split; [intros E; rewrite E in Hlen; cbn in Hlen; lia|]. unfold len. by rewrite Hlen.
Qed.
Lemma truthy_length (l : jstr) : l <> [] -> (0 < length l)%nat.
Proof. destruct l; [done|cbn; lia]. Qed.

Definition graphemeLength (g : option SegmentData) : Z := match g with Some g => len (segment g) | None => 1%Z end.

Lemma grapheme_length e l g : l <> [] -> (forall x, g = Some x -> x ∈ segmentGraphemes e l) ->
  exists n, graphemeLength g = Z.of_nat n /\ (0 < n <= length l)%nat.
Proof.
  intros Hl Hg. destruct (graphemes_short e l) as [Hs Hn]. pose proof (truthy_length l Hl). destruct g as [x|].
  - specialize (Hg x eq_refl). rewrite Forall_forall in Hn. exists (length (segment x)). split; [done|].
    split; [by apply truthy_length, Hn|by eapply element_short].
  - exists 1%nat. split; [done|lia].
Qed.
Lemma last_grapheme_removes e l : l <> [] ->
  exists l' g, l = l' ++ g /\ g <> [] /\ graphemeLength (last (segmentGraphemes e l)) = len g.
Proof.
  intros Hl. destruct (grapheme_length e l (last (segmentGraphemes e l)) Hl) as (n & -> & Hn); [|by apply cut_end].
  intros x. apply last_Some_elem_of.
Qed.
Lemma first_grapheme_removes e l : l <> [] ->
  exists g l', l = g ++ l' /\ g <> [] /\ graphemeLength (head (segmentGraphemes e l)) = len g.
Proof.
  intros Hl. destruct (grapheme_length e l (head (segmentGraphemes e l)) Hl) as (n & -> & Hn); [|by apply cut_front].
  intros x. apply head_Some_elem_of.
Qed.

(** The four removals on the cursor's zipper. *)
Definition Removed (b b' : jstr) (g : jstr) : Prop := b = b' ++ g /\ (b <> [] -> g <> []).

Section Removals.
Variables (e : Editor (X := X) (U := U)) (z : Zipper).
Hypotheses (Hz : okZipper z) (He : state e = toState z).

Lemma remove_before_At l g : left_ z = l ++ g -> exists b', textBefore z = b' ++ g /\
  At (setCursorCol (col e - len g) (edit_line (slice (currentLine e) 0 (col e - len g) ++ sliceFrom (currentLine e) (col e)) e))
     b' (textAfter z).
Proof using All.
  intros Hl. pose proof (removed_before e z He l g Hl) as Hs. destruct z as [ab lz r bl]. cbn [left_] in *. subst lz.
  eexists. split; [apply textBefore_left|]. eapply zipper_At; [by eapply ok_delete_left|exact Hs|done..].
Qed.
Lemma remove_after_At g r : right_ z = g ++ r -> exists a', textAfter z = g ++ a' /\
  At (edit_line (slice (currentLine e) 0 (col e) ++ sliceFrom (currentLine e) (col e + len g)) e) (textBefore z) a'.
Proof using All.
  intros Hr. pose proof (removed_after e z He g r Hr) as Hs. destruct z as [ab l rz bl]. cbn [right_] in *. subst rz.
  eexists. split; [apply textAfter_right|]. eapply zipper_At; [by eapply ok_delete_right|exact Hs|done..].
Qed.
Lemma merge_previous_At : left_ z = [] -> above z <> [] -> exists b', textBefore z = b' ++ [newline] /\
  At (mergeWithPrevious e) b' (textAfter z).
Proof using All.
  intros Hl Ha. destruct (snoc_cases (above z)) as [|(a0 & p & E)]; [done|]. pose proof (merged_previous e z He a0 p E Hl) as Hs.
  destruct z as [ab lz r bl]. cbn [left_ above right_ below] in *. subst ab lz.
  eexists. split; [apply textBefore_line|]. eapply zipper_At; [by apply ok_join_previous|exact Hs|done..].
Qed.
Lemma merge_next_At : right_ z = [] -> below z <> [] -> exists a', textAfter z = [newline] ++ a' /\
  At (mergeWithNext e) (textBefore z) a'.
Proof using All.
  intros Hr Hb. destruct (below z) as [|p bl] eqn:E; [done|]. pose proof (merged_next e z He p bl E Hr) as Hs.
  destruct z as [ab l rz blz]. cbn [left_ above right_ below] in *. subst rz blz.
  eexists. split; [by apply textAfter_line|]. eapply zipper_At; [by apply ok_join_next|exact Hs|done..].
Qed.
Lemma at_text_start : left_ z = [] -> above z = [] -> textBefore z = [].
Proof. unfold textBefore. by intros -> ->. Qed.
Lemma at_text_end : right_ z = [] -> below z = [] -> textAfter z = [].
Proof. unfold textAfter. by intros -> ->. Qed.
Lemma stays_At : At e (textBefore z) (textAfter z).
Proof using All. by eapply zipper_At. Qed.
End Removals.

(** A backspace on a paste marker renumbers no marker that is still there. *)
Definition renumbersNothing e : Prop := forall g m,
  last (segmentGraphemes e (slice (currentLine e) 0 (col e))) = Some g -> markerOf (segment g) = Some m ->
  map (renumber (decimal (idGroup m))) (lines (state e)) = lines (state e).

Lemma removePaste_state id e : map (renumber id) (lines (state e)) = lines (state e) -> state (removePaste id e) = state e.
Proof. intros H1. unfold removePaste. cbn. rewrite H1. by destruct (state e). Qed.

Lemma handleBackspace_At e b a : At e b a -> renumbersNothing e ->
  exists b' g, Removed b b' g /\ At (handleBackspace e) b' a.
Proof.
  intros (z & Hz & He & <- & <-)%At_zipper Hq. unfold handleBackspace.
  set (e1 := set_lastAction None _). assert (He1 : state e1 = toState z) by exact He.
  change (renumbersNothing e1) in Hq. clearbody e1. cbv zeta. rewrite (cur_start e1 z He1).
  destruct (left_ z) as [|c l] eqn:El; cbn [truthy].
  - rewrite (cur_first e1 _ He1). destruct (above z) eqn:Ea.
    + exists (textBefore z), []. split; [|by apply stays_At]. split; [by rewrite app_nil_r|by rewrite at_text_start].
    + destruct (merge_previous_At (pushUndoSnapshot e1) z Hz He1) as (b' & Hb & HA); [done|by rewrite Ea|].
      exists b', [newline]. split; [by split|done].
  - assert (Hl : left_ z <> []) by (by rewrite El). clear El.
    unfold renumbersNothing in Hq. change (currentLine (pushUndoSnapshot e1)) with (currentLine e1).
    change (col (pushUndoSnapshot e1)) with (col e1). rewrite (before_cursor e1 z He1) in *.
    destruct (last_grapheme_removes e1 (left_ z) Hl) as (l' & g & Hlg & Hg & Hn).
    unfold graphemeLength in Hn. change (segmentGraphemes (pushUndoSnapshot e1)) with (segmentGraphemes e1). rewrite Hn.
    set (e2 := match last _ with Some _ => _ | None => _ end). assert (He2 : state e2 = toState z).
    { subst e2. destruct (last _) as [x|] eqn:Ex; [|done]. destruct (markerOf _) as [m|] eqn:Em; [|done].
      rewrite removePaste_state; [done|]. exact (Hq _ _ eq_refl Em). }
    destruct (remove_before_At e2 z Hz He2 l' g Hlg) as (b' & Hb & HA). exists b', g. split; [by split|exact HA].
Qed.

Lemma handleForwardDelete_At e b a : At e b a ->
  exists g a', a = g ++ a' /\ (a <> [] -> g <> []) /\ At (handleForwardDelete e) b a'.
Proof.
  intros (z & Hz & He & <- & <-)%At_zipper. unfold handleForwardDelete.
  set (e1 := set_lastAction None _). assert (He1 : state e1 = toState z) by exact He.
  clearbody e1. cbv zeta. rewrite (cur_end e1 z He1). destruct (right_ z) as [|c r] eqn:Er; cbn [truthy].
  - rewrite (cur_last e1 _ He1). destruct (below z) eqn:Ea.
    + exists [], (textAfter z). repeat split; [by rewrite at_text_end|by apply stays_At].
    + destruct (merge_next_At (pushUndoSnapshot e1) z Hz He1) as (a' & Ha & HA); [done|by rewrite Ea|].
      by exists [newline], a'.
  - assert (Hr : right_ z <> []) by (by rewrite Er). clear Er.
    set (e2 := pushUndoSnapshot e1). assert (He2 : state e2 = toState z) by exact He1.
    destruct (first_grapheme_removes e2 (right_ z) Hr) as (g & r' & Hrg & Hg & Hn).
    unfold graphemeLength in Hn. rewrite <- (after_cursor e2 z He2) in Hn. rewrite Hn.
    destruct (remove_after_At e2 z Hz He2 g r' Hrg) as (a' & Ha & HA). by exists g, a'.
Qed.

(** ** Killing *)
(** A kill of [g]: the ring, and what was done last. *)
Definition Killed e e' (g : jstr) (prepend : bool) : Prop :=
  killRing e' = push g prepend (wasKill e) (killRing e)
  /\ (lastAction e' = Some act_kill \/ g = [] /\ lastAction e' = lastAction e).

Lemma Killed_nothing e e' prepend : killRing e' = killRing e -> lastAction e' = lastAction e -> Killed e e' [] prepend.
Proof. by split; [|right]. Qed.
Lemma Killed_text e e' g prepend : killRing e' = push g prepend (wasKill e) (killRing e) ->
  lastAction e' = Some act_kill -> Killed e e' g prepend.
Proof. by split; [|left]. Qed.
Lemma Removed_nothing b : b = [] -> Removed b b [].
Proof. by intros ->. Qed.
Lemma Removed_text b b' g : b = b' ++ g -> g <> [] -> Removed b b' g.
Proof. by split. Qed.

(** Nothing is before the cursor, or a line ends there. *)
Lemma kill_previous_newline e z : okZipper z -> state e = toState z -> left_ z = [] ->
  let e' := changed (if (0 <? cursorLine (state e))%Z then killPreviousNewline e else e) in
  exists b' g, Removed (textBefore z) b' g /\ At e' b' (textAfter z) /\ Killed e e' g true.
Proof.
  intros Hz He Hl. cbv zeta. rewrite (cur_first e _ He). destruct (above z) eqn:Ea.
  - exists (textBefore z), []. split; [by apply Removed_nothing, at_text_start|]. split; [by apply stays_At|by apply Killed_nothing].
  - destruct (merge_previous_At (kill [newline] true (wasKill e) (pushUndoSnapshot e)) z Hz He) as (b' & Hb & HA);
      [done|by rewrite Ea|]. exists b', [newline]. split; [by apply Removed_text|]. split; [exact HA|by apply Killed_text].
Qed.
Lemma kill_next_newline e z : okZipper z -> state e = toState z -> right_ z = [] ->
  let e' := changed (if (cursorLine (state e) <? len (lines (state e)) - 1)%Z then killNextNewline e else e) in
  exists g a', textAfter z = g ++ a' /\ (textAfter z <> [] -> g <> []) /\ At e' (textBefore z) a' /\ Killed e e' g false.
Proof.
  intros Hz He Hr. cbv zeta. rewrite (cur_last e _ He). destruct (below z) eqn:Ea.
  - exists [], (textAfter z). split; [done|]. split; [by rewrite at_text_end|]. split; [by apply stays_At|by apply Killed_nothing].
  - destruct (merge_next_At (kill [newline] false (wasKill e) (pushUndoSnapshot e)) z Hz He) as (a' & Ha & HA);
      [done|by rewrite Ea|]. exists [newline], a'. split; [exact Ha|]. split; [done|]. split; [exact HA|by apply Killed_text].
Qed.

Lemma deleteToStartOfLine_At e b a : At e b a ->
  exists b' g, Removed b b' g /\ At (deleteToStartOfLine e) b' a /\ Killed e (deleteToStartOfLine e) g true.
Proof.
  intros (z & Hz & He & <- & <-)%At_zipper. unfold deleteToStartOfLine.
  set (e1 := exitHistoryBrowsing e). assert (He1 : state e1 = toState z) by exact He.
  change (Killed e) with (Killed e1). clearbody e1. clear He. cbv zeta. rewrite (cur_start e1 z He1).
  destruct (left_ z) as [|c l] eqn:El; cbn [truthy].
  - by apply (kill_previous_newline e1 z).
  - set (e2 := kill _ _ _ _). assert (He2 : state e2 = toState z) by exact He1.
    destruct (remove_before_At e2 z Hz He2 [] (left_ z) eq_refl) as (b' & Hb & HA).
    rewrite (cur_col e2 z He2), Z.sub_diag, <- (cur_col e2 z He2) in HA.
    exists b', (left_ z). split; [by apply Removed_text; [|rewrite El]|]. split; [exact HA|].
    apply Killed_text; [|done]. unfold e2. cbn. by rewrite (before_cursor (pushUndoSnapshot e1) z He1).
Qed.

Lemma deleteToEndOfLine_At e b a : At e b a -> exists g a', a = g ++ a' /\ (a <> [] -> g <> []) /\
  At (deleteToEndOfLine e) b a' /\ Killed e (deleteToEndOfLine e) g false.
Proof.
  intros (z & Hz & He & <- & <-)%At_zipper. unfold deleteToEndOfLine.
  set (e1 := exitHistoryBrowsing e). assert (He1 : state e1 = toState z) by exact He.
  change (Killed e) with (Killed e1). clearbody e1. clear He. cbv zeta. rewrite (cur_end e1 z He1).
  destruct (right_ z) as [|c r] eqn:Er; cbn [truthy].
  - by apply (kill_next_newline e1 z).
  - set (e2 := kill _ _ _ _). assert (He2 : state e2 = toState z) by exact He1.
    destruct (remove_after_At e2 z Hz He2 (right_ z) [] ltac:(by rewrite app_nil_r)) as (a' & Ha & HA).
    exists (right_ z), a'. split; [done|]. split; [by rewrite Er|]. split.
    + revert HA. rewrite (cur_col e2 z He2) at 2. rewrite (cur_line e2 z He2) at 2.
      rewrite <- len_app, <- (app_nil_r (left_ z ++ right_ z)) at 1. rewrite sliceFrom_right, app_nil_r. done.
    + apply Killed_text; [|done]. unfold e2. cbn. by rewrite (after_cursor (pushUndoSnapshot e1) z He1).
Qed.

(** ** Words *)
Lemma slice_between (l r : jstr) w : (0 <= w <= len l)%Z ->
  exists l' g, l = l' ++ g /\ len l' = w /\ slice (l ++ r) w (len l) = g /\ slice (l ++ r) 0 w = l' .
Proof.
  intros Hw. exists (take (Z.to_nat w) l), (drop (Z.to_nat w) l). rewrite take_drop.
  assert (Hlen : length (take (Z.to_nat w) l) = Z.to_nat w) by (rewrite length_take; unfold len in *; lia).
  split; [done|]. split; [unfold len in *; lia|]. split.
  - unfold slice. rewrite !toIndex_nonneg by (unfold len in *; lia). rewrite len_nat, length_app.
    rewrite !Nat.min_l by (unfold len in *; lia). rewrite <- (take_drop (Z.to_nat w) l) at 2. rewrite <- (assoc_L (++)).
    rewrite <- Hlen at 2. rewrite drop_app_length, <- length_drop. apply take_app_length.
  - rewrite slice_prefix by lia. rewrite take_app_le; [done|unfold len in *; lia].
Qed.
Lemma slice_after (l r : jstr) w : (len l <= w <= len (l ++ r))%Z ->
  exists g r', r = g ++ r' /\ w = (len l + len g)%Z /\ slice (l ++ r) (len l) w = g.
Proof.
  intros Hw. rewrite len_app in Hw. set (n := Z.to_nat (w - len l)). exists (take n r), (drop n r). rewrite take_drop.
  assert (Hlen : length (take n r) = n) by (rewrite length_take; unfold len in *; lia).
  split; [done|]. split; [unfold len in *; lia|]. unfold slice.
  rewrite !toIndex_nonneg by (unfold len in *; lia). rewrite len_nat, length_app, (Nat.min_l (length l)) by lia.
  rewrite drop_app_length. f_equal. unfold len in *. lia.
Qed.

Lemma slice_mid (l g r : jstr) : slice ((l ++ g) ++ r) (len l) (len (l ++ g)) = g.
Proof.
  destruct (slice_after l (g ++ r) (len (l ++ g))) as (g' & r' & E & Hn & Hs); [rewrite !len_app; unfold len; lia|].
  rewrite (assoc_L (++)) in Hs. rewrite Hs. rewrite len_app in Hn.
  apply app_inj_1 in E as [-> _]; [done|unfold len in Hn; lia].
Qed.

Section InLine.
Variables (e : Editor (X := X) (U := U)) (z : Zipper).
Hypothesis He : state e = toState z.

Lemma moved_in_line l r : left_ z ++ right_ z = l ++ r ->
  state (setCursorCol (len l) e) = toState {| above := above z; left_ := l; right_ := r; below := below z |}.
Proof using He. intros E. unfold toState. cbn. rewrite He. unfold toState. cbn. by rewrite E. Qed.

Lemma moveWordBackwards_in_line : left_ z <> [] -> exists l g, left_ z = l ++ g /\
  state (moveWordBackwards e) = toState {| above := above z; left_ := l; right_ := g ++ right_ z; below := below z |}.
Proof using UL He.
  intros Hl. unfold moveWordBackwards. set (e1 := set_lastAction None e). assert (He1 : state e1 = toState z) by exact He.
  clearbody e1. cbv zeta. pose proof (truthy_length _ Hl). rewrite (cur_col e1 z He1), (cur_line e1 z He1).
  rewrite (proj2 (Z.eqb_neq _ _)) by (unfold len; lia).
  pose proof (findWordBackward_bounds (segmentWords e1) isPasteMarker (left_ z ++ right_ z) (len (left_ z)) (words_short e1)) as Hw.
  destruct (slice_between (left_ z) (right_ z) (findWordBackward (segmentWords e1) isPasteMarker (left_ z ++ right_ z) (len (left_ z))))
    as (l & g & Hlg & <- & _); [apply Hw; rewrite len_app; unfold len; lia|].
  exists l, g. split; [done|]. unfold toState. cbn. rewrite He1. unfold toState. cbn. by rewrite Hlg, (assoc_L (++)).
Qed.

Lemma moveWordForwards_in_line : right_ z <> [] -> exists g r, right_ z = g ++ r /\
  state (moveWordForwards e) = toState {| above := above z; left_ := left_ z ++ g; right_ := r; below := below z |}.
Proof using UL He.
  intros Hr. unfold moveWordForwards. set (e1 := set_lastAction None e). assert (He1 : state e1 = toState z) by exact He.
  clearbody e1. cbv zeta. pose proof (truthy_length _ Hr). rewrite (cur_col e1 z He1), (cur_line e1 z He1).
  rewrite (proj2 (Z.leb_gt _ _)) by (rewrite len_app; unfold len; lia).
  pose proof (findWordForward_bounds (segmentWords e1) isPasteMarker (left_ z ++ right_ z) (len (left_ z)) (words_short e1)) as Hw.
  destruct (slice_after (left_ z) (right_ z) (findWordForward (segmentWords e1) isPasteMarker (left_ z ++ right_ z) (len (left_ z))))
    as (g & r & Hgr & Hn & _); [apply Hw; rewrite len_app; unfold len; lia|].
  exists g, r. split; [done|]. rewrite Hn. unfold toState. cbn. rewrite He1. unfold toState. cbn.
  by rewrite len_app, Hgr, (assoc_L (++)).
Qed.
End InLine.

Lemma moveWord_killRing e : killRing (moveWordBackwards e) = killRing e /\ killRing (moveWordForwards e) = killRing e.
Proof. unfold moveWordBackwards, moveWordForwards. cbv zeta. split; by repeat case_match. Qed.

Lemma deleteWordBackwards_At e b a : At e b a ->
  exists b' g, b = b' ++ g /\ At (deleteWordBackwards e) b' a /\ Killed e (deleteWordBackwards e) g true.
Proof.
  intros (z & Hz & He & <- & <-)%At_zipper. unfold deleteWordBackwards.
  set (e1 := exitHistoryBrowsing e). assert (He1 : state e1 = toState z) by exact He.
  change (Killed e) with (Killed e1). clearbody e1. clear He. cbv zeta. rewrite (cur_col e1 z He1).
  destruct (Z.eqb_spec (len (left_ z)) 0) as [E|E].
  - destruct (kill_previous_newline e1 z Hz He1) as (b' & g & [Hb _] & HA); [by destruct (left_ z)|]. by exists b', g.
  - set (e2 := pushUndoSnapshot e1). assert (He2 : state e2 = toState z) by exact He1.
    destruct (moveWordBackwards_in_line e2 z He2) as (l & g & Hlg & Hm); [by intros E'; rewrite E' in E|].
    assert (Hf : col (moveWordBackwards e2) = len l) by (unfold col; by rewrite Hm).
    set (e4 := setCursorCol _ (moveWordBackwards e2)).
    assert (He4 : state e4 = toState z).
    { unfold e4. rewrite (cur_col e2 z He2). erewrite moved_in_line; [|exact Hm|cbn; by rewrite Hlg, (assoc_L (++))].
      cbn. by destruct z. }
    rewrite Hf, (cur_col e4 z He4), (cur_line e2 z He2), Hlg, slice_mid, <- Hlg, <- (cur_line e2 z He2).
    set (e5 := kill g _ _ e4). assert (He5 : state e5 = toState z) by exact He4.
    destruct (remove_before_At e5 z Hz He5 l g Hlg) as (b' & Hb & HA). exists b', g. split; [done|].
    split; [|by apply Killed_text; [unfold e5, e4; cbn; rewrite (proj1 (moveWord_killRing e2))|]].
    rewrite (cur_line e5 z He5), <- (cur_line e2 z He2) in HA.
    rewrite (cur_col e5 z He5), Hlg, len_app in HA |- *. by replace (len l + len g - len g)%Z with (len l) in HA by lia.
Qed.

Lemma deleteWordForward_At e b a : At e b a ->
  exists g a', a = g ++ a' /\ At (deleteWordForward e) b a' /\ Killed e (deleteWordForward e) g false.
Proof.
  intros (z & Hz & He & <- & <-)%At_zipper. unfold deleteWordForward.
  set (e1 := exitHistoryBrowsing e). assert (He1 : state e1 = toState z) by exact He.
  change (Killed e) with (Killed e1). clearbody e1. clear He. cbv zeta. rewrite Z.leb_antisym, (cur_end e1 z He1).
  destruct (right_ z) as [|c0 r0] eqn:Er; cbn [truthy negb].
  - destruct (kill_next_newline e1 z Hz He1 Er) as (g & a' & Ha & _ & HA). by exists g, a'.
  - set (e2 := pushUndoSnapshot e1). assert (He2 : state e2 = toState z) by exact He1.
    destruct (moveWordForwards_in_line e2 z He2) as (g & r & Hgr & Hm); [by rewrite Er|].
    assert (Hf : col (moveWordForwards e2) = (len (left_ z) + len g)%Z) by (unfold col; rewrite Hm; apply len_app).
    set (e4 := setCursorCol _ (moveWordForwards e2)).
    assert (He4 : state e4 = toState z).
    { unfold e4. rewrite (cur_col e2 z He2). erewrite moved_in_line; [|exact Hm|cbn; by rewrite <- (assoc_L (++)), <- Hgr].
      cbn. by destruct z. }
    rewrite Hf, (cur_col e4 z He4), (cur_line e2 z He2), Hgr, <- len_app, (assoc_L (++)), slice_mid, len_app.
    rewrite <- (assoc_L (++)), <- Hgr, <- (cur_line e2 z He2).
    set (e5 := kill g _ _ e4). assert (He5 : state e5 = toState z) by exact He4.
    destruct (remove_after_At e5 z Hz He5 g r Hgr) as (a' & Ha & HA). exists g, a'. split; [done|].
    split; [|by apply Killed_text; [unfold e5, e4; cbn; rewrite (proj2 (moveWord_killRing e2))|]].
    rewrite (cur_line e5 z He5), <- (cur_line e2 z He2) in HA.
    rewrite (cur_col e5 z He5) in HA |- *. exact HA.
Qed.

(** ** Inserting text, yanking *)
Lemma len_removelast (rs : list jstr) : rs <> [] -> len rs = (1 + len (removelast rs))%Z.
Proof.
  intros Hn. rewrite (app_removelast_last [] Hn) at 1. rewrite len_app. unfold len. cbn [length]. lia.
Qed.
Lemma slice_lines (a b : list jstr) : slice (a ++ b) 0 (len a) = a.
Proof. apply slice_left. Qed.
Lemma sliceFrom_next (a : list jstr) l b : sliceFrom (a ++ l :: b) (len a + 1) = b.
Proof.
  replace (len a + 1)%Z with (len (a ++ [l])) by (rewrite len_app; done).
  change (a ++ l :: b) with (a ++ [l] ++ b). rewrite (assoc_L (++)). apply sliceFrom_right.
Qed.

Lemma At_insertLines e' z t : okZipper z -> state e' = toState (insertLines z t) -> At e' (textBefore z ++ t) (textAfter z).
Proof. intros Hz Hs. unfold At. rewrite Hs. by apply insertLines_state. Qed.

(** The single-line insertion. *)
Lemma inserted_line e z t : state e = toState z ->
  state (setCursorCol (col e + len t)
    (edit_line (slice (currentLine e) 0 (col e) ++ t ++ sliceFrom (currentLine e) (col e)) e)) =
  toState {| above := above z; left_ := left_ z ++ t; right_ := right_ z; below := below z |}.
Proof.
  intros He. rewrite (before_cursor e z He), (after_cursor e z He), (assoc_L (++)). apply replaced; [done|].
  by rewrite (cur_col e z He), len_app.
Qed.

Lemma insertTextAtCursorInternal_At e b a t : At e b a -> At (insertTextAtCursorInternal t e) (b ++ normalizeText t) a.
Proof.
  intros (z & Hz & He & <- & <-)%At_zipper. unfold insertTextAtCursorInternal.
  destruct t as [|c0 t0]; [cbn; rewrite app_nil_r; by apply stays_At|]. cbv zeta.
  set (n := normalizeText _). clearbody n. apply At_insertLines; [done|]. unfold insertLines.
  destruct (splitLines n) as [|first rest]; [|destruct rest as [|l2 rest]]; [by apply inserted_line..|].
  set (rs := l2 :: rest). rewrite (before_cursor e z He), (after_cursor e z He). unfold toState. cbn [above left_ right_ below].
  unfold changed, log. cbn. rewrite He. unfold toState. cbn [lines cursorLine cursorCol above left_ right_ below].
  rewrite slice_lines, sliceFrom_next. f_equal.
  - by rewrite <- !(assoc_L (++)).
  - by rewrite (len_app (above z)), len_cons, (len_removelast rs).
Qed.

(** The middle lines are spliced in one after another. *)
Lemma splice_middle (p b : list jstr) i mids : forall k, len p = (i + Z.of_nat k)%Z ->
  fold_left (fun ls '(k, l) => splice (i + Z.of_nat k) 0 [l] ls) (zip (seq k (length mids)) mids) (p ++ b) = p ++ mids ++ b.
Proof.
  revert p. induction mids as [|m mids IH]; intros p k Hp; cbn [length seq zip_with fold_left]; [done|].
  rewrite <- Hp, splice_insert. change (p ++ m :: b) with (p ++ [m] ++ b). rewrite (assoc_L (++)), IH.
  - by rewrite <- (assoc_L (++)).
  - rewrite len_app, Hp. unfold len. cbn [length]. lia.
Qed.

Lemma insertYankedText_At e b a t : At e b a -> At (insertYankedText t e) (b ++ t) a.
Proof.
  intros (z & Hz & He & <- & <-)%At_zipper. unfold insertYankedText.
  set (e1 := exitHistoryBrowsing e). assert (He1 : state e1 = toState z) by exact He. clearbody e1. cbv zeta.
  apply At_insertLines; [done|]. unfold insertLines.
  destruct (splitLines t) as [|first rest]; [|destruct rest as [|l2 rest]]; [by apply inserted_line..|].
  set (rs := l2 :: rest). rewrite (before_cursor e1 z He1), (after_cursor e1 z He1).
  assert (Hr : len rs = (1 + len (removelast rs))%Z) by by apply len_removelast.
  replace (length rs - 1)%nat with (length (removelast rs)) by (unfold len in Hr; lia).
  unfold toState. cbn [above left_ right_ below]. unfold changed, log. cbn. rewrite He1. unfold toState.
  cbn [lines cursorLine cursorCol above left_ right_ below]. rewrite setLine_at.
  change (above z ++ (left_ z ++ first) :: below z) with (above z ++ [left_ z ++ first] ++ below z).
  rewrite (assoc_L (++) (above z)), (splice_middle _ _ (len (above z)) (removelast rs) 1) by (by rewrite len_app).
  rewrite (assoc_L (++) _ (removelast rs)), Hr. f_equal; [|by rewrite len_app, len_cons].
  set (p := (above z ++ [left_ z ++ first]) ++ removelast rs).
  replace (len (above z) + (1 + len (removelast rs)))%Z with (len p) by (unfold p; rewrite !len_app; unfold len; cbn [length]; lia).
  rewrite splice_insert. unfold p. by rewrite <- !(assoc_L (++)).
Qed.

Lemma deleteYankedText_At e b a t : peek (killRing e) = Some t -> At e (b ++ t) a -> At (deleteYankedText e) b a.
Proof.
  intros Hp HA. unfold deleteYankedText. rewrite Hp. destruct t as [|c0 t0]; [by rewrite app_nil_r in HA|].
  set (t := c0 :: t0) in *. clearbody t. assert (exists z, okZipper z /\ b = textBefore z /\ a = textAfter z) as (z & Hz & -> & ->).
  { exists (zipAt b a). split; [apply zipAt_ok|]. by rewrite textBefore_zipAt, textAfter_zipAt. }
  unfold At in HA. rewrite <- insertLines_state in HA by done. eapply zipper_At; [exact Hz| |done..].
  unfold insertLines in HA. destruct (splitLines t) as [|first rest]; [|destruct rest as [|l2 rest]].
  1,2: etransitivity; [exact (removed_before e _ HA (left_ z) t eq_refl)|by destruct z].
  set (rs := l2 :: rest) in *. assert (Hr : len rs = (1 + len (removelast rs))%Z) by by apply len_removelast.
  cbv zeta. rewrite (after_cursor e _ HA). cbn [right_]. unfold changed, log. cbn. rewrite HA. unfold toState.
  cbn [lines cursorLine cursorCol above left_ right_ below]. rewrite len_app, len_cons, <- Hr.
  replace (len (above z) + len rs - len rs)%Z with (len (above z)) by lia.
  rewrite <- (assoc_L (++)). cbn [app]. rewrite lineAt_at, len_app.
  replace (len (left_ z) + len first - len first)%Z with (len (left_ z)) by lia. rewrite slice_left. f_equal.
  set (del := (left_ z ++ first) :: removelast rs ++ [List.last rs [] ++ right_ z]).
  pose proof (splice_at (above z) del [left_ z ++ right_ z] (below z) (1 + len rs)) as Hs.
  unfold del in Hs. cbn [app] in Hs. rewrite <- (assoc_L (++)) in Hs. apply Hs. rewrite len_cons, len_app, Hr. unfold len. cbn [length]. lia.
Qed.
End Laws.

