(* ===== verification/TuiEditorSpec.v ===== *)
(** * Terminal UI: what the editor promises

    The abstract editor is a gap buffer: the text before the cursor, the text
    after it, the kill ring, and what was done last.  The operations of
    [TuiEditor] refine it; its laws (kills come back with a yank, yank-pops cycle
    through the ring) are then laws of the editor.  Also: undo, the reported
    changes of text, and the expansion of large pastes. *)
From S2P Require Import Prelude RgFingerprint Utf8 TuiText TuiWrap TuiEditor TuiZipper TuiEditorLaws.

#[local] Arguments len : simpl never.
#[local] Arguments toState : simpl never.
#[local] Arguments Z.add : simpl never.
#[local] Arguments Z.sub : simpl never.
#[local] Arguments getText : simpl never.

(** ** The abstract editor *)
Record Gap := { gBefore : jstr; gAfter : jstr; gRing : KillRing; gLast : option LastAction }.

Definition killsBefore (act : Action) : Prop := act = deleteToLineStart \/ act = deleteWordBackward.
Definition killsAfter (act : Action) : Prop := act = deleteToLineEnd \/ act = deleteWordForwardKey.
Definition horizontal (act : Action) : Prop :=
  act ∈ [cursorLineStart; cursorLineEnd; cursorWordLeft; cursorWordRight; cursorLeft; cursorRight].
Definition modal (act : Action) : Prop := act ∈ [jumpForward; jumpBackward; jumpCancel].

(** After a kill that removed nothing the last action may be what it was. *)
Definition lastAfterKill (g : jstr) (last last' : option LastAction) : Prop :=
  last' = Some act_kill \/ g = [] /\ last' = last.
Definition isKill (last : option LastAction) : bool := bool_decide (last = Some act_kill).

Inductive GapStep : Action -> Gap -> Gap -> Prop :=
| gap_insert c b a r l :
    GapStep (insert c) {| gBefore := b; gAfter := a; gRing := r; gLast := l |}
      {| gBefore := b ++ c; gAfter := a; gRing := r; gLast := Some act_type_word |}
| gap_newLine b a r l :
    GapStep newLine {| gBefore := b; gAfter := a; gRing := r; gLast := l |}
      {| gBefore := b ++ [newline]; gAfter := a; gRing := r; gLast := None |}
| gap_backspace b g a r l : (b ++ g <> [] -> g <> []) ->
    GapStep deleteCharBackward {| gBefore := b ++ g; gAfter := a; gRing := r; gLast := l |}
      {| gBefore := b; gAfter := a; gRing := r; gLast := None |}
| gap_delete b g a r l : (g ++ a <> [] -> g <> []) ->
    GapStep deleteCharForward {| gBefore := b; gAfter := g ++ a; gRing := r; gLast := l |}
      {| gBefore := b; gAfter := a; gRing := r; gLast := None |}
| gap_kill_before act b g a r l l' : killsBefore act -> lastAfterKill g l l' ->
    GapStep act {| gBefore := b ++ g; gAfter := a; gRing := r; gLast := l |}
      {| gBefore := b; gAfter := a; gRing := push g true (isKill l) r; gLast := l' |}
| gap_kill_after act b g a r l l' : killsAfter act -> lastAfterKill g l l' ->
    GapStep act {| gBefore := b; gAfter := g ++ a; gRing := r; gLast := l |}
      {| gBefore := b; gAfter := a; gRing := push g false (isKill l) r; gLast := l' |}
| gap_yank b a r l t : peek r = Some t ->
    GapStep yankKey {| gBefore := b; gAfter := a; gRing := r; gLast := l |}
      {| gBefore := b ++ t; gAfter := a; gRing := r; gLast := Some act_yank |}
| gap_yank_nothing b a r l : peek r = None ->
    GapStep yankKey {| gBefore := b; gAfter := a; gRing := r; gLast := l |}
      {| gBefore := b; gAfter := a; gRing := r; gLast := l |}
| gap_yankPop b a r t : peek r = Some t -> (1 < length r)%nat ->
    GapStep yankPopKey {| gBefore := b ++ t; gAfter := a; gRing := r; gLast := Some act_yank |}
      {| gBefore := b ++ default [] (peek (rotate r)); gAfter := a; gRing := rotate r; gLast := Some act_yank |}
| gap_yankPop_nothing b a r l : l <> Some act_yank \/ (length r <= 1)%nat ->
    GapStep yankPopKey {| gBefore := b; gAfter := a; gRing := r; gLast := l |}
      {| gBefore := b; gAfter := a; gRing := r; gLast := l |}
| gap_move act b a b' a' r l : horizontal act \/ (exists c, act = jump c) -> b ++ a = b' ++ a' ->
    GapStep act {| gBefore := b; gAfter := a; gRing := r; gLast := l |}
      {| gBefore := b'; gAfter := a'; gRing := r; gLast := None |}
| gap_modal act b a r l : modal act \/ (exists c, act = jump c) ->
    GapStep act {| gBefore := b; gAfter := a; gRing := r; gLast := l |}
      {| gBefore := b; gAfter := a; gRing := r; gLast := l |}.

Inductive GapRun : list Action -> Gap -> Gap -> Prop :=
| gap_done g : GapRun [] g g
| gap_more act acts g1 g2 g3 : GapStep act g1 g2 -> GapRun acts g2 g3 -> GapRun (act :: acts) g1 g3.

(** Behind a yank is the newest entry of the ring. *)
Definition yankedAtEnd (g : Gap) : Prop :=
  gLast g = Some act_yank -> exists b t, gBefore g = b ++ t /\ peek (gRing g) = Some t.

Lemma peek_rotate (r : KillRing) t : peek r = Some t -> exists t', peek (rotate r) = Some t'.
Proof.
  intros Hp. unfold peek in *. apply last_Some in Hp as [r0 ->]. destruct r0 as [|x r0].
  - exists t. done.
  - rewrite rotate_snoc by done. destruct (last (t :: x :: r0)) eqn:E; [by eauto|]. by apply last_None in E.
Qed.

Lemma yankedAtEnd_step act g g' : GapStep act g g' -> yankedAtEnd g -> yankedAtEnd g'.
Proof.
  unfold yankedAtEnd. intros H Hy. destruct H; cbn [gBefore gAfter gRing gLast] in *; try done.
  - intros ->. destruct H0 as [|[-> Hl]]; [done|]. cbn [push]. rewrite app_nil_r in Hy. by apply Hy.
  - intros ->. destruct H0 as [|[-> Hl]]; [done|]. cbn [push]. by apply Hy.
  - intros _. by exists b, t.
  - intros _. destruct (peek_rotate r t H) as [t' Ht]. exists b, t'. by rewrite Ht.
Qed.

(** ** Moving *)
Section Moves.
Context {X U : Type} `{UL : UnicodeLaws} `{EditorHost X U}.
Implicit Types e : Editor (X := X) (U := U).

Lemma state_bounds b a : let s := stateAt b a in
  (0 <= cursorLine s < len (lines s))%Z /\ (0 <= cursorCol s <= len (lineAt (lines s) (cursorLine s)))%Z
  /\ Forall noNewline (lines s).
Proof.
  cbv zeta. pose proof (zipAt_ok b a) as [H1 H2 H3 H4]. unfold stateAt. set (z := zipAt b a) in *. unfold toState.
  cbn [lines cursorLine cursorCol]. rewrite lineAt_at, !len_app, len_cons. split; [unfold len; lia|]. split; [unfold len; lia|].
  apply Forall_app. split; [done|]. constructor; [by apply noNewline_app|done].
Qed.

(** A place in the same lines is a place in the same text. *)
Lemma in_text s : Forall noNewline (lines s) -> (0 <= cursorLine s < len (lines s))%Z ->
  (0 <= cursorCol s <= len (lineAt (lines s) (cursorLine s)))%Z -> exists b a, s = stateAt b a.
Proof.
  intros Hn Hl Hc. destruct (lookup_lt_is_Some_2 (lines s) (Z.to_nat (cursorLine s))) as [l E]; [unfold len in *; lia|].
  assert (Hline : lineAt (lines s) (cursorLine s) = l).
  { unfold lineAt. by rewrite (proj2 (Z.ltb_ge _ _)), E by lia. }
  rewrite Hline in Hc. destruct (list_elem_of_split_length _ _ _ E) as (p & q & Hp & Hlen).
  set (c := Z.to_nat (cursorCol s)).
  set (z := {| above := p; left_ := take c l; right_ := drop c l; below := q |}).
  assert (Hz : okZipper z).
  { rewrite Hp in Hn. apply Forall_app in Hn as [Hn1 [Hl1 Hn2]%Forall_cons].
    rewrite <- (take_drop c l) in Hl1. apply noNewline_app in Hl1 as [? ?]. by split. }
  exists (textBefore z), (textAfter z). rewrite <- toState_at by done. unfold toState, z. cbn. rewrite take_drop, <- Hp.
  destruct s as [ls cl cc]. cbn in *. f_equal; unfold len in *; rewrite ?length_take; lia.
Qed.

Lemma moved_At e e' b a : At e b a -> lines (state e') = lines (state e) ->
  (0 <= cursorLine (state e') < len (lines (state e)))%Z ->
  (0 <= cursorCol (state e') <= len (lineAt (lines (state e)) (cursorLine (state e'))))%Z ->
  exists b' a', b ++ a = b' ++ a' /\ At e' b' a'.
Proof.
  intros HA Hl Hi Hc. destruct (in_text (state e')) as (b' & a' & E); rewrite ?Hl; try done.
  - rewrite HA. apply state_bounds.
  - exists b', a'. split; [|done]. rewrite <- !getText_at, <- HA, <- E. unfold getText. by rewrite Hl.
Qed.

Lemma column_At e e' b a c : At e b a -> state e' = state (setCursorCol c e) -> (0 <= c <= len (currentLine e))%Z ->
  exists b' a', b ++ a = b' ++ a' /\ At e' b' a'.
Proof.
  intros HA Hs Hc. apply (moved_At e); rewrite ?Hs; try done. unfold At in HA. cbn. rewrite HA. apply state_bounds.
Qed.

Lemma cursor_bounds e b a : At e b a ->
  (0 <= cursorLine (state e) < len (lines (state e)))%Z /\ (0 <= col e <= len (currentLine e))%Z.
Proof. intros HA. unfold At in HA. unfold col, currentLine. rewrite HA. destruct (state_bounds b a) as (? & ? & _). by split. Qed.

Lemma previous_line_At e b a : At e b a -> (0 < cursorLine (state e))%Z ->
  let e' := set_cursorLine (cursorLine (state e) - 1) e in
  exists b' a', b ++ a = b' ++ a' /\ At (setCursorCol (len (currentLine e')) e') b' a'.
Proof.
  intros HA Hl e'. destruct (cursor_bounds e b a HA) as [Hb _]. apply (moved_At e); [done|done|cbn; lia|]. cbn.
  unfold currentLine. cbn. split; [apply len_nonneg|done].
Qed.
Lemma next_line_At e b a : At e b a -> (cursorLine (state e) < len (lines (state e)) - 1)%Z ->
  exists b' a', b ++ a = b' ++ a' /\ At (setCursorCol 0 (set_cursorLine (cursorLine (state e) + 1) e)) b' a'.
Proof.
  intros HA Hl. destruct (cursor_bounds e b a HA) as [Hb _]. apply (moved_At e); [done|done|cbn; lia|]. cbn.
  split; [done|apply len_nonneg].
Qed.
Lemma stays_move e b a : At e b a -> exists b' a', b ++ a = b' ++ a' /\ At e b' a'.
Proof. intros HA. by exists b, a. Qed.

Lemma moveWordBackwards_At e b a : At e b a -> exists b' a', b ++ a = b' ++ a' /\ At (moveWordBackwards e) b' a'.
Proof.
  intros HA. unfold moveWordBackwards. set (e1 := set_lastAction None e). assert (HA1 : At e1 b a) by exact HA. clearbody e1.
  cbv zeta. destruct (cursor_bounds e1 b a HA1) as [Hl Hc]. destruct (Z.eqb_spec (col e1) 0).
  - destruct (Z.ltb_spec 0 (cursorLine (state e1))); [by apply previous_line_At|by apply stays_move].
  - eapply column_At; [done..|]. pose proof (findWordBackward_bounds (segmentWords e1) isPasteMarker (currentLine e1) (col e1) (words_short e1) Hc). lia.
Qed.
Lemma moveWordForwards_At e b a : At e b a -> exists b' a', b ++ a = b' ++ a' /\ At (moveWordForwards e) b' a'.
Proof.
  intros HA. unfold moveWordForwards. set (e1 := set_lastAction None e). assert (HA1 : At e1 b a) by exact HA. clearbody e1.
  cbv zeta. destruct (cursor_bounds e1 b a HA1) as [Hl Hc]. destruct (Z.leb_spec (len (currentLine e1)) (col e1)).
  - destruct (Z.ltb_spec (cursorLine (state e1)) (len (lines (state e1)) - 1)); [by apply next_line_At|by apply stays_move].
  - eapply column_At; [done..|]. pose proof (findWordForward_bounds (segmentWords e1) isPasteMarker (currentLine e1) (col e1) (words_short e1) Hc). lia.
Qed.

Lemma len_slice_left (l : jstr) c : (0 <= c <= len l)%Z -> len (slice l 0 c) = c.
Proof. intros Hc. rewrite slice_prefix by lia. unfold len in *. rewrite length_take. lia. Qed.
Lemma len_sliceFrom (l : jstr) c : (0 <= c <= len l)%Z -> len (sliceFrom l c) = (len l - c)%Z.
Proof. intros Hc. rewrite sliceFrom_drop by lia. unfold len in *. rewrite length_drop. lia. Qed.

Lemma moveLeft_At e e' b a : At e b a -> moveLeft e = Some e' -> exists b' a', b ++ a = b' ++ a' /\ At e' b' a'.
Proof.
  intros HA. unfold moveLeft. set (e1 := set_lastAction None e). assert (HA1 : At e1 b a) by exact HA. clearbody e1.
  cbv zeta. intros (vls & _ & [= <-])%bind_Some. destruct (cursor_bounds e1 b a HA1) as [Hl Hc].
  destruct (Z.ltb_spec 0 (col e1)).
  - eapply column_At; [done..|]. pose proof (len_slice_left (currentLine e1) (col e1) Hc) as Hs.
    destruct (last_grapheme_removes e1 (slice (currentLine e1) 0 (col e1))) as (l & g & Hg & _ & Hn);
      [intros E; rewrite E in Hs; unfold len in Hs; cbn in Hs; lia|].
    rewrite Hg, len_app in Hs. unfold graphemeLength in Hn. rewrite Hn. unfold len in *. lia.
  - destruct (Z.ltb_spec 0 (cursorLine (state e1))); [by apply previous_line_At|by apply stays_move].
Qed.
Lemma moveRight_At e e' b a : At e b a -> moveRight e = Some e' -> exists b' a', b ++ a = b' ++ a' /\ At e' b' a'.
Proof.
  intros HA. unfold moveRight. set (e1 := set_lastAction None e). assert (HA1 : At e1 b a) by exact HA. clearbody e1.
  cbv zeta. intros (vls & _ & [= <-])%bind_Some. destruct (cursor_bounds e1 b a HA1) as [Hl Hc].
  destruct (Z.ltb_spec (col e1) (len (currentLine e1))).
  - eapply column_At; [done..|]. pose proof (len_sliceFrom (currentLine e1) (col e1) Hc) as Hs.
    destruct (first_grapheme_removes e1 (sliceFrom (currentLine e1) (col e1))) as (g & l & Hg & _ & Hn);
      [intros E; rewrite E in Hs; unfold len in Hs; cbn in Hs; unfold len in *; lia|].
    rewrite Hg, len_app in Hs. unfold graphemeLength in Hn. rewrite Hn. unfold len in *. lia.
  - destruct (Z.ltb_spec (cursorLine (state e1)) (len (lines (state e1)) - 1)); [by apply next_line_At|].
    destruct (vls !! _); by apply stays_move.
Qed.

Lemma indexOfFrom_bound s sub from i : indexOfFrom s sub from = Some i -> (i <= length s)%nat.
Proof.
  unfold indexOfFrom. intros (k & Hk & ->)%fmap_Some. apply indexOf_some in Hk as (x & y & E & <-).
  apply (f_equal length) in E. rewrite length_drop, !length_app in E. lia.
Qed.
Lemma lastIndexOf_bound s sub from i : lastIndexOf s sub from = Some i -> (i <= length s)%nat.
Proof.
  unfold lastIndexOf. case_match; [done|]. intros E. enough (forall n, lastIndexOf_go s sub n = Some i -> (i <= n)%nat) as Hn.
  { apply Hn in E. lia. }
  clear E. intros n. induction n as [|n IH]; cbn; case_match; try done; intros E; [by simplify_eq|simplify_eq; lia|].
  apply IH in E. lia.
Qed.

Lemma jump_loop_At char dir e b a : At e b a -> forall fuel i, (dir = forward -> 0 <= i)%Z -> (dir = backward -> i < len (lines (state e)))%Z ->
  exists b' a', b ++ a = b' ++ a' /\ At (jump_loop char dir fuel i e) b' a'.
Proof.
  intros HA fuel. induction fuel as [|f IH]; intros i Hf Hb; cbn [jump_loop]; [by apply stays_move|].
  destruct (match dir with forward => _ | backward => _ end) eqn:Eout; [by apply stays_move|]. cbv zeta.
  assert (Hi : (0 <= i < len (lines (state e)))%Z).
  { destruct dir; [apply Z.leb_gt in Eout; specialize (Hf eq_refl)|apply Z.ltb_ge in Eout; specialize (Hb eq_refl)]; lia. }
  set (idx := match dir with forward => indexOfFrom _ _ _ | backward => _ end).
  assert (Hidx : forall k, idx = Some k -> (k <= length (lineAt (lines (state e)) i))%nat).
  { intros k. unfold idx. destruct dir; [apply indexOfFrom_bound|apply lastIndexOf_bound]. }
  destruct idx as [k|].
  - specialize (Hidx k eq_refl). apply (moved_At e); [done|done|done|]. cbn. unfold len. lia.
  - apply IH; intros ->; lia.
Qed.

Lemma jumpToChar_At char dir e b a : At e b a -> exists b' a', b ++ a = b' ++ a' /\ At (jumpToChar char dir e) b' a'.
Proof.
  intros HA. unfold jumpToChar. destruct (cursor_bounds e b a HA) as [Hl _]. 
  apply jump_loop_At; [exact HA|intros _; apply Hl|intros _; apply Hl].
Qed.
End Moves.

(** ** The refinement *)
Section Refinement.
Context {X U : Type} `{UL : UnicodeLaws} `{EditorHost X U}.
Implicit Types e : Editor (X := X) (U := U).

(** The editor at an abstract state. *)
Definition Sim e (g : Gap) : Prop := At e (gBefore g) (gAfter g) /\ killRing e = gRing g /\ lastAction e = gLast g.

(** The actions on the text around the cursor. *)
Definition textAction (act : Action) : bool :=
  match act with
  | paste _ | submitKey _ | undoKey | historyPrevious | historyNext | cursorUpKey | cursorDownKey | pageUp | pageDown => false
  | _ => true
  end.

(** Typed text is within a line; a backspace on a paste marker renumbers nothing. *)
Definition tame (act : Action) e : Prop :=
  match act with insert c => noNewline c | deleteCharBackward => renumbersNothing e | _ => True end.

Lemma step_move act e e' g : Sim e g -> horizontal act \/ (exists c, act = jump c) ->
  (exists b' a', gBefore g ++ gAfter g = b' ++ a' /\ At e' b' a') -> killRing e' = killRing e -> lastAction e' = None ->
  exists g', GapStep act g g' /\ Sim e' g'.
Proof.
  destruct g as [b a r l]. intros (HA & HR & HL) Ha (b' & a' & E & HA') HR' HL'. cbn in *.
  eexists. split; [by apply gap_move|]. by rewrite <- HR, <- HR'.
Qed.

Lemma frame_insertCharacter c e : killRing (insertCharacter c e) = killRing e /\ lastAction (insertCharacter c e) = Some act_type_word.
Proof. unfold insertCharacter. cbv zeta. by case_match. Qed.
Lemma frame_backspace e : killRing (handleBackspace e) = killRing e /\ lastAction (handleBackspace e) = None.
Proof. unfold handleBackspace. cbv zeta. by repeat case_match. Qed.
Lemma frame_delete e : killRing (handleForwardDelete e) = killRing e /\ lastAction (handleForwardDelete e) = None.
Proof. unfold handleForwardDelete. cbv zeta. by repeat case_match. Qed.
Lemma frame_moveWordBackwards e : killRing (moveWordBackwards e) = killRing e /\ lastAction (moveWordBackwards e) = None.
Proof. unfold moveWordBackwards. cbv zeta. by repeat case_match. Qed.
Lemma frame_moveWordForwards e : killRing (moveWordForwards e) = killRing e /\ lastAction (moveWordForwards e) = None.
Proof. unfold moveWordForwards. cbv zeta. by repeat case_match. Qed.
Lemma frame_moveLeft e e' : moveLeft e = Some e' -> killRing e' = killRing e /\ lastAction e' = None.
Proof. unfold moveLeft. cbv zeta. intros (vls & _ & [= <-])%bind_Some. by repeat case_match. Qed.
Lemma frame_moveRight e e' : moveRight e = Some e' -> killRing e' = killRing e /\ lastAction e' = None.
Proof. unfold moveRight. cbv zeta. intros (vls & _ & [= <-])%bind_Some. by repeat case_match. Qed.
Lemma frame_jump_loop c d n i e : killRing (jump_loop c d n i e) = killRing e /\ lastAction (jump_loop c d n i e) = lastAction e.
Proof. revert i. induction n as [|n IH]; intros i; cbn [jump_loop]; [done|]. cbv zeta. by repeat case_match. Qed.
Lemma frame_insertYanked t e : killRing (insertYankedText t e) = killRing e /\ lastAction (insertYankedText t e) = lastAction e.
Proof. unfold insertYankedText. cbv zeta. by repeat case_match. Qed.
Lemma frame_deleteYanked e : killRing (deleteYankedText e) = killRing e /\ lastAction (deleteYankedText e) = lastAction e.
Proof. unfold deleteYankedText. cbv zeta. by repeat case_match. Qed.

Lemma yank_some e g t : Sim e g -> peek (gRing g) = Some t ->
  Sim (yank e) {| gBefore := gBefore g ++ t; gAfter := gAfter g; gRing := gRing g; gLast := Some act_yank |}.
Proof.
  intros (HA & HR & HL) Hp. unfold yank. rewrite HR, Hp. split; [|split; [|done]].
  - by apply (insertYankedText_At (pushUndoSnapshot e)).
  - etransitivity; [exact (proj1 (frame_insertYanked t (pushUndoSnapshot e)))|exact HR].
Qed.

Lemma yankPop_some e b a r t : Sim e {| gBefore := b ++ t; gAfter := a; gRing := r; gLast := Some act_yank |} ->
  peek r = Some t -> (1 < length r)%nat ->
  Sim (yankPop e) {| gBefore := b ++ default [] (peek (rotate r)); gAfter := a; gRing := rotate r; gLast := Some act_yank |}.
Proof.
  intros (HA & HR & HL) Hp Hr. cbn in *. unfold yankPop. rewrite HL, bool_decide_true by done. rewrite HR.
  rewrite (proj2 (Nat.leb_gt _ _)) by done. cbn [negb orb]. cbv zeta.
  set (e1 := deleteYankedText (pushUndoSnapshot e)).
  assert (HA1 : At e1 b a). { apply (deleteYankedText_At _ b a t); [cbn; by rewrite HR|exact HA]. }
  assert (HR1 : killRing e1 = r) by (unfold e1; by rewrite (proj1 (frame_deleteYanked _))).
  clearbody e1. rewrite HR1. split; [|split; [|done]].
  - by apply (insertYankedText_At (set_killRing (rotate r) e1)).
  - exact (proj1 (frame_insertYanked _ (set_killRing (rotate r) e1))).
Qed.

Lemma kill_before_step act e e' g : Sim e g -> killsBefore act ->
  (exists b' k, gBefore g = b' ++ k /\ At e' b' (gAfter g) /\ Killed e e' k true) -> exists g', GapStep act g g' /\ Sim e' g'.
Proof.
  destruct g as [b a r l]. intros (HA & HR & HL) Ha (b' & k & E & HA' & HK & HKL). cbn in *. subst.
  eexists. split; [by apply gap_kill_before|]. done.
Qed.
Lemma kill_after_step act e e' g : Sim e g -> killsAfter act ->
  (exists k a', gAfter g = k ++ a' /\ At e' (gBefore g) a' /\ Killed e e' k false) -> exists g', GapStep act g g' /\ Sim e' g'.
Proof.
  destruct g as [b a r l]. intros (HA & HR & HL) Ha (k & a' & E & HA' & HK & HKL). cbn in *. subst.
  eexists. split; [by apply gap_kill_after|]. done.
Qed.

Lemma yankPop_step e g : Sim e g -> yankedAtEnd g -> exists g', GapStep yankPopKey g g' /\ Sim (yankPop e) g'.
Proof.
  intros HS Hy. destruct g as [b a r l]. destruct (decide (l = Some act_yank)) as [->|Hl]; [destruct (Nat.leb_spec (length r) 1)|].
  2: { destruct (Hy eq_refl) as (b0 & t & E & Hp). cbn in E, Hp. subst b. eexists. split; [by apply gap_yankPop|]. by apply (yankPop_some _ _ _ _ t). }
  all: eexists; split; [apply gap_yankPop_nothing; by (left + right)|].
  all: destruct HS as (HA & HR & HL); cbn in HR, HL; unfold yankPop; rewrite HL, HR.
  - rewrite (proj2 (Nat.leb_le _ _)), orb_true_r by done. done.
  - by rewrite bool_decide_false.
Qed.

Lemma simulation act e e' g : Sim e g -> (act = yankPopKey -> yankedAtEnd g) -> textAction act = true -> tame act e -> perform act e = Some e' ->
  exists g', GapStep act g g' /\ Sim e' g'.
Proof.
  intros HS Hy Ha Ht He. pose proof HS as (HA & HR & HL).
  destruct act; try done; cbn [perform tame] in *; try (injection He as <-).
  - destruct (frame_insertCharacter char e). destruct g. eexists. split; [apply gap_insert|]. split; [by apply insertCharacter_At|].
    cbn in *. by split; congruence.
  - destruct g. eexists. split; [apply gap_newLine|]. split; [by apply addNewLine_At|done].
  - destruct (handleBackspace_At e _ _ HA Ht) as (b' & k & [E Hk] & HA'). destruct (frame_backspace e), g. cbn in *. subst.
    eexists. split; [by apply gap_backspace|]. by split.
  - destruct (handleForwardDelete_At e _ _ HA) as (k & a' & E & Hk & HA'). destruct (frame_delete e), g. cbn in *. subst.
    eexists. split; [by apply gap_delete|]. by split.
  - apply (kill_before_step _ e); [done|by left|]. destruct (deleteToStartOfLine_At e _ _ HA) as (b' & k & [E _] & HH). by exists b', k.
  - apply (kill_after_step _ e); [done|by left|]. destruct (deleteToEndOfLine_At e _ _ HA) as (k & a' & E & _ & HH). by exists k, a'.
  - apply (kill_before_step _ e); [done|by right|]. by apply deleteWordBackwards_At.
  - apply (kill_after_step _ e); [done|by right|]. by apply deleteWordForward_At.
  - destruct (peek (gRing g)) as [t|] eqn:Hp.
    + pose proof (yank_some e g t HS Hp) as HS'. destruct g. eexists. split; [by apply gap_yank|exact HS'].
    + destruct g. eexists. split; [by apply gap_yank_nothing|]. cbn [gRing gBefore gAfter gLast] in *. unfold yank. by rewrite HR, Hp.
  - by apply yankPop_step, Hy.
  - apply (step_move _ e); [done|left; set_solver| |done..]. destruct (cursor_bounds e _ _ HA). eapply column_At; [done..|]. unfold len; lia.
  - apply (step_move _ e); [done|left; set_solver| |done..]. destruct (cursor_bounds e _ _ HA). eapply column_At; [done..|]. unfold len; lia.
  - destruct (frame_moveWordBackwards e). apply (step_move _ e); [done|left; set_solver|by apply moveWordBackwards_At|done..].
  - destruct (frame_moveWordForwards e). apply (step_move _ e); [done|left; set_solver|by apply moveWordForwards_At|done..].
  - destruct (frame_moveLeft e e' He). apply (step_move _ e); [done|left; set_solver|by apply (moveLeft_At e)|done..].
  - destruct (frame_moveRight e e' He). apply (step_move _ e); [done|left; set_solver|by apply (moveRight_At e)|done..].
  - destruct g. eexists. split; [apply gap_modal; left; set_solver|exact HS].
  - destruct g. eexists. split; [apply gap_modal; left; set_solver|exact HS].
  - destruct (jumpMode e) as [d|].
    + apply (step_move _ e); [done|right; by eexists|by apply (jumpToChar_At char d (set_jumpMode None e))|..]; unfold jumpToChar.
      * by rewrite (proj1 (frame_jump_loop _ _ _ _ _)).
      * by rewrite (proj2 (frame_jump_loop _ _ _ _ _)).
    + destruct g. eexists. split; [apply gap_modal; right; by eexists|exact HS].
  - destruct g. eexists. split; [apply gap_modal; left; set_solver|exact HS].
Qed.
End Refinement.

(** ** Kills and yanks of the abstract editor *)
Definition kills (act : Action) : Prop := killsBefore act \/ killsAfter act.

Lemma kill_step_inv act g g' : GapStep act g g' -> kills act ->
  exists k1 k2, gBefore g = gBefore g' ++ k1 /\ gAfter g = k2 ++ gAfter g' /\ (k1 = [] \/ k2 = []) /\
    gRing g' = push k1 true (isKill (gLast g)) (push k2 false (isKill (gLast g)) (gRing g)) /\
    lastAfterKill (k1 ++ k2) (gLast g) (gLast g').
Proof.
  unfold kills, killsBefore, killsAfter. intros Hs Hk.
  destruct Hs; try (exfalso; naive_solver); cbn [gBefore gAfter gRing gLast].
  - exists g, []. rewrite app_nil_r. cbn [push app]. naive_solver.
  - exists [], g. rewrite app_nil_r. cbn [push app]. naive_solver.
  - exfalso. unfold horizontal in *. set_solver.
  - exfalso. unfold modal in *. set_solver.
Qed.

Lemma peek_kill k1 k2 r l : (k1 = [] \/ k2 = []) -> peek r = Some l ->
  peek (push k1 true true (push k2 false true r)) = Some (k1 ++ l ++ k2).
Proof.
  intros Hor Hp. destruct k1 as [|c k1].
  - cbn [push app]. destruct k2; [by rewrite app_nil_r|]. by rewrite peek_push, Hp.
  - destruct Hor as [| ->]; [done|]. rewrite peek_push by done. cbn [push]. rewrite Hp, app_nil_r. done.
Qed.

(** Kills in a row gather on the newest entry of the ring. *)
Lemma kills_gather acts g g' : GapRun acts g g' -> Forall kills acts -> gLast g = Some act_kill -> forall k0, peek (gRing g) = Some k0 ->
  exists k1 k2, gBefore g = gBefore g' ++ k1 /\ gAfter g = k2 ++ gAfter g' /\ peek (gRing g') = Some (k1 ++ k0 ++ k2).
Proof.
  induction 1 as [g|act acts g1 g2 g3 Hs Hr IH]; intros Hk Hl k0 Hp.
  - exists [], []. by rewrite !app_nil_r.
  - apply Forall_cons in Hk as [Hk1 Hk]. destruct (kill_step_inv act g1 g2 Hs Hk1) as (j1 & j2 & Hb & Ha & Hor & Hring & Hlast).
    rewrite Hl in *. assert (gLast g2 = Some act_kill) by (by destruct Hlast as [|[_ ->]]).
    destruct (IH Hk H (j1 ++ k0 ++ j2)) as (k1 & k2 & Hb' & Ha' & Hp').
    { rewrite Hring. unfold isKill. rewrite bool_decide_true by done. by apply peek_kill. }
    exists (k1 ++ j1), (j2 ++ k2). rewrite Hb, Hb', Ha, Ha', Hp', <- !(assoc_L (++)). done.
Qed.

Lemma iter_rotate (r : list jstr) k : (k <= length r)%nat ->
  Nat.iter k rotate r = drop (length r - k) r ++ take (length r - k) r.
Proof.
  induction k as [|k IH]; intros Hk; cbn [Nat.iter].
  - rewrite Nat.sub_0_r, drop_all, take_ge by lia. done.
  - change (Nat.iter (S k) rotate r) with (rotate (Nat.iter k rotate r)). rewrite IH by lia.
    destruct (lookup_lt_is_Some_2 r (length r - S k)) as [x Hx]; [lia|].
    replace (length r - k)%nat with (S (length r - S k)) by lia.
    rewrite (take_S_r _ _ _ Hx), (assoc_L (++)), (drop_S _ _ _ Hx).
    destruct (decide (length r = 1)%nat) as [Hl|Hl].
    + destruct r as [|y [|]]; try (cbn in *; lia). assert (k = 0)%nat as -> by (cbn in Hk; lia). cbn in *. by simplify_eq.
    + rewrite rotate_snoc; [done|]. intros E%(f_equal length). rewrite length_app, length_drop, length_take in E. cbn in E. lia.
Qed.
Lemma peek_rotated (r : list jstr) k : (k < length r)%nat ->
  peek (drop (length r - k) r ++ take (length r - k) r) = r !! (length r - 1 - k)%nat.
Proof.
  intros Hk. destruct (lookup_lt_is_Some_2 r (length r - S k)) as [x Hx]; [lia|].
  replace (length r - k)%nat with (S (length r - S k)) by lia. replace (length r - 1 - k)%nat with (length r - S k)%nat by lia.
  rewrite Hx, (take_S_r _ _ _ Hx), (assoc_L (++)). apply last_snoc.
Qed.

Section Properties.
Context {X U : Type} `{UL : UnicodeLaws} `{EditorHost X U}.
Implicit Types e : Editor (X := X) (U := U).

Fixpoint tameRun (acts : list Action) e : Prop :=
  match acts with
  | [] => True
  | a :: rest => textAction a = true /\ tame a e /\ forall e', perform a e = Some e' -> tameRun rest e'
  end.

Lemma tameRun_step a rest e e1 : perform a e = Some e1 -> textAction a = true -> tame a e -> tameRun rest e1 -> tameRun (a :: rest) e.
Proof. intros Hp Ha Ht Hr. split; [done|]. split; [done|]. intros e' He'. rewrite Hp in He'. by injection He' as <-. Qed.

Lemma runs_refine acts e e' g : Sim e g -> yankedAtEnd g \/ Forall kills acts -> tameRun acts e -> performs acts e = Some e' ->
  exists g', GapRun acts g g' /\ Sim e' g' /\ (yankedAtEnd g -> yankedAtEnd g').
Proof.
  revert e g. induction acts as [|a acts IH]; intros e g HS Hy Ht; cbn [performs].
  - intros [= <-]. exists g. split; [constructor|done].
  - destruct Ht as (Ha & Ht & Hr). intros (e1 & He1 & He')%bind_Some.
    destruct (simulation a e e1 g HS) as (g1 & Hg1 & HS1); [|done..|].
    { destruct Hy as [|[[[->| ->]|[->| ->]] _]%Forall_cons]; done. }
    destruct (IH e1 g1 HS1) as (g' & Hg' & HS' & Hy'); [|by apply Hr|done|].
    { destruct Hy as [Hy|[_ Hk]%Forall_cons]; [left; by eapply yankedAtEnd_step|by right]. }
    exists g'. split; [by eapply gap_more|]. split; [done|]. intros Hg. by eapply Hy', yankedAtEnd_step.
Qed.

Lemma sim_of e b a : At e b a -> Sim e {| gBefore := b; gAfter := a; gRing := killRing e; gLast := lastAction e |}.
Proof. done. Qed.
Lemma sim_text e g : Sim e g -> getText (state e) = gBefore g ++ gAfter g.
Proof. intros [HA _]. unfold At in HA. by rewrite HA, getText_at. Qed.

Lemma kills_tame acts e : Forall kills acts -> tameRun acts e.
Proof.
  intros Hk. revert e. induction Hk as [|a acts Ha Hk IH]; intros e; [done|].
  destruct Ha as [[->| ->]|[->| ->]]; (split; [done|split; [done|]]); intros; apply IH.
Qed.

(** C23: The editor refines its abstract specification.  An editor whose cursor is
    in its text, with whatever is on its kill ring (its newest entry before the cursor
    if the last action was a yank), does under every sequence of typed characters, new
    lines, deletions, kills, yanks, yank-pops, moves by characters and words and jumps
    what the gap buffer does, as long as the calls return: typing and yanking insert
    before the cursor, deletions and kills remove beside it, kills go to the ring,
    moves keep the text, and the cursor stays in the text.  Pastes, vertical moves,
    history, submission and undo are not among these actions, no typed text holds a
    line break, and no backspace deletes a paste marker while another one stands in
    the text that it renumbers. *)
Theorem editor_refines_gap_buffer (acts : list Action) e e' g :
  Sim e g -> yankedAtEnd g -> tameRun acts e -> performs acts e = Some e' ->
  exists g', GapRun acts g g' /\ Sim e' g' /\ yankedAtEnd g' /\ getText (state e') = gBefore g' ++ gAfter g'.
Proof.
  intros HS Hy Ht He. destruct (runs_refine acts e e' g HS (or_introl Hy) Ht He) as (g' & Hr & HS' & Hy').
  exists g'. split; [done|]. split; [done|]. split; [by apply Hy'|by apply sim_text].
Qed.

(** Killed text comes back.  After kills in a row, in either direction, by
    words or to the ends of lines, the first of which removed something, a yank
    restores the text as it was before them. *)
Theorem kills_then_yank (act : Action) (more : list Action) e e1 e2 b a :
  At e b a -> lastAction e <> Some act_kill -> Forall kills (act :: more) ->
  perform act e = Some e1 -> getText (state e1) <> getText (state e) -> performs more e1 = Some e2 ->
  getText (state (yank e2)) = getText (state e).
Proof.
  intros HA Hnk [Hf Hm]%Forall_cons He1 Hch He2.
  set (g := {| gBefore := b; gAfter := a; gRing := killRing e; gLast := lastAction e |}).
  assert (HS : Sim e g) by by apply sim_of.
  destruct (simulation act e e1 g HS) as (g1 & Hs & HS1); [by destruct Hf as [[->| ->]|[->| ->]]..|done|].
  destruct (runs_refine more e1 e2 g1 HS1 (or_intror Hm) (kills_tame more e1 Hm) He2) as (g2 & Hr & HS2 & _).
  destruct (kill_step_inv act g g1 Hs Hf) as (k1 & k2 & Hb & Ha & Hor & Hring & Hlast).
  rewrite (sim_text e1 g1 HS1), (sim_text e g HS), Hb, Ha in Hch.
  assert (Hne : k1 ++ k2 <> []). { intros [-> ->]%app_eq_nil. apply Hch. by rewrite app_nil_r. }
  assert (Hp : peek (gRing g1) = Some (k1 ++ k2)).
  { rewrite Hring. unfold isKill. rewrite bool_decide_false by done.
    destruct Hor as [-> | ->]; [cbn [push app] in *|rewrite app_nil_r in *; cbn [push]]; (rewrite peek_push by done; by case_match). }
  destruct (kills_gather more g1 g2 Hr Hm) with (k0 := k1 ++ k2) as (j1 & j2 & Hb' & Ha' & Hp');
    [destruct Hlast as [|[E _]]; [done|by rewrite E in Hne]|done|].
  rewrite (sim_text _ _ (yank_some e2 g2 _ HS2 Hp')), (sim_text e g HS), Hb, Ha, Hb', Ha'. cbn [gBefore gAfter].
  rewrite <- !(assoc_L (++)). done.
Qed.

Lemma yank_pops_sim e b a k : At e b a -> killRing e <> [] -> let r := Nat.iter k rotate (killRing e) in
  exists t, peek r = Some t /\
  Sim (Nat.iter k yankPop (yank e)) {| gBefore := b ++ t; gAfter := a; gRing := r; gLast := Some act_yank |}.
Proof.
  intros HA Hne. induction k as [|k (t & Hp & HS)]; cbn [Nat.iter].
  - destruct (peek (killRing e)) as [t|] eqn:Hp; [|by apply last_None in Hp].
    exists t. split; [done|]. exact (yank_some e _ t (sim_of e b a HA) Hp).
  - cbv zeta in *. set (r := Nat.iter k rotate (killRing e)) in *. destruct (peek_rotate r t Hp) as [t' Hp'].
    exists t'. split; [done|]. change (Nat.iter (S k) yankPop (yank e)) with (yankPop (Nat.iter k yankPop (yank e))).
    change (Nat.iter (S k) rotate (killRing e)) with (rotate r). set (e' := Nat.iter k yankPop (yank e)) in *. clearbody e' r.
    destruct (Nat.leb_spec (length r) 1).
    + assert (rotate r = r) as Hrot. { unfold rotate. rewrite (proj2 (Nat.ltb_ge _ _)) by lia. by case_match. }
      destruct HS as (HS1 & HR & HL). cbn [gRing gLast] in HR, HL. unfold yankPop.
      rewrite HL, HR, (proj2 (Nat.leb_le _ _)), orb_true_r, Hrot by lia. rewrite Hrot in Hp'. by simplify_eq.
    + pose proof (yankPop_some e' b a r t HS Hp ltac:(done)) as HS'. by rewrite Hp' in HS'.
Qed.

(** Yank-pop walks through the kill ring.  After a yank and [k] yank-pops the
    entry [k] below the newest stands where the yank put the newest one, and
    after as many pops as the ring has entries the text is again what the yank
    made of it. *)
Theorem yank_pops_walk_the_ring e b a :
  At e b a -> killRing e <> [] ->
  (forall k, (k < length (killRing e))%nat -> exists t, (killRing e : list jstr) !! (length (killRing e) - 1 - k)%nat = Some t /\
     At (Nat.iter k yankPop (yank e)) (b ++ t) a)
  /\ state (Nat.iter (length (killRing e)) yankPop (yank e)) = state (yank e).
Proof.
  intros HA Hne. split.
  - intros k Hk. destruct (yank_pops_sim e b a k HA Hne) as (t & Hp & HS & _). exists t. split; [|exact HS].
    rewrite iter_rotate in Hp by lia. by rewrite <- (peek_rotated (killRing e) k Hk).
  - destruct (yank_pops_sim e b a (length (killRing e)) HA Hne) as (t & Hp & HS & _).
    destruct (yank_pops_sim e b a 0 HA Hne) as (t0 & Hp0 & HS0 & _). cbn [gBefore gAfter] in *.
    rewrite iter_rotate, Nat.sub_diag in Hp by lia. change (peek (killRing e) = Some t0) in Hp0. rewrite drop_0, app_nil_r in Hp.
    assert (t = t0) as -> by congruence. etransitivity; [exact HS|symmetry; exact HS0].
Qed.
End Properties.

(** ** Concrete runs *)
(** A host without extensions: nothing of it is captured, pastes are inserted as
    they are. *)
#[export] Instance plainHost : EditorHost unit unit := {|
  captureUndoExtensionState := fun _ => None; restoreUndoExtensionState := fun _ x => x;
  transformPaste := fun t => t; onPaste := fun _ => false; stack := 100; terminalRows := 24 |}.

Definition typed (acts : list Action) : Editor (X := unit) (U := unit) :=
  default (initial tt) (performs acts (initial tt)).

Lemma editor_refines_gap_buffer_witness :
  let acts := [insert (js "one two"); cursorWordLeft; newLine; deleteWordForwardKey; yankKey; deleteCharBackward] in
  let g := {| gBefore := []; gAfter := []; gRing := []; gLast := None |} in
  (exists e' g', performs acts (initial tt) = Some e' /\ GapRun acts g g' /\ Sim e' g' /\ yankedAtEnd g'
     /\ getText (state e') = gBefore g' ++ gAfter g')
  /\ getText (state (typed acts)) = js "one " ++ newline :: js "tw".
Proof.
  intros acts g. split; [|by vm_compute]. destruct (performs acts (initial tt)) as [e'|] eqn:E; [|by vm_compute in E].
  exists e'. destruct (editor_refines_gap_buffer acts (initial tt) e' g) as (g' & Hg); [done|done| |done|by exists g'].
  unfold acts. eapply tameRun_step; [reflexivity..|apply (bool_decide_eq_true_1 _); by vm_compute|].
  do 4 (eapply tameRun_step; [reflexivity..|exact I|]). eapply tameRun_step; [reflexivity..| |exact I].
  intros x m. vm_compute. by intros [= <-].
Defined.

Lemma kills_then_yank_witness :
  let e := typed [insert (js "one two"); newLine; insert (js "three"); cursorWordLeft] in
  let ks := [deleteWordBackward; deleteToLineEnd; deleteWordBackward] in
  exists e2, performs ks e = Some e2 /\ getText (state e2) = js "one "
    /\ getText (state (yank e2)) = getText (state e).
Proof.
  intros e ks. destruct (performs ks e) as [e2|] eqn:E; [|by vm_compute in E]. exists e2. split; [done|].
  split; [by vm_compute in E; simplify_eq|].
  destruct (perform deleteWordBackward e) as [e1|] eqn:E1; [|by vm_compute in E1].
  apply (kills_then_yank deleteWordBackward [deleteToLineEnd; deleteWordBackward] e e1 e2 (js "one two" ++ [newline]) (js "three")).
  - by vm_compute.
  - by vm_compute.
  - repeat constructor; by (left + right); (left + right).
  - done.
  - vm_compute in E1. simplify_eq. by vm_compute.
  - unfold ks in E. cbn [performs] in *. by rewrite E1 in E.
Defined.

Lemma yank_pops_walk_the_ring_witness :
  let e := typed [insert (js "one two"); deleteWordBackward; insert (js " "); deleteToLineStart] in
  killRing e = [js "two"; js "one  "] /\ At (Nat.iter 1 yankPop (yank e)) (js "two") [].
Proof.
  intros e. split; [by vm_compute|].
  destruct (yank_pops_walk_the_ring e [] []) as [H _]; [by vm_compute|by vm_compute|].
  destruct (H 1) as (t & Ht & HA); [by vm_compute|]. vm_compute in Ht. injection Ht as <-. exact HA.
Defined.
