(* ===== verification/TuiEditorUndo.v ===== *)
(** * Terminal UI: reported changes, undo, large pastes

    Three promises of the editor to its host and its user: the text last reported
    to [onChange] is the text, an undo takes an edit back, and the marker of a
    large paste is expanded when the text is submitted. *)
From S2P Require Import Prelude RgFingerprint Utf8 TuiText TuiWrap TuiEditor TuiZipper TuiEditorLaws TuiEditorSpec.

#[local] Arguments len : simpl never.
#[local] Arguments getText : simpl never.

(** The text of the last report; the editor starts with the empty text. *)
Definition reported (evs : list Event) : jstr :=
  fold_left (fun t ev => match ev with ev_change t' => t' | ev_submit _ _ => t end) evs [].

(** What the host calls, beside the user's actions. *)
Inductive Call :=
| act (a : Action) | callSetText (t : jstr) | callInsertText (t : jstr)
| callReplaceRange (start stop : Z) (replacement : jstr) (cursorOffset : option Z)
| callSetCursorOffset (offset : Z) | callRestoreState (s : EditorStateSnapshot) | callAddToHistory (t : jstr)
| callRender (width : Z).

Section Reports.
Context {X U : Type} `{Unicode} `{EditorHost X U}.
Implicit Types e : Editor (X := X) (U := U).

Definition call (c : Call) e : option Editor :=
  match c with
  | act a => perform a e
  | callSetText t => Some (setText t e)
  | callInsertText t => Some (insertTextAtCursor t e)
  | callReplaceRange a b r o => Some (replaceRange a b r o e)
  | callSetCursorOffset o => Some (setCursorOffset o e)
  | callRestoreState s => Some (snd (restoreState s e))
  | callAddToHistory t => Some (addToHistory t e)
  | callRender w => Some (set_lastWidth w e)
  end.
Fixpoint calls (cs : list Call) e : option Editor :=
  match cs with [] => Some e | c :: rest => e' ← call c e; calls rest e' end.

Definition Reported e : Prop := reported (events e) = getText (state e).

Lemma reported_snoc evs t : reported (evs ++ [ev_change t]) = t.
Proof. unfold reported. by rewrite fold_left_app. Qed.
Lemma changed_reported e e' : events e' = events (changed e) -> state e' = state e -> Reported e'.
Proof. intros He Hs. unfold Reported. rewrite He, Hs. apply reported_snoc. Qed.
Lemma changed_ok e : Reported (changed e).
Proof. by apply (changed_reported e). Qed.
Lemma reported_frame e e' : events e' = events e -> getText (state e') = getText (state e) -> Reported e -> Reported e'.
Proof. unfold Reported. by intros -> ->. Qed.
Lemma same_lines e e' : lines (state e') = lines (state e) -> getText (state e') = getText (state e).
Proof. unfold getText. by intros ->. Qed.

Lemma moveToVisualLine_frame fuel vls cur target e : events (moveToVisualLine fuel vls cur target e) = events e
  /\ lines (state (moveToVisualLine fuel vls cur target e)) = lines (state e).
Proof.
  revert target e. induction fuel as [|f IH]; intros target e; cbn [moveToVisualLine]; [done|].
  destruct (vls !! cur); [|done]. destruct (vls !! target); [|done]. cbv zeta.
  destruct (computeVerticalMoveColumn _ _ _ _) as [c p]. destruct (segmentAround _ _); [|done].
  destruct (_ && _); [|done]. destruct (IH (skipContinuation (length vls) vls (logicalLine v0)
    (Z.of_nat (index s) + len (segment s)) (S target)) (move_col (Z.min (startCol v0 + c)
      (len (currentLine (set_cursorLine (logicalLine v0) (set_preferredVisualCol p e)))))
      (set_cursorLine (logicalLine v0) (set_preferredVisualCol p e)))) as [-> ->]. done.
Qed.

Lemma moves_frame vls cur target e : Reported e -> Reported (moveTo vls cur target e).
Proof. intros HR. destruct (moveToVisualLine_frame (S (length vls)) vls cur target e) as [He Hl]. by apply (reported_frame e); [|apply same_lines|]. Qed.

Lemma jump_frame ch d n i e : Reported e -> Reported (jump_loop ch d n i e).
Proof.
  intros HR. revert i. induction n as [|n IH]; intros i; cbn [jump_loop]; [done|]. cbv zeta.
  destruct (match d with forward => _ | backward => _ end); [done|]. destruct (match d with forward => _ | backward => _ end); [|apply IH].
  by apply (reported_frame e); [|apply same_lines|].
Qed.

Ltac framed e := by apply (reported_frame e); [|apply same_lines|].

Lemma navigate_reported newer e : Reported e -> Reported (navigateHistory newer e).
Proof.
  intros HR. unfold navigateHistory. cbv zeta. destruct (_ || _); [framed e|].
  destruct (_ =? -1)%Z; [|apply changed_ok]. destruct (historyDraft _); apply changed_ok.
Qed.
Lemma vertical_reported d e e' : Reported e -> moveVertically d e = Some e' -> Reported e'.
Proof.
  intros HR. unfold moveVertically. cbv zeta. intros (vls & _ & [= <-])%bind_Some. case_match; [apply moves_frame|]; framed e.
Qed.
Lemma enter_reported b e : Reported e -> Reported (enter b e).
Proof.
  intros HR. unfold enter. destruct b; [done|]. case_match; [apply changed_ok|]. unfold Reported, submitValue, reported.
  cbn [log events set_events]. by rewrite !fold_left_app.
Qed.

(** The text of a report, whatever came before. *)
Lemma inserted_reported t e : t <> [] -> Reported (insertTextAtCursorInternal t e).
Proof. intros Ht. unfold insertTextAtCursorInternal. destruct t; [done|]. apply changed_ok. Qed.
Lemma paste_reported t e : Reported e -> Reported (handlePaste t e).
Proof.
  intros HR. unfold handlePaste. cbv zeta. destruct (onPaste _); [framed e|].
  set (f := if _ && _ then 32%N :: cleanPaste t else cleanPaste t). clearbody f.
  destruct (_ || _); [apply inserted_reported; unfold pasteMarkerFor; by case_match|].
  destruct f; [framed e|by apply inserted_reported].
Qed.

Lemma set_lastAction_reported a e : Reported e -> Reported (set_lastAction a e).
Proof. done. Qed.
Lemma yank_reported e : Reported e -> Reported (yank e).
Proof. intros HR. unfold yank. case_match; [|done]. apply set_lastAction_reported, changed_ok. Qed.

Lemma perform_reported a e e' : Reported e -> perform a e = Some e' -> Reported e'.
Proof.
  intros HR. destruct a; cbn [perform]; try (intros [= <-]); try apply changed_ok; try framed e.
  - case_match; [by apply paste_reported|done].
  - by apply enter_reported.
  - unfold undo. cbv zeta. destruct (undoPop _) as [[s|] r]; [apply changed_ok|framed e].
  - by apply yank_reported.
  - unfold yankPop. case_match; [done|]. apply set_lastAction_reported, changed_ok.
  - by apply navigate_reported.
  - by apply navigate_reported.
  - unfold moveWordBackwards. cbv zeta. repeat case_match; framed e.
  - unfold moveWordForwards. cbv zeta. repeat case_match; framed e.
  - unfold cursorUp. intros (vls & _ & He)%bind_Some. cbv zeta in He. repeat case_match; simplify_eq;
      [by apply navigate_reported|framed e|by apply (vertical_reported (-1) e)].
  - unfold cursorDown. intros (vls & _ & He)%bind_Some. cbv zeta in He. repeat case_match; simplify_eq;
      [by apply navigate_reported|framed e|by apply (vertical_reported 1 e)].
  - unfold moveLeft. cbv zeta. intros (vls & _ & [= <-])%bind_Some. repeat case_match; framed e.
  - unfold moveRight. cbv zeta. intros (vls & _ & [= <-])%bind_Some. repeat case_match; framed e.
  - unfold pageScroll. cbv zeta. intros (vls & _ & [= <-])%bind_Some. apply moves_frame. framed e.
  - unfold pageScroll. cbv zeta. intros (vls & _ & [= <-])%bind_Some. apply moves_frame. framed e.
  - case_match; [|done]. unfold jumpToChar. cbv zeta. apply jump_frame. framed e.
Qed.

Lemma setCursorOffset_text o e : getText (state (setCursorOffset o e)) = getText (state e).
Proof.
  unfold setCursorOffset, setStateFromText. cbv zeta. destruct (locate _ _ _). unfold getText at 1. apply join_splitLines.
Qed.

Lemma call_reported c e e' : Reported e -> call c e = Some e' -> Reported e'.
Proof.
  intros HR. destruct c; cbn [call]; [by apply perform_reported| intros [= <-]..].
  - apply changed_ok.
  - destruct t; [done|]. by apply inserted_reported.
  - unfold replaceRange. cbv zeta. case_match; [done|apply changed_ok].
  - unfold setCursorOffset, setStateFromText. cbv zeta. destruct (locate _ _ _) eqn:E. apply (reported_frame e); [done| |done].
    pose proof (setCursorOffset_text offset e) as Hs. unfold setCursorOffset, setStateFromText in Hs. cbv zeta in Hs. by rewrite E in Hs.
  - unfold restoreState. case_match; [done|]. apply changed_ok.
  - unfold addToHistory. repeat case_match; framed e.
  - framed e.
Qed.

(** The host knows the text.  After any sequence of the user's actions and of
    the host's calls, from the empty editor, the text last reported to [onChange]
    is the text of the editor; a submission reports the empty text it leaves. *)
Theorem changes_are_reported (cs : list Call) (h : X) e :
  calls cs (initial h) = Some e -> reported (events e) = getText (state e).
Proof.
  enough (forall e0, Reported e0 -> calls cs e0 = Some e -> Reported e) as Hc by by apply Hc.
  induction cs as [|c cs IH]; intros e0 H0'; cbn [calls]; [by intros [= <-]|].
  intros (e1 & H1 & H2)%bind_Some. eapply IH; [by eapply call_reported|exact H2].
Qed.
End Reports.

(** ** Undo *)
Section Undo.
Context {X U : Type} `{Unicode} `{EditorHost X U}.
Implicit Types e : Editor (X := X) (U := U).

Definition snapshotOf e : EditorSnapshot :=
  {| snap_state := state e; snap_pastes := pastes e; snap_pasteCounter := pasteCounter e;
     snap_extensionState := captureUndoExtensionState (host e) |}.

(** Undoing [e'] gives the text, cursor and pastes of [e] again, and the host
    what was captured of it. *)
Definition undoesTo e e' : Prop :=
  state (undo e') = state e /\ pastes (undo e') = pastes e /\ pasteCounter (undo e') = pasteCounter e
  /\ undoStack (undo e') = undoStack e
  /\ host (undo e') = restoreUndoExtensionState (captureUndoExtensionState (host e)) (host e').

Definition Undoable e e' : Prop :=
  (undoStack e' = undoStack e /\ state e' = state e) \/ undoStack e' = snapshotOf e :: undoStack e.

Lemma undo_snapshot e e' : undoStack e' = snapshotOf e :: undoStack e -> undoesTo e e'.
Proof. intros Hs. unfold undoesTo, undo. cbn [undoStack exitHistoryBrowsing set_historyDraft set_historyIndex]. by rewrite Hs. Qed.

Lemma frame_insertText_undo t e : undoStack (insertTextAtCursorInternal t e) = undoStack e.
Proof. unfold insertTextAtCursorInternal. destruct t; [done|]. cbv zeta. by repeat case_match. Qed.
Lemma frame_yanked_undo t e : undoStack (insertYankedText t e) = undoStack e.
Proof. unfold insertYankedText. cbv zeta. by repeat case_match. Qed.
Lemma frame_unyanked_undo e : undoStack (deleteYankedText e) = undoStack e.
Proof. unfold deleteYankedText. cbv zeta. by repeat case_match. Qed.
Lemma frame_word_undo e : undoStack (moveWordBackwards e) = undoStack e /\ undoStack (moveWordForwards e) = undoStack e.
Proof. unfold moveWordBackwards, moveWordForwards. cbv zeta. split; by repeat case_match. Qed.

(** The edits; typing is one when it begins a word. *)
Definition edit (a : Action) e : Prop :=
  match a with
  | insert c => isWhitespaceChar c = true \/ lastAction e <> Some act_type_word
  | paste _ | newLine | deleteCharBackward | deleteCharForward | deleteToLineStart | deleteToLineEnd
  | deleteWordBackward | deleteWordForwardKey | yankKey | yankPopKey => True
  | _ => False
  end.

Lemma paste_undoable t e : Undoable e (handlePaste t e).
Proof.
  unfold handlePaste. cbv zeta. destruct (onPaste _); [by left|]. right. case_match; by rewrite frame_insertText_undo.
Qed.

Ltac undoable := cbv zeta; repeat case_match; first [by right | by left].

Lemma edit_undoable a e e' : edit a e -> perform a e = Some e' -> Undoable e e'.
Proof.
  intros Ha. destruct a; try done; cbn [perform edit] in *; intros [= <-].
  - unfold insertCharacter. right. cbv zeta.
    destruct Ha as [->|Hl]; [done|]. cbn [lastAction exitHistoryBrowsing set_historyDraft set_historyIndex].
    rewrite (bool_decide_false (lastAction e = Some act_type_word)) by done. by rewrite orb_true_r.
  - case_match; [apply paste_undoable|by left].
  - by right.
  - unfold handleBackspace. undoable.
  - unfold handleForwardDelete. undoable.
  - unfold deleteToStartOfLine. undoable.
  - unfold deleteToEndOfLine. undoable.
  - unfold deleteWordBackwards. cbv zeta. destruct (_ =? 0)%Z; [undoable|]. right. cbn. by rewrite (proj1 (frame_word_undo _)).
  - unfold deleteWordForward. cbv zeta. destruct (_ <=? _)%Z; [undoable|]. right. cbn. by rewrite (proj2 (frame_word_undo _)).
  - unfold yank. case_match; [right|by left]. by etransitivity; [apply frame_yanked_undo|].
  - unfold yankPop. case_match; [by left|right]. etransitivity; [apply frame_yanked_undo|]. apply frame_unyanked_undo.
Qed.

(** Typing on in a word takes no new snapshot. *)
Lemma typing_on word : forall e e', lastAction e = Some act_type_word -> Forall (fun c => isWhitespaceChar c = false) word ->
  performs (map insert word) e = Some e' -> undoStack e' = undoStack e.
Proof.
  induction word as [|c word IH]; intros e e' Hl Hw; cbn [map performs]; [by intros [= <-]|].
  apply Forall_cons in Hw as [Hc Hw]. cbn [perform mbind option_bind]. intros He.
  assert (Hu : undoStack (insertCharacter c e) = undoStack e).
  { unfold insertCharacter. rewrite Hc. cbv zeta. by rewrite bool_decide_true. }
  rewrite <- Hu. apply IH; [|done..]. unfold insertCharacter. cbv zeta. by case_match.
Qed.

(** C31: Every edit can be undone.  After an edit (a new line, a paste, a deletion,
    a kill, a yank, a yank-pop, or a typed word, however many characters of it
    were typed) an undo gives the text, the cursor and the registered pastes as
    they were, and the host what it captured before; only an edit that changed
    nothing leaves nothing to undo. *)
Theorem edits_can_be_undone (a : Action) (word : list jstr) e e' :
  edit a e -> word = [] \/ (exists c, a = insert c) -> Forall (fun c => isWhitespaceChar c = false) word ->
  performs (a :: map insert word) e = Some e' ->
  (undoStack e' = undoStack e /\ state e' = state e) \/ undoesTo e e'.
Proof.
  intros Ha Hor Hw. cbn [performs]. intros (e1 & He1 & He')%bind_Some. pose proof (edit_undoable a e e1 Ha He1) as Hu.
  destruct Hor as [->|[c ->]].
  - cbn in He'. injection He' as <-. destruct Hu; [by left|right; by apply undo_snapshot].
  - right. apply undo_snapshot. injection He1 as <-.
    rewrite (typing_on word (insertCharacter c e) e'); [|unfold insertCharacter; cbv zeta; by case_match|done..].
    cbn [edit] in Ha. unfold insertCharacter. cbv zeta. destruct Ha as [->|Hl]; [done|].
    cbn [lastAction exitHistoryBrowsing set_historyDraft set_historyIndex].
    rewrite (bool_decide_false (lastAction e = Some act_type_word)) by done. by rewrite orb_true_r.
Qed.
End Undo.

(** ** Large pastes *)
Lemma uint_digits d : forallb isDigit (js (DecimalString.NilEmpty.string_of_uint d)) = true.
Proof. by induction d. Qed.
Lemma dec_digits z : (0 <= z)%Z -> forallb isDigit (dec_Z z) = true.
Proof.
  intros Hz. unfold dec_Z, DecimalString.NilEmpty.string_of_int. destruct z as [|p|p]; [done|apply uint_digits|lia].
Qed.

Lemma spanDigits_app d r : forallb isDigit d = true -> match r with c :: _ => isDigit c = false | [] => True end ->
  spanDigits (d ++ r) = (d, r).
Proof.
  induction d as [|c d IH]; cbn [app spanDigits forallb].
  - intros _ Hr. destruct r as [|c r]; [done|]. cbn [spanDigits]. by rewrite Hr.
  - intros [Hc Hd]%andb_true_iff Hr. rewrite Hc. by rewrite IH.
Qed.

Lemma startsWith_app (p s : jstr) : startsWith (p ++ s) p = true.
Proof. apply startsWith_iff. by exists s. Qed.

Lemma digitsThen_app (w d r : jstr) : d <> [] -> forallb isDigit d = true ->
  match w with c :: _ => isDigit c = false | [] => False end -> digitsThen w (d ++ w ++ r) = Some (d ++ w, r).
Proof.
  intros Hd Hf Hw. unfold digitsThen. rewrite spanDigits_app by (done || by destruct w). destruct d as [|c d]; [done|].
  by rewrite startsWith_app, drop_app_length.
Qed.

Lemma matchMarker_text d suffix r : d <> [] -> forallb isDigit d = true ->
  match suffix with c :: _ => c = 32%N | [] => False end -> matchSuffix (suffix ++ js "]" ++ r) = Some (suffix, js "]" ++ r) ->
  matchMarker (markerOpen ++ d ++ suffix ++ js "]" ++ r)
  = Some {| idGroup := d; suffixGroup := Some suffix; markerLength := 9 + length d + length suffix |}.
Proof.
  intros Hd Hf Hs Hm. unfold matchMarker. rewrite startsWith_app, drop_app_length, spanDigits_app; [|done|].
  2: { destruct suffix; [done|]. by subst. }
  destruct d as [|c d]; [done|]. rewrite Hm. destruct suffix as [|c' suffix]; [done|]. subst c'. cbn [mbind option_bind].
  rewrite startsWith_app. done.
Qed.

Lemma decN_digits n : forallb isDigit (decN n) = true /\ decN n <> [].
Proof. split; [apply dec_digits; lia|apply dec_Z_nonempty]. Qed.
Lemma decZ_digits n : forallb isDigit (dec_Z (Z.of_nat n)) = true /\ dec_Z (Z.of_nat n) <> [].
Proof. split; [apply dec_digits; lia|apply dec_Z_nonempty]. Qed.

(** The marker of a paste is found, with its id. *)
Lemma marker_matches id content r : exists m, matchMarker (pasteMarkerFor id content ++ r) = Some m /\
  idGroup m = decN id /\ markerLength m = length (pasteMarkerFor id content).
Proof.
  destruct (decN_digits id) as [Hd Hne]. unfold pasteMarkerFor. destruct (_ <? _)%nat.
  - destruct (decZ_digits (length (splitLines content))) as [Hn Hnn]. set (n := dec_Z _) in *.
    exists {| idGroup := decN id; suffixGroup := Some (js " +" ++ n ++ js " lines"); markerLength := 9 + length (decN id) + length (js " +" ++ n ++ js " lines") |}.
    replace ((js "[paste #" ++ decN id ++ js " +" ++ n ++ js " lines]") ++ r)
      with (markerOpen ++ decN id ++ (js " +" ++ n ++ js " lines") ++ js "]" ++ r) by (by rewrite <- !(assoc_L (++))).
    rewrite matchMarker_text; [|done..|].
    + split; [done|]. split; [done|]. cbn [markerLength]. rewrite !length_app. cbn. lia.
    + unfold matchSuffix. rewrite <- !(assoc_L (++)), startsWith_app. change 2%nat with (length (js " +")).
      rewrite drop_app_length. by rewrite (digitsThen_app (js " lines")).
  - assert (forallb isDigit (dec_Z (len content)) = true /\ dec_Z (len content) <> []) as [Hn Hnn] by apply decZ_digits.
    set (n := dec_Z _) in *.
    exists {| idGroup := decN id; suffixGroup := Some (js " " ++ n ++ js " chars"); markerLength := 9 + length (decN id) + length (js " " ++ n ++ js " chars") |}.
    replace ((js "[paste #" ++ decN id ++ js " " ++ n ++ js " chars]") ++ r)
      with (markerOpen ++ decN id ++ (js " " ++ n ++ js " chars") ++ js "]" ++ r) by (by rewrite <- !(assoc_L (++))).
    rewrite matchMarker_text; [|done..|].
    + split; [done|]. split; [done|]. cbn [markerLength]. rewrite !length_app. cbn. lia.
    + unfold matchSuffix. rewrite <- !(assoc_L (++)).
      assert (startsWith (js " " ++ n ++ js " chars" ++ js "]" ++ r) (js " +") = false) as ->.
      { destruct n as [|c n]; [done|]. cbn in Hn |- *. destruct (isDigit c) eqn:E; [|done]. unfold isDigit in E.
        destruct c as [|p]; [done|]. by do 6 (destruct p as [p|p|]; try done). }
      rewrite startsWith_app. change 1%nat with (length (js " ")). rewrite drop_app_length. by rewrite (digitsThen_app (js " chars")).
Qed.

(** Text without an opening bracket holds no marker. *)
Definition noBracket (s : jstr) : Prop := ch "[" ∉ s.
Lemma noBracket_replace f s r : noBracket s -> replace_go f (s ++ r) 0 = s ++ replace_go f r 0.
Proof.
  induction s as [|c s IH]; intros Hs; [done|]. cbn [app replace_go].
  assert (matchMarker (c :: s ++ r) = None) as ->.
  { unfold matchMarker. destruct (startsWith (c :: s ++ r) markerOpen) eqn:E; [|done]. exfalso. apply Hs.
    apply startsWith_iff in E as [t E]. injection E as -> _. by left. }
  rewrite IH; [done|]. intros Hin. apply Hs. by right.
Qed.
Lemma replace_skip f s r : replace_go f (s ++ r) (length s) = replace_go f r 0.
Proof. by induction s. Qed.

Lemma expand_marker id content b a : noBracket b -> noBracket a ->
  expandOne id content (b ++ pasteMarkerFor id content ++ a) = b ++ content ++ a.
Proof.
  intros Hb Ha. unfold expandOne, replaceMarkers. rewrite noBracket_replace by done. f_equal.
  destruct (marker_matches id content a) as (m & Hm & Hi & Hl). destruct (pasteMarkerFor id content) as [|c t] eqn:E.
  - exfalso. unfold pasteMarkerFor in E. by case_match.
  - cbn [app replace_go] in *. rewrite Hm, Hi, bool_decide_true, Hl by done. cbn [length].
    replace (S (length t) - 1)%nat with (length t) by lia. rewrite replace_skip.
    rewrite <- (app_nil_r a) at 1. by rewrite noBracket_replace, app_nil_r.
Qed.

(** A marker is plain text: nothing in it is normalized. *)
Lemma normalize_ascii s : isPrintableAscii s = true -> normalizeText s = s.
Proof.
  induction s as [|c s IH]; [done|]. unfold isPrintableAscii. cbn [forallb normalizeText].
  intros [Hc Hs]%andb_true_iff. destruct (N.eqb_spec c cr) as [->|]; [done|]. destruct (N.eqb_spec c 9) as [->|]; [done|].
  by rewrite IH.
Qed.
Lemma marker_plain id content : normalizeText (pasteMarkerFor id content) = pasteMarkerFor id content.
Proof.
  apply normalize_ascii. destruct (decN_digits id) as [Hd _]. unfold pasteMarkerFor.
  destruct (_ <? _)%nat; rewrite !isPrintable_app, (digits_ascii (decN id)), (digits_ascii (dec_Z _)) by (done || (apply dec_digits; unfold len; lia)); done.
Qed.

Section Pastes.
Context {X U : Type} `{UL : UnicodeLaws} `{EditorHost X U}.
Implicit Types e : Editor (X := X) (U := U).

(** What a paste inserts: the cleaned text, behind a space when a path would run
    into a word. *)
Definition pastedText (content : jstr) e : jstr :=
  let t := cleanPaste content in
  let before := if (0 <? col e)%Z then currentLine e !! Z.to_nat (col e - 1) else None in
  if isPathStart t && match before with Some c => isWordChar c | None => false end then 32%N :: t else t.
Definition isLarge (t : jstr) : bool := (10 <? length (splitLines t))%nat || (1000 <? length t)%nat.

(** Large pastes reach the submission whole.  A paste of more than ten lines
    or a thousand characters puts only a marker into the text, and the text that
    is submitted has the pasted text in its place; a smaller paste is inserted
    itself. *)
Theorem pastes_are_submitted_whole (content : jstr) e b a :
  At e b a -> noBracket b -> noBracket a -> pastes e = [] -> onPaste (cleanPaste content) = false ->
  let t := pastedText content e in let e' := handlePaste content e in
  if isLarge t then
    At e' (b ++ pasteMarkerFor (Z.to_N (pasteCounter e + 1)) t) a
    /\ getExpandedText e' = b ++ t ++ a
    /\ last (events (submitValue e')) = Some (ev_submit (trim (b ++ t ++ a)) (captureState e'))
  else At e' (b ++ normalizeText t) a.
Proof.
  intros HA Hb Ha Hp Ho t e'.
  assert (He' : e' = if isLarge t
    then insertTextAtCursorInternal (pasteMarkerFor (Z.to_N (pasteCounter e + 1)) t)
      (set_pastes (jset (Z.to_N (pasteCounter e + 1)) t (pastes e)) (set_pasteCounter (pasteCounter e + 1)
        (pushUndoSnapshot (set_lastAction None (exitHistoryBrowsing e)))))
    else insertTextAtCursorInternal t (pushUndoSnapshot (set_lastAction None (exitHistoryBrowsing e)))).
  { unfold e', handlePaste. cbv zeta. by rewrite Ho. }
  clearbody e'. destruct (isLarge t); [|subst e'; by apply insertTextAtCursorInternal_At].
  set (e0 := set_pastes _ _) in He'. assert (HA0 : At e0 b a) by exact HA.
  assert (HA' : At e' (b ++ pasteMarkerFor (Z.to_N (pasteCounter e + 1)) t) a).
  { rewrite He'. rewrite <- (marker_plain (Z.to_N (pasteCounter e + 1)) t) at 2. by apply insertTextAtCursorInternal_At. }
  assert (Hp' : pastes e' = [(Z.to_N (pasteCounter e + 1), t)]).
  { rewrite He'. unfold insertTextAtCursorInternal. cbv zeta. transitivity (pastes e0); [by repeat case_match|].
    unfold e0. cbn. by rewrite Hp. }
  assert (Hx : getExpandedText e' = b ++ t ++ a).
  { unfold getExpandedText. unfold At in HA'. rewrite Hp', HA', getText_at, <- (assoc_L (++)). by apply expand_marker. }
  split; [done|]. split; [done|]. unfold submitValue, log. cbn [events set_events]. rewrite last_snoc. by rewrite Hx.
Qed.
End Pastes.

(** ** Concrete runs *)
Definition called (cs : list Call) : Editor (X := unit) (U := unit) := default (initial tt) (calls cs (initial tt)).

Lemma changes_are_reported_witness :
  let e := called [act (insert (js "one")); callSetText (js "two words"); act cursorWordLeft; act deleteToLineEnd; callRender 10;
                   act cursorUpKey] in
  reported (events e) = getText (state e) /\ getText (state e) = js "two ".
Proof.
  intros e. split; [|by vm_compute].
  apply (changes_are_reported [act (insert (js "one")); callSetText (js "two words"); act cursorWordLeft; act deleteToLineEnd;
    callRender 10; act cursorUpKey] tt). by vm_compute.
Defined.

Lemma edits_can_be_undone_witness :
  let e := called [act (insert (js "one"))] in
  exists e', performs (insert (js " ") :: map insert [js "t"; js "w"; js "o"]) e = Some e'
    /\ getText (state e') = js "one two" /\ undoesTo e e'.
Proof.
  intros e. destruct (performs (insert (js " ") :: map insert [js "t"; js "w"; js "o"]) e) as [e'|] eqn:E; [|by vm_compute in E].
  exists e'. split; [done|]. split; [by vm_compute in E; simplify_eq|].
  destruct (edits_can_be_undone (insert (js " ")) [js "t"; js "w"; js "o"] e e') as [[Hu _]|Hu]; [| | |exact E| |exact Hu].
  - left. by vm_compute.
  - right. by eexists.
  - by repeat constructor.
  - exfalso. vm_compute in E. injection E as <-. by vm_compute in Hu.
Defined.

Lemma pastes_are_submitted_whole_witness :
  let content := concat (replicate 11 (js "line" ++ [newline])) in
  let e := called [act (insert (js "see  it")); act cursorWordLeft; act cursorLeft] in
  let e' := handlePaste content e in
  getText (state e') = js "see [paste #1 +12 lines] it" /\ getExpandedText e' = js "see " ++ content ++ js " it".
Proof.
  intros content e e'. split; [by vm_compute|].
  pose proof (pastes_are_submitted_whole content e (js "see ") (js " it")) as Hp. cbv zeta in Hp.
  replace (isLarge (pastedText content e)) with true in Hp by by vm_compute.
  replace (pastedText content e) with content in Hp by by vm_compute.
  apply Hp; try by vm_compute.
  all: by apply (bool_decide_eq_true_1 _); vm_compute.
Defined.

(** ** Where the code departs from its intent *)
Definition restored (t : jstr) (pastes : list (N * jstr)) (counter : Z) : Call :=
  callRestoreState {| text := t; cursor := len t; snapshotPastes := pastes; snapshotPasteCounter := counter |}.

(** Removing paste 9 renumbers the marker before it from 10 to 9, one character
    shorter; the removal then goes by the old column and leaves a bracket. *)
Example backspace_leaves_a_bracket :
  getText (state (called [restored (js "[paste #10 +11 lines][paste #9 +11 lines]") [(9%N, []); (10%N, [])] 10;
                          act deleteCharBackward])) = js "[paste #9 +11 lines][".
Proof. by vm_compute. Qed.

(** A marker without a count is renumbered with the text of [undefined]. *)
Example renumbering_writes_undefined :
  getText (state (called [restored (js "[paste #2]" ++ newline :: js "[paste #1 +11 lines]") [(1%N, []); (2%N, [])] 2;
                          act deleteCharBackward])) = js "[paste #1undefined]" ++ [newline].
Proof. by vm_compute. Qed.

(** At the start of a line the backward jump finds the character at the cursor. *)
Example backward_jump_stays :
  let e := called [act (insert (js "xa")); act newLine; act (insert (js "ab")); act cursorLineStart; act jumpBackward; act (jump (js "a"))] in
  state e = {| lines := [js "xa"; js "ab"]; cursorLine := 1; cursorCol := 0 |}.
Proof. by vm_compute. Qed.

(** The column from which the cursor was snapped to a marker outlives a kill of
    the marker's line; the next move down takes the cursor out of the text. *)
Example snapped_column_goes_negative :
  let t := js "[paste #1 +11 lines]" ++ newline :: js "abc" ++ newline :: js "some words that are wider than the terminal" in
  let e := called [callRender 30;
                   callRestoreState {| text := t; cursor := 24; snapshotPastes := [(1%N, [])]; snapshotPasteCounter := 1 |};
                   act cursorUpKey; act deleteToLineEnd; act cursorDownKey] in
  lines (state e) = [[]; js "abc"; js "some words that are wider than the terminal"]
  /\ cursorLine (state e) = 1%Z /\ cursorCol (state e) = (-23)%Z.
Proof. by vm_compute. Qed.
