(* ===== verification/CtxTokens.v ===== *)
(** * Context manager: messages and the token estimator

    [packages/agent-modules/context-manager/src/token-estimator.ts]: the
    transcript as the estimator sees it, the bounded cache of token counts, the
    estimate of a message and of a context with provider usage as its prefix.
    The tokenizer, the Unicode letter-or-number table and SHA-256 are
    parameters.  A number the code only adds up is a [Z]; a message the types
    do not allow (a text block without text) is not expressed, nor is a tool
    argument that [JSON.stringify] throws on. *)
From S2P Require Import Prelude JsValue RgFingerprint Utf8.

(** ** The transcript *)
Inductive Block :=
  | block_text (text : jstr)
  | block_thinking (thinking : jstr)
  | block_toolCall (id name : jstr) (arguments : json)
  | block_image
  | block_video
  | block_other.

Inductive Content := content_string (s : jstr) | content_blocks (l : list Block).

Record AssistantUsageRef := { input : Z; output : Z; cacheRead : Z; cacheWrite : Z; totalTokens : Z }.

(** A timestamp is absent or not finite as [None]; [keptMessageCount] is
    absent, or a value that is a safe integer ([Some (Some n)]) or not. *)
Inductive AgentMessage :=
  | msg_user (content : Content) (timestamp : option Z)
  | msg_assistant (content : list Block) (usage : option AssistantUsageRef) (stopReason : jstr) (timestamp : option Z)
  | msg_toolResult (toolCallId : jstr) (content : Content) (timestamp : option Z)
  | msg_custom (content : Content) (timestamp : option Z)
  | msg_bashExecution (command output : option jstr) (timestamp : option Z)
  | msg_branchSummary (summary : option jstr) (timestamp : option Z)
  | msg_compactionSummary (summary : option jstr) (tokensBefore : Z) (timestamp : option Z)
      (keptMessageCount : option (option Z)).

Definition timestampOf (m : AgentMessage) : option Z :=
  match m with
  | msg_user _ t | msg_assistant _ _ _ t | msg_toolResult _ _ t | msg_custom _ t | msg_bashExecution _ _ t
  | msg_branchSummary _ t | msg_compactionSummary _ _ t _ => t
  end.

(** ** [JSON.stringify] of plain values *)
Definition numText (n : jnum) : jstr :=
  match n with NumInt z => dec_Z z | NumText t => t | NumNonFinite => js "null" end.

(** [None] is [undefined]. *)
Fixpoint stringify (v : json) : option jstr :=
  match v with
  | JUndefined | JOther => None
  | JNull => Some (js "null")
  | JBool b => Some (if b then js "true" else js "false")
  | JNum n => Some (numText n)
  | JStr s => Some (stringify_string s)
  | JArr items => Some (js "[" ++ join (js ",") (map (fun x => default (js "null") (stringify x)) items) ++ js "]")
  | JObj fields =>
      Some (js "{" ++ join (js ",")
              (omap (fun e => match stringify (snd e) with
                              | Some t => Some (stringify_string (fst e) ++ js ":" ++ t)
                              | None => None
                              end) fields) ++ js "}")
  end.

Definition safeJsonStringify (v : json) : jstr := default (js "undefined") (stringify v).

(** ** Token counts of a text *)
Definition MESSAGE_STRUCTURAL_OVERHEAD : Z := 4.
Definition VISUAL_TOKEN_STAND_IN : Z := 4800.
Definition MAX_EXACT_TOKENIZER_CHARS : nat := Z.to_nat 4096.
Definition MAX_INLINE_CACHE_KEY_UNITS : nat := 256.
Definition MAX_CACHED_TEXT_ENTRIES : nat := Z.to_nat 2048.

Section Estimator.
(** The tokenizer: a count, which may be negative, or not finite, or an exception. *)
Inductive Count := count_is (n : Z) | count_not_finite | count_throws.
Variable countExactTokens : jstr -> Count.
(** [\p{L}] or [\p{N}], asked beyond ASCII. *)
Variable unicodeLetterOrNumber : N -> bool.
Variable sha256hex : jstr -> jstr.

Definition isLetterOrNumber (c : N) : bool :=
  if (c <=? 127)%N then
    (((48 <=? c) && (c <=? 57)) || ((65 <=? c) && (c <=? 90)) || ((97 <=? c) && (c <=? 122)))%N
  else unicodeLetterOrNumber c.

Fixpoint oversizedRun (run : nat) (l : list N) : bool :=
  match l with
  | [] => false
  | c :: l' =>
    if isLetterOrNumber c
    then if (MAX_EXACT_TOKENIZER_CHARS <? S run)%nat then true else oversizedRun (S run) l'
    else oversizedRun 0 l'
  end.
Definition hasOversizedAlphanumericRun (text : jstr) : bool := oversizedRun 0 (codePoints text).

Definition estimateTextTokensUpperBound (text : jstr) : Z := Z.of_nat (byteLength text).

Definition cacheKey (text : jstr) : jstr :=
  if (length text <=? MAX_INLINE_CACHE_KEY_UNITS)%nat then js "text:" ++ text
  else js "sha256:" ++ sha256hex text.

(** The bounded cache, in the order of its [Map]. *)
Abbreviation cache := (jmap jstr Z) (only parsing).

Definition estimateTextTokens (text : jstr) (textTokens : cache) : Z * cache :=
  match text with
  | [] => (0%Z, textTokens)
  | _ =>
    let k := cacheKey text in
    match jget k textTokens with
    | Some cached => (cached, jset k cached (jdel k textTokens))
    | None =>
      if (MAX_EXACT_TOKENIZER_CHARS <? length text)%nat && hasOversizedAlphanumericRun text
      then (estimateTextTokensUpperBound text, textTokens)
      else
        match countExactTokens text with
        | count_throws | count_not_finite => (estimateTextTokensUpperBound text, textTokens)
        | count_is tokens =>
          if (tokens <? 0)%Z then (estimateTextTokensUpperBound text, textTokens)
          else
            let room :=
              if (MAX_CACHED_TEXT_ENTRIES <=? length textTokens)%nat then
                match jkeys textTokens with oldest :: _ => jdel oldest textTokens | [] => textTokens end
              else textTokens in
            (tokens, jset k tokens room)
        end
    end
  end.

(** ** Token counts of messages: adding up over blocks, threading the cache *)
Definition Est : Type := cache -> Z * cache.
Definition plain (n : Z) : Est := fun c => (n, c).
Definition plus (a b : Est) : Est := fun c => let '(x, c1) := a c in let '(y, c2) := b c1 in ((x + y)%Z, c2).
Definition sumOf (l : list Est) : Est := fold_left plus l (plain 0).

Definition userBlock (b : Block) : Est :=
  match b with
  | block_text t => if truthy t then estimateTextTokens t else plain 0
  | block_image | block_video => plain VISUAL_TOKEN_STAND_IN
  | _ => plain 0
  end.
Definition assistantBlock (b : Block) : Est :=
  match b with
  | block_text t => estimateTextTokens t
  | block_thinking t => estimateTextTokens t
  | block_toolCall _ name arguments =>
      plus (estimateTextTokens name) (estimateTextTokens (safeJsonStringify arguments))
  | _ => plain 0
  end.
Definition resultBlock (b : Block) : Est :=
  match b with
  | block_text t => estimateTextTokens t
  | block_image | block_video => plain VISUAL_TOKEN_STAND_IN
  | _ => plain 0
  end.
Definition contentTokens (per : Block -> Est) (c : Content) : Est :=
  match c with content_string s => estimateTextTokens s | content_blocks l => sumOf (map per l) end.

Definition estimateMessage (m : AgentMessage) : Est :=
  plus (plain MESSAGE_STRUCTURAL_OVERHEAD)
    match m with
    | msg_user c _ => contentTokens userBlock c
    | msg_assistant l _ _ _ => sumOf (map assistantBlock l)
    | msg_toolResult _ c _ | msg_custom c _ => contentTokens resultBlock c
    | msg_bashExecution cmd out _ =>
        plus (estimateTextTokens (default [] cmd)) (estimateTextTokens (default [] out))
    | msg_branchSummary s _ | msg_compactionSummary s _ _ _ => estimateTextTokens (default [] s)
    end.

Definition estimateMessages (l : list AgentMessage) : Est := sumOf (map estimateMessage l).

(** ** Provider usage *)
Definition calculateContextTokens (u : AssistantUsageRef) : Z :=
  if (totalTokens u =? 0)%Z then (input u + output u + cacheRead u + cacheWrite u)%Z else totalTokens u.

Definition getAssistantUsage (m : AgentMessage) : option AssistantUsageRef :=
  match m with
  | msg_assistant _ usage stopReason _ =>
    if bool_decide (stopReason = js "aborted") || bool_decide (stopReason = js "error") then None else usage
  | _ => None
  end.

Definition MAX_SAFE_INTEGER : Z := 9007199254740991.

(** What the latest compaction summary says about freshness: no usage is
    trusted, or usage from an index on, newer than a time. *)
Inductive Freshness := nothing_fresh | fresh_from (firstFreshIndex : nat) (compactedAt : option Z).

(** The summary at index [i]. *)
Definition freshnessOf (i : nat) (timestamp : option Z) (keptMessageCount : option (option Z)) : Freshness :=
  match keptMessageCount with
  | Some None => nothing_fresh
  | Some (Some kept) =>
    if (kept <? 0)%Z || (MAX_SAFE_INTEGER <? kept)%Z then nothing_fresh
    else fresh_from (i + 1 + Z.to_nat kept) None
  | None => match timestamp with None => nothing_fresh | Some t => fresh_from (i + 1) (Some t) end
  end.

(** [for (let i = messages.length - 1; i >= 0; i -= 1)] down to the latest summary. *)
Fixpoint freshness (messages : list AgentMessage) (i : nat) : Freshness :=
  match i with
  | O => fresh_from 0 None
  | S j =>
    match messages !! j with
    | Some (msg_compactionSummary _ _ timestamp kept) => freshnessOf j timestamp kept
    | _ => freshness messages j
    end
  end.

Definition isFresh (compactedAt : option Z) (m : AgentMessage) : bool :=
  match compactedAt with
  | None => true
  | Some t => match timestampOf m with Some u => (t <? u)%Z | None => false end
  end.

(** The last fresh usage at an index below [i]. *)
Fixpoint lastUsage (messages : list AgentMessage) (firstFreshIndex : nat) (compactedAt : option Z) (i : nat) :
    option (AssistantUsageRef * nat) :=
  match i with
  | O => None
  | S j =>
    if (j <? firstFreshIndex)%nat then None
    else
      match messages !! j with
      | Some m =>
        if isFresh compactedAt m then
          match getAssistantUsage m with
          | Some u => Some (u, j)
          | None => lastUsage messages firstFreshIndex compactedAt j
          end
        else lastUsage messages firstFreshIndex compactedAt j
      | None => None
      end
  end.

Definition getLastAssistantUsageInfo (messages : list AgentMessage) : option (AssistantUsageRef * nat) :=
  match freshness messages (length messages) with
  | nothing_fresh => None
  | fresh_from i at_ => lastUsage messages i at_ (length messages)
  end.

Record ContextTokenEstimate := {
  tokens : Z; usageTokens : Z; trailingTokens : Z; lastUsageIndex : option nat;
}.

Definition estimateContextTokens (messages : list AgentMessage) (c : cache) : ContextTokenEstimate * cache :=
  match getLastAssistantUsageInfo messages with
  | None =>
    let '(trailing, c') := estimateMessages messages c in
    ({| tokens := trailing; usageTokens := 0; trailingTokens := trailing; lastUsageIndex := None |}, c')
  | Some (usage, index) =>
    let '(trailing, c') := estimateMessages (drop (index + 1) messages) c in
    ({| tokens := (calculateContextTokens usage + trailing)%Z; usageTokens := calculateContextTokens usage;
        trailingTokens := trailing; lastUsageIndex := Some index |}, c')
  end.

(** The contexts estimated one after the other by one estimator. *)
Fixpoint estimateAll (calls : list (list AgentMessage)) (c : cache) : list ContextTokenEstimate * cache :=
  match calls with
  | [] => ([], c)
  | messages :: rest =>
    let '(e, c1) := estimateContextTokens messages c in
    let '(es, c2) := estimateAll rest c1 in
    (e :: es, c2)
  end.

(** ** The estimate without a cache *)
Definition textTokensSpec (text : jstr) : Z :=
  match text with
  | [] => 0%Z
  | _ =>
    if (MAX_EXACT_TOKENIZER_CHARS <? length text)%nat && hasOversizedAlphanumericRun text
    then estimateTextTokensUpperBound text
    else match countExactTokens text with
         | count_is n => if (n <? 0)%Z then estimateTextTokensUpperBound text else n
         | _ => estimateTextTokensUpperBound text
         end
  end.

Definition blockTexts (b : Block) : list jstr :=
  match b with block_text t => [t] | _ => [] end.
Definition assistantTexts (b : Block) : list jstr :=
  match b with
  | block_text t | block_thinking t => [t]
  | block_toolCall _ name arguments => [name; safeJsonStringify arguments]
  | _ => []
  end.
Definition visual (b : Block) : Z :=
  match b with block_image | block_video => VISUAL_TOKEN_STAND_IN | _ => 0%Z end.
Definition contentTexts (c : Content) : list jstr :=
  match c with content_string s => [s] | content_blocks l => concat (map blockTexts l) end.
Definition contentVisual (c : Content) : Z :=
  match c with content_string _ => 0%Z | content_blocks l => foldr Z.add 0%Z (map visual l) end.

(** The texts the model reads in a message, and what its media cost. *)
Definition messageTexts (m : AgentMessage) : list jstr :=
  match m with
  | msg_user c _ | msg_toolResult _ c _ | msg_custom c _ => contentTexts c
  | msg_assistant l _ _ _ => concat (map assistantTexts l)
  | msg_bashExecution cmd out _ => [default [] cmd; default [] out]
  | msg_branchSummary s _ | msg_compactionSummary s _ _ _ => [default [] s]
  end.
Definition messageVisual (m : AgentMessage) : Z :=
  match m with
  | msg_user c _ | msg_toolResult _ c _ | msg_custom c _ => contentVisual c
  | _ => 0%Z
  end.
Definition messageTokensSpec (m : AgentMessage) : Z :=
  (MESSAGE_STRUCTURAL_OVERHEAD + messageVisual m + foldr Z.add 0%Z (map textTokensSpec (messageTexts m)))%Z.
Definition messagesTokensSpec (l : list AgentMessage) : Z := foldr Z.add 0%Z (map messageTokensSpec l).

Definition contextTokensSpec (messages : list AgentMessage) : ContextTokenEstimate :=
  match getLastAssistantUsageInfo messages with
  | None =>
    {| tokens := messagesTokensSpec messages; usageTokens := 0; trailingTokens := messagesTokensSpec messages;
       lastUsageIndex := None |}
  | Some (usage, index) =>
    let trailing := messagesTokensSpec (drop (index + 1) messages) in
    {| tokens := (calculateContextTokens usage + trailing)%Z; usageTokens := calculateContextTokens usage;
       trailingTokens := trailing; lastUsageIndex := Some index |}
  end.

(** ** The cache changes no estimate *)
Section Cache.
(** The texts estimated, among which the hash has no collision. *)
Variable seen : jstr -> Prop.
Hypothesis no_collision : forall a b, seen a -> seen b -> sha256hex a = sha256hex b -> a = b.

Record coherent (c : cache) : Prop := {
  co_values : forall k v, jget k c = Some v -> exists t, seen t /\ t <> [] /\ cacheKey t = k /\ v = textTokensSpec t;
  co_keys : NoDup (jkeys c);
  co_bound : (length c <= MAX_CACHED_TEXT_ENTRIES)%nat;
}.

Lemma cacheKey_inj a b : seen a -> seen b -> cacheKey a = cacheKey b -> a = b.
Proof.
  unfold cacheKey. intros Ha Hb. destruct (_ <=? _)%nat, (_ <=? _)%nat; cbn; intros H; simplify_eq; auto.
Qed.

Lemma length_jdel (k : jstr) (v : Z) (m : jmap jstr Z) : NoDup (jkeys m) -> jget k m = Some v ->
  length m = S (length (jdel k m)).
Proof.
  unfold jdel. induction m as [|[k' v'] m IH]; cbn [jget jkeys map]; [done|].
  intros [Hk Hnd]%NoDup_cons. cbn [List.filter fst].
  destruct (decide (k = k')) as [->|Hne]; [rewrite bool_decide_eq_true_2 by done|rewrite bool_decide_eq_false_2 by done].
  - intros _. cbn. f_equal. rewrite filter_Forall_id; [done|]. apply Forall_forall. intros e He.
    rewrite bool_decide_eq_false_2; [done|]. intros ->. apply Hk. apply list_elem_of_fmap. by exists e.
  - intros H. cbn. f_equal. by apply IH.
Qed.

Lemma length_jset_new (k : jstr) (v : Z) (m : jmap jstr Z) : jget k m = None -> length (jset k v m) = S (length m).
Proof.
  induction m as [|[k' v'] m IH]; cbn [jget jset]; [done|]. destruct (decide (k = k')); [done|].
  intros H. cbn. f_equal. by apply IH.
Qed.

Lemma coherent_jdel k c : coherent c -> coherent (jdel k c).
Proof.
  intros [Hv Hk Hb]. split.
  - intros k' v. rewrite jget_jdel. destruct (decide (k' = k)); [done|]. apply Hv.
  - by apply jdel_NoDup.
  - etransitivity; [|exact Hb]. apply List.filter_length_le.
Qed.

Lemma coherent_add t c : seen t -> t <> [] -> jget (cacheKey t) c = None -> (length c < MAX_CACHED_TEXT_ENTRIES)%nat ->
  coherent c -> coherent (jset (cacheKey t) (textTokensSpec t) c).
Proof.
  intros Ht Hne Hn Hl [Hv Hk Hb]. split.
  - intros k v. rewrite jget_jset. destruct (decide (k = cacheKey t)) as [->|]; [|apply Hv].
    intros [= <-]. by exists t.
  - by apply jset_NoDup.
  - rewrite length_jset_new by done. lia.
Qed.

(** [e] estimates [n] whatever coherent cache it meets, and keeps it coherent. *)
Definition estimates (e : Est) (n : Z) : Prop := forall c, coherent c -> fst (e c) = n /\ coherent (snd (e c)).

Lemma estimates_text t : seen t -> estimates (estimateTextTokens t) (textTokensSpec t).
Proof.
  intros Ht c Hc. unfold estimateTextTokens. destruct t as [|x t]; [done|]. set (text := x :: t) in *.
  assert (Hne : text <> []) by done.
  destruct (jget (cacheKey text) c) as [v|] eqn:E.
  - pose proof (co_values c Hc _ _ E) as (t' & Ht' & _ & Ek & ->). apply cacheKey_inj in Ek; [|done..]. subst t'.
    split; [done|]. cbn [snd]. apply coherent_add; [done|done|apply jget_jdel_eq| |by apply coherent_jdel].
    pose proof (length_jdel _ _ _ (co_keys c Hc) E). pose proof (co_bound c Hc). lia.
  - unfold textTokensSpec. fold text. change (match text with [] => 0%Z | _ => ?a end) with a.
    assert (Hspec : textTokensSpec text = if (MAX_EXACT_TOKENIZER_CHARS <? length text)%nat && hasOversizedAlphanumericRun text
      then estimateTextTokensUpperBound text
      else match countExactTokens text with
           | count_is n => if (n <? 0)%Z then estimateTextTokensUpperBound text else n
           | _ => estimateTextTokensUpperBound text end) by done.
    destruct (_ && _); [done|]. destruct (countExactTokens text) as [n| |]; [|done|done].
    destruct (n <? 0)%Z; [done|]. split; [done|]. cbn [snd]. rewrite <- Hspec.
    destruct (MAX_CACHED_TEXT_ENTRIES <=? length c)%nat eqn:El.
    + apply Nat.leb_le in El. pose proof (co_bound c Hc) as Hb.
      assert (Hmax : (0 < MAX_CACHED_TEXT_ENTRIES)%nat) by (by apply Nat.ltb_lt).
      destruct c as [|[k v] c]; [cbn in El; lia|]. cbn [jkeys map fst].
      apply coherent_add; [done|done| | |by apply coherent_jdel].
      * rewrite jget_jdel. by case_decide.
      * assert (Hk : jget k ((k, v) :: c) = Some v) by (cbn; by rewrite decide_True).
        pose proof (length_jdel _ _ _ (co_keys _ Hc) Hk). lia.
    + apply Nat.leb_gt in El. by apply coherent_add.
Qed.

Lemma estimates_plain n : estimates (plain n) n.
Proof. by intros c Hc. Qed.

Lemma estimates_plus a b x y : estimates a x -> estimates b y -> estimates (plus a b) (x + y).
Proof.
  intros Ha Hb c Hc. unfold plus. destruct (Ha c Hc) as [H1 H2]. destruct (a c) as [x' c1]. cbn in H1, H2. subst x'.
  destruct (Hb c1 H2) as [H3 H4]. destruct (b c1) as [y' c2]. cbn in *. by subst y'.
Qed.

Lemma estimates_eq e x y : estimates e x -> x = y -> estimates e y.
Proof. by intros H ->. Qed.

Lemma estimates_sum {A} (f : A -> Est) (g : A -> Z) l : (forall x, x ∈ l -> estimates (f x) (g x)) ->
  estimates (sumOf (map f l)) (foldr Z.add 0%Z (map g l)).
Proof.
  intros H. unfold sumOf. assert (Hgen : forall e n, estimates e n ->
    estimates (fold_left plus (map f l) e) (n + foldr Z.add 0 (map g l))%Z); 
    [|eapply estimates_eq; [apply (Hgen (plain 0) 0%Z), estimates_plain|lia]].
  induction l as [|x l IH]; intros e n He; cbn [map fold_left foldr].
  - eapply estimates_eq; [exact He|lia].
  - eapply estimates_eq; [apply (IH ltac:(intros y Hy; apply H; by right) _ (n + g x)%Z)|lia].
    apply estimates_plus; [done|]. apply H. left.
Qed.

Lemma sum_concat (f : jstr -> Z) ls :
  foldr Z.add 0%Z (map f (concat ls)) = foldr Z.add 0%Z (map (fun l => foldr Z.add 0 (map f l))%Z ls).
Proof.
  induction ls as [|l ls IH]; cbn [concat map foldr]; [done|]. rewrite map_app, <- IH.
  induction l as [|x l IHl]; cbn [map foldr app]; [lia|]. rewrite IHl. lia.
Qed.

Lemma sum_add {A} (f g : A -> Z) l :
  foldr Z.add 0%Z (map (fun x => f x + g x)%Z l) = (foldr Z.add 0 (map f l) + foldr Z.add 0 (map g l))%Z.
Proof. induction l as [|x l IH]; cbn [map foldr]; [done|]. rewrite IH. lia. Qed.

Definition seenAll (l : list jstr) : Prop := forall t, t ∈ l -> seen t.

Lemma seenAll_concat {A} (f : A -> list jstr) l x : seenAll (concat (map f l)) -> x ∈ l -> seenAll (f x).
Proof.
  intros H Hx t Ht. apply H. apply list_elem_of_In, in_concat. exists (f x).
  split; [apply in_map|]; by apply list_elem_of_In.
Qed.

Lemma estimates_content per c : seenAll (contentTexts c) ->
  (forall b, seenAll (blockTexts b) -> estimates (per b) (visual b + foldr Z.add 0 (map textTokensSpec (blockTexts b)))%Z) ->
  estimates (contentTokens per c) (contentVisual c + foldr Z.add 0 (map textTokensSpec (contentTexts c)))%Z.
Proof.
  intros Hs Hper. destruct c as [s|l]; cbn [contentTokens contentVisual contentTexts] in *.
  - eapply estimates_eq; [apply estimates_text, Hs; left|cbn; lia].
  - eapply estimates_eq; [apply estimates_sum; intros b Hb; apply Hper; by eapply seenAll_concat|].
    by rewrite sum_add, sum_concat, map_map.
Qed.

Lemma estimates_userBlock b : seenAll (blockTexts b) ->
  estimates (userBlock b) (visual b + foldr Z.add 0 (map textTokensSpec (blockTexts b)))%Z.
Proof.
  intros Hs. destruct b as [t| | | | |]; cbn; try apply estimates_plain.
  rewrite Z.add_0_r. destruct t as [|x t]; [apply estimates_plain|]. apply estimates_text, Hs. left.
Qed.

Lemma estimates_resultBlock b : seenAll (blockTexts b) ->
  estimates (resultBlock b) (visual b + foldr Z.add 0 (map textTokensSpec (blockTexts b)))%Z.
Proof.
  intros Hs. destruct b as [t| | | | |]; cbn; try apply estimates_plain.
  rewrite Z.add_0_r. apply estimates_text, Hs. left.
Qed.

Lemma estimates_assistantBlock b : seenAll (assistantTexts b) ->
  estimates (assistantBlock b) (foldr Z.add 0%Z (map textTokensSpec (assistantTexts b))).
Proof.
  intros Hs. destruct b as [t|t|i n a| | |]; cbn; try apply estimates_plain; rewrite Z.add_0_r.
  1,2: apply estimates_text, Hs; left.
  apply estimates_plus; apply estimates_text, Hs; set_solver.
Qed.

Lemma estimates_message m : seenAll (messageTexts m) -> estimates (estimateMessage m) (messageTokensSpec m).
Proof.
  intros Hs. unfold estimateMessage, messageTokensSpec. rewrite <- Z.add_assoc.
  apply estimates_plus; [apply estimates_plain|].
  destruct m as [c ?|l ? ? ?|? c ?|c ?|cmd out ?|sm ?|sm ? ? ?]; cbn [messageTexts messageVisual] in *.
  1: by apply estimates_content, estimates_userBlock.
  2,3: by apply estimates_content, estimates_resultBlock.
  - rewrite sum_concat, map_map. apply estimates_sum. intros b Hb. apply estimates_assistantBlock.
    by eapply seenAll_concat.
  - cbn [map foldr]. eapply estimates_eq; [apply estimates_plus; apply estimates_text, Hs; set_solver|lia].
  - cbn [map foldr]. eapply estimates_eq; [apply estimates_text, Hs; left|lia].
  - cbn [map foldr]. eapply estimates_eq; [apply estimates_text, Hs; left|lia].
Qed.

Lemma estimates_messages l : seenAll (concat (map messageTexts l)) -> estimates (estimateMessages l) (messagesTokensSpec l).
Proof. intros Hs. apply estimates_sum. intros m Hm. apply estimates_message. by eapply seenAll_concat. Qed.

Lemma estimates_context l c : seenAll (concat (map messageTexts l)) -> coherent c ->
  fst (estimateContextTokens l c) = contextTokensSpec l /\ coherent (snd (estimateContextTokens l c)).
Proof.
  intros Hs Hc. unfold estimateContextTokens, contextTokensSpec.
  destruct (getLastAssistantUsageInfo l) as [[u i]|].
  - destruct (estimates_messages (drop (i + 1) l)) with (c := c) as [H1 H2]; [|done|].
    { intros t Ht. apply Hs. apply list_elem_of_In, in_concat in Ht as (ts & Hts & Ht).
      apply in_map_iff in Hts as (m & <- & Hm). apply list_elem_of_In, in_concat. exists (messageTexts m).
      split; [|done]. apply in_map. rewrite <- (take_drop (i + 1) l). apply in_or_app. by right. }
    destruct (estimateMessages _ c) as [t c']. cbn in *. by subst t.
  - destruct (estimates_messages l Hs c Hc) as [H1 H2]. destruct (estimateMessages l c) as [t c']. cbn in *. by subst t.
Qed.
End Cache.

Definition callTexts (calls : list (list AgentMessage)) : list jstr := concat (map messageTexts (concat calls)).

Lemma estimates_all (seen : jstr -> Prop) calls : forall c,
  (forall a b, seen a -> seen b -> sha256hex a = sha256hex b -> a = b) ->
  (forall t, t ∈ callTexts calls -> seen t) -> coherent seen c ->
  fst (estimateAll calls c) = map contextTokensSpec calls /\ coherent seen (snd (estimateAll calls c)).
Proof.
  unfold callTexts. induction calls as [|l calls IH]; intros c Hinj Hs Hc; cbn [estimateAll map]; [done|].
  cbn [concat] in Hs. rewrite map_app, concat_app in Hs.
  destruct (estimates_context seen Hinj l c) as [H1 H2]; [intros t Ht; apply Hs, elem_of_app; by left|done|].
  destruct (estimateContextTokens l c) as [e c1]. cbn [fst snd] in H1, H2. subst e.
  destruct (IH c1 Hinj) as [H3 H4]; [intros t Ht; apply Hs, elem_of_app; by right|done|].
  destruct (estimateAll calls c1) as [es c2]. cbn [fst snd] in *. by subst es.
Qed.

(** Unless SHA-256 collides on two of the texts it has met, the estimator's
    bounded cache is invisible: whatever contexts it has estimated before, the
    estimate of a context is what its messages cost, namely the overhead, the
    stand-in for each image or video, and the tokenizer's count of each text
    (the UTF-8 length where the tokenizer fails or a run is too long), on top of
    the last usage the provider reported for it.  The cache never holds more
    than 2048 texts. *)
Theorem estimates_need_no_cache (calls : list (list AgentMessage)) :
  (forall a b, a ∈ callTexts calls -> b ∈ callTexts calls -> sha256hex a = sha256hex b -> a = b) ->
  fst (estimateAll calls []) = map contextTokensSpec calls
  /\ (length (snd (estimateAll calls [])) <= MAX_CACHED_TEXT_ENTRIES)%nat.
Proof.
  intros Hinj. destruct (estimates_all (fun t => t ∈ callTexts calls) calls [] Hinj) as [H1 H2]; [done| |].
  - split; [done|constructor|cbn; lia].
  - split; [done|apply H2].
Qed.
End Estimator.

(** ** The cache on a sample *)
Definition sampleCount (t : jstr) : Count := count_is (Z.of_nat (length t)).
Definition sampleUser (t : string) : AgentMessage := msg_user (content_string (js t)) None.

Lemma estimates_need_no_cache_witness :
  map tokens (fst (estimateAll sampleCount (fun _ => false) id [[sampleUser "abc"]; [sampleUser "abc"; sampleUser "d"]] []))
    = [7; 12]%Z
  /\ fst (estimateAll sampleCount (fun _ => false) id [[sampleUser "abc"]; [sampleUser "abc"; sampleUser "d"]] [])
    = map (contextTokensSpec sampleCount (fun _ => false)) [[sampleUser "abc"]; [sampleUser "abc"; sampleUser "d"]].
Proof.
  split; [by vm_compute|].
  apply (estimates_need_no_cache sampleCount (fun _ => false) id [[sampleUser "abc"]; [sampleUser "abc"; sampleUser "d"]]).
  intros a b _ _ H. exact H.
Defined.
