(* ===== verification/CtxManager.v ===== *)
(** * Context manager: trigger, compaction plan, checkpoint, budgets

    [packages/agent-modules/context-manager/src/manager.ts], [settings.ts] and
    [provider-budget.ts].  An index the code writes as [-1] is [None].  What the
    host supplies (the token counter, the summary, the clock, the hook that may
    defer) is a record of answers; the notifications are collected.  Logging
    and the observer's own exceptions have no effect on the decision. *)
From S2P Require Import Prelude JsValue CtxTokens.

(** ** [settings.ts] *)
Record ContextManagerSettings := {
  enabled : bool; reserveTokens : Z; keepRecentTokens : Z; minMessagesToCompact : nat;
  contextWindowFallback : Z; safetyMarginTokens : Z; strategyVersion : jstr;
}.

Definition DEFAULT_CONTEXT_MANAGER_SETTINGS : ContextManagerSettings := {|
  enabled := true; reserveTokens := 16384; keepRecentTokens := 20000; minMessagesToCompact := 4;
  contextWindowFallback := 128000; safetyMarginTokens := 2048;
  strategyVersion := js "agent-modules-context-manager-v1" |}.

(** A limit that is not a finite number is [None].  [Math.floor(w * 0.9)] is
    exact on the two windows it is asked for. *)
Definition computeCompactionTriggerAt (modelId : option jstr) (contextWindow : Z) (perTurnMaxTokens : option Z)
    (reserve margin : Z) : Z :=
  if bool_decide (modelId = Some (js "MiniMax-M3")) && ((contextWindow =? 512000) || (contextWindow =? 1000000))%Z
  then (contextWindow * 9 / 10)%Z
  else
    let perTurn := match perTurnMaxTokens with Some p => if (0 <? p)%Z then p else 0%Z | None => 0%Z end in
    Z.max 1 (contextWindow - Z.max reserve (perTurn + margin)).

(** ** [provider-budget.ts] *)
Definition outputFloor (configuredMaxTokens : Z) : Z :=
  Z.min configuredMaxTokens (reserveTokens DEFAULT_CONTEXT_MANAGER_SETTINGS).
Definition positive (value : option Z) : Z :=
  match value with Some v => if (0 <? v)%Z then v else 0%Z | None => 0%Z end.

Definition resolveDynamicMaxTokens (contextWindow configuredMaxTokens estimatedContextTokens : Z) : Z :=
  if negb (0 <? contextWindow)%Z || negb (0 <? configuredMaxTokens)%Z then configuredMaxTokens
  else
    let remaining :=
      (contextWindow - estimatedContextTokens - safetyMarginTokens DEFAULT_CONTEXT_MANAGER_SETTINGS)%Z in
    Z.min configuredMaxTokens (Z.max (outputFloor configuredMaxTokens) remaining).

(** [Math.floor(w * 0.95)] is [w * 95 / 100] for every window below 2^46. *)
Definition resolveCompactionTokenBudget (contextWindow : Z) (configuredMaxOutputTokens : option Z) : Z * Z :=
  let configuredOutput := positive configuredMaxOutputTokens in
  let effectiveOutput := outputFloor configuredOutput in
  let providerInputLimit :=
    Z.max 1 (Z.min (Z.min (contextWindow * 95 / 100)
                          (contextWindow - reserveTokens DEFAULT_CONTEXT_MANAGER_SETTINGS))
                   (contextWindow - effectiveOutput - safetyMarginTokens DEFAULT_CONTEXT_MANAGER_SETTINGS)) in
  let outputReserve := Z.min configuredOutput (contextWindow / 4) in
  let outputReservedTrigger := ((contextWindow - outputReserve) * 95 / 100)%Z in
  (providerInputLimit, Z.min providerInputLimit (Z.max 1 outputReservedTrigger)).

(** ** Tool groups *)
Definition isToolResult (m : AgentMessage) : bool := match m with msg_toolResult _ _ _ => true | _ => false end.
Definition isAssistant (m : AgentMessage) : bool := match m with msg_assistant _ _ _ _ => true | _ => false end.
Definition isValidFirstKeptMessage (m : AgentMessage) : bool := negb (isToolResult m).

Definition isHardToolGroupBoundary (m : AgentMessage) : bool :=
  match m with msg_user _ _ | msg_branchSummary _ _ | msg_compactionSummary _ _ _ _ => true | _ => false end.

Definition blockToolCallId (b : Block) : option jstr :=
  match b with block_toolCall id _ _ => Some id | _ => None end.
(** The identifiers of an assistant's tool calls. *)
Definition assistantToolCallIds (m : AgentMessage) : list jstr :=
  match m with msg_assistant content _ _ _ => omap blockToolCallId content | _ => [] end.
Definition assistantHasToolCall (m : AgentMessage) (id : jstr) : bool :=
  bool_decide (id ∈ assistantToolCallIds m).

(** The loop over the messages [rest] from index [i] on. *)
Fixpoint groupEnd_loop (toolCallIds : list jstr) (i : nat) (rest : list AgentMessage) (groupEnd : nat) : nat :=
  match rest with
  | [] => groupEnd
  | m :: rest' =>
    if isHardToolGroupBoundary m || isAssistant m then groupEnd
    else groupEnd_loop toolCallIds (S i) rest'
           (match m with
            | msg_toolResult id _ _ => if bool_decide (id ∈ toolCallIds) then i else groupEnd
            | _ => groupEnd
            end)
  end.
Definition findToolGroupEnd (messages : list AgentMessage) (assistantIndex : nat) (toolCallIds : list jstr) : nat :=
  groupEnd_loop toolCallIds (S assistantIndex) (drop (S assistantIndex) messages) assistantIndex.

(** [for (let i = index; i >= boundaryStart; i -= 1)] *)
Fixpoint groupStart_loop (messages : list AgentMessage) (index boundaryStart i : nat) : option nat :=
  if (i <? boundaryStart)%nat then None
  else
    let next := match i with O => None | S j => groupStart_loop messages index boundaryStart j end in
    match messages !! i with
    | None => next
    | Some candidate =>
      if isAssistant candidate then
        match assistantToolCallIds candidate with
        | [] => None
        | ids => if (index <=? findToolGroupEnd messages i ids)%nat then Some i else None
        end
      else if isHardToolGroupBoundary candidate then None
      else next
    end.
Definition findToolGroupStartForIndex (messages : list AgentMessage) (index boundaryStart : nat) : option nat :=
  groupStart_loop messages index boundaryStart index.

Fixpoint findAssistant_loop (messages : list AgentMessage) (toolCallId : jstr) (boundaryStart i : nat) : option nat :=
  if (i <? boundaryStart)%nat then None
  else
    let next := match i with O => None | S j => findAssistant_loop messages toolCallId boundaryStart j end in
    match messages !! i with
    | None => next
    | Some candidate =>
      if isAssistant candidate && assistantHasToolCall candidate toolCallId then Some i
      else if isHardToolGroupBoundary candidate then None
      else next
    end.
Definition findAssistantForToolResult (messages : list AgentMessage) (toolCallId : jstr)
    (toolResultIndex boundaryStart : nat) : option nat :=
  match toolResultIndex with
  | O => None
  | S j => findAssistant_loop messages toolCallId boundaryStart j
  end.

(** The loop over the messages [rest] from index [i] on. *)
Fixpoint firstValid_loop (messages : list AgentMessage) (boundaryStart i : nat) (rest : list AgentMessage) :
    option nat :=
  match rest with
  | [] => None
  | m :: rest' =>
    match m with
    | msg_toolResult id _ _ =>
      match findAssistantForToolResult messages id i boundaryStart with
      | Some a => Some a
      | None => firstValid_loop messages boundaryStart (S i) rest'
      end
    | _ => Some i
    end
  end.
Definition firstValidCutAtOrAfter (messages : list AgentMessage) (index boundaryStart : nat) : option nat :=
  let i := Nat.max index boundaryStart in
  firstValid_loop messages boundaryStart i (drop i messages).

Definition safeCutForIndex (messages : list AgentMessage) (index boundaryStart : nat) : option nat :=
  match messages !! index with
  | None => None
  | Some message =>
    match findToolGroupStartForIndex messages index boundaryStart with
    | Some start => Some start
    | None =>
      match message with
      | msg_toolResult id _ _ => findAssistantForToolResult messages id index boundaryStart
      | _ => Some index
      end
    end
  end.

Section Manager.
(** The estimate of one message. *)
Variable estimateMessage : AgentMessage -> Z.

(** [for (let i = messages.length - 1; i >= boundaryStart; i -= 1)], from [i = n - 1] down. *)
Fixpoint keepRecent_loop (messages : list AgentMessage) (boundaryStart : nat) (keep : Z) (n : nat) (tokens : Z)
    (candidate : option nat) : option nat :=
  match n with
  | O => candidate
  | S i =>
    if (i <? boundaryStart)%nat then candidate
    else
      match messages !! i with
      | None => candidate
      | Some m =>
        let tokens := (tokens + estimateMessage m)%Z in
        if (keep <=? tokens)%Z then safeCutForIndex messages i boundaryStart
        else keepRecent_loop messages boundaryStart keep i tokens candidate
      end
  end.

Definition selectFirstKeptIndex (messages : list AgentMessage) (boundaryStart : nat) (keep : Z) : option nat :=
  match firstValidCutAtOrAfter messages boundaryStart boundaryStart with
  | None => None
  | Some candidate => keepRecent_loop messages boundaryStart keep (length messages) 0 (Some candidate)
  end.

(** ** The plan *)
Definition compactionSummaryText (m : AgentMessage) : option jstr :=
  match m with msg_compactionSummary summary _ _ _ => summary | _ => None end.

Fixpoint latestSummary_loop (messages : list AgentMessage) (n : nat) : option (nat * jstr) :=
  match n with
  | O => None
  | S i =>
    match m ← messages !! i; compactionSummaryText m with
    | Some text => Some (i, text)
    | None => latestSummary_loop messages i
    end
  end.
(** The index of the latest compaction summary, with its text. *)
Definition findLatestCompactionSummaryIndex (messages : list AgentMessage) : option (nat * jstr) :=
  latestSummary_loop messages (length messages).

Record ContextCompactionPlan := {
  previousSummary : option jstr;
  compactedMessages : list AgentMessage;
  keptMessages : list AgentMessage;
  firstKeptIndex : nat;
  boundaryStartIndex : nat;
  tokensBefore : Z;
}.

Definition boundaryStartOf (messages : list AgentMessage) : nat :=
  match findLatestCompactionSummaryIndex messages with Some (i, _) => S i | None => 0 end.

Definition selectPlan (settings : ContextManagerSettings) (messages : list AgentMessage) (tokensBefore triggerAt : Z) :
    option ContextCompactionPlan :=
  let boundaryStart := boundaryStartOf messages in
  if (length messages - boundaryStart <? minMessagesToCompact settings)%nat then None
  else
    let keep := Z.min (keepRecentTokens settings) (Z.max 1 triggerAt) in
    match selectFirstKeptIndex messages boundaryStart keep with
    | None => None
    | Some first =>
      if (first <=? boundaryStart)%nat || (length messages <=? first)%nat then None
      else
        let compacted := take (first - boundaryStart) (drop boundaryStart messages) in
        let kept := drop first messages in
        if (length compacted <? minMessagesToCompact settings)%nat || (length kept =? 0)%nat then None
        else Some {| previousSummary := snd <$> findLatestCompactionSummaryIndex messages;
                     compactedMessages := compacted; keptMessages := kept; firstKeptIndex := first;
                     boundaryStartIndex := boundaryStart; tokensBefore := tokensBefore |}
    end.

(** ** The checkpoint *)
Inductive SkipReason :=
  | context_manager_disabled | context_manager_not_enough_messages | context_manager_below_threshold
  | context_manager_no_safe_cut_point | context_manager_deferred_by_plugin_hook
  | context_manager_token_count_failed | context_manager_summary_failed | context_manager_summary_empty.

(** The token counter: the local estimator, or a remote one that answers with
    a count and its source, or throws. *)
Inductive Counter := counter_local | counter_remote (answer : option (Z * jstr)).
(** The [beforeCompaction] hook: absent, an answer, or a rejection. *)
Inductive BeforeCompaction := before_absent | before_answers (go : bool) | before_rejects.

(** Where the summary comes from: the host's generator, which returns or throws
    (with the reason of its error), or the model, which needs an API key. *)
Inductive SummarySource :=
  | summary_generator (result : jstr + jstr)
  | summary_model (apiKey : option jstr) (result : jstr + jstr * jstr).

Definition generateSummary (g : SummarySource) : jstr + jstr :=
  match g with
  | summary_generator result => result
  | summary_model apiKey result =>
    if negb (otruthy apiKey)
    then inr (js "context_manager_summary_unavailable: missing apiKey for current model")
    else match result with
         | inl value => inl value
         | inr (code, message) => inr (js "context_manager_summary_failed: " ++ code ++ js ": " ++ message)
         end
  end.

Record CheckpointInput := {
  model_id : option jstr; model_contextWindow : option Z; model_maxTokens : option Z;
  messages : list AgentMessage;
  counter : Counter;
  beforeCompaction : BeforeCompaction;
  summarySource : SummarySource;
  nowMs : Z;
  replacementId : jstr;
}.

Record TriggerEvaluation := {
  shouldCompact : bool; reason : option SkipReason; t_tokens : Z; t_source : jstr; triggerAt : Z;
}.

Record ReplacementMetadata := {
  md_replacementId : jstr; md_strategyVersion : jstr; md_summary : jstr;
  md_compactedMessages : list AgentMessage; md_keptMessages : list AgentMessage;
  md_firstKeptIndex : nat; md_tokensBefore : Z; md_tokensAfter : Z; md_messagesBefore : nat; md_messagesAfter : nat;
}.
Inductive Decision :=
  | decision_skip (reason : SkipReason)
  | decision_replaceMessages (l : list AgentMessage) (metadata : ReplacementMetadata).

Inductive Notification :=
  | on_trigger_evaluated (e : TriggerEvaluation)
  | on_compaction_skipped (reason : SkipReason)
  | on_compaction_committed (replacementId : jstr) (tokensBefore tokensAfter : Z) (messagesBefore messagesAfter : nat)
  | on_compaction_failed (reason : jstr).

(** The whole estimate of a context, with the provider's usage as its prefix. *)
Variable estimateContext : list AgentMessage -> Z.
Variable settings : ContextManagerSettings.

Definition contextWindowOf (i : CheckpointInput) : Z :=
  match model_contextWindow i with
  | Some w => if (0 <? w)%Z then w else contextWindowFallback settings
  | None => contextWindowFallback settings
  end.

Definition triggerAtOf (i : CheckpointInput) : Z :=
  computeCompactionTriggerAt (model_id i) (contextWindowOf i) (model_maxTokens i) (reserveTokens settings)
    (safetyMarginTokens settings).

Definition evaluateTrigger (i : CheckpointInput) : TriggerEvaluation :=
  let at_ := triggerAtOf i in
  let no r source := {| shouldCompact := false; reason := Some r; t_tokens := 0; t_source := source; triggerAt := at_ |} in
  if negb (enabled settings) then no context_manager_disabled (js "disabled")
  else if (length (messages i) <=? 1)%nat || (length (messages i) <? minMessagesToCompact settings)%nat
  then no context_manager_not_enough_messages (js "not_counted")
  else
    match match counter i with
          | counter_local => Some (estimateContext (messages i), js "local_estimate")
          | counter_remote answer => answer
          end with
    | None => no context_manager_token_count_failed (js "remote_count_tokens")
    | Some (tokens, source) =>
      let over := (at_ <? tokens)%Z in
      {| shouldCompact := over; reason := if over then None else Some context_manager_below_threshold;
         t_tokens := tokens; t_source := source; triggerAt := at_ |}
    end.

(** [`${prefix}: ${message}`], once. *)
Definition errorReason (prefix message : jstr) : jstr :=
  if startsWith message (prefix ++ js ":") then message else prefix ++ js ": " ++ message.

Definition createCompactionSummary (summary : jstr) (tokensBefore timestamp : Z) (keptMessageCount : nat) : AgentMessage :=
  msg_compactionSummary (Some summary) tokensBefore (Some timestamp) (Some (Some (Z.of_nat keptMessageCount))).

Definition replacementMessages (i : CheckpointInput) (summary : jstr) (plan : ContextCompactionPlan) : list AgentMessage :=
  createCompactionSummary summary (tokensBefore plan) (nowMs i) (length (keptMessages plan)) :: keptMessages plan.

Definition skip (r : SkipReason) (events : list Notification) : option Decision * list Notification :=
  (Some (decision_skip r), events ++ [on_compaction_skipped r]).

(** The decision, or [None] when the hook rejects; and the notifications. *)
Definition checkpointLocked (i : CheckpointInput) : option Decision * list Notification :=
  let trigger := evaluateTrigger i in
  let events := [on_trigger_evaluated trigger] in
  if negb (shouldCompact trigger) then skip (default context_manager_below_threshold (reason trigger)) events
  else
    match selectPlan settings (messages i) (t_tokens trigger) (triggerAt trigger) with
    | None => skip context_manager_no_safe_cut_point events
    | Some plan =>
      match beforeCompaction i with
      | before_rejects => (None, events)
      | before_answers false => skip context_manager_deferred_by_plugin_hook events
      | _ =>
        match generateSummary (summarySource i) with
        | inr err =>
          skip context_manager_summary_failed
            (events ++ [on_compaction_failed (errorReason (js "context_manager_summary_failed") err)])
        | inl summary =>
          if negb (truthy (trim summary)) then skip context_manager_summary_empty events
          else
            let replacement := replacementMessages i summary plan in
            let tokensAfter := estimateContext replacement in
            (Some (decision_replaceMessages replacement {|
               md_replacementId := replacementId i; md_strategyVersion := strategyVersion settings;
               md_summary := summary; md_compactedMessages := compactedMessages plan;
               md_keptMessages := keptMessages plan; md_firstKeptIndex := firstKeptIndex plan;
               md_tokensBefore := tokensBefore plan; md_tokensAfter := tokensAfter;
               md_messagesBefore := length (messages i); md_messagesAfter := length replacement |}),
             events ++ [on_compaction_committed (replacementId i) (tokensBefore plan) tokensAfter
                          (length (messages i)) (length replacement)])
        end
      end
    end.
End Manager.

(** ** Well-paired transcripts *)
(** Each tool result answers a call of the last assistant message before it,
    with no user message or summary between; [open] are that message's calls. *)
Definition openAfter (open : list jstr) (m : AgentMessage) : list jstr :=
  if isAssistant m then assistantToolCallIds m else if isHardToolGroupBoundary m then [] else open.

Fixpoint wellPaired (open : list jstr) (l : list AgentMessage) : bool :=
  match l with
  | [] => true
  | m :: l' =>
    match m with msg_toolResult id _ _ => bool_decide (id ∈ open) | _ => true end
    && wellPaired (openAfter open m) l'
  end.

Definition opensAfter (open : list jstr) (l : list AgentMessage) : list jstr := fold_left openAfter l open.

Lemma wellPaired_app open l1 l2 :
  wellPaired open (l1 ++ l2) = wellPaired open l1 && wellPaired (opensAfter open l1) l2.
Proof.
  revert open. induction l1 as [|m l1 IH]; intros open; cbn [app wellPaired opensAfter fold_left]; [done|].
  by rewrite IH, andb_assoc.
Qed.

(** The results answered before the next assistant message or boundary. *)
Fixpoint leadingResults (l : list AgentMessage) : list jstr :=
  match l with
  | [] => []
  | m :: l' =>
    if isHardToolGroupBoundary m || isAssistant m then []
    else match m with msg_toolResult id _ _ => id :: leadingResults l' | _ => leadingResults l' end
  end.

Lemma wellPaired_leading open l : wellPaired open l = true -> Forall (fun id => id ∈ open) (leadingResults l).
Proof.
  induction l as [|m l IH]; cbn [wellPaired leadingResults]; [constructor|].
  destruct m; cbn; intros H; reflect_bools; try constructor; auto.
Qed.

Lemma wellPaired_open open l : leadingResults l = [] -> wellPaired open l = wellPaired [] l.
Proof.
  induction l as [|m l IH]; cbn [wellPaired leadingResults]; [done|].
  destruct m; cbn; intros H; try done; by rewrite IH.
Qed.

(** A message that a group end can lie behind. *)
Definition inGroup (m : AgentMessage) : bool := negb (isHardToolGroupBoundary m || isAssistant m).

Lemma groupEnd_ge ids i rest e : (e <= groupEnd_loop ids i rest e)%nat \/ (i <= groupEnd_loop ids i rest e)%nat.
Proof.
  revert i e. induction rest as [|m rest IH]; intros i e; cbn [groupEnd_loop]; [by left|].
  destruct (_ || _); [by left|]. set (e' := match m with msg_toolResult _ _ _ => _ | _ => e end).
  assert (He : e' = e \/ e' = i) by (subst e'; destruct m; try (by left); case_match; auto).
  destruct (IH (S i) e') as [H|H]; destruct He as [-> | ->]; auto; right; lia.
Qed.

(** With results of [ids] ahead in the group, the group does not end before. *)
Lemma groupEnd_reaches ids l1 l2 i e : Forall (fun m => inGroup m = true) l1 ->
  Exists (fun id => id ∈ ids) (leadingResults l2) ->
  (i + length l1 <= groupEnd_loop ids i (l1 ++ l2) e)%nat.
Proof.
  revert i e. induction l1 as [|m l1 IH]; intros i e Hl1 Hex; cbn [app length].
  - rewrite Nat.add_0_r. revert i e. induction l2 as [|m l2 IH2]; intros i e; [by inversion Hex|].
    cbn [leadingResults groupEnd_loop] in *. destruct (_ || _); [by inversion Hex|].
    destruct m as [| |id c t| | | |]; try (etransitivity; [|apply IH2, Hex]; lia).
    case_bool_decide as Hid.
    + destruct (groupEnd_ge ids (S i) l2 i); lia.
    + apply Exists_cons in Hex as [|Hex]; [done|]. etransitivity; [|apply IH2, Hex]. lia.
  - apply Forall_cons in Hl1 as [Hm Hl1]. cbn [groupEnd_loop]. unfold inGroup in Hm.
    apply negb_true_iff in Hm. rewrite Hm. specialize (IH (S i)
      (match m with msg_toolResult id _ _ => if bool_decide (id ∈ ids) then i else e | _ => e end) Hl1 Hex). lia.
Qed.

(** ** Cuts *)
Lemma groupStart_sound l index bs i a : groupStart_loop l index bs i = Some a ->
  (bs <= a <= i)%nat /\ exists m, l !! a = Some m /\ isAssistant m = true.
Proof.
  induction i as [|i IH]; cbn [groupStart_loop];
    match goal with |- context [(?x <? bs)%nat] => destruct (Nat.ltb_spec x bs) end; try done.
  - destruct (l !! 0%nat) as [m|] eqn:E; [|done]. destruct (isAssistant m) eqn:Ea; [|by destruct (isHardToolGroupBoundary m)].
    destruct (assistantToolCallIds m); [done|]. case_match; intros [= <-]. split; [lia|]. by exists m.
  - assert (Hn : groupStart_loop l index bs i = Some a ->
      (bs <= a <= S i)%nat /\ exists m, l !! a = Some m /\ isAssistant m = true) by (intros E; destruct (IH E); split; [lia|done]).
    destruct (l !! S i) as [m|] eqn:E; [|exact Hn].
    destruct (isAssistant m) eqn:Ea; [|by destruct (isHardToolGroupBoundary m)].
    destruct (assistantToolCallIds m); [done|]. case_match; intros [= <-]. split; [lia|]. by exists m.
Qed.

Lemma findAssistant_sound l id bs i a : findAssistant_loop l id bs i = Some a ->
  (bs <= a <= i)%nat /\ exists m, l !! a = Some m /\ isAssistant m = true.
Proof.
  induction i as [|i IH]; cbn [findAssistant_loop];
    match goal with |- context [(?x <? bs)%nat] => destruct (Nat.ltb_spec x bs) end; try done.
  - destruct (l !! 0%nat) as [m|] eqn:E; [|done].
    destruct (isAssistant m) eqn:Ea; cbn [andb]; [destruct (assistantHasToolCall m id)|]; try by destruct (isHardToolGroupBoundary m).
    intros [= <-]. split; [lia|]. by exists m.
  - assert (Hn : findAssistant_loop l id bs i = Some a ->
      (bs <= a <= S i)%nat /\ exists m, l !! a = Some m /\ isAssistant m = true) by (intros E; destruct (IH E); split; [lia|done]).
    destruct (l !! S i) as [m|] eqn:E; [|exact Hn].
    destruct (isAssistant m) eqn:Ea; cbn [andb]; [destruct (assistantHasToolCall m id)|]; try by destruct (isHardToolGroupBoundary m).
    intros [= <-]. split; [lia|]. by exists m.
Qed.

Lemma groupStart_walk l index bs a k : (bs <= a)%nat ->
  (forall j, (a < j <= a + k)%nat -> exists m, l !! j = Some m /\ inGroup m = true) ->
  groupStart_loop l index bs (a + k) = groupStart_loop l index bs a.
Proof.
  intros Hbs. induction k as [|k IH]; intros Hk; [by rewrite Nat.add_0_r|].
  rewrite Nat.add_succ_r. cbn [groupStart_loop]. destruct (Nat.ltb_spec (S (a + k)) bs); [lia|].
  destruct (Hk (S (a + k))) as (m & -> & Hm); [lia|]. unfold inGroup in Hm.
  apply negb_true_iff, orb_false_iff in Hm as [-> ->]. apply IH. intros j Hj. apply Hk. lia.
Qed.

Lemma groupStart_at l index bs i a id : (bs <= i)%nat -> l !! i = Some a -> isAssistant a = true ->
  id ∈ assistantToolCallIds a -> (index <= findToolGroupEnd l i (assistantToolCallIds a))%nat ->
  groupStart_loop l index bs i = Some i.
Proof.
  intros Hbs Hi Ha Hid Hend. destruct i; cbn [groupStart_loop]; rewrite Hi, Ha;
    match goal with |- context [(?x <? bs)%nat] => destruct (Nat.ltb_spec x bs); [lia|] end;
    (destruct (assistantToolCallIds a) as [|y ys]; [by apply elem_of_nil in Hid|]);
    by rewrite (proj2 (Nat.leb_le _ _) Hend).
Qed.

(** The calls open after a prefix are those of its last assistant message. *)
Lemma opens_source id l : id ∈ opensAfter [] l ->
  exists l1 m l2, l = l1 ++ m :: l2 /\ isAssistant m = true /\ id ∈ assistantToolCallIds m
    /\ opensAfter [] l = assistantToolCallIds m /\ Forall (fun m => inGroup m = true) l2.
Proof.
  induction l as [|x l IH] using rev_ind; cbn [opensAfter fold_left]; [intros H; by apply elem_of_nil in H|].
  unfold opensAfter. rewrite fold_left_app. cbn [fold_left]. fold (opensAfter [] l). unfold openAfter.
  destruct (isAssistant x) eqn:Ea; [|destruct (isHardToolGroupBoundary x) eqn:Eh].
  - intros H. exists l, x, []. by split_and!.
  - intros H. by apply elem_of_nil in H.
  - intros H. destruct (IH H) as (l1 & m & l2 & -> & Hm & Hid & Ho & Hf). exists l1, m, (l2 ++ [x]).
    rewrite <- app_assoc. split_and!; [done..|]. apply Forall_app. split; [done|]. repeat constructor.
    unfold inGroup. by rewrite Ea, Eh.
Qed.

(** No result of an earlier call lies ahead of a cut that no group holds. *)
Lemma cut_ungrouped l bs index m : l !! index = Some m -> (bs <= index)%nat -> inGroup m = true ->
  wellPaired [] (drop bs l) = true -> findToolGroupStartForIndex l index bs = None ->
  leadingResults (drop index l) = [].
Proof.
  intros Hm Hbs Hg Hw Hnone. set (pre := take (index - bs) (drop bs l)).
  assert (Hsplit : drop bs l = pre ++ drop index l).
  { unfold pre. rewrite <- (take_drop (index - bs) (drop bs l)) at 1. f_equal. rewrite drop_drop. f_equal. lia. }
  rewrite Hsplit, wellPaired_app in Hw. apply andb_true_iff in Hw as [_ Hw]. apply wellPaired_leading in Hw.
  destruct (leadingResults (drop index l)) as [|id ids] eqn:El; [done|]. exfalso.
  apply Forall_cons in Hw as [Hid _].
  destruct (opens_source id pre Hid) as (l1 & a & l2 & Epre & Ha & Hin & Ho & Hl2).
  assert (Hlen : length pre = (index - bs)%nat).
  { unfold pre. rewrite length_take, length_drop. apply lookup_lt_Some in Hm. lia. }
  rewrite Epre, length_app in Hlen. cbn [length] in Hlen.
  assert (Hat : forall k, (drop bs l) !! k = l !! (bs + k)%nat) by (intros k; apply lookup_drop).
  rewrite Epre, <- app_assoc in Hsplit. cbn [app] in Hsplit.
  assert (Ea : l !! (bs + length l1)%nat = Some a) by (rewrite <- Hat, Hsplit; apply list_lookup_middle; lia).
  unfold findToolGroupStartForIndex in Hnone.
  replace index with ((bs + length l1) + (index - (bs + length l1)))%nat in Hnone at 2 by lia.
  rewrite groupStart_walk in Hnone; [|lia|].
  - assert (Hend : (index <= findToolGroupEnd l (bs + length l1) (assistantToolCallIds a))%nat).
    { unfold findToolGroupEnd.
      assert (Hd : drop (S (bs + length l1)) l = l2 ++ drop index l).
      { replace (S (bs + length l1)) with (bs + (length l1 + 1))%nat by lia. rewrite <- drop_drop, Hsplit.
        rewrite drop_app_ge by lia. by replace (length l1 + 1 - length l1)%nat with 1%nat by lia. }
      rewrite Hd. etransitivity; [|apply groupEnd_reaches; [done|]]; [lia|]. rewrite El. by left. }
    rewrite (groupStart_at l index bs _ a id) in Hnone by (done || lia). done.
  - intros j Hj. destruct (decide (j = index)) as [->|Hne]; [by exists m|].
    assert (Hj2 : l2 !! (j - (bs + length l1) - 1)%nat = l !! j).
    { replace (l !! j) with ((drop bs l) !! (j - bs)%nat) by (rewrite Hat; f_equal; lia).
      rewrite Hsplit. rewrite lookup_app_r by lia. rewrite lookup_cons.
      replace (j - bs - length l1)%nat with (S (j - (bs + length l1) - 1)) by lia.
      rewrite lookup_app_l; [done|]. lia. }
    destruct (l2 !! _) as [y|] eqn:Ey; [|apply lookup_ge_None in Ey; lia].
    exists y. split; [done|]. rewrite Forall_lookup in Hl2. by eapply Hl2.
Qed.

Lemma wellPaired_suffix l bs k : (bs <= k)%nat -> wellPaired [] (drop bs l) = true ->
  exists open, wellPaired open (drop k l) = true.
Proof.
  intros Hk Hw. exists (opensAfter [] (take (k - bs) (drop bs l))).
  rewrite <- (take_drop (k - bs) (drop bs l)), wellPaired_app in Hw. apply andb_true_iff in Hw as [_ Hw].
  rewrite drop_drop in Hw. by replace (bs + (k - bs))%nat with k in Hw by lia.
Qed.

(** A suffix that starts with an assistant message or a boundary needs no earlier call. *)
Lemma wellPaired_start l bs k m : l !! k = Some m -> inGroup m = false -> (bs <= k)%nat ->
  wellPaired [] (drop bs l) = true -> wellPaired [] (drop k l) = true.
Proof.
  intros Hm Hg Hk Hw. destruct (wellPaired_suffix l bs k Hk Hw) as [open H].
  rewrite (drop_S _ _ _ Hm) in *. cbn [wellPaired] in *.
  unfold inGroup, openAfter in *. apply negb_false_iff in Hg. by destruct m.
Qed.

Lemma inGroup_assistant m : isAssistant m = true -> inGroup m = false.
Proof. unfold inGroup. intros ->. by rewrite orb_true_r. Qed.

Definition safeCut (l : list AgentMessage) (bs index k : nat) : Prop :=
  (bs <= k <= index)%nat /\ (exists m, l !! k = Some m /\ isToolResult m = false)
  /\ (wellPaired [] (drop bs l) = true -> wellPaired [] (drop k l) = true).

Lemma assistant_safe l bs index k m : l !! k = Some m -> isAssistant m = true -> (bs <= k <= index)%nat ->
  safeCut l bs index k.
Proof.
  intros Hm Ha Hk. split_and!; [lia|lia| |].
  - exists m. split; [done|]. by destruct m.
  - eapply wellPaired_start; [exact Hm|by apply inGroup_assistant|lia].
Qed.

Lemma safeCut_spec l index bs k : (bs <= index)%nat -> safeCutForIndex l index bs = Some k -> safeCut l bs index k.
Proof.
  intros Hbs. unfold safeCutForIndex. destruct (l !! index) as [m|] eqn:Hm; [|done].
  destruct (findToolGroupStartForIndex l index bs) as [a|] eqn:Eg.
  { intros [= <-]. destruct (groupStart_sound _ _ _ _ _ Eg) as (Ha & m' & Hm' & Has).
    by eapply assistant_safe. }
  assert (Hsame : isToolResult m = false -> safeCut l bs index index).
  { intros Hr. split_and!; [lia|lia|by exists m|]. intros Hw. destruct (inGroup m) eqn:Hg.
    - destruct (wellPaired_suffix l bs index Hbs Hw) as [open H]. rewrite <- H. symmetry.
      apply wellPaired_open. by eapply cut_ungrouped.
    - by eapply wellPaired_start. }
  destruct m as [| |id c t| | | |]; try (by intros [= <-]; apply Hsame).
  destruct index as [|i]; cbn [findAssistantForToolResult]; [done|]. intros E.
  destruct (findAssistant_sound _ _ _ _ _ E) as (Ha & m' & Hm' & Has). eapply assistant_safe; [done..|lia].
Qed.

Lemma firstValid_sound l bs i k : (bs <= i)%nat -> firstValid_loop l bs i (drop i l) = Some k ->
  (bs <= k)%nat /\ exists m, l !! k = Some m /\ isToolResult m = false.
Proof.
  remember (drop i l) as rest eqn:E. revert i E. induction rest as [|m rest IH]; intros i E Hbs; cbn [firstValid_loop]; [done|].
  assert (Hm : l !! i = Some m).
  { rewrite <- (Nat.add_0_r i), <- lookup_drop, <- E. done. }
  assert (Hrest : rest = drop (S i) l) by (rewrite (drop_S _ _ _ Hm) in E; by injection E).
  destruct m as [| |id c t| | | |]; try (intros [= <-]; split; [lia|]; by eexists).
  destruct (findAssistantForToolResult l id i bs) as [a|] eqn:Ea; [|apply IH; [done|lia]].
  intros [= <-]. destruct i as [|j]; [done|]. cbn [findAssistantForToolResult] in Ea.
  destruct (findAssistant_sound _ _ _ _ _ Ea) as (Ha & m & Hm' & Has). split; [lia|]. exists m. split; [done|].
  by destruct m.
Qed.

Lemma firstValid_paired l bs k : wellPaired [] (drop bs l) = true -> firstValidCutAtOrAfter l bs bs = Some k -> k = bs.
Proof.
  unfold firstValidCutAtOrAfter. rewrite Nat.max_id. destruct (drop bs l) as [|m rest]; [done|].
  cbn [wellPaired firstValid_loop]. destruct m; intros Hw; reflect_bools; try (by intros [= <-]).
  by match goal with H : _ ∈ [] |- _ => apply elem_of_nil in H end.
Qed.

Section Plans.
Variable estimateMessage : AgentMessage -> Z.

Definition tokensOf (l : list AgentMessage) : Z := foldr Z.add 0%Z (map estimateMessage l).

Lemma tokensOf_app l1 l2 : tokensOf (l1 ++ l2) = (tokensOf l1 + tokensOf l2)%Z.
Proof. unfold tokensOf. induction l1 as [|m l1 IH]; cbn [app map foldr]; [done|]. rewrite IH. lia. Qed.

(** Either the recent messages reach the budget at some index, where the cut
    is safe, or they never do. *)
Lemma keepRecent_spec l bs keep n candidate k : (n <= length l)%nat ->
  keepRecent_loop estimateMessage l bs keep n (tokensOf (drop n l)) candidate = Some k ->
  (exists i, (bs <= i < n)%nat /\ (keep <= tokensOf (drop i l))%Z
     /\ ((S i < n)%nat -> (tokensOf (drop (S i) l) < keep)%Z) /\ safeCut l bs i k)
  \/ candidate = Some k.
Proof.
  intros Hn. assert (Hgen : forall n, (n <= length l)%nat ->
    keepRecent_loop estimateMessage l bs keep n (tokensOf (drop n l)) candidate = Some k ->
    (exists i, (bs <= i < n)%nat /\ (keep <= tokensOf (drop i l))%Z
     /\ ((S i < n)%nat -> (tokensOf (drop (S i) l) < keep)%Z) /\ safeCut l bs i k) \/ candidate = Some k).
  2: by apply Hgen.
  clear n Hn. induction n as [|i IH]; intros Hn; cbn [keepRecent_loop]; [by right|].
  destruct (Nat.ltb_spec i bs) as [|Hbs]; [by right|].
  destruct (l !! i) as [m|] eqn:Hm; [|apply lookup_ge_None in Hm; lia].
  assert (Ht : tokensOf (drop i l) = (tokensOf (drop (S i) l) + estimateMessage m)%Z).
  { rewrite (drop_S _ _ _ Hm). unfold tokensOf. cbn [map foldr]. lia. }
  rewrite <- Ht. destruct (Z.leb_spec keep (tokensOf (drop i l))) as [Hk|Hk].
  - intros E. left. exists i. split_and!; [lia..| |]; [lia|]. by apply safeCut_spec.
  - intros E. destruct (IH ltac:(lia) E) as [(j & Hj & Hk1 & Hk2 & Hs)|H]; [left|by right].
    exists j. split_and!; [lia..|done| |done]. intros Hj2. destruct (decide (S j = i)) as [->|]; [done|]. apply Hk2. lia.
Qed.

(** Where the kept messages start: at a safe cut at or before the message with
    which the recent messages reach the budget, or at the first valid message. *)
Lemma firstKept_spec l bs keep k : selectFirstKeptIndex estimateMessage l bs keep = Some k ->
  (exists i, (bs <= i < length l)%nat /\ (keep <= tokensOf (drop i l))%Z
     /\ ((1 <= keep)%Z -> (tokensOf (drop (S i) l) < keep)%Z) /\ safeCut l bs i k)
  \/ firstValidCutAtOrAfter l bs bs = Some k.
Proof.
  unfold selectFirstKeptIndex. destruct (firstValidCutAtOrAfter l bs bs) as [c|] eqn:Ec; [|done].
  intros E. assert (E0 : 0%Z = tokensOf (drop (length l) l)) by (by rewrite drop_all).
  rewrite E0 in E. apply keepRecent_spec in E as [(i & Hi & H1 & H2 & Hs)|E]; [left|by right|done].
  exists i. split; [done|]. split; [done|]. split; [intros Hk|done].
  destruct (decide (S i < length l)%nat) as [H|H]; [by apply H2|]. rewrite drop_ge by lia. cbn. lia.
Qed.

(** What a plan is. *)
Record planSpec (settings : ContextManagerSettings) (l : list AgentMessage) (triggerAt : Z) (p : ContextCompactionPlan) : Prop := {
  ps_boundary : boundaryStartIndex p = boundaryStartOf l;
  ps_range : (boundaryStartIndex p < firstKeptIndex p < length l)%nat;
  ps_kept : keptMessages p = drop (firstKeptIndex p) l;
  ps_split : drop (boundaryStartIndex p) l = compactedMessages p ++ keptMessages p;
  ps_min : (minMessagesToCompact settings <= length (compactedMessages p))%nat;
  ps_head : exists m rest, keptMessages p = m :: rest /\ isToolResult m = false;
  ps_previous : previousSummary p = snd <$> findLatestCompactionSummaryIndex l;
}.

Lemma selectPlan_cut settings l before triggerAt p :
  selectPlan estimateMessage settings l before triggerAt = Some p ->
  planSpec settings l triggerAt p /\ tokensBefore p = before
  /\ let keep := Z.min (keepRecentTokens settings) (Z.max 1 triggerAt) in
     ((exists i, (boundaryStartIndex p <= i < length l)%nat /\ (keep <= tokensOf (drop i l))%Z
         /\ ((1 <= keep)%Z -> (tokensOf (drop (S i) l) < keep)%Z) /\ safeCut l (boundaryStartIndex p) i (firstKeptIndex p))
      \/ firstValidCutAtOrAfter l (boundaryStartIndex p) (boundaryStartIndex p) = Some (firstKeptIndex p)).
Proof.
  unfold selectPlan. destruct (_ <? minMessagesToCompact settings)%nat; [done|].
  set (keep := Z.min _ _). set (bs := boundaryStartOf l).
  destruct (selectFirstKeptIndex _ _ _ _) as [k|] eqn:Ek; [|done].
  destruct (Nat.leb_spec k bs) as [|Hbs]; cbn [orb]; [done|].
  destruct (Nat.leb_spec (length l) k) as [|Hk]; [done|].
  destruct (Nat.ltb_spec (length (take (k - bs) (drop bs l))) (minMessagesToCompact settings)) as [|Hmin]; cbn [orb]; [done|].
  destruct (length (drop k l) =? 0)%nat; [done|]. intros [= <-]. cbn.
  apply firstKept_spec in Ek. split_and!; [|done|exact Ek].
  split; cbn; try done.
  - rewrite <- (take_drop (k - bs) (drop bs l)) at 1. f_equal. rewrite drop_drop. f_equal. lia.
  - assert (Hm : exists m, l !! k = Some m /\ isToolResult m = false).
    { destruct Ek as [(i & _ & _ & _ & _ & Hm & _)|Ek]; [done|]. unfold firstValidCutAtOrAfter in Ek.
      rewrite Nat.max_id in Ek. by apply firstValid_sound in Ek as [_ ?]. }
    destruct Hm as (m & Hm & Hr). rewrite (drop_S _ _ _ Hm). by eexists _, _.
Qed.

(** The plan behind a replacement. *)
Lemma checkpoint_plan estimateContext settings i l md events :
  checkpointLocked estimateMessage estimateContext settings i = (Some (decision_replaceMessages l md), events) ->
  exists p summary, selectPlan estimateMessage settings (messages i) (t_tokens (evaluateTrigger estimateContext settings i))
      (triggerAt (evaluateTrigger estimateContext settings i)) = Some p
    /\ generateSummary (summarySource i) = inl summary /\ l = replacementMessages i summary p
    /\ md_keptMessages md = keptMessages p /\ md_compactedMessages md = compactedMessages p
    /\ md_firstKeptIndex md = firstKeptIndex p /\ md_tokensAfter md = estimateContext l.
Proof.
  unfold checkpointLocked, skip. destruct (negb _); [done|].
  destruct (selectPlan _ _ _ _ _) as [p|]; [|done].
  destruct (beforeCompaction i) as [|[|]|]; try done; destruct (generateSummary (summarySource i)) as [summary|err]; try done;
    destruct (negb (truthy (trim summary))); try done; intros [= <- <- _]; by exists p, summary.
Qed.
End Plans.

(** C18: Compaction never separates a tool call from its results.  A checkpoint
    that replaces the transcript puts one summary in front of a suffix of it,
    summarises everything between the latest earlier summary and that suffix,
    and never lets the suffix start with a tool result; and if every tool result
    after the earlier summary answered a call of the last assistant message
    before it, every tool result of the new transcript does too. *)
Theorem compaction_keeps_tool_pairs (estimateMessage : AgentMessage -> Z) (estimateContext : list AgentMessage -> Z)
    (settings : ContextManagerSettings) (i : CheckpointInput) (l : list AgentMessage) (md : ReplacementMetadata)
    (events : list Notification) :
  checkpointLocked estimateMessage estimateContext settings i = (Some (decision_replaceMessages l md), events) ->
  (exists summary m rest, l = summary :: m :: rest /\ md_keptMessages md = m :: rest /\ isToolResult m = false
     /\ isHardToolGroupBoundary summary = true
     /\ drop (boundaryStartOf (messages i)) (messages i) = md_compactedMessages md ++ m :: rest)
  /\ (wellPaired [] (drop (boundaryStartOf (messages i)) (messages i)) = true -> wellPaired [] l = true).
Proof.
  intros H. apply checkpoint_plan in H as (p & summary & Hp & _ & -> & -> & -> & _).
  apply selectPlan_cut in Hp as ([Hb Hr Hk Hs _ (m & rest & Em & Hm) _] & _ & Hcut).
  rewrite Hb in *. split.
  - eexists _, m, rest. unfold replacementMessages. rewrite Em in *. by split_and!.
  - intros Hw. unfold replacementMessages, createCompactionSummary. cbn [wellPaired openAfter isAssistant isHardToolGroupBoundary andb].
    rewrite Hk. destruct Hcut as [(j & _ & _ & _ & _ & _ & Hsafe)|Hfirst]; [by apply Hsafe|].
    apply firstValid_paired in Hfirst; [|done]. lia.
Qed.

(** The recent part of the transcript survives compaction verbatim: in a
    transcript where every tool result follows its call, the kept messages come
    to at least the budget of recent tokens, and every suffix that stays below
    the budget is kept in full.  The budget is [keepRecentTokens], cut down to
    the trigger threshold when that is smaller. *)
Theorem recent_messages_are_kept (estimateMessage : AgentMessage -> Z) (settings : ContextManagerSettings)
    (l : list AgentMessage) (before threshold : Z) (p : ContextCompactionPlan) :
  (forall m, 0 <= estimateMessage m)%Z ->
  wellPaired [] (drop (boundaryStartOf l) l) = true ->
  selectPlan estimateMessage settings l before threshold = Some p ->
  let keep := Z.min (keepRecentTokens settings) (Z.max 1 threshold) in
  (keep <= tokensOf estimateMessage (keptMessages p))%Z
  /\ forall j, (tokensOf estimateMessage (drop j l) < keep)%Z -> (firstKeptIndex p < j)%nat.
Proof.
  intros Hpos Hw Hp keep. apply selectPlan_cut in Hp as ([Hb Hr Hk _ _ _ _] & _ & Hcut). fold keep in Hcut.
  rewrite <- Hb in Hw. destruct Hcut as [(i & Hi & Hge & _ & Hrange & _)|Hfirst].
  2: apply firstValid_paired in Hfirst; [lia|done].
  assert (Hmono : forall a b, (a <= b)%nat -> (tokensOf estimateMessage (drop b l) <= tokensOf estimateMessage (drop a l))%Z).
  { intros a b Hab. replace b with (a + (b - a))%nat by lia. rewrite <- drop_drop.
    rewrite <- (take_drop (b - a) (drop a l)) at 2. rewrite tokensOf_app.
    enough (0 <= tokensOf estimateMessage (take (b - a) (drop a l)))%Z by lia.
    generalize (take (b - a) (drop a l)). intros l'. unfold tokensOf.
    induction l' as [|m l' IH]; cbn [map foldr]; [lia|]. specialize (Hpos m). lia. }
  split.
  - rewrite Hk. specialize (Hmono (firstKeptIndex p) i). lia.
  - intros j Hj. destruct (decide (firstKeptIndex p < j)%nat) as [|Hle]; [done|]. specialize (Hmono j i). lia.
Qed.

(** ** After a replacement *)
Lemma latestSummary_none l n i : latestSummary_loop l n = None -> (i < n)%nat -> forall m, l !! i = Some m ->
  compactionSummaryText m = None.
Proof.
  induction n as [|n IH]; cbn [latestSummary_loop]; [lia|]. intros H Hi m Hm.
  destruct (decide (i = n)) as [->|]; [|apply IH; [|lia|done]].
  - rewrite Hm in H. cbn in H. by destruct (compactionSummaryText m).
  - by destruct (l !! n ≫= compactionSummaryText).
Qed.

Lemma latestSummary_some l n a t i : latestSummary_loop l n = Some (a, t) -> (a < i < n)%nat -> forall m, l !! i = Some m ->
  compactionSummaryText m = None.
Proof.
  induction n as [|n IH]; cbn [latestSummary_loop]; [lia|]. destruct (l !! n ≫= compactionSummaryText) as [x|] eqn:E.
  - intros [= -> _]. lia.
  - intros H Hi m Hm. destruct (decide (i = n)) as [->|]; [|apply IH; [done|lia|done]].
    rewrite Hm in E. exact E.
Qed.

(** No summary lies behind the boundary. *)
Lemma behind_boundary l i m : (boundaryStartOf l <= i)%nat -> l !! i = Some m -> compactionSummaryText m = None.
Proof.
  unfold boundaryStartOf, findLatestCompactionSummaryIndex. intros Hi Hm. pose proof (lookup_lt_Some _ _ _ Hm).
  destruct (latestSummary_loop l (length l)) as [[a t]|] eqn:E.
  - eapply latestSummary_some; [exact E| |exact Hm]. lia.
  - eapply latestSummary_none; [exact E| |exact Hm]. lia.
Qed.

(** Scanning down over messages without a summary. *)
Lemma latestSummary_head x l : compactionSummaryText x <> None -> Forall (fun m => compactionSummaryText m = None) l ->
  forall n, (n <= length l)%nat -> latestSummary_loop (x :: l) (S n) = (pair 0%nat) <$> compactionSummaryText x.
Proof.
  intros Hx Hl. induction n as [|n IH]; intros Hn.
  - cbn. by destruct (compactionSummaryText x).
  - assert (exists m, l !! n = Some m) as [m Hm] by (apply lookup_lt_is_Some; lia).
    cbn [latestSummary_loop]. rewrite Forall_lookup in Hl.
    assert (E : (x :: l) !! S n = Some m) by done. rewrite E. cbn [mbind option_bind]. rewrite (Hl n m Hm).
    change (latestSummary_loop (x :: l) (S n) = (pair 0%nat) <$> compactionSummaryText x). apply IH. lia.
Qed.

Definition noSummary (m : AgentMessage) : Prop := match m with msg_compactionSummary _ _ _ _ => False | _ => True end.

Lemma freshness_head s t b k l : Forall noSummary l -> forall n, (n <= length l)%nat ->
  freshness (msg_compactionSummary s b t k :: l) (S n) = freshnessOf 0 t k.
Proof.
  intros Hl. induction n as [|n IH]; intros Hn; [done|].
  assert (exists m, l !! n = Some m) as [m Hm] by (apply lookup_lt_is_Some; lia).
  rewrite Forall_lookup in Hl. specialize (Hl n m Hm). cbn [freshness].
  assert (E : (msg_compactionSummary s b t k :: l) !! S n = Some m) by done. rewrite E.
  destruct m; try done; apply IH; lia.
Qed.

(** A replacement is a fresh start.  The new transcript is shorter than the
    old one; the next compaction starts behind the new summary and is given its
    text; and no usage the provider reported for the old transcript is taken for
    the new one, so its size is estimated from its messages alone.  (At least
    two messages must be needed for a compaction, earlier summaries have a text,
    and the kept messages can be counted exactly by a number.) *)
Theorem replacement_is_a_fresh_start (estimateMessage : AgentMessage -> Z) (estimateContext : list AgentMessage -> Z)
    (settings : ContextManagerSettings) (i : CheckpointInput) (l : list AgentMessage) (md : ReplacementMetadata)
    (events : list Notification) :
  (2 <= minMessagesToCompact settings)%nat ->
  (forall b ts k, msg_compactionSummary None b ts k ∉ messages i) ->
  (Z.of_nat (length (messages i)) <= MAX_SAFE_INTEGER)%Z ->
  checkpointLocked estimateMessage estimateContext settings i = (Some (decision_replaceMessages l md), events) ->
  (length l < length (messages i))%nat
  /\ (exists summary, generateSummary (summarySource i) = inl summary /\ findLatestCompactionSummaryIndex l = Some (0%nat, summary))
  /\ getLastAssistantUsageInfo l = None.
Proof.
  intros Hmin Htext Hsafe H. apply checkpoint_plan in H as (p & summary & Hp & Hgen & -> & _).
  apply selectPlan_cut in Hp as ([Hb Hr Hk Hs Hlen (m & rest & Em & Hm) _] & _ & _).
  assert (Hnone : Forall (fun m => compactionSummaryText m = None) (keptMessages p)).
  { apply Forall_lookup. intros j x Hx. rewrite Hk, lookup_drop in Hx. eapply behind_boundary; [|exact Hx]. lia. }
  assert (Hno : Forall noSummary (keptMessages p)).
  { apply Forall_forall. intros x Hx. rewrite Forall_forall in Hnone. specialize (Hnone x Hx).
    destruct x as [| | | | | |s b t k]; try done. destruct s as [s|]; [done|]. eapply (Htext b t k).
    rewrite Hk in Hx. rewrite <- (take_drop (firstKeptIndex p) (messages i)). apply elem_of_app. by right. }
  assert (Hkl : length (keptMessages p) = (length (messages i) - firstKeptIndex p)%nat) by (by rewrite Hk, length_drop).
  apply (f_equal length) in Hs. rewrite length_app, length_drop in Hs.
  unfold replacementMessages, createCompactionSummary. split_and!.
  - cbn [length]. lia.
  - exists summary. split; [done|]. unfold findLatestCompactionSummaryIndex. cbn [length].
    by rewrite latestSummary_head.
  - unfold getLastAssistantUsageInfo. cbn [length]. rewrite freshness_head by done. unfold freshnessOf.
    destruct (Z.ltb_spec (Z.of_nat (length (keptMessages p))) 0); [lia|].
    destruct (Z.ltb_spec MAX_SAFE_INTEGER (Z.of_nat (length (keptMessages p)))); [lia|]. cbn [orb lastUsage].
    rewrite Nat2Z.id. by destruct (Nat.ltb_spec (length (keptMessages p)) (0 + 1 + length (keptMessages p))); [|lia].
Qed.

(** ** Budgets *)
(** What the two budget functions promise each other.  A request admitted
    under the input limit fits: its input, the output limit chosen for it and
    the safety margin stay within the window, and the output limit never exceeds
    the configured one.  Automatic compaction starts at or before the limit; and
    with a window that leaves 40,960 tokens beside a configured output of at
    most a quarter, it starts while a request still gets its full output. *)
Theorem budgets_fit_the_window (contextWindow configuredOutput estimated : Z) :
  (0 < contextWindow)%Z -> (0 < configuredOutput)%Z ->
  let '(limit, trigger) := resolveCompactionTokenBudget contextWindow (Some configuredOutput) in
  let output := resolveDynamicMaxTokens contextWindow configuredOutput estimated in
  (1 <= trigger <= limit)%Z /\ (output <= configuredOutput)%Z
  /\ ((1 < limit)%Z -> (estimated <= limit)%Z -> (estimated + output + 2048 <= contextWindow)%Z)
  /\ ((configuredOutput <= contextWindow / 4)%Z -> (40960 <= contextWindow - configuredOutput)%Z ->
      (estimated <= trigger)%Z -> output = configuredOutput).
Proof.
  intros Hw Hc. unfold resolveCompactionTokenBudget, resolveDynamicMaxTokens, positive, outputFloor. cbn -[Z.div Z.mul Z.min Z.max].
  rewrite (proj2 (Z.ltb_lt 0 contextWindow) Hw), (proj2 (Z.ltb_lt 0 configuredOutput) Hc). cbn [negb orb].
  set (limit := Z.max 1 _). set (t := ((contextWindow - _) * 95 / 100)%Z).
  assert (Hlimit : (1 < limit)%Z -> (limit <= contextWindow - Z.min configuredOutput 16384 - 2048)%Z) by (subst limit; lia).
  split_and!; [subst limit; lia..| |].
  - intros H1 H2. specialize (Hlimit H1). lia.
  - intros H1 H2 H3. assert (Ht : (t <= (contextWindow - configuredOutput) * 95 / 100)%Z).
    { subst t. rewrite Z.min_l by done. lia. }
    pose proof (Z.mul_div_le ((contextWindow - configuredOutput) * 95) 100). subst limit. lia.
Qed.

(** ** A sample transcript *)
Definition sampleEstimate (m : AgentMessage) : Z :=
  messageTokensSpec (fun t => count_is (Z.of_nat (length t))) (fun _ => false) m.
Definition sampleContext (l : list AgentMessage) : Z :=
  tokens (contextTokensSpec (fun t => count_is (Z.of_nat (length t))) (fun _ => false) l).

Definition sampleSettings : ContextManagerSettings := {|
  enabled := true; reserveTokens := 60; keepRecentTokens := 20; minMessagesToCompact := 2;
  contextWindowFallback := 100; safetyMarginTokens := 5; strategyVersion := js "v" |}.

Definition sampleUserMsg (t : string) : AgentMessage := msg_user (content_string (js t)) (Some 0%Z).
Definition sampleCall (id : string) : AgentMessage :=
  msg_assistant [block_toolCall (js id) (js "t") JNull] None (js "toolUse") (Some 0%Z).
Definition sampleResult (id : string) : AgentMessage :=
  msg_toolResult (js id) (content_string (js "0123456789")) (Some 0%Z).

Definition sampleMessages : list AgentMessage :=
  [sampleUserMsg "please do this"; sampleCall "a"; sampleResult "a"; sampleUserMsg "and that too"; sampleCall "b";
   sampleResult "b"; sampleResult "b"].

Definition sampleInput : CheckpointInput := {|
  model_id := None; model_contextWindow := Some 100%Z; model_maxTokens := Some 10%Z; messages := sampleMessages;
  counter := counter_local; beforeCompaction := before_absent; summarySource := summary_generator (inl (js "did this"));
  nowMs := 5; replacementId := js "r" |}.

(** The cut falls on the results of the last call and moves to the call. *)
Example sample_compacts :
  match checkpointLocked sampleEstimate sampleContext sampleSettings sampleInput with
  | (Some (decision_replaceMessages l md), _) =>
      tail l = drop 4 sampleMessages /\ md_firstKeptIndex md = 4%nat /\ wellPaired [] l = true
  | _ => False
  end.
Proof. by vm_compute. Qed.

Lemma compaction_keeps_tool_pairs_witness : exists l md events,
  checkpointLocked sampleEstimate sampleContext sampleSettings sampleInput = (Some (decision_replaceMessages l md), events)
  /\ wellPaired [] l = true.
Proof.
  eexists _, _, _. split; [vm_compute; reflexivity|].
  eapply (compaction_keeps_tool_pairs sampleEstimate sampleContext sampleSettings sampleInput); by vm_compute.
Defined.

Lemma recent_messages_are_kept_witness : exists p,
  selectPlan (fun _ => 14%Z) sampleSettings sampleMessages 100 40 = Some p
  /\ (20 <= tokensOf (fun _ => 14%Z) (keptMessages p))%Z.
Proof.
  eexists. split; [vm_compute; reflexivity|].
  refine (proj1 (recent_messages_are_kept (fun _ => 14%Z) sampleSettings sampleMessages 100 40 _ _ _ _));
    [lia|by vm_compute|by vm_compute].
Defined.

Lemma replacement_is_a_fresh_start_witness : exists l md events,
  checkpointLocked sampleEstimate sampleContext sampleSettings sampleInput = (Some (decision_replaceMessages l md), events)
  /\ getLastAssistantUsageInfo l = None.
Proof.
  eexists _, _, _. split; [vm_compute; reflexivity|].
  eapply (replacement_is_a_fresh_start sampleEstimate sampleContext sampleSettings sampleInput);
    [done| |by vm_compute|by vm_compute].
  intros b ts k H. apply list_elem_of_In in H. cbn in H. by repeat destruct H as [H|H].
Defined.

Lemma budgets_fit_the_window_witness :
  let '(limit, trigger) := resolveCompactionTokenBudget 200000 (Some 32000%Z) in
  (1 <= trigger <= limit)%Z /\ (resolveDynamicMaxTokens 200000 32000 150000 <= 32000)%Z.
Proof.
  pose proof (budgets_fit_the_window 200000 32000 150000 ltac:(lia) ltac:(lia)) as H.
  destruct (resolveCompactionTokenBudget 200000 (Some 32000%Z)). split; apply H.
Defined.

(** The hypothesis on tool results matters: with a second assistant message
    between a call and its result, the cut may part them. *)
Example interleaved_calls_can_be_parted :
  (fun p => (firstKeptIndex p, wellPaired [] (keptMessages p))) <$>
    selectPlan (fun _ => 10%Z) {|
      enabled := true; reserveTokens := 60; keepRecentTokens := 30; minMessagesToCompact := 2;
      contextWindowFallback := 100; safetyMarginTokens := 5; strategyVersion := js "v" |}
    [sampleUserMsg "u"; sampleUserMsg "u"; sampleCall "a";
     msg_assistant [block_text (js "thinking")] None (js "stop") None; sampleResult "a"; sampleUserMsg "v"] 100 40
  = Some (3%nat, false).
Proof. by vm_compute. Qed.
