(* ===== verification/CtxLock.v ===== *)
(** * Context manager: the lock of a session

    [InProcessContextManagerLock] of
    [packages/agent-modules/context-manager/src/manager.ts].  Each call of
    [withSessionLock] makes a promise [chained] that settles once the promise it
    found in the map has settled and its own action has ended.  A call is cut at
    its [await]s: it waits, runs its action, is done (the action returned or
    threw; [finally] runs either way).  Promises settle in steps of their own,
    in any order their dependencies allow. *)
From S2P Require Import Prelude.

Inductive Phase := waiting | running | done_.
#[export] Instance Phase_eq_dec : EqDecision Phase.
Proof. solve_decision. Defined.

(** A call, the call whose promise it found, and whether its own has settled. *)
Record LockCall := { session : jstr; previous : option nat; phase : Phase; settled : bool }.
Record Lock := { sessionLocks : jmap jstr nat; calls : list LockCall }.

Definition noLock : Lock := {| sessionLocks := []; calls := [] |}.

Definition set_phase (p : Phase) (c : LockCall) : LockCall :=
  {| session := session c; previous := previous c; phase := p; settled := settled c |}.
Definition set_settled (c : LockCall) : LockCall :=
  {| session := session c; previous := previous c; phase := phase c; settled := true |}.

Definition promiseSettled (l : Lock) (p : option nat) : bool :=
  match p with
  | None => true
  | Some i => match calls l !! i with Some c => settled c | None => false end
  end.

Inductive LockAction :=
  | Invoke (s : jstr)     (** [withSessionLock(s, action)] is called *)
  | Start (i : nat)       (** the call resumes after [await previous] *)
  | Finish (i : nat)      (** its action ends *)
  | Settle (i : nat).     (** its [chained] promise settles *)

Definition invoke (s : jstr) (l : Lock) : Lock :=
  let i := length (calls l) in
  {| sessionLocks := jset s i (sessionLocks l);
     calls := calls l ++ [{| session := s; previous := jget s (sessionLocks l); phase := waiting; settled := false |}] |}.

Definition finish (i : nat) (c : LockCall) (l : Lock) : Lock :=
  {| sessionLocks := if bool_decide (jget (session c) (sessionLocks l) = Some i)
                     then jdel (session c) (sessionLocks l) else sessionLocks l;
     calls := <[i := set_phase done_ c]> (calls l) |}.

(** A step, when it can happen. *)
Definition step (a : LockAction) (l : Lock) : option Lock :=
  match a with
  | Invoke s => Some (invoke s l)
  | Start i =>
    c ← calls l !! i;
    if bool_decide (phase c = waiting) && promiseSettled l (previous c)
    then Some {| sessionLocks := sessionLocks l; calls := <[i := set_phase running c]> (calls l) |} else None
  | Finish i =>
    c ← calls l !! i;
    if bool_decide (phase c = running) then Some (finish i c l) else None
  | Settle i =>
    c ← calls l !! i;
    if bool_decide (phase c = done_) && negb (settled c) && promiseSettled l (previous c)
    then Some {| sessionLocks := sessionLocks l; calls := <[i := set_settled c]> (calls l) |} else None
  end.

Inductive lockReachable : Lock -> Prop :=
  | lock_empty : lockReachable noLock
  | lock_step a l l' : lockReachable l -> step a l = Some l' -> lockReachable l'.

(** ** The invariant *)
Definition started (c : LockCall) : Prop := phase c <> waiting.
(** Every call of [s] before [i] is done. *)
Definition earlierDone (l : list LockCall) (s : jstr) (i : nat) : Prop :=
  forall j c, (j < i)%nat -> l !! j = Some c -> session c = s -> phase c = done_.

Record lockInv (m : jmap jstr nat) (l : list LockCall) : Prop := {
  li_fifo : forall i c, l !! i = Some c -> started c -> earlierDone l (session c) i;
  li_settled : forall i c, l !! i = Some c -> settled c = true -> phase c = done_;
  li_none : forall i c, l !! i = Some c -> previous c = None -> earlierDone l (session c) i;
  li_some : forall i c p, l !! i = Some c -> previous c = Some p ->
    (p < i)%nat /\ (exists cp, l !! p = Some cp /\ session cp = session c)
    /\ forall j cj, (j < i)%nat -> l !! j = Some cj -> session cj = session c -> (j <= p)%nat;
  li_tail : forall s t, jget s m = Some t ->
    (exists c, l !! t = Some c /\ session c = s /\ phase c <> done_)
    /\ forall j cj, l !! j = Some cj -> session cj = s -> (j <= t)%nat;
  li_free : forall s, jget s m = None -> earlierDone l s (length l);
}.

(** An update that keeps session and predecessor, and does not undo [done_]. *)
Lemma earlierDone_insert l i c c' s k : l !! i = Some c -> session c' = session c ->
  (phase c = done_ -> phase c' = done_) -> earlierDone l s k -> earlierDone (<[i := c']> l) s k.
Proof.
  intros Hi Hs Hp H j cj Hj Hlk Hsj. apply list_lookup_insert_Some in Hlk as [(-> & <- & _)|(Hne & Hlk)].
  - apply Hp, (H j c Hj Hi). congruence.
  - by eapply H.
Qed.

Lemma lockInv_update m l i c c' : lockInv m l -> l !! i = Some c ->
  session c' = session c -> previous c' = previous c -> (phase c = done_ <-> phase c' = done_) ->
  (started c' -> earlierDone l (session c) i) -> (settled c' = true -> phase c' = done_) ->
  lockInv m (<[i := c']> l).
Proof.
  intros [H1 H2 H3 H4 H5 H6] Hi Hs Hp Hd Hst Hse.
  assert (Hed : forall s k, earlierDone l s k -> earlierDone (<[i := c']> l) s k) by
    (intros s k; eapply earlierDone_insert; [exact Hi|done|tauto]).
  assert (Hback : forall j cj, <[i := c']> l !! j = Some cj ->
    exists c0, l !! j = Some c0 /\ session cj = session c0 /\ previous cj = previous c0 /\ (phase cj = done_ <-> phase c0 = done_)
      /\ (j = i /\ cj = c' \/ j <> i /\ cj = c0)).
  { intros j cj [(-> & <- & _)|(Hne & Hlk)]%list_lookup_insert_Some.
    - exists c. naive_solver.
    - exists cj. naive_solver. }
  assert (Hforw : forall j c0, l !! j = Some c0 -> exists cj, <[i := c']> l !! j = Some cj /\ session cj = session c0
    /\ (phase cj = done_ <-> phase c0 = done_)).
  { intros j c0 Hj. destruct (decide (j = i)) as [->|Hne].
    - exists c'. rewrite list_lookup_insert_eq by (by eapply lookup_lt_Some). rewrite Hi in Hj. injection Hj as <-.
      naive_solver.
    - exists c0. rewrite list_lookup_insert_ne by done. naive_solver. }
  split.
  - intros j cj Hj Hstart. destruct (Hback j cj Hj) as (c0 & Hj0 & -> & _ & _ & [[-> ->]|[Hne ->]]); apply Hed; [|by eapply H1].
    rewrite Hi in Hj0. injection Hj0 as <-. by apply Hst.
  - intros j cj Hj Hset. destruct (Hback j cj Hj) as (c0 & Hj0 & _ & _ & _ & [[-> ->]|[Hne ->]]); [by apply Hse|by eapply H2].
  - intros j cj Hj Hprev. destruct (Hback j cj Hj) as (c0 & Hj0 & -> & Hpe & _ & _). apply Hed. eapply H3; [exact Hj0|congruence].
  - intros j cj p Hj Hprev. destruct (Hback j cj Hj) as (c0 & Hj0 & -> & Hpe & _ & _).
    destruct (H4 j c0 p Hj0 ltac:(congruence)) as (Hlt & (cp & Hcp & Hsp) & Hmax). split_and!; [done| |].
    + destruct (Hforw p cp Hcp) as (cp' & ? & ? & _). exists cp'. split; congruence.
    + intros k ck Hk Hck Hsk. destruct (Hback k ck Hck) as (ck0 & Hck0 & Hse' & _). eapply Hmax; [done|exact Hck0|congruence].
  - intros s t Ht. destruct (H5 s t Ht) as ((ct & Hct & Hsc & Hnd) & Hmax). split.
    + destruct (Hforw t ct Hct) as (ct' & ? & ? & ?). exists ct'. naive_solver congruence.
    + intros j cj Hj Hsj. destruct (Hback j cj Hj) as (c0 & Hj0 & Hse' & _). eapply Hmax; [exact Hj0|congruence].
  - intros s Hs0. rewrite length_insert. by apply Hed, H6.
Qed.

Lemma lookup_app_one {A} (l : list A) x i y : (l ++ [x]) !! i = Some y ->
  l !! i = Some y \/ (i = length l /\ y = x).
Proof.
  intros [H|[H1 H2]]%lookup_app_Some; [by left|right].
  assert (i - length l = 0)%nat as E by (apply lookup_lt_Some in H2; cbn in H2; lia).
  rewrite E in H2. injection H2 as <-. split; [lia|done].
Qed.

Lemma earlierDone_app l s i x : (i <= length l)%nat -> earlierDone l s i -> earlierDone (l ++ [x]) s i.
Proof. intros Hi H j c Hj [Hc|[-> ->]]%lookup_app_one Hs; [by eapply H|lia]. Qed.

Lemma inv_invoke s m l : lockInv m l -> lockInv (jset s (length l) m) (calls (invoke s {| sessionLocks := m; calls := l |})).
Proof.
  intros [H1 H2 H3 H4 H5 H6]. cbn [invoke calls sessionLocks]. set (new := {| session := s |}).
  assert (Hle : forall i c, l !! i = Some c -> (i < length l)%nat) by (intros i c; apply lookup_lt_Some).
  split.
  - intros i c [Hc|[-> ->]]%lookup_app_one Hst; [|by destruct Hst].
    apply earlierDone_app; [|by eapply H1]. apply Hle in Hc. lia.
  - intros i c [Hc|[-> ->]]%lookup_app_one Hse; [by eapply H2|done].
  - intros i c [Hc|[-> ->]]%lookup_app_one Hp.
    + apply earlierDone_app; [|by eapply H3]. apply Hle in Hc. lia.
    + apply earlierDone_app; [lia|]. by apply H6.
  - intros i c p [Hc|[-> ->]]%lookup_app_one Hp.
    + destruct (H4 i c p Hc Hp) as (Hlt & (cp & Hcp & Hsp) & Hmax). split_and!; [done| |].
      * exists cp. split; [|done]. by apply lookup_app_l_Some.
      * intros j cj Hj [Hcj|[-> ->]]%lookup_app_one Hsj; [by eapply Hmax|]. apply Hle in Hc. lia.
    + cbn in Hp. destruct (H5 s p Hp) as ((cp & Hcp & Hsp & _) & Hmax). split_and!.
      * by eapply Hle.
      * exists cp. split; [|done]. by apply lookup_app_l_Some.
      * intros j cj Hj [Hcj|[-> ->]]%lookup_app_one Hsj; [by eapply Hmax|lia].
  - intros s' t. rewrite jget_jset. destruct (decide (s' = s)) as [->|Hne].
    + intros [= <-]. split.
      * exists new. rewrite lookup_app_r, Nat.sub_diag by lia. by split_and!.
      * intros j cj [Hcj|[-> ->]]%lookup_app_one _; [apply Hle in Hcj; lia|lia].
    + intros Ht. destruct (H5 s' t Ht) as ((ct & Hct & Hs & Hnd) & Hmax). split.
      * exists ct. split_and!; [by apply lookup_app_l_Some|done..].
      * intros j cj [Hcj|[-> ->]]%lookup_app_one Hsj; [by eapply Hmax|]. subst new; cbn in Hsj; congruence.
  - intros s' Hs'. rewrite jget_jset in Hs'. destruct (decide (s' = s)); [done|].
    intros j cj Hj [Hcj|[-> ->]]%lookup_app_one Hsj; [|subst new; cbn in Hsj; congruence].
    eapply (H6 s' Hs'); [|exact Hcj|done]. by eapply Hle.
Qed.

Lemma promise_done l i c p : lockInv (sessionLocks l) (calls l) -> calls l !! i = Some c -> previous c = p ->
  promiseSettled l p = true -> earlierDone (calls l) (session c) i.
Proof.
  intros [H1 H2 H3 H4 H5 H6] Hi Hp Hs. destruct p as [p|]; [|by eapply H3].
  destruct (H4 i c p Hi Hp) as (Hlt & (cp & Hcp & Hsp) & Hmax). cbn in Hs. rewrite Hcp in Hs.
  pose proof (H2 _ _ Hcp Hs) as Hd.
  assert (Hst : started cp) by (unfold started; congruence). pose proof (H1 _ _ Hcp Hst) as He.
  intros j cj Hj Hcj Hsj. destruct (decide (j = p)) as [->|Hne]; [congruence|].
  eapply He; [|exact Hcj|congruence]. specialize (Hmax j cj Hj Hcj Hsj). lia.
Qed.

Lemma inv_finish i c l : lockInv (sessionLocks l) (calls l) -> calls l !! i = Some c -> phase c = running ->
  lockInv (sessionLocks (finish i c l)) (calls (finish i c l)).
Proof.
  intros Hinv Hi Hr. pose proof Hinv as [H1 H2 H3 H4 H5 H6].
  assert (Hst : started c) by (unfold started; congruence). pose proof (H1 _ _ Hi Hst) as He.
  assert (Hed : forall s k, earlierDone (calls l) s k -> earlierDone (<[i := set_phase done_ c]> (calls l)) s k)
    by (intros s k; eapply earlierDone_insert; [exact Hi|done|done]).
  assert (Hcase : forall j cj, <[i := set_phase done_ c]> (calls l) !! j = Some cj ->
    (j = i /\ cj = set_phase done_ c) \/ (j <> i /\ calls l !! j = Some cj)) by
    (intros j cj [(-> & <- & _)|(? & ?)]%list_lookup_insert_Some; [by left|right; naive_solver]).
  assert (Hget : forall s t, jget s (if bool_decide (jget (session c) (sessionLocks l) = Some i)
      then jdel (session c) (sessionLocks l) else sessionLocks l) = Some t ->
      jget s (sessionLocks l) = Some t /\ t <> i).
  { intros s t. case_bool_decide as Hb.
    - rewrite jget_jdel. destruct (decide (s = session c)) as [->|Hne]; [done|]. intros Ht. split; [done|].
      intros ->. destruct (H5 s i Ht) as ((ci & Hci & Hsi & _) & _). congruence.
    - intros Ht. split; [done|]. intros ->. destruct (H5 s i Ht) as ((ci & Hci & Hsi & _) & _). congruence. }
  unfold finish. cbn [sessionLocks calls]. split.
  - intros j cj [[-> ->]|[Hne Hj]]%Hcase Hs; apply Hed; [done|by eapply H1].
  - intros j cj [[-> ->]|[Hne Hj]]%Hcase Hs; [done|by eapply H2].
  - intros j cj [[-> ->]|[Hne Hj]]%Hcase Hp; apply Hed; [exact (H3 i c Hi Hp)|by eapply H3].
  - intros j cj p Hj Hp.
    assert (exists c0, calls l !! j = Some c0 /\ session cj = session c0 /\ previous c0 = Some p) as (c0 & Hc0 & Hs0 & Hp0)
      by (destruct (Hcase _ _ Hj) as [[-> ->]|[? ?]]; eexists; split_and!; done).
    destruct (H4 j c0 p Hc0 Hp0) as (Hlt & (cp & Hcp & Hsp) & Hmax). split_and!; [done| |].
    + destruct (decide (p = i)) as [->|Hne].
      * exists (set_phase done_ c). rewrite list_lookup_insert_eq by (by eapply lookup_lt_Some). split; [done|]. cbn. congruence.
      * exists cp. rewrite list_lookup_insert_ne by done. split; [done|congruence].
    + intros k ck Hk Hck Hsk. destruct (Hcase _ _ Hck) as [[-> ->]|[? Hck']]; eapply Hmax; try done; cbn in Hsk; congruence.
  - intros s t [Ht Hne]%Hget. destruct (H5 s t Ht) as ((ct & Hct & Hsc & Hnd) & Hmax). split.
    + exists ct. rewrite list_lookup_insert_ne by done. done.
    + intros j cj [[-> ->]|[? Hj]]%Hcase Hsj; [by eapply (Hmax i c)|by eapply Hmax].
  - intros s Hs. rewrite length_insert. case_bool_decide as Hb.
    + rewrite jget_jdel in Hs. destruct (decide (s = session c)) as [->|Hne]; [|by apply Hed, H6].
      intros j cj Hj [[-> ->]|[Hne Hcj]]%Hcase Hsj; [done|].
      destruct (H5 _ _ Hb) as (_ & Hmax). eapply He; [|exact Hcj|done]. specialize (Hmax j cj Hcj Hsj). lia.
    + by apply Hed, H6.
Qed.

Lemma reachable_inv l : lockReachable l -> lockInv (sessionLocks l) (calls l).
Proof.
  induction 1 as [|a l l' _ Hinv E].
  - by split.
  - destruct a as [s|i|i|i]; cbn [step] in E.
    + injection E as <-. destruct l as [m cs]. cbn [invoke sessionLocks calls] in *. by apply (inv_invoke s m cs).
    + destruct (calls l !! i) as [c|] eqn:Hi; [|done]. cbn in E. destruct (_ && _) eqn:Ec; [|done]. injection E as <-.
      apply andb_true_iff in Ec as [Hw%bool_decide_eq_true Hp]. cbn.
      eapply lockInv_update; [done|exact Hi|done|done| | |]; cbn.
      * rewrite Hw. done.
      * intros _. by eapply promise_done.
      * intros Hs. pose proof (li_settled _ _ Hinv _ _ Hi Hs). congruence.
    + destruct (calls l !! i) as [c|] eqn:Hi; [|done]. cbn in E. case_bool_decide; [|done]. injection E as <-.
      by apply inv_finish.
    + destruct (calls l !! i) as [c|] eqn:Hi; [|done]. cbn in E. destruct (_ && _) eqn:Ec; [|done]. injection E as <-.
      apply andb_true_iff in Ec as [[Hd%bool_decide_eq_true _]%andb_true_iff _]. cbn.
      eapply lockInv_update; [done|exact Hi|done|done|done| |done]. cbn. intros _.
      apply (li_fifo _ _ Hinv _ _ Hi). unfold started. congruence.
Qed.

(** C34: In every state that calls, resumptions, ends of actions and settled
    promises can reach, in any order, the actions of a session run one at a
    time and in the order of the calls (an action has started only when every
    earlier one is over), and the map holds an entry for a session exactly while
    a call of it is not over. *)
Theorem session_actions_are_serial (l : Lock) :
  lockReachable l ->
  (forall i j c d, calls l !! i = Some c -> calls l !! j = Some d -> session c = session d ->
     (i < j)%nat -> phase d <> waiting -> phase c = done_)
  /\ (forall s, jhas s (sessionLocks l) = true <-> exists i c, calls l !! i = Some c /\ session c = s /\ phase c <> done_).
Proof.
  intros Hr. apply reachable_inv in Hr as [H1 H2 H3 H4 H5 H6]. split.
  - intros i j c d Hc Hd Hs Hlt Hst. by eapply (H1 j d).
  - intros s. unfold jhas. destruct (jget s (sessionLocks l)) as [t|] eqn:E; split; try done.
    + intros _. destruct (H5 s t E) as ((ct & ? & ? & ?) & _). by exists t, ct.
    + intros (i & c & Hi & Hs & Hnd). destruct Hnd. eapply (H6 s E); [|exact Hi|done]. by eapply lookup_lt_Some.
Qed.

(** ** No call waits for ever *)
Lemma first_such (P : nat -> Prop) `{!forall i, Decision (P i)} n : P n ->
  exists i, (i <= n)%nat /\ P i /\ forall j, (j < i)%nat -> ~ P j.
Proof.
  induction n as [n IH] using lt_wf_ind. intros Hn.
  destruct (decide (Exists P (seq 0 n))) as [He|He].
  - apply Exists_exists in He as (k & Hk%elem_of_seq & Pk). destruct (IH k ltac:(lia) Pk) as (i & Hi & Pi & Hmin).
    exists i. split_and!; [lia|done..].
  - exists n. split_and!; [lia|done|]. intros j Hj Pj. apply He, Exists_exists. exists j. split; [|done].
    apply elem_of_seq. lia.
Qed.

(** A waiting call is never stuck: while a call of a session is not over,
    an action of that session is running, or one of its promises can settle, or
    its next action can start. *)
Theorem waiting_calls_make_progress (l : Lock) (i : nat) (c : LockCall) :
  lockReachable l -> calls l !! i = Some c -> phase c <> done_ ->
  exists j d, calls l !! j = Some d /\ session d = session c /\ (j <= i)%nat
    /\ (phase d = running \/ step (Start j) l <> None \/ step (Settle j) l <> None).
Proof.
  intros Hr Hi Hnd. apply reachable_inv in Hr as [H1 H2 H3 H4 H5 H6].
  set (P := fun k => exists d, calls l !! k = Some d /\ session d = session c /\ settled d = false).
  assert (Hdec : forall k, Decision (P k)).
  { intros k. unfold P. destruct (calls l !! k) as [d|] eqn:Ek; [|right; naive_solver].
    destruct (decide (session d = session c /\ settled d = false)); [left; by exists d|right; naive_solver]. }
  assert (Pi : P i).
  { exists c. split_and!; [done|done|]. destruct (settled c) eqn:Es; [|done]. by pose proof (H2 _ _ Hi Es). }
  destruct (first_such P i Pi) as (k & Hk & (d & Hd & Hs & Hse) & Hmin).
  assert (Hprev : promiseSettled l (previous d) = true).
  { destruct (previous d) as [p|] eqn:Ep; [|done]. destruct (H4 k d p Hd Ep) as (Hlt & (cp & Hcp & Hsp) & _).
    cbn. rewrite Hcp. destruct (settled cp) eqn:E; [done|]. exfalso. apply (Hmin p Hlt). exists cp. split_and!; congruence. }
  exists k, d. split_and!; [done..|]. cbn [step]. rewrite Hd. cbn. rewrite Hprev.
  destruct (phase d) eqn:Eph; [right; left|by left|right; right].
  - by rewrite bool_decide_eq_true_2.
  - rewrite Hse. by rewrite bool_decide_eq_true_2.
Qed.

(** ** A sample: two calls of one session, one of another *)
Fixpoint lockSteps (acts : list LockAction) (l : Lock) : option Lock :=
  match acts with [] => Some l | a :: rest => l' ← step a l; lockSteps rest l' end.

Lemma lockSteps_reachable acts : forall l l', lockReachable l -> lockSteps acts l = Some l' -> lockReachable l'.
Proof.
  induction acts as [|a acts IH]; intros l l' Hr; cbn [lockSteps]; [by intros [= <-]|].
  destruct (step a l) as [l1|] eqn:E; [|done]. intros Hs. eapply IH; [|exact Hs]. by eapply lock_step.
Qed.

Definition sampleLock : Lock :=
  default noLock (lockSteps [Invoke (js "s"); Invoke (js "s"); Invoke (js "t"); Start 0; Start 2; Finish 0; Settle 0; Start 1] noLock).

Lemma sampleLock_reachable : lockReachable sampleLock.
Proof.
  apply (lockSteps_reachable [Invoke (js "s"); Invoke (js "s"); Invoke (js "t"); Start 0; Start 2; Finish 0; Settle 0; Start 1]
    noLock); [constructor|by vm_compute].
Qed.

Lemma session_actions_are_serial_witness : map phase (calls sampleLock) = [done_; running; running]
  /\ (jhas (js "s") (sessionLocks sampleLock) = true <->
      exists i c, calls sampleLock !! i = Some c /\ session c = js "s" /\ phase c <> done_).
Proof. split; [by vm_compute|]. apply session_actions_are_serial, sampleLock_reachable. Defined.

Lemma waiting_calls_make_progress_witness : exists j d, calls sampleLock !! j = Some d /\ session d = js "s" /\ (j <= 1)%nat
  /\ (phase d = running \/ step (Start j) sampleLock <> None \/ step (Settle j) sampleLock <> None).
Proof.
  apply (waiting_calls_make_progress sampleLock 1 {| session := js "s"; previous := Some 0%nat; phase := running; settled := false |});
    [apply sampleLock_reachable|by vm_compute|done].
Defined.

(** The second call of a session may not start before the first is over. *)
Example second_waits : lockSteps [Invoke (js "s"); Invoke (js "s"); Start 0; Start 1] noLock = None.
Proof. by vm_compute. Qed.
