(* ===== verification/GoalModel.v ===== *)
(** * Thread goals: data, rows and bindings

    [packages/agent-modules/goal/src/types.ts] and [store-port.ts], and of
    [packages/local-runtime/src/thread-goal]: [store-row.ts] (a row of the
    table, what it reads as), [binding-stale.ts] and [store-worker-proposal.ts].

    An INTEGER column holds an integer; a number a caller passes is a [jsnum],
    which may be fractional, infinite or NaN.  Counters grow without the loss of
    precision a double has above 2^53.  A column of JSON text is the value
    [JSON.parse] gives, or a text it rejects; counters inside such a value are
    read when they are below 10^21.  The SHA-256 digest of the platform is a
    parameter. *)
From S2P Require Import Prelude JsValue.
From S2P Require CtxTokens RgFingerprint.
From Stdlib Require Import QArith Qround.
#[local] Open Scope Z_scope.

(** ** Numbers of the language *)
Inductive jsnum := Fin (q : Q) | Inf (negative : bool) | NaN.

Definition numZ (z : Z) : jsnum := Fin (inject_Z z).

(** [a <= b] for a number and an integer. *)
Definition num_le (a : jsnum) (b : Z) : bool :=
  match a with Fin q => Qle_bool q (inject_Z b) | Inf n => n | NaN => false end.
(** [b >= a] and [a > b]. *)
Definition num_gt (a : jsnum) (b : Z) : bool :=
  match a with Fin q => negb (Qle_bool q (inject_Z b)) | Inf n => negb n | NaN => false end.
Definition num_positive (a : jsnum) : bool := num_gt a 0.
Definition num_finite (a : jsnum) : bool := match a with Fin _ => true | _ => false end.

(** ** [types.ts] *)
Inductive ThreadGoalStatus :=
  | active | paused | blocked | complete | budget_limited | usage_limited.
Definition THREAD_GOAL_STATUSES : list ThreadGoalStatus :=
  [active; paused; blocked; complete; budget_limited; usage_limited].

Inductive ThreadGoalBudgetDimension := dim_token | dim_main_turn | dim_active_time.

Inductive ThreadGoalStatusReason :=
  | complete_worker_proposal | complete_verifier_met | complete_user_requested
  | paused_user_requested | paused_retracted | paused_infra_retryable
  | paused_accounting_unavailable | paused_verifier_unavailable | paused_route_unavailable
  | paused_verifier_timeout | paused_verifier_protocol | paused_verifier_runtime
  | paused_verifier_budget | paused_verifier_capability | paused_verifier_aborted
  | paused_no_progress | paused_no_progress_after_completion_claim
  | blocked_worker_reported | blocked_safety_policy | blocked_verifier_impossible
  | budget_limited_by (d : ThreadGoalBudgetDimension)
  | usage_limited_provider_quota | usage_limited_rate_limit.
Definition THREAD_GOAL_STATUS_REASONS : list ThreadGoalStatusReason :=
  [complete_worker_proposal; complete_verifier_met; complete_user_requested;
   paused_user_requested; paused_retracted; paused_infra_retryable;
   paused_accounting_unavailable; paused_verifier_unavailable; paused_route_unavailable;
   paused_verifier_timeout; paused_verifier_protocol; paused_verifier_runtime;
   paused_verifier_budget; paused_verifier_capability; paused_verifier_aborted;
   paused_no_progress; paused_no_progress_after_completion_claim;
   blocked_worker_reported; blocked_safety_policy; blocked_verifier_impossible;
   budget_limited_by dim_token; budget_limited_by dim_main_turn; budget_limited_by dim_active_time;
   usage_limited_provider_quota; usage_limited_rate_limit].

Inductive ThreadGoalWaitReason :=
  | questionnaire | permission | plan | required_background | automation_owner_conflict
  | dependency_unavailable | verification | unknown.
Definition THREAD_GOAL_WAIT_REASONS : list ThreadGoalWaitReason :=
  [questionnaire; permission; plan; required_background; automation_owner_conflict;
   dependency_unavailable; verification; unknown].

Inductive ThreadGoalKickoffState := pending | enqueued | consumed.
Inductive VerifierBackend := evaluator | subagent.
Inductive Verdict := met | not_met | impossible | inconclusive.

(** [v] is the constant 1. *)
Record LastVerificationV1 := {
  backend : VerifierBackend; verdict : Verdict; lv_reason : jstr; missing : list jstr;
  missingFingerprint : option jstr; notMetStreak : Z; lv_turnId : jstr;
  lv_objectiveDigest : jstr; lv_at : Z;
}.

Inductive WorkerProposalType := proposal_complete | proposal_blocked.
(** [v] is 1 and [source] is ['worker']. *)
Record LastWorkerProposalV1 := {
  wp_type : WorkerProposalType; wp_turnId : jstr; wp_summary : option jstr; wp_at : Z;
}.

(** The own properties of an attachment object. *)
Abbreviation ThreadGoalAttachment := (jmap jstr json) (only parsing).

Record ThreadGoalExecutionWait := { wait_reason : ThreadGoalWaitReason; sinceMs : Z }.

Record ThreadGoalState := {
  goalId : jstr; sessionId : jstr; objective : jstr;
  objectiveResources : list ThreadGoalAttachment;
  status : ThreadGoalStatus;
  createdAt : Z; updatedAt : Z;
  tokensUsed : Z; turnsUsed : Z; timeUsedSeconds : Z;
  tokenBudget : option Z;
  replyFingerprint : option jstr; noProgressStreak : Z; noToolStreak : Z;
  lastVerification : option LastVerificationV1;
  lastWorkerProposal : option LastWorkerProposalV1;
  statusReason : option ThreadGoalStatusReason;
  kickoffAttachments : list ThreadGoalAttachment;
  kickoffState : ThreadGoalKickoffState;
  executionWait : option ThreadGoalExecutionWait;
}.

Record GoalTurnBinding := {
  bd_goalId : jstr; admittedGoalUpdatedAt : Z; bd_objectiveDigest : jstr; bd_turnId : jstr;
}.

#[export] Instance status_eq_dec : EqDecision ThreadGoalStatus.
Proof. solve_decision. Defined.
#[export] Instance dimension_eq_dec : EqDecision ThreadGoalBudgetDimension.
Proof. solve_decision. Defined.
#[export] Instance reason_eq_dec : EqDecision ThreadGoalStatusReason.
Proof. solve_decision. Defined.
#[export] Instance wait_reason_eq_dec : EqDecision ThreadGoalWaitReason.
Proof. solve_decision. Defined.
#[export] Instance kickoff_eq_dec : EqDecision ThreadGoalKickoffState.
Proof. solve_decision. Defined.
#[export] Instance verdict_eq_dec : EqDecision Verdict.
Proof. solve_decision. Defined.

Definition validateThreadGoalObjective (value : jstr) (maxChars : option nat) : option jstr :=
  if (length value =? 0)%nat then Some (js "goal objective must not be empty")
  else match maxChars with
       | Some m =>
           if (m <? length value)%nat
           then Some (js "goal objective must not exceed " ++ RgFingerprint.dec_Z (Z.of_nat m)
                      ++ js " characters")
           else None
       | None => None
       end.

Definition CONTINUATION_STATUSES : list ThreadGoalStatus := [active].
Definition isContinuationStatus (s : ThreadGoalStatus) : bool :=
  existsb (fun x => bool_decide (x = s)) CONTINUATION_STATUSES.
Definition TERMINAL_STATUSES : list ThreadGoalStatus :=
  [complete; blocked; budget_limited; usage_limited].
Definition isTerminalStatus (s : ThreadGoalStatus) : bool :=
  existsb (fun x => bool_decide (x = s)) TERMINAL_STATUSES.

(** The text each constructor stands for. *)
Definition statusText (s : ThreadGoalStatus) : jstr :=
  js match s with
     | active => "active" | paused => "paused" | blocked => "blocked" | complete => "complete"
     | budget_limited => "budget_limited" | usage_limited => "usage_limited"
     end.
Definition dimensionText (d : ThreadGoalBudgetDimension) : string :=
  match d with dim_token => "token" | dim_main_turn => "main_turn" | dim_active_time => "active_time" end.
Definition reasonText (r : ThreadGoalStatusReason) : jstr :=
  js match r with
     | complete_worker_proposal => "complete(worker_proposal)"
     | complete_verifier_met => "complete(verifier_met)"
     | complete_user_requested => "complete(user_requested)"
     | paused_user_requested => "paused(user_requested)"
     | paused_retracted => "paused(retracted)"
     | paused_infra_retryable => "paused(infra_retryable)"
     | paused_accounting_unavailable => "paused(accounting_unavailable)"
     | paused_verifier_unavailable => "paused(verifier_unavailable)"
     | paused_route_unavailable => "paused(route_unavailable)"
     | paused_verifier_timeout => "paused(verifier_timeout)"
     | paused_verifier_protocol => "paused(verifier_protocol)"
     | paused_verifier_runtime => "paused(verifier_runtime)"
     | paused_verifier_budget => "paused(verifier_budget)"
     | paused_verifier_capability => "paused(verifier_capability)"
     | paused_verifier_aborted => "paused(verifier_aborted)"
     | paused_no_progress => "paused(no_progress)"
     | paused_no_progress_after_completion_claim => "paused(no_progress_after_completion_claim)"
     | blocked_worker_reported => "blocked(worker_reported)"
     | blocked_safety_policy => "blocked(safety_policy)"
     | blocked_verifier_impossible => "blocked(verifier_impossible)"
     | budget_limited_by d => String.append "budget_limited(" (String.append (dimensionText d) ")")
     | usage_limited_provider_quota => "usage_limited(provider_quota)"
     | usage_limited_rate_limit => "usage_limited(rate_limit)"
     end.
Definition waitText (r : ThreadGoalWaitReason) : jstr :=
  js match r with
     | questionnaire => "questionnaire" | permission => "permission" | plan => "plan"
     | required_background => "required_background"
     | automation_owner_conflict => "automation_owner_conflict"
     | dependency_unavailable => "dependency_unavailable"
     | verification => "verification" | unknown => "unknown"
     end.
Definition kickoffText (k : ThreadGoalKickoffState) : jstr :=
  js match k with pending => "pending" | enqueued => "enqueued" | consumed => "consumed" end.

(** The member of a closed catalog a text names. *)
Definition named {A} (text : A -> jstr) (catalog : list A) (s : jstr) : option A :=
  find (fun a => str_eqb (text a) s) catalog.

(** ** [store-row.ts] *)

(** A column of JSON text: a text [JSON.parse] throws on, or the value it gives. *)
Inductive JsonText := jsonInvalid | jsonOf (v : json).

(** A column of a closed catalog holds any text; [created_at_ms] and the other
    NOT NULL columns are present. *)
Record ThreadGoalDbRow := {
  goal_id : jstr; session_id : jstr; row_objective : jstr; row_status : jstr;
  created_at_ms : Z; updated_at_ms : Z;
  tokens_used : Z; time_used_seconds : Z; token_budget : option Z;
  kickoff_attachments_json : JsonText; objective_resources_json : JsonText;
  kickoff_state : jstr; turns_used : Z; reply_fingerprint : option jstr;
  no_progress_streak : Z; no_tool_streak : Z;
  last_verification : option JsonText; last_worker_proposal : option JsonText;
  status_reason : option jstr;
  execution_wait_reason : option jstr; execution_wait_since_ms : option Z;
  execution_wait_epoch : option Z;
}.

Definition numericOrZero (value : jsnum) : Z :=
  match value with Fin q => if Qle_bool 0 q then Qfloor q else 0 | _ => 0 end.

(** Not a number, not finite, zero or less is no cap. *)
Definition positiveOrNull (value : option jsnum) : option Z :=
  match value with
  | Some (Fin q) => if num_positive (Fin q) then Some (Qfloor q) else None
  | _ => None
  end.

Definition readStatus (value : jstr) : ThreadGoalStatus :=
  default paused (named statusText THREAD_GOAL_STATUSES value).
Definition isKnownThreadGoalStatus (value : option jstr) : bool :=
  match value with
  | Some v => match named statusText THREAD_GOAL_STATUSES v with Some _ => true | None => false end
  | None => false
  end.
Definition readStatusReason (value : option jstr) : option ThreadGoalStatusReason :=
  v ← value; named reasonText THREAD_GOAL_STATUS_REASONS v.

Definition MAX_SAFE_INTEGER : Z := 9007199254740991.
Definition readExecutionWait (reason : option jstr) (since : option Z) : option ThreadGoalExecutionWait :=
  r ← reason;
  w ← named waitText THREAD_GOAL_WAIT_REASONS r;
  match since with
  | Some ms => if (MAX_SAFE_INTEGER <? Z.abs ms) || (ms <? 0) then None
               else Some {| wait_reason := w; sinceMs := ms |}
  | None => None
  end.

(** A property read as a string, as an optional string (absent or a string), as
    a natural integer. *)
Definition stringProp (key : string) (item : jmap jstr json) : option jstr := as_string (jget (js key) item).
Definition optionalString (key : string) (item : jmap jstr json) : bool :=
  match jget (js key) item with None | Some JUndefined | Some (JStr _) => true | _ => false end.
Definition naturalProp (key : string) (item : jmap jstr json) : option Z :=
  match jget (js key) item with
  | Some (JNum (NumInt z)) => if (0 <=? z) then Some z else None
  | _ => None
  end.
Definition isOne (v : option json) : bool :=
  match v with Some (JNum (NumInt z)) => (z =? 1) | _ => false end.
(** [parsed.x ? { x: parsed.x } : {}] *)
Definition truthyProp (key : string) (item : jmap jstr json) : option jstr :=
  s ← stringProp key item; if truthy s then Some s else None.

Definition backendText (b : VerifierBackend) : jstr :=
  js match b with evaluator => "evaluator" | subagent => "subagent" end.
Definition verdictText (v : Verdict) : jstr :=
  js match v with met => "met" | not_met => "not_met" | impossible => "impossible" | inconclusive => "inconclusive" end.
Definition proposalText (t : WorkerProposalType) : jstr :=
  js match t with proposal_complete => "complete" | proposal_blocked => "blocked" end.

Definition objectOf (t : option JsonText) : option (jmap jstr json) :=
  match t with Some (jsonOf (JObj fields)) => Some fields | _ => None end.
Definition strings (v : option json) : option (list jstr) :=
  match v with Some (JArr items) => mapM (fun x => as_string (Some x)) items | _ => None end.

Definition readLastVerification (value : option JsonText) : option LastVerificationV1 :=
  item ← objectOf value;
  if negb (isOne (jget (js "v") item)) then None else
  b ← (s ← stringProp "backend" item; named backendText [evaluator; subagent] s);
  v ← (s ← stringProp "verdict" item; named verdictText [met; not_met; impossible; inconclusive] s);
  r ← stringProp "reason" item;
  m ← strings (jget (js "missing") item);
  if negb (optionalString "missingFingerprint" item) then None else
  n ← naturalProp "notMetStreak" item;
  t ← stringProp "turnId" item;
  d ← stringProp "objectiveDigest" item;
  a ← naturalProp "at" item;
  Some {| backend := b; verdict := v; lv_reason := r; missing := m;
          missingFingerprint := truthyProp "missingFingerprint" item;
          notMetStreak := n; lv_turnId := t; lv_objectiveDigest := d; lv_at := a |}.

(** [store-worker-proposal.ts] *)
Definition THREAD_GOAL_WORKER_PROPOSAL_SUMMARY_MAX_CHARS : nat := 2000.

Definition readLastWorkerProposal (value : option JsonText) : option LastWorkerProposalV1 :=
  item ← objectOf value;
  if negb (isOne (jget (js "v") item)) then None else
  s ← stringProp "source" item;
  if negb (str_eqb s (js "worker")) then None else
  ty ← (x ← stringProp "type" item; named proposalText [proposal_complete; proposal_blocked] x);
  t ← stringProp "turnId" item;
  if negb (optionalString "summary" item) then None else
  if match stringProp "summary" item with
     | Some x => (THREAD_GOAL_WORKER_PROPOSAL_SUMMARY_MAX_CHARS <? length x)%nat
     | None => false
     end then None else
  a ← naturalProp "at" item;
  Some {| wp_type := ty; wp_turnId := t; wp_summary := truthyProp "summary" item; wp_at := a |}.

Definition readKickoffState (value : jstr) : ThreadGoalKickoffState :=
  default consumed (named kickoffText [pending; enqueued; consumed] value).

Definition isKickoffAttachment (item : jmap jstr json) : bool :=
  match stringProp "type" item with
  | Some t => str_eqb t (js "file") || str_eqb t (js "image")
  | None => false
  end
  && match stringProp "filePath" item, stringProp "fileName" item, stringProp "mimeType" item with
     | Some _, Some _, Some _ => true
     | _, _, _ => false
     end
  && optionalString "dataUrl" item && optionalString "assetId" item && optionalString "error" item.

Definition readKickoffAttachments (value : JsonText) : list ThreadGoalAttachment :=
  match value with
  | jsonOf (JArr items) =>
      omap (fun candidate => match candidate with
                             | JObj fields => if isKickoffAttachment fields then Some fields else None
                             | _ => None
                             end) items
  | _ => []
  end.

Definition rowToThreadGoalState (row : option ThreadGoalDbRow) : option ThreadGoalState :=
  row ← row;
  if negb (truthy (goal_id row)) || negb (truthy (session_id row))
     || negb (truthy (row_objective row)) || negb (truthy (row_status row)) then None else
  let status := readStatus (row_status row) in
  Some {| goalId := goal_id row; sessionId := session_id row; objective := row_objective row;
          objectiveResources := readKickoffAttachments (objective_resources_json row);
          status := status;
          createdAt := created_at_ms row; updatedAt := updated_at_ms row;
          tokensUsed := numericOrZero (numZ (tokens_used row));
          turnsUsed := numericOrZero (numZ (turns_used row));
          timeUsedSeconds := numericOrZero (numZ (time_used_seconds row));
          tokenBudget := positiveOrNull (option_map numZ (token_budget row));
          replyFingerprint := reply_fingerprint row;
          noProgressStreak := numericOrZero (numZ (no_progress_streak row));
          noToolStreak := numericOrZero (numZ (no_tool_streak row));
          lastVerification := readLastVerification (last_verification row);
          lastWorkerProposal := readLastWorkerProposal (last_worker_proposal row);
          statusReason := readStatusReason (status_reason row);
          kickoffAttachments := readKickoffAttachments (kickoff_attachments_json row);
          kickoffState := readKickoffState (kickoff_state row);
          executionWait :=
            if bool_decide (status = active)
               && bool_decide (execution_wait_epoch row = Some (updated_at_ms row))
            then readExecutionWait (execution_wait_reason row) (execution_wait_since_ms row)
            else None |}.

(** What [JSON.stringify] keeps of a value, as [JSON.parse] gives it back:
    an undefined property is left out, an undefined item is [null], and so is a
    number that is not finite. *)
Definition keeps (v : json) : bool := match v with JUndefined | JOther => false | _ => true end.
Fixpoint wire (v : json) : json :=
  match v with
  | JUndefined | JOther => JNull
  | JNum NumNonFinite => JNull
  | JArr items => JArr (map wire items)
  | JObj fields =>
      JObj (omap (fun e => if keeps (snd e) then Some (fst e, wire (snd e)) else None) fields)
  | v => v
  end.

Definition optionalField (key : string) (o : option jstr) : list (jstr * json) :=
  match o with Some s => [(js key, JStr s)] | None => [] end.

(** The value whose text [JSON.stringify] writes into the column. *)
Definition verificationJson (l : LastVerificationV1) : json :=
  JObj ([(js "v", JNum (NumInt 1)); (js "backend", JStr (backendText (backend l)));
         (js "verdict", JStr (verdictText (verdict l))); (js "reason", JStr (lv_reason l));
         (js "missing", JArr (map JStr (missing l)))]
        ++ optionalField "missingFingerprint" (missingFingerprint l)
        ++ [(js "notMetStreak", JNum (NumInt (notMetStreak l))); (js "turnId", JStr (lv_turnId l));
            (js "objectiveDigest", JStr (lv_objectiveDigest l)); (js "at", JNum (NumInt (lv_at l)))]).
Definition proposalJson (p : LastWorkerProposalV1) : json :=
  JObj ([(js "v", JNum (NumInt 1)); (js "source", JStr (js "worker"));
         (js "type", JStr (proposalText (wp_type p))); (js "turnId", JStr (wp_turnId p))]
        ++ optionalField "summary" (wp_summary p) ++ [(js "at", JNum (NumInt (wp_at p)))]).
Definition attachmentsJson (l : list ThreadGoalAttachment) : json := JArr (map JObj l).
Definition attachmentsText (l : list ThreadGoalAttachment) : jstr :=
  CtxTokens.safeJsonStringify (attachmentsJson l).

(** ** [store-worker-proposal.ts] *)
Record ThreadGoalWorkerProposalInput := {
  wi_type : WorkerProposalType; wi_turnId : jstr; wi_summary : option jstr;
}.

Definition normalizeThreadGoalWorkerProposalSummary (summary : option jstr) : option jstr :=
  match option_map trim summary with
  | Some n => if truthy n then Some (take THREAD_GOAL_WORKER_PROPOSAL_SUMMARY_MAX_CHARS n) else None
  | None => None
  end.

Definition materializeThreadGoalWorkerProposal (input : option ThreadGoalWorkerProposalInput) (at_ : Z)
    : option LastWorkerProposalV1 :=
  option_map (fun i => {|
    wp_type := wi_type i; wp_turnId := wi_turnId i;
    wp_summary := (s ← normalizeThreadGoalWorkerProposalSummary (wi_summary i);
                   if truthy s then Some s else None);
    wp_at := at_ |}) input.

(** ** [objective-digest.ts], [binding-stale.ts] *)
Inductive StaleReason := missing_goal | goal_epoch | objective_digest | goal_status.

Record ThreadGoalBindingExpectation := { expectedEpoch : Z; objectiveDigest : jstr }.

Inductive ThreadGoalDecisionResult :=
  | settled (goal : ThreadGoalState) (decisionEpoch : Z)
  | stale (staleReason : StaleReason) (goal : option ThreadGoalState).

Section Binding.
(** The SHA-256 digest of a text, in hexadecimal. *)
Context (sha256 : jstr -> jstr).

Definition digestThreadGoalObjective (objective : jstr) : jstr := sha256 objective.

Definition classifyThreadGoalAccountingStale (state : option ThreadGoalState)
    (expected : ThreadGoalBindingExpectation) : option StaleReason :=
  match state with
  | None => Some missing_goal
  | Some s =>
      if negb (updatedAt s =? expectedEpoch expected) then Some goal_epoch
      else if negb (str_eqb (digestThreadGoalObjective (objective s)) (objectiveDigest expected))
      then Some objective_digest else None
  end.

Definition classifyThreadGoalBindingStale (state : option ThreadGoalState)
    (expected : ThreadGoalBindingExpectation) : option StaleReason :=
  match classifyThreadGoalAccountingStale state expected with
  | Some r => Some r
  | None => match state with
            | Some s => if bool_decide (status s = active) then None else Some goal_status
            | None => Some goal_status
            end
  end.

Definition threadGoalStaleDecision (state : option ThreadGoalState)
    (expected : ThreadGoalBindingExpectation) : option ThreadGoalDecisionResult :=
  option_map (fun r => stale r state) (classifyThreadGoalBindingStale state expected).
End Binding.
