(* ===== verification/GoalStore.v ===== *)
(** * Thread goals: the store

    [packages/local-runtime/src/thread-goal]: the methods of [store.ts] and the
    statements behind them in [store-patch.ts], [store-bound-settlement.ts],
    [store-breaker.ts], [store-execution.ts] and [store-verification.ts].

    The table is the list of its rows.  [goal_id] is its primary key and
    [session_id] is unique, so a SELECT by either finds at most one row and an
    INSERT that repeats either throws.  An UPDATE rewrites the rows of its WHERE
    clause and reports how many there were.  Every method gets the clock reading
    it takes.  A method gives its answer and the table it leaves; one that
    throws leaves the table as it was.  [patchThreadGoal] alone reads and writes
    outside a transaction: it gets the table it reads and the table it writes. *)
From S2P Require Import Prelude JsValue GoalModel.
From S2P Require RgFingerprint CtxTokens.
#[local] Open Scope Z_scope.

Abbreviation Table := (list ThreadGoalDbRow) (only parsing).

(** ** [store-port.ts]: inputs, results, errors *)
Record ThreadGoalCreateInput := {
  ci_sessionId : jstr; ci_objective : jstr; ci_tokenBudget : option jsnum;
  ci_kickoffAttachments : option (list ThreadGoalAttachment);
  ci_objectiveResources : option (list ThreadGoalAttachment);
}.

(** [None] is [undefined]; the inner [None] of a budget or a reason is [null]. *)
Record ThreadGoalPatchInput := {
  pi_status : option ThreadGoalStatus; pi_objective : option jstr;
  pi_objectiveResources : option (list ThreadGoalAttachment);
  pi_tokenBudget : option (option jsnum);
  pi_statusReason : option (option ThreadGoalStatusReason);
  rejectIfCurrentStatus : option ThreadGoalStatus;
  rejectIfObjectiveChangedFrom : option jstr;
  rejectIfUpdatedAtChangedFrom : option Z;
}.

(** [mainTurns] is 0 or 1. *)
Record ThreadGoalBoundUsageDelta := { d_tokens : jsnum; d_activeSeconds : jsnum; d_mainTurns : bool }.
Record ThreadGoalBudgetLimits := {
  l_tokens : option jsnum; l_mainTurns : option jsnum; l_activeSeconds : option jsnum }.
Inductive ThreadGoalBoundUsageResult :=
  | usage_missing
  | usage_charged (goal : ThreadGoalState) (decisionEpoch : Z)
      (transitioned : option ThreadGoalBudgetDimension) (staleReason : option StaleReason).

Record Next := { n_status : ThreadGoalStatus; n_statusReason : ThreadGoalStatusReason }.
Record ThreadGoalSettleBoundTurnInput := {
  si_goalId : jstr; si_expected : ThreadGoalBindingExpectation; si_next : Next;
  si_workerProposal : option ThreadGoalWorkerProposalInput;
}.
Record ThreadGoalRecordVerificationInput := {
  vi_goalId : jstr; vi_expected : ThreadGoalBindingExpectation; vi_result : LastVerificationV1;
  repeatedNotMetLimit : jsnum; vi_workerProposal : option ThreadGoalWorkerProposalInput;
  vi_decision : option Next;
}.

Inductive ThreadGoalToolActivity := used | absent | activity_unknown.
Record ThreadGoalBreakerInput := {
  bi_expectedEpoch : Z; bi_fingerprint : option jstr; toolActivity : ThreadGoalToolActivity;
  bi_limit : jsnum; pauseReason : option ThreadGoalStatusReason;
}.
Inductive BreakerAction := act_none | act_nudge | act_pause.
Inductive ThreadGoalBreakerCause := repeated_reply | no_tool.
Inductive ThreadGoalBreakerResult :=
  | br_decided (action : BreakerAction) (goal : ThreadGoalState) (epoch : Z)
      (cause : option ThreadGoalBreakerCause)
  | br_stale (staleReason : StaleReason) (goal : option ThreadGoalState).

Inductive GoalError :=
  | ThreadGoalAlreadyExistsError (existingGoalId : jstr)
  | ThreadGoalStatusConflictError (goalId : jstr) (currentStatus : ThreadGoalStatus)
  | ThreadGoalObjectiveConflictError (goalId expectedObjective currentObjective : jstr)
  | ThreadGoalBudgetLimitedError (goalId : jstr)
  | ThreadGoalTokenBudgetExhaustedError (goalId : jstr) (tokensUsed : Z) (tokenBudget : jsnum)
  | ThreadGoalEpochConflictError (goalId : jstr) (expectedUpdatedAt currentUpdatedAt : Z)
  | NotFound (goalId : jstr)
  | NoChange (goalId : jstr)
  | ConstraintViolation.

(** ** The table *)
Definition byId (g : jstr) (t : Table) : option ThreadGoalDbRow := find (fun r => str_eqb (goal_id r) g) t.
Definition bySession (s : jstr) (t : Table) : option ThreadGoalDbRow :=
  find (fun r => str_eqb (session_id r) s) t.
(** [UPDATE ... SET f WHERE p], and its [changes]. *)
Definition update (p : ThreadGoalDbRow -> bool) (f : ThreadGoalDbRow -> ThreadGoalDbRow) (t : Table) : Table :=
  map (fun r => if p r then f r else r) t.
Definition changes (p : ThreadGoalDbRow -> bool) (t : Table) : nat := length (List.filter p t).
(** [INSERT]: [None] when a unique column repeats. *)
Definition insert_row (r : ThreadGoalDbRow) (t : Table) : option Table :=
  if existsb (fun x => str_eqb (goal_id x) (goal_id r) || str_eqb (session_id x) (session_id r)) t
  then None else Some (t ++ [r]).

Definition is_status (s : ThreadGoalStatus) (r : ThreadGoalDbRow) : bool := str_eqb (row_status r) (statusText s).
(** [WHERE goal_id = ? AND updated_at_ms = ? AND status = 'active'] *)
Definition activeAt (g : jstr) (epoch : Z) (r : ThreadGoalDbRow) : bool :=
  str_eqb (goal_id r) g && (updated_at_ms r =? epoch) && is_status active r.

(** The columns an UPDATE sets. *)
Definition set_decision (st : jstr) (reason : option jstr) (epoch : Z) (r : ThreadGoalDbRow) : ThreadGoalDbRow := {|
  goal_id := goal_id r; session_id := session_id r; row_objective := row_objective r; row_status := st;
  created_at_ms := created_at_ms r; updated_at_ms := epoch; tokens_used := tokens_used r;
  time_used_seconds := time_used_seconds r; token_budget := token_budget r;
  kickoff_attachments_json := kickoff_attachments_json r; objective_resources_json := objective_resources_json r;
  kickoff_state := kickoff_state r; turns_used := turns_used r; reply_fingerprint := reply_fingerprint r;
  no_progress_streak := no_progress_streak r; no_tool_streak := no_tool_streak r;
  last_verification := last_verification r; last_worker_proposal := last_worker_proposal r;
  status_reason := reason; execution_wait_reason := execution_wait_reason r;
  execution_wait_since_ms := execution_wait_since_ms r; execution_wait_epoch := execution_wait_epoch r |}.
Definition set_usage (tokens turns seconds : Z) (r : ThreadGoalDbRow) : ThreadGoalDbRow := {|
  goal_id := goal_id r; session_id := session_id r; row_objective := row_objective r; row_status := row_status r;
  created_at_ms := created_at_ms r; updated_at_ms := updated_at_ms r; tokens_used := tokens;
  time_used_seconds := seconds; token_budget := token_budget r;
  kickoff_attachments_json := kickoff_attachments_json r; objective_resources_json := objective_resources_json r;
  kickoff_state := kickoff_state r; turns_used := turns; reply_fingerprint := reply_fingerprint r;
  no_progress_streak := no_progress_streak r; no_tool_streak := no_tool_streak r;
  last_verification := last_verification r; last_worker_proposal := last_worker_proposal r;
  status_reason := status_reason r; execution_wait_reason := execution_wait_reason r;
  execution_wait_since_ms := execution_wait_since_ms r; execution_wait_epoch := execution_wait_epoch r |}.
Definition set_breaker (fingerprint : option jstr) (progress tool : Z) (r : ThreadGoalDbRow) : ThreadGoalDbRow := {|
  goal_id := goal_id r; session_id := session_id r; row_objective := row_objective r; row_status := row_status r;
  created_at_ms := created_at_ms r; updated_at_ms := updated_at_ms r; tokens_used := tokens_used r;
  time_used_seconds := time_used_seconds r; token_budget := token_budget r;
  kickoff_attachments_json := kickoff_attachments_json r; objective_resources_json := objective_resources_json r;
  kickoff_state := kickoff_state r; turns_used := turns_used r; reply_fingerprint := fingerprint;
  no_progress_streak := progress; no_tool_streak := tool;
  last_verification := last_verification r; last_worker_proposal := last_worker_proposal r;
  status_reason := status_reason r; execution_wait_reason := execution_wait_reason r;
  execution_wait_since_ms := execution_wait_since_ms r; execution_wait_epoch := execution_wait_epoch r |}.
Definition set_reports (verification proposal : option JsonText) (r : ThreadGoalDbRow) : ThreadGoalDbRow := {|
  goal_id := goal_id r; session_id := session_id r; row_objective := row_objective r; row_status := row_status r;
  created_at_ms := created_at_ms r; updated_at_ms := updated_at_ms r; tokens_used := tokens_used r;
  time_used_seconds := time_used_seconds r; token_budget := token_budget r;
  kickoff_attachments_json := kickoff_attachments_json r; objective_resources_json := objective_resources_json r;
  kickoff_state := kickoff_state r; turns_used := turns_used r; reply_fingerprint := reply_fingerprint r;
  no_progress_streak := no_progress_streak r; no_tool_streak := no_tool_streak r;
  last_verification := verification; last_worker_proposal := proposal;
  status_reason := status_reason r; execution_wait_reason := execution_wait_reason r;
  execution_wait_since_ms := execution_wait_since_ms r; execution_wait_epoch := execution_wait_epoch r |}.
Definition set_terms (objective : jstr) (budget : option Z) (resources : JsonText) (r : ThreadGoalDbRow)
    : ThreadGoalDbRow := {|
  goal_id := goal_id r; session_id := session_id r; row_objective := objective; row_status := row_status r;
  created_at_ms := created_at_ms r; updated_at_ms := updated_at_ms r; tokens_used := tokens_used r;
  time_used_seconds := time_used_seconds r; token_budget := budget;
  kickoff_attachments_json := kickoff_attachments_json r; objective_resources_json := resources;
  kickoff_state := kickoff_state r; turns_used := turns_used r; reply_fingerprint := reply_fingerprint r;
  no_progress_streak := no_progress_streak r; no_tool_streak := no_tool_streak r;
  last_verification := last_verification r; last_worker_proposal := last_worker_proposal r;
  status_reason := status_reason r; execution_wait_reason := execution_wait_reason r;
  execution_wait_since_ms := execution_wait_since_ms r; execution_wait_epoch := execution_wait_epoch r |}.
Definition set_kickoff (state : jstr) (r : ThreadGoalDbRow) : ThreadGoalDbRow := {|
  goal_id := goal_id r; session_id := session_id r; row_objective := row_objective r; row_status := row_status r;
  created_at_ms := created_at_ms r; updated_at_ms := updated_at_ms r; tokens_used := tokens_used r;
  time_used_seconds := time_used_seconds r; token_budget := token_budget r;
  kickoff_attachments_json := kickoff_attachments_json r; objective_resources_json := objective_resources_json r;
  kickoff_state := state; turns_used := turns_used r; reply_fingerprint := reply_fingerprint r;
  no_progress_streak := no_progress_streak r; no_tool_streak := no_tool_streak r;
  last_verification := last_verification r; last_worker_proposal := last_worker_proposal r;
  status_reason := status_reason r; execution_wait_reason := execution_wait_reason r;
  execution_wait_since_ms := execution_wait_since_ms r; execution_wait_epoch := execution_wait_epoch r |}.
Definition set_wait (reason : option jstr) (since epoch : option Z) (r : ThreadGoalDbRow) : ThreadGoalDbRow := {|
  goal_id := goal_id r; session_id := session_id r; row_objective := row_objective r; row_status := row_status r;
  created_at_ms := created_at_ms r; updated_at_ms := updated_at_ms r; tokens_used := tokens_used r;
  time_used_seconds := time_used_seconds r; token_budget := token_budget r;
  kickoff_attachments_json := kickoff_attachments_json r; objective_resources_json := objective_resources_json r;
  kickoff_state := kickoff_state r; turns_used := turns_used r; reply_fingerprint := reply_fingerprint r;
  no_progress_streak := no_progress_streak r; no_tool_streak := no_tool_streak r;
  last_verification := last_verification r; last_worker_proposal := last_worker_proposal r;
  status_reason := status_reason r; execution_wait_reason := reason;
  execution_wait_since_ms := since; execution_wait_epoch := epoch |}.

(** ** [store.ts]: reads *)
Definition getById (goalId : jstr) (t : Table) : option ThreadGoalState := rowToThreadGoalState (byId goalId t).
Definition getBySession (sessionId : jstr) (t : Table) : option ThreadGoalState :=
  rowToThreadGoalState (bySession sessionId t).

(** [ORDER BY k, goal_id]; identifiers compare by code units. *)
Definition order_by (k : ThreadGoalDbRow -> Z) (a b : ThreadGoalDbRow) : bool :=
  (k a <? k b) || ((k a =? k b) && str_leb (goal_id a) (goal_id b)).
Definition states (rows : Table) : list ThreadGoalState := omap (fun r => rowToThreadGoalState (Some r)) rows.

Definition listRecoverableKickoffs (t : Table) : list ThreadGoalState :=
  states (sort_by (order_by created_at_ms)
    (List.filter (fun r => (str_eqb (kickoff_state r) (js "pending") || str_eqb (kickoff_state r) (js "enqueued"))
                           && negb (is_status complete r)) t)).
Definition listRecoverableActiveGoals (t : Table) : list ThreadGoalState :=
  states (sort_by (order_by updated_at_ms)
    (List.filter (fun r => str_eqb (kickoff_state r) (js "consumed") && is_status active r) t)).
Definition listRecoverableBudgetLimitSummaries (t : Table) : list ThreadGoalState :=
  states (sort_by (order_by updated_at_ms) (List.filter (is_status budget_limited) t)).

(** ** [store.ts]: writes *)
Definition pauseActiveBySession (now : Z) (sessionId : jstr) (reason : ThreadGoalStatusReason) (t : Table)
    : option ThreadGoalState * Table :=
  let where_ r := str_eqb (session_id r) sessionId && is_status active r in
  let t' := update where_ (fun r => set_decision (statusText paused) (Some (reasonText reason))
                                      (Z.max now (updated_at_ms r + 1)) r) t in
  if (changes where_ t =? 0)%nat then (None, t') else (getBySession sessionId t', t').

(** [input.status] is ['paused'] or ['budget_limited']. *)
Definition transitionActiveAtEpoch (now : Z) (goalId : jstr) (expectedEpoch : Z) (input : Next) (t : Table)
    : option ThreadGoalState * Table :=
  let nextEpoch := Z.max now (expectedEpoch + 1) in
  let t' := update (activeAt goalId expectedEpoch)
              (set_decision (statusText (n_status input)) (Some (reasonText (n_statusReason input))) nextEpoch) t in
  if (changes (activeAt goalId expectedEpoch) t =? 0)%nat then (None, t') else (getById goalId t', t').

Definition resetBreakerAtEpoch (now : Z) (goalId : jstr) (expectedEpoch : Z) (t : Table)
    : option ThreadGoalState * Table :=
  let nextEpoch := Z.max now (expectedEpoch + 1) in
  let t' := update (activeAt goalId expectedEpoch)
              (fun r => set_breaker None 0 0 (set_decision (row_status r) (status_reason r) nextEpoch r)) t in
  if (changes (activeAt goalId expectedEpoch) t =? 0)%nat then (None, t') else (getById goalId t', t').

(** The row an INSERT of [create] makes, the other columns at their defaults. *)
Definition createdRow (now : Z) (goalId : jstr) (input : ThreadGoalCreateInput) : ThreadGoalDbRow := {|
  goal_id := goalId; session_id := ci_sessionId input; row_objective := ci_objective input;
  row_status := statusText active; created_at_ms := now; updated_at_ms := now;
  tokens_used := 0; time_used_seconds := 0; token_budget := positiveOrNull (ci_tokenBudget input);
  kickoff_attachments_json := jsonOf (wire (attachmentsJson (default [] (ci_kickoffAttachments input))));
  objective_resources_json := jsonOf (wire (attachmentsJson (default [] (ci_objectiveResources input))));
  kickoff_state := kickoffText pending; turns_used := 0; reply_fingerprint := None;
  no_progress_streak := 0; no_tool_streak := 0; last_verification := None; last_worker_proposal := None;
  status_reason := None; execution_wait_reason := None; execution_wait_since_ms := None;
  execution_wait_epoch := None |}.

Definition createdState (now : Z) (goalId_ : jstr) (input : ThreadGoalCreateInput) : ThreadGoalState := {|
  goalId := goalId_; sessionId := ci_sessionId input; objective := ci_objective input;
  objectiveResources := default [] (ci_objectiveResources input); status := active;
  createdAt := now; updatedAt := now; tokensUsed := 0; turnsUsed := 0; timeUsedSeconds := 0;
  tokenBudget := positiveOrNull (ci_tokenBudget input); replyFingerprint := None;
  noProgressStreak := 0; noToolStreak := 0; lastVerification := None; lastWorkerProposal := None;
  statusReason := None; kickoffAttachments := default [] (ci_kickoffAttachments input);
  kickoffState := pending; executionWait := None |}.

Definition create (now : Z) (genId : jstr) (input : ThreadGoalCreateInput) (t : Table)
    : (GoalError + ThreadGoalState) * Table :=
  let insert t0 :=
    match insert_row (createdRow now genId input) t0 with
    | Some t' => (inr (createdState now genId input), t')
    | None => (inl ConstraintViolation, t)
    end in
  match bySession (ci_sessionId input) t with
  | Some existing =>
      if negb (is_status complete existing)
      then (inl (ThreadGoalAlreadyExistsError (goal_id existing)), t)
      else insert (List.filter (fun r => negb (str_eqb (session_id r) (ci_sessionId input))) t)
  | None => insert t
  end.

Definition delete (goalId : jstr) (t : Table) : Table :=
  List.filter (fun r => negb (str_eqb (goal_id r) goalId)) t.

Definition transitionKickoffState (goalId : jstr) (expected next : ThreadGoalKickoffState) (t : Table)
    : option ThreadGoalState * Table :=
  let where_ r := str_eqb (goal_id r) goalId && str_eqb (kickoff_state r) (kickoffText expected) in
  let t' := update where_ (set_kickoff (kickoffText next)) t in
  if (changes where_ t =? 0)%nat then (None, t') else (getById goalId t', t').

(** ** [store-execution.ts] *)
Definition isCurrentActiveEpoch (row : option ThreadGoalDbRow) (expectedUpdatedAt : Z) : bool :=
  match row with Some r => is_status active r && (updated_at_ms r =? expectedUpdatedAt) | None => false end.
Definition hasVisibleWait (row : ThreadGoalDbRow) : bool :=
  match execution_wait_reason row, execution_wait_epoch row with
  | Some _, Some e => (e =? updated_at_ms row)
  | _, _ => false
  end.

Definition setThreadGoalExecutionWait (now : Z) (goalId : jstr) (expectedUpdatedAt : Z)
    (reason : ThreadGoalWaitReason) (t : Table) : option ThreadGoalState * Table :=
  match byId goalId t with
  | Some current =>
      if negb (isCurrentActiveEpoch (Some current) expectedUpdatedAt) then (None, t)
      else if hasVisibleWait current && bool_decide (execution_wait_reason current = Some (waitText reason))
      then (None, t)
      else
        let t' := update (activeAt goalId expectedUpdatedAt)
                    (set_wait (Some (waitText reason)) (Some now) (Some expectedUpdatedAt)) t in
        if (changes (activeAt goalId expectedUpdatedAt) t =? 0)%nat then (None, t') else (getById goalId t', t')
  | None => (None, t)
  end.

Definition clearThreadGoalExecutionWait (goalId : jstr) (expectedUpdatedAt : Z) (t : Table)
    : option ThreadGoalState * Table :=
  match byId goalId t with
  | Some current =>
      if negb (isCurrentActiveEpoch (Some current) expectedUpdatedAt) then (None, t)
      else if negb (hasVisibleWait current) then (None, t)
      else
        let t' := update (activeAt goalId expectedUpdatedAt) (set_wait None None None) t in
        if (changes (activeAt goalId expectedUpdatedAt) t =? 0)%nat then (None, t') else (getById goalId t', t')
  | None => (None, t)
  end.

Definition listThreadGoalsWaitingOnVerification (t : Table) : list ThreadGoalState :=
  states (sort_by (order_by updated_at_ms)
    (List.filter (fun r => is_status active r
                           && bool_decide (execution_wait_reason r = Some (waitText verification))
                           && bool_decide (execution_wait_epoch r = Some (updated_at_ms r))) t)).

(** ** A state with some fields replaced *)
Definition st_decision (st : ThreadGoalStatus) (reason : option ThreadGoalStatusReason) (epoch : Z)
    (wait : option ThreadGoalExecutionWait) (s : ThreadGoalState) : ThreadGoalState := {|
  goalId := goalId s; sessionId := sessionId s; objective := objective s;
  objectiveResources := objectiveResources s; status := st; createdAt := createdAt s; updatedAt := epoch;
  tokensUsed := tokensUsed s; turnsUsed := turnsUsed s; timeUsedSeconds := timeUsedSeconds s;
  tokenBudget := tokenBudget s; replyFingerprint := replyFingerprint s;
  noProgressStreak := noProgressStreak s; noToolStreak := noToolStreak s;
  lastVerification := lastVerification s; lastWorkerProposal := lastWorkerProposal s;
  statusReason := reason; kickoffAttachments := kickoffAttachments s; kickoffState := kickoffState s;
  executionWait := wait |}.
Definition st_usage (tokens turns seconds : Z) (s : ThreadGoalState) : ThreadGoalState := {|
  goalId := goalId s; sessionId := sessionId s; objective := objective s;
  objectiveResources := objectiveResources s; status := status s; createdAt := createdAt s;
  updatedAt := updatedAt s; tokensUsed := tokens; turnsUsed := turns; timeUsedSeconds := seconds;
  tokenBudget := tokenBudget s; replyFingerprint := replyFingerprint s;
  noProgressStreak := noProgressStreak s; noToolStreak := noToolStreak s;
  lastVerification := lastVerification s; lastWorkerProposal := lastWorkerProposal s;
  statusReason := statusReason s; kickoffAttachments := kickoffAttachments s;
  kickoffState := kickoffState s; executionWait := executionWait s |}.
Definition st_breaker (fingerprint : option jstr) (progress tool : Z) (s : ThreadGoalState) : ThreadGoalState := {|
  goalId := goalId s; sessionId := sessionId s; objective := objective s;
  objectiveResources := objectiveResources s; status := status s; createdAt := createdAt s;
  updatedAt := updatedAt s; tokensUsed := tokensUsed s; turnsUsed := turnsUsed s;
  timeUsedSeconds := timeUsedSeconds s; tokenBudget := tokenBudget s; replyFingerprint := fingerprint;
  noProgressStreak := progress; noToolStreak := tool;
  lastVerification := lastVerification s; lastWorkerProposal := lastWorkerProposal s;
  statusReason := statusReason s; kickoffAttachments := kickoffAttachments s;
  kickoffState := kickoffState s; executionWait := executionWait s |}.
Definition st_reports (l : option LastVerificationV1) (p : option LastWorkerProposalV1) (s : ThreadGoalState)
    : ThreadGoalState := {|
  goalId := goalId s; sessionId := sessionId s; objective := objective s;
  objectiveResources := objectiveResources s; status := status s; createdAt := createdAt s;
  updatedAt := updatedAt s; tokensUsed := tokensUsed s; turnsUsed := turnsUsed s;
  timeUsedSeconds := timeUsedSeconds s; tokenBudget := tokenBudget s;
  replyFingerprint := replyFingerprint s; noProgressStreak := noProgressStreak s;
  noToolStreak := noToolStreak s; lastVerification := l; lastWorkerProposal := p;
  statusReason := statusReason s; kickoffAttachments := kickoffAttachments s;
  kickoffState := kickoffState s; executionWait := executionWait s |}.

(** ** [store-patch.ts] *)

(** What a patch that passes the checks writes and returns. *)
Record PatchPlan := {
  p_state : ThreadGoalState; p_now : Z; nextStatus : ThreadGoalStatus; nextObjective : jstr;
  nextResources : list ThreadGoalAttachment; nextTokenBudget : option Z;
  nextReplyFingerprint : option jstr; nextNoProgressStreak : Z; nextNoToolStreak : Z;
  nextLastVerification : option LastVerificationV1; nextLastWorkerProposal : option LastWorkerProposalV1;
  nextStatusReason : option ThreadGoalStatusReason;
}.

Definition resumesTokenLimited (state : ThreadGoalState) (input : ThreadGoalPatchInput) : bool :=
  bool_decide (pi_status input = Some active)
  && bool_decide (status state = budget_limited)
  && bool_decide (statusReason state = Some (budget_limited_by dim_token))
  && match pi_tokenBudget input with
     | None => false
     | Some None => true
     | Some (Some b) => num_gt b (tokensUsed state)
     end.

Definition patchCheck (existing : option ThreadGoalDbRow) (state : ThreadGoalState) (goalId : jstr)
    (input : ThreadGoalPatchInput) : option GoalError :=
  if bool_decide (Some (status state) = rejectIfCurrentStatus input)
  then Some (ThreadGoalStatusConflictError goalId (status state))
  else if match rejectIfObjectiveChangedFrom input with
          | Some o => negb (str_eqb (objective state) o) | None => false end
  then Some (ThreadGoalObjectiveConflictError goalId (default [] (rejectIfObjectiveChangedFrom input)) (objective state))
  else if match rejectIfUpdatedAtChangedFrom input with
          | Some e => negb (updatedAt state =? e) | None => false end
  then Some (ThreadGoalEpochConflictError goalId (default 0 (rejectIfUpdatedAtChangedFrom input)) (updatedAt state))
  else if match pi_tokenBudget input with
          | Some (Some b) => num_le b (tokensUsed state) | _ => false end
  then Some (ThreadGoalTokenBudgetExhaustedError goalId (tokensUsed state) (default NaN (default None (pi_tokenBudget input))))
  else if bool_decide (pi_status input = Some active) && bool_decide (status state = budget_limited)
          && negb (resumesTokenLimited state input)
  then Some (ThreadGoalBudgetLimitedError goalId)
  else if bool_decide (pi_status input = Some active) && negb (isKnownThreadGoalStatus (option_map row_status existing))
  then Some (ThreadGoalStatusConflictError goalId paused)
  else if bool_decide (pi_status input = Some active) && bool_decide (status state = complete)
  then Some (ThreadGoalStatusConflictError goalId (status state))
  else None.

Definition patchPlan (nowMs : Z) (state : ThreadGoalState) (input : ThreadGoalPatchInput) : PatchPlan :=
  let nextStatus := default (status state) (pi_status input) in
  let nextResources := default (objectiveResources state) (pi_objectiveResources input) in
  let objectiveChanged :=
    match pi_objective input with Some o => negb (str_eqb o (objective state)) | None => false end
    || negb (str_eqb (attachmentsText nextResources) (attachmentsText (objectiveResources state))) in
  let resumed :=
    bool_decide (pi_status input = Some active)
    && (bool_decide (status state = paused) || bool_decide (status state = blocked)
        || bool_decide (status state = usage_limited) || resumesTokenLimited state input) in
  let fresh := objectiveChanged || resumed in
  {| p_state := state; p_now := Z.max nowMs (updatedAt state + 1);
     nextStatus := nextStatus; nextObjective := default (objective state) (pi_objective input);
     nextResources := nextResources;
     nextTokenBudget := match pi_tokenBudget input with
                        | None => tokenBudget state
                        | Some b => positiveOrNull b
                        end;
     nextReplyFingerprint := if fresh then None else replyFingerprint state;
     nextNoProgressStreak := if fresh then 0 else noProgressStreak state;
     nextNoToolStreak := if fresh then 0 else noToolStreak state;
     nextLastVerification := if objectiveChanged then None else lastVerification state;
     nextLastWorkerProposal := if objectiveChanged then None else lastWorkerProposal state;
     nextStatusReason :=
       match pi_statusReason input with
       | Some r => r
       | None => match pi_status input with
                 | Some s => if bool_decide (s = status state) then statusReason state else None
                 | None => statusReason state
                 end
       end |}.

Definition patchRow (p : PatchPlan) (r : ThreadGoalDbRow) : ThreadGoalDbRow :=
  set_terms (nextObjective p) (nextTokenBudget p) (jsonOf (wire (attachmentsJson (nextResources p))))
    (set_breaker (nextReplyFingerprint p) (nextNoProgressStreak p) (nextNoToolStreak p)
      (set_reports (option_map (fun l => jsonOf (verificationJson l)) (nextLastVerification p))
                   (option_map (fun w => jsonOf (proposalJson w)) (nextLastWorkerProposal p))
        (set_decision (statusText (nextStatus p)) (option_map reasonText (nextStatusReason p)) (p_now p) r))).

Definition patchState (p : PatchPlan) : ThreadGoalState :=
  let s := p_state p in {|
  goalId := goalId s; sessionId := sessionId s; objective := nextObjective p;
  objectiveResources := nextResources p; status := nextStatus p; createdAt := createdAt s;
  updatedAt := p_now p; tokensUsed := tokensUsed s; turnsUsed := turnsUsed s;
  timeUsedSeconds := timeUsedSeconds s; tokenBudget := nextTokenBudget p;
  replyFingerprint := nextReplyFingerprint p; noProgressStreak := nextNoProgressStreak p;
  noToolStreak := nextNoToolStreak p; lastVerification := nextLastVerification p;
  lastWorkerProposal := nextLastWorkerProposal p; statusReason := nextStatusReason p;
  kickoffAttachments := kickoffAttachments s; kickoffState := kickoffState s; executionWait := None |}.

Definition patchWhere (goalId : jstr) (input : ThreadGoalPatchInput) (r : ThreadGoalDbRow) : bool :=
  str_eqb (goal_id r) goalId
  && match rejectIfCurrentStatus input with Some s => negb (is_status s r) | None => true end
  && match rejectIfObjectiveChangedFrom input with Some o => str_eqb (row_objective r) o | None => true end
  && match rejectIfUpdatedAtChangedFrom input with Some e => (updated_at_ms r =? e) | None => true end.

Definition patchGuarded (input : ThreadGoalPatchInput) : bool :=
  match rejectIfCurrentStatus input, rejectIfObjectiveChangedFrom input, rejectIfUpdatedAtChangedFrom input with
  | None, None, None => false
  | _, _, _ => true
  end.

(** The error of a guarded UPDATE that changed no row, from the row there is now. *)
Definition patchConflict (goalId : jstr) (input : ThreadGoalPatchInput) (latest : option ThreadGoalState) : GoalError :=
  match latest with
  | None => NotFound goalId
  | Some current =>
      if match rejectIfCurrentStatus input with Some s => bool_decide (status current = s) | None => false end
      then ThreadGoalStatusConflictError goalId (status current)
      else if match rejectIfObjectiveChangedFrom input with
              | Some o => negb (str_eqb (objective current) o) | None => false end
      then ThreadGoalObjectiveConflictError goalId (default [] (rejectIfObjectiveChangedFrom input)) (objective current)
      else if match rejectIfUpdatedAtChangedFrom input with
              | Some e => negb (updatedAt current =? e) | None => false end
      then ThreadGoalEpochConflictError goalId (default 0 (rejectIfUpdatedAtChangedFrom input)) (updatedAt current)
      else NoChange goalId
  end.

(** [tRead] is the table the SELECT sees, [tWrite] the one the UPDATE rewrites. *)
Definition patchThreadGoal (nowMs : Z) (goalId : jstr) (input : ThreadGoalPatchInput) (tRead tWrite : Table)
    : (GoalError + ThreadGoalState) * Table :=
  match getById goalId tRead with
  | None => (inl (NotFound goalId), tWrite)
  | Some state =>
      match patchCheck (byId goalId tRead) state goalId input with
      | Some e => (inl e, tWrite)
      | None =>
          let plan := patchPlan nowMs state input in
          let t' := update (patchWhere goalId input) (patchRow plan) tWrite in
          if patchGuarded input && (changes (patchWhere goalId input) tWrite =? 0)%nat
          then (inl (patchConflict goalId input (getById goalId t')), t')
          else (inr (patchState plan), t')
      end
  end.

Definition patch (nowMs : Z) (goalId : jstr) (input : ThreadGoalPatchInput) (t : Table)
    : (GoalError + ThreadGoalState) * Table := patchThreadGoal nowMs goalId input t t.

(** ** [store-bound-settlement.ts] *)
Definition isPositiveLimit (value : option jsnum) : bool :=
  match value with Some v => num_finite v && num_positive v | None => false end.
(** [isPositiveLimit(limit) && usage >= limit] *)
Definition exceeds (limit : option jsnum) (usage : Z) : bool :=
  match limit with Some l => isPositiveLimit limit && num_le l usage | None => false end.

Definition firstExceededBudget (tokens mainTurns activeSeconds : Z) (limits : ThreadGoalBudgetLimits)
    : option ThreadGoalBudgetDimension :=
  if exceeds (l_tokens limits) tokens then Some dim_token
  else if exceeds (l_mainTurns limits) mainTurns then Some dim_main_turn
  else if exceeds (l_activeSeconds limits) activeSeconds then Some dim_active_time
  else None.

Section Digest.
Context (sha256 : jstr -> jstr).

Definition bumpThreadGoalBoundUsage (nowMs : Z) (binding : GoalTurnBinding) (delta : ThreadGoalBoundUsageDelta)
    (limits : ThreadGoalBudgetLimits) (t : Table) : ThreadGoalBoundUsageResult * Table :=
  match getById (bd_goalId binding) t with
  | None => (usage_missing, t)
  | Some state =>
      let staleReason := classifyThreadGoalAccountingStale sha256 (Some state)
        {| expectedEpoch := admittedGoalUpdatedAt binding; objectiveDigest := bd_objectiveDigest binding |} in
      let tokens := numericOrZero (d_tokens delta) in
      let activeSeconds := numericOrZero (d_activeSeconds delta) in
      let mainTurns := if d_mainTurns delta then 1 else 0 in
      if (tokens =? 0) && (activeSeconds =? 0) && (mainTurns =? 0)
      then (usage_charged state (updatedAt state) None staleReason, t)
      else
        let tokensUsed' := tokensUsed state + tokens in
        let turnsUsed' := turnsUsed state + mainTurns in
        let timeUsedSeconds' := timeUsedSeconds state + activeSeconds in
        let dimension := if bool_decide (status state = active)
                         then firstExceededBudget tokensUsed' turnsUsed' timeUsedSeconds' limits else None in
        let status' := match dimension with Some _ => budget_limited | None => status state end in
        let statusReason' := match dimension with
                             | Some d => Some (budget_limited_by d)
                             | None => statusReason state
                             end in
        let keepsDecisionEpoch :=
          bool_decide (status state = budget_limited)
          || match staleReason, dimension with Some _, None => true | _, _ => false end in
        let decisionEpoch := if keepsDecisionEpoch then updatedAt state else Z.max nowMs (updatedAt state + 1) in
        let t' := update (fun r => str_eqb (goal_id r) (bd_goalId binding))
                    (fun r => set_usage tokensUsed' turnsUsed' timeUsedSeconds'
                       (set_decision (statusText status') (option_map reasonText statusReason') decisionEpoch r)) t in
        (usage_charged
           (st_usage tokensUsed' turnsUsed' timeUsedSeconds'
              (st_decision status' statusReason' decisionEpoch
                 (if keepsDecisionEpoch then executionWait state else None) state))
           decisionEpoch dimension staleReason, t')
  end.

(** The answer when the UPDATE of a decision changed no row. *)
Definition refusedDecision (goalId : jstr) (expected : ThreadGoalBindingExpectation) (t : Table)
    : ThreadGoalDecisionResult :=
  default (stale goal_status None) (threadGoalStaleDecision sha256 (getById goalId t) expected).

Definition settleThreadGoalBoundTurn (nowMs : Z) (input : ThreadGoalSettleBoundTurnInput) (t : Table)
    : ThreadGoalDecisionResult * Table :=
  let goalId := si_goalId input in
  let expected := si_expected input in
  match getById goalId t with
  | None => (stale missing_goal None, t)
  | Some state =>
      match threadGoalStaleDecision sha256 (Some state) expected with
      | Some s => (s, t)
      | None =>
          let decisionEpoch := Z.max nowMs (expectedEpoch expected + 1) in
          let workerProposal := materializeThreadGoalWorkerProposal (si_workerProposal input) decisionEpoch in
          let where_ := activeAt goalId (expectedEpoch expected) in
          let t' := update where_
            (fun r => set_reports (last_verification r)
               match workerProposal with
               | Some p => Some (jsonOf (proposalJson p))
               | None => last_worker_proposal r
               end
               (set_decision (statusText (n_status (si_next input)))
                  (Some (reasonText (n_statusReason (si_next input)))) decisionEpoch r)) t in
          if (changes where_ t =? 0)%nat then (refusedDecision goalId expected t', t')
          else (settled
                  (st_reports (lastVerification state)
                     match workerProposal with Some p => Some p | None => lastWorkerProposal state end
                     (st_decision (n_status (si_next input)) (Some (n_statusReason (si_next input)))
                        decisionEpoch None state))
                  decisionEpoch, t')
      end
  end.

(** ** [store-breaker.ts] *)
Definition decideAction (occurrences limit : Z) : BreakerAction :=
  if (limit <=? occurrences) then act_pause else if (2 <=? occurrences) then act_nudge else act_none.

Definition strongerAction (left right : BreakerAction) : BreakerAction :=
  match left, right with
  | act_pause, _ | _, act_pause => act_pause
  | act_nudge, _ | _, act_nudge => act_nudge
  | _, _ => act_none
  end.

Definition same_action (a b : BreakerAction) : bool :=
  match a, b with act_none, act_none | act_nudge, act_nudge | act_pause, act_pause => true | _, _ => false end.

(** [Number.isFinite(limit) ? Math.max(2, Math.floor(limit)) : 2] *)
Definition occurrenceLimit (limit : jsnum) : Z := match limit with Fin q => Z.max 2 (Qround.Qfloor q) | _ => 2 end.

Record Observation := {
  o_fingerprint : option jstr; o_replyStreak : Z; o_noToolStreak : Z;
  o_action : BreakerAction; o_cause : option ThreadGoalBreakerCause;
}.

(** The two conditions scored against a state. *)
Definition observe (state : ThreadGoalState) (input : ThreadGoalBreakerInput) : Observation :=
  let occurrenceLimit := occurrenceLimit (bi_limit input) in
  let repeated := match bi_fingerprint input with
                  | Some _ => bool_decide (replyFingerprint state = bi_fingerprint input)
                  | None => false
                  end in
  let nextReplyStreak := match bi_fingerprint input with
                         | Some _ => if repeated then noProgressStreak state + 1 else 0
                         | None => noProgressStreak state
                         end in
  let nextFingerprint := match bi_fingerprint input with
                         | Some f => Some f
                         | None => replyFingerprint state
                         end in
  let replyAction := if repeated then decideAction (nextReplyStreak + 1) occurrenceLimit else act_none in
  let nextNoToolStreak := match toolActivity input with absent => noToolStreak state + 1 | _ => 0 end in
  let noToolAction := match toolActivity input with
                      | absent => decideAction nextNoToolStreak occurrenceLimit
                      | _ => act_none
                      end in
  let action := strongerAction replyAction noToolAction in
  {| o_fingerprint := nextFingerprint; o_replyStreak := nextReplyStreak; o_noToolStreak := nextNoToolStreak;
     o_action := action;
     o_cause := match action with
                | act_none => None
                | _ => Some (if same_action replyAction action then repeated_reply else no_tool)
                end |}.

Definition updateThreadGoalBreaker (nowMs : Z) (goalId : jstr) (input : ThreadGoalBreakerInput) (t : Table)
    : ThreadGoalBreakerResult * Table :=
  match getById goalId t with
  | None => (br_stale missing_goal None, t)
  | Some state =>
      let o := observe state input in
      let unchanged := same_action (o_action o) act_none
        && bool_decide (o_fingerprint o = replyFingerprint state)
        && (o_replyStreak o =? noProgressStreak state) && (o_noToolStreak o =? noToolStreak state) in
      if unchanged then
        if negb (updatedAt state =? bi_expectedEpoch input) then (br_stale goal_epoch (Some state), t)
        else if negb (bool_decide (status state = active)) then (br_stale goal_status (Some state), t)
        else (br_decided act_none state (updatedAt state) None, t)
      else
        let pauses := same_action (o_action o) act_pause in
        let nextStatus := if pauses then paused else status state in
        let nextStatusReason := if pauses then Some (default paused_no_progress (pauseReason input))
                                else statusReason state in
        let nextEpoch := Z.max nowMs (updatedAt state + 1) in
        let where_ := activeAt goalId (bi_expectedEpoch input) in
        let t' := update where_
          (fun r => set_breaker (o_fingerprint o) (o_replyStreak o) (o_noToolStreak o)
             (set_decision (statusText nextStatus) (option_map reasonText nextStatusReason) nextEpoch r)) t in
        if (changes where_ t =? 0)%nat then
          match getById goalId t' with
          | None => (br_stale missing_goal None, t')
          | Some current =>
              if negb (updatedAt current =? bi_expectedEpoch input)
              then (br_stale goal_epoch (Some current), t')
              else (br_stale goal_status (Some current), t')
          end
        else (br_decided (o_action o)
                (st_breaker (o_fingerprint o) (o_replyStreak o) (o_noToolStreak o)
                   (st_decision nextStatus nextStatusReason nextEpoch None state))
                nextEpoch (o_cause o), t')
  end.

(** ** [store-verification.ts] *)

(** [value.trim().replace(/\s+/g, ' ')] *)
Fixpoint collapse (inRun : bool) (s : jstr) : jstr :=
  match s with
  | [] => []
  | c :: s' => if isWhite c then (if inRun then collapse true s' else 32%N :: collapse true s')
               else c :: collapse false s'
  end.
(** The items of [new Set(l)]. *)
Fixpoint setItems (seen l : list jstr) : list jstr :=
  match l with
  | [] => []
  | x :: l' => if existsb (str_eqb x) seen then setItems seen l' else x :: setItems (x :: seen) l'
  end.
Definition normalizeMissing (values : list jstr) : list jstr :=
  sort_strings (setItems [] (List.filter truthy (map (fun v => collapse false (trim v)) values))).

Definition missingText (missing : list jstr) : jstr :=
  CtxTokens.safeJsonStringify (JArr (map JStr missing)).

Definition normalizeVerificationResult (previous : option LastVerificationV1) (result : LastVerificationV1)
    : LastVerificationV1 :=
  let missing' := normalizeMissing (missing result) in
  let with_ fp streak := {|
    backend := backend result; verdict := verdict result; lv_reason := lv_reason result; missing := missing';
    missingFingerprint := fp; notMetStreak := streak; lv_turnId := lv_turnId result;
    lv_objectiveDigest := lv_objectiveDigest result; lv_at := lv_at result |} in
  if negb (bool_decide (verdict result = not_met)) then with_ None 0
  else
    let fp := sha256 (missingText missing') in
    let streak := match previous with
                  | Some p => if bool_decide (verdict p = not_met) && bool_decide (missingFingerprint p = Some fp)
                              then notMetStreak p + 1 else 1
                  | None => 1
                  end in
    with_ (Some fp) streak.

Definition positiveIntegerOrDefault (value : jsnum) (fallback : Z) : Z :=
  match value with Fin q => if num_positive value then Qround.Qfloor q else fallback | _ => fallback end.

(** [GOAL_CONFIG_DEFAULTS.verifier.repeatedNotMetLimit] of [@bari/config]. *)
Definition REPEATED_NOT_MET_LIMIT : Z := 5.

Definition verificationDecision (lv : LastVerificationV1) (input : ThreadGoalRecordVerificationInput) : option Next :=
  if bool_decide (verdict lv = not_met)
     && (positiveIntegerOrDefault (repeatedNotMetLimit input) REPEATED_NOT_MET_LIMIT <=? notMetStreak lv)
  then Some {| n_status := paused; n_statusReason := paused_no_progress |}
  else vi_decision input.

Definition recordThreadGoalVerification (nowMs : Z) (input : ThreadGoalRecordVerificationInput) (t : Table)
    : ThreadGoalDecisionResult * Table :=
  let goalId := vi_goalId input in
  let expected := vi_expected input in
  match getById goalId t with
  | None => (stale missing_goal None, t)
  | Some state =>
      match threadGoalStaleDecision sha256 (Some state) expected with
      | Some s => (s, t)
      | None =>
          let lv := normalizeVerificationResult (lastVerification state) (vi_result input) in
          let decision := verificationDecision lv input in
          let nextStatus := match decision with Some d => n_status d | None => status state end in
          let nextStatusReason := match decision with
                                  | Some d => Some (n_statusReason d)
                                  | None => statusReason state
                                  end in
          let decisionEpoch := Z.max nowMs (expectedEpoch expected + 1) in
          let workerProposal := materializeThreadGoalWorkerProposal (vi_workerProposal input) decisionEpoch in
          let where_ := activeAt goalId (expectedEpoch expected) in
          let t' := update where_
            (fun r => set_reports (Some (jsonOf (verificationJson lv)))
               match workerProposal with
               | Some p => Some (jsonOf (proposalJson p))
               | None => last_worker_proposal r
               end
               (set_decision (statusText nextStatus) (option_map reasonText nextStatusReason) decisionEpoch r)) t in
          if (changes where_ t =? 0)%nat then (refusedDecision goalId expected t', t')
          else (settled
                  (st_reports (Some lv)
                     match workerProposal with Some p => Some p | None => lastWorkerProposal state end
                     (st_decision nextStatus nextStatusReason decisionEpoch None state))
                  decisionEpoch, t')
      end
  end.
End Digest.
