(* ===== verification/GoalLaws.v ===== *)
(** * Thread goals: laws of the table, its invariant, the step of a row

    What a row reads as, what an UPDATE does to the row a SELECT finds, when a
    row is well formed, and [RowStep]: the ways an operation of the store may
    change a row.  [apply_steps] shows that every operation changes rows in
    these ways only. *)
From S2P Require Import Prelude JsValue GoalModel GoalStore.
From S2P Require RgFingerprint CtxTokens.
#[local] Open Scope Z_scope.
Arguments readStatus : simpl never.
Arguments readStatusReason : simpl never.
Arguments readLastVerification : simpl never.
Arguments readLastWorkerProposal : simpl never.
Arguments readKickoffAttachments : simpl never.
Arguments readExecutionWait : simpl never.
Arguments positiveOrNull : simpl never.
Arguments statusText : simpl never.
Arguments reasonText : simpl never.
Arguments wire : simpl never.
Arguments attachmentsJson : simpl never.
Arguments numericOrZero : simpl never.

(** ** Texts and numbers *)
Lemma str_eqb_eq a b : str_eqb a b = true <-> a = b.
Proof. unfold str_eqb. apply bool_decide_eq_true. Qed.
Lemma str_eqb_same a : str_eqb a a = true.
Proof. by apply str_eqb_eq. Qed.
Lemma str_eqb_neq a b : str_eqb a b = false <-> a <> b.
Proof. unfold str_eqb. apply bool_decide_eq_false. Qed.

Lemma read_statusText s : readStatus (statusText s) = s.
Proof. by destruct s. Qed.
Lemma known_statusText s : isKnownThreadGoalStatus (Some (statusText s)) = true.
Proof. by destruct s. Qed.
Lemma truthy_statusText s : truthy (statusText s) = true.
Proof. by destruct s. Qed.
Lemma statusText_inj a b : statusText a = statusText b -> a = b.
Proof. intros H. by rewrite <- (read_statusText a), H, read_statusText. Qed.
Lemma read_reasonText o : readStatusReason (option_map reasonText o) = o.
Proof. by destruct o as [[]|]; try done; destruct d. Qed.
Lemma read_kickoffText k : readKickoffState (kickoffText k) = k.
Proof. by destruct k. Qed.
Lemma kickoffText_inj a b : kickoffText a = kickoffText b -> a = b.
Proof. intros H. by rewrite <- (read_kickoffText a), H, read_kickoffText. Qed.
Lemma named_waitText w : named waitText THREAD_GOAL_WAIT_REASONS (waitText w) = Some w.
Proof. by destruct w. Qed.

Lemma num_gt_Z a b : num_gt (numZ a) b = (b <? a).
Proof.
  unfold num_gt, numZ, QArith_base.Qle_bool. cbn. rewrite !Z.mul_1_r, Z.ltb_antisym. done.
Qed.
Lemma num_le_Z a b : num_le (numZ a) b = (a <=? b).
Proof. unfold num_le, numZ, QArith_base.Qle_bool. cbn. by rewrite !Z.mul_1_r. Qed.
Lemma numericOrZero_Z z : numericOrZero (numZ z) = Z.max 0 z.
Proof.
  unfold numericOrZero, numZ. unfold QArith_base.Qle_bool. cbn. rewrite Z.div_1_r, !Z.mul_1_r.
  destruct (Z.leb_spec 0 z); lia.
Qed.
Lemma Qfloor_nonneg q : QArith_base.Qle {| QArith_base.Qnum := 0; QArith_base.Qden := 1 |} q -> 0 <= Qround.Qfloor q.
Proof. intros H. apply Qround.Qfloor_resp_le in H. exact H. Qed.
Lemma numericOrZero_pos n : 0 <= numericOrZero n.
Proof.
  unfold numericOrZero. repeat case_goal; try lia.
  apply Qfloor_nonneg. by apply QArith_base.Qle_bool_iff.
Qed.
Lemma positiveOrNull_Z z : positiveOrNull (Some (numZ z)) = if 0 <? z then Some z else None.
Proof.
  unfold positiveOrNull, numZ. unfold num_positive. pose proof (num_gt_Z z 0) as E. unfold numZ in E.
  rewrite E. unfold Qround.Qfloor. cbn. by rewrite Z.div_1_r.
Qed.
Lemma positiveOrNull_pos b z : positiveOrNull b = Some z -> 0 <= z.
Proof.
  unfold positiveOrNull, num_positive, num_gt. repeat case_goal; try done. intros [= <-].
  apply Qfloor_nonneg, QArith_base.Qlt_le_weak, QArith_base.Qnot_le_lt.
  intros Hle. apply QArith_base.Qle_bool_iff in Hle. unfold QArith_base.inject_Z in *. by rewrite Hle in *.
Qed.

(** ** JSON columns *)
Lemma strings_JStr l : strings (Some (JArr (map JStr l))) = Some l.
Proof. cbn. induction l as [|x l IH]; cbn; [done|]. by rewrite IH. Qed.

Definition verification_ok (l : LastVerificationV1) : Prop :=
  missingFingerprint l <> Some [] /\ 0 <= notMetStreak l /\ 0 <= lv_at l.
Definition proposal_ok (p : LastWorkerProposalV1) : Prop :=
  match wp_summary p with
  | Some s => s <> [] /\ (length s <= THREAD_GOAL_WORKER_PROPOSAL_SUMMARY_MAX_CHARS)%nat
  | None => True
  end /\ 0 <= wp_at p.

Lemma leb_0 z : 0 <= z -> (0 <=? z) = true.
Proof. lia. Qed.

Lemma jget_here {K V} `{EqDecision K} (k : K) (v : V) l : jget k ((k, v) :: l) = Some v.
Proof. cbn. by destruct (decide (k = k)). Qed.
Lemma jget_skip {V} `{EqDecision jstr} (k k' : jstr) (v : V) l :
  str_eqb k k' = false -> jget k ((k', v) :: l) = jget k l.
Proof. intros Hn%str_eqb_neq. cbn. by destruct (decide (k = k')). Qed.
Lemma jget_none {K V} `{EqDecision K} (k : K) : jget k (@nil (K * V)) = None.
Proof. done. Qed.

(** Properties of an object with literal keys. *)
Ltac jget_literal :=
  unfold stringProp, optionalString, naturalProp, truthyProp, stringProp, objectOf;
  repeat first [ rewrite jget_here | rewrite jget_skip by (vm_compute; reflexivity) | rewrite jget_none ].

Lemma named_backend b : named backendText [evaluator; subagent] (backendText b) = Some b.
Proof. by destruct b. Qed.
Lemma named_verdict v : named verdictText [met; not_met; impossible; inconclusive] (verdictText v) = Some v.
Proof. by destruct v. Qed.
Lemma named_proposal t : named proposalText [proposal_complete; proposal_blocked] (proposalText t) = Some t.
Proof. by destruct t. Qed.

Lemma read_verificationJson l : verification_ok l -> readLastVerification (Some (jsonOf (verificationJson l))) = Some l.
Proof.
  destruct l as [b v r m f n t d a]. intros (Hf & Hn & Ha). cbn in Hf, Hn, Ha.
  unfold verificationJson, readLastVerification, objectOf.
  destruct f as [[|x f]|]; [done| |];
    cbn [mbind option_bind backend verdict lv_reason missing missingFingerprint notMetStreak lv_turnId
         lv_objectiveDigest lv_at optionalField app]; jget_literal;
    cbn [mbind option_bind isOne Z.eqb Pos.eqb negb as_string truthy]; rewrite named_backend; cbn [mbind option_bind]; rewrite named_verdict; cbn [mbind option_bind];
    rewrite strings_JStr; cbn [mbind option_bind]; by rewrite !leb_0.
Qed.

Lemma read_proposalJson p : proposal_ok p -> readLastWorkerProposal (Some (jsonOf (proposalJson p))) = Some p.
Proof.
  destruct p as [ty t s a]. intros (Hs & Ha). cbn in Hs, Ha.
  unfold proposalJson, readLastWorkerProposal, objectOf.
  destruct s as [s|]; cbn [mbind option_bind wp_type wp_turnId wp_summary wp_at optionalField app]; jget_literal;
    cbn [mbind option_bind isOne Z.eqb Pos.eqb negb as_string];
    rewrite str_eqb_same, named_proposal, ?leb_0 by done; [|done].
  destruct Hs as [Hne Hl]. apply Nat.ltb_ge in Hl. cbn [negb mbind option_bind]. rewrite Hl.
  by destruct s.
Qed.

Lemma materialize_ok i e p : 0 <= e -> materializeThreadGoalWorkerProposal i e = Some p -> proposal_ok p.
Proof.
  destruct i as [i|]; [|done]. intros He [= <-]. split; [|done]. cbn [wp_summary].
  unfold normalizeThreadGoalWorkerProposalSummary. destruct (wi_summary i) as [s|]; cbn -[take]; [|done].
  destruct (truthy (trim s)); cbn -[take]; [|done].
  set (x := take _ _). destruct (truthy x) eqn:E; [|done]. split; [by destruct x|].
  subst x. rewrite length_take. lia.
Qed.

(** An attachment as JSON keeps it. *)
Definition attachment_ok (a : ThreadGoalAttachment) : Prop :=
  isKickoffAttachment a = true /\ wire (JObj a) = JObj a.

Lemma read_attachments l : Forall attachment_ok l -> readKickoffAttachments (jsonOf (wire (attachmentsJson l))) = l.
Proof.
  intros H. unfold attachmentsJson. change (wire (JArr (map JObj l))) with (JArr (map wire (map JObj l))).
  induction H as [|a l [Ha Hw] _ IH]; [done|]. cbn [map]. rewrite Hw.
  unfold readKickoffAttachments. cbn [omap list_omap]. rewrite Ha. f_equal. exact IH.
Qed.

(** ** What a row reads as *)
Definition readable (r : ThreadGoalDbRow) : bool :=
  truthy (goal_id r) && truthy (session_id r) && truthy (row_objective r) && truthy (row_status r).

Definition stateOf (r : ThreadGoalDbRow) : ThreadGoalState := {|
  goalId := goal_id r; sessionId := session_id r; objective := row_objective r;
  objectiveResources := readKickoffAttachments (objective_resources_json r);
  status := readStatus (row_status r); createdAt := created_at_ms r; updatedAt := updated_at_ms r;
  tokensUsed := Z.max 0 (tokens_used r); turnsUsed := Z.max 0 (turns_used r);
  timeUsedSeconds := Z.max 0 (time_used_seconds r);
  tokenBudget := positiveOrNull (option_map numZ (token_budget r));
  replyFingerprint := reply_fingerprint r; noProgressStreak := Z.max 0 (no_progress_streak r);
  noToolStreak := Z.max 0 (no_tool_streak r);
  lastVerification := readLastVerification (last_verification r);
  lastWorkerProposal := readLastWorkerProposal (last_worker_proposal r);
  statusReason := readStatusReason (status_reason r);
  kickoffAttachments := readKickoffAttachments (kickoff_attachments_json r);
  kickoffState := readKickoffState (kickoff_state r);
  executionWait :=
    if bool_decide (readStatus (row_status r) = active)
       && bool_decide (execution_wait_epoch r = Some (updated_at_ms r))
    then readExecutionWait (execution_wait_reason r) (execution_wait_since_ms r) else None |}.

Lemma row_state r : rowToThreadGoalState (Some r) = if readable r then Some (stateOf r) else None.
Proof.
  unfold rowToThreadGoalState, readable, stateOf. cbn [mbind option_bind]. rewrite !numericOrZero_Z.
  by destruct (truthy (goal_id r)), (truthy (session_id r)), (truthy (row_objective r)), (truthy (row_status r)).
Qed.

(** ** SELECT and UPDATE *)
Lemma byId_id g t r : byId g t = Some r -> goal_id r = g.
Proof. unfold byId. intros [_ H%str_eqb_eq]%find_some. done. Qed.
Lemma byId_In g t r : byId g t = Some r -> In r t.
Proof. unfold byId. by intros [H _]%find_some. Qed.
Lemma bySession_In s t r : bySession s t = Some r -> In r t /\ session_id r = s.
Proof. unfold bySession. intros [H ?%str_eqb_eq]%find_some. done. Qed.

Definition keepsKeys (f : ThreadGoalDbRow -> ThreadGoalDbRow) : Prop :=
  forall r, goal_id (f r) = goal_id r /\ session_id (f r) = session_id r.

Lemma byId_update g p f t : keepsKeys f ->
  byId g (update p f t) = option_map (fun r => if p r then f r else r) (byId g t).
Proof.
  intros Hf. unfold byId, update. induction t as [|r t IH]; [done|]. cbn.
  assert (goal_id (if p r then f r else r) = goal_id r) as -> by (destruct (p r); [apply Hf|done]).
  by destruct (str_eqb (goal_id r) g).
Qed.
Lemma bySession_update s p f t : keepsKeys f ->
  bySession s (update p f t) = option_map (fun r => if p r then f r else r) (bySession s t).
Proof.
  intros Hf. unfold bySession, update. induction t as [|r t IH]; [done|]. cbn.
  assert (session_id (if p r then f r else r) = session_id r) as -> by (destruct (p r); [apply Hf|done]).
  by destruct (str_eqb (session_id r) s).
Qed.

(** The keys are keys. *)
Definition uniq (t : Table) : Prop := NoDup (map goal_id t) /\ NoDup (map session_id t).

Lemma byId_of_In t r : uniq t -> In r t -> byId (goal_id r) t = Some r.
Proof.
  intros [H _] Hin. unfold byId. induction t as [|x t IH]; [done|]. cbn in *.
  apply NoDup_cons in H as [Hx H]. destruct (str_eqb (goal_id x) (goal_id r)) eqn:E.
  - apply str_eqb_eq in E. destruct Hin as [->|Hin]; [done|]. exfalso. apply Hx. rewrite E.
    apply list_elem_of_In. by apply in_map.
  - destruct Hin as [->|Hin]; [by rewrite str_eqb_same in E|by apply IH].
Qed.
Lemma bySession_of_In t r : uniq t -> In r t -> bySession (session_id r) t = Some r.
Proof.
  intros [_ H] Hin. unfold bySession. induction t as [|x t IH]; [done|]. cbn in *.
  apply NoDup_cons in H as [Hx H]. destruct (str_eqb (session_id x) (session_id r)) eqn:E.
  - apply str_eqb_eq in E. destruct Hin as [->|Hin]; [done|]. exfalso. apply Hx. rewrite E.
    apply list_elem_of_In. by apply in_map.
  - destruct Hin as [->|Hin]; [by rewrite str_eqb_same in E|by apply IH].
Qed.

Lemma uniq_update p f t : keepsKeys f -> uniq t -> uniq (update p f t).
Proof.
  intros Hf. unfold uniq, update. rewrite !map_map.
  rewrite (map_ext (fun x => goal_id (if p x then f x else x)) goal_id)
    by (intros r; destruct (p r); [apply Hf|done]).
  by rewrite (map_ext (fun x => session_id (if p x then f x else x)) session_id)
    by (intros r; destruct (p r); [apply Hf|done]).
Qed.
Lemma uniq_filter p t : uniq t -> uniq (List.filter p t).
Proof. intros [? ?]. split; by apply NoDup_map_filter. Qed.
Lemma uniq_insert r t t' : uniq t -> insert_row r t = Some t' -> uniq t'.
Proof.
  intros [Hg Hs]. unfold insert_row. destruct (existsb _ t) eqn:E; [done|]. intros [= <-].
  assert (forall x, In x t -> goal_id x <> goal_id r /\ session_id x <> session_id r) as Hx.
  { intros x Hin. rewrite <- not_true_iff_false, existsb_exists in E.
    split; intros He; apply E; exists x; split; try done; rewrite He, str_eqb_same; [done|apply orb_true_r]. }
  unfold uniq. rewrite !map_app. split; apply NoDup_app; (split; [done|]); (split; [|apply NoDup_singleton]);
    intros k Hk Hr; apply list_elem_of_singleton in Hr as ->; apply list_elem_of_In, in_map_iff in Hk as (x & ? & Hin);
    destruct (Hx x Hin); done.
Qed.

(** An UPDATE that changes no row. *)
Lemma update_none p f t : (changes p t =? 0)%nat = true -> update p f t = t.
Proof.
  unfold changes, update. rewrite Nat.eqb_eq. induction t as [|r t IH]; [done|]. cbn.
  destruct (p r); [done|]. intros H. by rewrite IH.
Qed.
Lemma changes_in p t r : In r t -> p r = true -> (changes p t =? 0)%nat = false.
Proof.
  intros Hin Hp. apply Nat.eqb_neq. unfold changes. intros H%length_zero_iff_nil.
  assert (In r (List.filter p t)) as Hf by (by apply filter_In). by rewrite H in Hf.
Qed.
(** No row but the one of the key meets a condition on the key. *)
Lemma changes_none p t g r : uniq t -> byId g t = Some r -> (forall x, p x = true -> goal_id x = g) ->
  (changes p t =? 0)%nat = negb (p r).
Proof.
  intros Hu Hr Hp. destruct (p r) eqn:E; cbn.
  - by apply (changes_in p t r); [eapply byId_In|].
  - apply Nat.eqb_eq. unfold changes. apply length_zero_iff_nil.
    destruct (List.filter p t) as [|x l] eqn:F; [done|]. exfalso.
    assert (In x (List.filter p t)) as [Hin Hx]%filter_In by (rewrite F; by left).
    pose proof (byId_of_In t x Hu Hin) as Hb. rewrite (Hp x Hx), Hr in Hb. congruence.
Qed.
Lemma activeAt_id g e r : activeAt g e r = true -> goal_id r = g.
Proof. unfold activeAt. intros [[H%str_eqb_eq _]%andb_true_iff _]%andb_true_iff. done. Qed.

(** ** Well-formed rows *)
Definition reasonStatus (r : ThreadGoalStatusReason) : ThreadGoalStatus :=
  match r with
  | complete_worker_proposal | complete_verifier_met | complete_user_requested => complete
  | blocked_worker_reported | blocked_safety_policy | blocked_verifier_impossible => blocked
  | budget_limited_by _ => budget_limited
  | usage_limited_provider_quota | usage_limited_rate_limit => usage_limited
  | _ => paused
  end.
Definition reasonFits (s : ThreadGoalStatus) (o : option ThreadGoalStatusReason) : Prop :=
  match o with Some r => reasonStatus r = s | None => True end.

Definition attachments_ok (t : JsonText) : Prop :=
  exists l, Forall attachment_ok l /\ t = jsonOf (wire (attachmentsJson l)).
Definition verificationText_ok (o : option JsonText) : Prop :=
  match o with
  | Some t => exists l, verification_ok l /\ t = jsonOf (verificationJson l)
  | None => True
  end.
Definition proposalText_ok (o : option JsonText) : Prop :=
  match o with
  | Some t => exists p, proposal_ok p /\ t = jsonOf (proposalJson p)
  | None => True
  end.
(** A wait is absent, or was decided at an epoch that is not in the future. *)
Definition wait_ok (r : ThreadGoalDbRow) : Prop :=
  match execution_wait_reason r, execution_wait_since_ms r, execution_wait_epoch r with
  | None, None, None => True
  | Some w, Some since, Some epoch =>
      (exists x, w = waitText x) /\ 0 <= since <= MAX_SAFE_INTEGER /\ epoch <= updated_at_ms r
  | _, _, _ => False
  end.

Record row_ok (r : ThreadGoalDbRow) : Prop := {
  ok_goal : goal_id r <> []; ok_session : session_id r <> []; ok_objective : row_objective r <> [];
  ok_decision : exists s o, row_status r = statusText s /\ status_reason r = option_map reasonText o /\ reasonFits s o;
  ok_times : 0 <= created_at_ms r <= updated_at_ms r;
  ok_usage : 0 <= tokens_used r /\ 0 <= turns_used r /\ 0 <= time_used_seconds r;
  ok_streaks : 0 <= no_progress_streak r /\ 0 <= no_tool_streak r;
  ok_budget : match token_budget r with Some b => 0 < b | None => True end;
  ok_kickoff : exists k, kickoff_state r = kickoffText k;
  ok_attachments : attachments_ok (kickoff_attachments_json r);
  ok_resources : attachments_ok (objective_resources_json r);
  ok_verification : verificationText_ok (last_verification r);
  ok_proposal : proposalText_ok (last_worker_proposal r);
  ok_wait : wait_ok r;
}.
Definition table_ok (t : Table) : Prop := uniq t /\ Forall row_ok t.

Lemma row_ok_readable r : row_ok r -> readable r = true.
Proof.
  intros H. unfold readable. destruct (ok_decision r H) as (s & o & -> & _). rewrite truthy_statusText.
  pose proof (ok_goal r H). pose proof (ok_session r H). pose proof (ok_objective r H).
  by destruct (goal_id r), (session_id r), (row_objective r).
Qed.
Lemma row_ok_state r : row_ok r -> rowToThreadGoalState (Some r) = Some (stateOf r).
Proof. intros H. by rewrite row_state, row_ok_readable. Qed.

Lemma table_ok_byId t g r : table_ok t -> byId g t = Some r -> row_ok r.
Proof. intros [_ H] Hr. rewrite List.Forall_forall in H. apply H. by eapply byId_In. Qed.
Lemma table_ok_getById t g : table_ok t -> getById g t = option_map stateOf (byId g t).
Proof.
  intros H. unfold getById. destruct (byId g t) as [r|] eqn:E; [|done].
  by apply row_ok_state; eapply table_ok_byId.
Qed.

Lemma is_status_read s r : row_ok r -> is_status s r = bool_decide (readStatus (row_status r) = s).
Proof.
  intros H. destruct (ok_decision r H) as (s' & o & E & _). unfold is_status, str_eqb. rewrite E, read_statusText.
  apply bool_decide_ext. split; [apply statusText_inj|by intros ->].
Qed.
Lemma is_status_active r : row_ok r -> is_status active r = bool_decide (status (stateOf r) = active).
Proof. apply is_status_read. Qed.

(** The stored texts of a well-formed row, from what it reads as. *)
Lemma row_decision r : row_ok r ->
  row_status r = statusText (status (stateOf r)) /\ status_reason r = option_map reasonText (statusReason (stateOf r))
  /\ reasonFits (status (stateOf r)) (statusReason (stateOf r)).
Proof.
  intros H. destruct (ok_decision r H) as (s & o & E & E' & F). cbn. rewrite E, E', read_statusText, read_reasonText.
  done.
Qed.
Lemma row_verification r : row_ok r ->
  last_verification r = option_map (fun l => jsonOf (verificationJson l)) (lastVerification (stateOf r))
  /\ from_option verification_ok True (lastVerification (stateOf r)).
Proof.
  intros H. pose proof (ok_verification r H) as Hv. cbn. destruct (last_verification r) as [t|]; [|done].
  destruct Hv as (l & Hl & ->). by rewrite read_verificationJson.
Qed.
Lemma row_proposal r : row_ok r ->
  last_worker_proposal r = option_map (fun p => jsonOf (proposalJson p)) (lastWorkerProposal (stateOf r))
  /\ from_option proposal_ok True (lastWorkerProposal (stateOf r)).
Proof.
  intros H. pose proof (ok_proposal r H) as Hv. cbn. destruct (last_worker_proposal r) as [t|]; [|done].
  destruct Hv as (p & Hp & ->). by rewrite read_proposalJson.
Qed.
Lemma row_resources r : row_ok r -> Forall attachment_ok (objectiveResources (stateOf r)).
Proof. intros H. destruct (ok_resources r H) as (l & Hl & E). cbn. by rewrite E, read_attachments. Qed.
Lemma row_budget r : row_ok r -> tokenBudget (stateOf r) = token_budget r.
Proof.
  intros H. pose proof (ok_budget r H) as Hb. cbn. destruct (token_budget r) as [b|]; [|done].
  cbn [option_map]. rewrite positiveOrNull_Z. apply Z.ltb_lt in Hb. by rewrite Hb.
Qed.

(** ** Operations and what their callers keep to

    [input_ok] is what the types of the inputs and the callers of the store give:
    identifiers and objectives are not empty, a reason is one of the status it
    comes with, a budget does not round down to zero, the clock is not negative. *)
Inductive GoalOp :=
  | op_create (now : Z) (genId : jstr) (input : ThreadGoalCreateInput)
  | op_patch (now : Z) (g : jstr) (input : ThreadGoalPatchInput)
  | op_pauseActive (now : Z) (session : jstr) (reason : ThreadGoalStatusReason)
  | op_transition (now : Z) (g : jstr) (epoch : Z) (next : Next)
  | op_resetBreaker (now : Z) (g : jstr) (epoch : Z)
  | op_bump (now : Z) (binding : GoalTurnBinding) (delta : ThreadGoalBoundUsageDelta) (limits : ThreadGoalBudgetLimits)
  | op_settle (now : Z) (input : ThreadGoalSettleBoundTurnInput)
  | op_breaker (now : Z) (g : jstr) (input : ThreadGoalBreakerInput)
  | op_verify (now : Z) (input : ThreadGoalRecordVerificationInput)
  | op_delete (g : jstr)
  | op_kickoff (g : jstr) (expected next : ThreadGoalKickoffState)
  | op_setWait (now : Z) (g : jstr) (epoch : Z) (reason : ThreadGoalWaitReason)
  | op_clearWait (g : jstr) (epoch : Z).

Definition budget_ok (b : option jsnum) : Prop := positiveOrNull b <> Some 0.
Definition next_ok (n : Next) : Prop := reasonStatus (n_statusReason n) = n_status n /\ n_status n <> active.

Definition input_ok (op : GoalOp) : Prop :=
  match op with
  | op_create now g i =>
      0 <= now /\ g <> [] /\ ci_sessionId i <> [] /\ ci_objective i <> [] /\ budget_ok (ci_tokenBudget i)
      /\ Forall attachment_ok (default [] (ci_kickoffAttachments i))
      /\ Forall attachment_ok (default [] (ci_objectiveResources i))
  | op_patch now g i =>
      pi_objective i <> Some [] /\ from_option budget_ok True (pi_tokenBudget i)
      /\ Forall attachment_ok (default [] (pi_objectiveResources i))
      /\ match pi_statusReason i with Some (Some r) => pi_status i = Some (reasonStatus r) | _ => True end
  | op_pauseActive now s reason => reasonStatus reason = paused
  | op_transition now g e n => next_ok n
  | op_settle now i => next_ok (si_next i)
  | op_breaker now g i => from_option (fun r => reasonStatus r = paused) True (pauseReason i)
  | op_verify now i => 0 <= lv_at (vi_result i) /\ from_option next_ok True (vi_decision i)
  | op_setWait now g e r => 0 <= now <= MAX_SAFE_INTEGER
  | _ => True
  end.

Section Steps.
Context (sha256 : jstr -> jstr).

Definition apply (op : GoalOp) (t : Table) : Table :=
  match op with
  | op_create now g i => (create now g i t).2
  | op_patch now g i => (patch now g i t).2
  | op_pauseActive now s r => (pauseActiveBySession now s r t).2
  | op_transition now g e n => (transitionActiveAtEpoch now g e n t).2
  | op_resetBreaker now g e => (resetBreakerAtEpoch now g e t).2
  | op_bump now b d l => (bumpThreadGoalBoundUsage sha256 now b d l t).2
  | op_settle now i => (settleThreadGoalBoundTurn sha256 now i t).2
  | op_breaker now g i => (updateThreadGoalBreaker now g i t).2
  | op_verify now i => (recordThreadGoalVerification sha256 now i t).2
  | op_delete g => delete g t
  | op_kickoff g e n => (transitionKickoffState g e n t).2
  | op_setWait now g e r => (setThreadGoalExecutionWait now g e r t).2
  | op_clearWait g e => (clearThreadGoalExecutionWait g e t).2
  end.

Definition run (ops : list GoalOp) (t : Table) : Table := fold_left (fun t op => apply op t) ops t.

(** ** The step of a row *)

(** The writes that compare the epoch, and the epoch they compare. *)
Definition comparedEpoch (op : GoalOp) : option (jstr * Z) :=
  match op with
  | op_transition _ g e _ | op_resetBreaker _ g e | op_setWait _ g e _ | op_clearWait g e => Some (g, e)
  | op_settle _ i => Some (si_goalId i, expectedEpoch (si_expected i))
  | op_breaker _ g i => Some (g, bi_expectedEpoch i)
  | op_verify _ i => Some (vi_goalId i, expectedEpoch (vi_expected i))
  | _ => None
  end.
(** A decision of the host, or the user's stop. *)
Definition decides (op : GoalOp) : bool :=
  match op with
  | op_pauseActive _ _ _ | op_transition _ _ _ _ | op_resetBreaker _ _ _ | op_settle _ _
  | op_breaker _ _ _ | op_verify _ _ => true
  | _ => false
  end.
Definition meets (op : GoalOp) (r : ThreadGoalDbRow) : Prop :=
  match comparedEpoch op with
  | Some (g, e) => goal_id r = g /\ updated_at_ms r = e
  | None => True
  end.

Inductive RowStep : GoalOp -> ThreadGoalDbRow -> ThreadGoalDbRow -> Prop :=
  | step_decided op r st reason e fp np nt lv wp :
      decides op = true -> meets op r -> is_status active r = true -> updated_at_ms r < e ->
      reasonFits st reason -> 0 <= np -> 0 <= nt -> verificationText_ok lv -> proposalText_ok wp ->
      RowStep op r (set_reports lv wp (set_breaker fp np nt
                      (set_decision (statusText st) (option_map reasonText reason) e r)))
  | step_charged now b d l r st reason e :
      goal_id r = bd_goalId b ->
      ((st = status (stateOf r) /\ reason = statusReason (stateOf r) /\ updated_at_ms r <= e)
       \/ (is_status active r = true /\ st = budget_limited /\ updated_at_ms r < e
           /\ exists dim, reason = Some (budget_limited_by dim))) ->
      RowStep (op_bump now b d l) r
        (set_usage (tokens_used r + numericOrZero (d_tokens d)) (turns_used r + if d_mainTurns d then 1 else 0)
           (time_used_seconds r + numericOrZero (d_activeSeconds d))
           (set_decision (statusText st) (option_map reasonText reason) e r))
  | step_patched now g i r :
      goal_id r = g -> patchCheck (Some r) (stateOf r) g i = None ->
      RowStep (op_patch now g i) r (patchRow (patchPlan now (stateOf r) i) r)
  | step_kickoff g e n r :
      goal_id r = g -> kickoff_state r = kickoffText e ->
      RowStep (op_kickoff g e n) r (set_kickoff (kickoffText n) r)
  | step_wait op r reason since epoch :
      match op with op_setWait _ _ _ _ | op_clearWait _ _ => True | _ => False end ->
      meets op r -> is_status active r = true -> wait_ok (set_wait reason since epoch r) ->
      RowStep op r (set_wait reason since epoch r).
End Steps.

Ltac row_fields :=
  cbn [set_decision set_usage set_breaker set_reports set_terms set_kickoff set_wait patchRow
       goal_id session_id row_objective row_status created_at_ms updated_at_ms tokens_used time_used_seconds
       token_budget kickoff_attachments_json objective_resources_json kickoff_state turns_used reply_fingerprint
       no_progress_streak no_tool_streak last_verification last_worker_proposal status_reason
       execution_wait_reason execution_wait_since_ms execution_wait_epoch].

Lemma wait_ok_later r r' : wait_ok r -> updated_at_ms r <= updated_at_ms r' ->
  execution_wait_reason r' = execution_wait_reason r -> execution_wait_since_ms r' = execution_wait_since_ms r ->
  execution_wait_epoch r' = execution_wait_epoch r -> wait_ok r'.
Proof.
  intros H Hle E1 E2 E3. unfold wait_ok in *. rewrite E1, E2, E3. repeat case_goal; try done.
  destruct H as (? & ? & ?). split; [done|]. split; [done|lia].
Qed.

(** What a patch stores is well formed. *)
Lemma patchRow_ok now g i r : row_ok r -> input_ok (op_patch now g i) ->
  patchCheck (Some r) (stateOf r) g i = None -> row_ok (patchRow (patchPlan now (stateOf r) i) r).
Proof.
  intros H (Ho & Hb & Hres & Hr) _. destruct (row_decision r H) as (Es & Er & Hf).
  destruct (row_verification r H) as [Ev Hv], (row_proposal r H) as [Ep Hp].
  pose proof (row_resources r H) as Hres'. pose proof (row_budget r H) as Eb. destruct H.
  split; row_fields; try done.
  - cbn [patchPlan nextObjective]. destruct (pi_objective i) as [o|]; [|done]. intros E. change (o = []) in E. by subst.
  - exists (nextStatus (patchPlan now (stateOf r) i)), (nextStatusReason (patchPlan now (stateOf r) i)).
    split; [done|]. split; [done|]. cbn [patchPlan nextStatus nextStatusReason].
    destruct (pi_statusReason i) as [[x|]|]; [by rewrite Hr|done|].
    destruct (pi_status i) as [s|]; [|done]. case_bool_decide as E; [|done]. by rewrite E.
  - cbn [patchPlan p_now updatedAt stateOf]. lia.
  - cbn [patchPlan nextNoProgressStreak nextNoToolStreak]. repeat case_goal; cbn; lia.
  - cbn [patchPlan nextTokenBudget]. destruct (pi_tokenBudget i) as [b|]; [|by rewrite Eb].
    cbn [from_option] in Hb. destruct (positiveOrNull b) as [z|] eqn:E; [|done].
    pose proof (positiveOrNull_pos b z E). destruct (Z.eq_dec z 0) as [->|]; [by destruct Hb|lia].
  - eexists. split; [|done]. cbn [patchPlan nextResources]. destruct (pi_objectiveResources i); [exact Hres|exact Hres'].
  - cbn [patchPlan nextLastVerification].
    match goal with |- context [if ?b then None else _] => destruct b end; [done|]. destruct (lastVerification (stateOf r)); [|done].
    by eexists.
  - cbn [patchPlan nextLastWorkerProposal].
    match goal with |- context [if ?b then None else _] => destruct b end; [done|]. destruct (lastWorkerProposal (stateOf r)); [|done].
    by eexists.
  - eapply wait_ok_later; [done| |done..]. cbn. lia.
Qed.

Lemma RowStep_ok op r r' : RowStep op r r' -> input_ok op -> row_ok r -> row_ok r'.
Proof.
  intros Hstep Hi H. pose proof H as Hrow. destruct (row_decision r H) as (Es & Er & Hf).
  destruct Hstep; [| |by eapply patchRow_ok| |].
  - destruct H. split; row_fields; try done; [by exists st, reason|lia|].
    eapply wait_ok_later; [done| |done..]. row_fields. lia.
  - pose proof (numericOrZero_pos (d_tokens d)). pose proof (numericOrZero_pos (d_activeSeconds d)).
    assert (updated_at_ms r <= e /\ reasonFits st reason) as [Hle Hfit]
      by (destruct H1 as [(-> & -> & ?)|(? & -> & ? & dim & ->)]; split; [done|done|lia|done]).
    destruct H. split; row_fields; try done; [by exists st, reason|lia|case_goal; lia|].
    eapply wait_ok_later; [done| |done..]. done.
  - destruct H. split; row_fields; try done. by exists n.
  - destruct H. by split; row_fields.
Qed.

(** ** Every operation takes rows by [RowStep] *)
Definition steps (op : GoalOp) (t t' : Table) : Prop :=
  Forall2 (fun r r' => r' = r \/ RowStep op r r') t t'.

Lemma snd_if {A B} (b : bool) (x y : A) (t : B) : (if b then (x, t) else (y, t)).2 = t.
Proof. by destruct b. Qed.

Section Refinement.
Context (sha256 : jstr -> jstr).
Lemma steps_refl op t : steps op t t.
Proof. unfold steps. induction t; constructor; [by left|done]. Qed.
Lemma steps_update op p f t : (forall r, In r t -> p r = true -> RowStep op r (f r)) -> steps op t (update p f t).
Proof.
  unfold steps, update. induction t as [|r t IH]; intros H; constructor.
  - destruct (p r) eqn:E; [right; apply H; [by left|done]|by left].
  - apply IH. intros x Hin. apply H. by right.
Qed.

Lemma activeAt_facts g e r : activeAt g e r = true -> goal_id r = g /\ updated_at_ms r = e /\ is_status active r = true.
Proof. unfold activeAt. rewrite !andb_true_iff, str_eqb_eq, Z.eqb_eq. tauto. Qed.

Lemma bound_row t g e r r0 : table_ok t -> byId g t = Some r0 -> In r t -> activeAt g e r = true -> r = r0.
Proof.
  intros [Hu _] H0 Hin [<- _]%activeAt_facts. rewrite (byId_of_In t r Hu Hin) in H0. by injection H0.
Qed.
Lemma In_ok t r : table_ok t -> In r t -> row_ok r.
Proof. intros [_ H] Hin. rewrite List.Forall_forall in H. by apply H. Qed.

Lemma same_reports r : row_ok r -> verificationText_ok (last_verification r) /\ proposalText_ok (last_worker_proposal r)
  /\ 0 <= no_progress_streak r /\ 0 <= no_tool_streak r.
Proof. intros []. tauto. Qed.

(** A write that only decides keeps the breaker and the reports of the row. *)
Lemma decision_step op r st reason e : row_ok r -> decides op = true -> meets op r -> is_status active r = true ->
  updated_at_ms r < e -> reasonFits st reason ->
  RowStep op r (set_decision (statusText st) (option_map reasonText reason) e r).
Proof.
  intros Hr ? ? ? ? ?. destruct (same_reports r Hr) as (? & ? & ? & ?).
  change (set_decision (statusText st) (option_map reasonText reason) e r) with
    (set_reports (last_verification r) (last_worker_proposal r)
       (set_breaker (reply_fingerprint r) (no_progress_streak r) (no_tool_streak r)
         (set_decision (statusText st) (option_map reasonText reason) e r))).
  by apply step_decided.
Qed.
Lemma report_step op r st reason e lv wp : row_ok r -> decides op = true -> meets op r -> is_status active r = true ->
  updated_at_ms r < e -> reasonFits st reason -> verificationText_ok lv -> proposalText_ok wp ->
  RowStep op r (set_reports lv wp (set_decision (statusText st) (option_map reasonText reason) e r)).
Proof.
  intros Hr ? ? ? ? ? ? ?. destruct (same_reports r Hr) as (? & ? & ? & ?).
  change (set_reports lv wp (set_decision (statusText st) (option_map reasonText reason) e r)) with
    (set_reports lv wp (set_breaker (reply_fingerprint r) (no_progress_streak r) (no_tool_streak r)
         (set_decision (statusText st) (option_map reasonText reason) e r))).
  by apply step_decided.
Qed.
Lemma breaker_step op r st reason e fp np nt : row_ok r -> decides op = true -> meets op r -> is_status active r = true ->
  updated_at_ms r < e -> reasonFits st reason -> 0 <= np -> 0 <= nt ->
  RowStep op r (set_breaker fp np nt (set_decision (statusText st) (option_map reasonText reason) e r)).
Proof.
  intros Hr ? ? ? ? ? ? ?. destruct (same_reports r Hr) as (? & ? & ? & ?).
  change (set_breaker fp np nt (set_decision (statusText st) (option_map reasonText reason) e r)) with
    (set_reports (last_verification r) (last_worker_proposal r) (set_breaker fp np nt
         (set_decision (statusText st) (option_map reasonText reason) e r))).
  by apply step_decided.
Qed.
Lemma proposalText_materialize r i e : row_ok r -> 0 <= e ->
  proposalText_ok match materializeThreadGoalWorkerProposal i e with
                  | Some p => Some (jsonOf (proposalJson p)) | None => last_worker_proposal r end.
Proof.
  intros H He. destruct (materializeThreadGoalWorkerProposal i e) as [p|] eqn:E; [|apply H].
  exists p. split; [|done]. by eapply materialize_ok.
Qed.

Lemma pauseActive_steps now s reason t : table_ok t -> input_ok (op_pauseActive now s reason) ->
  steps (op_pauseActive now s reason) t (apply sha256 (op_pauseActive now s reason) t).
Proof.
  intros Ht Hi. cbn [apply]. unfold pauseActiveBySession.
  rewrite snd_if.
  apply steps_update. intros r Hin [_ Ha]%andb_true_iff.
  apply (decision_step _ r paused (Some reason)); try done; [by eapply In_ok|lia].
Qed.

Lemma transition_steps now g e n t : table_ok t -> input_ok (op_transition now g e n) ->
  steps (op_transition now g e n) t (apply sha256 (op_transition now g e n) t).
Proof.
  intros Ht [Hi _]. cbn [apply]. unfold transitionActiveAtEpoch.
  rewrite snd_if.
  apply steps_update. intros r Hin (? & ? & ?)%activeAt_facts.
  apply (decision_step _ r (n_status n) (Some (n_statusReason n))); try done; [by eapply In_ok|lia].
Qed.

Lemma reset_steps now g e t : table_ok t -> steps (op_resetBreaker now g e) t (apply sha256 (op_resetBreaker now g e) t).
Proof.
  intros Ht. cbn [apply]. unfold resetBreakerAtEpoch.
  rewrite snd_if.
  apply steps_update. intros r Hin (? & ? & ?)%activeAt_facts. pose proof (In_ok t r Ht Hin) as Hr.
  destruct (row_decision r Hr) as (-> & -> & ?). apply breaker_step; try done; lia.
Qed.

Lemma kickoff_steps g e n t : table_ok t -> steps (op_kickoff g e n) t (apply sha256 (op_kickoff g e n) t).
Proof.
  intros Ht. cbn [apply]. unfold transitionKickoffState. rewrite snd_if.
  apply steps_update. intros r Hin [?%str_eqb_eq ?%str_eqb_eq]%andb_true_iff. by apply step_kickoff.
Qed.

Lemma setWait_steps now g e w t : table_ok t -> input_ok (op_setWait now g e w) ->
  steps (op_setWait now g e w) t (apply sha256 (op_setWait now g e w) t).
Proof.
  intros Ht Hi. cbn [apply]. unfold setThreadGoalExecutionWait.
  destruct (byId g t) as [r0|] eqn:E0; [|apply steps_refl].
  destruct (negb _); [apply steps_refl|]. destruct (_ && _); [apply steps_refl|]. rewrite snd_if.
  apply steps_update. intros r Hin (? & ? & ?)%activeAt_facts. apply step_wait; try done.
  unfold wait_ok. row_fields. split; [by exists w|]. split; [done|lia].
Qed.
Lemma clearWait_steps g e t : table_ok t -> steps (op_clearWait g e) t (apply sha256 (op_clearWait g e) t).
Proof.
  intros Ht. cbn [apply]. unfold clearThreadGoalExecutionWait.
  destruct (byId g t) as [r0|] eqn:E0; [|apply steps_refl].
  destruct (negb _); [apply steps_refl|]. destruct (negb _); [apply steps_refl|]. rewrite snd_if.
  apply steps_update. intros r Hin (? & ? & ?)%activeAt_facts. by apply step_wait.
Qed.

Lemma patch_steps now g i t : table_ok t -> steps (op_patch now g i) t (apply sha256 (op_patch now g i) t).
Proof.
  intros Ht. cbn [apply]. unfold patch, patchThreadGoal. rewrite table_ok_getById by done.
  destruct (byId g t) as [r0|] eqn:E0; [|apply steps_refl]. cbn [option_map].
  destruct (patchCheck _ _ _ _) eqn:Ec; [apply steps_refl|].
  match goal with |- context [if ?b then _ else _] => replace ((if b then _ else _).2) with
    (update (patchWhere g i) (patchRow (patchPlan now (stateOf r0) i)) t) by (by destruct b) end.
  apply steps_update. intros r Hin Hw.
  assert (goal_id r = g) as Hg by (unfold patchWhere in Hw; rewrite !andb_true_iff, str_eqb_eq in Hw; tauto).
  destruct Ht as [Hu _]. pose proof (byId_of_In t r Hu Hin) as Hb. rewrite Hg, E0 in Hb. injection Hb as ->.
  by apply step_patched.
Qed.

Lemma bump_steps now b d l t : table_ok t -> steps (op_bump now b d l) t (apply sha256 (op_bump now b d l) t).
Proof.
  intros Ht. cbn [apply]. unfold bumpThreadGoalBoundUsage. rewrite table_ok_getById by done.
  destruct (byId (bd_goalId b) t) as [r0|] eqn:E0; [|apply steps_refl]. cbn [option_map].
  destruct (_ && _ && _); [apply steps_refl|]. cbn [snd]. apply steps_update. intros r Hin Hg%str_eqb_eq.
  destruct Ht as [Hu Hok]. pose proof (byId_of_In t r Hu Hin) as Hb. rewrite Hg, E0 in Hb. injection Hb as ->.
  pose proof (In_ok t r (conj Hu Hok) Hin) as Hr. pose proof (ok_usage r Hr) as (Hu1 & Hu2 & Hu3).
  cbn [stateOf tokensUsed turnsUsed timeUsedSeconds]. rewrite !Z.max_r by done. apply step_charged; [done|].
  fold (stateOf r). rewrite <- is_status_active by done. destruct (is_status active r) eqn:Ea.
  - destruct (firstExceededBudget _ _ _ _) as [dim|].
    + right. destruct (bool_decide_reflect (status (stateOf r) = budget_limited)) as [Eb|];
        [rewrite is_status_active, Eb in Ea by done; done|]. destruct (classifyThreadGoalAccountingStale _ _ _);
        cbn [orb]; (split; [done|]); (split; [done|]); (split; [cbn; lia|]); by exists dim.
    + left. repeat (split; [done|]).
      match goal with |- context [if ?b then _ else _] => destruct b end; cbn; lia.
  - left. repeat (split; [done|]).
    match goal with |- context [if ?b then _ else _] => destruct b end; cbn; lia.
Qed.

Lemma settle_steps now i t : table_ok t -> input_ok (op_settle now i) ->
  steps (op_settle now i) t (apply sha256 (op_settle now i) t).
Proof.
  intros Ht [Hf Hna]. cbn [apply]. unfold settleThreadGoalBoundTurn. rewrite table_ok_getById by done.
  destruct (byId (si_goalId i) t) as [r0|] eqn:E0; [|apply steps_refl]. cbn [option_map].
  destruct (threadGoalStaleDecision _ _ _); [apply steps_refl|]. rewrite snd_if.
  apply steps_update. intros r Hin Ha. pose proof (activeAt_facts _ _ _ Ha) as (? & ? & ?).
  pose proof (In_ok t r Ht Hin) as Hr. pose proof (ok_times r Hr).
  apply (report_step _ r (n_status (si_next i)) (Some (n_statusReason (si_next i)))); try done; [lia|apply Hr|].
  apply proposalText_materialize; [done|lia].
Qed.

Lemma normalize_ok previous result : from_option verification_ok True previous -> 0 <= lv_at result ->
  (forall x, sha256 x <> []) -> verification_ok (normalizeVerificationResult sha256 previous result).
Proof.
  intros Hp Ha Hs. unfold normalizeVerificationResult.
  destruct (negb _); unfold verification_ok; cbn [missingFingerprint notMetStreak lv_at]; [done|].
  split; [by intros [= E%Hs]|]. split; [|done]. destruct previous as [p|]; [|done].
  destruct Hp as (_ & Hn & _). case_goal; lia.
Qed.

(** The epoch is moved by a decision; a verdict that decides nothing keeps the status. *)
Lemma verificationDecision_fits lv i s o : from_option next_ok True (vi_decision i) -> reasonFits s o ->
  reasonFits match verificationDecision lv i with Some d => n_status d | None => s end
             match verificationDecision lv i with Some d => Some (n_statusReason d) | None => o end.
Proof.
  intros Hd Hf. unfold verificationDecision. destruct (_ && _); [done|].
  destruct (vi_decision i); [by apply Hd|done].
Qed.

Lemma verify_steps now i t : (forall x, sha256 x <> []) -> table_ok t -> input_ok (op_verify now i) ->
  steps (op_verify now i) t (apply sha256 (op_verify now i) t).
Proof.
  intros Hs Ht [Hat Hd]. cbn [apply]. unfold recordThreadGoalVerification. rewrite table_ok_getById by done.
  destruct (byId (vi_goalId i) t) as [r0|] eqn:E0; [|apply steps_refl]. cbn [option_map].
  destruct (threadGoalStaleDecision _ _ _); [apply steps_refl|]. rewrite snd_if.
  apply steps_update. intros r Hin Ha. pose proof (activeAt_facts _ _ _ Ha) as (? & ? & ?).
  rewrite <- (bound_row t _ _ r r0 Ht E0 Hin Ha). pose proof (In_ok t r Ht Hin) as Hr. pose proof (ok_times r Hr).
  apply (report_step _ r _ _); try done; [lia|..].
  - apply verificationDecision_fits; [done|apply row_decision, Hr].
  - eexists. split; [|done]. apply normalize_ok; [apply row_verification, Hr|done..].
  - apply proposalText_materialize; [done|lia].
Qed.

Lemma observe_streaks s i : 0 <= noProgressStreak s -> 0 <= noToolStreak s ->
  0 <= o_replyStreak (observe s i) /\ 0 <= o_noToolStreak (observe s i).
Proof. intros. unfold observe. cbn. split; repeat case_goal; lia. Qed.

Lemma breaker_steps now g i t : table_ok t -> input_ok (op_breaker now g i) ->
  steps (op_breaker now g i) t (apply sha256 (op_breaker now g i) t).
Proof.
  intros Ht Hi. cbn [apply]. unfold updateThreadGoalBreaker. rewrite table_ok_getById by done.
  destruct (byId g t) as [r0|] eqn:E0; [|apply steps_refl]. cbn [option_map].
  match goal with |- context [if ?b then _ else _] => destruct b end.
  { repeat match goal with |- context [if ?b then _ else _] => destruct b end; apply steps_refl. }
  match goal with |- steps _ _ (snd (if ?b then match getById g ?t' with _ => _ end else _)) =>
    assert (forall x, (if b then match getById g t' with
       | None => (br_stale missing_goal None, t')
       | Some c => if negb (updatedAt c =? bi_expectedEpoch i) then (br_stale goal_epoch (Some c), t')
                   else (br_stale goal_status (Some c), t') end else (x, t')).2 = t') as E
      by (intros; destruct b; [destruct (getById g t'); [by case_goal|done]|done]) end.
  rewrite E. clear E. apply steps_update. intros r Hin Ha. pose proof (activeAt_facts _ _ _ Ha) as (? & ? & ?).
  rewrite <- (bound_row t _ _ r r0 Ht E0 Hin Ha). pose proof (In_ok t r Ht Hin) as Hr.
  destruct (observe_streaks (stateOf r) i) as [? ?]; [cbn; lia..|].
  apply breaker_step; try done; [cbn; lia|]. destruct (same_action _ _); [|apply row_decision, Hr].
  cbn in Hi. by destruct (pauseReason i).
Qed.
End Refinement.

(** ** Every operation, over a whole table *)
Definition inserts (op : GoalOp) : bool := match op with op_create _ _ _ => true | _ => false end.
Definition removes (op : GoalOp) : bool := match op with op_create _ _ _ | op_delete _ => true | _ => false end.

Section Tables.
Context (sha256 : jstr -> jstr).
Hypothesis sha256_text : forall x, sha256 x <> [].

Lemma apply_steps op t : removes op = false -> table_ok t -> input_ok op -> steps op t (apply sha256 op t).
Proof.
  intros Hop Ht Hi. destruct op; try done.
  - by apply patch_steps.
  - by apply pauseActive_steps.
  - by apply transition_steps.
  - by apply reset_steps.
  - by apply bump_steps.
  - by apply settle_steps.
  - by apply breaker_steps.
  - by apply verify_steps.
  - by apply kickoff_steps.
  - by apply setWait_steps.
  - by apply clearWait_steps.
Qed.

Lemma RowStep_keys op r r' : RowStep op r r' ->
  goal_id r' = goal_id r /\ session_id r' = session_id r /\ created_at_ms r' = created_at_ms r.
Proof. by destruct 1. Qed.

Lemma steps_ok op t t' : steps op t t' -> input_ok op -> table_ok t -> table_ok t'.
Proof.
  intros Hs Hi [Hu Hok]. split.
  - unfold uniq in *. assert (map goal_id t' = map goal_id t /\ map session_id t' = map session_id t) as [-> ->]; [|done].
    clear Hu Hok. induction Hs as [|r r' l l' Hr _ [IH1 IH2]]; [done|]. cbn. rewrite IH1, IH2.
    destruct Hr as [->|Hr]; [done|]. by destruct (RowStep_keys _ _ _ Hr) as (-> & -> & _).
  - clear Hu. induction Hs as [|r r' l l' Hr _ IH]; [done|]. apply Forall_cons in Hok as [Hrow Hok].
    constructor; [|by apply IH]. destruct Hr as [->|Hr]; [done|]. by eapply RowStep_ok.
Qed.

Lemma createdRow_ok now g i : input_ok (op_create now g i) -> row_ok (createdRow now g i).
Proof.
  intros (Hn & Hg & Hs & Ho & Hb & Hk & Hr). split; cbn; try done; try lia.
  - by exists active, None.
  - destruct (positiveOrNull (ci_tokenBudget i)) as [z|] eqn:E; [|done]. pose proof (positiveOrNull_pos _ _ E).
    destruct (Z.eq_dec z 0) as [->|]; [by destruct Hb|lia].
  - by exists pending.
  - by exists (default [] (ci_kickoffAttachments i)).
  - by exists (default [] (ci_objectiveResources i)).
Qed.

Lemma filter_ok p t : table_ok t -> table_ok (List.filter p t).
Proof.
  intros [Hu Hok]. split; [by apply uniq_filter|]. rewrite List.Forall_forall in *. intros r [Hr _]%filter_In. by apply Hok.
Qed.

Lemma insert_ok now g i t t' : table_ok t -> input_ok (op_create now g i) ->
  insert_row (createdRow now g i) t = Some t' -> table_ok t' /\ t' = t ++ [createdRow now g i].
Proof.
  intros [Hu Hok] Hi Hins. split; [split; [by eapply uniq_insert|]|];
    unfold insert_row in Hins; destruct (existsb _ t); try done; injection Hins as <-; [|done].
  apply Forall_app. split; [done|]. constructor; [by apply createdRow_ok|done].
Qed.

Lemma apply_ok op t : table_ok t -> input_ok op -> table_ok (apply sha256 op t).
Proof.
  intros Ht Hi. destruct (removes op) eqn:Er; [|by eapply steps_ok; [apply apply_steps|..]].
  destruct op; try done; cbn [apply]; [|by apply filter_ok].
  unfold create. destruct (bySession _ _) as [r|]; [destruct (negb (is_status _ _)); [done|]|].
  - destruct (insert_row _ _) eqn:E; [|done]. eapply insert_ok; [|done..]. by apply filter_ok.
  - destruct (insert_row _ _) eqn:E; [|done]. by eapply insert_ok.
Qed.

Lemma run_table_ok ops t : table_ok t -> Forall input_ok ops -> table_ok (run sha256 ops t).
Proof.
  revert t. induction ops as [|op ops IH]; [done|]. intros t Ht [Hi Hops]%Forall_cons.
  unfold run. cbn. apply IH; [by apply apply_ok|done].
Qed.

(** *** The goal of one identifier *)
Definition mints (g : jstr) (op : GoalOp) : bool := match op with op_create _ g' _ => str_eqb g' g | _ => false end.

Lemma byId_filter g p t r : uniq t -> byId g (List.filter p t) = Some r -> byId g t = Some r.
Proof.
  intros Hu H. pose proof (byId_In _ _ _ H) as [Hin _]%filter_In. rewrite <- (byId_id _ _ _ H). by apply byId_of_In.
Qed.
Lemma byId_steps g op t t' : steps op t t' -> forall r', byId g t' = Some r' ->
  exists r, byId g t = Some r /\ (r' = r \/ RowStep op r r').
Proof.
  induction 1 as [|r r' l l' Hr _ IH]; intros x Hx; [done|]. unfold byId in *. cbn in *.
  assert (goal_id r' = goal_id r) as E by (destruct Hr as [->|Hr]; [done|by apply RowStep_keys in Hr as (? & _)]).
  rewrite E in Hx. destruct (str_eqb (goal_id r) g); [|by apply IH]. injection Hx as <-. by exists r.
Qed.

(** A goal that is there after an operation that did not create it was there
    before, and its row is the same or took a step. *)
Lemma goal_steps op t g r' : table_ok t -> input_ok op -> mints g op = false -> byId g (apply sha256 op t) = Some r' ->
  exists r, byId g t = Some r /\ row_ok r /\ row_ok r' /\ (r' = r \/ RowStep op r r').
Proof.
  intros Ht Hi Hm Hr'. pose proof (table_ok_byId _ _ _ (apply_ok op t Ht Hi) Hr') as Hok'.
  assert (exists r, byId g t = Some r /\ (r' = r \/ RowStep op r r')) as (r & Hr & Hs).
  2: { exists r. split; [done|]. split; [by eapply table_ok_byId|done]. }
  destruct (removes op) eqn:Er; [|by eapply byId_steps; [apply apply_steps|]].
  exists r'. split; [|by left]. destruct op; try done; cbn [apply] in Hr'; [|by eapply byId_filter; [apply Ht|]].
  unfold create in Hr'. cbn in Hm.
  assert (forall t0 t', insert_row (createdRow now genId input) t0 = Some t' -> byId g t' = Some r' -> byId g t0 = Some r')
    as Hins.
  { intros t0 t' E H. unfold insert_row in E. destruct (existsb _ t0); [done|]. injection E as <-.
    clear -H Hm. unfold byId in *. induction t0 as [|x t0 IH]; cbn in *; [by rewrite Hm in H|].
    destruct (str_eqb (goal_id x) g); [done|by apply IH]. }
  destruct (bySession _ _) as [x|]; [destruct (negb (is_status _ _)); [done|]|];
    (destruct (insert_row _ _) as [t'|] eqn:E; [|done]); pose proof (Hins _ _ E Hr') as H; [|done].
  by eapply byId_filter; [apply Ht|].
Qed.

(** A relation between the states of a goal that every step respects holds over
    a whole run. *)
Lemma run_relation (R : list GoalOp -> ThreadGoalState -> ThreadGoalState -> Prop) g :
  (forall s, R [] s s) ->
  (forall op ops a b c, R [op] a b -> R ops b c -> R (op :: ops) a c) ->
  (forall op t r r', table_ok t -> input_ok op -> byId g t = Some r -> byId g (apply sha256 op t) = Some r' ->
     row_ok r -> row_ok r' -> (r' = r \/ RowStep op r r') -> R [op] (stateOf r) (stateOf r')) ->
  forall ops t s', table_ok t -> Forall input_ok ops -> Forall (fun op => mints g op = false) ops ->
  getById g (run sha256 ops t) = Some s' -> exists s, getById g t = Some s /\ R ops s s'.
Proof.
  intros Hrefl Htrans Hstep ops. induction ops as [|op ops IH]; intros t s' Ht Hi Hm Hs'; [by exists s'|].
  apply Forall_cons in Hi as [Hi Hops]. apply Forall_cons in Hm as [Hm Hms].
  destruct (IH (apply sha256 op t) s' (apply_ok op t Ht Hi) Hops Hms Hs') as (b & Hb & Hbc).
  rewrite table_ok_getById in Hb by (by apply apply_ok). destruct (byId g (apply sha256 op t)) as [r'|] eqn:Er; [|done].
  injection Hb as <-. destruct (goal_steps op t g r' Ht Hi Hm Er) as (r & Hr & Hok & Hok' & Hst).
  exists (stateOf r). rewrite table_ok_getById, Hr by done. split; [done|]. eapply Htrans; [|done].
  by eapply Hstep.
Qed.
End Tables.

(** ** Reading what was written *)
Lemma state_decision r st reason e : row_ok r -> updated_at_ms r < e ->
  stateOf (set_decision (statusText st) (option_map reasonText reason) e r) = st_decision st reason e None (stateOf r).
Proof.
  intros Hr He. unfold stateOf, st_decision. row_fields. rewrite read_statusText, read_reasonText. f_equal.
  pose proof (ok_wait r Hr) as Hw. unfold wait_ok in Hw.
  case_bool_decide as E1; case_bool_decide as E2; cbn [andb]; try done.
  rewrite E2 in Hw. repeat (case_hyp Hw; try done). lia.
Qed.
Lemma state_redecided r : row_ok r ->
  stateOf (set_decision (statusText (status (stateOf r))) (option_map reasonText (statusReason (stateOf r)))
             (updated_at_ms r) r) = stateOf r.
Proof. intros Hr. destruct (row_decision r Hr) as (<- & <- & _). done. Qed.
Lemma state_usage r a b c : 0 <= a -> 0 <= b -> 0 <= c ->
  stateOf (set_usage a b c r) = st_usage a b c (stateOf r).
Proof. intros. unfold stateOf, st_usage. row_fields. by rewrite (Z.max_r 0 a), (Z.max_r 0 b), (Z.max_r 0 c) by done. Qed.
Lemma state_breaker r f a b : 0 <= a -> 0 <= b -> stateOf (set_breaker f a b r) = st_breaker f a b (stateOf r).
Proof. intros. unfold stateOf, st_breaker. row_fields. by rewrite (Z.max_r 0 a), (Z.max_r 0 b) by done. Qed.
Lemma state_reports r lv wp :
  stateOf (set_reports lv wp r) = st_reports (readLastVerification lv) (readLastWorkerProposal wp) (stateOf r).
Proof. done. Qed.

Lemma state_patched now g i r : row_ok r -> input_ok (op_patch now g i) ->
  stateOf (patchRow (patchPlan now (stateOf r) i) r) = patchState (patchPlan now (stateOf r) i).
Proof.
  intros Hr Hi. pose proof Hi as (Ho & Hb & Hres & _). set (p := patchPlan now (stateOf r) i).
  assert (updated_at_ms r < p_now p) as Hlt by (cbn; lia).
  assert (0 <= nextNoProgressStreak p /\ 0 <= nextNoToolStreak p) as [Hn1 Hn2].
  { subst p. cbn [patchPlan nextNoProgressStreak nextNoToolStreak].
    split; match goal with |- context [if ?b then _ else _] => destruct b end; cbn; lia. }
  unfold patchRow.
  assert (forall o b j x, stateOf (set_terms o b j x) = {|
    goalId := goal_id x; sessionId := session_id x; objective := o; objectiveResources := readKickoffAttachments j;
    status := status (stateOf x); createdAt := createdAt (stateOf x); updatedAt := updatedAt (stateOf x);
    tokensUsed := tokensUsed (stateOf x); turnsUsed := turnsUsed (stateOf x);
    timeUsedSeconds := timeUsedSeconds (stateOf x); tokenBudget := positiveOrNull (option_map numZ b);
    replyFingerprint := replyFingerprint (stateOf x); noProgressStreak := noProgressStreak (stateOf x);
    noToolStreak := noToolStreak (stateOf x); lastVerification := lastVerification (stateOf x);
    lastWorkerProposal := lastWorkerProposal (stateOf x); statusReason := statusReason (stateOf x);
    kickoffAttachments := kickoffAttachments (stateOf x); kickoffState := kickoffState (stateOf x);
    executionWait := executionWait (stateOf x) |}) as -> by done.
  rewrite state_breaker, state_reports, state_decision by done. row_fields. unfold patchState.
  cbn [st_breaker st_reports st_decision status createdAt updatedAt tokensUsed turnsUsed timeUsedSeconds
       replyFingerprint noProgressStreak noToolStreak lastVerification lastWorkerProposal statusReason
       kickoffAttachments kickoffState executionWait]. f_equal.
  - rewrite read_attachments; [done|]. subst p. cbn [patchPlan nextResources].
    destruct (pi_objectiveResources i); [exact Hres|by apply row_resources].
  - subst p. cbn [patchPlan nextTokenBudget]. destruct (pi_tokenBudget i) as [b|].
    + cbn [from_option] in Hb. destruct (positiveOrNull b) as [z|] eqn:E; [|done]. cbn [option_map].
      pose proof (positiveOrNull_pos b z E). rewrite positiveOrNull_Z. unfold budget_ok in Hb.
      destruct (Z.ltb_spec 0 z); [done|]. assert (z = 0) as -> by lia. by destruct Hb.
    + rewrite (row_budget r Hr). by rewrite <- (row_budget r Hr) at 2.
  - subst p. cbn [patchPlan nextLastVerification].
    match goal with |- context [if ?b then None else _] => destruct b end; [done|].
    destruct (row_verification r Hr) as [_ Hv]. destruct (lastVerification (stateOf r)); [|done].
    by apply read_verificationJson.
  - subst p. cbn [patchPlan nextLastWorkerProposal].
    match goal with |- context [if ?b then None else _] => destruct b end; [done|].
    destruct (row_proposal r Hr) as [_ Hv]. destruct (lastWorkerProposal (stateOf r)); [|done].
    by apply read_proposalJson.
Qed.

Lemma state_created now g i : input_ok (op_create now g i) -> stateOf (createdRow now g i) = createdState now g i.
Proof.
  intros (Hn & Hg & Hs & Ho & Hb & Hk & Hr). unfold stateOf, createdRow, createdState. row_fields.
  rewrite !read_attachments, read_statusText by done. f_equal.
  destruct (positiveOrNull (ci_tokenBudget i)) as [z|] eqn:E; [|done]. cbn [option_map].
  pose proof (positiveOrNull_pos _ _ E). rewrite positiveOrNull_Z. unfold budget_ok in Hb.
  destruct (Z.ltb_spec 0 z); [done|]. assert (z = 0) as -> by lia. by destruct Hb.
Qed.

(** The row an UPDATE by key leaves, when the row there was met its condition. *)
Lemma getById_written t g p f r s : table_ok (update p f t) -> keepsKeys f -> byId g t = Some r -> p r = true ->
  stateOf (f r) = s -> getById g (update p f t) = Some s.
Proof.
  intros Ht Hf Hr Hp <-. rewrite table_ok_getById, byId_update, Hr by done. cbn. by rewrite Hp.
Qed.

(** Whether a goal is active at an epoch, as its WHERE clause decides. *)
Lemma activeAt_changes t g e : table_ok t ->
  (changes (activeAt g e) t =? 0)%nat
  = negb match getById g t with Some s => (updatedAt s =? e) && bool_decide (status s = active) | None => false end.
Proof.
  intros Ht. rewrite table_ok_getById by done. destruct (byId g t) as [r|] eqn:E; cbn [option_map].
  - rewrite (changes_none _ t g r (proj1 Ht) E (fun x => activeAt_id g e x)). f_equal.
    unfold activeAt. rewrite (byId_id _ _ _ E), str_eqb_same, is_status_active by (by eapply table_ok_byId). done.
  - apply Nat.eqb_eq. unfold changes. apply length_zero_iff_nil.
    destruct (List.filter (activeAt g e) t) as [|x l] eqn:F; [done|]. exfalso.
    assert (In x (List.filter (activeAt g e) t)) as [Hin Hx]%filter_In by (rewrite F; by left).
    pose proof (byId_of_In t x (proj1 Ht) Hin) as Hb. rewrite (activeAt_id _ _ _ Hx), E in Hb. done.
Qed.
