(* ===== verification/GoalSpec.v ===== *)
(** * Thread goals: what the store promises

    The contract of [store-port.ts] and of the comments of [store-*.ts]: rows stay
    well formed and readable, the decision epoch names one decision, a decision
    against another epoch changes nothing, only the user reopens a goal, usage is
    never lost, the goal an answer carries is the goal a reader sees.  The last
    part shows two ways the code differs from what its comments say. *)
From S2P Require Import Prelude JsValue GoalModel GoalStore GoalLaws.
From S2P Require RgFingerprint CtxTokens.
#[local] Open Scope Z_scope.

Lemma table_ok_nil : table_ok [].
Proof. split; [split; constructor|constructor]. Qed.

(** ** A session with work on it, for the witnesses *)
Module Sample.
Definition digest (x : jstr) : jstr := ch "#" :: x.
Definition input : ThreadGoalCreateInput := {|
  ci_sessionId := js "s1"; ci_objective := js "ship it"; ci_tokenBudget := Some (numZ 100);
  ci_kickoffAttachments := None; ci_objectiveResources := None |}.
Definition binding (e : Z) : GoalTurnBinding := {|
  bd_goalId := js "g1"; admittedGoalUpdatedAt := e; bd_objectiveDigest := digest (js "ship it"); bd_turnId := js "t1" |}.
Definition expects (e : Z) : ThreadGoalBindingExpectation := {|
  expectedEpoch := e; objectiveDigest := digest (js "ship it") |}.
Definition delta (n : Z) : ThreadGoalBoundUsageDelta := {|
  d_tokens := numZ n; d_activeSeconds := numZ 5; d_mainTurns := true |}.
Definition limits : ThreadGoalBudgetLimits := {|
  l_tokens := Some (numZ 100); l_mainTurns := Some (numZ 9); l_activeSeconds := None |}.
Definition blockedBy : ThreadGoalSettleBoundTurnInput := {|
  si_goalId := js "g1"; si_expected := expects 11;
  si_next := {| n_status := blocked; n_statusReason := blocked_worker_reported |};
  si_workerProposal := Some {| wi_type := proposal_blocked; wi_turnId := js "t1"; wi_summary := Some (js " no key ") |} |}.
Definition patch0 : ThreadGoalPatchInput := {|
  pi_status := None; pi_objective := None; pi_objectiveResources := None; pi_tokenBudget := None;
  pi_statusReason := None; rejectIfCurrentStatus := None; rejectIfObjectiveChangedFrom := None;
  rejectIfUpdatedAtChangedFrom := None |}.
Definition patchStatus (s : ThreadGoalStatus) : ThreadGoalPatchInput := {|
  pi_status := Some s; pi_objective := None; pi_objectiveResources := None; pi_tokenBudget := None;
  pi_statusReason := None; rejectIfCurrentStatus := None; rejectIfObjectiveChangedFrom := None;
  rejectIfUpdatedAtChangedFrom := None |}.
(** A goal is created, waits, is charged, is blocked by its worker and resumed. *)
Definition ops : list GoalOp :=
  [op_create 10 (js "g1") input; op_setWait 12 (js "g1") 10 plan; op_bump 11 (binding 10) (delta 30) limits;
   op_settle 11 blockedBy; op_patch 11 (js "g1") (patchStatus active)].
Definition table : Table := run digest ops [].

Lemma ops_ok : Forall input_ok ops.
Proof. repeat constructor; cbn; try done; try lia. Defined.
Lemma digest_text : forall x, digest x <> [].
Proof. done. Qed.
Lemma table_is_ok : table_ok table.
Proof. apply run_table_ok; [done|apply table_ok_nil|apply ops_ok]. Qed.
End Sample.

(** C35: Starting from the empty table, after any sequence of operations with inputs
    as their types and callers give them, goal and session identifiers are unique (a
    session has at most one goal), every row is well formed (a known status with a
    reason of that status, ordered times, counters that are not negative, a positive
    budget or none, readable JSON columns, no wait decided at a later epoch), and both
    lookups read every row back as a goal.  The inputs ([input_ok]): a goal is created
    at a time that is not negative, with identifiers and an objective that are not
    empty; a patch does not make the objective empty; a verification and a wait are
    dated like a clock; a budget is no positive number below one; attachments are
    readable; a reason comes with the status it belongs to; and what a run ends in is
    not the active status.  Nothing is asked of counters, of epochs, or of the time of
    any other operation; digests are taken not to be empty. *)
Theorem rows_stay_well_formed sha256 ops (t := run sha256 ops []) :
  (forall x, sha256 x <> []) -> Forall input_ok ops ->
  table_ok t
  /\ (forall r, In r t -> getById (goal_id r) t = Some (stateOf r) /\ getBySession (session_id r) t = Some (stateOf r))
  /\ (forall g s, getById g t = Some s -> reasonFits (status s) (statusReason s) /\ createdAt s <= updatedAt s).
Proof.
  intros Hs Hi. assert (table_ok t) as Ht by (by apply run_table_ok; [|apply table_ok_nil|]). split; [done|]. split.
  - intros r Hin. pose proof (In_ok t r Ht Hin) as Hr. destruct Ht as [Hu _]. unfold getById, getBySession.
    by rewrite byId_of_In, bySession_of_In, row_ok_state.
  - intros g s. rewrite table_ok_getById by done. destruct (byId g t) as [r|] eqn:E; [|done]. intros [= <-].
    pose proof (table_ok_byId t g r Ht E) as Hr. split; [by apply row_decision|apply (ok_times r Hr)].
Qed.

Theorem rows_stay_well_formed_witness :
  table_ok (run Sample.digest Sample.ops []) /\ length (run Sample.digest Sample.ops []) = 1%nat.
Proof.
  split; [|vm_compute; reflexivity].
  apply (rows_stay_well_formed Sample.digest Sample.ops); [intros; discriminate|apply Sample.ops_ok].
Defined.

(** ** The decision epoch *)

(** Everything of a goal that a decision writes. *)
Definition decisionPart (s : ThreadGoalState) :=
  (objective s, objectiveResources s, status s, statusReason s, tokenBudget s,
   (replyFingerprint s, noProgressStreak s, noToolStreak s), lastVerification s, lastWorkerProposal s).
Definition identityPart (s : ThreadGoalState) := (goalId s, sessionId s, createdAt s, kickoffAttachments s).

Definition epochOrder (a b : ThreadGoalState) : Prop :=
  identityPart a = identityPart b /\ updatedAt a <= updatedAt b /\ (updatedAt a = updatedAt b -> decisionPart a = decisionPart b).

Lemma epochOrder_trans a b c : epochOrder a b -> epochOrder b c -> epochOrder a c.
Proof.
  intros (Ha & Hab & Ea) (Hb & Hbc & Eb). split; [congruence|]. split; [lia|]. intros E.
  rewrite Ea, Eb by lia. done.
Qed.

Lemma step_epochOrder op r r' : row_ok r -> r' = r \/ RowStep op r r' -> epochOrder (stateOf r) (stateOf r').
Proof.
  intros Hr [->|Hs]; [done|]. destruct Hs; try (split; [done|]; cbn [stateOf updatedAt]; row_fields; split; [lia|lia]).
  - destruct (row_decision r Hr) as (Es & Er & _). split; [done|]. destruct H0 as [(-> & -> & ?)|(_ & -> & ? & _)].
    + split; [cbn; lia|]. intros _. rewrite <- Es, <- Er. done.
    + cbn [stateOf updatedAt]; row_fields; split; lia.
  - split; [done|]. cbn [stateOf updatedAt patchPlan p_now patchRow]. row_fields. cbn. split; lia.
  - done.
  - done.
Qed.

(** C27: Over any operations that do not create the goal anew, its epoch
    ([updatedAt]) never goes back, its identity never changes, and whenever two
    readings of it carry the same epoch they carry the same decision: objective
    and resources, status and reason, budget, breaker, verification and proposal.
    Comparing the epoch is therefore comparing the decision. *)
Theorem an_epoch_names_one_decision sha256 g t ops s' :
  (forall x, sha256 x <> []) -> table_ok t -> Forall input_ok ops -> Forall (fun op => mints g op = false) ops ->
  getById g (run sha256 ops t) = Some s' ->
  exists s, getById g t = Some s /\ identityPart s = identityPart s' /\ updatedAt s <= updatedAt s'
            /\ (updatedAt s = updatedAt s' -> decisionPart s = decisionPart s').
Proof.
  intros Hs Ht Hi Hm Hg.
  destruct (run_relation sha256 Hs (fun _ => epochOrder) g) with (ops := ops) (t := t) (s' := s') as (s & ? & ?);
    try done; [| |by exists s].
  - intros _ _ a b c. apply epochOrder_trans.
  - intros op t0 r r' _ _ _ _ Hr _. by apply step_epochOrder.
Qed.

Theorem an_epoch_names_one_decision_witness : exists s,
  getById (js "g1") (run Sample.digest (take 1 Sample.ops) []) = Some s /\ updatedAt s <= 13.
Proof.
  destruct (an_epoch_names_one_decision Sample.digest (js "g1") (run Sample.digest (take 1 Sample.ops) [])
              (drop 1 Sample.ops) (default (createdState 0 [] Sample.input) (getById (js "g1") Sample.table)))
    as (s & H & _ & Hle & _).
  - intros; discriminate.
  - apply run_table_ok; [intros; discriminate|apply table_ok_nil|apply List.Forall_forall; intros op Hin;
      pose proof Sample.ops_ok as Hok; rewrite List.Forall_forall in Hok; apply Hok; by destruct Hin as [<-|[]]; left].
  - pose proof Sample.ops_ok as H. by apply Forall_cons in H as [_ H].
  - repeat constructor.
  - vm_compute. reflexivity.
  - exists s. split; [exact H|]. vm_compute in Hle. exact Hle.
Defined.

(** ** Answers *)

(** The goal the answer of an operation carries, a refusal's included. *)
Definition answered (sha256 : jstr -> jstr) (op : GoalOp) (t : Table) : option ThreadGoalState :=
  match op with
  | op_create now g i => match (create now g i t).1 with inr s => Some s | inl _ => None end
  | op_patch now g i => match (patch now g i t).1 with inr s => Some s | inl _ => None end
  | op_pauseActive now s r => (pauseActiveBySession now s r t).1
  | op_transition now g e n => (transitionActiveAtEpoch now g e n t).1
  | op_resetBreaker now g e => (resetBreakerAtEpoch now g e t).1
  | op_bump now b d l => match (bumpThreadGoalBoundUsage sha256 now b d l t).1 with
                         | usage_charged s _ _ _ => Some s | usage_missing => None end
  | op_settle now i => match (settleThreadGoalBoundTurn sha256 now i t).1 with
                       | settled s _ => Some s | stale _ o => o end
  | op_breaker now g i => match (updateThreadGoalBreaker now g i t).1 with
                          | br_decided _ s _ _ => Some s | br_stale _ o => o end
  | op_verify now i => match (recordThreadGoalVerification sha256 now i t).1 with
                       | settled s _ => Some s | stale _ o => o end
  | op_delete _ => None
  | op_kickoff g e n => (transitionKickoffState g e n t).1
  | op_setWait now g e r => (setThreadGoalExecutionWait now g e r t).1
  | op_clearWait g e => (clearThreadGoalExecutionWait g e t).1
  end.

Lemma getById_id g t s : getById g t = Some s -> goalId s = g.
Proof.
  unfold getById. destruct (byId g t) as [r|] eqn:E; [|done]. rewrite row_state.
  destruct (readable r); [|done]. intros [= <-]. exact (byId_id _ _ _ E).
Qed.
Lemma getBySession_getById x t s : table_ok t -> getBySession x t = Some s -> getById (goalId s) t = Some s.
Proof.
  intros Ht. unfold getBySession. destruct (bySession x t) as [r|] eqn:E; [|done].
  apply bySession_In in E as [Hin _]. pose proof (In_ok t r Ht Hin) as Hr.
  rewrite row_ok_state by done. intros [= <-]. cbn [stateOf goalId]. unfold getById.
  rewrite byId_of_In by (done || apply Ht). by apply row_ok_state.
Qed.
Lemma threadGoalStaleDecision_goal sha256 state e why o : threadGoalStaleDecision sha256 state e = Some (stale why o) -> o = state.
Proof. unfold threadGoalStaleDecision. destruct (classifyThreadGoalBindingStale _ _ _); cbn; congruence. Qed.

(** A binding that is not stale names the active goal at its epoch. *)
Lemma not_stale sha256 s e : threadGoalStaleDecision sha256 (Some s) e = None ->
  updatedAt s = expectedEpoch e /\ sha256 (objective s) = objectiveDigest e /\ status s = active.
Proof.
  unfold threadGoalStaleDecision, classifyThreadGoalBindingStale, classifyThreadGoalAccountingStale, digestThreadGoalObjective.
  destruct (updatedAt s =? expectedEpoch e) eqn:E1; cbn [negb]; [|done].
  destruct (str_eqb _ _) eqn:E2; cbn [negb]; [|done]. case_bool_decide; [|done]. intros _.
  apply Z.eqb_eq in E1. apply str_eqb_eq in E2. done.
Qed.
Lemma not_stale_changes t g e s : table_ok t -> getById g t = Some s -> updatedAt s = e -> status s = active ->
  (changes (activeAt g e) t =? 0)%nat = false.
Proof. intros Ht Hs He Ha. rewrite activeAt_changes, Hs, He, Z.eqb_refl, Ha by done. done. Qed.

Section Answers.
Context (sha256 : jstr -> jstr) (sha256_text : forall x, sha256 x <> []).

(** The answers that read the row back. *)
Lemma answered_reread g (b : bool) t' s : (if b then (@None ThreadGoalState, t') else (getById g t', t')).1 = Some s ->
  getById (goalId s) t' = Some s.
Proof. destruct b; [done|]. cbn. intros H. by rewrite (getById_id _ _ _ H). Qed.

Lemma answered_create now g i t s : table_ok t -> input_ok (op_create now g i) ->
  answered sha256 (op_create now g i) t = Some s -> getById (goalId s) (apply sha256 (op_create now g i) t) = Some s.
Proof.
  intros Ht Hi H. pose proof (apply_ok sha256 sha256_text (op_create now g i) t Ht Hi) as Hok.
  cbn [answered apply] in *. unfold create in *.
  assert (forall t0 t', insert_row (createdRow now g i) t0 = Some t' -> table_ok t' ->
            getById (goalId (createdState now g i)) t' = Some (createdState now g i)) as Hins.
  { intros t0 t' E [Hu Hrows]. rewrite table_ok_getById by done. cbn [goalId createdState].
    change g with (goal_id (createdRow now g i)) at 1. rewrite byId_of_In; [cbn [option_map]; f_equal; by apply state_created|done|].
    unfold insert_row in E. destruct (existsb _ t0); [done|]. injection E as <-. apply in_or_app. right. by left. }
  destruct (bySession _ _) as [x|]; [destruct (negb (is_status _ _)); [done|]|];
    (destruct (insert_row _ _) as [t'|] eqn:E; [|done]); injection H as <-; by eapply Hins.
Qed.

Lemma answered_patch now g i t s : table_ok t -> input_ok (op_patch now g i) ->
  answered sha256 (op_patch now g i) t = Some s -> getById (goalId s) (apply sha256 (op_patch now g i) t) = Some s.
Proof.
  intros Ht Hi H. pose proof (apply_ok sha256 sha256_text (op_patch now g i) t Ht Hi) as Hok.
  cbn [answered apply] in *. unfold patch, patchThreadGoal in *.
  rewrite (table_ok_getById t g Ht) in H, Hok |- *. destruct (byId g t) as [r|] eqn:E; [|done]. cbn [option_map] in *.
  destruct (patchCheck _ _ _ _) eqn:Ec; [done|].
  assert (patchWhere g i r = true) as Hw.
  { unfold patchCheck in Ec. unfold patchWhere. rewrite (byId_id _ _ _ E), str_eqb_same. cbn [andb].
    pose proof (table_ok_byId t g r Ht E) as Hr.
    destruct (bool_decide (Some (status (stateOf r)) = rejectIfCurrentStatus i)) eqn:E1; [done|].
    destruct (match rejectIfObjectiveChangedFrom i with Some o => _ | None => _ end) eqn:E2; [done|].
    destruct (match rejectIfUpdatedAtChangedFrom i with Some e => _ | None => _ end) eqn:E3; [done|].
    apply bool_decide_eq_false in E1.
    rewrite !andb_true_iff. split; [split|].
    - destruct (rejectIfCurrentStatus i) as [x|]; [|done]. rewrite is_status_read by done.
      apply negb_true_iff, bool_decide_eq_false. intros Ex. apply E1. f_equal. exact Ex.
    - destruct (rejectIfObjectiveChangedFrom i); [by apply negb_false_iff in E2|done].
    - destruct (rejectIfUpdatedAtChangedFrom i); [by apply negb_false_iff in E3|done]. }
  pose proof (changes_in _ t r (byId_In _ _ _ E) Hw) as Hc. rewrite Hc, andb_false_r in *. injection H as <-.
  cbn [snd] in *. change (goalId (patchState (patchPlan now (stateOf r) i))) with (goal_id r).
  rewrite (byId_id _ _ _ E). eapply getById_written; [done|done|done|done|].
  apply (state_patched now g); [exact (table_ok_byId t g r Ht E)|exact Hi].
Qed.

Lemma answered_bump now b d l t s : table_ok t -> answered sha256 (op_bump now b d l) t = Some s ->
  getById (goalId s) (apply sha256 (op_bump now b d l) t) = Some s.
Proof.
  intros Ht H. pose proof (apply_ok sha256 sha256_text (op_bump now b d l) t Ht I) as Hok.
  cbn [answered apply] in *. unfold bumpThreadGoalBoundUsage in *. set (g := bd_goalId b) in *.
  rewrite (table_ok_getById t g Ht) in H, Hok |- *. destruct (byId g t) as [r|] eqn:E; [|done]. cbn [option_map] in *.
  pose proof (table_ok_byId t g r Ht E) as Hr. pose proof (byId_id _ _ _ E) as Hg.
  destruct (_ && _ && _).
  { injection H as <-. cbn [snd stateOf goalId]. rewrite Hg, table_ok_getById, E by done. done. }
  remember (if bool_decide (status (stateOf r) = active) then _ else _) as dim eqn:Ed in *.
  remember (bool_decide (status (stateOf r) = budget_limited) || _) as keeps eqn:Ek in *.
  injection H as <-. cbn [snd] in *. cbn [st_usage st_decision goalId]. change (goalId (stateOf r)) with (goal_id r).
  rewrite Hg. pose proof (numericOrZero_pos (d_tokens d)). pose proof (numericOrZero_pos (d_activeSeconds d)).
  eapply getById_written; [done|done|done|by rewrite Hg, str_eqb_same|].
  rewrite state_usage by (cbn [stateOf tokensUsed turnsUsed timeUsedSeconds]; case_goal || idtac; lia).
  destruct keeps; [|f_equal; apply state_decision; [done|cbn [stateOf updatedAt]; lia]].
  destruct dim as [dim|].
  - exfalso. destruct (bool_decide_reflect (status (stateOf r) = active)) as [Ea|]; [|done]. rewrite Ea in Ek.
    by destruct (classifyThreadGoalAccountingStale _ _ _).
  - change (updatedAt (stateOf r)) with (updated_at_ms r). by rewrite (state_redecided r Hr).
Qed.

Lemma answered_settle now i t s : table_ok t -> input_ok (op_settle now i) -> answered sha256 (op_settle now i) t = Some s ->
  getById (goalId s) (apply sha256 (op_settle now i) t) = Some s.
Proof.
  intros Ht Hi H. pose proof (apply_ok sha256 sha256_text (op_settle now i) t Ht Hi) as Hok.
  cbn [answered apply] in *. unfold settleThreadGoalBoundTurn in *. set (g := si_goalId i) in *.
  rewrite (table_ok_getById t g Ht) in H, Hok |- *. destruct (byId g t) as [r|] eqn:E; [|done]. cbn [option_map] in *.
  pose proof (table_ok_byId t g r Ht E) as Hr. pose proof (byId_id _ _ _ E) as Hg.
  assert (getById g t = Some (stateOf r)) as Hs by (by rewrite table_ok_getById, E).
  destruct (threadGoalStaleDecision _ _ _) as [[|why o]|] eqn:Es.
  { unfold threadGoalStaleDecision in Es. by destruct (classifyThreadGoalBindingStale _ _ _). }
  { apply threadGoalStaleDecision_goal in Es as ->. injection H as <-. cbn [stateOf goalId snd]. by rewrite Hg. }
  apply not_stale in Es as (Ee & _ & Ha). rewrite (not_stale_changes t g _ _ Ht Hs Ee Ha) in *.
  cbn [fst snd] in *. injection H as <-. cbn [st_reports st_decision goalId stateOf]. rewrite Hg.
  pose proof (ok_times r Hr). cbn [stateOf updatedAt] in Ee.
  eapply getById_written; [done|done|done| |].
  { unfold activeAt. rewrite Hg, str_eqb_same, is_status_active, Ha by done. cbn. by rewrite Ee, Z.eqb_refl. }
  change (Some (reasonText ?x)) with (option_map reasonText (Some x)).
  rewrite state_reports, state_decision by (done || lia). f_equal.
  destruct (materializeThreadGoalWorkerProposal _ _) as [p|] eqn:Em; [|done].
  apply read_proposalJson. eapply materialize_ok; [|done]. lia.
Qed.

Lemma answered_verify now i t s : table_ok t -> input_ok (op_verify now i) -> answered sha256 (op_verify now i) t = Some s ->
  getById (goalId s) (apply sha256 (op_verify now i) t) = Some s.
Proof.
  intros Ht Hi H. pose proof (apply_ok sha256 sha256_text (op_verify now i) t Ht Hi) as Hok.
  cbn [answered apply] in *. unfold recordThreadGoalVerification in *. set (g := vi_goalId i) in *.
  rewrite (table_ok_getById t g Ht) in H, Hok |- *. destruct (byId g t) as [r|] eqn:E; [|done]. cbn [option_map] in *.
  pose proof (table_ok_byId t g r Ht E) as Hr. pose proof (byId_id _ _ _ E) as Hg.
  assert (getById g t = Some (stateOf r)) as Hs by (by rewrite table_ok_getById, E).
  destruct (threadGoalStaleDecision _ _ _) as [[|why o]|] eqn:Es.
  { unfold threadGoalStaleDecision in Es. by destruct (classifyThreadGoalBindingStale _ _ _). }
  { apply threadGoalStaleDecision_goal in Es as ->. injection H as <-. cbn [stateOf goalId snd]. by rewrite Hg. }
  apply not_stale in Es as (Ee & _ & Ha). rewrite (not_stale_changes t g _ _ Ht Hs Ee Ha) in *.
  cbn [fst snd] in *. injection H as <-. cbn [st_reports st_decision goalId stateOf]. rewrite Hg.
  pose proof (ok_times r Hr). cbn [stateOf updatedAt] in Ee.
  eapply getById_written; [done|done|done| |].
  { unfold activeAt. rewrite Hg, str_eqb_same, is_status_active, Ha by done. cbn. by rewrite Ee, Z.eqb_refl. }
  rewrite state_reports, state_decision by (done || lia). f_equal.
  - apply read_verificationJson, normalize_ok; [|by destruct Hi|done].
    by destruct (row_verification r Hr).
  - destruct (materializeThreadGoalWorkerProposal _ _) as [p|] eqn:Em; [|done].
    apply read_proposalJson. eapply materialize_ok; [|done]. lia.
Qed.

Lemma answered_breaker now g i t s : table_ok t -> input_ok (op_breaker now g i) ->
  answered sha256 (op_breaker now g i) t = Some s -> getById (goalId s) (apply sha256 (op_breaker now g i) t) = Some s.
Proof.
  intros Ht Hi H. pose proof (apply_ok sha256 sha256_text (op_breaker now g i) t Ht Hi) as Hok.
  cbn [answered apply] in *. unfold updateThreadGoalBreaker in *.
  rewrite (table_ok_getById t g Ht) in H, Hok |- *. destruct (byId g t) as [r|] eqn:E; [|done]. cbn [option_map] in *.
  pose proof (table_ok_byId t g r Ht E) as Hr. pose proof (byId_id _ _ _ E) as Hg.
  assert (getById g t = Some (stateOf r)) as Hs by (by rewrite table_ok_getById, E).
  match goal with |- context [if ?b then _ else _] => destruct b eqn:Eu end.
  { repeat match goal with H : context [if ?b then _ else _] |- _ => destruct b end;
      injection H as <-; cbn [stateOf goalId snd]; by rewrite Hg. }
  destruct (changes _ t =? 0)%nat eqn:Ec.
  { rewrite update_none in * by done. rewrite Hs in *.
    repeat match goal with H : context [if ?b then _ else _] |- _ => destruct b end;
      injection H as <-; cbn [stateOf goalId snd]; by rewrite Hg. }
  cbn [fst snd] in *. injection H as <-. cbn [st_breaker st_decision goalId stateOf]. rewrite Hg.
  rewrite activeAt_changes, Hs in Ec by done. apply negb_false_iff, andb_true_iff in Ec as [Ee Ha].
  destruct (observe_streaks (stateOf r) i) as [? ?]; [cbn; lia..|].
  eapply getById_written; [done|done|done| |].
  { unfold activeAt. rewrite Hg, str_eqb_same, is_status_active, Ha by done. by rewrite andb_true_r. }
  rewrite state_breaker, state_decision by (done || (cbn [stateOf updatedAt]; lia)). done.
Qed.
End Answers.

(** The goal an answer carries (the new goal of a write that was applied, the
    current goal of a write that was refused) is the goal the next reader gets:
    what the store publishes as an event agrees with what [getById] answers,
    field by field, the execution wait included. *)
Theorem answers_are_the_rows sha256 op t s :
  (forall x, sha256 x <> []) -> table_ok t -> input_ok op -> answered sha256 op t = Some s ->
  getById (goalId s) (apply sha256 op t) = Some s.
Proof.
  intros Hsha Ht Hi H. pose proof (apply_ok sha256 Hsha op t Ht Hi) as Hok. destruct op.
  - by eapply answered_create.
  - by eapply answered_patch.
  - cbn [answered apply] in *. unfold pauseActiveBySession in *. destruct (_ =? 0)%nat; [done|].
    by eapply getBySession_getById.
  - cbn [answered apply] in *. unfold transitionActiveAtEpoch in *. rewrite snd_if. by eapply answered_reread.
  - cbn [answered apply] in *. unfold resetBreakerAtEpoch in *. rewrite snd_if. by eapply answered_reread.
  - by apply answered_bump.
  - by apply answered_settle.
  - by apply answered_breaker.
  - by apply answered_verify.
  - done.
  - cbn [answered apply] in *. unfold transitionKickoffState in *. rewrite snd_if. by eapply answered_reread.
  - cbn [answered apply] in *. unfold setThreadGoalExecutionWait in *. destruct (byId g t); [|done].
    destruct (negb _); [done|]. destruct (_ && _); [done|]. rewrite snd_if. by eapply answered_reread.
  - cbn [answered apply] in *. unfold clearThreadGoalExecutionWait in *. destruct (byId g t); [|done].
    destruct (negb _); [done|]. destruct (negb _); [done|]. rewrite snd_if. by eapply answered_reread.
Qed.

Theorem answers_are_the_rows_witness : exists s,
  getById (goalId s) (apply Sample.digest (op_patch 11 (js "g1") (Sample.patchStatus paused)) Sample.table) = Some s
  /\ (goalId s, status s) = (js "g1", paused).
Proof.
  exists (default (createdState 0 [] Sample.input)
    (answered Sample.digest (op_patch 11 (js "g1") (Sample.patchStatus paused)) Sample.table)).
  split; [|vm_compute; reflexivity].
  refine (answers_are_the_rows Sample.digest (op_patch 11 (js "g1") (Sample.patchStatus paused)) Sample.table
            (default (createdState 0 [] Sample.input) _) _ _ _ _).
  - intros; discriminate.
  - apply Sample.table_is_ok.
  - cbn. repeat split; try done.
  - vm_compute. reflexivity.
Defined.

(** ** Stale writes *)

(** Whether a write that compares the epoch is still bound to the goal: the goal
    exists, at that epoch, is active, and a Turn's decision names its objective. *)
Definition bound (sha256 : jstr -> jstr) (op : GoalOp) (t : Table) : Prop :=
  match comparedEpoch op with
  | Some (g, e) => exists s, getById g t = Some s /\ updatedAt s = e /\ status s = active
      /\ match op with
         | op_settle _ i => sha256 (objective s) = objectiveDigest (si_expected i)
         | op_verify _ i => sha256 (objective s) = objectiveDigest (vi_expected i)
         | _ => True
         end
  | None => True
  end.

(** Why it is not, the first reason in the order of the checks. *)
Definition whyStale (sha256 : jstr -> jstr) (o : option ThreadGoalState) (epoch : Z) (digest : option jstr) : StaleReason :=
  match o with
  | None => missing_goal
  | Some s => if bool_decide (updatedAt s <> epoch) then goal_epoch
              else if bool_decide (digest <> None /\ digest <> Some (sha256 (objective s))) then objective_digest
              else goal_status
  end.

(** The refusal each method gives. *)
Definition refusal (sha256 : jstr -> jstr) (op : GoalOp) (t : Table) : Prop :=
  match op with
  | op_transition now g e n => (transitionActiveAtEpoch now g e n t).1 = None
  | op_resetBreaker now g e => (resetBreakerAtEpoch now g e t).1 = None
  | op_setWait now g e r => (setThreadGoalExecutionWait now g e r t).1 = None
  | op_clearWait g e => (clearThreadGoalExecutionWait g e t).1 = None
  | op_settle now i => (settleThreadGoalBoundTurn sha256 now i t).1
      = stale (whyStale sha256 (getById (si_goalId i) t) (expectedEpoch (si_expected i)) (Some (objectiveDigest (si_expected i))))
              (getById (si_goalId i) t)
  | op_verify now i => (recordThreadGoalVerification sha256 now i t).1
      = stale (whyStale sha256 (getById (vi_goalId i) t) (expectedEpoch (vi_expected i)) (Some (objectiveDigest (vi_expected i))))
              (getById (vi_goalId i) t)
  | op_breaker now g i => (updateThreadGoalBreaker now g i t).1
      = br_stale (whyStale sha256 (getById g t) (bi_expectedEpoch i) None) (getById g t)
  | _ => True
  end.

Lemma staleDecision_spec sha256 s e :
  (updatedAt s = expectedEpoch e /\ status s = active /\ sha256 (objective s) = objectiveDigest e)
  \/ threadGoalStaleDecision sha256 (Some s) e
     = Some (stale (whyStale sha256 (Some s) (expectedEpoch e) (Some (objectiveDigest e))) (Some s)).
Proof.
  unfold threadGoalStaleDecision, classifyThreadGoalBindingStale, classifyThreadGoalAccountingStale, whyStale,
    digestThreadGoalObjective.
  destruct (updatedAt s =? expectedEpoch e) eqn:E1; cbn [negb].
  - apply Z.eqb_eq in E1. rewrite (bool_decide_eq_false_2 (updatedAt s <> expectedEpoch e)) by (intros H; by apply H).
    destruct (str_eqb _ _) eqn:E2; cbn [negb].
    + apply str_eqb_eq in E2. rewrite (bool_decide_eq_false_2 (_ /\ _)) by (intros [_ H]; by rewrite E2 in H).
      case_bool_decide; [by left|by right].
    + apply str_eqb_neq in E2. rewrite (bool_decide_eq_true_2 (_ /\ _)) by (split; [done|congruence]). by right.
  - apply Z.eqb_neq in E1. rewrite (bool_decide_eq_true_2 (updatedAt s <> expectedEpoch e)) by done. by right.
Qed.

Lemma none_activeAt t g e : table_ok t ->
  ~ (exists s, getById g t = Some s /\ updatedAt s = e /\ status s = active /\ True) ->
  (changes (activeAt g e) t =? 0)%nat = true.
Proof.
  intros Ht H. rewrite activeAt_changes by done. apply negb_true_iff. destruct (getById g t) as [s|]; [|done].
  apply andb_false_iff. destruct (updatedAt s =? e) eqn:E; [right|by left]. apply Z.eqb_eq in E.
  apply bool_decide_eq_false. intros Ha. apply H. by exists s.
Qed.

(** A write that compares the epoch and is no longer bound (the goal is gone,
    moved to another epoch, stopped being active, or its objective is not the one
    the Turn was admitted for) changes nothing, and its answer says so: the
    decisions name the first reason that holds and carry the current goal, the
    other writes answer nothing. *)
Theorem stale_writes_change_nothing sha256 op t g e :
  table_ok t -> comparedEpoch op = Some (g, e) -> ~ bound sha256 op t ->
  apply sha256 op t = t /\ refusal sha256 op t.
Proof.
  intros Ht Hc Hb. unfold bound in Hb. rewrite Hc in Hb.
  destruct op; try done; injection Hc as <- <-; cbn [apply refusal].
  1, 2: pose proof (none_activeAt t _ _ Ht Hb) as Hn; unfold transitionActiveAtEpoch, resetBreakerAtEpoch;
    rewrite Hn; cbn [fst snd]; by rewrite update_none.
  - unfold settleThreadGoalBoundTurn. destruct (getById (si_goalId input) t) as [s|]; [|done].
    destruct (staleDecision_spec sha256 s (si_expected input)) as [(? & ? & ?)|E]; [|by rewrite E].
    destruct Hb. by exists s.
  - pose proof (none_activeAt t _ _ Ht Hb) as Hn. unfold updateThreadGoalBreaker.
    destruct (getById _ t) as [s|] eqn:Es; [|done].
    assert (whyStale sha256 (Some s) (bi_expectedEpoch input) None
            = if negb (updatedAt s =? bi_expectedEpoch input) then goal_epoch else goal_status) as ->.
    { unfold whyStale. rewrite (bool_decide_eq_false_2 (_ /\ _)) by (by intros [? _]).
      destruct (Z.eqb_spec (updatedAt s) (bi_expectedEpoch input)); case_bool_decide; done. }
    rewrite Hn, update_none, Es by done. destruct (updatedAt s =? bi_expectedEpoch input) eqn:Ee; cbn [negb].
    + assert (bool_decide (status s = active) = false) as ->.
      { apply bool_decide_eq_false. intros Ha. apply Hb. exists s. by apply Z.eqb_eq in Ee. }
      by destruct (_ && _ && _ && _).
    + by destruct (_ && _ && _ && _).
  - unfold recordThreadGoalVerification. destruct (getById (vi_goalId input) t) as [s|]; [|done].
    destruct (staleDecision_spec sha256 s (vi_expected input)) as [(? & ? & ?)|E]; [|by rewrite E].
    destruct Hb. by exists s.
  - pose proof (none_activeAt t _ _ Ht Hb) as Hn. unfold setThreadGoalExecutionWait. rewrite Hn.
    destruct (byId _ t); [|done]. destruct (negb _); [done|]. destruct (_ && _); [done|]. cbn. by rewrite update_none.
  - pose proof (none_activeAt t _ _ Ht Hb) as Hn. unfold clearThreadGoalExecutionWait. rewrite Hn.
    destruct (byId _ t); [|done]. destruct (negb _); [done|]. destruct (negb _); [done|]. cbn. by rewrite update_none.
Qed.

Theorem stale_writes_change_nothing_witness :
  apply Sample.digest (op_settle 50 Sample.blockedBy) Sample.table = Sample.table
  /\ refusal Sample.digest (op_settle 50 Sample.blockedBy) Sample.table.
Proof.
  apply (stale_writes_change_nothing Sample.digest (op_settle 50 Sample.blockedBy) Sample.table (js "g1") 11).
  - apply Sample.table_is_ok.
  - reflexivity.
  - intros (s & Hs & He & _). vm_compute in Hs. injection Hs as <-. vm_compute in He. discriminate.
Defined.

(** ** The lifecycle *)

(** When a patch may set a goal that is not active to active. *)
Definition mayReopen (s : ThreadGoalState) (i : ThreadGoalPatchInput) : Prop :=
  status s = paused \/ status s = blocked \/ status s = usage_limited
  \/ (status s = budget_limited /\ statusReason s = Some (budget_limited_by dim_token)
      /\ exists b, pi_tokenBudget i = Some b
         /\ match b with None => True | Some n => num_gt n (tokensUsed s) = true end).

Lemma patchCheck_reopen r s g i : patchCheck r s g i = None -> pi_status i = Some active -> status s <> active ->
  mayReopen s i.
Proof.
  unfold patchCheck, mayReopen. intros H Ha Hn. rewrite Ha in H.
  repeat (match type of H with (if ?b then _ else _) = None => destruct b eqn:?; [done|] end).
  destruct (status s) eqn:Es; try tauto; [by destruct Hn|].
  right. right. right. split; [done|].
  match goal with H : context [negb (resumesTokenLimited s i)] |- _ => change (negb (resumesTokenLimited s i) = false) in H;
    apply negb_false_iff in H; unfold resumesTokenLimited in H; rewrite !andb_true_iff in H; destruct H as [[_ Hr] Hb] end.
  apply bool_decide_eq_true in Hr. split; [done|]. destruct (pi_tokenBudget i) as [b|]; [|done]. exists b.
  split; [done|]. by destruct b.
Qed.

(** One operation and one goal. A goal that is not active keeps its decision
    whatever the host does: only a patch can change its status, objective, reason,
    budget, breaker or reports, and only its usage, its kickoff state and its
    epoch can move otherwise. It becomes active again only by a patch that says
    so, from paused, blocked or usage-limited, or from a token limit with the cap
    lifted or raised above the usage. An active goal leaves by a host decision,
    the user's stop, a budget crossing or a patch, and in every case but a patch
    the epoch moves on. *)
Theorem only_a_patch_reopens sha256 op g t s s' :
  (forall x, sha256 x <> []) -> table_ok t -> input_ok op -> mints g op = false ->
  getById g t = Some s -> getById g (apply sha256 op t) = Some s' ->
  (status s <> active -> decisionPart s' = decisionPart s \/ exists now i, op = op_patch now g i)
  /\ (status s <> active -> status s' = active ->
      exists now i, op = op_patch now g i /\ pi_status i = Some active /\ mayReopen s i)
  /\ (status s = active -> status s' <> active -> updatedAt s < updatedAt s'
      /\ (decides op = true \/ (exists now i, op = op_patch now g i /\ pi_status i = Some (status s'))
          \/ exists now b d l dim, op = op_bump now b d l /\ status s' = budget_limited
                                   /\ statusReason s' = Some (budget_limited_by dim))).
Proof.
  intros Hsha Ht Hi Hm Hs Hs'. rewrite table_ok_getById in Hs, Hs' by (done || by apply apply_ok).
  destruct (byId g (apply sha256 op t)) as [r'|] eqn:E'; [|done]. injection Hs' as <-.
  destruct (goal_steps sha256 Hsha op t g r' Ht Hi Hm E') as (r & E & Hr & Hr' & Hst). rewrite E in Hs. injection Hs as <-.
  destruct Hst as [->|Hst]; [split; [by left|split; [done|done]]|].
  assert (is_status active r = true -> status (stateOf r) = active) as Hact
    by (rewrite is_status_active by done; apply bool_decide_eq_true).
  destruct (row_decision r Hr) as (Er1 & Er2 & _). destruct Hst.
  - split; [by intros []; auto|]. split; [by intros []; auto|]. intros _ _. cbn [stateOf updatedAt]. row_fields.
    split; [done|by left].
  - assert (forall x, stateOf (set_usage x (turns_used r + (if d_mainTurns d then 1 else 0))
        (time_used_seconds r + numericOrZero (d_activeSeconds d)) (set_decision (statusText (status (stateOf r)))
          (option_map reasonText (statusReason (stateOf r))) e r))
        = stateOf (set_usage x (turns_used r + (if d_mainTurns d then 1 else 0))
        (time_used_seconds r + numericOrZero (d_activeSeconds d)) (set_decision (row_status r) (status_reason r) e r)))
      as Esame by (intros; by rewrite <- Er1, <- Er2).
    destruct H0 as [(-> & -> & ?)|(Ha & -> & ? & dim & ->)].
    + rewrite Esame. split; [by left|]. split; [done|done].
    + split; [by intros []; auto|]. split; [by intros []; auto|]. intros _ _. cbn [stateOf updatedAt]. row_fields.
      split; [done|]. right. right. exists now, b, d, l, dim. split; [done|]. split; cbn [stateOf status statusReason]; row_fields.
      * apply read_statusText.
      * apply (read_reasonText (Some _)).
  - assert (g = g0) as <- by (rewrite <- H; symmetry; by apply byId_id in E).
    assert (status (stateOf (patchRow (patchPlan now (stateOf r) i) r)) = default (status (stateOf r)) (pi_status i))
      as Est by (cbn [stateOf status]; unfold patchRow; row_fields; apply read_statusText).
    rewrite Est. split; [intros _; right; by exists now, i|]. split.
    + intros Hn Ha. destruct (pi_status i) as [x|] eqn:Ep; [|done]. cbn in Ha. subst x. exists now, i.
      split; [done|]. split; [done|]. by eapply patchCheck_reopen.
    + intros Ha Hn. split; [cbn [stateOf updatedAt]; unfold patchRow; row_fields; cbn; lia|].
      right. left. exists now, i. split; [done|]. by destruct (pi_status i).
  - split; [by left|]. split; [done|]. done.
  - split; [by left|]. split; [done|]. done.
Qed.

Theorem only_a_patch_reopens_witness :
  mayReopen (default (createdState 0 [] Sample.input)
               (getById (js "g1") (run Sample.digest (take 4 Sample.ops) []))) (Sample.patchStatus active).
Proof.
  set (t := run Sample.digest (take 4 Sample.ops) []).
  destruct (only_a_patch_reopens Sample.digest (op_patch 11 (js "g1") (Sample.patchStatus active)) (js "g1") t
              (default (createdState 0 [] Sample.input) (getById (js "g1") t))
              (default (createdState 0 [] Sample.input) (getById (js "g1") Sample.table)))
    as (_ & H & _).
  - intros; discriminate.
  - apply run_table_ok; [intros; discriminate|apply table_ok_nil|]. apply Forall_take, Sample.ops_ok.
  - cbn. repeat split; done.
  - reflexivity.
  - vm_compute. reflexivity.
  - vm_compute. reflexivity.
  - destruct H as (now & i & Hop & _ & Hm); [vm_compute; discriminate|vm_compute; reflexivity|].
    assert (i = Sample.patchStatus active) as -> by congruence. exact Hm.
Defined.

(** ** Usage *)

(** What an operation charges to a goal. *)
Definition charge (g : jstr) (op : GoalOp) : Z * Z * Z :=
  match op with
  | op_bump _ b d _ =>
      if str_eqb (bd_goalId b) g
      then (numericOrZero (d_tokens d), (if d_mainTurns d then 1 else 0), numericOrZero (d_activeSeconds d))
      else (0, 0, 0)
  | _ => (0, 0, 0)
  end.
Definition plus3 (a b : Z * Z * Z) : Z * Z * Z := (a.1.1 + b.1.1, a.1.2 + b.1.2, a.2 + b.2).
Definition usageOf (s : ThreadGoalState) : Z * Z * Z := (tokensUsed s, turnsUsed s, timeUsedSeconds s).
Definition charges (g : jstr) (ops : list GoalOp) : Z * Z * Z := fold_right (fun op => plus3 (charge g op)) (0, 0, 0) ops.

Lemma plus3_0 a : plus3 (0, 0, 0) a = a.
Proof. by destruct a as [[]]. Qed.
Lemma plus3_r0 a : plus3 a (0, 0, 0) = a.
Proof. destruct a as [[]]. unfold plus3. cbn. by rewrite !Z.add_0_r. Qed.
Lemma plus3_assoc a b c : plus3 (plus3 a b) c = plus3 a (plus3 b c).
Proof. destruct a as [[]], b as [[]], c as [[]]. unfold plus3. cbn. f_equal; [f_equal|]; lia. Qed.

Lemma charge_unless_bump g op : (forall now b d l, op <> op_bump now b d l) -> charge g op = (0, 0, 0).
Proof. intros H. destruct op; try done. by destruct (H now binding delta limits). Qed.

Lemma bump_usage sha256 now b d l t r r' g : table_ok t -> byId g t = Some r ->
  byId g (apply sha256 (op_bump now b d l) t) = Some r' ->
  usageOf (stateOf r') = plus3 (usageOf (stateOf r)) (charge g (op_bump now b d l)).
Proof.
  intros Ht E E'. cbn [apply charge] in *. unfold bumpThreadGoalBoundUsage in E'.
  destruct (str_eqb (bd_goalId b) g) eqn:Eb.
  - apply str_eqb_eq in Eb. rewrite Eb, table_ok_getById, E in E' by done. cbn [option_map] in E'.
    destruct (_ && _ && _) eqn:Ez.
    + cbn [snd] in E'. rewrite E in E'. injection E' as <-. rewrite !andb_true_iff, !Z.eqb_eq in Ez.
      destruct Ez as ((-> & ->) & ->). by rewrite plus3_r0.
    + cbn [snd] in E'. rewrite byId_update, E in E' by done. cbn [option_map] in E'.
      rewrite (byId_id _ _ _ E), str_eqb_same in E'. injection E' as <-.
      pose proof (numericOrZero_pos (d_tokens d)). pose proof (numericOrZero_pos (d_activeSeconds d)).
      rewrite state_usage by (cbn [stateOf tokensUsed turnsUsed timeUsedSeconds]; case_goal || idtac; lia). done.
  - rewrite plus3_r0. destruct (getById (bd_goalId b) t); [|cbn [snd] in E'; rewrite E in E'; by injection E' as <-].
    destruct (_ && _ && _); cbn [snd] in E'; [rewrite E in E'; by injection E' as <-|].
    rewrite byId_update, E in E' by done. cbn [option_map] in E'.
    rewrite (byId_id _ _ _ E) in E'. apply str_eqb_neq in Eb.
    replace (str_eqb g (bd_goalId b)) with false in E' by (symmetry; apply str_eqb_neq; congruence).
    by injection E' as <-.
Qed.

(** Over any operations that do not create the goal anew, its usage is what
    it was plus every charge made to it, token by token, turn by turn, second by
    second: a charge counts whether or not the binding it came with was stale, and
    no decision, patch or verdict gives any of it back. *)
Theorem usage_is_never_lost sha256 g t ops s' :
  (forall x, sha256 x <> []) -> table_ok t -> Forall input_ok ops -> Forall (fun op => mints g op = false) ops ->
  getById g (run sha256 ops t) = Some s' ->
  exists s, getById g t = Some s /\ usageOf s' = plus3 (usageOf s) (charges g ops).
Proof.
  intros Hsha Ht Hi Hm Hg.
  destruct (run_relation sha256 Hsha (fun ops a b => usageOf b = plus3 (usageOf a) (charges g ops)) g)
    with (ops := ops) (t := t) (s' := s') as (s & ? & ?); try done; [| | |by exists s].
  - intros s. by rewrite plus3_r0.
  - intros op l a b c Hab Hbc. rewrite Hbc, Hab. unfold charges. cbn [fold_right]. by rewrite plus3_r0, plus3_assoc.
  - intros op t0 r r' Ht0 Hi0 E E' Hr Hr' Hst. unfold charges. cbn [fold_right]. rewrite plus3_r0.
    destruct op; try (by eapply bump_usage);
      (rewrite charge_unless_bump, plus3_r0 by done; destruct Hst as [->|Hst]; [done|]; by inversion Hst).
Qed.

Theorem usage_is_never_lost_witness : exists s,
  getById (js "g1") (run Sample.digest (take 1 Sample.ops) []) = Some s
  /\ (30, 1, 5) = plus3 (usageOf s) (charges (js "g1") (drop 1 Sample.ops)).
Proof.
  destruct (usage_is_never_lost Sample.digest (js "g1") (run Sample.digest (take 1 Sample.ops) []) (drop 1 Sample.ops)
              (default (createdState 0 [] Sample.input) (getById (js "g1") Sample.table))) as (s & H & E).
  - intros; discriminate.
  - apply run_table_ok; [intros; discriminate|apply table_ok_nil|]. apply Forall_take, Sample.ops_ok.
  - apply Forall_drop, Sample.ops_ok.
  - repeat constructor.
  - vm_compute. reflexivity.
  - exists s. split; [exact H|]. rewrite <- E. vm_compute. reflexivity.
Defined.

(** ** The breaker *)

(** What the breaker sees of one Turn. *)
Abbreviation Seen := (option jstr * ThreadGoalToolActivity)%type (only parsing).

Fixpoint leading {A} (p : A -> bool) (l : list A) : nat :=
  match l with x :: l' => if p x then S (leading p l') else 0%nat | [] => 0%nat end.
(** Of a history, latest first: the length of the trailing run of one reply (a
    Turn without a reply does not count either way), and of Turns known to have
    used no tool. *)
Definition replies (h : list Seen) : list jstr := omap fst h.
Definition replyRun (h : list Seen) : nat :=
  match replies h with f :: l => S (leading (str_eqb f) l) | [] => 0%nat end.
Definition toolRun (h : list Seen) : nat := leading (fun o => match o.2 with absent => true | _ => false end) h.

(** The reference: a run of the limit pauses, a run of two or more nudges; a Turn
    answers for the runs it extends. *)
Definition runAction (limit : Z) (n : nat) : BreakerAction :=
  if limit <=? Z.of_nat n then act_pause else if (2 <=? n)%nat then act_nudge else act_none.
Definition referenceAction (limit : Z) (h : list Seen) : BreakerAction :=
  match h with
  | (reply, _) :: _ =>
      strongerAction (match reply with Some _ => runAction limit (replyRun h) | None => act_none end)
                     (runAction limit (toolRun h))
  | [] => act_none
  end.
Fixpoint reference (limit : Z) (h seen : list Seen) : list BreakerAction :=
  match seen with
  | [] => []
  | o :: seen' =>
      let a := referenceAction limit (o :: h) in
      a :: if same_action a act_pause then [] else reference limit (o :: h) seen'
  end.

(** The host: each Turn is scored against the epoch the goal has then, until one pauses it. *)
Definition scored (limit : jsnum) (epoch : Z) (o : Seen) : ThreadGoalBreakerInput := {|
  bi_expectedEpoch := epoch; bi_fingerprint := o.1; toolActivity := o.2; bi_limit := limit; pauseReason := None |}.
Fixpoint drive (now : Z) (g : jstr) (limit : jsnum) (seen : list Seen) (t : Table) : list BreakerAction :=
  match seen with
  | [] => []
  | o :: seen' =>
      match getById g t with
      | Some s =>
          match updateThreadGoalBreaker now g (scored limit (updatedAt s) o) t with
          | (br_decided a _ _ _, t') => a :: if same_action a act_pause then [] else drive now g limit seen' t'
          | (br_stale _ _, _) => []
          end
      | None => []
      end
  end.

(** The breaker columns hold the runs of a history. *)
Definition tracks (h : list Seen) (s : ThreadGoalState) : Prop :=
  replyFingerprint s = head (replies h) /\ noProgressStreak s = Z.of_nat (pred (replyRun h))
  /\ noToolStreak s = Z.of_nat (toolRun h).

Lemma decideAction_run limit n : 2 <= limit -> decideAction (Z.of_nat n) limit = runAction limit n.
Proof.
  intros H. unfold decideAction, runAction. destruct (limit <=? Z.of_nat n); [done|].
  destruct (2 <=? n)%nat eqn:E; [apply Nat.leb_le in E|apply Nat.leb_gt in E];
    destruct (Z.leb_spec 2 (Z.of_nat n)); (done || lia).
Qed.
Lemma runAction_small limit n : 2 <= limit -> (n <= 1)%nat -> runAction limit n = act_none.
Proof.
  intros H Hn. unfold runAction. destruct (Z.leb_spec limit (Z.of_nat n)); [lia|].
  destruct (Nat.leb_spec 2 n); [lia|done].
Qed.

Lemma observe_tracks h s epoch limit o : tracks h s -> let b := observe s (scored limit epoch o) in
  (o_fingerprint b, o_replyStreak b, o_noToolStreak b)
    = (head (replies (o :: h)), Z.of_nat (pred (replyRun (o :: h))), Z.of_nat (toolRun (o :: h)))
  /\ o_action b = referenceAction (occurrenceLimit limit) (o :: h).
Proof.
  intros (Hf & Hp & Ht). destruct o as [reply tools]. unfold observe, scored. cbv zeta.
  cbn [bi_fingerprint toolActivity bi_limit fst snd o_fingerprint o_replyStreak o_noToolStreak o_action].
  rewrite Hf, Hp, Ht. set (L := occurrenceLimit limit).
  assert (2 <= L) as HL by (subst L; destruct limit; cbn; lia).
  assert (match tools with absent => Z.of_nat (toolRun h) + 1 | _ => 0 end = Z.of_nat (toolRun ((reply, tools) :: h)))
    as Etool by (unfold toolRun; destruct tools; cbn [leading snd]; lia). rewrite Etool.
  assert (match tools with absent => decideAction (Z.of_nat (toolRun ((reply, tools) :: h))) L | _ => act_none end
          = runAction L (toolRun ((reply, tools) :: h))) as ->.
  { destruct tools; [symmetry; apply runAction_small; [done|cbn; lia]|by apply decideAction_run|
      symmetry; apply runAction_small; [done|cbn; lia]]. }
  unfold referenceAction, replyRun, replies. destruct reply as [f|]; cbn [omap list_omap fst].
  - fold (replies h). destruct (replies h) as [|x l]; cbn [head leading pred].
    + rewrite bool_decide_eq_false_2 by done. rewrite (runAction_small L 1) by (done || lia). done.
    + destruct (bool_decide_reflect (Some x = Some f)) as [[= ->]|Hne].
      * rewrite str_eqb_same. cbn [pred]. set (n := leading (str_eqb f) l).
        replace (Z.of_nat n + 1) with (Z.of_nat (S n)) by lia.
        replace (Z.of_nat (S n) + 1) with (Z.of_nat (S (S n))) by lia. by rewrite decideAction_run.
      * replace (str_eqb f x) with false by (symmetry; apply str_eqb_neq; congruence).
        rewrite (runAction_small L 1) by (done || lia). done.
  - done.
Qed.

(** One Turn: the answer is the reference's, the row tracks the longer history,
    and the goal is active until it is paused. *)
Lemma breaker_turn now g limit h o t s : table_ok t -> getById g t = Some s -> status s = active -> tracks h s ->
  exists s' e c t', updateThreadGoalBreaker now g (scored limit (updatedAt s) o) t
      = (br_decided (referenceAction (occurrenceLimit limit) (o :: h)) s' e c, t')
    /\ table_ok t' /\ getById g t' = Some s' /\ tracks (o :: h) s'
    /\ (referenceAction (occurrenceLimit limit) (o :: h) <> act_pause -> status s' = active).
Proof.
  intros Ht Hs Ha Htr. destruct (observe_tracks h s (updatedAt s) limit o Htr) as [Eobs Eact]. injection Eobs as E1 E2 E3.
  pose proof (apply_ok (fun _ => [0%N]) ltac:(done) (op_breaker now g (scored limit (updatedAt s) o)) t Ht I) as Hok.
  pose proof (answered_breaker (fun _ => [0%N]) ltac:(done) now g (scored limit (updatedAt s) o) t) as Hans.
  cbn [apply answered] in *. unfold updateThreadGoalBreaker in *. rewrite Hs in *. rewrite <- Eact. cbn [scored bi_expectedEpoch] in *.
  set (b := observe s (scored limit (updatedAt s) o)) in *.
  rewrite Z.eqb_refl, Ha in *. cbn [negb] in *.
  destruct (same_action (o_action b) act_none && _ && _ && _) eqn:Eu.
  - rewrite bool_decide_eq_true_2 by done. cbn [negb]. rewrite !andb_true_iff in Eu. destruct Eu as [[[Eu0 Eu1] Eu2] Eu3].
    apply bool_decide_eq_true in Eu1. apply Z.eqb_eq in Eu2. apply Z.eqb_eq in Eu3.
    exists s, (updatedAt s), None, t. destruct (o_action b); try done. repeat (split; [done|]). split; [|done].
    unfold tracks. by rewrite <- Eu1, <- Eu2, <- Eu3.
  - rewrite (not_stale_changes t g _ _ Ht Hs eq_refl Ha) in *. cbn [fst snd] in *.
    eexists _, _, _, _. split; [reflexivity|]. split; [exact Hok|]. split.
    { specialize (Hans _ Ht I eq_refl). cbn [st_breaker st_decision goalId] in Hans.
      rewrite (getById_id _ _ _ Hs) in Hans. exact Hans. }
    split; [by unfold tracks|]. cbn [st_breaker st_decision status]. by destruct (o_action b).
Qed.

(** C19: Scored Turn by Turn at the goal's current epoch, an active goal whose
    breaker is clear gets, until it is paused, exactly the answers of the
    reference: a Turn nudges when it extends a run of one reply or a run without
    tools to two or more and pauses when it extends one to the limit, the runs
    being counted independently, a Turn without a reply leaving the reply run
    alone and a Turn of unknown tool activity ending the tool run. *)
Theorem breaker_matches_reference now g limit seen t s :
  table_ok t -> getById g t = Some s -> status s = active ->
  replyFingerprint s = None -> noProgressStreak s = 0 -> noToolStreak s = 0 ->
  drive now g limit seen t = reference (occurrenceLimit limit) [] seen.
Proof.
  intros Ht Hs Ha Hf Hp Hn. assert (tracks [] s) as Htr by done. clear Hf Hp Hn. generalize (@nil Seen) as h, Htr.
  clear Htr. revert t s Ht Hs Ha. induction seen as [|o seen IH]; intros t s Ht Hs Ha h Htr; [done|].
  destruct (breaker_turn now g limit h o t s Ht Hs Ha Htr) as (s' & e & c & t' & E & Ht' & Hs' & Htr' & Hact).
  cbn [drive reference]. rewrite Hs, E. f_equal.
  destruct (same_action _ act_pause) eqn:Ep; [done|]. apply (IH t' s' Ht' Hs'); [|done].
  apply Hact. by intros Hpause; rewrite Hpause in Ep.
Qed.

Theorem breaker_matches_reference_witness :
  drive 20 (js "g1") (numZ 3) [(Some (js "a"), used); (None, absent); (Some (js "a"), absent); (Some (js "a"), used)]
    (run Sample.digest (take 1 Sample.ops) []) = [act_none; act_none; act_nudge; act_pause].
Proof.
  rewrite (breaker_matches_reference 20 (js "g1") (numZ 3) _ (run Sample.digest (take 1 Sample.ops) [])
             (createdState 10 (js "g1") Sample.input)).
  - vm_compute. reflexivity.
  - apply run_table_ok; [intros; discriminate|apply table_ok_nil|]. apply Forall_take, Sample.ops_ok.
  - vm_compute. reflexivity.
  - reflexivity.
  - reflexivity.
  - reflexivity.
  - reflexivity.
Defined.

(** ** Where the code differs from its comments *)
Section Findings.
Definition statusAfter (ops : list GoalOp) : option ThreadGoalStatus :=
  option_map status (getById (js "g1") (run Sample.digest ops [])).
Definition userPatch (s : ThreadGoalStatus) : GoalOp := op_patch 20 (js "g1") (Sample.patchStatus s).

(** [complete] remains final, says the header of [types.ts]: a patch to active is
    refused, but a patch to paused is not, and from paused the goal reopens. *)
Example complete_goal_reopens_in_two_patches :
  map statusAfter
    [[op_create 10 (js "g1") Sample.input; userPatch complete; userPatch active];
     [op_create 10 (js "g1") Sample.input; userPatch complete; userPatch paused];
     [op_create 10 (js "g1") Sample.input; userPatch complete; userPatch paused; userPatch active]]
  = [Some complete; Some paused; Some active].
Proof. vm_compute. reflexivity. Qed.

(** Main-turn exhaustion is not recoverable, says the same header: in two patches it is. *)
Example main_turn_limit_left_in_two_patches :
  map statusAfter
    [[op_create 10 (js "g1") Sample.input; op_transition 20 (js "g1") 10
        {| n_status := budget_limited; n_statusReason := budget_limited_by dim_main_turn |}; userPatch active];
     [op_create 10 (js "g1") Sample.input; op_transition 20 (js "g1") 10
        {| n_status := budget_limited; n_statusReason := budget_limited_by dim_main_turn |};
      userPatch blocked; userPatch active]]
  = [Some budget_limited; Some active].
Proof. vm_compute. reflexivity. Qed.

(** A budget between 0 and 1 is stored and answered as 0, and read as no cap. *)
Definition half : jsnum := Fin (QArith_base.Qmake 1 2).
Example fractional_budget_is_read_as_no_cap :
  let input := {| ci_sessionId := js "s1"; ci_objective := js "o"; ci_tokenBudget := Some half;
                  ci_kickoffAttachments := None; ci_objectiveResources := None |} in
  (match (create 10 (js "g1") input []).1 with inr s => Some (tokenBudget s) | inl _ => None end,
   option_map tokenBudget (getById (js "g1") (create 10 (js "g1") input []).2))
  = (Some (Some 0), Some None).
Proof. vm_compute. reflexivity. Qed.
End Findings.
