(* ===== verification/RgSignals.v ===== *)
(** * Runaway signals

    [packages/agent-modules/runaway-guard/src]: [state.ts], [signals.ts] and
    [reminder.ts].  The mutable [ShadowState] is threaded through every
    operation together with the observations sent so far; an observer's own
    failures are swallowed by the code and do not appear.  An observer that
    calls back into the guard is not expressed. *)
From S2P Require Import Prelude JsValue RgFingerprint.

(** ** Data ([contracts.ts], [state.ts], [step-view.ts]) *)
Inductive RunawayGuardSignalKind :=
  | exact_action_repeat
  | exact_result_repeat
  | same_error_family
  | abab_action_cycle
  | polling_repeat
  | unchanged_progress_repeat.

#[export] Instance kind_eq_dec : EqDecision RunawayGuardSignalKind.
Proof. solve_decision. Defined.

Record RunawayGuardRunIdentity := { sessionId : jstr; turnId : jstr; agentName : jstr }.

Record RunawayGuardObservation := {
  o_sessionId : jstr;
  o_turnId : jstr;
  o_agentName : jstr;
  o_signalKind : RunawayGuardSignalKind;
  o_stepIndex : nat;
  o_occurrences : nat;
}.

Record MutableSignalStats := {
  episodeCount : nat;
  maxOccurrences : nat;
  firstStepIndex : option nat;
  lastStepIndex : option nat;
}.

Record ProgressStreak := {
  progressKey : jstr;
  occurrences : nat;
  continuousPolling : bool;
  reminderEligible : bool;
}.

Inductive ProgressViewKind := PvDetect | PvPolling.

Inductive ProgressView :=
  | ProgressObservationView (kind : ProgressViewKind) (loopKey progKey : jstr)
      (verifiedProgress continuous eligible : bool)
  | ProgressResetView (loopKey : jstr)
  | ProgressInterruptView.

Record StepView := {
  detectActionKeys : list jstr;
  pollingActionKeys : list jstr;
  detectResultKeys : list jstr;
  errorFamilyKeys : list jstr;
  remindableErrorFamilyKeys : list jstr;
  progress : list ProgressView;
  detectActionBatchKey : option jstr;
}.

Section State.
Context {Secret : Type}.

Record ShadowState := {
secret : Secret;
stepIndex : nat;
fingerprintSkippedCount : nat;
reminderAttempted : bool;
reminderInjected : bool;
signalStats : RunawayGuardSignalKind -> MutableSignalStats;
detectActionStreaks : jmap jstr nat;
pollingActionStreaks : jmap jstr nat;
detectResultStreaks : jmap jstr nat;
errorFamilyStreaks : jmap jstr nat;
progressStreaks : jmap jstr ProgressStreak;
recentActionBatches : list jstr;
activeAbabKey : option jstr;
}.

Definition emptySignalStats : MutableSignalStats :=
{| episodeCount := 0; maxOccurrences := 0; firstStepIndex := None; lastStepIndex := None |}.

Definition createSignalStats : RunawayGuardSignalKind -> MutableSignalStats := fun _ => emptySignalStats.

(** [newShadowState]; the fresh random bytes are an argument. *)
Definition newShadowState (randomBytes : Secret) : ShadowState :=
{| secret := randomBytes; stepIndex := 0; fingerprintSkippedCount := 0;
   reminderAttempted := false; reminderInjected := false; signalStats := createSignalStats;
   detectActionStreaks := []; pollingActionStreaks := []; detectResultStreaks := [];
   errorFamilyStreaks := []; progressStreaks := []; recentActionBatches := [];
   activeAbabKey := None |}.

(** Field assignments. *)
Definition set_stepIndex (n : nat) (s : ShadowState) : ShadowState :=
{| secret := secret s; stepIndex := n; fingerprintSkippedCount := fingerprintSkippedCount s;
   reminderAttempted := reminderAttempted s; reminderInjected := reminderInjected s;
   signalStats := signalStats s; detectActionStreaks := detectActionStreaks s;
   pollingActionStreaks := pollingActionStreaks s; detectResultStreaks := detectResultStreaks s;
   errorFamilyStreaks := errorFamilyStreaks s; progressStreaks := progressStreaks s;
   recentActionBatches := recentActionBatches s; activeAbabKey := activeAbabKey s |}.

Definition add_skipped (n : nat) (s : ShadowState) : ShadowState :=
{| secret := secret s; stepIndex := stepIndex s;
   fingerprintSkippedCount := fingerprintSkippedCount s + n;
   reminderAttempted := reminderAttempted s; reminderInjected := reminderInjected s;
   signalStats := signalStats s; detectActionStreaks := detectActionStreaks s;
   pollingActionStreaks := pollingActionStreaks s; detectResultStreaks := detectResultStreaks s;
   errorFamilyStreaks := errorFamilyStreaks s; progressStreaks := progressStreaks s;
   recentActionBatches := recentActionBatches s; activeAbabKey := activeAbabKey s |}.

Definition set_reminder (attempted injected : bool) (s : ShadowState) : ShadowState :=
{| secret := secret s; stepIndex := stepIndex s;
   fingerprintSkippedCount := fingerprintSkippedCount s;
   reminderAttempted := attempted; reminderInjected := injected;
   signalStats := signalStats s; detectActionStreaks := detectActionStreaks s;
   pollingActionStreaks := pollingActionStreaks s; detectResultStreaks := detectResultStreaks s;
   errorFamilyStreaks := errorFamilyStreaks s; progressStreaks := progressStreaks s;
   recentActionBatches := recentActionBatches s; activeAbabKey := activeAbabKey s |}.

Definition set_stats (st : RunawayGuardSignalKind -> MutableSignalStats) (s : ShadowState) : ShadowState :=
{| secret := secret s; stepIndex := stepIndex s;
   fingerprintSkippedCount := fingerprintSkippedCount s;
   reminderAttempted := reminderAttempted s; reminderInjected := reminderInjected s;
   signalStats := st; detectActionStreaks := detectActionStreaks s;
   pollingActionStreaks := pollingActionStreaks s; detectResultStreaks := detectResultStreaks s;
   errorFamilyStreaks := errorFamilyStreaks s; progressStreaks := progressStreaks s;
   recentActionBatches := recentActionBatches s; activeAbabKey := activeAbabKey s |}.

Definition set_streaks (da pa dr ef : jmap jstr nat) (ps : jmap jstr ProgressStreak) (s : ShadowState) :
  ShadowState :=
{| secret := secret s; stepIndex := stepIndex s;
   fingerprintSkippedCount := fingerprintSkippedCount s;
   reminderAttempted := reminderAttempted s; reminderInjected := reminderInjected s;
   signalStats := signalStats s; detectActionStreaks := da; pollingActionStreaks := pa;
   detectResultStreaks := dr; errorFamilyStreaks := ef; progressStreaks := ps;
   recentActionBatches := recentActionBatches s; activeAbabKey := activeAbabKey s |}.

Definition set_abab (recent : list jstr) (active : option jstr) (s : ShadowState) : ShadowState :=
{| secret := secret s; stepIndex := stepIndex s;
   fingerprintSkippedCount := fingerprintSkippedCount s;
   reminderAttempted := reminderAttempted s; reminderInjected := reminderInjected s;
   signalStats := signalStats s; detectActionStreaks := detectActionStreaks s;
   pollingActionStreaks := pollingActionStreaks s; detectResultStreaks := detectResultStreaks s;
   errorFamilyStreaks := errorFamilyStreaks s; progressStreaks := progressStreaks s;
   recentActionBatches := recent; activeAbabKey := active |}.

Definition clearDetectionStreaks (s : ShadowState) : ShadowState :=
set_abab [] None (set_streaks [] [] [] [] [] s).

Definition upd_stats (k : RunawayGuardSignalKind) (v : MutableSignalStats)
  (st : RunawayGuardSignalKind -> MutableSignalStats) : RunawayGuardSignalKind -> MutableSignalStats :=
fun k' => if decide (k' = k) then v else st k'.

Definition recordMaxOccurrences (k : RunawayGuardSignalKind) (n : nat) (s : ShadowState) : ShadowState :=
let stats := signalStats s k in
set_stats (upd_stats k {| episodeCount := episodeCount stats;
                          maxOccurrences := Nat.max (maxOccurrences stats) n;
                          firstStepIndex := firstStepIndex stats;
                          lastStepIndex := lastStepIndex stats |} (signalStats s)) s.

Record RunawayGuardTurnSummary := {
t_sessionId : jstr;
t_turnId : jstr;
t_agentName : jstr;
t_stepCount : nat;
t_projectionSkippedCount : nat;
t_reminderInjected : bool;
t_signals : list (RunawayGuardSignalKind * MutableSignalStats);
}.

Definition snapshotSignalStats (st : RunawayGuardSignalKind -> MutableSignalStats) :
  list (RunawayGuardSignalKind * MutableSignalStats) :=
map (fun k => (k, st k))
  [exact_action_repeat; exact_result_repeat; same_error_family; abab_action_cycle;
   polling_repeat; unchanged_progress_repeat].

Definition snapshotTurnSummary (ctx : RunawayGuardRunIdentity) (s : ShadowState) : RunawayGuardTurnSummary :=
{| t_sessionId := sessionId ctx; t_turnId := turnId ctx; t_agentName := agentName ctx;
   t_stepCount := stepIndex s; t_projectionSkippedCount := fingerprintSkippedCount s;
   t_reminderInjected := reminderInjected s; t_signals := snapshotSignalStats (signalStats s) |}.

(** [`${ctx.sessionId}\u0000${ctx.turnId}`]. *)
Definition runKey (ctx : RunawayGuardRunIdentity) : jstr := sessionId ctx ++ [0%N] ++ turnId ctx.

(** ** Detection ([signals.ts]) *)

(** What the detectors change: the state, the observations sent (in order) and
  the reminder candidates (a set, as a list without repetition). *)
Record Detection := {
state : ShadowState;
sent : list RunawayGuardObservation;
candidates : list RunawayGuardSignalKind;
}.

Definition on_state (f : ShadowState -> ShadowState) (d : Detection) : Detection :=
{| state := f (state d); sent := sent d; candidates := candidates d |}.

Definition addReminderCandidate (k : RunawayGuardSignalKind) (d : Detection) : Detection :=
{| state := state d; sent := sent d;
   candidates := if bool_decide (k ∈ candidates d) then candidates d else candidates d ++ [k] |}.

Section Sinks.
Variable ctx : RunawayGuardRunIdentity.
(** Whether [options.onSignal] is defined. *)
Variable observer : bool.

Definition emitObservation (k : RunawayGuardSignalKind) (occ : nat) (d : Detection) : Detection :=
  let s := state d in
  let stats := signalStats s k in
  let s1 := set_stats (upd_stats k
    {| episodeCount := episodeCount stats + 1;
       maxOccurrences := maxOccurrences stats;
       firstStepIndex := match firstStepIndex stats with Some i => Some i | None => Some (stepIndex s) end;
       lastStepIndex := Some (stepIndex s) |} (signalStats s)) s in
  let s2 := recordMaxOccurrences k occ s1 in
  {| state := s2;
     sent := if observer
             then sent d ++ [{| o_sessionId := sessionId ctx; o_turnId := turnId ctx;
                                o_agentName := agentName ctx; o_signalKind := k;
                                o_stepIndex := stepIndex s2; o_occurrences := occ |}]
             else sent d;
     candidates := candidates d |}.

Definition occurrenceCounts (values : list jstr) : jmap jstr nat :=
  fold_left (fun counts v => jset v (default 0 (jget v counts) + 1) counts) values [].

(** [boolean | ReadonlySet<string>]. *)
Inductive Eligibility := EligibleAll (b : bool) | EligibleSet (keys : list jstr).

Definition eligible (e : Eligibility) (key : jstr) : bool :=
  match e with EligibleAll b => b | EligibleSet keys => bool_decide (key ∈ keys) end.

Definition REMINDER_CANDIDATE_PRIORITY : list RunawayGuardSignalKind :=
  [unchanged_progress_repeat; same_error_family; exact_action_repeat; polling_repeat].

Definition isReminderSignalKind (k : RunawayGuardSignalKind) : bool :=
  bool_decide (k ∈ REMINDER_CANDIDATE_PRIORITY).

Definition crossed (prior occ n : nat) : bool := (prior <? n)%nat && (n <=? occ)%nat.

Definition crossed_threshold (threshold : option nat) (prior occ : nat) : bool :=
  match threshold with Some n => crossed prior occ n | None => false end.

(** [recordMaxOccurrences(...); if (prior < 2 && occurrences >= 2) emitObservation(..., 2)]. *)
Definition noteOccurrences (k : RunawayGuardSignalKind) (prior occ : nat) (d : Detection) : Detection :=
  let d1 := on_state (recordMaxOccurrences k occ) d in
  if crossed prior occ 2 then emitObservation k 2 d1 else d1.

(** One key of [observeRepeatedKeys]. *)
Definition observeKey (previous : jmap jstr nat) (k : RunawayGuardSignalKind)
    (threshold : option nat) (e : Eligibility)
    (acc : jmap jstr nat * Detection) (entry : jstr * nat) : jmap jstr nat * Detection :=
  let '(next, d) := acc in
  let '(key, count) := entry in
  let prior := default 0 (jget key previous) in
  let occ := prior + count in
  let d2 := noteOccurrences k prior occ d in
  let d3 := if eligible e key && crossed_threshold threshold prior occ && isReminderSignalKind k
            then addReminderCandidate k d2 else d2 in
  (jset key occ next, d3).

Definition observeRepeatedKeys (previous : jmap jstr nat) (current : list jstr)
    (k : RunawayGuardSignalKind) (threshold : option nat) (e : Eligibility) (d : Detection) :
    jmap jstr nat * Detection :=
  fold_left (observeKey previous k threshold e) (occurrenceCounts current) ([], d).

(** The locals of the loop of [observeProgress]. *)
Record ProgressLoop := {
  next : jmap jstr ProgressStreak;
  pollingCandidates : list jstr;
  detection : Detection;
}.

Definition set_remove (k : jstr) (l : list jstr) : list jstr :=
  List.filter (fun x => negb (bool_decide (k = x))) l.
Definition set_add (k : jstr) (l : list jstr) : list jstr :=
  if bool_decide (k ∈ l) then l else l ++ [k].

Definition streak_key_is (s : option ProgressStreak) (key : jstr) : bool :=
  match s with Some p => bool_decide (progressKey p = key) | None => false end.

Definition observeProgressView (previous : jmap jstr ProgressStreak) (threshold : option nat)
    (l : ProgressLoop) (view : ProgressView) : ProgressLoop :=
  match view with
  | ProgressInterruptView =>
    {| next := List.filter (fun e => negb (continuousPolling (snd e))) (next l);
       pollingCandidates := []; detection := detection l |}
  | ProgressResetView key =>
    {| next := jdel key (next l); pollingCandidates := set_remove key (pollingCandidates l);
       detection := detection l |}
  | ProgressObservationView kind key pkey verified continuous elig =>
    let prior :=
      if continuous then
        match jget key (next l) with
        | Some s => if continuousPolling s then Some s else None
        | None => None
        end
      else jget key previous in
    let streak n := {| progressKey := pkey; occurrences := n;
                       continuousPolling := continuous; reminderEligible := elig |} in
    if verified then
      {| next := jset key (streak 0) (next l);
         pollingCandidates := set_remove key (pollingCandidates l); detection := detection l |}
    else
      let priorOcc := match prior with Some p => occurrences p | None => 0 end in
      let occ := if streak_key_is prior pkey then priorOcc + 1 else 1 in
      let pc1 := if streak_key_is prior pkey then pollingCandidates l
                 else set_remove key (pollingCandidates l) in
      let sk := match kind with PvPolling => polling_repeat | PvDetect => unchanged_progress_repeat end in
      let d2 := noteOccurrences sk priorOcc occ (detection l) in
      let d3 := if crossed_threshold threshold priorOcc occ
                   && match kind with PvDetect => true | PvPolling => false end
                then addReminderCandidate unchanged_progress_repeat d2 else d2 in
      {| next := jset key (streak occ) (next l);
         pollingCandidates :=
           if continuous && elig && crossed_threshold threshold priorOcc occ
           then set_add key pc1 else pc1;
         detection := d3 |}
  end.

Definition observeProgress (current : list ProgressView) (threshold : option nat) (d : Detection) :
    jmap jstr ProgressStreak * Detection :=
  let previous := progressStreaks (state d) in
  let l0 := {| next := List.filter (fun e => continuousPolling (snd e)) previous;
               pollingCandidates := []; detection := d |} in
  let l := fold_left (observeProgressView previous threshold) current l0 in
  let due key :=
    match threshold, jget key (next l) with
    | Some n, Some s => continuousPolling s && reminderEligible s && (n <=? occurrences s)%nat
    | _, _ => false
    end in
  (next l,
   if existsb due (pollingCandidates l) then addReminderCandidate polling_repeat (detection l)
   else detection l).

Definition observeAbab (current : option jstr) (d : Detection) : Detection :=
  match current with
  | None | Some [] => on_state (set_abab [] None) d
  | Some cur =>
    let pushed := recentActionBatches (state d) ++ [cur] in
    let recent := if (4 <? length pushed)%nat then drop 1 pushed else pushed in
    let d1 := on_state (set_abab recent (activeAbabKey (state d))) d in
    match recent with
    | a :: b :: c :: e :: _ =>
      if negb (truthy a) || negb (truthy b) || bool_decide (a = b)
         || negb (bool_decide (a = c)) || negb (bool_decide (b = e))
      then on_state (set_abab recent None) d1
      else
        let episode := a ++ [0%N] ++ b in
        if bool_decide (activeAbabKey (state d) = Some episode) then d1
        else emitObservation abab_action_cycle 2 (on_state (set_abab recent (Some episode)) d1)
    | _ => d1
    end
  end.

Definition observeStep (view : StepView) (threshold : option nat) (s : ShadowState)
    (log : list RunawayGuardObservation) : Detection :=
  let d0 := {| state := s; sent := log; candidates := [] |} in
  let '(da, d1) := observeRepeatedKeys (detectActionStreaks s) (detectActionKeys view)
                     exact_action_repeat threshold (EligibleAll true) d0 in
  let d1 := on_state (fun s => set_streaks da (pollingActionStreaks s) (detectResultStreaks s)
                                 (errorFamilyStreaks s) (progressStreaks s) s) d1 in
  let '(pa, d2) := observeRepeatedKeys (pollingActionStreaks (state d1)) (pollingActionKeys view)
                     polling_repeat threshold (EligibleAll false) d1 in
  let d2 := on_state (fun s => set_streaks (detectActionStreaks s) pa (detectResultStreaks s)
                                 (errorFamilyStreaks s) (progressStreaks s) s) d2 in
  let '(dr, d3) := observeRepeatedKeys (detectResultStreaks (state d2)) (detectResultKeys view)
                     exact_result_repeat threshold (EligibleAll false) d2 in
  let d3 := on_state (fun s => set_streaks (detectActionStreaks s) (pollingActionStreaks s) dr
                                 (errorFamilyStreaks s) (progressStreaks s) s) d3 in
  let '(ef, d4) := observeRepeatedKeys (errorFamilyStreaks (state d3)) (errorFamilyKeys view)
                     same_error_family threshold
                     (EligibleSet (remindableErrorFamilyKeys view)) d3 in
  let d4 := on_state (fun s => set_streaks (detectActionStreaks s) (pollingActionStreaks s)
                                 (detectResultStreaks s) ef (progressStreaks s) s) d4 in
  let '(ps, d5) := observeProgress (progress view) threshold d4 in
  let d5 := on_state (fun s => set_streaks (detectActionStreaks s) (pollingActionStreaks s)
                                 (detectResultStreaks s) (errorFamilyStreaks s) ps s) d5 in
  observeAbab (detectActionBatchKey view) d5.
End Sinks.

(** ** Reminders ([reminder.ts]) *)
Definition pollingReminderContent (occ : nat) : option jstr :=
if (occ =? 0)%nat then None
else
  let count := if (occ =? 3)%nat then js "Three" else dec_Z (Z.of_nat occ) in
  Some (js "<system-reminder>" ++ [newline] ++ count
        ++ js " task_output reads for the same task have returned an unchanged status and output cursor. Avoid repeated polling; you will be notified automatically and this conversation will resume when the background task completes."
        ++ [newline]
        ++ js "This reminder applies only to the current Turn. Do not save or generalize it into Memory, Skills, or other persistent instructions."
        ++ [newline] ++ js "</system-reminder>").

Definition reminderGuidance (k : RunawayGuardSignalKind) (occ : nat) : option jstr :=
if (occ =? 0)%nat then None
else
  let n := dec_Z (Z.of_nat occ) in
  match k with
  | exact_action_repeat =>
    Some (js "[runaway guard] The immediately repeated tool action has now occurred " ++ n ++ js " times with the same arguments. Do not repeat it unchanged. Inspect the results already available, then either change strategy with a concrete expected state change, or report the blocker. Repetition alone does not establish that the task is complete or impossible.")
  | same_error_family =>
    Some (js "[runaway guard] The same tool error family has now occurred " ++ n ++ js " times in a row. Do not retry the same route unchanged. Diagnose the cause, change one controlled variable or switch route. Do not infer that the entire task has failed from this signal.")
  | unchanged_progress_repeat =>
    Some (js "[runaway guard] Verified progress for the same work target has remained unchanged across " ++ n ++ js " attempts. Do not continue the same route without a concrete expected state change. Inspect the current artifact or state, change strategy, or explain the blocker. Unchanged observed state is not proof that the entire task has failed.")
  | _ => None
  end.

Definition reminderContent (k : RunawayGuardSignalKind) (occ : nat) : option jstr :=
match k with
| polling_repeat => pollingReminderContent occ
| _ =>
  guidance ← reminderGuidance k occ;
  Some (guidance ++ js " This is a temporary runtime reminder for the current Turn only, not a user preference or a durable rule; do not save this reminder or generalize it into Memory, Skills, or other persistent instruction files for future Turns or sessions.")
end.

(** The reminder; its observation's [action] is always ['steer']. *)
Record RunawayGuardReminder := { content : jstr; observation : RunawayGuardObservation }.

Fixpoint takePreferred_loop (priority : list RunawayGuardSignalKind)
  (cands : list RunawayGuardSignalKind) (ctx : RunawayGuardRunIdentity) (s : ShadowState)
  (afterOccurrences : nat) : option RunawayGuardReminder * ShadowState :=
match priority with
| [] => (None, s)
| k :: rest =>
  if bool_decide (k ∈ cands) then
    match reminderContent k afterOccurrences with
    | None => (None, s)
    | Some text =>
      if negb (truthy text) || reminderAttempted s then (None, s)
      else (Some {| content := text;
                    observation := {| o_sessionId := sessionId ctx; o_turnId := turnId ctx;
                                      o_agentName := agentName ctx; o_signalKind := k;
                                      o_stepIndex := stepIndex s;
                                      o_occurrences := afterOccurrences |} |},
            set_reminder true (reminderInjected s) s)
    end
  else takePreferred_loop rest cands ctx s afterOccurrences
end.

Definition takePreferredReminder (cands : list RunawayGuardSignalKind) (ctx : RunawayGuardRunIdentity)
  (s : ShadowState) (afterOccurrences : nat) : option RunawayGuardReminder * ShadowState :=
takePreferred_loop REMINDER_CANDIDATE_PRIORITY cands ctx s afterOccurrences.
End State.

Arguments ShadowState : clear implicits.
Arguments Detection : clear implicits.

(** ** Lemmas *)

(** How often [key] occurs in a step, and its streak in a map. *)
Definition occ_count (key : jstr) (l : list jstr) : nat := length (List.filter (str_eqb key) l).
Definition streak_of (key : jstr) (m : jmap jstr nat) : nat := default 0 (jget key m).

Lemma occ_count_snoc key l v :
  occ_count key (l ++ [v]) = occ_count key l + (if str_eqb key v then 1 else 0).
Proof.
  unfold occ_count. rewrite List.filter_app, length_app. simpl. by destruct (str_eqb key v).
Qed.

Lemma occ_count_pos key l : 0 < occ_count key l <-> key ∈ l.
Proof.
  unfold occ_count, str_eqb. induction l as [|v l IH]; simpl.
  - rewrite elem_of_nil. lia.
  - rewrite elem_of_cons. destruct (bool_decide_reflect (key = v)) as [->|]; simpl; [|naive_solver].
    split; [auto|lia].
Qed.

Lemma occurrenceCounts_snoc l v :
  occurrenceCounts (l ++ [v])
  = jset v (default 0 (jget v (occurrenceCounts l)) + 1) (occurrenceCounts l).
Proof. unfold occurrenceCounts. by rewrite fold_left_app. Qed.

Lemma occurrenceCounts_get key l :
  jget key (occurrenceCounts l) = if decide (key ∈ l) then Some (occ_count key l) else None.
Proof.
  induction l as [|v l IH] using rev_ind; [done|].
  rewrite occurrenceCounts_snoc, jget_jset, occ_count_snoc. unfold str_eqb.
  destruct (decide (key = v)) as [->|Hne].
  - rewrite IH, bool_decide_eq_true_2, (decide_True (P := v ∈ l ++ [v])) by (done || apply elem_of_app; right; left).
    destruct (decide (v ∈ l)) as [|Hn]; [done|]. rewrite <- occ_count_pos in Hn.
    replace (occ_count v l) with 0 by lia. done.
  - rewrite IH, bool_decide_eq_false_2, Nat.add_0_r by done.
    destruct (decide (key ∈ l)) as [Hin|Hn], (decide (key ∈ l ++ [v])) as [Hin'|Hn']; try done.
    + destruct Hn'. apply elem_of_app. by left.
    + apply elem_of_app in Hin' as [?|?%list_elem_of_singleton]; done.
Qed.

Lemma occurrenceCounts_NoDup l : NoDup (jkeys (occurrenceCounts l)).
Proof.
  induction l as [|v l IH] using rev_ind; [constructor|].
  rewrite occurrenceCounts_snoc. by apply jset_NoDup.
Qed.

Lemma elem_of_counts key n l : (key, n) ∈ occurrenceCounts l <-> key ∈ l /\ n = occ_count key l.
Proof.
  pose proof (occurrenceCounts_NoDup l) as Hnd. pose proof (occurrenceCounts_get key l) as Hg. split.
  - intros Hin. rewrite (elem_jget _ _ _ Hnd Hin) in Hg. by destruct (decide (key ∈ l)); simplify_eq.
  - intros [Hin ->]. rewrite decide_True in Hg by done. by apply jget_Some_elem in Hg.
Qed.

(** The streaks after a step, without the effects. *)
Definition nextStreaks (previous : jmap jstr nat) (current : list jstr) : jmap jstr nat :=
  fold_left (fun next e => jset (fst e) (streak_of (fst e) previous + snd e) next)
    (occurrenceCounts current) [].

Lemma fold_jset_get {V W} (f : jstr * W -> V) (l : jmap jstr W) (m : jmap jstr V) key :
  NoDup (jkeys l) ->
  jget key (fold_left (fun m e => jset (fst e) (f e) m) l m)
  = match jget key l with Some w => Some (f (key, w)) | None => jget key m end.
Proof.
  revert m; induction l as [|[k w] l IH]; intros m; simpl; [done|].
  intros Hnd. apply NoDup_cons in Hnd as [Hk Hnd].
  rewrite IH by done. destruct (decide (key = k)) as [->|Hne].
  - apply jget_None_keys in Hk as ->. by rewrite jget_jset_eq.
  - destruct (jget key l); [done|]. by rewrite jget_jset_ne.
Qed.

Lemma streak_nextStreaks key previous current :
  streak_of key (nextStreaks previous current)
  = if decide (key ∈ current) then streak_of key previous + occ_count key current else 0.
Proof.
  unfold streak_of at 1, nextStreaks.
  rewrite (fold_jset_get (fun e => streak_of e.1 previous + e.2)) by apply occurrenceCounts_NoDup.
  rewrite occurrenceCounts_get. by destruct (decide (key ∈ current)).
Qed.

Section Facts.
Context {Secret : Type}.
Implicit Types (s : ShadowState Secret) (d : Detection Secret).

(** The detectors change nothing of the state but the statistics. *)
Definition stats_only s s' : Prop := exists st, s' = set_stats st s.

Lemma stats_only_refl s : stats_only s s.
Proof. exists (signalStats s). by destruct s. Qed.

Lemma stats_only_trans s1 s2 s3 : stats_only s1 s2 -> stats_only s2 s3 -> stats_only s1 s3.
Proof. intros [a ->] [b ->]. by exists b. Qed.

Lemma stats_only_record k n s : stats_only s (recordMaxOccurrences k n s).
Proof. by eexists. Qed.

Lemma stats_only_emit ctx obs k n d : stats_only (state d) (state (emitObservation ctx obs k n d)).
Proof. by eexists. Qed.

Lemma stats_only_note ctx obs k prior occ d :
  stats_only (state d) (state (noteOccurrences ctx obs k prior occ d)).
Proof.
  unfold noteOccurrences. eapply stats_only_trans; [apply (stats_only_record k occ)|].
  destruct (crossed prior occ 2); [|apply stats_only_refl].
  eapply stats_only_trans; [|apply stats_only_emit]. apply stats_only_refl.
Qed.

Lemma candidates_note ctx obs k prior occ d :
  candidates (noteOccurrences ctx obs k prior occ d) = candidates d.
Proof. unfold noteOccurrences. by destruct (crossed prior occ 2). Qed.

Lemma elem_of_candidate k k' d :
  k' ∈ candidates (addReminderCandidate k d) <-> k' = k \/ k' ∈ candidates d.
Proof.
  unfold addReminderCandidate; simpl. case_bool_decide; [naive_solver|].
  rewrite elem_of_app, list_elem_of_singleton. naive_solver.
Qed.

Definition due (previous : jmap jstr nat) (k : RunawayGuardSignalKind) (threshold : option nat)
    (e : Eligibility) (entry : jstr * nat) : bool :=
  eligible e (fst entry)
  && crossed_threshold threshold (streak_of (fst entry) previous)
       (streak_of (fst entry) previous + snd entry)
  && isReminderSignalKind k.

Lemma observeKey_spec ctx obs previous k threshold e next d entry :
  let r := observeKey ctx obs previous k threshold e (next, d) entry in
  fst r = jset (fst entry) (streak_of (fst entry) previous + snd entry) next
  /\ stats_only (state d) (state (snd r))
  /\ (forall k', k' ∈ candidates (snd r)
        <-> k' ∈ candidates d \/ (k' = k /\ due previous k threshold e entry = true)).
Proof.
  destruct entry as [key count]. unfold due; cbn [fst snd observeKey].
  fold (streak_of key previous).
  split; [done|].
  destruct (_ && isReminderSignalKind k) eqn:E; (split; [apply stats_only_note|]); intros k'.
  - rewrite elem_of_candidate, candidates_note. naive_solver.
  - rewrite candidates_note. naive_solver.
Qed.

Lemma observeFold_spec ctx obs previous k threshold e l : forall next d,
  let r := fold_left (observeKey ctx obs previous k threshold e) l (next, d) in
  fst r = fold_left (fun n x => jset (fst x) (streak_of (fst x) previous + snd x) n) l next
  /\ stats_only (state d) (state (snd r))
  /\ (forall k', k' ∈ candidates (snd r)
        <-> k' ∈ candidates d \/ (k' = k /\ exists x, x ∈ l /\ due previous k threshold e x = true)).
Proof.
  induction l as [|x l IH]; intros next d; cbn [fold_left].
  - split; [done|]. split; [apply stats_only_refl|]. intros k'. cbn [snd]. split; [by left|].
    intros [?|(_ & x & Hx & _)]; [done|]. by apply elem_of_nil in Hx.
  - destruct (observeKey_spec ctx obs previous k threshold e next d x) as (Hn & Hs & Hc).
    destruct (observeKey _ _ _ _ _ _ _ x) as [next1 d1]. cbn [fst snd] in Hn, Hs, Hc. subst next1.
    destruct (IH (jset (fst x) (streak_of (fst x) previous + snd x) next) d1) as (Hn' & Hs' & Hc').
    split; [done|]. split; [by eapply stats_only_trans|]. intros k'. rewrite Hc', Hc.
    setoid_rewrite elem_of_cons. naive_solver.
Qed.

Lemma observeRepeatedKeys_spec ctx obs previous current k threshold e d :
  let r := observeRepeatedKeys ctx obs previous current k threshold e d in
  fst r = nextStreaks previous current
  /\ stats_only (state d) (state (snd r))
  /\ (forall k', k' ∈ candidates (snd r)
        <-> k' ∈ candidates d
            \/ (k' = k /\ exists key, key ∈ current
                /\ due previous k threshold e (key, occ_count key current) = true)).
Proof.
  destruct (observeFold_spec ctx obs previous k threshold e (occurrenceCounts current) [] d)
    as (Hn & Hs & Hc).
  split; [done|]. split; [done|]. intros k'. unfold observeRepeatedKeys. rewrite Hc.
  setoid_rewrite <- (and_comm (due _ _ _ _ _ = true)).
  split; (intros [?|[-> H]]; [by left|right; split; [done|]]).
  - destruct H as ([key n] & Hd & Hin). apply elem_of_counts in Hin as [Hin ->]. eauto.
  - destruct H as (key & Hd & Hin). exists (key, occ_count key current).
    split; [done|]. by apply elem_of_counts.
Qed.

Lemma observeProgressView_spec ctx obs previous threshold l view :
  let r := observeProgressView ctx obs previous threshold l view in
  stats_only (state (detection l)) (state (detection r))
  /\ (forall k', k' ∈ candidates (detection r) ->
        k' ∈ candidates (detection l) \/ k' = unchanged_progress_repeat)
  /\ (forall k', k' ∈ candidates (detection l) -> k' ∈ candidates (detection r)).
Proof.
  destruct view as [kind key pkey verified continuous elig|key|]; cbn [observeProgressView];
    try (by split; [apply stats_only_refl|auto]).
  destruct verified; [by split; [apply stats_only_refl|auto]|]. cbn [detection].
  match goal with |- context [if ?b then addReminderCandidate _ ?d else _] => destruct b end;
    (split; [apply stats_only_note|]).
  - split; intros k'; rewrite elem_of_candidate, candidates_note; naive_solver.
  - rewrite candidates_note. by auto.
Qed.

Lemma progressFold_spec ctx obs previous threshold views : forall l,
  let r := fold_left (observeProgressView ctx obs previous threshold) views l in
  stats_only (state (detection l)) (state (detection r))
  /\ (forall k', k' ∈ candidates (detection r) ->
        k' ∈ candidates (detection l) \/ k' = unchanged_progress_repeat)
  /\ (forall k', k' ∈ candidates (detection l) -> k' ∈ candidates (detection r)).
Proof.
  induction views as [|v views IH]; intros l; cbn [fold_left].
  - split; [apply stats_only_refl|]. split; auto.
  - destruct (observeProgressView_spec ctx obs previous threshold l v) as (Hs & Hc & Hk).
    destruct (IH (observeProgressView ctx obs previous threshold l v)) as (Hs' & Hc' & Hk').
    split; [by eapply stats_only_trans|]. split; [|by auto].
    intros k' Hin. apply Hc' in Hin as [Hin|?]; [|by right]. by apply Hc in Hin.
Qed.

Lemma observeProgress_spec ctx obs current threshold d :
  let r := observeProgress ctx obs current threshold d in
  stats_only (state d) (state (snd r))
  /\ (forall k', k' ∈ candidates (snd r) ->
        k' ∈ candidates d \/ k' = unchanged_progress_repeat \/ k' = polling_repeat)
  /\ (forall k', k' ∈ candidates d -> k' ∈ candidates (snd r)).
Proof.
  unfold observeProgress; cbn [snd]. set (l0 := Build_ProgressLoop _ _ _).
  destruct (progressFold_spec ctx obs (progressStreaks (state d)) threshold current l0) as (Hs & Hc & Hk).
  destruct (existsb _ _).
  - split; [exact Hs|]. split; intros k'; rewrite elem_of_candidate; [|by auto].
    intros [->|Hin]; [by auto|]. apply Hc in Hin. tauto.
  - split; [exact Hs|]. split; [|exact Hk]. intros k' Hin. apply Hc in Hin. tauto.
Qed.

Lemma observeAbab_spec ctx obs current d :
  (exists r a, stats_only (set_abab r a (state d)) (state (observeAbab ctx obs current d)))
  /\ candidates (observeAbab ctx obs current d) = candidates d.
Proof.
  unfold observeAbab. destruct current as [[|c cur]|];
    try (split; [do 2 eexists; apply stats_only_refl|done]).
  set (recent := if (4 <? _)%nat then _ else _).
  assert (H1 : exists r a, stats_only (set_abab r a (state d)) (set_abab recent (activeAbabKey (state d)) (state d)))
    by (do 2 eexists; apply stats_only_refl).
  assert (H2 : exists r a, stats_only (set_abab r a (state d)) (set_abab recent None (state d)))
    by (do 2 eexists; apply stats_only_refl).
  destruct recent as [|a [|b [|c' [|e rest]]]]; try (split; [exact H1|done]).
  destruct (_ || negb (bool_decide (b = e))); [split; [exact H2|done]|].
  case_bool_decide; [split; [exact H1|done]|]. split; [|done].
  do 2 eexists. apply stats_only_emit.
Qed.

(** The keys of a step whose streak crosses the threshold. *)
Definition crossing (previous : jmap jstr nat) (current : list jstr) (n : nat) (key : jstr) : Prop :=
  key ∈ current
  /\ crossed (streak_of key previous) (streak_of key previous + occ_count key current) n = true.

Lemma due_all previous current threshold :
  (exists key, key ∈ current
     /\ due previous exact_action_repeat threshold (EligibleAll true) (key, occ_count key current) = true)
  <-> exists n key, threshold = Some n /\ crossing previous current n key.
Proof.
  unfold crossing, due; cbn [fst snd eligible].
  change (isReminderSignalKind exact_action_repeat) with true.
  destruct threshold as [n|]; simpl; split.
  - intros (key & Hin & H). rewrite andb_true_r in H. by exists n, key.
  - intros (m & key & [= <-] & Hin & H). exists key. by rewrite andb_true_r.
  - by intros (key & _ & ?).
  - by intros (m & key & ? & _).
Qed.

Lemma due_set previous current threshold keys :
  (exists key, key ∈ current
     /\ due previous same_error_family threshold (EligibleSet keys) (key, occ_count key current) = true)
  <-> exists n key, threshold = Some n /\ key ∈ keys /\ crossing previous current n key.
Proof.
  unfold crossing, due; cbn [fst snd eligible].
  change (isReminderSignalKind same_error_family) with true.
  destruct threshold as [n|]; simpl; split.
  - intros (key & Hin & H). rewrite andb_true_r in H.
    apply andb_true_iff in H as [Hk%bool_decide_eq_true H]. by exists n, key.
  - intros (m & key & [= <-] & Hk & Hin & H). exists key. by rewrite bool_decide_eq_true_2, H.
  - intros (key & _ & H). by rewrite andb_false_r in H.
  - by intros (m & key & ? & _).
Qed.

Lemma observeStep_spec ctx obs view threshold s log :
  let d := observeStep ctx obs view threshold s log in
  (exists r a ps st,
     state d = set_abab r a (set_stats st (set_streaks
       (nextStreaks (detectActionStreaks s) (detectActionKeys view))
       (nextStreaks (pollingActionStreaks s) (pollingActionKeys view))
       (nextStreaks (detectResultStreaks s) (detectResultKeys view))
       (nextStreaks (errorFamilyStreaks s) (errorFamilyKeys view)) ps s)))
  /\ (exact_action_repeat ∈ candidates d <->
        exists n key, threshold = Some n /\ crossing (detectActionStreaks s) (detectActionKeys view) n key)
  /\ (same_error_family ∈ candidates d <->
        exists n key, threshold = Some n /\ key ∈ remindableErrorFamilyKeys view
          /\ crossing (errorFamilyStreaks s) (errorFamilyKeys view) n key).
Proof.
  unfold observeStep. set (d0 := {| state := s; sent := log; candidates := [] |}).
  destruct (observeRepeatedKeys_spec ctx obs (detectActionStreaks s) (detectActionKeys view)
              exact_action_repeat threshold (EligibleAll true) d0) as (Hn1 & [st1 Hs1] & Hc1).
  destruct (observeRepeatedKeys _ _ _ (detectActionKeys view) _ _ _ _) as [da d1].
  cbn [fst snd] in Hn1, Hs1, Hc1. subst da. set (d1' := on_state _ d1).
  destruct (observeRepeatedKeys_spec ctx obs (pollingActionStreaks (state d1')) (pollingActionKeys view)
              polling_repeat threshold (EligibleAll false) d1') as (Hn2 & [st2 Hs2] & Hc2).
  destruct (observeRepeatedKeys _ _ _ (pollingActionKeys view) _ _ _ _) as [pa d2].
  cbn [fst snd] in Hn2, Hs2, Hc2. subst pa. set (d2' := on_state _ d2).
  destruct (observeRepeatedKeys_spec ctx obs (detectResultStreaks (state d2')) (detectResultKeys view)
              exact_result_repeat threshold (EligibleAll false) d2') as (Hn3 & [st3 Hs3] & Hc3).
  destruct (observeRepeatedKeys _ _ _ (detectResultKeys view) _ _ _ _) as [dr d3].
  cbn [fst snd] in Hn3, Hs3, Hc3. subst dr. set (d3' := on_state _ d3).
  destruct (observeRepeatedKeys_spec ctx obs (errorFamilyStreaks (state d3')) (errorFamilyKeys view)
              same_error_family threshold (EligibleSet (remindableErrorFamilyKeys view)) d3')
    as (Hn4 & [st4 Hs4] & Hc4).
  destruct (observeRepeatedKeys _ _ _ (errorFamilyKeys view) _ _ _ _) as [ef d4].
  cbn [fst snd] in Hn4, Hs4, Hc4. subst ef. set (d4' := on_state _ d4).
  destruct (observeProgress_spec ctx obs (progress view) threshold d4') as ([st5 Hs5] & Hc5 & Hk5).
  destruct (observeProgress _ _ _ _ _) as [ps d5]. cbn [snd] in Hs5, Hc5, Hk5.
  set (d5' := on_state _ d5).
  destruct (observeAbab_spec ctx obs (detectActionBatchKey view) d5') as ((r & a & [st6 Hs6]) & Hc6).
  assert (Hcand : forall k, k <> unchanged_progress_repeat -> k <> polling_repeat ->
    k ∈ candidates (observeAbab ctx obs (detectActionBatchKey view) d5') <-> k ∈ candidates d4).
  { intros k Hk1 Hk2. rewrite Hc6. unfold d5'; cbn [candidates on_state]. split; [|apply Hk5].
    intros Hin. apply Hc5 in Hin. cbn [d4' candidates on_state] in Hin. tauto. }
  assert (Hef : errorFamilyStreaks (state d3') = errorFamilyStreaks s).
  { unfold d3', d2', d1' in *; cbn [state on_state] in *. by rewrite Hs3, Hs2, Hs1. }
  rewrite Hef in Hc4. split; [|split].
  - exists r, a, ps, st6. rewrite Hs6. unfold d5', d4', d3', d2', d1' in *; cbn [state on_state] in *.
    by rewrite Hs5, Hs4, Hs3, Hs2, Hs1.
  - rewrite Hcand by done. change (candidates d3') with (candidates d3) in Hc4.
    change (candidates d2') with (candidates d2) in Hc3.
    change (candidates d1') with (candidates d1) in Hc2.
    rewrite Hc4, Hc3, Hc2, Hc1, <- due_all. clear. split; [|by left; left; left; right].
    by intros [[[[?%elem_of_nil|[_ H]]|[? _]]|[? _]]|[? _]].
  - rewrite Hcand by done. change (candidates d3') with (candidates d3) in Hc4.
    change (candidates d2') with (candidates d2) in Hc3.
    change (candidates d1') with (candidates d1) in Hc2.
    rewrite Hc4, Hc3, Hc2, Hc1, <- due_set. clear. split; [|by right].
    by intros [[[[?%elem_of_nil|[? _]]|[? _]]|[? _]]|[_ H]].
Qed.

(** *** The statistics are the log *)
Definition of_kind (k : RunawayGuardSignalKind) (log : list RunawayGuardObservation) :
    list RunawayGuardObservation :=
  List.filter (fun o => bool_decide (o_signalKind o = k)) log.

(** What the statistics of a run say about the observations sent for it. *)
Definition stats_of (stats : MutableSignalStats) (log : list RunawayGuardObservation) : Prop :=
  episodeCount stats = length log
  /\ firstStepIndex stats = o_stepIndex <$> head log
  /\ lastStepIndex stats = o_stepIndex <$> last log
  /\ Forall (fun o => o_occurrences o <= maxOccurrences stats) log.

Definition stat_log s (log : list RunawayGuardObservation) : Prop :=
  forall k, stats_of (signalStats s k) (of_kind k log).

Lemma stat_log_set s s' log : signalStats s' = signalStats s -> stat_log s log -> stat_log s' log.
Proof. unfold stat_log. by intros ->. Qed.

Lemma stat_log_record k n s log : stat_log s log -> stat_log (recordMaxOccurrences k n s) log.
Proof.
  intros H k'. specialize (H k'). unfold recordMaxOccurrences, upd_stats; simpl.
  destruct (decide (k' = k)) as [->|]; [|done]. destruct H as (H1 & H2 & H3 & H4).
  split; [done|]. split; [done|]. split; [done|]. simpl.
  eapply Forall_impl; [exact H4|]. simpl. lia.
Qed.

Lemma stat_log_emit ctx k n d :
  stat_log (state d) (sent d) ->
  stat_log (state (emitObservation ctx true k n d)) (sent (emitObservation ctx true k n d)).
Proof.
  intros H k'. specialize (H k'). unfold emitObservation, recordMaxOccurrences, upd_stats; simpl.
  unfold of_kind in *. rewrite List.filter_app; simpl.
  destruct (decide (k' = k)) as [->|Hne].
  - rewrite bool_decide_eq_true_2 by done. rewrite decide_True by done; simpl.
    destruct H as (H1 & H2 & H3 & H4). unfold stats_of; simpl. rewrite length_app, last_snoc, H1; simpl.
    split; [done|]. split; [|split; [done|]].
    + rewrite H2. by destruct (List.filter _ (sent d)).
    + apply Forall_app; split; [eapply Forall_impl; [exact H4|]; simpl; lia|].
      repeat constructor; simpl; lia.
  - rewrite bool_decide_eq_false_2 by congruence. by rewrite app_nil_r.
Qed.

Lemma stat_log_note ctx k prior occ d :
  stat_log (state d) (sent d) ->
  stat_log (state (noteOccurrences ctx true k prior occ d)) (sent (noteOccurrences ctx true k prior occ d)).
Proof.
  intros H. unfold noteOccurrences. destruct (crossed prior occ 2).
  - apply stat_log_emit. by apply stat_log_record.
  - by apply stat_log_record.
Qed.

Lemma fold_left_preserves {A B} (P : A -> Prop) (f : A -> B -> A) l a :
  (forall a b, P a -> P (f a b)) -> P a -> P (fold_left f l a).
Proof. intros Hf. revert a; induction l as [|b l IH]; simpl; auto. Qed.

Lemma stat_log_repeated ctx previous current k threshold e d :
  stat_log (state d) (sent d) ->
  let r := snd (observeRepeatedKeys ctx true previous current k threshold e d) in
  stat_log (state r) (sent r).
Proof.
  intros H. unfold observeRepeatedKeys.
  apply (fold_left_preserves (fun a => stat_log (state (snd a)) (sent (snd a)))); [|done].
  intros [n d1] [key c] H1. cbn [observeKey snd] in *.
  destruct (_ && isReminderSignalKind k); by apply stat_log_note.
Qed.

Lemma stat_log_progress ctx current threshold d :
  stat_log (state d) (sent d) ->
  let r := snd (observeProgress ctx true current threshold d) in stat_log (state r) (sent r).
Proof.
  intros H. unfold observeProgress; cbn [snd].
  set (l := fold_left _ _ _).
  assert (Hl : stat_log (state (detection l)) (sent (detection l))).
  { apply (fold_left_preserves (fun l => stat_log (state (detection l)) (sent (detection l)))); [|done].
    intros l1 [kind key pkey verified continuous elig|key|] H1; cbn [observeProgressView]; try done.
    destruct verified; [done|]. cbn [detection].
    match goal with |- context [if ?b then addReminderCandidate _ _ else _] => destruct b end;
      by apply stat_log_note. }
  by destruct (existsb _ _).
Qed.

Lemma stat_log_abab ctx current d :
  stat_log (state d) (sent d) ->
  let r := observeAbab ctx true current d in stat_log (state r) (sent r).
Proof.
  intros H. unfold observeAbab. destruct current as [[|c cur]|]; try done.
  set (recent := if (4 <? _)%nat then _ else _).
  destruct recent as [|a [|b [|c' [|e rest]]]]; try done.
  destruct (_ || negb (bool_decide (b = e))); [done|].
  case_bool_decide; [done|]. by apply stat_log_emit.
Qed.

Lemma stat_log_step ctx view threshold s log :
  stat_log s log ->
  let d := observeStep ctx true view threshold s log in stat_log (state d) (sent d).
Proof.
  intros H. unfold observeStep. set (d0 := {| state := s; sent := log; candidates := [] |}).
  assert (H0 : stat_log (state d0) (sent d0)) by done.
  apply (stat_log_repeated ctx (detectActionStreaks s) (detectActionKeys view) exact_action_repeat
           threshold (EligibleAll true)) in H0.
  destruct (observeRepeatedKeys _ _ _ (detectActionKeys view) _ _ _ _) as [da d1]; cbn [snd] in H0.
  set (d1' := on_state _ d1). assert (H1 : stat_log (state d1') (sent d1')) by exact H0.
  apply (stat_log_repeated ctx (pollingActionStreaks (state d1')) (pollingActionKeys view) polling_repeat
           threshold (EligibleAll false)) in H1.
  destruct (observeRepeatedKeys _ _ _ (pollingActionKeys view) _ _ _ _) as [pa d2]; cbn [snd] in H1.
  set (d2' := on_state _ d2). assert (H2 : stat_log (state d2') (sent d2')) by exact H1.
  apply (stat_log_repeated ctx (detectResultStreaks (state d2')) (detectResultKeys view) exact_result_repeat
           threshold (EligibleAll false)) in H2.
  destruct (observeRepeatedKeys _ _ _ (detectResultKeys view) _ _ _ _) as [dr d3]; cbn [snd] in H2.
  set (d3' := on_state _ d3). assert (H3 : stat_log (state d3') (sent d3')) by exact H2.
  apply (stat_log_repeated ctx (errorFamilyStreaks (state d3')) (errorFamilyKeys view) same_error_family
           threshold (EligibleSet (remindableErrorFamilyKeys view))) in H3.
  destruct (observeRepeatedKeys _ _ _ (errorFamilyKeys view) _ _ _ _) as [ef d4]; cbn [snd] in H3.
  set (d4' := on_state _ d4). assert (H4 : stat_log (state d4') (sent d4')) by exact H3.
  apply (stat_log_progress ctx (progress view) threshold) in H4.
  destruct (observeProgress _ _ _ _ _) as [ps d5]; cbn [snd] in H4.
  apply stat_log_abab. exact H4.
Qed.

(** ** Runs of the detectors *)

(** A step of a turn: [stepIndex += 1], then the detectors. *)
Definition detectStep ctx obs (x : ShadowState Secret * list RunawayGuardObservation)
    (step : StepView * option nat) : ShadowState Secret * list RunawayGuardObservation :=
  let s := set_stepIndex (stepIndex (fst x) + 1) (fst x) in
  let d := observeStep ctx obs (fst step) (snd step) s (snd x) in
  (state d, sent d).

Definition detectAll ctx obs (steps : list (StepView * option nat)) (s : ShadowState Secret) :
    ShadowState Secret * list RunawayGuardObservation :=
  fold_left (detectStep ctx obs) steps (s, []).

(** The reference: how often [key] occurred over the longest suffix of the steps
    whose every step has it; the steps come latest first. *)
Fixpoint trailing (key : jstr) (steps : list (list jstr)) : nat :=
  match steps with
  | [] => 0
  | step :: older => if decide (key ∈ step) then occ_count key step + trailing key older else 0
  end.

Definition history (field : StepView -> list jstr) (steps : list (StepView * option nat)) : list (list jstr) :=
  rev (map (fun x => field (fst x)) steps).

Lemma detectAll_snoc ctx obs steps step s :
  detectAll ctx obs (steps ++ [step]) s = detectStep ctx obs (detectAll ctx obs steps s) step.
Proof. unfold detectAll. by rewrite fold_left_app. Qed.

Lemma history_snoc field steps step :
  history field (steps ++ [step]) = field (fst step) :: history field steps.
Proof. unfold history. by rewrite map_app, rev_app_distr. Qed.

Lemma streaks_trailing ctx obs secret steps key :
  let s := fst (detectAll ctx obs steps (newShadowState secret)) in
  streak_of key (detectActionStreaks s) = trailing key (history detectActionKeys steps)
  /\ streak_of key (pollingActionStreaks s) = trailing key (history pollingActionKeys steps)
  /\ streak_of key (detectResultStreaks s) = trailing key (history detectResultKeys steps)
  /\ streak_of key (errorFamilyStreaks s) = trailing key (history errorFamilyKeys steps).
Proof.
  induction steps as [|step steps IH] using rev_ind; [done|].
  rewrite detectAll_snoc, !history_snoc. destruct (detectAll ctx obs steps _) as [s log].
  cbn [fst] in IH. destruct IH as (I1 & I2 & I3 & I4). unfold detectStep; cbn [fst snd].
  destruct (observeStep_spec ctx obs (fst step) (snd step) (set_stepIndex (stepIndex s + 1) s) log)
    as [(r & a & ps & st & ->) _].
  cbn [detectActionStreaks pollingActionStreaks detectResultStreaks errorFamilyStreaks
       set_abab set_stats set_streaks set_stepIndex trailing].
  rewrite !streak_nextStreaks, I1, I2, I3, I4. repeat split; case_decide; lia.
Qed.

Lemma crossing_trailing key current older n m :
  streak_of key m = trailing key older ->
  crossing m current n key <-> trailing key older < n <= trailing key (current :: older).
Proof.
  intros Hm. unfold crossing, crossed. rewrite Hm, andb_true_iff, Nat.ltb_lt, Nat.leb_le. simpl.
  case_decide; [intuition lia|]. split; [tauto|lia].
Qed.

(** *** ABAB cycles *)

(** Batches, latest first, up to the last step without one. *)
Fixpoint somes (l : list (option jstr)) : list jstr :=
  match l with Some x :: l' => x :: somes l' | _ => [] end.

(** The last four batches read A, B, A, B with A and B different. *)
Definition alternates (l : list (option jstr)) : bool :=
  match somes l with
  | w :: z :: y :: x :: _ => bool_decide (x = z) && bool_decide (y = w) && negb (bool_decide (x = y))
  | _ => false
  end.

(** A batch key: not empty, without NUL. *)
Definition batch_ok (b : option jstr) : bool :=
  match b with Some k => truthy k && negb (bool_decide (0%N ∈ k)) | None => true end.

Definition abab_inv (hist : list (option jstr)) (s : ShadowState Secret) : Prop :=
  recentActionBatches s = rev (take 4 (somes hist))
  /\ match activeAbabKey s with
     | None => True
     | Some e => exists a b rest, somes hist = b :: a :: b :: a :: rest /\ a <> b /\ e = a ++ [0%N] ++ b
     end.

Lemma nul_split (a b c d : jstr) :
  (0%N ∉ a) -> (0%N ∉ c) -> a ++ [0%N] ++ b = c ++ [0%N] ++ d -> a = c /\ b = d.
Proof.
  revert c; induction a as [|x a IH]; intros [|y c]; simpl; intros Ha Hc Heq; simplify_eq.
  - done.
  - by destruct Hc; left.
  - by destruct Ha; left.
  - rewrite elem_of_cons in Ha, Hc. destruct (IH c) as [-> ->]; [tauto..|done|done].
Qed.

Lemma somes_ok hist : Forall (fun b => batch_ok b = true) hist ->
  Forall (fun k => truthy k = true /\ 0%N ∉ k) (somes hist).
Proof.
  induction 1 as [|[k|] hist Hk _ IH]; simpl; [constructor| |constructor].
  constructor; [|done]. apply andb_true_iff in Hk as [Ht Hn%negb_true_iff].
  by apply bool_decide_eq_false in Hn.
Qed.

Definition ababObservation ctx (s : ShadowState Secret) : RunawayGuardObservation :=
  {| o_sessionId := sessionId ctx; o_turnId := turnId ctx; o_agentName := agentName ctx;
     o_signalKind := abab_action_cycle; o_stepIndex := stepIndex s; o_occurrences := 2 |}.

Lemma abab_window (l : list jstr) cur :
  (if (4 <? length (rev (take 4 l) ++ [cur]))%nat then drop 1 (rev (take 4 l) ++ [cur])
   else rev (take 4 l) ++ [cur]) = rev (take 4 (cur :: l)).
Proof. by destruct l as [|? [|? [|? [|? l]]]]. Qed.

Lemma observeAbab_step ctx hist cur d :
  Forall (fun b => batch_ok b = true) (cur :: hist) -> abab_inv hist (state d) ->
  abab_inv (cur :: hist) (state (observeAbab ctx true cur d))
  /\ sent (observeAbab ctx true cur d)
     = sent d ++ (if alternates (cur :: hist) then [ababObservation ctx (state d)] else []).
Proof.
  intros Hok [Hr Ha]. apply Forall_cons in Hok as [Hcur Hok]. apply somes_ok in Hok.
  destruct cur as [cur|]; [|simpl; rewrite app_nil_r; by repeat split].
  cbn [batch_ok] in Hcur. apply andb_true_iff in Hcur as [Ht Hn%negb_true_iff].
  apply bool_decide_eq_false in Hn. unfold observeAbab. destruct cur as [|c cur]; [done|].
  rewrite Hr, abab_window. unfold alternates, abab_inv. cbn [somes]. generalize dependent (c :: cur).
  clear c cur. intros cur _ Hn.
  destruct (somes hist) as [|z [|y [|x rest]]] eqn:Es.
  1-3: cbn [take rev app]; rewrite app_nil_r; cbn [sent on_state state set_abab recentActionBatches activeAbabKey];
    split; [split; [done|]|done]; destruct (activeAbabKey _); [|done];
    destruct Ha as (? & ? & ? & [=] & _).
  change (rev (take 4 (cur :: z :: y :: x :: rest))) with [x; y; z; cur]. cbn iota.
  assert (Hsix : truthy x = true /\ truthy y = true /\ (0%N ∉ x) /\ (0%N ∉ y) /\ (0%N ∉ z)).
  { rewrite !Forall_cons in Hok. tauto. }
  destruct Hsix as (Hx & Hy & Hnx & Hny & Hnz). rewrite Hx, Hy. cbn [negb orb].
  destruct (bool_decide_reflect (x = y)) as [Hxy|Hxy].
  { rewrite !andb_false_r, app_nil_r. by repeat split. }
  destruct (bool_decide_reflect (x = z)) as [Hxz|Hxz].
  2: { cbn [negb orb andb]. rewrite app_nil_r. by repeat split. }
  destruct (bool_decide_reflect (y = cur)) as [Hyw|Hyw].
  2: { cbn [negb orb andb]. rewrite app_nil_r. by repeat split. }
  subst z cur. cbn [negb orb andb].
  rewrite bool_decide_eq_false_2.
  - split; [|done]. split; [done|]. by exists x, y, rest.
  - intros Hact. rewrite Hact in Ha. destruct Ha as (a & b & rest' & Heq & Hab & He).
    simplify_eq. apply nul_split in He as [-> _]; done.
Qed.

Lemma ababRun_inv ctx batches s :
  recentActionBatches s = [] -> activeAbabKey s = None ->
  Forall (fun b => batch_ok b = true) batches ->
  abab_inv (rev batches)
    (state (fold_left (fun d b => observeAbab ctx true b d) batches
              {| state := s; sent := []; candidates := [] |})).
Proof.
  intros Hr Ha. induction batches as [|b batches IH] using rev_ind; intros Hok.
  - split; simpl; [done|]. by rewrite Ha.
  - apply Forall_app in Hok as [Hok Hb]. rewrite fold_left_app, rev_app_distr. cbn [fold_left rev app].
    apply observeAbab_step; [|by apply IH]. constructor; [by inversion Hb|]. by apply Forall_rev.
Qed.

(** *** The log is only appended to: what was sent before does not matter *)
Definition relog (pre : list RunawayGuardObservation) d : Detection Secret :=
  {| state := state d; sent := pre ++ sent d; candidates := candidates d |}.

Lemma note_relog ctx obs k prior occ pre d :
  noteOccurrences ctx obs k prior occ (relog pre d) = relog pre (noteOccurrences ctx obs k prior occ d).
Proof.
  unfold noteOccurrences, emitObservation, relog. destruct (crossed prior occ 2); [|done].
  destruct obs; [|done]. simpl. by rewrite app_assoc.
Qed.

Lemma observeKey_relog ctx obs previous k threshold e pre nx d entry :
  observeKey ctx obs previous k threshold e (nx, relog pre d) entry
  = (fst (observeKey ctx obs previous k threshold e (nx, d) entry),
     relog pre (snd (observeKey ctx obs previous k threshold e (nx, d) entry))).
Proof.
  destruct entry as [key count]. cbn [observeKey fst snd]. rewrite note_relog.
  by destruct (_ && isReminderSignalKind k).
Qed.

Lemma repeated_relog ctx obs previous current k threshold e pre d :
  observeRepeatedKeys ctx obs previous current k threshold e (relog pre d)
  = (fst (observeRepeatedKeys ctx obs previous current k threshold e d),
     relog pre (snd (observeRepeatedKeys ctx obs previous current k threshold e d))).
Proof.
  unfold observeRepeatedKeys. generalize (@nil (jstr * nat)) as nx.
  generalize (occurrenceCounts current) as l. intros l; revert d.
  induction l as [|x l IH]; intros d nx; [done|]. cbn [fold_left]. rewrite observeKey_relog.
  rewrite IH. by destruct (observeKey _ _ _ _ _ _ _ x).
Qed.

Lemma progress_relog ctx obs current threshold pre d :
  observeProgress ctx obs current threshold (relog pre d)
  = (fst (observeProgress ctx obs current threshold d),
     relog pre (snd (observeProgress ctx obs current threshold d))).
Proof.
  unfold observeProgress; cbn [state relog].
  set (re := fun l => {| next := next l; pollingCandidates := pollingCandidates l;
                         detection := relog pre (detection l) |}).
  assert (Hfold : forall previous views l,
    fold_left (observeProgressView ctx obs previous threshold) views (re l)
    = re (fold_left (observeProgressView ctx obs previous threshold) views l)).
  { intros previous views. induction views as [|v views IH]; intros l; [done|]. cbn [fold_left].
    rewrite <- IH. f_equal. destruct v as [kind key pkey verified continuous elig|key|]; try done.
    cbn [observeProgressView]. destruct verified; [done|]. unfold re; cbn [next pollingCandidates detection].
    rewrite note_relog. f_equal.
    by match goal with |- context [if ?b then addReminderCandidate _ _ else _] => destruct b end. }
  specialize (Hfold (progressStreaks (state d)) current
    {| next := List.filter (fun e => continuousPolling e.2) (progressStreaks (state d));
       pollingCandidates := []; detection := d |}).
  unfold re in Hfold at 1; cbn [next pollingCandidates detection] in Hfold. rewrite Hfold.
  unfold re; cbn [next pollingCandidates detection fst snd]. f_equal. by destruct (existsb _ _).
Qed.

Lemma abab_relog ctx obs current pre d :
  observeAbab ctx obs current (relog pre d) = relog pre (observeAbab ctx obs current d).
Proof.
  unfold observeAbab. cbn [state relog]. destruct current as [[|c cur]|]; try done.
  set (recent := if (4 <? _)%nat then _ else _).
  destruct recent as [|a [|b [|c' [|e rest]]]]; try done.
  destruct (_ || negb (bool_decide (b = e))); [done|]. case_bool_decide; [done|].
  unfold emitObservation, relog. destruct obs; [|done]. simpl. by rewrite app_assoc.
Qed.

Lemma observeStep_relog ctx obs view threshold s pre log :
  observeStep ctx obs view threshold s (pre ++ log) = relog pre (observeStep ctx obs view threshold s log).
Proof.
  unfold observeStep.
  change {| state := s; sent := pre ++ log; candidates := [] |}
    with (relog pre {| state := s; sent := log; candidates := [] |}).
  rewrite repeated_relog. destruct (observeRepeatedKeys _ _ _ (detectActionKeys view) _ _ _ _) as [da d1].
  cbn [fst snd]. change (on_state ?f (relog pre d1)) with (relog pre (on_state f d1)).
  set (d1' := on_state _ d1). change (state (relog pre d1')) with (state d1').
  rewrite repeated_relog. destruct (observeRepeatedKeys _ _ _ (pollingActionKeys view) _ _ _ _) as [pa d2].
  cbn [fst snd]. change (on_state ?f (relog pre d2)) with (relog pre (on_state f d2)).
  set (d2' := on_state _ d2). change (state (relog pre d2')) with (state d2').
  rewrite repeated_relog. destruct (observeRepeatedKeys _ _ _ (detectResultKeys view) _ _ _ _) as [dr d3].
  cbn [fst snd]. change (on_state ?f (relog pre d3)) with (relog pre (on_state f d3)).
  set (d3' := on_state _ d3). change (state (relog pre d3')) with (state d3').
  rewrite repeated_relog. destruct (observeRepeatedKeys _ _ _ (errorFamilyKeys view) _ _ _ _) as [ef d4].
  cbn [fst snd]. change (on_state ?f (relog pre d4)) with (relog pre (on_state f d4)).
  set (d4' := on_state _ d4). rewrite progress_relog.
  destruct (observeProgress _ _ _ _ _) as [ps d5]. cbn [fst snd].
  change (on_state ?f (relog pre d5)) with (relog pre (on_state f d5)). apply abab_relog.
Qed.
End Facts.

(** ** Properties *)

(** after any sequence of steps the streak kept for a key, in each of the
    four maps, is the number of its occurrences over the longest run of latest
    steps that all have it. *)
Theorem streaks_count_trailing_run {Secret} (ctx : RunawayGuardRunIdentity) (observer : bool)
    (secret : Secret) (steps : list (StepView * option nat)) (key : jstr) :
  let s := fst (detectAll ctx observer steps (newShadowState secret)) in
  streak_of key (detectActionStreaks s) = trailing key (history detectActionKeys steps)
  /\ streak_of key (pollingActionStreaks s) = trailing key (history pollingActionKeys steps)
  /\ streak_of key (detectResultStreaks s) = trailing key (history detectResultKeys steps)
  /\ streak_of key (errorFamilyStreaks s) = trailing key (history errorFamilyKeys steps).
Proof. apply streaks_trailing. Qed.

(** a step makes the action-repeat reminder a candidate exactly when it
    brings the trailing run of some action from below the threshold to it, and
    the error-family reminder exactly when it does so for a remindable family. *)
Theorem reminder_candidates_exact {Secret} (ctx : RunawayGuardRunIdentity) (observer : bool)
    (secret : Secret) (steps : list (StepView * option nat)) (view : StepView) (n : nat) :
  let '(s, log) := detectAll ctx observer steps (newShadowState secret) in
  let d := observeStep ctx observer view (Some n) (set_stepIndex (stepIndex s + 1) s) log in
  let run field key := trailing key (history field steps) in
  let run' field key := trailing key (history field (steps ++ [(view, Some n)])) in
  (exact_action_repeat ∈ candidates d <->
     exists key, run detectActionKeys key < n <= run' detectActionKeys key)
  /\ (same_error_family ∈ candidates d <->
     exists key, key ∈ remindableErrorFamilyKeys view
       /\ run errorFamilyKeys key < n <= run' errorFamilyKeys key).
Proof.
  pose proof (streaks_trailing ctx observer secret steps) as Hst.
  destruct (detectAll ctx observer steps (newShadowState secret)) as [s log]. cbn [fst] in Hst.
  destruct (observeStep_spec ctx observer view (Some n) (set_stepIndex (stepIndex s + 1) s) log)
    as (_ & Ha & He). cbn zeta. rewrite Ha, He. clear Ha He. rewrite !history_snoc. cbn [fst].
  split.
  - split.
    + intros (m & key & [= <-] & H). exists key. by apply (crossing_trailing _ _ _ _ _ (proj1 (Hst key))).
    + intros (key & H). exists n, key. split; [done|].
      by apply (crossing_trailing _ _ _ _ _ (proj1 (Hst key))).
  - split.
    + intros (m & key & [= <-] & Hk & H). exists key. split; [done|].
      by apply (crossing_trailing _ _ _ _ _ (proj2 (proj2 (proj2 (Hst key))))).
    + intros (key & Hk & H). exists n, key. split; [done|]. split; [done|].
      by apply (crossing_trailing _ _ _ _ _ (proj2 (proj2 (proj2 (Hst key))))).
Qed.

(** The cycle detector reports a step exactly when the last four action
    batches read A, B, A, B with A and B different; in particular it reports
    every further step of one cycle, and the episode key never holds it back. *)
Theorem abab_reports_every_alternation {Secret} (ctx : RunawayGuardRunIdentity) (secret : Secret)
    (batches : list (option jstr)) (current : option jstr)
    (Hok : Forall (fun b => batch_ok b = true) (current :: batches)) :
  let d := fold_left (fun d b => observeAbab ctx true b d) batches
             {| state := newShadowState secret; sent := []; candidates := [] |} in
  sent (observeAbab ctx true current d)
  = sent d ++ (if alternates (current :: rev batches) then [ababObservation ctx (state d)] else []).
Proof.
  apply Forall_cons in Hok as [Hc Hb]. cbn zeta.
  apply (observeAbab_step ctx (rev batches)).
  - constructor; [done|]. by apply Forall_rev.
  - by apply ababRun_inv.
Qed.

Lemma abab_reports_every_alternation_witness :
  let ctx := {| sessionId := js "s"; turnId := js "t"; agentName := js "a" |} in
  let a := Some (js "A") in let b := Some (js "B") in
  let d := fold_left (fun d b => observeAbab ctx true b d) [a; b; a; b]
             {| state := newShadowState tt; sent := []; candidates := [] |} in
  length (sent d) = 1 /\ length (sent (observeAbab ctx true a d)) = 2.
Proof.
  split; [reflexivity|].
  rewrite (abab_reports_every_alternation
    {| sessionId := js "s"; turnId := js "t"; agentName := js "a" |} tt
    [Some (js "A"); Some (js "B"); Some (js "A"); Some (js "B")] (Some (js "A"))
    ltac:(repeat constructor)). reflexivity.
Defined.
