(* ===== verification/RgStepView.v ===== *)
(** * Projecting a step

    [packages/agent-modules/runaway-guard/src/step-view.ts]: from an assistant
    message, its tool results and the tool policies to the keys the detectors
    count.  Policy callbacks are host code: arguments of the model, where [None]
    is a thrown exception.  The HMAC and the Unicode lower-case table are
    parameters too. *)
From S2P Require Import Prelude JsValue RgFingerprint RgSignals.

(** [value.key] on a record; [undefined] when absent. *)
Fixpoint field_in (key : jstr) (fields : list (jstr * json)) : json :=
  match fields with
  | [] => JUndefined
  | (k, v) :: rest => if bool_decide (k = key) then v else field_in key rest
  end.
Definition fld (key : jstr) (v : json) : json :=
  match v with JObj fields => field_in key fields | _ => JUndefined end.

Definition is_undefined (v : json) : bool := match v with JUndefined => true | _ => false end.
Definition is_nullish (v : json) : bool := match v with JUndefined | JNull => true | _ => false end.
Definition is_boolean (v : json) : bool := match v with JBool _ => true | _ => false end.
Definition is_true (v : json) : bool := match v with JBool b => b | _ => false end.
Definition is_string (v : json) (s : jstr) : bool :=
  match v with JStr t => bool_decide (t = s) | _ => false end.

(** [Number.isSafeInteger(v) && v >= 0]. *)
Definition is_safe_natural (v : json) : bool :=
  match v with JNum (NumInt z) => (0 <=? z)%Z && (z <=? 2 ^ 53 - 1)%Z | _ => false end.

(** ** Data *)
Inductive RunawayGuardToolPolicyKind := KindDetect | KindPolling | KindExempt.

Record ToolStepResult := {
  sr_toolName : jstr;
  sr_content : json;
  sr_details : json;  (** [JUndefined] when absent *)
  sr_isError : bool;
}.

Record RunawayGuardToolStep := {
  ts_toolCallId : jstr;
  ts_toolName : jstr;
  ts_arguments : json;
  ts_result : option ToolStepResult;
  ts_verifiedProgress : option json;
  ts_trustedToolProvenance : option json;
}.

Record RunawayGuardToolPolicy := {
  kind : RunawayGuardToolPolicyKind;
  projectActionKey : option (json -> option json);
  isExpectedResult : option (RunawayGuardToolStep -> option json);
  projectProgress : option (RunawayGuardToolStep -> option json);
}.

Inductive MessageBlock := ToolCall (id name : jstr) (arguments : json) | OtherBlock.

(** [totalTokens] is [message.usage?.totalTokens], [None] when it is absent or
    not a finite number; providers count tokens in integers. *)
Inductive AgentMessage :=
  | AssistantMessage (content : list MessageBlock) (totalTokens : option Z)
  | OtherMessage.

Record ToolResultMessage := {
  r_toolCallId : jstr;
  r_toolName : jstr;
  r_content : json;
  r_details : json;
  r_isError : bool;
}.

Record BlockedToolCall := { b_toolCallId : jstr; b_blockedBy : jstr }.

(** ** Validation *)
Definition validPollingControl (value : json) : bool :=
  is_undefined value
  || (isRecord value
      && (is_string (fld (js "mode") value) (js "continuous")
          || is_string (fld (js "mode") value) (js "reset"))
      && (is_undefined (fld (js "reminderEligible") value)
          || is_boolean (fld (js "reminderEligible") value))).

Definition validProgressProjection (p : json) : bool :=
  isRecord p
  && negb (is_nullish (fld (js "loopKey") p))
  && negb (is_nullish (fld (js "progressKey") p))
  && (is_undefined (fld (js "newFacts") p) || is_safe_natural (fld (js "newFacts") p))
  && (is_undefined (fld (js "stateChanged") p) || is_boolean (fld (js "stateChanged") p))
  && (is_undefined (fld (js "artifactChanged") p) || is_boolean (fld (js "artifactChanged") p))
  && validPollingControl (fld (js "polling") p).

(** On a valid projection [newFacts] is absent or a natural number. *)
Definition hasPositiveProgress (projection : option json) : bool :=
  match projection with
  | None => false
  | Some p =>
    is_true (fld (js "stateChanged") p) || is_true (fld (js "artifactChanged") p)
    || match fld (js "newFacts") p with JNum (NumInt z) => (0 <? z)%Z | _ => false end
  end.

(** The four properties the code copies when present. *)
Definition optional_field (key : jstr) (v : json) : list (jstr * json) :=
  if is_undefined v then [] else [(key, v)].

(** ** Best-effort policy callbacks *)
Definition projectActionKeyBestEffort (policy : option RunawayGuardToolPolicy) (argumentsValue : json) : json :=
  match policy ≫= projectActionKey with
  | None => argumentsValue
  | Some f =>
    match f argumentsValue with
    | None => argumentsValue
    | Some v => if is_nullish v then argumentsValue else v
    end
  end.

Definition projectProgressBestEffort (policy : option RunawayGuardToolPolicy) (step : RunawayGuardToolStep) :
    option json :=
  let fallback :=
    match ts_verifiedProgress step with
    | None => None
    | Some vp =>
      if negb (validProgressProjection vp) then None
      else Some (JObj ([(js "loopKey", fld (js "loopKey") vp); (js "progressKey", fld (js "progressKey") vp)]
                       ++ optional_field (js "newFacts") (fld (js "newFacts") vp)
                       ++ optional_field (js "stateChanged") (fld (js "stateChanged") vp)
                       ++ optional_field (js "artifactChanged") (fld (js "artifactChanged") vp)))
    end in
  match policy ≫= projectProgress with
  | None => fallback
  | Some f =>
    match f step with
    | Some projection => if validProgressProjection projection then Some projection else fallback
    | None => fallback
    end
  end.

Definition isExpectedResultBestEffort (policy : option RunawayGuardToolPolicy) (step : RunawayGuardToolStep) : bool :=
  match policy ≫= isExpectedResult with
  | None => false
  | Some f => match f step with Some v => is_true v | None => false end
  end.

Definition toolCallIdsFromMessage (message : AgentMessage) : list jstr :=
  match message with
  | AssistantMessage blocks _ =>
    flat_map (fun b => match b with ToolCall id _ _ => [id] | OtherBlock => [] end) blocks
  | OtherMessage => []
  end.

(** The entries of a host-supplied list that [valid] accepts and whose
    [toolCallId] belongs to the message; the last entry of an id wins. *)
Definition entriesByCallId (valid : json -> bool) (values : list json) (expected : list jstr) : jmap jstr json :=
  jof_list (omap (fun v =>
    match fld (js "toolCallId") v with
    | JStr id => if isRecord v && bool_decide (id ∈ expected) && valid v then Some (id, v) else None
    | _ => None
    end) values).

Definition verifiedProgressMap (values : list json) (expected : list jstr) : jmap jstr json :=
  entriesByCallId validProgressProjection values expected.

Definition validProvenance (v : json) : bool :=
  match fld (js "toolName") v with JStr n => truthy n | _ => false end
  && (is_string (fld (js "source") v) (js "builtin")
      || is_string (fld (js "source") v) (js "captured-compatibility")).

Definition trustedToolProvenanceMap (values : list json) (expected : list jstr) : jmap jstr json :=
  entriesByCallId validProvenance values expected.

(** ** Error families *)
Fixpoint structuredErrorCode_go (keys : list jstr) (details : json) : option jstr :=
  match keys with
  | [] => None
  | key :: rest =>
    match fld key details with
    | JStr s => if truthy s && (length s <=? 128)%nat then Some s else structuredErrorCode_go rest details
    | JNum (NumInt z) => Some (dec_Z z)
    | JNum (NumText t) => Some t
    | _ => structuredErrorCode_go rest details
    end
  end.

Definition structuredErrorCode (details : json) : option jstr :=
  if negb (isRecord details) then None
  else structuredErrorCode_go [js "error_code"; js "errorCode"; js "code"; js "status"] details.

Fixpoint firstText_go (blocks : list json) : option jstr :=
  match blocks with
  | [] => None
  | block :: rest =>
    if negb (isRecord block) || negb (is_string (fld (js "type") block) (js "text")) then firstText_go rest
    else match fld (js "text") block with
         | JStr text => if truthy text && (length text <=? 4096)%nat then Some text else firstText_go rest
         | _ => firstText_go rest
         end
  end.

Definition firstText (content : json) : option jstr :=
  match content with JArr blocks => firstText_go blocks | _ => None end.

(** [/\w/]. *)
Definition isWordCh (c : jchar) : bool :=
  (((48 <=? c) && (c <=? 57)) || ((65 <=? c) && (c <=? 90)) || ((97 <=? c) && (c <=? 122)) || (c =? 95))%N.

(** [/\bw\b/] for a word of word characters; [prev] tells whether a word
    character precedes. *)
Fixpoint matchesWord (prev : bool) (s w : jstr) : bool :=
  (negb prev && startsWith s w
   && match drop (length w) s with [] => true | c :: _ => negb (isWordCh c) end)
  || match s with [] => false | c :: s' => matchesWord (isWordCh c) s' w end.

Definition isLineTerminator (c : jchar) : bool :=
  ((c =? newline) || (c =? cr) || (c =? 8232) || (c =? 8233))%N.

(** [/rate.?limit/]. *)
Fixpoint matchesRateLimit (s : jstr) : bool :=
  (startsWith s (js "rate")
   && (startsWith (drop 4 s) (js "limit")
       || match drop 4 s with
          | c :: s' => negb (isLineTerminator c) && startsWith s' (js "limit")
          | [] => false
          end))
  || match s with [] => false | _ :: s' => matchesRateLimit s' end.

Definition anyOf (s : jstr) (subs : list jstr) : bool := existsb (includes s) subs.

Definition ERROR_CATEGORIES : list (jstr * (jstr -> bool)) :=
  [(js "timeout", fun s => anyOf s [js "timeout"; js "timed out"; js "deadline exceeded"]);
   (js "rate_limit", fun s => matchesRateLimit s || includes s (js "too many requests")
                              || matchesWord false s (js "429"));
   (js "network", fun s => anyOf s [js "network"; js "econn"; js "socket"; js "dns"; js "connection reset"]);
   (js "auth", fun s => anyOf s [js "unauth"; js "invalid api key"] || matchesWord false s (js "401"));
   (js "permission", fun s => anyOf s [js "permission"; js "forbidden"; js "access denied"]
                              || matchesWord false s (js "403"));
   (js "not_found", fun s => anyOf s [js "not found"; js "enoent"] || matchesWord false s (js "404"));
   (js "invalid_argument", fun s => anyOf s [js "invalid argument"; js "validation failed"; js "bad request"]
                              || matchesWord false s (js "400"));
   (js "process_exit", fun s => anyOf s [js "exit code"; js "non-zero"; js "process failed"])].

(** [s.replace(/\s+/g, ' ')]. *)
Fixpoint collapseWhite (inRun : bool) (s : jstr) : jstr :=
  match s with
  | [] => []
  | c :: s' =>
    if isWhite c then (if inRun then [] else [32%N]) ++ collapseWhite true s'
    else c :: collapseWhite false s'
  end.

Section Project.
Context {Secret : Type} (hmac : Secret -> jstr -> jstr) (toLowerCase : jstr -> jstr).

Definition errorFamily (toolName : jstr) (details content : json) : option jstr :=
match structuredErrorCode details with
| Some code => Some (toolName ++ [0%N] ++ js "code:" ++ code)
| None =>
  match firstText content with
  | None => None
  | Some text =>
    let normalized := toLowerCase text in
    match List.find (fun c => snd c normalized) ERROR_CATEGORIES with
    | Some (name, _) => Some (toolName ++ [0%N] ++ js "category:" ++ name)
    | None =>
      match take 1024 (trim (collapseWhite false normalized)) with
      | [] => None
      | bounded => Some (toolName ++ [0%N] ++ js "text:" ++ bounded)
      end
    end
  end
end.

(** A fingerprint, [None] when the code's truth test on it fails. *)
Definition fp (secret : Secret) (value : json) (maxBytes : nat) : option jstr :=
match fingerprintWithinBudget hmac secret value maxBytes with
| Some [] | None => None
| Some s => Some s
end.

(** ** The locals of [projectStep] *)
Record ProjectAcc := {
a_detectActionKeys : list jstr;
a_pollingActionKeys : list jstr;
a_progress : list ProgressView;
a_actionKeysByCallId : jmap jstr jstr;
a_expectedResultCallIds : list jstr;
a_skipped : nat;  (** added to [state.fingerprintSkippedCount] *)
}.

Definition acc0 : ProjectAcc :=
{| a_detectActionKeys := []; a_pollingActionKeys := []; a_progress := [];
   a_actionKeysByCallId := []; a_expectedResultCallIds := []; a_skipped := 0 |}.

Definition push_progress (v : ProgressView) (a : ProjectAcc) : ProjectAcc :=
{| a_detectActionKeys := a_detectActionKeys a; a_pollingActionKeys := a_pollingActionKeys a;
   a_progress := a_progress a ++ [v]; a_actionKeysByCallId := a_actionKeysByCallId a;
   a_expectedResultCallIds := a_expectedResultCallIds a; a_skipped := a_skipped a |}.

Definition skip_fingerprints (n : nat) (a : ProjectAcc) : ProjectAcc :=
{| a_detectActionKeys := a_detectActionKeys a; a_pollingActionKeys := a_pollingActionKeys a;
   a_progress := a_progress a; a_actionKeysByCallId := a_actionKeysByCallId a;
   a_expectedResultCallIds := a_expectedResultCallIds a; a_skipped := a_skipped a + n |}.

Definition expect_result (id : jstr) (a : ProjectAcc) : ProjectAcc :=
{| a_detectActionKeys := a_detectActionKeys a; a_pollingActionKeys := a_pollingActionKeys a;
   a_progress := a_progress a; a_actionKeysByCallId := a_actionKeysByCallId a;
   a_expectedResultCallIds := a_expectedResultCallIds a ++ [id]; a_skipped := a_skipped a |}.

Definition push_action (isDetect : bool) (key : jstr) (a : ProjectAcc) : ProjectAcc :=
{| a_detectActionKeys := if isDetect then a_detectActionKeys a ++ [key] else a_detectActionKeys a;
   a_pollingActionKeys := if isDetect then a_pollingActionKeys a else a_pollingActionKeys a ++ [key];
   a_progress := a_progress a; a_actionKeysByCallId := a_actionKeysByCallId a;
   a_expectedResultCallIds := a_expectedResultCallIds a; a_skipped := a_skipped a |}.

Definition set_action_key (id key : jstr) (a : ProjectAcc) : ProjectAcc :=
{| a_detectActionKeys := a_detectActionKeys a; a_pollingActionKeys := a_pollingActionKeys a;
   a_progress := a_progress a; a_actionKeysByCallId := jset id key (a_actionKeysByCallId a);
   a_expectedResultCallIds := a_expectedResultCallIds a; a_skipped := a_skipped a |}.

Section Step.
Variable secret : Secret.
Variable policies : jmap jstr RunawayGuardToolPolicy.
Variable maxBytes : nat.
Variable verifiedProgressByCallId : jmap jstr json.
Variable trustedToolProvenanceByCallId : jmap jstr json.
Variable excludedCallIds : list jstr.
Variable resultsByCallId : jmap jstr ToolResultMessage.

Definition tagged (toolName key : jstr) (v : json) : json :=
  JObj [(js "toolName", JStr toolName); (key, v)].

Definition appendPollingControl (control : option json) (projection : option json) (toolName : jstr)
    (a : ProjectAcc) : ProjectAcc :=
  match control, projection with
  | Some c, Some p =>
    if negb (is_string (fld (js "mode") c) (js "reset")) then a
    else match fp secret (tagged toolName (js "loopKey") (fld (js "loopKey") p)) maxBytes with
         | None => push_progress ProgressInterruptView (skip_fingerprints 1 a)
         | Some loopKey => push_progress (ProgressResetView loopKey) a
         end
  | _, _ => a
  end.

(** The policy kind a tool without a policy has. *)
Definition policyKind (name : jstr) : RunawayGuardToolPolicyKind :=
  match jget name policies with Some p => kind p | None => KindDetect end.

Definition toolStepOf (id name : jstr) (arguments : json) : RunawayGuardToolStep :=
  let excluded := bool_decide (id ∈ excludedCallIds) in
  {| ts_toolCallId := id; ts_toolName := name; ts_arguments := arguments;
     ts_result := if excluded then None
       else r ← jget id resultsByCallId;
            Some {| sr_toolName := r_toolName r; sr_content := r_content r;
                    sr_details := r_details r; sr_isError := r_isError r |};
     ts_verifiedProgress := if excluded then None else jget id verifiedProgressByCallId;
     ts_trustedToolProvenance := jget id trustedToolProvenanceByCallId |}.

(** The progress part: the views pushed and whether a change was observed. *)
Definition observeProjection (name : jstr) (polling : bool) (progressProjection control verified : option json)
    (a : ProjectAcc) : bool * ProjectAcc :=
  let mode_is m := match control with Some c => is_string (fld (js "mode") c) m | None => false end in
  match progressProjection with
  | None => (false, a)
  | Some p =>
    if mode_is (js "reset") then (false, a)
    else
      let loopKey := fp secret (tagged name (js "loopKey") (fld (js "loopKey") p)) maxBytes in
      let progressKey := fp secret (tagged name (js "progressKey") (fld (js "progressKey") p)) maxBytes in
      let continuous := mode_is (js "continuous") in
      match loopKey, progressKey with
      | Some lk, Some pk =>
        let change := hasPositiveProgress progressProjection || (continuous && hasPositiveProgress verified) in
        let elig := continuous && match control with
                                  | Some c => is_true (fld (js "reminderEligible") c)
                                  | None => false
                                  end in
        (change,
         push_progress (ProgressObservationView (if polling then PvPolling else PvDetect)
                          lk pk change continuous elig) a)
      | _, _ =>
        let missing := (match loopKey with None => 1 | Some _ => 0 end)
                       + (match progressKey with None => 1 | Some _ => 0 end) in
        let a1 := skip_fingerprints missing a in
        (false, if continuous then push_progress ProgressInterruptView a1 else a1)
      end
  end.

(** The body of the loop over the content blocks. *)
Definition projectBlock (a : ProjectAcc) (block : MessageBlock) : ProjectAcc :=
  match block with
  | OtherBlock => a
  | ToolCall id name arguments =>
    let excluded := bool_decide (id ∈ excludedCallIds) in
    let configuredPolicy := jget name policies in
    let policy := policyKind name in
    let step := toolStepOf id name arguments in
    let progressProjection := projectProgressBestEffort configuredPolicy step in
    let pollingControl :=
      match policy, progressProjection with
      | KindPolling, Some p => if isRecord (fld (js "polling") p) then Some (fld (js "polling") p) else None
      | _, _ => None
      end in
    let a1 := appendPollingControl pollingControl progressProjection name a in
    let a2 := match pollingControl with None => push_progress ProgressInterruptView a1 | Some _ => a1 end in
    if excluded || match policy with KindExempt => true | _ => false end then a2
    else
      let a3 :=
        if match jget id resultsByCallId with Some r => r_isError r | None => false end
           && isExpectedResultBestEffort configuredPolicy step
        then expect_result id a2 else a2 in
      let isPolling := match policy with KindPolling => true | _ => false end in
      let '(observedChange, a4) :=
        observeProjection name isPolling progressProjection pollingControl (ts_verifiedProgress step) a3 in
      match fp secret (tagged name (js "actionKey") (projectActionKeyBestEffort configuredPolicy arguments))
              maxBytes with
      | None => skip_fingerprints 1 a4
      | Some actionKey =>
        let a5 := set_action_key id actionKey a4 in
        if observedChange then expect_result id a5
        else if isPolling then
          match progressProjection with None => push_action false actionKey a5 | Some _ => a5 end
        else push_action true actionKey a5
      end
  end.

(** What one tool result contributes: a result key, an error-family key (with
    whether it is remindable), and skipped fingerprints. *)
Record ResultKeys := {
  k_result : option jstr;
  k_error : option (jstr * bool);
  k_skipped : nat;
}.

Definition projectResult (a : ProjectAcc) (r : ToolResultMessage) : ResultKeys :=
  let nothing := {| k_result := None; k_error := None; k_skipped := 0 |} in
  if bool_decide (r_toolCallId r ∈ excludedCallIds) then nothing
  else
    let policy := policyKind (r_toolName r) in
    let isDetect := match policy with KindDetect => true | _ => false end in
    let projected :=
      JObj ([(js "toolName", JStr (r_toolName r)); (js "content", r_content r);
             (js "isError", JBool (r_isError r))] ++ optional_field (js "details") (r_details r)) in
    let resultKey := if isDetect then fp secret projected maxBytes else None in
    let skipped1 := if isDetect then match resultKey with None => 1 | Some _ => 0 end else 0 in
    if r_isError r && match policy with KindExempt => false | _ => true end
       && negb (bool_decide (r_toolCallId r ∈ a_expectedResultCallIds a))
    then
      match errorFamily (r_toolName r) (r_details r) (r_content r) with
      | None => {| k_result := resultKey; k_error := None; k_skipped := skipped1 |}
      | Some family =>
        let actionKey := jget (r_toolCallId r) (a_actionKeysByCallId a) in
        match fp secret
                (JObj [(js "family", JStr family);
                       (js "actionKey", match actionKey with Some k => JStr k | None => JNull end)])
                maxBytes with
        | None => {| k_result := resultKey; k_error := None; k_skipped := skipped1 + 1 |}
        | Some key =>
          {| k_result := resultKey;
             k_error := Some (key, isDetect && match actionKey with Some _ => true | None => false end);
             k_skipped := skipped1 |}
        end
      end
    else {| k_result := resultKey; k_error := None; k_skipped := skipped1 |}.
End Step.

Definition projectStep (message : AgentMessage) (toolResults : list ToolResultMessage)
  (state : ShadowState Secret) (policies : jmap jstr RunawayGuardToolPolicy) (maxBytes : nat)
  (verifiedProgressByCallId trustedToolProvenanceByCallId : jmap jstr json)
  (blockedToolCalls : list BlockedToolCall) : StepView * ShadowState Secret :=
let secret := secret state in
let excludedCallIds :=
  map b_toolCallId (List.filter (fun c => bool_decide (b_blockedBy c = js "permission")) blockedToolCalls) in
let resultsByCallId := jof_list (map (fun r => (r_toolCallId r, r)) toolResults) in
let a :=
  match message with
  | AssistantMessage blocks _ =>
    fold_left (projectBlock secret policies maxBytes verifiedProgressByCallId
                 trustedToolProvenanceByCallId excludedCallIds resultsByCallId) blocks acc0
  | OtherMessage => acc0
  end in
let keys := map (projectResult secret policies maxBytes excludedCallIds a) toolResults in
let detectActionKeys := sort_strings (a_detectActionKeys a) in
({| detectActionKeys := detectActionKeys;
    pollingActionKeys := sort_strings (a_pollingActionKeys a);
    detectResultKeys := sort_strings (omap k_result keys);
    errorFamilyKeys := sort_strings (map fst (omap k_error keys));
    remindableErrorFamilyKeys := map fst (List.filter snd (omap k_error keys));
    progress := a_progress a;
    detectActionBatchKey :=
      match detectActionKeys with
      | [] => None
      | _ => Some (fingerprint hmac secret (js "action-batch" ++ [0%N] ++ join [0%N] detectActionKeys))
      end |},
 add_skipped (a_skipped a + sum_list (map k_skipped keys)) state).
End Project.

(** ** Lemmas *)
Section Facts.
Context {Secret : Type} (hmac : Secret -> jstr -> jstr) (toLowerCase : jstr -> jstr).

(** Only the results of calls that are not excluded are ever looked up. *)
Definition same_results (excluded : list jstr) (m m' : jmap jstr ToolResultMessage) : Prop :=
  forall id, id ∉ excluded -> jget id m = jget id m'.

Lemma projectBlock_ext secret policies maxBytes vp tp excluded m m' a block :
  same_results excluded m m' ->
  projectBlock hmac secret policies maxBytes vp tp excluded m a block
  = projectBlock hmac secret policies maxBytes vp tp excluded m' a block.
Proof.
  intros Hm. destruct block as [id name arguments|]; [|done]. cbn [projectBlock]. unfold toolStepOf.
  destruct (bool_decide_reflect (id ∈ excluded)) as [Hin|Hout]; [done|].
  by rewrite (Hm id Hout).
Qed.

Lemma fold_left_ext {A B} (f g : A -> B -> A) l a :
  (forall a b, f a b = g a b) -> fold_left f l a = fold_left g l a.
Proof. intros H. revert a; induction l as [|b l IH]; intros a; simpl; [done|]. by rewrite H, IH. Qed.

Definition resultsMap (results : list ToolResultMessage) : jmap jstr ToolResultMessage :=
  jof_list (map (fun r => (r_toolCallId r, r)) results).

Lemma resultsMap_get id results :
  jget id (resultsMap results)
  = last (List.filter (fun r => bool_decide (r_toolCallId r = id)) results).
Proof.
  unfold resultsMap. rewrite jget_jof_list. induction results as [|r results IH] using rev_ind; [done|].
  rewrite map_app, !List.filter_app. simpl. case_bool_decide.
  - by rewrite !last_snoc.
  - by rewrite !app_nil_r.
Qed.

Lemma resultsMap_perm results results' :
  results ≡ₚ results' -> NoDup (map r_toolCallId results) -> forall id,
  jget id (resultsMap results) = jget id (resultsMap results').
Proof.
  intros Hp Hnd id. rewrite !resultsMap_get.
  set (f := fun r => bool_decide (r_toolCallId r = id)).
  assert (Hone : length (List.filter f results) <= 1).
  { clear Hp. induction results as [|r results IH]; simpl; [lia|].
    apply NoDup_cons in Hnd as [Hr Hnd]. specialize (IH Hnd). unfold f at 1.
    case_bool_decide as Hid; [|done]. simpl. rewrite filter_Forall_nil; [simpl; lia|].
    apply Forall_forall. intros r' Hin. unfold f. apply bool_decide_eq_false. intros Hid'.
    apply Hr. rewrite Hid, <- Hid'. apply list_elem_of_In, List.in_map. by apply list_elem_of_In. }
  pose proof (filter_Permutation f _ _ Hp) as Hf.
  pose proof (Permutation_length Hf) as Hl.
  destruct (List.filter f results) as [|x [|y l]]; [|..|simpl in Hone; lia].
  - by apply Permutation_nil_l in Hf as <-.
  - by apply Permutation_singleton_l in Hf as <-.
Qed.

(** The step's keys depend on the results through lookups and collected keys. *)
Lemma fold_results_ext secret policies maxBytes vp tp excluded message results results' :
  same_results excluded (resultsMap results) (resultsMap results') ->
  match message with
  | AssistantMessage blocks _ =>
    fold_left (projectBlock hmac secret policies maxBytes vp tp excluded (resultsMap results)) blocks acc0
  | OtherMessage => acc0
  end
  = match message with
  | AssistantMessage blocks _ =>
    fold_left (projectBlock hmac secret policies maxBytes vp tp excluded (resultsMap results')) blocks acc0
  | OtherMessage => acc0
  end.
Proof.
  intros Hm. destruct message as [blocks t|]; [|done]. apply fold_left_ext. intros a b.
  by apply projectBlock_ext.
Qed.

Definition permissionBlocked (blocked : list BlockedToolCall) : list jstr :=
  map b_toolCallId (List.filter (fun c => bool_decide (b_blockedBy c = js "permission")) blocked).

Definition notBlocked (blocked : list BlockedToolCall) (r : ToolResultMessage) : bool :=
  negb (bool_decide (r_toolCallId r ∈ permissionBlocked blocked)).

Lemma resultsMap_notBlocked blocked results :
  same_results (permissionBlocked blocked) (resultsMap results)
    (resultsMap (List.filter (notBlocked blocked) results)).
Proof.
  intros id Hid. rewrite !resultsMap_get. f_equal. rewrite filter_filter_weaker; [done|].
  intros r Hr%bool_decide_eq_true. unfold notBlocked. by rewrite Hr, bool_decide_eq_false_2.
Qed.

Lemma projectResult_blocked secret policies maxBytes blocked a r :
  notBlocked blocked r = false ->
  projectResult hmac toLowerCase secret policies maxBytes (permissionBlocked blocked) a r
  = {| k_result := None; k_error := None; k_skipped := 0 |}.
Proof. unfold notBlocked, projectResult. intros H%negb_false_iff. by rewrite H. Qed.
End Facts.

(** ** Properties *)

(** The order in which parallel tool results arrive is invisible: with
    distinct call ids, permuting the results leaves every key list, the progress
    views, the batch key and the state as they were; the set of remindable
    families is the same set. *)
Theorem results_order_irrelevant {Secret} (hmac : Secret -> jstr -> jstr) (toLowerCase : jstr -> jstr)
    message results results' (state : ShadowState Secret) policies maxBytes vp tp blocked
    (Hperm : results ≡ₚ results') (Hids : NoDup (map r_toolCallId results)) :
  let '(v, s) := projectStep hmac toLowerCase message results state policies maxBytes vp tp blocked in
  let '(v', s') := projectStep hmac toLowerCase message results' state policies maxBytes vp tp blocked in
  detectActionKeys v = detectActionKeys v' /\ pollingActionKeys v = pollingActionKeys v'
  /\ detectResultKeys v = detectResultKeys v' /\ errorFamilyKeys v = errorFamilyKeys v'
  /\ remindableErrorFamilyKeys v ≡ₚ remindableErrorFamilyKeys v'
  /\ progress v = progress v' /\ detectActionBatchKey v = detectActionBatchKey v' /\ s = s'.
Proof.
  unfold projectStep. fold (permissionBlocked blocked) (resultsMap results) (resultsMap results').
  rewrite (fold_results_ext hmac (secret state) policies maxBytes vp tp (permissionBlocked blocked)
             message results results') by (intros id _; by apply resultsMap_perm).
  set (a := match message with AssistantMessage _ _ => _ | OtherMessage => _ end).
  pose proof (Permutation_map (projectResult hmac toLowerCase (secret state) policies maxBytes
    (permissionBlocked blocked) a) Hperm) as Hk.
  cbn [detectActionKeys pollingActionKeys detectResultKeys errorFamilyKeys remindableErrorFamilyKeys
       progress detectActionBatchKey].
  split; [done|]. split; [done|].
  split; [apply sort_strings_Permutation, omap_Permutation, Hk|].
  split; [apply sort_strings_Permutation, Permutation_map, omap_Permutation, Hk|].
  split; [apply Permutation_map, filter_Permutation, omap_Permutation, Hk|].
  split; [done|]. split; [done|]. f_equal. f_equal. by rewrite Hk.
Qed.

Lemma results_order_irrelevant_witness :
  let failed id code := {| r_toolCallId := js id; r_toolName := js "read"; r_content := JNull;
                           r_details := JObj [(js "code", JStr (js code))]; r_isError := true |} in
  let view results := fst (projectStep (fun _ s => s) (fun s => s)
    (AssistantMessage [ToolCall (js "1") (js "read") JNull; ToolCall (js "2") (js "read") (JBool true)] None)
    results (newShadowState tt) [] 1000 [] [] []) in
  errorFamilyKeys (view [failed "1" "E1"; failed "2" "E2"])
  = errorFamilyKeys (view [failed "2" "E2"; failed "1" "E1"])
  /\ length (errorFamilyKeys (view [failed "1" "E1"; failed "2" "E2"])) = 2.
Proof.
  cbn zeta. split; [|vm_compute; reflexivity].
  match goal with
  | |- errorFamilyKeys (fst (projectStep ?h ?l ?m ?r ?s ?p ?b ?v ?t ?k))
       = errorFamilyKeys (fst (projectStep _ _ _ ?r' _ _ _ _ _ _)) =>
    pose proof (results_order_irrelevant h l m r r' s p b v t k (Permutation_swap _ _ _)
      ltac:(refine (bool_decide_unpack _ _); vm_compute; exact I)) as H;
    destruct (projectStep h l m r s p b v t k), (projectStep h l m r' s p b v t k)
  end.
  apply H.
Defined.

(** A permission-blocked call's result is invisible to the detectors:
    dropping such results from the step changes neither the view nor the state. *)
Theorem blocked_results_invisible {Secret} (hmac : Secret -> jstr -> jstr) (toLowerCase : jstr -> jstr)
    message results (state : ShadowState Secret) policies maxBytes vp tp blocked :
  projectStep hmac toLowerCase message results state policies maxBytes vp tp blocked
  = projectStep hmac toLowerCase message (List.filter (notBlocked blocked) results)
      state policies maxBytes vp tp blocked.
Proof.
  unfold projectStep. fold (permissionBlocked blocked).
  fold (resultsMap results) (resultsMap (List.filter (notBlocked blocked) results)).
  rewrite (fold_results_ext hmac (secret state) policies maxBytes vp tp (permissionBlocked blocked)
             message results (List.filter (notBlocked blocked) results)) by apply resultsMap_notBlocked.
  set (a := match message with AssistantMessage _ _ => _ | OtherMessage => _ end).
  set (f := projectResult _ _ _ _ _ _ a).
  assert (Hf : forall r, notBlocked blocked r = false ->
    f r = {| k_result := None; k_error := None; k_skipped := 0 |}) by (intros r; apply projectResult_blocked).
  assert (Ho : forall B (g : ResultKeys -> option B),
    g {| k_result := None; k_error := None; k_skipped := 0 |} = None ->
    omap g (map f results) = omap g (map f (List.filter (notBlocked blocked) results))).
  { intros B g Hg. rewrite !omap_map. apply omap_drop. intros r Hr. by rewrite (Hf r Hr). }
  rewrite !Ho, !map_map by done. rewrite (sum_drop _ (notBlocked blocked) results); [done|].
  intros r Hr. by rewrite (Hf r Hr).
Qed.
