(* ===== verification/RgGuard.v ===== *)
(** * The runaway guard and its replay

    [packages/agent-modules/runaway-guard/src/guard.ts] and [replay.ts].  The
    guard's map from run keys to states is explicit; the random bytes of a new
    run are an argument of the call that creates it.  [options.onSignal] shows
    as the list of observations a call sends. *)
From S2P Require Import Prelude JsValue RgFingerprint RgSignals RgStepView.

(** ** Data *)
Record RunawayGuardReplayStep := {
  message : AgentMessage;
  toolResults : list ToolResultMessage;
  blockedToolCalls : list BlockedToolCall;
  verifiedProgress : list json;
  trustedToolProvenance : list json;
}.

(** [options]; [onSignal] tells whether an observer is given. *)
Record RunawayGuardOptions := {
  toolPolicies : list (jstr * RunawayGuardToolPolicy);
  maxFingerprintBytes : option jnum;
  remindAfterOccurrences : option jnum;
  onSignal : bool;
}.

(** What [createRunawayGuard] closes over. *)
Record GuardConfig := {
  c_maxFingerprintBytes : nat;
  c_afterOccurrences : option nat;
  c_policies : jmap jstr RunawayGuardToolPolicy;
  c_observer : bool;
}.

(** [integerAtLeast]; [None] is the exception. *)
Definition integerAtLeast (value : jnum) (minimum : Z) : option nat :=
  match value with
  | NumInt z => if (minimum <=? z)%Z then Some (Z.to_nat z) else None
  | _ => None
  end.

Definition createRunawayGuard (options : RunawayGuardOptions) : option GuardConfig :=
  maxBytes ← positiveInteger (default (NumInt (Z.of_nat DEFAULT_MAX_FINGERPRINT_BYTES))
                                (maxFingerprintBytes options));
  after ← match remindAfterOccurrences options with
          | None => Some None
          | Some v => n ← integerAtLeast v 3; Some (Some n)
          end;
  Some {| c_maxFingerprintBytes := maxBytes; c_afterOccurrences := after;
          c_policies := jof_list (toolPolicies options); c_observer := onSignal options |}.

Section Guard.
Context {Secret : Type} (hmac : Secret -> jstr -> jstr) (toLowerCase : jstr -> jstr).

Abbreviation States := (jmap jstr (ShadowState Secret)) (only parsing).

(** [stateFor], with the bytes [newShadowState] would draw. *)
Definition stateFor (randomBytes : Secret) (states : States) (ctx : RunawayGuardRunIdentity) :
    ShadowState Secret :=
  match jget (runKey ctx) states with
  | Some existing => existing
  | None => newShadowState randomBytes
  end.

(** The step as both the guard and the replay project and detect it. *)
Definition detect (policies : jmap jstr RunawayGuardToolPolicy) (maxBytes : nat) (observer : bool)
    (ctx : RunawayGuardRunIdentity) (step : RunawayGuardReplayStep) (threshold : option nat)
    (s : ShadowState Secret) (log : list RunawayGuardObservation) : Detection Secret :=
  let s1 := set_stepIndex (stepIndex s + 1) s in
  let toolCallIds := toolCallIdsFromMessage (message step) in
  let '(view, s2) := projectStep hmac toLowerCase (message step) (toolResults step) s1 policies maxBytes
                       (verifiedProgressMap (verifiedProgress step) toolCallIds)
                       (trustedToolProvenanceMap (trustedToolProvenance step) toolCallIds)
                       (blockedToolCalls step) in
  observeStep ctx observer view threshold s2 log.

Definition observe (c : GuardConfig) (randomBytes : Secret) (ctx : RunawayGuardRunIdentity)
    (step : RunawayGuardReplayStep) (shouldRemind : bool) (states : States) :
    option RunawayGuardReminder * list RunawayGuardObservation * States :=
  let s := stateFor randomBytes states ctx in
  let threshold := if shouldRemind then c_afterOccurrences c else None in
  let d := detect (c_policies c) (c_maxFingerprintBytes c) (c_observer c) ctx step threshold s [] in
  let '(reminder, s') :=
    match threshold with
    | None => (None, state d)
    | Some n => takePreferredReminder (candidates d) ctx (state d) n
    end in
  (reminder, sent d, jset (runKey ctx) s' states).

Definition guard_clearDetectionStreaks (ctx : RunawayGuardRunIdentity) (states : States) : States :=
  match jget (runKey ctx) states with
  | Some s => jset (runKey ctx) (clearDetectionStreaks s) states
  | None => states
  end.

Definition markReminderInjected (ctx : RunawayGuardRunIdentity) (states : States) : States :=
  match jget (runKey ctx) states with
  | Some s => jset (runKey ctx) (set_reminder (reminderAttempted s) true s) states
  | None => states
  end.

Definition finishTurn (ctx : RunawayGuardRunIdentity) (states : States) :
    option RunawayGuardTurnSummary * States :=
  match jget (runKey ctx) states with
  | None => (None, states)
  | Some s => (Some (snapshotTurnSummary ctx s), jdel (runKey ctx) states)
  end.

(** ** Calls on the guard, in the order the host makes them *)
Inductive GuardCall :=
  | CallObserve (ctx : RunawayGuardRunIdentity) (step : RunawayGuardReplayStep) (shouldRemind : bool)
      (randomBytes : Secret)
  | CallClear (ctx : RunawayGuardRunIdentity)
  | CallMark (ctx : RunawayGuardRunIdentity)
  | CallFinish (ctx : RunawayGuardRunIdentity).

Definition call_ctx (e : GuardCall) : RunawayGuardRunIdentity :=
  match e with
  | CallObserve ctx _ _ _ | CallClear ctx | CallMark ctx | CallFinish ctx => ctx
  end.

(** What a call returns and sends. *)
Record GuardResult := {
  g_reminder : option RunawayGuardReminder;
  g_sent : list RunawayGuardObservation;
  g_summary : option RunawayGuardTurnSummary;
}.

Definition guard_call (c : GuardConfig) (states : States) (e : GuardCall) : GuardResult * States :=
  match e with
  | CallObserve ctx step shouldRemind randomBytes =>
    let '(r, l, states') := observe c randomBytes ctx step shouldRemind states in
    ({| g_reminder := r; g_sent := l; g_summary := None |}, states')
  | CallClear ctx =>
    ({| g_reminder := None; g_sent := []; g_summary := None |}, guard_clearDetectionStreaks ctx states)
  | CallMark ctx =>
    ({| g_reminder := None; g_sent := []; g_summary := None |}, markReminderInjected ctx states)
  | CallFinish ctx =>
    let '(s, states') := finishTurn ctx states in
    ({| g_reminder := None; g_sent := []; g_summary := s |}, states')
  end.

Fixpoint guard_calls (c : GuardConfig) (states : States) (l : list GuardCall) :
    list (GuardCall * GuardResult) * States :=
  match l with
  | [] => ([], states)
  | e :: rest =>
    let '(r, states1) := guard_call c states e in
    let '(rs, states2) := guard_calls c states1 rest in
    ((e, r) :: rs, states2)
  end.

(** ** Replay ([replay.ts]) *)
Record RunawayGuardReplayInput := {
  i_ctx : RunawayGuardRunIdentity;
  i_steps : list RunawayGuardReplayStep;
  i_toolPolicies : list (jstr * RunawayGuardToolPolicy);
  i_maxFingerprintBytes : option jnum;
}.

Record ReplayMetrics := {
  toolCallCount : nat;
  providerTokens : Z;
  firstSignalStepIndex : option nat;
  postSignalStepCount : nat;
  postSignalToolCallCount : nat;
  postSignalProviderTokens : Z;
}.

Record RunawayGuardReplayResult := {
  observations : list RunawayGuardObservation;
  summary : RunawayGuardTurnSummary;
  metrics : ReplayMetrics;
}.

Definition assistantMessageTokens (m : AgentMessage) : Z :=
  match m with
  | AssistantMessage _ (Some tokens) => if (0 <=? tokens)%Z then tokens else 0%Z
  | _ => 0%Z
  end.

(** The reduction to the smallest step index. *)
Definition firstSignal (obs : list RunawayGuardObservation) : option nat :=
  fold_left (fun minimum o =>
    match minimum with None => Some (o_stepIndex o) | Some m => Some (Nat.min m (o_stepIndex o)) end) obs None.

(** The loop over [steps.entries()]; [index + 1] is [stepIndex]. *)
Fixpoint metrics_loop (steps : list RunawayGuardReplayStep) (index : nat) (first : option nat)
    (m : ReplayMetrics) : ReplayMetrics :=
  match steps with
  | [] => m
  | step :: rest =>
    let stepIndex := index + 1 in
    let calls := length (toolCallIdsFromMessage (message step)) in
    let tokens := assistantMessageTokens (message step) in
    let after := match first with Some f => (f <? stepIndex)%nat | None => false end in
    metrics_loop rest (index + 1) first
      {| toolCallCount := toolCallCount m + calls;
         providerTokens := (providerTokens m + tokens)%Z;
         firstSignalStepIndex := firstSignalStepIndex m;
         postSignalStepCount := postSignalStepCount m;
         postSignalToolCallCount := if after then postSignalToolCallCount m + calls else postSignalToolCallCount m;
         postSignalProviderTokens := if after then (postSignalProviderTokens m + tokens)%Z
                                     else postSignalProviderTokens m |}
  end.

Definition replayMetrics (steps : list RunawayGuardReplayStep) (obs : list RunawayGuardObservation) :
    ReplayMetrics :=
  let first := firstSignal obs in
  metrics_loop steps 0 first
    {| toolCallCount := 0; providerTokens := 0; firstSignalStepIndex := first;
       postSignalStepCount := match first with None => 0 | Some f => length steps - f end;
       postSignalToolCallCount := 0; postSignalProviderTokens := 0 |}.

Definition replay_step (policies : jmap jstr RunawayGuardToolPolicy) (maxBytes : nat)
    (ctx : RunawayGuardRunIdentity) (x : ShadowState Secret * list RunawayGuardObservation)
    (step : RunawayGuardReplayStep) : ShadowState Secret * list RunawayGuardObservation :=
  let d := detect policies maxBytes true ctx step None (fst x) (snd x) in (state d, sent d).

(** [None] is the exception of [positiveInteger]. *)
Definition replayRunawayGuardTrajectory (randomBytes : Secret) (input : RunawayGuardReplayInput) :
    option RunawayGuardReplayResult :=
  maxBytes ← positiveInteger (default (NumInt (Z.of_nat DEFAULT_MAX_FINGERPRINT_BYTES))
                                (i_maxFingerprintBytes input));
  let ctx := i_ctx input in
  let '(s, obs) := fold_left (replay_step (jof_list (i_toolPolicies input)) maxBytes ctx) (i_steps input)
                     (newShadowState randomBytes, []) in
  Some {| observations := obs; summary := snapshotTurnSummary ctx s;
          metrics := replayMetrics (i_steps input) obs |}.
End Guard.

Arguments GuardCall : clear implicits.

(** ** Lemmas *)
Section Facts.
Context {Secret : Type} (hmac : Secret -> jstr -> jstr) (toLowerCase : jstr -> jstr).
Implicit Types (s : ShadowState Secret) (d : Detection Secret) (c : GuardConfig).
Abbreviation States := (jmap jstr (ShadowState Secret)) (only parsing).

(** A step never touches the run's secret or its reminder flags. *)
Lemma detect_frame policies maxBytes obs ctx step threshold s log :
  let s' := state (detect hmac toLowerCase policies maxBytes obs ctx step threshold s log) in
  secret s' = secret s /\ reminderAttempted s' = reminderAttempted s
  /\ reminderInjected s' = reminderInjected s /\ stepIndex s' = stepIndex s + 1.
Proof.
  unfold detect.
  match goal with |- context [projectStep ?h ?l ?m ?r ?st ?p ?b ?v ?t ?k] =>
    assert (exists n, snd (projectStep h l m r st p b v t k) = add_skipped n st) as [n Hn]
      by (eexists; reflexivity);
    destruct (projectStep h l m r st p b v t k) as [view s2]
  end.
  cbn [snd] in Hn. subst s2.
  destruct (observeStep_spec ctx obs view threshold (add_skipped n (set_stepIndex (stepIndex s + 1) s)) log)
    as [(r & a & ps & st & ->) _].
  done.
Qed.

Definition preferred (cands : list RunawayGuardSignalKind) : option RunawayGuardSignalKind :=
  List.find (fun k => bool_decide (k ∈ cands)) REMINDER_CANDIDATE_PRIORITY.

Definition steerObservation (ctx : RunawayGuardRunIdentity) (k : RunawayGuardSignalKind) s (n : nat) :
    RunawayGuardObservation :=
  {| o_sessionId := sessionId ctx; o_turnId := turnId ctx; o_agentName := agentName ctx;
     o_signalKind := k; o_stepIndex := stepIndex s; o_occurrences := n |}.

Lemma content_some k n :
  isReminderSignalKind k = true -> 0 < n ->
  exists text, reminderContent k n = Some text /\ truthy text = true.
Proof.
  intros Hk Hn. unfold reminderContent, pollingReminderContent, reminderGuidance.
  destruct n as [|n]; [lia|]. cbn [Nat.eqb].
  destruct k; try (by vm_compute in Hk); eexists; (split; [reflexivity|reflexivity]).
Qed.

Lemma takePreferred_spec cands ctx s n :
  0 < n ->
  takePreferredReminder cands ctx s n
  = match preferred cands with
    | None => (None, s)
    | Some k =>
      if reminderAttempted s then (None, s)
      else (Some {| content := default [] (reminderContent k n); observation := steerObservation ctx k s n |},
            set_reminder true (reminderInjected s) s)
    end.
Proof.
  intros Hn. unfold takePreferredReminder, preferred.
  assert (Hall : forall k, k ∈ REMINDER_CANDIDATE_PRIORITY -> isReminderSignalKind k = true)
    by (intros k Hk; by apply bool_decide_eq_true).
  induction REMINDER_CANDIDATE_PRIORITY as [|k l IH]; [done|].
  cbn [takePreferred_loop List.find]. destruct (bool_decide (k ∈ cands)).
  - destruct (content_some k n) as (text & -> & Ht); [by apply Hall; left|done|].
    rewrite Ht. cbn [negb orb]. by destruct (reminderAttempted s).
  - apply IH. intros k' Hk'. apply Hall. by right.
Qed.

(** *** One reminder per run *)
Definition attempted (key : jstr) (states : States) : bool :=
  match jget key states with Some s => reminderAttempted s | None => false end.

Definition is_some {A} (o : option A) : bool := match o with Some _ => true | None => false end.

Definition reminders_of (key : jstr) (rs : list (GuardCall Secret * GuardResult)) : nat :=
  length (List.filter (fun x => str_eqb (runKey (call_ctx (fst x))) key && is_some (g_reminder (snd x))) rs).

Definition not_finish (key : jstr) (e : GuardCall Secret) : bool :=
  match e with CallFinish ctx => negb (str_eqb (runKey ctx) key) | _ => true end.

Lemma take_reserves cands ctx s n :
  let '(r, s') := takePreferredReminder cands ctx s n in
  (is_some r = true -> reminderAttempted s = false /\ reminderAttempted s' = true)
  /\ (reminderAttempted s = true -> reminderAttempted s' = true)
  /\ (is_some r = false -> s' = s).
Proof.
  unfold takePreferredReminder.
  induction REMINDER_CANDIDATE_PRIORITY as [|k l IH]; [by split; [|split]|].
  cbn [takePreferred_loop]. destruct (bool_decide (k ∈ cands)); [|exact IH].
  destruct (reminderContent k n) as [text|]; [|by split; [|split]].
  destruct (negb (truthy text)); [by split; [|split]|].
  destruct (reminderAttempted s) eqn:E; by split; [|split].
Qed.

Lemma observe_attempted c bytes ctx step should states :
  let '(r, l, states') := observe hmac toLowerCase c bytes ctx step should states in
  (is_some r = true -> attempted (runKey ctx) states = false /\ attempted (runKey ctx) states' = true)
  /\ (attempted (runKey ctx) states = true -> attempted (runKey ctx) states' = true).
Proof.
  unfold observe. set (d := detect _ _ _ _ _ _ _ _ _ _).
  assert (Ha : reminderAttempted (state d) = attempted (runKey ctx) states).
  { unfold d. destruct (detect_frame (c_policies c) (c_maxFingerprintBytes c) (c_observer c) ctx step
      (if should then c_afterOccurrences c else None) (stateFor bytes states ctx) []) as (_ & -> & _).
    unfold attempted, stateFor. by destruct (jget (runKey ctx) states). }
  destruct (if should then c_afterOccurrences c else None) as [n|].
  - pose proof (take_reserves (candidates d) ctx (state d) n) as Ht.
    destruct (takePreferredReminder _ ctx (state d) n) as [r s']. destruct Ht as (H1 & H2 & _).
    unfold attempted at 2 4. rewrite !jget_jset_eq, <- Ha. auto.
  - unfold attempted at 2 4. rewrite !jget_jset_eq, Ha. done.
Qed.

Lemma guard_call_other c states e key :
  runKey (call_ctx e) <> key ->
  jget key (snd (guard_call hmac toLowerCase c states e)) = jget key states.
Proof.
  intros Hne. destruct e as [ctx step should bytes|ctx|ctx|ctx]; cbn [guard_call call_ctx] in *.
  - unfold observe. destruct (match _ with None => _ | Some n => _ end) as [r s'].
    cbn [snd]. by rewrite jget_jset_ne.
  - unfold guard_clearDetectionStreaks. cbn [snd]. destruct (jget (runKey ctx) states); [|done].
    by rewrite jget_jset_ne.
  - unfold markReminderInjected. cbn [snd]. destruct (jget (runKey ctx) states); [|done].
    by rewrite jget_jset_ne.
  - unfold finishTurn. destruct (jget (runKey ctx) states); cbn [snd]; [|done].
    by rewrite jget_jdel_ne.
Qed.

(** A call answers, and leaves the state of its run, by the state of its run alone. *)
Lemma guard_call_local c states states' e :
  jget (runKey (call_ctx e)) states = jget (runKey (call_ctx e)) states' ->
  fst (guard_call hmac toLowerCase c states e) = fst (guard_call hmac toLowerCase c states' e)
  /\ jget (runKey (call_ctx e)) (snd (guard_call hmac toLowerCase c states e))
     = jget (runKey (call_ctx e)) (snd (guard_call hmac toLowerCase c states' e)).
Proof.
  intros Heq. destruct e as [ctx step should bytes|ctx|ctx|ctx]; cbn [guard_call call_ctx] in *.
  - unfold observe, stateFor. rewrite Heq. destruct (match _ with None => _ | Some n => _ end) as [r s'].
    cbn [fst snd]. by rewrite !jget_jset_eq.
  - unfold guard_clearDetectionStreaks. cbn [fst snd]. split; [done|]. rewrite <- Heq.
    destruct (jget (runKey ctx) states) eqn:E; by rewrite ?jget_jset_eq, ?E, ?Heq.
  - unfold markReminderInjected. cbn [fst snd]. split; [done|]. rewrite <- Heq.
    destruct (jget (runKey ctx) states) eqn:E; by rewrite ?jget_jset_eq, ?E, ?Heq.
  - unfold finishTurn. rewrite <- Heq. destruct (jget (runKey ctx) states) eqn:E; cbn [fst snd].
    + by rewrite !jget_jdel_eq.
    + by rewrite E, <- Heq.
Qed.

Lemma reminders_bound c key calls : forall states,
  forallb (not_finish key) calls = true ->
  reminders_of key (fst (guard_calls hmac toLowerCase c states calls))
  + (if attempted key states then 1 else 0) <= 1.
Proof.
  induction calls as [|e calls IH]; intros states Hnf.
  { cbn. destruct (attempted key states); lia. }
  cbn [forallb] in Hnf. apply andb_true_iff in Hnf as [He Hnf]. cbn [guard_calls].
  assert (Hcall : let '(r, states1) := guard_call hmac toLowerCase c states e in
    (attempted key states = true -> attempted key states1 = true)
    /\ (str_eqb (runKey (call_ctx e)) key && is_some (g_reminder r) = true ->
         attempted key states = false /\ attempted key states1 = true)).
  { destruct (guard_call hmac toLowerCase c states e) as [r states1] eqn:Ec. unfold str_eqb.
    destruct (bool_decide_reflect (runKey (call_ctx e) = key)) as [<-|Hne].
    2: { pose proof (guard_call_other c states e key Hne) as Ho. rewrite Ec in Ho. cbn [snd] in Ho.
         split; [|done]. unfold attempted. by rewrite Ho. }
    destruct e as [ctx step should bytes|ctx|ctx|ctx]; cbn [guard_call call_ctx] in *.
    - pose proof (observe_attempted c bytes ctx step should states) as Ha.
      destruct (observe _ _ _ _ _ _ _ _) as [[r0 l] states2]. injection Ec as <- <-. cbn [g_reminder].
      destruct Ha as [H1 H2]. auto.
    - injection Ec as <- <-. split; [|done]. unfold attempted, guard_clearDetectionStreaks.
      destruct (jget (runKey ctx) states) eqn:E; [|done]. by rewrite jget_jset_eq.
    - injection Ec as <- <-. split; [|done]. unfold attempted, markReminderInjected.
      destruct (jget (runKey ctx) states) eqn:E; [|done]. by rewrite jget_jset_eq.
    - cbn [not_finish] in He. unfold str_eqb in He. by rewrite bool_decide_eq_true_2 in He. }
  destruct (guard_call hmac toLowerCase c states e) as [r states1]. destruct Hcall as [H1 H2].
  specialize (IH states1 Hnf). destruct (guard_calls hmac toLowerCase c states1 calls) as [rs states2].
  cbn [fst] in *. unfold reminders_of in *. cbn [List.filter fst snd].
  destruct (str_eqb _ _ && is_some _) eqn:Er.
  - destruct (H2 eq_refl) as [Hb Ha]. rewrite Hb. rewrite Ha in IH. simpl. lia.
  - destruct (attempted key states); [rewrite (H1 eq_refl) in IH|]; lia.
Qed.

(** *** Isolation *)
Definition nul_free (ctx : RunawayGuardRunIdentity) : bool := negb (bool_decide (0%N ∈ sessionId ctx)).

Definition same_run (a b : RunawayGuardRunIdentity) : bool :=
  str_eqb (sessionId a) (sessionId b) && str_eqb (turnId a) (turnId b).

Lemma runKey_same a b :
  nul_free a = true -> nul_free b = true -> same_run a b = str_eqb (runKey a) (runKey b).
Proof.
  unfold nul_free. intros Ha%negb_true_iff%bool_decide_eq_false Hb%negb_true_iff%bool_decide_eq_false.
  unfold same_run, str_eqb, runKey. rewrite <- bool_decide_and. apply bool_decide_ext. split.
  - by intros [-> ->].
  - intros H. by apply nul_split in H.
Qed.

Lemma guard_calls_isolated c key calls : forall states states',
  jget key states = jget key states' ->
  List.filter (fun x => str_eqb (runKey (call_ctx (fst x))) key)
    (fst (guard_calls hmac toLowerCase c states calls))
  = fst (guard_calls hmac toLowerCase c states'
      (List.filter (fun e => str_eqb (runKey (call_ctx e)) key) calls)).
Proof.
  induction calls as [|e calls IH]; intros states states' Heq; [done|].
  cbn [guard_calls List.filter]. unfold str_eqb at 2.
  destruct (bool_decide_reflect (runKey (call_ctx e) = key)) as [Hk|Hk].
  - cbn [guard_calls]. destruct (guard_call_local c states states' e) as [Hr Hs]; [by rewrite Hk|].
    rewrite Hk in Hs. destruct (guard_call _ _ c states e) as [r s1], (guard_call _ _ c states' e) as [r' s1'].
    cbn [fst snd] in *. subst r'. specialize (IH s1 s1' Hs).
    destruct (guard_calls _ _ c s1 calls), (guard_calls _ _ c s1' _). cbn [fst List.filter] in *.
    unfold str_eqb at 1. rewrite bool_decide_eq_true_2 by done. by rewrite IH.
  - pose proof (guard_call_other c states e key Hk) as Ho.
    destruct (guard_call _ _ c states e) as [r s1]. cbn [snd] in Ho.
    specialize (IH s1 states' ltac:(by rewrite Ho)).
    destruct (guard_calls _ _ c s1 calls). cbn [fst List.filter] in *.
    unfold str_eqb at 1. by rewrite bool_decide_eq_false_2.
Qed.

(** *** Replay *)
Lemma detect_relog policies maxBytes obs ctx step threshold s pre log :
  detect hmac toLowerCase policies maxBytes obs ctx step threshold s (pre ++ log)
  = relog pre (detect hmac toLowerCase policies maxBytes obs ctx step threshold s log).
Proof.
  unfold detect. destruct (projectStep _ _ _ _ _ _ _ _ _ _) as [view s2]. apply observeStep_relog.
Qed.

Lemma detect_log policies maxBytes obs ctx step threshold s log :
  detect hmac toLowerCase policies maxBytes obs ctx step threshold s log
  = relog log (detect hmac toLowerCase policies maxBytes obs ctx step threshold s []).
Proof. by rewrite <- detect_relog, app_nil_r. Qed.

Lemma detect_stat_log policies maxBytes ctx step threshold s log :
  stat_log s log ->
  let d := detect hmac toLowerCase policies maxBytes true ctx step threshold s log in
  stat_log (state d) (sent d).
Proof.
  intros H. unfold detect.
  match goal with |- context [projectStep ?h ?l ?m ?r ?st ?p ?b ?v ?t ?k] =>
    assert (exists n, snd (projectStep h l m r st p b v t k) = add_skipped n st) as [n Hn]
      by (eexists; reflexivity);
    destruct (projectStep h l m r st p b v t k) as [view s2]
  end.
  cbn [snd] in Hn. subst s2. apply stat_log_step. exact H.
Qed.

Lemma replay_stat_log policies maxBytes ctx steps : forall x,
  stat_log (fst x) (snd x) ->
  let y := fold_left (replay_step hmac toLowerCase policies maxBytes ctx) steps x in
  stat_log (fst y) (snd y).
Proof.
  intros x Hx. apply (fold_left_preserves (fun x => stat_log (fst x) (snd x))); [|done].
  intros y step Hy. apply detect_stat_log. exact Hy.
Qed.

(** A guard with an observer and no reminders, as the replay runs it. *)
Definition observing (policies : jmap jstr RunawayGuardToolPolicy) (maxBytes : nat) : GuardConfig :=
  {| c_maxFingerprintBytes := maxBytes; c_afterOccurrences := None; c_policies := policies;
     c_observer := true |}.

Lemma live_replay policies maxBytes ctx should bytes steps : forall s log states,
  stateFor bytes states ctx = s ->
  let '(rs, states') := guard_calls hmac toLowerCase (observing policies maxBytes) states
                          (map (fun step => CallObserve ctx step should bytes) steps) in
  let '(s', log') := fold_left (replay_step hmac toLowerCase policies maxBytes ctx) steps (s, log) in
  log' = log ++ concat (map (fun x => g_sent (snd x)) rs)
  /\ stateFor bytes states' ctx = s'
  /\ Forall (fun x => g_reminder (snd x) = None) rs
  /\ (is_some (jget (runKey ctx) states) = true \/ steps <> [] ->
      is_some (jget (runKey ctx) states') = true).
Proof.
  induction steps as [|step steps IH]; intros s log states Hs.
  { cbn. rewrite app_nil_r. split; [done|]. split; [done|]. split; [constructor|]. by intros [?|?]. }
  cbn [map guard_calls fold_left]. unfold replay_step at 2. cbn [fst snd].
  cbn [guard_call]. unfold observe. rewrite Hs. cbn [observing c_policies c_maxFingerprintBytes c_observer c_afterOccurrences].
  replace (if should then None else None) with (@None nat) by (by destruct should).
  rewrite (detect_log _ _ _ _ _ _ _ log).
  set (d := detect _ _ _ _ _ _ _ _ _ _). cbn [relog state sent].
  specialize (IH (state d) (log ++ sent d) (jset (runKey ctx) (state d) states)).
  fold (observing policies maxBytes).
  destruct (guard_calls _ _ _ _ _) as [rs states'].
  destruct (fold_left _ _ _) as [s' log'].
  destruct IH as (Hl & Hst & Hn & Hsome).
  { unfold stateFor. by rewrite jget_jset_eq. }
  cbn [map concat snd g_sent]. split; [by rewrite Hl, app_assoc|]. split; [done|].
  split; [by constructor|]. intros _. apply Hsome. left. by rewrite jget_jset_eq.
Qed.
End Facts.

(** *** Metrics *)
Definition step_calls (step : RunawayGuardReplayStep) : nat := length (toolCallIdsFromMessage (message step)).
Definition step_tokens (step : RunawayGuardReplayStep) : Z := assistantMessageTokens (message step).
Definition sum_Z (l : list Z) : Z := foldr Z.add 0%Z l.

(** The steps after the first signal, counted from the step after [index]. *)
Definition after_first (first : option nat) (index : nat) (steps : list RunawayGuardReplayStep) :
    list RunawayGuardReplayStep :=
  match first with Some f => drop (f - index) steps | None => [] end.

Lemma metrics_loop_spec steps : forall index first m,
  metrics_loop steps index first m
  = {| toolCallCount := toolCallCount m + sum_list (map step_calls steps);
       providerTokens := (providerTokens m + sum_Z (map step_tokens steps))%Z;
       firstSignalStepIndex := firstSignalStepIndex m;
       postSignalStepCount := postSignalStepCount m;
       postSignalToolCallCount :=
         postSignalToolCallCount m + sum_list (map step_calls (after_first first index steps));
       postSignalProviderTokens :=
         (postSignalProviderTokens m + sum_Z (map step_tokens (after_first first index steps)))%Z |}.
Proof.
  induction steps as [|step steps IH]; intros index first m.
  - unfold after_first. cbn [metrics_loop]. destruct m; destruct first; rewrite ?drop_nil; simpl; f_equal; lia.
  - cbn [metrics_loop]. rewrite IH. clear IH.
    cbn [toolCallCount providerTokens firstSignalStepIndex postSignalStepCount postSignalToolCallCount
         postSignalProviderTokens].
    fold (step_calls step) (step_tokens step).
    assert (Hafter : match first with
      | Some f => if (f <? index + 1)%nat
                  then after_first first index (step :: steps) = step :: after_first first (index + 1) steps
                  else after_first first index (step :: steps) = after_first first (index + 1) steps
      | None => after_first first index (step :: steps) = after_first first (index + 1) steps
      end).
    { unfold after_first. destruct first as [f|]; [|done]. destruct (Nat.ltb_spec f (index + 1)).
      - replace (f - index) with 0 by lia. replace (f - (index + 1)) with 0 by lia. done.
      - replace (f - index) with (S (f - (index + 1))) by lia. done. }
    destruct first as [f|]; [destruct (Nat.ltb f (index + 1))|]; rewrite Hafter; simpl; f_equal; lia.
Qed.

(** ** Properties *)

(** C39: whatever the host calls, in whatever order and for however many runs, a
    run gets at most one reminder before it finishes. *)
Theorem at_most_one_reminder {Secret} (hmac : Secret -> jstr -> jstr) (toLowerCase : jstr -> jstr)
    (c : GuardConfig) (calls : list (GuardCall Secret)) (key : jstr)
    (Hopen : forallb (not_finish key) calls = true) :
  reminders_of key (fst (guard_calls hmac toLowerCase c [] calls)) <= 1.
Proof. pose proof (reminders_bound hmac toLowerCase c key calls [] Hopen) as H. lia. Qed.

Definition sample_run : RunawayGuardRunIdentity :=
  {| sessionId := js "s"; turnId := js "t"; agentName := js "main" |}.

Definition sample_step : RunawayGuardReplayStep :=
  {| message := AssistantMessage [ToolCall (js "1") (js "read") (JStr (js "a.txt"))] (Some 7%Z);
     toolResults := []; blockedToolCalls := []; verifiedProgress := []; trustedToolProvenance := [] |}.

Definition sample_guard : GuardConfig :=
  {| c_maxFingerprintBytes := 1000; c_afterOccurrences := Some 3; c_policies := []; c_observer := true |}.

(** Five identical steps: the third steers, the others do not. *)
Lemma at_most_one_reminder_witness :
  let rs := fst (guard_calls (fun _ s => s) (fun s => s) sample_guard []
                   (repeat (CallObserve sample_run sample_step true tt) 5)) in
  map (fun x => is_some (g_reminder (snd x))) rs = [false; false; true; false; false]
  /\ reminders_of (runKey sample_run) rs <= 1.
Proof.
  split; [vm_compute; reflexivity|].
  apply (at_most_one_reminder (fun _ s => s) (fun s => s) sample_guard
    (repeat (CallObserve sample_run sample_step true tt) 5)). reflexivity.
Defined.

(** with reminders on, [observe] steers exactly when a candidate exists and
    the run has not been steered; the kind is the first candidate in priority
    order, the text is not empty, and the allowance is spent in the same call. *)
Theorem observe_steers_by_priority {Secret} (hmac : Secret -> jstr -> jstr) (toLowerCase : jstr -> jstr)
    (c : GuardConfig) (bytes : Secret) ctx step states (n : nat)
    (Hafter : c_afterOccurrences c = Some n) (Hn : 0 < n) :
  let '(r, _, states') := observe hmac toLowerCase c bytes ctx step true states in
  let s := stateFor bytes states ctx in
  let d := detect hmac toLowerCase (c_policies c) (c_maxFingerprintBytes c) (c_observer c) ctx step (Some n) s [] in
  match preferred (candidates d) with
  | Some k =>
    if reminderAttempted s then r = None
    else exists text, truthy text = true /\ reminderContent k n = Some text
         /\ r = Some {| content := text; observation := steerObservation ctx k (state d) n |}
  | None => r = None
  end
  /\ reminderAttempted (stateFor bytes states' ctx) = reminderAttempted s || is_some (preferred (candidates d)).
Proof.
  unfold observe. rewrite Hafter. cbn zeta iota.
  destruct (detect_frame hmac toLowerCase (c_policies c) (c_maxFingerprintBytes c) (c_observer c) ctx step
    (Some n) (stateFor bytes states ctx) []) as (_ & Ha & _ & _).
  set (d := detect _ _ _ _ _ _ _ _ _ _) in *. rewrite takePreferred_spec by done.
  assert (Hk : match preferred (candidates d) with
               | Some k => isReminderSignalKind k = true | None => True end).
  { unfold preferred. destruct (List.find _ _) as [k|] eqn:E; [|done].
    apply List.find_some in E as [Hin _]. apply bool_decide_eq_true. by apply list_elem_of_In. }
  destruct (preferred (candidates d)) as [k|].
  - rewrite Ha. destruct (content_some k n Hk Hn) as (text & Ht & Htt).
    destruct (reminderAttempted (stateFor bytes states ctx)) eqn:Eat;
      (split; [|unfold stateFor at 1; by rewrite jget_jset_eq]); [done|].
    exists text. by rewrite Ht.
  - split; [done|]. unfold stateFor at 1. by rewrite jget_jset_eq, Ha, orb_false_r.
Qed.

Lemma observe_steers_by_priority_witness :
  let '(r, _, _) := observe (fun _ s => s) (fun s => s) sample_guard tt sample_run sample_step true [] in r = None.
Proof.
  pose proof (observe_steers_by_priority (fun _ s => s) (fun s => s) sample_guard tt sample_run sample_step
    [] 3 eq_refl ltac:(lia)) as H.
  destruct (observe _ _ _ _ _ _ _ _) as [[r l] states']. destruct H as [H _]. vm_compute in H. exact H.
Defined.

(** runs do not disturb each other: what the calls of a run return and send
    is what they would return and send if no other run existed. *)
Theorem runs_isolated {Secret} (hmac : Secret -> jstr -> jstr) (toLowerCase : jstr -> jstr)
    (c : GuardConfig) (calls : list (GuardCall Secret)) (ctx : RunawayGuardRunIdentity)
    (Hctx : nul_free ctx = true) (Hcalls : forallb (fun e => nul_free (call_ctx e)) calls = true) :
  List.filter (fun x => same_run (call_ctx (fst x)) ctx) (fst (guard_calls hmac toLowerCase c [] calls))
  = fst (guard_calls hmac toLowerCase c [] (List.filter (fun e => same_run (call_ctx e) ctx) calls)).
Proof.
  pose proof (guard_calls_isolated hmac toLowerCase c (runKey ctx) calls [] [] eq_refl) as H.
  rewrite (List.filter_ext_in _ (fun e => str_eqb (runKey (call_ctx e)) (runKey ctx)) calls).
  2: { intros e He. rewrite forallb_forall in Hcalls. apply runKey_same; auto. }
  rewrite <- H. apply List.filter_ext_in. intros [e r] Hin. cbn [fst].
  apply runKey_same; [|done]. rewrite forallb_forall in Hcalls. apply Hcalls.
  clear -Hin. revert Hin. generalize (@nil (jstr * ShadowState Secret)).
  induction calls as [|e' calls IH]; intros st; cbn [guard_calls]; [done|].
  destruct (guard_call _ _ c st e') as [r' st1]. specialize (IH st1).
  destruct (guard_calls _ _ c st1 calls) as [rs st2]. cbn [fst] in *. intros [Heq|Hin].
  - injection Heq as -> _. by left.
  - right. by apply IH.
Qed.

Definition other_run : RunawayGuardRunIdentity :=
  {| sessionId := js "s2"; turnId := js "t"; agentName := js "main" |}.

Lemma runs_isolated_witness :
  let c1 := CallObserve sample_run sample_step true tt in
  let c2 := CallObserve other_run sample_step true tt in
  List.filter (fun x => same_run (call_ctx (fst x)) sample_run)
    (fst (guard_calls (fun _ s => s) (fun s => s) sample_guard [] [c1; c2; c1; c2; c1]))
  = fst (guard_calls (fun _ s => s) (fun s => s) sample_guard [] [c1; c1; c1]).
Proof.
  cbn zeta. rewrite (runs_isolated (fun _ s => s) (fun s => s) sample_guard _ sample_run)
    by reflexivity. reflexivity.
Defined.

(** the replay of a trajectory is the live guard without reminders: the same
    options are refused; the observations are those the guard sends, in order;
    the summary is the one [finishTurn] returns; and the guard never steers. *)
Theorem replay_is_live_guard {Secret} (hmac : Secret -> jstr -> jstr) (toLowerCase : jstr -> jstr)
    (bytes : Secret) (input : RunawayGuardReplayInput) (should : bool) :
  let options := {| toolPolicies := i_toolPolicies input; maxFingerprintBytes := i_maxFingerprintBytes input;
                    remindAfterOccurrences := None; onSignal := true |} in
  match createRunawayGuard options, replayRunawayGuardTrajectory hmac toLowerCase bytes input with
  | None, None => True
  | Some c, Some res =>
    let '(rs, states) := guard_calls hmac toLowerCase c []
                           (map (fun step => CallObserve (i_ctx input) step should bytes) (i_steps input)) in
    concat (map (fun x => g_sent (snd x)) rs) = observations res
    /\ fst (finishTurn (i_ctx input) states)
       = match i_steps input with [] => None | _ => Some (summary res) end
    /\ Forall (fun x => g_reminder (snd x) = None) rs
  | _, _ => False
  end.
Proof.
  unfold createRunawayGuard, replayRunawayGuardTrajectory. cbn [toolPolicies maxFingerprintBytes
    remindAfterOccurrences onSignal]. destruct (positiveInteger _) as [maxBytes|]; [|done].
  cbn [mbind option_bind]. fold (observing (jof_list (i_toolPolicies input)) maxBytes).
  pose proof (live_replay hmac toLowerCase (jof_list (i_toolPolicies input)) maxBytes (i_ctx input) should
    bytes (i_steps input) (newShadowState bytes) [] [] eq_refl) as H.
  destruct (fold_left _ _ _) as [s log]. destruct (i_steps input) as [|step steps].
  { destruct (guard_calls _ _ _ _ _) as [rs states] eqn:Eg. injection Eg as <- <-. by destruct H as [-> _]. }
  destruct (guard_calls _ _ _ _ _) as [rs states]. destruct H as (Hl & Hs & Hn & Hsome).
  split; [by rewrite Hl|]. split; [|done].
  assert (Hin : is_some (jget (runKey (i_ctx input)) states) = true) by (apply Hsome; by right).
  unfold finishTurn. unfold stateFor in Hs.
  destruct (jget (runKey (i_ctx input)) states) as [s0|]; [|discriminate Hin].
  cbn [fst summary]. by subst.
Qed.

(** A replay's turn summary is a summary of its observations: per kind, the
    episode count is the number of observations, the first and last step indices
    are those of the first and last observation, and no observation reports more
    occurrences than the recorded maximum. *)
Theorem replay_summary_counts_observations {Secret} (hmac : Secret -> jstr -> jstr)
    (toLowerCase : jstr -> jstr) (bytes : Secret) (input : RunawayGuardReplayInput) :
  match replayRunawayGuardTrajectory hmac toLowerCase bytes input with
  | None => True
  | Some res =>
    Forall (fun x => stats_of (snd x) (of_kind (fst x) (observations res))) (t_signals (summary res))
  end.
Proof.
  unfold replayRunawayGuardTrajectory. destruct (positiveInteger _) as [maxBytes|]; [|done].
  cbn [mbind option_bind].
  pose proof (replay_stat_log hmac toLowerCase (jof_list (i_toolPolicies input)) maxBytes (i_ctx input)
    (i_steps input) (newShadowState bytes, [])) as H.
  destruct (fold_left _ _ _) as [s log]. cbn [fst snd] in H.
  assert (Hsl : stat_log s log) by (apply H; intros k; repeat split; constructor).
  cbn [observations summary snapshotTurnSummary t_signals snapshotSignalStats map].
  repeat (constructor; [apply Hsl|]). constructor.
Qed.

(** The replay metrics are sums over the steps: all of them, and those after
    the first signalled step. *)
Lemma replay_metrics_sums (steps : list RunawayGuardReplayStep) (obs : list RunawayGuardObservation) :
  let m := replayMetrics steps obs in
  let later := after_first (firstSignal obs) 0 steps in
  toolCallCount m = sum_list (map step_calls steps)
  /\ providerTokens m = sum_Z (map step_tokens steps)
  /\ firstSignalStepIndex m = firstSignal obs
  /\ postSignalStepCount m = length later
  /\ postSignalToolCallCount m = sum_list (map step_calls later)
  /\ postSignalProviderTokens m = sum_Z (map step_tokens later).
Proof.
  cbn zeta. unfold replayMetrics. rewrite metrics_loop_spec. cbn [toolCallCount providerTokens
    firstSignalStepIndex postSignalStepCount postSignalToolCallCount postSignalProviderTokens].
  repeat split. unfold after_first. destruct (firstSignal obs) as [f|]; [|done].
  by rewrite length_drop, Nat.sub_0_r.
Qed.
