(* ===== verification/TaskModel.v ===== *)
(** * Background tasks: data, status machine, errors

    [packages/agent-modules/background-task/src]: [types.ts], [status.ts],
    [errors.ts].  Times are milliseconds in [Z].  Values are immutable here, so
    the clones the stores make are the values themselves. *)
From S2P Require Import Prelude JsValue.

(** ** Data ([types.ts]) *)
Inductive BackgroundTaskKind := kind_bash | kind_subagent | kind_workflow | kind_custom.

Inductive BackgroundTaskStatus :=
  | queued | running | stopping | succeeded | failed | canceled | lost.

#[export] Instance task_kind_eq_dec : EqDecision BackgroundTaskKind.
Proof. solve_decision. Defined.
#[export] Instance task_status_eq_dec : EqDecision BackgroundTaskStatus.
Proof. solve_decision. Defined.

(** [Record<string, unknown>]. *)
Abbreviation record := (jmap jstr json) (only parsing).

Record TaskError := { te_message : jstr; te_code : option jstr; te_details : option record }.

Record TaskUsage := {
  inputTokens : option Z;
  outputTokens : option Z;
  totalTokens : option Z;
  costUsd : option jnum;
  u_metadata : option record;
}.

Inductive TaskOutputKind := out_file | out_oss | out_sandbox_job | out_session_transcript | out_memory.

Record TaskOutputRef := {
  ref_taskId : jstr;
  ref_kind : TaskOutputKind;
  uri : jstr;
  ref_offset : option nat;
  ref_updatedAt : option Z;
  ref_metadata : option record;
}.

Record BackgroundTask := {
  taskId : jstr;
  kind : BackgroundTaskKind;
  status : BackgroundTaskStatus;
  ownerSessionId : jstr;
  description : option jstr;
  toolCallId : option jstr;
  parentMessageId : option jstr;
  (** [undefined], [null] or a string *)
  parentTaskId : option (option jstr);
  createdAt : Z;
  updatedAt : Z;
  startedAt : option Z;
  endedAt : option Z;
  deliveredAt : option Z;
  outputRef : option TaskOutputRef;
  lastError : option TaskError;
  usage : option TaskUsage;
  metadata : option record;
}.

(** [BackgroundTaskPatch]: an absent property is [None]. *)
Record BackgroundTaskPatch := {
  p_status : option BackgroundTaskStatus;
  p_description : option jstr;
  p_toolCallId : option jstr;
  p_parentMessageId : option jstr;
  p_parentTaskId : option (option jstr);
  p_updatedAt : option Z;
  p_startedAt : option Z;
  p_endedAt : option Z;
  p_deliveredAt : option Z;
  p_outputRef : option TaskOutputRef;
  p_lastError : option TaskError;
  p_usage : option TaskUsage;
  p_metadata : option record;
}.

Definition emptyPatch : BackgroundTaskPatch :=
  {| p_status := None; p_description := None; p_toolCallId := None; p_parentMessageId := None;
     p_parentTaskId := None; p_updatedAt := None; p_startedAt := None; p_endedAt := None;
     p_deliveredAt := None; p_outputRef := None; p_lastError := None; p_usage := None;
     p_metadata := None |}.

Inductive TaskLifecycleEventType :=
  | ev_created | ev_started | ev_output_updated | ev_stop_requested | ev_status_changed | ev_completed.

#[export] Instance event_type_eq_dec : EqDecision TaskLifecycleEventType.
Proof. solve_decision. Defined.

Record TaskLifecycleEvent := {
  eventId : jstr;
  e_taskId : jstr;
  e_ownerSessionId : jstr;
  e_type : TaskLifecycleEventType;
  timestamp : Z;
  sequence : nat;
  payload : record;
}.

(** ** The status machine ([status.ts]) *)
Definition ACTIVE_TASK_STATUSES : list BackgroundTaskStatus := [queued; running; stopping].
Definition TERMINAL_TASK_STATUSES : list BackgroundTaskStatus := [succeeded; failed; canceled; lost].

Definition isActiveTaskStatus (s : BackgroundTaskStatus) : bool := bool_decide (s ∈ ACTIVE_TASK_STATUSES).
Definition isTerminalTaskStatus (s : BackgroundTaskStatus) : bool := bool_decide (s ∈ TERMINAL_TASK_STATUSES).

Definition canTransitionTaskStatus (from to : BackgroundTaskStatus) : bool :=
  if bool_decide (from = to) then true
  else if isTerminalTaskStatus from then false
  else
    match from with
    | queued => bool_decide (to ∈ [running; stopping; succeeded; failed; canceled; lost])
    | running => bool_decide (to ∈ [stopping; succeeded; failed; canceled; lost])
    | stopping => bool_decide (to ∈ [succeeded; failed; canceled; lost])
    | _ => false
    end.

Definition status_name (s : BackgroundTaskStatus) : jstr :=
  match s with
  | queued => js "queued" | running => js "running" | stopping => js "stopping"
  | succeeded => js "succeeded" | failed => js "failed" | canceled => js "canceled" | lost => js "lost"
  end.

Definition kind_name (k : BackgroundTaskKind) : jstr :=
  match k with
  | kind_bash => js "bash" | kind_subagent => js "subagent"
  | kind_workflow => js "workflow" | kind_custom => js "custom"
  end.

(** ** Errors ([errors.ts]) *)
Inductive BackgroundTaskError :=
  | TaskNotFoundError (id : jstr)
  | TaskAlreadyExistsError (id : jstr)
  | TaskRunnerNotFoundError (k : BackgroundTaskKind)
  | TaskRunnerAlreadyRegisteredError (k : BackgroundTaskKind)
  | InvalidTaskStatusTransitionError (id : jstr) (from to : BackgroundTaskStatus).

Definition error_message (e : BackgroundTaskError) : jstr :=
  match e with
  | TaskNotFoundError id => js "Background task not found: " ++ id
  | TaskAlreadyExistsError id => js "Background task already exists: " ++ id
  | TaskRunnerNotFoundError k => js "No background task runner registered for kind: " ++ kind_name k
  | TaskRunnerAlreadyRegisteredError k =>
    js "Background task runner already registered for kind: " ++ kind_name k
  | InvalidTaskStatusTransitionError id from to =>
    js "Invalid background task status transition for " ++ id ++ js ": " ++ status_name from
    ++ js " -> " ++ status_name to
  end.

Definition error_code (e : BackgroundTaskError) : jstr :=
  match e with
  | TaskNotFoundError _ => js "TASK_NOT_FOUND"
  | TaskAlreadyExistsError _ => js "TASK_ALREADY_EXISTS"
  | TaskRunnerNotFoundError _ => js "TASK_RUNNER_NOT_FOUND"
  | TaskRunnerAlreadyRegisteredError _ => js "TASK_RUNNER_EXISTS"
  | InvalidTaskStatusTransitionError _ _ _ => js "INVALID_TASK_STATUS_TRANSITION"
  end.

Definition error_details (e : BackgroundTaskError) : record :=
  match e with
  | TaskNotFoundError id | TaskAlreadyExistsError id => [(js "taskId", JStr id)]
  | TaskRunnerNotFoundError k | TaskRunnerAlreadyRegisteredError k => [(js "kind", JStr (kind_name k))]
  | InvalidTaskStatusTransitionError id from to =>
    [(js "taskId", JStr id); (js "from", JStr (status_name from)); (js "to", JStr (status_name to))]
  end.

(** What a [catch] can receive: a task error, another [Error], any other value
    with its [String] text. *)
Inductive Thrown :=
  | ThrownTaskError (e : BackgroundTaskError)
  | ThrownError (message : jstr) (stack : option jstr)
  | ThrownValue (text : jstr).

Definition normalizeTaskError (error : Thrown) (fallbackCode : jstr) : TaskError :=
  match error with
  | ThrownTaskError e =>
    {| te_message := error_message e; te_code := Some (error_code e); te_details := Some (error_details e) |}
  | ThrownError m stack =>
    {| te_message := m; te_code := Some fallbackCode;
       te_details := match stack with
                     | Some (c :: s) => Some [(js "stack", JStr (c :: s))]
                     | _ => None
                     end |}
  | ThrownValue text => {| te_message := text; te_code := Some fallbackCode; te_details := None |}
  end.

(** ** Applying a patch *)
Definition over {A} (patch current : option A) : option A :=
  match patch with Some v => Some v | None => current end.

(** [mergeRecord]: [{ ...(current ?? {}), ...(patch ?? {}) }]. *)
Definition mergeRecord (current patch : option record) : option record :=
  match current, patch with
  | None, None => None
  | _, _ => Some (fold_left (fun m e => jset (fst e) (snd e) m) (default [] patch) (default [] current))
  end.

(** [{ ...current, ...patch, metadata, updatedAt }]. *)
Definition applyPatch (now : Z) (patch : BackgroundTaskPatch) (current : BackgroundTask) : BackgroundTask :=
  {| taskId := taskId current;
     kind := kind current;
     status := default (status current) (p_status patch);
     ownerSessionId := ownerSessionId current;
     description := over (p_description patch) (description current);
     toolCallId := over (p_toolCallId patch) (toolCallId current);
     parentMessageId := over (p_parentMessageId patch) (parentMessageId current);
     parentTaskId := over (p_parentTaskId patch) (parentTaskId current);
     createdAt := createdAt current;
     updatedAt := default now (p_updatedAt patch);
     startedAt := over (p_startedAt patch) (startedAt current);
     endedAt := over (p_endedAt patch) (endedAt current);
     deliveredAt := over (p_deliveredAt patch) (deliveredAt current);
     outputRef := over (p_outputRef patch) (outputRef current);
     lastError := over (p_lastError patch) (lastError current);
     usage := over (p_usage patch) (usage current);
     metadata := mergeRecord (metadata current) (p_metadata patch) |}.

(** Whether the transition guard of [patch] lets it through. *)
Definition patchAllowed (patch : BackgroundTaskPatch) (current : BackgroundTask) : bool :=
  match p_status patch with
  | Some s => canTransitionTaskStatus (status current) s
  | None => true
  end.

(** ** Properties of the machine *)
Lemma canTransition_refl s : canTransitionTaskStatus s s = true.
Proof. by destruct s. Qed.

Lemma canTransition_trans a b c :
  canTransitionTaskStatus a b = true -> canTransitionTaskStatus b c = true ->
  canTransitionTaskStatus a c = true.
Proof. by destruct a, b, c. Qed.

Lemma canTransition_terminal a b :
  isTerminalTaskStatus a = true -> canTransitionTaskStatus a b = true -> b = a.
Proof. by destruct a, b. Qed.

#[export] Hint Resolve canTransition_refl canTransition_trans canTransition_terminal : bari.

(** Status changes form a partial order from [queued] up to the terminal
    statuses, which are exactly its maximal elements, and every status is
    either active or terminal. *)
Theorem status_order (a b c : BackgroundTaskStatus) :
  canTransitionTaskStatus a a = true
  /\ implb (canTransitionTaskStatus a b && canTransitionTaskStatus b c) (canTransitionTaskStatus a c) = true
  /\ implb (canTransitionTaskStatus a b && canTransitionTaskStatus b a) (bool_decide (a = b)) = true
  /\ canTransitionTaskStatus queued a = true
  /\ (isTerminalTaskStatus a = true <-> forall d, canTransitionTaskStatus a d = true -> d = a)
  /\ isActiveTaskStatus a = negb (isTerminalTaskStatus a).
Proof.
  repeat split; try (by destruct a, b, c); try (by destruct a).
  - intros Ht d Hd. by apply (canTransition_terminal a d).
  - intros H. destruct a; try done; exfalso; by specialize (H failed eq_refl).
Qed.
