(* ===== verification/TaskStore.v ===== *)
(** * Task stores

    The [TaskStore] contract of [background-task/src/types.ts] as a class with
    its laws, and [in-memory-store.ts] as an instance.  Operations are
    synchronous state transformers: the in-memory methods run to completion
    when called.  A clock reading is an argument. *)
From Stdlib Require Import QArith Qround DecimalString DecimalPos DecimalZ Sorted.
From S2P Require Import Prelude JsValue RgFingerprint TaskModel.
Close Scope Q_scope.

(** ** The contract *)
Class TaskStoreOps (S : Type) := {
  store_create : BackgroundTask -> S -> BackgroundTaskError + (BackgroundTask * S);
  store_get : jstr -> S -> option BackgroundTask;
  store_patch : Z -> jstr -> BackgroundTaskPatch -> S -> BackgroundTaskError + (BackgroundTask * S);
  store_appendEvent : TaskLifecycleEvent -> S -> S;
  store_events : S -> list TaskLifecycleEvent;
}.

(** What the clients of a store rely on. *)
Class TaskStoreLaws (S : Type) `{TaskStoreOps S} := {
  create_spec (t : BackgroundTask) (s : S) :
    match store_create t s with
    | inl e => e = TaskAlreadyExistsError (taskId t) /\ store_get (taskId t) s <> None
    | inr (t', s') =>
      t' = t /\ store_get (taskId t) s = None
      /\ (forall id, store_get id s' = if decide (id = taskId t) then Some t else store_get id s)
      /\ store_events s' = store_events s
    end;
  patch_spec (now : Z) (id : jstr) (p : BackgroundTaskPatch) (s : S) :
    match store_get id s with
    | None => store_patch now id p s = inl (TaskNotFoundError id)
    | Some t =>
      if patchAllowed p t then
        exists s', store_patch now id p s = inr (applyPatch now p t, s')
          /\ (forall id', store_get id' s' = if decide (id' = id) then Some (applyPatch now p t) else store_get id' s)
          /\ store_events s' = store_events s
      else exists to, p_status p = Some to
           /\ store_patch now id p s = inl (InvalidTaskStatusTransitionError id (status t) to)
    end;
  append_get (e : TaskLifecycleEvent) (id : jstr) (s : S) :
    store_get id (store_appendEvent e s) = store_get id s;
  append_events (e : TaskLifecycleEvent) (s : S) :
    store_events (store_appendEvent e s) = store_events s ++ [e];
}.

(** ** The in-memory store *)
Record InMemoryTaskStore := {
  tasks : jmap jstr BackgroundTask;
  events : list TaskLifecycleEvent;
}.

Definition newInMemoryTaskStore : InMemoryTaskStore := {| tasks := []; events := [] |}.

Definition create (t : BackgroundTask) (s : InMemoryTaskStore) :
    BackgroundTaskError + (BackgroundTask * InMemoryTaskStore) :=
  if jhas (taskId t) (tasks s) then inl (TaskAlreadyExistsError (taskId t))
  else inr (t, {| tasks := jset (taskId t) t (tasks s); events := events s |}).

Definition get (id : jstr) (s : InMemoryTaskStore) : option BackgroundTask := jget id (tasks s).

Definition patch (now : Z) (id : jstr) (p : BackgroundTaskPatch) (s : InMemoryTaskStore) :
    BackgroundTaskError + (BackgroundTask * InMemoryTaskStore) :=
  match jget id (tasks s) with
  | None => inl (TaskNotFoundError id)
  | Some current =>
    match p_status p with
    | Some to =>
      if negb (canTransitionTaskStatus (status current) to)
      then inl (InvalidTaskStatusTransitionError id (status current) to)
      else
        let updated := applyPatch now p current in
        inr (updated, {| tasks := jset id updated (tasks s); events := events s |})
    | None =>
      let updated := applyPatch now p current in
      inr (updated, {| tasks := jset id updated (tasks s); events := events s |})
    end
  end.

(** [status.toUpperCase()]. *)
Definition upperName (s : BackgroundTaskStatus) : jstr :=
  match s with
  | queued => js "QUEUED" | running => js "RUNNING" | stopping => js "STOPPING"
  | succeeded => js "SUCCEEDED" | failed => js "FAILED" | canceled => js "CANCELED" | lost => js "LOST"
  end.

Definition updateStatus (now : Z) (id : jstr) (to : BackgroundTaskStatus) (reason : option jstr)
    (s : InMemoryTaskStore) : BackgroundTaskError + (BackgroundTask * InMemoryTaskStore) :=
  let err :=
    match reason with
    | Some (c :: r) =>
      if bool_decide (to ∈ [failed; canceled; lost])
      then Some {| te_message := c :: r; te_code := Some (upperName to); te_details := None |} else None
    | _ => None
    end in
  patch now id
    {| p_status := Some to; p_description := None; p_toolCallId := None; p_parentMessageId := None;
       p_parentTaskId := None; p_updatedAt := None; p_startedAt := None; p_endedAt := None;
       p_deliveredAt := None; p_outputRef := None; p_lastError := err; p_usage := None;
       p_metadata := None |} s.

Definition appendEvent (e : TaskLifecycleEvent) (s : InMemoryTaskStore) : InMemoryTaskStore :=
  {| tasks := tasks s; events := events s ++ [e] |}.

Definition listEvents (id : option jstr) (s : InMemoryTaskStore) : list TaskLifecycleEvent :=
  List.filter (fun e => match id with
                        | Some (c :: r) => bool_decide (e_taskId e = c :: r)
                        | _ => true
                        end) (events s).

#[export] Instance in_memory_ops : TaskStoreOps InMemoryTaskStore := {
  store_create := create; store_get := get; store_patch := patch;
  store_appendEvent := appendEvent; store_events := events;
}.

#[export] Instance in_memory_laws : TaskStoreLaws InMemoryTaskStore.
Proof.
  split.
  - intros t s. unfold store_create, store_get; cbn. unfold create, get, jhas.
    destruct (jget (taskId t) (tasks s)) eqn:E; [done|]. split; [done|]. split; [done|].
    split; [|done]. intros id. apply jget_jset.
  - intros now id p s. unfold store_get, store_patch; cbn. unfold get, patch, patchAllowed.
    destruct (jget id (tasks s)) as [t|]; [|done].
    destruct (p_status p) as [to|]; [destruct (canTransitionTaskStatus (status t) to)|]; cbn [negb].
    + eexists; split; [done|]. split; [|done]. intros id'. apply jget_jset.
    + by exists to.
    + eexists; split; [done|]. split; [|done]. intros id'. apply jget_jset.
  - done.
  - done.
Qed.

(** ** Listing *)
Inductive OrderBy := by_created_at | by_updated_at | by_completed_at.
Inductive Order := asc | desc.

(** [TaskQuery]; [includeArchived] and [undeliveredOnly] are read by no
    in-memory code.  [limit] is any finite number. *)
Record TaskQuery := {
  q_taskIds : option (list jstr);
  q_ownerSessionId : option jstr;
  q_parentTaskId : option (option jstr);
  q_kinds : option (list BackgroundTaskKind);
  q_statuses : option (list BackgroundTaskStatus);
  q_createdAfter : option Z;
  q_createdBefore : option Z;
  q_updatedAfter : option Z;
  q_updatedBefore : option Z;
  q_limit : option Q;
  q_cursor : option jstr;
  q_orderBy : option OrderBy;
  q_order : option Order;
}.

Definition holds {A} (o : option A) (f : A -> bool) : bool :=
  match o with Some v => f v | None => true end.

Definition matchesQuery (t : BackgroundTask) (q : TaskQuery) : bool :=
  holds (q_taskIds q) (fun ids => bool_decide (taskId t ∈ ids))
  && holds (q_ownerSessionId q) (fun o => negb (truthy o) || bool_decide (ownerSessionId t = o))
  && holds (q_parentTaskId q) (fun p => bool_decide (default None (parentTaskId t) = p))
  && holds (q_kinds q) (fun ks => bool_decide (kind t ∈ ks))
  && holds (q_statuses q) (fun ss => bool_decide (status t ∈ ss))
  && holds (q_createdAfter q) (fun z => negb (createdAt t <? z)%Z)
  && holds (q_createdBefore q) (fun z => negb (z <? createdAt t)%Z)
  && holds (q_updatedAfter q) (fun z => negb (updatedAt t <? z)%Z)
  && holds (q_updatedBefore q) (fun z => negb (z <? updatedAt t)%Z).

Definition getOrderValue (t : BackgroundTask) (o : OrderBy) : Z :=
  match o with
  | by_updated_at => updatedAt t
  | by_completed_at => default 0%Z (endedAt t)
  | by_created_at => createdAt t
  end.

(** [Number.parseInt(s, 10)] on the digits at the head of [s]; [None] is NaN. *)
Fixpoint parseDigits (s : jstr) (acc : option N) : option N :=
  match s with
  | c :: s' =>
    if ((48 <=? c) && (c <=? 57))%N
    then parseDigits s' (Some (default 0 acc * 10 + (c - 48))%N)
    else acc
  | [] => acc
  end.

Definition parseInt10 (s : jstr) : option Z :=
  match dropWhile isWhite s with
  | c :: s' =>
    if (c =? ch "-")%N then (fun n => (- Z.of_N n)%Z) <$> parseDigits s' None
    else if (c =? ch "+")%N then Z.of_N <$> parseDigits s' None
    else Z.of_N <$> parseDigits (c :: s') None
  | [] => None
  end.

Definition parseCursor (cursor : option jstr) : nat :=
  match cursor with
  | None | Some [] => 0
  | Some s => match parseInt10 s with
              | Some value => if (0 <? value)%Z then Z.to_nat value else 0
              | None => 0
              end
  end.

Definition DEFAULT_TASK_LIST_LIMIT : nat := 100.
Definition MAX_TASK_LIST_LIMIT : nat := 500.

Definition clampLimit (limit : option Q) : nat :=
  match limit with
  | None => DEFAULT_TASK_LIST_LIMIT
  | Some l =>
    if Qle_bool l 0 then DEFAULT_TASK_LIST_LIMIT
    else Z.to_nat (Z.min (Qfloor l) (Z.of_nat MAX_TASK_LIST_LIMIT))
  end.

Record TaskListResult := { items : list BackgroundTask; nextCursor : option jstr }.

(** Every task the query selects, in its order. *)
Definition selected (q : TaskQuery) (s : InMemoryTaskStore) : list BackgroundTask :=
  let v t := getOrderValue t (default by_created_at (q_orderBy q)) in
  sort_by (fun l r => match default desc (q_order q) with
                      | asc => (v l <=? v r)%Z
                      | desc => (v r <=? v l)%Z
                      end)
    (List.filter (fun t => matchesQuery t q) (map snd (tasks s))).

Definition listTasks (q : TaskQuery) (s : InMemoryTaskStore) : TaskListResult :=
  let offset := parseCursor (q_cursor q) in
  let all := selected q s in
  let page := take (clampLimit (q_limit q)) (drop offset all) in
  let nextOffset := offset + length page in
  {| items := page;
     nextCursor := if (nextOffset <? length all)%nat then Some (dec_Z (Z.of_nat nextOffset)) else None |}.

(** ** Lemmas: cursors *)

Lemma parseDigits_acc d acc :
  parseDigits (js (NilEmpty.string_of_uint d)) (Some (N.pos acc)) = Some (N.pos (Pos.of_uint_acc d acc)).
Proof.
  revert acc; induction d as [|d IH|d IH|d IH|d IH|d IH|d IH|d IH|d IH|d IH|d IH]; intros acc; [done|..];
    cbn [NilEmpty.string_of_uint js parseDigits Pos.of_uint_acc]; cbn -[N.mul N.add Pos.mul Pos.add parseDigits js];
    rewrite <- IH; f_equal; f_equal; lia.
Qed.

Lemma parseDigits_uint d :
  parseDigits (js (NilEmpty.string_of_uint d)) (Some 0%N) = Some (Pos.of_uint d).
Proof.
  induction d as [|d IH|d IH|d IH|d IH|d IH|d IH|d IH|d IH|d IH|d IH]; [done|exact IH|..];
    cbn [Pos.of_uint]; rewrite <- parseDigits_acc; done.
Qed.

Lemma parseDigits_start d :
  d <> Decimal.Nil ->
  parseDigits (js (NilEmpty.string_of_uint d)) None = parseDigits (js (NilEmpty.string_of_uint d)) (Some 0%N).
Proof. by destruct d. Qed.

Lemma parseInt_uint d :
  d <> Decimal.Nil ->
  parseInt10 (js (NilEmpty.string_of_uint d)) = Z.of_N <$> parseDigits (js (NilEmpty.string_of_uint d)) None.
Proof. by destruct d. Qed.

(** A cursor the store prints reads back as its offset. *)
Lemma parseCursor_print n : 0 < n -> parseCursor (Some (dec_Z (Z.of_nat n))) = n.
Proof.
  intros Hn. destruct n as [|n]; [lia|]. unfold dec_Z.
  change (Z.of_nat (S n)) with (Z.pos (Pos.of_succ_nat n)). set (p := Pos.of_succ_nat n).
  change (Z.to_int (Z.pos p)) with (Decimal.Pos (Pos.to_uint p)).
  cbn [NilEmpty.string_of_int].
  assert (Hd : Pos.to_uint p <> Decimal.Nil) by (apply DecimalPos.Unsigned.to_uint_nonnil).
  assert (Hv : parseInt10 (js (NilEmpty.string_of_uint (Pos.to_uint p))) = Some (Z.pos p)).
  { rewrite parseInt_uint, parseDigits_start, parseDigits_uint by done.
    by rewrite DecimalPos.Unsigned.of_to. }
  unfold parseCursor. destruct (js _) as [|c rest] eqn:E; [by destruct (Pos.to_uint p)|].
  rewrite Hv. change (0 <? Z.pos p)%Z with true. cbn iota. unfold p. lia.
Qed.

(** ** Lemmas: pages *)
Definition with_cursor (c : option jstr) (q : TaskQuery) : TaskQuery :=
  {| q_taskIds := q_taskIds q; q_ownerSessionId := q_ownerSessionId q; q_parentTaskId := q_parentTaskId q;
     q_kinds := q_kinds q; q_statuses := q_statuses q; q_createdAfter := q_createdAfter q;
     q_createdBefore := q_createdBefore q; q_updatedAfter := q_updatedAfter q;
     q_updatedBefore := q_updatedBefore q; q_limit := q_limit q; q_cursor := c;
     q_orderBy := q_orderBy q; q_order := q_order q |}.

(** A client that follows [nextCursor]; [None] when the pages do not end within
    the fuel. *)
Fixpoint followCursors (fuel : nat) (q : TaskQuery) (s : InMemoryTaskStore) : option (list BackgroundTask) :=
  match fuel with
  | O => None
  | S fuel' =>
    let r := listTasks q s in
    match nextCursor r with
    | None => Some (items r)
    | Some c => rest ← followCursors fuel' (with_cursor (Some c) q) s; Some (items r ++ rest)
    end
  end.

Lemma followCursors_drop fuel : forall q s,
  0 < clampLimit (q_limit q) ->
  length (selected q s) - parseCursor (q_cursor q) < fuel ->
  followCursors fuel q s = Some (drop (parseCursor (q_cursor q)) (selected q s)).
Proof.
  induction fuel as [|fuel IH]; intros q s Hl Hf; [lia|]. cbn [followCursors]. unfold listTasks.
  cbn [nextCursor items]. set (all := selected q s) in *. set (off := parseCursor (q_cursor q)) in *.
  set (lim := clampLimit (q_limit q)) in *. rewrite length_take, length_drop.
  destruct (Nat.ltb_spec (off + lim `min` (length all - off)) (length all)) as [Hlt|Hge].
  - assert (Hmin : lim `min` (length all - off) = lim) by lia. rewrite Hmin in *.
    rewrite (IH (with_cursor _ q) s); cbn [with_cursor q_cursor q_limit].
    + rewrite parseCursor_print by lia. change (selected (with_cursor _ q) s) with all.
      cbn [mbind option_bind]. by rewrite <- drop_drop, take_drop.
    + done.
    + rewrite parseCursor_print by lia. change (selected (with_cursor _ q) s) with all. lia.
  - rewrite take_ge; [done|]. rewrite length_drop. lia.
Qed.

(** *** Order *)
Lemma insert_by_HdRel {A} (leb : A -> A -> bool) x y l :
  leb y x = true -> HdRel (fun a b => leb a b = true) y l -> HdRel (fun a b => leb a b = true) y (insert_by leb x l).
Proof. intros Hyx Hl. destruct l as [|z l]; simpl; [by constructor|]. destruct (leb x z); constructor; [done|by inversion Hl]. Qed.

Lemma sort_by_Sorted {A} (leb : A -> A -> bool) l :
  (forall x y, leb x y = false -> leb y x = true) -> Sorted (fun a b => leb a b = true) (sort_by leb l).
Proof.
  intros Htot. unfold sort_by. induction l as [|x l IH]; simpl; [constructor|].
  induction IH as [|y m Hm IHm Hd]; simpl; [by repeat constructor|].
  destruct (leb x y) eqn:E; [by repeat constructor|].
  constructor; [done|]. apply insert_by_HdRel; auto.
Qed.

Lemma Sorted_weaken {A} (R R' : A -> A -> Prop) l :
  (forall x y, R x y -> R' x y) -> Sorted R l -> Sorted R' l.
Proof.
  intros Hr. induction 1 as [|x l _ IH Hd]; constructor; [done|].
  destruct Hd; constructor; auto.
Qed.

(** ** Properties *)

(** The order the query asks for, as a relation. *)
Definition in_order (q : TaskQuery) (l r : BackgroundTask) : Prop :=
  let v t := getOrderValue t (default by_created_at (q_orderBy q)) in
  match default desc (q_order q) with asc => (v l <= v r)%Z | desc => (v r <= v l)%Z end.

(** following [nextCursor] from the first page ends, and the pages put end
    to end are every task the query matches, once each, in the query's order,
    when the limit admits at least one task per page. *)
Theorem pages_complete (q : TaskQuery) (s : InMemoryTaskStore)
    (Hfirst : q_cursor q = None) (Hlimit : 0 < clampLimit (q_limit q)) :
  exists l,
    followCursors (S (length (tasks s))) q s = Some l
    /\ l ≡ₚ List.filter (fun t => matchesQuery t q) (map snd (tasks s))
    /\ Sorted (in_order q) l.
Proof.
  exists (selected q s). split; [|split].
  - rewrite followCursors_drop; rewrite ?Hfirst; [done|done|].
    unfold selected. rewrite (Permutation_length (sort_by_Permutation _ _)).
    pose proof (List.filter_length_le (fun t => matchesQuery t q) (map snd (tasks s))) as Hle.
    rewrite length_map in Hle. simpl. lia.
  - apply sort_by_Permutation.
  - unfold selected, in_order. eapply Sorted_weaken; [|apply sort_by_Sorted].
    + intros x y. simpl. destruct (default desc (q_order q)); apply Z.leb_le.
    + intros x y. destruct (default desc (q_order q)); rewrite Z.leb_gt, Z.leb_le; lia.
Qed.

Definition sample_task (id : jstr) (created : Z) : BackgroundTask :=
  {| taskId := id; kind := kind_bash; status := queued; ownerSessionId := js "s"; description := None;
     toolCallId := None; parentMessageId := None; parentTaskId := None; createdAt := created;
     updatedAt := created; startedAt := None; endedAt := None; deliveredAt := None; outputRef := None;
     lastError := None; usage := None; metadata := None |}.

Definition sample_store : InMemoryTaskStore :=
  {| tasks := map (fun i => ([i], sample_task [i] (Z.of_N (i mod 3)))) [1; 2; 3; 4; 5]%N; events := [] |}.

Definition sample_query (limit : Q) : TaskQuery :=
  {| q_taskIds := None; q_ownerSessionId := None; q_parentTaskId := None; q_kinds := None;
     q_statuses := Some [queued]; q_createdAfter := None; q_createdBefore := None; q_updatedAfter := None;
     q_updatedBefore := None; q_limit := Some limit; q_cursor := None; q_orderBy := None; q_order := None |}.

Lemma pages_complete_witness :
  exists l, followCursors 6 (sample_query (2 # 1)) sample_store = Some l /\ length l = 5.
Proof.
  destruct (pages_complete (sample_query (2 # 1)) sample_store eq_refl
    ltac:(vm_compute; lia)) as (l & Hl & Hp & _).
  exists l. split; [exact Hl|]. rewrite (Permutation_length Hp). reflexivity.
Defined.

(** A limit between 0 and 1 gives empty pages whose cursor never advances. *)
Example fractional_limit_stalls :
  let q := with_cursor (Some (js "2")) (sample_query (1 # 2)) in
  items (listTasks q sample_store) = [] /\ nextCursor (listTasks q sample_store) = Some (js "2").
Proof. by vm_compute. Qed.
