(* ===== verification/TaskOutput.v ===== *)
(** * Task output

    [packages/agent-modules/background-task/src/in-memory-output-store.ts].
    Offsets and limits are integers; a clock reading is an argument. *)
From S2P Require Import Prelude JsValue RgFingerprint Utf8 TaskModel.

Inductive TaskOutputStream := stdout | stderr | transcript | final_result.
#[export] Instance stream_eq_dec : EqDecision TaskOutputStream.
Proof. solve_decision. Defined.

Record TaskOutputChunk := {
  k_taskId : jstr;
  k_stream : option TaskOutputStream;
  k_content : jstr;
  k_offset : option nat;
  k_timestamp : option Z;
  k_metadata : option record;
}.

Record TaskOutputReadOptions := {
  o_offset : option Z;
  o_limitBytes : option Z;
  o_stream : option TaskOutputStream;
}.

Record TaskOutputReadResult := {
  content : jstr;
  nextOffset : Z;
  truncated : option bool;
  summary : option jstr;
  resultRef : option TaskOutputRef;
}.

Record OutputRecord := {
  chunks : list TaskOutputChunk;
  recordSummary : option jstr;
  recordRef : option TaskOutputRef;
}.

(** The instance's fields. *)
Record InMemoryTaskOutputStore := {
  outputs : jmap jstr OutputRecord;
  storeKind : TaskOutputKind;
  uriPrefix : jstr;
}.

Definition with_outputs (m : jmap jstr OutputRecord) (s : InMemoryTaskOutputStore) : InMemoryTaskOutputStore :=
  {| outputs := m; storeKind := storeKind s; uriPrefix := uriPrefix s |}.

(** [encodeURIComponent]; [None] is the [URIError] of a lone surrogate. *)
Definition isUriUnreserved (c : N) : bool :=
  (((48 <=? c) && (c <=? 57)) || ((65 <=? c) && (c <=? 90)) || ((97 <=? c) && (c <=? 122)))%N
  || existsb (fun d => (c =? d)%N) (js "-_.!~*'()").

Definition hexUpper (n : N) : jchar := if (n <? 10)%N then (48 + n)%N else (55 + n)%N.

Definition encodeURIComponent (s : jstr) : option jstr :=
  if wellFormed s
  then Some (flat_map (fun b => if isUriUnreserved b then [b] else [ch "%"; hexUpper (b / 16); hexUpper (b mod 16)])
               (encode s))
  else None.

(** [getContent]. *)
Definition chunkContent (stream : option TaskOutputStream) (cs : list TaskOutputChunk) : jstr :=
  concat (map k_content
    (List.filter (fun c => match stream with
                           | None => true
                           | Some st => bool_decide (default stdout (k_stream c) = st)
                           end) cs)).

Definition getContent (id : jstr) (stream : option TaskOutputStream) (s : InMemoryTaskOutputStore) : jstr :=
  match jget id (outputs s) with
  | None => []
  | Some r => chunkContent stream (chunks r)
  end.

Definition getOrCreate (id : jstr) (s : InMemoryTaskOutputStore) : OutputRecord :=
  match jget id (outputs s) with
  | Some r => r
  | None => {| chunks := []; recordSummary := None; recordRef := None |}
  end.

(** The chunk is stored before the reference is built; [None] is the exception
    of [encodeURIComponent]. *)
Definition append (now : Z) (chunk : TaskOutputChunk) (s : InMemoryTaskOutputStore) :
    option TaskOutputRef * InMemoryTaskOutputStore :=
  let r := getOrCreate (k_taskId chunk) s in
  let stream := default stdout (k_stream chunk) in
  let offset := match k_offset chunk with
                | Some o => o
                | None => byteLength (chunkContent (Some stream) (chunks r))
                end in
  let time := default now (k_timestamp chunk) in
  let stored := {| k_taskId := k_taskId chunk; k_stream := Some stream; k_content := k_content chunk;
                   k_offset := Some offset; k_timestamp := Some time; k_metadata := k_metadata chunk |} in
  let pushed := {| chunks := chunks r ++ [stored]; recordSummary := recordSummary r;
                   recordRef := recordRef r |} in
  match encodeURIComponent (k_taskId chunk) with
  | None => (None, with_outputs (jset (k_taskId chunk) pushed (outputs s)) s)
  | Some name =>
    let ref := {| ref_taskId := k_taskId chunk; ref_kind := storeKind s; uri := uriPrefix s ++ name;
                  ref_offset := Some (offset + byteLength (k_content chunk)); ref_updatedAt := Some time;
                  ref_metadata := None |} in
    (Some ref,
     with_outputs (jset (k_taskId chunk)
       {| chunks := chunks pushed; recordSummary := recordSummary r; recordRef := Some ref |} (outputs s)) s)
  end.

(** [buffer.subarray(start, end)] for [0 <= start <= length]; a negative [end]
    counts from the end of the buffer. *)
Definition subarray (bs : list N) (start : nat) (end_ : Z) : list N :=
  let e := if (end_ <? 0)%Z then Z.to_nat (Z.of_nat (length bs) + end_) else Z.to_nat end_ in
  take (e - start) (drop start bs).

(** [sliceUtf8]: content, next offset, truncated. *)
Definition sliceUtf8 (s : jstr) (offset : nat) (limitBytes : option Z) : jstr * Z * bool :=
  let buffer := encode s in
  let len := length buffer in
  let start := Nat.min offset len in
  let end_ := match limitBytes with
              | None => Z.of_nat len
              | Some l => Z.min (Z.of_nat len) (Z.of_nat start + l)
              end in
  (decode (subarray buffer start end_), end_, (end_ <? Z.of_nat len)%Z).

Definition read (id : jstr) (o : TaskOutputReadOptions) (s : InMemoryTaskOutputStore) : TaskOutputReadResult :=
  match jget id (outputs s) with
  | None => {| content := []; nextOffset := default 0%Z (o_offset o); truncated := None; summary := None;
               resultRef := None |}
  | Some r =>
    let offset := Z.to_nat (Z.max 0 (default 0%Z (o_offset o))) in
    let '(c, e, t) := sliceUtf8 (getContent id (o_stream o) s) offset (o_limitBytes o) in
    {| content := c; nextOffset := e; truncated := Some t; summary := recordSummary r;
       resultRef := recordRef r |}
  end.

(** [limitBytes] defaults to 8192. *)
Definition tail (id : jstr) (limitBytes : option Z) (s : InMemoryTaskOutputStore) : TaskOutputReadResult :=
  let limit := default 8192%Z limitBytes in
  let offset := Z.max 0 (Z.of_nat (byteLength (getContent id None s)) - limit) in
  read id {| o_offset := Some offset; o_limitBytes := Some limit; o_stream := None |} s.

Definition finalize (id : jstr) (sum : option jstr) (s : InMemoryTaskOutputStore) : InMemoryTaskOutputStore :=
  let r := getOrCreate id s in
  with_outputs (jset id {| chunks := chunks r; recordSummary := sum; recordRef := recordRef r |} (outputs s)) s.

Definition newInMemoryTaskOutputStore : InMemoryTaskOutputStore :=
  {| outputs := []; storeKind := out_memory; uriPrefix := js "memory://background-task/" |}.

(** ** Lemmas *)

(** Appending without an explicit offset, chunk after chunk. *)
Definition plainChunk (id : jstr) (x : TaskOutputStream * jstr) : TaskOutputChunk :=
  {| k_taskId := id; k_stream := Some (fst x); k_content := snd x; k_offset := None;
     k_timestamp := None; k_metadata := None |}.

Definition appendAll (now : Z) (id : jstr) (l : list (TaskOutputStream * jstr)) (s : InMemoryTaskOutputStore) :
    InMemoryTaskOutputStore :=
  fold_left (fun s x => snd (append now (plainChunk id x) s)) l s.

Definition ofStream (stream : option TaskOutputStream) (x : TaskOutputStream * jstr) : bool :=
  match stream with None => true | Some st => bool_decide (fst x = st) end.

Lemma chunkContent_snoc stream cs c :
  chunkContent stream (cs ++ [c])
  = chunkContent stream cs
    ++ (if match stream with None => true | Some st => bool_decide (default stdout (k_stream c) = st) end
        then k_content c else []).
Proof.
  unfold chunkContent. rewrite List.filter_app, map_app, concat_app. f_equal. simpl.
  destruct (match stream with None => true | Some st => _ end); simpl; by rewrite ?app_nil_r.
Qed.

Lemma append_content now id x s stream :
  getContent id stream (snd (append now (plainChunk id x) s))
  = getContent id stream s ++ (if ofStream stream x then snd x else []).
Proof.
  unfold append, plainChunk, getContent at 1; cbn [k_taskId k_stream k_content k_offset k_timestamp k_metadata].
  assert (Hold : getContent id stream s = chunkContent stream (chunks (getOrCreate id s))).
  { unfold getContent, getOrCreate. destruct (jget id (outputs s)); [done|]. unfold chunkContent. simpl.
    by destruct stream. }
  rewrite Hold.
  destruct (encodeURIComponent id); cbn [snd with_outputs outputs]; rewrite jget_jset_eq; cbn [chunks];
    rewrite chunkContent_snoc; done.
Qed.

Lemma appendAll_content now id l : forall s stream,
  getContent id stream (appendAll now id l s)
  = getContent id stream s ++ concat (map snd (List.filter (ofStream stream) l)).
Proof.
  unfold appendAll. induction l as [|x l IH]; intros s stream; cbn [fold_left List.filter].
  - by rewrite app_nil_r.
  - rewrite IH, append_content, <- app_assoc. f_equal. by destruct (ofStream stream x).
Qed.

Lemma appendAll_known now id l s :
  l <> [] \/ jget id (outputs s) <> None -> jget id (outputs (appendAll now id l s)) <> None.
Proof.
  revert s; induction l as [|x l IH]; intros s; cbn; [by intros [?|?]|]. intros _. apply IH. right.
  unfold append, plainChunk; cbn [k_taskId].
  destruct (encodeURIComponent id); cbn [snd with_outputs outputs]; by rewrite jget_jset_eq.
Qed.

Lemma subarray_all bs : subarray bs 0 (Z.of_nat (length bs)) = bs.
Proof.
  unfold subarray. rewrite (proj2 (Z.ltb_ge _ _)) by lia. rewrite drop_0. apply take_ge. lia.
Qed.

Lemma decode_all s : wellFormed s = true -> decode (encode s) = s.
Proof.
  intros Hw. unfold decode. rewrite <- (app_nil_r (encode s)), decode_encode by done.
  cbn. by rewrite app_nil_r.
Qed.

Lemma wellFormed_units s : wellFormed s = true -> forallb (fun c => (c <? 65536)%N) s = true.
Proof.
  induction s as [s IH] using (induction_ltof1 _ (@length jchar)); unfold ltof in IH.
  destruct s as [|c [|d s]]; [done| |].
  - cbn. rewrite !andb_true_iff. tauto.
  - change (wellFormed (c :: d :: s)) with
      (if isHigh c then isLow d && wellFormed s
       else negb (isLow c) && (c <? 65536)%N && wellFormed (d :: s)).
    destruct (isHigh c) eqn:Eh.
    + intros [Hl Hw]%andb_true_iff. unfold isHigh, isLow in *.
      rewrite !andb_true_iff, !N.leb_le in *. cbn [forallb]. rewrite !andb_true_iff, !N.ltb_lt.
      split; [lia|]. split; [lia|]. apply IH; [simpl; lia|done].
    + rewrite !andb_true_iff. intros [[_ Hc] Hw]. cbn [forallb]. rewrite Hc. cbn [andb].
      apply (IH (d :: s)); [simpl; lia|done].
Qed.

Lemma encode_ascii s : forallb (fun c => (c <? 128)%N) s = true -> encode s = s.
Proof.
  induction s as [|c s IH]; [done|]. cbn [forallb]. intros [Hc Hs]%andb_true_iff.
  assert (Hn : isHigh c = false /\ isLow c = false).
  { apply N.ltb_lt in Hc. unfold isHigh, isLow.
    by rewrite (proj2 (N.leb_gt 55296 c)), (proj2 (N.leb_gt 56320 c)) by lia. }
  assert (He : encode_code c = [c]) by (unfold encode_code; by rewrite Hc).
  destruct Hn as [Hh Hl]. destruct s as [|d s].
  - cbn [encode]. by rewrite Hh, Hl.
  - rewrite encode_cons, Hh, Hl. cbn [andb orb]. by rewrite He, (IH Hs).
Qed.

Lemma decode_ascii s : forallb (fun c => (c <? 128)%N) s = true -> decode s = s.
Proof.
  unfold decode. induction s as [|c s IH]; [done|]. cbn [forallb]. intros [Hc Hs]%andb_true_iff.
  cbn [decode_go needed idle]. unfold lead. rewrite Hc. cbn [app]. by rewrite (IH Hs).
Qed.

Lemma forallb_take_drop {A} (f : A -> bool) n m l :
  forallb f l = true -> forallb f (take n (drop m l)) = true.
Proof.
  intros H. rewrite <- (take_drop m l), forallb_app in H. apply andb_true_iff in H as [_ H].
  rewrite <- (take_drop n (drop m l)), forallb_app in H. by apply andb_true_iff in H as [H _].
Qed.

(** *** Following [nextOffset] *)
Definition page (offset limit : Z) : TaskOutputReadOptions :=
  {| o_offset := Some offset; o_limitBytes := Some limit; o_stream := None |}.

(** A reader that asks for [limit] bytes at a time until nothing is cut off;
    [None] when it does not end within the fuel. *)
Fixpoint followOffsets (fuel : nat) (id : jstr) (offset limit : Z) (s : InMemoryTaskOutputStore) : option jstr :=
  match fuel with
  | O => None
  | S fuel' =>
    let r := read id (page offset limit) s in
    match truncated r with
    | Some true => rest ← followOffsets fuel' id (nextOffset r) limit s; Some (content r ++ rest)
    | _ => Some (content r)
    end
  end.

Lemma read_page_ascii id off limit s :
  jget id (outputs s) <> None ->
  let c := getContent id None s in
  forallb (fun c => (c <? 128)%N) c = true -> off <= length c ->
  let r := read id (page (Z.of_nat off) (Z.of_nat limit)) s in
  content r = take limit (drop off c)
  /\ nextOffset r = Z.of_nat (Nat.min (length c) (off + limit))
  /\ truncated r = Some (off + limit <? length c)%nat.
Proof.
  intros Hk. cbn zeta. set (c := getContent id None s). intros Ha Ho. unfold read.
  destruct (jget id (outputs s)) as [rec|] eqn:E; [|done]. cbn [page o_offset o_limitBytes o_stream from_option Datatypes.id].
  fold c. unfold sliceUtf8. rewrite (encode_ascii c Ha).
  replace (Z.to_nat (Z.max 0 (Z.of_nat off)) `min` length c) with off by lia.
  cbn [content nextOffset truncated]. split; [|split].
  - rewrite <- (decode_ascii (take limit (drop off c))) by (by apply forallb_take_drop). f_equal.
    unfold subarray. rewrite (proj2 (Z.ltb_ge _ _)) by lia.
    destruct (Nat.le_gt_cases (length c) (off + limit)).
    + rewrite (take_ge _ limit), take_ge; [done|rewrite length_drop; lia..].
    + f_equal. lia.
  - lia.
  - f_equal. destruct (Nat.ltb_spec (off + limit) (length c)); [apply Z.ltb_lt|apply Z.ltb_ge]; lia.
Qed.

Lemma followOffsets_ascii id limit s fuel : forall off,
  jget id (outputs s) <> None ->
  let c := getContent id None s in
  forallb (fun c => (c <? 128)%N) c = true -> 0 < limit -> off <= length c -> length c - off < fuel ->
  followOffsets fuel id (Z.of_nat off) (Z.of_nat limit) s = Some (drop off c).
Proof.
  cbn zeta. set (c := getContent id None s).
  induction fuel as [|fuel IH]; intros off Hk Ha Hl Ho Hf; [lia|]. cbn [followOffsets].
  destruct (read_page_ascii id off limit s Hk Ha Ho) as (Hc & Hn & Ht). fold c in Hc, Hn, Ht.
  rewrite Hc, Hn, Ht. destruct (Nat.ltb_spec (off + limit) (length c)).
  - replace (length c `min` (off + limit)) with (off + limit) by lia.
    rewrite IH by (done || lia). cbn [mbind option_bind]. by rewrite <- drop_drop, take_drop.
  - rewrite take_ge; [done|]. rewrite length_drop. lia.
Qed.

(** ** Properties *)

(** What is appended is what is read: after any chunks on any streams, a
    read of one stream, or of all, returns exactly its contents in order, whole,
    with the next offset at its UTF-8 length. *)
Theorem append_then_read (now : Z) (id : jstr) (l : list (TaskOutputStream * jstr))
    (stream : option TaskOutputStream) (Hne : l <> [])
    (Hwf : wellFormed (concat (map snd (List.filter (ofStream stream) l))) = true) :
  let all := concat (map snd (List.filter (ofStream stream) l)) in
  let r := read id {| o_offset := None; o_limitBytes := None; o_stream := stream |}
             (appendAll now id l newInMemoryTaskOutputStore) in
  content r = all /\ nextOffset r = Z.of_nat (byteLength all) /\ truncated r = Some false.
Proof.
  cbn zeta. set (all := concat _) in *.
  assert (Hc : getContent id stream (appendAll now id l newInMemoryTaskOutputStore) = all)
    by (by rewrite appendAll_content).
  pose proof (appendAll_known now id l newInMemoryTaskOutputStore (or_introl Hne)) as Hk.
  unfold read. destruct (jget id _) as [rec|]; [|done]. cbn [o_offset o_limitBytes o_stream default].
  rewrite Hc. unfold sliceUtf8. cbn [content nextOffset truncated].
  replace (Z.to_nat (Z.max 0 0) `min` length (encode all)) with 0 by lia.
  rewrite subarray_all, decode_all by done. rewrite length_encode by (by apply wellFormed_units).
  by rewrite Z.ltb_irrefl.
Qed.

Lemma append_then_read_witness :
  content (read (js "t") {| o_offset := None; o_limitBytes := None; o_stream := Some stdout |}
    (appendAll 0 (js "t") [(stdout, js "a"); (stderr, js "x"); (stdout, [233; 55357; 56832]%N)]
       newInMemoryTaskOutputStore))
  = js "a" ++ [233; 55357; 56832]%N.
Proof.
  apply (append_then_read 0 (js "t") [(stdout, js "a"); (stderr, js "x"); (stdout, [233; 55357; 56832]%N)]
    (Some stdout) ltac:(done) eq_refl).
Defined.

(** For ASCII output a reader that follows [nextOffset] with any positive
    limit ends and sees the whole output, nothing twice and nothing missing. *)
Theorem paged_read_complete (s : InMemoryTaskOutputStore) (id : jstr) (limit : nat)
    (Hknown : jget id (outputs s) <> None)
    (Hascii : forallb (fun c => (c <? 128)%N) (getContent id None s) = true) (Hlimit : 0 < limit) :
  followOffsets (S (length (getContent id None s))) id 0 (Z.of_nat limit) s = Some (getContent id None s).
Proof.
  rewrite (followOffsets_ascii id limit s _ 0 Hknown Hascii Hlimit) by lia. by rewrite drop_0.
Qed.

Definition sample_output (text : jstr) : InMemoryTaskOutputStore :=
  appendAll 0 (js "t") [(stdout, text)] newInMemoryTaskOutputStore.

Lemma paged_read_complete_witness :
  followOffsets 12 (js "t") 0 4 (sample_output (js "hello world")) = Some (js "hello world").
Proof.
  apply (paged_read_complete (sample_output (js "hello world")) (js "t") 4); [discriminate|reflexivity|lia].
Defined.

(** Beyond ASCII a page boundary inside a character loses it. *)
Example page_boundary_corrupts :
  followOffsets 9 (js "t") 0 1 (sample_output [233%N]) = Some [replacement; replacement].
Proof. by vm_compute. Qed.
