(* ===== verification/TaskManager.v ===== *)
(** * The background task manager

    [packages/agent-modules/background-task/src/manager.ts].  A call is a
    process cut at its [await]s: each [Step] is the code between two of them,
    run without interruption; [AwaitRunner] waits for host code (a runner's
    [start] or [stop]) that settles at its own time and may throw.  The system
    interleaves any number of calls, runner outcomes and clock readings in any
    order, which includes every order the JavaScript scheduler can produce.  The
    manager is written against the store interface of [TaskStore]. *)
From S2P Require Import Prelude JsValue TaskModel TaskOutput TaskStore.

(** What the manager asks of an output store. *)
Class TaskOutputStoreOps (O : Type) := { output_finalize : jstr -> option jstr -> O -> O }.
#[export] Instance in_memory_output_ops : TaskOutputStoreOps InMemoryTaskOutputStore :=
  { output_finalize := finalize }.

Record StartTaskRequest := {
  r_kind : BackgroundTaskKind;
  r_ownerSessionId : jstr;
  r_description : option jstr;
  r_toolCallId : option jstr;
  r_parentMessageId : option jstr;
  r_parentTaskId : option (option jstr);
  r_metadata : option record;
}.

Record CompleteTaskOptions := {
  c_canceled : bool;  (** [options.status === 'canceled']; absent means ['succeeded'] *)
  c_outputRef : option TaskOutputRef;
  c_summary : option jstr;
  c_usage : option TaskUsage;
  c_metadata : option record;
}.

(** How a runner's promise settles. *)
Inductive RunnerOutcome := RunnerOk (outputRef : option TaskOutputRef) | RunnerThrew (e : Thrown).

(** [registerRunner]: the runners are known by their kinds. *)
Definition registerRunner (k : BackgroundTaskKind) (runners : list BackgroundTaskKind) :
    BackgroundTaskError + list BackgroundTaskKind :=
  if bool_decide (k ∈ runners) then inl (TaskRunnerAlreadyRegisteredError k) else inr (runners ++ [k]).

Section Manager.
Context {S O : Type} `{TaskStoreOps S} `{TaskOutputStoreOps O}.
(** [taskIdGenerator] and [eventIdGenerator]: what their n-th call returns. *)
Variables (taskIdGenerator eventIdGenerator : nat -> jstr).
Variable runners : list BackgroundTaskKind.

Record World := {
  store : S;
  outputStore : O;
  clock : Z;
  lastSequence : nat;  (** [this.sequence] *)
  taskIds : nat;       (** calls made to [taskIdGenerator] *)
  eventIds : nat;
}.

Definition set_store (s : S) (w : World) : World :=
  {| store := s; outputStore := outputStore w; clock := clock w; lastSequence := lastSequence w;
     taskIds := taskIds w; eventIds := eventIds w |}.

Inductive Proc :=
  | Done (result : BackgroundTaskError + BackgroundTask)
  | Step (f : World -> World * Proc)
  | AwaitRunner (k : RunnerOutcome -> Proc).

(** [emit]: the event is built and appended without interruption. *)
Definition emit (t : BackgroundTask) (type : TaskLifecycleEventType) (p : record) (k : Proc) : Proc :=
  Step (fun w =>
    let e := {| eventId := eventIdGenerator (eventIds w); e_taskId := taskId t;
                e_ownerSessionId := ownerSessionId t; e_type := type; timestamp := clock w;
                sequence := lastSequence w + 1; payload := p |} in
    ({| store := store_appendEvent e (store w); outputStore := outputStore w; clock := clock w;
        lastSequence := lastSequence w + 1; taskIds := taskIds w; eventIds := eventIds w + 1 |}, k)).

(** [await this.store.patch(id, patch)], the patch built from [this.now()]. *)
Definition patchThen (id : jstr) (patch : Z -> BackgroundTaskPatch)
    (ok : BackgroundTask -> Proc) (err : BackgroundTaskError -> Proc) : Proc :=
  Step (fun w =>
    match store_patch (clock w) id (patch (clock w)) (store w) with
    | inl e => (w, err e)
    | inr (t, s') => (set_store s' w, ok t)
    end).

Definition requireTask (id : jstr) (k : BackgroundTask -> Proc) : Proc :=
  Step (fun w => (w, match store_get id (store w) with
                     | None => Done (inl (TaskNotFoundError id))
                     | Some t => k t
                     end)).

Definition reject (e : BackgroundTaskError) : Proc := Done (inl e).
Definition resolve (t : BackgroundTask) : Proc := Done (inr t).

(** The patches of the manager. *)
Definition settlePatch (s : BackgroundTaskStatus) (err : option TaskError) (now : Z) : BackgroundTaskPatch :=
  {| p_status := Some s; p_description := None; p_toolCallId := None; p_parentMessageId := None;
     p_parentTaskId := None; p_updatedAt := None; p_startedAt := None; p_endedAt := Some now;
     p_deliveredAt := None; p_outputRef := None; p_lastError := err; p_usage := None; p_metadata := None |}.

Definition startedPatch (ref : option TaskOutputRef) (now : Z) : BackgroundTaskPatch :=
  {| p_status := Some running; p_description := None; p_toolCallId := None; p_parentMessageId := None;
     p_parentTaskId := None; p_updatedAt := None; p_startedAt := Some now; p_endedAt := None;
     p_deliveredAt := None; p_outputRef := ref; p_lastError := None; p_usage := None; p_metadata := None |}.

Definition stoppingPatch (now : Z) : BackgroundTaskPatch :=
  {| p_status := Some stopping; p_description := None; p_toolCallId := None; p_parentMessageId := None;
     p_parentTaskId := None; p_updatedAt := None; p_startedAt := None; p_endedAt := None;
     p_deliveredAt := None; p_outputRef := None; p_lastError := None; p_usage := None; p_metadata := None |}.

Definition completedStatus (o : CompleteTaskOptions) : BackgroundTaskStatus :=
  if c_canceled o then canceled else succeeded.

Definition completedPatch (o : CompleteTaskOptions) (now : Z) : BackgroundTaskPatch :=
  {| p_status := Some (completedStatus o); p_description := None; p_toolCallId := None;
     p_parentMessageId := None; p_parentTaskId := None; p_updatedAt := None; p_startedAt := None;
     p_endedAt := Some now; p_deliveredAt := None; p_outputRef := c_outputRef o; p_lastError := None;
     p_usage := c_usage o; p_metadata := c_metadata o |}.

Definition statusPayload (s : BackgroundTaskStatus) : record := [(js "status", JStr (status_name s))].

(** ** [start] *)
Definition startFailed (id : jstr) (error : Thrown) : Proc :=
  patchThen id (settlePatch failed (Some (normalizeTaskError error (js "TASK_START_FAILED"))))
    (fun t => emit t ev_completed (statusPayload failed) (resolve t)) reject.

Definition startSettled (id : jstr) (o : RunnerOutcome) : Proc :=
  match o with
  | RunnerThrew error => startFailed id error
  | RunnerOk ref =>
    patchThen id (startedPatch ref)
      (fun t => emit t ev_started
                  [(js "hasOutputRef", JBool (match ref with Some _ => true | None => false end))] (resolve t))
      (fun e => startFailed id (ThrownTaskError e))
  end.

Definition newTask (r : StartTaskRequest) (id : jstr) (now : Z) : BackgroundTask :=
  {| taskId := id; kind := r_kind r; status := queued; ownerSessionId := r_ownerSessionId r;
     description := r_description r; toolCallId := r_toolCallId r; parentMessageId := r_parentMessageId r;
     parentTaskId := r_parentTaskId r; createdAt := now; updatedAt := now; startedAt := None;
     endedAt := None; deliveredAt := None; outputRef := None; lastError := None; usage := None;
     metadata := r_metadata r |}.

Definition start (r : StartTaskRequest) : Proc :=
  Step (fun w =>
    if negb (bool_decide (r_kind r ∈ runners)) then (w, reject (TaskRunnerNotFoundError (r_kind r)))
    else
      let t := newTask r (taskIdGenerator (taskIds w)) (clock w) in
      let w1 := {| store := store w; outputStore := outputStore w; clock := clock w;
                   lastSequence := lastSequence w; taskIds := taskIds w + 1; eventIds := eventIds w |} in
      match store_create t (store w) with
      | inl e => (w1, reject e)
      | inr (created, s') =>
        (set_store s' w1,
         emit created ev_created [(js "inputKind", JStr (kind_name (r_kind r)))]
           (AwaitRunner (startSettled (taskId created))))
      end).

(** ** [stop] *)
Definition stopFailed (id : jstr) (error : Thrown) : Proc :=
  patchThen id (settlePatch canceled (Some (normalizeTaskError error (js "TASK_STOP_FAILED"))))
    (fun t => emit t ev_completed (statusPayload canceled ++ [(js "stopFailed", JBool true)]) (resolve t)) reject.

Definition stopSettled (id : jstr) (reason : option jstr) (o : RunnerOutcome) : Proc :=
  match o with
  | RunnerThrew error => stopFailed id error
  | RunnerOk _ =>
    let err := if otruthy reason
               then Some {| te_message := default [] reason; te_code := Some (js "TASK_CANCELED"); te_details := None |}
               else None in
    patchThen id (settlePatch canceled err)
      (fun t => emit t ev_completed (statusPayload canceled) (resolve t))
      (fun e => stopFailed id (ThrownTaskError e))
  end.

Definition stop (id : jstr) (reason : option jstr) : Proc :=
  requireTask id (fun task =>
    if isTerminalTaskStatus (status task) || bool_decide (status task = stopping) then resolve task
    else
      patchThen id stoppingPatch
        (fun t => emit t ev_stop_requested
                    [(js "reason", match reason with Some r => JStr r | None => JUndefined end)]
                    (if bool_decide (kind task ∈ runners) then AwaitRunner (stopSettled id reason)
                     else stopFailed id (ThrownTaskError (TaskRunnerNotFoundError (kind task)))))
        reject).

(** ** [complete] and [fail] *)
Definition complete (id : jstr) (o : CompleteTaskOptions) : Proc :=
  requireTask id (fun task =>
    if isTerminalTaskStatus (status task) then resolve task
    else
      let finish := patchThen id (completedPatch o)
        (fun t => emit t ev_completed (statusPayload (status t)) (resolve t)) reject in
      match c_summary o with
      | None => finish
      | Some summary =>
        Step (fun w => ({| store := store w; outputStore := output_finalize id (Some summary) (outputStore w);
                           clock := clock w; lastSequence := lastSequence w; taskIds := taskIds w;
                           eventIds := eventIds w |}, finish))
      end).

Definition fail (id : jstr) (error : Thrown) : Proc :=
  requireTask id (fun task =>
    if isTerminalTaskStatus (status task) then resolve task
    else
      patchThen id (settlePatch failed (Some (normalizeTaskError error (js "TASK_ERROR"))))
        (fun t => emit t ev_completed (statusPayload failed) (resolve t)) reject).

(** ** The system *)
Inductive Call :=
  | CallStart (r : StartTaskRequest)
  | CallStop (id : jstr) (reason : option jstr)
  | CallComplete (id : jstr) (o : CompleteTaskOptions)
  | CallFail (id : jstr) (error : Thrown).

Definition call_proc (c : Call) : Proc :=
  match c with
  | CallStart r => start r
  | CallStop id reason => stop id reason
  | CallComplete id o => complete id o
  | CallFail id error => fail id error
  end.

(** What can happen next: a call is made; the code of call [i] runs to its next
    await; the runner call [i] waits for settles; time passes.  An action that
    does not apply changes nothing. *)
Inductive Action :=
  | Invoke (c : Call)
  | Run (i : nat)
  | Settle (i : nat) (o : RunnerOutcome)
  | Tick (z : nat).

Record System := { world : World; calls : list (Call * Proc) }.

Definition act (a : Action) (s : System) : System :=
  match a with
  | Invoke c => {| world := world s; calls := calls s ++ [(c, call_proc c)] |}
  | Run i =>
    match calls s !! i with
    | Some (c, Step f) =>
      let '(w, p) := f (world s) in {| world := w; calls := <[i := (c, p)]> (calls s) |}
    | _ => s
    end
  | Settle i o =>
    match calls s !! i with
    | Some (c, AwaitRunner k) => {| world := world s; calls := <[i := (c, k o)]> (calls s) |}
    | _ => s
    end
  | Tick z =>
    {| world := {| store := store (world s); outputStore := outputStore (world s);
                   clock := clock (world s) + Z.of_nat z; lastSequence := lastSequence (world s);
                   taskIds := taskIds (world s); eventIds := eventIds (world s) |};
       calls := calls s |}
  end.

Definition acts (l : list Action) (s : System) : System := fold_left (fun s a => act a s) l s.
End Manager.

Arguments World : clear implicits.
Arguments Proc : clear implicits.
Arguments System : clear implicits.

(** ** Rely and guarantee *)
Section Facts.
Context {S O : Type} `{TaskStoreOps S} `{!TaskStoreLaws S} `{TaskOutputStoreOps O}.
Variables (taskIdGenerator eventIdGenerator : nat -> jstr).
Variable runners : list BackgroundTaskKind.
Implicit Types (w : World S O).

Definition stored w (id : jstr) : option BackgroundTask := store_get id (store w).
Definition log w : list TaskLifecycleEvent := store_events (store w).

(** A later version of a task: its status only moved forward, its identity and
    creation never changed. *)
Definition advanced (t t' : BackgroundTask) : Prop :=
  canTransitionTaskStatus (status t) (status t') = true /\ taskId t' = taskId t
  /\ kind t' = kind t /\ ownerSessionId t' = ownerSessionId t /\ createdAt t' = createdAt t.

(** What any call may do to the world while others wait. *)
Definition later w w' : Prop :=
  (forall id t, stored w id = Some t -> exists t', stored w' id = Some t' /\ advanced t t')
  /\ (exists l, log w' = log w ++ l).

(** What holds of the world between any two steps. *)
Definition consistent w : Prop :=
  map sequence (log w) = seq 1 (lastSequence w)
  /\ (forall e, e ∈ log w -> e_type e = ev_completed ->
        exists t, stored w (e_taskId e) = Some t /\ isTerminalTaskStatus (status t) = true)
  /\ (forall e, e ∈ log w -> exists t, stored w (e_taskId e) = Some t /\ ownerSessionId t = e_ownerSessionId e)
  /\ (forall id t, stored w id = Some t ->
        taskId t = id /\ (isTerminalTaskStatus (status t) = true -> endedAt t <> None)).

Lemma advanced_refl t : advanced t t.
Proof. split; [apply canTransition_refl|done]. Qed.

Lemma advanced_trans a b c : advanced a b -> advanced b c -> advanced a c.
Proof.
  intros (H1 & H2 & H3 & H4 & H5) (K1 & K2 & K3 & K4 & K5).
  split; [by eapply canTransition_trans|]. repeat split; congruence.
Qed.

#[export] Instance later_preorder : PreOrder later.
Proof.
  split.
  - intros w. split; [|exists []; by rewrite app_nil_r]. intros id t Ht. exists t. split; [done|apply advanced_refl].
  - intros w1 w2 w3 [H1 [l1 E1]] [H2 [l2 E2]]. split.
    + intros id t Ht. destruct (H1 id t Ht) as (t' & Ht' & Ha). destruct (H2 id t' Ht') as (t'' & Ht'' & Ha').
      exists t''. split; [done|by eapply advanced_trans].
    + exists (l1 ++ l2). by rewrite E2, E1, app_assoc.
Qed.

(** A process is [ok] at a world when, whatever the others do meanwhile, its
    next step keeps the world consistent, only advances it, and leaves an [ok]
    process; its result meets [post] when it ends. *)
Fixpoint ok (post : BackgroundTaskError + BackgroundTask -> World S O -> Prop) (p : Proc S O) w : Prop :=
  match p with
  | Done r => post r w
  | Step f => forall w', later w w' -> consistent w' ->
      match f w' with (w'', p') => later w' w'' /\ consistent w'' /\ ok post p' w'' end
  | AwaitRunner k => forall o, ok post (k o) w
  end.

Definition stable (post : BackgroundTaskError + BackgroundTask -> World S O -> Prop) : Prop :=
  forall r w w', later w w' -> post r w -> post r w'.

Lemma ok_later post p w w' : stable post -> later w w' -> ok post p w -> ok post p w'.
Proof.
  intros Hst Hw. revert w w' Hw. induction p as [r|f IH|k IH]; intros w w' Hw; cbn [ok].
  - by apply Hst.
  - intros Hok w2 Hw2. apply Hok. by etransitivity.
  - intros Hok o. by eapply IH.
Qed.

(** *** The two effects *)
Lemma emit_world w t type pl :
  (exists t0, stored w (taskId t) = Some t0 /\ ownerSessionId t0 = ownerSessionId t
              /\ (type = ev_completed -> isTerminalTaskStatus (status t0) = true)) ->
  consistent w ->
  let w' := {| store := store_appendEvent
                 {| eventId := eventIdGenerator (eventIds w); e_taskId := taskId t;
                    e_ownerSessionId := ownerSessionId t; e_type := type; timestamp := clock w;
                    sequence := lastSequence w + 1; payload := pl |} (store w);
               outputStore := outputStore w; clock := clock w; lastSequence := lastSequence w + 1;
               taskIds := taskIds w; eventIds := eventIds w + 1 |} in
  later w w' /\ consistent w'.
Proof.
  intros (t0 & Ht0 & Hown & Hterm) (Hseq & Hcomp & Howner & Htask). cbn zeta.
  assert (Hget : forall id s e, store_get id (store_appendEvent e s) = store_get id s)
    by (intros; apply append_get).
  assert (Hev : forall s e, store_events (store_appendEvent e s) = store_events s ++ [e])
    by (intros; apply append_events).
  split; [split|].
  - intros id t1 Ht1. exists t1. unfold stored; cbn [store]. rewrite Hget. split; [done|apply advanced_refl].
  - unfold log; cbn [store]. eexists. apply Hev.
  - unfold consistent, log, stored in *; cbn [store lastSequence]. rewrite Hev.
    split; [|split; [|split]].
    + rewrite map_app, Hseq. cbn [map sequence]. by rewrite Nat.add_1_r, seq_S.
    + intros e [He| ->%list_elem_of_singleton]%elem_of_app Hc; rewrite Hget; [by apply Hcomp|].
      cbn [e_taskId e_type] in *. eauto.
    + intros e [He| ->%list_elem_of_singleton]%elem_of_app; rewrite Hget; [by apply Howner|].
      cbn [e_taskId e_ownerSessionId]. eauto.
    + intros id t1. rewrite Hget. apply Htask.
Qed.

Lemma emit_ok post t type pl k w :
  (exists t0, stored w (taskId t) = Some t0 /\ ownerSessionId t0 = ownerSessionId t
              /\ (type = ev_completed -> isTerminalTaskStatus (status t0) = true)) ->
  (forall w', later w w' -> ok post k w') ->
  ok post (emit eventIdGenerator t type pl k) w.
Proof.
  intros (t0 & Ht0 & Hown & Hterm) Hk w' Hw' Hc.
  assert (Hpre : exists t1, stored w' (taskId t) = Some t1 /\ ownerSessionId t1 = ownerSessionId t
              /\ (type = ev_completed -> isTerminalTaskStatus (status t1) = true)).
  { destruct Hw' as [Hw' _]. destruct (Hw' _ _ Ht0) as (t1 & Ht1 & Hst & _ & _ & Ho & _).
    exists t1. split; [done|]. split; [congruence|]. intros Hty. specialize (Hterm Hty).
    by rewrite (canTransition_terminal _ _ Hterm Hst). }
  destruct (emit_world w' t type pl Hpre Hc) as [Hl Hc'].
  split; [exact Hl|]. split; [exact Hc'|]. apply Hk. by etransitivity.
Qed.

Lemma applyPatch_advanced now p t : patchAllowed p t = true -> advanced t (applyPatch now p t).
Proof.
  unfold patchAllowed, advanced; cbn. destruct (p_status p); cbn; [by intros ->|].
  intros _. by rewrite canTransition_refl.
Qed.

Lemma patch_world w now id p t s' :
  consistent w -> stored w id = Some t -> patchAllowed p t = true ->
  (exists s, p_status p = Some s /\ (isTerminalTaskStatus s = true -> p_endedAt p <> None)) ->
  (forall id', store_get id' s' = if decide (id' = id) then Some (applyPatch now p t) else store_get id' (store w)) ->
  store_events s' = store_events (store w) ->
  later w (set_store s' w) /\ consistent (set_store s' w).
Proof.
  intros (Hseq & Hcomp & Howner & Htask) Ht Hal (s & Hs & Hend) Hget Hev.
  pose proof (applyPatch_advanced now p t Hal) as Hadv.
  assert (Hmove : forall id' t', stored w id' = Some t' ->
    exists t'', stored (set_store s' w) id' = Some t'' /\ advanced t' t'').
  { intros id' t' Ht'. unfold stored; cbn [set_store store]. rewrite Hget.
    destruct (decide (id' = id)) as [->|].
    - exists (applyPatch now p t). split; [done|]. by replace t' with t by congruence.
    - exists t'. split; [done|apply advanced_refl]. }
  split; [split; [exact Hmove|]|].
  - exists []. unfold log; cbn [set_store store]. by rewrite Hev, app_nil_r.
  - unfold consistent, log; cbn [set_store store lastSequence]. rewrite Hev.
    split; [done|]. split; [|split].
    + intros e He Hc. destruct (Hcomp e He Hc) as (t1 & Ht1 & Hterm).
      destruct (Hmove _ _ Ht1) as (t2 & Ht2 & Hst & _). exists t2. split; [done|].
      by rewrite (canTransition_terminal _ _ Hterm Hst).
    + intros e He. destruct (Howner e He) as (t1 & Ht1 & Ho).
      destruct (Hmove _ _ Ht1) as (t2 & Ht2 & _ & _ & _ & Ho' & _). exists t2. split; [done|congruence].
    + intros id' t'. unfold stored; cbn [set_store store]. rewrite Hget.
      destruct (decide (id' = id)) as [->|]; [|apply Htask]. intros [= <-].
      destruct (Htask id t Ht) as [Hid _]. split; [done|]. cbn [applyPatch status endedAt].
      rewrite Hs; cbn. intros Hterm%Hend. by destruct (p_endedAt p).
Qed.

Lemma patch_ok post id mk okk err w :
  (forall now, exists s, p_status (mk now) = Some s
     /\ (isTerminalTaskStatus s = true -> p_endedAt (mk now) <> None)) ->
  (forall w' now t, later w w' -> stored w' id = Some (applyPatch now (mk now) t) -> taskId t = id ->
     ok post (okk (applyPatch now (mk now) t)) w') ->
  (forall w', later w w' -> stored w' id = None -> ok post (err (TaskNotFoundError id)) w') ->
  (forall w' now t s, later w w' -> stored w' id = Some t -> p_status (mk now) = Some s ->
     canTransitionTaskStatus (status t) s = false ->
     ok post (err (InvalidTaskStatusTransitionError id (status t) s)) w') ->
  ok post (patchThen id mk okk err) w.
Proof.
  intros Hmk Hok Hnone Hinv w' Hw' Hc. cbn beta.
  pose proof (patch_spec (clock w') id (mk (clock w')) (store w')) as Hsp.
  fold (stored w' id) in Hsp. destruct (stored w' id) as [t|] eqn:Et.
  - destruct (patchAllowed (mk (clock w')) t) eqn:Ea.
    + destruct Hsp as (s' & -> & Hget & Hev).
      destruct (patch_world w' (clock w') id (mk (clock w')) t s' Hc Et Ea (Hmk _) Hget Hev) as [Hl Hc'].
      split; [exact Hl|]. split; [exact Hc'|]. apply Hok; [by etransitivity| |].
      * unfold stored; cbn [set_store store]. rewrite Hget. by rewrite decide_True.
      * destruct Hc as (_ & _ & _ & Htask). by apply Htask.
    + destruct Hsp as (s & Hs & ->). split; [reflexivity|]. split; [exact Hc|].
      eapply Hinv; [done|exact Et|exact Hs|]. unfold patchAllowed in Ea. by rewrite Hs in Ea.
  - rewrite Hsp. split; [reflexivity|]. split; [exact Hc|]. by apply Hnone.
Qed.

Lemma require_ok post id k w :
  (forall w', later w w' -> stored w' id = None -> ok post (Done (inl (TaskNotFoundError id))) w') ->
  (forall w' t, later w w' -> stored w' id = Some t -> taskId t = id -> ok post (k t) w') ->
  ok post (requireTask id k) w.
Proof.
  intros Hnone Hsome w' Hw' Hc. split; [reflexivity|]. split; [exact Hc|].
  fold (stored w' id). destruct (stored w' id) as [t|] eqn:Et; [|by apply Hnone].
  apply Hsome; [done|done|]. destruct Hc as (_ & _ & _ & Htask). by apply Htask.
Qed.

(** *** What each call promises *)
Definition settledBy w (id : jstr) (from to : BackgroundTaskStatus) : Prop :=
  isTerminalTaskStatus from = true /\ from <> to
  /\ exists t, stored w id = Some t /\ status t = from.

Definition call_post (c : Call) (r : BackgroundTaskError + BackgroundTask) w : Prop :=
  match r with
  | inr t =>
    (exists t', stored w (taskId t) = Some t' /\ advanced t t')
    /\ match c with
       | CallStart _ => status t = running \/ status t = failed
       | CallStop id _ => taskId t = id /\ (status t = stopping \/ isTerminalTaskStatus (status t) = true)
       | CallComplete id _ | CallFail id _ => taskId t = id /\ isTerminalTaskStatus (status t) = true
       end
  | inl e =>
    match c, e with
    | CallStart r, TaskRunnerNotFoundError k => k = r_kind r /\ k ∉ runners
    | CallStart _, TaskAlreadyExistsError id => exists t, stored w id = Some t
    | CallStart _, InvalidTaskStatusTransitionError id from to => settledBy w id from to
    | CallStop id' _, InvalidTaskStatusTransitionError id from to
    | CallComplete id' _, InvalidTaskStatusTransitionError id from to
    | CallFail id' _, InvalidTaskStatusTransitionError id from to => id = id' /\ settledBy w id from to
    | CallStop id' _, TaskNotFoundError id
    | CallComplete id' _, TaskNotFoundError id
    | CallFail id' _, TaskNotFoundError id => id = id'
    | _, _ => False
    end
  end.

Lemma stored_later w w' id t :
  later w w' -> stored w id = Some t -> exists t', stored w' id = Some t' /\ advanced t t'.
Proof. intros [Hl _]. apply Hl. Qed.

Lemma settledBy_later w w' id from to : later w w' -> settledBy w id from to -> settledBy w' id from to.
Proof.
  intros Hl (Ht & Hne & t & Hs & Hst). split; [done|]. split; [done|].
  destruct (stored_later _ _ _ _ Hl Hs) as (t' & Hs' & Hc & _). exists t'. split; [done|].
  rewrite Hst in Hc. by rewrite (canTransition_terminal _ _ Ht Hc).
Qed.

Lemma call_post_stable c : stable (call_post c).
Proof.
  intros [e|t] w w' Hl; unfold call_post.
  - destruct c, e; try done; try (by intros [-> ?]; split; [done|by eapply settledBy_later]).
    + intros (t & Ht). destruct (stored_later _ _ _ _ Hl Ht) as (t' & Ht' & _). eauto.
    + by apply settledBy_later.
  - intros [(t1 & Ht1 & Ha1) Hc]. split; [|done].
    destruct (stored_later _ _ _ _ Hl Ht1) as (t2 & Ht2 & Ha2). exists t2.
    split; [done|by eapply advanced_trans].
Qed.

Lemma stored_self w t : stored w (taskId t) = Some t -> exists t', stored w (taskId t) = Some t' /\ advanced t t'.
Proof. intros Ht. exists t. split; [done|apply advanced_refl]. Qed.

(** A status the manager settles with is refused only to a settled task. *)
Lemma refused_settled w id t to :
  isTerminalTaskStatus to = true \/ to = stopping ->
  stored w id = Some t -> canTransitionTaskStatus (status t) to = false -> settledBy w id (status t) to.
Proof.
  intros Hto Hs Hc. unfold settledBy.
  assert (isTerminalTaskStatus (status t) = true) by (destruct Hto as [Hto| ->]; destruct (status t); try destruct to; done).
  split; [done|]. split; [intros Heq; by rewrite Heq, canTransition_refl in Hc|eauto].
Qed.

(** Settle with a patch, report completion, return the task. *)
Lemma settle_ok c id mk st pl err w :
  (forall now, p_status (mk now) = Some st) -> isTerminalTaskStatus st = true ->
  (forall now, p_endedAt (mk now) <> None) ->
  (forall w', later w w' -> stored w' id = None -> ok (call_post c) (err (TaskNotFoundError id)) w') ->
  (forall w' from, later w w' -> settledBy w' id from st ->
     ok (call_post c) (err (InvalidTaskStatusTransitionError id from st)) w') ->
  (forall t w', status t = st -> taskId t = id ->
     (exists t', stored w' (taskId t) = Some t' /\ advanced t t') -> call_post c (inr t) w') ->
  ok (call_post c) (patchThen id mk (fun t => emit eventIdGenerator t ev_completed (pl t) (resolve t)) err) w.
Proof.
  intros Hst Hterm Hend Hnone Hinv Hpost. apply patch_ok.
  - intros now. exists st. auto.
  - intros w1 now t Hl Hs Hid.
    assert (Hself : stored w1 (taskId (applyPatch now (mk now) t)) = Some (applyPatch now (mk now) t))
      by (cbn [applyPatch taskId]; by rewrite Hid).
    assert (Hstat : status (applyPatch now (mk now) t) = st) by (cbn; by rewrite Hst).
    apply emit_ok.
    + exists (applyPatch now (mk now) t). split; [done|]. split; [done|]. intros _. by rewrite Hstat.
    + intros w2 Hl2. apply Hpost; [done|by cbn|]. by eapply stored_later.
  - exact Hnone.
  - intros w1 now t s Hl Hs Hp Hc. rewrite Hst in Hp. injection Hp as <-. apply Hinv; [done|].
    by apply refused_settled; [left| |].
Qed.

Lemma stored_some_later w w' id : (exists t, stored w id = Some t) -> later w w' -> stored w' id <> None.
Proof. intros [t Ht] Hl. destruct (stored_later _ _ _ _ Hl Ht) as (t' & -> & _). done. Qed.

Lemma startFailed_ok r id error w :
  (exists t, stored w id = Some t) -> ok (call_post (CallStart r)) (startFailed eventIdGenerator id error) w.
Proof.
  intros Hs. eapply (settle_ok _ _ _ failed); [done..| | |].
  - intros w' Hl Hn. by destruct (stored_some_later _ _ _ Hs Hl).
  - intros w' from _ Hb. exact Hb.
  - intros t w' Hst _ Hex. split; [done|by right].
Qed.

Lemma start_ok r w : ok (call_post (CallStart r)) (start taskIdGenerator eventIdGenerator runners r) w.
Proof.
  intros w1 Hl1 Hc1. cbn beta.
  destruct (bool_decide_reflect (r_kind r ∈ runners)) as [Hk|Hk]; cbn [negb].
  2: { split; [reflexivity|]. by split. }
  set (t := newTask r _ _). pose proof (create_spec t (store w1)) as Hsp.
  destruct (store_create t (store w1)) as [e|[t' s']].
  - destruct Hsp as [-> Hex]. split; [|split].
    + split; [|exists []; by rewrite app_nil_r]. intros id u Hu. exists u. split; [done|apply advanced_refl].
    + exact Hc1.
    + cbn. unfold stored; cbn [store]. destruct (store_get (taskId t) (store w1)) eqn:E; [eauto|done].
  - destruct Hsp as (-> & Hnone & Hget & Hev). unfold set_store; cbn [outputStore clock lastSequence taskIds eventIds].
    set (w2 := Build_World _ _ _ _ _ _).
    assert (Hself : stored w2 (taskId t) = Some t) by (unfold stored, w2; cbn [store]; by rewrite Hget, decide_True).
    assert (Hkeep : forall id u, stored w1 id = Some u -> stored w2 id = Some u).
    { intros id u Hu. unfold stored, w2 in *; cbn [store]. rewrite Hget, decide_False; [done|]. congruence. }
    split; [split|split].
    + intros id u Hu. exists u. split; [by apply Hkeep|apply advanced_refl].
    + exists []. unfold log, w2; cbn [store]. by rewrite Hev, app_nil_r.
    + destruct Hc1 as (Hseq & Hcomp & Hown & Htask). unfold consistent, log, w2; cbn [store lastSequence].
      rewrite Hev. fold w2. split; [done|]. split; [|split].
      * intros e He Hty. destruct (Hcomp e He Hty) as (u & Hu & Hu'). eauto.
      * intros e He. destruct (Hown e He) as (u & Hu & Hu'). eauto.
      * intros id u Hu. unfold stored, w2 in Hu; cbn [store] in Hu. rewrite Hget in Hu.
        destruct (decide (id = taskId t)) as [->|]; [by injection Hu as <-|by apply Htask].
    + apply emit_ok; [by exists t|]. intros w3 Hl3 o.
      destruct (stored_later _ _ _ _ Hl3 Hself) as (u & Hu & _).
      destruct o as [ref|error]; [|apply startFailed_ok; eauto].
      apply patch_ok.
      * intros now. exists running. by split.
      * intros w4 now v Hl4 Hv Hid.
        assert (Hv' : stored w4 (taskId (applyPatch now (startedPatch ref now) v))
                      = Some (applyPatch now (startedPatch ref now) v)) by (cbn [applyPatch taskId]; by rewrite Hid).
        apply emit_ok; [by exists (applyPatch now (startedPatch ref now) v)|].
        intros w5 Hl5. split; [by eapply stored_later|by left].
      * intros w4 Hl4 Hn. by destruct (stored_some_later _ _ _ (ex_intro _ _ Hu) Hl4).
      * intros w4 now v s Hl4 Hv _ _. apply startFailed_ok. eauto.
Qed.

Lemma stopFailed_ok id reason error w :
  ok (call_post (CallStop id reason)) (stopFailed eventIdGenerator id error) w.
Proof.
  eapply (settle_ok _ _ _ canceled); [done..| | |].
  - by intros w' _ _.
  - intros w' from _ Hb. by split.
  - intros t w' Hst Hid Hex. split; [done|]. split; [done|]. right. by rewrite Hst.
Qed.

Lemma stopSettled_ok id reason o w :
  ok (call_post (CallStop id reason)) (stopSettled eventIdGenerator id reason o) w.
Proof.
  destruct o as [ref|error]; [|apply stopFailed_ok].
  eapply (settle_ok _ _ _ canceled); [done..| | |].
  - intros w' _ _. apply stopFailed_ok.
  - intros w' from _ _. apply stopFailed_ok.
  - intros t w' Hst Hid Hex. split; [done|]. split; [done|]. right. by rewrite Hst.
Qed.

Lemma stop_ok id reason w :
  ok (call_post (CallStop id reason)) (stop eventIdGenerator runners id reason) w.
Proof.
  apply require_ok; [by intros w' _ _|]. intros w1 t Hl1 Ht Hid.
  destruct (isTerminalTaskStatus (status t) || bool_decide (status t = stopping)) eqn:Eb.
  - split; [apply stored_self; by rewrite Hid|]. split; [done|].
    apply orb_true_iff in Eb as [?|?%bool_decide_eq_true]; auto.
  - apply patch_ok.
    + intros now. exists stopping. by split.
    + intros w2 now u Hl2 Hu Hidu.
      apply emit_ok.
      * exists (applyPatch now (stoppingPatch now) u). cbn [applyPatch taskId]. rewrite Hidu. by repeat split.
      * intros w3 Hl3. destruct (bool_decide (kind t ∈ runners)); [intros o; apply stopSettled_ok|apply stopFailed_ok].
    + by intros w2 _ _.
    + intros w2 now u s Hl2 Hu [= <-] Hc. split; [done|]. by apply refused_settled; [right| |].
Qed.

Lemma complete_ok id o w :
  ok (call_post (CallComplete id o)) (complete eventIdGenerator id o) w.
Proof.
  apply require_ok; [by intros w' _ _|]. intros w1 t Hl1 Ht Hid.
  destruct (isTerminalTaskStatus (status t)) eqn:Eb.
  { split; [apply stored_self; by rewrite Hid|done]. }
  assert (Hfin : forall w', ok (call_post (CallComplete id o))
    (patchThen id (completedPatch o)
       (fun t => emit eventIdGenerator t ev_completed (statusPayload (status t)) (resolve t)) reject) w').
  { intros w'. assert (Hterm : isTerminalTaskStatus (completedStatus o) = true)
      by (unfold completedStatus; by destruct (c_canceled o)).
    eapply (settle_ok _ _ _ (completedStatus o)); [done|done|done| | |].
    - by intros w2 _ _.
    - intros w2 from _ Hb. by split.
    - intros u w2 Hst Hidu Hex. split; [done|]. split; [done|]. by rewrite Hst. }
  cbn zeta. destruct (c_summary o) as [summary|]; [|apply Hfin].
  intros w2 Hl2 Hc2. cbn beta iota. split; [|split; [|apply Hfin]].
  - split; [|exists []; by rewrite app_nil_r]. intros id' u Hu. exists u. split; [done|apply advanced_refl].
  - exact Hc2.
Qed.

Lemma fail_ok id error w :
  ok (call_post (CallFail id error)) (fail eventIdGenerator id error) w.
Proof.
  apply require_ok; [by intros w' _ _|]. intros w1 t Hl1 Ht Hid.
  destruct (isTerminalTaskStatus (status t)) eqn:Eb.
  { split; [apply stored_self; by rewrite Hid|done]. }
  eapply (settle_ok _ _ _ failed); [done..| | |].
  - by intros w2 _ _.
  - intros w2 from _ Hb. by split.
  - intros u w2 Hst Hidu Hex. split; [done|]. split; [done|]. by rewrite Hst.
Qed.

Lemma call_ok c w : ok (call_post c) (call_proc taskIdGenerator eventIdGenerator runners c) w.
Proof. destruct c; [apply start_ok|apply stop_ok|apply complete_ok|apply fail_ok]. Qed.

(** *** The system *)
Definition sys_ok (s : System S O) : Prop :=
  consistent (world s) /\ Forall (fun x => ok (call_post (fst x)) (snd x) (world s)) (calls s).

Lemma calls_later l w w' :
  later w w' -> Forall (fun x => ok (call_post (fst x)) (snd x) w) l ->
  Forall (fun x => ok (call_post (fst x)) (snd x) w') l.
Proof.
  intros Hl Hall. eapply Forall_impl; [exact Hall|]. intros x.
  apply ok_later; [apply call_post_stable|done].
Qed.

Lemma act_ok a s :
  sys_ok s ->
  sys_ok (act taskIdGenerator eventIdGenerator runners a s)
  /\ later (world s) (world (act taskIdGenerator eventIdGenerator runners a s)).
Proof.
  intros [Hc Hall]. destruct a as [c|i|i o|z]; cbn [act].
  - split; [|reflexivity]. split; [done|]. apply Forall_app. split; [done|].
    repeat constructor. apply call_ok.
  - destruct (calls s !! i) as [[c p]|] eqn:Ei; [|by split].
    destruct p as [r|f|k]; [by split| |by split].
    pose proof (proj1 (Forall_lookup _ _) Hall i _ Ei) as Hok. cbn [fst snd ok] in Hok.
    specialize (Hok (world s) ltac:(reflexivity) Hc). destruct (f (world s)) as [w' p'].
    destruct Hok as (Hl & Hc' & Hok'). split; [|exact Hl]. split; [exact Hc'|]. cbn [calls world].
    apply Forall_insert; [by eapply calls_later|done].
  - destruct (calls s !! i) as [[c p]|] eqn:Ei; [|by split].
    destruct p as [r|f|k]; [by split|by split|].
    pose proof (proj1 (Forall_lookup _ _) Hall i _ Ei) as Hok. cbn [fst snd ok] in Hok.
    split; [|reflexivity]. split; [exact Hc|]. cbn [calls world]. apply Forall_insert; [done|apply Hok].
  - match goal with |- context [{| world := ?w' |}] => assert (Hl : later (world s) w') end.
    { split; [|exists []; by rewrite app_nil_r]. intros id u Hu. exists u. split; [done|apply advanced_refl]. }
    split; [|exact Hl]. split; [exact Hc|]. by eapply calls_later.
Qed.

Lemma acts_ok l : forall s,
  sys_ok s ->
  sys_ok (acts taskIdGenerator eventIdGenerator runners l s)
  /\ later (world s) (world (acts taskIdGenerator eventIdGenerator runners l s)).
Proof.
  induction l as [|a l IH]; intros s Hs; [by split|]. cbn.
  destruct (act_ok a s Hs) as [Hs1 Hl1]. destruct (IH _ Hs1) as [Hs2 Hl2].
  split; [exact Hs2|by etransitivity].
Qed.

(** *** Every call settles *)
Fixpoint within (n : nat) (p : Proc S O) : Prop :=
  match p, n with
  | Done _, _ => True
  | Step f, Datatypes.S n' => forall w, within n' (snd (f w))
  | AwaitRunner k, Datatypes.S n' => forall o, within n' (k o)
  | _, Datatypes.O => False
  end.

Lemma within_done n r : within n (Done r).
Proof. by destruct n. Qed.

#[local] Hint Resolve within_done : bari.

Lemma within_step n (f : World S O -> World S O * Proc S O) :
  (forall w, within n (snd (f w))) -> within (Datatypes.S n) (Step f).
Proof. done. Qed.

Lemma within_await n (k : RunnerOutcome -> Proc S O) :
  (forall o, within n (k o)) -> within (Datatypes.S n) (AwaitRunner k).
Proof. done. Qed.

Lemma within_patch n id mk okk err :
  (forall t, within n (okk t)) -> (forall e, within n (err e)) ->
  within (Datatypes.S n) (patchThen id mk okk err).
Proof.
  intros Ho He. apply within_step. intros w. cbn beta.
  destruct (store_patch _ _ _ (store w)) as [e|[t s']]; [apply He|apply Ho].
Qed.

Lemma within_emit n t type pl k : within n k -> within (Datatypes.S n) (emit eventIdGenerator t type pl k).
Proof. intros Hk. by apply within_step. Qed.

Lemma within_require n id k :
  (forall t, within n (k t)) -> within (Datatypes.S n) (requireTask id k).
Proof.
  intros Hk. apply within_step. intros w. cbn [snd].
  destruct (store_get id (store w)); [apply Hk|apply within_done].
Qed.

#[local] Hint Resolve within_emit : bari.

Lemma within_settle n id mk pl err :
  (forall e, within (Datatypes.S n) (err e)) ->
  within (Datatypes.S (Datatypes.S n))
    (patchThen id mk (fun t => emit eventIdGenerator t ev_completed (pl t) (resolve t)) err).
Proof. intros He. apply within_patch; unfold resolve; auto with bari. Qed.

Lemma within_rejected n e : within n (reject (S := S) (O := O) e).
Proof. apply within_done. Qed.

#[local] Hint Resolve within_settle within_rejected : bari.

Lemma calls_settle c : within 7 (call_proc taskIdGenerator eventIdGenerator runners c).
Proof.
  destruct c as [r|id reason|id o|id error]; cbn [call_proc].
  - apply within_step. intros w. cbn beta zeta.
    destruct (negb (bool_decide _)); [apply within_done|].
    match goal with |- context [store_create ?x ?y] => destruct (store_create x y) as [e|[t s']] end;
      [apply within_done|]. cbn [snd].
    apply within_emit, within_await. intros [ref|error]; [|apply within_settle; auto with bari].
    apply within_patch; [intros u; apply within_emit, within_done|]. intros e.
    apply within_settle; auto with bari.
  - apply within_require. intros t. destruct (_ || _); [apply within_done|].
    apply within_patch; [|intros e; apply within_done]. intros u. apply within_emit.
    destruct (bool_decide _); [apply within_await; intros [ref|error]|]; apply within_settle; auto with bari.
    intros e. apply within_settle; auto with bari.
  - apply within_require. intros t. destruct (isTerminalTaskStatus _); [apply within_done|].
    cbn zeta. destruct (c_summary o) as [sum|]; [apply within_step; intros w; cbn [snd]|];
      apply within_settle; auto with bari.
  - apply within_require. intros t. destruct (isTerminalTaskStatus _); [apply within_done|].
    apply within_settle; auto with bari.
Qed.

(** *** A call on its own *)

(** Run a call with nothing in between; [outcomes] settle its runner calls. *)
Fixpoint alone (p : Proc S O) (outcomes : list RunnerOutcome) (w : World S O) :
    option ((BackgroundTaskError + BackgroundTask) * World S O) :=
  match p with
  | Done r => Some (r, w)
  | Step f => match f w with (w', p') => alone p' outcomes w' end
  | AwaitRunner k => match outcomes with o :: rest => alone (k o) rest w | [] => None end
  end.

(** The task a [start] returns: running, or failed with the runner's error. *)
Definition startedTask (r : StartTaskRequest) (id : jstr) (now : Z) (o : RunnerOutcome) : BackgroundTask :=
  applyPatch now
    match o with
    | RunnerOk ref => startedPatch ref now
    | RunnerThrew error => settlePatch failed (Some (normalizeTaskError error (js "TASK_START_FAILED"))) now
    end (newTask r id now).

Lemma patch_alone id mk okk err outcomes w t :
  stored w id = Some t -> patchAllowed (mk (clock w)) t = true ->
  exists s', alone (patchThen id mk okk err) outcomes w
             = alone (okk (applyPatch (clock w) (mk (clock w)) t)) outcomes (set_store s' w)
    /\ (forall id', store_get id' s' = if decide (id' = id) then Some (applyPatch (clock w) (mk (clock w)) t)
                                      else store_get id' (store w))
    /\ store_events s' = store_events (store w).
Proof.
  intros Ht Ha. pose proof (patch_spec (clock w) id (mk (clock w)) (store w)) as Hsp.
  fold (stored w id) in Hsp. rewrite Ht, Ha in Hsp. destruct Hsp as (s' & Hs & Hget & Hev).
  exists s'. cbn [alone patchThen]. by rewrite Hs.
Qed.

Lemma emit_alone t type pl k outcomes w :
  exists w', alone (emit eventIdGenerator t type pl k) outcomes w = alone k outcomes w'
    /\ (forall id, stored w' id = stored w id) /\ clock w' = clock w
    /\ exists e, log w' = log w ++ [e] /\ e_type e = type /\ e_taskId e = taskId t.
Proof.
  eexists. split; [reflexivity|]. unfold stored, log; cbn [store clock].
  split; [intros id; apply append_get|]. split; [done|]. eexists. split; [apply append_events|done].
Qed.

(** Patch the stored task, emit an event for it, return it. *)
Lemma finish_alone id mk type pl err outcomes w t :
  stored w id = Some t -> taskId t = id -> patchAllowed (mk (clock w)) t = true ->
  let t' := applyPatch (clock w) (mk (clock w)) t in
  exists w', alone (patchThen id mk (fun t => emit eventIdGenerator t type (pl t) (resolve t)) err) outcomes w
             = Some (inr t', w')
    /\ stored w' id = Some t' /\ (forall id', id' <> id -> stored w' id' = stored w id')
    /\ exists e, log w' = log w ++ [e] /\ e_type e = type /\ e_taskId e = id.
Proof.
  intros Ht Hid Ha. cbn zeta.
  destruct (patch_alone id mk (fun t => emit eventIdGenerator t type (pl t) (resolve t)) err outcomes w t Ht Ha)
    as (s' & -> & Hget & Hev).
  set (t' := applyPatch _ _ t).
  destruct (emit_alone t' type (pl t') (resolve t') outcomes (set_store s' w)) as (w' & -> & Hst & _ & e & Hl & Hty & He).
  exists w'. split; [done|]. rewrite !Hst. unfold stored at 1; cbn [set_store store]. rewrite Hget, decide_True by done.
  split; [done|]. split.
  - intros id' Hne. rewrite Hst. unfold stored; cbn [set_store store]. by rewrite Hget, decide_False.
  - exists e. split; [rewrite Hl; unfold log; cbn [set_store store]; by rewrite Hev|].
    split; [done|]. rewrite He. exact Hid.
Qed.

Lemma start_alone r o w :
  let id := taskIdGenerator (taskIds w) in
  r_kind r ∈ runners -> stored w id = None ->
  exists w', alone (start taskIdGenerator eventIdGenerator runners r) [o] w
             = Some (inr (startedTask r id (clock w) o), w')
    /\ stored w' id = Some (startedTask r id (clock w) o)
    /\ (forall id', id' <> id -> stored w' id' = stored w id')
    /\ exists e1 e2, log w' = log w ++ [e1; e2] /\ e_taskId e1 = id /\ e_taskId e2 = id
       /\ e_type e1 = ev_created
       /\ e_type e2 = match o with RunnerOk _ => ev_started | RunnerThrew _ => ev_completed end.
Proof.
  cbn zeta. intros Hk Hfree. cbn [alone start]. rewrite bool_decide_eq_true_2 by done. cbn [negb].
  set (t := newTask r _ _). pose proof (create_spec t (store w)) as Hsp.
  destruct (store_create t (store w)) as [e|[t' s']]; [by destruct Hsp as [_ []]|].
  destruct Hsp as (-> & _ & Hget & Hev). set (w1 := set_store s' _).
  destruct (emit_alone t ev_created [(js "inputKind", JStr (kind_name (r_kind r)))]
    (AwaitRunner (startSettled eventIdGenerator (taskId t))) [o] w1) as (w2 & -> & Hst2 & Hc2 & e1 & Hl2 & Hty1 & He1).
  assert (Ht2 : stored w2 (taskId t) = Some t).
  { rewrite Hst2. unfold stored, w1; cbn [set_store store]. by rewrite Hget, decide_True. }
  assert (Hfin : exists w', alone (startSettled eventIdGenerator (taskId t) o) [] w2
             = Some (inr (startedTask r (taskId t) (clock w2) o), w')
    /\ stored w' (taskId t) = Some (startedTask r (taskId t) (clock w2) o)
    /\ (forall id', id' <> taskId t -> stored w' id' = stored w2 id')
    /\ exists e2, log w' = log w2 ++ [e2]
       /\ e_type e2 = match o with RunnerOk _ => ev_started | RunnerThrew _ => ev_completed end
       /\ e_taskId e2 = taskId t).
  { replace (startedTask r (taskId t) (clock w2) o) with
      (applyPatch (clock w2) match o with
         | RunnerOk ref => startedPatch ref (clock w2)
         | RunnerThrew error => settlePatch failed (Some (normalizeTaskError error (js "TASK_START_FAILED"))) (clock w2)
         end t) by (unfold startedTask; rewrite Hc2; done).
    destruct o as [ref|error]; by apply finish_alone. }
  destruct Hfin as (w' & Hrun & Hst' & Hother & e2 & Hl' & Hty2 & He2).
  rewrite Hc2 in Hrun, Hst'. exists w'. split; [exact Hrun|]. split; [exact Hst'|]. split.
  - intros id' Hne. rewrite Hother, Hst2 by done. unfold stored, w1; cbn [set_store store].
    by rewrite Hget, decide_False.
  - exists e1, e2. rewrite Hl', Hl2. unfold log at 1, w1; cbn [set_store store]. rewrite Hev, <- app_assoc.
    by repeat split.
Qed.
End Facts.

(** ** Properties *)

(** A manager over the in-memory stores, before any call. *)
Definition emptyWorld (now : Z) : World InMemoryTaskStore InMemoryTaskOutputStore :=
  {| store := newInMemoryTaskStore; outputStore := newInMemoryTaskOutputStore; clock := now;
     lastSequence := 0; taskIds := 0; eventIds := 0 |}.

Definition emptySystem (now : Z) : System InMemoryTaskStore InMemoryTaskOutputStore :=
  {| world := emptyWorld now; calls := [] |}.

Lemma emptySystem_ok runners now : sys_ok runners (emptySystem now).
Proof.
  split; [|constructor]. split; [done|]. split; [|split].
  - by intros e He%elem_of_nil.
  - by intros e He%elem_of_nil.
  - done.
Qed.

(** C20: under any interleaving of any calls, runner outcomes and clock
    readings: event sequence numbers are 1, 2, 3, ... without gaps; a task with
    a completion event, or returned as settled, is settled in the store; a
    settled task has an end time; events carry their task's owner; and a call
    ends only as promised, rejecting for a missing task or because another call
    settled the task first. *)
Theorem manager_consistent (taskIdGenerator eventIdGenerator : nat -> jstr)
    (runners : list BackgroundTaskKind) (now : Z) (schedule : list Action) :
  let s := acts taskIdGenerator eventIdGenerator runners schedule (emptySystem now) in
  consistent (world s)
  /\ Forall (fun x => match snd x with
                      | Done r => call_post runners (fst x) r (world s)
                      | _ => True
                      end) (calls s).
Proof.
  destruct (acts_ok taskIdGenerator eventIdGenerator runners schedule (emptySystem now)
    (emptySystem_ok runners now)) as [[Hc Hall] _].
  split; [exact Hc|]. eapply Forall_impl; [exact Hall|]. intros [c [r|f|k]] Hx; done.
Qed.

(** C29: once settled, always settled the same way: whatever happens later, a
    task's status only moves forward in the status order, a terminal status
    never changes, identity and creation time never change, and no event is
    ever lost. *)
Theorem settled_forever (taskIdGenerator eventIdGenerator : nat -> jstr)
    (runners : list BackgroundTaskKind) (now : Z) (before after : list Action) (id : jstr) :
  let s1 := acts taskIdGenerator eventIdGenerator runners before (emptySystem now) in
  let s2 := acts taskIdGenerator eventIdGenerator runners after s1 in
  (exists l, log (world s2) = log (world s1) ++ l)
  /\ match stored (world s1) id with
     | None => True
     | Some t => exists t', stored (world s2) id = Some t' /\ advanced t t'
                 /\ implb (isTerminalTaskStatus (status t)) (bool_decide (status t' = status t)) = true
     end.
Proof.
  cbn zeta. destruct (acts_ok taskIdGenerator eventIdGenerator runners before (emptySystem now)
    (emptySystem_ok runners now)) as [Hs1 _].
  destruct (acts_ok taskIdGenerator eventIdGenerator runners after _ Hs1) as [_ [Hl Hlog]].
  split; [exact Hlog|]. destruct (stored _ id) as [t|] eqn:Et; [|done].
  destruct (Hl id t Et) as (t' & Ht' & Hadv). exists t'. split; [done|]. split; [done|].
  destruct (isTerminalTaskStatus (status t)) eqn:Eterm; [|done]. simpl. apply bool_decide_eq_true.
  by apply canTransition_terminal; [|apply Hadv].
Qed.

(** C40: every call settles: it takes at most seven steps of its own, runner
    outcomes included, whatever happens between them. *)
Theorem every_call_settles {S O} `{TaskStoreOps S} `{TaskOutputStoreOps O}
    (taskIdGenerator eventIdGenerator : nat -> jstr) (runners : list BackgroundTaskKind) (c : Call) :
  within (S := S) (O := O) 7 (call_proc taskIdGenerator eventIdGenerator runners c).
Proof. apply calls_settle. Qed.

(** Undisturbed, [start] with a registered kind and a fresh id stores and
    returns the task the request describes, running, or failed with the
    normalized runner error; it touches no other task and appends a creation
    event, then a started or a completion event. *)
Theorem start_undisturbed {S O} `{TaskStoreOps S} `{!TaskStoreLaws S} `{TaskOutputStoreOps O}
    (taskIdGenerator eventIdGenerator : nat -> jstr) (runners : list BackgroundTaskKind)
    (r : StartTaskRequest) (o : RunnerOutcome) (w : World S O)
    (Hkind : r_kind r ∈ runners) (Hfree : stored w (taskIdGenerator (taskIds w)) = None) :
  let id := taskIdGenerator (taskIds w) in
  exists w',
    alone (start taskIdGenerator eventIdGenerator runners r) [o] w
    = Some (inr (startedTask r id (clock w) o), w')
    /\ stored w' id = Some (startedTask r id (clock w) o)
    /\ (forall id', id' <> id -> stored w' id' = stored w id')
    /\ exists e1 e2, log w' = log w ++ [e1; e2] /\ e_taskId e1 = id /\ e_taskId e2 = id
       /\ e_type e1 = ev_created
       /\ e_type e2 = match o with RunnerOk _ => ev_started | RunnerThrew _ => ev_completed end.
Proof. by apply start_alone. Qed.

Definition sample_request : StartTaskRequest :=
  {| r_kind := kind_bash; r_ownerSessionId := js "s"; r_description := None; r_toolCallId := None;
     r_parentMessageId := None; r_parentTaskId := None; r_metadata := None |}.

Definition sample_id (n : nat) : jstr := [N.of_nat n].

Lemma start_undisturbed_witness :
  exists w', alone (start sample_id sample_id [kind_bash] sample_request) [RunnerOk None] (emptyWorld 5)
             = Some (inr (startedTask sample_request [0%N] 5 (RunnerOk None)), w')
    /\ length (log w') = 2.
Proof.
  destruct (start_undisturbed sample_id sample_id [kind_bash] sample_request (RunnerOk None) (emptyWorld 5)
    ltac:(left) eq_refl) as (w' & Hr & _ & _ & e1 & e2 & Hl & _).
  exists w'. split; [exact Hr|]. by rewrite Hl.
Defined.

(** ** Races *)
Definition sample_acts (l : list Action) : System InMemoryTaskStore InMemoryTaskOutputStore :=
  acts sample_id sample_id [kind_bash] l (emptySystem 0).

Definition succeeds : CompleteTaskOptions :=
  {| c_canceled := false; c_outputRef := None; c_summary := None; c_usage := None; c_metadata := None |}.

Definition start_running : list Action :=
  [Invoke (CallStart sample_request); Run 0; Run 0; Settle 0 (RunnerOk None); Run 0; Run 0].

Definition outcome (i : nat) (s : System InMemoryTaskStore InMemoryTaskOutputStore) :
    option (BackgroundTaskError + BackgroundTaskStatus) :=
  match calls s !! i with
  | Some (_, Done (inl e)) => Some (inl e)
  | Some (_, Done (inr t)) => Some (inr (status t))
  | _ => None
  end.

(** Two overlapping completions both report success: two completion events. *)
Example completed_twice :
  let s := sample_acts (start_running ++
    [Invoke (CallComplete [0%N] succeeds); Invoke (CallComplete [0%N] succeeds);
     Run 1; Run 2; Run 1; Run 1; Run 2; Run 2]) in
  map e_type (log (world s)) = [ev_created; ev_started; ev_completed; ev_completed]
  /\ outcome 1 s = Some (inr succeeded) /\ outcome 2 s = Some (inr succeeded).
Proof. by vm_compute. Qed.

(** A task that completes while [stop] waits for its runner: [stop] rejects. *)
Example stop_rejects_when_task_completes :
  let s := sample_acts (start_running ++
    [Invoke (CallStop [0%N] None); Run 1; Run 1; Run 1;
     Invoke (CallComplete [0%N] succeeds); Run 2; Run 2; Run 2;
     Settle 1 (RunnerOk None); Run 1; Run 1]) in
  outcome 1 s = Some (inl (InvalidTaskStatusTransitionError [0%N] succeeded canceled))
  /\ outcome 2 s = Some (inr succeeded).
Proof. by vm_compute. Qed.

(** A task that completes before its runner's [start] resolves: [start] rejects. *)
Example start_rejects_when_task_completes :
  let s := sample_acts
    [Invoke (CallStart sample_request); Run 0; Run 0;
     Invoke (CallComplete [0%N] succeeds); Run 1; Run 1; Run 1;
     Settle 0 (RunnerOk None); Run 0; Run 0] in
  outcome 0 s = Some (inl (InvalidTaskStatusTransitionError [0%N] succeeded failed))
  /\ outcome 1 s = Some (inr succeeded).
Proof. by vm_compute. Qed.
