(* ===== verification/CronQueue.v ===== *)
(** * Messages of cron tasks to busy sessions

    [BusyQueue] of [packages/agent-modules/cron/src/busy-queue.ts]: the messages that
    wait for a session to become idle.  A drain is a process: it runs up to a call of
    a send function, and goes on when that settles; other calls come in between. *)
From S2P Require Import Prelude.

Definition TTL_MS : Z := 30 * 60 * 1000.

Inductive BusyQueueDrainResult := drain_sent | drain_expired | drain_removed | drain_replaced | drain_failed.

(** The number names the promise of the message and its send function. *)
Record QueuedEntry := {
  e_id : nat;
  enqueuedAt : Z;
  agentName : jstr;
  cronName : jstr;
  sessionId : jstr;
}.

(** The map; for every drain what it has still to send, first the message whose send
    function is running; the promises resolved and the functions called, in order. *)
Record BusyQueue := {
  queue : jmap jstr QueuedEntry;
  drains : list (list QueuedEntry);
  settled : list (nat * BusyQueueDrainResult);
  called : list nat;
  nextId : nat;
}.

Definition new_queue : BusyQueue := {| queue := []; drains := []; settled := []; called := []; nextId := 0 |}.

Definition key (session agent cron : jstr) : jstr := session ++ js ":" ++ agent ++ js ":" ++ cron.

Definition with_queue (q : jmap jstr QueuedEntry) (b : BusyQueue) : BusyQueue :=
  {| queue := q; drains := drains b; settled := settled b; called := called b; nextId := nextId b |}.
Definition with_drains (d : list (list QueuedEntry)) (b : BusyQueue) : BusyQueue :=
  {| queue := queue b; drains := d; settled := settled b; called := called b; nextId := nextId b |}.

Definition resolveDrain (r : BusyQueueDrainResult) (e : QueuedEntry) (b : BusyQueue) : BusyQueue :=
  {| queue := queue b; drains := drains b; settled := settled b ++ [(e_id e, r)]; called := called b; nextId := nextId b |}.

Definition entryOf (id : nat) (now : Z) (session agent cron : jstr) : QueuedEntry :=
  {| e_id := id; enqueuedAt := now; agentName := agent; cronName := cron; sessionId := session |}.

Definition enqueue (now : Z) (session agent cron : jstr) (b : BusyQueue) : BusyQueue :=
  let k := key session agent cron in
  let b := match jget k (queue b) with Some e => resolveDrain drain_replaced e b | None => b end in
  {| queue := jset k (entryOf (nextId b) now session agent cron) (queue b); drains := drains b; settled := settled b;
     called := called b; nextId := S (nextId b) |}.

(** Without an agent. *)
Definition enqueueLegacy (now : Z) (session cron : jstr) : BusyQueue -> BusyQueue := enqueue now session [] cron.

Definition ofCron (agent cron : jstr) (e : QueuedEntry) : bool := str_eqb (agentName e) agent && str_eqb (cronName e) cron.

Definition removeCron (agent cron : jstr) (b : BusyQueue) : nat * BusyQueue :=
  fold_left (fun acc '(k, e) =>
    if ofCron agent cron e
    then (S (fst acc), resolveDrain drain_removed e (with_queue (jdel k (queue (snd acc))) (snd acc)))
    else acc) (queue b) (0, b).

Definition ofSession (session : jstr) (e : QueuedEntry) : bool := str_eqb (sessionId e) session.
Definition fresh (now : Z) (e : QueuedEntry) : bool := (now - enqueuedAt e <? TTL_MS)%Z.

(** The call of the next send function of a drain. *)
Definition callNext (rest : list QueuedEntry) (b : BusyQueue) : BusyQueue :=
  match rest with
  | [] => b
  | e :: _ => {| queue := queue b; drains := drains b; settled := settled b; called := called b ++ [e_id e]; nextId := nextId b |}
  end.

(** Up to the first call: what to send, the keys to remove, and the queue in which the
    expired messages are resolved. *)
Definition collect (now : Z) (session : jstr) (b : BusyQueue) : list QueuedEntry * list jstr * BusyQueue :=
  fold_left (fun acc '(k, e) =>
    let '(toExecute, toRemove, b) := acc in
    if ofSession session e
    then if fresh now e then (toExecute ++ [e], toRemove ++ [k], b)
         else (toExecute, toRemove ++ [k], resolveDrain drain_expired e b)
    else acc) (queue b) ([], [], b).

Definition drain (now : Z) (session : jstr) (b : BusyQueue) : BusyQueue :=
  let '(toExecute, toRemove, b) := collect now session b in
  let b := with_queue (fold_left (fun q k => jdel k q) toRemove (queue b)) b in
  callNext toExecute (with_drains (drains b ++ [toExecute]) b).

(** A send function settles, and its drain goes on. *)
Definition settle (i : nat) (ok : bool) (b : BusyQueue) : BusyQueue :=
  match drains b !! i with
  | Some (e :: rest) =>
      callNext rest (with_drains (<[i := rest]> (drains b)) (resolveDrain (if ok then drain_sent else drain_failed) e b))
  | _ => b
  end.

Definition size (b : BusyQueue) : nat := length (queue b).
Definition getQueuedCount (session : jstr) (b : BusyQueue) : nat :=
  length (List.filter (fun e => ofSession session (snd e)) (queue b)).

(** ** Runs *)
Inductive BqCall :=
  | BqEnqueue (now : Z) (session agent cron : jstr)
  | BqRemove (agent cron : jstr)
  | BqDrain (now : Z) (session : jstr)
  | BqSettle (i : nat) (ok : bool).

Definition bqStep (b : BusyQueue) (c : BqCall) : BusyQueue :=
  match c with
  | BqEnqueue now session agent cron => enqueue now session agent cron b
  | BqRemove agent cron => snd (removeCron agent cron b)
  | BqDrain now session => drain now session b
  | BqSettle i ok => settle i ok b
  end.

Definition bqFrom (b : BusyQueue) (calls : list BqCall) : BusyQueue := fold_left bqStep calls b.
Definition bqRun (calls : list BqCall) : BusyQueue := bqFrom new_queue calls.

Lemma bqFrom_app b l1 l2 : bqFrom b (l1 ++ l2) = bqFrom (bqFrom b l1) l2.
Proof. apply fold_left_app. Qed.

(** ** What the loops do *)
Definition entries (b : BusyQueue) : list QueuedEntry := map snd (queue b).

(** A map of entries under their own keys. *)
Definition keyed (q : jmap jstr QueuedEntry) : Prop :=
  NoDup (jkeys q) /\ Forall (fun '(k, e) => k = key (sessionId e) (agentName e) (cronName e)) q.

Definition drop_if (f : QueuedEntry -> bool) (q : jmap jstr QueuedEntry) : jmap jstr QueuedEntry :=
  List.filter (fun e => negb (f (snd e))) q.

Lemma drop_if_cons_in f k e q : f e = true -> drop_if f ((k, e) :: q) = drop_if f q.
Proof. unfold drop_if. cbn. by intros ->. Qed.
Lemma drop_if_cons_out f k e q : f e = false -> drop_if f ((k, e) :: q) = (k, e) :: drop_if f q.
Proof. unfold drop_if. cbn. by intros ->. Qed.

Lemma filter_twice {A} (f g : A -> bool) l : List.filter f (List.filter g l) = List.filter (fun x => g x && f x) l.
Proof. induction l as [|x l IH]; [done|]. cbn. destruct (g x); cbn; rewrite IH; done. Qed.

(** Deleting the keys of some entries keeps the others. *)
Lemma dels_filter ks : forall q : jmap jstr QueuedEntry,
  fold_left (fun q k => jdel k q) ks q = List.filter (fun e => negb (bool_decide (fst e ∈ ks))) q.
Proof.
  induction ks as [|k ks IH]; intros q; cbn [fold_left].
  - induction q as [|e q IH]; [done|]. cbn. f_equal. exact IH.
  - rewrite IH. unfold jdel. rewrite filter_twice. apply List.filter_ext. intros e. rewrite <- negb_orb. f_equal.
    destruct (bool_decide (fst e ∈ k :: ks)) eqn:E; reflect_bools.
    + apply elem_of_cons in E as [->|E]; [by rewrite (bool_decide_eq_true_2 (k = k))|]. by rewrite (bool_decide_eq_true_2 _ E), orb_true_r.
    + apply not_elem_of_cons in E as [E1 E2]. by rewrite !bool_decide_eq_false_2 by congruence.
Qed.

Lemma dels_spec f q : NoDup (jkeys q) ->
  fold_left (fun q k => jdel k q) (map fst (List.filter (fun e => f (snd e)) q)) q = drop_if f q.
Proof.
  intros Hd. rewrite dels_filter. unfold drop_if. apply filter_ext_in. intros [k e] Hin. cbn [fst snd]. f_equal.
  destruct (f e) eqn:Hf; reflect_bools.
  - apply bool_decide_eq_true. apply list_elem_of_In, in_map_iff. exists (k, e). split; [done|]. by apply filter_In.
  - apply bool_decide_eq_false. intros Hk%list_elem_of_In. apply in_map_iff in Hk as ([k' e'] & E & [Hin' Hf']%filter_In).
    cbn in *. subst. apply list_elem_of_In in Hin, Hin'. apply elem_jget in Hin, Hin'; [|done..]. congruence.
Qed.

Definition told (r : BusyQueueDrainResult) (es : list QueuedEntry) : list (nat * BusyQueueDrainResult) :=
  map (fun e => (e_id e, r)) es.

Definition of_cron (agent cron : jstr) (b : BusyQueue) : list QueuedEntry := List.filter (ofCron agent cron) (entries b).
Definition due (now : Z) (session : jstr) (b : BusyQueue) : list QueuedEntry :=
  List.filter (fun e => ofSession session e && fresh now e) (entries b).
Definition overdue (now : Z) (session : jstr) (b : BusyQueue) : list QueuedEntry :=
  List.filter (fun e => ofSession session e && negb (fresh now e)) (entries b).

Lemma remove_loop agent cron (l : jmap jstr QueuedEntry) : forall n (b : BusyQueue),
  fold_left (fun acc '(k, e) =>
    if ofCron agent cron e
    then (S (fst acc), resolveDrain drain_removed e (with_queue (jdel k (queue (snd acc))) (snd acc)))
    else acc) l (n, b)
  = ((n + length (List.filter (ofCron agent cron) (map snd l)))%nat,
     {| queue := fold_left (fun q k => jdel k q) (map fst (List.filter (fun e => ofCron agent cron (snd e)) l)) (queue b);
        drains := drains b; settled := settled b ++ told drain_removed (List.filter (ofCron agent cron) (map snd l));
        called := called b; nextId := nextId b |}).
Proof.
  induction l as [|[k e] l IH]; intros n b; cbn [fold_left map List.filter snd fst].
  { rewrite app_nil_r, Nat.add_0_r. by destruct b. }
  destruct (ofCron agent cron e); rewrite IH; cbn [map fst snd length told fold_left]; [|done].
  unfold resolveDrain, with_queue. cbn. by rewrite <- app_assoc, Nat.add_succ_r.
Qed.

Lemma removeCron_spec agent cron b : NoDup (jkeys (queue b)) ->
  removeCron agent cron b
  = (length (of_cron agent cron b),
     {| queue := drop_if (ofCron agent cron) (queue b); drains := drains b;
        settled := settled b ++ told drain_removed (of_cron agent cron b); called := called b; nextId := nextId b |}).
Proof. intros Hd. unfold removeCron. rewrite remove_loop, dels_spec by done. done. Qed.

Lemma collect_loop now session (l : jmap jstr QueuedEntry) : forall (te : list QueuedEntry) (tr : list jstr) (b : BusyQueue),
  fold_left (fun acc '(k, e) =>
    let '(toExecute, toRemove, b) := acc in
    if ofSession session e
    then if fresh now e then (toExecute ++ [e], toRemove ++ [k], b)
         else (toExecute, toRemove ++ [k], resolveDrain drain_expired e b)
    else acc) l (te, tr, b)
  = (te ++ List.filter (fun e => ofSession session e && fresh now e) (map snd l),
     tr ++ map fst (List.filter (fun e => ofSession session (snd e)) l),
     {| queue := queue b; drains := drains b;
        settled := settled b ++ told drain_expired (List.filter (fun e => ofSession session e && negb (fresh now e)) (map snd l));
        called := called b; nextId := nextId b |}).
Proof.
  induction l as [|[k e] l IH]; intros te tr b; cbn [fold_left map List.filter snd fst].
  { rewrite !app_nil_r. by destruct b. }
  destruct (ofSession session e); cbn [andb]; [|by rewrite IH].
  destruct (fresh now e); cbn [negb]; rewrite IH; cbn [map told]; unfold resolveDrain; cbn; by rewrite <- !app_assoc.
Qed.

Lemma drain_spec now session b : NoDup (jkeys (queue b)) ->
  drain now session b
  = callNext (due now session b)
      {| queue := drop_if (ofSession session) (queue b); drains := drains b ++ [due now session b];
         settled := settled b ++ told drain_expired (overdue now session b); called := called b; nextId := nextId b |}.
Proof. intros Hd. unfold drain, collect. rewrite collect_loop. cbn [app with_queue queue]. by rewrite dels_spec. Qed.

Lemma drop_if_entries f q : map snd (drop_if f q) = List.filter (fun e => negb (f e)) (map snd q).
Proof. unfold drop_if. induction q as [|[k e] q IH]; [done|]. cbn. destruct (f e); cbn; [done|]. by f_equal. Qed.

Lemma drop_if_elem f q x : x ∈ drop_if f q <-> x ∈ q /\ f (snd x) = false.
Proof. unfold drop_if. by rewrite !list_elem_of_In, filter_In, negb_true_iff. Qed.

Lemma drop_if_NoDup f q : NoDup (jkeys q) -> NoDup (jkeys (drop_if f q)).
Proof.
  unfold jkeys, drop_if. induction q as [|[k e] q IH]; [done|]. cbn. intros [Hk Hd]%NoDup_cons. destruct (f e); cbn; [auto|].
  apply NoDup_cons. split; [|auto]. intros Hin. apply Hk. rewrite list_elem_of_In, in_map_iff in *.
  destruct Hin as (x & ? & [? _]%filter_In). by exists x.
Qed.

Lemma callNext_queue rest b : queue (callNext rest b) = queue b.
Proof. by destruct rest. Qed.
Lemma callNext_drains rest b : drains (callNext rest b) = drains b.
Proof. by destruct rest. Qed.
Lemma callNext_settled rest b : settled (callNext rest b) = settled b.
Proof. by destruct rest. Qed.
Lemma callNext_nextId rest b : nextId (callNext rest b) = nextId b.
Proof. by destruct rest. Qed.
Lemma callNext_called rest b : called (callNext rest b) = called b ++ map e_id (option_list (head rest)).
Proof. destruct rest; [by rewrite app_nil_r|done]. Qed.

(** ** Every message has one fate *)
Definition queued_ids (b : BusyQueue) : list nat := map e_id (entries b).
Definition draining_ids (b : BusyQueue) : list nat := map e_id (concat (drains b)).
Definition settled_ids (b : BusyQueue) : list nat := map fst (settled b).

Notation count l x := (count_occ Nat.eq_dec l x).

Lemma count_split f es x :
  count (map e_id es) x = (count (map e_id (List.filter f es)) x + count (map e_id (List.filter (fun e => negb (f e)) es)) x)%nat.
Proof. induction es as [|e es IH]; [done|]. cbn. destruct (f e); cbn; destruct (Nat.eq_dec (e_id e) x); lia. Qed.

Lemma told_ids r es : map fst (told r es) = map e_id es.
Proof. unfold told. by rewrite map_map. Qed.

Lemma jset_count k v (q : jmap jstr QueuedEntry) x :
  (count (map e_id (option_list (jget k q))) x + count (map e_id (map snd (jset k v q))) x
   = count [e_id v] x + count (map e_id (map snd q)) x)%nat.
Proof.
  unfold option_list in *. induction q as [|[k' v'] q IH]; cbn [jget jset]; [by rewrite Nat.add_0_r|]. case_decide; cbn in *;
    destruct (Nat.eq_dec (e_id v') x), (Nat.eq_dec (e_id v) x); lia.
Qed.

Lemma drains_count (ds : list (list QueuedEntry)) i e rest x : ds !! i = Some (e :: rest) ->
  count (map e_id (concat ds)) x = (count [e_id e] x + count (map e_id (concat (<[i := rest]> ds))) x)%nat.
Proof.
  revert i. induction ds as [|d ds IH]; intros [|i] Hi; [done..| |].
  - injection Hi as ->. change (<[0%nat := rest]> ((e :: rest) :: ds)) with (rest :: ds). cbn. destruct (Nat.eq_dec (e_id e) x); lia.
  - change (<[S i := rest]> (d :: ds)) with (d :: <[i := rest]> ds). cbn in *. rewrite !map_app, !count_occ_app, (IH i Hi). cbn. lia.
Qed.

Record accounted (b : BusyQueue) : Prop := {
  acc_keyed : keyed (queue b);
  acc_ids x : (count (queued_ids b) x + count (draining_ids b) x + count (settled_ids b) x)%nat = count (seq 0 (nextId b)) x;
}.

Lemma accounted_keys b : accounted b -> NoDup (jkeys (queue b)).
Proof. by intros [[? _] _]. Qed.

Lemma accounted_enqueue now session agent cron b : accounted b -> accounted (enqueue now session agent cron b).
Proof.
  intros [[Hd Hk] Hids]. set (k := key session agent cron). set (v := entryOf (nextId b) now session agent cron).
  assert (enqueue now session agent cron b
    = {| queue := jset k v (queue b); drains := drains b; settled := settled b ++ told drain_replaced (option_list (jget k (queue b)));
         called := called b; nextId := S (nextId b) |}) as ->.
  { unfold enqueue. fold k v. destruct (jget k (queue b)); [done|]. cbn. by rewrite app_nil_r. }
  split.
  - split; [by apply jset_NoDup|]. cbn [queue]. apply Forall_forall. intros [k' e] Hin. apply elem_jget in Hin; [|by apply jset_NoDup].
    rewrite jget_jset in Hin. case_decide as E; [by injection Hin as <-; subst|]. apply jget_Some_elem in Hin. rewrite Forall_forall in Hk.
    by apply Hk in Hin.
  - intros x. unfold queued_ids, draining_ids, settled_ids, entries in *. cbn [queue drains settled nextId].
    rewrite map_app, told_ids, count_occ_app, seq_S, count_occ_app. pose proof (jset_count k v (queue b) x) as Hj. specialize (Hids x).
    change (e_id v) with (nextId b) in Hj. cbn [Nat.add]. lia.
Qed.

Lemma accounted_remove agent cron b : accounted b -> accounted (snd (removeCron agent cron b)).
Proof.
  intros Hb. rewrite removeCron_spec by by apply accounted_keys. destruct Hb as [[Hd Hk] Hids]. split; cbn [snd queue].
  - split; [by apply drop_if_NoDup|]. rewrite Forall_forall in *. intros x [Hx _]%drop_if_elem. by apply (Hk x).
  - intros x. specialize (Hids x). unfold queued_ids, draining_ids, settled_ids, entries in *. cbn [queue drains settled nextId].
    rewrite drop_if_entries, map_app, told_ids, count_occ_app. unfold of_cron, entries.
    pose proof (count_split (ofCron agent cron) (map snd (queue b)) x). lia.
Qed.

Lemma accounted_drain now session b : accounted b -> accounted (drain now session b).
Proof.
  intros Hb. rewrite drain_spec by by apply accounted_keys. destruct Hb as [[Hd Hk] Hids]. split.
  - rewrite callNext_queue. split; [by apply drop_if_NoDup|]. cbn [queue]. rewrite Forall_forall in *. intros x [Hx _]%drop_if_elem. by apply (Hk x).
  - intros x. specialize (Hids x). unfold queued_ids, draining_ids, settled_ids, entries in *.
    rewrite callNext_queue, callNext_drains, callNext_settled, callNext_nextId. cbn [queue drains settled nextId].
    rewrite drop_if_entries, map_app, told_ids, concat_app, map_app, !count_occ_app. cbn [concat]. rewrite app_nil_r.
    unfold due, overdue, entries. pose proof (count_split (ofSession session) (map snd (queue b)) x).
    pose proof (count_split (fresh now) (List.filter (ofSession session) (map snd (queue b))) x) as Hf.
    rewrite !filter_twice in Hf. lia.
Qed.

Lemma accounted_settle i ok b : accounted b -> accounted (settle i ok b).
Proof.
  intros [Hk Hids]. unfold settle. destruct (drains b !! i) as [[|e rest]|] eqn:Hi; [by split| |by split]. split; [by rewrite callNext_queue|].
  intros x. specialize (Hids x). unfold queued_ids, draining_ids, settled_ids, entries in *.
  rewrite callNext_queue, callNext_drains, callNext_settled, callNext_nextId. cbn [with_drains resolveDrain queue drains settled nextId].
  rewrite map_app, count_occ_app. rewrite (drains_count _ _ _ _ x Hi) in Hids. cbn [map fst]. lia.
Qed.

Lemma accounted_step b c : accounted b -> accounted (bqStep b c).
Proof.
  destruct c; cbn [bqStep]; [apply accounted_enqueue|apply accounted_remove|apply accounted_drain|apply accounted_settle].
Qed.

Lemma accounted_from b calls : accounted b -> accounted (bqFrom b calls).
Proof. revert b. induction calls as [|c calls IH]; intros b Hb; [done|]. by apply IH, accounted_step. Qed.

Lemma accounted_run calls : accounted (bqRun calls).
Proof. apply accounted_from. split; [|done]. split; [constructor|constructor]. Qed.

(** every message has one fate: whatever calls are made and however drains are
    interleaved with them, the messages enqueued so far are, without repetition, those
    that wait in the queue, those that a running drain has still to send, and those
    whose promise has settled, each of them once. *)
Theorem every_message_has_one_fate calls : let b := bqRun calls in
  queued_ids b ++ draining_ids b ++ settled_ids b ≡ₚ seq 0 (nextId b).
Proof.
  cbv zeta. apply (Permutation_count_occ Nat.eq_dec). intros x. rewrite !count_occ_app, <- (acc_ids _ (accounted_run calls) x). lia.
Qed.

(** ** What waits *)

(** The call leaves the message in the queue. *)
Definition spares (k : jstr) (e : QueuedEntry) (c : BqCall) : Prop :=
  match c with
  | BqEnqueue _ session agent cron => key session agent cron <> k
  | BqRemove agent cron => ~ (agentName e = agent /\ cronName e = cron)
  | BqDrain _ session => sessionId e <> session
  | BqSettle _ _ => True
  end.

(** The call puts the message into the queue. *)
Definition enqueues (b : BusyQueue) (k : jstr) (e : QueuedEntry) (c : BqCall) : Prop :=
  exists now session agent cron, c = BqEnqueue now session agent cron /\ k = key session agent cron
    /\ e = entryOf (nextId b) now session agent cron.

Lemma enqueue_queue now session agent cron b :
  queue (enqueue now session agent cron b) = jset (key session agent cron) (entryOf (nextId b) now session agent cron) (queue b).
Proof. unfold enqueue. by destruct (jget _ (queue b)). Qed.

Lemma queue_elem (q : jmap jstr QueuedEntry) k e : NoDup (jkeys q) -> (k, e) ∈ q <-> jget k q = Some e.
Proof. intros Hd. split; [by apply elem_jget|apply jget_Some_elem]. Qed.

Lemma waits_step b c k e : accounted b ->
  (k, e) ∈ queue (bqStep b c) <-> (k, e) ∈ queue b /\ spares k e c \/ enqueues b k e c.
Proof.
  intros Hb. pose proof (accounted_keys b Hb) as Hd. unfold enqueues. destruct c as [now session agent cron|agent cron|now session|i ok]; cbn [bqStep spares].
  - rewrite enqueue_queue, !queue_elem by (try apply jset_NoDup; done). rewrite jget_jset. split.
    + case_decide as E; [intros [= <-]; right; by do 4 eexists|intros ?; left; split; [done|congruence]].
    + intros [[Hq Hn]|(? & ? & ? & ? & [= <- <- <- <-] & -> & ->)]; [by rewrite decide_False by congruence|by rewrite decide_True].
  - rewrite removeCron_spec by done. cbn [snd queue]. rewrite drop_if_elem. unfold ofCron, str_eqb. cbn [snd]. split.
    + intros [? Hf]. left. split; [done|]. intros [E1 E2]. by rewrite !bool_decide_eq_true_2 in Hf.
    + intros [[? Hn]|(? & ? & ? & ? & ? & _)]; [|done]. split; [done|]. apply andb_false_iff. rewrite !bool_decide_eq_false.
      destruct (decide (agentName e = agent)); [right|by left]. intros ?. by apply Hn.
  - rewrite drain_spec, callNext_queue by done. cbn [queue]. rewrite drop_if_elem. unfold ofSession, str_eqb. cbn [snd].
    rewrite bool_decide_eq_false. split; [by left|]. intros [?|(? & ? & ? & ? & ? & _)]; done.
  - unfold settle. split.
    + intros Hin. left. split; [|done]. destruct (drains b !! i) as [[|]|]; [done| |done]. by rewrite callNext_queue in Hin.
    + intros [[Hin _]|(? & ? & ? & ? & ? & _)]; [|done]. destruct (drains b !! i) as [[|]|]; [done| |done]. by rewrite callNext_queue.
Qed.

Lemma waits_since calls k e : (k, e) ∈ queue (bqRun calls) <->
  exists before c after, calls = before ++ c :: after /\ enqueues (bqRun before) k e c /\ Forall (spares k e) after.
Proof.
  induction calls as [|c calls IH] using rev_ind.
  - split; [by intros ?%elem_of_nil|]. intros ([|? ?] & ? & ? & ? & _); done.
  - unfold bqRun in *. rewrite bqFrom_app. cbn [bqFrom fold_left]. rewrite waits_step by apply accounted_run. rewrite IH. split.
    + intros [[(before & d & after & -> & He & Hs) Hc]|He].
      * exists before, d, (after ++ [c]). rewrite <- app_assoc. split; [done|]. split; [done|]. by apply Forall_app; split; [|constructor].
      * exists calls, c, []. split; [done|]. by split.
    + intros (before & d & after & E & He & Hs). destruct after as [|x after _] using rev_ind.
      * apply app_inj_tail in E as [-> ->]. by right.
      * change (d :: after ++ [x]) with ((d :: after) ++ [x]) in E. rewrite app_assoc in E. apply app_inj_tail in E as [-> ->].
        apply Forall_app in Hs as [Hs Hx]. left. split; [by exists before, d, after|by apply Forall_inv in Hx].
Qed.

(** *** Names

    The parts of a key run together: it tells sessions, agents and tasks apart where the
    names of sessions and agents have no colon. *)
Lemma app_colon (x y s t : jstr) : ch ":" ∉ x -> ch ":" ∉ y -> x ++ ch ":" :: s = y ++ ch ":" :: t -> x = y /\ s = t.
Proof.
  revert y. induction x as [|c x IH]; intros [|d y] Hx Hy E; cbn [app] in E.
  - by injection E.
  - injection E as <- _. exfalso. apply Hy. by left.
  - injection E as -> _. exfalso. apply Hx. by left.
  - injection E as -> E. apply not_elem_of_cons in Hx as [_ Hx], Hy as [_ Hy]. by destruct (IH y Hx Hy E) as [-> ->].
Qed.

Lemma key_inj s a n s' a' n' : ch ":" ∉ s -> ch ":" ∉ s' -> ch ":" ∉ a -> ch ":" ∉ a' ->
  key s a n = key s' a' n' -> s = s' /\ a = a' /\ n = n'.
Proof.
  unfold key. change (js ":") with [ch ":"]. cbn [app]. intros Hs Hs' Ha Ha' E.
  apply app_colon in E as [-> E]; [|done..]. by apply app_colon in E as [-> ->].
Qed.

(** A task of a session has one agent, and no colon is in the way. *)
Definition named (agentOf : jstr -> jstr -> jstr) (c : BqCall) : Prop :=
  match c with
  | BqEnqueue _ session agent cron => agent = agentOf session cron /\ ch ":" ∉ session /\ ch ":" ∉ agent
  | _ => True
  end.

(** The call leaves the waiting message of the task alone. *)
Definition leaves (e : QueuedEntry) (c : BqCall) : Prop :=
  match c with
  | BqEnqueue _ session _ cron => ~ (session = sessionId e /\ cron = cronName e)
  | BqRemove agent cron => ~ (agent = agentName e /\ cron = cronName e)
  | BqDrain _ session => session <> sessionId e
  | BqSettle _ _ => True
  end.

Lemma spares_leaves agentOf e c : named agentOf c -> agentName e = agentOf (sessionId e) (cronName e) ->
  ch ":" ∉ sessionId e -> ch ":" ∉ agentName e ->
  spares (key (sessionId e) (agentName e) (cronName e)) e c <-> leaves e c.
Proof.
  destruct c as [now s a n|a n|now s|i ok]; cbn [spares leaves named]; intros Hc He Hs Ha; [|naive_solver..].
  destruct Hc as (-> & Hs' & Ha'). split; intros Hn.
  - intros [-> ->]. apply Hn. by rewrite He.
  - intros E. apply Hn. by apply key_inj in E as (-> & _ & ->).
Qed.

(** C33: the queue holds the latest messages: where a task of a session always comes
    with the same agent, and the names of sessions and agents have no colon, a message
    waits exactly when its enqueuing was the last call that concerned it: no message
    of its session and task was enqueued since, its task was not removed, and its
    session was not drained. *)
Theorem queue_holds_the_latest agentOf calls e : Forall (named agentOf) calls ->
  e ∈ entries (bqRun calls) <->
  exists before now after, calls = before ++ BqEnqueue now (sessionId e) (agentName e) (cronName e) :: after
    /\ e = entryOf (nextId (bqRun before)) now (sessionId e) (agentName e) (cronName e)
    /\ Forall (leaves e) after.
Proof.
  intros Hn. assert (forall k, (k, e) ∈ queue (bqRun calls) -> k = key (sessionId e) (agentName e) (cronName e)) as Hk.
  { intros k Hin. destruct (accounted_run calls) as [[_ Hk] _]. rewrite Forall_forall in Hk. exact (Hk _ Hin). }
  assert (forall before now after, calls = before ++ BqEnqueue now (sessionId e) (agentName e) (cronName e) :: after ->
    Forall (spares (key (sessionId e) (agentName e) (cronName e)) e) after <-> Forall (leaves e) after) as Hs.
  { intros before now after ->. apply Forall_app in Hn as [_ Hn]. apply Forall_cons in Hn as [(He & Hs & Ha) Hn].
    rewrite !Forall_forall in *. split; intros Hf c Hc; apply (spares_leaves agentOf e c (Hn c Hc) He Hs Ha), Hf, Hc. }
  unfold entries. rewrite list_elem_of_fmap. split.
  - intros ([k e'] & -> & Hin). cbn [snd] in *. rewrite (Hk k Hin) in Hin.
    apply waits_since in Hin as (before & c & after & E & (now & s & a & n & -> & _ & Ee) & Hf).
    assert (s = sessionId e' /\ a = agentName e' /\ n = cronName e') as (-> & -> & ->) by by rewrite Ee.
    exists before, now, after. split; [done|]. split; [done|]. by apply (Hs before now after E).
  - intros (before & now & after & E & Ee & Hf). exists (key (sessionId e) (agentName e) (cronName e), e). split; [done|].
    apply waits_since. exists before, (BqEnqueue now (sessionId e) (agentName e) (cronName e)), after.
    split; [done|]. split; [by exists now, (sessionId e), (agentName e), (cronName e)|]. by apply (Hs before now after E).
Qed.

(** ** What is sent *)
Definition isSent (r : BusyQueueDrainResult) : bool := match r with drain_sent | drain_failed => true | _ => false end.

(** The messages whose send function is running, and those for which it has settled. *)
Definition running_ids (b : BusyQueue) : list nat := map e_id (flat_map (fun d => option_list (head d)) (drains b)).
Definition done_ids (b : BusyQueue) : list nat := map fst (List.filter (fun p => isSent (snd p)) (settled b)).

Definition calls_ok (b : BusyQueue) : Prop := forall x, count (called b) x = (count (running_ids b) x + count (done_ids b) x)%nat.

Lemma told_done r es x : count (map fst (List.filter (fun p => isSent (snd p)) (told r es))) x = if isSent r then count (map e_id es) x else 0%nat.
Proof.
  unfold told. induction es as [|e es IH]; cbn; [by destruct (isSent r)|]. destruct (isSent r) eqn:Hr; cbn; rewrite IH; done.
Qed.

Lemma running_count (ds : list (list QueuedEntry)) i e rest x : ds !! i = Some (e :: rest) ->
  (count (map e_id (flat_map (fun d => option_list (head d)) ds)) x + count (map e_id (option_list (head rest))) x
   = count [e_id e] x + count (map e_id (flat_map (fun d => option_list (head d)) (<[i := rest]> ds))) x)%nat.
Proof.
  revert i. induction ds as [|d ds IH]; intros [|i] Hi; [done..| |].
  - injection Hi as ->. change (<[0%nat := rest]> ((e :: rest) :: ds)) with (rest :: ds). cbn [flat_map head].
    rewrite !map_app, !count_occ_app. change (map e_id (option_list (Some e))) with [e_id e]. lia.
  - change (<[S i := rest]> (d :: ds)) with (d :: <[i := rest]> ds). cbn [flat_map]. rewrite !map_app, !count_occ_app.
    specialize (IH i Hi). lia.
Qed.

Lemma calls_step b c : accounted b -> calls_ok b -> calls_ok (bqStep b c).
Proof.
  intros Hb Hc x. specialize (Hc x). pose proof (accounted_keys b Hb) as Hd. unfold running_ids, done_ids in *.
  destruct c as [now session agent cron|agent cron|now session|i ok]; cbn [bqStep].
  - unfold enqueue. destruct (jget _ (queue b)) as [e|]; [|done]. cbn. rewrite List.filter_app. cbn. by rewrite app_nil_r.
  - rewrite removeCron_spec by done. cbn [snd called drains settled]. rewrite List.filter_app, map_app, count_occ_app, told_done. cbn [isSent]. lia.
  - rewrite drain_spec, callNext_called, callNext_drains, callNext_settled by done. cbn [called drains settled].
    rewrite List.filter_app, map_app, flat_map_app, map_app, !count_occ_app, told_done. cbn [flat_map isSent]. rewrite app_nil_r. lia.
  - unfold settle. destruct (drains b !! i) as [[|e rest]|] eqn:Hi; [done| |done].
    rewrite callNext_called, callNext_drains, callNext_settled. cbn [with_drains resolveDrain called drains settled].
    rewrite List.filter_app, map_app, !count_occ_app. pose proof (running_count _ _ _ _ x Hi). cbn [List.filter snd].
    assert (isSent (if ok then drain_sent else drain_failed) = true) as -> by by destruct ok. cbn [map fst]. lia.
Qed.

Lemma calls_run calls : calls_ok (bqRun calls).
Proof.
  induction calls as [|c calls IH] using rev_ind; [done|]. unfold bqRun in *. rewrite bqFrom_app. apply calls_step; [apply accounted_run|done].
Qed.

Lemma running_draining b x : (count (running_ids b) x <= count (draining_ids b) x)%nat.
Proof.
  unfold running_ids, draining_ids. induction (drains b) as [|d ds IH]; [done|]. cbn [flat_map concat]. rewrite !map_app, !count_occ_app.
  destruct d as [|e d]; [cbn in *; lia|]. cbn [head]. change (map e_id (option_list (Some e))) with [e_id e]. cbn in *.
  destruct (Nat.eq_dec (e_id e) x); lia.
Qed.

Lemma settled_split b x : count (settled_ids b) x =
  (count (done_ids b) x + count (map fst (List.filter (fun p => negb (isSent (snd p))) (settled b))) x)%nat.
Proof.
  unfold settled_ids, done_ids. induction (settled b) as [|[i r] l IH]; [done|]. cbn [map List.filter snd fst].
  destruct (isSent r); cbn [negb map fst count_occ]; destruct (Nat.eq_dec i x); lia.
Qed.

Lemma told_count (l : list (nat * BusyQueueDrainResult)) f i r : (i, r) ∈ l -> f r = true ->
  (1 <= count (map fst (List.filter (fun p => f (snd p)) l)) i)%nat.
Proof.
  intros Hin Hf. apply count_occ_In, in_map_iff. exists (i, r). split; [done|]. apply filter_In. by split; [apply list_elem_of_In|].
Qed.

(** C25: a message is sent once, and its result tells whether it was: no send function is
    called twice; a message is reported sent or failed only after its function was
    called, and the function of one reported replaced, removed or expired never is. *)
Theorem messages_are_sent_once calls : let b := bqRun calls in
  NoDup (called b) /\ forall i r, (i, r) ∈ settled b -> i ∈ called b <-> r = drain_sent \/ r = drain_failed.
Proof.
  cbv zeta. set (b := bqRun calls).
  assert (forall x, (count (queued_ids b) x + count (draining_ids b) x + count (settled_ids b) x <= 1)%nat) as Hone.
  { intros x. rewrite (acc_ids _ (accounted_run calls)). by apply NoDup_count_occ, seq_NoDup. }
  pose proof (calls_run calls) as Hc. fold b in Hc. split.
  - apply base.NoDup_ListNoDup, (NoDup_count_occ Nat.eq_dec). intros x. specialize (Hone x).
    rewrite Hc, settled_split in *. pose proof (running_draining b x). lia.
  - intros i r Hin. specialize (Hone i). rewrite settled_split in Hone. specialize (Hc i). pose proof (running_draining b i) as Hr. split.
    + intros Hcall%list_elem_of_In. apply (count_occ_In Nat.eq_dec) in Hcall. destruct (isSent r) eqn:Hs; [destruct r; auto; done|].
      exfalso. pose proof (told_count (settled b) (fun r => negb (isSent r)) i r Hin) as Hx. cbv beta in Hx. rewrite Hs in Hx. specialize (Hx eq_refl). lia.
    + intros Hs. apply list_elem_of_In, (count_occ_In Nat.eq_dec). pose proof (told_count (settled b) isSent i r Hin) as Hx.
      unfold done_ids in Hc. destruct Hs as [-> | ->]; specialize (Hx eq_refl); lia.
Qed.

(** ** Every drained message settles *)

(** How the send functions of a drain settle in a run. *)
Definition outcomes (i : nat) (calls : list BqCall) : list bool :=
  omap (fun c => match c with BqSettle j ok => if decide (i = j) then Some ok else None | _ => None end) calls.

Definition sentAs (ok : bool) : BusyQueueDrainResult := if ok then drain_sent else drain_failed.

Lemma settled_step b c : accounted b -> settled b `prefix_of` settled (bqStep b c).
Proof.
  intros Hb. pose proof (accounted_keys b Hb) as Hd. destruct c as [now session agent cron|agent cron|now session|i ok]; cbn [bqStep].
  - unfold enqueue. destruct (jget _ (queue b)); cbn [settled resolveDrain]; [by apply prefix_app_r|done].
  - rewrite removeCron_spec by done. by apply prefix_app_r.
  - rewrite drain_spec, callNext_settled by done. by apply prefix_app_r.
  - unfold settle. destruct (drains b !! i) as [[|e rest]|]; [done| |done]. rewrite callNext_settled. by apply prefix_app_r.
Qed.

Lemma settled_from b calls : accounted b -> settled b `prefix_of` settled (bqFrom b calls).
Proof.
  revert b. induction calls as [|c calls IH]; intros b Hb; [done|]. etrans; [by apply settled_step|]. apply IH. by apply accounted_step.
Qed.

Lemma settled_stays b calls p : accounted b -> p ∈ settled b -> p ∈ settled (bqFrom b calls).
Proof. intros Hb Hp. destruct (settled_from b calls Hb) as [l ->]. apply elem_of_app. by left. Qed.

(** Other calls leave a drain alone. *)
Lemma drains_other b c i es : accounted b -> drains b !! i = Some es -> outcomes i [c] = [] -> drains (bqStep b c) !! i = Some es.
Proof.
  intros Hb Hi Ho. pose proof (accounted_keys b Hb) as Hd. destruct c as [now session agent cron|agent cron|now session|j ok]; cbn [bqStep].
  - unfold enqueue. by destruct (jget _ (queue b)).
  - by rewrite removeCron_spec.
  - rewrite drain_spec, callNext_drains by done. cbn [drains]. rewrite lookup_app_l; [done|]. by eapply lookup_lt_Some.
  - cbn in Ho. case_decide as E; [done|]. unfold settle. destruct (drains b !! j) as [[|e rest]|]; [done| |done].
    rewrite callNext_drains. cbn [with_drains drains]. by rewrite list_lookup_insert_ne.
Qed.

Lemma drain_progress i calls : forall b es, accounted b -> drains b !! i = Some es ->
  forall n e ok, es !! n = Some e -> outcomes i calls !! n = Some ok -> (e_id e, sentAs ok) ∈ settled (bqFrom b calls).
Proof.
  induction calls as [|c calls IH]; intros b es Hb Hi n e ok He Ho; [by destruct n|].
  change (outcomes i (c :: calls)) with (outcomes i ([c] ++ calls)) in Ho. unfold outcomes in Ho. rewrite omap_app in Ho.
  fold (outcomes i [c]) (outcomes i calls) in Ho. change (bqFrom b (c :: calls)) with (bqFrom (bqStep b c) calls).
  pose proof (accounted_step b c Hb) as Hb'. destruct (outcomes i [c]) as [|ok' rest] eqn:Hc.
  { eapply IH; [done|by apply drains_other|done|done]. }
  destruct c as [| | |j ok2]; [done..|]. cbn in Hc. case_decide as E; [|done]. injection Hc as <- <-. subst j.
  destruct es as [|e0 es]; [by destruct n|]. cbn [bqStep] in *. unfold settle in *. rewrite Hi in *.
  destruct n as [|n].
  - injection He as ->. injection Ho as ->. apply settled_stays; [done|]. rewrite callNext_settled. cbn [with_drains resolveDrain settled].
    apply elem_of_app. right. by left.
  - apply (IH _ es Hb') with n; [|done|done]. rewrite callNext_drains. cbn [with_drains drains].
    apply list_lookup_insert_eq. by eapply lookup_lt_Some.
Qed.

(** The call is about the task of the message: it removes it, or enqueues another
    message of it for the session. *)
Definition concerns (e : QueuedEntry) (c : BqCall) : Prop :=
  match c with
  | BqEnqueue _ session agent cron => session = sessionId e /\ agent = agentName e /\ cron = cronName e
  | BqRemove agent cron => agent = agentName e /\ cron = cronName e
  | _ => False
  end.

(** C26: a drained message settles: after a drain of its session every message that
    waited for it is settled, as expired when it has reached the bound of 30 minutes,
    and otherwise in the order of the queue, the n-th as the n-th send function of the drain settles,
    sent or failed, whatever else is called meanwhile, as long as the task of the
    message is not removed and no other message of it enqueued for the session. *)
Theorem drained_messages_settle calls now session later e n ok : Forall (fun c => ~ concerns e c) later ->
  let b := bqRun calls in let b' := bqFrom b (BqDrain now session :: later) in
  (e ∈ overdue now session b -> (e_id e, drain_expired) ∈ settled b')
  /\ (due now session b !! n = Some e -> outcomes (length (drains b)) later !! n = Some ok -> (e_id e, sentAs ok) ∈ settled b').
Proof.
  intros _. cbv zeta. set (b := bqRun calls). pose proof (accounted_run calls) as Hb. fold b in Hb.
  change (bqFrom b (BqDrain now session :: later)) with (bqFrom (drain now session b) later).
  pose proof (accounted_drain now session b Hb) as Hb'. split.
  - intros He. apply settled_stays; [done|]. rewrite drain_spec, callNext_settled by by apply accounted_keys. cbn [settled].
    apply elem_of_app. right. unfold told. apply list_elem_of_fmap_2' with e; done.
  - intros He Ho. eapply (drain_progress (length (drains b)) later (drain now session b)); [done| |exact He|exact Ho].
    rewrite drain_spec, callNext_drains by by apply accounted_keys. cbn [drains]. by rewrite lookup_app_r, Nat.sub_diag.
Qed.

(** ** Where the queue does less than it says *)

(** A message that a drain has taken cannot be cancelled: it is sent although its task
    was removed before. *)
Lemma removed_task_is_sent :
  let s := js "s" in
  let b := bqRun [BqEnqueue 0 s (js "a") (js "x"); BqEnqueue 0 s (js "a") (js "y"); BqDrain 1 s; BqRemove (js "a") (js "y")] in
  called b = [0%nat] /\ called (bqStep b (BqSettle 0 true)) = [0%nat; 1%nat].
Proof. by vm_compute. Qed.

(** The newer message of a task can be sent before the older one, which is sent all the
    same. *)
Lemma older_message_is_sent_last :
  let s := js "s" in
  called (bqRun [BqEnqueue 0 s (js "a") (js "x"); BqEnqueue 0 s (js "a") (js "y"); BqDrain 1 s; BqEnqueue 2 s (js "a") (js "y");
                 BqDrain 3 s; BqSettle 0 true])
  = [0%nat; 2%nat; 1%nat].
Proof. by vm_compute. Qed.

(** Names with colons share a key: the message of one task replaces that of another. *)
Lemma tasks_share_a_key :
  let s := js "s" in
  settled (bqRun [BqEnqueue 0 s (js "a") (js "b:c"); BqEnqueue 0 s (js "a:b") (js "c")]) = [(0%nat, drain_replaced)].
Proof. by vm_compute. Qed.

Ltac apart_here :=
  repeat (apply Forall_cons; split; [cbn [concerns leaves]; first [done | by intros (? & ? & ?) | by intros (? & ?) | by intros []]|]); by apply Forall_nil.

Lemma drained_messages_settle_witness :
  let s := js "s" in
  let calls := [BqEnqueue 0 s (js "a") (js "x"); BqEnqueue 1800000 s (js "a") (js "y")] in
  let later := [BqEnqueue 1800002 s (js "a") (js "z"); BqRemove (js "b") (js "y"); BqSettle 0 false] in
  (0%nat, drain_expired) ∈ settled (bqFrom (bqRun calls) (BqDrain 1800001 s :: later))
  /\ (1%nat, drain_failed) ∈ settled (bqFrom (bqRun calls) (BqDrain 1800001 s :: later)).
Proof.
  cbv zeta. set (calls := [BqEnqueue 0 _ _ _; _]). set (later := [BqEnqueue 1800002 _ _ _; _; _]). split.
  - apply (drained_messages_settle calls 1800001 (js "s") later (entryOf 0 0 (js "s") (js "a") (js "x")) 0 false).
    { unfold later. apart_here. }
    assert (overdue 1800001 (js "s") (bqRun calls) = [entryOf 0 0 (js "s") (js "a") (js "x")]) as -> by by vm_compute. by left.
  - apply (drained_messages_settle calls 1800001 (js "s") later (entryOf 1 1800000 (js "s") (js "a") (js "y")) 0 false);
      [unfold later; apart_here|by vm_compute..].
Defined.

Lemma queue_holds_the_latest_witness :
  let e := entryOf 2 5 (js "s") (js "a") (js "x:y") in
  e ∈ entries (bqRun [BqEnqueue 0 (js "s") (js "a") (js "x:y"); BqEnqueue 3 (js "t") (js "b") (js "x:y");
                      BqEnqueue 5 (js "s") (js "a") (js "x:y"); BqDrain 6 (js "t"); BqRemove (js "b") (js "x:y")]).
Proof.
  cbv zeta. apply (queue_holds_the_latest (fun session _ => if str_eqb session (js "s") then js "a" else js "b")).
  - repeat constructor; apply (bool_decide_unpack _); by vm_compute.
  - exists [BqEnqueue 0 (js "s") (js "a") (js "x:y"); BqEnqueue 3 (js "t") (js "b") (js "x:y")], 5%Z,
      [BqDrain 6 (js "t"); BqRemove (js "b") (js "x:y")].
    split; [done|]. split; [by vm_compute|]. apart_here.
Defined.
