(* ===== verification/CronTasks.v ===== *)
(** * Sessions and hours of cron tasks

    [packages/agent-modules/cron/src]: [active-hours.ts], and from [executor.ts] the
    retention of sessions and their deletion with a task or as orphans, with the
    purposes of [packages/shared/src/cron-purpose.ts].  The stores are read once for a
    session, as the code does; what they answer is an argument. *)
From S2P Require Import Prelude ShellTokenize ShellSplit BashAst.

(** ** Active hours *)
Record Time := { hours : Z; minutes : Z }.

Definition digit (c : jchar) : Z := Z.of_N c - 48.

(** [parseTime]; [None] for what [ActiveHoursSchema] refuses. *)
Definition parseTime (timeStr : jstr) : option Time :=
  match timeStr with
  | [a; b; c; d; e] =>
      if isDigit a && isDigit b && (c =? ch ":")%N && isDigit d && isDigit e
      then Some {| hours := 10 * digit a + digit b; minutes := 10 * digit d + digit e |}
      else None
  | _ => None
  end.

Definition timeToMinutes (t : Time) : Z := hours t * 60 + minutes t.

Record ActiveHoursConfig := { ah_start : Time; ah_end : Time }.

(** The clock of the time zone is read to [now]. *)
Definition isWithinActiveHours (activeHours : option ActiveHoursConfig) (now : Time) : bool :=
  match activeHours with
  | None => true
  | Some window =>
      let current := timeToMinutes now in
      let start := timeToMinutes (ah_start window) in
      let stop := timeToMinutes (ah_end window) in
      if (start <=? stop)%Z then (start <=? current)%Z && (current <? stop)%Z
      else (start <=? current)%Z || (current <? stop)%Z
  end.

(** ** Purposes *)
Definition MEMORY_CLEANUP_CRON_NAME : jstr := js "memory-cleanup".
Definition CRON_SESSION_PURPOSE_PREFIX : jstr := js "cron:".

Definition createCronSessionPurpose (agent cron : jstr) : jstr := CRON_SESSION_PURPOSE_PREFIX ++ agent ++ js ":" ++ cron.

Definition parseCronSessionPurpose (purpose : option jstr) : option (jstr * jstr) :=
  match purpose with
  | None => None
  | Some purpose =>
      if negb (startsWith purpose CRON_SESSION_PURPOSE_PREFIX) then None
      else match split (drop (length CRON_SESSION_PURPOSE_PREFIX) purpose) (js ":") with
           | agentName :: part :: rest =>
               let cronName := join (js ":") (part :: rest) in
               if truthy agentName && truthy cronName then Some (agentName, cronName) else None
           | _ => None
           end
  end.

Definition taskKey (agent cron : jstr) : jstr := agent ++ js ":" ++ cron.

(** ** Sessions *)
Inductive CronSessionType := Branch | Root.

Record CronSessionInfo := {
  s_sessionId : jstr;
  sessionType : CronSessionType;
  compressed : bool;
  started : bool;
  purpose : option jstr;
}.

Record CronSessionRecord := { r_sessionId : jstr; createdAt : Z }.

Definition DEFAULT_KEEP_SESSIONS : option nat := None.

(** [keepSessions] is absent, null or a number. *)
Inductive SessionConfig :=
  | mode_root
  | mode_sessionId (session : jstr)
  | mode_new (keepSessions : option (option nat)).

Inductive Kind := missing | isCompressed | isStarted | isRoot | visible.
#[export] Instance Kind_eq_dec : EqDecision Kind.
Proof. solve_decision. Defined.

(** ** Retention *)
Section Retention.

(** [None]: the read is rejected; [Some None]: there is no session. *)
Variable getSession : jstr -> option (option CronSessionInfo).

(** Whether archiving the record at the index succeeds. *)
Variable archives : nat -> bool.

Definition inspect (record : CronSessionRecord) : Kind :=
  match getSession (r_sessionId record) with
  | None | Some None => missing
  | Some (Some session) =>
      match sessionType session with
      | Root => isRoot
      | Branch => if compressed session then isCompressed else if started session then isStarted else visible
      end
  end.

Definition isVisible (record : CronSessionRecord) : bool := bool_decide (inspect record = visible).

Fixpoint visible_loop (i : nat) (records : list CronSessionRecord) : list nat :=
  match records with
  | [] => []
  | record :: rest => if isVisible record then i :: visible_loop (S i) rest else visible_loop (S i) rest
  end.
Definition visibleIndexes : list CronSessionRecord -> list nat := visible_loop 0.

Definition archiveSet (effectiveKeep : option nat) (records : list CronSessionRecord) : list nat :=
  match effectiveKeep with
  | None => []
  | Some keepCount => take (length (visibleIndexes records) - keepCount) (visibleIndexes records)
  end.

(** What the pass over the records leaves. *)
Record Pass := { next : list CronSessionRecord; archived : nat; compacted : nat; attempts : list jstr }.

Definition passStep (toArchive : list nat) (i : nat) (record : CronSessionRecord) (p : Pass) : Pass :=
  let keep := {| next := next p ++ [record]; archived := archived p; compacted := compacted p; attempts := attempts p |} in
  match inspect record with
  | isStarted | isRoot => keep
  | missing | isCompressed => {| next := next p; archived := archived p; compacted := S (compacted p); attempts := attempts p |}
  | visible =>
      if bool_decide (i ∈ toArchive) then
        let tried := attempts p ++ [r_sessionId record] in
        if archives i then {| next := next p; archived := S (archived p); compacted := compacted p; attempts := tried |}
        else {| next := next p ++ [record]; archived := archived p; compacted := compacted p; attempts := tried |}
      else keep
  end.

Fixpoint pass_loop (toArchive : list nat) (i : nat) (records : list CronSessionRecord) (p : Pass) : Pass :=
  match records with
  | [] => p
  | record :: rest => pass_loop toArchive (S i) rest (passStep toArchive i record p)
  end.
Definition pass (toArchive : list nat) (records : list CronSessionRecord) : Pass :=
  pass_loop toArchive 0 records {| next := []; archived := 0; compacted := 0; attempts := [] |}.

(** The sessions archived, or tried to, and the history written, if any. *)
Definition cleanupCronSessionsLocked (config : option SessionConfig) (records : list CronSessionRecord) :
    list jstr * option (list CronSessionRecord) :=
  match config with
  | Some (mode_new keepSessions) =>
      match records with
      | [] => ([], None)
      | _ =>
          let effectiveKeep := match keepSessions with None => DEFAULT_KEEP_SESSIONS | Some keep => keep end in
          let p := pass (archiveSet effectiveKeep records) records in
          let changed := (0 <? archived p)%nat || (0 <? compacted p)%nat || negb (length (next p) =? length records)%nat in
          (attempts p, if changed then Some (next p) else None)
      end
  | _ => ([], None)
  end.
End Retention.

(** ** Deletion *)
Section Deletion.

(** [None]: the read throws; [Some None]: there is no session. *)
Variable getSession : jstr -> option (option CronSessionInfo).

(** The deletions asked for: each goes on whatever becomes of the one before. *)
Definition trackedStep (expectedPurpose : jstr) (acc : list jstr * list jstr) (record : CronSessionRecord) : list jstr * list jstr :=
  let '(seen, deleted) := acc in
  let id := r_sessionId record in
  if bool_decide (id ∈ seen) then (seen, deleted)
  else (seen ++ [id],
        match getSession id with
        | Some (Some session) =>
            match sessionType session with
            | Root => deleted
            | Branch => if bool_decide (purpose session = Some expectedPurpose) then deleted ++ [id] else deleted
            end
        | _ => deleted
        end).

Definition orphanOf (expectedPurpose : jstr) (seen : list jstr) (orphan : CronSessionInfo) : bool :=
  negb (bool_decide (s_sessionId orphan ∈ seen))
  && match sessionType orphan with Root => false | Branch => true end
  && bool_decide (purpose orphan = Some expectedPurpose).

(** [orphans] is what [listByPurposePrefix] answers; [None] without it, or when it throws. *)
Definition cleanupSessionsOnDelete (agent cron : jstr) (records : list CronSessionRecord) (orphans : option (list CronSessionInfo)) : list jstr :=
  let expectedPurpose := createCronSessionPurpose agent cron in
  let '(seen, deleted) := fold_left (trackedStep expectedPurpose) records ([], []) in
  deleted ++ map s_sessionId (List.filter (orphanOf expectedPurpose seen) (default [] orphans)).
End Deletion.

Definition isOrphan (aliveTaskKeys : list jstr) (session : CronSessionInfo) : bool :=
  match sessionType session with
  | Root => false
  | Branch =>
      match parseCronSessionPurpose (purpose session) with
      | None => false
      | Some (agentName, cronName) =>
          negb (str_eqb cronName MEMORY_CLEANUP_CRON_NAME) && negb (mem (taskKey agentName cronName) aliveTaskKeys)
      end
  end.

Definition cleanupOrphanCronSessions (aliveTaskKeys : list jstr) (sessions : option (list CronSessionInfo)) : list jstr :=
  map s_sessionId (List.filter (isOrphan aliveTaskKeys) (default [] sessions)).

(** ** The newest sessions are kept *)
Section Newest.
Variable getSession : jstr -> option (option CronSessionInfo).
Variable archives : nat -> bool.
Notation inspect := (inspect getSession).
Notation isVisible := (isVisible getSession).

Definition newer (records : list CronSessionRecord) : nat := length (List.filter isVisible records).

(** A session is kept when fewer than so many visible ones are newer. *)
Definition worthKeeping (keep : option nat) (n : nat) : bool := match keep with None => true | Some k => (n <? k)%nat end.

(** What the pass keeps: running and root sessions, and visible ones that are worth
    keeping or could not be archived. *)
Fixpoint kept (keep : option nat) (i : nat) (records : list CronSessionRecord) : list CronSessionRecord :=
  match records with
  | [] => []
  | record :: rest =>
      let stays := match inspect record with
                   | missing | isCompressed => false
                   | isStarted | isRoot => true
                   | visible => worthKeeping keep (newer rest) || negb (archives i)
                   end in
      if stays then record :: kept keep (S i) rest else kept keep (S i) rest
  end.

(** The history to be, by what is known of the sessions: a session of which nothing is
    known stays. *)
Fixpoint retained (keep : option nat) (i : nat) (records : list CronSessionRecord) : list CronSessionRecord :=
  match records with
  | [] => []
  | record :: rest =>
      let stays := match getSession (r_sessionId record) with
                   | None => true
                   | Some None => false
                   | Some (Some session) =>
                       match sessionType session with
                       | Root => true
                       | Branch => negb (compressed session)
                                   && (started session || worthKeeping keep (newer rest) || negb (archives i))
                       end
                   end in
      if stays then record :: retained keep (S i) rest else retained keep (S i) rest
  end.

Lemma kept_retained keep records : (forall r, r ∈ records -> getSession (r_sessionId r) <> None) ->
  forall i, kept keep i records = retained keep i records.
Proof.
  induction records as [|r rest IH]; intros Hr i; [done|]. cbn [kept retained]. cbv zeta.
  rewrite (IH ltac:(intros q Hq; apply Hr; by right)). specialize (Hr r ltac:(by left)). unfold CronTasks.inspect.
  destruct (getSession (r_sessionId r)) as [[q|]|]; [|done..].
  by destruct (sessionType q), (compressed q), (started q), (worthKeeping keep (newer rest)).
Qed.

(** The sessions to archive. *)
Fixpoint excess (keep : option nat) (records : list CronSessionRecord) : list jstr :=
  match records with
  | [] => []
  | record :: rest =>
      if isVisible record && negb (worthKeeping keep (newer rest)) then r_sessionId record :: excess keep rest else excess keep rest
  end.

Lemma visible_from records : forall s, Forall (fun i => s <= i) (visible_loop getSession s records).
Proof.
  induction records as [|r rest IH]; intros s; cbn [visible_loop]; [constructor|]. specialize (IH (S s)).
  assert (Forall (fun i => s <= i) (visible_loop getSession (S s) rest)) by (eapply Forall_impl; [exact IH|]; cbn; lia).
  destruct (isVisible r); [by constructor|done].
Qed.

Lemma visible_length records : forall s, length (visible_loop getSession s records) = newer records.
Proof.
  unfold newer. induction records as [|r rest IH]; intros s; [done|]. cbn [visible_loop List.filter].
  destruct (isVisible r); cbn; by rewrite IH.
Qed.

(** The record at the front is archived exactly when it is visible and in excess. *)
Lemma front_archived k s r rest :
  bool_decide (s ∈ take (newer (r :: rest) - k) (visible_loop getSession s (r :: rest)))
  = isVisible r && negb (newer rest <? k)%nat.
Proof.
  unfold newer. cbn [visible_loop List.filter]. destruct (isVisible r); cbn [length andb].
  - destruct (Nat.ltb_spec (length (List.filter isVisible rest)) k) as [Hlt|Hge]; cbn [negb].
    + apply bool_decide_eq_false. replace (S _ - k) with 0 by lia. apply not_elem_of_nil.
    + apply bool_decide_eq_true. replace (S _ - k) with (S (length (List.filter isVisible rest) - k)) by lia. by left.
  - apply bool_decide_eq_false. intros Hin. pose proof (visible_from rest (S s)) as Hf. rewrite Forall_forall in Hf.
    assert (S s <= s); [|lia]. apply Hf. rewrite <- (take_drop (length (List.filter isVisible rest) - k)). apply elem_of_app. by left.
Qed.

(** Behind the front the same records are archived as without it. *)
Lemma rest_archived k s r rest i : S s <= i ->
  bool_decide (i ∈ take (newer (r :: rest) - k) (visible_loop getSession s (r :: rest)))
  = bool_decide (i ∈ take (newer rest - k) (visible_loop getSession (S s) rest)).
Proof.
  intros Hi. apply bool_decide_ext. unfold newer. cbn [visible_loop List.filter]. destruct (isVisible r); [|done]. cbn [length].
  destruct (decide (k <= length (List.filter isVisible rest))).
  - replace (S _ - k) with (S (length (List.filter isVisible rest) - k)) by lia. cbn [take]. rewrite elem_of_cons.
    split; [intros [-> |?]; [lia|done]|by right].
  - replace (S _ - k) with 0 by lia. replace (length _ - k) with 0 by lia. done.
Qed.

Definition inSet (keep : option nat) (i : nat) (records : list CronSessionRecord) : list nat :=
  match keep with None => [] | Some k => take (newer records - k) (visible_loop getSession i records) end.

Lemma inSet_front keep s r rest : bool_decide (s ∈ inSet keep s (r :: rest)) = isVisible r && negb (worthKeeping keep (newer rest)).
Proof.
  destruct keep as [k|]; [apply front_archived|]. cbn [worthKeeping negb]. rewrite andb_false_r. apply bool_decide_eq_false, not_elem_of_nil.
Qed.

Lemma inSet_rest keep s r rest i : S s <= i -> bool_decide (i ∈ inSet keep s (r :: rest)) = bool_decide (i ∈ inSet keep (S s) rest).
Proof. destruct keep as [k|]; [apply rest_archived|done]. Qed.

Lemma pass_same toArchive toArchive' records : forall i p,
  (forall j, i <= j -> bool_decide (j ∈ toArchive) = bool_decide (j ∈ toArchive')) ->
  pass_loop getSession archives toArchive i records p = pass_loop getSession archives toArchive' i records p.
Proof.
  induction records as [|r rest IH]; intros i p Hs; [done|]. cbn [pass_loop]. rewrite (IH (S i)) by (intros j ?; apply Hs; lia).
  f_equal. unfold passStep. by rewrite (Hs i).
Qed.

(** What the pass adds. *)
Lemma pass_adds keep records : forall i p,
  let q := pass_loop getSession archives (inSet keep i records) i records p in
  next q = next p ++ kept keep i records /\ attempts q = attempts p ++ excess keep records
  /\ (archived q + compacted q + length (next q) = archived p + compacted p + length (next p) + length records)%nat.
Proof.
  induction records as [|r rest IH]; intros i p; cbv zeta.
  { cbn [pass_loop kept excess]. rewrite !app_nil_r. cbn. split; [done|]. split; [done|lia]. }
  cbn [pass_loop]. rewrite (pass_same _ (inSet keep (S i) rest)) by (intros j ?; by apply inSet_rest).
  specialize (IH (S i) (passStep getSession archives (inSet keep i (r :: rest)) i r p)). cbv zeta in IH. destruct IH as (-> & -> & Hc).
  rewrite Hc. unfold passStep. rewrite inSet_front. cbn [kept excess]. unfold isVisible. destruct (inspect r); cbn -[worthKeeping newer];
    rewrite ?length_app; cbn [length]; try (split; [by rewrite <- ?app_assoc|]; split; [done|lia]).
  change (bool_decide (visible = visible)) with true. destruct (worthKeeping keep (newer rest)), (archives i);
    cbn [andb orb negb next archived compacted attempts]; rewrite ?length_app; cbn [length];
    (split; [by rewrite <- ?app_assoc|]; split; [by rewrite <- ?app_assoc|lia]).
Qed.
End Newest.

Lemma kept_sublist getSession archives keep records : forall i, kept getSession archives keep i records `sublist_of` records.
Proof.
  induction records as [|r rest IH]; intros i; [constructor|]. cbn [kept]. cbv zeta.
  match goal with |- context [if ?b then _ :: _ else _] => destruct b end; by constructor.
Qed.

Lemma sublist_full {A} (l1 l2 : list A) : l1 `sublist_of` l2 -> length l1 = length l2 -> l1 = l2.
Proof.
  induction 1 as [|x l1 l2 _ IH|x l1 l2 Hs _]; cbn; [done|intros [= ?]; by rewrite IH|].
  intros Hl. apply sublist_length in Hs. lia.
Qed.

(** C32: retention keeps the newest sessions: of a task that runs in new sessions and
    says how many to keep, or to keep all, with its history kept oldest first, the
    sessions to archive are the visible ones (neither running, compressed nor root)
    with at least as many newer visible ones as are to be kept, the oldest first; the
    history afterwards is, in order, without the sessions that are gone or compressed
    and those that could be archived; running sessions and root sessions stay and are
    not counted; provided that no read of a session of the history is rejected.
    Nothing is done for tasks that run elsewhere. *)
Theorem retention_keeps_the_newest getSession archives config records :
  (forall r, r ∈ records -> getSession (r_sessionId r) <> None) ->
  let result := cleanupCronSessionsLocked getSession archives config records in
  match config with
  | Some (mode_new (Some keep)) =>
      fst result = excess getSession keep records
      /\ default records (snd result) = retained getSession archives keep 0 records
  | Some (mode_new None) => True
  | _ => result = ([], None)
  end.
Proof.
  intros Hread. cbv zeta. destruct config as [[|session|[keep|]]|]; [done..| |done|done].
  unfold cleanupCronSessionsLocked. rewrite <- kept_retained by done. destruct records as [|r rest]; [done|].
  set (records := r :: rest). cbv zeta.
  assert (archiveSet getSession keep records = inSet getSession keep 0 records) as ->.
  { unfold archiveSet, inSet, visibleIndexes. destruct keep; [|done]. by rewrite visible_length. }
  destruct (pass_adds getSession archives keep records 0 {| next := []; archived := 0; compacted := 0; attempts := [] |})
    as (Hn & Ha & Hc). fold (pass getSession archives (inSet getSession keep 0 records) records) in *.
  set (p := pass _ _ _ _) in *. cbn [fst snd]. split; [exact Ha|]. cbn [app next archived compacted length] in *.
  destruct (_ || _ || _) eqn:Hch; cbn [default from_option id]; [exact Hn|]. rewrite !orb_false_iff, negb_false_iff in Hch.
  destruct Hch as (_ & Hlen). apply Nat.eqb_eq in Hlen. rewrite Hn in Hlen.
  symmetry. apply sublist_full; [apply kept_sublist|exact Hlen].
Qed.

(** Five sessions, one gone and one running; two are to be kept. *)
Definition sampleSession (id : jstr) : option (option CronSessionInfo) :=
  let info running := Some (Some {| s_sessionId := id; sessionType := Branch; compressed := false; started := running; purpose := None |}) in
  if str_eqb id (js "c") then Some None else info (str_eqb id (js "d")).
Definition sampleHistory : list CronSessionRecord :=
  map (fun id => {| r_sessionId := js id; createdAt := 0 |}) ["a"; "b"; "c"; "d"; "e"; "f"]%string.

Lemma retention_keeps_the_newest_witness :
  let result := cleanupCronSessionsLocked sampleSession (fun i => bool_decide (i = 0)) (Some (mode_new (Some (Some 2)))) sampleHistory in
  fst result = [js "a"; js "b"] /\ map r_sessionId (default sampleHistory (snd result)) = [js "b"; js "d"; js "e"; js "f"].
Proof.
  cbv zeta. destruct (retention_keeps_the_newest sampleSession (fun i => bool_decide (i = 0)) (Some (mode_new (Some (Some 2)))) sampleHistory)
    as [-> ->]; [|by vm_compute].
  intros r Hr. assert (forallb (fun r => match sampleSession (r_sessionId r) with None => false | _ => true end) sampleHistory = true) as Hall
    by by vm_compute.
  rewrite forallb_forall in Hall. apply list_elem_of_In, Hall in Hr. by destruct (sampleSession (r_sessionId r)).
Defined.

(** A rejected read is taken for a session that is gone: the entry is dropped. *)
Lemma rejected_read_drops_the_entry :
  snd (cleanupCronSessionsLocked (fun _ => None) (fun _ => true) (Some (mode_new (Some (Some 2)))) sampleHistory) = Some [].
Proof. by vm_compute. Qed.

(** Without a number nothing is archived. *)
Lemma omitted_number_keeps_all :
  cleanupCronSessionsLocked (fun id => Some (default None (sampleSession id))) (fun _ => true) (Some (mode_new None)) (drop 3 sampleHistory)
  = ([], None).
Proof. by vm_compute. Qed.

(** ** Only the sessions of the task are deleted *)
Lemma tracked_loop getSession expected records : forall seen deleted,
  let '(seen', deleted') := fold_left (trackedStep getSession expected) records (seen, deleted) in
  (forall id, id ∈ seen' <-> id ∈ seen \/ id ∈ map r_sessionId records)
  /\ (forall id, id ∈ deleted' <-> id ∈ deleted \/ id ∉ seen /\ id ∈ map r_sessionId records
      /\ exists s, getSession id = Some (Some s) /\ sessionType s = Branch /\ purpose s = Some expected).
Proof.
  induction records as [|r rest IH]; intros seen deleted; cbn [fold_left map].
  { split; intros id; [set_solver|]. split; [by left|]. intros [?|(_ & ?%elem_of_nil & _)]; done. }
  cbn [trackedStep]. cbv zeta. case_bool_decide as Hin.
  - specialize (IH seen deleted). destruct (fold_left _ rest _) as [seen' deleted']. destruct IH as [Hs Hd]. split; intros id.
    + rewrite Hs, elem_of_cons. set_solver.
    + rewrite Hd, elem_of_cons. split; [intros [?|(? & ? & ?)]; auto|]. intros [?|(Hn & [->|?] & ?)]; [by left|done|auto].
  - set (id0 := r_sessionId r) in *.
    set (deleted0 := match getSession id0 with Some (Some s) => _ | _ => _ end).
    assert (forall id, id ∈ deleted0 <-> id ∈ deleted \/ id = id0
      /\ exists s, getSession id = Some (Some s) /\ sessionType s = Branch /\ purpose s = Some expected) as H0.
    { intros id. unfold deleted0. destruct (getSession id0) as [[s|]|] eqn:Hg.
      - destruct (sessionType s) eqn:Ht; [case_bool_decide as Hp|].
        + rewrite elem_of_app, list_elem_of_singleton. split; [intros [?| ->]; [by left|right; split; [done|by exists s]]|].
          intros [?|[-> _]]; [by left|by right].
        + split; [by left|]. intros [?|[-> (s' & E & _ & ?)]]; [done|]. rewrite Hg in E. by simplify_eq.
        + split; [by left|]. intros [?|[-> (s' & E & ? & _)]]; [done|]. rewrite Hg in E. simplify_eq. congruence.
      - split; [by left|]. intros [?|[-> (s & E & _)]]; [done|]. by rewrite Hg in E.
      - split; [by left|]. intros [?|[-> (s & E & _)]]; [done|]. by rewrite Hg in E. }
    specialize (IH (seen ++ [id0]) deleted0). destruct (fold_left _ rest _) as [seen' deleted']. destruct IH as [Hs Hd]. split; intros id.
    + rewrite Hs, elem_of_cons, elem_of_app, list_elem_of_singleton. tauto.
    + rewrite Hd, H0, elem_of_cons, not_elem_of_app, list_elem_of_singleton. split.
      * intros [[?|[-> ?]]|([? ?] & ? & ?)]; auto.
      * intros [?|(Hn & Hm & Hx)]; [auto|]. destruct (decide (id = id0)) as [->|Hne]; [auto|]. destruct Hm as [?|?]; [done|auto].
Qed.

(** only the sessions of a task are deleted with it: a session is deleted exactly
    when it is recorded in the history of the task, or else found by its purpose, and
    it is no root session and its purpose is exactly that of the task, not one that
    begins like it. *)
Theorem only_own_sessions_are_deleted getSession agent cron records orphans id :
  id ∈ cleanupSessionsOnDelete getSession agent cron records orphans <->
  (exists s, sessionType s = Branch /\ purpose s = Some (createCronSessionPurpose agent cron)
     /\ (id ∈ map r_sessionId records /\ getSession id = Some (Some s)
         \/ id ∉ map r_sessionId records /\ s_sessionId s = id /\ s ∈ default [] orphans)).
Proof.
  unfold cleanupSessionsOnDelete. pose proof (tracked_loop getSession (createCronSessionPurpose agent cron) records [] []) as Hl.
  destruct (fold_left _ records _) as [seen deleted]. destruct Hl as [Hs Hd]. rewrite elem_of_app, Hd. split.
  - intros [[?%elem_of_nil|(_ & ? & s & ? & ? & ?)]|Hm]; [done|exists s; by auto|].
    apply list_elem_of_In, in_map_iff in Hm as (s & Hid & [Ho Hf]%filter_In). unfold orphanOf in Hf. exists s.
    destruct (sessionType s) eqn:Ht; [|by rewrite andb_false_r in Hf]. reflect_bools.
    match goal with Hn : s_sessionId s ∉ seen |- _ => rewrite Hs, Hid in Hn end. split; [done|]. split; [done|]. right.
    split; [tauto|]. split; [done|]. by apply list_elem_of_In.
  - intros (s & Ht & Hp & [[Hin Hg]|(Hn & Hid & Ho)]).
    + left. right. split; [apply not_elem_of_nil|]. split; [done|]. by exists s.
    + right. apply list_elem_of_In, in_map_iff. exists s. split; [done|]. apply filter_In. split; [by apply list_elem_of_In|].
      unfold orphanOf. rewrite Ht, Hp, (bool_decide_eq_true_2 (Some _ = Some _)) by done. rewrite !andb_true_r. apply negb_true_iff, bool_decide_eq_false.
      rewrite Hs, Hid. intros [?%elem_of_nil|?]; done.
Qed.

(** ** Orphans *)
Definition colon : jchar := ch ":".

Lemma join_split (c : jchar) s : forall cur, join [c] (split_go (S (length s)) [c] cur s) = cur ++ s.
Proof.
  induction s as [|d s IH]; intros cur; [by rewrite app_nil_r|]. cbn [length]. rewrite split_go_unit. destruct (N.eqb_spec d c) as [->|_].
  - specialize (IH []). destruct (split_go (S (length s)) [c] [] s) as [|p ps] eqn:E; [by apply split_go_some in E|].
    change (join [c] (cur :: p :: ps)) with (cur ++ c :: join [c] (p :: ps)). by rewrite IH.
  - rewrite IH. by rewrite <- app_assoc.
Qed.

Lemma split_head c s : exists x rest, split s [c] = x :: rest /\ c ∉ x.
Proof.
  destruct (decide (c ∈ s)) as [Hin|Hn]; [|exists s, []; by rewrite split_none].
  apply list_elem_of_split in Hin as (a & b & ->). revert b. induction a as [a IH] using (induction_ltof1 _ (@length jchar)); intros b.
  destruct (decide (c ∈ a)) as [Hin|Hn]; [|exists a, (split b [c]); by rewrite split_first].
  apply list_elem_of_split in Hin as (a1 & a2 & ->). destruct (IH a1) with (b := a2 ++ c :: b) as (x & rest & E & Hx).
  { unfold ltof. rewrite length_app. cbn. lia. }
  exists x, rest. by rewrite <- app_assoc.
Qed.

(** The purposes that are read are those written for names that are not empty, the
    agent's without a colon. *)
Lemma parse_purpose p a c : parseCronSessionPurpose (Some p) = Some (a, c) <->
  p = createCronSessionPurpose a c /\ colon ∉ a /\ a <> [] /\ c <> [].
Proof.
  unfold parseCronSessionPurpose, createCronSessionPurpose. split.
  - destruct (startsWith p CRON_SESSION_PURPOSE_PREFIX) eqn:Hp; [|done]. apply startsWith_prefix in Hp as [s ->]. cbn [negb].
    rewrite drop_app_length. destruct (split_head colon s) as (x & rest & E & Hx). change (js ":") with [colon]. rewrite E.
    destruct rest as [|y rest]; [done|]. destruct (truthy x) eqn:Hx1, (truthy (join [colon] (y :: rest))) eqn:Hc; try done.
    assert (join [colon] (y :: rest) <> []) as Hnc by (intros Hj; by rewrite Hj in Hc).
    cbn [andb]. intros [= <- <-]. split.
    + f_equal. pose proof (join_split colon s []) as Hj. fold (split s [colon]) in Hj. rewrite E in Hj. exact (eq_sym Hj).
    + split; [done|]. split; [by destruct x|exact Hnc].
  - intros (-> & Ha & Hna & Hnc).
    assert (startsWith (CRON_SESSION_PURPOSE_PREFIX ++ a ++ js ":" ++ c) CRON_SESSION_PURPOSE_PREFIX = true) as ->.
    { apply startsWith_prefix. by eexists. }
    cbn [negb]. rewrite drop_app_length. change (a ++ js ":" ++ c) with (a ++ colon :: c). change (js ":") with [colon].
    rewrite split_first by done. pose proof (join_split colon c []) as Hj. fold (split c [colon]) in Hj.
    destruct (split c [colon]) as [|y rest] eqn:E; [by apply split_some in E|]. rewrite Hj. by destruct a, c.
Qed.

(** orphans have no task: a session is deleted as an orphan exactly when it is no
    root session, its purpose names a task, not the memory cleanup, and there is no
    such task; the key of the task is what stands in the purpose, so that no session
    of a living task is taken for one of another, whatever colons the names have. *)
Theorem orphans_have_no_task alive sessions id :
  id ∈ cleanupOrphanCronSessions alive sessions <->
  exists s agent cron, s ∈ default [] sessions /\ s_sessionId s = id /\ sessionType s = Branch
    /\ purpose s = Some (createCronSessionPurpose agent cron) /\ colon ∉ agent /\ agent <> [] /\ cron <> []
    /\ cron <> MEMORY_CLEANUP_CRON_NAME
    /\ forall agent' cron', createCronSessionPurpose agent' cron' = createCronSessionPurpose agent cron -> taskKey agent' cron' ∉ alive.
Proof.
  unfold cleanupOrphanCronSessions. rewrite list_elem_of_In, in_map_iff. split.
  - intros (s & Hid & [Hs Ho]%filter_In). unfold isOrphan in Ho. destruct (sessionType s) eqn:Ht; [|done].
    destruct (parseCronSessionPurpose (purpose s)) as [[a c]|] eqn:Hp; [|done]. destruct (purpose s) as [p|] eqn:Hq; [|done].
    apply parse_purpose in Hp as (-> & Ha & Hna & Hnc). unfold mem, str_eqb in Ho. reflect_bools.
    exists s, a, c. split; [by apply list_elem_of_In|]. do 7 (split; [done|]). intros a' c' E.
    unfold createCronSessionPurpose in E. apply app_inv_head in E. unfold taskKey. by rewrite E.
  - intros (s & a & c & Hs & Hid & Ht & Hp & Ha & Hna & Hnc & Hm & Hk). exists s. split; [done|]. apply filter_In.
    split; [by apply list_elem_of_In|]. unfold isOrphan. rewrite Ht, Hp.
    assert (parseCronSessionPurpose (Some (createCronSessionPurpose a c)) = Some (a, c)) as -> by by apply parse_purpose.
    unfold mem, str_eqb. rewrite !bool_decide_eq_false_2; [done|by apply Hk|done].
Qed.

(** ** The window of active hours *)
Definition ofDay (t : Time) : Prop := (0 <= hours t < 24 /\ 0 <= minutes t < 60)%Z.

(** active hours are a window of the day: for times of the day a task is active
    exactly from the start, for as long as it takes from the start to the end, past
    midnight where the end is before the start; with the same start and end, never. *)
Theorem active_hours_are_a_window window now : ofDay (ah_start window) -> ofDay (ah_end window) -> ofDay now ->
  isWithinActiveHours (Some window) now = true <->
  ((timeToMinutes now - timeToMinutes (ah_start window)) mod 1440
   < (timeToMinutes (ah_end window) - timeToMinutes (ah_start window)) mod 1440)%Z.
Proof.
  unfold ofDay, isWithinActiveHours, timeToMinutes. intros Hs He Hn.
  set (s := (hours (ah_start window) * 60 + minutes (ah_start window))%Z) in *.
  set (e := (hours (ah_end window) * 60 + minutes (ah_end window))%Z) in *. set (n := (hours now * 60 + minutes now)%Z) in *.
  assert (0 <= s < 1440 /\ 0 <= e < 1440 /\ 0 <= n < 1440)%Z as (Hs' & He' & Hn') by (unfold s, e, n; lia). clearbody s e n.
  assert (forall x y, 0 <= x < 1440 -> 0 <= y < 1440 -> (x - y) mod 1440 = if y <=? x then x - y else x - y + 1440)%Z as Hm.
  { intros x y Hx Hy. destruct (Z.leb_spec y x); [by apply Z.mod_small; lia|].
    rewrite <- (Z.mod_add (x - y) 1 1440) by lia. apply Z.mod_small. lia. }
  rewrite !Hm by done. destruct (Z.leb_spec s e), (Z.leb_spec s n); cbn [andb orb]; rewrite ?Z.ltb_lt; lia.
Qed.

Lemma active_hours_are_a_window_witness :
  let w := {| ah_start := {| hours := 22; minutes := 0 |}; ah_end := {| hours := 6; minutes := 0 |} |} in
  isWithinActiveHours (Some w) {| hours := 1; minutes := 30 |} = true /\ (210 < 480)%Z.
Proof.
  split; [|done].
  apply (active_hours_are_a_window {| ah_start := {| hours := 22; minutes := 0 |}; ah_end := {| hours := 6; minutes := 0 |} |}
           {| hours := 1; minutes := 30 |}); first [unfold ofDay; cbn; lia|by vm_compute].
Defined.

(** Times as the schema has them; an hour may also be too large. *)
Lemma parse_times : parseTime (js "08:05") = Some {| hours := 8; minutes := 5 |} /\ parseTime (js "99:99") = Some {| hours := 99; minutes := 99 |}.
Proof. by vm_compute. Qed.

(** Where the clock of the zone calls the hour after midnight 24, the task is not
    active in it. *)
Lemma midnight_is_outside :
  isWithinActiveHours (Some {| ah_start := {| hours := 0; minutes := 0 |}; ah_end := {| hours := 6; minutes := 0 |} |})
    {| hours := 24; minutes := 30 |} = false.
Proof. by vm_compute. Qed.
