(* ===== verification/McpNames.v ===== *)
(** * MCP runtime names and their allocation

    [packages/agent-modules/mcp/src/runtime]: [tool-name.ts], and [allocate]
    with its helpers from [name-registry.ts].  Public names of servers and tools
    are projections of raw names; [allocate] resolves their collisions.  A
    thrown error is [None], or the message where the code keeps it.
    [JSON.parse] on a key is a parameter: it only tells the keys of the host's
    own sources apart. *)
From Stdlib Require Import DecimalString DecimalPos DecimalFacts.
From S2P Require Import Prelude JsValue PermContext RgFingerprint Utf8.

(** ** [tool-name.ts] *)
Definition MCP_RUNTIME_TOOL_NAME_MAX_LENGTH : nat := 80.
Definition MCP_RUNTIME_SERVER_SEGMENT_MAX_LENGTH : nat := 48.

Inductive NameKind := name_server | name_tool.

Definition kind_text (k : NameKind) : jstr :=
  match k with name_server => js "server" | name_tool => js "tool" end.

Definition isAlnum (c : jchar) : bool :=
  (((48 <=? c) && (c <=? 57)) || ((65 <=? c) && (c <=? 90)) || ((97 <=? c) && (c <=? 122)))%N.
Definition underscore : jchar := 95%N.
Definition isUnderscore (c : jchar) : bool := (c =? underscore)%N.
(** [[A-Za-z0-9-]]. *)
Definition isSegmentChar (c : jchar) : bool := isAlnum c || (c =? ch "-")%N.
(** [[a-zA-Z0-9_-]]. *)
Definition isNameChar (c : jchar) : bool := isSegmentChar c || isUnderscore c.

(** The general categories Cc and Cf, as ranges of code points (Unicode 15.1). *)
Definition CONTROL_RANGES : list (N * N) :=
  [(0, 31); (127, 159)]%N.
Definition FORMAT_RANGES : list (N * N) :=
  [(173, 173); (1536, 1541); (1564, 1564); (1757, 1757); (1807, 1807); (2192, 2193);
   (2274, 2274); (6158, 6158); (8203, 8207); (8234, 8238); (8288, 8292); (8294, 8303);
   (65279, 65279); (65529, 65531); (69821, 69821); (69837, 69837); (78896, 78911);
   (113824, 113827); (119155, 119162); (917505, 917505); (917536, 917631)]%N.
Definition inRanges (c : N) (rs : list (N * N)) : bool :=
  existsb (fun r => (fst r <=? c) && (c <=? snd r))%N rs.

(** [/[\p{Cc}\p{Cf}\p{Cs}]/u.test(value)]: over code points, a lone surrogate
    being of category Cs. *)
Fixpoint hasForbidden (s : jstr) : bool :=
  match s with
  | [] => false
  | c :: rest =>
    if isHigh c then
      match rest with
      | d :: rest' => if isLow d then inRanges (pair_code c d) FORMAT_RANGES || hasForbidden rest' else true
      | [] => true
      end
    else isLow c || inRanges c CONTROL_RANGES || inRanges c FORMAT_RANGES || hasForbidden rest
  end.

(** [s.replace(/<p>+/gu, '_')]; [inside] tells that the run has started. *)
Fixpoint replaceRuns (p : jchar -> bool) (inside : bool) (s : jstr) : jstr :=
  match s with
  | [] => []
  | c :: rest =>
    if p c then (if inside then replaceRuns p true rest else underscore :: replaceRuns p true rest)
    else c :: replaceRuns p false rest
  end.

(** [s.replace(/_+$/u, '')]. *)
Definition stripTrailing (s : jstr) : jstr := rev (dropWhile isUnderscore (rev s)).

Definition normalizeMcpNameSegment (value : jstr) (kind : NameKind) : option jstr :=
  if negb (truthy value) || hasForbidden value then None
  else
    let segment := stripTrailing (dropWhile isUnderscore
                     (replaceRuns isUnderscore false (replaceRuns (fun c => negb (isNameChar c)) false value))) in
    Some (if existsb isAlnum segment then segment else kind_text kind).

Definition shortenMcpNameSegment (segment : jstr) (max : nat) (kind : NameKind) : option jstr :=
  if (max <? 1)%nat then None
  else
    let prefix := stripTrailing (take max segment) in
    Some (if existsb isAlnum prefix then prefix else take max (kind_text kind)).

Definition buildMcpServerRuntimeName (serverName : jstr) : option jstr :=
  normalized ← normalizeMcpNameSegment serverName name_server;
  segment ← shortenMcpNameSegment normalized MCP_RUNTIME_SERVER_SEGMENT_MAX_LENGTH name_server;
  Some (js "mcp__" ++ segment).

Definition buildMcpToolRuntimeName (serverName toolName : jstr) : option jstr :=
  server ← buildMcpServerRuntimeName serverName;
  normalized ← normalizeMcpNameSegment toolName name_tool;
  tool ← shortenMcpNameSegment normalized (MCP_RUNTIME_TOOL_NAME_MAX_LENGTH - length server - 2) name_tool;
  Some (server ++ js "__" ++ tool).

(** [`mcp__${server.segment}__${segment}`]. *)
Definition toolRuntimeName (serverSegment toolSegment : jstr) : jstr :=
  js "mcp__" ++ serverSegment ++ js "__" ++ toolSegment.

(** ** [name-registry.ts]: allocation *)
Record McpNameCandidate := { key : jstr; name : jstr }.
Record McpNameAssignments := { names : jmap jstr jstr; errors : jmap jstr jstr }.

(** [/^[A-Za-z0-9-]+(?:_[A-Za-z0-9-]+)*$/u]; [fresh] tells that a group must
    start here. *)
Fixpoint segmentShape (fresh : bool) (s : jstr) : bool :=
  match s with
  | [] => negb fresh
  | c :: rest =>
    if isUnderscore c then negb fresh && segmentShape true rest
    else isSegmentChar c && segmentShape false rest
  end.
Definition validSegment (s : jstr) : bool := segmentShape true s && existsb isAlnum s.

Definition configuredMcpNameKey (server : jstr) : jstr :=
  js "[" ++ stringify_string (js "configured") ++ js "," ++ stringify_string server ++ js "]".
Definition pluginMcpNameKey (source plugin server : jstr) : jstr :=
  js "[" ++ stringify_string (js "plugin") ++ js "," ++ stringify_string source ++ js ","
  ++ stringify_string plugin ++ js "," ++ stringify_string server ++ js "]".

Section Allocation.
(** [JSON.parse]; [None] is a thrown error. *)
Variable jsonParse : jstr -> option json.

Definition is_text (v : option json) (s : jstr) : bool :=
  match v with Some (JStr t) => str_eqb t s | _ => false end.

Definition sourcePriority (k : jstr) : nat :=
  match jsonParse k with
  | Some (JArr identity) =>
    if is_text (identity !! 0) (js "configured") then 0
    else if is_text (identity !! 0) (js "plugin") && is_text (identity !! 1) (js "OFFICIAL") then 1
    else 2
  | _ => 2
  end.

(** ** [allocate] *)
Record Pending := { p_key : jstr; base : jstr; natural : bool }.

Record Allocation := {
  al_names : jmap jstr jstr;
  al_errors : jmap jstr jstr;
  al_used : list jstr;
  al_pending : list Pending;  (** [pending], then [conflicts] *)
}.

Definition invalidName (kind : NameKind) : jstr := js "Invalid MCP " ++ kind_text kind ++ js " name".
Definition noPrefixRoom (kind : NameKind) : jstr :=
  js "MCP " ++ kind_text kind ++ js " name has no room for a readable prefix".
Definition noSuffixRoom (kind : NameKind) : jstr :=
  js "MCP " ++ kind_text kind ++ js " name has no room for a collision suffix".

(** One candidate of the first loop. *)
Definition classify (existing : jmap jstr jstr) (kind : NameKind) (max : nat)
    (a : Allocation) (c : McpNameCandidate) : Allocation :=
  let fail msg := {| al_names := al_names a; al_errors := jset (key c) msg (al_errors a);
                     al_used := al_used a; al_pending := al_pending a |} in
  match jget (key c) existing with
  | Some (x :: saved) =>
    {| al_names := jset (key c) (x :: saved) (al_names a); al_errors := al_errors a;
       al_used := al_used a; al_pending := al_pending a |}
  | _ =>
    match normalizeMcpNameSegment (name c) kind with
    | None => fail (invalidName kind)
    | Some normalized =>
      match shortenMcpNameSegment normalized max kind with
      | None => fail (noPrefixRoom kind)
      | Some b =>
        {| al_names := al_names a; al_errors := al_errors a; al_used := al_used a;
           al_pending := al_pending a ++ [{| p_key := key c; base := b; natural := str_eqb b (name c) |}] |}
      end
    end
  end.

(** The comparator of [pending.sort]. *)
Definition pending_leb (a b : Pending) : bool :=
  if Bool.eqb (natural a) (natural b) then
    if (sourcePriority (p_key a) =? sourcePriority (p_key b))%nat then str_leb (p_key a) (p_key b)
    else (sourcePriority (p_key a) <? sourcePriority (p_key b))%nat
  else natural a.

(** One entry of the second loop. *)
Definition takeBase (a : Allocation) (p : Pending) : Allocation :=
  if bool_decide (base p ∈ al_used a)
  then {| al_names := al_names a; al_errors := al_errors a; al_used := al_used a;
          al_pending := al_pending a ++ [p] |}
  else {| al_names := jset (p_key p) (base p) (al_names a); al_errors := al_errors a;
          al_used := al_used a ++ [base p]; al_pending := al_pending a |}.

(** [_${number}]. *)
Definition suffix_of (number : nat) : jstr := underscore :: dec_Z (Z.of_nat number).

Inductive SuffixSearch := Found (candidate : jstr) | NoRoom | OutOfFuel.

(** [for (let number = 2; ; number++)]. *)
Fixpoint findSuffix (fuel : nat) (b : jstr) (kind : NameKind) (max : nat) (used : list jstr)
    (number : nat) : SuffixSearch :=
  match fuel with
  | O => OutOfFuel
  | S fuel' =>
    if (max <=? length (suffix_of number))%nat then NoRoom
    else match shortenMcpNameSegment b (max - length (suffix_of number)) kind with
         | None => NoRoom
         | Some short =>
           let candidate := short ++ suffix_of number in
           if bool_decide (candidate ∈ used) then findSuffix fuel' b kind max used (S number)
           else Found candidate
         end
  end.

(** One entry of the last loop. *)
Definition takeSuffix (kind : NameKind) (max : nat) (a : Allocation) (p : Pending) : Allocation :=
  match findSuffix (S (length (al_used a))) (base p) kind max (al_used a) 2 with
  | Found candidate =>
    {| al_names := jset (p_key p) candidate (al_names a); al_errors := al_errors a;
       al_used := al_used a ++ [candidate]; al_pending := al_pending a |}
  | NoRoom | OutOfFuel =>
    {| al_names := al_names a; al_errors := jset (p_key p) (noSuffixRoom kind) (al_errors a);
       al_used := al_used a; al_pending := al_pending a |}
  end.

(** The candidates, the last one of a key, sorted by key. *)
Definition distinctCandidates (candidates : list McpNameCandidate) : list McpNameCandidate :=
  sort_by (fun a b => str_leb (key a) (key b)) (map snd (jof_list (map (fun c => (key c, c)) candidates))).

Definition allocate (candidates : list McpNameCandidate) (existing : jmap jstr jstr) (kind : NameKind)
    (max : nat) : McpNameAssignments :=
  let a0 := {| al_names := []; al_errors := []; al_used := map snd existing; al_pending := [] |} in
  let a1 := fold_left (classify existing kind max) (distinctCandidates candidates) a0 in
  let a2 := fold_left takeBase (sort_by pending_leb (al_pending a1))
              {| al_names := al_names a1; al_errors := al_errors a1; al_used := al_used a1; al_pending := [] |} in
  let a3 := fold_left (takeSuffix kind max) (al_pending a2)
              {| al_names := al_names a2; al_errors := al_errors a2; al_used := al_used a2; al_pending := [] |} in
  {| names := al_names a3; errors := al_errors a3 |}.
End Allocation.

(** ** Lemmas: number text *)
Lemma uint_alnum d : forallb isAlnum (js (NilEmpty.string_of_uint d)) = true.
Proof. by induction d. Qed.

Lemma dec_nat_form n :
  exists d, dec_Z (Z.of_nat n) = js (NilEmpty.string_of_uint d) /\ d <> Decimal.Nil
    /\ (0 < n -> Pos.of_uint d = N.of_nat n /\ Decimal.unorm d = d).
Proof.
  destruct n as [|n]; [by exists (Decimal.D0 Decimal.Nil); repeat split; [|lia..]|].
  unfold dec_Z. set (p := Pos.of_succ_nat n). exists (Pos.to_uint p).
  split; [done|]. split; [apply DecimalPos.Unsigned.to_uint_nonnil|]. intros _.
  rewrite DecimalPos.Unsigned.of_to. split; [unfold p; lia|].
  rewrite <- DecimalPos.Unsigned.to_of, DecimalPos.Unsigned.of_to. done.
Qed.

Lemma dec_nat_alnum n : forallb isAlnum (dec_Z (Z.of_nat n)) = true.
Proof. destruct (dec_nat_form n) as (d & -> & _). apply uint_alnum. Qed.

Lemma dec_nat_nonempty n : dec_Z (Z.of_nat n) <> [].
Proof. destruct (dec_nat_form n) as (d & -> & Hd & _). by destruct d. Qed.

Lemma of_uint_acc_bound d acc :
  (N.pos acc * 10 ^ N.of_nat (length (js (NilEmpty.string_of_uint d))) <= N.pos (Pos.of_uint_acc d acc))%N.
Proof.
  revert acc; induction d as [|d IH|d IH|d IH|d IH|d IH|d IH|d IH|d IH|d IH|d IH]; intros acc; [simpl; lia|..];
    cbn [NilEmpty.string_of_uint js length Pos.of_uint_acc]; rewrite Nat2N.inj_succ, N.pow_succ_r';
    (etransitivity; [|apply IH]); nia.
Qed.

(** Below [10^k], a number has at most [k] digits. *)
Lemma dec_nat_length n k : (N.of_nat n < 10 ^ N.of_nat k)%N -> 0 < n -> length (dec_Z (Z.of_nat n)) <= k.
Proof.
  intros Hn H0. destruct (dec_nat_form n) as (d & -> & Hd & Hv). destruct (Hv H0) as [Hv1 Hv2].
  assert (Hacc : forall d' acc, Pos.of_uint d = N.pos (Pos.of_uint_acc d' acc) ->
            length (js (NilEmpty.string_of_uint d')) < k).
  { intros d' acc E. pose proof (of_uint_acc_bound d' acc) as Hb. rewrite <- E, Hv1 in Hb.
    apply Nat.nle_gt. intros Hk.
    assert (10 ^ N.of_nat k <= 10 ^ N.of_nat (length (js (NilEmpty.string_of_uint d'))))%N
      by (apply N.pow_le_mono_r; lia). nia. }
  destruct d as [|d|d|d|d|d|d|d|d|d|d]; [done| |cbn [NilEmpty.string_of_uint js length]; eapply Hacc; reflexivity ..].
  exfalso. unfold Decimal.unorm in Hv2. cbn [Decimal.nzhead] in Hv2.
  destruct (Decimal.nzhead d) as [| | | | | | | | | |] eqn:E; try discriminate.
  - injection Hv2 as <-. cbn in Hv1. lia.
  - by apply DecimalFacts.nzhead_nonzero in E.
Qed.

(** ** Lemmas: segments *)
Lemma segment_char_cases c :
  isSegmentChar c = true -> isUnderscore c = false.
Proof.
  unfold isSegmentChar, isUnderscore, underscore, isAlnum. change (ch "-") with 45%N. intros H.
  apply N.eqb_neq. intros ->. done.
Qed.

Lemma alnum_segment c : isAlnum c = true -> isSegmentChar c = true.
Proof. unfold isSegmentChar. by intros ->. Qed.

(** [segmentShape] without the condition on the end. *)
Fixpoint looseShape (fresh : bool) (s : jstr) : bool :=
  match s with
  | [] => true
  | c :: rest =>
    if isUnderscore c then negb fresh && looseShape true rest
    else isSegmentChar c && looseShape false rest
  end.

Lemma segment_loose fresh s : segmentShape fresh s = true -> looseShape fresh s = true.
Proof.
  revert fresh; induction s as [|c s IH]; simpl; intros fresh; [done|].
  destruct (isUnderscore c); rewrite !andb_true_iff; intros [H1 H2]; auto.
Qed.

Lemma loose_app_l fresh s t : looseShape fresh (s ++ t) = true -> looseShape fresh s = true.
Proof.
  revert fresh; induction s as [|c s IH]; simpl; intros fresh; [done|].
  destruct (isUnderscore c); rewrite !andb_true_iff; intros [H1 H2]; eauto.
Qed.

Lemma loose_segment fresh s c :
  looseShape fresh (s ++ [c]) = true -> isUnderscore c = false -> segmentShape fresh (s ++ [c]) = true.
Proof.
  intros H Hc. revert fresh H; induction s as [|d s IH]; simpl; intros fresh.
  - rewrite Hc. done.
  - destruct (isUnderscore d); rewrite !andb_true_iff; intros [H1 H2]; auto.
Qed.

Lemma stripTrailing_spec s :
  exists post, s = stripTrailing s ++ post
    /\ (stripTrailing s = [] \/ exists s' c, stripTrailing s = s' ++ [c] /\ isUnderscore c = false).
Proof.
  unfold stripTrailing. destruct (dropWhile_suffix isUnderscore (rev s)) as (pre & Heq & _).
  exists (rev pre). rewrite <- (rev_involutive s) at 1. rewrite Heq at 1. rewrite rev_app_distr. split; [done|].
  pose proof (dropWhile_head isUnderscore (rev s)) as Hh.
  destruct (dropWhile isUnderscore (rev s)) as [|c r]; [by left|right]. by exists (rev r), c.
Qed.

Lemma strip_shape fresh s :
  looseShape fresh s = true -> stripTrailing s <> [] -> segmentShape fresh (stripTrailing s) = true.
Proof.
  intros H Hne. destruct (stripTrailing_spec s) as (post & Heq & [?|(s' & c & E & Hc)]); [done|].
  rewrite Heq in H. apply loose_app_l in H. rewrite E in *. by apply loose_segment.
Qed.

Lemma length_stripTrailing s : length (stripTrailing s) <= length s.
Proof. destruct (stripTrailing_spec s) as (post & Heq & _). rewrite Heq at 2. rewrite length_app. lia. Qed.

Lemma dropWhile_shape fresh s : looseShape fresh s = true -> looseShape true (dropWhile isUnderscore s) = true.
Proof.
  revert fresh; induction s as [|c s IH]; simpl; intros fresh; [done|].
  destruct (isUnderscore c) eqn:E; [|by simpl; rewrite E]. rewrite andb_true_iff. intros [_ H]. by apply (IH true).
Qed.

Lemma replaceRuns_names inside s :
  forallb isNameChar (replaceRuns (fun c => negb (isNameChar c)) inside s) = true.
Proof.
  revert inside; induction s as [|c s IH]; simpl; intros inside; [done|].
  destruct (isNameChar c) eqn:E; simpl; [by rewrite E, IH|]. destruct inside; [apply IH|].
  simpl. by rewrite IH.
Qed.

Lemma replaceRuns_shape inside s :
  forallb isNameChar s = true -> looseShape inside (replaceRuns isUnderscore inside s) = true.
Proof.
  revert inside; induction s as [|c s IH]; simpl; intros inside; [done|]. rewrite andb_true_iff. intros [Hc Hs].
  unfold isNameChar in Hc. destruct (isUnderscore c) eqn:E.
  - destruct inside; [by apply IH|]. simpl. by apply IH.
  - simpl. rewrite E. rewrite orb_false_r in Hc. by rewrite Hc, IH.
Qed.

Lemma alnum_shape s fresh :
  forallb isAlnum s = true -> (fresh = true -> s <> []) -> segmentShape fresh s = true.
Proof.
  revert fresh; induction s as [|c s IH]; simpl; intros fresh.
  - intros _ H. destruct fresh; [by destruct (H eq_refl)|done].
  - rewrite andb_true_iff. intros [Hc%alnum_segment Hs] _. rewrite (segment_char_cases c Hc), Hc. by apply IH.
Qed.

Lemma alnum_valid s : forallb isAlnum s = true -> s <> [] -> validSegment s = true.
Proof.
  intros Hs Hne. unfold validSegment. rewrite alnum_shape by done. destruct s as [|c s]; [done|].
  cbn [forallb existsb] in *. apply andb_true_iff in Hs as [-> _]. done.
Qed.

Lemma normalize_valid value kind s : normalizeMcpNameSegment value kind = Some s -> validSegment s = true.
Proof.
  unfold normalizeMcpNameSegment. destruct (_ || _); [done|].
  set (seg := stripTrailing _). intros Hs. apply (inj Some) in Hs as <-. destruct (existsb isAlnum seg) eqn:E.
  - unfold validSegment. rewrite E, andb_true_r. subst seg. apply strip_shape; [|intros H0; by rewrite H0 in E].
    eapply dropWhile_shape, replaceRuns_shape, replaceRuns_names.
  - by destruct kind.
Qed.

Lemma shorten_valid s max kind t :
  validSegment s = true -> shortenMcpNameSegment s max kind = Some t ->
  validSegment t = true /\ length t <= max.
Proof.
  unfold shortenMcpNameSegment. destruct (Nat.ltb_spec max 1) as [|Hm]; [done|].
  intros [Hs _]%andb_true_iff Ht. apply (inj Some) in Ht as <-.
  destruct (existsb isAlnum (stripTrailing (take max s))) eqn:E.
  - split; [|etransitivity; [apply length_stripTrailing|]; rewrite length_take; lia].
    unfold validSegment. rewrite E, andb_true_r. apply strip_shape; [|by intros H0; rewrite H0 in E].
    apply segment_loose in Hs. rewrite <- (take_drop max s) in Hs. by apply loose_app_l in Hs.
  - split; [|rewrite length_take; lia]. apply alnum_valid.
    + apply forallb_forall. intros x Hx%list_elem_of_In%elem_of_take. revert x Hx.
      assert (Hk : forallb isAlnum (kind_text kind) = true) by (by destruct kind).
      rewrite forallb_forall in Hk. intros x (i & Hi & _). apply Hk, list_elem_of_In. by eapply list_elem_of_lookup_2.
    + destruct max as [|max]; [lia|]. by destruct kind.
Qed.

Lemma shape_suffix fresh s t :
  segmentShape fresh s = true -> forallb isAlnum t = true -> t <> [] ->
  segmentShape fresh (s ++ underscore :: t) = true.
Proof.
  intros Hs Ht Hne. revert fresh Hs; induction s as [|c s IH]; simpl; intros fresh.
  - intros ->. simpl. by apply alnum_shape.
  - destruct (isUnderscore c); rewrite !andb_true_iff; intros [H1 H2]; auto.
Qed.

Lemma suffix_valid s n : validSegment s = true -> validSegment (s ++ suffix_of n) = true.
Proof.
  intros [Hs Ha]%andb_true_iff. unfold validSegment, suffix_of.
  rewrite shape_suffix, existsb_app, Ha; auto using dec_nat_alnum, dec_nat_nonempty.
Qed.

(** ** Lemmas: splitting runtime names *)
Lemma no_separator fresh c s rest :
  segmentShape fresh (c :: s) = true -> (s = [] -> match rest with d :: _ => isUnderscore d = false | [] => True end \/ isUnderscore c = false) ->
  startsWith (c :: s ++ rest) (js "__") = false.
Proof.
  change (js "__") with [underscore; underscore]. cbn [segmentShape startsWith]. unfold isUnderscore.
  rewrite (N.eqb_sym underscore c). destruct (c =? underscore)%N eqn:Ec; [|done].
  rewrite andb_true_iff. intros [_ Hs] Hr. destruct s as [|d s]; [by destruct Hr|].
  cbn [segmentShape] in Hs. unfold isUnderscore in Hs. cbn [app startsWith]. rewrite (N.eqb_sym underscore d).
  by destruct (d =? underscore)%N.
Qed.

Lemma split_shape s : forall fresh cur f rest,
  segmentShape fresh s = true ->
  split_go (length s + S f) (js "__") cur (s ++ js "__" ++ rest) = (cur ++ s) :: split_go f (js "__") [] rest.
Proof.
  induction s as [|c s IH]; intros fresh cur f rest Hs.
  - rewrite app_nil_r. by destruct rest.
  - cbn [length Nat.add app split_go]. rewrite (no_separator fresh).
    + rewrite (IH (isUnderscore c)).
      * by rewrite <- app_assoc.
      * cbn [segmentShape] in Hs. destruct (isUnderscore c); by apply andb_true_iff in Hs as [_ ?].
    + done.
    + intros ->. right. cbn [segmentShape] in Hs. destruct (isUnderscore c); [|done].
      by rewrite andb_false_r in Hs.
Qed.

Lemma split_shape_end s : forall fresh cur f,
  segmentShape fresh s = true -> split_go (length s + S f) (js "__") cur s = [cur ++ s].
Proof.
  induction s as [|c s IH]; intros fresh cur f Hs.
  - by rewrite app_nil_r.
  - cbn [length Nat.add split_go]. pose proof (no_separator fresh c s []) as Hn. rewrite app_nil_r in Hn.
    rewrite Hn; [|done|by left]. rewrite (IH (isUnderscore c)).
    + by rewrite <- app_assoc.
    + cbn [segmentShape] in Hs. destruct (isUnderscore c); by apply andb_true_iff in Hs as [_ ?].
Qed.

Lemma split_server a : validSegment a = true -> split (js "mcp__" ++ a) (js "__") = [js "mcp"; a].
Proof.
  intros [Ha _]%andb_true_iff. unfold split.
  replace (S (length (js "mcp__" ++ a))) with (length (js "mcp") + S (length a + 2))
    by (rewrite length_app; cbn; lia).
  change (js "mcp__" ++ a) with (js "mcp" ++ js "__" ++ a).
  rewrite (split_shape _ true) by done. replace (length a + 2) with (length a + S 1) by lia.
  by rewrite (split_shape_end _ true).
Qed.

Lemma split_tool a t :
  validSegment a = true -> validSegment t = true ->
  split (toolRuntimeName a t) (js "__") = [js "mcp"; a; t].
Proof.
  intros [Ha _]%andb_true_iff [Ht _]%andb_true_iff. unfold split, toolRuntimeName.
  replace (S (length (js "mcp__" ++ a ++ js "__" ++ t))) with (length (js "mcp") + S (length a + S (length t + S 2)))
    by (rewrite !length_app; cbn; lia).
  change (js "mcp__" ++ a ++ js "__" ++ t) with (js "mcp" ++ js "__" ++ a ++ js "__" ++ t).
  rewrite (split_shape _ true) by done. rewrite (split_shape a true) by done.
  by rewrite (split_shape_end t true).
Qed.

Lemma valid_truthy s : validSegment s = true -> truthy s = true.
Proof. by destruct s. Qed.

(** A server rule matches a runtime name exactly when the segments agree. *)
Lemma matches_owner a t b :
  validSegment a = true -> validSegment t = true -> validSegment b = true ->
  matchesMcpServerRuntimeName (toolRuntimeName a t) (js "mcp__" ++ b) = str_eqb a b.
Proof.
  intros Ha Ht Hb. unfold matchesMcpServerRuntimeName. change MCP_SEGMENT_SEPARATOR with (js "__").
  rewrite split_tool, split_server by done. rewrite !valid_truthy by done. done.
Qed.

(** ** Lemmas: suffixes *)
Lemma shorten_Some s max kind : 1 <= max -> exists t, shortenMcpNameSegment s max kind = Some t.
Proof.
  intros H. unfold shortenMcpNameSegment. destruct (Nat.ltb_spec max 1); [lia|]. by eexists.
Qed.

(** The text before and after the last underscore. *)
Lemma last_group a b s t :
  forallb isAlnum s = true -> forallb isAlnum t = true -> a ++ underscore :: s = b ++ underscore :: t -> s = t.
Proof.
  assert (Hno : forall s, forallb isAlnum s = true -> underscore ∉ s).
  { intros l Hl Hin. rewrite forallb_forall in Hl. by specialize (Hl underscore (proj1 (list_elem_of_In _ _) Hin)). }
  intros Hs Ht. revert b; induction a as [|x a IH]; intros [|y b]; cbn [app]; intros E.
  - by injection E.
  - injection E as _ E. destruct (Hno s Hs). rewrite E. apply elem_of_app. right. by left.
  - injection E as _ E. destruct (Hno t Ht). rewrite <- E. apply elem_of_app. right. by left.
  - injection E as _ E. eauto.
Qed.

Lemma suffix_inj a b m n : a ++ suffix_of m = b ++ suffix_of n -> m = n.
Proof. intros H%last_group; auto using dec_nat_alnum. apply dec_Z_inj in H. lia. Qed.

(** The candidates numbered from [number] on that are taken are distinct, so
    the search ends within the number of taken names. *)
Lemma findSuffix_fuel b kind max used fuel : forall number,
  findSuffix fuel b kind max used number = OutOfFuel ->
  exists l, length l = fuel /\ NoDup l /\ l ⊆ used
    /\ Forall (fun x => exists a n, x = a ++ suffix_of n /\ number <= n) l.
Proof.
  induction fuel as [|fuel IH]; intros number; cbn [findSuffix].
  { intros _. exists []. repeat split; [constructor|set_solver|constructor]. }
  destruct (max <=? _)%nat; [done|]. destruct (shortenMcpNameSegment _ _ _) as [t|]; [|done].
  case_bool_decide as Hin; [|done]. intros (l & Hlen & Hnd & Hsub & Hall)%IH.
  exists ((t ++ suffix_of number) :: l). split; [by simpl; rewrite Hlen|]. split; [|split].
  - apply NoDup_cons; split; [|done]. rewrite list.Forall_forall in Hall.
    intros (a & n & E%suffix_inj & Hn)%Hall. lia.
  - set_solver.
  - constructor; [by exists t, number|]. eapply list.Forall_impl; [exact Hall|].
    intros x (a & n & -> & Hn). exists a, n. split; [done|lia].
Qed.

Lemma findSuffix_ends b kind max used number :
  findSuffix (S (length used)) b kind max used number <> OutOfFuel.
Proof.
  intros (l & Hlen & Hnd & Hsub & _)%findSuffix_fuel.
  pose proof (submseteq_length _ _ (NoDup_submseteq l used Hnd Hsub)). lia.
Qed.

Lemma findSuffix_found fuel b kind max used : forall number c,
  validSegment b = true -> findSuffix fuel b kind max used number = Found c ->
  validSegment c = true /\ length c <= max /\ c ∉ used.
Proof.
  induction fuel as [|fuel IH]; intros number c Hb; cbn [findSuffix]; [done|].
  destruct (Nat.leb_spec max (length (suffix_of number))) as [|Hlt]; [done|].
  destruct (shortenMcpNameSegment _ _ _) as [t|] eqn:E; [|done].
  apply shorten_valid in E as [Ht Hlen]; [|done]. case_bool_decide as Hin; [eauto|].
  intros Hc. injection Hc as <-. split; [by apply suffix_valid|]. split; [|done].
  rewrite length_app. lia.
Qed.

(** There is room as long as the numbers have few digits. *)
Lemma findSuffix_room fuel b kind max used : forall number k,
  1 + k < max -> (N.of_nat (number + fuel) <= 10 ^ N.of_nat k)%N -> 0 < number ->
  findSuffix fuel b kind max used number <> NoRoom.
Proof.
  induction fuel as [|fuel IH]; intros number k Hk Hn H0; cbn [findSuffix]; [done|].
  assert (Hl : length (suffix_of number) <= 1 + k).
  { unfold suffix_of. cbn [length]. pose proof (dec_nat_length number k). lia. }
  destruct (Nat.leb_spec max (length (suffix_of number))) as [|Hlt]; [lia|].
  destruct (shorten_Some b (max - length (suffix_of number)) kind) as [t ->]; [lia|].
  case_bool_decide; [|done]. apply (IH _ k); lia.
Qed.

(** ** Lemmas: allocation *)
Lemma jset_keys {V} (k k' : jstr) (v : V) m : k' ∈ jkeys (jset k v m) <-> k' ∈ jkeys m \/ k' = k.
Proof. rewrite jkeys_jset_elem. tauto. Qed.

Lemma jget_keys {V} (k : jstr) (m : jmap jstr V) : k ∈ jkeys m <-> is_Some (jget k m).
Proof.
  destruct (jget k m) eqn:E.
  - split; [by eexists|intros _]. destruct (decide (k ∈ jkeys m)) as [|Hn]; [done|].
    apply jget_None_keys in Hn. congruence.
  - rewrite jget_None_keys in E. split; [done|by intros [? ?]].
Qed.

Lemma jget_value {V} (k : jstr) (v : V) m : jget k m = Some v -> v ∈ map snd m.
Proof. intros H%jget_Some_elem. apply list_elem_of_fmap. by exists (k, v). Qed.

Section Allocate.
Context (existing : jmap jstr jstr) (kind : NameKind) (max : nat).

(** What holds of the names given out and the names taken. *)
Record names_ok (ns : jmap jstr jstr) (used : list jstr) : Prop := {
  ok_name k v : jget k ns = Some v ->
    validSegment v = true /\ length v <= max /\ v ∈ used
    /\ (jget k existing = Some v \/ jget k existing = None /\ v ∉ map snd existing);
  ok_inj k k' v : jget k ns = Some v -> jget k' ns = Some v -> k = k';
  ok_used : map snd existing ⊆ used;
}.

Definition pending_ok (p : Pending) : Prop :=
  validSegment (base p) = true /\ length (base p) <= max /\ jget (p_key p) existing = None.

Hypothesis Hval : forall k v, jget k existing = Some v -> validSegment v = true /\ length v <= max.
Hypothesis Hinj : forall k k' v, jget k existing = Some v -> jget k' existing = Some v -> k = k'.
Hypothesis Hmax : 1 <= max.

Lemma names_ok_saved ns used k v :
  names_ok ns used -> jget k existing = Some v -> names_ok (jset k v ns) used.
Proof.
  intros [Hn Hi Hu] Hk. split; [|..|done].
  - intros k' v'. rewrite jget_jset. case_decide as E; [|apply Hn].
    intros [= <-]. subst k'. destruct (Hval _ _ Hk). repeat split; [done..| |by left].
    eapply Hu, jget_value, Hk.
  - assert (Hone : forall k' v', jget k' ns = Some v' -> v' = v -> k' = k).
    { intros k' v' Hk' ->. destruct (Hn _ _ Hk') as (_ & _ & _ & [He|[_ He]]); [by eapply Hinj|].
      destruct He. by eapply jget_value. }
    intros k1 k2 v'. rewrite !jget_jset. repeat case_decide; subst; intros H1 H2; simplify_eq; eauto.
    symmetry; eauto.
Qed.

Lemma names_ok_fresh ns used k v :
  names_ok ns used -> jget k existing = None -> validSegment v = true -> length v <= max -> v ∉ used ->
  names_ok (jset k v ns) (used ++ [v]).
Proof.
  intros [Hn Hi Hu] Hk Hv Hl Hf. split.
  - intros k' v'. rewrite jget_jset. case_decide as E.
    + intros [= <-]. subst k'. repeat split; [done..| |right; split; [done|set_solver]].
      apply elem_of_app. right. by left.
    + intros H. destruct (Hn _ _ H) as (? & ? & ? & ?). repeat split; [done..| |done]. apply elem_of_app. by left.
  - assert (Hno : forall k', jget k' ns <> Some v) by (intros k' H; by destruct (Hn _ _ H) as (_ & _ & ? & _)).
    intros k1 k2 v'. rewrite !jget_jset. repeat case_decide; subst; intros H1 H2; simplify_eq; eauto.
    + by destruct (Hno k2).
    + by destruct (Hno k1).
  - set_solver.
Qed.

(** *** The first loop *)
Definition pending_of (c : McpNameCandidate) : option Pending :=
  match jget (key c) existing with
  | Some _ => None
  | None =>
    n ← normalizeMcpNameSegment (name c) kind; b ← shortenMcpNameSegment n max kind;
    Some {| p_key := key c; base := b; natural := str_eqb b (name c) |}
  end.

Definition refused (c : McpNameCandidate) : bool :=
  negb (jhas (key c) existing) && match normalizeMcpNameSegment (name c) kind with None => true | _ => false end.

Lemma pending_of_ok c p : pending_of c = Some p -> p_key p = key c /\ pending_ok p.
Proof.
  unfold pending_of, pending_ok. destruct (jget (key c) existing) eqn:E; [done|].
  destruct (normalizeMcpNameSegment _ _) as [n|] eqn:En; [|done]; simpl.
  destruct (shortenMcpNameSegment _ _ _) as [b|] eqn:Es; [|done]; simpl. intros [= <-]; simpl.
  apply normalize_valid in En. apply shorten_valid in Es; [|done]. tauto.
Qed.

Lemma classify_cases a c :
  classify existing kind max a c =
  match jget (key c) existing with
  | Some v => {| al_names := jset (key c) v (al_names a); al_errors := al_errors a;
                 al_used := al_used a; al_pending := al_pending a |}
  | None =>
    if refused c
    then {| al_names := al_names a; al_errors := jset (key c) (invalidName kind) (al_errors a);
            al_used := al_used a; al_pending := al_pending a |}
    else {| al_names := al_names a; al_errors := al_errors a; al_used := al_used a;
            al_pending := al_pending a ++ match pending_of c with Some p => [p] | None => [] end |}
  end.
Proof.
  unfold classify, refused, pending_of, jhas. destruct (jget (key c) existing) as [[|x v]|] eqn:E; simpl.
  - by destruct (Hval _ _ E).
  - done.
  - destruct (normalizeMcpNameSegment _ _) as [n|]; [|done]; simpl.
    by destruct (shorten_Some n max kind Hmax) as [b ->].
Qed.

Definition kept (c : McpNameCandidate) : bool := jhas (key c) existing.

(** The keys a list of candidates settles at once, and the rest. *)
Lemma classify_all l : forall a,
  let a' := fold_left (classify existing kind max) l a in
  al_used a' = al_used a
  /\ al_pending a' = al_pending a ++ omap pending_of l
  /\ (names_ok (al_names a) (al_used a) -> names_ok (al_names a') (al_used a))
  /\ (forall k, k ∈ jkeys (al_names a') <-> k ∈ jkeys (al_names a) \/ k ∈ map key (List.filter kept l))
  /\ (forall k, jget k (al_errors a')
        = if bool_decide (k ∈ map key (List.filter refused l)) then Some (invalidName kind) else jget k (al_errors a)).
Proof.
  induction l as [|c l IH]; intros a; cbn [fold_left].
  { split_and!; csimpl; try done; [by rewrite app_nil_r|]. intros k. rewrite elem_of_nil. tauto. }
  destruct (IH (classify existing kind max a c)) as (Hu & Hp & Hn & Hk & He). cbn zeta.
  rewrite classify_cases in *. unfold kept, jhas in *. csimpl.
  destruct (jget (key c) existing) as [v|] eqn:E.
  - assert (Er : refused c = false) by (unfold refused, jhas; by rewrite E).
    assert (Ep : pending_of c = None) by (unfold pending_of; by rewrite E).
    rewrite Er, Ep. cbn [al_names al_errors al_used al_pending] in *.
    split_and!; [done|done| | |done].
    + intros H. apply Hn. by apply names_ok_saved.
    + intros k. rewrite Hk, jset_keys. set_solver.
  - destruct (refused c) eqn:Er; cbn [al_names al_errors al_used al_pending] in *.
    + assert (Ep : pending_of c = None).
      { revert Er. unfold refused, pending_of, jhas. rewrite E. simpl. by destruct (normalizeMcpNameSegment _ _). }
      rewrite Ep. split_and!; try done.
      intros k. rewrite He, jget_jset. csimpl.
      repeat case_bool_decide; try case_decide; subst; try done; set_solver.
    + assert (Hp' : match pending_of c with Some p => [p] | None => [] end ++ omap pending_of l
                    = match pending_of c with Some p => p :: omap pending_of l | None => omap pending_of l end)
        by (by destruct (pending_of c)).
      rewrite <- app_assoc, Hp' in Hp. split_and!; done.
Qed.

(** *** The other loops *)
Lemma takeBase_all l : forall a,
  names_ok (al_names a) (al_used a) -> Forall pending_ok (al_pending a) -> Forall pending_ok l ->
  let a' := fold_left takeBase l a in
  names_ok (al_names a') (al_used a') /\ Forall pending_ok (al_pending a')
  /\ al_errors a' = al_errors a
  /\ length (al_used a') + length (al_pending a') = length (al_used a) + length (al_pending a) + length l
  /\ (forall k, k ∈ jkeys (al_names a') \/ k ∈ map p_key (al_pending a')
        <-> k ∈ jkeys (al_names a) \/ k ∈ map p_key (al_pending a) \/ k ∈ map p_key l).
Proof.
  induction l as [|p l IH]; intros a Hn Hp Hl; cbn [fold_left].
  { split_and!; [done..|simpl; lia|]. intros k. csimpl. rewrite elem_of_nil. tauto. }
  apply Forall_cons in Hl as [Hb Hl].
  destruct (IH (takeBase a p)) as (H1 & H2 & H3 & H4 & H5); [| |done|].
  1: { unfold takeBase. case_bool_decide; [done|]. destruct Hb as (? & ? & ?). by apply names_ok_fresh. }
  1: { unfold takeBase. case_bool_decide; [|done]. apply Forall_app. split; [done|]. by apply Forall_singleton. }
  cbn zeta. split_and!; [done|done| | |].
  - rewrite H3. unfold takeBase. by case_bool_decide.
  - rewrite H4. unfold takeBase. case_bool_decide; cbn [al_used al_pending]; rewrite length_app; simpl; lia.
  - intros k. rewrite H5. unfold takeBase. csimpl.
    case_bool_decide; cbn [al_names al_pending]; rewrite ?jset_keys, ?map_app; csimpl; set_solver.
Qed.

Lemma takeSuffix_all l : forall a,
  names_ok (al_names a) (al_used a) -> Forall pending_ok l ->
  let a' := fold_left (takeSuffix kind max) l a in
  names_ok (al_names a') (al_used a')
  /\ (forall k, k ∈ jkeys (al_names a') -> k ∈ jkeys (al_names a) \/ k ∈ map p_key l)
  /\ forall d, 1 + d < max -> (N.of_nat (3 + length (al_used a) + length l) <= 10 ^ N.of_nat d)%N ->
     al_errors a' = al_errors a
     /\ forall k, k ∈ jkeys (al_names a') <-> k ∈ jkeys (al_names a) \/ k ∈ map p_key l.
Proof.
  induction l as [|p l IH]; intros a Hn Hl; cbn [fold_left].
  { split; [done|]. split; [by left|]. intros d _ _. split; [done|]. intros k. csimpl. rewrite elem_of_nil. tauto. }
  apply Forall_cons in Hl as [(Hb & _ & Hk) Hl].
  pose proof (findSuffix_ends (base p) kind max (al_used a) 2) as Hend.
  assert (Hroom := fun d => findSuffix_room (S (length (al_used a))) (base p) kind max (al_used a) 2 d).
  assert (Ha : takeSuffix kind max a p = ltac:(let t := eval unfold takeSuffix in (takeSuffix kind max a p) in exact t)) by done.
  rewrite Ha; clear Ha. destruct (findSuffix _ _ _ _ _ _) as [c| |] eqn:E; [| |done].
  - destruct (findSuffix_found _ _ _ _ _ _ _ Hb E) as (Hc & Hlen & Hu).
    destruct (IH {| al_names := jset (p_key p) c (al_names a); al_errors := al_errors a;
                    al_used := al_used a ++ [c]; al_pending := al_pending a |}) as (H1 & H0 & H2); [|done|].
    { by apply names_ok_fresh. }
    split; [done|]. split.
    { intros k Hk'%H0. cbn [al_names] in Hk'. rewrite jset_keys in Hk'. csimpl. set_solver. }
    intros d Hd Hroom'. destruct (H2 d) as [H3 H4]; [done| |].
    { cbn [al_used]. rewrite length_app. simpl length in *. lia. }
    split; [done|]. intros k. rewrite H4. cbn [al_names]. rewrite jset_keys. csimpl. set_solver.
  - destruct (IH {| al_names := al_names a; al_errors := jset (p_key p) (noSuffixRoom kind) (al_errors a);
                    al_used := al_used a; al_pending := al_pending a |}) as (H1 & H0 & _); [done|done|].
    split; [done|]. split; [intros k Hk'%H0; csimpl; set_solver|]. intros d Hd Hr. destruct (Hroom d); [done| |lia|done]. simpl length in Hr. lia.
Qed.

End Allocate.

(** *** Candidates *)

(** The candidate that counts for a key: the last one. *)
Definition lastOf (k : jstr) (candidates : list McpNameCandidate) : option McpNameCandidate :=
  last (List.filter (fun c => str_eqb (key c) k) candidates).

Lemma lastOf_key k cs c : lastOf k cs = Some c -> key c = k /\ c ∈ cs.
Proof.
  unfold lastOf. intros H%last_Some_elem_of. apply list_elem_of_In, filter_In in H as [Hin Hk].
  apply bool_decide_eq_true in Hk. by rewrite list_elem_of_In.
Qed.

Lemma jof_list_last k cs :
  jget k (jof_list (map (fun c => (key c, c)) cs)) = lastOf k cs.
Proof.
  rewrite jget_jof_list. unfold lastOf. induction cs as [|c cs IH] using rev_ind; [done|].
  rewrite map_app, !List.filter_app. cbn [map List.filter fst]. unfold str_eqb in *.
  case_bool_decide; [by rewrite !last_snoc|]. by rewrite !app_nil_r.
Qed.

Lemma in_distinct c cs : c ∈ distinctCandidates cs <-> lastOf (key c) cs = Some c.
Proof.
  unfold distinctCandidates. rewrite sort_by_Permutation. set (J := jof_list _).
  assert (HJ : NoDup (jkeys J)) by apply jof_list_NoDup.
  rewrite <- jof_list_last. fold J. split.
  - intros ([k c'] & Hc & Hin)%list_elem_of_fmap. simpl in Hc; subst c'.
    apply elem_jget in Hin; [|done]. pose proof Hin as Hk. unfold J in Hk. rewrite jof_list_last in Hk.
    by apply lastOf_key in Hk as [-> _].
  - intros H%jget_value. done.
Qed.

Lemma length_distinct cs : length (distinctCandidates cs) <= length cs.
Proof.
  unfold distinctCandidates. rewrite (Permutation_length (sort_by_Permutation _ _)), length_map.
  etransitivity; [apply length_jof_list|]. by rewrite length_map.
Qed.

Lemma kept_or_pending existing kind max c :
  1 <= max -> is_Some (pending_of existing kind max c) \/ kept existing c = true
              <-> refused existing kind c = false.
Proof.
  intros Hm. unfold pending_of, kept, refused, jhas. destruct (jget (key c) existing); simpl; [by split; [|right]|].
  destruct (normalizeMcpNameSegment _ _) as [n|]; simpl.
  - destruct (shorten_Some n max kind Hm) as [b ->]. split; [done|]. left. by eexists.
  - split; [|done]. by intros [[? ?]|?].
Qed.

Section AllocateSpec.
Context (jsonParse : jstr -> option json) (existing : jmap jstr jstr) (kind : NameKind) (max : nat).
Hypothesis Hval : forall k v, jget k existing = Some v -> validSegment v = true /\ length v <= max.
Hypothesis Hinj : forall k k' v, jget k existing = Some v -> jget k' existing = Some v -> k = k'.
Hypothesis Hmax : 1 <= max.

Lemma names_ok_nil : names_ok existing max [] (map snd existing).
Proof. split; [done|done|set_solver]. Qed.

Lemma allocate_spec cs :
  let r := allocate jsonParse cs existing kind max in
  (exists used, names_ok existing max (names r) used)
  /\ (forall k, k ∈ jkeys (names r) -> exists c, lastOf k cs = Some c /\ refused existing kind c = false)
  /\ forall d, 1 + d < max -> (N.of_nat (3 + length existing + length cs) <= 10 ^ N.of_nat d)%N ->
     forall k, (k ∈ jkeys (names r) <-> exists c, lastOf k cs = Some c /\ refused existing kind c = false)
       /\ jget k (errors r)
          = match lastOf k cs with
            | Some c => if refused existing kind c then Some (invalidName kind) else None
            | None => None
            end.
Proof.
  cbn zeta. unfold allocate. set (D := distinctCandidates cs).
  set (a0 := {| al_names := []; al_errors := []; al_used := map snd existing; al_pending := [] |}).
  destruct (classify_all existing kind max Hval Hinj Hmax D a0) as (U1 & P1 & N1 & K1 & E1).
  set (a1 := fold_left (classify existing kind max) D a0) in *. cbn [a0 al_used al_pending al_names al_errors app] in *.
  specialize (N1 names_ok_nil). rewrite U1.
  pose proof (sort_by_Permutation (pending_leb jsonParse) (al_pending a1)) as Hperm.
  assert (Hpend : Forall (pending_ok existing max) (sort_by (pending_leb jsonParse) (al_pending a1))).
  { rewrite Hperm, P1. apply list.Forall_forall. intros p (c & _ & Hc)%list_elem_of_omap.
    by eapply pending_of_ok. }
  destruct (takeBase_all existing max Hval Hinj Hmax (sort_by (pending_leb jsonParse) (al_pending a1))
              {| al_names := al_names a1; al_errors := al_errors a1; al_used := map snd existing; al_pending := [] |})
    as (N2 & P2 & E2 & L2 & K2); [done|constructor|done|].
  set (a2 := fold_left takeBase _ _) in *. cbn [al_used al_pending al_names al_errors] in *.
  destruct (takeSuffix_all existing kind max Hval Hinj Hmax (al_pending a2)
              {| al_names := al_names a2; al_errors := al_errors a2; al_used := al_used a2; al_pending := [] |})
    as (N3 & S3 & R3); [done|done|].
  set (a3 := fold_left (takeSuffix kind max) _ _) in *. cbn [al_used al_pending al_names al_errors names errors] in *.
  assert (Hkeys : forall k, k ∈ jkeys (al_names a2) \/ k ∈ map p_key (al_pending a2)
            <-> exists c, lastOf k cs = Some c /\ refused existing kind c = false).
  { intros k. rewrite K2, K1, Hperm, P1. rewrite elem_of_nil. unfold jkeys. simpl. rewrite elem_of_nil. split.
    - intros [[[]|(c & -> & Hc)%list_elem_of_fmap]|[[]|(p & -> & (c & HcD & Hc)%list_elem_of_omap)%list_elem_of_fmap]].
      + apply list_elem_of_In, filter_In in Hc as [Hc%list_elem_of_In Hk]. exists c.
        split; [by apply in_distinct|]. apply (kept_or_pending _ _ max); auto.
      + destruct (pending_of_ok _ _ _ _ _ Hc) as [-> _]. exists c. split; [by apply in_distinct|].
        apply (kept_or_pending _ _ max); [done|]. left. by eexists.
    - intros (c & Hc & Hr). destruct (lastOf_key _ _ _ Hc) as [<- _]. apply in_distinct in Hc.
      apply (kept_or_pending _ _ max) in Hr as [[p Hp]|Hk]; [| |done].
      + right. right. apply list_elem_of_fmap. exists p. split; [by destruct (pending_of_ok _ _ _ _ _ Hp) as [-> _]|].
        apply list_elem_of_omap. eauto.
      + left. right. apply list_elem_of_fmap. exists c. split; [done|].
        apply list_elem_of_In, filter_In. by rewrite <- list_elem_of_In. }
  split; [by eexists|]. split; [by intros k Hk%S3; apply Hkeys|]. intros d Hd Hroom k.
  assert (Hlen : length (sort_by (pending_leb jsonParse) (al_pending a1)) <= length cs).
  { rewrite Hperm, P1. etransitivity; [apply length_omap|]. apply length_distinct. }
  rewrite length_map in L2. simpl in L2. destruct (R3 d Hd) as [E3 K3]; [lia|]. split; [by rewrite K3, Hkeys|].
  rewrite E3, E2, E1. destruct (lastOf k cs) as [c|] eqn:Ec.
  - destruct (lastOf_key _ _ _ Ec) as [<- _]. apply in_distinct in Ec. destruct (refused existing kind c) eqn:Er.
    + rewrite bool_decide_eq_true_2; [done|]. apply list_elem_of_fmap. exists c. split; [done|].
      apply list_elem_of_In, filter_In. by rewrite <- list_elem_of_In.
    + rewrite bool_decide_eq_false_2; [done|]. intros (c' & Hk & Hc')%list_elem_of_fmap.
      apply list_elem_of_In, filter_In in Hc' as [Hc'%list_elem_of_In Hr].
      apply in_distinct in Hc'. apply in_distinct in Ec. rewrite <- Hk in Hc'. congruence.
  - rewrite bool_decide_eq_false_2; [done|]. intros (c' & -> & Hc')%list_elem_of_fmap.
    apply list_elem_of_In, filter_In in Hc' as [Hc'%list_elem_of_In _].
    apply in_distinct in Hc'. congruence.
Qed.
End AllocateSpec.

(** ** Properties *)

(** A projected tool name fits the limit, and the permission rule of its
    server matches it. *)
Theorem built_name_matches (serverName toolName n : jstr)
    (Hn : buildMcpToolRuntimeName serverName toolName = Some n) :
  length n <= MCP_RUNTIME_TOOL_NAME_MAX_LENGTH
  /\ exists m, buildMcpServerRuntimeName serverName = Some m /\ matchesMcpServerRuntimeName n m = true.
Proof.
  unfold buildMcpToolRuntimeName in Hn. destruct (buildMcpServerRuntimeName serverName) as [m|] eqn:Em; [|done].
  pose proof Em as Es. unfold buildMcpServerRuntimeName in Es. cbn [mbind option_bind] in Hn.
  destruct (normalizeMcpNameSegment serverName name_server) as [a|] eqn:Ea; [|done]. cbn [mbind option_bind] in Es.
  destruct (shortenMcpNameSegment a MCP_RUNTIME_SERVER_SEGMENT_MAX_LENGTH name_server) as [a'|] eqn:Ea'; [|done]. apply (inj Some) in Es as <-.
  apply normalize_valid in Ea. apply shorten_valid in Ea' as [Va La]; [|done].
  destruct (normalizeMcpNameSegment toolName name_tool) as [b|] eqn:Eb; [|done]. cbn [mbind option_bind] in Hn.
  apply normalize_valid in Eb. set (room := _ - _ - _) in Hn. destruct (shortenMcpNameSegment b room name_tool) as [b'|] eqn:Eb'; [|done]. subst room.
  apply shorten_valid in Eb' as [Vb Lb]; [|done]. apply (inj Some) in Hn as <-.
  unfold MCP_RUNTIME_TOOL_NAME_MAX_LENGTH, MCP_RUNTIME_SERVER_SEGMENT_MAX_LENGTH in *. split.
  - rewrite !length_app. rewrite length_app in Lb. cbn [length js] in *. lia.
  - eexists; split; [done|]. change ((js "mcp__" ++ a') ++ js "__" ++ b') with (toolRuntimeName a' b').
    rewrite matches_owner by done. by apply bool_decide_eq_true.
Qed.

Lemma built_name_matches_witness :
  exists m, buildMcpServerRuntimeName (js "My Server!") = Some m
            /\ matchesMcpServerRuntimeName (js "mcp__My_Server__a_b-c") m = true.
Proof. apply (built_name_matches (js "My Server!") (js "_a  b-c")). reflexivity. Defined.
