(* ===== verification/McpRegistry.v ===== *)
(** * The MCP name registry

    [packages/agent-modules/mcp/src/runtime/name-registry.ts]: the registry's
    state, its two operations, and its transactions on a file.  The file is its
    parsed JSON value; properties of an entry that the registry never reads are
    not represented.  The lock excludes other processes, so a transaction is one
    step. *)
From S2P Require Import Prelude JsValue PermContext RgFingerprint McpNames.

(** ** Data *)
Record ToolAssignment := { t_raw : jstr; t_segment : jstr }.
Record ServerAssignment := {
  s_key : jstr;
  s_raw : jstr;
  s_segment : jstr;
  s_tools : list ToolAssignment;
}.
#[export] Instance ToolAssignment_eq_dec : EqDecision ToolAssignment.
Proof. solve_decision. Defined.
#[export] Instance ServerAssignment_eq_dec : EqDecision ServerAssignment.
Proof. solve_decision. Defined.
(** [State]; its [version] is always 1. *)
Abbreviation State := (list ServerAssignment) (only parsing).


Section Registry.
Context (jsonParse : jstr -> option json).

(** ** The registry *)
Definition serverSegments (st : State) : jmap jstr jstr :=
  jof_list (map (fun e => (s_key e, s_segment e)) st).

Definition addServer (ns : jmap jstr jstr) (st : State) (c : McpNameCandidate) : State :=
  match jget (key c) ns with
  | Some (x :: segment) =>
    if existsb (fun e => str_eqb (s_key e) (key c)) st then st
    else st ++ [{| s_key := key c; s_raw := name c; s_segment := x :: segment; s_tools := [] |}]
  | _ => st
  end.

Definition assignServers (candidates : list McpNameCandidate) (st : State) : McpNameAssignments * State :=
  let result := allocate jsonParse candidates (serverSegments st) name_server MCP_RUNTIME_SERVER_SEGMENT_MAX_LENGTH in
  (result, fold_left (addServer (names result)) candidates st).

Definition addTool (ns : jmap jstr jstr) (ts : list ToolAssignment) (raw : jstr) : list ToolAssignment :=
  match jget raw ns with
  | Some (x :: segment) =>
    if existsb (fun t => str_eqb (t_raw t) raw) ts then ts
    else ts ++ [{| t_raw := raw; t_segment := x :: segment |}]
  | _ => ts
  end.

Definition toolSegments (s : ServerAssignment) : jmap jstr jstr :=
  jof_list (map (fun t => (t_raw t, t_segment t)) (s_tools s)).

Definition with_tools (s : ServerAssignment) (ts : list ToolAssignment) : ServerAssignment :=
  {| s_key := s_key s; s_raw := s_raw s; s_segment := s_segment s; s_tools := ts |}.

(** [state.servers.find(...)] and the update of the entry found. *)
Fixpoint updateServer (serverKey : jstr) (f : ServerAssignment -> ServerAssignment) (st : State) : State :=
  match st with
  | [] => []
  | e :: rest => if str_eqb (s_key e) serverKey then f e :: rest else e :: updateServer serverKey f rest
  end.

(** [None]: the server has no name yet, an exception. *)
Definition assignTools (serverKey : jstr) (rawNames : list jstr) (st : State) :
    option (McpNameAssignments * State) :=
  match List.find (fun e => str_eqb (s_key e) serverKey) st with
  | None => None
  | Some server =>
    let result := allocate jsonParse (map (fun n => {| key := n; name := n |}) rawNames) (toolSegments server) name_tool
                    (MCP_RUNTIME_TOOL_NAME_MAX_LENGTH - 7 - length (s_segment server)) in
    Some ({| names := map (fun e => (fst e, toolRuntimeName (s_segment server) (snd e))) (names result);
             errors := errors result |},
          updateServer serverKey (fun s => with_tools s (fold_left (addTool (names result)) rawNames (s_tools s))) st)
  end.

(** ** Transactions *)
Inductive RegistryCall :=
  | AssignServers (candidates : list McpNameCandidate)
  | AssignTools (serverKey : jstr) (rawNames : list jstr).

(** [run()] on the instance's state; the state is as before when it throws. *)
Definition run (c : RegistryCall) (st : State) : option McpNameAssignments * State :=
  match c with
  | AssignServers candidates => let '(r, st') := assignServers candidates st in (Some r, st')
  | AssignTools serverKey rawNames =>
    match assignTools serverKey rawNames st with
    | None => (None, st)
    | Some (r, st') => (Some r, st')
    end
  end.

Definition toolJson (t : ToolAssignment) : json :=
  JObj [(js "raw", JStr (t_raw t)); (js "segment", JStr (t_segment t))].
Definition serverJson (s : ServerAssignment) : json :=
  JObj [(js "key", JStr (s_key s)); (js "raw", JStr (s_raw s)); (js "segment", JStr (s_segment s));
        (js "tools", JArr (map toolJson (s_tools s)))].
(** The value [JSON.stringify(this.state)] writes. *)
Definition stateJson (st : State) : json :=
  JObj [(js "version", JNum (NumInt 1)); (js "servers", JArr (map serverJson st))].

Definition property (v : json) (k : jstr) : option json :=
  match v with JObj fields => jget k fields | _ => None end.

(** The loops of [parseState] with the sets of what was seen; [None] is thrown. *)
Fixpoint parseTools (serverSegment : jstr) (raws segments : list jstr) (l : list json) :
    option (list ToolAssignment) :=
  match l with
  | [] => Some []
  | v :: rest =>
    match property v (js "raw"), property v (js "segment") with
    | Some (JStr r), Some (JStr seg) =>
      if negb (validSegment seg)
         || (MCP_RUNTIME_TOOL_NAME_MAX_LENGTH <? length seg + length serverSegment + 7)%nat
         || bool_decide (r ∈ raws) || bool_decide (seg ∈ segments)
      then None
      else ts ← parseTools serverSegment (r :: raws) (seg :: segments) rest;
           Some ({| t_raw := r; t_segment := seg |} :: ts)
    | _, _ => None
    end
  end.

Fixpoint parseServers (keys segments : list jstr) (l : list json) : option State :=
  match l with
  | [] => Some []
  | v :: rest =>
    match property v (js "key"), property v (js "raw"), property v (js "segment"), property v (js "tools") with
    | Some (JStr k), Some (JStr r), Some (JStr seg), Some (JArr tools) =>
      if negb (validSegment seg) || (MCP_RUNTIME_SERVER_SEGMENT_MAX_LENGTH <? length seg)%nat
         || bool_decide (k ∈ keys) || bool_decide (seg ∈ segments)
      then None
      else ts ← parseTools seg [] [] tools;
           st ← parseServers (k :: keys) (seg :: segments) rest;
           Some ({| s_key := k; s_raw := r; s_segment := seg; s_tools := ts |} :: st)
    | _, _, _, _ => None
    end
  end.

Definition parseState (v : json) : option State :=
  match property v (js "version"), property v (js "servers") with
  | Some (JNum (NumInt 1)), Some (JArr servers) => parseServers [] [] servers
  | _, _ => None
  end.

(** A transaction of an instance with a file: the file ([None]: it does not
    exist) is read, the call runs, and the file is replaced when the state has
    changed.  A file that does not parse is an exception. *)
Definition diskTransaction (c : RegistryCall) (file : option json) :
    option McpNameAssignments * option json :=
  match match file with None => Some [] | Some v => parseState v end with
  | None => (None, file)
  | Some before =>
    let '(r, after) := run c before in
    (r, if bool_decide (before = after) then file else Some (stateJson after))
  end.

(** Any sequence of calls, on memory and on a file. *)
Fixpoint runs (calls : list RegistryCall) (st : State) : list (option McpNameAssignments) * State :=
  match calls with
  | [] => ([], st)
  | c :: rest =>
    let '(r, st1) := run c st in
    let '(rs, st2) := runs rest st1 in (r :: rs, st2)
  end.

Fixpoint diskRuns (calls : list RegistryCall) (file : option json) :
    list (option McpNameAssignments) * option json :=
  match calls with
  | [] => ([], file)
  | c :: rest =>
    let '(r, f1) := diskTransaction c file in
    let '(rs, f2) := diskRuns rest f1 in (r :: rs, f2)
  end.
End Registry.

(** ** Lemmas: recording the names *)
Lemma names_ok_valid existing max ns used k v :
  names_ok existing max ns used -> jget k ns = Some v -> exists x v', v = x :: v' /\ validSegment v = true /\ length v <= max.
Proof. intros Hok H. destruct (ok_name _ _ _ _ Hok _ _ H) as (Hv & Hl & _). destruct v as [|x v]; [done|by eauto]. Qed.

(** [addServer] and [addTool] are the same loop on their entries. *)
Section Record.
Context {X C : Type} (fk fs : X -> jstr) (ck : C -> jstr) (mk : C -> jstr -> X).
Hypothesis mk_key : forall c s, fk (mk c s) = ck c.
Hypothesis mk_seg : forall c s, fs (mk c s) = s.

Definition addEntry (ns : jmap jstr jstr) (l : list X) (c : C) : list X :=
  match jget (ck c) ns with
  | Some (x :: segment) =>
    if existsb (fun e => str_eqb (fk e) (ck c)) l then l else l ++ [mk c (x :: segment)]
  | _ => l
  end.

Definition entries (l : list X) : jmap jstr jstr := map (fun e => (fk e, fs e)) l.

Lemma existsb_key (l : list X) k : existsb (fun e => str_eqb (fk e) k) l = bool_decide (k ∈ map fk l).
Proof.
  apply eq_bool_prop_intro. rewrite !Is_true_true, bool_decide_eq_true, existsb_exists. split.
  - intros (e & He & <-%bool_decide_eq_true). apply list_elem_of_fmap. exists e. by rewrite list_elem_of_In.
  - intros (e & -> & He)%list_elem_of_fmap. exists e. rewrite <- list_elem_of_In. split; [done|].
    by apply bool_decide_eq_true.
Qed.

Lemma add_entries max ns used l0 : forall cs,
  names_ok (entries l0) max ns used -> NoDup (map fk l0) -> NoDup (map fs l0) ->
  exists ext, fold_left (addEntry ns) cs l0 = l0 ++ ext
    /\ NoDup (map fk (l0 ++ ext)) /\ NoDup (map fs (l0 ++ ext))
    /\ Forall (fun e => jget (fk e) ns = Some (fs e) /\ exists c s, e = mk c s) ext
    /\ (forall c v, c ∈ cs -> jget (ck c) ns = Some v -> exists e, e ∈ l0 ++ ext /\ fk e = ck c /\ fs e = v).
Proof.
  intros cs Hok Hk0 Hs0. induction cs as [|c cs (ext & E & Hk & Hs & Hx & Hr)] using rev_ind.
  { exists []. rewrite app_nil_r. split_and!; [done..|constructor|]. intros c v Hc. by apply elem_of_nil in Hc. }
  rewrite fold_left_app, E. cbn [fold_left]. unfold addEntry at 1. rewrite existsb_key.
  assert (Hold : forall e v, e ∈ l0 ++ ext -> jget (fk e) ns = Some v -> fs e = v).
  { intros e v [He|He]%elem_of_app Hv.
    - destruct (ok_name _ _ _ _ Hok _ _ Hv) as (_ & _ & _ & Hc).
      assert (He' : jget (fk e) (entries l0) = Some (fs e)).
      { apply elem_jget; [by unfold jkeys, entries; rewrite map_map|]. apply list_elem_of_fmap. by exists e. }
      destruct Hc as [Hc|[Hc _]]; congruence.
    - rewrite list.Forall_forall in Hx. destruct (Hx e He) as [Hx' _]. congruence. }
  assert (Hrec : forall c' v, c' ∈ cs ++ [c] -> jget (ck c') ns = Some v -> ck c ∈ map fk (l0 ++ ext) ->
            exists e, e ∈ l0 ++ ext /\ fk e = ck c' /\ fs e = v).
  { intros c' v [Hc'| ->%list_elem_of_singleton]%elem_of_app Hv Hin; [eauto|].
    apply list_elem_of_fmap in Hin as (e & Hke & He). exists e. split; [done|]. split; [done|].
    apply Hold; [done|]. by rewrite <- Hke. }
  destruct (jget (ck c) ns) as [[|x v]|] eqn:Ec.
  - by destruct (names_ok_valid _ _ _ _ _ _ Hok Ec) as (? & ? & ? & _).
  - case_bool_decide as Hin; [exists ext; by eauto 6|]. exists (ext ++ [mk c (x :: v)]).
    assert (Hnew : x :: v ∉ map fs (l0 ++ ext)).
    { intros (e & Hv & [He|He]%elem_of_app)%list_elem_of_fmap.
      - destruct (ok_name _ _ _ _ Hok _ _ Ec) as (_ & _ & _ & [Hc|[_ Hc]]).
        + apply Hin. apply jget_Some_elem in Hc. apply list_elem_of_fmap in Hc as (e' & [= Hke _] & He').
          rewrite Hke. apply list_elem_of_fmap. exists e'. split; [done|]. apply elem_of_app. by left.
        + apply Hc. unfold entries. rewrite map_map. apply list_elem_of_fmap. by exists e.
      - rewrite list.Forall_forall in Hx. destruct (Hx e He) as [He' _]. rewrite <- Hv in He'.
        apply Hin. rewrite (ok_inj _ _ _ _ Hok _ _ _ Ec He'). apply list_elem_of_fmap. exists e.
        split; [done|]. apply elem_of_app. by right. }
    rewrite !app_assoc. split_and!; [done| | |..].
    + rewrite map_app. apply NoDup_app. split_and!; [done| |apply NoDup_singleton].
      csimpl. rewrite mk_key. set_solver.
    + rewrite map_app. apply NoDup_app. split_and!; [done| |apply NoDup_singleton].
      csimpl. rewrite mk_seg. set_solver.
    + apply Forall_app. split; [done|]. apply Forall_singleton. rewrite mk_key, mk_seg. eauto.
    + intros c' v' [Hc'| ->%list_elem_of_singleton]%elem_of_app Hv'.
      * destruct (Hr c' v' Hc' Hv') as (e & He & ?). exists e. split; [|done]. apply elem_of_app. by left.
      * exists (mk c (x :: v)). rewrite mk_key, mk_seg. split; [apply elem_of_app; right; by left|].
        split; [done|congruence].
  - exists ext. split_and!; [done..|]. intros c' v [Hc'| ->%list_elem_of_singleton]%elem_of_app Hv; [eauto|congruence].
Qed.

Lemma entries_inj (l : list X) k k' v :
  NoDup (map fs l) -> jget k (entries l) = Some v -> jget k' (entries l) = Some v -> k = k'.
Proof.
  intros Hs H1%jget_Some_elem H2%jget_Some_elem.
  apply list_elem_of_fmap in H1 as (e & H1 & He), H2 as (e' & H2 & He').
  injection H1 as -> ->. injection H2 as -> Hv.
  f_equal. by apply (NoDup_map_inj fs l).
Qed.
End Record.

(** ** The registry's invariant *)
Record wf_tools (segment : jstr) (ts : list ToolAssignment) : Prop := {
  tools_raws : NoDup (map t_raw ts);
  tools_segments : NoDup (map t_segment ts);
  tools_valid : Forall (fun t => validSegment (t_segment t) = true
    /\ length (t_segment t) + length segment + 7 <= MCP_RUNTIME_TOOL_NAME_MAX_LENGTH) ts;
}.

Definition wf_server (s : ServerAssignment) : Prop :=
  validSegment (s_segment s) = true /\ length (s_segment s) <= MCP_RUNTIME_SERVER_SEGMENT_MAX_LENGTH
  /\ wf_tools (s_segment s) (s_tools s).

Record wf_state (st : State) : Prop := {
  state_keys : NoDup (map s_key st);
  state_segments : NoDup (map s_segment st);
  state_servers : Forall wf_server st;
}.

(** What later calls may do to a server and to the list of servers. *)
Definition grown (s s' : ServerAssignment) : Prop :=
  s_key s' = s_key s /\ s_raw s' = s_raw s /\ s_segment s' = s_segment s
  /\ exists ts, s_tools s' = s_tools s ++ ts.

Definition extends (st st' : State) : Prop :=
  exists st1 ext, st' = st1 ++ ext /\ Forall2 grown st st1.

#[export] Instance grown_preorder : PreOrder grown.
Proof.
  split.
  - intros s. split_and!; try done. exists []. by rewrite app_nil_r.
  - intros s1 s2 s3 (K & R & S & ts & T) (K' & R' & S' & ts' & T').
    split_and!; [congruence..|]. exists (ts ++ ts'). by rewrite T', T, app_assoc.
Qed.

#[export] Instance extends_preorder : PreOrder extends.
Proof.
  split.
  - intros st. exists st, []. by rewrite app_nil_r.
  - intros st1 st2 st3 (m & e & -> & H1) (m' & e' & -> & H2).
    apply Forall2_app_inv_l in H2 as (a & b & H2 & H3 & ->).
    exists a, (b ++ e'). rewrite app_assoc. split; [done|]. by etransitivity.
Qed.

Definition serverOf (st : State) (k : jstr) : option ServerAssignment :=
  List.find (fun e => str_eqb (s_key e) k) st.

Lemma serverOf_Some st k s : serverOf st k = Some s -> s ∈ st /\ s_key s = k.
Proof. intros [H1%list_elem_of_In H2%bool_decide_eq_true]%find_some. done. Qed.

Lemma serverOf_elem st s : NoDup (map s_key st) -> s ∈ st -> serverOf st (s_key s) = Some s.
Proof.
  unfold serverOf, str_eqb. induction st as [|e st IH]; csimpl; [intros _ H; by apply elem_of_nil in H|].
  intros [He Hnd]%NoDup_cons [->|Hs]%elem_of_cons.
  - by rewrite bool_decide_eq_true_2.
  - rewrite bool_decide_eq_false_2; [auto|]. intros Heq. apply He. rewrite Heq.
    apply list_elem_of_fmap. by exists s.
Qed.

Lemma serverOf_extends st st' k s :
  extends st st' -> serverOf st k = Some s -> exists s', serverOf st' k = Some s' /\ grown s s'.
Proof.
  intros (m & e & -> & H). unfold serverOf. induction H as [|x y l l' Hxy _ IH]; cbn [List.find app]; [done|].
  destruct Hxy as (K & R) eqn:E. rewrite K. destruct (str_eqb _ _); [|done]. intros [= <-]. by exists y.
Qed.

Lemma updateServer_split k f st s :
  serverOf st k = Some s -> exists l1 l2, st = l1 ++ s :: l2 /\ updateServer k f st = l1 ++ f s :: l2.
Proof.
  unfold serverOf. induction st as [|e st IH]; cbn [List.find updateServer]; [done|].
  destruct (str_eqb _ _).
  - intros [= ->]. by exists [], st.
  - intros (l1 & l2 & -> & ->)%IH. by exists (e :: l1), l2.
Qed.

Lemma wf_nil : wf_state [].
Proof. by repeat constructor. Qed.

Lemma serverSegments_entries st : NoDup (map s_key st) -> serverSegments st = entries s_key s_segment st.
Proof. intros H. unfold serverSegments, entries. apply jof_list_id. by rewrite map_map. Qed.

Lemma toolSegments_entries s : NoDup (map t_raw (s_tools s)) -> toolSegments s = entries t_raw t_segment (s_tools s).
Proof. intros H. unfold toolSegments, entries. apply jof_list_id. by rewrite map_map. Qed.

(** What [allocate] needs of the names already given. *)
Definition existing_ok (existing : jmap jstr jstr) (max : nat) : Prop :=
  (forall k v, jget k existing = Some v -> validSegment v = true /\ length v <= max)
  /\ (forall k k' v, jget k existing = Some v -> jget k' existing = Some v -> k = k').

Lemma servers_existing st :
  wf_state st -> existing_ok (entries s_key s_segment st) MCP_RUNTIME_SERVER_SEGMENT_MAX_LENGTH.
Proof.
  intros [Hk Hs Hv]. split.
  - intros k v (e & [= -> ->] & He)%jget_Some_elem%list_elem_of_fmap.
    rewrite list.Forall_forall in Hv. by destruct (Hv e He) as (? & ? & _).
  - intros k k' v. by apply entries_inj.
Qed.

(** The room of a tool's segment. *)
Definition toolRoom (s : ServerAssignment) : nat :=
  MCP_RUNTIME_TOOL_NAME_MAX_LENGTH - 7 - length (s_segment s).

Lemma toolRoom_bounds s : wf_server s -> 25 <= toolRoom s /\ toolRoom s + length (s_segment s) + 7 = 80.
Proof.
  intros (_ & Hl & _). unfold toolRoom, MCP_RUNTIME_TOOL_NAME_MAX_LENGTH, MCP_RUNTIME_SERVER_SEGMENT_MAX_LENGTH in *. lia.
Qed.

Lemma tools_existing s : wf_server s -> existing_ok (entries t_raw t_segment (s_tools s)) (toolRoom s).
Proof.
  intros Hw. destruct (toolRoom_bounds s Hw) as [_ Hroom]. destruct Hw as (_ & _ & [Hr Hs Hv]). split.
  - intros k v (e & [= -> ->] & He)%jget_Some_elem%list_elem_of_fmap.
    rewrite list.Forall_forall in Hv. destruct (Hv e He) as [? Hl]. split; [done|].
    unfold MCP_RUNTIME_TOOL_NAME_MAX_LENGTH in Hl. lia.
  - intros k k' v. by apply entries_inj.
Qed.

Lemma jget_map_values {V W} (f : V -> W) (m : jmap jstr V) k :
  jget k (map (fun e => (fst e, f (snd e))) m) = f <$> jget k m.
Proof. induction m as [|[k' v] m IH]; simpl; [done|]. by case_decide. Qed.

Section Invariant.
Context (jsonParse : jstr -> option json).

(** [allocate] followed by the loop that records the names. *)
Lemma allocate_record {X C} (fk fs : X -> jstr) (ck : C -> jstr) (mk : C -> jstr -> X) cand kind max l cs :
  (forall c s, fk (mk c s) = ck c) -> (forall c s, fs (mk c s) = s) -> (forall c, key (cand c) = ck c) ->
  existing_ok (entries fk fs l) max -> 1 <= max -> NoDup (map fk l) -> NoDup (map fs l) ->
  let r := allocate jsonParse (map cand cs) (entries fk fs l) kind max in
  exists ext, fold_left (addEntry fk ck mk (names r)) cs l = l ++ ext
    /\ NoDup (map fk (l ++ ext)) /\ NoDup (map fs (l ++ ext))
    /\ Forall (fun e => validSegment (fs e) = true /\ length (fs e) <= max /\ exists c s, e = mk c s) ext
    /\ forall k v, jget k (names r) = Some v -> exists e, e ∈ l ++ ext /\ fk e = k /\ fs e = v.
Proof.
  intros Hmk Hms Hcand [Hval Hinj] Hmax Hk Hs r.
  destruct (allocate_spec jsonParse _ kind max Hval Hinj Hmax (map cand cs)) as ((used & Hok) & Hkeys & _).
  fold r in Hok, Hkeys.
  destruct (add_entries fk fs ck mk Hmk Hms max (names r) used l cs Hok Hk Hs) as (ext & E & Hk' & Hs' & Hx & Hr).
  exists ext. split_and!; [done..| |].
  - eapply list.Forall_impl; [exact Hx|]. intros e [He ?]. destruct (ok_name _ _ _ _ Hok _ _ He) as (? & ? & _). done.
  - intros k v Hkv. destruct (Hkeys k) as (c & [Hck Hc]%lastOf_key & _); [apply jget_keys; by eexists|].
    apply list_elem_of_fmap in Hc as (c' & -> & Hc'). rewrite Hcand in Hck. subst k. by eapply Hr.
Qed.

Lemma assignServers_spec cs st :
  wf_state st ->
  let '(r, st') := assignServers jsonParse cs st in
  wf_state st' /\ extends st st'
  /\ forall k v, jget k (names r) = Some v -> exists s, serverOf st' k = Some s /\ s_segment s = v.
Proof.
  intros Hw. pose proof (servers_existing st Hw) as Hex. destruct Hw as [Hk Hs Hv]. unfold assignServers.
  rewrite serverSegments_entries by done.
  destruct (allocate_record s_key s_segment key
              (fun c x => {| s_key := key c; s_raw := name c; s_segment := x; s_tools := [] |})
              id name_server MCP_RUNTIME_SERVER_SEGMENT_MAX_LENGTH st cs) as (ext & E & Hk' & Hs' & Hx & Hr); try done.
  { unfold MCP_RUNTIME_SERVER_SEGMENT_MAX_LENGTH. lia. }
  rewrite map_id in *. change (addServer ?ns) with (addEntry s_key key
    (fun c x => {| s_key := key c; s_raw := name c; s_segment := x; s_tools := [] |}) ns). rewrite E.
  split_and!.
  - split; [done..|]. apply Forall_app. split; [done|]. eapply list.Forall_impl; [exact Hx|].
    intros e (? & ? & c & x & ->). split_and!; [done..|]. split; constructor.
  - by exists st, ext.
  - intros k v (e & He & <- & <-)%Hr. exists e. split; [|done]. by apply serverOf_elem.
Qed.

Lemma assignTools_spec k raws st :
  wf_state st ->
  match assignTools jsonParse k raws st with
  | None => serverOf st k = None
  | Some (r, st') =>
    wf_state st' /\ extends st st'
    /\ exists s, serverOf st' k = Some s
       /\ forall raw n, jget raw (names r) = Some n ->
          exists t, t ∈ s_tools s /\ t_raw t = raw /\ n = toolRuntimeName (s_segment s) (t_segment t)
  end.
Proof.
  intros [Hk Hs Hv]. unfold assignTools. fold (serverOf st k). destruct (serverOf st k) as [s|] eqn:Es; [|done].
  destruct (serverOf_Some _ _ _ Es) as [Hin Hsk]. assert (Hw : wf_server s) by (rewrite list.Forall_forall in Hv; auto).
  pose proof (tools_existing s Hw) as Hex. destruct (toolRoom_bounds s Hw) as [Hroom Hroom'].
  destruct Hw as (Hval & Hlen & [Ht1 Ht2 Ht3]). rewrite toolSegments_entries by done. fold (toolRoom s).
  destruct (allocate_record t_raw t_segment id (fun n x => {| t_raw := n; t_segment := x |})
              (fun n => {| key := n; name := n |}) name_tool (toolRoom s) (s_tools s) raws)
    as (ext & E & Hk' & Hs' & Hx & Hr); try done; [lia|].
  change (addTool ?ns) with (addEntry t_raw id (fun n x => {| t_raw := n; t_segment := x |}) ns).
  set (r := allocate _ _ _ _ _) in *. set (f := fun s0 => with_tools s0 _).
  assert (Ef : f s = with_tools s (s_tools s ++ ext)) by (unfold f; by rewrite E).
  destruct (updateServer_split k f st s Es) as (l1 & l2 & -> & Eu). rewrite Eu, Ef.
  assert (Hwf : wf_server (with_tools s (s_tools s ++ ext))).
  { split_and!; [done..|]. cbn [with_tools s_segment s_tools]. split; [done..|]. apply Forall_app. split; [done|].
    eapply list.Forall_impl; [exact Hx|]. intros t (? & ? & _). split; [done|].
    unfold MCP_RUNTIME_TOOL_NAME_MAX_LENGTH. lia. }
  assert (Hst : wf_state (l1 ++ with_tools s (s_tools s ++ ext) :: l2)).
  { split; [by rewrite map_app in *|by rewrite map_app in *|].
    apply Forall_app in Hv as [? [_ ?]%Forall_cons]. apply Forall_app. split; [done|]. by constructor. }
  split_and!; [done| |].
  - exists (l1 ++ with_tools s (s_tools s ++ ext) :: l2), []. rewrite app_nil_r. split; [done|].
    apply Forall2_app; [done|]. constructor; [|done]. split_and!; try done. by exists ext.
  - exists (with_tools s (s_tools s ++ ext)). split.
    + rewrite <- Hsk. apply (serverOf_elem _ (with_tools s (s_tools s ++ ext))); [by apply Hst|].
      apply elem_of_app. right. by left.
    + intros raw n Hn. cbn [names] in Hn. rewrite jget_map_values in Hn.
      destruct (jget raw (names r)) as [v|] eqn:Ev; [|done]. injection Hn as <-.
      destruct (Hr _ _ Ev) as (t & ? & ? & <-). by exists t.
Qed.

(** Every call keeps the invariant, keeps what was assigned, and answers with
    what is assigned. *)
Definition recorded (c : RegistryCall) (r : option McpNameAssignments) (st : State) : Prop :=
  match c, r with
  | AssignServers _, Some a =>
    forall k v, jget k (names a) = Some v -> exists s, serverOf st k = Some s /\ s_segment s = v
  | AssignTools k _, Some a =>
    exists s, serverOf st k = Some s
    /\ forall raw n, jget raw (names a) = Some n ->
       exists t, t ∈ s_tools s /\ t_raw t = raw /\ n = toolRuntimeName (s_segment s) (t_segment t)
  | _, None => True
  end.

Lemma run_spec c st :
  wf_state st ->
  let '(r, st') := run jsonParse c st in wf_state st' /\ extends st st' /\ recorded c r st'.
Proof.
  intros Hw. unfold run. destruct c as [cs|k raws].
  - pose proof (assignServers_spec cs st Hw) as H. by destruct (assignServers jsonParse cs st).
  - pose proof (assignTools_spec k raws st Hw) as H.
    by destruct (assignTools jsonParse k raws st) as [[r st']|].
Qed.

Lemma runs_spec calls : forall st,
  wf_state st -> wf_state (snd (runs jsonParse calls st)) /\ extends st (snd (runs jsonParse calls st)).
Proof.
  induction calls as [|c calls IH]; intros st Hw; cbn [runs snd]; [done|].
  pose proof (run_spec c st Hw) as H. destruct (run jsonParse c st) as [r st1]. destruct H as (Hw1 & Hx & _).
  destruct (IH st1 Hw1) as [Hw2 Hx2]. destruct (runs jsonParse calls st1) as [rs st2]. cbn [snd] in *.
  split; [done|]. by etransitivity.
Qed.

(** *** The file *)
Lemma parseTools_print seg ts : forall raws segs,
  wf_tools seg ts -> Forall (fun t => t_raw t ∉ raws /\ t_segment t ∉ segs) ts ->
  parseTools seg raws segs (map toolJson ts) = Some ts.
Proof.
  induction ts as [|t ts IH]; intros raws segs [Hr Hs Hv] Hf; [done|].
  csimpl in *. apply NoDup_cons in Hr as [Hr Hr']. apply NoDup_cons in Hs as [Hs Hs'].
  apply Forall_cons in Hv as [[Hval Hlen] Hv]. apply Forall_cons in Hf as [[Hf1 Hf2] Hf].
  rewrite Hval, !bool_decide_eq_false_2 by done. rewrite (proj2 (Nat.ltb_ge _ _)) by done. cbn [negb orb].
  rewrite IH; [by destruct t|done|]. rewrite list.Forall_forall in *. intros t' Ht'. destruct (Hf t' Ht').
  assert (t_raw t' ∈ map t_raw ts) by (apply list_elem_of_fmap; by exists t').
  assert (t_segment t' ∈ map t_segment ts) by (apply list_elem_of_fmap; by exists t').
  split; intros [E|?]%elem_of_cons; congruence.
Qed.

Lemma parseServers_print st : forall keys segs,
  wf_state st -> Forall (fun s => s_key s ∉ keys /\ s_segment s ∉ segs) st ->
  parseServers keys segs (map serverJson st) = Some st.
Proof.
  induction st as [|s st IH]; intros keys segs [Hk Hs Hv] Hf; [done|].
  csimpl in *. apply NoDup_cons in Hk as [Hk Hk']. apply NoDup_cons in Hs as [Hs Hs'].
  apply Forall_cons in Hv as [(Hval & Hlen & Ht) Hv]. apply Forall_cons in Hf as [[Hf1 Hf2] Hf].
  rewrite Hval, !bool_decide_eq_false_2 by done. rewrite (proj2 (Nat.ltb_ge _ _)) by done. cbn [negb orb].
  rewrite parseTools_print; [|done|by apply list.Forall_forall; intros t _; split; apply not_elem_of_nil].
  cbn [mbind option_bind]. rewrite IH; [by destruct s|done|]. rewrite list.Forall_forall in *.
  intros s' Hs''. destruct (Hf s' Hs'').
  assert (s_key s' ∈ map s_key st) by (apply list_elem_of_fmap; by exists s').
  assert (s_segment s' ∈ map s_segment st) by (apply list_elem_of_fmap; by exists s').
  split; intros [E|?]%elem_of_cons; congruence.
Qed.

Lemma parseState_print st : wf_state st -> parseState (stateJson st) = Some st.
Proof.
  intros Hw. unfold parseState. cbn -[parseServers]. apply parseServers_print; [done|].
  apply list.Forall_forall. intros s _. split; apply not_elem_of_nil.
Qed.

(** A file that holds a state. *)
Definition holdsState (file : option json) (st : State) : Prop :=
  match file with None => st = [] | Some v => v = stateJson st end.

Lemma diskTransaction_run c file st :
  wf_state st -> holdsState file st ->
  let '(r, st') := run jsonParse c st in
  fst (diskTransaction jsonParse c file) = r /\ holdsState (snd (diskTransaction jsonParse c file)) st'.
Proof.
  intros Hw Hf. unfold diskTransaction.
  assert (E : match file with None => Some [] | Some v => parseState v end = Some st).
  { destruct file as [v|]; simpl in Hf; subst; [by apply parseState_print|done]. }
  rewrite E. destruct (run jsonParse c st) as [r st']. split; [done|]. cbn [snd].
  case_bool_decide; by subst.
Qed.

Lemma diskRuns_runs calls : forall file st,
  wf_state st -> holdsState file st ->
  fst (diskRuns jsonParse calls file) = fst (runs jsonParse calls st)
  /\ holdsState (snd (diskRuns jsonParse calls file)) (snd (runs jsonParse calls st)).
Proof.
  induction calls as [|c calls IH]; intros file st Hw Hf; cbn [runs diskRuns]; [done|].
  pose proof (diskTransaction_run c file st Hw Hf) as Hd. pose proof (run_spec c st Hw) as Hr.
  destruct (run jsonParse c st) as [r st1]. destruct (diskTransaction jsonParse c file) as [r' f1].
  cbn [fst snd] in Hd. destruct Hd as [-> Hf1], Hr as [Hw1 _]. destruct (IH f1 st1 Hw1 Hf1) as [H1 H2].
  destruct (diskRuns jsonParse calls f1), (runs jsonParse calls st1). cbn [fst snd] in *. by subst.
Qed.
End Invariant.

(** What a caller gets for a key: nothing when it did not ask; the name it has;
    an error exactly when the name is empty or has control characters; otherwise
    a valid name of its own. *)
Definition served (existing : jmap jstr jstr) (kind : NameKind) (max : nat) (cs : list McpNameCandidate)
    (r : McpNameAssignments) : Prop :=
  forall k,
  match lastOf k cs with
  | None => jget k (names r) = None /\ jget k (errors r) = None
  | Some c =>
    match jget k existing, normalizeMcpNameSegment (name c) kind with
    | Some v, _ => jget k (names r) = Some v /\ jget k (errors r) = None
    | None, None => jget k (names r) = None /\ jget k (errors r) = Some (invalidName kind)
    | None, Some _ =>
      jget k (errors r) = None
      /\ exists v, jget k (names r) = Some v /\ validSegment v = true /\ length v <= max /\ v ∉ map snd existing
    end
  end.

Lemma allocate_served jsonParse existing kind max cs :
  existing_ok existing max -> 25 <= max -> (N.of_nat (3 + length existing + length cs) <= 10 ^ 20)%N ->
  served existing kind max cs (allocate jsonParse cs existing kind max).
Proof.
  intros [Hval Hinj] Hmax Hroom k.
  destruct (allocate_spec jsonParse existing kind max Hval Hinj ltac:(lia) cs) as ((used & Hok) & _ & Hr).
  destruct (Hr 20 ltac:(lia) Hroom k) as [Hkeys Herr]. clear Hr.
  set (r := allocate _ _ _ _ _) in *. clearbody r.
  assert (Hnone : (forall c, lastOf k cs = Some c -> refused existing kind c = true) -> jget k (names r) = None).
  { intros H. destruct (jget k (names r)) eqn:E; [|done]. exfalso.
    destruct (proj1 Hkeys) as (c & Hc & Hf); [apply jget_keys; by eexists|]. by rewrite H in Hf. }
  destruct (lastOf k cs) as [c|] eqn:Ec; [|split; [by apply Hnone|done]].
  destruct (lastOf_key _ _ _ Ec) as [Hk _].
  assert (Href : refused existing kind c = negb (jhas k existing)
            && match normalizeMcpNameSegment (name c) kind with None => true | _ => false end)
    by (unfold refused; by rewrite Hk).
  assert (Hsome : refused existing kind c = false -> is_Some (jget k (names r))).
  { intros Hf. apply jget_keys, Hkeys. by exists c. }
  unfold jhas in Href. destruct (jget k existing) as [v|] eqn:Ee.
  - rewrite Href in Herr. split; [|done]. destruct (Hsome Href) as [w Hw]. rewrite Hw. f_equal.
    destruct (ok_name _ _ _ _ Hok _ _ Hw) as (_ & _ & _ & [?|[? _]]); congruence.
  - destruct (normalizeMcpNameSegment _ _).
    + rewrite Href in Herr. split; [done|]. destruct (Hsome Href) as [w Hw]. exists w.
      destruct (ok_name _ _ _ _ Hok _ _ Hw) as (? & ? & _ & [?|[_ ?]]); [congruence|done].
    + rewrite Href in Herr. split; [|done]. apply Hnone. intros c' [= <-]. done.
Qed.

(** Answers of two calls, one after the other, about the same thing. *)
Definition agreeing (c1 : RegistryCall) (r1 : option McpNameAssignments) (c2 : RegistryCall)
    (r2 : option McpNameAssignments) : Prop :=
  match c1, r1, c2, r2 with
  | AssignServers _, Some a, AssignServers _, Some b =>
    forall k v w, jget k (names a) = Some v -> jget k (names b) = Some w -> v = w
  | AssignTools s1 _, Some a, AssignTools s2 _, Some b =>
    s1 = s2 -> forall raw n m, jget raw (names a) = Some n -> jget raw (names b) = Some m -> n = m
  | _, _, _, _ => True
  end.

Lemma recorded_agree c1 r1 st1 c2 r2 st2 :
  wf_state st2 -> extends st1 st2 -> recorded c1 r1 st1 -> recorded c2 r2 st2 -> agreeing c1 r1 c2 r2.
Proof.
  intros Hw Hx H1 H2. destruct c1 as [cs1|k1 raws1], r1 as [a|], c2 as [cs2|k2 raws2], r2 as [b|]; try done; simpl in *.
  - intros k v w Hv Hb. destruct (H1 _ _ Hv) as (s & Hs & <-), (H2 _ _ Hb) as (s2 & Hs2 & <-).
    destruct (serverOf_extends _ _ _ _ Hx Hs) as (s' & Hs' & (_ & _ & ? & _)). congruence.
  - intros <- raw n m Hn Hm. destruct H1 as (s & Hs & H1), H2 as (s2 & Hs2 & H2).
    destruct (H1 _ _ Hn) as (t & Ht & Hraw & ->), (H2 _ _ Hm) as (u & Hu & Hraw' & ->).
    destruct (serverOf_extends _ _ _ _ Hx Hs) as (s' & Hs' & (_ & _ & Hseg & ts & Hts)).
    assert (s' = s2) as -> by congruence. rewrite Hseg. do 2 f_equal.
    destruct (serverOf_Some _ _ _ Hs2) as [Hin _]. destruct Hw as [_ _ Hw]. rewrite list.Forall_forall in Hw.
    destruct (Hw _ Hin) as (_ & _ & Hwt). f_equal. eapply (NoDup_map_inj t_raw); [apply Hwt| |exact Hu|congruence].
    rewrite Hts. apply elem_of_app. by left.
Qed.

Lemma runtime_name_parts a t b u :
  validSegment a = true -> validSegment t = true -> validSegment b = true -> validSegment u = true ->
  toolRuntimeName a t = toolRuntimeName b u -> a = b /\ t = u.
Proof.
  intros Ha Ht Hb Hu E. pose proof (split_tool a t Ha Ht) as H1. rewrite E, split_tool in H1 by done.
  by injection H1.
Qed.

(** ** Properties *)
Definition reached (jsonParse : jstr -> option json) (calls : list RegistryCall) : State :=
  snd (runs jsonParse calls []).

Lemma reached_wf jsonParse calls : wf_state (reached jsonParse calls).
Proof. apply runs_spec, wf_nil. Qed.

(** C36: whatever was assigned before, the runtime name of a tool fits the limit,
    a server-level permission rule matches it exactly when the rule names the
    tool's own server, and no two tools share a name. *)
Theorem runtime_names_owned jsonParse calls (a b : ServerAssignment) (t u : ToolAssignment)
    (Ha : a ∈ reached jsonParse calls) (Hb : b ∈ reached jsonParse calls)
    (Ht : t ∈ s_tools a) (Hu : u ∈ s_tools b) :
  let public := toolRuntimeName (s_segment a) (t_segment t) in
  length public <= MCP_RUNTIME_TOOL_NAME_MAX_LENGTH
  /\ (matchesMcpServerRuntimeName public (js "mcp__" ++ s_segment b) = true <-> a = b)
  /\ (public = toolRuntimeName (s_segment b) (t_segment u) -> a = b /\ t = u).
Proof.
  intros public. destruct (reached_wf jsonParse calls) as [Hk Hs Hv]. rewrite list.Forall_forall in Hv.
  destruct (Hv _ Ha) as (Va & _ & [_ Hts Hta]), (Hv _ Hb) as (Vb & _ & [_ _ Htb]).
  rewrite list.Forall_forall in Hta, Htb. destruct (Hta _ Ht) as [Vt Ht80], (Htb _ Hu) as [Vu _].
  assert (Hown : s_segment a = s_segment b -> a = b) by (by apply (NoDup_map_inj s_segment _ a b Hs)).
  unfold public. split_and!.
  - unfold toolRuntimeName. rewrite !length_app. cbn [length js]. lia.
  - rewrite matches_owner by done. unfold str_eqb. rewrite bool_decide_eq_true. split; [done|by intros ->].
  - intros [Es Et]%runtime_name_parts; [|done..]. apply Hown in Es as <-. split; [done|].
    by apply (NoDup_map_inj t_segment (s_tools a)).
Qed.

(** a name once given is never given to another and never replaced: two
    answers about one server, or about one tool, agree, whatever is assigned
    between them. *)
Theorem answers_never_change jsonParse before between (c1 c2 : RegistryCall) :
  let '(r1, st1) := run jsonParse c1 (reached jsonParse before) in
  let '(r2, st2) := run jsonParse c2 (snd (runs jsonParse between st1)) in
  agreeing c1 r1 c2 r2.
Proof.
  pose proof (run_spec jsonParse c1 _ (reached_wf jsonParse before)) as H1.
  destruct (run jsonParse c1 _) as [r1 st1]. destruct H1 as (Hw1 & _ & Hr1).
  destruct (runs_spec jsonParse between st1 Hw1) as [Hw2 Hx].
  pose proof (run_spec jsonParse c2 _ Hw2) as H2. destruct (run jsonParse c2 _) as [r2 st2].
  destruct H2 as (Hw3 & Hx' & Hr2). eapply recorded_agree; [exact Hw3| |exact Hr1|exact Hr2].
  by etransitivity.
Qed.

(** a registry on a file answers as one in memory: the file it writes always
    parses back to the state it stands for, so a restart or another process
    loses nothing. *)
Theorem disk_registry_is_memory jsonParse (calls : list RegistryCall) :
  fst (diskRuns jsonParse calls None) = fst (runs jsonParse calls [])
  /\ match snd (diskRuns jsonParse calls None) with
     | None => reached jsonParse calls = []
     | Some v => v = stateJson (reached jsonParse calls) /\ parseState v = Some (reached jsonParse calls)
     end.
Proof.
  destruct (diskRuns_runs jsonParse calls None [] wf_nil) as [H1 H2]; [done|]. split; [done|].
  fold (reached jsonParse calls) in H2. destruct (snd (diskRuns jsonParse calls None)); [|done]. simpl in H2. subst.
  split; [done|]. apply parseState_print, reached_wf.
Qed.

(** Every candidate is served: a known key gets the name it has; a new one
    gets a valid name no server (or no tool of its server) has had, or an error
    when its raw name is empty or has control characters, and only then. *)
Theorem every_candidate_served jsonParse calls (servers : list McpNameCandidate) (s : ServerAssignment)
    (raws : list jstr) (Hs : s ∈ reached jsonParse calls)
    (Hservers : (N.of_nat (3 + length (reached jsonParse calls) + length servers) <= 10 ^ 20)%N)
    (Htools : (N.of_nat (3 + length (s_tools s) + length raws) <= 10 ^ 20)%N) :
  let candidates := map (fun n => {| key := n; name := n |}) raws in
  served (serverSegments (reached jsonParse calls)) name_server MCP_RUNTIME_SERVER_SEGMENT_MAX_LENGTH servers
    (fst (assignServers jsonParse servers (reached jsonParse calls)))
  /\ served (toolSegments s) name_tool (toolRoom s) candidates
       (allocate jsonParse candidates (toolSegments s) name_tool (toolRoom s)).
Proof.
  intros cands. pose proof (reached_wf jsonParse calls) as Hw. split.
  - unfold assignServers. cbn [fst]. rewrite serverSegments_entries by apply Hw. apply allocate_served.
    + by apply servers_existing.
    + unfold MCP_RUNTIME_SERVER_SEGMENT_MAX_LENGTH. lia.
    + unfold entries. by rewrite length_map.
  - destruct Hw as [_ _ Hv]. rewrite list.Forall_forall in Hv. specialize (Hv s Hs).
    assert (Hr : NoDup (map t_raw (s_tools s))) by apply Hv. rewrite toolSegments_entries by done.
    apply allocate_served; [by apply tools_existing|by apply toolRoom_bounds|].
    unfold entries, cands. by rewrite !length_map.
Qed.

Lemma distinct_permuted cs cs' :
  cs ≡ₚ cs' -> NoDup (map key cs) -> distinctCandidates cs = distinctCandidates cs'.
Proof.
  intros Hp Hnd. assert (Hnd' : NoDup (map key cs')) by (by rewrite <- Hp).
  assert (Hid : forall l, NoDup (map key l) -> map snd (jof_list (map (fun c => (key c, c)) l)) = l).
  { intros l Hl. rewrite jof_list_id, map_map by (by rewrite map_map). apply map_id. }
  unfold distinctCandidates. rewrite !Hid by done. apply (sort_by_unique _ key); [..|done|done].
  - intros x y. apply str_leb_total.
  - intros x y z. apply str_leb_trans.
  - intros x y Hne H1 H2. by apply Hne, str_leb_antisym.
Qed.

(** The order in which sources are discovered is invisible: permuting the
    candidates changes no name and no error. *)
Theorem allocation_order_irrelevant jsonParse calls (servers servers' : list McpNameCandidate)
    (Hperm : servers ≡ₚ servers') (Hkeys : NoDup (map key servers)) :
  fst (assignServers jsonParse servers (reached jsonParse calls))
  = fst (assignServers jsonParse servers' (reached jsonParse calls)).
Proof.
  unfold assignServers. cbn [fst]. unfold allocate. by rewrite (distinct_permuted _ _ Hperm Hkeys).
Qed.

(** ** Witnesses *)
Definition noParse : jstr -> option json := fun _ => None.
Definition candidate (k n : string) : McpNameCandidate := {| key := js k; name := js n |}.
Definition sample_servers : list McpNameCandidate := [candidate "1" "a b"; candidate "2" "a_b"; candidate "3" ""].
Definition sample_calls : list RegistryCall :=
  [AssignServers sample_servers; AssignTools (js "1") [js "read"; js "read!"]].

(** The name that needs no change wins; the other gets a suffix. *)
Example sample_reached :
  map (fun s => (s_key s, s_segment s, map (fun t => (t_raw t, t_segment t)) (s_tools s))) (reached noParse sample_calls)
  = [(js "1", js "a_b_2", [(js "read", js "read"); (js "read!", js "read_2")]); (js "2", js "a_b", [])].
Proof. by vm_compute. Qed.

Definition server_ab : ServerAssignment :=
  {| s_key := js "1"; s_raw := js "a b"; s_segment := js "a_b_2";
     s_tools := [{| t_raw := js "read"; t_segment := js "read" |};
                 {| t_raw := js "read!"; t_segment := js "read_2" |}] |}.
Definition tool_read : ToolAssignment := {| t_raw := js "read"; t_segment := js "read" |}.

Lemma runtime_names_owned_witness :
  matchesMcpServerRuntimeName (js "mcp__a_b_2__read") (js "mcp__a_b_2") = true <-> server_ab = server_ab.
Proof.
  assert (Ha : server_ab ∈ reached noParse sample_calls)
    by (apply (list_elem_of_lookup_2 _ 0); vm_compute; reflexivity).
  assert (Ht : tool_read ∈ s_tools server_ab) by (by left).
  exact (proj1 (proj2 (runtime_names_owned noParse sample_calls server_ab server_ab tool_read tool_read Ha Ha Ht Ht))).
Defined.

Lemma every_candidate_served_witness :
  served (serverSegments (reached noParse sample_calls)) name_server MCP_RUNTIME_SERVER_SEGMENT_MAX_LENGTH
    [candidate "9" "a b"] (fst (assignServers noParse [candidate "9" "a b"] (reached noParse sample_calls))).
Proof.
  assert (Ha : server_ab ∈ reached noParse sample_calls)
    by (apply (list_elem_of_lookup_2 _ 0); vm_compute; reflexivity).
  refine (proj1 (every_candidate_served noParse sample_calls [candidate "9" "a b"] server_ab [js "x"] Ha _ _));
    vm_compute; discriminate.
Defined.

Lemma allocation_order_irrelevant_witness :
  fst (assignServers noParse [candidate "2" "a_b"; candidate "1" "a b"] (reached noParse []))
  = fst (assignServers noParse [candidate "1" "a b"; candidate "2" "a_b"] (reached noParse [])).
Proof.
  apply (allocation_order_irrelevant noParse []).
  - apply Permutation_swap.
  - apply (bool_decide_unpack _). vm_compute. exact I.
Defined.
